(* ===== verification/_CoqProject ===== *)
-Q . S2P
Prelude.v
GoStrings.v
Types.v
Samples.v
Selection.v
SelectionFacts.v
SelectionClaims.v
Reach.v
Fanout.v
FanoutFacts.v
FanoutClaims.v
PromptRefs.v
PromptRefsClaims.v
Wiring.v
WiringFacts.v
WiringClaims.v
PromptSession.v
Validation.v
ValidationFacts.v
ValidationSound.v
ValidationDraft.v
ValidationClaims.v
MutationLane.v
MutationLaneFacts.v
MutationLaneClaims.v
TaskMutations.v
TaskMutationFacts.v
TaskMutationProgress.v
TaskMutationClaims.v
Transactions.v
TaskDependencies.v
TaskDependencyFacts.v
TaskDependencyClaims.v
CurrentState.v
CurrentStateClaims.v
SessionReuse.v
SessionReuseTermination.v
SessionReuseStatic.v
SessionReuseClaims.v
TaskTables.v
Materialization.v
TaskPlanning.v
TaskExecution.v
TaskActions.v
TaskCutoverFacts.v
TaskCutoverSpec.v
TaskPlanFacts.v
TaskPositionFacts.v
TaskRowFacts.v
TaskSamples.v
TaskPositionClaims.v
GraphTables.v
GraphSave.v
GraphFacts.v
GraphSaveFacts.v
GraphDraft.v
GraphCommit.v
GraphHistory.v
GraphReadback.v
GraphProgress.v
GraphProceed.v
GraphSamples.v
GraphClaims.v
AdmissionQueue.v
AdmissionQueueFacts.v
AdmissionInterface.v
Admission.v
AdmissionSteps.v
AdmissionFacts.v
AdmissionStepFacts.v
AdmissionWake.v
AdmissionAnswer.v
AdmissionDropped.v
AdmissionSamples.v
AdmissionClaims.v
