(* ===== verification/Prelude.v ===== *)
(** * Kent workflow engine: verification library

    Kent runs tasks through user-defined workflows. A workflow is a graph of
    nodes (start, agent, script, join, terminal) whose transition groups have
    one edge or, for a fan-out, several; each edge carries a prompt template,
    parameters, and a policy for the session and the agent its target
    continues with. The server keeps workflows and tasks in a database, checks
    every definition before it is used, and moves a task from node to node as
    agents complete. This library models the packages that decide all of that
    and proves what the rest of the server relies on.

    ** The parts and how they interact

    A definition enters through [ValidateDefinition], which composes every
    other analysis of src/server/workflow: key syntax, graph search, fan-out
    topology, derived wiring (itself built from prompt references), the role
    and thinking planners, and the static session analysis. A task at run time
    has current nodes, built by the constructors of current_state.go. Every
    move of a task (start, completion, resumption, application of a pending
    approval, move by hand) is prepared in a plan by reads outside any
    transaction, and one transaction, [commitTaskExecution], carries the plan
    out after checking that what it relied on still holds. Preparing a target
    resolves the values its prompt reads (wiring), the agent (selection) and
    the session it continues; the session analysis is run again, from the
    current node just completed, with the sessions the task retains. Tasks
    block one another through dependencies, which the store keeps in
    transactions; in-process mutations of a task are serialised by the
    coordinator, which takes a mutation lane for each task it is called with.
    The graph of a workflow is edited as a whole: a save is planned against the
    stored graph, checked by the validator and by a policy that protects what
    running tasks refer to, and carried out by a second transaction.
    What runs a task is the controller of src/server/workflowexecution: moves of
    a task queue the starts of its new nodes, a dispatcher takes them within its
    limits, and one goroutine per start prepares it, admits the node in the store
    inside the lane of its task, and hands it to the runner; interruptions fence
    a task and take its waiting starts away.

    ** Files and sources (paths under src/)

    - Prelude: notation, automation, and the generic facts the components
      share: the error type [result], Go maps of slices ([getl]), index maps,
      map iteration in an arbitrary order ([RangeOrder]), the loop combinator.
    - GoStrings: the string functions of the Go library that are used;
      shared/workflowkey/key.go.
    - Types, Samples: server/workflow/types.go, validation_types.go,
      execution_target.go; concrete definitions for evaluation.
    - Selection, SelectionFacts, SelectionClaims: selector_applicability.go,
      session_policy.go, protected_parameter_policy.go,
      target_agent_selection.go, target_agent_thinking.go,
      target_agent_execution.go, current_execution_selection.go,
      transition_parameter_contract.go; shared/config/subagents.go.
    - Reach: the worklist searches of derived_wiring.go and validation.go.
    - Fanout, FanoutFacts, FanoutClaims: fanout_join.go.
    - PromptRefs, PromptRefsClaims, PromptSession: prompt_refs.go.
    - Wiring, WiringFacts, WiringClaims: derived_wiring.go.
    - Validation, ValidationFacts, ValidationSound, ValidationDraft,
      ValidationClaims: validation.go.
    - MutationLane, MutationLaneFacts, MutationLaneClaims:
      server/mutationlane/mutation_lane.go.
    - TaskMutations, TaskMutationFacts, TaskMutationProgress,
      TaskMutationClaims: workflowexecution/task_mutation_coordinator.go over the
      lanes: the calls, the invariant of who has which lease, the measure of
      their runs, and the claims.
    - TaskDependencies, TaskDependencyFacts, TaskDependencyClaims:
      server/workflow/task_dependencies.go,
      server/workflowstore/task_dependencies.go, the dependency part of
      workflowstore/tasks.go, the queries of metadata/sqlitegen it runs.
    - CurrentState, CurrentStateClaims: current_state.go, retained_target.go.
    - SessionReuse, SessionReuseTermination, SessionReuseStatic,
      SessionReuseClaims: session_reuse_analysis.go.
    - Transactions: statements that can fail, programs over the tables, the
      transaction that keeps their effects only when it commits.
    - TaskTables: the tables a task's position is kept in, with the statements
      on them (workflowstore/current_nodes.go, task_session_associations.go,
      metadata/sqlitegen/queries.sql.go).
    - Materialization: the current node a transition creates
      (workflowstore/current_node_completion.go,
      transition_target_session.go, retained_target_invariant.go).
    - TaskPlanning: completions: output contract, sequential transitions,
      fan-outs, joins, requests for approval (workflowstore/completion_plan.go,
      current_node_completion.go, current_node_completion_contract.go,
      current_node_fanout.go, current_node_join.go,
      transition_parameter_contract.go, pending_approvals.go).
    - TaskExecution: the transaction (workflowstore/task_execution_plan.go),
      the storage of approvals, creation and deletion of tasks (tasks.go).
    - TaskActions: the other preparations (workflowstore/tasks.go,
      current_node_resume.go, manual_moves.go, manual_move_preview.go,
      context_selection_required.go, completion_plan.go).
    - TaskCutoverFacts, TaskCutoverSpec, TaskPlanFacts, TaskPositionFacts,
      TaskRowFacts, TaskSamples, TaskPositionClaims: what the statements and the
      transaction do to the position of a task, what the transaction does to
      sessions, associations, approvals and the row of the task, what a prepared
      plan satisfies, the invariant of positions, the encoding of rows, a run
      from creation to the end, and the claims.
    - GraphTables: the tables of workflow graphs, their constraints (checks,
      unique keys, triggers, foreign keys) and the statements on them
      (metadata/migrations, metadata/sqlitegen/queries.sql.go).
    - GraphSave: the plan of a save, what it removes and changes, its blockers,
      the write transaction, reading, creation and renaming of workflows
      (workflowstore/graph_save.go, graph_edit_policy.go, graph_records.go,
      graph_save_request.go, execution_target_policy.go, store.go).
    - GraphFacts, GraphSaveFacts: consistent tables, what a statement leaves
      alone, and what the writes leave behind. GraphDraft: what an unblocked
      draft satisfies. GraphCommit: plans and their commit. GraphHistory:
      histories of transactions. GraphReadback: reading what was written.
      GraphProgress, GraphProceed: the writes succeed. GraphSamples,
      GraphClaims: a history of saves, and the claims.
    - AdmissionQueue, AdmissionQueueFacts: the queue of automatic starts, three
      doubly linked chains over one heap of entries
      (workflowexecution/current_node_automatic_queue.go), and its
      representation. AdmissionInterface: what the controller asks of a queue,
      with the linked queue and a list as instances.
    - Admission: the state of the controller and its mutex sections, over any
      queue of that interface (workflowexecution/current_node_controller.go,
      current_node_admission.go, current_node_lifecycle.go,
      current_node_interruption.go, current_node_interrupt_state.go), with the
      selection of what an interruption takes
      (server/sessionruntime/workflow_interrupt.go).
      AdmissionSteps: the dispatcher, the goroutines and the callers, their
      interleavings, and what a resumption waits for. AdmissionFacts,
      AdmissionStepFacts, AdmissionWake: the invariant of the controller, of the
      whole system, and of its wake-ups. AdmissionAnswer, AdmissionDropped: what
      becomes of a start that a caller waits for, queued or dropped.
      AdmissionSamples, AdmissionClaims: concrete schedules, and the claims.

    Names are the source's, with a prefix on record fields where Rocq needs
    one. Code that fills a shared record pass by pass is one definition per
    pass over the fields it fills; code that appends diagnostics returns them.
    Go maps are finite maps; where the code ranges over a map, the order is an
    argument ([RangeOrder]) and the theorems hold for every order. A nil
    dereference is [None]. Concurrent code (the lanes, the controller) is a step
    relation with one step per critical section; database code is a program over the tables
    whose every statement may fail, run in a transaction that keeps its effects
    only when it commits, and the theorems hold for every pattern of failures.

    ** What the theorems show

    - Validation: what an accepted definition satisfies (unique identifiers,
      resolved references, reachability, shapes of starts, joins and
      terminals), which diagnostics block, how drafts relate to the other
      contexts, exactly when the validator panics; two accepted definitions
      whose fan-out cannot be joined.
    - Session analysis: its loops end, and its path states cover every run of an
      accepted definition. A run carries the session by the analyzer's own
      transfer function, not by the rules of the store, from which it differs:
      [retained_branches_accepted].
    - Fan-outs: the traversal of a branch visits exactly the walks of the
      branch, the nearest common join is the nearest, and [ResolveFanoutJoin]
      returns a join with the edges that enter it.
    - Wiring and prompts: what a transition must provide, what a join
      aggregates and which values a node's prompt requires are characterised by
      the references that occur in reachable prompts and by dominance.
    - Selection: the planners return exactly the permitted roles and levels,
      and the parameter contract consumes what it exposes.
    - Lanes: mutual exclusion, a panic exactly on a double release, no leaked
      entry, no lost wake-up, refinement of an abstract lock per key.
    - Task mutations: calls for several tasks, also from within operations, take
      lanes without deadlock; every run of them ends with no call left, and an
      operation has the lanes of its tasks to itself.
    - Dependencies: the invariant of the tables (no self or reciprocal
      dependency, one project, limits both ways) under every history, the exact
      effect of each operation or its refusal, round trips.
    - Current nodes: constructors accept exactly the well-formed values, and
      references are determined by their keys; a stored row is read back as the
      node it was written from; admission and interruption change exactly the
      row that admits them.
    - Positions: in every reachable state every task is at one serial node or
      at the pending branches of its fan-out. The histories interleave
      preparations and commits of several callers, and every read, statement
      and commit may fail. A committed completion has one of five effects (a
      sequential move, a fan-out, an arrival at a join, the opening of a join,
      a pending approval), and the join opens with the last arrival only; the
      transaction carries out its plan or nothing, in every table (current
      nodes, fan-outs, sessions, associations, approvals, the workflow and the
      time of the task); a plan prepared from a
      position, a workflow version or arrivals that changed since is refused
      without effect.
    - Graphs: in every history of creations, renamings, saves and movements of
      tasks, with any save prepared in any earlier state and any statement
      failing: the tables are consistent, a version of a workflow identifies
      its definition, a successful save is read back as the definition it
      reported, and running tasks keep the nodes and edges they refer to.
      Without failures a save that nothing blocks is carried out, also when
      entities exchange their keys.
    - Execution: under every schedule, with every answer of the store, the runner
      and the authority: agent capacity is neither exceeded nor lost, a node has
      one owner among queues and reservations, no wake-up of the dispatcher is
      lost, a caller that waits for an admission or for a start it has queued is
      answered, while the caller of a start that is dropped because its node is
      owned never is, a durable admission excludes an interruption of its task,
      an interruption of a task with a running execution takes exactly its
      waiting starts and without one is refused, and the linked queue answers as
      a list. Two claims (quiescence, and that the controller's own panics do not
      happen) hold as long as no start is taken while the goroutine that admitted
      its node before still runs; [requeued_node_panics] is a schedule in which
      it does.

    ** Fuel

    Searches that are not structural run with a computed fuel, and a theorem
    shows each is enough. [dfs]: 2 + the number of edges, as each edge is pushed
    once. The walk of a fan-out branch: 1 + (1 + edges) ^ nodes, the number of
    simple walks. The session analysis: 1 + initial + states * (2 * keys + 3),
    as a path state is processed again only when its associations have grown;
    its terminal search 2 + transitions; its sweeps 2 + states; its reference
    search 1 + edges * branches. The fuel is binary, so that the model
    evaluates. The loops over the automatic queue: 1 + the entries of its heap,
    as the chain visits an entry once.

    ** Not modelled

    The parser of text/template is a parameter (its tree is modelled), as are
    the generated validator of locked execution targets and the catalog of agent
    roles. Of the movement of tasks, the choice of the transition that leads to
    an executable destination of a move by hand and the values it finds in the
    history (the second half of manual_move_preview.go) are arguments of
    [PlanManualMove]; execution targets, execution roots, worktrees, labels and
    comments are statements that can fail and have no other effect on the
    model; published events and reports of broken invariants are left out. Of
    the persistence of graphs, the deletion of workflows, their links to
    projects and the diagnostics of script paths, which depend on the file
    system, are left out. Of workflowexecution, the store, the runner and the
    session authority are answers chosen by the schedule, and a caller's mutation
    can run until closing ends, as one accepted before it began does; the
    classification of a resumption (but for its end: the completion it waits
    for), the snapshot for observers, the wait group of operations, the
    waits of an interruption (its end is a step) and the budget of protocol
    violations are left out.
    Not modelled because they are input and output, views, or clients of
    services outside the repository: the metadata store and its migrations
    beyond the queries above, the agent runtime, session store, language model
    clients, tools, transport, the command line and terminal front ends, the
    desktop application. Contexts, wrapped error texts and logging are left out
    throughout.

    ** Plan

    Next: deletion of workflows and their links to projects; the second half of
    manual_move_preview.go; the round trip of a stored approval, and progress of
    a task's commit that no failure and no other writer disturbs; the resumption
    of tasks in workflowexecution; the sessions of runs by the rules of the store,
    and [ClassifyWorkflowSessionReuse] against them; independence of the validator
    from the order of every single iteration. *)
From Stdlib Require Import NArith.
From stdpp Require Import gmap strings list fin_maps relations sorting.

#[export] Set Warnings "-clear-no-such-hyp,-register-all".

(** ** Notation *)

Declare Scope kent_scope.
Delimit Scope kent_scope with kent.

(** Go's [==] on comparable values, as a boolean. *)
Notation "a ==? b" := (bool_decide (a = b))
  (at level 70, no associativity) : kent_scope.
Notation "a <>? b" := (negb (bool_decide (a = b)))
  (at level 70, no associativity) : kent_scope.
(** Go's lookup in a set represented as [map[K]bool] or [map[K]struct{}]. *)
Notation "x ∈? s" := (bool_decide (x ∈ s))
  (at level 70, no associativity) : kent_scope.

Global Open Scope kent_scope.

(** ** Automation *)

Create HintDb kent discriminated.
Create Rewrite HintDb kent.

(** Splits the booleans of the code's conditions into propositions. *)
Ltac bool_simp :=
  repeat match goal with
  | H : _ && _ = true |- _ => apply andb_true_iff in H; destruct H
  | H : _ || _ = false |- _ => apply orb_false_iff in H; destruct H
  | H : negb _ = true |- _ => apply negb_true_iff in H
  | H : negb _ = false |- _ => apply negb_false_iff in H
  | H : bool_decide _ = true |- _ => apply bool_decide_eq_true_1 in H
  | H : bool_decide _ = false |- _ => apply bool_decide_eq_false_1 in H
  end.

(** Case analysis on the scrutinee of the first [if] or [match] of the goal
    or of a hypothesis. *)
Ltac case_if_goal :=
  match goal with
  | |- context [if ?b then _ else _] => destruct b eqn:?
  end.
Ltac case_match_hyp H :=
  match type of H with
  | context [if ?b then _ else _] => destruct b eqn:?
  | context [match ?b with _ => _ end] => destruct b eqn:?
  end.
(** Evaluates the comparisons of string constants in the goal. *)
Ltac string_const t :=
  lazymatch t with EmptyString => idtac | String _ _ => idtac | _ => is_const t end.
Ltac decide_consts :=
  repeat match goal with
  | |- context [bool_decide (@eq string ?a ?b)] =>
    string_const a; string_const b;
    let v := eval vm_compute in (bool_decide (@eq string a b)) in
    match v with
    | true => change (bool_decide (@eq string a b)) with true
    | false => change (bool_decide (@eq string a b)) with false
    end
  end; cbv iota.
Ltac decide_consts_in H := revert H; decide_consts; intros H.
Ltac cases_in H := repeat (case_match_hyp H; simplify_eq/=).

(** ** Loops

    Go's [for cond { body }] is a step function that either continues with a
    new state or returns. [loop] runs it with binary fuel, so that a bound
    that is exponential in the size of the graph still evaluates: the run
    stops at the first return. *)
Section loop.
Context {S R : Type} (step : S → S + R).

Fixpoint loop_nat (n : nat) (s : S) : S + R :=
  match n with
  | O => inl s
  | Datatypes.S n => match step s with inl s' => loop_nat n s' | inr r => inr r end
  end.

Fixpoint loop_pos (p : positive) (s : S) : S + R :=
  match p with
  | xH => step s
  | xO p => match loop_pos p s with inl s' => loop_pos p s' | inr r => inr r end
  | xI p =>
    match step s with
    | inl s1 => match loop_pos p s1 with inl s' => loop_pos p s' | inr r => inr r end
    | inr r => inr r
    end
  end.

Definition loop (fuel : N) (s : S) : option R :=
  match fuel with
  | N0 => None
  | Npos p => match loop_pos p s with inl _ => None | inr r => Some r end
  end.

Lemma loop_nat_add n m s :
  loop_nat (n + m) s = match loop_nat n s with inl s' => loop_nat m s' | inr r => inr r end.
Proof.
  revert s. induction n as [|n IH]; intros s; [done|]. simpl. destruct (step s); [apply IH|done].
Qed.

Lemma loop_pos_nat p s : loop_pos p s = loop_nat (Pos.to_nat p) s.
Proof.
  revert s. induction p as [p IH|p IH|]; intros s.
  - replace (Pos.to_nat p~1) with (1 + (Pos.to_nat p + Pos.to_nat p)) by lia.
    rewrite loop_nat_add. simpl. destruct (step s) as [s1|]; [|done].
    rewrite loop_nat_add, IH. by destruct (loop_nat _ s1).
  - replace (Pos.to_nat p~0) with (Pos.to_nat p + Pos.to_nat p) by lia.
    rewrite loop_nat_add. simpl. rewrite IH. by destruct (loop_nat _ s).
  - simpl. by destruct (step s).
Qed.

(** Total correctness of a loop: an invariant that every continuing step
  preserves while a measure strictly decreases; with more fuel than the
  measure the loop returns, from a state that satisfies the invariant. *)
Lemma loop_total (inv : S → Prop) (m : S → N) (fuel : N) (s : S) :
  (∀ s s', inv s → step s = inl s' → inv s' ∧ (m s' < m s)%N) →
  inv s → (m s < fuel)%N →
  ∃ r s', loop fuel s = Some r ∧ inv s' ∧ step s' = inr r.
Proof.
  intros Hstep Hinv Hm.
  assert (∀ n s, inv s → (m s < N.of_nat n)%N →
    ∃ r s', loop_nat n s = inr r ∧ inv s' ∧ step s' = inr r) as Hn.
  { clear s Hinv Hm. induction n as [|n IH]; intros s Hinv Hm; [lia|].
    simpl. destruct (step s) as [s1|r] eqn:E; [|by eauto].
    destruct (Hstep _ _ Hinv E) as [Hinv' Hlt]. apply IH; [done|lia]. }
  destruct fuel as [|p]; [lia|]. simpl. rewrite loop_pos_nat.
  destruct (Hn (Pos.to_nat p) s Hinv) as (r & s' & -> & ?); [lia|]. eauto.
Qed.
End loop.

(** ** Emitting loops

    A [for range] loop that carries local variables of type [S] and appends
    to a list of results of type [E]. *)
Fixpoint fold_emit {S A E} (f : S → A → S * list E) (s : S) (l : list A) : S * list E :=
  match l with
  | [] => (s, [])
  | a :: l => let '(s1, e1) := f s a in let '(s2, e2) := fold_emit f s1 l in (s2, e1 ++ e2)
  end.

Section fold_emit.
Context {S A E : Type} (f : S → A → S * list E).

Lemma fold_emit_app s l1 l2 :
  fold_emit f s (l1 ++ l2) =
    let '(s1, e1) := fold_emit f s l1 in
    let '(s2, e2) := fold_emit f s1 l2 in (s2, e1 ++ e2).
Proof.
  revert s. induction l1 as [|a l1 IH]; intros s; simpl.
  - by destruct (fold_emit f s l2).
  - destruct (f s a) as [s1 e1]. rewrite IH.
    destruct (fold_emit f s1 l1) as [s2 e2]. destruct (fold_emit f s2 l2).
    by rewrite app_assoc.
Qed.

Lemma fold_emit_fst s l : (fold_emit f s l).1 = foldl (λ s a, (f s a).1) s l.
Proof.
  revert s. induction l as [|a l IH]; intros s; simpl; [done|].
  specialize (IH (f s a).1). destruct (f s a) as [s1 e1]. simpl in *.
  rewrite <- IH. by destruct (fold_emit f s1 l).
Qed.

(** What is emitted is emitted at some element, after a prefix. *)
Lemma elem_of_fold_emit x s l :
  x ∈ (fold_emit f s l).2 ↔
    ∃ l1 a l2, l = l1 ++ a :: l2 ∧ x ∈ (f (fold_emit f s l1).1 a).2.
Proof.
  revert s. induction l as [|a l IH]; intros s; simpl.
  - split; [by intros ?%elem_of_nil|]. by intros ([|??]&?&?&?&?).
  - destruct (f s a) as [s1 e1] eqn:E1. specialize (IH s1).
    destruct (fold_emit f s1 l) as [s2 e2] eqn:E2. simpl in *.
    rewrite elem_of_app, IH. split.
    + intros [Hx|(l1 & b & l2 & -> & Hx)].
      * exists [], a, l. simpl. by rewrite E1.
      * exists (a :: l1), b, l2. simpl. rewrite E1.
        split; [done|]. by destruct (fold_emit f s1 l1).
    + intros ([|a' l1] & b & l2 & Heq & Hx); simplify_eq/=.
      * rewrite E1 in Hx. by left.
      * right. exists l1, b, l2. split; [done|]. rewrite E1 in Hx.
        by destruct (fold_emit f s1 l1).
Qed.
End fold_emit.

(** A nested emitting loop is the loop over the pairs it visits. *)
Lemma fold_emit_nested {S A B E} (f : A → S → B → S * list E) (g : A → list B) s l :
  fold_emit (λ s a, fold_emit (f a) s (g a)) s l =
  fold_emit (λ s ab, f ab.1 s ab.2) s (l ≫= λ a, (pair a) <$> g a).
Proof.
  revert s. induction l as [|a l IH]; intros s; simpl; [done|].
  rewrite fold_emit_app.
  assert (∀ s, fold_emit (λ s ab, f ab.1 s ab.2) s (pair a <$> g a) = fold_emit (f a) s (g a)) as ->.
  { induction (g a) as [|b bs IHb]; intros s'; simpl; [done|]. destruct (f a s' b). by rewrite IHb. }
  destruct (fold_emit (f a) s (g a)) as [s1 e1]. by rewrite IH.
Qed.

(** A silent loop was silent at every element. *)
Lemma fold_emit_snoc_silent {S A E} (f : S → A → S * list E) s l a :
  (fold_emit f s (l ++ [a])).2 = [] →
  (fold_emit f s l).2 = [] ∧ (f (fold_emit f s l).1 a).2 = [] ∧
  (fold_emit f s (l ++ [a])).1 = (f (fold_emit f s l).1 a).1.
Proof.
  rewrite fold_emit_app. destruct (fold_emit f s l) as [s1 e1]. simpl.
  destruct (f s1 a) as [s2 e2]. simpl. rewrite app_nil_r. by intros [-> ->]%app_eq_nil.
Qed.

(** ** Maps of slices: [m[k]] on a missing key is the nil slice. *)
Section multimap.
Context {K V : Type} `{Countable K}.
Implicit Types m : gmap K (list V).

Definition getl m (k : K) : list V := default [] (m !! k).
Definition appendl (k : K) (v : V) m : gmap K (list V) := <[k := getl m k ++ [v]]> m.

Lemma getl_empty k : getl ∅ k = [].
Proof. unfold getl. by rewrite lookup_empty. Qed.
Lemma getl_appendl_eq k v m : getl (appendl k v m) k = getl m k ++ [v].
Proof. unfold appendl, getl. by rewrite lookup_insert_eq. Qed.
Lemma getl_appendl_ne k k' v m : k ≠ k' → getl (appendl k v m) k' = getl m k'.
Proof. intros. unfold appendl, getl. by rewrite lookup_insert_ne. Qed.

(** Indexing a list by key: the bucket of [k] is the sublist with that key. *)
Lemma getl_foldl_appendl {A} (key : A → option K) (val : A → V) l m k :
getl (foldl (λ m a, match key a with Some k => appendl k (val a) m | None => m end) m l) k =
  getl m k ++ (val <$> filter (λ a, key a = Some k) l).
Proof.
revert m. induction l as [|a l IH]; intros m; simpl.
- by rewrite app_nil_r.
- rewrite IH. rewrite filter_cons. destruct (key a) as [k'|] eqn:E.
  + destruct (decide (k' = k)) as [->|Hne].
    * rewrite getl_appendl_eq, decide_True by done. simpl. by rewrite <- app_assoc.
    * rewrite getl_appendl_ne, decide_False by congruence. done.
  + by rewrite decide_False by congruence.
Qed.

(** Number of values stored under keys outside a set. *)
Definition weight m (X : gset K) : N :=
  map_fold (λ _ l acc, N.of_nat (length l) + acc)%N 0%N (filter (λ kv, kv.1 ∉ X) m).
Definition total m : N := weight m ∅.

Lemma weight_visit m X k :
  k ∉ X → weight m X = (N.of_nat (length (getl m k)) + weight m ({[k]} ∪ X))%N.
Proof.
  intros Hk. unfold weight, getl.
  assert (filter (λ kv : K * list V, kv.1 ∉ {[k]} ∪ X) m =
          delete k (filter (λ kv : K * list V, kv.1 ∉ X) m)) as ->.
  { apply map_eq. intros j. apply option_eq. intros l.
    rewrite lookup_delete_Some, !map_lookup_filter_Some. simpl.
    rewrite not_elem_of_union, elem_of_singleton. intuition congruence. }
  destruct (m !! k) as [l|] eqn:E; simpl.
  - assert (filter (λ kv : K * list V, kv.1 ∉ X) m !! k = Some l) as Hl
      by (apply map_lookup_filter_Some; done).
    rewrite (map_fold_delete_L _ _ k l); [done|intros; lia|done].
  - rewrite delete_id; [lia|]. apply map_lookup_filter_None. by left.
Qed.
End multimap.

Global Arguments getl : simpl never.
Global Arguments appendl : simpl never.

(** ** Map iteration

    Go leaves the order of [for range] over a map unspecified. A [RangeOrder]
    fixes one admissible order for each map; what is proved for every instance
    holds whatever order the runtime picks, as long as it ranges over one map in
    one order throughout. The theorems about the iterations themselves (the
    nearest join, the callable roles, the scope of a prompt) compare two
    instances and need no such proviso. *)
Class RangeOrder := {
    range_map {K V} `{Countable K} : gmap K V → list (K * V);
    range_set {K} `{Countable K} : gset K → list K;
    range_map_perm {K V} `{Countable K} (m : gmap K V) : range_map m ≡ₚ map_to_list m;
    range_set_perm {K} `{Countable K} (X : gset K) : range_set X ≡ₚ elements X;
  }.

(** The order in which stdpp enumerates a map, used to evaluate witnesses. *)
Definition default_order : RangeOrder := {|
    range_map K V _ _ m := map_to_list m;
    range_set K _ _ X := elements X;
    range_map_perm K V _ _ m := Permutation_refl (map_to_list m);
    range_set_perm K _ _ X := Permutation_refl (elements X);
  |}.

(** A second admissible order, to exhibit order-dependent results. *)
Definition reverse_order : RangeOrder := {|
    range_map K V _ _ m := reverse (map_to_list m);
    range_set K _ _ X := reverse (elements X);
    range_map_perm K V _ _ m := reverse_Permutation (map_to_list m);
    range_set_perm K _ _ X := reverse_Permutation (elements X);
  |}.

Lemma elem_of_range_map `{RangeOrder} {K V} `{Countable K} (m : gmap K V) k v :
  (k, v) ∈ range_map m ↔ m !! k = Some v.
Proof. rewrite range_map_perm. apply elem_of_map_to_list. Qed.
Lemma elem_of_range_set `{RangeOrder} {K} `{Countable K} (X : gset K) k :
  k ∈ range_set X ↔ k ∈ X.
Proof. rewrite range_set_perm. apply elem_of_elements. Qed.
#[export] Hint Rewrite @elem_of_range_map @elem_of_range_set : kent.

(** ** Lists *)

(** Go's [append(out, x)] guarded by a membership test. *)
Definition append_unique {A} `{EqDecision A} (l : list A) (x : A) : list A :=
  if x ∈? l then l else l ++ [x].

Section append_unique.
Context {A : Type} `{EqDecision A}.
Implicit Types l : list A.

Lemma elem_of_append_unique l x y : y ∈ append_unique l x ↔ y ∈ l ∨ y = x.
Proof.
unfold append_unique. case_bool_decide; [naive_solver|].
by rewrite elem_of_app, list_elem_of_singleton.
Qed.
Lemma NoDup_append_unique l x : NoDup l → NoDup (append_unique l x).
Proof.
  unfold append_unique. case_bool_decide; [done|]. intros.
  apply NoDup_app. split; [done|]. split; [set_solver|apply NoDup_singleton].
Qed.
Lemma NoDup_foldl_append_unique l xs : NoDup l → NoDup (foldl append_unique l xs).
Proof. revert l. induction xs; simpl; auto using NoDup_append_unique. Qed.
Lemma elem_of_foldl_append_unique l xs y :
y ∈ foldl append_unique l xs ↔ y ∈ l ∨ y ∈ xs.
Proof.
revert l. induction xs as [|x xs IH]; intros l; simpl; [set_solver|].
rewrite IH, elem_of_append_unique. set_solver.
Qed.
End append_unique.

(** Go's [len(m)] for a set of list elements collected in a map. *)
Lemma length_filter_le {A} (P : A → Prop) `{∀ x, Decision (P x)} (l : list A) :
  length (filter P l) ≤ length l.
Proof. induction l; simpl; [done|]. rewrite filter_cons. case_decide; simpl; lia. Qed.

Lemma filter_none {A} (P : A → Prop) `{∀ x, Decision (P x)} (l : list A) :
  (∀ x, x ∈ l → ¬ P x) → filter P l = [].
Proof.
  induction l as [|a l IH]; intros Hl; [done|].
  rewrite filter_cons_False by (apply Hl; left). apply IH. intros x Hx. apply Hl. by right.
Qed.

Lemma bind_nil {A B} (f : A → list B) (l : list A) : l ≫= f = [] ↔ ∀ x, x ∈ l → f x = [].
Proof.
  induction l as [|a l IH]; simpl; [split; [by intros _ ? ?%elem_of_nil|done]|].
  rewrite app_nil, IH. setoid_rewrite elem_of_cons. naive_solver.
Qed.
Lemma mapM_join {A B} (f : A → option (list B)) (l : list A) r :
  mjoin <$> mapM f l = Some r ↔ ∃ rs, Forall2 (λ a b, f a = Some b) l rs ∧ r = mjoin rs.
Proof.
  rewrite fmap_Some. setoid_rewrite mapM_Some. done.
Qed.
Lemma mapM_join_nil {A B} (f : A → option (list B)) (l : list A) :
  mjoin <$> mapM f l = Some [] → ∀ a, a ∈ l → f a = Some [].
Proof.
  rewrite mapM_join. intros (rs & Hrs & Hr). revert Hr. induction Hrs as [|a b l rs Hab _ IH]; simpl.
  { by intros _ ? ?%elem_of_nil. }
  intros Hr. symmetry in Hr. apply app_nil in Hr as [-> Hr]. intros x [->|Hx]%elem_of_cons; [done|by apply IH].
Qed.
Lemma mapM_join_None {A B} (f : A → option (list B)) (l : list A) :
  mjoin <$> mapM f l = None ↔ ∃ a, a ∈ l ∧ f a = None.
Proof.
  rewrite fmap_None, mapM_None, Exists_exists. done.
Qed.

(** What every emitted element satisfies. *)
Lemma Forall_fold_emit {S A E} (P : E → Prop) (f : S → A → S * list E) s l :
  (∀ s a, Forall P (f s a).2) → Forall P (fold_emit f s l).2.
Proof.
  intros Hf. revert s. induction l as [|a l IH]; intros s; simpl; [done|].
  specialize (Hf s a). destruct (f s a) as [s1 e1]. specialize (IH s1).
  destruct (fold_emit f s1 l) as [s2 e2]. simpl in *. by apply Forall_app.
Qed.
Lemma Forall_bind_all {A B} (P : B → Prop) (f : A → list B) (l : list A) :
  (∀ a, Forall P (f a)) → Forall P (l ≫= f).
Proof. intros Hf. induction l; simpl; [done|]. by apply Forall_app. Qed.

(** A left fold that only grows a property keeps it. *)
Lemma foldl_inv {A B} (P : B → Prop) (f : B → A → B) b l :
  P b → (∀ b a, a ∈ l → P b → P (f b a)) → P (foldl f b l).
Proof.
  revert b. induction l as [|a l IH]; intros b Hb Hf; [done|].
  simpl. apply IH; [apply Hf; set_solver|]. intros. apply Hf; set_solver.
Qed.

(** Filtering by what all elements satisfy. *)
Lemma filter_all {A} (P : A → Prop) `{!∀ x, Decision (P x)} (l : list A) : (∀ x, x ∈ l → P x) → filter P l = l.
Proof.
  induction l as [|x l IH]; intros Hl; [done|]. rewrite filter_cons_True by (apply Hl; by left). f_equal. apply IH. intros y Hy. apply Hl. by right.
Qed.

(** A value without repetitions determines its element. *)
Lemma NoDup_fmap_inj {A B} (f : A → B) (l : list A) a b : NoDup (f <$> l) → a ∈ l → b ∈ l → f a = f b → a = b.
Proof.
  intros Hnd (i & Hi)%list_elem_of_lookup_1 (j & Hj)%list_elem_of_lookup_1 E.
  assert (i = j) as ->; [|congruence]. eapply (NoDup_lookup _ _ _ (f a) Hnd); rewrite list_lookup_fmap; [by rewrite Hi|].
  rewrite Hj. simpl. by f_equal.
Qed.

(** Strict order facts of Go's [sort] comparators. *)
Lemma Sorted_unique_perm {A} (R : relation A) `{!Transitive R, !AntiSymm (=) R} (l1 l2 : list A) :
  Sorted R l1 → Sorted R l2 → l1 ≡ₚ l2 → l1 = l2.
Proof. apply (Sorted_unique R). Qed.

(** ** Results

    Go's [(value, error)] pairs whose value is unused on error. *)
Inductive result (E A : Type) : Type :=
| Ok (a : A)
| Err (e : E).
Arguments Ok {E A} a.
Arguments Err {E A} e.

#[export] Instance result_ret {E} : MRet (result E) := λ A a, Ok a.
#[export] Instance result_bind {E} : MBind (result E) := λ A B f r,
  match r with Ok a => f a | Err e => Err e end.

Lemma bind_Ok {E A B} (r : result E A) (f : A → result E B) b :
  r ≫= f = Ok b ↔ ∃ a, r = Ok a ∧ f a = Ok b.
Proof. destruct r; simpl; naive_solver. Qed.
