(* ===== verification/GoStrings.v ===== *)
(** * Go strings

    The operations of the Go standard library on strings that the workflow
    packages use, on strings as byte sequences ([strings.TrimSpace],
    [utf8.RuneCountInString], [strings.EqualFold] and [strings.ToLower] where
    their argument decides a match with ASCII text, [sort.Strings]), and the
    key syntax of src/shared/workflowkey/key.go. *)
From Stdlib Require Import NArith Ascii String.
From stdpp Require Import gmap strings list sorting.
From S2P Require Import Prelude.

Local Open Scope N_scope.

Abbreviation byte_in lo c hi := ((lo <=? N_of_ascii c) && (N_of_ascii c <=? hi)).

(** ** UTF-8 white space

    [unicode.IsSpace] holds of U+0009..U+000D, U+0020, U+0085, U+00A0, U+1680,
    U+2000..U+200A, U+2028, U+2029, U+202F, U+205F and U+3000; these are their
    one-, two- and three-byte encodings. *)
Definition space1 (a : ascii) : bool :=
  byte_in 9 a 13 || (N_of_ascii a =? 32).
Definition space2 (a b : ascii) : bool :=
  (N_of_ascii a =? 194) && ((N_of_ascii b =? 133) || (N_of_ascii b =? 160)).
Definition space3 (a b c : ascii) : bool :=
  ((N_of_ascii a =? 225) && (N_of_ascii b =? 154) && (N_of_ascii c =? 128))
  || ((N_of_ascii a =? 226) && (N_of_ascii b =? 128) &&
       (byte_in 128 c 138 || (N_of_ascii c =? 168) || (N_of_ascii c =? 169) || (N_of_ascii c =? 175)))
  || ((N_of_ascii a =? 226) && (N_of_ascii b =? 129) && (N_of_ascii c =? 159))
  || ((N_of_ascii a =? 227) && (N_of_ascii b =? 128) && (N_of_ascii c =? 128)).

Section trim.
Context (s1 : ascii → bool) (s2 : ascii → ascii → bool) (s3 : ascii → ascii → ascii → bool).

(** Drops encoded white space from the front, one rune at a time. *)
Fixpoint trim_front (l : list ascii) : list ascii :=
  match l with
  | [] => []
  | a :: l1 =>
    if s1 a then trim_front l1 else
    match l1 with
    | [] => l
    | b :: l2 =>
      if s2 a b then trim_front l2 else
      match l2 with
      | [] => l
      | c :: l3 => if s3 a b c then trim_front l3 else l
      end
    end
  end.

(** No white space rune starts the sequence. *)
Definition front_clean (l : list ascii) : Prop :=
  match l with
  | [] => True
  | a :: l1 => s1 a = false ∧
    match l1 with
    | [] => True
    | b :: l2 => s2 a b = false ∧ match l2 with [] => True | c :: _ => s3 a b c = false end
    end
  end.

Lemma trim_front_ind (P : list ascii → list ascii → Prop) :
  (∀ l, front_clean l → P l l) →
  (∀ a l, s1 a = true → P l (trim_front l) → P (a :: l) (trim_front l)) →
  (∀ a b l, s2 a b = true → P l (trim_front l) → P (a :: b :: l) (trim_front l)) →
  (∀ a b c l, s3 a b c = true → P l (trim_front l) → P (a :: b :: c :: l) (trim_front l)) →
  ∀ l, P l (trim_front l).
Proof.
  intros H0 H1 H2 H3.
  assert (∀ n l, (length l ≤ n)%nat → P l (trim_front l)) as Hn.
  { induction n as [|n IH]; intros [|a l] Hl; simpl in Hl; try lia; try by apply H0.
    simpl. destruct (s1 a) eqn:E1; [apply H1; auto with lia|].
    destruct l as [|b l]; [by apply H0|].
    destruct (s2 a b) eqn:E2; [simpl in Hl; apply H2; auto with lia|].
    destruct l as [|c l]; [by apply H0|].
    destruct (s3 a b c) eqn:E3; [simpl in Hl; apply H3; auto with lia|by apply H0]. }
  intros l. by apply (Hn (length l)).
Qed.

Lemma trim_front_clean l : front_clean (trim_front l).
Proof. apply (trim_front_ind (λ _ r, front_clean r)); auto. Qed.
Lemma trim_front_id l : front_clean l → trim_front l = l.
Proof.
destruct l as [|a [|b [|c l]]]; simpl; [done|..].
- by intros [-> _].
- by intros (-> & -> & _).
- by intros (-> & -> & ->).
Qed.
Lemma trim_front_suffix l : ∃ k, l = k ++ trim_front l.
Proof.
  apply (trim_front_ind (λ l r, ∃ k, l = k ++ r)); [by exists []| | |].
  - intros a l' _ [k Hk]. exists (a :: k). by rewrite Hk at 1.
  - intros a b l' _ [k Hk]. exists (a :: b :: k). by rewrite Hk at 1.
  - intros a b c l' _ [k Hk]. exists (a :: b :: c :: k). by rewrite Hk at 1.
Qed.
Lemma front_clean_prefix l k : front_clean (l ++ k) → front_clean l.
Proof. destruct l as [|a [|b [|c l]]]; simpl; naive_solver. Qed.
End trim.

Definition trim_left : list ascii → list ascii := trim_front space1 space2 space3.
Definition trim_right (l : list ascii) : list ascii :=
  reverse (trim_front space1 (λ b a, space2 a b) (λ c b a, space3 a b c) (reverse l)).

(** [strings.TrimSpace]. *)
Definition TrimSpace (s : string) : string :=
  string_of_list_ascii (trim_right (trim_left (list_ascii_of_string s))).

Lemma TrimSpace_idemp s : TrimSpace (TrimSpace s) = TrimSpace s.
Proof.
  unfold TrimSpace. rewrite list_ascii_of_string_of_list_ascii. f_equal.
  set (t := trim_left (list_ascii_of_string s)).
  assert (front_clean space1 space2 space3 t) as Ht by apply trim_front_clean.
  assert (trim_left (trim_right t) = trim_right t) as ->.
  { apply trim_front_id. unfold trim_right.
    destruct (trim_front_suffix space1 (λ b a, space2 a b) (λ c b a, space3 a b c) (reverse t))
      as [k Hk].
    apply (front_clean_prefix _ _ _ _ (reverse k)).
    by rewrite <- reverse_app, <- Hk, reverse_involutive. }
  unfold trim_right. rewrite reverse_involutive. f_equal.
  apply trim_front_id, trim_front_clean.
Qed.
#[export] Hint Rewrite TrimSpace_idemp : kent.

(** Whether the code's [strings.TrimSpace(s) == ""] test succeeds. *)
Definition blank (s : string) : bool := TrimSpace s ==? "".

Lemma blank_empty : blank "" = true.
Proof. reflexivity. Qed.
Lemma blank_TrimSpace s : blank (TrimSpace s) = blank s.
Proof. unfold blank. by rewrite TrimSpace_idemp. Qed.
Lemma not_blank_nonempty s : blank s = false → s ≠ "".
Proof. intros H ->. by rewrite blank_empty in H. Qed.

(** ** Graphic ASCII: bytes that no white space rune contains. *)
Definition graphic (a : ascii) : bool := byte_in 33 a 126.

Ltac byte_solve :=
  unfold space1, space2, space3;
  repeat match goal with
  | |- context [?x =? ?y] => destruct (N.eqb_spec x y); try lia
  | |- context [?x <=? ?y] => destruct (N.leb_spec x y); try lia
  end; try done.

Lemma graphic_range a : graphic a = true → 33 ≤ N_of_ascii a ≤ 126.
Proof. unfold graphic. intros [H1%N.leb_le H2%N.leb_le]%andb_true_iff. done. Qed.
Lemma graphic_space1 a : graphic a = true → space1 a = false.
Proof. intros ?%graphic_range. byte_solve. Qed.
Lemma graphic_space2 a b : graphic a = true ∨ graphic b = true → space2 a b = false.
Proof. intros [?%graphic_range|?%graphic_range]; byte_solve. Qed.
Lemma graphic_space3 a b c :
  graphic a = true ∨ graphic b = true ∨ graphic c = true → space3 a b c = false.
Proof. intros [?%graphic_range|[?%graphic_range|?%graphic_range]]; byte_solve. Qed.

Lemma elem_of_trim_left a l : graphic a = true → a ∈ l → a ∈ trim_left l.
Proof.
  intros Ha. unfold trim_left. apply (trim_front_ind _ _ _ (λ l r, a ∈ l → a ∈ r)); [done|..].
  - intros x l' Hx IH [->|?]%elem_of_cons; [|auto]. by rewrite graphic_space1 in Hx.
  - intros x y l' Hx IH Hin. rewrite !elem_of_cons in Hin.
    destruct Hin as [->|[->|?]]; [| |auto]; rewrite graphic_space2 in Hx; auto; done.
  - intros x y z l' Hx IH Hin. rewrite !elem_of_cons in Hin.
    destruct Hin as [->|[->|[->|?]]]; [| | |auto]; rewrite graphic_space3 in Hx; auto; done.
Qed.
Lemma elem_of_trim_right a l : graphic a = true → a ∈ l → a ∈ trim_right l.
Proof.
  intros Ha Hin. unfold trim_right. rewrite elem_of_reverse.
  assert (a ∈ reverse l) as Hr by by rewrite elem_of_reverse. revert Hr.
  apply (trim_front_ind _ _ _ (λ l r, a ∈ l → a ∈ r)); [done|..].
  - intros x l' Hx IH [->|?]%elem_of_cons; [|auto]. by rewrite graphic_space1 in Hx.
  - intros x y l' Hx IH Hin'. rewrite !elem_of_cons in Hin'.
    destruct Hin' as [->|[->|?]]; [| |auto]; rewrite graphic_space2 in Hx; auto; done.
  - intros x y z l' Hx IH Hin'. rewrite !elem_of_cons in Hin'.
    destruct Hin' as [->|[->|[->|?]]]; [| | |auto]; rewrite graphic_space3 in Hx; auto; done.
Qed.

(** A string with a graphic byte is not blank. *)
Lemma blank_graphic a s : graphic a = true → a ∈ list_ascii_of_string s → blank s = false.
Proof.
  intros Ha Hin. apply bool_decide_eq_false. unfold TrimSpace. intros E.
  assert (a ∈ trim_right (trim_left (list_ascii_of_string s))) as Hl
    by auto using elem_of_trim_right, elem_of_trim_left.
  destruct (trim_right _); [by apply elem_of_nil in Hl|done].
Qed.

(** A string of graphic bytes has nothing to trim. *)
Lemma TrimSpace_graphic s :
  Forall (λ a, graphic a = true) (list_ascii_of_string s) → TrimSpace s = s.
Proof.
  intros Hs. unfold TrimSpace, trim_left, trim_right.
  rewrite (trim_front_id _ _ _ (list_ascii_of_string s)).
  - rewrite trim_front_id; [by rewrite reverse_involutive, string_of_list_ascii_of_string|].
    apply Forall_reverse in Hs. destruct (reverse _) as [|a [|b [|c l]]]; simpl; [done|..];
      rewrite !Forall_cons in Hs; destruct_and?; auto using graphic_space1, graphic_space2, graphic_space3.
  - destruct (list_ascii_of_string s) as [|a [|b [|c l]]]; simpl; [done|..];
      rewrite !Forall_cons in Hs; destruct_and?; auto using graphic_space1, graphic_space2, graphic_space3.
Qed.

(** ** Rune counting: [utf8.RuneCountInString].

    An invalid byte counts as one rune; the accepted second-byte ranges are
    those of the decoder's table. *)
Definition cont (c : ascii) : bool := byte_in 128 c 191.

Fixpoint rune_count (l : list ascii) : N :=
  match l with
  | [] => 0
  | a :: l1 =>
    if N_of_ascii a <? 194 then 1 + rune_count l1 else
    match l1 with
    | [] => 1
    | b :: l2 =>
      if byte_in 194 a 223 && cont b then 1 + rune_count l2 else
      match l2 with
      | [] => 1 + rune_count l1
      | c :: l3 =>
        let second3 :=
          if N_of_ascii a =? 224 then byte_in 160 b 191
          else if N_of_ascii a =? 237 then byte_in 128 b 159
          else byte_in 225 a 239 && cont b in
        if second3 && cont c then 1 + rune_count l3 else
        match l3 with
        | [] => 1 + rune_count l1
        | d :: l4 =>
          let second4 :=
            if N_of_ascii a =? 240 then byte_in 144 b 191
            else if N_of_ascii a =? 244 then byte_in 128 b 143
            else byte_in 241 a 243 && cont b in
          if second4 && cont c && cont d then 1 + rune_count l4
          else 1 + rune_count l1
        end
      end
    end
  end.

Definition RuneCountInString (s : string) : N := rune_count (list_ascii_of_string s).

Lemma rune_count_le l : rune_count l ≤ N.of_nat (length l).
Proof.
  assert (∀ n l, (length l ≤ n)%nat → rune_count l ≤ N.of_nat (length l)) as Hn.
  { induction n as [|n IH]; intros [|a l1] Hl; cbn [length] in Hl; try (simpl; lia).
    pose proof (IH l1 ltac:(lia)) as H1.
    assert (1 + rune_count l1 ≤ N.of_nat (length (a :: l1))) as Hinv by (cbn [length]; lia).
    cbn [rune_count]. case_if_goal; [done|].
    destruct l1 as [|b l2]; [cbn [length]; lia|]. cbn [length] in Hl |- *.
    case_if_goal; [pose proof (IH l2 ltac:(lia)); lia|].
    destruct l2 as [|c l3]; [exact Hinv|]. cbn [length] in Hl |- *.
    destruct (_ && cont c); [pose proof (IH l3 ltac:(lia)); lia|].
    destruct l3 as [|d l4]; [exact Hinv|]. cbn [length] in Hl |- *.
    destruct (_ && cont d); [pose proof (IH l4 ltac:(lia)); lia|exact Hinv]. }
  by apply (Hn (length l)).
Qed.

(** [len(s)] in bytes. *)
Definition len (s : string) : N := N.of_nat (String.length s).

(** ** Case folding against ASCII text. *)
Definition to_lower_ascii (a : ascii) : ascii :=
  if byte_in 65 a 90 then ascii_of_N (N_of_ascii a + 32) else a.

(** [strings.ToLower]: ASCII letters, and the two runes outside ASCII whose
    lower case is an ASCII letter, U+0130 (two bytes, to [i]) and U+212A
    (three bytes, to [k]). Other runes keep a lower case outside ASCII; the
    callers reject every such name, so their bytes are left as they are. *)
Fixpoint to_lower (l : list ascii) : list ascii :=
  match l with
  | [] => []
  | a :: l1 =>
    if N_of_ascii a <? 128 then to_lower_ascii a :: to_lower l1 else
    match l1 with
    | b :: l2 =>
      if (N_of_ascii a =? 196) && (N_of_ascii b =? 176) then "i"%char :: to_lower l2 else
      match l2 with
      | c :: l3 =>
        if (N_of_ascii a =? 226) && (N_of_ascii b =? 132) && (N_of_ascii c =? 170)
        then "k"%char :: to_lower l3 else a :: to_lower l1
      | [] => a :: to_lower l1
      end
    | [] => a :: to_lower l1
    end
  end.
Definition ToLower (s : string) : string :=
  string_of_list_ascii (to_lower (list_ascii_of_string s)).

(** [strings.EqualFold(s, t)] for a [t] of ASCII letters other than [k] and
    [s], the two letters with a simple folding outside ASCII. *)
Definition EqualFold (s t : string) : bool :=
  string_of_list_ascii (to_lower_ascii <$> list_ascii_of_string s)
  ==? string_of_list_ascii (to_lower_ascii <$> list_ascii_of_string t).

(** ** Byte-wise order: [sort.Strings]. *)
Definition string_le (s t : string) : Prop := String.leb s t = true.
#[export] Instance string_le_dec : RelDecision string_le.
Proof. intros s t. unfold string_le. apply _. Defined.

Lemma string_compare_refl s : String.compare s s = Eq.
Proof.
  induction s as [|a s IH]; [done|]. simpl. unfold Ascii.compare.
  by rewrite N.compare_refl.
Qed.
Lemma string_leb_cons a b s t :
  String.leb (String a s) (String b t) =
    if N_of_ascii a <? N_of_ascii b then true
    else if N_of_ascii a =? N_of_ascii b then String.leb s t else false.
Proof.
  unfold String.leb. simpl. unfold Ascii.compare.
  destruct (N.compare_spec (N_of_ascii a) (N_of_ascii b)) as [E|E|E].
  - rewrite E, N.ltb_irrefl, N.eqb_refl. done.
  - by rewrite (proj2 (N.ltb_lt _ _) E).
  - rewrite (proj2 (N.ltb_ge _ _)) by lia. by rewrite (proj2 (N.eqb_neq _ _)) by lia.
Qed.
#[export] Instance string_le_trans : Transitive string_le.
Proof.
  unfold string_le. intros s. induction s as [|a s IH]; intros [|b t] [|c u]; try done.
  rewrite !string_leb_cons.
  destruct (N.ltb_spec (N_of_ascii a) (N_of_ascii b)),
    (N.ltb_spec (N_of_ascii b) (N_of_ascii c)),
    (N.ltb_spec (N_of_ascii a) (N_of_ascii c)),
    (N.eqb_spec (N_of_ascii a) (N_of_ascii b)),
    (N.eqb_spec (N_of_ascii b) (N_of_ascii c)),
    (N.eqb_spec (N_of_ascii a) (N_of_ascii c)); try done; try lia; eauto.
Qed.
#[export] Instance string_le_total : Total string_le.
Proof. intros s t. apply String.leb_total. Qed.
#[export] Instance string_le_antisymm : AntiSymm (=) string_le.
Proof. intros s t. apply String.leb_antisym. Qed.
#[export] Instance string_le_refl : Reflexive string_le.
Proof. intros s. by destruct (string_le_total s s). Qed.

Definition sort_strings : list string → list string := merge_sort string_le.

Lemma sort_strings_unique l1 l2 : l1 ≡ₚ l2 → sort_strings l1 = sort_strings l2.
Proof.
  intros Hp. apply (Sorted_unique string_le).
  - apply Sorted_merge_sort, _.
  - apply Sorted_merge_sort, _.
  - unfold sort_strings. by rewrite !merge_sort_Permutation.
Qed.
Lemma sort_strings_perm l : sort_strings l ≡ₚ l.
Proof. apply merge_sort_Permutation. Qed.

(** ** Keys (src/shared/workflowkey/key.go) *)
Module workflowkey.
Definition MaxChars : N := 64.

Definition Description : string :=
"start with a lowercase letter and contain only lowercase letters, digits, or underscores, up to 64 characters".

Definition reservedParameters : list string := ["commentary"; "session_id"; "transition"].

Definition ReservedParameter (value : string) : bool :=
TrimSpace value ∈? reservedParameters.

Definition lower (c : ascii) : bool := byte_in 97 c 122.
Definition key_char (c : ascii) : bool :=
lower c || byte_in 48 c 57 || (N_of_ascii c =? 95).

(** A byte of 128 or more decodes to a rune outside the accepted ranges,
  so the rune loop of the source is a byte test. *)
Definition Valid (value : string) : bool :=
let trimmed := TrimSpace value in
if (len trimmed =? 0) || (MaxChars <? len trimmed) then false
else match list_ascii_of_string trimmed with
     | [] => true
     | c :: cs => lower c && forallb key_char cs
     end.

Lemma Valid_not_blank value : Valid value = true → blank value = false.
Proof.
unfold Valid, blank. intros H. apply bool_decide_eq_false. intros E.
rewrite E in H. by vm_compute in H.
Qed.
Lemma Valid_TrimSpace value : Valid (TrimSpace value) = Valid value.
Proof. unfold Valid. by rewrite TrimSpace_idemp. Qed.
End workflowkey.
