(* ===== verification/Types.v ===== *)
(** * Workflow definitions

    The data model of src/server/workflow/types.go, execution_target.go and
    validation_types.go: identifiers, nodes, transition groups, edges,
    parameters, the role catalog interface, and validation diagnostics. Go
    string types whose values come from users (context modes, selections,
    purposes, context source kinds) stay strings with the source's constants;
    the sealed [Node] interface is an inductive type. A [Definition]'s nodes
    are non-nil. *)
From Stdlib Require Import NArith Ascii String.
From stdpp Require Import gmap strings list.
From S2P Require Import Prelude GoStrings.

Local Open Scope string_scope.

(** ** Identifiers *)
Abbreviation NodeID := string (only parsing).
Abbreviation TransitionGroupID := string (only parsing).
Abbreviation EdgeID := string (only parsing).
Abbreviation TaskID := string (only parsing).
Abbreviation TransitionID := string (only parsing).
Abbreviation ModelKey := string (only parsing).

(** A UUID is its 128-bit value; the zero value is [uuid.Nil]. *)
Abbreviation UUID := N (only parsing).
Abbreviation WorkflowID := N (only parsing).
Abbreviation SessionID := N (only parsing).
Definition IsZero (id : UUID) : bool := id ==? 0%N.

(** ** Kinds and modes *)

(** [NodeKindUnset] is the empty string the code uses for a missing node. *)
Inductive NodeKind :=
  | NodeKindUnset | NodeKindStart | NodeKindAgent | NodeKindScript | NodeKindJoin | NodeKindTerminal.
#[export] Instance NodeKind_eq_dec : EqDecision NodeKind.
Proof. solve_decision. Defined.

Definition ContextModeNewSession := "new_session".
Definition ContextModeContinueSession := "continue_session".
Definition ContextModeCompactAndContinueSession := "compact_and_continue_session".

Definition AssigneeSelectionConfigured := "configured".
Definition AssigneeSelectionPreviousNode := "previous_node".

Definition CanonicalAssigneeSelection (selection : string) : string := TrimSpace selection.

Definition DefaultAssigneeSelection (selection : string) : string :=
  let canonical := CanonicalAssigneeSelection selection in
  if canonical ==? "" then AssigneeSelectionConfigured else canonical.

Definition ThinkingSelectionConfigured := "configured".
Definition ThinkingSelectionPreviousNode := "previous_node".

Definition CanonicalThinkingSelection (selection : string) : string := TrimSpace selection.

Definition DefaultThinkingSelection (selection : string) : string :=
  let canonical := CanonicalThinkingSelection selection in
  if canonical ==? "" then ThinkingSelectionConfigured else canonical.

Definition ContextSourceImmediateSource := "immediate_source".
Definition ContextSourceSelectedNode := "selected_node".
Definition ContextSourcePreviousTarget := "previous_target".
Definition ContextSourcePreviousTargetOrNew := "previous_target_or_new".

Record ContextSource := { cs_Kind : string; cs_NodeKey : ModelKey }.
#[export] Instance ContextSource_eq_dec : EqDecision ContextSource.
Proof. solve_decision. Defined.

Definition CanonicalContextSource (source : ContextSource) : ContextSource :=
  let kind := TrimSpace (cs_Kind source) in
  let nodeKey := TrimSpace (cs_NodeKey source) in
  if (kind ==? "") || (kind ==? ContextSourceImmediateSource) then
    {| cs_Kind := ContextSourceImmediateSource; cs_NodeKey := "" |}
  else if (kind ==? ContextSourcePreviousTarget) || (kind ==? ContextSourcePreviousTargetOrNew) then
    {| cs_Kind := kind; cs_NodeKey := "" |}
  else {| cs_Kind := kind; cs_NodeKey := nodeKey |}.

(** The canonical kind of an edge's context source. *)
Definition context_kind (source : ContextSource) : string := cs_Kind (CanonicalContextSource source).

Definition BindingSourceTask := "task".
Definition BindingSourceTransitionOutput := "transition_output".
Definition BindingSourceJoin := "join".

(** Limits of src/shared/workflowcontract. *)
Definition MaxDisplayNameChars : N := 120.
Definition MaxParameterKeyChars : N := 64.
Definition MaxParameterDescriptionChars : N := 1000.
Definition RuntimePromptParameterCommentary := "commentary".
Definition RuntimePromptParameterSessionID := "session_id".

(** ** Execution target policy *)
Definition ExecutionTargetModeNone := "none".
Definition ExecutionTargetModeHead := "head".
Definition ExecutionTargetModeDefaultBranch := "default_branch".
Definition ExecutionTargetModeCustomRef := "custom_ref".
Definition ExecutionTargetModeAskOnFirstExecution := "ask_on_first_execution".

Record ExecutionTargetPolicy := { etp_Mode : string; etp_CustomRef : option string }.

Definition DefaultExecutionTargetPolicy : ExecutionTargetPolicy :=
  {| etp_Mode := ExecutionTargetModeAskOnFirstExecution; etp_CustomRef := None |}.

Definition ExecutionTargetPolicy_Canonical (p : ExecutionTargetPolicy) : ExecutionTargetPolicy :=
  if etp_Mode p ==? "" then DefaultExecutionTargetPolicy else p.

Definition validExecutionTargetPolicyMode (mode : string) : bool :=
  mode ∈? [ExecutionTargetModeNone; ExecutionTargetModeHead; ExecutionTargetModeDefaultBranch;
           ExecutionTargetModeCustomRef; ExecutionTargetModeAskOnFirstExecution].

Definition validConcreteExecutionTargetMode (mode : string) : bool :=
  mode ∈? [ExecutionTargetModeNone; ExecutionTargetModeHead; ExecutionTargetModeDefaultBranch;
           ExecutionTargetModeCustomRef].

(** ** Parameters, fields and bindings *)
Definition ParameterPurposeOrdinary := "ordinary".
Definition ParameterPurposeTargetAssignee := "target_assignee".
Definition ParameterPurposeTargetThinking := "target_thinking".

Definition CanonicalParameterPurpose (purpose : string) : string := TrimSpace purpose.

Record EdgeParameter := { p_Key : string; p_Description : string; p_Purpose : string }.
#[export] Instance EdgeParameter_eq_dec : EqDecision EdgeParameter.
Proof. solve_decision. Defined.

Definition Parameter_Canonical (p : EdgeParameter) : EdgeParameter :=
  {| p_Key := p_Key p; p_Description := p_Description p;
     p_Purpose := CanonicalParameterPurpose (p_Purpose p) |}.

Record OutputField := { of_Name : string; of_Description : string }.
#[export] Instance OutputField_eq_dec : EqDecision OutputField.
Proof. solve_decision. Defined.

Record JoinInputProvider := { jip_InputName : string; jip_ProviderEdgeID : EdgeID }.
#[export] Instance JoinInputProvider_eq_dec : EqDecision JoinInputProvider.
Proof. solve_decision. Defined.

Record InputBinding := { ib_Name : string; ib_Source : string; ib_Field : string }.
#[export] Instance InputBinding_eq_dec : EqDecision InputBinding.
Proof. solve_decision. Defined.

(** ** Nodes *)
Record NodeIdentity := {
  ni_WorkflowID : WorkflowID; ni_ID : NodeID; ni_Key : ModelKey;
  ni_DisplayName : string; ni_GroupID : option string }.
#[export] Instance NodeIdentity_eq_dec : EqDecision NodeIdentity.
Proof. solve_decision. Defined.

(** A script path is absent or a trimmed non-empty path. *)
Definition PresentScriptPath (path : string) : option string :=
  let trimmed := TrimSpace path in
  if trimmed ==? "" then None else Some trimmed.

Inductive Node :=
| StartNode (identity : NodeIdentity)
| AgentNode (identity : NodeIdentity) (SubagentRole CompletionMode : string)
| ScriptNode (identity : NodeIdentity) (ScriptPath : option string)
| JoinNode (identity : NodeIdentity) (JoinInputProviders : list JoinInputProvider)
| TerminalNode (identity : NodeIdentity).
#[export] Instance Node_eq_dec : EqDecision Node.
Proof. solve_decision. Defined.

Definition Identity (n : Node) : NodeIdentity :=
  match n with
  | StartNode i | AgentNode i _ _ | ScriptNode i _ | JoinNode i _ | TerminalNode i => i
  end.

Definition Kind (n : Node) : NodeKind :=
  match n with
  | StartNode _ => NodeKindStart
  | AgentNode _ _ _ => NodeKindAgent
  | ScriptNode _ _ => NodeKindScript
  | JoinNode _ _ => NodeKindJoin
  | TerminalNode _ => NodeKindTerminal
  end.

Definition NodeIDOf (n : Node) : NodeID := ni_ID (Identity n).
Definition NodeKey (n : Node) : ModelKey := ni_Key (Identity n).
Definition NodeDisplayName (n : Node) : string := ni_DisplayName (Identity n).
Definition NodeWorkflowID (n : Node) : WorkflowID := ni_WorkflowID (Identity n).
Definition NodeGroupID (n : Node) : option string := ni_GroupID (Identity n).

Definition DisplayLabel (displayName identifier : string) : string :=
  if blank displayName then identifier else TrimSpace displayName.
Definition NodeDisplayLabel (n : Node) : string := DisplayLabel (NodeDisplayName n) (NodeKey n).

Definition IsExecutableNode (n : Node) : bool :=
  match Kind n with NodeKindAgent | NodeKindScript => true | _ => false end.

Definition NodeSubagentRole (n : Node) : string :=
  match n with AgentNode _ role _ => role | _ => "" end.

Record NodeFields := {
  nf_SubagentRole : string; nf_CompletionMode : string;
  nf_JoinInputProviders : list JoinInputProvider; nf_ScriptPath : option string }.

(** [NewNode]; [None] is the error for an invalid kind. *)
Definition NewNode (identity : NodeIdentity) (kind : NodeKind) (fields : NodeFields) : option Node :=
  match kind with
  | NodeKindStart => Some (StartNode identity)
  | NodeKindAgent => Some (AgentNode identity (nf_SubagentRole fields) (nf_CompletionMode fields))
  | NodeKindScript => Some (ScriptNode identity (nf_ScriptPath fields))
  | NodeKindJoin => Some (JoinNode identity (nf_JoinInputProviders fields))
  | NodeKindTerminal => Some (TerminalNode identity)
  | NodeKindUnset => None
  end.

(** ** Groups and edges *)
Record NodeGroup := {
  ng_WorkflowID : WorkflowID; ng_ID : string; ng_Key : ModelKey;
  ng_DisplayName : option string; ng_SortOrder : Z; ng_MemberNodeIDs : list NodeID }.
#[export] Instance NodeGroup_eq_dec : EqDecision NodeGroup.
Proof. solve_decision. Defined.

Record TransitionGroup := {
  tg_WorkflowID : WorkflowID; tg_ID : TransitionGroupID; tg_SourceNodeID : NodeID;
  tg_TransitionID : TransitionID; tg_DisplayName : string; tg_Description : string }.
#[export] Instance TransitionGroup_eq_dec : EqDecision TransitionGroup.
Proof. solve_decision. Defined.

Record Edge := {
  e_WorkflowID : WorkflowID; e_ID : EdgeID; e_Key : ModelKey;
  e_TransitionGroupID : TransitionGroupID; e_TargetNodeID : NodeID;
  e_AssigneeSelection : string; e_ThinkingSelection : string;
  e_ContextMode : string; e_ContextSource : ContextSource;
  e_RequiresApproval : bool; e_PromptTemplate : string;
  e_Parameters : list EdgeParameter; e_InputBindings : list InputBinding;
  e_OutputRequirements : list string }.
#[export] Instance Edge_eq_dec : EqDecision Edge.
Proof. solve_decision. Defined.

Definition Edge_Canonical (edge : Edge) : Edge := {|
  e_WorkflowID := e_WorkflowID edge; e_ID := e_ID edge; e_Key := e_Key edge;
  e_TransitionGroupID := e_TransitionGroupID edge; e_TargetNodeID := e_TargetNodeID edge;
  e_AssigneeSelection := CanonicalAssigneeSelection (e_AssigneeSelection edge);
  e_ThinkingSelection := CanonicalThinkingSelection (e_ThinkingSelection edge);
  e_ContextMode := e_ContextMode edge;
  e_ContextSource := CanonicalContextSource (e_ContextSource edge);
  e_RequiresApproval := e_RequiresApproval edge; e_PromptTemplate := e_PromptTemplate edge;
  e_Parameters := Parameter_Canonical <$> e_Parameters edge;
  e_InputBindings := e_InputBindings edge; e_OutputRequirements := e_OutputRequirements edge |}.

Record WorkflowDefinition := {
  d_ID : WorkflowID; d_DisplayName : string; d_ExecutionTargetPolicy : ExecutionTargetPolicy;
  d_NodeGroups : list NodeGroup; d_Nodes : list Node;
  d_TransitionGroups : list TransitionGroup; d_Edges : list Edge }.

(** ** Role catalog: the [RoleResolver] interface of validation_types.go *)
Record ThinkingCapability := { tc_ReasoningCapable : bool; tc_Finite : bool; tc_Levels : list string }.
#[export] Instance ThinkingCapability_eq_dec : EqDecision ThinkingCapability.
Proof. solve_decision. Defined.

Record TargetAgentRole := {
  r_Identity : string; r_QuestionsEnabled : bool; r_ExplicitAgentCallable : bool;
  r_Model : string; r_ConfiguredThinking : string; r_Thinking : ThinkingCapability }.
#[export] Instance TargetAgentRole_eq_dec : EqDecision TargetAgentRole.
Proof. solve_decision. Defined.

(** The catalog's implementation lives outside the package: a record of its
    two operations. A nil catalog is [None]. *)
Record TargetAgentCatalog := {
  ResolveConfiguredRole : string → option TargetAgentRole;
  ExplicitCallableRoles : list TargetAgentRole }.

Definition DefaultAgentRole := "default".
Definition IsDefaultAgentRole (role : string) : bool := EqualFold (TrimSpace role) DefaultAgentRole.

(** ** Diagnostics *)
Definition ValidationContextDraft := "draft".
Definition ValidationContextTaskCreation := "task_creation".
Definition ValidationContextExecution := "execution".

(** [CodeNone] is the empty code of a zero [ValidationError]. *)
Inductive ValidationErrorCode :=
| CodeNone
| CodeMissingWorkflowID | CodeMissingNodeID | CodeDuplicateNodeID
 | CodeMissingNodeKey | CodeInvalidNodeKey | CodeDuplicateNodeKey
 | CodeMissingStartNode | CodeMultipleStartNodes | CodeInvalidStartNode
 | CodeInvalidStartOutgoingShape | CodeTerminalHasOutgoingEdge | CodeTerminalIsExecutable
 | CodeJoinIsExecutable | CodeInvalidJoinNode | CodeInvalidJoinOutgoingShape
 | CodeNodeUnreachableFromStart | CodeNonTerminalCannotReachTerminal | CodeMissingTransitionGroupID
 | CodeDuplicateTransitionGroupID | CodeEmptyTransitionGroup | CodeMissingTransitionID
 | CodeInvalidTransitionID | CodeDuplicateTransitionID | CodeEdgeTransitionGroupMissing
 | CodeMissingEdgeID | CodeDuplicateEdgeID | CodeMissingEdgeKey
 | CodeInvalidEdgeKey | CodeDuplicateEdgeKey | CodeEdgeTargetMissing
 | CodeCrossWorkflowReference | CodeInvalidOutputField | CodeDuplicateOutputField
 | CodeOutputFieldDescriptionRequired | CodeOutputSchemaTooLarge | CodeInvalidInputField
 | CodeDuplicateInputField | CodeInputFieldDescriptionRequired | CodeInputSchemaTooLarge
 | CodeInvalidParameter | CodeDuplicateParameter | CodeParameterDescriptionRequired
 | CodeParameterSchemaTooLarge | CodeTransitionPromptRequired | CodeTransitionPromptForbidden
 | CodeUnknownOutputRequirement | CodeInvalidInputBinding | CodeInvalidTemplatePlaceholder
 | CodeSessionSourceCannotOwnSession | CodeSessionTransitionMissing | CodeSessionTransitionNotGuaranteed
 | CodeSessionTransitionAmbiguous | CodeProvisionFieldOverlap | CodeMissingJoinInputProvider
 | CodeDuplicateJoinInputProvider | CodeInvalidJoinInputProvider | CodeInvalidFirstNodeInput
 | CodeInvalidContextMode | CodeInvalidAssigneeSelection | CodeInvalidThinkingSelection
 | CodeInvalidParameterPurpose | CodeMissingProtectedParameter | CodeDuplicateProtectedParameter
 | CodeInvalidContextSource | CodeAssigneeSelectionInapplicable | CodeAssigneeSelectionUnavailable
 | CodeThinkingSelectionInapplicable | CodeThinkingSelectionUnavailable | CodeInvalidFanoutJoinTopology
 | CodeInvalidNodeGroup | CodeUnsupportedContextMode | CodeUnsupportedApprovalExecution
 | CodeUnsupportedJoinExecution | CodeUnsupportedJoinBinding | CodeAgentRoleRequired
 | CodeAgentRoleMissing | CodeAgentRoleRequiredToolDisabled | CodeInvalidNodeKind
 | CodeInvalidDisplayName | CodeInvalidExecutionTargetPolicy | CodeExecutionTargetCustomRefRequired.
#[export] Instance ValidationErrorCode_eq_dec : EqDecision ValidationErrorCode.
Proof. solve_decision. Defined.

(** The wire text of a code. *)
Definition code_text (c : ValidationErrorCode) : string :=
  match c with
  | CodeNone => ""
  | CodeMissingWorkflowID => "workflow.validation.missing_workflow_id"
  | CodeMissingNodeID => "workflow.validation.missing_node_id"
  | CodeDuplicateNodeID => "workflow.validation.duplicate_node_id"
  | CodeMissingNodeKey => "workflow.validation.missing_node_key"
  | CodeInvalidNodeKey => "workflow.validation.invalid_node_key"
  | CodeDuplicateNodeKey => "workflow.validation.duplicate_node_key"
  | CodeMissingStartNode => "workflow.validation.missing_start_node"
  | CodeMultipleStartNodes => "workflow.validation.multiple_start_nodes"
  | CodeInvalidStartNode => "workflow.validation.invalid_start_node"
  | CodeInvalidStartOutgoingShape => "workflow.validation.invalid_start_outgoing_shape"
  | CodeTerminalHasOutgoingEdge => "workflow.validation.terminal_has_outgoing_edge"
  | CodeTerminalIsExecutable => "workflow.validation.terminal_is_executable"
  | CodeJoinIsExecutable => "workflow.validation.join_is_executable"
  | CodeInvalidJoinNode => "workflow.validation.invalid_join_node"
  | CodeInvalidJoinOutgoingShape => "workflow.validation.invalid_join_outgoing_shape"
  | CodeNodeUnreachableFromStart => "workflow.validation.node_unreachable_from_start"
  | CodeNonTerminalCannotReachTerminal => "workflow.validation.non_terminal_cannot_reach_terminal"
  | CodeMissingTransitionGroupID => "workflow.validation.missing_transition_group_id"
  | CodeDuplicateTransitionGroupID => "workflow.validation.duplicate_transition_group_id"
  | CodeEmptyTransitionGroup => "workflow.validation.empty_transition_group"
  | CodeMissingTransitionID => "workflow.validation.missing_transition_id"
  | CodeInvalidTransitionID => "workflow.validation.invalid_transition_id"
  | CodeDuplicateTransitionID => "workflow.validation.duplicate_transition_id"
  | CodeEdgeTransitionGroupMissing => "workflow.validation.edge_transition_group_missing"
  | CodeMissingEdgeID => "workflow.validation.missing_edge_id"
  | CodeDuplicateEdgeID => "workflow.validation.duplicate_edge_id"
  | CodeMissingEdgeKey => "workflow.validation.missing_edge_key"
  | CodeInvalidEdgeKey => "workflow.validation.invalid_edge_key"
  | CodeDuplicateEdgeKey => "workflow.validation.duplicate_edge_key"
  | CodeEdgeTargetMissing => "workflow.validation.edge_target_missing"
  | CodeCrossWorkflowReference => "workflow.validation.cross_workflow_reference"
  | CodeInvalidOutputField => "workflow.validation.invalid_output_field"
  | CodeDuplicateOutputField => "workflow.validation.duplicate_output_field"
  | CodeOutputFieldDescriptionRequired => "workflow.validation.output_field_description_required"
  | CodeOutputSchemaTooLarge => "workflow.validation.output_schema_too_large"
  | CodeInvalidInputField => "workflow.validation.invalid_input_field"
  | CodeDuplicateInputField => "workflow.validation.duplicate_input_field"
  | CodeInputFieldDescriptionRequired => "workflow.validation.input_field_description_required"
  | CodeInputSchemaTooLarge => "workflow.validation.input_schema_too_large"
  | CodeInvalidParameter => "workflow.validation.invalid_parameter"
  | CodeDuplicateParameter => "workflow.validation.duplicate_parameter"
  | CodeParameterDescriptionRequired => "workflow.validation.parameter_description_required"
  | CodeParameterSchemaTooLarge => "workflow.validation.parameter_schema_too_large"
  | CodeTransitionPromptRequired => "workflow.validation.transition_prompt_required"
  | CodeTransitionPromptForbidden => "workflow.validation.transition_prompt_forbidden"
  | CodeUnknownOutputRequirement => "workflow.validation.unknown_output_requirement"
  | CodeInvalidInputBinding => "workflow.validation.invalid_input_binding"
  | CodeInvalidTemplatePlaceholder => "workflow.validation.invalid_template_placeholder"
  | CodeSessionSourceCannotOwnSession => "workflow.validation.session_source_cannot_own_session"
  | CodeSessionTransitionMissing => "workflow.validation.session_transition_missing"
  | CodeSessionTransitionNotGuaranteed => "workflow.validation.session_transition_not_guaranteed"
  | CodeSessionTransitionAmbiguous => "workflow.validation.session_transition_ambiguous"
  | CodeProvisionFieldOverlap => "workflow.validation.provision_field_overlap"
  | CodeMissingJoinInputProvider => "workflow.validation.missing_join_input_provider"
  | CodeDuplicateJoinInputProvider => "workflow.validation.duplicate_join_input_provider"
  | CodeInvalidJoinInputProvider => "workflow.validation.invalid_join_input_provider"
  | CodeInvalidFirstNodeInput => "workflow.validation.invalid_first_node_input"
  | CodeInvalidContextMode => "workflow.validation.invalid_context_mode"
  | CodeInvalidAssigneeSelection => "workflow.validation.invalid_assignee_selection"
  | CodeInvalidThinkingSelection => "workflow.validation.invalid_thinking_selection"
  | CodeInvalidParameterPurpose => "workflow.validation.invalid_parameter_purpose"
  | CodeMissingProtectedParameter => "workflow.validation.missing_protected_parameter"
  | CodeDuplicateProtectedParameter => "workflow.validation.duplicate_protected_parameter"
  | CodeInvalidContextSource => "workflow.validation.invalid_context_source"
  | CodeAssigneeSelectionInapplicable => "workflow.validation.assignee_selection_inapplicable"
  | CodeAssigneeSelectionUnavailable => "workflow.validation.assignee_selection_unavailable"
  | CodeThinkingSelectionInapplicable => "workflow.validation.thinking_selection_inapplicable"
  | CodeThinkingSelectionUnavailable => "workflow.validation.thinking_selection_unavailable"
  | CodeInvalidFanoutJoinTopology => "workflow.validation.invalid_fanout_join_topology"
  | CodeInvalidNodeGroup => "workflow.validation.invalid_node_group"
  | CodeUnsupportedContextMode => "workflow.validation.unsupported_context_mode"
  | CodeUnsupportedApprovalExecution => "workflow.validation.unsupported_approval_execution"
  | CodeUnsupportedJoinExecution => "workflow.validation.unsupported_join_execution"
  | CodeUnsupportedJoinBinding => "workflow.validation.unsupported_join_binding"
  | CodeAgentRoleRequired => "workflow.validation.agent_role_required"
  | CodeAgentRoleMissing => "workflow.validation.agent_role_missing"
  | CodeAgentRoleRequiredToolDisabled => "workflow.validation.agent_role_required_tool_disabled"
  | CodeInvalidNodeKind => "workflow.validation.invalid_node_kind"
  | CodeInvalidDisplayName => "workflow.validation.invalid_display_name"
  | CodeInvalidExecutionTargetPolicy => "workflow.validation.invalid_execution_target_policy"
  | CodeExecutionTargetCustomRefRequired => "workflow.validation.execution_target_custom_ref_required"
  end.

Inductive WorkflowGraphEntityType :=
| EntityEdge | EntityNode | EntityNodeGroup | EntityTransitionGroup.

Record ValidationError := {
  Code : ValidationErrorCode; Message : string;
  ve_WorkflowID : option WorkflowID; ve_NodeID : option NodeID;
  ve_TransitionGroupID : option TransitionGroupID; ve_EdgeID : option EdgeID;
  ve_FieldName : string; ve_InputName : string; ve_Placeholder : string;
  ve_RelatedEntities : list (WorkflowGraphEntityType * string);
  ve_AgentRole : option string; ve_RequiredTool : option string;
  BlocksContext : bool }.

(** Go's [ValidationError{}] literal and field assignments. *)
Definition zeroError : ValidationError := {|
  Code := CodeNone; Message := ""; ve_WorkflowID := None; ve_NodeID := None;
  ve_TransitionGroupID := None; ve_EdgeID := None; ve_FieldName := ""; ve_InputName := "";
  ve_Placeholder := ""; ve_RelatedEntities := []; ve_AgentRole := None;
  ve_RequiredTool := None; BlocksContext := false |}.

Definition setCode (c : ValidationErrorCode) (message : string) (blocks : bool) (e : ValidationError) : ValidationError := {|
  Code := c; Message := message; ve_WorkflowID := ve_WorkflowID e; ve_NodeID := ve_NodeID e;
  ve_TransitionGroupID := ve_TransitionGroupID e; ve_EdgeID := ve_EdgeID e;
  ve_FieldName := ve_FieldName e; ve_InputName := ve_InputName e; ve_Placeholder := ve_Placeholder e;
  ve_RelatedEntities := ve_RelatedEntities e; ve_AgentRole := ve_AgentRole e;
  ve_RequiredTool := ve_RequiredTool e; BlocksContext := blocks |}.

Definition setRefs (w : option WorkflowID) (n : option NodeID) (g : option TransitionGroupID)
    (ed : option EdgeID) (e : ValidationError) : ValidationError := {|
  Code := Code e; Message := Message e; ve_WorkflowID := w; ve_NodeID := n;
  ve_TransitionGroupID := g; ve_EdgeID := ed;
  ve_FieldName := ve_FieldName e; ve_InputName := ve_InputName e; ve_Placeholder := ve_Placeholder e;
  ve_RelatedEntities := ve_RelatedEntities e; ve_AgentRole := ve_AgentRole e;
  ve_RequiredTool := ve_RequiredTool e; BlocksContext := BlocksContext e |}.

Definition setNames (field input placeholder : string) (e : ValidationError) : ValidationError := {|
  Code := Code e; Message := Message e; ve_WorkflowID := ve_WorkflowID e; ve_NodeID := ve_NodeID e;
  ve_TransitionGroupID := ve_TransitionGroupID e; ve_EdgeID := ve_EdgeID e;
  ve_FieldName := field; ve_InputName := input; ve_Placeholder := placeholder;
  ve_RelatedEntities := ve_RelatedEntities e; ve_AgentRole := ve_AgentRole e;
  ve_RequiredTool := ve_RequiredTool e; BlocksContext := BlocksContext e |}.

Definition setRole (role tool : option string) (e : ValidationError) : ValidationError := {|
  Code := Code e; Message := Message e; ve_WorkflowID := ve_WorkflowID e; ve_NodeID := ve_NodeID e;
  ve_TransitionGroupID := ve_TransitionGroupID e; ve_EdgeID := ve_EdgeID e;
  ve_FieldName := ve_FieldName e; ve_InputName := ve_InputName e; ve_Placeholder := ve_Placeholder e;
  ve_RelatedEntities := ve_RelatedEntities e; ve_AgentRole := role;
  ve_RequiredTool := tool; BlocksContext := BlocksContext e |}.

Definition withRelatedEntity (e : ValidationError) (t : WorkflowGraphEntityType) (id : string) : ValidationError := {|
  Code := Code e; Message := Message e; ve_WorkflowID := ve_WorkflowID e; ve_NodeID := ve_NodeID e;
  ve_TransitionGroupID := ve_TransitionGroupID e; ve_EdgeID := ve_EdgeID e;
  ve_FieldName := ve_FieldName e; ve_InputName := ve_InputName e; ve_Placeholder := ve_Placeholder e;
  ve_RelatedEntities := ve_RelatedEntities e ++ [(t, id)]; ve_AgentRole := ve_AgentRole e;
  ve_RequiredTool := ve_RequiredTool e; BlocksContext := BlocksContext e |}.

(** A pointer to an identifier that is only set when the identifier is not
    blank: the recurring [if strings.TrimSpace(id) != "" { ref.X = &id }]. *)
Definition ref_id (id : string) : option string := if blank id then None else Some id.

Record ValidationResult := { vr_Context : string; vr_Errors : list ValidationError }.

Definition HasErrors (r : ValidationResult) : bool :=
  match vr_Errors r with [] => false | _ :: _ => true end.
Definition BlockingErrors (r : ValidationResult) : list ValidationError :=
  filter (λ e, BlocksContext e = true) (vr_Errors r).
Definition HasBlockingErrors (r : ValidationResult) : bool := existsb BlocksContext (vr_Errors r).
Definition Codes (r : ValidationResult) : list ValidationErrorCode := Code <$> vr_Errors r.

Lemma HasBlockingErrors_false r :
  HasBlockingErrors r = false ↔ ∀ e, e ∈ vr_Errors r → BlocksContext e = false.
Proof.
  unfold HasBlockingErrors. rewrite <- not_true_iff_false, existsb_exists.
  setoid_rewrite <- list_elem_of_In. split.
  - intros H e He. destruct (BlocksContext e) eqn:E; [|done]. exfalso; eauto.
  - intros H (e & He & Hb). rewrite H in Hb by done. done.
Qed.
