(* ===== verification/Samples.v ===== *)
(** * Sample workflows

    Concrete definitions used to evaluate the model: a task that is planned,
    implemented in two parallel branches, joined and reviewed. *)
From Stdlib Require Import NArith String.
From stdpp Require Import gmap strings list.
From S2P Require Import Prelude GoStrings Types.

Definition sample_identity (id : string) : NodeIdentity := {|
  ni_WorkflowID := 7%N; ni_ID := id; ni_Key := id; ni_DisplayName := id; ni_GroupID := None |}.

Definition sample_group (id source : string) : TransitionGroup := {|
  tg_WorkflowID := 7%N; tg_ID := id; tg_SourceNodeID := source; tg_TransitionID := id;
  tg_DisplayName := id; tg_Description := "" |}.

Definition sample_edge (id group target mode kind prompt : string) (params : list EdgeParameter) : Edge := {|
  e_WorkflowID := 7%N; e_ID := id; e_Key := id; e_TransitionGroupID := group; e_TargetNodeID := target;
  e_AssigneeSelection := "configured"; e_ThinkingSelection := "configured"; e_ContextMode := mode;
  e_ContextSource := {| cs_Kind := kind; cs_NodeKey := "" |}; e_RequiresApproval := false;
  e_PromptTemplate := prompt; e_Parameters := params; e_InputBindings := []; e_OutputRequirements := [] |}.

Definition sample_param (key : string) : EdgeParameter := {|
  p_Key := key; p_Description := "what " +:+ key +:+ " holds"; p_Purpose := "ordinary" |}.

(** start -> plan -> (build | test) -> merge -> review -> done *)
Definition sample_fanout : WorkflowDefinition := {|
  d_ID := 7%N; d_DisplayName := "Feature";
  d_ExecutionTargetPolicy := {| etp_Mode := ""; etp_CustomRef := None |};
  d_NodeGroups := [];
  d_Nodes := [
    StartNode (sample_identity "start"); AgentNode (sample_identity "plan") "coder" "";
    AgentNode (sample_identity "build") "coder" ""; AgentNode (sample_identity "test") "coder" "";
    JoinNode (sample_identity "merge") []; AgentNode (sample_identity "review") "coder" "";
    TerminalNode (sample_identity "done")];
  d_TransitionGroups := [
    sample_group "begin" "start"; sample_group "split" "plan"; sample_group "built" "build";
    sample_group "tested" "test"; sample_group "merged" "merge"; sample_group "approve" "review"];
  d_Edges := [
    sample_edge "e_begin" "begin" "plan" "new_session" "" "plan it" [];
    sample_edge "e_build" "split" "build" "new_session" "" "build it" [sample_param "spec"];
    sample_edge "e_test" "split" "test" "new_session" "" "test it" [sample_param "spec"];
    sample_edge "e_built" "built" "merge" "new_session" "" "" [sample_param "diff"];
    sample_edge "e_tested" "tested" "merge" "new_session" "" "" [sample_param "report"];
    sample_edge "e_merged" "merged" "review" "new_session" "" "review it" [];
    sample_edge "e_done" "approve" "done" "new_session" "" "" [sample_param "verdict"]] |}.

(** A catalog of two callable roles, one of them with finite thinking levels. *)
Definition sample_role (ident : string) (levels : list string) : TargetAgentRole := {|
  r_Identity := ident; r_QuestionsEnabled := true; r_ExplicitAgentCallable := true;
  r_Model := "model"; r_ConfiguredThinking := "low";
  r_Thinking := {| tc_ReasoningCapable := true; tc_Finite := true; tc_Levels := levels |} |}.
Definition sample_catalog : TargetAgentCatalog := {|
  ResolveConfiguredRole name :=
    let name := TrimSpace name in
    if name ==? "coder" then Some (sample_role "Coder" ["low"; "high"])
    else if name ==? "tester" then Some (sample_role "tester" ["low"]) else None;
  ExplicitCallableRoles := [sample_role "tester" ["low"]; sample_role "Coder" ["low"; "high"]] |}.
(** A serial transition that lets the source agent pick role and thinking. *)
Definition sample_selecting_edge : Edge := {|
  e_WorkflowID := 7%N; e_ID := "e"; e_Key := "e"; e_TransitionGroupID := "g"; e_TargetNodeID := "build";
  e_AssigneeSelection := "previous_node"; e_ThinkingSelection := "previous_node";
  e_ContextMode := "new_session"; e_ContextSource := {| cs_Kind := ""; cs_NodeKey := "" |};
  e_RequiresApproval := false; e_PromptTemplate := "build it";
  e_Parameters := [sample_param "spec";
    {| p_Key := "role"; p_Description := ""; p_Purpose := "target_assignee" |};
    {| p_Key := "effort"; p_Description := ""; p_Purpose := "target_thinking" |}];
  e_InputBindings := []; e_OutputRequirements := [] |}.

(** Definitions assembled from nodes, groups and edges that start sessions. *)
Definition sample_agent (id : string) : Node := AgentNode (sample_identity id) "coder" "".
Definition sample_branch (id key group target prompt : string) : Edge := {|
  e_WorkflowID := 7%N; e_ID := id; e_Key := key; e_TransitionGroupID := group; e_TargetNodeID := target;
  e_AssigneeSelection := "configured"; e_ThinkingSelection := "configured"; e_ContextMode := "new_session";
  e_ContextSource := {| cs_Kind := ""; cs_NodeKey := "" |}; e_RequiresApproval := false;
  e_PromptTemplate := prompt; e_Parameters := []; e_InputBindings := []; e_OutputRequirements := [] |}.
Definition sample_definition (nodes : list Node) (groups : list TransitionGroup) (edges : list Edge)
    : WorkflowDefinition := {|
  d_ID := 7%N; d_DisplayName := "Sample"; d_ExecutionTargetPolicy := {| etp_Mode := ""; etp_CustomRef := None |};
  d_NodeGroups := []; d_Nodes := nodes; d_TransitionGroups := groups; d_Edges := edges |}.

(** Two fan-outs in sequence, both with the branch keys [left] and [right]. *)
Definition sample_repeated_keys : WorkflowDefinition := sample_definition
  [StartNode (sample_identity "start"); sample_agent "plan"; sample_agent "a"; sample_agent "b";
   JoinNode (sample_identity "j1") []; sample_agent "mid"; sample_agent "c"; sample_agent "d";
   JoinNode (sample_identity "j2") []; TerminalNode (sample_identity "done")]
  [sample_group "begin" "start"; sample_group "split" "plan"; sample_group "ta" "a"; sample_group "tb" "b";
   sample_group "tj" "j1"; sample_group "again" "mid"; sample_group "tc" "c"; sample_group "td" "d";
   sample_group "tend" "j2"]
  [sample_branch "e1" "e1" "begin" "plan" "work"; sample_branch "e2" "left" "split" "a" "work";
   sample_branch "e3" "right" "split" "b" "work"; sample_branch "e4" "e4" "ta" "j1" "";
   sample_branch "e5" "e5" "tb" "j1" ""; sample_branch "e6" "e6" "tj" "mid" "work";
   sample_branch "e7" "left" "again" "c" "work"; sample_branch "e8" "right" "again" "d" "work";
   sample_branch "e9" "e9" "tc" "j2" ""; sample_branch "e10" "e10" "td" "j2" "";
   sample_branch "e11" "e11" "tend" "done" ""].

(** A fan-out whose left branch has two transitions into the join. *)
Definition sample_two_entries : WorkflowDefinition := sample_definition
  [StartNode (sample_identity "start"); sample_agent "plan"; sample_agent "a"; sample_agent "b";
   JoinNode (sample_identity "j1") []; TerminalNode (sample_identity "done")]
  [sample_group "begin" "start"; sample_group "split" "plan"; sample_group "pass" "a"; sample_group "fail" "a";
   sample_group "tb" "b"; sample_group "tj" "j1"]
  [sample_branch "e1" "e1" "begin" "plan" "work"; sample_branch "e2" "left" "split" "a" "work";
   sample_branch "e3" "right" "split" "b" "work"; sample_branch "e4" "e4" "pass" "j1" "";
   sample_branch "e5" "e5" "fail" "j1" ""; sample_branch "e6" "e6" "tb" "j1" "";
   sample_branch "e7" "e7" "tj" "done" ""].

(** A review that sends the plan back to the session that wrote it. *)
Definition sample_retained : WorkflowDefinition := sample_definition
  [StartNode (sample_identity "start"); sample_agent "plan"; sample_agent "review"; TerminalNode (sample_identity "done")]
  [sample_group "begin" "start"; sample_group "planned" "plan"; sample_group "rework" "review"; sample_group "approve" "review"]
  [sample_edge "e_begin" "begin" "plan" "new_session" "" "plan it" [];
   sample_edge "e_planned" "planned" "review" "new_session" "" "review it" [];
   sample_edge "e_rework" "rework" "plan" "continue_session" "previous_target" "again" [];
   sample_edge "e_done" "approve" "done" "new_session" "" "" []].

(** A fan-out whose two branches end in sessions of their own, and a join that
    continues the session it comes from. *)
Definition sample_divergent : WorkflowDefinition := sample_definition
  [StartNode (sample_identity "start"); sample_agent "plan"; sample_agent "a"; sample_agent "b";
   JoinNode (sample_identity "j1") []; sample_agent "sum"; TerminalNode (sample_identity "done")]
  [sample_group "begin" "start"; sample_group "split" "plan"; sample_group "ta" "a"; sample_group "tb" "b";
   sample_group "tj" "j1"; sample_group "tend" "sum"]
  [sample_branch "e1" "e1" "begin" "plan" "work"; sample_branch "e2" "left" "split" "a" "work";
   sample_branch "e3" "right" "split" "b" "work"; sample_branch "e4" "e4" "ta" "j1" "";
   sample_branch "e5" "e5" "tb" "j1" ""; sample_edge "e6" "tj" "sum" "continue_session" "immediate_source" "sum up" [];
   sample_branch "e7" "e7" "tend" "done" ""].
