(* ===== verification/Selection.v ===== *)
(** * Target agent selection

    How a transition chooses the role and thinking level of its target agent,
    and which parameters it exposes to the completing agent:
    selector_applicability.go, session_policy.go, protected_parameter_policy.go,
    target_agent_selection.go, target_agent_thinking.go,
    target_agent_execution.go, current_execution_selection.go and
    transition_parameter_contract.go of src/server/workflow, and the role name
    normalisation of src/shared/config/subagents.go. *)
From Stdlib Require Import NArith Ascii String.
From stdpp Require Import gmap strings list sorting.
From S2P Require Import Prelude GoStrings Types.

Local Open Scope string_scope.

(** ** Errors *)
Inductive TargetAgentSelectionErrorCode :=
  | UnavailableRole | NoSelectableRoles | QuestionsDisabled
  | ThinkingRequired | ThinkingDescriptionRequired | UnsupportedThinking.
#[export] Instance TargetAgentSelectionErrorCode_eq_dec : EqDecision TargetAgentSelectionErrorCode.
Proof. solve_decision. Defined.

(** A typed selection error, or an untyped [fmt.Errorf] one. *)
Inductive SelectionError :=
| TargetAgentSelectionError (code : TargetAgentSelectionErrorCode) (role : string)
| PlainError (message : string).

(** ** Role identities *)
Definition reservedSubagentRoleNames : list string := ["none"; "self"].

Definition role_char (c : ascii) : bool :=
  (byte_in 97 c 122 || byte_in 48 c 57 || (N_of_ascii c =? 45) || (N_of_ascii c =? 95))%N.

Definition NormalizeSubagentRole (raw : string) : string :=
  let normalized := ToLower (TrimSpace raw) in
  if normalized ==? "" then ""
  else if normalized ∈? reservedSubagentRoleNames then ""
  else if forallb role_char (list_ascii_of_string normalized) then normalized else "".

Definition NormalizeSubagentSelector (raw : string) : string :=
  if ToLower (TrimSpace raw) ∈? reservedSubagentRoleNames then "" else NormalizeSubagentRole raw.

Definition canonicalAgentRoleIdentity (raw : string) : option string :=
  if EqualFold (TrimSpace raw) DefaultAgentRole then Some DefaultAgentRole
  else let normalized := NormalizeSubagentSelector raw in
    if normalized ==? "" then None else Some normalized.

Definition with_identity (role : TargetAgentRole) (ident : string) : TargetAgentRole := {|
  r_Identity := ident; r_QuestionsEnabled := r_QuestionsEnabled role;
  r_ExplicitAgentCallable := r_ExplicitAgentCallable role; r_Model := r_Model role;
  r_ConfiguredThinking := r_ConfiguredThinking role; r_Thinking := r_Thinking role |}.

Definition canonicalTargetAgentRole (role : TargetAgentRole) : TargetAgentRole :=
  with_identity role (default "" (canonicalAgentRoleIdentity (r_Identity role))).

(** ** Thinking levels *)
Definition canonical_level_scan (out : list string) (raw : string) : list string :=
  let level := TrimSpace raw in
  if level ==? "" then out else append_unique out level.

(** [seen] of the source holds exactly the members of [out]. *)
Definition canonicalThinkingLevels (levels : list string) : list string :=
  sort_strings (foldl canonical_level_scan [] levels).

Definition ThinkingCapability_Canonical (c : ThinkingCapability) : ThinkingCapability := {|
  tc_ReasoningCapable := tc_ReasoningCapable c; tc_Finite := tc_Finite c;
  tc_Levels := canonicalThinkingLevels (tc_Levels c) |}.

Definition union_scan (n_roles : nat) (union : ThinkingCapability) (role : TargetAgentRole) : ThinkingCapability :=
  let capability := ThinkingCapability_Canonical (r_Thinking role) in
  let capable := tc_ReasoningCapable union || tc_ReasoningCapable capability in
  if negb (tc_Finite capability) then
    {| tc_ReasoningCapable := capable; tc_Finite := false; tc_Levels := tc_Levels union |}
  else
    {| tc_ReasoningCapable := capable;
       tc_Finite := if (n_roles ==? 0) || (negb (tc_Finite union) && (length (tc_Levels union) ==? 0))
                    then true else tc_Finite union;
       tc_Levels := tc_Levels union ++ tc_Levels capability |}.

Definition UnionTargetAgentThinkingCapabilities (roles : list TargetAgentRole) : ThinkingCapability :=
  let union := foldl (union_scan (length roles))
    {| tc_ReasoningCapable := false; tc_Finite := false; tc_Levels := [] |} roles in
  let finite := if (0 <? length roles)%nat then forallb (λ r, tc_Finite (r_Thinking r)) roles
                else tc_Finite union in
  let levels := if (0 <? length roles)%nat && negb (forallb (λ r, tc_Finite (r_Thinking r)) roles)
                then [] else tc_Levels union in
  {| tc_ReasoningCapable := tc_ReasoningCapable union; tc_Finite := finite;
     tc_Levels := canonicalThinkingLevels levels |}.

Fixpoint join_strings (sep : string) (l : list string) : string :=
  match l with
  | [] => ""
  | [s] => s
  | s :: l => s +:+ sep +:+ join_strings sep l
  end.

Definition DefaultTargetAgentThinkingDescription (capability : ThinkingCapability) : string :=
  let capability := ThinkingCapability_Canonical capability in
  if negb (tc_Finite capability) || (length (tc_Levels capability) ==? 0) then ""
  else "Override the thinking level for the next node, available levels: "
       +:+ join_strings ", " (tc_Levels capability).

Record TargetAgentThinkingSelectionRequest := {
  tsr_OverrideEnabled : bool; tsr_TargetRole : TargetAgentRole;
  tsr_EligibleRoles : list TargetAgentRole; tsr_SubmittedValue : string;
  tsr_AuthoredDescription : string }.

Record TargetAgentThinkingSelection := {
  ts_Value : string; ts_Exposed : bool; ts_SubmittedValueIgnored : bool }.

Definition PlanTargetAgentThinkingSelection (request : TargetAgentThinkingSelectionRequest)
    : result SelectionError TargetAgentThinkingSelection :=
  let configured := TrimSpace (r_ConfiguredThinking (tsr_TargetRole request)) in
  let keep ignored := Ok {| ts_Value := configured; ts_Exposed := false; ts_SubmittedValueIgnored := ignored |} in
  if negb (tsr_OverrideEnabled request) then keep false else
  let roles := match tsr_EligibleRoles request with [] => [tsr_TargetRole request] | rs => rs end in
  let capability := UnionTargetAgentThinkingCapabilities roles in
  if negb (tc_ReasoningCapable capability) then keep false else
  let targetCapability := ThinkingCapability_Canonical (r_Thinking (tsr_TargetRole request)) in
  let value := TrimSpace (tsr_SubmittedValue request) in
  let ignored := value <>? "" in
  let unsupported := Err (TargetAgentSelectionError UnsupportedThinking value) in
  let target_lacks v := tc_Finite targetCapability && negb (v ∈? tc_Levels targetCapability) in
  let exposed := Ok {| ts_Value := value; ts_Exposed := true; ts_SubmittedValueIgnored := false |} in
  if negb (tc_Finite capability) then
    if value ==? "" then Err (TargetAgentSelectionError ThinkingRequired "")
    else if TrimSpace (tsr_AuthoredDescription request) ==? "" then
      Err (TargetAgentSelectionError ThinkingDescriptionRequired "")
    else if target_lacks value then unsupported
    else exposed
  else match tc_Levels capability with
  | [] => keep ignored
  | [level] =>
    if target_lacks level then keep ignored
    else Ok {| ts_Value := level; ts_Exposed := false; ts_SubmittedValueIgnored := ignored |}
  | levels =>
    if value ==? "" then Err (TargetAgentSelectionError ThinkingRequired "")
    else if negb (value ∈? levels) then unsupported
    else if target_lacks value then unsupported
    else exposed
  end.

(** ** Role selection *)
Record TargetAgentSelectionRequest := {
  asr_FallbackRole : string; asr_OverrideEnabled : bool; asr_SubmittedRole : string }.

Record TargetAgentSelection := {
  as_Role : TargetAgentRole; as_QuestionsRequired : bool; as_SubmittedRoleIgnored : bool }.

(** The order of [sort.Slice] by ident. *)
Definition role_le (a b : TargetAgentRole) : Prop := string_le (r_Identity a) (r_Identity b).
#[export] Instance role_le_dec : RelDecision role_le.
Proof. intros a b. unfold role_le. apply _. Defined.

Section roles.
Context `{RangeOrder}.

(** The last callable role of each canonical ident. *)
Definition roles_by_identity (roles : list TargetAgentRole) : gmap string TargetAgentRole :=
foldl (λ m role,
  if negb (r_ExplicitAgentCallable role) then m
  else let canonical := canonicalTargetAgentRole role in
    if r_Identity canonical ==? "" then m else <[r_Identity canonical := canonical]> m) ∅ roles.

Definition canonicalExplicitCallableRoles (roles : list TargetAgentRole) : list TargetAgentRole :=
merge_sort role_le (range_map (roles_by_identity roles)).*2.

Definition DefaultTargetAgentRoleDescription (roles : list TargetAgentRole) : string :=
"Override the subagent role for the next node, available roles: "
+:+ join_strings ", " (r_Identity <$> canonicalExplicitCallableRoles roles).

Definition PlanTargetAgentSelection (catalog : option TargetAgentCatalog)
  (request : TargetAgentSelectionRequest) : result SelectionError TargetAgentSelection :=
match catalog with
| None => Err (TargetAgentSelectionError UnavailableRole (TrimSpace (asr_SubmittedRole request)))
| Some catalog =>
  if negb (asr_OverrideEnabled request) then
    let roleName := TrimSpace (asr_FallbackRole request) in
    match ResolveConfiguredRole catalog roleName with
    | None => Err (TargetAgentSelectionError UnavailableRole roleName)
    | Some role =>
      let role := canonicalTargetAgentRole role in
      if negb (r_QuestionsEnabled role) then
        Err (TargetAgentSelectionError QuestionsDisabled (r_Identity role))
      else Ok {| as_Role := role; as_QuestionsRequired := false; as_SubmittedRoleIgnored := false |}
    end
  else match canonicalExplicitCallableRoles (ExplicitCallableRoles catalog) with
  | [] => Err (TargetAgentSelectionError NoSelectableRoles "")
  | [role] => Ok {| as_Role := role; as_QuestionsRequired := true; as_SubmittedRoleIgnored := true |}
  | roles =>
    let submitted := TrimSpace (asr_SubmittedRole request) in
    match canonicalAgentRoleIdentity submitted with
    | None => Err (TargetAgentSelectionError UnavailableRole submitted)
    | Some ident =>
      match List.find (λ role, r_Identity role ==? ident) roles with
      | Some role => Ok {| as_Role := role; as_QuestionsRequired := true; as_SubmittedRoleIgnored := false |}
      | None => Err (TargetAgentSelectionError UnavailableRole submitted)
      end
    end
  end
end.
End roles.

(** ** Session policy *)
Definition AssigneeSessionPolicyEstablishTarget := "establish_target".
Definition AssigneeSessionPolicyPreserve := "preserve".

Record AssigneeSessionPolicyRequest := {
  spr_ContextMode : string; spr_ContextSource : ContextSource;
  spr_TargetSessionResolved : bool; spr_FanoutBranch : bool }.

Definition CopiesSourceSession (request : AssigneeSessionPolicyRequest) : bool :=
  let kind := context_kind (spr_ContextSource request) in
  spr_FanoutBranch request && spr_TargetSessionResolved request &&
  (spr_ContextMode request <>? ContextModeNewSession) &&
  ((kind ==? ContextSourceImmediateSource) || (kind ==? ContextSourceSelectedNode)).

Definition ResolveAssigneeSessionPolicy (request : AssigneeSessionPolicyRequest) : result string string :=
  let kind := context_kind (spr_ContextSource request) in
  let mode := spr_ContextMode request in
  if negb (kind ∈? [ContextSourceImmediateSource; ContextSourceSelectedNode;
                    ContextSourcePreviousTarget; ContextSourcePreviousTargetOrNew])
  then Err "assignee session policy does not support context source"
  else if (mode ==? ContextModeNewSession) || (mode ==? ContextModeCompactAndContinueSession)
  then Ok AssigneeSessionPolicyEstablishTarget
  else if mode ==? ContextModeContinueSession then
    if CopiesSourceSession request then Ok AssigneeSessionPolicyEstablishTarget
    else if kind ==? ContextSourcePreviousTargetOrNew then
      if spr_TargetSessionResolved request then Ok AssigneeSessionPolicyPreserve
      else Ok AssigneeSessionPolicyEstablishTarget
    else Ok AssigneeSessionPolicyPreserve
  else Err "assignee session policy does not support context mode".

(** ** Protected parameter consumption *)
(** [ConsumptionUnset] is the empty string of a zero contract. *)
Inductive ProtectedParameterConsumptionPolicy :=
| ConsumptionUnset | RequiredValidate | IgnoreAuthorized | RejectUnknown.
#[export] Instance ProtectedParameterConsumptionPolicy_eq_dec : EqDecision ProtectedParameterConsumptionPolicy.
Proof. solve_decision. Defined.

Record ProtectedParameterConsumption := {
  pc_Assignee : ProtectedParameterConsumptionPolicy;
  pc_Thinking : ProtectedParameterConsumptionPolicy }.

Record ProtectedParameterConsumptionRequest := {
  pcr_Edge : Edge; pcr_SourceKind : NodeKind; pcr_TargetKind : NodeKind; pcr_FanOut : bool;
  pcr_TargetSessionResolved : bool; pcr_TargetSessionPolicy : string;
  pcr_ExplicitCallableRoles : nat; pcr_Thinking : ThinkingCapability }.

(** A serial transition from an agent or script into an agent. *)
Definition eligible_topology (fanOut : bool) (source target : NodeKind) : bool :=
  negb fanOut && ((source ==? NodeKindAgent) || (source ==? NodeKindScript)) && (target ==? NodeKindAgent).

(** The edge continues a session that its context source already fixes. *)
Definition pins_session (edge : Edge) : bool :=
  (e_ContextMode edge ==? ContextModeContinueSession) &&
  (context_kind (e_ContextSource edge) <>? ContextSourcePreviousTargetOrNew).

Definition selects_assignee (edge : Edge) : bool :=
  CanonicalAssigneeSelection (e_AssigneeSelection edge) ==? AssigneeSelectionPreviousNode.
Definition selects_thinking (edge : Edge) : bool :=
  CanonicalThinkingSelection (e_ThinkingSelection edge) ==? ThinkingSelectionPreviousNode.

Definition ResolveProtectedParameterConsumption (request : ProtectedParameterConsumptionRequest)
    : ProtectedParameterConsumption :=
  let edge := pcr_Edge request in
  let eligible := eligible_topology (pcr_FanOut request) (pcr_SourceKind request) (pcr_TargetKind request) in
  {| pc_Assignee :=
       if selects_assignee edge && eligible && negb (pins_session edge) then
         if pcr_TargetSessionPolicy request ==? AssigneeSessionPolicyPreserve then IgnoreAuthorized
         else if pcr_ExplicitCallableRoles request ==? 1 then IgnoreAuthorized
         else if (1 <? pcr_ExplicitCallableRoles request)%nat then RequiredValidate
         else RejectUnknown
       else RejectUnknown;
     pc_Thinking :=
       if selects_thinking edge && eligible && tc_ReasoningCapable (pcr_Thinking request) then
         if negb (tc_Finite (pcr_Thinking request)) || (1 <? length (tc_Levels (pcr_Thinking request)))%nat
         then RequiredValidate else IgnoreAuthorized
       else RejectUnknown |}.

(** ** Selector applicability *)
Inductive SelectorApplicabilityReason :=
| ApplicabilityUnset | ApplicabilityEligible | ApplicabilityTopology | ApplicabilityContextSource
| ApplicabilityNoCallableRoles | ApplicabilityNoThinkingSupport
| ApplicabilityUnavailableConfiguration | ApplicabilitySoleCallableRole
| ApplicabilityNoThinkingLevels | ApplicabilitySoleThinkingLevel.
#[export] Instance SelectorApplicabilityReason_eq_dec : EqDecision SelectorApplicabilityReason.
Proof. solve_decision. Defined.

Record SelectorApplicability := {
  sa_Available : bool; sa_ParameterVisible : bool; sa_Reason : SelectorApplicabilityReason }.
Record EdgeSelectorApplicability := {
  esa_Assignee : SelectorApplicability; esa_Thinking : SelectorApplicability }.

Definition unavailable (reason : SelectorApplicabilityReason) : SelectorApplicability :=
  {| sa_Available := false; sa_ParameterVisible := false; sa_Reason := reason |}.

Definition thinkingApplicability (edge : Edge) (catalog : option TargetAgentCatalog) (targetRole : string)
    : SelectorApplicability :=
  let roles := match catalog with
    | None => []
    | Some c => if selects_assignee edge then ExplicitCallableRoles c
                else match ResolveConfiguredRole c (TrimSpace targetRole) with
                     | Some role => [role] | None => [] end
    end in
  if length roles ==? 0 then unavailable ApplicabilityUnavailableConfiguration else
  let union := UnionTargetAgentThinkingCapabilities roles in
  if negb (tc_ReasoningCapable union) then unavailable ApplicabilityNoThinkingSupport
  else if tc_Finite union && (length (tc_Levels union) ==? 0) then
    {| sa_Available := true; sa_ParameterVisible := false; sa_Reason := ApplicabilityNoThinkingLevels |}
  else if tc_Finite union && (length (tc_Levels union) ==? 1) then
    {| sa_Available := true; sa_ParameterVisible := false; sa_Reason := ApplicabilitySoleThinkingLevel |}
  else {| sa_Available := true; sa_ParameterVisible := true; sa_Reason := ApplicabilityEligible |}.

Definition resolveEdgeSelectorApplicability (edge : Edge) (source target : NodeKind) (fanOut : bool)
    (catalog : option TargetAgentCatalog) (targetRole : string) : EdgeSelectorApplicability :=
  if negb (eligible_topology fanOut source target) then
    {| esa_Assignee := unavailable ApplicabilityTopology; esa_Thinking := unavailable ApplicabilityTopology |}
  else if pins_session edge then
    {| esa_Assignee := unavailable ApplicabilityContextSource;
       esa_Thinking := thinkingApplicability edge catalog targetRole |}
  else
    let roles := match catalog with Some c => ExplicitCallableRoles c | None => [] end in
    {| esa_Assignee :=
         match length roles with
         | 0 => unavailable ApplicabilityNoCallableRoles
         | 1 => {| sa_Available := true; sa_ParameterVisible := false; sa_Reason := ApplicabilitySoleCallableRole |}
         | _ => {| sa_Available := true; sa_ParameterVisible := true; sa_Reason := ApplicabilityEligible |}
         end;
       esa_Thinking := thinkingApplicability edge catalog targetRole |}.

(** ** Execution selections *)
Definition AssigneeOriginConfiguredFallback := "configured_fallback".
Definition AssigneeOriginTransitionSelected := "transition_selected".
Definition AssigneeOriginRetainedSession := "retained_session".

Definition NewThinkingValue (raw : string) : result SelectionError string :=
  let value := TrimSpace raw in
  if value ==? "" then Err (PlainError "thinking value is required") else Ok value.

Record AgentExecutionSelection := {
  aes_Assignee : string; aes_Thinking : option string; aes_Origin : string }.

Definition NewAgentExecutionSelection (assignee : string) (thinking : option string) (origin : string)
    : result SelectionError AgentExecutionSelection :=
  let assignee := TrimSpace assignee in
  let origin := TrimSpace origin in
  if assignee ==? "" then Err (PlainError "agent execution assignee is required")
  else if negb (origin ∈? [AssigneeOriginConfiguredFallback; AssigneeOriginTransitionSelected;
                           AssigneeOriginRetainedSession])
  then Err (PlainError "agent execution assignee origin is invalid")
  else match thinking with
  | None => Ok {| aes_Assignee := assignee; aes_Thinking := None; aes_Origin := origin |}
  | Some raw =>
    value ← NewThinkingValue raw;
    Ok {| aes_Assignee := assignee; aes_Thinking := Some value; aes_Origin := origin |}
  end.

Definition AgentExecutionSelection_Validate (s : AgentExecutionSelection) : option SelectionError :=
  match NewAgentExecutionSelection (aes_Assignee s) (aes_Thinking s) (aes_Origin s) with
  | Ok _ => None | Err e => Some e
  end.

Definition materializeThinkingValue (raw : string) : result SelectionError (option string) :=
  if TrimSpace raw ==? "" then Ok None
  else value ← NewThinkingValue raw; Ok (Some value).

Record TargetAgentExecutionSelectionRequest := {
  xr_Edge : Edge; xr_FallbackRole : string; xr_Catalog : option TargetAgentCatalog;
  xr_SubmittedRole : string; xr_SubmittedThinking : string; xr_ThinkingDescription : string;
  xr_RetainedSession : option AgentExecutionSelection }.

(** The role literal [TargetAgentRole{Identity: selection.Assignee}]. *)
Definition bare_role (ident : string) : TargetAgentRole := {|
  r_Identity := ident; r_QuestionsEnabled := false; r_ExplicitAgentCallable := false;
  r_Model := ""; r_ConfiguredThinking := "";
  r_Thinking := {| tc_ReasoningCapable := false; tc_Finite := false; tc_Levels := [] |} |}.

Section execution.
Context `{RangeOrder}.

(** The branch that keeps the retained session's assignee. *)
Definition plan_retained_selection (request : TargetAgentExecutionSelectionRequest)
  (retained : AgentExecutionSelection) : result SelectionError AgentExecutionSelection :=
let resolvedRole := xr_Catalog request ≫= λ c, ResolveConfiguredRole c (aes_Assignee retained) in
let role := default (bare_role (aes_Assignee retained)) resolvedRole in
thinking ←
  (if selects_thinking (xr_Edge request) || bool_decide (is_Some resolvedRole) then
     t ← PlanTargetAgentThinkingSelection {|
           tsr_OverrideEnabled := selects_thinking (xr_Edge request); tsr_TargetRole := role;
           tsr_EligibleRoles := [role]; tsr_SubmittedValue := xr_SubmittedThinking request;
           tsr_AuthoredDescription := xr_ThinkingDescription request |};
     materializeThinkingValue (ts_Value t)
   else Ok (aes_Thinking retained));
let selection := {| aes_Assignee := aes_Assignee retained; aes_Thinking := thinking;
                    aes_Origin := AssigneeOriginRetainedSession |} in
match AgentExecutionSelection_Validate selection with
| Some e => Err e
| None => Ok selection
end.

Definition PlanTargetAgentExecutionSelection (request : TargetAgentExecutionSelectionRequest)
  : result SelectionError AgentExecutionSelection :=
match xr_RetainedSession request with
| Some retained => plan_retained_selection request retained
| None =>
  let override := selects_assignee (xr_Edge request) in
  roleSelection ← PlanTargetAgentSelection (xr_Catalog request) {|
    asr_FallbackRole := xr_FallbackRole request; asr_OverrideEnabled := override;
    asr_SubmittedRole := xr_SubmittedRole request |};
  let eligibleRoles :=
    if override then match xr_Catalog request with Some c => ExplicitCallableRoles c | None => [] end
    else [as_Role roleSelection] in
  thinkingSelection ← PlanTargetAgentThinkingSelection {|
    tsr_OverrideEnabled := selects_thinking (xr_Edge request); tsr_TargetRole := as_Role roleSelection;
    tsr_EligibleRoles := eligibleRoles; tsr_SubmittedValue := xr_SubmittedThinking request;
    tsr_AuthoredDescription := xr_ThinkingDescription request |};
  thinking ← materializeThinkingValue (ts_Value thinkingSelection);
  NewAgentExecutionSelection (r_Identity (as_Role roleSelection)) thinking
    (if override then AssigneeOriginTransitionSelected else AssigneeOriginConfiguredFallback)
end.

(** ** Transition parameter contract *)
Record TransitionSelectionMaterializationRequest := {
mr_FallbackRole : string; mr_SubmittedRole : string; mr_SubmittedThinking : string;
mr_ThinkingDescription : string; mr_RetainedSession : option AgentExecutionSelection }.

Record TransitionParameterContractRequest := {
cr_Edge : Edge; cr_SourceKind : NodeKind; cr_TargetKind : NodeKind; cr_TargetRole : string;
cr_RetainedTargetRole : option TargetAgentRole; cr_FanOut : bool; cr_TargetSessionResolved : bool;
cr_TargetSessionPolicy : string; cr_Catalog : option TargetAgentCatalog;
cr_RequireExecutionDescriptions : bool;
cr_Materialization : option TransitionSelectionMaterializationRequest }.

Record TransitionParameterContract := {
tpc_Parameters : list EdgeParameter; tpc_KnownParameters : list EdgeParameter;
tpc_Consumption : ProtectedParameterConsumption; tpc_Thinking : ThinkingCapability }.

Record TransitionSelectionPlan := {
tsp_Applicability : EdgeSelectorApplicability; tsp_Contract : TransitionParameterContract;
tsp_ExecutionSelection : option AgentExecutionSelection }.

Definition transitionThinkingRoles (request : TransitionParameterContractRequest) : list TargetAgentRole :=
match cr_RetainedTargetRole request with
| Some role => [canonicalTargetAgentRole role]
| None =>
  match cr_Catalog request with
  | None => []
  | Some c =>
    if selects_assignee (cr_Edge request) then ExplicitCallableRoles c
    else match ResolveConfiguredRole c (cr_TargetRole request) with Some role => [role] | None => [] end
  end
end.

Definition explicitCallableRoles (catalog : option TargetAgentCatalog) : list TargetAgentRole :=
match catalog with Some c => ExplicitCallableRoles c | None => [] end.

Definition PlanTransitionProtectedParameterConsumption (request : TransitionParameterContractRequest)
  : ProtectedParameterConsumption :=
ResolveProtectedParameterConsumption {|
  pcr_Edge := cr_Edge request; pcr_SourceKind := cr_SourceKind request;
  pcr_TargetKind := cr_TargetKind request; pcr_FanOut := cr_FanOut request;
  pcr_TargetSessionResolved := cr_TargetSessionResolved request;
  pcr_TargetSessionPolicy := cr_TargetSessionPolicy request;
  pcr_ExplicitCallableRoles := length (explicitCallableRoles (cr_Catalog request));
  pcr_Thinking := UnionTargetAgentThinkingCapabilities (transitionThinkingRoles request) |}.

Definition transitionParameterDescription (authored derived : string) : string :=
if TrimSpace authored <>? "" then TrimSpace authored else TrimSpace derived.

Definition validParameterPurpose (purpose : string) : bool :=
purpose ∈? [ParameterPurposeOrdinary; ParameterPurposeTargetAssignee; ParameterPurposeTargetThinking].

Definition with_description (p : EdgeParameter) (d : string) : EdgeParameter :=
{| p_Key := p_Key p; p_Description := d; p_Purpose := p_Purpose p |}.

(** One parameter: what it adds to the exposed and to the known parameters. *)
Definition plan_parameter (request : TransitionParameterContractRequest)
  (consumption : ProtectedParameterConsumption) (thinking : ThinkingCapability) (p : EdgeParameter)
  : result SelectionError (list EdgeParameter * list EdgeParameter) :=
let purpose := CanonicalParameterPurpose (p_Purpose p) in
if negb (validParameterPurpose purpose) then
  Err (PlainError "transition parameter has invalid purpose")
else if purpose ==? ParameterPurposeOrdinary then Ok ([p], [p])
else if purpose ==? ParameterPurposeTargetAssignee then
  match pc_Assignee consumption with
  | RejectUnknown => Ok ([], [])
  | IgnoreAuthorized | ConsumptionUnset => Ok ([], [p])
  | RequiredValidate =>
    Ok ([with_description p (transitionParameterDescription (p_Description p)
           (DefaultTargetAgentRoleDescription (explicitCallableRoles (cr_Catalog request))))], [p])
  end
else
  match pc_Thinking consumption with
  | RejectUnknown => Ok ([], [])
  | IgnoreAuthorized | ConsumptionUnset => Ok ([], [p])
  | RequiredValidate =>
    let description := transitionParameterDescription (p_Description p)
      (DefaultTargetAgentThinkingDescription thinking) in
    if cr_RequireExecutionDescriptions request && negb (tc_Finite thinking) &&
       (TrimSpace description ==? "")
    then Err (TargetAgentSelectionError ThinkingDescriptionRequired "")
    else Ok ([with_description p description], [p])
  end.

Fixpoint plan_parameters (request : TransitionParameterContractRequest)
  (consumption : ProtectedParameterConsumption) (thinking : ThinkingCapability) (ps : list EdgeParameter)
  : result SelectionError (list EdgeParameter * list EdgeParameter) :=
match ps with
| [] => Ok ([], [])
| p :: ps =>
  one ← plan_parameter request consumption thinking p;
  rest ← plan_parameters request consumption thinking ps;
  Ok ((one.1 ++ rest.1)%list, (one.2 ++ rest.2)%list)
end.

Definition planTransitionParameterContract (request : TransitionParameterContractRequest)
  : result SelectionError TransitionParameterContract :=
let thinking := UnionTargetAgentThinkingCapabilities (transitionThinkingRoles request) in
let consumption := PlanTransitionProtectedParameterConsumption request in
ps ← plan_parameters request consumption thinking (e_Parameters (cr_Edge request));
Ok {| tpc_Parameters := ps.1; tpc_KnownParameters := ps.2; tpc_Consumption := consumption;
      tpc_Thinking := thinking |}.

Definition zero_consumption : ProtectedParameterConsumption :=
{| pc_Assignee := ConsumptionUnset; pc_Thinking := ConsumptionUnset |}.
Definition zero_contract : TransitionParameterContract := {|
tpc_Parameters := []; tpc_KnownParameters := []; tpc_Consumption := zero_consumption;
tpc_Thinking := {| tc_ReasoningCapable := false; tc_Finite := false; tc_Levels := [] |} |}.

(** The plan is returned together with the error: its applicability is set
  before the fallible parts and is read by callers on error too. *)
Definition PlanTransitionSelection (request : TransitionParameterContractRequest)
  : TransitionSelectionPlan * option SelectionError :=
let applicability := resolveEdgeSelectorApplicability (cr_Edge request) (cr_SourceKind request)
  (cr_TargetKind request) (cr_FanOut request) (cr_Catalog request) (cr_TargetRole request) in
let plan contract selection := {| tsp_Applicability := applicability; tsp_Contract := contract;
                                  tsp_ExecutionSelection := selection |} in
match planTransitionParameterContract request with
| Err e => (plan zero_contract None, Some e)
| Ok contract =>
  match cr_Materialization request with
  | None => (plan contract None, None)
  | Some mat =>
    match PlanTargetAgentExecutionSelection {|
      xr_Edge := cr_Edge request; xr_FallbackRole := mr_FallbackRole mat;
      xr_Catalog := cr_Catalog request; xr_SubmittedRole := mr_SubmittedRole mat;
      xr_SubmittedThinking := mr_SubmittedThinking mat;
      xr_ThinkingDescription := mr_ThinkingDescription mat;
      xr_RetainedSession := mr_RetainedSession mat |} with
    | Err e => (plan contract None, Some e)
    | Ok selection => (plan contract (Some selection), None)
    end
  end
end.

Definition ResolveEdgeSelectorApplicability (edge : Edge) (source target : NodeKind) (fanOut : bool)
  (catalog : option TargetAgentCatalog) (targetRole : string) : EdgeSelectorApplicability :=
match PlanTransitionSelection {|
  cr_Edge := edge; cr_SourceKind := source; cr_TargetKind := target; cr_TargetRole := targetRole;
  cr_RetainedTargetRole := None; cr_FanOut := fanOut; cr_TargetSessionResolved := false;
  cr_TargetSessionPolicy := ""; cr_Catalog := catalog; cr_RequireExecutionDescriptions := false;
  cr_Materialization := None |} with
| (_, Some _) =>
  {| esa_Assignee := unavailable ApplicabilityUnavailableConfiguration;
     esa_Thinking := unavailable ApplicabilityUnavailableConfiguration |}
| (plan, None) => tsp_Applicability plan
end.

Definition PlanTransitionParameterContract (request : TransitionParameterContractRequest)
    : result SelectionError TransitionParameterContract :=
  match PlanTransitionSelection request with
  | (_, Some e) => Err e
  | (plan, None) => Ok (tsp_Contract plan)
  end.

(** The last node with an identifier: the source's loop does not stop at a match. *)
Definition last_node (nodes : list Node) (id : NodeID) : option Node :=
  foldl (λ found candidate, if NodeIDOf candidate ==? id then Some candidate else found) None nodes.

(** [None] is the zero plan returned with a lookup error. *)
Definition PlanDefinitionTransitionSelection (definition : WorkflowDefinition) (edge : Edge)
    (catalog : option TargetAgentCatalog) (requireExecutionDescriptions : bool)
    : option TransitionSelectionPlan * option SelectionError :=
  match List.find (λ g, tg_ID g ==? e_TransitionGroupID edge) (d_TransitionGroups definition) with
  | None => (None, Some (PlainError "transition group is absent"))
  | Some group =>
    match last_node (d_Nodes definition) (tg_SourceNodeID group) with
    | None => (None, Some (PlainError "transition source node is absent"))
    | Some source =>
      match last_node (d_Nodes definition) (e_TargetNodeID edge) with
      | None => (None, Some (PlainError "transition target node is absent"))
      | Some target =>
        let fanOut := length (filter (λ c, e_TransitionGroupID c = e_TransitionGroupID edge)
                               (d_Edges definition)) in
        let '(plan, err) := PlanTransitionSelection {|
          cr_Edge := edge; cr_SourceKind := Kind source; cr_TargetKind := Kind target;
          cr_TargetRole := NodeSubagentRole target; cr_RetainedTargetRole := None;
          cr_FanOut := (1 <? fanOut)%nat; cr_TargetSessionResolved := false;
          cr_TargetSessionPolicy := ""; cr_Catalog := catalog;
          cr_RequireExecutionDescriptions := requireExecutionDescriptions;
          cr_Materialization := None |} in
        (Some plan, err)
      end
    end
  end.
End execution.
