(* ===== verification/SelectionFacts.v ===== *)
(** * Facts about target agent selection

    The lemmas behind the selection theorems: role identities are canonical
    forms, canonical level lists and role lists are sorted duplicate-free
    images of their input, the capability union is a union. *)
From Stdlib Require Import NArith Ascii String.
From stdpp Require Import gmap strings list sorting.
From S2P Require Import Prelude GoStrings Types Selection.

Local Open Scope string_scope.

(** ** Role identities *)
Lemma role_char_range c : role_char c = true →
  (97 ≤ N_of_ascii c ≤ 122 ∨ 48 ≤ N_of_ascii c ≤ 57 ∨ N_of_ascii c = 45 ∨ N_of_ascii c = 95)%N.
Proof.
  unfold role_char. rewrite !orb_true_iff, !andb_true_iff, !N.leb_le, !N.eqb_eq. tauto.
Qed.
Lemma role_char_graphic c : role_char c = true → graphic c = true.
Proof. intros ?%role_char_range. unfold graphic. apply andb_true_iff. rewrite !N.leb_le. lia. Qed.
Lemma role_char_lower c : role_char c = true → to_lower_ascii c = c.
Proof.
  intros ?%role_char_range. unfold to_lower_ascii.
  destruct (N.leb_spec 65 (N_of_ascii c)), (N.leb_spec (N_of_ascii c) 90); simpl; try done; lia.
Qed.

Lemma to_lower_role_chars l : forallb role_char l = true → to_lower l = l.
Proof.
  induction l as [|c l IH]; simpl; [done|]. intros [Hc Hl]%andb_true_iff.
  assert ((N_of_ascii c <? 128)%N = true) as -> by (apply role_char_range in Hc; apply N.ltb_lt; lia).
  by rewrite IH, role_char_lower.
Qed.
Lemma role_chars_trim s : forallb role_char (list_ascii_of_string s) = true → TrimSpace s = s.
Proof.
  intros Hs. apply TrimSpace_graphic, Forall_forall. intros c Hc. apply role_char_graphic.
  rewrite forallb_forall in Hs. by apply Hs, list_elem_of_In.
Qed.

(** The names [NormalizeSubagentRole] returns. *)
Definition role_name (s : string) : Prop :=
  (s ≠ "") ∧ (s ∉ reservedSubagentRoleNames) ∧ forallb role_char (list_ascii_of_string s) = true.

Lemma NormalizeSubagentRole_name raw :
  NormalizeSubagentRole raw ≠ "" →
  role_name (NormalizeSubagentRole raw) ∧ NormalizeSubagentRole raw = ToLower (TrimSpace raw).
Proof. unfold NormalizeSubagentRole, role_name. repeat case_if_goal; bool_simp; done. Qed.
Lemma NormalizeSubagentRole_fixed s : role_name s → NormalizeSubagentRole s = s.
Proof.
  intros (H1 & H2 & H3). unfold NormalizeSubagentRole, ToLower.
  rewrite role_chars_trim, to_lower_role_chars, string_of_list_ascii_of_string by done.
  by rewrite !bool_decide_eq_false_2, H3 by done.
Qed.
Lemma NormalizeSubagentSelector_role raw : NormalizeSubagentSelector raw = NormalizeSubagentRole raw.
Proof.
  unfold NormalizeSubagentSelector, NormalizeSubagentRole.
  destruct (ToLower (TrimSpace raw) ==? "") eqn:E; [|by repeat case_if_goal].
  bool_simp. rewrite E. done.
Qed.

(** Identities are canonical forms: the identity of an identity is itself. *)
Lemma canonicalAgentRoleIdentity_idemp raw ident :
  canonicalAgentRoleIdentity raw = Some ident → canonicalAgentRoleIdentity ident = Some ident.
Proof.
  unfold canonicalAgentRoleIdentity. rewrite NormalizeSubagentSelector_role.
  destruct (EqualFold (TrimSpace raw) DefaultAgentRole); [intros; by simplify_eq/=|].
  case_bool_decide as Hne; [done|]. intros [= <-].
  destruct (NormalizeSubagentRole_name _ Hne) as [Hn _].
  rewrite (role_chars_trim (NormalizeSubagentRole raw)) by apply Hn.
  rewrite NormalizeSubagentSelector_role, (NormalizeSubagentRole_fixed _ Hn).
  case_if_goal; [|by rewrite bool_decide_eq_false_2].
  f_equal. destruct Hn as (_ & _ & Hn). unfold EqualFold in *. bool_simp.
  rewrite <- (string_of_list_ascii_of_string (NormalizeSubagentRole raw)).
  rewrite <- (to_lower_role_chars _ Hn). etransitivity; [symmetry; exact Heqb|]. f_equal.
  rewrite (to_lower_role_chars _ Hn). apply list_eq. intros i. rewrite list_lookup_fmap.
  destruct (list_ascii_of_string _ !! i) as [c|] eqn:Ei; simpl; [|done]. f_equal. apply role_char_lower.
  rewrite forallb_forall in Hn. apply Hn, list_elem_of_In. by eapply list_elem_of_lookup_2.
Qed.
Lemma canonicalAgentRoleIdentity_nonempty raw ident :
  canonicalAgentRoleIdentity raw = Some ident → ident ≠ "".
Proof. unfold canonicalAgentRoleIdentity. intros H. cases_in H; bool_simp; done. Qed.
Lemma canonicalAgentRoleIdentity_trim raw :
  canonicalAgentRoleIdentity (TrimSpace raw) = canonicalAgentRoleIdentity raw.
Proof.
  unfold canonicalAgentRoleIdentity. rewrite !NormalizeSubagentSelector_role.
  unfold NormalizeSubagentRole. by rewrite !TrimSpace_idemp.
Qed.
Lemma canonicalTargetAgentRole_idemp role :
  canonicalTargetAgentRole (canonicalTargetAgentRole role) = canonicalTargetAgentRole role.
Proof.
  unfold canonicalTargetAgentRole, with_identity. cbn [r_Identity r_QuestionsEnabled
    r_ExplicitAgentCallable r_Model r_ConfiguredThinking r_Thinking]. f_equal.
  destruct (canonicalAgentRoleIdentity (r_Identity role)) as [i|] eqn:E; cbn [default from_option id]; [|reflexivity].
  by rewrite (canonicalAgentRoleIdentity_idemp _ _ E).
Qed.

(** ** Thinking levels *)

(** Go's canonical level lists: strictly increasing, so duplicate-free. *)
Definition canonical_list (l : list string) : Prop := NoDup l ∧ Sorted string_le l.

Lemma canonical_list_ext l1 l2 :
  canonical_list l1 → canonical_list l2 → (∀ x, x ∈ l1 ↔ x ∈ l2) → l1 = l2.
Proof.
  intros [? ?] [? ?] Hext. apply (Sorted_unique string_le); [done..|]. by apply NoDup_Permutation.
Qed.

Lemma canonical_scan_spec out levels :
  NoDup out →
  NoDup (foldl canonical_level_scan out levels) ∧
  ∀ x, x ∈ foldl canonical_level_scan out levels ↔
       x ∈ out ∨ (x ≠ "" ∧ ∃ raw, raw ∈ levels ∧ TrimSpace raw = x).
Proof.
  revert out. induction levels as [|raw levels IH]; intros out Hout; simpl.
  { split; [done|]. intros x. split; [auto|]. intros [?|(_ & ? & []%elem_of_nil & _)]; done. }
  assert (NoDup (canonical_level_scan out raw)) as Hnd.
  { unfold canonical_level_scan. case_if_goal; auto using NoDup_append_unique. }
  destruct (IH _ Hnd) as [IH1 IH2]. split; [done|]. intros x. rewrite IH2.
  unfold canonical_level_scan. setoid_rewrite elem_of_cons.
  destruct (TrimSpace raw ==? "") eqn:E; bool_simp; [|rewrite elem_of_append_unique]; naive_solver.
Qed.

Lemma canonicalThinkingLevels_canonical levels : canonical_list (canonicalThinkingLevels levels).
Proof.
  unfold canonicalThinkingLevels. split.
  - rewrite sort_strings_perm. by apply canonical_scan_spec, NoDup_nil_2.
  - apply Sorted_merge_sort, _.
Qed.
Lemma elem_of_canonicalThinkingLevels levels x :
  x ∈ canonicalThinkingLevels levels ↔ x ≠ "" ∧ ∃ raw, raw ∈ levels ∧ TrimSpace raw = x.
Proof.
  unfold canonicalThinkingLevels. rewrite sort_strings_perm.
  rewrite (proj2 (canonical_scan_spec [] levels NoDup_nil_2)). set_solver.
Qed.
Lemma canonicalThinkingLevels_ext l1 l2 :
  (∀ x, x ∈ l1 ↔ x ∈ l2) → canonicalThinkingLevels l1 = canonicalThinkingLevels l2.
Proof.
  intros Hext. apply canonical_list_ext; [apply canonicalThinkingLevels_canonical..|].
  intros x. rewrite !elem_of_canonicalThinkingLevels. by setoid_rewrite Hext.
Qed.
Lemma canonicalThinkingLevels_idemp levels :
  canonicalThinkingLevels (canonicalThinkingLevels levels) = canonicalThinkingLevels levels.
Proof.
  apply canonical_list_ext; [apply canonicalThinkingLevels_canonical..|].
  intros x. rewrite !elem_of_canonicalThinkingLevels. setoid_rewrite elem_of_canonicalThinkingLevels.
  split.
  - intros (Hne & ? & (? & raw & ? & <-) & <-). split; [done|]. exists raw. by rewrite TrimSpace_idemp.
  - intros (Hne & raw & ? & <-). split; [done|]. exists (TrimSpace raw). rewrite TrimSpace_idemp. eauto.
Qed.

(** ** Capability union *)
Lemma union_scan_levels n union roles x :
  x ∈ tc_Levels (foldl (union_scan n) union roles) ↔
  x ∈ tc_Levels union ∨ ∃ r, r ∈ roles ∧ tc_Finite (r_Thinking r) = true ∧
                             x ∈ canonicalThinkingLevels (tc_Levels (r_Thinking r)).
Proof.
  revert union. induction roles as [|r roles IH]; intros union; simpl; [set_solver|].
  rewrite IH. setoid_rewrite elem_of_cons. unfold union_scan. simpl.
  destruct (tc_Finite (r_Thinking r)) eqn:E; simpl; [rewrite elem_of_app|]; split.
  - intros [[?|?]|(r' & ? & ? & ?)]; eauto 10.
  - intros [?|(r' & [->|?] & ? & ?)]; eauto 10.
  - intros [?|(r' & ? & ? & ?)]; eauto 10.
  - intros [?|(r' & [->|?] & ? & ?)]; eauto 10; congruence.
Qed.
Lemma union_scan_capable n union roles :
  tc_ReasoningCapable (foldl (union_scan n) union roles) =
  tc_ReasoningCapable union || existsb (λ r, tc_ReasoningCapable (r_Thinking r)) roles.
Proof.
  revert union. induction roles as [|r roles IH]; intros union; simpl; [by rewrite orb_false_r|].
  rewrite IH, orb_assoc. f_equal. unfold union_scan. by destruct (negb _).
Qed.

Lemma union_capable roles :
  tc_ReasoningCapable (UnionTargetAgentThinkingCapabilities roles) =
  existsb (λ r, tc_ReasoningCapable (r_Thinking r)) roles.
Proof. unfold UnionTargetAgentThinkingCapabilities. simpl. apply union_scan_capable. Qed.
Lemma union_finite roles :
  tc_Finite (UnionTargetAgentThinkingCapabilities roles) =
  negb (length roles ==? 0) && forallb (λ r, tc_Finite (r_Thinking r)) roles.
Proof. by destruct roles. Qed.
Lemma union_levels roles x :
  x ∈ tc_Levels (UnionTargetAgentThinkingCapabilities roles) ↔
  tc_Finite (UnionTargetAgentThinkingCapabilities roles) = true ∧
  ∃ r, r ∈ roles ∧ x ∈ canonicalThinkingLevels (tc_Levels (r_Thinking r)).
Proof.
  rewrite union_finite. unfold UnionTargetAgentThinkingCapabilities. cbn [tc_Levels].
  rewrite elem_of_canonicalThinkingLevels. destruct roles as [|r roles].
  { simpl. split; [|intros [? _]; done]. by intros (_ & ? & []%elem_of_nil & _). }
  assert ((0 <? length (r :: roles))%nat = true) as -> by done.
  assert ((length (r :: roles) ==? 0) = false) as -> by by apply bool_decide_eq_false.
  cbn [negb andb]. destruct (forallb _ (r :: roles)) eqn:Hf; cbn [negb].
  - setoid_rewrite union_scan_levels. cbn [tc_Levels]. split.
    + intros (Hne & raw & [[]%elem_of_nil|(r' & Hr & _ & Hx)] & <-). split; [done|]. exists r'.
      split; [done|]. apply elem_of_canonicalThinkingLevels in Hx as (? & ? & ? & <-).
      rewrite TrimSpace_idemp. apply elem_of_canonicalThinkingLevels. eauto.
    + intros (_ & r' & Hr & Hx). split; [by apply elem_of_canonicalThinkingLevels in Hx as [? _]|].
      exists x. split.
      * right. exists r'. split_and!; [done| |done].
        rewrite forallb_forall in Hf. by apply Hf, list_elem_of_In.
      * apply elem_of_canonicalThinkingLevels in Hx as (_ & ? & _ & <-). apply TrimSpace_idemp.
  - split; [|intros [? _]; done]. by intros (_ & ? & []%elem_of_nil & _).
Qed.
Lemma union_levels_canonical roles :
  canonical_list (tc_Levels (UnionTargetAgentThinkingCapabilities roles)).
Proof. apply canonicalThinkingLevels_canonical. Qed.

(** The union depends on the set of roles alone. *)
Lemma union_ext roles1 roles2 :
  (∀ r, r ∈ roles1 ↔ r ∈ roles2) →
  UnionTargetAgentThinkingCapabilities roles1 = UnionTargetAgentThinkingCapabilities roles2.
Proof.
  intros Hext.
  assert (tc_ReasoningCapable (UnionTargetAgentThinkingCapabilities roles1) =
          tc_ReasoningCapable (UnionTargetAgentThinkingCapabilities roles2)) as Hc.
  { rewrite !union_capable. apply eq_true_iff_eq. rewrite !existsb_exists.
    setoid_rewrite <- list_elem_of_In. by setoid_rewrite Hext. }
  assert (tc_Finite (UnionTargetAgentThinkingCapabilities roles1) =
          tc_Finite (UnionTargetAgentThinkingCapabilities roles2)) as Hf.
  { rewrite !union_finite. apply eq_true_iff_eq. rewrite !andb_true_iff, !forallb_forall.
    setoid_rewrite <- list_elem_of_In. setoid_rewrite Hext.
    rewrite !negb_true_iff, !bool_decide_eq_false, !length_zero_iff_nil.
    assert (roles1 = [] ↔ roles2 = []) as ->; [|done].
    split; intros ->; [destruct roles2 as [|r ?]|destruct roles1 as [|r ?]]; try done;
      specialize (Hext r); set_solver. }
  assert (tc_Levels (UnionTargetAgentThinkingCapabilities roles1) =
          tc_Levels (UnionTargetAgentThinkingCapabilities roles2)) as Hl.
  { apply canonical_list_ext; [apply union_levels_canonical..|]. intros x.
    rewrite !union_levels, Hf. by setoid_rewrite Hext. }
  destruct (UnionTargetAgentThinkingCapabilities roles1), (UnionTargetAgentThinkingCapabilities roles2).
  simpl in *. congruence.
Qed.

(** The levels of a union are their own canonical form. *)
Lemma union_levels_fixed roles :
  canonicalThinkingLevels (tc_Levels (UnionTargetAgentThinkingCapabilities roles)) =
  tc_Levels (UnionTargetAgentThinkingCapabilities roles).
Proof. apply canonicalThinkingLevels_idemp. Qed.

(** ** Callable roles *)

(** [role] is what the catalog's callable roles give the identity [ident]: the
    last of them, with its identity in canonical form. *)
Definition callable_as (roles : list TargetAgentRole) (ident : string) (role : TargetAgentRole) : Prop :=
  ∃ l1 raw l2, roles = (l1 ++ raw :: l2)%list ∧ r_ExplicitAgentCallable raw = true ∧
    canonicalAgentRoleIdentity (r_Identity raw) = Some ident ∧ role = canonicalTargetAgentRole raw ∧
    ∀ r, r ∈ l2 → r_ExplicitAgentCallable r = true → canonicalAgentRoleIdentity (r_Identity r) ≠ Some ident.

Lemma roles_by_identity_app l1 role :
  roles_by_identity (l1 ++ [role])%list =
    if negb (r_ExplicitAgentCallable role) then roles_by_identity l1
    else match canonicalAgentRoleIdentity (r_Identity role) with
         | Some ident => <[ident := canonicalTargetAgentRole role]> (roles_by_identity l1)
         | None => roles_by_identity l1
         end.
Proof.
  unfold roles_by_identity. rewrite foldl_app. cbn [foldl]. destruct (negb _); [done|].
  assert (r_Identity (canonicalTargetAgentRole role) =
          default "" (canonicalAgentRoleIdentity (r_Identity role))) as -> by reflexivity.
  destruct (canonicalAgentRoleIdentity (r_Identity role)) as [i|] eqn:E; cbn [default from_option]; [|reflexivity].
  rewrite bool_decide_eq_false_2; [reflexivity|]. by eapply canonicalAgentRoleIdentity_nonempty.
Qed.

Lemma roles_by_identity_lookup roles ident role :
  roles_by_identity roles !! ident = Some role ↔ callable_as roles ident role.
Proof.
  induction roles as [|raw roles IH] using rev_ind.
  { split; [unfold roles_by_identity; simpl; by rewrite lookup_empty|]. by intros ([|??] & ? & ? & ? & _). }
  rewrite roles_by_identity_app.
  assert (callable_as (roles ++ [raw])%list ident role ↔
    (r_ExplicitAgentCallable raw = true ∧ canonicalAgentRoleIdentity (r_Identity raw) = Some ident ∧
       role = canonicalTargetAgentRole raw) ∨
    (¬ (r_ExplicitAgentCallable raw = true ∧ canonicalAgentRoleIdentity (r_Identity raw) = Some ident) ∧
       callable_as roles ident role)) as Hsnoc.
  { split.
    - intros (l1 & r & l2 & Heq & Hc & Hi & -> & Hlast).
      destruct l2 as [|r2 l2 _] using rev_ind.
      + apply app_inj_tail in Heq as [-> ->]. by left.
      + rewrite app_comm_cons, app_assoc in Heq. apply app_inj_tail in Heq as [-> ->].
        right. split; [intros [? ?]; eapply (Hlast r2); set_solver|].
        exists l1, r, l2. split_and!; try done. intros; eapply Hlast; set_solver.
    - intros [(? & ? & ->)|(Hno & l1 & r & l2 & -> & Hc & Hi & -> & Hlast)].
      + exists roles, raw, []. split_and!; try done. intros ? []%elem_of_nil.
      + exists l1, r, (l2 ++ [raw])%list. split_and!; try done; [by rewrite <- app_assoc|].
        intros r' [?| ->%list_elem_of_singleton]%elem_of_app; [by apply Hlast|]. intros ? ?. by apply Hno. }
  rewrite Hsnoc. destruct (r_ExplicitAgentCallable raw); simpl; [|rewrite IH; intuition done].
  destruct (canonicalAgentRoleIdentity (r_Identity raw)) as [i|]; [|rewrite IH; intuition done].
  rewrite lookup_insert_Some, IH. intuition congruence.
Qed.

Section roles.
Context `{RangeOrder}.

Lemma elem_of_canonicalExplicitCallableRoles roles role :
  role ∈ canonicalExplicitCallableRoles roles ↔ ∃ ident, callable_as roles ident role.
Proof.
  unfold canonicalExplicitCallableRoles. rewrite merge_sort_Permutation, list_elem_of_fmap. split.
  - intros ([i r] & -> & Hin%elem_of_range_map). exists i. by apply roles_by_identity_lookup.
  - intros (i & Hi%roles_by_identity_lookup). exists (i, role). split; [done|]. by apply elem_of_range_map.
Qed.
Lemma callable_as_identity roles ident role :
  callable_as roles ident role →
  r_Identity role = ident ∧ canonicalAgentRoleIdentity ident = Some ident ∧ r_ExplicitAgentCallable role = true.
Proof.
  intros (l1 & raw & l2 & _ & Hc & Hi & -> & _).
  unfold canonicalTargetAgentRole, with_identity. cbn [r_Identity r_ExplicitAgentCallable]. rewrite Hi.
  split; [done|]. split; [by eapply canonicalAgentRoleIdentity_idemp|done].
Qed.

(** The identities of the result are strictly increasing. *)
Lemma canonicalExplicitCallableRoles_identities roles :
  canonical_list (r_Identity <$> canonicalExplicitCallableRoles roles).
Proof.
  assert (∀ kv, kv ∈ range_map (roles_by_identity roles) → r_Identity kv.2 = kv.1) as Hid.
  { intros [i r] Hin%elem_of_range_map. apply roles_by_identity_lookup, callable_as_identity in Hin. tauto. }
  split.
  - unfold canonicalExplicitCallableRoles. rewrite merge_sort_Permutation, <- list_fmap_compose.
    rewrite (list_fmap_ext _ fst); [|intros ? [??] ?%list_elem_of_lookup_2; by apply Hid].
    rewrite range_map_perm. apply NoDup_fst_map_to_list.
  - assert (Sorted role_le (canonicalExplicitCallableRoles roles)) as Hs.
    { apply Sorted_merge_sort. intros a b. apply string_le_total. }
    revert Hs. generalize (canonicalExplicitCallableRoles roles) as l.
    induction l as [|r l IH]; intros Hs; [constructor|]. inversion_clear Hs as [|? ? Hs' Hd].
    constructor; [auto|]. destruct Hd; constructor. done.
Qed.
Lemma canonicalExplicitCallableRoles_lookup roles ident role :
  role ∈ canonicalExplicitCallableRoles roles → r_Identity role = ident →
  callable_as roles ident role.
Proof. intros [i Hi]%elem_of_canonicalExplicitCallableRoles <-. by destruct (callable_as_identity _ _ _ Hi) as [-> _]. Qed.

(** Looking an identity up in the result is looking it up in the catalog. *)
Lemma find_callable roles ident role :
  List.find (λ r, r_Identity r ==? ident) (canonicalExplicitCallableRoles roles) = Some role ↔
  callable_as roles ident role.
Proof.
  split.
  - intros [Hin%list_elem_of_In Hi]%find_some. bool_simp. by apply canonicalExplicitCallableRoles_lookup.
  - intros Hr. destruct (List.find _ _) as [r|] eqn:E.
    + apply find_some in E as [Hin%list_elem_of_In Hi]. bool_simp.
      assert (callable_as roles ident r) as Hr' by by apply canonicalExplicitCallableRoles_lookup.
      apply roles_by_identity_lookup in Hr, Hr'. congruence.
    + assert (role ∈ canonicalExplicitCallableRoles roles) as Hin%list_elem_of_In
        by (apply elem_of_canonicalExplicitCallableRoles; eauto).
      apply (find_none _ _ E) in Hin. bool_simp. by destruct (callable_as_identity _ _ _ Hr).
Qed.
End roles.

(** Whatever order the runtime iterates the map in, the result is the same. *)
Lemma canonicalExplicitCallableRoles_order (o1 o2 : RangeOrder) roles :
  @canonicalExplicitCallableRoles o1 roles = @canonicalExplicitCallableRoles o2 roles.
Proof.
  assert (∀ o : RangeOrder, Sorted role_le (@canonicalExplicitCallableRoles o roles)) as Hs.
  { intros o. apply Sorted_merge_sort. intros a b. apply string_le_total. }
  assert (@canonicalExplicitCallableRoles o1 roles ≡ₚ @canonicalExplicitCallableRoles o2 roles) as Hp.
  { unfold canonicalExplicitCallableRoles. by rewrite !merge_sort_Permutation, !range_map_perm. }
  assert (Transitive role_le) as Ht by (intros ??? ? ?; unfold role_le; by etransitivity).
  refine (StronglySorted_unique_strong role_le _ _ _ (Sorted_StronglySorted role_le _ (Hs o1))
    (Sorted_StronglySorted role_le _ (Hs o2)) Hp).
  intros r1 r2 [i1 H1]%elem_of_canonicalExplicitCallableRoles [i2 H2]%elem_of_canonicalExplicitCallableRoles Hle1 Hle2.
  destruct (callable_as_identity _ _ _ H1) as [Hi1 _], (callable_as_identity _ _ _ H2) as [Hi2 _].
  assert (i1 = i2) as -> by (rewrite <- Hi1, <- Hi2; by apply (anti_symm string_le)).
  apply roles_by_identity_lookup in H1, H2. congruence.
Qed.
