(* ===== verification/SelectionClaims.v ===== *)
(** * What target agent selection guarantees

    Correctness of the role planner, the thinking planner, the capability
    union, the transition parameter contract and the execution selection
    built from them. *)
From Stdlib Require Import NArith Ascii String.
From stdpp Require Import gmap strings list sorting.
From S2P Require Import Prelude GoStrings Types Samples Selection SelectionFacts.

Local Open Scope string_scope.

(** ** Capability union *)

(** The capability union of a role list: it reasons exactly when some role
    does; it is finite exactly when there are roles and all are finite; a
    finite union offers exactly the trimmed non-empty levels of its roles and
    an open one offers none; the levels are duplicate-free and sorted; and the
    union does not depend on the order or repetition of roles. *)
Theorem UnionTargetAgentThinkingCapabilities_correct roles :
  let union := UnionTargetAgentThinkingCapabilities roles in
  (tc_ReasoningCapable union = true ↔ ∃ r, r ∈ roles ∧ tc_ReasoningCapable (r_Thinking r) = true) ∧
  (tc_Finite union = true ↔ roles ≠ [] ∧ ∀ r, r ∈ roles → tc_Finite (r_Thinking r) = true) ∧
  (∀ level, level ∈ tc_Levels union ↔
     tc_Finite union = true ∧ level ≠ "" ∧
     ∃ r raw, r ∈ roles ∧ raw ∈ tc_Levels (r_Thinking r) ∧ TrimSpace raw = level) ∧
  NoDup (tc_Levels union) ∧ Sorted string_le (tc_Levels union) ∧
  ∀ roles', (∀ r, r ∈ roles' ↔ r ∈ roles) → UnionTargetAgentThinkingCapabilities roles' = union.
Proof.
  cbv zeta. split_and!.
  - rewrite union_capable, existsb_exists. by setoid_rewrite <- list_elem_of_In.
  - rewrite union_finite, andb_true_iff, forallb_forall, negb_true_iff, bool_decide_eq_false,
      length_zero_iff_nil. by setoid_rewrite <- list_elem_of_In.
  - intros level. rewrite union_levels. setoid_rewrite elem_of_canonicalThinkingLevels. naive_solver.
  - apply union_levels_canonical.
  - apply union_levels_canonical.
  - intros roles' Hext. by apply union_ext.
Qed.

(** ** Thinking planner *)

(** The planner consults the submitted value: the selector is on, some
    eligible role reasons, and the eligible levels leave a choice. *)
Definition eligible_roles (request : TargetAgentThinkingSelectionRequest) : list TargetAgentRole :=
  match tsr_EligibleRoles request with [] => [tsr_TargetRole request] | rs => rs end.
Definition offers_choice (request : TargetAgentThinkingSelectionRequest) : Prop :=
  let union := UnionTargetAgentThinkingCapabilities (eligible_roles request) in
  tsr_OverrideEnabled request = true ∧ tc_ReasoningCapable union = true ∧
  (tc_Finite union = true → 1 < length (tc_Levels union))%nat.

(** The target role accepts a level. *)
Definition target_accepts (request : TargetAgentThinkingSelectionRequest) (level : string) : Prop :=
  let c := r_Thinking (tsr_TargetRole request) in
  tc_Finite c = true → level ∈ canonicalThinkingLevels (tc_Levels c).

(** Why the planner refuses a request that leaves a choice. *)
Definition thinking_refusal (request : TargetAgentThinkingSelectionRequest) : option SelectionError :=
  let union := UnionTargetAgentThinkingCapabilities (eligible_roles request) in
  let value := TrimSpace (tsr_SubmittedValue request) in
  if value ==? "" then Some (TargetAgentSelectionError ThinkingRequired "")
  else if negb (tc_Finite union) && blank (tsr_AuthoredDescription request)
  then Some (TargetAgentSelectionError ThinkingDescriptionRequired "")
  else if bool_decide (tc_Finite union = true ∧ value ∉ tc_Levels union) ||
          bool_decide (tc_Finite (r_Thinking (tsr_TargetRole request)) = true ∧
                       value ∉ canonicalThinkingLevels (tc_Levels (r_Thinking (tsr_TargetRole request))))
  then Some (TargetAgentSelectionError UnsupportedThinking value) else None.

(** The thinking planner: where the levels leave a choice, it returns
    exactly the trimmed submitted value, exposed, when that value is present,
    described (open catalogs), offered and accepted by the target role, and
    the matching error otherwise; where they leave none it never fails and
    answers the configured level, or the sole eligible level if the target
    accepts it. *)
Theorem PlanTargetAgentThinkingSelection_correct request :
  (offers_choice request →
     PlanTargetAgentThinkingSelection request =
       match thinking_refusal request with
       | Some e => Err e
       | None => Ok {| ts_Value := TrimSpace (tsr_SubmittedValue request); ts_Exposed := true;
                       ts_SubmittedValueIgnored := false |}
       end) ∧
  (¬ offers_choice request →
     ∃ sel, PlanTargetAgentThinkingSelection request = Ok sel ∧ ts_Exposed sel = false ∧
       (ts_Value sel = TrimSpace (r_ConfiguredThinking (tsr_TargetRole request)) ∨
        tc_Levels (UnionTargetAgentThinkingCapabilities (eligible_roles request)) = [ts_Value sel] ∧
        target_accepts request (ts_Value sel))).
Proof.
  unfold offers_choice, target_accepts, thinking_refusal, PlanTargetAgentThinkingSelection, blank.
  cbv zeta. fold (eligible_roles request). cbn [ThinkingCapability_Canonical tc_Finite tc_Levels].
  set (u := UnionTargetAgentThinkingCapabilities (eligible_roles request)).
  set (tl := canonicalThinkingLevels (tc_Levels (r_Thinking (tsr_TargetRole request)))).
  set (v := TrimSpace (tsr_SubmittedValue request)).
  destruct (tsr_OverrideEnabled request); cbn [negb]; [|split; [naive_solver|intros _; eauto]].
  destruct (tc_ReasoningCapable u); cbn [negb]; [|split; [naive_solver|intros _; eauto]].
  destruct (tc_Finite u) eqn:Hf; cbn [negb].
  - destruct (tc_Levels u) as [|x [|y l]] eqn:Hl.
    + split; [intros (_ & _ & Hlt); simpl in Hlt; exfalso; specialize (Hlt eq_refl); lia|intros _; eauto].
    + split; [intros (_ & _ & Hlt); simpl in Hlt; exfalso; specialize (Hlt eq_refl); lia|]. intros _.
      destruct (tc_Finite (r_Thinking (tsr_TargetRole request))); cbn [andb].
      * case_bool_decide; simpl; eexists; split_and!; try done; simpl; auto.
      * eexists; split_and!; try done; simpl; auto. right. split; [done|]. done.
    + split; [|intros []; split_and!; [done..|intros _; simpl; lia]]. intros _. cbn [andb].
      case_bool_decide; [done|].
      destruct (tc_Finite (r_Thinking (tsr_TargetRole request))); cbn [andb];
        repeat case_bool_decide; simpl; try done; naive_solver.
  - split; [|intros []; split_and!; done]. intros _. case_bool_decide; [done|]. cbn [andb].
    case_bool_decide; [done|]. rewrite (bool_decide_eq_false_2 (false = true ∧ _)) by naive_solver.
    destruct (tc_Finite (r_Thinking (tsr_TargetRole request))); cbn [andb orb];
      repeat case_bool_decide; simpl; try done; naive_solver.
Qed.

(** ** Role planner *)

(** What the planner may answer for a request whose selector is on. *)
Definition override_outcome (roles : list TargetAgentRole) (submitted : string)
    (outcome : result SelectionError TargetAgentSelection) : Prop :=
  ((∀ ident role, ¬ callable_as roles ident role) ∧
     outcome = Err (TargetAgentSelectionError NoSelectableRoles "")) ∨
  (∃ ident role, callable_as roles ident role ∧
     (∀ ident' role', callable_as roles ident' role' → ident' = ident) ∧
     outcome = Ok {| as_Role := role; as_QuestionsRequired := true; as_SubmittedRoleIgnored := true |}) ∨
  ((∃ i1 i2 r1 r2, callable_as roles i1 r1 ∧ callable_as roles i2 r2 ∧ i1 ≠ i2) ∧
     ((∃ ident role, canonicalAgentRoleIdentity submitted = Some ident ∧ callable_as roles ident role ∧
         outcome = Ok {| as_Role := role; as_QuestionsRequired := true; as_SubmittedRoleIgnored := false |}) ∨
      ((∀ ident role, canonicalAgentRoleIdentity submitted = Some ident → ¬ callable_as roles ident role) ∧
         outcome = Err (TargetAgentSelectionError UnavailableRole (TrimSpace submitted))))).

Lemma plan_override `{RangeOrder} c request :
  asr_OverrideEnabled request = true →
  override_outcome (ExplicitCallableRoles c) (asr_SubmittedRole request)
    (PlanTargetAgentSelection (Some c) request).
Proof.
  intros Ho. unfold PlanTargetAgentSelection, override_outcome. rewrite Ho. cbn [negb].
  set (roles := ExplicitCallableRoles c).
  pose proof (canonicalExplicitCallableRoles_identities roles) as [Hnd _].
  assert (∀ r, r ∈ canonicalExplicitCallableRoles roles → callable_as roles (r_Identity r) r) as Hin
    by (intros; by apply canonicalExplicitCallableRoles_lookup).
  assert (∀ i r, callable_as roles i r → r ∈ canonicalExplicitCallableRoles roles ∧ r_Identity r = i) as Hout.
  { intros i r Hr. split; [apply elem_of_canonicalExplicitCallableRoles; eauto|]. by apply callable_as_identity in Hr as [? _]. }
  pose proof (find_callable roles) as Hfind.
  destruct (canonicalExplicitCallableRoles roles) as [|r1 [|r2 l]].
  - left. split; [|done]. intros i r [[]%elem_of_nil _]%Hout.
  - right; left. exists (r_Identity r1), r1. split_and!; [by apply Hin; left| |done].
    by intros i r [->%list_elem_of_singleton <-]%Hout.
  - right; right. split.
    { exists (r_Identity r1), (r_Identity r2), r1, r2. split_and!; [apply Hin; set_solver..|].
      rewrite !fmap_cons, !NoDup_cons in Hnd. set_solver. }
    rewrite canonicalAgentRoleIdentity_trim.
    destruct (canonicalAgentRoleIdentity (asr_SubmittedRole request)) as [i|]; [|right; naive_solver].
    specialize (Hfind i). destruct (List.find _ _) as [r|].
    + left. exists i, r. split_and!; [done| |done]. by apply Hfind.
    + right. split; [|done]. intros ? r [= <-] Hr. by apply Hfind in Hr.
Qed.

(** The role planner: without the selector it answers the configured
    fallback role, canonicalised, when the catalog resolves it and its
    questions are enabled; with the selector it refuses an empty catalog,
    answers a sole callable identity whatever was submitted, and among several
    answers exactly the role whose canonical identity is that of the submitted
    name; no answer depends on map iteration order. *)
Theorem PlanTargetAgentSelection_correct (o : RangeOrder) c request :
  (asr_OverrideEnabled request = true →
     override_outcome (ExplicitCallableRoles c) (asr_SubmittedRole request)
       (PlanTargetAgentSelection (Some c) request)) ∧
  (asr_OverrideEnabled request = false →
     PlanTargetAgentSelection (Some c) request =
       match ResolveConfiguredRole c (TrimSpace (asr_FallbackRole request)) with
       | None => Err (TargetAgentSelectionError UnavailableRole (TrimSpace (asr_FallbackRole request)))
       | Some role =>
         if r_QuestionsEnabled role
         then Ok {| as_Role := canonicalTargetAgentRole role; as_QuestionsRequired := false;
                    as_SubmittedRoleIgnored := false |}
         else Err (TargetAgentSelectionError QuestionsDisabled (r_Identity (canonicalTargetAgentRole role)))
       end) ∧
  ∀ (o' : RangeOrder), @PlanTargetAgentSelection o' (Some c) request =
                       @PlanTargetAgentSelection o (Some c) request.
Proof.
  split_and!.
  - apply plan_override.
  - intros Ho. unfold PlanTargetAgentSelection. rewrite Ho. cbn [negb].
    destruct (ResolveConfiguredRole c _) as [role|]; [|done]. cbn [canonicalTargetAgentRole with_identity
      r_QuestionsEnabled]. by destruct (r_QuestionsEnabled role).
  - intros o'. unfold PlanTargetAgentSelection. by rewrite (canonicalExplicitCallableRoles_order o' o).
Qed.

(** ** Applicability and consumption *)











(** ** Transition parameter contract *)

(** The consumption policy of one parameter. *)
Definition parameter_policy (c : ProtectedParameterConsumption) (p : EdgeParameter)
    : ProtectedParameterConsumptionPolicy :=
  let purpose := CanonicalParameterPurpose (p_Purpose p) in
  if purpose ==? ParameterPurposeTargetAssignee then pc_Assignee c
  else if purpose ==? ParameterPurposeTargetThinking then pc_Thinking c
  else RequiredValidate.

(** A thinking parameter that must be exposed but has nothing to say. *)
Definition undescribed (request : TransitionParameterContractRequest) (p : EdgeParameter) : Prop :=
  cr_RequireExecutionDescriptions request = true ∧
  CanonicalParameterPurpose (p_Purpose p) = ParameterPurposeTargetThinking ∧
  pc_Thinking (PlanTransitionProtectedParameterConsumption request) = RequiredValidate ∧
  tc_Finite (UnionTargetAgentThinkingCapabilities (transitionThinkingRoles request)) = false ∧
  blank (p_Description p) = true.

Definition acceptable (request : TransitionParameterContractRequest) (p : EdgeParameter) : Prop :=
  validParameterPurpose (CanonicalParameterPurpose (p_Purpose p)) = true ∧ ¬ undescribed request p.

#[export] Instance acceptable_dec request p : Decision (acceptable request p).
Proof. unfold acceptable, undescribed. apply _. Defined.

Lemma consumption_cases request :
  let c := PlanTransitionProtectedParameterConsumption request in
  pc_Assignee c ≠ ConsumptionUnset ∧ pc_Thinking c ≠ ConsumptionUnset ∧
  (pc_Thinking c = RequiredValidate →
     tc_Finite (UnionTargetAgentThinkingCapabilities (transitionThinkingRoles request)) = true →
     tc_Levels (UnionTargetAgentThinkingCapabilities (transitionThinkingRoles request)) ≠ []).
Proof.
  cbv zeta. unfold PlanTransitionProtectedParameterConsumption, ResolveProtectedParameterConsumption.
  cbn [pcr_Edge pcr_FanOut pcr_SourceKind pcr_TargetKind pcr_TargetSessionPolicy pcr_ExplicitCallableRoles
       pcr_Thinking pc_Assignee pc_Thinking].
  split_and!; [by repeat case_if_goal..|].
  repeat case_if_goal; try done. intros _ Hf Hl. rewrite Hf, Hl in *. done.
Qed.

Lemma described authored derived :
  blank derived = false → blank (transitionParameterDescription authored derived) = false.
Proof.
  unfold transitionParameterDescription. intros Hd.
  destruct (TrimSpace authored ==? "") eqn:E; cbn [negb]; rewrite blank_TrimSpace; [done|exact E].
Qed.
Lemma role_description_nonblank `{RangeOrder} roles : blank (DefaultTargetAgentRoleDescription roles) = false.
Proof. apply (blank_graphic "O"%char); [done|]. left. Qed.
Lemma thinking_description_nonblank c :
  tc_Finite c = true → canonicalThinkingLevels (tc_Levels c) ≠ [] →
  blank (DefaultTargetAgentThinkingDescription c) = false.
Proof.
  intros Hf Hl. unfold DefaultTargetAgentThinkingDescription, ThinkingCapability_Canonical.
  cbn [tc_Finite tc_Levels]. rewrite Hf. destruct (canonicalThinkingLevels _); [done|]. cbn [negb orb].
  rewrite bool_decide_eq_false_2 by done. apply (blank_graphic "O"%char); [done|]. left.
Qed.

(** An open catalog has no description of its own to offer. *)
Lemma open_description authored c :
  tc_Finite c = false →
  blank (transitionParameterDescription authored (DefaultTargetAgentThinkingDescription c)) = blank authored.
Proof.
  intros Hf. unfold DefaultTargetAgentThinkingDescription, ThinkingCapability_Canonical, transitionParameterDescription.
  cbn [tc_Finite]. rewrite Hf. cbn [negb orb].
  destruct (TrimSpace authored ==? "") eqn:E; cbn [negb]; rewrite blank_TrimSpace; [|done].
  unfold blank at 2. by rewrite E.
Qed.

Lemma plan_parameter_spec `{RangeOrder} request p :
  let cons := PlanTransitionProtectedParameterConsumption request in
  let thinking := UnionTargetAgentThinkingCapabilities (transitionThinkingRoles request) in
  (acceptable request p → ∃ d,
     plan_parameter request cons thinking p =
       Ok (if parameter_policy cons p ==? RequiredValidate then [with_description p d] else [],
           if parameter_policy cons p ==? RejectUnknown then [] else [p]) ∧
     (CanonicalParameterPurpose (p_Purpose p) = ParameterPurposeOrdinary → d = p_Description p) ∧
     (CanonicalParameterPurpose (p_Purpose p) ≠ ParameterPurposeOrdinary →
      parameter_policy cons p = RequiredValidate →
      cr_RequireExecutionDescriptions request = true → blank d = false)) ∧
  (¬ acceptable request p → ∃ e, plan_parameter request cons thinking p = Err e).
Proof.
  cbv zeta. destruct (consumption_cases request) as (Ha & Ht & Hlevels).
  unfold acceptable, undescribed, plan_parameter, parameter_policy, validParameterPurpose.
  set (cons := PlanTransitionProtectedParameterConsumption request) in *.
  set (thinking := UnionTargetAgentThinkingCapabilities (transitionThinkingRoles request)) in *.
  set (purpose := CanonicalParameterPurpose (p_Purpose p)).
  case_bool_decide as Hp; cbn [negb]; [|split; [by intros [? _]|by eauto]].
  rewrite !elem_of_cons, elem_of_nil in Hp. destruct Hp as [Hp|[Hp|[Hp|[]]]]; rewrite Hp.
  - split; [intros _|intros []; split; [done|naive_solver]].
    exists (p_Description p). decide_consts. cbn [negb]. by destruct p.
  - split; [intros _|intros []; split; [done|naive_solver]]. decide_consts.
    destruct (pc_Assignee cons) eqn:E; try done; eexists; (split; [reflexivity|]); split; try done.
    intros _ _ _. apply described, role_description_nonblank.
  - decide_consts.
    destruct (pc_Thinking cons) eqn:E; try done.
    + destruct (tc_Finite thinking) eqn:Hf.
      { rewrite andb_false_r. cbn [andb]. split; [intros _|intros []; split; [done|naive_solver]].
        eexists; split; [reflexivity|]. split; [done|]. intros _ _ _. apply described.
        apply thinking_description_nonblank; [done|]. unfold thinking in *.
        rewrite union_levels_fixed. auto. }
      cbn [negb]. rewrite andb_true_r.
      fold (blank (transitionParameterDescription (p_Description p) (DefaultTargetAgentThinkingDescription thinking))).
      rewrite open_description by done.
      destruct (cr_RequireExecutionDescriptions request) eqn:Hr, (blank (p_Description p)) eqn:Hb; cbn [andb].
      { split; [intros [_ []]; by split_and!|by eauto]. }
      all: split; [intros _|intros []; split; [done|intros (? & ? & ? & ? & ?); congruence]].
      all: eexists; split; [reflexivity|]; split; [done|]; try done.
      intros _ _ _. by rewrite open_description.
    + split; [intros _|intros []; split; [done|naive_solver]]. by eexists.
    + split; [intros _|intros []; split; [done|naive_solver]]. by eexists.
Qed.

Lemma plan_parameters_spec `{RangeOrder} request ps :
  let cons := PlanTransitionProtectedParameterConsumption request in
  let thinking := UnionTargetAgentThinkingCapabilities (transitionThinkingRoles request) in
  ((∃ r, plan_parameters request cons thinking ps = Ok r) ↔ ∀ p, p ∈ ps → acceptable request p) ∧
  ∀ exposed known, plan_parameters request cons thinking ps = Ok (exposed, known) →
    known = filter (λ p, parameter_policy cons p ≠ RejectUnknown) ps ∧
    Forall2 (λ p q, p_Key q = p_Key p ∧ p_Purpose q = p_Purpose p ∧
        (CanonicalParameterPurpose (p_Purpose p) = ParameterPurposeOrdinary → q = p) ∧
        (CanonicalParameterPurpose (p_Purpose p) ≠ ParameterPurposeOrdinary →
         cr_RequireExecutionDescriptions request = true → blank (p_Description q) = false))
      (filter (λ p, parameter_policy cons p = RequiredValidate) ps) exposed.
Proof.
  cbv zeta. set (cons := PlanTransitionProtectedParameterConsumption request).
  set (thinking := UnionTargetAgentThinkingCapabilities (transitionThinkingRoles request)).
  induction ps as [|p ps [IHok IH]]; cbn [plan_parameters].
  { split; [split; [set_solver|by eauto]|]. by intros ?? [= <- <-]. }
  destruct (plan_parameter_spec request p) as [Hacc Hrej]. fold cons thinking in Hacc, Hrej.
  destruct (decide (acceptable request p)) as [Ha|Ha].
  - destruct (Hacc Ha) as (d & -> & Hord & Hdesc). simpl.
    destruct (plan_parameters request cons thinking ps) as [[es ks]|e] eqn:E; simpl.
    + split.
      { split; [|by eauto]. intros _ q [->|Hq]%elem_of_cons; [done|]. apply IHok; eauto. }
      intros ?? [= <- <-]. destruct (IH _ _ eq_refl) as [-> IH2]. rewrite !filter_cons. split.
      * by repeat case_decide; case_bool_decide.
      * case_bool_decide; [rewrite decide_True by done|by rewrite decide_False by done].
        constructor; [|done]. simpl. split_and!; try done; [|by auto]. intros Hp. rewrite Hord by done. by destruct p.
    + split; [|done]. split; [by intros [? ?]|]. intros Hall.
      destruct IHok as [_ [r ?]]; [|done]. intros q Hq. apply Hall. by right.
  - destruct (Hrej Ha) as [e ->]. simpl. split; [|done]. split; [by intros [? ?]|].
    intros Hall. exfalso. apply Ha, Hall. by left.
Qed.

(** C40. The parameter contract of a transition: planning succeeds exactly when
    every parameter has a valid purpose and no exposed thinking parameter of
    an open catalog lacks a required description; the known parameters are
    the edge's parameters that are not rejected, the exposed ones are those
    that are required, in the edge's order and with unchanged keys and
    purposes; and when descriptions are required every exposed protected
    parameter has one. *)
Theorem planTransitionParameterContract_correct (o : RangeOrder) request :
  let cons := PlanTransitionProtectedParameterConsumption request in
  let ps := e_Parameters (cr_Edge request) in
  ((∃ c, planTransitionParameterContract request = Ok c) ↔ ∀ p, p ∈ ps → acceptable request p) ∧
  ∀ c, planTransitionParameterContract request = Ok c →
    tpc_Consumption c = cons ∧
    tpc_KnownParameters c = filter (λ p, parameter_policy cons p ≠ RejectUnknown) ps ∧
    Forall2 (λ p q, p_Key q = p_Key p ∧ p_Purpose q = p_Purpose p ∧
        (CanonicalParameterPurpose (p_Purpose p) = ParameterPurposeOrdinary → q = p) ∧
        (CanonicalParameterPurpose (p_Purpose p) ≠ ParameterPurposeOrdinary →
         cr_RequireExecutionDescriptions request = true → blank (p_Description q) = false))
      (filter (λ p, parameter_policy cons p = RequiredValidate) ps) (tpc_Parameters c).
Proof.
  cbv zeta. unfold planTransitionParameterContract.
  set (cons := PlanTransitionProtectedParameterConsumption request).
  set (thinking := UnionTargetAgentThinkingCapabilities (transitionThinkingRoles request)).
  destruct (plan_parameters_spec request (e_Parameters (cr_Edge request))) as [Hok Hcontract].
  fold cons thinking in Hok, Hcontract.
  destruct (plan_parameters request cons thinking _) as [[exposed known]|e] eqn:E; simpl.
  - split; [naive_solver|]. intros c [= <-]. simpl. split; [done|]. by apply Hcontract.
  - split; [|done]. rewrite <- Hok. split; intros [? ?]; done.
Qed.

(** ** Execution selection *)

Lemma NewAgentExecutionSelection_Ok assignee thinking origin sel :
  NewAgentExecutionSelection assignee thinking origin = Ok sel →
  aes_Assignee sel = TrimSpace assignee ∧ aes_Origin sel = TrimSpace origin ∧
  aes_Thinking sel = TrimSpace <$> thinking ∧ AgentExecutionSelection_Validate sel = None.
Proof.
  unfold AgentExecutionSelection_Validate, NewAgentExecutionSelection. intros H.
  destruct (TrimSpace assignee ==? "") eqn:Ha; [done|].
  destruct (bool_decide (TrimSpace origin ∈ _)) eqn:Ho; [|done]. cbn [negb] in H.
  destruct thinking as [raw|]; unfold NewThinkingValue in *.
  - destruct (TrimSpace raw ==? "") eqn:Ht; [done|]. simpl in H. injection H as <-.
    cbn [aes_Assignee aes_Thinking aes_Origin]. by rewrite !TrimSpace_idemp, Ha, Ho, Ht.
  - injection H as <-. cbn [aes_Assignee aes_Thinking aes_Origin]. by rewrite !TrimSpace_idemp, Ha, Ho.
Qed.

Lemma identity_trimmed ident : canonicalAgentRoleIdentity ident = Some ident → TrimSpace ident = ident.
Proof.
  unfold canonicalAgentRoleIdentity. rewrite NormalizeSubagentSelector_role.
  destruct (EqualFold _ _); [by intros [= <-]|]. case_bool_decide as Hne; [done|]. intros [= Hn].
  destruct (NormalizeSubagentRole_name _ Hne) as [(_ & _ & Hc) _]. rewrite Hn in Hc.
  by apply role_chars_trim.
Qed.

(** Whom an execution selection without a retained session assigns. *)
Definition assigned (request : TargetAgentExecutionSelectionRequest) (sel : AgentExecutionSelection) : Prop :=
  ∃ c, xr_Catalog request = Some c ∧
    if selects_assignee (xr_Edge request) then
      aes_Origin sel = AssigneeOriginTransitionSelected ∧
      ∃ role, callable_as (ExplicitCallableRoles c) (aes_Assignee sel) role
    else
      aes_Origin sel = AssigneeOriginConfiguredFallback ∧
      ∃ role, ResolveConfiguredRole c (TrimSpace (xr_FallbackRole request)) = Some role ∧
        r_QuestionsEnabled role = true ∧ canonicalAgentRoleIdentity (r_Identity role) = Some (aes_Assignee sel).

Lemma planned_role `{RangeOrder} c request sel :
  PlanTargetAgentSelection (Some c) request = Ok sel →
  if asr_OverrideEnabled request
  then callable_as (ExplicitCallableRoles c) (r_Identity (as_Role sel)) (as_Role sel)
  else ∃ role, ResolveConfiguredRole c (TrimSpace (asr_FallbackRole request)) = Some role ∧
         r_QuestionsEnabled role = true ∧ as_Role sel = canonicalTargetAgentRole role.
Proof.
  destruct (asr_OverrideEnabled request) eqn:Ho; intros Hplan.
  - pose proof (plan_override c request Ho) as Hout. rewrite Hplan in Hout.
    destruct Hout as [[_ ?]|[(i & r & Hr & _ & [= ->])|[_ [(i & r & _ & Hr & [= ->])|[_ ?]]]]]; try done;
      simpl; by destruct (callable_as_identity _ _ _ Hr) as [-> _].
  - unfold PlanTargetAgentSelection in Hplan. rewrite Ho in Hplan. cbn [negb] in Hplan.
    destruct (ResolveConfiguredRole c _) as [role|]; [|done]. exists role. split; [done|].
    change (r_QuestionsEnabled (canonicalTargetAgentRole role)) with (r_QuestionsEnabled role) in Hplan.
    destruct (r_QuestionsEnabled role); [|done]. by injection Hplan as <-.
Qed.

(** A planned execution selection is valid (non-blank assignee, known
    origin, no blank thinking value); a retained session keeps its assignee
    and is marked as retained; otherwise the assignee is the canonical
    identity of a callable role of the catalog when the transition selects
    it, and of the resolved, questions-enabled fallback role when not. *)
Theorem PlanTargetAgentExecutionSelection_sound (o : RangeOrder) request sel
    (Hplan : PlanTargetAgentExecutionSelection request = Ok sel) :
  AgentExecutionSelection_Validate sel = None ∧
  match xr_RetainedSession request with
  | Some retained => aes_Assignee sel = aes_Assignee retained ∧ aes_Origin sel = AssigneeOriginRetainedSession
  | None => assigned request sel
  end.
Proof.
  unfold PlanTargetAgentExecutionSelection in Hplan.
  destruct (xr_RetainedSession request) as [retained|].
  - unfold plan_retained_selection in Hplan. apply bind_Ok in Hplan as (t & _ & Hsel).
    destruct (AgentExecutionSelection_Validate _) eqn:Hv; [done|]. injection Hsel as <-. done.
  - apply bind_Ok in Hplan as (rs & Hrole & Hplan). apply bind_Ok in Hplan as (ts & _ & Hplan).
    apply bind_Ok in Hplan as (t & _ & Hnew). apply NewAgentExecutionSelection_Ok in Hnew as (Ha & Ho & _ & Hv).
    split; [done|]. unfold assigned. destruct (xr_Catalog request) as [c|]; [|done].
    exists c. split; [done|]. apply planned_role in Hrole. cbn [asr_OverrideEnabled asr_FallbackRole] in Hrole.
    destruct (selects_assignee (xr_Edge request)).
    + destruct (callable_as_identity _ _ _ Hrole) as (_ & Hi & _). rewrite Ha, identity_trimmed by done.
      split; [by rewrite Ho|eauto].
    + destruct Hrole as (role & Hr & Hq & Has). split; [by rewrite Ho|]. exists role. split_and!; [done..|].
      rewrite Has in Ha. unfold canonicalTargetAgentRole, with_identity in Ha. cbn [r_Identity] in Ha.
      destruct (canonicalAgentRoleIdentity (r_Identity role)) as [i|] eqn:Hi; cbn [default from_option id] in Ha.
      * rewrite Ha, identity_trimmed; [done|]. by eapply canonicalAgentRoleIdentity_idemp.
      * unfold AgentExecutionSelection_Validate, NewAgentExecutionSelection in Hv. by rewrite Ha in Hv.
Qed.

Definition sample_execution_request : TargetAgentExecutionSelectionRequest := {|
  xr_Edge := sample_selecting_edge; xr_FallbackRole := "tester"; xr_Catalog := Some sample_catalog;
  xr_SubmittedRole := " CODER "; xr_SubmittedThinking := "high"; xr_ThinkingDescription := "";
  xr_RetainedSession := None |}.

Lemma PlanTargetAgentExecutionSelection_sound_witness :
  let sel := {| aes_Assignee := "coder"; aes_Thinking := Some "high";
                aes_Origin := AssigneeOriginTransitionSelected |} in
  @PlanTargetAgentExecutionSelection default_order sample_execution_request = Ok sel ∧
  assigned sample_execution_request sel.
Proof.
  split; [vm_compute; reflexivity|].
  refine (proj2 (PlanTargetAgentExecutionSelection_sound default_order sample_execution_request _ _)).
  vm_compute. reflexivity.
Defined.

(** ** Session policy *)

(** The session policy: it fails exactly on an unknown context source or
    mode; it preserves the target session exactly for a continued session
    that is neither copied into a fan-out branch nor a fresh
    previous-target-or-new one; and a transition planned under a preserving
    policy never demands the assignee parameter. *)
Theorem ResolveAssigneeSessionPolicy_correct policy_request contract_request :
  let kind := context_kind (spr_ContextSource policy_request) in
  let mode := spr_ContextMode policy_request in
  let known := kind ∈ [ContextSourceImmediateSource; ContextSourceSelectedNode;
                       ContextSourcePreviousTarget; ContextSourcePreviousTargetOrNew] in
  ((∃ e, ResolveAssigneeSessionPolicy policy_request = Err e) ↔
     ¬ known ∨ mode ∉ [ContextModeNewSession; ContextModeContinueSession; ContextModeCompactAndContinueSession]) ∧
  (ResolveAssigneeSessionPolicy policy_request = Ok AssigneeSessionPolicyPreserve ↔
     known ∧ mode = ContextModeContinueSession ∧ CopiesSourceSession policy_request = false ∧
     (kind = ContextSourcePreviousTargetOrNew → spr_TargetSessionResolved policy_request = true)) ∧
  (ResolveAssigneeSessionPolicy policy_request = Ok (cr_TargetSessionPolicy contract_request) →
   known → mode = ContextModeContinueSession → CopiesSourceSession policy_request = false →
   spr_TargetSessionResolved policy_request = true →
   pc_Assignee (PlanTransitionProtectedParameterConsumption contract_request) ≠ RequiredValidate).
Proof.
  cbv zeta. set (kind := context_kind (spr_ContextSource policy_request)).
  set (mode := spr_ContextMode policy_request).
  unfold ResolveAssigneeSessionPolicy. fold kind mode.
  case_bool_decide as Hk; cbn [negb]; [|split_and!; naive_solver].
  rewrite !(not_elem_of_cons _ mode). split_and!.
  - split.
    + intros [e He]. right. split_and!; [intros Hm..|apply not_elem_of_nil]; rewrite Hm in He; decide_consts_in He; cases_in He; done.
    + intros [?|(? & ? & ? & _)]; [done|]. rewrite !bool_decide_eq_false_2 by done. by eexists.
  - destruct (decide (mode = ContextModeContinueSession)) as [->|Hm].
    + decide_consts. cbn [orb]. destruct (CopiesSourceSession policy_request); [naive_solver|].
      case_bool_decide; [|naive_solver]. destruct (spr_TargetSessionResolved policy_request); naive_solver.
    + rewrite (bool_decide_eq_false_2 (mode = ContextModeContinueSession)) by done.
      destruct (_ || _); naive_solver.
  - intros Hpol _ -> Hc Hr.
    assert (cr_TargetSessionPolicy contract_request = AssigneeSessionPolicyPreserve) as Hp.
    { revert Hpol. decide_consts. cbn [orb]. rewrite Hc, Hr. case_bool_decide; by intros [= <-]. }
    unfold PlanTransitionProtectedParameterConsumption, ResolveProtectedParameterConsumption.
    cbn [pc_Assignee pcr_TargetSessionPolicy]. rewrite Hp. decide_consts. by case_if_goal.
Qed.
