(* ===== verification/Reach.v ===== *)
(** * Graph search and dominance

    The worklist searches of src/server/workflow/derived_wiring.go
    ([reachableNodeIDs], [transitionGroupDominates], [nodeDominatesFromStart])
    and validation.go ([reachableFrom], [canReachTerminal]). Each is one
    instance of the stack loop [dfs]; its correctness and termination are
    proved once, and give the path semantics of the five functions. *)
From Stdlib Require Import NArith String.
From stdpp Require Import gmap strings list relations.
From S2P Require Import Prelude GoStrings Types.

(** ** The search loop

    State: the visited set and the stack, whose head is the top. A popped
    node that is already visited is dropped; a node on which [hit] holds ends
    the search with [None]; otherwise it is marked and those of its
    successors that are not yet visited are pushed in order. *)
Section dfs.
Context {A : Type} `{Countable A}.
Context (hit : A → bool) (succ : A → list A).

Definition push_unvisited (visited : gset A) (stack : list A) (ns : list A) : list A :=
  foldl (λ st n, if n ∈? visited then st else n :: st) stack ns.

Definition dfs_step (s : gset A * list A) : (gset A * list A) + option (gset A) :=
  let '(visited, stack) := s in
  match stack with
  | [] => inr (Some visited)
  | n :: rest =>
    if n ∈? visited then inl (visited, rest)
    else if hit n then inr None
    else let visited' := {[n]} ∪ visited in inl (visited', push_unvisited visited' rest (succ n))
  end.

Definition edge_rel (a b : A) : Prop := b ∈ succ a.
Definition reach : relation A := rtc edge_rel.

Lemma elem_of_push visited stack ns m :
  m ∈ push_unvisited visited stack ns ↔ m ∈ stack ∨ (m ∈ ns ∧ m ∉ visited).
Proof.
  unfold push_unvisited. revert stack.
  induction ns as [|n ns IH]; intros stack; simpl; [set_solver|].
  rewrite IH. case_bool_decide; set_solver.
Qed.
Lemma length_push visited stack ns :
  length (push_unvisited visited stack ns) ≤ length stack + length ns.
Proof.
  unfold push_unvisited. revert stack.
  induction ns as [|n ns IH]; intros stack; simpl; [lia|].
  etrans; [apply IH|]. case_bool_decide; simpl; lia.
Qed.

Record dfs_inv (start : A) (s : gset A * list A) : Prop := {
  inv_start : start ∈ s.1 ∨ start ∈ s.2;
  inv_visited : ∀ n, n ∈ s.1 → reach start n ∧ hit n = false;
  inv_stack : ∀ n, n ∈ s.2 → reach start n;
  inv_closed : ∀ n m, n ∈ s.1 → m ∈ succ n → m ∈ s.1 ∨ m ∈ s.2;
  }.

Lemma dfs_inv_init start : dfs_inv start (∅, [start]).
Proof.
  split; simpl; [set_solver..| |set_solver].
  intros n ->%list_elem_of_singleton. constructor.
Qed.

Lemma dfs_inv_step start s s' : dfs_inv start s → dfs_step s = inl s' → dfs_inv start s'.
Proof.
  destruct s as [visited [|n rest]]; simpl; [done|]. intros [H1 H2 H3 H4] Hs; simpl in *.
  case_bool_decide as Hv; [|destruct (hit n) eqn:Hhit]; simplify_eq/=.
  - split; simpl; [set_solver..|]. intros a m Ha Hm.
    destruct (H4 a m Ha Hm) as [|[->|]%elem_of_cons]; auto.
  - assert (reach start n) as Hn by set_solver.
    split; simpl.
    + rewrite elem_of_push. set_solver.
    + intros a [->%elem_of_singleton|Ha]%elem_of_union; auto.
    + intros a. rewrite elem_of_push. intros [Ha|[Ha _]]; [set_solver|].
      eapply rtc_r; [exact Hn|done].
    + intros a m Ha Hm. rewrite elem_of_push.
      destruct (decide (m ∈ {[n]} ∪ visited)) as [|Hnm]; [by left|]. right.
      apply elem_of_union in Ha as [->%elem_of_singleton|Ha]; [by right|].
      destruct (H4 a m Ha Hm) as [|[->|]%elem_of_cons]; set_solver.
Qed.

Lemma closed_reach (X : gset A) start n :
  (∀ a b, a ∈ X → b ∈ succ a → b ∈ X) → start ∈ X → reach start n → n ∈ X.
Proof. intros Hc Hs Hr. revert Hs. induction Hr; eauto. Qed.

(** Fuel: one pop for the start, one per successor list entry, and one for
  the final empty stack. [bound] is any map of the successor lists. *)
Context {V : Type} (bound : gmap A (list V)).
Hypothesis succ_bound : ∀ n, length (succ n) ≤ length (getl bound n).

Definition dfs_measure (s : gset A * list A) : N := (N.of_nat (length s.2) + weight bound s.1)%N.
Definition dfs_fuel : N := (2 + total bound)%N.
Definition dfs (start : A) : option (gset A) := default None (loop dfs_step dfs_fuel (∅, [start])).

Lemma dfs_measure_step s s' : dfs_step s = inl s' → (dfs_measure s' < dfs_measure s)%N.
Proof.
destruct s as [visited [|n rest]]; simpl; [done|]. intros Hs.
unfold dfs_measure. simpl.
case_bool_decide as Hv; [|destruct (hit n)]; simplify_eq/=; [lia|].
rewrite (weight_visit bound visited n) by done.
pose proof (length_push ({[n]} ∪ visited) rest (succ n)). specialize (succ_bound n). lia.
Qed.

(** The search returns, and returns the reachable set unless a reachable
  node is hit. *)
Theorem dfs_correct start :
  ∃ r, loop dfs_step dfs_fuel (∅, [start]) = Some r ∧
    match r with
    | Some visited => (∀ n, n ∈ visited ↔ reach start n) ∧ (∀ n, reach start n → hit n = false)
    | None => ∃ n, reach start n ∧ hit n = true
    end.
Proof.
  destruct (loop_total dfs_step (dfs_inv start) dfs_measure dfs_fuel (∅, [start]))
    as (r & [visited stack] & Hr & Hinv & Hstep).
  - intros s s' Hinv Hs. split; [by eapply dfs_inv_step|by apply dfs_measure_step].
  - apply dfs_inv_init.
  - unfold dfs_measure, dfs_fuel, total. simpl. lia.
  - exists r. split; [done|]. simpl in Hstep. destruct stack as [|n rest]; simplify_eq/=.
    + destruct Hinv as [H1 H2 H3 H4]; simpl in *.
      assert (∀ n, n ∈ visited ↔ reach start n) as Hiff.
      { intros n. split; [intros Hn; by apply H2|]. apply closed_reach; [set_solver|].
        by destruct H1 as [|?%elem_of_nil]. }
      split; [done|]. intros n Hn. by apply H2, Hiff.
    + case_bool_decide; [done|]. destruct (hit n) eqn:Hhit; simplify_eq.
      exists n. split; [|done]. apply (inv_stack _ _ Hinv). simpl. set_solver.
Qed.

Lemma dfs_Some start visited :
  dfs start = Some visited → (∀ n, n ∈ visited ↔ reach start n) ∧ (∀ n, reach start n → hit n = false).
Proof. unfold dfs. destruct (dfs_correct start) as (r & -> & Hr). simpl. by intros ->. Qed.
Lemma dfs_None start : dfs start = None ↔ ∃ n, reach start n ∧ hit n = true.
Proof.
unfold dfs. destruct (dfs_correct start) as (r & -> & Hr). simpl.
destruct r as [visited|]; [|naive_solver]. split; [done|].
destruct Hr as [_ Hr]. intros (n & Hn & Hhit). by rewrite Hr in Hhit.
Qed.
End dfs.

(** ** The source's searches *)

Definition targets (outgoing : gmap NodeID (list Edge)) (n : NodeID) : list NodeID :=
  e_TargetNodeID <$> getl outgoing n.

(** [reachableNodeIDs]; [validationState.reachableFrom] is the same loop over
    a [map[NodeID]bool]. *)
Definition reachableNodeIDs (start : NodeID) (outgoingByNode : gmap NodeID (list Edge)) : gset NodeID :=
  default ∅ (dfs (λ _, false) (targets outgoingByNode) outgoingByNode start).

(** [validationState.canReachTerminal]. *)
Definition canReachTerminal (nodesByID : gmap NodeID Node) (outgoingByNode : gmap NodeID (list Edge))
    (start : NodeID) : bool :=
  match dfs
    (λ n, match nodesByID !! n with Some node => Kind node ==? NodeKindTerminal | None => false end)
    (λ n, match nodesByID !! n with Some _ => targets outgoingByNode n | None => [] end)
    outgoingByNode start
  with None => true | Some _ => false end.

Definition targets_avoiding_group (outgoing : gmap NodeID (list Edge)) (g : TransitionGroupID)
    (n : NodeID) : list NodeID :=
  e_TargetNodeID <$> filter (λ e, e_TransitionGroupID e ≠ g) (getl outgoing n).

Definition transitionGroupDominates (startNodeID : NodeID) (groupID : TransitionGroupID)
    (targetNodeID : NodeID) (outgoingByNode : gmap NodeID (list Edge)) : bool :=
  if startNodeID ==? "" then false
  else if negb (targetNodeID ∈? reachableNodeIDs startNodeID outgoingByNode) then false
  else match dfs (λ n, n ==? targetNodeID) (targets_avoiding_group outgoingByNode groupID)
               outgoingByNode startNodeID
       with None => false | Some _ => true end.

Definition targets_avoiding_node (outgoing : gmap NodeID (list Edge)) (c : NodeID)
    (n : NodeID) : list NodeID :=
  filter (λ m, m ≠ c) (targets outgoing n).

(** The popped node is never the candidate: it is not pushed, and the start
    is compared before the loop. *)
Definition nodeDominatesFromStart (startNodeID candidateNodeID targetNodeID : NodeID)
    (outgoingByNode : gmap NodeID (list Edge)) : bool :=
  if candidateNodeID ==? targetNodeID then true
  else if startNodeID ==? "" then false
  else if negb (targetNodeID ∈? reachableNodeIDs startNodeID outgoingByNode) then false
  else if startNodeID ==? candidateNodeID then true
  else negb (targetNodeID ∈?
    default ∅ (dfs (λ _, false) (targets_avoiding_node outgoingByNode candidateNodeID)
                 outgoingByNode startNodeID)).

(** ** Path semantics *)

(** A path is the list of edges it takes. *)
Inductive path (outgoing : gmap NodeID (list Edge)) : NodeID → list Edge → NodeID → Prop :=
  | path_nil n : path outgoing n [] n
  | path_cons n e es m :
      e ∈ getl outgoing n → path outgoing (e_TargetNodeID e) es m → path outgoing n (e :: es) m.
#[export] Hint Constructors path : kent.

(** The nodes a path visits, its start included. *)
Definition path_nodes (start : NodeID) (es : list Edge) : list NodeID := start :: (e_TargetNodeID <$> es).

Section paths.
Context (outgoing : gmap NodeID (list Edge)).

(** Steps restricted to a set of edges are paths over those edges. *)
Lemma reach_path (P : Edge → Prop) (succ : NodeID → list NodeID) a b :
  (∀ n m, m ∈ succ n ↔ ∃ e, e ∈ getl outgoing n ∧ P e ∧ e_TargetNodeID e = m) →
  reach succ a b ↔ ∃ es, path outgoing a es b ∧ Forall P es.
Proof.
  intros Hsucc. split.
  - induction 1 as [n|n m b Hnm Hr (es & Hp & HP)]; [by eauto with kent|].
    apply Hsucc in Hnm as (e & He & HPe & <-). exists (e :: es).
    split; [eauto with kent|by constructor].
  - intros (es & Hp & HP). induction Hp as [n|n e es m He Hp IH]; [constructor|].
    inversion HP; subst. apply rtc_l with (e_TargetNodeID e); [|by apply IH].
    apply Hsucc. by exists e.
Qed.

Lemma reach_targets a b : reach (targets outgoing) a b ↔ ∃ es, path outgoing a es b.
Proof.
  rewrite (reach_path (λ _, True)).
  - split; intros [es Hes]; exists es; [by destruct Hes|].
    split; [done|]. by apply Forall_true.
  - intros n m. unfold targets. rewrite list_elem_of_fmap. naive_solver.
Qed.

Lemma length_targets n : length (targets outgoing n) ≤ length (getl outgoing n).
Proof. unfold targets. by rewrite length_fmap. Qed.

(** The reachable set is exactly the set of ends of paths. *)
Lemma reachableNodeIDs_path start n :
n ∈ reachableNodeIDs start outgoing ↔ ∃ es, path outgoing start es n.
Proof.
unfold reachableNodeIDs.
destruct (dfs _ _ _ start) as [visited|] eqn:E; simpl.
- apply dfs_Some in E as [-> _]; [apply reach_targets|apply length_targets].
- apply dfs_None in E as (m & _ & [=]). apply length_targets.
Qed.

Lemma targets_avoiding_group_bound g n :
  length (targets_avoiding_group outgoing g n) ≤ length (getl outgoing n).
Proof. unfold targets_avoiding_group. rewrite length_fmap. apply length_filter_le. Qed.
Lemma targets_avoiding_node_bound c n :
length (targets_avoiding_node outgoing c n) ≤ length (getl outgoing n).
Proof. unfold targets_avoiding_node. etrans; [apply length_filter_le|apply length_targets]. Qed.

Lemma reach_avoiding_group g a b :
reach (targets_avoiding_group outgoing g) a b ↔
  ∃ es, path outgoing a es b ∧ Forall (λ e, e_TransitionGroupID e ≠ g) es.
Proof.
apply reach_path. intros n m. unfold targets_avoiding_group.
rewrite list_elem_of_fmap. setoid_rewrite list_elem_of_filter. naive_solver.
Qed.
Lemma reach_avoiding_node c a b :
  reach (targets_avoiding_node outgoing c) a b ↔
    ∃ es, path outgoing a es b ∧ Forall (λ e, e_TargetNodeID e ≠ c) es.
Proof.
  apply reach_path. intros n m. unfold targets_avoiding_node, targets.
  rewrite list_elem_of_filter, list_elem_of_fmap. naive_solver.
Qed.
End paths.

(** ** What the searches decide *)

Lemma transitionGroupDominates_true start g target outgoing :
  transitionGroupDominates start g target outgoing = true ↔
    start ≠ "" ∧ (∃ es, path outgoing start es target) ∧
    ∀ es, path outgoing start es target → ∃ e, e ∈ es ∧ e_TransitionGroupID e = g.
Proof.
  unfold transitionGroupDominates. case_bool_decide as Hs; [naive_solver|].
  rewrite <- reachableNodeIDs_path. case_bool_decide as Hr; simpl; [|naive_solver].
  destruct (dfs _ _ _ start) as [visited|] eqn:E.
  - apply dfs_Some in E as [_ Hno]; [|apply targets_avoiding_group_bound].
    split; [intros _|done]. split; [done|]. split; [done|]. intros es Hp.
    destruct (decide (Exists (λ e, e_TransitionGroupID e = g) es)) as [Hex|Hnex].
    { by apply Exists_exists in Hex. }
    exfalso. cut (reach (targets_avoiding_group outgoing g) start target).
    { intros ?%Hno. by case_bool_decide. }
    apply reach_avoiding_group. exists es. split; [done|].
    by apply Forall_Exists_neg in Hnex.
  - apply dfs_None in E as (n & Hn & Hhit); [|apply targets_avoiding_group_bound]. bool_simp. subst.
    split; [done|]. intros (_ & _ & Hall). exfalso.
    apply reach_avoiding_group in Hn as (es & Hp & Hf). destruct (Hall es Hp) as (e & He & Hg).
    rewrite Forall_forall in Hf. by apply (Hf e).
Qed.

Lemma path_avoiding_node outgoing c start target es :
  start ≠ c → path outgoing start es target →
  Forall (λ e, e_TargetNodeID e ≠ c) es ↔ c ∉ path_nodes start es.
Proof.
  intros Hs _. unfold path_nodes. rewrite not_elem_of_cons, Forall_forall, list_elem_of_fmap.
  naive_solver.
Qed.

Lemma nodeDominatesFromStart_true start candidate target outgoing :
  nodeDominatesFromStart start candidate target outgoing = true ↔
    candidate = target ∨
    start ≠ "" ∧ (∃ es, path outgoing start es target) ∧
    ∀ es, path outgoing start es target → candidate ∈ path_nodes start es.
Proof.
  unfold nodeDominatesFromStart. case_bool_decide as Hc; [naive_solver|].
  case_bool_decide as Hs; [naive_solver|].
  rewrite <- reachableNodeIDs_path. case_bool_decide as Hr; simpl; [|naive_solver].
  case_bool_decide as Hsc.
  { split; [|done]. intros _. right. subst. split; [done|]. split; [done|].
    intros. unfold path_nodes. set_solver. }
  destruct (dfs _ _ _ start) as [visited|] eqn:E; simpl; last first.
  { apply dfs_None in E as (? & _ & [=]). apply targets_avoiding_node_bound. }
  apply dfs_Some in E as [Hv _]; [|apply targets_avoiding_node_bound].
  case_bool_decide as Ht; simpl.
  - split; [done|]. intros [?|(_ & _ & Hall)]; [done|]. exfalso.
    apply Hv, reach_avoiding_node in Ht as (es & Hp & Hf).
    rewrite path_avoiding_node in Hf by done. naive_solver.
  - split; [|done]. intros _. right. split; [done|]. split; [done|]. intros es Hp.
    destruct (decide (candidate ∈ path_nodes start es)) as [|Hn]; [done|]. exfalso.
    apply Ht, Hv, reach_avoiding_node. exists es. split; [done|].
    by eapply path_avoiding_node.
Qed.

(** Steps through nodes that exist. *)
Definition node_step (nodesByID : gmap NodeID Node) (outgoing : gmap NodeID (list Edge)) (a b : NodeID) : Prop :=
  is_Some (nodesByID !! a) ∧ b ∈ targets outgoing a.

Lemma canReachTerminal_true nodesByID outgoing start :
  canReachTerminal nodesByID outgoing start = true ↔
    ∃ n node, rtc (node_step nodesByID outgoing) start n ∧
      nodesByID !! n = Some node ∧ Kind node = NodeKindTerminal.
Proof.
  unfold canReachTerminal.
  set (succ := λ n, match nodesByID !! n with Some _ => targets outgoing n | None => [] end).
  assert (∀ a b, reach succ a b ↔ rtc (node_step nodesByID outgoing) a b) as Hsucc.
  { intros a b. split; apply rtc_subrel; intros x y; unfold edge_rel, succ, node_step.
    - destruct (nodesByID !! x); [by eauto|]. by intros ?%elem_of_nil.
    - by intros [[? ->] ?]. }
  assert (∀ n, length (succ n) ≤ length (getl outgoing n)) as Hb.
  { intros n. unfold succ. destruct (nodesByID !! n); [apply length_targets|simpl; lia]. }
  destruct (dfs _ _ _ start) as [visited|] eqn:E.
  - apply dfs_Some in E as [_ Hno]; [|done]. split; [done|].
    intros (n & node & Hr & Hn & Hk). apply Hsucc, Hno in Hr. rewrite Hn in Hr. by case_bool_decide.
  - apply dfs_None in E as (n & Hr & Hhit); [|done]. split; [|done]. intros _.
    destruct (nodesByID !! n) as [node|] eqn:Hn; [|done]. bool_simp.
    exists n, node. by rewrite <- Hsucc.
Qed.
