(* ===== verification/Fanout.v ===== *)
(** * Fan-out branches and joins

    src/server/workflow/fanout_join.go: the topology index of a definition,
    the exhaustive walk of a fan-out branch up to its joins, the nearest
    common join of several branches, and the two queries built on them,
    [SerialTransitionRequiresFanoutSiblings] and [ResolveFanoutJoin]. *)
From Stdlib Require Import NArith String.
From stdpp Require Import gmap strings list relations.
From S2P Require Import Prelude GoStrings Types Reach.

Abbreviation TransitionBranchKey := string (only parsing).

Record fanoutTopology := {
  ft_nodesByID : gmap NodeID Node;
  ft_groupsBySource : gmap NodeID (list TransitionGroup);
  ft_edgesByGroup : gmap TransitionGroupID (list Edge);
  ft_outgoingByNode : gmap NodeID (list Edge) }.

(** Index builders: later entries of a list win, as map assignment does. *)
Definition index_nodes (nodes : list Node) : gmap NodeID Node :=
  foldl (λ m n, <[NodeIDOf n := n]> m) ∅ nodes.
Definition index_groups (groups : list TransitionGroup) : gmap TransitionGroupID TransitionGroup :=
  foldl (λ m g, <[tg_ID g := g]> m) ∅ groups.
Definition index_groups_by_source (groups : list TransitionGroup) : gmap NodeID (list TransitionGroup) :=
  foldl (λ m g, match Some (tg_SourceNodeID g) with Some k => appendl k g m | None => m end) ∅ groups.
Definition index_edges_by_group (edges : list Edge) : gmap TransitionGroupID (list Edge) :=
  foldl (λ m e, match Some (e_TransitionGroupID e) with Some k => appendl k e m | None => m end) ∅ edges.
Definition index_outgoing (groupsByID : gmap TransitionGroupID TransitionGroup) (edges : list Edge)
    : gmap NodeID (list Edge) :=
  foldl (λ m e, match tg_SourceNodeID <$> groupsByID !! e_TransitionGroupID e with
                | Some k => appendl k e m | None => m end) ∅ edges.

Definition newFanoutTopology (def : WorkflowDefinition) : fanoutTopology := {|
  ft_nodesByID := index_nodes (d_Nodes def);
  ft_groupsBySource := index_groups_by_source (d_TransitionGroups def);
  ft_edgesByGroup := index_edges_by_group (d_Edges def);
  ft_outgoingByNode := index_outgoing (index_groups (d_TransitionGroups def)) (d_Edges def) |}.

Lemma getl_index_edges_by_group edges g :
  getl (index_edges_by_group edges) g = filter (λ e, e_TransitionGroupID e = g) edges.
Proof.
  unfold index_edges_by_group.
  rewrite (getl_foldl_appendl (λ e, Some (e_TransitionGroupID e)) id), getl_empty, list_fmap_id. simpl.
  apply list_filter_iff. naive_solver.
Qed.
Lemma getl_index_outgoing groupsByID edges n :
  getl (index_outgoing groupsByID edges) n =
    filter (λ e, tg_SourceNodeID <$> groupsByID !! e_TransitionGroupID e = Some n) edges.
Proof.
  unfold index_outgoing.
  rewrite (getl_foldl_appendl (λ e, tg_SourceNodeID <$> groupsByID !! e_TransitionGroupID e) id).
  by rewrite getl_empty, list_fmap_id.
Qed.

(** ** Walking a branch *)
Section walk.
Context (nodesByID : gmap NodeID Node).
Context (groupsBySource : gmap NodeID (list TransitionGroup)).
Context (edgesByGroup : gmap TransitionGroupID (list Edge)).
Context (outgoingByNode : gmap NodeID (list Edge)).

(** Some transition group leaving the node has several edges. *)
Definition opensFanout (n : NodeID) : bool :=
  existsb (λ g, 1 <? length (getl edgesByGroup (tg_ID g))) (getl groupsBySource n).

(** [result.x[id]] is set to the distance if absent or larger. *)
Definition record_min (n : NodeID) (d : nat) (m : gmap NodeID nat) : gmap NodeID nat :=
  match m !! n with
  | Some previous => if d <? previous then <[n := d]> m else m
  | None => <[n := d]> m
  end.

Record fanoutBranchTraversalResult := {
  pathNodes : gmap NodeID nat; joinDistances : gmap NodeID nat }.

Record frame := { f_nodeID : NodeID; f_distance : nat; f_path : gset NodeID }.

Definition push_targets (mk : Edge → frame) (edges : list Edge) (stack : list frame) : list frame :=
  foldl (λ st e, mk e :: st) stack edges.

Definition traversal_step (s : list frame * fanoutBranchTraversalResult)
    : (list frame * fanoutBranchTraversalResult) + option fanoutBranchTraversalResult :=
  let '(stack, result) := s in
  match stack with
  | [] => inr (Some result)
  | current :: rest =>
    let n := f_nodeID current in
    if n ∈? f_path current then inr None else
    match nodesByID !! n with
    | None => inr None
    | Some node =>
      if Kind node ==? NodeKindJoin then
        inl (rest, {| pathNodes := pathNodes result;
                      joinDistances := record_min n (f_distance current) (joinDistances result) |})
      else if Kind node ==? NodeKindTerminal then inr None
      else
        let result' := {| pathNodes := record_min n (f_distance current) (pathNodes result);
                          joinDistances := joinDistances result |} in
        if opensFanout n then inr None
        else
          let nextPath := {[n]} ∪ f_path current in
          inl (push_targets (λ e, {| f_nodeID := e_TargetNodeID e;
                                     f_distance := S (f_distance current);
                                     f_path := nextPath |}) (getl outgoingByNode n) rest, result')
    end
  end.

(** Fuel: a frame whose path avoids [k] nodes of the graph spawns at most
  [total outgoing] frames that avoid [k - 1], so [(1 + total)^k] pops are
  enough for it. *)
Definition walk_base : N := (1 + total outgoingByNode)%N.
Definition walk_fuel : N := (1 + walk_base ^ N.of_nat (size nodesByID))%N.

Definition fanoutBranchTraversal (start : NodeID) : option fanoutBranchTraversalResult :=
  default None (loop traversal_step walk_fuel
    ([{| f_nodeID := start; f_distance := 0; f_path := ∅ |}],
     {| pathNodes := ∅; joinDistances := ∅ |})).

Definition fanoutBranchJoinDistances (start : NodeID) : option (gmap NodeID nat) :=
  joinDistances <$> fanoutBranchTraversal start.

(** [fanoutBranchJoinEdge] walks the same branch; it collects the edges
  into the join and fails on any other join. The inner loop over the
  outgoing edges returns [None] for its early returns. *)
Definition join_edge_scan (joinID : NodeID) (nextPath : gset NodeID)
    (acc : option (list frame * list Edge)) (edge : Edge) : option (list frame * list Edge) :=
  match acc with
  | None => None
  | Some (stack, candidates) =>
    match nodesByID !! e_TargetNodeID edge with
    | None => None
    | Some target =>
      if Kind target ==? NodeKindJoin then
        if e_TargetNodeID edge <>? joinID then None else Some (stack, candidates ++ [edge])
      else Some ({| f_nodeID := e_TargetNodeID edge; f_distance := 0; f_path := nextPath |} :: stack,
                 candidates)
    end
  end.

Definition join_edge_step (joinID : NodeID) (s : list frame * list Edge)
    : (list frame * list Edge) + option Edge :=
  let '(stack, candidates) := s in
  match stack with
  | [] => inr (match candidates with [e] => Some e | _ => None end)
  | current :: rest =>
    let n := f_nodeID current in
    if n ∈? f_path current then inr None else
    match nodesByID !! n with
    | None => inr None
    | Some node =>
      if (Kind node ==? NodeKindTerminal) || (Kind node ==? NodeKindJoin) then inr None
      else if opensFanout n then inr None
      else
        match foldl (join_edge_scan joinID ({[n]} ∪ f_path current)) (Some (rest, candidates))
                (getl outgoingByNode n) with
        | None => inr None
        | Some s' => inl s'
        end
    end
  end.

Definition fanoutBranchJoinEdge (start joinID : NodeID) : option Edge :=
  default None (loop (join_edge_step joinID) walk_fuel
    ([{| f_nodeID := start; f_distance := 0; f_path := ∅ |}], [])).
End walk.

(** ** Nearest common join *)
Section nearest.
Context `{RangeOrder}.

(** Keeps the joins every branch reaches, adding up their distances. *)
Definition common_joins (d0 : gmap NodeID nat) (ds : list (gmap NodeID nat)) : gmap NodeID nat :=
  foldl (λ common distances, map_zip_with Nat.add common distances) d0 ds.

(** The scan for the minimum: nearest id, its distance, how many share it. *)
Definition nearest_scan (s : NodeID * nat * nat) (jd : NodeID * nat) : NodeID * nat * nat :=
  let '(nearestJoinID, nearestDistance, nearestCount) := s in
  let '(joinID, distance) := jd in
  if (nearestCount ==? 0) || (distance <? nearestDistance) then (joinID, distance, 1)
  else if distance ==? nearestDistance then (nearestJoinID, nearestDistance, S nearestCount)
  else s.

Definition fanoutNearestCommonJoin (branchJoinDistances : list (gmap NodeID nat)) : option NodeID :=
  match branchJoinDistances with
  | [] => None
  | d0 :: ds =>
    let common := common_joins d0 ds in
    if size common ==? 0 then None
    else
      let '(nearestJoinID, _, nearestCount) :=
        foldl nearest_scan ("", 0, 0) (range_map common) in
      if nearestCount ==? 1 then Some nearestJoinID else None
  end.
End nearest.

(** ** Queries on a definition *)
Section queries.
Context `{RangeOrder} (def : WorkflowDefinition).

Let topology := newFanoutTopology def.
Definition branchTraversal (start : NodeID) : option fanoutBranchTraversalResult :=
  fanoutBranchTraversal (ft_nodesByID topology) (ft_groupsBySource topology)
    (ft_edgesByGroup topology) (ft_outgoingByNode topology) start.
Definition branchJoinEdge (start joinID : NodeID) : option Edge :=
  fanoutBranchJoinEdge (ft_nodesByID topology) (ft_groupsBySource topology)
    (ft_edgesByGroup topology) (ft_outgoingByNode topology) start joinID.

(** The loops that collect the join distances of all branches. *)
Definition branch_distances (starts : list NodeID) : option (list (gmap NodeID nat)) :=
  mapM (λ start,
    match joinDistances <$> branchTraversal start with
    | Some ds => if size ds ==? 0 then None else Some ds
    | None => None
    end) starts.

(** The one-target transition's target: the first group with the id, when
  it has exactly one edge. *)
Definition serial_target (transitionGroupID : TransitionGroupID) : option NodeID :=
  match List.find (λ g, tg_ID g ==? transitionGroupID) (d_TransitionGroups def) with
  | None => None
  | Some g => match getl (ft_edgesByGroup topology) (tg_ID g) with
              | [e] => Some (e_TargetNodeID e)
              | _ => None
              end
  end.

(** One iteration of the search over fan-out groups. *)
Definition fanout_contains (fanoutEdges : list Edge) (targetNodeID : NodeID) : bool :=
  if length fanoutEdges <? 2 then false
  else match branch_distances (e_TargetNodeID <$> fanoutEdges) with
  | None => false
  | Some ds =>
    match fanoutNearestCommonJoin ds with
    | None => false
    | Some joinID =>
      match ft_nodesByID topology !! joinID with
      | None => false
      | Some join =>
        if Kind join <>? NodeKindJoin then false
        else if negb (forallb (λ e, bool_decide (is_Some (branchJoinEdge (e_TargetNodeID e) joinID)))
                        fanoutEdges) then false
        else existsb (λ e, match branchTraversal (e_TargetNodeID e) with
                           | Some r => bool_decide (is_Some (pathNodes r !! targetNodeID))
                           | None => false
                           end) fanoutEdges
      end
    end
  end.

Definition SerialTransitionRequiresFanoutSiblings (transitionGroupID : TransitionGroupID) : bool :=
  match serial_target transitionGroupID with
  | None => false
  | Some targetNodeID =>
    existsb (λ g, fanout_contains (getl (ft_edgesByGroup topology) (tg_ID g)) targetNodeID)
      (d_TransitionGroups def)
  end.

(** *** [ResolveFanoutJoin] *)

(** The distinct non-blank branch keys, or the early return. *)
Definition expected_keys (branchKeys : list TransitionBranchKey) : option (gset ModelKey) :=
  foldl (λ acc branchKey,
    expected ← acc;
    let key := TrimSpace branchKey in
    if key ==? "" then None
    else if key ∈? expected then None
    else Some ({[key]} ∪ expected)) (Some ∅) branchKeys.

(** The first edge of a group for each expected key. *)
Definition candidate_edges (expected : gset ModelKey) (edges : list Edge) : gmap TransitionBranchKey Edge :=
  foldl (λ candidate edge,
    let key := TrimSpace (e_Key edge) in
    if negb (key ∈? expected) then candidate
    else match candidate !! key with Some _ => candidate | None => <[key := edge]> candidate end)
    ∅ edges.

(** The groups whose edges carry exactly the expected keys. *)
Definition matching_fanouts (expected : gset ModelKey) : list (gmap TransitionBranchKey Edge) :=
  omap (λ g,
    let edges := getl (ft_edgesByGroup topology) (tg_ID g) in
    if length edges <>? size expected then None
    else let candidate := candidate_edges expected edges in
      if size candidate <>? size expected then None else Some candidate) (d_TransitionGroups def).

Definition zeroEdge : Edge := {|
  e_WorkflowID := 0; e_ID := ""; e_Key := ""; e_TransitionGroupID := ""; e_TargetNodeID := "";
  e_AssigneeSelection := ""; e_ThinkingSelection := ""; e_ContextMode := "";
  e_ContextSource := {| cs_Kind := ""; cs_NodeKey := "" |}; e_RequiresApproval := false;
  e_PromptTemplate := ""; e_Parameters := []; e_InputBindings := []; e_OutputRequirements := [] |}.

Record FanoutJoinResolution := { fjr_Join : Node; fjr_BranchJoinEdges : gmap TransitionBranchKey Edge }.

Definition branch_target (initialEdges : gmap TransitionBranchKey Edge) (k : TransitionBranchKey) : NodeID :=
  e_TargetNodeID (default zeroEdge (initialEdges !! k)).

Definition ResolveFanoutJoin (branchKeys : list TransitionBranchKey) : option FanoutJoinResolution :=
  expected ← expected_keys branchKeys;
  if size expected <? 2 then None else
  match matching_fanouts expected with
  | [initialEdges] =>
    distancesByBranch ← branch_distances (branch_target initialEdges <$> branchKeys);
    joinID ← fanoutNearestCommonJoin distancesByBranch;
    join ← ft_nodesByID topology !! joinID;
    if Kind join <>? NodeKindJoin then None else
    branchJoinEdges ← foldl (λ acc branchKey,
        m ← acc;
        edge ← branchJoinEdge (branch_target initialEdges branchKey) joinID;
        Some (<[branchKey := edge]> m)) (Some ∅) branchKeys;
    Some {| fjr_Join := join; fjr_BranchJoinEdges := branchJoinEdges |}
  | _ => None
  end.
End queries.
