(* ===== verification/FanoutFacts.v ===== *)
(** * Fan-out facts

    Walks of a branch as an inductive relation, total correctness of the two
    stack loops against it, and the characterisation of the nearest common
    join, which does not depend on the order of map iteration. *)
From Stdlib Require Import NArith String.
From stdpp Require Import gmap strings list relations.
From S2P Require Import Prelude GoStrings Types Reach Fanout.

(** ** Minima *)

(** [o] is the minimum of the set [S] of distances, [None] if it is empty. *)
Definition min_of (S : nat → Prop) (o : option nat) : Prop :=
  match o with
  | Some d => S d ∧ ∀ d', S d' → d ≤ d'
  | None => ∀ d, ¬ S d
  end.

Lemma min_of_unique S o1 o2 : min_of S o1 → min_of S o2 → o1 = o2.
Proof.
  destruct o1 as [d1|], o2 as [d2|]; simpl; [|naive_solver..].
  intros [H1 H2] [H3 H4]. f_equal. specialize (H2 _ H3). specialize (H4 _ H1). lia.
Qed.
Lemma min_of_iff S S' o : (∀ d, S d ↔ S' d) → min_of S o → min_of S' o.
Proof. destruct o; simpl; naive_solver. Qed.

Lemma record_min_spec (m : gmap NodeID nat) (S : NodeID → nat → Prop) n d :
  (∀ j, min_of (S j) (m !! j)) →
  ∀ j, min_of (λ d', S j d' ∨ (j = n ∧ d' = d)) (record_min n d m !! j).
Proof.
  intros Hm j. specialize (Hm j) as Hj. unfold record_min.
  destruct (decide (j = n)) as [->|Hne].
  - destruct (m !! n) as [p|] eqn:E.
    + destruct Hj as [H1 H2]. destruct (Nat.ltb_spec d p).
      * rewrite lookup_insert_eq. simpl. split; [by right|].
        intros d' [?%H2|[_ ->]]; lia.
      * rewrite E. simpl. split; [by left|]. intros d' [?|[_ ->]]; auto.
    + rewrite lookup_insert_eq. simpl. split; [by right|].
      intros d' [?|[_ ->]]; [|done]. by destruct (Hj d').
  - assert (∀ k, record_min n d m = k → k !! j = m !! j) as Hsame.
    { intros k <-. unfold record_min. repeat case_match; rewrite ?lookup_insert_ne by done; done. }
    specialize (Hsame _ eq_refl). unfold record_min in Hsame. rewrite Hsame.
    eapply min_of_iff; [|exact Hj]. naive_solver.
Qed.

(** ** Walks *)
Section walks.
Context (nodesByID : gmap NodeID Node).
Context (groupsBySource : gmap NodeID (list TransitionGroup)).
Context (edgesByGroup : gmap TransitionGroupID (list Edge)).
Context (outgoingByNode : gmap NodeID (list Edge)).

(** [walk start n ns]: from [start] along outgoing edges to [n], the nodes
  before [n] being [ns] (last first), all present and none a join. *)
Inductive walk (start : NodeID) : NodeID → list NodeID → Prop :=
  | walk_nil : walk start start []
  | walk_snoc n ns node e :
    walk start n ns → nodesByID !! n = Some node → Kind node ≠ NodeKindJoin →
    e ∈ getl outgoingByNode n → walk start (e_TargetNodeID e) (n :: ns).

(** What stops the walk of a branch: a cycle, a dangling edge, a terminal,
  or a nested fan-out. *)
Definition obstructed (n : NodeID) (ns : list NodeID) : Prop :=
  n ∈ ns ∨ nodesByID !! n = None ∨
  ∃ node, nodesByID !! n = Some node ∧
    (Kind node = NodeKindTerminal ∨
     (Kind node ≠ NodeKindJoin ∧ opensFanout groupsBySource edgesByGroup n = true)).

Definition is_join (n : NodeID) : Prop := ∃ node, nodesByID !! n = Some node ∧ Kind node = NodeKindJoin.
Definition is_inner (n : NodeID) : Prop := ∃ node, nodesByID !! n = Some node ∧ Kind node ≠ NodeKindJoin.

(** Walks with their histories stand behind the frames of the stack. *)
Definition frame_of (w : NodeID * list NodeID) : frame :=
  {| f_nodeID := w.1; f_distance := length w.2; f_path := list_to_set w.2 |}.

Definition extend (n : NodeID) (ns : list NodeID) (e : Edge) : NodeID * list NodeID :=
  (e_TargetNodeID e, n :: ns).

(** ** Fuel *)
Definition frame_measure (f : frame) : N :=
  (walk_base outgoingByNode ^ N.of_nat (size (dom nodesByID ∖ f_path f)))%N.
Definition stack_measure (fs : list frame) : N :=
  foldr (λ f acc, frame_measure f + acc)%N 0%N fs.

Lemma frame_measure_pos f : (0 < frame_measure f)%N.
Proof. unfold frame_measure, walk_base. apply N.neq_0_lt_0, N.pow_nonzero. lia. Qed.

Lemma stack_measure_app fs1 fs2 :
stack_measure (fs1 ++ fs2) = (stack_measure fs1 + stack_measure fs2)%N.
Proof. induction fs1; simpl; lia. Qed.

Lemma push_targets_eq mk edges stack :
push_targets mk edges stack = reverse (mk <$> edges) ++ stack.
Proof.
unfold push_targets. revert stack. induction edges as [|e edges IH]; intros stack; simpl; [done|].
rewrite IH, reverse_cons, <- app_assoc. done.
Qed.

Lemma length_getl_total (m : gmap NodeID (list Edge)) n : (N.of_nat (length (getl m n)) ≤ total m)%N.
Proof. unfold total. rewrite (weight_visit m ∅ n) by set_solver. lia. Qed.

(** Expanding a frame costs strictly less than the frame was worth. *)
Lemma expand_measure (fs : list frame) f n :
f_nodeID f = n → n ∉ f_path f → is_Some (nodesByID !! n) →
(∀ g, g ∈ fs → f_path g = {[n]} ∪ f_path f) → length fs ≤ length (getl outgoingByNode n) →
(stack_measure fs < frame_measure f)%N.
Proof.
intros <- Hn Hnode Hfs Hlen.
set (B := walk_base outgoingByNode).
set (k := size (dom nodesByID ∖ ({[f_nodeID f]} ∪ f_path f))).
assert (size (dom nodesByID ∖ f_path f) = S k) as Hk.
{ unfold k.
  assert (dom nodesByID ∖ f_path f =
    {[f_nodeID f]} ∪ (dom nodesByID ∖ ({[f_nodeID f]} ∪ f_path f))) as ->.
  { apply set_eq. intros x. apply elem_of_dom in Hnode.
    destruct (decide (x = f_nodeID f)) as [->|]; set_solver. }
  rewrite size_union by set_solver. rewrite size_singleton. lia. }
assert (stack_measure fs ≤ N.of_nat (length fs) * B ^ N.of_nat k)%N as Hle.
{ clear Hlen. induction fs as [|g fs IH]; simpl; [lia|].
  assert (frame_measure g = B ^ N.of_nat k)%N as ->
    by (unfold frame_measure, k; by rewrite (Hfs g) by set_solver).
  specialize (IH ltac:(set_solver)). lia. }
unfold frame_measure. fold B. rewrite Hk, Nat2N.inj_succ, N.pow_succ_r'.
pose proof (length_getl_total outgoingByNode (f_nodeID f)) as Ht.
assert (B ^ N.of_nat k ≠ 0)%N by (apply N.pow_nonzero; unfold B, walk_base; lia).
assert (B = 1 + total outgoingByNode)%N as HB by done. nia.
Qed.

Lemma stack_measure_reverse fs : stack_measure (reverse fs) = stack_measure fs.
Proof.
  induction fs as [|f fs IH]; [done|]. rewrite reverse_cons, stack_measure_app, IH. simpl. lia.
Qed.

Lemma initial_measure start :
  (stack_measure [frame_of (start, [])] < walk_fuel nodesByID outgoingByNode)%N.
Proof.
  unfold stack_measure, walk_fuel, frame_measure, frame_of. simpl.
  replace (dom nodesByID ∖ ∅) with (dom nodesByID) by set_solver. rewrite size_dom. lia.
Qed.

(** ** The branch traversal *)
Record trav_inv (start : NodeID) (gs walked : list (NodeID * list NodeID))
    (r : fanoutBranchTraversalResult) : Prop := {
  ti_stack : ∀ w, w ∈ gs → walk start w.1 w.2;
  ti_done : ∀ w, w ∈ walked → walk start w.1 w.2 ∧ ¬ obstructed w.1 w.2;
  ti_start : (start, []) ∈ walked ∨ (start, []) ∈ gs;
  ti_closed : ∀ n ns e, (n, ns) ∈ walked → is_inner n → e ∈ getl outgoingByNode n →
    extend n ns e ∈ walked ∨ extend n ns e ∈ gs;
  ti_joins : ∀ j, min_of (λ d, ∃ ns, (j, ns) ∈ walked ∧ is_join j ∧ length ns = d) (joinDistances r !! j);
  ti_nodes : ∀ n, min_of (λ d, ∃ ns, (n, ns) ∈ walked ∧ is_inner n ∧ length ns = d) (pathNodes r !! n);
  }.

Local Abbreviation step := (traversal_step nodesByID groupsBySource edgesByGroup outgoingByNode).

Lemma min_of_walked (P : NodeID → Prop) (m : gmap NodeID nat) n (ns : list NodeID) walked :
  (∀ j, min_of (λ d, ∃ ns : list NodeID, (j, ns) ∈ walked ∧ P j ∧ length ns = d) (m !! j)) → P n →
  ∀ j, min_of (λ d, ∃ ns', (j, ns') ∈ (n, ns) :: walked ∧ P j ∧ length ns' = d)
         (record_min n (length ns) m !! j).
Proof.
  intros Hm HP j. eapply min_of_iff; [|by apply (record_min_spec _ _ n (length ns) Hm)].
  intros d. simpl. setoid_rewrite elem_of_cons. naive_solver.
Qed.
Lemma min_of_skip (P : NodeID → Prop) (m : gmap NodeID nat) n (ns : list NodeID) walked :
  (∀ j, min_of (λ d, ∃ ns : list NodeID, (j, ns) ∈ walked ∧ P j ∧ length ns = d) (m !! j)) → ¬ P n →
  ∀ j, min_of (λ d, ∃ ns', (j, ns') ∈ (n, ns) :: walked ∧ P j ∧ length ns' = d) (m !! j).
Proof.
  intros Hm HP j. eapply min_of_iff; [|by apply Hm].
  intros d. setoid_rewrite elem_of_cons. naive_solver.
Qed.

(** What one iteration does to the frame of a walk. *)
Lemma traversal_step_cons n ns rest r :
  match step (frame_of (n, ns) :: rest, r) with
  | inr o => o = None ∧ obstructed n ns
  | inl (stack', r') =>
    ¬ obstructed n ns ∧
    ((is_join n ∧ stack' = rest ∧ pathNodes r' = pathNodes r ∧
      joinDistances r' = record_min n (length ns) (joinDistances r)) ∨
     (is_inner n ∧
      stack' = reverse (frame_of ∘ extend n ns <$> getl outgoingByNode n) ++ rest ∧
      joinDistances r' = joinDistances r ∧
      pathNodes r' = record_min n (length ns) (pathNodes r)))
  end.
Proof.
  unfold traversal_step. simpl. case_bool_decide as Hp.
  { split; [done|]. left. set_solver. }
  assert (n ∉ ns) as Hns by set_solver.
  destruct (nodesByID !! n) as [node|] eqn:En; [|split; [done|right; by left]].
  assert (∀ P : Prop, (Kind node = NodeKindTerminal ∨ (Kind node ≠ NodeKindJoin ∧
      opensFanout groupsBySource edgesByGroup n = true) → P) → obstructed n ns → P) as Hob.
  { intros P HP [?|[?|(node' & ? & ?)]]; naive_solver. }
  case_bool_decide as Hj.
  { split; [intros Hx; apply (Hob False); [rewrite Hj; naive_solver|done]|]. left. split; [by exists node|done]. }
  case_bool_decide as Ht; [split; [done|]; right; right; eauto|].
  destruct (opensFanout _ _ n) eqn:Hf; [split; [done|]; right; right; eauto|].
  split; [intros Hx; apply (Hob False); [naive_solver|done]|]. right. split; [by exists node|].
  rewrite push_targets_eq. simpl. split_and!; try done.
Qed.

Lemma trav_inv_step start gs walked r s' :
  trav_inv start gs walked r → step (frame_of <$> gs, r) = inl s' →
  ∃ gs' walked', s'.1 = frame_of <$> gs' ∧ trav_inv start gs' walked' s'.2 ∧
    (stack_measure s'.1 < stack_measure (frame_of <$> gs))%N.
Proof.
  intros [H1 H2 H3 H4 H5 H6] Hstep. destruct gs as [|[n ns] gs]; [done|].
  change (frame_of <$> (n, ns) :: gs) with (frame_of (n, ns) :: (frame_of <$> gs)) in *.
  pose proof (traversal_step_cons n ns (frame_of <$> gs) r) as Hc. rewrite Hstep in Hc.
  destruct s' as [stack' r']. destruct Hc as [Hgood Hc].
  assert (walk start n ns) as Hw by (apply (H1 (n, ns)); set_solver).
  assert (∀ w, w ∈ (n, ns) :: walked → walk start w.1 w.2 ∧ ¬ obstructed w.1 w.2) as Hdone.
  { intros w [->|?]%elem_of_cons; auto. }
  assert ((start, []) ∈ (n, ns) :: walked ∨ (start, []) ∈ gs) as Hst by set_solver.
  destruct Hc as [(Hj & -> & Hp & Hd)|(Hi & -> & Hd & Hp)].
  - assert (¬ is_inner n) as Hni by (intros (?&?&?); destruct Hj as (?&?&?); congruence).
    exists gs, ((n, ns) :: walked). split; [done|]. split; [split; auto|].
    + set_solver.
    + intros n' ns' e [?|Hin]%elem_of_cons Hi' He; [by simplify_eq|].
      destruct (H4 _ _ _ Hin Hi' He); set_solver.
    + simpl. rewrite Hd. by apply min_of_walked.
    + simpl. rewrite Hp. by apply min_of_skip.
    + simpl. pose proof (frame_measure_pos (frame_of (n, ns))). lia.
  - assert (¬ is_join n) as Hnj by (intros (?&?&?); destruct Hi as (?&?&?); congruence).
    exists (reverse (extend n ns <$> getl outgoingByNode n) ++ gs), ((n, ns) :: walked).
    assert (reverse (frame_of ∘ extend n ns <$> getl outgoingByNode n) =
            frame_of <$> reverse (extend n ns <$> getl outgoingByNode n)) as Hrev
      by (by rewrite fmap_reverse, list_fmap_compose).
    split; [by rewrite fmap_app, Hrev|]. split; [split; auto|].
    + intros w [Hin|]%elem_of_app; [|set_solver]. rewrite elem_of_reverse in Hin.
      apply list_elem_of_fmap in Hin as (e & -> & He). destruct Hi as (node & ? & ?).
      by eapply walk_snoc.
    + set_solver.
    + intros n' ns' e [?|Hin]%elem_of_cons Hi' He; simplify_eq.
      * right. rewrite elem_of_app, elem_of_reverse. left. by apply list_elem_of_fmap_2.
      * destruct (H4 _ _ _ Hin Hi' He); set_solver.
    + simpl. rewrite Hd. by apply min_of_skip.
    + simpl. rewrite Hp. by apply min_of_walked.
    + simpl. rewrite stack_measure_app, Hrev, fmap_reverse, stack_measure_reverse.
      apply N.add_lt_mono_r. apply (expand_measure _ _ n); [done|..].
      * simpl. intros Hin. apply Hgood. left. set_solver.
      * destruct Hi as (node & Hn & _). by exists node.
      * intros g (w & -> & (e & -> & He)%list_elem_of_fmap)%list_elem_of_fmap. simpl. set_solver.
      * by rewrite !length_fmap.
Qed.

Lemma walked_complete start walked r :
  trav_inv start [] walked r → ∀ n ns, walk start n ns → (n, ns) ∈ walked.
Proof.
  intros [_ _ H3 H4 _ _]. induction 1 as [|n ns node e Hw IH Hn Hk He]; [set_solver|].
  destruct (H4 n ns e IH) as [|?%elem_of_nil]; try done. by exists node.
Qed.

(** The traversal terminates; it fails exactly when some walk of the branch
  is obstructed, and otherwise records, for every join and every node
  before a join, the length of the shortest walk to it. *)
Lemma fanoutBranchTraversal_spec start :
  match fanoutBranchTraversal nodesByID groupsBySource edgesByGroup outgoingByNode start with
  | None => ∃ n ns, walk start n ns ∧ obstructed n ns
  | Some r =>
    (∀ n ns, walk start n ns → ¬ obstructed n ns) ∧
    (∀ j, min_of (λ d, is_join j ∧ ∃ ns, walk start j ns ∧ length ns = d) (joinDistances r !! j)) ∧
    (∀ n, min_of (λ d, is_inner n ∧ ∃ ns, walk start n ns ∧ length ns = d) (pathNodes r !! n))
  end.
Proof.
  unfold fanoutBranchTraversal.
  destruct (loop_total step
    (λ s, ∃ gs walked, s.1 = frame_of <$> gs ∧ trav_inv start gs walked s.2)
    (λ s, stack_measure s.1) (walk_fuel nodesByID outgoingByNode)
    ([frame_of (start, [])], {| pathNodes := ∅; joinDistances := ∅ |}))
    as (o & [stack r] & Hloop & (gs & walked & Hgs & Hinv) & Hstep).
  - intros [stack r] s' (gs & walked & Hgs & Hinv) Hstep. simpl in Hgs. subst stack.
    destruct (trav_inv_step _ _ _ _ _ Hinv Hstep) as (gs' & walked' & ? & ? & ?). eauto.
  - exists [(start, [])], []. split; [done|]. split; try set_solver.
    + intros w ->%list_elem_of_singleton. constructor.
    + intros j. simpl. rewrite lookup_empty. simpl. set_solver.
    + intros j. simpl. rewrite lookup_empty. simpl. set_solver.
  - apply initial_measure.
  - unfold frame_of in Hloop. simpl in Hloop. rewrite Hloop. simpl in Hgs, Hinv. subst stack. simpl.
    destruct gs as [|[n ns] gs].
    + injection Hstep as <-. pose proof (walked_complete _ _ _ Hinv) as Hc.
      destruct Hinv as [H1 H2 H3 H4 H5 H6]. split_and!.
      * intros n ns Hw. by apply (H2 (n, ns)), Hc.
      * intros j. eapply min_of_iff; [|apply H5]. intros d. split.
        -- intros (ns & Hin & ? & ?). split; [done|]. exists ns. split; [|done]. by apply (H2 (j, ns)).
        -- intros (? & ns & ? & ?). exists ns. auto.
      * intros j. eapply min_of_iff; [|apply H6]. intros d. split.
        -- intros (ns & Hin & ? & ?). split; [done|]. exists ns. split; [|done]. by apply (H2 (j, ns)).
        -- intros (? & ns & ? & ?). exists ns. auto.
    + pose proof (traversal_step_cons n ns (frame_of <$> gs) r) as Hc.
      change (step (frame_of (n, ns) :: (frame_of <$> gs), r) = inr o) in Hstep.
      rewrite Hstep in Hc. destruct Hc as [-> Hob].
      exists n, ns. split; [|done]. apply (ti_stack _ _ _ _ Hinv (n, ns)). set_solver.
Qed.

(** ** The join edge of a branch *)
Local Abbreviation jstep := (join_edge_step nodesByID groupsBySource edgesByGroup outgoingByNode).
Local Abbreviation jscan := (join_edge_scan nodesByID).

Definition frame0_of (w : NodeID * list NodeID) : frame :=
  {| f_nodeID := w.1; f_distance := 0; f_path := list_to_set w.2 |}.

Lemma foldl_jscan_None joinID P edges : foldl (jscan joinID P) None edges = None.
Proof. induction edges; auto. Qed.

(** The inner loop succeeds when every target exists and every target that
  is a join is the expected one. *)
Lemma foldl_jscan joinID P edges st c st' c' :
foldl (jscan joinID P) (Some (st, c)) edges = Some (st', c') →
(∀ e, e ∈ edges → is_join (e_TargetNodeID e) → e_TargetNodeID e = joinID ∧ e ∈ c') ∧
(∀ e, e ∈ c' → e ∈ c ∨ (e ∈ edges ∧ is_join (e_TargetNodeID e) ∧ e_TargetNodeID e = joinID)) ∧
(∀ e, e ∈ c → e ∈ c') ∧
∃ pushed, (∀ e, e ∈ pushed ↔ e ∈ edges ∧ is_inner (e_TargetNodeID e)) ∧
  length pushed ≤ length edges ∧
  st' = ((λ e, {| f_nodeID := e_TargetNodeID e; f_distance := 0; f_path := P |}) <$> pushed) ++ st.
Proof.
revert st c. induction edges as [|e edges IH]; intros st c Hf.
{ simpl in Hf. simplify_eq. split_and!; try set_solver.
  exists []. split_and!; [set_solver|done|done]. }
cbn [foldl join_edge_scan] in Hf.
destruct (nodesByID !! e_TargetNodeID e) as [target|] eqn:Et; [|by rewrite foldl_jscan_None in Hf].
case_bool_decide as Hj.
- case_bool_decide as Hid; simpl in Hf; [|by rewrite foldl_jscan_None in Hf].
  destruct (IH _ _ Hf) as (I1 & I2 & I3 & pushed & I4 & I5 & I6).
  assert (is_join (e_TargetNodeID e)) as Hje by (by exists target).
  split_and!.
  + intros e' [->|?]%elem_of_cons; [|by auto]. intros _. split; [done|]. apply I3. set_solver.
  + intros e' [?|(?&?&?)]%I2; [|set_solver].
    rewrite elem_of_app, list_elem_of_singleton in H. set_solver.
  + intros. apply I3. set_solver.
  + exists pushed. split_and!; [|simpl; lia|done]. intros e'. rewrite I4, elem_of_cons.
    split; [by intros [??]; auto|]. intros [[->|?] Hi]; [|done].
    destruct Hi as (?&?&?). congruence.
- destruct (IH _ _ Hf) as (I1 & I2 & I3 & pushed & I4 & I5 & I6).
  assert (is_inner (e_TargetNodeID e)) as Hie by (by exists target). split_and!.
  + intros e' [->|?]%elem_of_cons; [|by auto]. intros (?&?&?). congruence.
  + intros e' [?|(?&?&?)]%I2; set_solver.
  + done.
  + exists (pushed ++ [e]). split_and!.
    * intros e'. rewrite elem_of_app, list_elem_of_singleton, I4, elem_of_cons. naive_solver.
    * rewrite length_app. simpl. lia.
    * rewrite I6, fmap_app, <- app_assoc. done.
Qed.

Record je_inv (start joinID : NodeID) (gs walked : list (NodeID * list NodeID))
    (candidates : list Edge) : Prop := {
  je_stack : ∀ w, w ∈ gs → walk start w.1 w.2;
  je_done : ∀ w, w ∈ walked → walk start w.1 w.2 ∧ is_inner w.1;
  je_start : (start, []) ∈ walked ∨ (start, []) ∈ gs;
  je_closed : ∀ n ns e, (n, ns) ∈ walked → e ∈ getl outgoingByNode n →
    is_inner (e_TargetNodeID e) → extend n ns e ∈ walked ∨ extend n ns e ∈ gs;
  je_joins : ∀ n ns e, (n, ns) ∈ walked → e ∈ getl outgoingByNode n →
    is_join (e_TargetNodeID e) → e_TargetNodeID e = joinID ∧ e ∈ candidates;
  je_cands : ∀ e, e ∈ candidates → e_TargetNodeID e = joinID ∧
    ∃ n ns, (n, ns) ∈ walked ∧ e ∈ getl outgoingByNode n;
  }.

Lemma je_inv_step start joinID gs walked c s' :
  je_inv start joinID gs walked c → jstep joinID (frame0_of <$> gs, c) = inl s' →
  ∃ gs' walked', s'.1 = frame0_of <$> gs' ∧ je_inv start joinID gs' walked' s'.2 ∧
    (stack_measure s'.1 < stack_measure (frame0_of <$> gs))%N.
Proof.
  intros [H1 H2 H3 H4 H5 H6] Hstep. destruct gs as [|[n ns] gs]; [done|].
  unfold join_edge_step in Hstep. simpl in Hstep.
  case_bool_decide as Hp; [done|].
  destruct (nodesByID !! n) as [node|] eqn:En; [|done].
  destruct (_ || _) eqn:Hk in Hstep; [done|]. bool_simp.
  destruct (opensFanout _ _ n); [done|].
  destruct (foldl _ _ _) as [[st' c']|] eqn:Hf in Hstep; simplify_eq/=.
  apply foldl_jscan in Hf as (F1 & F2 & F3 & pushed & F4 & F5 & ->).
  assert (walk start n ns) as Hw by (apply (H1 (n, ns)); set_solver).
  assert (is_inner n) as Hi by (by exists node).
  exists ((extend n ns <$> pushed) ++ gs), ((n, ns) :: walked).
  assert (((λ e, {| f_nodeID := e_TargetNodeID e; f_distance := 0; f_path := {[n]} ∪ list_to_set ns |})
           <$> pushed) = frame0_of <$> (extend n ns <$> pushed)) as Heq.
  { rewrite <- list_fmap_compose. apply list_fmap_ext. intros. unfold frame0_of. simpl. done. }
  split; [by rewrite fmap_app, Heq|]. split; [split|].
  - intros w [(e & -> & He)%list_elem_of_fmap|?]%elem_of_app; [|set_solver].
    apply F4 in He as [He _]. by apply (walk_snoc _ n ns node).
  - intros w [->|?]%elem_of_cons; auto.
  - set_solver.
  - intros n' ns' e [?|Hin]%elem_of_cons He Hie; simplify_eq.
    + right. apply elem_of_app. left. apply list_elem_of_fmap_2, F4. done.
    + destruct (H4 _ _ _ Hin He Hie); set_solver.
  - intros n' ns' e [?|Hin]%elem_of_cons He Hje; simplify_eq; [by apply F1|].
    destruct (H5 _ _ _ Hin He Hje). auto.
  - intros e [Hc|(He & Hj & ?)]%F2.
    + destruct (H6 _ Hc) as [? (n' & ns' & ? & ?)]. split; [done|]. exists n', ns'. set_solver.
    + split; [done|]. exists n, ns. set_solver.
  - rewrite stack_measure_app. apply N.add_lt_mono_r.
    apply (expand_measure _ (frame0_of (n, ns)) n); [done|simpl; set_solver|by exists node|..].
    + intros g (e & -> & ?)%list_elem_of_fmap. done.
    + by rewrite length_fmap.
Qed.

Lemma je_complete start joinID walked c :
  je_inv start joinID [] walked c → ∀ n ns, walk start n ns → is_inner n → (n, ns) ∈ walked.
Proof.
  intros [_ _ H3 H4 _ _]. induction 1 as [|n ns node e Hw IH Hn Hk He]; intros Hi; [set_solver|].
  destruct (H4 n ns e) as [|?%elem_of_nil]; try done. apply IH. by exists node.
Qed.

(** The loop returns; a returned edge leads into the join, and every edge by
  which a walk of the branch enters a join is that edge. *)
Lemma fanoutBranchJoinEdge_spec start joinID e :
  fanoutBranchJoinEdge nodesByID groupsBySource edgesByGroup outgoingByNode start joinID = Some e →
  e_TargetNodeID e = joinID ∧
  (∃ n ns, walk start n ns ∧ is_inner n ∧ e ∈ getl outgoingByNode n) ∧
  (∀ n ns e', walk start n ns → is_inner n → e' ∈ getl outgoingByNode n →
     is_join (e_TargetNodeID e') → e' = e).
Proof.
  unfold fanoutBranchJoinEdge.
  destruct (loop_total (jstep joinID)
    (λ s, ∃ gs walked, s.1 = frame0_of <$> gs ∧ je_inv start joinID gs walked s.2)
    (λ s, stack_measure s.1) (walk_fuel nodesByID outgoingByNode) ([frame0_of (start, [])], []))
    as (o & [stack c] & Hloop & (gs & walked & Hgs & Hinv) & Hstep).
  - intros [stack c] s' (gs & walked & Hgs & Hinv) Hstep. simpl in Hgs. subst stack.
    destruct (je_inv_step _ _ _ _ _ _ Hinv Hstep) as (gs' & walked' & ? & ? & ?). eauto.
  - exists [(start, [])], []. split; [done|]. split; try set_solver.
    intros w ->%list_elem_of_singleton. constructor.
  - apply initial_measure.
  - unfold frame0_of in Hloop. simpl in Hloop. rewrite Hloop. simpl in Hgs, Hinv. subst stack. simpl.
    intros ->. destruct gs as [|[n ns] gs].
    + simpl in Hstep. destruct c as [|e1 [|]]; simplify_eq.
      pose proof (je_complete _ _ _ _ Hinv) as Hc. destruct Hinv as [H1 H2 H3 H4 H5 H6].
      destruct (H6 e) as [? (n & ns & Hin & He)]; [set_solver|]. split; [done|]. split.
      * exists n, ns. by destruct (H2 _ Hin).
      * intros n' ns' e' Hw Hi He' Hj. destruct (H5 n' ns' e' (Hc _ _ Hw Hi) He' Hj). set_solver.
    + unfold join_edge_step in Hstep. simpl in Hstep. repeat case_match; simplify_eq.
Qed.
End walks.

(** ** Nearest common join *)

(** The sum of a join's distances over all branches, when all reach it. *)
Definition common_distance (ds : list (gmap NodeID nat)) (j : NodeID) : option nat :=
  sum_list <$> mapM (λ m : gmap NodeID nat, m !! j) ds.

Lemma common_joins_lookup d0 ds j :
  common_joins d0 ds !! j = common_distance (d0 :: ds) j.
Proof.
  unfold common_joins, common_distance.
  assert (∀ d0 : gmap NodeID nat,
    foldl (λ common distances : gmap NodeID nat, map_zip_with Nat.add common distances) d0 ds !! j =
      a ← d0 !! j; b ← sum_list <$> mapM (λ m : gmap NodeID nat, m !! j) ds; Some (a + b)) as Hf.
  { clear d0. induction ds as [|d ds IH]; intros d0; simpl.
    - destruct (d0 !! j); simpl; [by rewrite Nat.add_0_r|done].
    - rewrite IH, map_lookup_zip_with. destruct (d0 !! j), (d !! j); simpl; try done.
      destruct (mapM _ ds); simpl; [f_equal; lia|done]. }
  rewrite Hf. simpl. destruct (d0 !! j); simpl; [|done]. by destruct (mapM _ ds).
Qed.

(** After a non-empty prefix the scan holds the first minimum and how many
    entries share it. *)
Lemma nearest_scan_spec L id d c :
  foldl nearest_scan ("", 0, 0) L = (id, d, c) →
  (L = [] ∧ c = 0) ∨
  ((id, d) ∈ L ∧ (∀ x, x ∈ L → d ≤ x.2) ∧ c = length (filter (λ x : NodeID * nat, x.2 = d) L)).
Proof.
  revert id d c. induction L as [|[j dj] L IH] using rev_ind; intros id d c; [naive_solver|].
  rewrite foldl_app. destruct (foldl nearest_scan ("", 0, 0) L) as [[id0 d0] c0] eqn:E.
  specialize (IH _ _ _ eq_refl). simpl. rewrite filter_app, length_app, filter_cons, filter_nil.
  intros Hs. right. destruct IH as [[-> ->]|(Hin & Hmin & Hc)].
  - simpl in Hs. simplify_eq. rewrite decide_True by done. simpl. split_and!; [set_solver|set_solver by lia|done].
  - assert (c0 ≠ 0) as Hc0.
    { rewrite Hc. intros Hz%length_zero_iff_nil.
      apply (not_elem_of_nil (id0, d0)). rewrite <- Hz. apply list_elem_of_filter. done. }
    rewrite (bool_decide_eq_false_2 (c0 = 0)) in Hs by done. simpl in Hs.
    destruct (Nat.ltb_spec dj d0) as [Hlt|Hge].
    + simplify_eq. rewrite decide_True by done. split_and!; [set_solver| |].
      * intros x [Hx|Hx]%elem_of_app; [|apply list_elem_of_singleton in Hx; subst x]; [|done]. specialize (Hmin x Hx). lia.
      * assert (filter (λ x : NodeID * nat, x.2 = d) L = []) as ->; [|done].
        apply filter_none. intros x Hx <-.
        specialize (Hmin x Hx). lia.
    + case_bool_decide as Hd; simplify_eq.
      * rewrite decide_True by done. split_and!; [set_solver| |simpl; lia].
        intros x [Hx|Hx]%elem_of_app; [|apply list_elem_of_singleton in Hx; subst x]; auto.
      * rewrite decide_False by (simpl; lia). split_and!; [set_solver| |simpl; lia].
        intros x [Hx|Hx]%elem_of_app; [|apply list_elem_of_singleton in Hx; subst x]; auto.
Qed.

(** The result is the join common to all branches whose total distance is
    strictly smallest, whatever the iteration order. *)
Lemma fanoutNearestCommonJoin_spec `{RangeOrder} ds j :
  fanoutNearestCommonJoin ds = Some j ↔
    ds ≠ [] ∧ ∃ d, common_distance ds j = Some d ∧
      ∀ j' d', common_distance ds j' = Some d' → j' ≠ j → d < d'.
Proof.
  destruct ds as [|d0 ds]; [naive_solver|]. unfold fanoutNearestCommonJoin.
  setoid_rewrite <- common_joins_lookup. set (common := common_joins d0 ds).
  case_bool_decide as Hsz.
  { apply map_size_empty_iff in Hsz. rewrite Hsz. setoid_rewrite lookup_empty. naive_solver. }
  destruct (foldl nearest_scan _ _) as [[id d] c] eqn:E.
  apply nearest_scan_spec in E as [[Hnil _]|(Hin & Hmin & Hc)].
  { destruct Hsz. apply map_size_empty_iff, map_to_list_empty_iff.
    apply Permutation_nil. by rewrite <- Hnil, range_map_perm. }
  apply elem_of_range_map in Hin.
  assert (NoDup (range_map common).*1) as Hnd
    by (rewrite range_map_perm; apply NoDup_fst_map_to_list).
  assert (filter (λ x : NodeID * nat, x.2 = d) (range_map common) ≡ₚ [(id, d)] ↔ c = 1) as Hone.
  { rewrite Hc. split; [by intros ->|]. intros Hl.
    destruct (filter _ _) as [|x [|]] eqn:Ef in Hl |- *; simplify_eq.
    enough ((id, d) ∈ [x]) as ->%list_elem_of_singleton by done.
    rewrite <- Ef. apply list_elem_of_filter. split; [done|]. by apply elem_of_range_map. }
  case_bool_decide as Hc1.
  - apply Hone in Hc1. split.
    + intros [= <-]. split; [done|]. exists d. split; [done|]. intros j' d' Hj' Hne.
      pose proof (Hmin (j', d')) as Hle. rewrite elem_of_range_map in Hle. specialize (Hle Hj'). simpl in Hle.
      destruct (decide (d' = d)) as [->|]; [|lia]. exfalso.
      assert ((j', d) ∈ [(id, d)]) as ?%list_elem_of_singleton; [|naive_solver].
      rewrite <- Hc1. apply list_elem_of_filter. split; [done|]. by apply elem_of_range_map.
    + intros [_ (dj & Hj & Hlt)]. f_equal. destruct (decide (id = j)) as [|Hne]; [done|].
      specialize (Hlt id d Hin Hne). specialize (Hmin (j, dj)). rewrite elem_of_range_map in Hmin.
      specialize (Hmin Hj). simpl in Hmin. lia.
  - split; [done|]. intros [_ (dj & Hj & Hlt)]. destruct Hc1. apply Hone.
    assert (id = j) as ->.
    { destruct (decide (id = j)) as [|Hne]; [done|]. specialize (Hlt id d Hin Hne).
      specialize (Hmin (j, dj)). rewrite elem_of_range_map in Hmin. specialize (Hmin Hj). simpl in Hmin. lia. }
    assert (dj = d) as -> by congruence.
    apply NoDup_fmap_1 in Hnd.
    apply NoDup_Permutation; [by apply NoDup_filter|apply NoDup_singleton|].
    intros [j' d']. rewrite list_elem_of_filter, elem_of_range_map, list_elem_of_singleton. simpl. split.
    + intros [-> Hj']. destruct (decide (j' = j)) as [->|Hne]; [done|]. specialize (Hlt _ _ Hj' Hne). lia.
    + intros. by simplify_eq.
Qed.

(** A definition's walks and obstructions. *)
Definition nodes_of (def : WorkflowDefinition) : gmap NodeID Node := ft_nodesByID (newFanoutTopology def).
Definition outgoing_of (def : WorkflowDefinition) : gmap NodeID (list Edge) :=
  ft_outgoingByNode (newFanoutTopology def).
Definition branch_walk (def : WorkflowDefinition) : NodeID → NodeID → list NodeID → Prop :=
  walk (nodes_of def) (outgoing_of def).
Definition branch_obstructed (def : WorkflowDefinition) : NodeID → list NodeID → Prop :=
  obstructed (nodes_of def) (ft_groupsBySource (newFanoutTopology def))
    (ft_edgesByGroup (newFanoutTopology def)).
