(* ===== verification/FanoutClaims.v ===== *)
(** * Fan-out queries of a definition

    Properties of the branch traversal, the nearest common join and
    [ResolveFanoutJoin] over a whole definition. *)
From Stdlib Require Import NArith String.
From stdpp Require Import gmap strings list relations.
From S2P Require Import Prelude GoStrings Types Samples Reach Fanout FanoutFacts.

Section resolve.
Context `{RangeOrder} (def : WorkflowDefinition).

Lemma expected_keys_spec ks X :
  expected_keys ks = Some X →
  X = list_to_set (TrimSpace <$> ks) ∧ NoDup (TrimSpace <$> ks) ∧ ∀ k, k ∈ ks → blank k = false.
Proof.
  unfold expected_keys. revert X. induction ks as [|k ks IH] using rev_ind; intros X.
  { intros [= <-]. split; [done|]. split; [constructor|set_solver]. }
  rewrite foldl_app. simpl. destruct (foldl _ _ ks) as [X0|] eqn:E; simpl; [|done].
  destruct (IH X0 eq_refl) as (-> & Hnd & Hb).
  case_bool_decide as He; [done|]. case_bool_decide as Hin; [done|]. intros [= <-].
  rewrite fmap_app. split; [set_solver|]. split.
  - apply NoDup_app. split; [done|]. split; [set_solver|apply NoDup_singleton].
  - intros k' [?| ->%list_elem_of_singleton]%elem_of_app; [by auto|]. unfold blank.
    by apply bool_decide_eq_false_2.
Qed.

Lemma candidate_edges_spec X edges k e :
  candidate_edges X edges !! k = Some e → e ∈ edges ∧ TrimSpace (e_Key e) = k ∧ k ∈ X.
Proof.
  unfold candidate_edges. revert k e.
  induction edges as [|e0 edges IH] using rev_ind; intros k e; [simpl; by rewrite lookup_empty|].
  rewrite foldl_app. simpl. case_bool_decide as Hk; simpl.
  - destruct (_ !! TrimSpace (e_Key e0)) eqn:E.
    + intros (?&?&?)%IH. set_solver.
    + rewrite lookup_insert_Some. intros [[<- <-]|[_ (?&?&?)%IH]]; set_solver.
  - intros (?&?&?)%IH. set_solver.
Qed.

Lemma matching_fanouts_spec X m :
  m ∈ matching_fanouts def X →
  ∃ g, g ∈ d_TransitionGroups def ∧ size m = size X ∧ dom m = X ∧
    ∀ k e, m !! k = Some e → e ∈ d_Edges def ∧ e_TransitionGroupID e = tg_ID g ∧ TrimSpace (e_Key e) = k.
Proof.
  unfold matching_fanouts. rewrite list_elem_of_omap. intros (g & Hg & Hm). exists g. split; [done|].
  case_bool_decide; simplify_eq/=. case_bool_decide as Hsz; simplify_eq/=.
  assert (∀ k e, candidate_edges X (getl (ft_edgesByGroup (newFanoutTopology def)) (tg_ID g)) !! k = Some e →
    e ∈ d_Edges def ∧ e_TransitionGroupID e = tg_ID g ∧ TrimSpace (e_Key e) = k ∧ k ∈ X) as Hc.
  { intros k e (He & Hk & HX)%candidate_edges_spec. simpl in He.
    rewrite getl_index_edges_by_group, list_elem_of_filter in He. naive_solver. }
  split; [done|]. split.
  - apply set_subseteq_size_eq.
    + intros k [e He]%elem_of_dom. by apply Hc in He as (_&_&_&?).
    + rewrite size_dom. lia.
  - intros k e (?&?&?&?)%Hc. done.
Qed.

Lemma foldl_join_edges (f : TransitionBranchKey → option Edge) ks (m0 m : gmap TransitionBranchKey Edge) :
  foldl (λ acc k, m ← acc; edge ← f k; Some (<[k := edge]> m)) (Some m0) ks = Some m →
  (∀ k, k ∈ ks → ∃ e, f k = Some e ∧ m !! k = Some e) ∧ (∀ k, k ∉ ks → m !! k = m0 !! k).
Proof.
  revert m. induction ks as [|k ks IH] using rev_ind; intros m.
  { intros [= <-]. set_solver. }
  rewrite foldl_app. simpl. destruct (foldl _ _ ks) as [m1|]; simpl; [|done].
  destruct (f k) as [e|] eqn:Ef; simpl; [|done]. intros [= <-].
  destruct (IH m1 eq_refl) as [H1 H2]. split.
  - intros k' Hk'. destruct (decide (k' = k)) as [->|Hne].
    + exists e. by rewrite lookup_insert_eq.
    + rewrite lookup_insert_ne by done. apply H1. set_solver.
  - intros k' Hk'. rewrite lookup_insert_ne by set_solver. apply H2. set_solver.
Qed.

Lemma branch_distances_spec starts ds :
  branch_distances def starts = Some ds →
  Forall2 (λ start d, ∃ r, branchTraversal def start = Some r ∧ joinDistances r = d) starts ds.
Proof.
  unfold branch_distances. intros Hm. apply mapM_Some_1 in Hm.
  eapply Forall2_impl; [exact Hm|]. intros start d. simpl.
  destruct (branchTraversal def start) as [r|]; simpl; [|done].
  case_bool_decide; [done|]. naive_solver.
Qed.

Lemma index_nodes_id nodes n node : index_nodes nodes !! n = Some node → NodeIDOf node = n.
Proof.
  unfold index_nodes. apply (foldl_inv (λ m : gmap NodeID Node, m !! n = Some node → NodeIDOf node = n)).
  - by rewrite lookup_empty.
  - intros m a _ IH. rewrite lookup_insert_Some. naive_solver.
Qed.
End resolve.

(** C25. The branch traversal always returns. It fails exactly when some walk
    of the branch runs into a cycle, a missing node, a terminal or a nested
    fan-out before a join; otherwise its distances are, for each join (and
    each node before the joins), the length of the shortest walk that reaches
    it without crossing a join. *)
Theorem branchTraversal_correct def start :
  (branchTraversal def start = None ↔
     ∃ n ns, branch_walk def start n ns ∧ branch_obstructed def n ns) ∧
  (∀ r, branchTraversal def start = Some r →
     (∀ j, min_of (λ d, is_join (nodes_of def) j ∧ ∃ ns, branch_walk def start j ns ∧ length ns = d)
             (joinDistances r !! j)) ∧
     (∀ n, min_of (λ d, is_inner (nodes_of def) n ∧ ∃ ns, branch_walk def start n ns ∧ length ns = d)
             (pathNodes r !! n))).
Proof.
  pose proof (fanoutBranchTraversal_spec (nodes_of def) (ft_groupsBySource (newFanoutTopology def))
    (ft_edgesByGroup (newFanoutTopology def)) (outgoing_of def) start) as Hs.
  change (fanoutBranchTraversal _ _ _ _ start) with (branchTraversal def start) in Hs.
  destruct (branchTraversal def start) as [r|].
  - destruct Hs as [Hno Hmin]. split; [|by intros r' [= <-]].
    split; [done|]. intros (n & ns & Hw & Hob). by destruct (Hno n ns).
  - split; [|done]. split; [|done]. intros _. apply Hs.
Qed.

(** C27. [fanoutNearestCommonJoin] returns a join exactly when it is common to
    all branches with a strictly smaller total distance than every other
    common join; the result does not depend on map iteration order. *)
Theorem fanoutNearestCommonJoin_correct (o1 o2 : RangeOrder) ds j :
  (@fanoutNearestCommonJoin o1 ds = Some j ↔
     ds ≠ [] ∧ ∃ d, common_distance ds j = Some d ∧
       ∀ j' d', common_distance ds j' = Some d' → j' ≠ j → d < d') ∧
  @fanoutNearestCommonJoin o1 ds = @fanoutNearestCommonJoin o2 ds.
Proof.
  split; [apply fanoutNearestCommonJoin_spec|].
  apply option_eq. intros k. by rewrite !fanoutNearestCommonJoin_spec.
Qed.

(** C24. When [ResolveFanoutJoin] succeeds on trimmed branch keys, the keys are
    distinct and non-blank and name edges of one transition group; the result
    is an existing join node that is the strictly nearest join common to the
    branches, and each key is mapped to an edge into that join which is the
    only edge by which any walk of its branch enters a join. *)
Theorem ResolveFanoutJoin_sound (o : RangeOrder) def keys res :
  (∀ k, k ∈ keys → TrimSpace k = k) →
  ResolveFanoutJoin def keys = Some res →
  NoDup keys ∧ 2 ≤ length keys ∧ Kind (fjr_Join res) = NodeKindJoin ∧
  nodes_of def !! NodeIDOf (fjr_Join res) = Some (fjr_Join res) ∧
  ∃ g, g ∈ d_TransitionGroups def ∧
  ∀ k, k ∈ keys → k ≠ "" ∧ ∃ e je,
    e ∈ d_Edges def ∧ e_TransitionGroupID e = tg_ID g ∧ TrimSpace (e_Key e) = k ∧
    fjr_BranchJoinEdges res !! k = Some je ∧ je ∈ d_Edges def ∧
    e_TargetNodeID je = NodeIDOf (fjr_Join res) ∧
    ∀ n ns e', branch_walk def (e_TargetNodeID e) n ns → is_inner (nodes_of def) n →
      e' ∈ getl (outgoing_of def) n → is_join (nodes_of def) (e_TargetNodeID e') → e' = je.
Proof.
  intros Htrim Hr. unfold ResolveFanoutJoin in Hr.
  destruct (expected_keys keys) as [X|] eqn:EX; simpl in Hr; [|done].
  apply expected_keys_spec in EX as (-> & Hnd & Hblank).
  assert (TrimSpace <$> keys = keys) as Hk.
  { rewrite <- (list_fmap_id keys) at 2. apply list_fmap_ext. intros i k Hi.
    apply Htrim. by apply list_elem_of_lookup_2 in Hi. }
  rewrite Hk in *. rewrite size_list_to_set in Hr by done.
  destruct (Nat.ltb_spec (length keys) 2); [done|].
  destruct (matching_fanouts def _) as [|initial [|]] eqn:EM; try done.
  destruct (matching_fanouts_spec def (list_to_set keys) initial) as (g & Hg & _ & Hdom & Hini).
  { rewrite EM. set_solver. }
  destruct (branch_distances def _) as [ds|] eqn:Ed; simpl in Hr; [|done].
  destruct (fanoutNearestCommonJoin ds) as [joinID|] eqn:Ej; simpl in Hr; [|done].
  destruct (index_nodes (d_Nodes def) !! joinID) as [join|] eqn:En; simpl in Hr; [|done].
  case_bool_decide as Hkind; simpl in Hr; [|done].
  destruct (foldl _ _ keys) as [m|] eqn:Ef; simplify_eq/=.
  apply foldl_join_edges in Ef as [Hm _].
  pose proof (index_nodes_id _ _ _ En) as Hid.
  split_and!; try done; [by rewrite Hid|]. exists g. split; [done|]. intros k Hkin.
  split; [by apply not_blank_nonempty, Hblank|].
  assert (is_Some (initial !! k)) as [e He] by (apply elem_of_dom; rewrite Hdom; set_solver).
  destruct (Hm k Hkin) as (je & Hje & Hmk). unfold branch_target in Hje. rewrite He in Hje. simpl in Hje.
  apply fanoutBranchJoinEdge_spec in Hje as (Ht & (n & ns & _ & _ & Hout) & Huniq).
  destruct (Hini k e He) as (? & ? & ?). exists e, je. split_and!; try done.
  - simpl in Hout. rewrite getl_index_outgoing, list_elem_of_filter in Hout. naive_solver.
  - congruence.
Qed.

Lemma ResolveFanoutJoin_sound_witness :
  ∃ res, @ResolveFanoutJoin default_order sample_fanout ["e_build"; "e_test"] = Some res ∧
    NodeIDOf (fjr_Join res) = "merge" ∧ Kind (fjr_Join res) = NodeKindJoin.
Proof.
  eexists. split; [vm_compute; reflexivity|]. split; [reflexivity|].
  eapply (ResolveFanoutJoin_sound default_order sample_fanout ["e_build"; "e_test"]).
  - intros k Hk. repeat (apply elem_of_cons in Hk as [->|Hk]; [vm_compute; reflexivity|]).
    by apply elem_of_nil in Hk.
  - vm_compute. reflexivity.
Defined.
