(* ===== verification/PromptRefs.v ===== *)
(** * Prompt template references

    src/server/workflow/prompt_refs.go, the part that reads a transition's
    prompt template: the parse tree of Go's text/template/parse package, the
    walk that collects parameter references and rejects unsupported ones, and
    [ExtractPromptTemplateReferences]. The template parser itself is a
    parameter. *)
From Stdlib Require Import NArith String.
From stdpp Require Import gmap strings list.
From S2P Require Import Prelude GoStrings Types Selection.

Local Open Scope string_scope.

(** ** Parse trees

    The node types the walk distinguishes. A nil [ListNode] is an empty list.
    The pipeline of a [TemplateNode] is absent in [{{template "name"}}];
    every other pipeline is present. [OtherNode] stands for text, numbers,
    booleans, nil, comments, break and continue. *)
Inductive TNode :=
  | ListNode (Nodes : list TNode)
  | ActionNode (Pipe : TNode)
  | IfNode (Pipe : TNode) (List ElseList : list TNode)
  | RangeNode (Pipe : TNode) (List ElseList : list TNode)
  | WithNode (Pipe : TNode) (List ElseList : list TNode)
  | TemplateNode (Pipe : option TNode)
  | PipeNode (Cmds : list TNode)
  | CommandNode (Args : list TNode)
  | ChainNode (Node : TNode) (Field : list string)
  | FieldNode (Ident : list string)
  | VariableNode (Ident : list string)
  | IdentifierNode (Ident : string)
  | DotNode
  | StringNode (Text : string)
  | OtherNode.

(** ** References *)
Record PromptParameterReference := { pr_Name : string; pr_Placeholder : string }.
Record PromptPriorParameterReference := {
  pp_TransitionKey : ModelKey; pp_ParameterKey : string; pp_Placeholder : string }.
Record PromptReferenceIssue := { pi_Placeholder : string; pi_Message : string }.
Record PromptTemplateReferences := {
  Params : list PromptParameterReference; PriorParams : list PromptPriorParameterReference;
  RefSessionID : bool; Invalid : list PromptReferenceIssue }.

#[export] Instance PromptParameterReference_eq_dec : EqDecision PromptParameterReference.
Proof. solve_decision. Defined.
#[export] Instance PromptPriorParameterReference_eq_dec : EqDecision PromptPriorParameterReference.
Proof. solve_decision. Defined.

Definition no_references : PromptTemplateReferences :=
  {| Params := []; PriorParams := []; RefSessionID := false; Invalid := [] |}.

Definition add_param (r : PromptParameterReference) (refs : PromptTemplateReferences) : PromptTemplateReferences :=
  {| Params := (Params refs ++ [r])%list; PriorParams := PriorParams refs;
     RefSessionID := RefSessionID refs; Invalid := Invalid refs |}.
Definition add_prior (r : PromptPriorParameterReference) (refs : PromptTemplateReferences) : PromptTemplateReferences :=
  {| Params := Params refs; PriorParams := (PriorParams refs ++ [r])%list;
     RefSessionID := RefSessionID refs; Invalid := Invalid refs |}.
Definition add_invalid (placeholder message : string) (refs : PromptTemplateReferences) : PromptTemplateReferences :=
  {| Params := Params refs; PriorParams := PriorParams refs; RefSessionID := RefSessionID refs;
     Invalid := (Invalid refs ++ [{| pi_Placeholder := placeholder; pi_Message := message |}])%list |}.
Definition set_session (refs : PromptTemplateReferences) : PromptTemplateReferences :=
  {| Params := Params refs; PriorParams := PriorParams refs; RefSessionID := true; Invalid := Invalid refs |}.

Definition promptNamespace (value : string) : bool := (value ==? "Inputs") || (value ==? "Params").
Definition promptBuiltin (value : string) : bool :=
  value ∈? ["TaskId"; "TaskShortId"; "TaskTitle"; "TaskBody"; "NodeId"; "NodeKey"; "NodeDisplayName"; "SessionId"].

Definition head_in_namespace (l : list string) : bool :=
  match l with [] => false | x :: _ => promptNamespace x end.

Definition variableTouchesPromptNamespace (ident : list string) : bool :=
  existsb (λ part, (part ==? "$Inputs") || (part ==? "$Params") || promptNamespace part) ident.

Definition recordPromptFieldReference (ident : list string) (refs : PromptTemplateReferences)
    : PromptTemplateReferences :=
  match ident with
  | [] => refs
  | x :: rest =>
    let placeholder := "." +:+ join_strings "." ident in
    if x ==? "Inputs" then
      add_invalid placeholder ".Inputs prompt references are unsupported; use .Params.<parameter_key>" refs
    else if x ==? "Params" then
      match rest with
      | [k] => add_param {| pr_Name := k; pr_Placeholder := placeholder |} refs
      | [t; k] => add_prior {| pp_TransitionKey := t; pp_ParameterKey := k; pp_Placeholder := placeholder |} refs
      | _ => add_invalid placeholder
               ".Params references must use .Params.<parameter_key> or .Params.<transition_key>.<parameter_key>" refs
      end
    else if promptBuiltin x then
      let refs := if length ident <>? 1
                  then add_invalid placeholder "prompt built-in references must not be chained" refs else refs in
      if (x ==? "SessionId") && (length ident ==? 1) then set_session refs else refs
    else add_invalid placeholder "prompt field reference is unsupported" refs
  end.

Definition is_dot (n : TNode) : bool := match n with DotNode => true | _ => false end.

(** One argument of the loop of [indexCommandTouchesPromptNamespace]. *)
Fixpoint index_arg_touches (arg : TNode) : bool :=
  match arg with
  | FieldNode ident => head_in_namespace ident
  | ChainNode node field => head_in_namespace field || is_dot node || index_arg_touches node
  | VariableNode ident => variableTouchesPromptNamespace ident
  | StringNode text => promptNamespace text
  | _ => false
  end.
Definition indexCommandTouchesPromptNamespace (args : list TNode) : bool :=
  match args with
  | [] => false
  | first :: _ => is_dot first || existsb index_arg_touches args
  end.

(** The walk; [None] is the nil pointer dereference on an absent pipeline: a
    nil [*parse.PipeNode] passed as a [parse.Node] is not the nil interface,
    so the [PipeNode] case is taken and reads its commands. *)
Fixpoint walkTemplateNode (node : TNode) (refs : PromptTemplateReferences) : option PromptTemplateReferences :=
  let fix walk_nodes (nodes : list TNode) (refs : PromptTemplateReferences) : option PromptTemplateReferences :=
    match nodes with
    | [] => Some refs
    | n :: nodes => refs ← walkTemplateNode n refs; walk_nodes nodes refs
    end in
  match node with
  | ListNode nodes => walk_nodes nodes refs
  | ActionNode pipe => walkTemplateNode pipe refs
  | IfNode pipe list elseList | RangeNode pipe list elseList | WithNode pipe list elseList =>
    refs ← walkTemplateNode pipe refs; refs ← walk_nodes list refs; walk_nodes elseList refs
  | TemplateNode None => None
  | TemplateNode (Some pipe) => walkTemplateNode pipe refs
  | PipeNode cmds => walk_nodes cmds refs
  | CommandNode args =>
    let refs := match args with
      | IdentifierNode ident :: rest =>
        if (ident ==? "index") && indexCommandTouchesPromptNamespace rest
        then add_invalid "index" "dynamic prompt reference lookup is not supported" refs else refs
      | _ => refs
      end in
    walk_nodes args refs
  | ChainNode n field =>
    refs ← walkTemplateNode n refs;
    Some (if head_in_namespace field
          then add_invalid ("." +:+ join_strings "." field) "prompt reference shape is unsupported" refs else refs)
  | FieldNode ident => Some (recordPromptFieldReference ident refs)
  | VariableNode ident =>
    Some (if variableTouchesPromptNamespace ident
          then add_invalid (join_strings "." ident) "variable prompt reference lookup is not supported" refs else refs)
  | IdentifierNode _ | DotNode | StringNode _ | OtherNode => Some refs
  end.

(** ** Extraction *)
Section extract.
Context `{RangeOrder}.

(** [template.New(..).Parse]: an error, or the trees of the template and of
    those it defines, by name. *)
Context (Parse : string → result string (gmap string (option TNode))).

(** [None] is a panic. *)
Definition ExtractPromptTemplateReferences (promptTemplate : string)
    : option (result string PromptTemplateReferences) :=
  let prompt := TrimSpace promptTemplate in
  if prompt ==? "" then Some (Ok no_references)
  else match Parse prompt with
  | Err e => Some (Err e)
  | Ok trees =>
    refs ← foldl (λ acc parsed,
        refs ← acc;
        match parsed.2 with Some root => walkTemplateNode root refs | None => Some refs end)
      (Some no_references) (range_map trees);
    Some (Ok refs)
  end.
End extract.
