(* ===== verification/PromptRefsClaims.v ===== *)
(** * What reference extraction guarantees

    The walk against a declarative reading of the parse tree: which nodes
    occur in it, which of them are references, which are unsupported. *)
From Stdlib Require Import NArith String.
From stdpp Require Import gmap strings list.
From S2P Require Import Prelude GoStrings Types Selection PromptRefs.

Local Open Scope string_scope.

(** ** Occurrences *)

(** The nodes the walk visits below a node. *)
Definition children (n : TNode) : list TNode :=
  match n with
  | ListNode nodes => nodes
  | ActionNode pipe => [pipe]
  | IfNode pipe l e | RangeNode pipe l e | WithNode pipe l e => (pipe :: l ++ e)%list
  | TemplateNode pipe => option_list pipe
  | PipeNode cmds => cmds
  | CommandNode args => args
  | ChainNode n _ => [n]
  | _ => []
  end.

Inductive occurs (m : TNode) : TNode → Prop :=
  | occurs_here : occurs m m
  | occurs_below n c : c ∈ children n → occurs m c → occurs m n.
#[export] Hint Constructors occurs : kent.

Lemma occurs_inv m n : occurs m n ↔ m = n ∨ ∃ c, c ∈ children n ∧ occurs m c.
Proof. split; [destruct 1; eauto|intros [->|(c & ? & ?)]; eauto with kent]. Qed.

(** Induction on a tree through the nodes the walk visits. *)
Definition TNode_children_ind (P : TNode → Prop) (step : ∀ n, Forall P (children n) → P n) : ∀ n, P n :=
  fix IH n :=
    let fix all l : Forall P l :=
      match l with [] => Forall_nil_2 P | a :: l => Forall_cons_2 P a l (IH a) (all l) end in
    match n return P n with
    | ListNode nodes => step (ListNode nodes) (all nodes)
    | ActionNode p => step (ActionNode p) (Forall_cons_2 P p [] (IH p) (Forall_nil_2 P))
    | IfNode p l e => step (IfNode p l e) (Forall_cons_2 P p _ (IH p) (Forall_app_2 P _ _ (all l) (all e)))
    | RangeNode p l e => step (RangeNode p l e) (Forall_cons_2 P p _ (IH p) (Forall_app_2 P _ _ (all l) (all e)))
    | WithNode p l e => step (WithNode p l e) (Forall_cons_2 P p _ (IH p) (Forall_app_2 P _ _ (all l) (all e)))
    | TemplateNode None => step (TemplateNode None) (Forall_nil_2 P)
    | TemplateNode (Some p) => step (TemplateNode (Some p)) (Forall_cons_2 P p [] (IH p) (Forall_nil_2 P))
    | PipeNode cmds => step (PipeNode cmds) (all cmds)
    | CommandNode args => step (CommandNode args) (all args)
    | ChainNode m f => step (ChainNode m f) (Forall_cons_2 P m [] (IH m) (Forall_nil_2 P))
    | n => step n (Forall_nil_2 P)
    end.

(** ** The walk as a visit *)
Fixpoint walk_nodes (nodes : list TNode) (refs : PromptTemplateReferences) : option PromptTemplateReferences :=
  match nodes with
  | [] => Some refs
  | n :: nodes => refs ← walkTemplateNode n refs; walk_nodes nodes refs
  end.

Lemma walk_nodes_app l1 l2 refs : walk_nodes (l1 ++ l2)%list refs = walk_nodes l1 refs ≫= walk_nodes l2.
Proof.
  revert refs. induction l1 as [|n l1 IH]; intros refs; [done|]. simpl.
  destruct (walkTemplateNode n refs); simpl; [apply IH|done].
Qed.

(** What a node records before and after its children. *)
Definition before (n : TNode) (refs : PromptTemplateReferences) : PromptTemplateReferences :=
  match n with
  | CommandNode (IdentifierNode ident :: rest) =>
    if (ident ==? "index") && indexCommandTouchesPromptNamespace rest
    then add_invalid "index" "dynamic prompt reference lookup is not supported" refs else refs
  | FieldNode ident => recordPromptFieldReference ident refs
  | VariableNode ident =>
    if variableTouchesPromptNamespace ident
    then add_invalid (join_strings "." ident) "variable prompt reference lookup is not supported" refs else refs
  | _ => refs
  end.
Definition after (n : TNode) (refs : PromptTemplateReferences) : PromptTemplateReferences :=
  match n with
  | ChainNode _ field =>
    if head_in_namespace field
    then add_invalid ("." +:+ join_strings "." field) "prompt reference shape is unsupported" refs else refs
  | _ => refs
  end.

Lemma walk_unfold n refs :
  walkTemplateNode n refs =
    match n with
    | TemplateNode None => None
    | _ => after n <$> walk_nodes (children n) (before n refs)
    end.
Proof.
  assert (∀ o : option PromptTemplateReferences, (λ r, r) <$> o = o) as Hid by by intros [].
  assert (∀ p l e refs, (r ← walkTemplateNode p refs; r ← walk_nodes l r; walk_nodes e r) =
    walk_nodes (p :: l ++ e)%list refs) as Hif.
  { intros p l e r. simpl. destruct (walkTemplateNode p r); simpl; [|done]. by rewrite walk_nodes_app. }
  assert (∀ p refs, walk_nodes [p] refs = walkTemplateNode p refs) as Hone.
  { intros p r. simpl. by destruct (walkTemplateNode p r). }
  destruct n as [l|p|p l e|p l e|p l e|[p|]|l|l|m f| | | | | |]; try reflexivity;
    cbn [after before children option_list]; rewrite ?Hid, ?Hone; try reflexivity.
  all: try exact (Hif p l e refs).
  exact (eq_sym (Hone p refs)).
Qed.

(** ** What is recorded *)

(** A field reference that a prompt may contain. *)
Definition supported_field (ident : list string) : Prop :=
  ident = [] ∨ (∃ x, ident = [x] ∧ promptBuiltin x = true) ∨
  (∃ k, ident = ["Params"; k]) ∨ (∃ t k, ident = ["Params"; t; k]).

(** A node that adds no issue of its own. *)
Definition supported (n : TNode) : Prop :=
  match n with
  | FieldNode ident => supported_field ident
  | VariableNode ident => variableTouchesPromptNamespace ident = false
  | ChainNode _ field => head_in_namespace field = false
  | CommandNode (IdentifierNode ident :: rest) =>
    ident = "index" → indexCommandTouchesPromptNamespace rest = false
  | _ => True
  end.

Definition param_ref (k : string) : PromptParameterReference :=
  {| pr_Name := k; pr_Placeholder := ".Params." +:+ k |}.
Definition prior_ref (t k : string) : PromptPriorParameterReference :=
  {| pp_TransitionKey := t; pp_ParameterKey := k; pp_Placeholder := ".Params." +:+ t +:+ "." +:+ k |}.

(** [refs'] is [refs] with exactly what the nodes of [Q] contribute. *)
Record collected (Q : TNode → Prop) (refs refs' : PromptTemplateReferences) : Prop := {
  col_params r : r ∈ Params refs' ↔ r ∈ Params refs ∨ ∃ k, Q (FieldNode ["Params"; k]) ∧ r = param_ref k;
  col_prior r : r ∈ PriorParams refs' ↔
    r ∈ PriorParams refs ∨ ∃ t k, Q (FieldNode ["Params"; t; k]) ∧ r = prior_ref t k;
  col_session : RefSessionID refs' = true ↔ RefSessionID refs = true ∨ Q (FieldNode ["SessionId"]);
  col_invalid : Invalid refs' = [] ↔ Invalid refs = [] ∧ ∀ n, Q n → supported n }.

Lemma collected_none (Q : TNode → Prop) refs : (∀ n, ¬ Q n) → collected Q refs refs.
Proof. intros HQ. split; naive_solver. Qed.
Lemma collected_seq Q1 Q2 r1 r2 r3 :
  collected Q1 r1 r2 → collected Q2 r2 r3 → collected (λ n, Q1 n ∨ Q2 n) r1 r3.
Proof.
  intros [A1 B1 C1 D1] [A2 B2 C2 D2]. split.
  - intros r. rewrite A2, A1. split.
    + intros [[?|(k & ? & ?)]|(k & ? & ?)]; eauto 10.
    + intros [?|(k & [?|?] & ?)]; eauto 10.
  - intros r. rewrite B2, B1. split.
    + intros [[?|(t & k & ? & ?)]|(t & k & ? & ?)]; eauto 10.
    + intros [?|(t & k & [?|?] & ?)]; eauto 10.
  - rewrite C2, C1. tauto.
  - rewrite D2, D1. split; [intros [[? ?] ?]|intros [? ?]]; split_and?; intuition eauto.
Qed.
Lemma collected_ext Q1 Q2 r r' : (∀ n, Q1 n ↔ Q2 n) → collected Q1 r r' → collected Q2 r r'.
Proof. intros HQ [A B C D]. split; [intros x|intros x|..]; [rewrite A|rewrite B|rewrite C|rewrite D]; setoid_rewrite HQ; done. Qed.
Lemma collected_invalid n placeholder message refs :
  ¬ supported n → collected (λ m, m = n) refs (add_invalid placeholder message refs).
Proof.
  intros Hn. split; simpl.
  - intros r. split; [by left|]. intros [?|(k & Heq & _)]; [done|]. exfalso. apply Hn. rewrite <- Heq.
    simpl. unfold supported_field. naive_solver.
  - intros r. split; [by left|]. intros [?|(t & k & Heq & _)]; [done|]. exfalso. apply Hn. rewrite <- Heq.
    simpl. unfold supported_field. naive_solver.
  - split; [by left|]. intros [?|Heq]; [done|]. exfalso. apply Hn. rewrite <- Heq.
    simpl. unfold supported_field. right. left. by exists "SessionId".
  - split; [|naive_solver]. intros []%app_eq_nil. done.
Qed.
(** What a single supported node contributes, by what it adds to each list. *)
Lemma collected_single n refs refs' ps qs :
  supported n → Invalid refs' = Invalid refs →
  Params refs' = (Params refs ++ ps)%list → PriorParams refs' = (PriorParams refs ++ qs)%list →
  (∀ r, r ∈ ps ↔ ∃ k, n = FieldNode ["Params"; k] ∧ r = param_ref k) →
  (∀ r, r ∈ qs ↔ ∃ t k, n = FieldNode ["Params"; t; k] ∧ r = prior_ref t k) →
  (RefSessionID refs' = true ↔ RefSessionID refs = true ∨ n = FieldNode ["SessionId"]) →
  collected (λ m, m = n) refs refs'.
Proof.
  intros Hn HI HP HQ Hps Hqs HS. split.
  - intros r. rewrite HP, elem_of_app, Hps. split; (intros [?|(k & ? & ?)]; [by left|right; exists k; by split]).
  - intros r. rewrite HQ, elem_of_app, Hqs. split; (intros [?|(t & k & ? & ?)]; [by left|right; exists t, k; by split]).
  - rewrite HS. split; (intros [?|?]; [by left|by right]).
  - rewrite HI. split; [|by intros [? _]]. intros ?. split; [done|]. by intros ? ->.
Qed.
Lemma collected_plain n refs :
  supported n → (∀ ident, ident ≠ [] → n ≠ FieldNode ident) → collected (λ m, m = n) refs refs.
Proof.
  intros Hs Hn. apply (collected_single n refs refs [] []); rewrite ?app_nil_r; try done.
  - intros r. split; [by intros []%elem_of_nil|]. intros (k & Heq & _). by destruct (Hn ["Params"; k]).
  - intros r. split; [by intros []%elem_of_nil|]. intros (t & k & Heq & _). by destruct (Hn ["Params"; t; k]).
  - split; [by left|]. intros [?|Heq]; [done|]. by destruct (Hn ["SessionId"]).
Qed.
Lemma collected_field ident refs :
  collected (λ m, m = FieldNode ident) refs (recordPromptFieldReference ident refs).
Proof.
  destruct ident as [|x rest]; [apply collected_plain; [by left|congruence]|].
  unfold recordPromptFieldReference.
  case_bool_decide as Hi; [|case_bool_decide as Hp; [subst x|destruct (promptBuiltin x) eqn:Hb]].
  - subst x. apply collected_invalid. simpl. intros [?|[(y & [= <- ->] & ?)|[(k & ?)|(t & k & ?)]]]; done.
  - destruct rest as [|k [|k2 [|k3 rest]]];
      try (apply collected_invalid; simpl; intros [?|[(y & [= <-] & ?)|[(k' & ?)|(t & k' & ?)]]]; done).
    + apply (collected_single _ _ _ [param_ref k] []); simpl; rewrite ?app_nil_r; try done.
      * right; right; left. by exists k.
      * intros r. rewrite list_elem_of_singleton. split; [intros ->; by exists k|]. by intros (k' & [= <-] & ->).
      * intros r. split; [by intros []%elem_of_nil|]. by intros (t & k' & ? & _).
      * split; [by left|]. by intros [?|?].
    + apply (collected_single _ _ _ [] [prior_ref k k2]); simpl; rewrite ?app_nil_r; try done.
      * right; right; right. by exists k, k2.
      * intros r. split; [by intros []%elem_of_nil|]. by intros (k' & ? & _).
      * intros r. rewrite list_elem_of_singleton. split; [intros ->; by exists k, k2|].
        by intros (t' & k' & [= <- <-] & ->).
      * split; [by left|]. by intros [?|?].
  - destruct rest as [|y rest]; simpl.
    + rewrite andb_true_r. apply (collected_single _ _ _ [] []); simpl; rewrite ?app_nil_r.
      all: try (by case_bool_decide).
      * right; left. by exists x.
      * intros r. split; [by intros []%elem_of_nil|]. by intros (k' & ? & _).
      * intros r. split; [by intros []%elem_of_nil|]. by intros (t & k' & ? & _).
      * case_bool_decide; simpl; [subst x; split; [by right|done]|]. split; [by left|]. intros [?|[= ?]]; done.
    + rewrite andb_false_r. apply collected_invalid. simpl.
      intros [?|[(z & ? & ?)|[(k & [= ? ?])|(t & k & [= ? ?])]]]; done.
  - apply collected_invalid. simpl.
    intros [?|[(y & [= <- ->] & ?)|[(k & [= ? ?])|(t & k & [= ? ?])]]]; congruence.
Qed.

Lemma collected_and_True n refs refs' :
  collected (λ m, m = n) refs refs' → collected (λ m, m = n ∧ True) refs refs'.
Proof. apply collected_ext. intros m. split; [done|by intros [? _]]. Qed.

Lemma collected_before n refs :
  collected (λ m, m = n ∧ match n with ChainNode _ _ => False | _ => True end) refs (before n refs).
Proof.
  destruct n as [| | | | | | |args|n f|ident|ident| | | |]; simpl;
    try (apply collected_and_True, collected_plain; done).
  - apply collected_and_True.
    destruct args as [|[] rest]; try (by apply collected_plain).
    destruct (bool_decide _ && _) eqn:E; bool_simp.
    + apply collected_invalid. simpl. intros Hs. rewrite Hs in *; done.
    + apply collected_plain; [|done]. simpl. intros ->. by apply andb_false_iff in E as [?|?]; bool_simp.
  - apply collected_none. by intros ? [_ ?].
  - apply collected_and_True, collected_field.
  - apply collected_and_True. destruct (variableTouchesPromptNamespace ident) eqn:E.
    + apply collected_invalid. simpl. by rewrite E.
    + by apply collected_plain.
Qed.
Lemma collected_after n refs :
  collected (λ m, m = n ∧ match n with ChainNode _ _ => True | _ => False end) refs (after n refs).
Proof.
  destruct n as [| | | | | | | |n f| | | | | |]; simpl; try (apply collected_none; by intros ? [_ ?]).
  apply collected_and_True. destruct (head_in_namespace f) eqn:E.
  - apply collected_invalid. simpl. by rewrite E.
  - by apply collected_plain.
Qed.

(** The walk visits exactly the occurrences, and crashes exactly on an absent
    pipeline. *)
Lemma walk_nodes_spec ns refs :
  Forall (λ n, ∀ refs, match walkTemplateNode n refs with
    | Some refs' => collected (λ m, occurs m n) refs refs' ∧ ¬ occurs (TemplateNode None) n
    | None => occurs (TemplateNode None) n end) ns →
  match walk_nodes ns refs with
  | Some refs' => collected (λ m, ∃ c, c ∈ ns ∧ occurs m c) refs refs' ∧
                  ∀ c, c ∈ ns → ¬ occurs (TemplateNode None) c
  | None => ∃ c, c ∈ ns ∧ occurs (TemplateNode None) c
  end.
Proof.
  intros Hns. revert refs. induction Hns as [|n ns Hn Hns IH]; intros refs; simpl.
  { split; [apply collected_none; set_solver|set_solver]. }
  specialize (Hn refs). destruct (walkTemplateNode n refs) as [refs1|]; simpl; [|set_solver].
  specialize (IH refs1). destruct (walk_nodes ns refs1) as [refs2|]; [|set_solver].
  destruct Hn as [Hc1 Hn1], IH as [Hc2 Hn2]. split; [|set_solver].
  eapply collected_ext; [|by eapply collected_seq]. set_solver.
Qed.

Lemma walkTemplateNode_spec n refs :
  match walkTemplateNode n refs with
  | Some refs' => collected (λ m, occurs m n) refs refs' ∧ ¬ occurs (TemplateNode None) n
  | None => occurs (TemplateNode None) n
  end.
Proof.
  revert refs. induction n as [n IH] using TNode_children_ind. intros refs. rewrite walk_unfold.
  assert (n = TemplateNode None ∨ n ≠ TemplateNode None) as [->|Hne].
  { destruct n as [| | | | |[]| | | | | | | | |]; auto. }
  { constructor. }
  assert (∀ (a b : option PromptTemplateReferences), match n with TemplateNode None => a | _ => b end = b) as ->.
  { by destruct n as [| | | | |[]| | | | | | | | |]. }
  apply (walk_nodes_spec _ (before n refs)) in IH.
  destruct (walk_nodes (children n) (before n refs)) as [refs1|]; simpl.
  - destruct IH as [Hc Hn]. split.
    + eapply collected_ext; [|eapply collected_seq; [apply collected_before|eapply collected_seq;
        [exact Hc|apply collected_after]]]. intros m. simpl. rewrite (occurs_inv m n). destruct n; naive_solver.
    + rewrite occurs_inv. naive_solver.
  - apply occurs_inv. naive_solver.
Qed.

(** ** Extraction *)

(** A node occurs in some tree of a parsed template. *)
Definition occurs_in (trees : gmap string (option TNode)) (m : TNode) : Prop :=
  ∃ name root, trees !! name = Some (Some root) ∧ occurs m root.

Section extract.
Context `{RangeOrder} (Parse : string → result string (gmap string (option TNode))).

Lemma extract_fold l refs :
  foldl (λ acc (parsed : string * option TNode),
      refs ← acc;
      match parsed.2 with Some root => walkTemplateNode root refs | None => Some refs end) (Some refs) l =
  walk_nodes (omap snd l) refs.
Proof.
  revert refs. induction l as [|[name [root|]] l IH]; intros refs; simpl; [done| |apply IH].
  destruct (walkTemplateNode root refs); simpl; [apply IH|].
  by clear; induction l.
Qed.

Lemma extract_unfold prompt trees :
  blank prompt = false → Parse (TrimSpace prompt) = Ok trees →
  ∃ roots, (∀ m, (∃ c, c ∈ roots ∧ occurs m c) ↔ occurs_in trees m) ∧
    ExtractPromptTemplateReferences Parse prompt = Ok <$> walk_nodes roots no_references.
Proof.
  intros Hb Hp. exists (omap snd (range_map trees)). split.
  - intros m. unfold occurs_in. split.
    + intros (c & ([name o] & Hin & Ho)%list_elem_of_omap & Hm). simpl in Ho. subst o.
      apply elem_of_range_map in Hin. eauto.
    + intros (name & root & Hl & Hm). exists root. split; [|done]. apply list_elem_of_omap.
      exists (name, Some root). split; [by apply elem_of_range_map|done].
  - unfold ExtractPromptTemplateReferences. unfold blank in Hb. rewrite Hb, Hp, extract_fold.
    by destruct (walk_nodes _ _).
Qed.

Lemma extract_spec prompt trees :
  blank prompt = false → Parse (TrimSpace prompt) = Ok trees →
  match ExtractPromptTemplateReferences Parse prompt with
  | Some (Ok refs) => collected (occurs_in trees) no_references refs ∧ ¬ occurs_in trees (TemplateNode None)
  | Some (Err _) => False
  | None => occurs_in trees (TemplateNode None)
  end.
Proof.
  intros Hb Hp. destruct (extract_unfold prompt trees Hb Hp) as (roots & Hroots & ->).
  assert (Forall (λ n, ∀ refs, match walkTemplateNode n refs with
    | Some refs' => collected (λ m, occurs m n) refs refs' ∧ ¬ occurs (TemplateNode None) n
    | None => occurs (TemplateNode None) n end) roots) as Hall.
  { apply Forall_forall. intros n _ refs. apply walkTemplateNode_spec. }
  apply (walk_nodes_spec _ no_references) in Hall.
  destruct (walk_nodes roots no_references) as [refs|]; simpl.
  - destruct Hall as [Hc Hn]. split; [exact (collected_ext _ _ _ _ Hroots Hc)|].
    rewrite <- Hroots. intros (c & ? & ?). by apply (Hn c).
  - by apply Hroots.
Qed.
End extract.

(** C31. Reference extraction is exact: for a prompt that parses and whose
    extraction returns, the recorded parameter references, prior-transition
    references and session flag are exactly the field references
    [.Params.k], [.Params.t.k] and [.SessionId] that occur in the parsed
    template or a template it defines, and no issue is reported exactly when
    every field, variable, chained field and [index] call there is supported.
    The iteration order over the defined templates does not matter. *)
Theorem ExtractPromptTemplateReferences_exact (o : RangeOrder)
    (Parse : string → result string (gmap string (option TNode))) prompt trees refs
    (Hprompt : blank prompt = false) (Hparse : Parse (TrimSpace prompt) = Ok trees)
    (Hrefs : ExtractPromptTemplateReferences Parse prompt = Some (Ok refs)) :
  (∀ r, r ∈ Params refs ↔ ∃ k, occurs_in trees (FieldNode ["Params"; k]) ∧ r = param_ref k) ∧
  (∀ r, r ∈ PriorParams refs ↔ ∃ t k, occurs_in trees (FieldNode ["Params"; t; k]) ∧ r = prior_ref t k) ∧
  (RefSessionID refs = true ↔ occurs_in trees (FieldNode ["SessionId"])) ∧
  (Invalid refs = [] ↔ ∀ n, occurs_in trees n → supported n).
Proof.
  pose proof (extract_spec Parse prompt trees Hprompt Hparse) as Hs. rewrite Hrefs in Hs.
  destruct Hs as [[Hp Hq Hi Hv] _]. simpl in *. split_and!.
  - intros r. rewrite Hp. set_solver.
  - intros r. rewrite Hq. set_solver.
  - rewrite Hi. naive_solver.
  - rewrite Hv. naive_solver.
Qed.

(** "{{if .Params.spec}}{{.Params.plan.goal}}{{end}}{{.SessionId}}" *)
Definition sample_tree : TNode :=
  ListNode [
    IfNode (PipeNode [CommandNode [FieldNode ["Params"; "spec"]]])
      [ActionNode (PipeNode [CommandNode [FieldNode ["Params"; "plan"; "goal"]]])] [];
    ActionNode (PipeNode [CommandNode [FieldNode ["SessionId"]]])].
Definition sample_parse (_ : string) : result string (gmap string (option TNode)) :=
  Ok {["prompt" := Some sample_tree]}.

Definition sample_refs : PromptTemplateReferences := {|
  Params := [param_ref "spec"]; PriorParams := [prior_ref "plan" "goal"]; RefSessionID := true; Invalid := [] |}.

Lemma ExtractPromptTemplateReferences_exact_witness :
  @ExtractPromptTemplateReferences default_order sample_parse "prompt" = Some (Ok sample_refs) ∧
  ∀ n, occurs n sample_tree → supported n.
Proof.
  assert (@ExtractPromptTemplateReferences default_order sample_parse "prompt" = Some (Ok sample_refs)) as Hr
    by (vm_compute; reflexivity).
  split; [exact Hr|]. intros n Hn.
  refine (proj1 (proj2 (proj2 (proj2 (ExtractPromptTemplateReferences_exact default_order sample_parse
    "prompt" {["prompt" := Some sample_tree]} sample_refs _ _ Hr)))) _ n _).
  - vm_compute. reflexivity.
  - reflexivity.
  - reflexivity.
  - exists "prompt", sample_tree. split; [apply lookup_singleton_eq|exact Hn].
Defined.

(** C32. Extraction crashes exactly on templates that invoke a template
    without a pipeline ([{{template "name"}}]), whatever else they contain;
    otherwise it returns, with an error only when the parser fails. *)
Theorem ExtractPromptTemplateReferences_panics (o : RangeOrder)
    (Parse : string → result string (gmap string (option TNode))) prompt :
  (ExtractPromptTemplateReferences Parse prompt = None ↔
     blank prompt = false ∧ ∃ trees, Parse (TrimSpace prompt) = Ok trees ∧
       occurs_in trees (TemplateNode None)) ∧
  (∀ e, ExtractPromptTemplateReferences Parse prompt = Some (Err e) ↔
     blank prompt = false ∧ Parse (TrimSpace prompt) = Err e).
Proof.
  destruct (blank prompt) eqn:Hb.
  - unfold ExtractPromptTemplateReferences. unfold blank in Hb. rewrite Hb. naive_solver.
  - destruct (Parse (TrimSpace prompt)) as [trees|e] eqn:Hp.
    + pose proof (extract_spec Parse prompt trees Hb Hp) as Hs.
      destruct (ExtractPromptTemplateReferences Parse prompt) as [[refs|e]|]; naive_solver.
    + unfold ExtractPromptTemplateReferences. unfold blank in Hb. rewrite Hb, Hp. naive_solver.
Qed.
