(* ===== verification/Wiring.v ===== *)
(** * Derived wiring

    src/server/workflow/derived_wiring.go: which values each transition must
    provide, which values a join aggregates, which edges depend on which
    parameters, and which parameters of earlier transitions a node's prompt
    requires. The source fills one [DerivedWiring] record; its passes touch
    disjoint fields, so each pass is a definition over the fields it fills. *)
From Stdlib Require Import NArith String.
From stdpp Require Import gmap strings list.
From S2P Require Import Prelude GoStrings Types Selection Reach Fanout PromptRefs.

Local Open Scope string_scope.

(** The name diagnostics use for a node. *)
Definition nodeDisplayName (node : Node) : string :=
  let label := TrimSpace (NodeDisplayLabel node) in
  if label <>? "" then label
  else let id := TrimSpace (NodeIDOf node) in
    if id <>? "" then id else "unknown".

(** ** Output fields *)
Definition edgeParameterFields (edge : Edge) : list OutputField :=
  omap (λ p,
    let key := TrimSpace (p_Key p) in
    let description := TrimSpace (p_Description p) in
    if key ==? "" then None else Some {| of_Name := key; of_Description := description |})
    (e_Parameters edge).

Definition inputBindingsForFields (fields : list OutputField) : list InputBinding :=
  omap (λ field,
    let name := TrimSpace (of_Name field) in
    if name ==? "" then None
    else Some {| ib_Name := name; ib_Source := BindingSourceTransitionOutput; ib_Field := name |}) fields.

(** [seen] of the source: the position of each trimmed name, the last one
    when the existing fields repeat a name. *)
Definition field_positions (fields : list OutputField) : gmap string nat :=
  foldl (λ seen (indexed : nat * OutputField), <[TrimSpace (of_Name indexed.2) := indexed.1]> seen)
    ∅ (imap pair fields).

Definition append_unique_field (s : list OutputField * gmap string nat) (field : OutputField)
    : list OutputField * gmap string nat :=
  let '(out, seen) := s in
  let name := TrimSpace (of_Name field) in
  if name ==? "" then s
  else match seen !! name with
  | Some _ => s
  | None => ((out ++ [{| of_Name := name; of_Description := TrimSpace (of_Description field) |}])%list,
             <[name := length out]> seen)
  end.
Definition appendUniqueOutputFields (existing additions : list OutputField) : list OutputField :=
  (foldl append_unique_field (existing, field_positions existing) additions).1.

(** One addition: the fields, their positions, and the diagnostics. *)
Definition append_compatible (ref : ValidationError) (s : list OutputField * gmap string nat)
    (field : OutputField) : (list OutputField * gmap string nat) * list ValidationError :=
  let '(out, seen) := s in
  let name := TrimSpace (of_Name field) in
  if name ==? "" then (s, [])
  else
    let description := TrimSpace (of_Description field) in
    match seen !! name with
    | Some previousIndex =>
      let previous := default "" (of_Description <$> out !! previousIndex) in
      (s, if TrimSpace previous <>? description
          then [setNames name (ve_InputName ref) (ve_Placeholder ref)
                  (setCode CodeProvisionFieldOverlap
                     "derived provision field has incompatible input definitions" true ref)]
          else [])
    | None => (((out ++ [{| of_Name := name; of_Description := description |}])%list,
                <[name := length out]> seen), [])
    end.

Definition appendCompatibleOutputFields (existing additions : list OutputField) (ref : ValidationError)
    : list OutputField * list ValidationError :=
  let '((out, _), diagnostics) := fold_emit (append_compatible ref) (existing, field_positions existing) additions in
  (out, diagnostics).

Definition appendUniqueInputBindings (existing additions : list InputBinding) : list InputBinding :=
  foldl (λ out binding, if ib_Name binding ∈? (ib_Name <$> out) then out else (out ++ [binding])%list)
    existing additions.

Definition AppendUniqueEdgeIDs (existing : list EdgeID) (additions : list (list EdgeID)) : list EdgeID :=
  foldl (λ existing group, foldl append_unique existing group) existing additions.

(** ** Protected parameters *)
Definition edgeParameterByKey (edge : Edge) (key : string) : option EdgeParameter :=
  List.find (λ p, TrimSpace (p_Key p) ==? TrimSpace key) (e_Parameters edge).

Definition filterProtectedParameterFields (edge : Edge) (fields : list OutputField)
    (consumption : ProtectedParameterConsumption) : list OutputField :=
  filter (λ field,
    match edgeParameterByKey edge (of_Name field) with
    | None => true
    | Some parameter =>
      let purpose := CanonicalParameterPurpose (p_Purpose parameter) in
      if purpose ==? ParameterPurposeTargetAssignee then pc_Assignee consumption ==? RequiredValidate
      else if purpose ==? ParameterPurposeTargetThinking then pc_Thinking consumption ==? RequiredValidate
      else true
    end = true) fields.

Definition protectedParameterConsumptionForEdge (edge : Edge) (sourceKind targetKind : NodeKind)
    (targetRole : string) (fanOut : bool) (catalog : option TargetAgentCatalog)
    : ProtectedParameterConsumption :=
  PlanTransitionProtectedParameterConsumption {|
    cr_Edge := edge; cr_SourceKind := sourceKind; cr_TargetKind := targetKind; cr_TargetRole := targetRole;
    cr_RetainedTargetRole := None; cr_FanOut := fanOut; cr_TargetSessionResolved := false;
    cr_TargetSessionPolicy := AssigneeSessionPolicyEstablishTarget; cr_Catalog := catalog;
    cr_RequireExecutionDescriptions := false; cr_Materialization := None |}.

Definition edgesForTransitionGroup (edges : list Edge) (groupID : TransitionGroupID) : list Edge :=
  filter (λ e, e_TransitionGroupID e = groupID) edges.

(** ** Index maps of the derivation: blank identifiers are left out. *)
Record wiring_index := {
  wi_nodesByID : gmap NodeID Node; wi_groupsByID : gmap TransitionGroupID TransitionGroup;
  wi_incoming : gmap NodeID (list Edge); wi_outgoing : gmap NodeID (list Edge) }.

Definition wiring_nodes (nodes : list Node) : gmap NodeID Node :=
  foldl (λ m n, if blank (NodeIDOf n) then m else <[NodeIDOf n := n]> m) ∅ nodes.
Definition wiring_groups (groups : list TransitionGroup) : gmap TransitionGroupID TransitionGroup :=
  foldl (λ m g, if blank (tg_ID g) then m else <[tg_ID g := g]> m) ∅ groups.
Definition index_incoming (edges : list Edge) : gmap NodeID (list Edge) :=
  foldl (λ m e, match Some (e_TargetNodeID e) with Some k => appendl k e m | None => m end) ∅ edges.

Definition wiring_index_of (def : WorkflowDefinition) : wiring_index :=
  let groupsByID := wiring_groups (d_TransitionGroups def) in
  {| wi_nodesByID := wiring_nodes (d_Nodes def); wi_groupsByID := groupsByID;
     wi_incoming := index_incoming (d_Edges def);
     wi_outgoing := index_outgoing groupsByID (d_Edges def) |}.

(** The source node of an edge, when its group and that node exist. *)
Definition edge_source (ix : wiring_index) (edge : Edge) : option Node :=
  group ← wi_groupsByID ix !! e_TransitionGroupID edge; wi_nodesByID ix !! tg_SourceNodeID group.

(** ** Pass 1: selector applicability of each edge *)
Section selectors.
Context `{RangeOrder} (catalog : option TargetAgentCatalog) (def : WorkflowDefinition).

Definition derive_selectors (ix : wiring_index) : gmap EdgeID EdgeSelectorApplicability :=
  foldl (λ m edge,
    match wi_groupsByID ix !! e_TransitionGroupID edge with
    | None => m
    | Some group =>
      <[e_ID edge :=
        match wi_nodesByID ix !! tg_SourceNodeID group, wi_nodesByID ix !! e_TargetNodeID edge with
        | Some source, Some target =>
          ResolveEdgeSelectorApplicability edge (Kind source) (Kind target)
            (1 <? length (edgesForTransitionGroup (d_Edges def) (e_TransitionGroupID edge)))%nat
            catalog (NodeSubagentRole target)
        | _, _ => {| esa_Assignee := unavailable ApplicabilityTopology;
                     esa_Thinking := unavailable ApplicabilityTopology |}
        end]> m
    end) ∅ (d_Edges def).
End selectors.

(** ** Pass 2: fields each transition must provide *)
Record provision := {
  pv_inputBindingsByEdge : gmap EdgeID (list InputBinding);
  pv_requiredByEdge : gmap EdgeID (list OutputField);
  pv_requiredByGroup : gmap TransitionGroupID (list OutputField);
  pv_possibleByNode : gmap NodeID (list OutputField) }.

Definition addRequiredProvisionFields (w : provision) (edgeID : EdgeID) (groupID : TransitionGroupID)
    (fields : list OutputField) : provision * list ValidationError :=
  let edgeRef := setRefs None None (ref_id groupID) (ref_id edgeID) zeroError in
  let groupRef := setRefs None None (ref_id groupID) None zeroError in
  let '(edgeMerged, edgeDiagnostics) := appendCompatibleOutputFields (getl (pv_requiredByEdge w) edgeID) fields edgeRef in
  let '(merged, diagnostics) := appendCompatibleOutputFields (getl (pv_requiredByGroup w) groupID) fields groupRef in
  ({| pv_inputBindingsByEdge := pv_inputBindingsByEdge w;
      pv_requiredByEdge := <[edgeID := edgeMerged]> (pv_requiredByEdge w);
      pv_requiredByGroup := <[groupID := merged]> (pv_requiredByGroup w);
      pv_possibleByNode := pv_possibleByNode w |}, (edgeDiagnostics ++ diagnostics)%list).

Definition addPossibleProvisionFields (w : provision) (nodeID : NodeID) (fields : list OutputField)
    (ref : ValidationError) : provision * list ValidationError :=
  let '(merged, diagnostics) := appendCompatibleOutputFields (getl (pv_possibleByNode w) nodeID) fields ref in
  ({| pv_inputBindingsByEdge := pv_inputBindingsByEdge w; pv_requiredByEdge := pv_requiredByEdge w;
      pv_requiredByGroup := pv_requiredByGroup w;
      pv_possibleByNode := <[nodeID := merged]> (pv_possibleByNode w) |}, diagnostics).

Definition set_inputBindings (w : provision) (edgeID : EdgeID) (bindings : list InputBinding) : provision := {|
  pv_inputBindingsByEdge := <[edgeID := bindings]> (pv_inputBindingsByEdge w);
  pv_requiredByEdge := pv_requiredByEdge w; pv_requiredByGroup := pv_requiredByGroup w;
  pv_possibleByNode := pv_possibleByNode w |}.

(** The fields an edge from an agent or script must provide. *)
Definition required_fields (catalog : option TargetAgentCatalog) (def : WorkflowDefinition)
    (ix : wiring_index) (source : Node) (edge : Edge) : list OutputField :=
  let target := wi_nodesByID ix !! e_TargetNodeID edge in
  filterProtectedParameterFields edge (edgeParameterFields edge)
    (protectedParameterConsumptionForEdge edge (Kind source)
       (match target with Some t => Kind t | None => NodeKindUnset end)
       (match target with Some t => NodeSubagentRole t | None => "" end)
       (1 <? length (edgesForTransitionGroup (d_Edges def) (e_TransitionGroupID edge)))%nat catalog).

Definition derive_provision_edge (catalog : option TargetAgentCatalog) (def : WorkflowDefinition)
    (ix : wiring_index) (w : provision) (edge : Edge) : provision * list ValidationError :=
  match wi_groupsByID ix !! e_TransitionGroupID edge with
  | None => (w, [])
  | Some group =>
    match wi_nodesByID ix !! tg_SourceNodeID group with
    | None => (w, [])
    | Some source =>
      if (Kind source ==? NodeKindStart) || (Kind source ==? NodeKindJoin) then (w, [])
      else
        let requiredFields := required_fields catalog def ix source edge in
        if length requiredFields ==? 0 then (w, [])
        else
          let w := set_inputBindings w (e_ID edge) (inputBindingsForFields requiredFields) in
          let '(w, d1) := addRequiredProvisionFields w (e_ID edge) (e_TransitionGroupID edge) requiredFields in
          let ref := setRefs None (ref_id (tg_SourceNodeID group)) (ref_id (e_TransitionGroupID edge))
                       (ref_id (e_ID edge)) zeroError in
          let '(w, d2) := addPossibleProvisionFields w (tg_SourceNodeID group) requiredFields ref in
          (w, (d1 ++ d2)%list)
    end
  end.

Definition empty_provision : provision := {|
  pv_inputBindingsByEdge := ∅; pv_requiredByEdge := ∅; pv_requiredByGroup := ∅; pv_possibleByNode := ∅ |}.

Definition derive_provision (catalog : option TargetAgentCatalog) (def : WorkflowDefinition)
    (ix : wiring_index) : provision * list ValidationError :=
  fold_emit (derive_provision_edge catalog def ix) empty_provision (d_Edges def).

(** ** Pass 3: join aggregates *)
Record join_scan := {
  js_providers : gmap EdgeID (list OutputField);
  js_groupFields : gmap TransitionGroupID (list OutputField);
  js_groupOrder : list TransitionGroupID }.

(** The fields one incoming edge brings to a join. *)
Definition join_edge_fields (catalog : option TargetAgentCatalog) (ix : wiring_index) (join : Node)
    (edge : Edge) : list OutputField :=
  let fields := edgeParameterFields edge in
  match edge_source ix edge with
  | Some source => filterProtectedParameterFields edge fields
      (protectedParameterConsumptionForEdge edge (Kind source) (Kind join) (NodeSubagentRole join) false catalog)
  | None => fields
  end.

Definition join_scan_edge (catalog : option TargetAgentCatalog) (ix : wiring_index) (join : Node)
    (s : join_scan) (edge : Edge) : join_scan * list ValidationError :=
  let fields := join_edge_fields catalog ix join edge in
  if length fields ==? 0 then (s, [])
  else
    let ref := setRefs None (Some (NodeIDOf join)) (Some (e_TransitionGroupID edge)) (Some (e_ID edge)) zeroError in
    let '(provider, d1) := appendCompatibleOutputFields (getl (js_providers s) (e_ID edge)) fields ref in
    let '(merged, d2) := appendCompatibleOutputFields (getl (js_groupFields s) (e_TransitionGroupID edge)) fields ref in
    ({| js_providers := <[e_ID edge := provider]> (js_providers s);
        js_groupFields := <[e_TransitionGroupID edge := merged]> (js_groupFields s);
        js_groupOrder := append_unique (js_groupOrder s) (e_TransitionGroupID edge) |}, (d1 ++ d2)%list).

(** One field of one group: its owner, and the aggregate so far. *)
Definition aggregate_field (join : Node) (groupID : TransitionGroupID)
    (s : gmap string TransitionGroupID * list OutputField) (field : OutputField)
    : (gmap string TransitionGroupID * list OutputField) * list ValidationError :=
  let '(ownerByField, aggregate) := s in
  let name := TrimSpace (of_Name field) in
  if name ==? "" then (s, [])
  else if match ownerByField !! name with Some owner => owner <>? groupID | None => false end then
    (s, [setNames name "" "" (setRefs None (Some (NodeIDOf join)) (Some groupID) None
           (setCode CodeProvisionFieldOverlap
              ("Node " +:+ nodeDisplayName join +:+ ": join aggregate parameter " +:+ name +:+
               " is produced by multiple transitions") true zeroError))])
  else ((<[name := groupID]> ownerByField, appendUniqueOutputFields aggregate [field]), []).

Definition join_aggregate (join : Node) (s : join_scan) : list OutputField * list ValidationError :=
  let '((_, aggregate), diagnostics) :=
    fold_emit (λ st groupID, fold_emit (aggregate_field join groupID) st (getl (js_groupFields s) groupID))
      (∅, []) (js_groupOrder s) in
  (aggregate, diagnostics).

(** The join pass threads the provider map and the aggregate map. *)
Definition join_state : Type := gmap EdgeID (list OutputField) * gmap NodeID (list OutputField).

Definition deriveJoinAggregateParameters (catalog : option TargetAgentCatalog) (ix : wiring_index)
    (s : join_state) (join : Node) : join_state * list ValidationError :=
  let '(providers, outputs) := s in
  let '(scan, d1) := fold_emit (join_scan_edge catalog ix join)
    {| js_providers := providers; js_groupFields := ∅; js_groupOrder := [] |}
    (getl (wi_incoming ix) (NodeIDOf join)) in
  let '(aggregate, d2) := join_aggregate join scan in
  ((js_providers scan, <[NodeIDOf join := aggregate]> outputs), (d1 ++ d2)%list).

Definition derive_joins (catalog : option TargetAgentCatalog) (def : WorkflowDefinition) (ix : wiring_index)
    : join_state * list ValidationError :=
  fold_emit (λ s node, if Kind node ==? NodeKindJoin then deriveJoinAggregateParameters catalog ix s node else (s, []))
    (∅, ∅) (d_Nodes def).

(** ** Pass 4: which edges' values depend on an edge's parameters *)
Section dependencies.
Context `{RangeOrder}.

Definition own_dependencies (edges : list Edge) : gmap EdgeID (list EdgeID) :=
  foldl (λ m e, <[e_ID e := [e_ID e]]> m) ∅ edges.

Definition deriveParameterDependencies (ix : wiring_index) (joins : join_state)
    (deps : gmap EdgeID (list EdgeID)) : gmap EdgeID (list EdgeID) :=
  foldl (λ deps joinID,
    foldl (λ deps provider,
      if length (getl joins.1 (e_ID provider)) ==? 0 then deps
      else foldl (λ deps outgoing,
        <[e_ID provider := AppendUniqueEdgeIDs (getl deps (e_ID provider)) [[e_ID outgoing]]]> deps)
        deps (getl (wi_outgoing ix) joinID))
      deps (getl (wi_incoming ix) joinID))
    deps (range_map joins.2).*1.
End dependencies.

(** ** Pass 5: the value environment of each node *)

(** The single start node, when there is exactly one with an identifier. *)
Fixpoint single_start_scan (start : NodeID) (nodes : list Node) : NodeID * bool :=
  match nodes with
  | [] => (start, start <>? "")
  | node :: nodes =>
    if Kind node <>? NodeKindStart then single_start_scan start nodes
    else if start <>? "" then ("", false)
    else single_start_scan (NodeIDOf node) nodes
  end.
Definition singleStartNodeID (nodes : list Node) : NodeID * bool := single_start_scan "" nodes.

Record PriorTransitionReferenceResolution := {
  Matched : nat; Guaranteed : list TransitionGroup }.

Definition resolvePriorParameterTransitionGroups (groups : list TransitionGroup) (transitionKey : ModelKey)
    (consumerSourceNodeID startNodeID : NodeID) (outgoingByNode : gmap NodeID (list Edge))
    : PriorTransitionReferenceResolution :=
  foldl (λ resolution group,
    if TrimSpace (tg_TransitionID group) <>? TrimSpace transitionKey then resolution
    else {| Matched := S (Matched resolution);
            Guaranteed :=
              if transitionGroupDominates startNodeID (tg_ID group) consumerSourceNodeID outgoingByNode
              then (Guaranteed resolution ++ [group])%list else Guaranteed resolution |})
    {| Matched := 0; Guaranteed := [] |} groups.

Definition ResolvePriorTransitionGroups (def : WorkflowDefinition) (transitionKey : ModelKey)
    (consumerSourceNodeID : NodeID) : PriorTransitionReferenceResolution :=
  let topology := newFanoutTopology def in
  let '(startNodeID, hasSingleStart) := singleStartNodeID (d_Nodes def) in
  if negb hasSingleStart then {| Matched := 0; Guaranteed := [] |}
  else resolvePriorParameterTransitionGroups (d_TransitionGroups def) transitionKey consumerSourceNodeID
         startNodeID (ft_outgoingByNode topology).

Record PriorTransitionParameterRequirement := {
  ProviderNode : ModelKey; TransitionKey : ModelKey; ParameterName : string }.
#[export] Instance PriorTransitionParameterRequirement_eq_dec : EqDecision PriorTransitionParameterRequirement.
Proof. solve_decision. Defined.

Record derivedPriorParameterRequirement := {
  dr_value : PriorTransitionParameterRequirement; dr_providerTransitionGroupID : TransitionGroupID }.
#[export] Instance derivedPriorParameterRequirement_eq_dec : EqDecision derivedPriorParameterRequirement.
Proof. solve_decision. Defined.

(** The requirement one prompt reference of an edge adds, if any. *)
Definition prior_requirement (def : WorkflowDefinition) (ix : wiring_index) (startNodeID : NodeID)
    (consumerSourceNodeID : NodeID) (priorParam : PromptPriorParameterReference)
    : option derivedPriorParameterRequirement :=
  let transitionKey := TrimSpace (pp_TransitionKey priorParam) in
  let outputName := TrimSpace (pp_ParameterKey priorParam) in
  if (transitionKey ==? "") || (outputName ==? "") then None
  else if outputName ==? RuntimePromptParameterSessionID then None
  else match Guaranteed (resolvePriorParameterTransitionGroups (d_TransitionGroups def) transitionKey
               consumerSourceNodeID startNodeID (wi_outgoing ix)) with
  | [group] =>
    provider ← wi_nodesByID ix !! tg_SourceNodeID group;
    if NodeKey provider ==? "" then None
    else Some {| dr_value := {| ProviderNode := NodeKey provider; TransitionKey := transitionKey;
                                ParameterName := outputName |};
                 dr_providerTransitionGroupID := tg_ID group |}
  | _ => None
  end.

Record environment := {
  en_inputBindingsByEdge : gmap EdgeID (list InputBinding);
  en_outputFieldsByGroup : gmap TransitionGroupID (list OutputField);
  en_requirementsByPromptNode : gmap NodeID (list derivedPriorParameterRequirement) }.

(** [TransitionOutputFieldsForEdge]. *)
Definition transition_output_fields (joins : join_state) (required : gmap EdgeID (list OutputField))
    (edge : Edge) (source : Node) : list OutputField :=
  if Kind source ==? NodeKindJoin then getl joins.2 (NodeIDOf source) else getl required (e_ID edge).

Definition environment_edge (def : WorkflowDefinition) (ix : wiring_index) (joins : join_state)
    (required : gmap EdgeID (list OutputField)) (start : NodeID * bool)
    (priorReferencesByEdge : gmap EdgeID (list PromptPriorParameterReference))
    (env : environment) (edge : Edge) : environment :=
  match wi_nodesByID ix !! e_TargetNodeID edge with
  | None => env
  | Some _ =>
    match wi_groupsByID ix !! e_TransitionGroupID edge with
    | None => env
    | Some consumerGroup =>
      let env :=
        match wi_nodesByID ix !! tg_SourceNodeID consumerGroup with
        | None => env
        | Some source =>
          let currentFields := transition_output_fields joins required edge source in
          {| en_inputBindingsByEdge :=
               <[e_ID edge := appendUniqueInputBindings (getl (en_inputBindingsByEdge env) (e_ID edge))
                                (inputBindingsForFields currentFields)]> (en_inputBindingsByEdge env);
             en_outputFieldsByGroup :=
               foldl (λ m field,
                 <[tg_ID consumerGroup := appendUniqueOutputFields (getl m (tg_ID consumerGroup)) [field]]> m)
                 (en_outputFieldsByGroup env) currentFields;
             en_requirementsByPromptNode := en_requirementsByPromptNode env |}
        end in
      if negb start.2 then env
      else {| en_inputBindingsByEdge := en_inputBindingsByEdge env;
              en_outputFieldsByGroup := en_outputFieldsByGroup env;
              en_requirementsByPromptNode :=
                foldl (λ m priorParam,
                  match prior_requirement def ix start.1 (tg_SourceNodeID consumerGroup) priorParam with
                  | None => m
                  | Some requirement =>
                    <[e_TargetNodeID edge := append_unique (getl m (e_TargetNodeID edge)) requirement]> m
                  end) (en_requirementsByPromptNode env) (getl priorReferencesByEdge (e_ID edge)) |}
    end
  end.

Definition empty_environment : environment :=
  {| en_inputBindingsByEdge := ∅; en_outputFieldsByGroup := ∅; en_requirementsByPromptNode := ∅ |}.

Section environment.
Context `{RangeOrder}.

(** The requirements of one node: those of the prompts it can reach whose
    provider is certain to have run before it. *)
Definition node_requirements (ix : wiring_index) (startNodeID : NodeID) (env : environment)
    (nodeID : NodeID) : list PriorTransitionParameterRequirement :=
  foldl (λ requirements reachableNodeID,
    foldl (λ requirements requirement,
      if negb (transitionGroupDominates startNodeID (dr_providerTransitionGroupID requirement) nodeID (wi_outgoing ix))
      then requirements
      else append_unique requirements (dr_value requirement))
      requirements (getl (en_requirementsByPromptNode env) reachableNodeID))
    [] (range_set (reachableNodeIDs nodeID (wi_outgoing ix))).

Definition deriveCurrentNodeValueEnvironment (def : WorkflowDefinition) (ix : wiring_index) (joins : join_state)
    (required : gmap EdgeID (list OutputField))
    (priorReferencesByEdge : gmap EdgeID (list PromptPriorParameterReference))
    : environment * gmap NodeID (list PriorTransitionParameterRequirement) :=
  let start := singleStartNodeID (d_Nodes def) in
  let env := foldl (environment_edge def ix joins required start priorReferencesByEdge) empty_environment (d_Edges def) in
  (env, map_imap (λ nodeID _, Some (node_requirements ix start.1 env nodeID)) (wi_nodesByID ix)).

(** ** The whole derivation *)
Record DerivedWiring := {
  Diagnostics : list ValidationError;
  dw_inputBindingsByEdge : gmap EdgeID (list InputBinding);
  dw_requiredProvisionFieldsByEdge : gmap EdgeID (list OutputField);
  dw_requiredProvisionFieldsByGroup : gmap TransitionGroupID (list OutputField);
  dw_possibleProvisionFieldsByNode : gmap NodeID (list OutputField);
  dw_requiredProviderFieldsByJoinEdge : gmap EdgeID (list OutputField);
  dw_joinOutputFieldsByNode : gmap NodeID (list OutputField);
  dw_parameterDependencyEdgesByEdge : gmap EdgeID (list EdgeID);
  dw_currentNodeInputBindingsByEdge : gmap EdgeID (list InputBinding);
  dw_currentNodeOutputFieldsByGroup : gmap TransitionGroupID (list OutputField);
  dw_priorParameterRequirementsByNode : gmap NodeID (list PriorTransitionParameterRequirement);
  dw_selectorApplicabilityByEdge : gmap EdgeID EdgeSelectorApplicability }.

Definition deriveWiring (def : WorkflowDefinition) (catalog : option TargetAgentCatalog)
    (priorReferencesByEdge : gmap EdgeID (list PromptPriorParameterReference)) : DerivedWiring :=
  let ix := wiring_index_of def in
  let '(prov, d1) := derive_provision catalog def ix in
  let '(joins, d2) := derive_joins catalog def ix in
  let '(env, prior) := deriveCurrentNodeValueEnvironment def ix joins (pv_requiredByEdge prov) priorReferencesByEdge in
  {| Diagnostics := (d1 ++ d2)%list;
     dw_inputBindingsByEdge := pv_inputBindingsByEdge prov;
     dw_requiredProvisionFieldsByEdge := pv_requiredByEdge prov;
     dw_requiredProvisionFieldsByGroup := pv_requiredByGroup prov;
     dw_possibleProvisionFieldsByNode := pv_possibleByNode prov;
     dw_requiredProviderFieldsByJoinEdge := joins.1;
     dw_joinOutputFieldsByNode := joins.2;
     dw_parameterDependencyEdgesByEdge := deriveParameterDependencies ix joins (own_dependencies (d_Edges def));
     dw_currentNodeInputBindingsByEdge := en_inputBindingsByEdge env;
     dw_currentNodeOutputFieldsByGroup := en_outputFieldsByGroup env;
     dw_priorParameterRequirementsByNode := prior;
     dw_selectorApplicabilityByEdge := derive_selectors catalog def ix |}.

(** The prior-parameter references of every edge; [None] is the panic of a
    reference extraction. *)
Definition prior_references (extract : string → option (result string PromptTemplateReferences))
    (edges : list Edge) : option (gmap EdgeID (list PromptPriorParameterReference)) :=
  foldl (λ acc edge,
    m ← acc; outcome ← extract (e_PromptTemplate edge);
    Some match outcome with
         | Err _ => m
         | Ok refs => <[e_ID edge := PriorParams refs]> m
         end) (Some ∅) edges.

Definition DeriveWiringWithCatalog (extract : string → option (result string PromptTemplateReferences))
    (def : WorkflowDefinition) (catalog : option TargetAgentCatalog) : option DerivedWiring :=
  deriveWiring def catalog <$> prior_references extract (d_Edges def).

Definition DeriveWiring (extract : string → option (result string PromptTemplateReferences))
    (def : WorkflowDefinition) : option DerivedWiring :=
  deriveWiring def None <$> prior_references extract (d_Edges def).

Definition TransitionOutputFieldsForEdge (w : DerivedWiring) (edge : Edge) (source : Node) : list OutputField :=
  transition_output_fields (dw_requiredProviderFieldsByJoinEdge w, dw_joinOutputFieldsByNode w)
    (dw_requiredProvisionFieldsByEdge w) edge source.

Definition TransitionOutputFieldsForTargetNode (def : WorkflowDefinition) (derived : DerivedWiring)
    (targetNodeID : NodeID) : list OutputField :=
  let nodesByID := index_nodes (d_Nodes def) in
  let groupsByID := index_groups (d_TransitionGroups def) in
  foldl (λ fields edge,
    if e_TargetNodeID edge <>? targetNodeID then fields
    else match groupsByID !! e_TransitionGroupID edge with
    | None => fields
    | Some group =>
      match nodesByID !! tg_SourceNodeID group with
      | None => fields
      | Some source => appendUniqueOutputFields fields (TransitionOutputFieldsForEdge derived edge source)
      end
    end) [] (d_Edges def).
End environment.
