(* ===== verification/WiringFacts.v ===== *)
(** * Facts about derived wiring

    Merging output fields, the fold over a definition's edges, and the
    contents of each derived map. *)
From Stdlib Require Import NArith String.
From stdpp Require Import gmap strings list.
From S2P Require Import Prelude GoStrings Types Selection Reach Fanout PromptRefs Wiring.

Local Open Scope string_scope.

(** ** Merged fields *)

(** A field as the merge stores it. *)
Definition norm_field (f : OutputField) : OutputField :=
  {| of_Name := TrimSpace (of_Name f); of_Description := TrimSpace (of_Description f) |}.
Definition named (f : OutputField) : Prop := TrimSpace (of_Name f) ≠ "".

(** Merged lists: normal fields, one per name. *)
Record merged (l : list OutputField) : Prop := {
  merged_norm f : f ∈ l → norm_field f = f ∧ of_Name f ≠ "";
  merged_nodup : NoDup (of_Name <$> l) }.

Lemma merged_nil : merged [].
Proof. split; [by intros ? ?%elem_of_nil|constructor]. Qed.
#[export] Hint Resolve merged_nil : kent.

Lemma norm_field_idemp f : norm_field (norm_field f) = norm_field f.
Proof. unfold norm_field. simpl. by rewrite !TrimSpace_idemp. Qed.

Lemma merged_name_eq l f g : merged l → f ∈ l → g ∈ l → of_Name f = of_Name g → f = g.
Proof.
  intros [_ Hnd] [i Hi]%list_elem_of_lookup [j Hj]%list_elem_of_lookup Hn.
  assert (i = j) as ->; [|congruence].
  apply (NoDup_lookup _ i j (of_Name f) Hnd); rewrite list_lookup_fmap, ?Hi, ?Hj; simpl; congruence.
Qed.

Lemma merged_snoc l f :
  merged l → named f → TrimSpace (of_Name f) ∉ of_Name <$> l → merged (l ++ [norm_field f])%list.
Proof.
  intros [H1 H2] Hn Hf. split.
  - intros g [?| ->%list_elem_of_singleton]%elem_of_app; [by auto|]. split; [apply norm_field_idemp|done].
  - rewrite fmap_app. apply NoDup_app. split; [done|]. split; [|apply NoDup_singleton].
    intros x Hx ->%list_elem_of_singleton. done.
Qed.

(** The position map of a merged list finds each name where it is. *)
Definition positions_of (l : list OutputField) (seen : gmap string nat) : Prop :=
  ∀ name i, seen !! name = Some i ↔ ∃ f, l !! i = Some f ∧ of_Name f = name.

Lemma field_positions_snoc l f :
  field_positions (l ++ [f])%list = <[TrimSpace (of_Name f) := length l]> (field_positions l).
Proof.
  unfold field_positions. rewrite imap_app. rewrite foldl_app. simpl. by rewrite Nat.add_0_r.
Qed.

Lemma positions_insert l seen f :
  positions_of l seen → of_Name f ∉ of_Name <$> l →
  positions_of (l ++ [f])%list (<[of_Name f := length l]> seen).
Proof.
  intros Hs Hf name i. unfold positions_of in Hs. rewrite lookup_insert_Some, Hs. split.
  - intros [[<- <-]|[Hne (g & Hg & <-)]].
    + exists f. by rewrite list_lookup_middle.
    + exists g. split; [|done]. by apply lookup_app_l_Some.
  - intros (g & [Hg|[Hle Hg]]%lookup_app_Some & <-).
    + right. split; [|eauto]. intros Heq. apply Hf. rewrite Heq. apply list_elem_of_fmap.
      exists g. split; [done|]. by eapply list_elem_of_lookup_2.
    + left. apply list_lookup_singleton_Some in Hg as [Hi ->]. split; [done|]. lia.
Qed.

Lemma field_positions_merged l : merged l → positions_of l (field_positions l).
Proof.
  induction l as [|f l IH] using rev_ind; intros [H1 H2].
  { intros name i. unfold field_positions. simpl. rewrite lookup_empty. naive_solver. }
  rewrite field_positions_snoc. destruct (H1 f) as [Hn _]; [set_solver|].
  assert (TrimSpace (of_Name f) = of_Name f) as -> by (rewrite <- Hn at 2; done).
  rewrite fmap_app in H2. apply NoDup_app in H2 as (H2 & H3 & _).
  apply positions_insert; [|intros Hin; by apply (H3 _ Hin); left].
  apply IH. split; [|done]. intros g Hg. apply H1. set_solver.
Qed.

Lemma positions_None l seen name :
  positions_of l seen → seen !! name = None ↔ name ∉ of_Name <$> l.
Proof.
  intros Hs. rewrite list_elem_of_fmap. split.
  - intros Hnone (f & -> & [i Hi]%list_elem_of_lookup).
    assert (seen !! of_Name f = Some i) by (apply Hs; eauto). congruence.
  - intros Hno. destruct (seen !! name) as [i|] eqn:E; [|done]. apply Hs in E as (f & Hf & <-).
    exfalso. apply Hno. exists f. split; [done|]. by eapply list_elem_of_lookup_2.
Qed.

(** What one addition does to a merged list and its positions. *)
Lemma append_unique_field_cases out seen a :
  positions_of out seen →
  (append_unique_field (out, seen) a = (out, seen) ∧ (named a → TrimSpace (of_Name a) ∈ of_Name <$> out)) ∨
  (append_unique_field (out, seen) a =
     ((out ++ [norm_field a])%list, <[TrimSpace (of_Name a) := length out]> seen) ∧
   named a ∧ TrimSpace (of_Name a) ∉ of_Name <$> out).
Proof.
  intros Hpos. unfold append_unique_field, named. case_bool_decide as Ha; [by left|].
  destruct (seen !! TrimSpace (of_Name a)) as [i|] eqn:E.
  - left. split; [done|]. intros _. apply Hpos in E as (f & Hf & <-). apply list_elem_of_fmap.
    exists f. split; [done|]. by eapply list_elem_of_lookup_2.
  - right. split_and!; [done..|]. by eapply positions_None.
Qed.

Lemma fold_append_unique additions out seen :
  merged out → positions_of out seen →
  let out' := (foldl append_unique_field (out, seen) additions).1 in
  merged out' ∧ out `prefix_of` out' ∧
  (∀ f, f ∈ out' → f ∈ out ∨ ∃ g, g ∈ additions ∧ named g ∧ f = norm_field g) ∧
  (∀ g, g ∈ additions → named g → TrimSpace (of_Name g) ∈ of_Name <$> out').
Proof.
  cbv zeta. revert out seen. induction additions as [|a additions IH]; intros out seen Hm Hpos; cbn [foldl].
  { split_and!; auto. by intros ? ?%elem_of_nil. }
  destruct (append_unique_field_cases out seen a Hpos) as [[-> Hin]|(-> & Hn & Hnin)].
  - destruct (IH out seen Hm Hpos) as (H1 & H2 & H3 & H4). split_and!; try done.
    + intros f Hf. destruct (H3 f Hf) as [?|(g & ? & ?)]; [by left|right; exists g; set_solver].
    + intros g [->|Hg]%elem_of_cons Hn; [|by apply H4]. destruct H2 as [k ->]. rewrite fmap_app. set_solver.
  - destruct (IH (out ++ [norm_field a])%list (<[TrimSpace (of_Name a) := length out]> seen)) as (H1 & H2 & H3 & H4).
    + by apply merged_snoc.
    + by apply (positions_insert out seen (norm_field a)).
    + split_and!; try done.
      * etrans; [|exact H2]. by eexists.
      * intros f Hf. destruct (H3 f Hf) as [Hin|(g & ? & ?)]; [|right; exists g; set_solver].
        apply elem_of_app in Hin as [?| ->%list_elem_of_singleton]; [by left|]. right. exists a. set_solver.
      * intros g [->|Hg]%elem_of_cons Hn'; [|by apply H4]. destruct H2 as [k ->].
        rewrite !fmap_app. simpl. set_solver.
Qed.

(** [appendUniqueOutputFields] keeps the first field of each name. *)
Lemma appendUnique_spec existing additions :
  merged existing →
  let out := appendUniqueOutputFields existing additions in
  merged out ∧ existing `prefix_of` out ∧
  (∀ f, f ∈ out → f ∈ existing ∨ ∃ g, g ∈ additions ∧ named g ∧ f = norm_field g) ∧
  (∀ g, g ∈ additions → named g → TrimSpace (of_Name g) ∈ of_Name <$> out).
Proof. intros Hm. apply fold_append_unique; [done|]. by apply field_positions_merged. Qed.

(** The compatible merge stores what the unique merge stores. *)
Lemma append_compatible_fst ref s a : (append_compatible ref s a).1 = append_unique_field s a.
Proof.
  destruct s as [out seen]. unfold append_compatible, append_unique_field.
  case_bool_decide; [done|]. by destruct (seen !! TrimSpace (of_Name a)).
Qed.
Lemma appendCompatible_fst existing additions ref :
  (appendCompatibleOutputFields existing additions ref).1 = appendUniqueOutputFields existing additions.
Proof.
  unfold appendCompatibleOutputFields, appendUniqueOutputFields.
  assert (∀ s, (fold_emit (append_compatible ref) s additions).1 = foldl append_unique_field s additions) as Hf.
  { intros s. rewrite fold_emit_fst. revert s. induction additions as [|a l IH]; intros s; simpl; [done|].
    by rewrite append_compatible_fst, IH. }
  rewrite <- Hf. by destruct (fold_emit _ _ _) as [[out seen] ds].
Qed.

(** It is silent about an addition exactly when that addition, normalised, is
    stored. *)
Lemma append_compatible_silent ref out seen a :
  merged out → positions_of out seen →
  (append_compatible ref (out, seen) a).2 = [] ↔
    (named a → norm_field a ∈ (append_unique_field (out, seen) a).1).
Proof.
  intros Hm Hpos. unfold append_compatible, append_unique_field, named.
  case_bool_decide as Ha; [naive_solver|].
  destruct (seen !! TrimSpace (of_Name a)) as [i|] eqn:E; cbn [fst snd].
  - apply Hpos in E as (f & Hf & Hn). rewrite Hf. cbn [fmap option_fmap option_map default from_option id].
    assert (f ∈ out) as Hin by by eapply list_elem_of_lookup_2.
    destruct (merged_norm _ Hm f Hin) as [Hfn _].
    assert (TrimSpace (of_Description f) = of_Description f) as -> by (rewrite <- Hfn at 2; done).
    case_bool_decide as Hd; cbn [negb].
    + split; [|done]. intros _ _. assert (norm_field a = f) as ->; [|done].
      unfold norm_field. rewrite <- Hn, <- Hd. by destruct f.
    + split; [done|]. intros Hx. specialize (Hx Ha).
      exfalso. apply Hd. assert (f = norm_field a) as ->; [|done].
      by apply (merged_name_eq out).
  - split; [|done]. intros _ _. apply elem_of_app. right. left.
Qed.

Lemma fold_compatible_silent ref additions out seen :
  merged out → positions_of out seen →
  (fold_emit (append_compatible ref) (out, seen) additions).2 = [] ↔
    ∀ g, g ∈ additions → named g → norm_field g ∈ (foldl append_unique_field (out, seen) additions).1.
Proof.
  revert out seen. induction additions as [|a additions IH]; intros out seen Hm Hpos; cbn [fold_emit foldl].
  { set_solver. }
  pose proof (append_compatible_silent ref out seen a Hm Hpos) as Hs.
  pose proof (append_compatible_fst ref (out, seen) a) as Hfst.
  assert (∃ out1 seen1, append_unique_field (out, seen) a = (out1, seen1) ∧ merged out1 ∧ positions_of out1 seen1 ∧
    (named a → TrimSpace (of_Name a) ∈ of_Name <$> out1)) as (out1 & seen1 & Heq & Hm1 & Hpos1 & Hin1).
  { destruct (append_unique_field_cases out seen a Hpos) as [[-> Hin]|(-> & Hn & Hnin)]; do 2 eexists.
    - split_and!; [done..|]. done.
    - split_and!; [done|by apply merged_snoc|by apply (positions_insert out seen (norm_field a))|].
      intros _. rewrite fmap_app. simpl. set_solver. }
  rewrite Heq in Hs, Hfst |- *. destruct (append_compatible ref (out, seen) a) as [s1 d1]. simpl in Hfst, Hs. subst s1.
  specialize (IH out1 seen1 Hm1 Hpos1).
  pose proof (fold_append_unique additions out1 seen1 Hm1 Hpos1) as (Hm2 & Hpre & _).
  destruct (fold_emit _ (out1, seen1) additions) as [s2 d2]. simpl in *.
  assert (d1 ++ d2 = [] ↔ d1 = [] ∧ d2 = [])%list as ->.
  { split; [apply app_eq_nil|by intros [-> ->]]. }
  rewrite Hs, IH. split.
  - intros [Ha Hrest] g [->|Hg]%elem_of_cons Hn; [|by apply Hrest]. destruct Hpre as [k Hk]. rewrite Hk.
    apply elem_of_app. left. by apply Ha.
  - intros Hall. split; [|intros g Hg; apply Hall; by right]. intros Hn.
    specialize (Hin1 Hn). apply list_elem_of_fmap in Hin1 as (f & Hf & Hfin).
    assert (norm_field a = f) as ->; [|done].
    apply (merged_name_eq _ _ _ Hm2); [apply Hall; [left|done]| |done].
    destruct Hpre as [k Hk]. rewrite Hk. apply elem_of_app. by left.
Qed.

Lemma appendCompatible_silent existing additions ref :
  merged existing →
  (appendCompatibleOutputFields existing additions ref).2 = [] ↔
    ∀ g, g ∈ additions → named g → norm_field g ∈ appendUniqueOutputFields existing additions.
Proof.
  intros Hm. pose proof (fold_compatible_silent ref additions existing (field_positions existing) Hm
    (field_positions_merged _ Hm)) as Hs.
  unfold appendCompatibleOutputFields, appendUniqueOutputFields.
  by destruct (fold_emit _ _ _) as [[out seen] ds].
Qed.

(** ** Maps of merged fields

    [covers M C ds]: under each key [M] holds the merge of the contributions
    [C], and when no diagnostic [ds] was emitted it holds all of them. *)
Section covers.
Context {K : Type} `{Countable K}.

Record covers (M : gmap K (list OutputField)) (C : K → OutputField → Prop) (ds : list ValidationError) : Prop := {
  cov_merged k : merged (getl M k);
  cov_sound k f : f ∈ getl M k → ∃ g, C k g ∧ named g ∧ f = norm_field g;
  cov_names k g : C k g → named g → TrimSpace (of_Name g) ∈ of_Name <$> getl M k;
  cov_complete : ds = [] → ∀ k g, C k g → named g → norm_field g ∈ getl M k }.

Lemma covers_empty ds : covers ∅ (λ _ _, False) ds.
Proof.
  split; try done.
  - intros k. rewrite getl_empty. apply merged_nil.
  - intros k f. rewrite getl_empty. by intros ?%elem_of_nil.
Qed.

Lemma covers_ext M C C' ds ds' :
  covers M C ds → (∀ k g, C k g ↔ C' k g) → (ds' = [] → ds = []) → covers M C' ds'.
Proof.
  intros [H1 H2 H3 H4] HC Hds. split; try done.
  - intros k f (g & ? & ? & ?)%H2. exists g. split_and!; [by apply HC|done..].
  - intros k g ?%HC. by apply H3.
  - intros ? k g ?%HC. by apply H4; [apply Hds|].
Qed.

Lemma getl_insert_eq (M : gmap K (list OutputField)) k v : getl (<[k := v]> M) k = v.
Proof. unfold getl. by rewrite lookup_insert_eq. Qed.
Lemma getl_insert_ne (M : gmap K (list OutputField)) k k' v : k ≠ k' → getl (<[k := v]> M) k' = getl M k'.
Proof. intros. unfold getl. by rewrite lookup_insert_ne. Qed.

Lemma covers_merge M C ds k fields ref :
  covers M C ds →
  covers (<[k := (appendCompatibleOutputFields (getl M k) fields ref).1]> M)
    (λ k' g, C k' g ∨ (k' = k ∧ g ∈ fields))
    (ds ++ (appendCompatibleOutputFields (getl M k) fields ref).2)%list.
Proof.
  intros [H1 H2 H3 H4]. rewrite appendCompatible_fst.
  destruct (appendUnique_spec (getl M k) fields (H1 k)) as (Hm & Hpre & Hfrom & Hnames).
  split.
  - intros k'. destruct (decide (k = k')) as [<-|Hne]; [by rewrite getl_insert_eq|by rewrite getl_insert_ne].
  - intros k' f. destruct (decide (k = k')) as [<-|Hne].
    + rewrite getl_insert_eq. intros [(g & ? & ? & ?)%H2|(g & ? & ? & ?)]%Hfrom; exists g; auto.
    + rewrite getl_insert_ne by done. intros (g & ? & ? & ?)%H2. exists g. auto.
  - intros k' g HC Hn. destruct (decide (k = k')) as [<-|Hne].
    + rewrite getl_insert_eq. destruct HC as [HC|[_ HC]]; [|by apply Hnames].
      apply H3 in HC; [|done]. destruct Hpre as [l ->]. rewrite fmap_app, elem_of_app. by left.
    + rewrite getl_insert_ne by done. destruct HC as [HC|[? _]]; [by apply H3|congruence].
  - intros [-> Hd]%app_eq_nil k' g HC Hn. destruct (decide (k = k')) as [<-|Hne].
    + rewrite getl_insert_eq. destruct HC as [HC|[_ HC]].
      * destruct Hpre as [l ->]. apply elem_of_app. left. by apply H4.
      * by eapply (appendCompatible_silent _ _ ref).
    + rewrite getl_insert_ne by done. destruct HC as [HC|[? _]]; [by apply H4|congruence].
Qed.
End covers.

(** ** Provision *)
Section provision.
Context (catalog : option TargetAgentCatalog) (def : WorkflowDefinition) (ix : wiring_index).

(** What an edge contributes: the required fields of an agent's or script's
    outgoing edge. *)
Definition provides (edge : Edge) (source : Node) (field : OutputField) : Prop :=
  edge_source ix edge = Some source ∧ Kind source ≠ NodeKindStart ∧ Kind source ≠ NodeKindJoin ∧
  field ∈ required_fields catalog def ix source edge.

Record provision_covers (edges : list Edge) (w : provision) (ds : list ValidationError) : Prop := {
  pc_edge : covers (pv_requiredByEdge w)
    (λ id g, ∃ e s, e ∈ edges ∧ e_ID e = id ∧ provides e s g) ds;
  pc_group : covers (pv_requiredByGroup w)
    (λ id g, ∃ e s, e ∈ edges ∧ e_TransitionGroupID e = id ∧ provides e s g) ds;
  pc_node : covers (pv_possibleByNode w)
    (λ id g, ∃ e s, e ∈ edges ∧ (tg_SourceNodeID <$> wi_groupsByID ix !! e_TransitionGroupID e = Some id) ∧
                    provides e s g) ds }.

(** An edge without contribution changes nothing; another merges its fields
    into the three maps. *)
Lemma derive_provision_edge_cases w e :
  ((∀ s g, ¬ provides e s g) ∧ derive_provision_edge catalog def ix w e = (w, [])) ∨
  ∃ gr source fields r1 r2 r3,
    wi_groupsByID ix !! e_TransitionGroupID e = Some gr ∧
    (∀ s g, provides e s g ↔ s = source ∧ g ∈ fields) ∧
    let m1 := appendCompatibleOutputFields (getl (pv_requiredByEdge w) (e_ID e)) fields r1 in
    let m2 := appendCompatibleOutputFields (getl (pv_requiredByGroup w) (e_TransitionGroupID e)) fields r2 in
    let m3 := appendCompatibleOutputFields (getl (pv_possibleByNode w) (tg_SourceNodeID gr)) fields r3 in
    derive_provision_edge catalog def ix w e =
      ({| pv_inputBindingsByEdge := <[e_ID e := inputBindingsForFields fields]> (pv_inputBindingsByEdge w);
          pv_requiredByEdge := <[e_ID e := m1.1]> (pv_requiredByEdge w);
          pv_requiredByGroup := <[e_TransitionGroupID e := m2.1]> (pv_requiredByGroup w);
          pv_possibleByNode := <[tg_SourceNodeID gr := m3.1]> (pv_possibleByNode w) |},
       ((m1.2 ++ m2.2) ++ m3.2)%list).
Proof.
  unfold derive_provision_edge, provides, edge_source.
  destruct (wi_groupsByID ix !! e_TransitionGroupID e) as [gr|] eqn:Egr; simpl; [|left; split; [|done]; by intros s g [? _]].
  destruct (wi_nodesByID ix !! tg_SourceNodeID gr) as [source|] eqn:Es; [|left; split; [|done]; by intros s g [? _]].
  destruct (_ || _) eqn:Ek.
  { left. split; [|done]. intros s g ([= <-] & ? & ? & _). apply orb_true_iff in Ek as [?|?]; by bool_simp. }
  bool_simp. case_bool_decide as Hlen.
  { left. split; [|done]. intros s g ([= <-] & _ & _ & Hin). apply length_zero_iff_nil in Hlen.
    rewrite Hlen in Hin. by apply elem_of_nil in Hin. }
  right. exists gr, source, (required_fields catalog def ix source e). do 3 eexists. split; [done|]. split.
  { intros s g. split; [by intros ([= <-] & _ & _ & ?)|]. by intros [-> ?]. }
  cbv zeta. unfold addRequiredProvisionFields, addPossibleProvisionFields, set_inputBindings.
  cbn [pv_requiredByEdge pv_requiredByGroup pv_possibleByNode pv_inputBindingsByEdge].
  destruct (appendCompatibleOutputFields (getl (pv_requiredByEdge w) _) _ _) as [m1 d1] eqn:E1.
  destruct (appendCompatibleOutputFields (getl (pv_requiredByGroup w) _) _ _) as [m2 d2] eqn:E2.
  cbn [pv_requiredByEdge pv_requiredByGroup pv_possibleByNode pv_inputBindingsByEdge].
  destruct (appendCompatibleOutputFields (getl (pv_possibleByNode w) _) _ _) as [m3 d3] eqn:E3.
  rewrite E1, E2, E3. reflexivity.
Qed.

(** Extending the edges of a contribution by one edge. *)
Lemma provides_snoc (P : Edge → Prop) edges e g :
  (∃ e' s, e' ∈ (edges ++ [e])%list ∧ P e' ∧ provides e' s g) ↔
  (∃ e' s, e' ∈ edges ∧ P e' ∧ provides e' s g) ∨ (P e ∧ ∃ s, provides e s g).
Proof.
  setoid_rewrite elem_of_app. setoid_rewrite list_elem_of_singleton. split.
  - intros (e' & s & [?| ->] & ? & ?); eauto 10.
  - intros [(e' & s & ? & ? & ?)|[? [s ?]]]; eauto 10.
Qed.

Lemma provision_covers_step edges w ds e :
  provision_covers edges w ds →
  provision_covers (edges ++ [e])%list (derive_provision_edge catalog def ix w e).1
    (ds ++ (derive_provision_edge catalog def ix w e).2)%list.
Proof.
  intros [He Hg Hn].
  destruct (derive_provision_edge_cases w e) as [[Hno ->]|(gr & source & fields & r1 & r2 & r3 & Hgr & Hiff & ->)];
    simpl.
  - rewrite app_nil_r. split.
    + eapply covers_ext; [exact He| |done]. intros k g. rewrite (provides_snoc (λ e, e_ID e = k)).
      split; [by left|]. intros [?|(_ & s & Hp)]; [done|by destruct (Hno s g)].
    + eapply covers_ext; [exact Hg| |done]. intros k g. rewrite (provides_snoc (λ e, e_TransitionGroupID e = k)).
      split; [by left|]. intros [?|(_ & s & Hp)]; [done|by destruct (Hno s g)].
    + eapply covers_ext; [exact Hn| |done]. intros k g.
      rewrite (provides_snoc (λ e, tg_SourceNodeID <$> wi_groupsByID ix !! e_TransitionGroupID e = Some k)).
      split; [by left|]. intros [?|(_ & s & Hp)]; [done|by destruct (Hno s g)].
  - apply (covers_merge _ _ _ (e_ID e) fields r1) in He.
    apply (covers_merge _ _ _ (e_TransitionGroupID e) fields r2) in Hg.
    apply (covers_merge _ _ _ (tg_SourceNodeID gr) fields r3) in Hn.
    assert (∀ g, (∃ s, provides e s g) ↔ g ∈ fields) as Hf.
    { intros g. setoid_rewrite Hiff. split; [by intros (s & _ & ?)|intros ?; by exists source]. }
    assert (∀ a b c d : list ValidationError, (a ++ (b ++ c) ++ d)%list = [] → (a ++ b = [] ∧ a ++ c = [] ∧ a ++ d = [])%list) as Hnil.
    { intros a b c d Hx. apply app_eq_nil in Hx as [-> Hx]. apply app_eq_nil in Hx as [Hx ->].
      by apply app_eq_nil in Hx as [-> ->]. }
    split; cbn [pv_requiredByEdge pv_requiredByGroup pv_possibleByNode].
    + eapply covers_ext; [exact He| |by intros (?&?&?)%Hnil]. intros k g. rewrite (provides_snoc (λ e, e_ID e = k)), Hf.
      split; (intros [?|[<- ?]]; [by left|by right]).
    + eapply covers_ext; [exact Hg| |by intros (?&?&?)%Hnil]. intros k g.
      rewrite (provides_snoc (λ e, e_TransitionGroupID e = k)), Hf. split; (intros [?|[<- ?]]; [by left|by right]).
    + eapply covers_ext; [exact Hn| |by intros (?&?&?)%Hnil]. intros k g.
      rewrite (provides_snoc (λ e, tg_SourceNodeID <$> wi_groupsByID ix !! e_TransitionGroupID e = Some k)), Hf, Hgr.
      split; [intros [?|[-> ?]]|intros [?|[[= <-] ?]]]; (by left) || (by right).
Qed.

Lemma derive_provision_covers :
  provision_covers (d_Edges def) (derive_provision catalog def ix).1 (derive_provision catalog def ix).2.
Proof.
  unfold derive_provision. induction (d_Edges def) as [|e edges IH] using rev_ind.
  { split; simpl; (eapply covers_ext; [apply covers_empty|set_solver|done]). }
  rewrite fold_emit_app. destruct (fold_emit _ _ edges) as [w ds]. simpl.
  pose proof (provision_covers_step edges w ds e IH) as Hstep.
  destruct (derive_provision_edge catalog def ix w e) as [w' d]. simpl in *. by rewrite app_nil_r.
Qed.
End provision.

(** ** Join aggregates *)
Section joins.
Context (catalog : option TargetAgentCatalog) (ix : wiring_index).

Lemma join_scan_spec join edges providers ds :
  let '(scan, d) := fold_emit (join_scan_edge catalog ix join)
    {| js_providers := providers; js_groupFields := ∅; js_groupOrder := [] |} edges in
  covers (js_groupFields scan)
    (λ k g, ∃ e, e ∈ edges ∧ e_TransitionGroupID e = k ∧ g ∈ join_edge_fields catalog ix join e) (ds ++ d)%list ∧
  ∀ k, k ∈ js_groupOrder scan ↔
    ∃ e, e ∈ edges ∧ e_TransitionGroupID e = k ∧ join_edge_fields catalog ix join e ≠ [].
Proof.
  induction edges as [|e edges IH] using rev_ind; simpl.
  { split; [eapply covers_ext; [apply covers_empty|set_solver|done]|set_solver]. }
  rewrite fold_emit_app. destruct (fold_emit _ _ edges) as [scan d]. destruct IH as [IH1 IH2]. simpl.
  unfold join_scan_edge. set (fields := join_edge_fields catalog ix join e). cbv zeta.
  case_bool_decide as Hlen.
  { apply length_zero_iff_nil in Hlen. rewrite app_nil_r. split.
    - eapply covers_ext; [exact IH1| |done]. intros k g. setoid_rewrite elem_of_app.
      setoid_rewrite list_elem_of_singleton. split; [intros (e' & ? & ?); eauto|].
      intros (e' & [?| ->] & ? & Hg); [eauto|]. fold fields in Hg. rewrite Hlen in Hg. by apply elem_of_nil in Hg.
    - intros k. rewrite IH2. setoid_rewrite elem_of_app. setoid_rewrite list_elem_of_singleton.
      split; [intros (e' & ? & ?); eauto|]. intros (e' & [?| ->] & ? & Hg); [eauto|done]. }
  set (ref := setRefs _ _ _ _ _).
  pose proof (covers_merge _ _ _ (e_TransitionGroupID e) fields ref IH1) as Hc.
  destruct (appendCompatibleOutputFields (getl (js_providers scan) _) _ _) as [m1 d1].
  destruct (appendCompatibleOutputFields (getl (js_groupFields scan) _) _ _) as [m2 d2]. simpl in *.
  rewrite app_nil_r. split.
  - eapply covers_ext; [exact Hc| |].
    + intros k g. simpl. setoid_rewrite elem_of_app. setoid_rewrite list_elem_of_singleton. split.
      * intros [(e' & ? & ?)|[-> ?]]; eauto.
      * intros (e' & [?| ->] & <- & ?); eauto.
    + rewrite !app_assoc. intros [[[-> ->]%app_eq_nil ->]%app_eq_nil ->]%app_eq_nil. done.
  - intros k. rewrite elem_of_append_unique, IH2. setoid_rewrite elem_of_app. setoid_rewrite list_elem_of_singleton.
    split.
    + intros [(e' & ? & ?)| ->]; [eauto|]. exists e. split_and!; auto. fold fields. by intros ->.
    + intros (e' & [?| ->] & <- & ?); [left; eauto|by right].
Qed.

(** Aggregating pairs of a group and a field of that group in silence: every
    name has one owner, and the aggregate holds one field per name. *)
Lemma aggregate_silent join pairs :
  (∀ kf, kf ∈ pairs → norm_field kf.2 = kf.2 ∧ of_Name kf.2 ≠ "") →
  (fold_emit (λ s kf, aggregate_field join kf.1 s kf.2) (∅, []) pairs).2 = [] →
  let '(owner, agg) := (fold_emit (λ s kf, aggregate_field join kf.1 s kf.2) (∅, []) pairs).1 in
  (∀ name k, owner !! name = Some k ↔ ∃ f, (k, f) ∈ pairs ∧ of_Name f = name) ∧
  merged agg ∧ (∀ f, f ∈ agg → ∃ k, (k, f) ∈ pairs) ∧
  (∀ k f, (k, f) ∈ pairs → of_Name f ∈ of_Name <$> agg).
Proof.
  induction pairs as [|[k f] pairs IH] using rev_ind; intros Hn Hs.
  { simpl. split_and!; [|apply merged_nil|set_solver..]. intros name k. rewrite lookup_empty. set_solver. }
  apply fold_emit_snoc_silent in Hs as (Hs1 & Hs2 & ->).
  assert (∀ kf, kf ∈ pairs → norm_field kf.2 = kf.2 ∧ of_Name kf.2 ≠ "") as Hn' by (intros kf ?; apply Hn; set_solver).
  specialize (IH Hn' Hs1). destruct (fold_emit _ _ pairs).1 as [owner agg]. destruct IH as (IH1 & IH2 & IH3 & IH4).
  destruct (Hn (k, f)) as [Hf Hne]; [set_solver|]. simpl in Hf, Hne, Hs2 |- *.
  assert (TrimSpace (of_Name f) = of_Name f) as Ht by (rewrite <- Hf at 2; done).
  unfold aggregate_field in *. rewrite Ht in *. rewrite bool_decide_eq_false_2 in * by done.
  assert (owner !! of_Name f = None ∨ owner !! of_Name f = Some k) as Ho.
  { destruct (owner !! of_Name f) as [o|]; [|by left]. case_bool_decide; [subst; by right|done]. }
  assert (match owner !! of_Name f with Some owner => owner <>? k | None => false end = false) as ->.
  { destruct Ho as [-> | ->]; [done|]. by rewrite bool_decide_eq_true_2. }
  simpl. destruct (appendUnique_spec agg [f] IH2) as (Hm & Hpre & Hfrom & Hnames). split_and!.
  - intros name k'. rewrite lookup_insert_Some, IH1. setoid_rewrite elem_of_app. setoid_rewrite list_elem_of_singleton.
    split.
    + intros [[<- <-]|[_ (f' & ? & ?)]]; eauto.
    + intros (f' & [Hin|[= -> ->]] & <-); [|by left].
      destruct (decide (of_Name f = of_Name f')) as [Heq|]; [left|right; eauto]. split; [done|].
      assert (owner !! of_Name f' = Some k') as Hk by (apply IH1; eauto). rewrite Heq in Ho.
      destruct Ho as [Ho|Ho]; congruence.
  - done.
  - intros g [Hg|(g' & ->%list_elem_of_singleton & _ & ->)]%Hfrom.
    + destruct (IH3 g Hg) as [k' ?]. exists k'. set_solver.
    + exists k. rewrite Hf. set_solver.
  - intros k' f' [Hin|[= -> ->]%list_elem_of_singleton]%elem_of_app.
    + apply IH4 in Hin. destruct Hpre as [l ->]. rewrite fmap_app. set_solver.
    + rewrite <- Ht. apply Hnames; [set_solver|]. unfold named. by rewrite Ht.
Qed.

(** A join never consumes protected parameters: what an edge brings to it are
    its parameters that are not protected. *)
Definition reject_all : ProtectedParameterConsumption :=
  {| pc_Assignee := RejectUnknown; pc_Thinking := RejectUnknown |}.
Definition brought (edge : Edge) : list OutputField :=
  match edge_source ix edge with
  | Some _ => filterProtectedParameterFields edge (edgeParameterFields edge) reject_all
  | None => edgeParameterFields edge
  end.

Lemma join_edge_fields_brought join edge :
  Kind join = NodeKindJoin → join_edge_fields catalog ix join edge = brought edge.
Proof.
  intros Hk. unfold join_edge_fields, brought. destruct (edge_source ix edge) as [source|]; [|done].
  f_equal. unfold protectedParameterConsumptionForEdge, PlanTransitionProtectedParameterConsumption,
    ResolveProtectedParameterConsumption, eligible_topology.
  cbn [pcr_Edge pcr_FanOut pcr_SourceKind pcr_TargetKind cr_FanOut cr_SourceKind cr_TargetKind].
  rewrite Hk. rewrite (bool_decide_eq_false_2 (NodeKindJoin = NodeKindAgent)) by done.
  by rewrite !andb_false_r.
Qed.

(** The aggregate of a join whose derivation is silent. *)
Definition aggregates (edges : list Edge) (agg : list OutputField) : Prop :=
  merged agg ∧
  (∀ f, f ∈ agg ↔ ∃ e g, e ∈ edges ∧ g ∈ brought e ∧ named g ∧ f = norm_field g) ∧
  (∀ e1 e2 g1 g2, e1 ∈ edges → e2 ∈ edges → g1 ∈ brought e1 → g2 ∈ brought e2 → named g1 →
     TrimSpace (of_Name g1) = TrimSpace (of_Name g2) →
     e_TransitionGroupID e1 = e_TransitionGroupID e2 ∧
     TrimSpace (of_Description g1) = TrimSpace (of_Description g2)).

(** The pairs a silent scan hands to the aggregation. *)
Lemma scan_pairs join (edges : list Edge) scan :
  Kind join = NodeKindJoin →
  covers (js_groupFields scan)
    (λ k g, ∃ e, e ∈ edges ∧ e_TransitionGroupID e = k ∧ g ∈ join_edge_fields catalog ix join e) [] →
  (∀ k, k ∈ js_groupOrder scan ↔
    ∃ e, e ∈ edges ∧ e_TransitionGroupID e = k ∧ join_edge_fields catalog ix join e ≠ []) →
  ∀ k f, (k, f) ∈ (js_groupOrder scan ≫= λ k, pair k <$> getl (js_groupFields scan) k) ↔
    ∃ e g, e ∈ edges ∧ e_TransitionGroupID e = k ∧ g ∈ brought e ∧ named g ∧ f = norm_field g.
Proof.
  intros Hk Hcov Hord k f. rewrite list_elem_of_bind. setoid_rewrite list_elem_of_fmap.
  setoid_rewrite Hord. split.
  - intros (k' & (f' & [= <- <-] & Hf') & _). destruct (cov_sound _ _ _ Hcov _ _ Hf') as (g & (e & ? & ? & Hg) & ? & ?).
    rewrite join_edge_fields_brought in Hg by done. eauto 10.
  - intros (e & g & ? & <- & Hg & ? & ->). rewrite <- (join_edge_fields_brought join) in Hg by done.
    exists (e_TransitionGroupID e). split.
    + exists (norm_field g). split; [done|]. apply (cov_complete _ _ _ Hcov eq_refl); [eauto|done].
    + exists e. split_and!; [done..|]. intros Hnil. rewrite Hnil in Hg. by apply elem_of_nil in Hg.
Qed.

Lemma join_silent s join :
  Kind join = NodeKindJoin →
  (deriveJoinAggregateParameters catalog ix s join).2 = [] →
  ∃ agg, (deriveJoinAggregateParameters catalog ix s join).1.2 = <[NodeIDOf join := agg]> s.2 ∧
    aggregates (getl (wi_incoming ix) (NodeIDOf join)) agg.
Proof.
  intros Hk. destruct s as [providers outputs]. unfold deriveJoinAggregateParameters.
  set (edges := getl (wi_incoming ix) (NodeIDOf join)).
  pose proof (join_scan_spec join edges providers []) as Hscan.
  destruct (fold_emit (join_scan_edge catalog ix join) _ edges) as [scan d1]. destruct Hscan as [Hcov Hord].
  unfold join_aggregate. rewrite fold_emit_nested.
  set (pairs := js_groupOrder scan ≫= λ k, pair k <$> getl (js_groupFields scan) k).
  pose proof (aggregate_silent join pairs) as Hagg.
  destruct (fold_emit (λ s kf, aggregate_field join kf.1 s kf.2) (∅, []) pairs) as [[owner agg] d2]. simpl.
  intros [-> ->]%app_eq_nil. exists agg. split; [done|].
  pose proof (scan_pairs join edges scan Hk Hcov Hord) as Hpairs. fold pairs in Hpairs.
  destruct Hagg as (Ho & Hm & Hfrom & Hnames).
  { intros [k f] (e & g & ? & ? & ? & Hn & ->)%Hpairs. simpl. split; [apply norm_field_idemp|done]. }
  { done. }
  assert (∀ k1 k2 f1 f2, (k1, f1) ∈ pairs → (k2, f2) ∈ pairs → of_Name f1 = of_Name f2 → k1 = k2 ∧ f1 = f2) as Huniq.
  { intros k1 k2 f1 f2 H1 H2 Hn. assert (k1 = k2) as ->.
    { assert (owner !! of_Name f1 = Some k1) by (apply Ho; eauto).
      assert (owner !! of_Name f1 = Some k2) by (apply Ho; eauto). congruence. }
    split; [done|]. unfold pairs in H1, H2. rewrite list_elem_of_bind in H1, H2.
    destruct H1 as (? & (? & [= <- <-] & H1)%list_elem_of_fmap & _), H2 as (? & (? & [= <- <-] & H2)%list_elem_of_fmap & _).
    by apply (merged_name_eq _ _ _ (cov_merged _ _ _ Hcov k2)). }
  split; [done|]. split.
  - intros f. split.
    + intros (k & Hf)%Hfrom. apply Hpairs in Hf as (e & g & ? & _ & ? & ? & ?). eauto 10.
    + intros (e & g & He & Hg & Hn & ->).
      assert ((e_TransitionGroupID e, norm_field g) ∈ pairs) as Hin by (apply Hpairs; eauto 10).
      destruct (proj1 (list_elem_of_lookup _ _) (Hnames _ _ Hin)) as [j Hj]. rewrite list_lookup_fmap in Hj.
      destruct (agg !! j) as [f|] eqn:Ej; simplify_eq/=.
      assert (f ∈ agg) as Hfin by by eapply list_elem_of_lookup_2.
      destruct (Hfrom f Hfin) as [k Hk']. by destruct (Huniq _ _ _ _ Hin Hk') as [_ ->].
  - intros e1 e2 g1 g2 He1 He2 Hg1 Hg2 Hn1 Heq.
    destruct (Huniq (e_TransitionGroupID e1) (e_TransitionGroupID e2) (norm_field g1) (norm_field g2)) as [? Hg]; [..|done|].
    + apply Hpairs. exists e1, g1. done.
    + apply Hpairs. exists e2, g2. split_and!; try done. unfold named. by rewrite <- Heq.
    + split; [done|]. by injection Hg.
Qed.

Lemma derive_joins_silent def join :
  (derive_joins catalog def ix).2 = [] → join ∈ d_Nodes def → Kind join = NodeKindJoin →
  aggregates (getl (wi_incoming ix) (NodeIDOf join)) (getl (derive_joins catalog def ix).1.2 (NodeIDOf join)).
Proof.
  unfold derive_joins. induction (d_Nodes def) as [|node nodes IH] using rev_ind; intros Hs Hin Hk.
  { by apply elem_of_nil in Hin. }
  apply fold_emit_snoc_silent in Hs as (Hs1 & Hs2 & ->). specialize (IH Hs1).
  destruct (fold_emit _ _ nodes).1 as [providers outputs]. simpl in IH.
  destruct (decide (Kind node = NodeKindJoin)) as [Hn|Hn];
    [rewrite bool_decide_eq_true_2 in Hs2 |- * by done|rewrite bool_decide_eq_false_2 in Hs2 |- * by done].
  - destruct (join_silent (providers, outputs) node Hn Hs2) as (agg & -> & Hagg). cbn [snd].
    destruct (decide (NodeIDOf node = NodeIDOf join)) as [<-|Hne]; [by rewrite getl_insert_eq|].
    rewrite getl_insert_ne by done. apply elem_of_app in Hin as [?| ->%list_elem_of_singleton]; [auto|done].
  - apply elem_of_app in Hin as [?| ->%list_elem_of_singleton]; [auto|done].
Qed.
End joins.

(** ** Prior-parameter requirements *)
Section prior.
Context `{RangeOrder} (def : WorkflowDefinition) (ix : wiring_index) (joins : join_state).
Context (required : gmap EdgeID (list OutputField)) (start : NodeID * bool).
Context (refs : gmap EdgeID (list PromptPriorParameterReference)).

Lemma fold_requirements source (n target : NodeID) prs (m : gmap NodeID (list derivedPriorParameterRequirement)) d :
  d ∈ getl (foldl (λ m ref, match prior_requirement def ix start.1 source ref with
                            | None => m
                            | Some r => <[target := append_unique (getl m target) r]> m end) m prs) n ↔
  d ∈ getl m n ∨ (n = target ∧ ∃ ref, ref ∈ prs ∧ prior_requirement def ix start.1 source ref = Some d).
Proof.
  revert m. induction prs as [|p prs IH]; intros m; cbn [foldl]; [set_solver|].
  rewrite IH. clear IH. setoid_rewrite elem_of_cons.
  destruct (prior_requirement def ix start.1 source p) as [r|] eqn:E.
  - destruct (decide (target = n)) as [<-|Hne].
    + unfold getl at 1. rewrite lookup_insert_eq. cbn [default from_option id].
      rewrite elem_of_append_unique. split.
      * intros [[?| ->]|[_ (ref & ? & ?)]]; eauto 10.
      * intros [?|(_ & ref & [->|?] & ?)]; [auto| |eauto 10]. left. right. congruence.
    + unfold getl at 1. rewrite lookup_insert_ne by done. fold (getl m n).
      split; (intros [?|[? ?]]; [by left|congruence]).
  - split.
    + intros [?|(-> & ref & ? & ?)]; eauto 10.
    + intros [?|(-> & ref & [->|?] & ?)]; eauto 10. congruence.
Qed.

(** One edge of the loop. *)
Lemma environment_edge_requirements env e n d :
  d ∈ getl (en_requirementsByPromptNode (environment_edge def ix joins required start refs env e)) n ↔
  d ∈ getl (en_requirementsByPromptNode env) n ∨
  (start.2 = true ∧ e_TargetNodeID e = n ∧ is_Some (wi_nodesByID ix !! n) ∧
   ∃ gr ref, wi_groupsByID ix !! e_TransitionGroupID e = Some gr ∧ ref ∈ getl refs (e_ID e) ∧
     prior_requirement def ix start.1 (tg_SourceNodeID gr) ref = Some d).
Proof.
  unfold environment_edge.
  destruct (wi_nodesByID ix !! e_TargetNodeID e) as [node|] eqn:En.
  2: { split; [by left|]. intros [?|(_ & <- & [? ?] & _)]; [done|congruence]. }
  destruct (wi_groupsByID ix !! e_TransitionGroupID e) as [gr|].
  2: { split; [by left|]. intros [?|(_ & _ & _ & ? & ? & ? & _)]; done. }
  destruct start.2 eqn:Hst; cbn [negb].
  2: { destruct (wi_nodesByID ix !! tg_SourceNodeID gr); cbn [en_requirementsByPromptNode];
       (split; [by left|]; by intros [?|(? & _)]). }
  assert (en_requirementsByPromptNode (match wi_nodesByID ix !! tg_SourceNodeID gr with
    | None => env
    | Some source =>
      {| en_inputBindingsByEdge :=
           <[e_ID e := appendUniqueInputBindings (getl (en_inputBindingsByEdge env) (e_ID e))
                (inputBindingsForFields (transition_output_fields joins required e source))]> (en_inputBindingsByEdge env);
         en_outputFieldsByGroup :=
           foldl (λ m field, <[tg_ID gr := appendUniqueOutputFields (getl m (tg_ID gr)) [field]]> m)
             (en_outputFieldsByGroup env) (transition_output_fields joins required e source);
         en_requirementsByPromptNode := en_requirementsByPromptNode env |} end)
    = en_requirementsByPromptNode env) as Henv by by destruct (wi_nodesByID ix !! tg_SourceNodeID gr).
  cbn [en_requirementsByPromptNode]. rewrite Henv, fold_requirements. split.
  - intros [?|(-> & ref & ? & ?)]; [by left|]. right. split_and!; [done..|by eexists|]. eauto.
  - intros [?|(_ & <- & _ & gr' & ref & [= <-] & ? & ?)]; [by left|]. right. eauto.
Qed.

(** The requirements of prompts, as the edge loop collects them. *)
Lemma environment_requirements edges n d :
  d ∈ getl (en_requirementsByPromptNode
    (foldl (environment_edge def ix joins required start refs) empty_environment edges)) n ↔
  start.2 = true ∧ ∃ e gr ref, e ∈ edges ∧ e_TargetNodeID e = n ∧ is_Some (wi_nodesByID ix !! n) ∧
    wi_groupsByID ix !! e_TransitionGroupID e = Some gr ∧ ref ∈ getl refs (e_ID e) ∧
    prior_requirement def ix start.1 (tg_SourceNodeID gr) ref = Some d.
Proof.
  induction edges as [|e edges IH] using rev_ind.
  { simpl. rewrite getl_empty. split; [by intros ?%elem_of_nil|]. by intros (_ & ? & ? & ? & ?%elem_of_nil & _). }
  rewrite foldl_app. cbn [foldl]. rewrite environment_edge_requirements, IH.
  setoid_rewrite elem_of_app. setoid_rewrite list_elem_of_singleton. split.
  - intros [(Hs & e' & gr & ref & He & Hrest)|(Hs & Ht & Hn & gr & ref & Hg & Hr & Hp)].
    + split; [exact Hs|]. exists e', gr, ref. split; [by left|exact Hrest].
    + split; [exact Hs|]. exists e, gr, ref. split_and!; [by right|exact Ht|exact Hn|exact Hg|exact Hr|exact Hp].
  - intros (Hs & e' & gr & ref & [He| ->] & Ht & Hn & Hg & Hr & Hp).
    + left. split; [exact Hs|]. exists e', gr, ref. split_and!; [exact He|exact Ht|exact Hn|exact Hg|exact Hr|exact Hp].
    + right. split_and!; [exact Hs|exact Ht|exact Hn|]. exists gr, ref. split_and!; [exact Hg|exact Hr|exact Hp].
Qed.

(** The requirements of a node are duplicate-free, and are those of the
    prompts it can reach whose provider dominates it. *)
Lemma elem_of_node_requirements startNodeID env n r :
  r ∈ node_requirements ix startNodeID env n ↔
  ∃ m d, m ∈ reachableNodeIDs n (wi_outgoing ix) ∧ d ∈ getl (en_requirementsByPromptNode env) m ∧
    transitionGroupDominates startNodeID (dr_providerTransitionGroupID d) n (wi_outgoing ix) = true ∧ dr_value d = r.
Proof.
  unfold node_requirements. setoid_rewrite <- elem_of_range_set.
  assert (∀ ds acc, r ∈ foldl (λ requirements d,
      if negb (transitionGroupDominates startNodeID (dr_providerTransitionGroupID d) n (wi_outgoing ix))
      then requirements else append_unique requirements (dr_value d)) acc ds ↔
    r ∈ acc ∨ ∃ d, d ∈ ds ∧ transitionGroupDominates startNodeID (dr_providerTransitionGroupID d) n (wi_outgoing ix) = true
                   ∧ dr_value d = r) as Hinner.
  { induction ds as [|d ds IH]; intros acc; cbn [foldl]; [set_solver|]. rewrite IH. setoid_rewrite elem_of_cons.
    destruct (transitionGroupDominates _ _ _ _) eqn:E; cbn [negb]; [rewrite elem_of_append_unique|]; split.
    - intros [[?| ->]|(d' & ? & ? & ?)]; eauto 10.
    - intros [?|(d' & [->|?] & ? & ?)]; eauto 10.
    - intros [?|(d' & ? & ? & ?)]; eauto 10.
    - intros [?|(d' & [->|?] & ? & ?)]; eauto 10. congruence. }
  assert (∀ ms acc, r ∈ foldl (λ requirements m, foldl (λ requirements d,
      if negb (transitionGroupDominates startNodeID (dr_providerTransitionGroupID d) n (wi_outgoing ix))
      then requirements else append_unique requirements (dr_value d)) requirements
        (getl (en_requirementsByPromptNode env) m)) acc ms ↔
    r ∈ acc ∨ ∃ m d, m ∈ ms ∧ d ∈ getl (en_requirementsByPromptNode env) m ∧
      transitionGroupDominates startNodeID (dr_providerTransitionGroupID d) n (wi_outgoing ix) = true ∧ dr_value d = r) as Houter.
  { induction ms as [|m ms IH]; intros acc; cbn [foldl]; [set_solver|]. rewrite IH, Hinner.
    setoid_rewrite elem_of_cons. split.
    - intros [[?|(d & ? & ? & ?)]|(m' & d & ? & ? & ? & ?)]; eauto 12.
    - intros [?|(m' & d & [->|?] & ? & ? & ?)]; eauto 12. }
  rewrite Houter. set_solver.
Qed.

Lemma node_requirements_nodup startNodeID env n : NoDup (node_requirements ix startNodeID env n).
Proof.
  unfold node_requirements. apply foldl_inv; [constructor|]. intros acc m _ Hacc.
  apply foldl_inv; [done|]. intros acc' d _ Hacc'. case_if_goal; [done|by apply NoDup_append_unique].
Qed.
End prior.
