(* ===== verification/WiringClaims.v ===== *)
(** * What derived wiring guarantees

    Provision fields of transitions, join aggregates, parameter dependencies
    and prior-parameter requirements of a derived definition. *)
From Stdlib Require Import NArith String.
From stdpp Require Import gmap strings list.
From S2P Require Import Prelude GoStrings Types Samples Selection Reach Fanout PromptRefs Wiring WiringFacts.

Local Open Scope string_scope.

(** ** Parts of the derivation *)
Section parts.
Context `{RangeOrder} (def : WorkflowDefinition) (catalog : option TargetAgentCatalog).
Context (refs : gmap EdgeID (list PromptPriorParameterReference)).

Lemma deriveWiring_parts :
  let w := deriveWiring def catalog refs in
  let ix := wiring_index_of def in
  let prov := derive_provision catalog def ix in
  let joins := derive_joins catalog def ix in
  let env := deriveCurrentNodeValueEnvironment def ix joins.1 (pv_requiredByEdge prov.1) refs in
  Diagnostics w = (prov.2 ++ joins.2)%list ∧
  dw_requiredProvisionFieldsByEdge w = pv_requiredByEdge prov.1 ∧
  dw_requiredProvisionFieldsByGroup w = pv_requiredByGroup prov.1 ∧
  dw_possibleProvisionFieldsByNode w = pv_possibleByNode prov.1 ∧
  dw_requiredProviderFieldsByJoinEdge w = joins.1.1 ∧ dw_joinOutputFieldsByNode w = joins.1.2 ∧
  dw_priorParameterRequirementsByNode w = env.2 ∧
  dw_parameterDependencyEdgesByEdge w = deriveParameterDependencies ix joins.1 (own_dependencies (d_Edges def)).
Proof.
  cbv zeta. unfold deriveWiring.
  destruct (derive_provision _ _ _) as [prov d1], (derive_joins _ _ _) as [joins d2].
  by split_and!.
Qed.
End parts.

(** Provision fields: under each edge, transition group and source node
    the derived fields are trimmed, named, one per name, and come from the
    parameters of the edges concerned; and a derivation without diagnostics
    has lost none of them, so that any two edges leaving the same node agree
    on the description of a field they share. *)
Theorem provision_fields_correct (o : RangeOrder) def catalog refs :
  let w := deriveWiring def catalog refs in
  let ix := wiring_index_of def in
  (∀ g, merged (getl (dw_requiredProvisionFieldsByGroup w) g) ∧
     ∀ f, f ∈ getl (dw_requiredProvisionFieldsByGroup w) g → ∃ e s p, e ∈ d_Edges def ∧
       e_TransitionGroupID e = g ∧ provides catalog def ix e s p ∧ f = norm_field p) ∧
  (∀ e s p, e ∈ d_Edges def → provides catalog def ix e s p → named p →
     TrimSpace (of_Name p) ∈ of_Name <$> getl (dw_requiredProvisionFieldsByEdge w) (e_ID e) ∧
     (Diagnostics w = [] →
        norm_field p ∈ getl (dw_requiredProvisionFieldsByEdge w) (e_ID e) ∧
        norm_field p ∈ getl (dw_requiredProvisionFieldsByGroup w) (e_TransitionGroupID e) ∧
        ∀ e' s' p', e' ∈ d_Edges def → provides catalog def ix e' s' p' →
          tg_SourceNodeID <$> wi_groupsByID ix !! e_TransitionGroupID e' =
            tg_SourceNodeID <$> wi_groupsByID ix !! e_TransitionGroupID e →
          TrimSpace (of_Name p') = TrimSpace (of_Name p) →
          TrimSpace (of_Description p') = TrimSpace (of_Description p))).
Proof.
  cbv zeta. destruct (deriveWiring_parts def catalog refs) as (-> & -> & -> & _).
  destruct (derive_provision_covers catalog def (wiring_index_of def)) as [He Hg Hn].
  destruct (derive_provision catalog def (wiring_index_of def)) as [prov d1]. simpl in *. split.
  - intros g. split; [apply (cov_merged _ _ _ Hg)|]. intros f Hf.
    destruct (cov_sound _ _ _ Hg _ _ Hf) as (p & (e & s & ? & ? & ?) & _ & ?). eauto 10.
  - intros e s p Hin Hp Hnm. split; [apply (cov_names _ _ _ He); eauto|].
    intros [-> _]%app_eq_nil. split; [|split].
    + apply (cov_complete _ _ _ He); eauto.
    + apply (cov_complete _ _ _ Hg); eauto.
    + intros e' s' p' Hin' Hp' Hsrc Hname.
      assert (∃ id, tg_SourceNodeID <$> wi_groupsByID (wiring_index_of def) !! e_TransitionGroupID e = Some id) as [id Hid].
      { destruct Hp as [Hs _]. unfold edge_source in Hs.
        destruct (wi_groupsByID _ !! e_TransitionGroupID e); [by eexists|done]. }
      assert (norm_field p' = norm_field p) as Heq; [|by injection Heq].
      apply (merged_name_eq _ _ _ (cov_merged _ _ _ Hn id)); [| |done].
      * apply (cov_complete _ _ _ Hn); [done|exists e', s'; by rewrite Hsrc|unfold named; by rewrite Hname].
      * apply (cov_complete _ _ _ Hn); [done|exists e, s; done|done].
Qed.

(** Join aggregates: in a derivation without diagnostics the value of a
    join offers exactly the unprotected parameters of its incoming edges, one
    field per name, and edges that share a name belong to one transition and
    describe it alike. *)
Theorem join_aggregate_correct (o : RangeOrder) def catalog refs join
    (Hsilent : Diagnostics (deriveWiring def catalog refs) = [])
    (Hjoin : join ∈ d_Nodes def) (Hkind : Kind join = NodeKindJoin) :
  aggregates (wiring_index_of def) (filter (λ e, e_TargetNodeID e = NodeIDOf join) (d_Edges def))
    (getl (dw_joinOutputFieldsByNode (deriveWiring def catalog refs)) (NodeIDOf join)).
Proof.
  destruct (deriveWiring_parts def catalog refs) as (Hd & _ & _ & _ & _ & -> & _).
  rewrite Hd in Hsilent. apply app_eq_nil in Hsilent as [_ Hs].
  pose proof (derive_joins_silent catalog (wiring_index_of def) def join Hs Hjoin Hkind) as Ha.
  assert (getl (wi_incoming (wiring_index_of def)) (NodeIDOf join) =
          filter (λ e, e_TargetNodeID e = NodeIDOf join) (d_Edges def)) as <-; [|done].
  unfold wiring_index_of, index_incoming. cbn [wi_incoming].
  rewrite (getl_foldl_appendl (λ e, Some (e_TargetNodeID e)) (λ e, e)), getl_empty.
  rewrite list_fmap_id. simpl. apply list_filter_iff. intros e. split; [by intros [= ->]|by intros ->].
Qed.

Lemma join_aggregate_correct_witness :
  getl (dw_joinOutputFieldsByNode (@deriveWiring default_order sample_fanout None ∅)) "merge" =
    [{| of_Name := "diff"; of_Description := "what diff holds" |};
     {| of_Name := "report"; of_Description := "what report holds" |}] ∧
  aggregates (wiring_index_of sample_fanout)
    (filter (λ e, e_TargetNodeID e = "merge") (d_Edges sample_fanout))
    (getl (dw_joinOutputFieldsByNode (@deriveWiring default_order sample_fanout None ∅)) "merge").
Proof.
  split; [vm_compute; reflexivity|].
  refine (join_aggregate_correct default_order sample_fanout None ∅ (JoinNode (sample_identity "merge") []) _ _ _).
  - vm_compute. reflexivity.
  - do 4 right. left.
  - reflexivity.
Defined.

(** C26. Prior-parameter requirements: a node requires exactly the parameters
    that the prompts of edges into nodes it can reach name by an earlier
    transition, where that transition is the only guaranteed one of its key
    and is taken on every path from the start to the node itself. So a value
    a node requires has been produced whenever the node runs. *)
Theorem prior_requirements_correct (o : RangeOrder) def catalog refs n reqs
    (Hreqs : dw_priorParameterRequirementsByNode (deriveWiring def catalog refs) !! n = Some reqs) :
  let ix := wiring_index_of def in
  let start := (singleStartNodeID (d_Nodes def)).1 in
  NoDup reqs ∧
  (∀ r, r ∈ reqs ↔ (singleStartNodeID (d_Nodes def)).2 = true ∧ ∃ e consumer ref d,
     e ∈ d_Edges def ∧ is_Some (wi_nodesByID ix !! e_TargetNodeID e) ∧
     wi_groupsByID ix !! e_TransitionGroupID e = Some consumer ∧ ref ∈ getl refs (e_ID e) ∧
     prior_requirement def ix start (tg_SourceNodeID consumer) ref = Some d ∧ dr_value d = r ∧
     (∃ es, path (wi_outgoing ix) n es (e_TargetNodeID e)) ∧
     start ≠ "" ∧ (∃ es, path (wi_outgoing ix) start es n) ∧
     ∀ es, path (wi_outgoing ix) start es n →
       ∃ step, step ∈ es ∧ e_TransitionGroupID step = dr_providerTransitionGroupID d).
Proof.
  cbv zeta. destruct (deriveWiring_parts def catalog refs) as (_ & _ & _ & _ & _ & _ & Hp & _).
  rewrite Hp in Hreqs. unfold deriveCurrentNodeValueEnvironment in Hreqs. cbn [snd] in Hreqs.
  rewrite map_lookup_imap in Hreqs. destruct (wi_nodesByID _ !! n) as [node|]; simplify_eq/=.
  split; [apply node_requirements_nodup|]. intros r. rewrite elem_of_node_requirements. split.
  - intros (m & d & Hm & Hd & Hdom & <-).
    apply environment_requirements in Hd as (Hs & e & gr & ref & He & <- & Hn & Hg & Hr & Hp').
    apply reachableNodeIDs_path in Hm. apply transitionGroupDominates_true in Hdom as (H1 & H2 & H3).
    split; [exact Hs|]. exists e, gr, ref, d. split_and!; eauto.
  - intros (Hs & e & gr & ref & d & He & Hn & Hg & Hr & Hp' & <- & Hpath & H1 & H2 & H3).
    exists (e_TargetNodeID e), d. split_and!; [by apply reachableNodeIDs_path| | |done].
    + apply environment_requirements. split; [exact Hs|]. exists e, gr, ref. split_and!; eauto.
    + by apply transitionGroupDominates_true.
Qed.

(** The review prompt of the sample reads the plan's [spec]. *)
Definition sample_prior_refs : gmap EdgeID (list PromptPriorParameterReference) :=
  {["e_merged" := [{| pp_TransitionKey := "split"; pp_ParameterKey := "spec"; pp_Placeholder := ".Params.split.spec" |}]]}.

Lemma prior_requirements_correct_witness :
  dw_priorParameterRequirementsByNode (@deriveWiring default_order sample_fanout None sample_prior_refs) !! "test" =
    Some [{| ProviderNode := "plan"; TransitionKey := "split"; ParameterName := "spec" |}] ∧
  NoDup [{| ProviderNode := "plan"; TransitionKey := "split"; ParameterName := "spec" |}].
Proof.
  assert (dw_priorParameterRequirementsByNode (@deriveWiring default_order sample_fanout None sample_prior_refs) !! "test" =
    Some [{| ProviderNode := "plan"; TransitionKey := "split"; ParameterName := "spec" |}]) as Hr
    by (vm_compute; reflexivity).
  split; [exact Hr|].
  exact (proj1 (prior_requirements_correct default_order sample_fanout None sample_prior_refs "test" _ Hr)).
Defined.

(** ** Parameter dependencies *)
Section dependencies.
Context `{RangeOrder} (ix : wiring_index) (joins : join_state).

(** [e] enters a join of the derivation with provided fields, and [out]
    leaves that join. *)
Definition feeds (joinID : NodeID) (id out : EdgeID) : Prop :=
  ∃ provider outgoing, provider ∈ getl (wi_incoming ix) joinID ∧ e_ID provider = id ∧
    getl joins.1 id ≠ [] ∧ outgoing ∈ getl (wi_outgoing ix) joinID ∧ e_ID outgoing = out.

Lemma dependency_outgoing (deps : gmap EdgeID (list EdgeID)) pid outs id' x :
  x ∈ getl (foldl (λ deps outgoing,
      <[pid := AppendUniqueEdgeIDs (getl deps pid) [[e_ID outgoing]]]> deps) deps outs) id' ↔
  x ∈ getl deps id' ∨ (id' = pid ∧ ∃ outgoing, outgoing ∈ outs ∧ e_ID outgoing = x).
Proof.
  revert deps. induction outs as [|a outs IH]; intros deps; cbn [foldl]; [set_solver|].
  rewrite IH. setoid_rewrite elem_of_cons. unfold AppendUniqueEdgeIDs. cbn [foldl].
  destruct (decide (pid = id')) as [<-|Hne].
  - unfold getl at 1. rewrite lookup_insert_eq. cbn [default from_option id]. rewrite elem_of_append_unique. split.
    + intros [[?| ->]|(_ & b & ? & ?)]; [by left| |]; right; (split; [done|]); eauto.
    + intros [?|(_ & b & [->|?] & <-)]; [by left; left|by left; right|]. right. split; [done|]. eauto.
  - unfold getl at 1. rewrite lookup_insert_ne by done. fold (getl deps id').
    split; (intros [?|[? ?]]; [by left|congruence]).
Qed.

Lemma dependency_join (deps : gmap EdgeID (list EdgeID)) joinID id x :
  x ∈ getl (foldl (λ deps provider,
      if length (getl joins.1 (e_ID provider)) ==? 0 then deps
      else foldl (λ deps outgoing,
        <[e_ID provider := AppendUniqueEdgeIDs (getl deps (e_ID provider)) [[e_ID outgoing]]]> deps)
        deps (getl (wi_outgoing ix) joinID)) deps (getl (wi_incoming ix) joinID)) id ↔
  x ∈ getl deps id ∨ feeds joinID id x.
Proof.
  unfold feeds. revert deps. induction (getl (wi_incoming ix) joinID) as [|p ps IH]; intros deps; cbn [foldl].
  { split; [by left|]. intros [?|(? & ? & ?%elem_of_nil & _)]; done. }
  rewrite IH. setoid_rewrite elem_of_cons. case_bool_decide as Hl.
  - apply length_zero_iff_nil in Hl. split.
    + intros [?|(p' & out & ? & ? & ? & ? & ?)]; [by left|]. right. exists p', out. split_and!; auto.
    + intros [?|(p' & out & [->|?] & <- & Hne & ? & ?)]; [by left|done|]. right. exists p', out. split_and!; auto.
  - rewrite dependency_outgoing. split.
    + intros [[?|(-> & out & ? & ?)]|(p' & out & ? & ? & ? & ? & ?)]; [by left| |].
      * right. exists p, out. split_and!; auto. intros Hnil. by rewrite Hnil in Hl.
      * right. exists p', out. split_and!; auto.
    + intros [?|(p' & out & [->|?] & <- & ? & ? & ?)]; [by left; left| |].
      * left. right. eauto.
      * right. exists p', out. split_and!; auto.
Qed.

Lemma deriveParameterDependencies_spec deps id x :
  x ∈ getl (deriveParameterDependencies ix joins deps) id ↔
  x ∈ getl deps id ∨ ∃ joinID, is_Some (joins.2 !! joinID) ∧ feeds joinID id x.
Proof.
  unfold deriveParameterDependencies.
  assert (∀ joinID, is_Some (joins.2 !! joinID) ↔ joinID ∈ (range_map joins.2).*1) as Hdom.
  { intros j. rewrite list_elem_of_fmap. split.
    - intros [v Hv]. exists (j, v). split; [done|]. by apply elem_of_range_map.
    - intros ([j' v] & -> & Hin%elem_of_range_map). by eexists. }
  setoid_rewrite Hdom. clear Hdom. revert deps.
  induction (range_map joins.2).*1 as [|j js IH]; intros deps; cbn [foldl].
  { split; [by left|]. intros [?|(? & ?%elem_of_nil & _)]; done. }
  rewrite IH, dependency_join. setoid_rewrite elem_of_cons. split.
  - intros [[?|?]|(j' & ? & ?)]; [by left|right; exists j; auto|right; exists j'; auto].
  - intros [?|(j' & [->|?] & ?)]; [by left; left|left; by right|right; eauto].
Qed.
End dependencies.

(** Parameter dependencies: the edges whose values depend on an edge's
    parameters are that edge itself and, when it enters a join with provided
    fields, exactly the edges leaving that join; in whatever order the joins
    are visited. *)
Theorem parameter_dependencies_correct (o : RangeOrder) def catalog refs e x
    (Hedge : e ∈ d_Edges def) :
  let w := deriveWiring def catalog refs in
  let ix := wiring_index_of def in
  x ∈ getl (dw_parameterDependencyEdgesByEdge w) (e_ID e) ↔
    x = e_ID e ∨
    ∃ joinID, is_Some (dw_joinOutputFieldsByNode w !! joinID) ∧
      feeds ix (dw_requiredProviderFieldsByJoinEdge w, dw_joinOutputFieldsByNode w) joinID (e_ID e) x.
Proof.
  cbv zeta. destruct (deriveWiring_parts def catalog refs) as (_ & _ & _ & _ & -> & -> & _ & ->).
  rewrite deriveParameterDependencies_spec. rewrite <- surjective_pairing.
  assert (getl (own_dependencies (d_Edges def)) (e_ID e) = [e_ID e]) as ->; [|by rewrite list_elem_of_singleton].
  unfold own_dependencies. revert Hedge. induction (d_Edges def) as [|a l IH] using rev_ind; [by intros ?%elem_of_nil|].
  rewrite foldl_app. cbn [foldl]. unfold getl in *. destruct (decide (e_ID a = e_ID e)) as [->|Hne].
  - by rewrite lookup_insert_eq.
  - rewrite lookup_insert_ne by done. intros [?| ->%list_elem_of_singleton]%elem_of_app; [auto|done].
Qed.

Lemma parameter_dependencies_correct_witness :
  getl (dw_parameterDependencyEdgesByEdge (@deriveWiring default_order sample_fanout None ∅)) "e_built" =
    ["e_built"; "e_merged"] ∧
  ("e_merged" = "e_built" ∨
   ∃ joinID, is_Some (dw_joinOutputFieldsByNode (@deriveWiring default_order sample_fanout None ∅) !! joinID) ∧
     feeds (wiring_index_of sample_fanout)
       (dw_requiredProviderFieldsByJoinEdge (@deriveWiring default_order sample_fanout None ∅),
        dw_joinOutputFieldsByNode (@deriveWiring default_order sample_fanout None ∅)) joinID "e_built" "e_merged").
Proof.
  assert (getl (dw_parameterDependencyEdgesByEdge (@deriveWiring default_order sample_fanout None ∅)) "e_built" =
    ["e_built"; "e_merged"]) as Hd by (vm_compute; reflexivity).
  split; [exact Hd|].
  apply (parameter_dependencies_correct default_order sample_fanout None ∅
    (sample_edge "e_built" "built" "merge" "new_session" "" "" [sample_param "diff"])).
  - do 3 right. left.
  - change (e_ID (sample_edge "e_built" "built" "merge" "new_session" "" "" [sample_param "diff"])) with "e_built".
    rewrite Hd. right. left.
Defined.
