(* ===== verification/PromptSession.v ===== *)
(** * Session references in prompts

    src/server/workflow/prompt_refs.go, the part that decides which session a
    prompt's reference to an earlier transition denotes: the fan-out branch of
    a node ([ResolvePromptSessionNodeScope]) and the source node and branch of
    a prior transition ([ResolvePromptSessionReference]). *)
From Stdlib Require Import NArith String.
From stdpp Require Import gmap strings list.
From S2P Require Import Prelude GoStrings Types Samples Selection Reach Fanout FanoutFacts FanoutClaims PromptRefs Wiring.

Local Open Scope string_scope.

(** ** Model *)
Record PromptSessionNodeScope := {
  pss_BranchKey : option TransitionBranchKey; pss_Ambiguous : bool }.

Record PromptSessionReferenceResolution := {
  psr_Matched : nat; psr_Guaranteed : list TransitionGroup; psr_SourceNodeID : NodeID;
  psr_BranchKey : option TransitionBranchKey; psr_BranchScopeAmbiguous : bool }.

(** A candidate of a node scope leaves [group] zero. *)
Record promptSessionReferenceCandidate := {
  sc_group : TransitionGroup; sc_fanoutGroupID : TransitionGroupID; sc_branchKey : TransitionBranchKey }.

Definition zeroGroup : TransitionGroup := {|
  tg_WorkflowID := 0%N; tg_ID := ""; tg_SourceNodeID := ""; tg_TransitionID := "";
  tg_DisplayName := ""; tg_Description := "" |}.

Definition filterPromptSessionReferenceCandidates (candidates : list promptSessionReferenceCandidate)
    (currentFanoutGroups : gset TransitionGroupID) (currentBranch : TransitionBranchKey)
    : list promptSessionReferenceCandidate :=
  if negb (existsb (λ c, sc_fanoutGroupID c ∈? currentFanoutGroups) candidates) then candidates
  else filter (λ c, sc_fanoutGroupID c ∈ currentFanoutGroups ∧ sc_branchKey c = currentBranch) candidates.

Section scope.
Context `{RangeOrder} (def : WorkflowDefinition).

(** [traversal.pathNodes[nodeID]] exists for the branch that starts with an edge. *)
Definition branch_contains (edge : Edge) (nodeID : NodeID) : bool :=
  match branchTraversal def (e_TargetNodeID edge) with
  | Some traversal => bool_decide (is_Some (pathNodes traversal !! nodeID))
  | None => false
  end.

Definition branch_key (edge : Edge) : TransitionBranchKey := TrimSpace (e_Key edge).

Definition group_edges (id : TransitionGroupID) : list Edge :=
  getl (ft_edgesByGroup (newFanoutTopology def)) id.

Definition promptSessionFanoutGroupsForCurrentNode (currentNodeID : NodeID) (currentBranch : TransitionBranchKey)
    : gset TransitionGroupID :=
  foldl (λ (groups : gset TransitionGroupID) (entry : TransitionGroupID * list Edge),
    let '(groupID, edges) := entry in
    if (length edges <? 2)%nat then groups
    else foldl (λ groups edge,
      if branch_key edge <>? currentBranch then groups
      else if branch_contains edge currentNodeID then {[groupID]} ∪ groups else groups) groups edges)
    ∅ (range_map (ft_edgesByGroup (newFanoutTopology def))).

(** The branches of one fan-out group that contain a node, as candidates. *)
Definition branch_candidates (group : TransitionGroup) (nodeID : NodeID) (fanoutGroup : TransitionGroup)
    : list promptSessionReferenceCandidate :=
  omap (λ edge,
    if negb (branch_contains edge nodeID) then None
    else if branch_key edge ==? "" then None
    else Some {| sc_group := group; sc_fanoutGroupID := tg_ID fanoutGroup; sc_branchKey := branch_key edge |})
    (group_edges (tg_ID fanoutGroup)).

Definition scope_candidates (nodeID : NodeID) : list promptSessionReferenceCandidate :=
  d_TransitionGroups def ≫= λ group,
    if (length (group_edges (tg_ID group)) <? 2)%nat then [] else branch_candidates zeroGroup nodeID group.

Definition ResolvePromptSessionNodeScope (nodeID currentNodeID : NodeID)
    (currentBranch : option TransitionBranchKey) : PromptSessionNodeScope :=
  let candidates := scope_candidates nodeID in
  let no_scope := {| pss_BranchKey := None; pss_Ambiguous := false |} in
  let ambiguous := {| pss_BranchKey := None; pss_Ambiguous := true |} in
  match currentBranch with
  | Some branch =>
    match filterPromptSessionReferenceCandidates candidates
            (promptSessionFanoutGroupsForCurrentNode currentNodeID branch) branch with
    | [c] => {| pss_BranchKey := Some (sc_branchKey c); pss_Ambiguous := false |}
    | [] => no_scope
    | _ => ambiguous
    end
  | None =>
    match candidates with
    | [] => no_scope
    | [c] => {| pss_BranchKey := Some (sc_branchKey c); pss_Ambiguous := false |}
    | _ => ambiguous
    end
  end.

(** The fan-outs whose join every path to the consumer passes. *)
Definition joined_before (startNodeID consumerSourceNodeID : NodeID) (fanoutGroup : TransitionGroup) : bool :=
  let fanoutEdges := group_edges (tg_ID fanoutGroup) in
  if (length fanoutEdges <? 2)%nat then false
  else match ResolveFanoutJoin def (branch_key <$> fanoutEdges) with
  | None => false
  | Some join =>
    let joinID := NodeIDOf (fjr_Join join) in
    (consumerSourceNodeID ==? joinID) ||
    nodeDominatesFromStart startNodeID joinID consumerSourceNodeID (ft_outgoingByNode (newFanoutTopology def))
  end.

Definition reference_candidates (startNodeID : NodeID) (transitionKey : ModelKey) (consumerSourceNodeID : NodeID)
    : list promptSessionReferenceCandidate :=
  d_TransitionGroups def ≫= λ group,
    if TrimSpace (tg_TransitionID group) <>? TrimSpace transitionKey then []
    else d_TransitionGroups def ≫= λ fanoutGroup,
      if joined_before startNodeID consumerSourceNodeID fanoutGroup
      then branch_candidates group (tg_SourceNodeID group) fanoutGroup else [].

Definition ResolvePromptSessionReference (transitionKey : ModelKey) (consumerSourceNodeID currentNodeID : NodeID)
    (currentBranch : option TransitionBranchKey) : PromptSessionReferenceResolution :=
  let prior := ResolvePriorTransitionGroups def transitionKey consumerSourceNodeID in
  let resolution guaranteed source branch ambiguous := {|
    psr_Matched := Matched prior; psr_Guaranteed := guaranteed; psr_SourceNodeID := source;
    psr_BranchKey := branch; psr_BranchScopeAmbiguous := ambiguous |} in
  let unresolved := resolution (Guaranteed prior) "" None false in
  match Guaranteed prior with
  | [group] =>
    let scope := ResolvePromptSessionNodeScope (tg_SourceNodeID group) currentNodeID currentBranch in
    resolution (Guaranteed prior) (tg_SourceNodeID group) (pss_BranchKey scope) (pss_Ambiguous scope)
  | _ :: _ => unresolved
  | [] =>
    if Matched prior ==? 0 then unresolved
    else
      let '(startNodeID, hasSingleStart) := singleStartNodeID (d_Nodes def) in
      if negb hasSingleStart then unresolved
      else
        let candidates := reference_candidates startNodeID transitionKey consumerSourceNodeID in
        let candidates := match currentBranch with
          | Some branch => filterPromptSessionReferenceCandidates candidates
                             (promptSessionFanoutGroupsForCurrentNode currentNodeID branch) branch
          | None => candidates
          end in
        match candidates with
        | [] => unresolved
        | [c] => resolution [sc_group c] (tg_SourceNodeID (sc_group c)) (Some (sc_branchKey c)) false
        | c :: rest =>
          if forallb (λ c', tg_ID (sc_group c') ==? tg_ID (sc_group c)) rest
          then resolution [sc_group c] (tg_SourceNodeID (sc_group c)) None true
          else resolution (sc_group <$> candidates) "" None false
        end
  end.
End scope.

(** ** Facts *)
Section facts.
Context `{RangeOrder} (def : WorkflowDefinition).

(** A node lies in the branch that an edge of a fan-out group opens: on some
    walk of that branch, before its joins, no walk of it being obstructed. *)
Definition in_branch (fanoutGroup : TransitionGroup) (edge : Edge) (nodeID : NodeID) : Prop :=
  edge ∈ d_Edges def ∧ e_TransitionGroupID edge = tg_ID fanoutGroup ∧
  (∀ n ns, branch_walk def (e_TargetNodeID edge) n ns → ¬ branch_obstructed def n ns) ∧
  is_inner (nodes_of def) nodeID ∧ ∃ ns, branch_walk def (e_TargetNodeID edge) nodeID ns.

Lemma branch_contains_spec edge nodeID :
  branch_contains def edge nodeID = true ↔
  (∀ n ns, branch_walk def (e_TargetNodeID edge) n ns → ¬ branch_obstructed def n ns) ∧
  is_inner (nodes_of def) nodeID ∧ ∃ ns, branch_walk def (e_TargetNodeID edge) nodeID ns.
Proof.
  unfold branch_contains.
  pose proof (fanoutBranchTraversal_spec (nodes_of def) (ft_groupsBySource (newFanoutTopology def))
    (ft_edgesByGroup (newFanoutTopology def)) (outgoing_of def) (e_TargetNodeID edge)) as Hs.
  change (fanoutBranchTraversal _ _ _ _ (e_TargetNodeID edge)) with (branchTraversal def (e_TargetNodeID edge)) in Hs.
  destruct (branchTraversal def (e_TargetNodeID edge)) as [r|].
  - destruct Hs as (Hno & _ & Hmin). specialize (Hmin nodeID). rewrite bool_decide_eq_true.
    destruct (pathNodes r !! nodeID) as [d|]; simpl in Hmin.
    + destruct Hmin as [(? & ns & ? & _) _]. split; [intros _; by eauto|by eexists].
    + split; [by intros [? ?]|]. intros (_ & ? & ns & ?). exfalso. apply (Hmin (length ns)). eauto.
  - split; [done|]. intros (Hno & _). destruct Hs as (n & ns & ? & ?). by destruct (Hno n ns).
Qed.

Lemma elem_of_branch_candidates group nodeID fanoutGroup c :
  c ∈ branch_candidates def group nodeID fanoutGroup ↔
  ∃ edge, in_branch fanoutGroup edge nodeID ∧ branch_key edge ≠ "" ∧
    c = {| sc_group := group; sc_fanoutGroupID := tg_ID fanoutGroup; sc_branchKey := branch_key edge |}.
Proof.
  unfold branch_candidates, group_edges, in_branch. rewrite list_elem_of_omap. simpl.
  rewrite getl_index_edges_by_group. setoid_rewrite list_elem_of_filter. split.
  - intros (edge & (? & ?) & Hc). exists edge.
    destruct (branch_contains def edge nodeID) eqn:E; [|done]. apply branch_contains_spec in E. simpl in Hc.
    case_bool_decide; [done|]. simplify_eq. split; [|done]. split_and!; try done; apply E.
  - intros (edge & (? & ? & E) & Hk & ->). exists edge. split; [done|].
    apply branch_contains_spec in E. rewrite E. simpl. by rewrite bool_decide_eq_false_2.
Qed.

(** The fan-outs one of whose branches, with the current branch's key,
    contains the current node; the map's iteration order does not matter. *)
Lemma elem_of_current_fanouts currentNodeID currentBranch id :
  id ∈ promptSessionFanoutGroupsForCurrentNode def currentNodeID currentBranch ↔
  (2 ≤ length (group_edges def id))%nat ∧ ∃ edge, edge ∈ group_edges def id ∧ branch_key edge = currentBranch ∧
    branch_contains def edge currentNodeID = true.
Proof.
  unfold promptSessionFanoutGroupsForCurrentNode, group_edges.
  set (m := ft_edgesByGroup (newFanoutTopology def)).
  assert (∀ edges gid (acc : gset TransitionGroupID), id ∈ foldl (λ groups edge,
      if branch_key edge <>? currentBranch then groups
      else if branch_contains def edge currentNodeID then {[gid]} ∪ groups else groups) acc edges ↔
    id ∈ acc ∨ id = gid ∧ ∃ edge, edge ∈ edges ∧ branch_key edge = currentBranch ∧
      branch_contains def edge currentNodeID = true) as Hinner.
  { induction edges as [|e edges IH]; intros gid acc; cbn [foldl]; [set_solver|]. rewrite IH.
    setoid_rewrite elem_of_cons. case_bool_decide as Hk; cbn [negb].
    - destruct (branch_contains def e currentNodeID) eqn:E; [rewrite elem_of_union, elem_of_singleton|]; split.
      + intros [[->|?]|(-> & e' & ? & ?)]; [right; split; [done|]; eauto|by left|right; split; [done|]; eauto].
      + intros [?|(-> & e' & [->|?] & ? & ?)]; [by left; right|by left; left|right; split; [done|]; eauto].
      + intros [?|(-> & e' & ? & ?)]; [by left|right; split; [done|]; eauto].
      + intros [?|(-> & e' & [->|?] & ? & ?)]; [by left|congruence|right; split; [done|]; eauto].
    - split.
      + intros [?|(-> & e' & ? & ?)]; [by left|right; split; [done|]; eauto].
      + intros [?|(-> & e' & [->|?] & ? & ?)]; [by left|congruence|right; split; [done|]; eauto]. }
  assert (∀ l (acc : gset TransitionGroupID), id ∈ foldl (λ (groups : gset TransitionGroupID) '(groupID, edges),
      if (length edges <? 2)%nat then groups else foldl (λ groups edge,
      if branch_key edge <>? currentBranch then groups
      else if branch_contains def edge currentNodeID then {[groupID]} ∪ groups else groups) groups edges) acc l ↔
    id ∈ acc ∨ ∃ edges, (id, edges) ∈ l ∧ (2 ≤ length edges)%nat ∧ ∃ edge, edge ∈ edges ∧
      branch_key edge = currentBranch ∧ branch_contains def edge currentNodeID = true) as Houter.
  { induction l as [|[gid edges] l IH]; intros acc; cbn [foldl]; [set_solver|]. rewrite IH.
    setoid_rewrite elem_of_cons. destruct (Nat.ltb_spec (length edges) 2); [|rewrite Hinner]; split.
    - intros [?|(es & ? & ?)]; eauto 10.
    - intros [?|(es & [[= -> ->]|?] & ? & ?)]; eauto 10. lia.
    - intros [[?|(-> & e & ?)]|(es & ? & ?)]; eauto 10.
    - intros [?|(es & [[= -> ->]|?] & ? & e & ?)]; eauto 10. }
  rewrite Houter. setoid_rewrite elem_of_range_map. unfold getl. split.
  - intros [?|(edges & -> & ? & ?)]; [set_solver|]. done.
  - intros [Hlen Hex]. right. destruct (m !! id) as [edges|]; [eauto|]. simpl in Hlen. lia.
Qed.
End facts.

(** ** Theorems *)

Lemma current_fanouts_order (o o' : RangeOrder) def n b :
  @promptSessionFanoutGroupsForCurrentNode o def n b = @promptSessionFanoutGroupsForCurrentNode o' def n b.
Proof. apply set_eq. intros id. by rewrite !elem_of_current_fanouts. Qed.

Lemma filter_candidates_subset candidates groups branch c :
  c ∈ filterPromptSessionReferenceCandidates candidates groups branch → c ∈ candidates.
Proof. unfold filterPromptSessionReferenceCandidates. case_if_goal; [done|]. by intros [_ ?]%list_elem_of_filter. Qed.

(** When some candidate is of the current fan-out, only the current branch is left. *)
Lemma filter_candidates_isolates candidates groups branch c c0 :
  c ∈ filterPromptSessionReferenceCandidates candidates groups branch →
  c0 ∈ candidates → sc_fanoutGroupID c0 ∈ groups → sc_branchKey c = branch.
Proof.
  unfold filterPromptSessionReferenceCandidates. intros Hc H0 Hg.
  assert (existsb (λ c, sc_fanoutGroupID c ∈? groups) candidates = true) as Hex.
  { apply existsb_exists. exists c0. split; [by apply list_elem_of_In|by apply bool_decide_eq_true]. }
  rewrite Hex in Hc. cbn [negb] in Hc. by apply list_elem_of_filter in Hc as [[_ ?] _].
Qed.

Lemma elem_of_scope_candidates `{RangeOrder} def nodeID c :
  c ∈ scope_candidates def nodeID ↔
  ∃ g edge, g ∈ d_TransitionGroups def ∧ (2 ≤ length (group_edges def (tg_ID g)))%nat ∧
    in_branch def g edge nodeID ∧ branch_key edge ≠ "" ∧
    c = {| sc_group := zeroGroup; sc_fanoutGroupID := tg_ID g; sc_branchKey := branch_key edge |}.
Proof.
  unfold scope_candidates. rewrite list_elem_of_bind. split.
  - intros (g & Hc & Hg). destruct (Nat.ltb_spec (length (group_edges def (tg_ID g))) 2); [by apply elem_of_nil in Hc|].
    apply elem_of_branch_candidates in Hc as (e & ? & ? & ?). eauto 10.
  - intros (g & e & ? & Hlen & Hin & Hk & ->). exists g. split; [|done].
    destruct (Nat.ltb_spec (length (group_edges def (tg_ID g))) 2); [lia|].
    apply elem_of_branch_candidates. eauto.
Qed.

(** The branch of a scope is the branch of a candidate that survives the filter. *)
Lemma scope_candidate `{RangeOrder} def nodeID current branch b :
  pss_BranchKey (ResolvePromptSessionNodeScope def nodeID current branch) = Some b →
  pss_Ambiguous (ResolvePromptSessionNodeScope def nodeID current branch) = false ∧
  ∃ c, sc_branchKey c = b ∧ c ∈ scope_candidates def nodeID ∧
    ∀ cur, branch = Some cur →
      c ∈ filterPromptSessionReferenceCandidates (scope_candidates def nodeID)
            (promptSessionFanoutGroupsForCurrentNode def current cur) cur.
Proof.
  unfold ResolvePromptSessionNodeScope. destruct branch as [cur|].
  - destruct (filterPromptSessionReferenceCandidates _ _ cur) as [|c [|]] eqn:E; simpl; intros Hb; simplify_eq.
    split; [done|]. exists c. split; [done|]. split.
    + apply (filter_candidates_subset _ (promptSessionFanoutGroupsForCurrentNode def current cur) cur).
      rewrite E. left.
    + intros ? [= <-]. rewrite E. left.
  - destruct (scope_candidates def nodeID) as [|c [|]]; simpl; intros Hb; simplify_eq.
    split; [done|]. exists c. split_and!; [done|left|done].
Qed.

(** The branch a prompt reads a node's session from: a resolved branch key
    is unambiguous, non-blank and names a branch of a fan-out that contains
    the node; when the node is in a branch of a fan-out the reader is itself
    in, the branch is the reader's own, never a sibling's; and the answer does
    not depend on map iteration order. *)
Theorem ResolvePromptSessionNodeScope_sound (o : RangeOrder) def nodeID current branch b
    (Hscope : pss_BranchKey (ResolvePromptSessionNodeScope def nodeID current branch) = Some b) :
  pss_Ambiguous (ResolvePromptSessionNodeScope def nodeID current branch) = false ∧ b ≠ "" ∧
  (∃ g edge, g ∈ d_TransitionGroups def ∧ (2 ≤ length (group_edges def (tg_ID g)))%nat ∧
     in_branch def g edge nodeID ∧ branch_key edge = b) ∧
  (∀ cur g edge own, branch = Some cur → g ∈ d_TransitionGroups def →
     in_branch def g edge nodeID → branch_key edge ≠ "" →
     in_branch def g own current → branch_key own = cur → (2 ≤ length (group_edges def (tg_ID g)))%nat → b = cur) ∧
  ∀ o' : RangeOrder, @ResolvePromptSessionNodeScope o' def nodeID current branch =
                     @ResolvePromptSessionNodeScope o def nodeID current branch.
Proof.
  apply scope_candidate in Hscope as (Hamb & c & <- & Hc & Hfilter). split; [done|].
  pose proof (proj1 (elem_of_scope_candidates def nodeID c) Hc) as (g & e & Hg & Hlen & Hin & Hk & ->).
  split; [done|]. split; [exists g, e; done|]. split.
  - intros cur g' e' own -> Hg' Hin' Hk' Hown Hcur Hlen'.
    apply (filter_candidates_isolates _ _ _ _
      {| sc_group := zeroGroup; sc_fanoutGroupID := tg_ID g'; sc_branchKey := branch_key e' |} (Hfilter cur eq_refl)).
    + apply elem_of_scope_candidates. eauto 10.
    + apply elem_of_current_fanouts. simpl. split; [done|]. destruct Hown as (Ho1 & Ho2 & Ho3).
      exists own. split_and!; [|done|by apply branch_contains_spec].
      unfold group_edges. simpl. rewrite getl_index_edges_by_group. by apply list_elem_of_filter.
  - intros o'. unfold ResolvePromptSessionNodeScope. destruct branch as [cur|]; [|done].
    by rewrite (current_fanouts_order o' o).
Qed.

Lemma ResolvePromptSessionNodeScope_sound_witness :
  pss_BranchKey (@ResolvePromptSessionNodeScope default_order sample_fanout "build" "build" (Some "e_build")) = Some "e_build" ∧
  pss_Ambiguous (@ResolvePromptSessionNodeScope default_order sample_fanout "build" "build" (Some "e_build")) = false.
Proof.
  assert (pss_BranchKey (@ResolvePromptSessionNodeScope default_order sample_fanout "build" "build" (Some "e_build")) =
    Some "e_build") as Hs by (vm_compute; reflexivity).
  split; [exact Hs|].
  exact (proj1 (ResolvePromptSessionNodeScope_sound default_order sample_fanout "build" "build" (Some "e_build") "e_build" Hs)).
Defined.

(** Every path from the start to the consumer takes the transition, or passes
    the join of a fan-out one of whose branches contains its source. *)
Definition precedes (def : WorkflowDefinition) (startNodeID consumer : NodeID) (group : TransitionGroup) : Prop :=
  (∀ es, path (outgoing_of def) startNodeID es consumer → ∃ e, e ∈ es ∧ e_TransitionGroupID e = tg_ID group) ∨
  ∃ fanoutGroup edge joinID, fanoutGroup ∈ d_TransitionGroups def ∧
    in_branch def fanoutGroup edge (tg_SourceNodeID group) ∧ branch_key edge ≠ "" ∧
    is_join (nodes_of def) joinID ∧
    ∀ es, path (outgoing_of def) startNodeID es consumer → joinID ∈ path_nodes startNodeID es.

Lemma resolvePrior_guaranteed groups key consumer start outgoing g :
  g ∈ Guaranteed (resolvePriorParameterTransitionGroups groups key consumer start outgoing) ↔
  g ∈ groups ∧ TrimSpace (tg_TransitionID g) = TrimSpace key ∧
  transitionGroupDominates start (tg_ID g) consumer outgoing = true.
Proof.
  unfold resolvePriorParameterTransitionGroups.
  induction groups as [|a l IH] using rev_ind; [simpl; set_solver|].
  rewrite foldl_app. cbn [foldl]. rewrite elem_of_app, list_elem_of_singleton.
  case_bool_decide as Hk; cbn [negb Guaranteed].
  - destruct (transitionGroupDominates start (tg_ID a) consumer outgoing) eqn:E.
    + rewrite elem_of_app, list_elem_of_singleton, IH. split.
      * intros [(? & ? & ?)| ->]; [by auto|]. auto.
      * intros ([?| ->] & ? & ?); auto.
    + rewrite IH. split; [intros (? & ? & ?); by auto|]. intros ([?| ->] & ? & ?); [by auto|congruence].
  - rewrite IH. split; [intros (? & ? & ?); by auto|]. intros ([?| ->] & ? & ?); [by auto|congruence].
Qed.

Lemma path_ends outgoing start es n : path outgoing start es n → n ∈ path_nodes start es.
Proof.
  induction 1 as [n|n e es m He Hp IH]; [left|]. unfold path_nodes in *. right. simpl.
  by apply elem_of_cons in IH as [->|?]; [left|right].
Qed.

Lemma joined_before_spec `{RangeOrder} def start consumer g :
  joined_before def start consumer g = true →
  ∃ joinID, is_join (nodes_of def) joinID ∧
    ∀ es, path (outgoing_of def) start es consumer → joinID ∈ path_nodes start es.
Proof.
  unfold joined_before. case_if_goal; [done|].
  destruct (ResolveFanoutJoin def _) as [res|] eqn:Er; [|done]. intros Hd.
  assert (is_join (nodes_of def) (NodeIDOf (fjr_Join res))) as Hj.
  { unfold ResolveFanoutJoin in Er.
    destruct (expected_keys _) as [X|]; simpl in Er; [|done]. case_match_hyp Er; [done|].
    destruct (matching_fanouts def X) as [|ini [|]]; try done.
    destruct (branch_distances def _) as [ds|]; simpl in Er; [|done].
    destruct (fanoutNearestCommonJoin ds) as [joinID|]; simpl in Er; [|done].
    destruct (index_nodes (d_Nodes def) !! joinID) as [join|] eqn:En; simpl in Er; [|done].
    destruct (bool_decide (Kind join = NodeKindJoin)) eqn:Hk; simpl in Er; [|done]. bool_simp.
    destruct (foldl _ _ _); simplify_eq/=.
    exists join. split; [|done]. by rewrite (index_nodes_id _ _ _ En). }
  exists (NodeIDOf (fjr_Join res)). split; [done|]. intros es Hp.
  apply orb_true_iff in Hd as [Hd|Hd]; bool_simp.
  - rewrite <- Hd. by eapply path_ends.
  - apply nodeDominatesFromStart_true in Hd as [->|(_ & _ & Hall)]; [by eapply path_ends|by apply Hall].
Qed.

Lemma elem_of_reference_candidates `{RangeOrder} def start key consumer c :
  c ∈ reference_candidates def start key consumer →
  sc_group c ∈ d_TransitionGroups def ∧ TrimSpace (tg_TransitionID (sc_group c)) = TrimSpace key ∧
  precedes def start consumer (sc_group c).
Proof.
  unfold reference_candidates. rewrite list_elem_of_bind. intros (g & Hc & Hg).
  case_bool_decide as Hk; cbn [negb] in Hc; [|by apply elem_of_nil in Hc].
  apply list_elem_of_bind in Hc as (f & Hc & Hf).
  destruct (joined_before def start consumer f) eqn:Ej; [|by apply elem_of_nil in Hc].
  apply elem_of_branch_candidates in Hc as (e & ? & ? & ->). simpl. split_and!; [done..|]. right.
  destruct (joined_before_spec def start consumer f Ej) as (j & ? & ?). by exists f, e, j.
Qed.

(** A prior-transition reference that resolves to a source node names one
    declared transition of that key, and on every path from the start to the
    consumer that transition has been taken, or the join of a fan-out one of
    whose branches contains its source has been passed. *)
Theorem ResolvePromptSessionReference_sound (o : RangeOrder) def key consumer current branch
    (Hresolved : psr_SourceNodeID (ResolvePromptSessionReference def key consumer current branch) ≠ "") :
  ∃ g, psr_Guaranteed (ResolvePromptSessionReference def key consumer current branch) = [g] ∧
    g ∈ d_TransitionGroups def ∧ TrimSpace (tg_TransitionID g) = TrimSpace key ∧
    psr_SourceNodeID (ResolvePromptSessionReference def key consumer current branch) = tg_SourceNodeID g ∧
    precedes def (singleStartNodeID (d_Nodes def)).1 consumer g.
Proof.
  revert Hresolved. unfold ResolvePromptSessionReference, ResolvePriorTransitionGroups.
  destruct (singleStartNodeID (d_Nodes def)) as [start [|]] eqn:Es; cbn [negb fst]; [|simpl; by intros []].
  pose proof (resolvePrior_guaranteed (d_TransitionGroups def) key consumer start
    (ft_outgoingByNode (newFanoutTopology def))) as Hg.
  set (prior := resolvePriorParameterTransitionGroups _ _ _ _ _) in *.
  destruct (Guaranteed prior) as [|g [|]]; cbn [psr_SourceNodeID psr_Guaranteed]; [|intros _|by intros []].
  2: { destruct (proj1 (Hg g)) as (? & ? & Hd); [left|]. exists g. split_and!; try done. left.
       by apply transitionGroupDominates_true in Hd as (_ & _ & ?). }
  case_bool_decide; [by intros []|]. cbv zeta.
  set (cands := reference_candidates def start key consumer).
  set (cands' := match branch with Some _ => _ | None => _ end).
  assert (∀ c, c ∈ cands' → c ∈ cands) as Hsub.
  { unfold cands'. destruct branch; [apply filter_candidates_subset|done]. }
  destruct cands' as [|c [|c2 rest]] eqn:Ec; [by intros []| |].
  - intros _. destruct (elem_of_reference_candidates def start key consumer c) as (? & ? & ?); [apply Hsub; left|].
    by exists (sc_group c).
  - destruct (forallb _ _); [|by intros []]. intros _.
    destruct (elem_of_reference_candidates def start key consumer c) as (? & ? & ?); [apply Hsub; left|].
    by exists (sc_group c).
Qed.

Lemma ResolvePromptSessionReference_sound_witness :
  psr_SourceNodeID (@ResolvePromptSessionReference default_order sample_fanout "built" "merge" "review" None) = "build" ∧
  precedes sample_fanout "start" "merge" (sample_group "built" "build").
Proof.
  split; [vm_compute; reflexivity|].
  destruct (ResolvePromptSessionReference_sound default_order sample_fanout "built" "merge" "review" None)
    as (g & Hg & _ & _ & _ & Hp); [vm_compute; discriminate|].
  assert (g = sample_group "built" "build") as Heq.
  { assert (psr_Guaranteed (@ResolvePromptSessionReference default_order sample_fanout "built" "merge" "review" None) =
      [sample_group "built" "build"]) as He by (vm_compute; reflexivity).
    rewrite He in Hg. by injection Hg. }
  rewrite <- Heq. exact Hp.
Defined.
