(* ===== verification/Validation.v ===== *)
(** * Workflow validation

    src/server/workflow/validation.go: [ValidateDefinition] and everything it
    calls. The source appends diagnostics to a state; here each check returns
    the diagnostics it appends, in order, and the index passes also return the
    maps they fill. [None] stands for a nil dereference: of a prompt's absent
    pipeline (PromptRefs), and of a selected context source that names a node
    without an identifier. The analysis behind
    [validateStaticContinuationSources] is an argument. *)
From Stdlib Require Import NArith String Ascii.
From stdpp Require Import gmap strings list.
From S2P Require Import Prelude GoStrings Types Selection Reach Fanout PromptRefs Wiring PromptSession.

Local Open Scope string_scope.

Record ValidationOptions := {
  vo_Context : string; vo_RoleResolver : option TargetAgentCatalog;
  vo_ExecutionNodes : option (gset NodeID) }.

Definition validDisplayName (value : string) : bool :=
  let trimmed := TrimSpace value in
  (trimmed <>? "") && (len trimmed <=? MaxDisplayNameChars)%N.

Definition validContextMode (value : string) : bool :=
  value ∈? [ContextModeNewSession; ContextModeContinueSession; ContextModeCompactAndContinueSession].

Definition edgeMessageSubject (edge : Edge) : string :=
  let key := TrimSpace (e_Key edge) in
  if key <>? "" then "Transition branch " +:+ key
  else let id := TrimSpace (e_ID edge) in
    if id <>? "" then "Transition branch " +:+ id else "Transition branch unknown".

(** [%q] of a key: valid keys need no escape. *)
Definition quoted (s : string) : string :=
  let q := String (ascii_of_N 34) EmptyString in q +:+ s +:+ q.

Definition ordinal_text (n : nat) : string := pretty.pretty n.

(** ** Runtime support *)
Definition UnsupportedRuntimeFeatures (sourceKind : NodeKind) (requiresApproval : bool)
    : list (ValidationErrorCode * string) :=
  if (sourceKind ==? NodeKindJoin) && requiresApproval
  then [(CodeUnsupportedApprovalExecution, "join outgoing transitions cannot require approval")] else [].

(** ** State *)
Record validationState := {
  s_nodesByID : gmap NodeID Node; s_nodeKeys : gmap ModelKey NodeID;
  s_nodeGroupsByID : gmap string NodeGroup;
  s_groupsByID : gmap TransitionGroupID TransitionGroup;
  s_edgesByID : gmap EdgeID Edge; s_edgesByGroup : gmap TransitionGroupID (list Edge);
  s_groupsBySource : gmap NodeID (list TransitionGroup);
  s_outgoingByNode : gmap NodeID (list Edge); s_incomingByNode : gmap NodeID (list Edge);
  s_startNodes : list Node }.

Section validation.
Context `{RangeOrder} (def : WorkflowDefinition) (context : string).

Definition addHard (code : ValidationErrorCode) (message : string) (ref : ValidationError) : ValidationError :=
  setCode code message true ref.
Definition addSemantic (code : ValidationErrorCode) (message : string) (ref : ValidationError) : ValidationError :=
  setCode code message (context <>? ValidationContextDraft) ref.

(** [ValidationError{WorkflowID: WorkflowIDPointer(s.def.ID)}] and the refs
    built from it. *)
Definition workflow_ref : ValidationError := setRefs (Some (d_ID def)) None None None zeroError.
Definition node_ref (id : NodeID) : ValidationError := setRefs (Some (d_ID def)) (ref_id id) None None zeroError.
Definition group_ref (group : TransitionGroup) : ValidationError :=
  setRefs (Some (d_ID def)) (ref_id (tg_SourceNodeID group)) (ref_id (tg_ID group)) None zeroError.
Definition edge_ref (edge : Edge) : ValidationError :=
  setRefs (Some (d_ID def)) None (ref_id (e_TransitionGroupID edge)) (ref_id (e_ID edge)) zeroError.

(** The recurring workflow check of an entity. *)
Definition check_workflow (id : WorkflowID) (missing foreign : string) (ref : ValidationError) : list ValidationError :=
  if IsZero id then [addHard CodeMissingWorkflowID missing ref]
  else if id <>? d_ID def then [addHard CodeCrossWorkflowReference foreign ref] else [].

(** ** Shape: policy *)
Definition validateExecutionTargetPolicy : list ValidationError :=
  let policy := ExecutionTargetPolicy_Canonical (d_ExecutionTargetPolicy def) in
  if negb (validExecutionTargetPolicyMode (etp_Mode policy)) then
    [addHard CodeInvalidExecutionTargetPolicy "execution target policy mode is invalid" workflow_ref]
  else if etp_Mode policy <>? ExecutionTargetModeCustomRef then
    match etp_CustomRef policy with
    | Some _ => [addHard CodeInvalidExecutionTargetPolicy
                   "execution target custom ref is only valid for custom_ref policy" workflow_ref]
    | None => []
    end
  else match etp_CustomRef policy with
  | Some ref => if blank ref
      then [addSemantic CodeExecutionTargetCustomRefRequired "custom_ref execution target policy requires a custom ref" workflow_ref]
      else []
  | None => [addSemantic CodeExecutionTargetCustomRefRequired "custom_ref execution target policy requires a custom ref" workflow_ref]
  end.

(** ** Shape: indexes *)
Definition node_group_ref (group : NodeGroup) : ValidationError :=
  withRelatedEntity workflow_ref EntityNodeGroup (ng_ID group).

Definition index_node_group (s : gmap string NodeGroup * gmap ModelKey string) (group : NodeGroup)
    : (gmap string NodeGroup * gmap ModelKey string) * list ValidationError :=
  let '(nodeGroupsByID, seenKeys) := s in
  let ref := node_group_ref group in
  let e0 := check_workflow (ng_WorkflowID group) "node group workflow id is required"
              "node group references another workflow" ref in
  let id := TrimSpace (ng_ID group) in
  if id ==? "" then (s, (e0 ++ [addHard CodeInvalidNodeGroup "node group id is required" ref])%list)
  else match nodeGroupsByID !! id with
  | Some _ => (s, (e0 ++ [addHard CodeInvalidNodeGroup "node group id must be unique" ref])%list)
  | None =>
    let key := TrimSpace (ng_Key group) in
    let '(seenKeys, e1) :=
      if (key ==? "") || negb (workflowkey.Valid key) then
        (seenKeys, [addHard CodeInvalidNodeGroup "node group key is invalid" ref])
      else match seenKeys !! key with
      | Some previousID =>
        if previousID <>? id
        then (seenKeys, [addHard CodeInvalidNodeGroup "node group key must be unique"
                           (withRelatedEntity ref EntityNodeGroup previousID)])
        else (<[key := id]> seenKeys, [])
      | None => (<[key := id]> seenKeys, [])
      end in
    let e2 := match ng_DisplayName group with
      | Some name => if negb (validDisplayName name)
          then [addHard CodeInvalidDisplayName "node group display name must be non-empty and at most 120 characters" ref]
          else []
      | None => []
      end in
    ((<[id := group]> nodeGroupsByID, seenKeys), (e0 ++ e1 ++ e2)%list)
  end.

Definition indexNodeGroups : gmap string NodeGroup * list ValidationError :=
  let '((nodeGroupsByID, _), errors) := fold_emit index_node_group (∅, ∅) (d_NodeGroups def) in
  (nodeGroupsByID, errors).

Definition index_node (s : gmap NodeID Node * list Node) (node : Node)
    : (gmap NodeID Node * list Node) * list ValidationError :=
  let '(nodesByID, startNodes) := s in
  let nodeID := NodeIDOf node in
  let ref := node_ref nodeID in
  let e0 := check_workflow (NodeWorkflowID node) "node workflow id is required" "node references another workflow" ref in
  if blank nodeID then (s, (e0 ++ [addHard CodeMissingNodeID "node id is required" ref])%list)
  else match nodesByID !! nodeID with
  | Some _ => (s, (e0 ++ [addHard CodeDuplicateNodeID "node id must be unique" ref])%list)
  | None => ((<[nodeID := node]> nodesByID,
              if Kind node ==? NodeKindStart then (startNodes ++ [node])%list else startNodes), e0)
  end.

Definition indexNodes : (gmap NodeID Node * list Node) * list ValidationError :=
  fold_emit index_node (∅, []) (d_Nodes def).

Record group_index := {
  gi_groupsByID : gmap TransitionGroupID TransitionGroup;
  gi_groupsBySource : gmap NodeID (list TransitionGroup);
  gi_seenTransitions : gmap string TransitionGroupID }.

Definition index_group (s : group_index) (group : TransitionGroup) : group_index * list ValidationError :=
  let ref := group_ref group in
  let e0 := check_workflow (tg_WorkflowID group) "transition group workflow id is required"
              "transition group references another workflow" ref in
  if blank (tg_ID group) then
    (s, (e0 ++ [addHard CodeMissingTransitionGroupID "transition group id is required" ref])%list)
  else match gi_groupsByID s !! tg_ID group with
  | Some _ => (s, (e0 ++ [addHard CodeDuplicateTransitionGroupID "transition group id must be unique" ref])%list)
  | None =>
    let transitionID := TrimSpace (tg_TransitionID group) in
    let '(seenTransitions, e1) :=
      if transitionID ==? "" then
        (gi_seenTransitions s, [addHard CodeMissingTransitionID "transition id is required" ref])
      else if negb (workflowkey.Valid transitionID) then
        (gi_seenTransitions s, [addHard CodeInvalidTransitionID ("transition id must " +:+ workflowkey.Description) ref])
      else (<[transitionID := tg_ID group]> (gi_seenTransitions s),
            match gi_seenTransitions s !! transitionID with
            | Some previousID => [addHard CodeDuplicateTransitionID "transition id must be unique across the Workflow"
                                    (withRelatedEntity ref EntityTransitionGroup previousID)]
            | None => []
            end) in
    let e2 := if negb (validDisplayName (tg_DisplayName group))
      then [addHard CodeInvalidDisplayName "transition group display name must be non-empty and at most 120 characters" ref]
      else [] in
    ({| gi_groupsByID := <[tg_ID group := group]> (gi_groupsByID s);
        gi_groupsBySource := appendl (tg_SourceNodeID group) group (gi_groupsBySource s);
        gi_seenTransitions := seenTransitions |}, (e0 ++ e1 ++ e2)%list)
  end.

Definition indexTransitionGroups : group_index * list ValidationError :=
  fold_emit index_group {| gi_groupsByID := ∅; gi_groupsBySource := ∅; gi_seenTransitions := ∅ |}
    (d_TransitionGroups def).

Record edge_index := {
  ei_edgesByID : gmap EdgeID Edge; ei_edgesByGroup : gmap TransitionGroupID (list Edge);
  ei_outgoing : gmap NodeID (list Edge); ei_incoming : gmap NodeID (list Edge) }.

Definition index_edge (groupsByID : gmap TransitionGroupID TransitionGroup) (s : edge_index) (edge : Edge)
    : edge_index * list ValidationError :=
  let ref := edge_ref edge in
  let e0 := check_workflow (e_WorkflowID edge) "edge workflow id is required" "edge references another workflow" ref in
  if blank (e_ID edge) then (s, (e0 ++ [addHard CodeMissingEdgeID "edge id is required" ref])%list)
  else match ei_edgesByID s !! e_ID edge with
  | Some _ => (s, (e0 ++ [addHard CodeDuplicateEdgeID "edge id must be unique" ref])%list)
  | None =>
    ({| ei_edgesByID := <[e_ID edge := edge]> (ei_edgesByID s);
        ei_edgesByGroup := appendl (e_TransitionGroupID edge) edge (ei_edgesByGroup s);
        ei_outgoing := match groupsByID !! e_TransitionGroupID edge with
          | Some group => appendl (tg_SourceNodeID group) edge (ei_outgoing s)
          | None => ei_outgoing s end;
        ei_incoming := match groupsByID !! e_TransitionGroupID edge with
          | Some _ => appendl (e_TargetNodeID edge) edge (ei_incoming s)
          | None => ei_incoming s end |}, e0)
  end.

Definition indexEdges (groupsByID : gmap TransitionGroupID TransitionGroup) : edge_index * list ValidationError :=
  fold_emit (index_edge groupsByID)
    {| ei_edgesByID := ∅; ei_edgesByGroup := ∅; ei_outgoing := ∅; ei_incoming := ∅ |} (d_Edges def).

(** ** Shape: nodes *)
Definition validate_node (nodeGroupsByID : gmap string NodeGroup) (nodeKeys : gmap ModelKey NodeID) (node : Node)
    : gmap ModelKey NodeID * list ValidationError :=
  let ref := node_ref (NodeIDOf node) in
  let key := NodeKey node in
  let '(nodeKeys, e1) :=
    if blank key then (nodeKeys, [addHard CodeMissingNodeKey "node key is required" ref])
    else if negb (workflowkey.Valid key) then
      (nodeKeys, [addHard CodeInvalidNodeKey ("node key must " +:+ workflowkey.Description) ref])
    else match nodeKeys !! key with
    | Some previousNodeID =>
      if previousNodeID <>? NodeIDOf node
      then (nodeKeys, [addHard CodeDuplicateNodeKey "node key must be unique"
                         (withRelatedEntity ref EntityNode previousNodeID)])
      else (<[key := NodeIDOf node]> nodeKeys, [])
    | None => (<[key := NodeIDOf node]> nodeKeys, [])
    end in
  let e2 := if (MaxDisplayNameChars <? RuneCountInString (TrimSpace (NodeDisplayName node)))%N
    then [addHard CodeInvalidDisplayName "node display name must be at most 120 characters" ref] else [] in
  let e3 := match Kind node with
    | NodeKindUnset => [addHard CodeInvalidNodeKind "node kind is invalid" ref]
    | _ => [] end in
  let e4 := match NodeGroupID node with
    | Some groupID => match nodeGroupsByID !! TrimSpace groupID with
        | Some _ => []
        | None => [addHard CodeInvalidNodeGroup "node references a missing node group" ref] end
    | None => [] end in
  (nodeKeys, (e1 ++ e2 ++ e3 ++ e4)%list).

Definition validateNodes (nodeGroupsByID : gmap string NodeGroup) (startNodes : list Node)
    : gmap ModelKey NodeID * list ValidationError :=
  let '(nodeKeys, errors) := fold_emit (validate_node nodeGroupsByID) ∅ (d_Nodes def) in
  (nodeKeys, (errors ++
    match startNodes with
    | [] => [addHard CodeMissingStartNode "workflow must contain exactly one start node" workflow_ref]
    | [_] => []
    | _ => [addHard CodeMultipleStartNodes "workflow must contain exactly one start node"
              (foldl (λ ref node, withRelatedEntity ref EntityNode (NodeIDOf node)) workflow_ref startNodes)]
    end)%list).

(** ** Shape: node groups *)
Definition nodeGroupMembers (s : validationState) (group : NodeGroup) : list Node :=
  let memberIDs : gset NodeID :=
    list_to_set (ng_MemberNodeIDs group) ∪
    list_to_set (NodeIDOf <$> filter (λ node, (TrimSpace <$> NodeGroupID node) = Some (ng_ID group)) (d_Nodes def)) in
  omap (λ nodeID, s_nodesByID s !! nodeID) (range_set memberIDs).

(** The set of the targets has as many elements as the branch set and each
    branch is in it. *)
Definition transitionGroupTargetsExactly (edges : list Edge) (branchIDs : gset NodeID) : bool :=
  (length edges ==? size branchIDs) &&
  let targets : gset NodeID := list_to_set (e_TargetNodeID <$> edges) in
  (size branchIDs ==? size targets) && forallb (λ id, id ∈? targets) (range_set branchIDs).

(** The branches and transition groups by which one source enters the group. *)
Definition source_fanouts (s : validationState) (branchIDs : gset NodeID)
    : gmap NodeID (gset NodeID * gset TransitionGroupID) :=
  foldl (λ bySource branchID,
    foldl (λ bySource edge,
      let sourceID := match s_groupsByID s !! e_TransitionGroupID edge with
                      | Some group => tg_SourceNodeID group | None => "" end in
      let fanout := default (∅, ∅) (bySource !! sourceID) in
      <[sourceID := ({[branchID]} ∪ fanout.1, {[e_TransitionGroupID edge]} ∪ fanout.2)]> bySource)
      bySource (getl (s_incomingByNode s) branchID))
    ∅ (range_set branchIDs).

Definition nodeGroupSeparateFanoutMessage (s : validationState) (branchIDs : gset NodeID) : string :=
  match omap (λ entry : NodeID * (gset NodeID * gset TransitionGroupID),
      let '(sourceID, fanout) := entry in
      if (size fanout.1 <>? size branchIDs) || (size fanout.2 <? 2)%nat then None
      else source ← s_nodesByID s !! sourceID;
        Some ("Node " +:+ nodeDisplayName source
              +:+ " uses separate transitions into the node group branches; use one transition from "
              +:+ NodeDisplayName source
              +:+ " with one edge to each branch, then connect every branch to the join"))
      (range_map (source_fanouts s branchIDs)) with
  | message :: _ => message
  | [] => ""
  end.

Definition nodeHasOutgoingEdgeTo (s : validationState) (sourceID targetID : NodeID) : bool :=
  existsb (λ edge, e_TargetNodeID edge ==? targetID) (getl (s_outgoingByNode s) sourceID).

Definition nodeGroupV1FanoutTopologyError (s : validationState) (branchIDs : gset NodeID) (joinID : NodeID) : string :=
  let malformed := "node group must be represented by one fan-out transition group and branch edges into its join" in
  let fanoutGroups := filter (λ group,
    let edges := getl (s_edgesByGroup s) (tg_ID group) in
    ((2 <=? length edges)%nat && transitionGroupTargetsExactly edges branchIDs) = true) (d_TransitionGroups def) in
  let message := nodeGroupSeparateFanoutMessage s branchIDs in
  if length fanoutGroups <>? 1 then (if message <>? "" then message else malformed)
  else if message <>? "" then message
  else if negb (forallb (λ branchID, nodeHasOutgoingEdgeTo s branchID joinID) (range_set branchIDs))
  then malformed else "".

Definition validate_node_group (s : validationState) (group : NodeGroup) : list ValidationError :=
  let ref := node_group_ref group in
  let members := nodeGroupMembers s group in
  let branchIDs : gset NodeID :=
    list_to_set (NodeIDOf <$> filter (λ n, Kind n = NodeKindAgent ∨ Kind n = NodeKindScript) members) in
  let joinIDs := NodeIDOf <$> filter (λ n, Kind n = NodeKindJoin) members in
  let foreign := filter (λ n, ¬ (Kind n = NodeKindAgent ∨ Kind n = NodeKindScript ∨ Kind n = NodeKindJoin)) members in
  let e1 := (λ _, addHard CodeInvalidNodeGroup "node group members must be agent branches plus one join" ref) <$> foreign in
  let e2 := if (size branchIDs <? 2)%nat
    then [addHard CodeInvalidNodeGroup "node group must contain at least two branch nodes" ref] else [] in
  let e3 := match joinIDs with
    | [joinID] =>
      if (2 <=? size branchIDs)%nat then
        let message := nodeGroupV1FanoutTopologyError s branchIDs joinID in
        if message <>? "" then [addHard CodeInvalidNodeGroup message ref] else []
      else []
    | _ => [addHard CodeInvalidNodeGroup "node group must contain exactly one join node" ref]
    end in
  (e1 ++ e2 ++ e3)%list.

Definition validateNodeGroups (s : validationState) : list ValidationError :=
  d_NodeGroups def ≫= validate_node_group s.

(** ** Shape: transition groups *)
Definition check_edge_key (seenEdgeKeys : gmap ModelKey EdgeID) (edge : Edge)
    : gmap ModelKey EdgeID * list ValidationError :=
  if blank (e_Key edge) || negb (workflowkey.Valid (e_Key edge)) then (seenEdgeKeys, [])
  else (<[e_Key edge := e_ID edge]> seenEdgeKeys,
        match seenEdgeKeys !! e_Key edge with
        | Some previousID =>
          if previousID <>? e_ID edge
          then [addHard CodeDuplicateEdgeKey "edge key must be unique per transition group"
                  (withRelatedEntity (setRefs (Some (d_ID def)) None (Some (e_TransitionGroupID edge)) (Some (e_ID edge)) zeroError)
                     EntityEdge previousID)]
          else []
        | None => []
        end).

Definition validate_transition_group (s : validationState) (group : TransitionGroup) : list ValidationError :=
  let ref := group_ref group in
  let e1 :=
    if blank (tg_SourceNodeID group) then
      [addHard CodeEdgeTransitionGroupMissing "transition group source node is required" ref]
    else match s_nodesByID s !! tg_SourceNodeID group with
    | None => [addHard CodeEdgeTransitionGroupMissing "transition group source node must exist" ref]
    | Some _ => []
    end in
  let edges := getl (s_edgesByGroup s) (tg_ID group) in
  let e2 := if length edges ==? 0
    then [addHard CodeEmptyTransitionGroup "transition group must contain at least one edge" ref] else [] in
  (e1 ++ e2 ++ (fold_emit check_edge_key ∅ edges).2)%list.

Definition validateTransitionGroups (s : validationState) : list ValidationError :=
  d_TransitionGroups def ≫= validate_transition_group s.

(** ** Shape: edges and parameters *)
Definition edgeSource (s : validationState) (edge : Edge) : option Node :=
  group ← s_groupsByID s !! e_TransitionGroupID edge; s_nodesByID s !! tg_SourceNodeID group.

Definition validate_parameter (edge : Edge) (ref : ValidationError)
    (st : gset string * gset string) (indexed : nat * EdgeParameter)
    : (gset string * gset string) * list ValidationError :=
  let '(seen, seenPurposes) := st in
  let '(index, parameter) := indexed in
  let subject := edgeMessageSubject edge +:+ ": parameter #" +:+ ordinal_text (S index) +:+ " " in
  let key := TrimSpace (p_Key parameter) in
  let parameterRef := setNames key (ve_InputName ref) (ve_Placeholder ref) ref in
  let purpose := CanonicalParameterPurpose (p_Purpose parameter) in
  let e1 := if purpose ∈? [ParameterPurposeOrdinary; ParameterPurposeTargetAssignee; ParameterPurposeTargetThinking]
    then [] else [addHard CodeInvalidParameterPurpose (subject +:+ "purpose is invalid") parameterRef] in
  let protected := purpose <>? ParameterPurposeOrdinary in
  let e2 := if protected && (purpose ∈? seenPurposes)
    then [addHard CodeDuplicateProtectedParameter (subject +:+ "protected purpose must be unique") parameterRef] else [] in
  let e3 := if (key ==? "") || negb (workflowkey.Valid key) || (MaxParameterKeyChars <? len key)%N
               || workflowkey.ReservedParameter key
    then [addHard CodeInvalidParameter (subject +:+ "key is invalid") parameterRef] else [] in
  let e4 := if key ∈? seen
    then [addHard CodeDuplicateParameter (subject +:+ "key must be unique per transition branch") parameterRef] else [] in
  let description := TrimSpace (p_Description parameter) in
  let e5 := if (purpose ==? ParameterPurposeOrdinary) && (description ==? "")
    then [addHard CodeParameterDescriptionRequired (subject +:+ "description is required") parameterRef]
    else if (MaxParameterDescriptionChars <? len description)%N
    then [addHard CodeParameterSchemaTooLarge (subject +:+ "description is too large") parameterRef] else [] in
  (({[key]} ∪ seen, if protected then {[purpose]} ∪ seenPurposes else seenPurposes),
   (e1 ++ e2 ++ e3 ++ e4 ++ e5)%list).

Definition validateParameters (edge : Edge) (ref : ValidationError) : list ValidationError :=
  let '((_, seenPurposes), errors) := fold_emit (validate_parameter edge ref) (∅, ∅) (imap pair (e_Parameters edge)) in
  let missing message := [addHard CodeMissingProtectedParameter message ref] in
  (errors ++
   (if selects_assignee edge && negb (ParameterPurposeTargetAssignee ∈? seenPurposes)
    then missing "edge assignee selection requires a target-assignee protected parameter" else []) ++
   (if selects_thinking edge && negb (ParameterPurposeTargetThinking ∈? seenPurposes)
    then missing "edge thinking selection requires a target-thinking protected parameter" else []))%list.

Definition validateEdgeInvocationContract (s : validationState) (edge : Edge) (ref : ValidationError)
    : list ValidationError :=
  let target_is_agent := match s_nodesByID s !! e_TargetNodeID edge with
    | Some target => Kind target ==? NodeKindAgent | None => false end in
  let prompt := TrimSpace (e_PromptTemplate edge) in
  let e1 :=
    if target_is_agent then
      if (prompt ==? "") && (context <>? ValidationContextDraft)
      then [addHard CodeTransitionPromptRequired "transition into an agent node requires a prompt" ref] else []
    else if prompt <>? ""
    then [addHard CodeTransitionPromptForbidden "transition into a non-agent node cannot have a prompt" ref] else [] in
  let e2 :=
    match edgeSource s edge with
    | Some source =>
      if 0 <? length (e_Parameters edge) then
        match Kind source with
        | NodeKindStart => [addHard CodeInvalidParameter "start transitions cannot declare parameters" ref]
        | NodeKindJoin => [addHard CodeInvalidParameter "join outgoing transitions cannot declare parameters" ref]
        | _ => []
        end
      else []
    | None => []
    end%nat in
  (e1 ++ e2 ++ validateParameters edge ref)%list.

Definition validate_edge (s : validationState) (edge : Edge) : list ValidationError :=
  let ref := edge_ref edge in
  ((match s_groupsByID s !! e_TransitionGroupID edge with
    | Some _ => []
    | None => [addHard CodeEdgeTransitionGroupMissing "edge transition group must exist" ref] end) ++
   (if blank (e_Key edge) then [addHard CodeMissingEdgeKey "edge key is required" ref]
    else if negb (workflowkey.Valid (e_Key edge))
    then [addHard CodeInvalidEdgeKey ("edge key must " +:+ workflowkey.Description) ref] else []) ++
   (if blank (e_TargetNodeID edge) then [addHard CodeEdgeTargetMissing "edge target node is required" ref]
    else match s_nodesByID s !! e_TargetNodeID edge with
    | Some _ => []
    | None => [addHard CodeEdgeTargetMissing "edge target node must exist" ref] end) ++
   (if validContextMode (e_ContextMode edge) then []
    else [addHard CodeInvalidContextMode "edge context mode is invalid" ref]) ++
   (if CanonicalAssigneeSelection (e_AssigneeSelection edge) ∈? [AssigneeSelectionConfigured; AssigneeSelectionPreviousNode]
    then [] else [addHard CodeInvalidAssigneeSelection "edge assignee selection is invalid" ref]) ++
   (if CanonicalThinkingSelection (e_ThinkingSelection edge) ∈? [ThinkingSelectionConfigured; ThinkingSelectionPreviousNode]
    then [] else [addHard CodeInvalidThinkingSelection "edge thinking selection is invalid" ref]) ++
   validateEdgeInvocationContract s edge ref)%list.

Definition validateEdges (s : validationState) : list ValidationError := d_Edges def ≫= validate_edge s.

(** ** Shape *)
Definition validateShape : validationState * list ValidationError :=
  let e0 := if validDisplayName (d_DisplayName def) then []
    else [addHard CodeInvalidDisplayName "workflow display name must be non-empty and at most 120 characters" workflow_ref] in
  let e1 := validateExecutionTargetPolicy in
  let '(nodeGroupsByID, e2) := indexNodeGroups in
  let '((nodesByID, startNodes), e3) := indexNodes in
  let '(gi, e4) := indexTransitionGroups in
  let '(ei, e5) := indexEdges (gi_groupsByID gi) in
  let '(nodeKeys, e6) := validateNodes nodeGroupsByID startNodes in
  let s := {| s_nodesByID := nodesByID; s_nodeKeys := nodeKeys; s_nodeGroupsByID := nodeGroupsByID;
              s_groupsByID := gi_groupsByID gi; s_edgesByID := ei_edgesByID ei;
              s_edgesByGroup := ei_edgesByGroup ei; s_groupsBySource := gi_groupsBySource gi;
              s_outgoingByNode := ei_outgoing ei; s_incomingByNode := ei_incoming ei;
              s_startNodes := startNodes |} in
  (s, (e0 ++ e1 ++ e2 ++ e3 ++ e4 ++ e5 ++ e6 ++ validateNodeGroups s ++ validateTransitionGroups s ++ validateEdges s)%list).

(** ** Graph: kinds and roles *)
Context (opts : ValidationOptions).

Definition ToolAskQuestion := "ask_question".

(** Role availability is checked for the nodes that will run. *)
Definition checks_availability (nodeID : NodeID) : bool :=
  match vo_ExecutionNodes opts with None => true | Some nodes => nodeID ∈? nodes end.

(** The code and message of the role requirement's diagnostic, if any. *)
Definition validateAgentRoleRequirement (node : Node) : option ValidationError :=
  let ref := node_ref (NodeIDOf node) in
  let role := TrimSpace (NodeSubagentRole node) in
  if role ==? "" then
    Some (setCode CodeAgentRoleRequired "agent node requires a subagent role" false ref)
  else
    let roleRef := setRole (Some role) None ref in
    let missing := setCode CodeAgentRoleMissing
      ("Agent node " +:+ nodeDisplayName node +:+ " references missing subagent role " +:+ role) false roleRef in
    match vo_RoleResolver opts with
    | None => Some missing
    | Some catalog =>
      match PlanTargetAgentSelection (Some catalog)
              {| asr_FallbackRole := role; asr_OverrideEnabled := false; asr_SubmittedRole := "" |} with
      | Ok _ => None
      | Err (TargetAgentSelectionError UnavailableRole _) => Some missing
      | Err (TargetAgentSelectionError QuestionsDisabled _) =>
        Some (setCode CodeAgentRoleRequiredToolDisabled
          ("Agent node " +:+ nodeDisplayName node +:+ " uses role " +:+ role +:+ " without required tool "
           +:+ ToolAskQuestion +:+ "; enable it in the role's effective configuration") false
          (setRole (Some role) (Some ToolAskQuestion) ref))
      | Err _ => Some (setCode CodeAgentRoleMissing
          ("Agent node " +:+ nodeDisplayName node +:+ " references unavailable subagent role " +:+ role) false roleRef)
      end
    end.

Definition validate_kind (s : validationState) (node : Node) : list ValidationError :=
  let nodeID := NodeIDOf node in
  let ref := node_ref nodeID in
  let incoming := length (getl (s_incomingByNode s) nodeID) in
  let outgoingGroups := length (getl (s_groupsBySource s) nodeID) in
  let executable := negb (blank (NodeSubagentRole node)) in
  match Kind node with
  | NodeKindStart =>
    if executable || (0 <? incoming)%nat
    then [addHard CodeInvalidStartNode "start node must be non-executable and have no inputs" ref] else []
  | NodeKindAgent =>
    match validateAgentRoleRequirement node with
    | Some issue => if checks_availability nodeID then [addSemantic (Code issue) (Message issue) issue] else []
    | None => []
    end
  | NodeKindJoin =>
    ((if executable then [addHard CodeJoinIsExecutable "join node must be non-executable" ref] else []) ++
     (if (incoming <? 2)%nat then [addHard CodeInvalidJoinNode "join node must have at least two incoming branches" ref] else []) ++
     (if outgoingGroups <>? 1 then
        [addSemantic CodeInvalidJoinOutgoingShape "join node must have exactly one outgoing transition group" ref] else []))%list
  | NodeKindTerminal =>
    ((if executable then [addHard CodeTerminalIsExecutable "terminal node must be non-executable" ref] else []) ++
     (if (0 <? outgoingGroups)%nat then
        [addHard CodeTerminalHasOutgoingEdge "terminal node cannot have outgoing edges" ref] else []))%list
  | NodeKindScript | NodeKindUnset => []
  end.

Definition validateKindConstraints (s : validationState) : list ValidationError :=
  d_Nodes def ≫= validate_kind s.

(** ** Graph: context sources *)
Definition nodeDominates (s : validationState) (candidate target : NodeID) : bool :=
  match s_startNodes s with
  | [start] => nodeDominatesFromStart (NodeIDOf start) candidate target (s_outgoingByNode s)
  | _ => false
  end.

(** The guarantee both retained sources ask for, when it can be decided. *)
Definition check_guaranteed (s : validationState) (candidate : NodeID) (source : option Node) (message : string)
    (ref : ValidationError) : list ValidationError :=
  match source with
  | None => []
  | Some source =>
    if length (s_startNodes s) <>? 1 then []
    else if (candidate <>? NodeIDOf source) && negb (nodeDominates s candidate (NodeIDOf source))
    then [addSemantic CodeInvalidContextSource message ref] else []
  end.

Definition validateContextSource (s : validationState) (edge : Edge) (source target : option Node)
    (ref : ValidationError) : option (list ValidationError) :=
  let contextSource := CanonicalContextSource (e_ContextSource edge) in
  let kind := cs_Kind contextSource in
  let reject message := Some [addSemantic CodeInvalidContextSource message ref] in
  let new_session := e_ContextMode edge ==? ContextModeNewSession in
  let source_is k := match source with Some n => Kind n ==? k | None => false end in
  let target_not_agent := match target with Some n => Kind n <>? NodeKindAgent | None => false end in
  if (kind <>? ContextSourceImmediateSource) && source_is NodeKindStart then
    reject "start transitions require immediate context source"
  else if kind ==? ContextSourceImmediateSource then
    if negb new_session && match source with Some n => Kind n <>? NodeKindAgent | None => false end
    then reject "immediate context source for continuation must be an agent node" else Some []
  else if kind ==? ContextSourceSelectedNode then
    if new_session then reject "selected context source requires a continuation context mode"
    else
      let nodeKey := TrimSpace (cs_NodeKey contextSource) in
      if (nodeKey ==? "") || negb (workflowkey.Valid nodeKey) then
        reject "selected context source node key is invalid"
      else match s_nodeKeys s !! cs_NodeKey contextSource with
      | None => reject "selected context source node does not exist"
      | Some selectedID =>
        selected ← s_nodesByID s !! selectedID;
        if Kind selected <>? NodeKindAgent then reject "selected context source must be an agent node"
        else if match target with Some t => NodeIDOf selected ==? NodeIDOf t | None => false end then
          reject "selected context source cannot be the edge target node"
        else Some (check_guaranteed s (NodeIDOf selected) source
               "selected context source must be guaranteed before the edge source" ref)
      end
  else if kind ==? ContextSourcePreviousTarget then
    if new_session then reject "previous target context source requires a continuation context mode"
    else if target_not_agent then reject "previous target context source requires an agent target node"
    else match target with
    | None => Some []
    | Some t => Some (check_guaranteed s (NodeIDOf t) source
        "previous target context source requires the target node to be guaranteed before the edge source" ref)
    end
  else if kind ==? ContextSourcePreviousTargetOrNew then
    if new_session then reject "previous target or new context source requires a continuation context mode"
    else if target_not_agent then reject "previous target or new context source requires an agent target node"
    else Some []
  else reject "context source kind is invalid".

(** ** Graph: selectors *)
Definition kind_of (node : option Node) : NodeKind :=
  match node with Some n => Kind n | None => NodeKindUnset end.

Definition is_description_required (err : option SelectionError) : bool :=
  match err with Some (TargetAgentSelectionError ThinkingDescriptionRequired _) => true | _ => false end.

Definition validateSelectorApplicability (s : validationState) (edge : Edge) (source target : option Node)
    (ref : ValidationError) : list ValidationError :=
  let validateAvailability := checks_availability (e_TargetNodeID edge) in
  let '(plan, planErr) := PlanTransitionSelection {|
    cr_Edge := edge; cr_SourceKind := kind_of source; cr_TargetKind := kind_of target;
    cr_TargetRole := match target with Some t => NodeSubagentRole t | None => "" end;
    cr_RetainedTargetRole := None;
    cr_FanOut := (1 <? length (getl (s_edgesByGroup s) (e_TransitionGroupID edge)))%nat;
    cr_TargetSessionResolved := false; cr_TargetSessionPolicy := AssigneeSessionPolicyEstablishTarget;
    cr_Catalog := vo_RoleResolver opts;
    cr_RequireExecutionDescriptions := context ==? ValidationContextExecution;
    cr_Materialization := None |} in
  let assignee := esa_Assignee (tsp_Applicability plan) in
  let thinking := esa_Thinking (tsp_Applicability plan) in
  let e1 :=
    if selects_assignee edge then
      if (sa_Reason assignee ==? ApplicabilityTopology) || (sa_Reason assignee ==? ApplicabilityContextSource)
      then [addSemantic CodeAssigneeSelectionInapplicable
              "edge Assignee selection is not applicable to this serial Agent transition" ref]
      else if validateAvailability && negb (sa_Available assignee)
      then [addSemantic CodeAssigneeSelectionUnavailable
              "edge Assignee selection is unavailable for the current role configuration" ref]
      else []
    else [] in
  let e2 :=
    if negb (selects_thinking edge) then []
    else if sa_Reason thinking ==? ApplicabilityTopology
    then [addSemantic CodeThinkingSelectionInapplicable
            "edge thinking selection is not applicable to this serial Agent transition" ref]
    else
      ((if validateAvailability && negb (sa_Available thinking)
        then [addSemantic CodeThinkingSelectionUnavailable
                "edge thinking selection is unavailable for the applicable target models" ref] else []) ++
       (if validateAvailability && (context ==? ValidationContextExecution) &&
           bool_decide (is_Some source) && bool_decide (is_Some target) && is_description_required planErr
        then [addSemantic CodeThinkingSelectionUnavailable
                "edge thinking selection requires an authored description for the open thinking catalog" ref] else []))%list in
  (e1 ++ e2)%list.

Definition validate_runtime_edge (s : validationState) (edge : Edge) : option (list ValidationError) :=
  let ref := edge_ref edge in
  let target := s_nodesByID s !! e_TargetNodeID edge in
  let source := edgeSource s edge in
  e1 ← validateContextSource s edge source target ref;
  Some (e1 ++ validateSelectorApplicability s edge source target ref ++
        ((λ issue, addSemantic issue.1 issue.2 ref) <$>
           UnsupportedRuntimeFeatures (kind_of source) (e_RequiresApproval edge)))%list.

Definition validateRuntimeSupport (s : validationState) : option (list ValidationError) :=
  mjoin <$> mapM (validate_runtime_edge s) (d_Edges def).

(** ** Graph: start and reachability *)
Definition validateStartOutgoingShape (s : validationState) (start : Node) : list ValidationError :=
  let startID := NodeIDOf start in
  let ref g e := setRefs (Some (d_ID def)) (Some startID) g e zeroError in
  if context ==? ValidationContextDraft then []
  else match getl (s_groupsBySource s) startID with
  | [group] =>
    match getl (s_edgesByGroup s) (tg_ID group) with
    | [] => [addSemantic CodeInvalidStartOutgoingShape "task start transition group requires at least one edge"
               (ref (Some (tg_ID group)) None)]
    | edges =>
      edges ≫= λ edge,
        if match s_nodesByID s !! e_TargetNodeID edge with Some t => IsExecutableNode t | None => false end then []
        else [addSemantic CodeInvalidStartOutgoingShape "task start edge must target an executable node"
                (ref None (Some (e_ID edge)))]
    end
  | _ => [addSemantic CodeInvalidStartOutgoingShape "task start requires exactly one outgoing transition group" (ref None None)]
  end.

Definition validate_reachability (s : validationState) (start : Node) : list ValidationError :=
  let reachable := reachableNodeIDs (NodeIDOf start) (s_outgoingByNode s) in
  range_map (s_nodesByID s) ≫= λ entry : NodeID * Node,
    let '(nodeID, node) := entry in
    let ref := setRefs (Some (d_ID def)) (Some nodeID) None None zeroError in
    ((if nodeID ∈? reachable then []
      else [addSemantic CodeNodeUnreachableFromStart ("Node " +:+ nodeDisplayName node +:+ " not reachable") ref]) ++
     (if (Kind node <>? NodeKindTerminal) && negb (canReachTerminal (s_nodesByID s) (s_outgoingByNode s) nodeID)
      then [addSemantic CodeNonTerminalCannotReachTerminal ("Node " +:+ nodeDisplayName node +:+ " cannot reach a terminal") ref]
      else []))%list.

(** ** Graph: prompts *)
Context (Parse : string → result string (gmap string (option TNode))).

Definition edgeParameterNameSet (edge : Edge) : gset string :=
  list_to_set (filter (λ key, key ≠ "") ((λ p, TrimSpace (p_Key p)) <$> e_Parameters edge)).
Definition outputFieldNameSet (fields : list OutputField) : gset string :=
  list_to_set (filter (λ name, name ≠ "") ((λ f, TrimSpace (of_Name f)) <$> fields)).

Definition promptParameterNameSet (s : validationState) (edge : Edge) (source target : Node) : gset string :=
  let consumption := protectedParameterConsumptionForEdge edge (Kind source) (Kind target) (NodeSubagentRole target)
    (1 <? length (getl (s_edgesByGroup s) (e_TransitionGroupID edge)))%nat (vo_RoleResolver opts) in
  let kind := context_kind (e_ContextSource edge) in
  let retainedSessionPossible := (e_ContextMode edge ==? ContextModeContinueSession) &&
    ((kind ==? ContextSourcePreviousTarget) || (kind ==? ContextSourcePreviousTargetOrNew)) in
  foldl (λ names parameter,
    let purpose := CanonicalParameterPurpose (p_Purpose parameter) in
    let drop policy := if retainedSessionPossible || (policy <>? RequiredValidate)
                       then names ∖ {[TrimSpace (p_Key parameter)]} else names in
    if purpose ==? ParameterPurposeTargetAssignee then drop (pc_Assignee consumption)
    else if purpose ==? ParameterPurposeTargetThinking then drop (pc_Thinking consumption)
    else names) (edgeParameterNameSet edge) (e_Parameters edge).

Definition transitionGroupParameterSet (s : validationState) (groupID : TransitionGroupID) (derived : DerivedWiring)
    : gset string :=
  let source := group ← s_groupsByID s !! groupID; s_nodesByID s !! tg_SourceNodeID group in
  let joined := match source with
    | Some n => if Kind n ==? NodeKindJoin
                then outputFieldNameSet (getl (dw_joinOutputFieldsByNode derived) (NodeIDOf n)) else ∅
    | None => ∅ end in
  (** A missing group reads as the zero group, whose source is the empty id. *)
  let edge_source_node := s_nodesByID s !! match s_groupsByID s !! groupID with
    | Some group => tg_SourceNodeID group | None => "" end in
  foldl (λ out edge,
    out ∪ match edge_source_node, s_nodesByID s !! e_TargetNodeID edge with
          | Some source, Some target => promptParameterNameSet s edge source target
          | _, _ => edgeParameterNameSet edge
          end) joined (getl (s_edgesByGroup s) groupID).

Definition addSessionReferenceError (code : ValidationErrorCode) (ref : ValidationError) : ValidationError :=
  addHard code (code_text code) ref.

Definition priorParameterConsumerName (s : validationState) (edge : Edge) : string :=
  match s_nodesByID s !! e_TargetNodeID edge with
  | Some target => nodeDisplayName target
  | None => "the target node"
  end.

Definition validatePriorSessionReference (s : validationState) (edge : Edge) (source : Node) (transitionKey : string)
    (ref : ValidationError) : list ValidationError :=
  let resolution := ResolvePromptSessionReference def transitionKey (NodeIDOf source) (e_TargetNodeID edge) None in
  if psr_Matched resolution ==? 0 then [addSessionReferenceError CodeSessionTransitionMissing ref]
  else match psr_Guaranteed resolution with
  | [] => [addSessionReferenceError CodeSessionTransitionNotGuaranteed ref]
  | [_] =>
    if match s_nodesByID s !! psr_SourceNodeID resolution with Some p => Kind p ==? NodeKindAgent | None => false end
    then [] else [addSessionReferenceError CodeSessionSourceCannotOwnSession ref]
  | _ => [addSessionReferenceError CodeSessionTransitionAmbiguous ref]
  end.

Definition validatePriorParameterReference (s : validationState) (edge : Edge)
    (param : PromptPriorParameterReference) (baseRef : ValidationError) (derived : DerivedWiring)
    : list ValidationError :=
  let transitionKey := TrimSpace (pp_TransitionKey param) in
  let parameterKey := TrimSpace (pp_ParameterKey param) in
  let ref := setNames parameterKey (ve_InputName baseRef) (pp_Placeholder param) baseRef in
  let consumer := priorParameterConsumerName s edge in
  let reject message := [addHard CodeInvalidTemplatePlaceholder ("prompt for " +:+ consumer +:+ message) ref] in
  let names_both := " references parameter " +:+ quoted parameterKey +:+ " from transition " +:+ quoted transitionKey in
  if (transitionKey ==? "") || negb (workflowkey.Valid transitionKey) || (parameterKey ==? "")
     || negb (workflowkey.Valid parameterKey) then
    reject " has an invalid previous-parameter reference; use .Params.<transition_key>.<parameter_key> with valid keys."
  else match edgeSource s edge, s_startNodes s with
  | Some source, [start] =>
    if parameterKey ==? RuntimePromptParameterSessionID then
      validatePriorSessionReference s edge source transitionKey ref
    else
      let resolution := resolvePriorParameterTransitionGroups (d_TransitionGroups def) transitionKey
        (NodeIDOf source) (NodeIDOf start) (s_outgoingByNode s) in
      if Matched resolution ==? 0 then
        reject (names_both +:+ ", but no " +:+ quoted transitionKey
          +:+ " transition exists in this workflow. Check the transition key for a typo, or define the transition that produces it.")
      else match Guaranteed resolution with
      | [] => reject (names_both +:+ ", but " +:+ quoted transitionKey +:+ " is not guaranteed to run before " +:+ consumer
          +:+ ": another branch can reach " +:+ consumer
          +:+ " without it. Reference a parameter that every incoming branch provides, or remove the bypassing branch.")
      | [group] =>
        if parameterKey ==? RuntimePromptParameterCommentary then []
        else if parameterKey ∈? transitionGroupParameterSet s (tg_ID group) derived then []
        else reject (names_both +:+ ", but transition " +:+ quoted transitionKey +:+ " does not declare a "
               +:+ quoted parameterKey +:+ " parameter.")
      | _ => reject (names_both +:+ ", but more than one " +:+ quoted transitionKey +:+ " transition can run before "
          +:+ consumer +:+ ". Give the producing transitions distinct keys and reference one.")
      end
  | _, _ => []
  end.

(** The parameters a prompt of the edge may name. *)
Definition current_params (s : validationState) (derived : DerivedWiring) (edge : Edge) : gset string :=
  match edgeSource s edge with
  | Some source =>
    if Kind source ==? NodeKindJoin then
      outputFieldNameSet (getl (dw_joinOutputFieldsByNode derived) (NodeIDOf source))
    else match s_nodesByID s !! e_TargetNodeID edge with
    | Some target => promptParameterNameSet s edge source target
    | None => edgeParameterNameSet edge
    end
  | None => edgeParameterNameSet edge
  end.

Definition prompt_ref (edge : Edge) : ValidationError :=
  setRefs (Some (d_ID def)) (ref_id (e_TargetNodeID edge)) (ref_id (e_TransitionGroupID edge)) (ref_id (e_ID edge)) zeroError.

Definition validate_prompt_references (s : validationState) (derived : DerivedWiring) (edge : Edge)
    (refs : PromptTemplateReferences) : list ValidationError :=
  let ref := prompt_ref edge in
  let e1 := (λ invalid, addHard CodeInvalidTemplatePlaceholder (pi_Message invalid)
               (setNames "" "" (pi_Placeholder invalid) ref)) <$> Invalid refs in
  let e2 := if RefSessionID refs && match edgeSource s edge with Some n => Kind n <>? NodeKindAgent | None => true end
    then [addSessionReferenceError CodeSessionSourceCannotOwnSession (setNames "" "" ".SessionId" ref)] else [] in
  let e3 := Params refs ≫= λ param,
    let name := TrimSpace (pr_Name param) in
    if name ==? RuntimePromptParameterCommentary then []
    else if (name ==? "") || negb (workflowkey.Valid name) || negb (name ∈? current_params s derived edge)
    then [addHard CodeInvalidTemplatePlaceholder "prompt template references an unknown transition parameter"
            (setNames "" name (pr_Placeholder param) ref)] else [] in
  let e4 := PriorParams refs ≫= λ param, validatePriorParameterReference s edge param ref derived in
  (e1 ++ e2 ++ e3 ++ e4)%list.

Definition validate_prompt (s : validationState) (derived : DerivedWiring) (edge : Edge) : option (list ValidationError) :=
  let prompt := TrimSpace (e_PromptTemplate edge) in
  if prompt ==? "" then Some []
  else outcome ← ExtractPromptTemplateReferences Parse prompt;
    Some match outcome with
         | Err _ => [addHard CodeInvalidTemplatePlaceholder "prompt template syntax is invalid" (prompt_ref edge)]
         | Ok refs => validate_prompt_references s derived edge refs
         end.

Definition validatePromptPlaceholders (s : validationState) : option (list ValidationError) :=
  derived ← DeriveWiringWithCatalog (ExtractPromptTemplateReferences Parse) def (vo_RoleResolver opts);
  mjoin <$> mapM (validate_prompt s derived) (d_Edges def).

Definition validateGraph (s : validationState) : option (list ValidationError) :=
  let e1 := validateKindConstraints s in
  e2 ← validateRuntimeSupport s;
  match s_startNodes s with
  | [start] =>
    e5 ← validatePromptPlaceholders s;
    Some (e1 ++ e2 ++ validateStartOutgoingShape s start ++ validate_reachability s start ++ e5)%list
  | _ => Some (e1 ++ e2)%list
  end.

(** ** Fan-outs, continuation sources, wiring *)
Definition fanoutHasValidJoin (s : validationState) (group : TransitionGroup) (edges : list Edge) : bool :=
  match mapM (λ edge,
      match fanoutBranchJoinDistances (s_nodesByID s) (s_groupsBySource s) (s_edgesByGroup s)
              (s_outgoingByNode s) (e_TargetNodeID edge) with
      | Some distances => if size distances ==? 0 then None else Some distances
      | None => None
      end) edges with
  | None => false
  | Some branchJoinDistances =>
    match fanoutNearestCommonJoin branchJoinDistances with
    | Some nearestJoinID => nearestJoinID <>? tg_SourceNodeID group
    | None => false
    end
  end.

Definition validateFanouts (s : validationState) : list ValidationError :=
  d_TransitionGroups def ≫= λ group,
    let edges := getl (s_edgesByGroup s) (tg_ID group) in
    if (length edges <=? 1)%nat then []
    else if fanoutHasValidJoin s group edges then []
    else [addSemantic CodeInvalidFanoutJoinTopology
            "fan-out transition group must have one unambiguous nearest common join without terminal, nested fan-out, or cycle before it"
            (group_ref group)].

(** [validateStaticContinuationSources] of session_reuse_analysis.go. *)
Context (validateStaticContinuationSources : WorkflowDefinition → NodeID → list EdgeID).

Definition validateContinuationSources (s : validationState) : list ValidationError :=
  match s_startNodes s with
  | [start] =>
    validateStaticContinuationSources def (NodeIDOf start) ≫= λ edgeID,
      match s_edgesByID s !! edgeID with
      | None => []
      | Some edge => [addSemantic CodeInvalidContextSource
          "transition requires one exact active source across every fan-out branch"
          (setRefs (Some (d_ID def)) None (ref_id (e_TransitionGroupID edge)) (Some (e_ID edge)) zeroError)]
      end
  | _ => []
  end.

Definition validateDerivedWiring : option (list ValidationError) :=
  derived ← DeriveWiring (ExtractPromptTemplateReferences Parse) def;
  Some ((λ diagnostic,
    setRefs (match ve_WorkflowID diagnostic with None => Some (d_ID def) | w => w end)
      (ve_NodeID diagnostic) (ve_TransitionGroupID diagnostic) (ve_EdgeID diagnostic) diagnostic) <$> Diagnostics derived).
End validation.

Definition effective_context (opts : ValidationOptions) : string :=
  if vo_Context opts ==? "" then ValidationContextDraft else vo_Context opts.

(** [None] is a panic. *)
Definition ValidateDefinition `{RangeOrder} (Parse : string → result string (gmap string (option TNode)))
    (validateStaticContinuationSources : WorkflowDefinition → NodeID → list EdgeID)
    (def : WorkflowDefinition) (opts : ValidationOptions) : option ValidationResult :=
  let context := effective_context opts in
  if IsZero (d_ID def) then
    Some {| vr_Context := context;
            vr_Errors := [addHard CodeMissingWorkflowID "workflow id is required" zeroError] |}
  else
    let '(s, shape) := validateShape def context in
    graph ← validateGraph def context opts Parse s;
    wiring ← validateDerivedWiring def Parse;
    Some {| vr_Context := context;
            vr_Errors := (shape ++ graph ++ validateFanouts def context s ++
              validateContinuationSources def context validateStaticContinuationSources s ++ wiring)%list |}.
