(* ===== verification/ValidationFacts.v ===== *)
(** * Facts about validation

    What a silent index pass says of the definition, and that outside drafts
    every diagnostic blocks. *)
From Stdlib Require Import NArith String Ascii.
From stdpp Require Import gmap strings list.
From S2P Require Import Prelude GoStrings Types Selection Reach Fanout PromptRefs Wiring PromptSession Validation.

Local Open Scope string_scope.

(** ** Every diagnostic blocks outside drafts *)
Section blocking.
Context `{RangeOrder} (def : WorkflowDefinition) (context : string).
Hypothesis Hcontext : context ≠ ValidationContextDraft.

Definition blocks (e : ValidationError) : Prop := BlocksContext e = true.

Lemma addSemantic_blocks code message ref : blocks (addSemantic context code message ref).
Proof. unfold blocks, addSemantic. simpl. by rewrite bool_decide_eq_false_2. Qed.
Lemma addHard_blocks code message ref : blocks (addHard code message ref).
Proof. done. Qed.
Lemma addSessionReferenceError_blocks code ref : blocks (addSessionReferenceError code ref).
Proof. done. Qed.
End blocking.

(** Splits the lists of diagnostics a check returns. *)
Ltac blocks_tac :=
  repeat match goal with
  | H : Forall blocks ?l |- Forall blocks ?l => exact H
  | |- Forall _ (_ ++ _) => apply Forall_app; split
  | |- Forall _ [] => constructor
  | |- Forall _ (_ :: _) => constructor
  | |- blocks (addHard _ _ _) => apply addHard_blocks
  | |- blocks (addSessionReferenceError _ _) => apply addSessionReferenceError_blocks
  | |- blocks (addSemantic _ _ _ _) => by apply addSemantic_blocks
  | |- Forall _ (_ <$> _) => apply Forall_fmap, Forall_true; intros ?; simpl
  | |- Forall _ (_ ≫= _) => apply Forall_bind_all; intros ?
  | |- context [match ?o with _ => _ end] =>
    lazymatch o with context [match _ with _ => _ end] => fail | _ => destruct o end
  | |- Forall _ (_, _).2 => cbn [snd]
  end.

Section blocking_checks.
Context `{RangeOrder} (def : WorkflowDefinition) (context : string).
Hypothesis Hcontext : context ≠ ValidationContextDraft.

Lemma check_workflow_blocks id m1 m2 ref : Forall blocks (check_workflow def id m1 m2 ref).
Proof. unfold check_workflow. blocks_tac. Qed.

Lemma index_blocks groupsByID groups starts :
  Forall blocks (indexNodeGroups def).2 ∧ Forall blocks (indexNodes def).2 ∧
  Forall blocks (indexTransitionGroups def).2 ∧ Forall blocks (indexEdges def groupsByID).2 ∧
  Forall blocks (validateNodes def groups starts).2.
Proof.
  split_and!.
  - unfold indexNodeGroups.
    assert (Forall blocks (fold_emit (index_node_group def) (∅, ∅) (d_NodeGroups def)).2) as Hf.
    { apply Forall_fold_emit. intros [m seen] g. unfold index_node_group.
      pose proof (check_workflow_blocks (ng_WorkflowID g) "node group workflow id is required"
        "node group references another workflow" (node_group_ref def g)). cbv zeta; blocks_tac. }
    by destruct (fold_emit _ _ _) as [[??]?].
  - apply Forall_fold_emit. intros [m starts'] n. unfold index_node.
    pose proof (check_workflow_blocks (NodeWorkflowID n) "node workflow id is required"
      "node references another workflow" (node_ref def (NodeIDOf n))). cbv zeta; blocks_tac.
  - apply Forall_fold_emit. intros s g. unfold index_group.
    pose proof (check_workflow_blocks (tg_WorkflowID g) "transition group workflow id is required"
      "transition group references another workflow" (group_ref def g)). cbv zeta; blocks_tac.
  - apply Forall_fold_emit. intros s e. unfold index_edge.
    pose proof (check_workflow_blocks (e_WorkflowID e) "edge workflow id is required"
      "edge references another workflow" (edge_ref def e)). cbv zeta; blocks_tac.
  - unfold validateNodes.
    assert (Forall blocks (fold_emit (validate_node def groups) ∅ (d_Nodes def)).2) as Hf.
    { apply Forall_fold_emit. intros keys n. unfold validate_node. cbv zeta; blocks_tac. }
    destruct (fold_emit _ _ _) as [keys errors]. simpl in *. blocks_tac.
Qed.

Lemma validateParameters_blocks edge ref : Forall blocks (validateParameters edge ref).
Proof.
  unfold validateParameters.
  assert (∀ ps, Forall blocks (fold_emit (validate_parameter edge ref) (∅, ∅) ps).2) as Hf.
  { intros ps. apply Forall_fold_emit. intros [seen purposes] [i p]. unfold validate_parameter. cbn [snd]. blocks_tac. }
  specialize (Hf (imap pair (e_Parameters edge))). destruct (fold_emit _ _ _) as [[??]?]. simpl in *. blocks_tac.
Qed.

Lemma validateNodeGroups_blocks s : Forall blocks (validateNodeGroups def s).
Proof. unfold validateNodeGroups, validate_node_group. blocks_tac. Qed.

Lemma validateTransitionGroups_blocks s : Forall blocks (validateTransitionGroups def s).
Proof.
  unfold validateTransitionGroups, validate_transition_group. apply Forall_bind_all. intros g. blocks_tac;
    try (apply Forall_fold_emit; intros seen e; unfold check_edge_key; cbn [snd]; blocks_tac).
Qed.

Lemma validateEdges_blocks s : Forall blocks (validateEdges def context s).
Proof.
  unfold validateEdges, validate_edge, validateEdgeInvocationContract. apply Forall_bind_all. intros e.
  blocks_tac; apply validateParameters_blocks.
Qed.

Lemma validateShape_blocks : Forall blocks (validateShape def context).2.
Proof.
  unfold validateShape.
  destruct (index_blocks (gi_groupsByID (indexTransitionGroups def).1) (indexNodeGroups def).1 (indexNodes def).1.2)
    as (H1 & H2 & H3 & H4 & H5).
  destruct (indexNodeGroups def) as [ng e2], (indexNodes def) as [[nodes starts] e3],
    (indexTransitionGroups def) as [gi e4]. simpl in *.
  destruct (indexEdges def _) as [ei e5], (validateNodes def _ _) as [keys e6]. simpl in *.
  set (s := Build_validationState _ _ _ _ _ _ _ _ _ _). repeat (apply Forall_app; split); try done.
  - blocks_tac.
  - unfold validateExecutionTargetPolicy. blocks_tac.
  - apply validateNodeGroups_blocks.
  - apply validateTransitionGroups_blocks.
  - apply validateEdges_blocks.
Qed.

End blocking_checks.

Section returns.
(** A check that may dereference nil: what it returns satisfies [P]. *)
Definition returns {A} (P : A → Prop) (o : option A) : Prop := ∀ a, o = Some a → P a.

Lemma returns_mapM_join {A B} (P : B → Prop) (f : A → option (list B)) (l : list A) :
  (∀ a, returns (Forall P) (f a)) → returns (Forall P) (mjoin <$> mapM f l).
Proof.
  intros Hf r. rewrite mapM_join. intros (rs & Hrs & ->).
  induction Hrs as [|a b l rs Hab _ IH]; simpl; [done|]. apply Forall_app. split; [by apply (Hf a)|done].
Qed.

Lemma returns_Some {A} (P : A → Prop) a : P a → returns P (Some a).
Proof. by intros ?? [= <-]. Qed.
Lemma returns_bind {A B} (P : B → Prop) (o : option A) (f : A → option B) :
  (∀ a, o = Some a → returns P (f a)) → returns P (o ≫= f).
Proof. destruct o; simpl; [by auto|done]. Qed.
End returns.

Ltac returns_tac :=
  repeat match goal with
  | |- returns _ (Some _) => apply returns_Some
  | |- returns _ (_ ≫= _) => apply returns_bind; intros ? ?
  | |- returns _ (if ?b then _ else _) => destruct b
  | |- returns _ (match ?o with _ => _ end) => destruct o
  end.

Section blocking_graph.
Context `{RangeOrder} (def : WorkflowDefinition) (context : string) (opts : ValidationOptions).
Context (Parse : string → result string (gmap string (option TNode))).
Hypothesis Hcontext : context ≠ ValidationContextDraft.

Lemma validateContextSource_blocks s edge source target ref :
  returns (Forall blocks) (validateContextSource context s edge source target ref).
Proof.
  assert (∀ c src m r, Forall blocks (check_guaranteed context s c src m r)) as Hg.
  { intros. unfold check_guaranteed. blocks_tac. }
  unfold validateContextSource. cbv zeta. returns_tac; blocks_tac; apply Hg.
Qed.

Lemma validateSelectorApplicability_blocks s edge source target ref :
  Forall blocks (validateSelectorApplicability context opts s edge source target ref).
Proof.
  unfold validateSelectorApplicability. destruct (PlanTransitionSelection _) as [plan planErr]. cbv zeta. blocks_tac.
Qed.

Lemma validateRuntimeSupport_blocks s : returns (Forall blocks) (validateRuntimeSupport def context opts s).
Proof.
  apply returns_mapM_join. intros edge. unfold validate_runtime_edge. cbv zeta.
  apply returns_bind. intros e1 He1%validateContextSource_blocks. apply returns_Some.
  apply Forall_app. split; [done|]. apply Forall_app.
  split; [apply validateSelectorApplicability_blocks|blocks_tac].
Qed.

Lemma validateKindConstraints_blocks s : Forall blocks (validateKindConstraints def context opts s).
Proof. apply Forall_bind_all. intros node. unfold validate_kind. cbv zeta. blocks_tac. Qed.

Lemma validate_reachability_blocks s start :
  Forall blocks (validateStartOutgoingShape def context s start) ∧
  Forall blocks (validate_reachability def context s start).
Proof.
  split.
  - unfold validateStartOutgoingShape. blocks_tac.
  - unfold validate_reachability. apply Forall_bind_all. intros [nodeID node]. blocks_tac.
Qed.

Lemma validatePriorParameterReference_blocks s edge param ref derived :
  Forall blocks (validatePriorParameterReference def opts s edge param ref derived).
Proof.
  unfold validatePriorParameterReference, validatePriorSessionReference. cbv zeta.
  destruct (_ || _); [blocks_tac|]. destruct (edgeSource s edge); [|done].
  destruct (s_startNodes s) as [|start [|]]; [done| |done].
  destruct (bool_decide _); [|destruct (bool_decide _); [|destruct (Guaranteed _) as [|? [|]]]]; blocks_tac.
Qed.

Lemma validatePromptPlaceholders_blocks s :
  returns (Forall blocks) (validatePromptPlaceholders def opts Parse s).
Proof.
  unfold validatePromptPlaceholders. apply returns_bind. intros derived _. apply returns_mapM_join. intros edge.
  unfold validate_prompt. cbv zeta. returns_tac; [blocks_tac|]. case_match; [|blocks_tac].
  unfold validate_prompt_references. cbv zeta. repeat (apply Forall_app; split).
  - blocks_tac.
  - destruct (_ && _); blocks_tac.
  - apply Forall_bind_all. intros param. destruct (bool_decide _); [done|]. destruct (_ || _); blocks_tac.
  - apply Forall_bind_all. intros. apply validatePriorParameterReference_blocks.
Qed.

(** ** The wiring diagnostics *)
Lemma appendCompatible_blocks existing additions ref :
  Forall blocks (appendCompatibleOutputFields existing additions ref).2.
Proof.
  unfold appendCompatibleOutputFields.
  assert (Forall blocks (fold_emit (append_compatible ref) (existing, field_positions existing) additions).2) as Hf.
  { apply Forall_fold_emit. intros [out seen] field. unfold append_compatible. cbv zeta. blocks_tac; done. }
  by destruct (fold_emit _ _ _) as [[??]?].
Qed.

(** Splits the merges of field lists. *)
Ltac split_compatible :=
  repeat match goal with |- context [appendCompatibleOutputFields ?a ?b ?c] =>
    let Hc := fresh "Hc" in pose proof (appendCompatible_blocks a b c) as Hc;
    destruct (appendCompatibleOutputFields a b c) end;
  simpl in *; repeat (apply Forall_app; split); done.

Lemma add_provision_blocks w edgeID groupID nodeID fields ref :
  Forall blocks (addRequiredProvisionFields w edgeID groupID fields).2 ∧
  Forall blocks (addPossibleProvisionFields w nodeID fields ref).2.
Proof.
  unfold addRequiredProvisionFields, addPossibleProvisionFields. split; split_compatible.
Qed.

Lemma derive_provision_blocks catalog ix : Forall blocks (derive_provision catalog def ix).2.
Proof.
  apply Forall_fold_emit. intros w edge. unfold derive_provision_edge.
  destruct (wi_groupsByID ix !! _) as [group|]; [|done]. destruct (wi_nodesByID ix !! _) as [source|]; [|done].
  destruct (_ || _); [done|]. cbv zeta. destruct (bool_decide _); [done|].
  match goal with |- context [addRequiredProvisionFields ?w ?e ?g ?f] =>
    pose proof (proj1 (add_provision_blocks w e g "" f zeroError)) as H1;
    destruct (addRequiredProvisionFields w e g f) as [w1 d1] end.
  match goal with |- context [addPossibleProvisionFields ?w ?n ?f ?r] =>
    pose proof (proj2 (add_provision_blocks w "" "" n f r)) as H2;
    destruct (addPossibleProvisionFields w n f r) as [w2 d2] end.
  simpl in *. by apply Forall_app.
Qed.

Lemma derive_joins_blocks catalog ix : Forall blocks (derive_joins catalog def ix).2.
Proof.
  apply Forall_fold_emit. intros [providers outputs] join. destruct (bool_decide _); [|done].
  unfold deriveJoinAggregateParameters.
  match goal with |- context [fold_emit (join_scan_edge ?c ?i ?j) ?s ?l] =>
    assert (Forall blocks (fold_emit (join_scan_edge c i j) s l).2) as H1;
    [|destruct (fold_emit (join_scan_edge c i j) s l) as [scan d1]] end.
  { apply Forall_fold_emit. intros st edge. unfold join_scan_edge. cbv zeta.
    destruct (bool_decide _); [done|]. split_compatible. }
  assert (Forall blocks (join_aggregate join scan).2) as H2; [|destruct (join_aggregate _ _); by apply Forall_app].
  unfold join_aggregate.
  match goal with |- context [fold_emit ?f ?s ?l] =>
    assert (Forall blocks (fold_emit f s l).2) as H2; [|by destruct (fold_emit f s l) as [[??]?]] end.
  apply Forall_fold_emit. intros st groupID. apply Forall_fold_emit. intros [owners aggregate] field.
  unfold aggregate_field. cbv zeta. blocks_tac; done.
Qed.

Lemma validateDerivedWiring_blocks : returns (Forall blocks) (validateDerivedWiring def Parse).
Proof.
  unfold validateDerivedWiring, DeriveWiring. apply returns_bind. intros derived.
  rewrite fmap_Some. intros (refs & _ & ->). apply returns_Some. rewrite Forall_fmap.
  enough (Forall blocks (Diagnostics (deriveWiring def None refs))) as Hd.
  { eapply Forall_impl; [exact Hd|]. done. }
  unfold deriveWiring. pose proof (derive_provision_blocks None (wiring_index_of def)).
  pose proof (derive_joins_blocks None (wiring_index_of def)).
  destruct (derive_provision _ _ _), (derive_joins _ _ _), (deriveCurrentNodeValueEnvironment _ _ _ _ _).
  by apply Forall_app.
Qed.

(** Outside drafts every diagnostic of a validation blocks. *)
Lemma ValidateDefinition_blocks static r :
  effective_context opts = context →
  ValidateDefinition Parse static def opts = Some r → Forall blocks (vr_Errors r).
Proof.
  intros Heff. unfold ValidateDefinition. rewrite Heff. destruct (IsZero _); [intros [= <-]; simpl; blocks_tac|].
  pose proof (validateShape_blocks def context Hcontext) as Hshape.
  destruct (validateShape def _) as [s shape]. simpl in Hshape.
  destruct (validateGraph _ _ _ _ _) as [graph|] eqn:Hgraph; [|done]. simpl.
  destruct (validateDerivedWiring _ _) as [wiring|] eqn:Hwiring; [|done]. simpl. intros [= <-]. simpl.
  apply validateDerivedWiring_blocks in Hwiring. repeat (apply Forall_app; split); try done.
  - unfold validateGraph in Hgraph. revert Hgraph.
    destruct (validateRuntimeSupport _ _ _ _) as [e2|] eqn:E2; [|done]. simpl.
    apply validateRuntimeSupport_blocks in E2. pose proof (validateKindConstraints_blocks s).
    destruct (s_startNodes s) as [|start [|]]; [by intros [= <-]; apply Forall_app| |by intros [= <-]; apply Forall_app].
    destruct (validatePromptPlaceholders _ _ _ _) as [e5|] eqn:E5; [|done]. intros [= <-].
    apply validatePromptPlaceholders_blocks in E5. destruct (validate_reachability_blocks s start).
    by repeat (apply Forall_app; split).
  - unfold validateFanouts. apply Forall_bind_all. intros group. cbv zeta. blocks_tac.
  - unfold validateContinuationSources. destruct (s_startNodes s) as [|? [|]]; try done.
    apply Forall_bind_all. intros. blocks_tac.
Qed.
End blocking_graph.
