(* ===== verification/ValidationSound.v ===== *)
(** * What a definition without diagnostics satisfies

    Each silent pass of the validator is read back as a property of the
    definition: identifiers are unique and present, the maps of the passes
    are the plain indexes of the definition, and every reference resolves. *)
From Stdlib Require Import NArith String Ascii.
From stdpp Require Import gmap strings list.
From S2P Require Import Prelude GoStrings Types Selection Reach Fanout FanoutFacts PromptRefs Wiring PromptSession Validation.

Local Open Scope string_scope.

(** The diagnostics of a silent check are empty piece by piece. *)
Ltac silent H :=
  repeat match type of H with
  | (_ ++ _)%list = [] => let H1 := fresh "Hs" in apply app_eq_nil in H as [H1 H]; silent H1
  end.

Lemma NoDup_fmap_eq {A B} (f : A → B) (l : list A) a b :
  NoDup (f <$> l) → a ∈ l → b ∈ l → f a = f b → a = b.
Proof.
  induction l as [|x l IH]; [by intros _ ?%elem_of_nil|]. simpl. rewrite NoDup_cons. intros [Hx Hnd].
  intros [->|Ha]%elem_of_cons [->|Hb]%elem_of_cons Hf; [done| | |by apply IH].
  - destruct Hx. rewrite Hf. by apply list_elem_of_fmap_2.
  - destruct Hx. rewrite <- Hf. by apply list_elem_of_fmap_2.
Qed.

Lemma NoDup_fmap_filter {A B} (f : A → B) (P : A → Prop) `{∀ x, Decision (P x)} (l : list A) :
  NoDup (f <$> l) → NoDup (f <$> filter P l).
Proof.
  induction l as [|a l IH]; [done|]. rewrite filter_cons. simpl. rewrite NoDup_cons. intros [Ha Hl].
  case_decide; [|by apply IH]. simpl. apply NoDup_cons. split; [|by apply IH].
  intros (b & Hb & [_ ?]%list_elem_of_filter)%list_elem_of_fmap. destruct Ha. rewrite Hb. by apply list_elem_of_fmap_2.
Qed.

Lemma NoDup_snoc {A} (l : list A) a : NoDup (l ++ [a])%list ↔ NoDup l ∧ a ∉ l.
Proof.
  rewrite NoDup_app. setoid_rewrite list_elem_of_singleton. split.
  - intros (? & Hd & _). split; [done|]. intros Ha. by apply (Hd a).
  - intros [? Ha]. split; [done|]. split; [by intros x Hx ->|apply NoDup_singleton].
Qed.

(** Looking up a definition's entity by identifier. *)
Section lookup.
Context {A : Type} (id : A → string).

Definition index_by (l : list A) : gmap string A := foldl (λ m a, <[id a := a]> m) ∅ l.

Lemma index_by_snoc l a : index_by (l ++ [a])%list = <[id a := a]> (index_by l).
Proof. unfold index_by. by rewrite foldl_app. Qed.

Lemma index_by_Some (l : list A) k a : index_by l !! k = Some a → a ∈ l ∧ id a = k.
Proof.
  induction l as [|b l IH] using rev_ind; [unfold index_by; simpl; by rewrite lookup_empty|].
  rewrite index_by_snoc, lookup_insert_Some. rewrite elem_of_app, list_elem_of_singleton. naive_solver.
Qed.

Lemma index_by_None (l : list A) k : index_by l !! k = None ↔ k ∉ id <$> l.
Proof.
  induction l as [|b l IH] using rev_ind.
  { unfold index_by. simpl. rewrite lookup_empty. split; [intros _; by apply not_elem_of_nil|done]. }
  rewrite index_by_snoc, lookup_insert_None, IH, fmap_app, not_elem_of_app. simpl.
  rewrite list_elem_of_singleton. naive_solver.
Qed.

Lemma index_by_elem (l : list A) a : NoDup (id <$> l) → a ∈ l → index_by l !! id a = Some a.
Proof.
  intros Hnd Ha. destruct (index_by l !! id a) as [b|] eqn:E.
  - apply index_by_Some in E as [Hb Hid]. f_equal. by eapply NoDup_fmap_eq.
  - apply index_by_None in E. destruct E. by apply list_elem_of_fmap_2.
Qed.
End lookup.

(** ** The index passes *)
Section index.
Context `{RangeOrder} (def : WorkflowDefinition).

Lemma check_workflow_silent id m1 m2 ref :
  check_workflow def id m1 m2 ref = [] → IsZero id = false ∧ id = d_ID def.
Proof.
  unfold check_workflow. destruct (IsZero id); [done|]. case_bool_decide; [done|]. done.
Qed.

(** An entity of the definition's workflow with a usable identifier. *)
Definition owned (id : string) (workflowID : WorkflowID) : Prop :=
  blank id = false ∧ workflowID = d_ID def.

Lemma indexNodes_silent :
  (indexNodes def).2 = [] →
  (indexNodes def).1 = (index_nodes (d_Nodes def), filter (λ n, Kind n = NodeKindStart) (d_Nodes def)) ∧
  NoDup (NodeIDOf <$> d_Nodes def) ∧
  (∀ n, n ∈ d_Nodes def → owned (NodeIDOf n) (NodeWorkflowID n)).
Proof.
  unfold indexNodes. induction (d_Nodes def) as [|n l IH] using rev_ind.
  { intros _. split; [done|]. split; [constructor|]. by intros n ?%elem_of_nil. }
  intros (Hl & Hn & ->)%fold_emit_snoc_silent. destruct (IH Hl) as (E & Hnd & Hown). clear IH.
  rewrite E in Hn |- *. revert Hn. unfold index_node.
  change (index_nodes l) with (index_by NodeIDOf l).
  destruct (blank (NodeIDOf n)) eqn:Hb; simpl; [by intros [_ [=]]%app_eq_nil|].
  destruct (index_by NodeIDOf l !! NodeIDOf n) eqn:El; simpl; [by intros [_ [=]]%app_eq_nil|].
  intros [_ Hw]%check_workflow_silent. split_and!.
  - f_equal; [symmetry; apply index_by_snoc|]. rewrite filter_app, filter_cons, filter_nil.
    case_bool_decide; case_decide; try done. by rewrite app_nil_r.
  - rewrite fmap_app. apply NoDup_snoc. split; [done|]. by apply index_by_None.
  - intros m [Hm| ->%list_elem_of_singleton]%elem_of_app; [by apply Hown|]. by split.
Qed.

Lemma indexTransitionGroups_silent :
  (indexTransitionGroups def).2 = [] →
  let gi := (indexTransitionGroups def).1 in
  gi_groupsByID gi = index_groups (d_TransitionGroups def) ∧
  gi_groupsBySource gi = index_groups_by_source (d_TransitionGroups def) ∧
  NoDup (tg_ID <$> d_TransitionGroups def) ∧
  NoDup ((TrimSpace ∘ tg_TransitionID) <$> d_TransitionGroups def) ∧
  (∀ g, g ∈ d_TransitionGroups def → owned (tg_ID g) (tg_WorkflowID g) ∧
     workflowkey.Valid (TrimSpace (tg_TransitionID g)) = true ∧ validDisplayName (tg_DisplayName g) = true).
Proof.
  cbv zeta. unfold indexTransitionGroups. set (s0 := Build_group_index _ _ _).
  intros Hs.
  cut (gi_groupsByID (fold_emit (index_group def) s0 (d_TransitionGroups def)).1 = index_groups (d_TransitionGroups def) ∧
    gi_groupsBySource (fold_emit (index_group def) s0 (d_TransitionGroups def)).1 = index_groups_by_source (d_TransitionGroups def) ∧
    NoDup (tg_ID <$> d_TransitionGroups def) ∧
    NoDup ((TrimSpace ∘ tg_TransitionID) <$> d_TransitionGroups def) ∧
    (∀ g, g ∈ d_TransitionGroups def → owned (tg_ID g) (tg_WorkflowID g) ∧
       workflowkey.Valid (TrimSpace (tg_TransitionID g)) = true ∧ validDisplayName (tg_DisplayName g) = true) ∧
    (∀ k, is_Some (gi_seenTransitions (fold_emit (index_group def) s0 (d_TransitionGroups def)).1 !! k) ↔
       k ∈ (TrimSpace ∘ tg_TransitionID) <$> d_TransitionGroups def)); [by intros (?&?&?&?&?&_)|].
  revert Hs. induction (d_TransitionGroups def) as [|g l IH] using rev_ind.
  { intros _. do 2 (split; [done|]). do 2 (split; [apply NoDup_nil_2|]). split.
    - by intros g ?%elem_of_nil.
    - intros k. simpl. rewrite lookup_empty. split; [by intros [? [=]]|by intros ?%elem_of_nil]. }
  intros (Hl & Hg & ->)%fold_emit_snoc_silent. destruct (IH Hl) as (E1 & E2 & Hnd & Hndt & Hown & Hseen). clear IH.
  revert Hg. destruct (fold_emit _ s0 l) as [gi e]. simpl in *. unfold index_group. rewrite E1.
  change (index_groups l) with (index_by tg_ID l).
  destruct (blank (tg_ID g)) eqn:Hb; cbn [fst snd negb]; [by intros [_ [=]]%app_eq_nil|].
  destruct (index_by tg_ID l !! tg_ID g) eqn:El; cbn [fst snd negb]; [by intros [_ [=]]%app_eq_nil|].
  case_bool_decide; cbn [fst snd negb]; [by intros [_ [=]]%app_eq_nil|].
  destruct (workflowkey.Valid _) eqn:Hv; cbn [fst snd negb]; [|by intros [_ [=]]%app_eq_nil].
  intros [[_ Hw]%check_workflow_silent [Hdup Hname]%app_eq_nil]%app_eq_nil.
  assert (TrimSpace (tg_TransitionID g) ∉ (TrimSpace ∘ tg_TransitionID) <$> l) as Hfresh.
  { rewrite <- Hseen. intros [p Hp]. by rewrite Hp in Hdup. }
  split_and!.
  - symmetry. apply index_by_snoc.
  - rewrite E2. unfold index_groups_by_source. by rewrite foldl_app.
  - rewrite fmap_app. apply NoDup_snoc. split; [done|]. by apply index_by_None.
  - rewrite fmap_app. apply NoDup_snoc. by split.
  - intros h [Hh| ->%list_elem_of_singleton]%elem_of_app; [by apply Hown|]. split; [by split|].
    split; [done|]. by destruct (validDisplayName _).
  - intros k. cbn [gi_seenTransitions]. rewrite fmap_app, elem_of_app, <- Hseen, lookup_insert_is_Some. simpl. rewrite list_elem_of_singleton.
    destruct (decide (TrimSpace (tg_TransitionID g) = k)) as [<-|Hne].
    + split; [by right|by left].
    + split; [by intros [?|[_ ?]]; [|left]|intros [?| ->]; [by right|done]].
Qed.

Lemma indexEdges_silent groupsByID :
  (indexEdges def groupsByID).2 = [] →
  let ei := (indexEdges def groupsByID).1 in
  ei_edgesByID ei = index_by e_ID (d_Edges def) ∧
  ei_edgesByGroup ei = index_edges_by_group (d_Edges def) ∧
  ei_outgoing ei = index_outgoing groupsByID (d_Edges def) ∧
  (∀ n, getl (ei_incoming ei) n =
     filter (λ e, is_Some (groupsByID !! e_TransitionGroupID e) ∧ e_TargetNodeID e = n) (d_Edges def)) ∧
  NoDup (e_ID <$> d_Edges def) ∧
  (∀ e, e ∈ d_Edges def → owned (e_ID e) (e_WorkflowID e)).
Proof.
  cbv zeta. unfold indexEdges. set (s0 := Build_edge_index _ _ _ _).
  induction (d_Edges def) as [|e l IH] using rev_ind.
  { intros _. do 4 (split; [done|]). split; [apply NoDup_nil_2|]. by intros e ?%elem_of_nil. }
  intros (Hl & He & ->)%fold_emit_snoc_silent. destruct (IH Hl) as (E1 & E2 & E3 & E4 & Hnd & Hown). clear IH.
  revert He. destruct (fold_emit _ s0 l) as [ei es]. simpl in *. unfold index_edge. rewrite E1.
  destruct (blank (e_ID e)) eqn:Hb; simpl; [by intros [_ [=]]%app_eq_nil|].
  destruct (index_by e_ID l !! e_ID e) eqn:El; simpl; [by intros [_ [=]]%app_eq_nil|].
  intros [_ Hw]%check_workflow_silent. split_and!.
  - symmetry. apply index_by_snoc.
  - rewrite E2. unfold index_edges_by_group. by rewrite foldl_app.
  - rewrite E3. unfold index_outgoing. rewrite foldl_app. simpl. by destruct (groupsByID !! _).
  - intros n. rewrite filter_app, filter_cons, filter_nil, <- E4.
    destruct (groupsByID !! e_TransitionGroupID e) eqn:Eg; [destruct (decide (e_TargetNodeID e = n)) as [<-|Hne]|].
    + rewrite decide_True by eauto. apply getl_appendl_eq.
    + rewrite decide_False by (by intros [_ ?]). by rewrite getl_appendl_ne, app_nil_r.
    + rewrite decide_False by (intros [[? [=]] _]). by rewrite app_nil_r.
  - rewrite fmap_app. apply NoDup_snoc. split; [done|]. by apply index_by_None.
  - intros f [Hf| ->%list_elem_of_singleton]%elem_of_app; [by apply Hown|]. by split.
Qed.

(** Node keys: with unique identifiers, a repeated key is another node's. *)
Lemma validateNodes_silent groups starts :
  NoDup (NodeIDOf <$> d_Nodes def) → (validateNodes def groups starts).2 = [] →
  length starts = 1 ∧ NoDup (NodeKey <$> d_Nodes def) ∧
  (validateNodes def groups starts).1 = foldl (λ m n, <[NodeKey n := NodeIDOf n]> m) ∅ (d_Nodes def) ∧
  ∀ n, n ∈ d_Nodes def → blank (NodeKey n) = false ∧ workflowkey.Valid (NodeKey n) = true ∧
    Kind n ≠ NodeKindUnset ∧ (∀ g, NodeGroupID n = Some g → is_Some (groups !! TrimSpace g)).
Proof.
  intros Hids. unfold validateNodes.
  assert ((fold_emit (validate_node def groups) ∅ (d_Nodes def)).2 = [] →
    NoDup (NodeKey <$> d_Nodes def) ∧
    (fold_emit (validate_node def groups) ∅ (d_Nodes def)).1 =
      foldl (λ m n, <[NodeKey n := NodeIDOf n]> m) ∅ (d_Nodes def) ∧
    (∀ n, n ∈ d_Nodes def → blank (NodeKey n) = false ∧ workflowkey.Valid (NodeKey n) = true ∧
      Kind n ≠ NodeKindUnset ∧ (∀ g, NodeGroupID n = Some g → is_Some (groups !! TrimSpace g))) ∧
    (∀ k, (fold_emit (validate_node def groups) ∅ (d_Nodes def)).1 !! k = None ↔ k ∉ NodeKey <$> d_Nodes def) ∧
    (∀ k id, (fold_emit (validate_node def groups) ∅ (d_Nodes def)).1 !! k = Some id →
       id ∈ NodeIDOf <$> d_Nodes def)) as Hfold; last first.
  { destruct (fold_emit _ ∅ _) as [keys es]. simpl in *. intros [Hes Hst]%app_eq_nil.
    destruct (Hfold Hes) as (?&?&?&_). split; [|done]. by destruct starts as [|? [|]]. }
  revert Hids. induction (d_Nodes def) as [|n l IH] using rev_ind; intros Hids.
  { intros _. split; [apply NoDup_nil_2|]. split; [done|]. split; [by intros ? ?%elem_of_nil|]. simpl.
    setoid_rewrite lookup_empty. split; [|done]. intros k. split; [by intros _ ?%elem_of_nil|done]. }
  rewrite fmap_app in Hids. apply NoDup_snoc in Hids as [Hids Hfresh].
  intros (Hl & Hn & ->)%fold_emit_snoc_silent. destruct (IH Hids Hl) as (Hnd & Efold & Hok & Hnone & Hsome). clear IH.
  rewrite foldl_app, <- Efold. clear Efold Hl.
  destruct (fold_emit _ ∅ l) as [keys es]. cbn [fst] in *. revert Hn. unfold validate_node. cbv zeta.
  destruct (blank (NodeKey n)) eqn:Hb; [by intros [[=] _]%app_eq_nil|].
  destruct (workflowkey.Valid (NodeKey n)) eqn:Hv; cbn [negb]; [|by intros [[=] _]%app_eq_nil].
  destruct (keys !! NodeKey n) as [prev|] eqn:Ek.
  { case_bool_decide as Hp; cbn [negb]; [|by intros [[=] _]%app_eq_nil].
    destruct Hfresh. rewrite <- Hp. by eapply Hsome. }
  cbn [snd fst]. intros [_ [_ [Hkind Hgroup]%app_eq_nil]%app_eq_nil]%app_eq_nil. split_and!.
  - rewrite fmap_app. apply NoDup_snoc. split; [done|]. by apply Hnone.
  - done.
  - intros m [Hm| ->%list_elem_of_singleton]%elem_of_app; [by apply Hok|]. split; [done|]. split; [done|].
    split; [by destruct (Kind n)|]. intros g Hg. rewrite Hg in Hgroup.
    destruct (groups !! _); [by eauto|done].
  - intros k. rewrite lookup_insert_None, Hnone, fmap_app, not_elem_of_app. simpl.
    rewrite list_elem_of_singleton. split; [by intros [? ?]; split; [|congruence]|by intros [? ?]; split; [|congruence]].
  - intros k id. rewrite lookup_insert_Some, fmap_app, elem_of_app. simpl. rewrite list_elem_of_singleton.
    intros [[_ <-]|[_ ?%Hsome]]; [by right|by left].
Qed.
End index.

(** ** The definition's graph, declaratively *)
Section graph.
Context (def : WorkflowDefinition).

Definition edges_of (g : TransitionGroup) : list Edge :=
  filter (λ e, e_TransitionGroupID e = tg_ID g) (d_Edges def).
Definition edges_into (n : NodeID) : list Edge := filter (λ e, e_TargetNodeID e = n) (d_Edges def).
Definition groups_from (n : NodeID) : list TransitionGroup :=
  filter (λ g, tg_SourceNodeID g = n) (d_TransitionGroups def).
Definition has_node (id : NodeID) : Prop := ∃ n, n ∈ d_Nodes def ∧ NodeIDOf n = id.

(** The fan-out [g] has a join every branch reaches unobstructed, at a total
    distance strictly below that of every other common join, and which is
    not the node that opens the fan-out. *)
Definition fanout_joined (g : TransitionGroup) : Prop :=
  ∃ ds j d, Forall2 (λ e m,
      (∀ n ns, branch_walk def (e_TargetNodeID e) n ns → ¬ branch_obstructed def n ns) ∧
      ∀ k, min_of (λ d, is_join (nodes_of def) k ∧
        ∃ ns, branch_walk def (e_TargetNodeID e) k ns ∧ length ns = d) (m !! k))
    (edges_of g) ds ∧
  common_distance ds j = Some d ∧ (∀ j' d', common_distance ds j' = Some d' → j' ≠ j → (d < d')%nat) ∧
  j ≠ tg_SourceNodeID g.

Record well_formed (start : Node) : Prop := {
  wf_ids : NoDup (NodeIDOf <$> d_Nodes def) ∧ NoDup (tg_ID <$> d_TransitionGroups def) ∧ NoDup (e_ID <$> d_Edges def);
  wf_owned : (∀ n, n ∈ d_Nodes def → owned def (NodeIDOf n) (NodeWorkflowID n)) ∧
    (∀ g, g ∈ d_TransitionGroups def → owned def (tg_ID g) (tg_WorkflowID g)) ∧
    (∀ e, e ∈ d_Edges def → owned def (e_ID e) (e_WorkflowID e));
  wf_keys : NoDup (NodeKey <$> d_Nodes def) ∧
    NoDup ((TrimSpace ∘ tg_TransitionID) <$> d_TransitionGroups def) ∧
    (∀ g, g ∈ d_TransitionGroups def → NoDup (e_Key <$> edges_of g));
  wf_start : filter (λ n, Kind n = NodeKindStart) (d_Nodes def) = [start];
  wf_start_edges : edges_into (NodeIDOf start) = [] ∧
    ∃ g, groups_from (NodeIDOf start) = [g] ∧ ∀ e, e ∈ edges_of g →
      ∃ n, n ∈ d_Nodes def ∧ NodeIDOf n = e_TargetNodeID e ∧ IsExecutableNode n = true;
  wf_groups : ∀ g, g ∈ d_TransitionGroups def → has_node (tg_SourceNodeID g) ∧ edges_of g ≠ [];
  wf_edges : ∀ e, e ∈ d_Edges def → has_node (e_TargetNodeID e) ∧
    ∃ g, g ∈ d_TransitionGroups def ∧ tg_ID g = e_TransitionGroupID e;
  wf_reachable : ∀ n, n ∈ d_Nodes def → ∃ es, path (outgoing_of def) (NodeIDOf start) es (NodeIDOf n);
  wf_terminating : ∀ n, n ∈ d_Nodes def → ∃ es t, path (outgoing_of def) (NodeIDOf n) es (NodeIDOf t) ∧
    t ∈ d_Nodes def ∧ Kind t = NodeKindTerminal;
  wf_terminal : ∀ n, n ∈ d_Nodes def → Kind n = NodeKindTerminal → groups_from (NodeIDOf n) = [];
  wf_join : ∀ n, n ∈ d_Nodes def → Kind n = NodeKindJoin →
    (2 ≤ length (edges_into (NodeIDOf n)))%nat ∧ ∃ g, groups_from (NodeIDOf n) = [g];
  wf_fanout : ∀ g, g ∈ d_TransitionGroups def → (1 < length (edges_of g))%nat → fanout_joined g }.
End graph.

(** ** Silent checks *)
Section silent.
Context `{RangeOrder} (def : WorkflowDefinition) (context : string) (opts : ValidationOptions).

(** The maps of a silent run are the definition's indexes. *)
Record indexed (s : validationState) : Prop := {
  ix_nodes : s_nodesByID s = index_nodes (d_Nodes def);
  ix_starts : s_startNodes s = filter (λ n, Kind n = NodeKindStart) (d_Nodes def);
  ix_groups : s_groupsByID s = index_groups (d_TransitionGroups def);
  ix_sources : s_groupsBySource s = index_groups_by_source (d_TransitionGroups def);
  ix_edges : s_edgesByID s = index_by e_ID (d_Edges def);
  ix_edgesByGroup : s_edgesByGroup s = index_edges_by_group (d_Edges def);
  ix_outgoing : s_outgoingByNode s = outgoing_of def;
  ix_incoming : ∀ n, getl (s_incomingByNode s) n =
    filter (λ e, is_Some (index_groups (d_TransitionGroups def) !! e_TransitionGroupID e) ∧ e_TargetNodeID e = n)
      (d_Edges def);
  ix_nodeKeys : s_nodeKeys s = foldl (λ m n, <[NodeKey n := NodeIDOf n]> m) ∅ (d_Nodes def) }.

(** Edge keys of a group: with unique edge identifiers, a repeated key is
    another edge's. *)
Lemma check_edge_keys_silent (l : list Edge) :
  NoDup (e_ID <$> l) → (∀ e, e ∈ l → blank (e_Key e) = false ∧ workflowkey.Valid (e_Key e) = true) →
  (fold_emit (check_edge_key def) ∅ l).2 = [] →
  NoDup (e_Key <$> l).
Proof.
  intros Hids Hok Hs.
  cut (NoDup (e_Key <$> l) ∧
    (∀ k, (fold_emit (check_edge_key def) ∅ l).1 !! k = None ↔ k ∉ e_Key <$> l) ∧
    (∀ k id, (fold_emit (check_edge_key def) ∅ l).1 !! k = Some id → id ∈ e_ID <$> l)); [by intros [? _]|].
  revert Hids Hok Hs. induction l as [|e l IH] using rev_ind; intros Hids Hok.
  { intros _. split; [apply NoDup_nil_2|]. simpl. setoid_rewrite lookup_empty. split; [|done].
    intros k. split; [by intros _ ?%elem_of_nil|done]. }
  rewrite fmap_app in Hids. apply NoDup_snoc in Hids as [Hids Hfresh].
  intros (Hl & He & ->)%fold_emit_snoc_silent.
  destruct (IH Hids) as (Hnd & Hnone & Hsome); [by intros; apply Hok, elem_of_app; left|done|]. clear IH Hl.
  destruct (Hok e) as [Hb Hv]; [apply elem_of_app; right; by apply list_elem_of_singleton|].
  destruct (fold_emit _ ∅ l) as [keys es]. cbn [fst] in *. revert He. unfold check_edge_key. rewrite Hb, Hv.
  cbn [fst snd negb orb]. intros Hdup.
  assert (keys !! e_Key e = None) as Ek.
  { destruct (keys !! e_Key e) as [prev|] eqn:Ek; [|done]. apply Hsome in Ek.
    case_bool_decide as Hp; [|done]. by rewrite <- Hp in Hfresh. }
  split_and!.
  - rewrite fmap_app. apply NoDup_snoc. split; [done|]. by apply Hnone.
  - intros k. rewrite lookup_insert_None, Hnone, fmap_app, not_elem_of_app. simpl.
    rewrite list_elem_of_singleton. split; [by intros [? ?]; split; [|congruence]|by intros [? ?]; split; [|congruence]].
  - intros k id. rewrite lookup_insert_Some, fmap_app, elem_of_app. simpl. rewrite list_elem_of_singleton.
    intros [[_ <-]|[_ ?%Hsome]]; [by right|by left].
Qed.

Lemma has_node_lookup id : NoDup (NodeIDOf <$> d_Nodes def) →
  is_Some (index_nodes (d_Nodes def) !! id) ↔ has_node def id.
Proof.
  intros Hnd. change (index_nodes (d_Nodes def)) with (index_by NodeIDOf (d_Nodes def)). split.
  - intros [n [Hn <-]%index_by_Some]. by exists n.
  - intros (n & Hn & <-). exists n. by apply index_by_elem.
Qed.

Lemma validate_transition_group_silent s g :
  indexed s → NoDup (NodeIDOf <$> d_Nodes def) → validate_transition_group def s g = [] →
  has_node def (tg_SourceNodeID g) ∧ edges_of def g ≠ [] ∧ (fold_emit (check_edge_key def) ∅ (edges_of def g)).2 = [].
Proof.
  intros Hix Hnd. unfold validate_transition_group. cbv zeta.
  rewrite (ix_nodes _ Hix), (ix_edgesByGroup _ Hix), getl_index_edges_by_group. fold (edges_of def g).
  intros [He1 [He2 He3]%app_eq_nil]%app_eq_nil. split_and!; [|by destruct (edges_of def g)|done].
  apply has_node_lookup; [done|]. destruct (blank _); [done|]. destruct (_ !! tg_SourceNodeID g); [by eauto|done].
Qed.

Lemma validate_edge_silent s e :
  indexed s → NoDup (NodeIDOf <$> d_Nodes def) → validate_edge def context s e = [] →
  has_node def (e_TargetNodeID e) ∧ blank (e_Key e) = false ∧ workflowkey.Valid (e_Key e) = true ∧
  validateEdgeInvocationContract context s e (edge_ref def e) = [] ∧
  ∃ g, g ∈ d_TransitionGroups def ∧ tg_ID g = e_TransitionGroupID e.
Proof.
  intros Hix Hnd. unfold validate_edge. cbv zeta. rewrite (ix_nodes _ Hix), (ix_groups _ Hix).
  intros [H1 [H2 [H3 [_ [_ [_ H7]%app_eq_nil]%app_eq_nil]%app_eq_nil]%app_eq_nil]%app_eq_nil]%app_eq_nil.
  change (index_groups (d_TransitionGroups def)) with (index_by tg_ID (d_TransitionGroups def)) in H1.
  split_and!; [| | |done|].
  - apply has_node_lookup; [done|]. destruct (blank (e_TargetNodeID e)); [done|]. destruct (index_nodes _ !! e_TargetNodeID e); [by eauto|done].
  - by destruct (blank _).
  - destruct (blank _); [done|]. by destruct (workflowkey.Valid _).
  - destruct (_ !! e_TransitionGroupID e) as [g|] eqn:E; [|done]. apply index_by_Some in E as [? ?]. by exists g.
Qed.

(** What the shape checks establish. *)
Record shaped (s : validationState) : Prop := {
  sh_indexed : indexed s;
  sh_ids : NoDup (NodeIDOf <$> d_Nodes def) ∧ NoDup (tg_ID <$> d_TransitionGroups def) ∧ NoDup (e_ID <$> d_Edges def);
  sh_owned : (∀ n, n ∈ d_Nodes def → owned def (NodeIDOf n) (NodeWorkflowID n)) ∧
    (∀ g, g ∈ d_TransitionGroups def → owned def (tg_ID g) (tg_WorkflowID g)) ∧
    (∀ e, e ∈ d_Edges def → owned def (e_ID e) (e_WorkflowID e));
  sh_keys : NoDup (NodeKey <$> d_Nodes def) ∧
    NoDup ((TrimSpace ∘ tg_TransitionID) <$> d_TransitionGroups def) ∧
    (∀ g, g ∈ d_TransitionGroups def → NoDup (e_Key <$> edges_of def g));
  sh_start : length (filter (λ n, Kind n = NodeKindStart) (d_Nodes def)) = 1%nat;
  sh_groups : ∀ g, g ∈ d_TransitionGroups def → has_node def (tg_SourceNodeID g) ∧ edges_of def g ≠ [];
  sh_edges : ∀ e, e ∈ d_Edges def → has_node def (e_TargetNodeID e) ∧
    ∃ g, g ∈ d_TransitionGroups def ∧ tg_ID g = e_TransitionGroupID e }.

(** The checks the shape depends on. *)
Lemma validateShape_parts :
  let s := (validateShape def context).1 in
  (indexNodes def).2 = [] → (indexTransitionGroups def).2 = [] → (indexEdges def (gi_groupsByID (indexTransitionGroups def).1)).2 = [] →
  (validateNodes def (indexNodeGroups def).1 (indexNodes def).1.2).2 = [] → validateTransitionGroups def s = [] → validateEdges def context s = [] →
  shaped s.
Proof.
  cbv zeta. unfold validateShape.
  pose proof (indexNodes_silent def) as Hn. pose proof (indexTransitionGroups_silent def) as Hg.
  destruct (indexNodeGroups def) as [ng e2], (indexNodes def) as [[nodes starts] e3],
    (indexTransitionGroups def) as [gi e4]. cbn [fst snd] in *.
  pose proof (indexEdges_silent def (gi_groupsByID gi)) as He.
  pose proof (validateNodes_silent def ng starts) as Hk.
  destruct (indexEdges def _) as [ei e5], (validateNodes def _ _) as [keys e6]. cbn [fst snd] in *. cbv zeta in *.
  set (s := Build_validationState _ _ _ _ _ _ _ _ _ _).
  intros H3 H4 H5 H6 H8 H9.
  destruct (Hn H3) as (En & Hnd & Hown). injection En as -> ->.
  destruct (Hg H4) as (Eg1 & Eg2 & Hgnd & Htnd & Hgown).
  destruct (He H5) as (Ee1 & Ee2 & Ee3 & Ee4 & Hend & Heown).
  destruct (Hk Hnd H6) as (Hone & Hknd & Ekeys & _). clear Hn Hg He Hk H3 H4 H5 H6.
  assert (indexed s) as Hix.
  { subst s. split; simpl; try done; try congruence; rewrite ?Ee3, ?Eg1; [done|]. intros n. by rewrite Ee4, Eg1. }
  assert (∀ e, e ∈ d_Edges def → validate_edge def context s e = []) as Hedges by by apply bind_nil.
  assert (∀ g, g ∈ d_TransitionGroups def → validate_transition_group def s g = []) as Hgroups by by apply bind_nil.
  split; try done.
  - split_and!; try done. intros g Hg. by apply Hgown.
  - split_and!; try done. intros g Hg. apply check_edge_keys_silent.
    + apply NoDup_fmap_filter; done.
    + intros e [_ He]%list_elem_of_filter. destruct (validate_edge_silent s e Hix Hnd (Hedges e He)) as (_&?&?&_). by split.
    + by apply (validate_transition_group_silent s g Hix Hnd), Hgroups.
  - intros g Hg. destruct (validate_transition_group_silent s g Hix Hnd (Hgroups g Hg)) as (?&?&_). by split.
  - intros e He. destruct (validate_edge_silent s e Hix Hnd (Hedges e He)) as (?&_&_&_&?). by split.
Qed.

Lemma validateShape_silent :
  (validateShape def context).2 = [] → shaped (validateShape def context).1.
Proof.
  pose proof validateShape_parts as Hparts. revert Hparts. unfold validateShape.
  destruct (indexNodeGroups def) as [ng e2], (indexNodes def) as [[nodes starts] e3],
    (indexTransitionGroups def) as [gi e4]. cbn [fst snd] in *.
  destruct (indexEdges def _) as [ei e5], (validateNodes def _ _) as [keys e6]. cbn [fst snd] in *. cbv zeta. intros Hparts.
  intros [_ [_ [_ [H3 [H4 [H5 [H6 [_ [H8 H9]%app_eq_nil]%app_eq_nil]%app_eq_nil]%app_eq_nil]%app_eq_nil]%app_eq_nil]%app_eq_nil]%app_eq_nil]%app_eq_nil.
  by apply Hparts.
Qed.

Lemma getl_groups_from n : getl (index_groups_by_source (d_TransitionGroups def)) n = groups_from def n.
Proof.
  unfold index_groups_by_source, groups_from.
  rewrite (getl_foldl_appendl (λ g, Some (tg_SourceNodeID g)) (λ g, g)), getl_empty, list_fmap_id.
  apply list_filter_iff. intros g. split; [by intros [= ->]|by intros ->].
Qed.

Lemma getl_edges_into s n : shaped s → getl (s_incomingByNode s) n = edges_into def n.
Proof.
  intros Hs. rewrite (ix_incoming _ (sh_indexed _ Hs)). unfold edges_into.
  assert (∀ l : list Edge, (∀ e, e ∈ l → e ∈ d_Edges def) →
    filter (λ e, is_Some (index_groups (d_TransitionGroups def) !! e_TransitionGroupID e) ∧ e_TargetNodeID e = n) l =
    filter (λ e, e_TargetNodeID e = n) l) as Hl; [|by apply Hl].
  induction l as [|e l IH]; intros Hsub; [done|]. rewrite !filter_cons.
  rewrite IH by (intros; apply Hsub; by right).
  destruct (sh_edges _ Hs e) as [_ (g & Hg & <-)]; [apply Hsub; by left|].
  destruct (decide (e_TargetNodeID e = n)) as [Ht|Ht].
  - rewrite decide_True; [done|]. split; [|done]. exists g. apply (index_by_elem tg_ID); [apply (sh_ids _ Hs)|done].
  - rewrite decide_False by (by intros [_ ?]). done.
Qed.

Lemma validate_kind_silent s n :
  shaped s → validate_kind def context opts s n = [] →
  (Kind n = NodeKindStart → edges_into def (NodeIDOf n) = []) ∧
  (Kind n = NodeKindTerminal → groups_from def (NodeIDOf n) = []) ∧
  (Kind n = NodeKindJoin → (2 ≤ length (edges_into def (NodeIDOf n)))%nat ∧
     ∃ g, groups_from def (NodeIDOf n) = [g]).
Proof.
  intros Hs. unfold validate_kind. cbv zeta.
  rewrite getl_edges_into, (ix_sources _ (sh_indexed _ Hs)), getl_groups_from by done.
  intros Hk. destruct (Kind n); split_and!; intros Hkind; try done.
  - destruct (negb _ || _)%nat eqn:E; [done|]. apply orb_false_iff in E as [_ E].
    apply Nat.ltb_ge in E. apply nil_length_inv. lia.
  - apply app_eq_nil in Hk as [_ [H2 H3]%app_eq_nil]. split.
    + destruct (_ <? 2)%nat eqn:E; [done|]. by apply Nat.ltb_ge in E.
    + case_bool_decide as Hl; [|done]. destruct (groups_from _ _) as [|g [|]]; try done. by exists g.
  - apply app_eq_nil in Hk as [_ H2]. destruct (0 <? _)%nat eqn:E; [done|].
    apply Nat.ltb_ge in E. apply nil_length_inv. lia.
Qed.

Lemma start_shape_silent s start :
  shaped s → context ≠ ValidationContextDraft → validateStartOutgoingShape def context s start = [] →
  ∃ g, groups_from def (NodeIDOf start) = [g] ∧ ∀ e, e ∈ edges_of def g →
    ∃ n, n ∈ d_Nodes def ∧ NodeIDOf n = e_TargetNodeID e ∧ IsExecutableNode n = true.
Proof.
  intros Hs Hc. unfold validateStartOutgoingShape. cbv zeta. rewrite bool_decide_eq_false_2 by done.
  rewrite (ix_sources _ (sh_indexed _ Hs)), getl_groups_from, (ix_nodes _ (sh_indexed _ Hs)).
  destruct (groups_from def _) as [|g [|]]; try done.
  rewrite (ix_edgesByGroup _ (sh_indexed _ Hs)), getl_index_edges_by_group. fold (edges_of def g). intros He.
  exists g. split; [done|]. intros e Hin.
  assert (match index_nodes (d_Nodes def) !! e_TargetNodeID e with Some t => IsExecutableNode t | None => false end = true)
    as Hx.
  { destruct (edges_of def g) as [|e0 l]; [done|]. rewrite bind_nil in He. specialize (He e Hin). by case_match. }
  destruct (index_nodes (d_Nodes def) !! e_TargetNodeID e) as [t|] eqn:Et; [|done].
  apply (index_by_Some NodeIDOf) in Et as [? ?]. by exists t.
Qed.

Lemma reachability_silent s start :
  shaped s → validate_reachability def context s start = [] →
  ∀ n, n ∈ d_Nodes def →
    (∃ es, path (outgoing_of def) (NodeIDOf start) es (NodeIDOf n)) ∧
    ∃ es t, path (outgoing_of def) (NodeIDOf n) es (NodeIDOf t) ∧ t ∈ d_Nodes def ∧ Kind t = NodeKindTerminal.
Proof.
  intros Hs. unfold validate_reachability. rewrite bind_nil. intros Hall n Hn.
  rewrite (ix_nodes _ (sh_indexed _ Hs)), (ix_outgoing _ (sh_indexed _ Hs)) in Hall.
  assert (index_nodes (d_Nodes def) !! NodeIDOf n = Some n) as Hl
    by (apply (index_by_elem NodeIDOf); [apply (sh_ids _ Hs)|done]).
  specialize (Hall (NodeIDOf n, n)). rewrite elem_of_range_map in Hall. specialize (Hall Hl). simpl in Hall.
  apply app_eq_nil in Hall as [Hr Ht]. split.
  - apply reachableNodeIDs_path. clear Ht. by case_bool_decide.
  - destruct (decide (Kind n = NodeKindTerminal)) as [Hk|Hk]; [exists [], n; by split; [constructor|]|].
    rewrite bool_decide_eq_false_2 in Ht by done. cbn [negb andb] in Ht.
    destruct (canReachTerminal _ _ _) eqn:Hc; [|done].
    apply canReachTerminal_true in Hc as (m & t & Hrtc & Hm & Hkt).
    apply (index_by_Some NodeIDOf) in Hm as [Hin <-].
    assert (reach (targets (outgoing_of def)) (NodeIDOf n) (NodeIDOf t)) as Hreach.
    { eapply rtc_subrel; [|exact Hrtc]. by intros x y [_ ?]. }
    apply reach_targets in Hreach as [es Hes]. by exists es, t.
Qed.

Lemma fanout_silent s g :
  shaped s → g ∈ d_TransitionGroups def → (1 < length (edges_of def g))%nat →
  fanoutHasValidJoin s g (edges_of def g) = true → fanout_joined def g.
Proof.
  intros Hs Hg Hlen. unfold fanoutHasValidJoin.
  rewrite (ix_nodes _ (sh_indexed _ Hs)), (ix_sources _ (sh_indexed _ Hs)),
    (ix_edgesByGroup _ (sh_indexed _ Hs)), (ix_outgoing _ (sh_indexed _ Hs)).
  destruct (mapM _ _) as [ds|] eqn:Hm; [|done].
  destruct (fanoutNearestCommonJoin ds) as [j|] eqn:Hj; [|done]. intros Hne%negb_true_iff%bool_decide_eq_false_1.
  apply fanoutNearestCommonJoin_spec in Hj as (_ & d & Hd & Hmin).
  exists ds, j, d. split_and!; try done. apply mapM_Some_1 in Hm. eapply Forall2_impl; [exact Hm|].
  intros e m. unfold fanoutBranchJoinDistances.
  pose proof (fanoutBranchTraversal_spec (index_nodes (d_Nodes def)) (index_groups_by_source (d_TransitionGroups def))
    (index_edges_by_group (d_Edges def)) (outgoing_of def) (e_TargetNodeID e)) as Hspec.
  destruct (fanoutBranchTraversal _ _ _ _ _) as [r|]; simpl; [|done]. case_bool_decide; [done|]. intros [= <-].
  destruct Hspec as (Hno & Hjoins & _). split; [exact Hno|exact Hjoins].
Qed.
End silent.
