(* ===== verification/ValidationDraft.v ===== *)
(** * Drafts and other contexts

    The passes of a draft validation compared, diagnostic by diagnostic, with
    those of any other context. *)
From Stdlib Require Import NArith String Ascii.
From stdpp Require Import gmap strings list.
From S2P Require Import Prelude GoStrings Types Selection Reach Fanout PromptRefs Wiring PromptSession Validation ValidationFacts.

Local Open Scope string_scope.

(** The diagnostic, blocking. *)
Definition raise (e : ValidationError) : ValidationError := setCode (Code e) (Message e) true e.

(** Each diagnostic of the first list is in the second, blocking. *)
Definition covered (l1 l2 : list ValidationError) : Prop := ∀ e, e ∈ l1 → raise e ∈ l2.

(** Both dereference nil, or both return and the results are covered. *)
Definition covered_opt (o1 o2 : option (list ValidationError)) : Prop :=
  match o1, o2 with Some l1, Some l2 => covered l1 l2 | None, None => True | _, _ => False end.

Lemma covered_nil l : covered [] l.
Proof. by intros e ?%elem_of_nil. Qed.
Lemma covered_app l1 l2 k1 k2 : covered l1 l2 → covered k1 k2 → covered (l1 ++ k1)%list (l2 ++ k2)%list.
Proof. intros Hl Hk e [?%Hl|?%Hk]%elem_of_app; apply elem_of_app; [by left|by right]. Qed.
Lemma covered_bind {A} (f1 f2 : A → list ValidationError) (l : list A) :
  (∀ a, covered (f1 a) (f2 a)) → covered (l ≫= f1) (l ≫= f2).
Proof. intros Hf. induction l; simpl; [apply covered_nil|by apply covered_app]. Qed.
Lemma covered_fmap {A} (f1 f2 : A → ValidationError) (l : list A) :
  (∀ a, raise (f1 a) = f2 a) → covered (f1 <$> l) (f2 <$> l).
Proof.
  intros Hf e (a & -> & Ha)%list_elem_of_fmap. rewrite Hf. by apply list_elem_of_fmap_2.
Qed.
Lemma covered_blocks l : Forall blocks l → covered l l.
Proof.
  intros Hl e He. rewrite Forall_forall in Hl. specialize (Hl e He). unfold blocks in Hl.
  assert (raise e = e) as ->; [|done]. destruct e. unfold raise, setCode. simpl in *. by rewrite Hl.
Qed.
Lemma covered_one e1 e2 : raise e1 = e2 → covered [e1] [e2].
Proof. intros <- e ->%list_elem_of_singleton. by left. Qed.
Lemma covered_opt_app l1 l2 o1 o2 :
  covered l1 l2 → covered_opt o1 o2 →
  covered_opt (k ← o1; Some (k ++ l1)%list) (k ← o2; Some (k ++ l2)%list).
Proof. destruct o1, o2; simpl; intros; try done. by apply covered_app. Qed.
Lemma covered_opt_mapM {A} (f1 f2 : A → option (list ValidationError)) (l : list A) :
  (∀ a, covered_opt (f1 a) (f2 a)) → covered_opt (mjoin <$> mapM f1 l) (mjoin <$> mapM f2 l).
Proof.
  intros Hf. induction l as [|a l IH]; simpl; [apply covered_nil|]. specialize (Hf a).
  destruct (f1 a), (f2 a); simpl in *; try done.
  destruct (mapM f1 l), (mapM f2 l); simpl in *; try done. by apply covered_app.
Qed.

Section draft.
Context `{RangeOrder} (def : WorkflowDefinition) (context : string).
Hypothesis Hcontext : context ≠ ValidationContextDraft.
Local Abbreviation draft := ValidationContextDraft.

Lemma raise_addSemantic code message ref :
  raise (addSemantic draft code message ref) = addSemantic context code message ref.
Proof. unfold addSemantic. by rewrite (bool_decide_eq_false_2 (context = _)). Qed.

Lemma covered_semantic code message ref :
  covered [addSemantic draft code message ref] [addSemantic context code message ref].
Proof. apply covered_one, raise_addSemantic. Qed.
End draft.

(** Splits two lists of diagnostics built by the same checks. *)
Ltac covered_tac :=
  repeat match goal with
  | |- covered [] _ => apply covered_nil
  | |- covered [addSemantic _ _ _ _] [addSemantic _ _ _ _] => by apply covered_semantic
  | |- covered [_] [_] => apply covered_one; reflexivity
  | |- covered (_ ++ _)%list (_ ++ _)%list => apply covered_app
  | |- covered (_ <$> _) (_ <$> _) => apply covered_fmap; intros ?; first [reflexivity|by apply raise_addSemantic]
  | |- covered (_ ≫= _) (_ ≫= _) => apply covered_bind; intros ?
  | |- covered_opt (Some _) (Some _) => unfold covered_opt
  | |- covered_opt None None => exact I
  | |- covered_opt (?o ≫= _) (?o ≫= _) => destruct o; cbn [mbind option_bind]
  | |- covered (if ?b then _ else _) _ => destruct b
  | |- covered (match ?o with _ => _ end) _ => destruct o
  | |- covered_opt (if ?b then _ else _) _ => destruct b
  | |- covered_opt (match ?o with _ => _ end) _ => destruct o
  end.

Section passes.
Context `{RangeOrder} (def : WorkflowDefinition) (context : string) (opts1 opts2 : ValidationOptions).
Context (Parse : string → result string (gmap string (option TNode))).
Hypothesis Hcontext : context ≠ ValidationContextDraft.
Hypothesis Hresolver : vo_RoleResolver opts1 = vo_RoleResolver opts2.
Hypothesis Hnodes : vo_ExecutionNodes opts1 = vo_ExecutionNodes opts2.
Local Abbreviation draft := ValidationContextDraft.

Lemma validateShape_state : (validateShape def draft).1 = (validateShape def context).1.
Proof.
  unfold validateShape. destruct (indexNodeGroups def) as [ng e2], (indexNodes def) as [[nodes starts] e3],
    (indexTransitionGroups def) as [gi e4]. destruct (indexEdges def _) as [ei e5]. simpl.
  by destruct (validateNodes def _ _) as [keys e6].
Qed.

Lemma validate_edge_covered s edge : covered (validate_edge def draft s edge) (validate_edge def context s edge).
Proof.
  unfold validate_edge, validateEdgeInvocationContract. cbv zeta.
  repeat apply covered_app; try (apply covered_blocks; blocks_tac; fail).
  - rewrite (bool_decide_eq_true_2 (draft = _)) by done. rewrite andb_false_r. covered_tac.
  - apply covered_blocks, validateParameters_blocks.
Qed.

Lemma validateShape_covered : covered (validateShape def draft).2 (validateShape def context).2.
Proof.
  unfold validateShape.
  destruct (index_blocks def (gi_groupsByID (indexTransitionGroups def).1) (indexNodeGroups def).1 (indexNodes def).1.2)
    as (H1 & H2 & H3 & H4 & H5).
  destruct (indexNodeGroups def) as [ng e2], (indexNodes def) as [[nodes starts] e3],
    (indexTransitionGroups def) as [gi e4]. cbn [fst snd] in *.
  destruct (indexEdges def _) as [ei e5], (validateNodes def _ _) as [keys e6]. cbn [fst snd] in *. cbv zeta.
  set (s := Build_validationState _ _ _ _ _ _ _ _ _ _).
  repeat apply covered_app; try by apply covered_blocks.
  - covered_tac.
  - unfold validateExecutionTargetPolicy. cbv zeta. covered_tac.
  - apply covered_blocks, validateNodeGroups_blocks.
  - apply covered_blocks, validateTransitionGroups_blocks.
  - apply covered_bind. intros edge. apply validate_edge_covered.
Qed.

Lemma checks_availability_same n : checks_availability opts1 n = checks_availability opts2 n.
Proof. unfold checks_availability. by rewrite Hnodes. Qed.

Lemma validateKindConstraints_covered s :
  covered (validateKindConstraints def draft opts1 s) (validateKindConstraints def context opts2 s).
Proof.
  apply covered_bind. intros node. unfold validate_kind, validateAgentRoleRequirement. cbv zeta.
  rewrite checks_availability_same, Hresolver. covered_tac.
Qed.

Lemma check_guaranteed_covered s candidate source message ref :
  covered (check_guaranteed draft s candidate source message ref) (check_guaranteed context s candidate source message ref).
Proof. unfold check_guaranteed. covered_tac. Qed.

Lemma validateContextSource_covered s edge source target ref :
  covered_opt (validateContextSource draft s edge source target ref) (validateContextSource context s edge source target ref).
Proof.
  unfold validateContextSource. cbv zeta. covered_tac; try apply check_guaranteed_covered.
Qed.

(** The applicability of a plan does not depend on the descriptions asked for. *)
Lemma plan_applicability request :
  tsp_Applicability (PlanTransitionSelection request).1 =
  resolveEdgeSelectorApplicability (cr_Edge request) (cr_SourceKind request)
    (cr_TargetKind request) (cr_FanOut request) (cr_Catalog request) (cr_TargetRole request).
Proof. unfold PlanTransitionSelection. repeat case_match; done. Qed.

Lemma validateSelectorApplicability_covered s edge source target ref :
  covered (validateSelectorApplicability draft opts1 s edge source target ref)
    (validateSelectorApplicability context opts2 s edge source target ref).
Proof.
  unfold validateSelectorApplicability. rewrite checks_availability_same, Hresolver.
  match goal with |- covered (let '(_, _) := PlanTransitionSelection ?r1 in _) (let '(_, _) := PlanTransitionSelection ?r2 in _) =>
    pose proof (plan_applicability r1) as H1; pose proof (plan_applicability r2) as H2;
    destruct (PlanTransitionSelection r1) as [p1 err1], (PlanTransitionSelection r2) as [p2 err2] end.
  simpl in H1, H2. cbv zeta. rewrite H1, H2.
  rewrite (bool_decide_eq_false_2 (draft = ValidationContextExecution)) by done. rewrite !andb_false_r. cbn [andb].
  covered_tac.
Qed.

Lemma validateRuntimeSupport_covered s :
  covered_opt (validateRuntimeSupport def draft opts1 s) (validateRuntimeSupport def context opts2 s).
Proof.
  apply covered_opt_mapM. intros edge. unfold validate_runtime_edge. cbv zeta. apply covered_opt_app.
  - apply covered_app; [apply validateSelectorApplicability_covered|covered_tac].
  - apply validateContextSource_covered.
Qed.

Lemma start_and_reachability_covered s start :
  covered (validateStartOutgoingShape def draft s start) (validateStartOutgoingShape def context s start) ∧
  covered (validate_reachability def draft s start) (validate_reachability def context s start).
Proof.
  split; [apply covered_nil|]. unfold validate_reachability. apply covered_bind. intros [nodeID node]. covered_tac.
Qed.

(** The prompt pass does not look at the context. *)
Lemma validatePromptPlaceholders_same s :
  validatePromptPlaceholders def opts1 Parse s = validatePromptPlaceholders def opts2 Parse s.
Proof.
  unfold validatePromptPlaceholders, validate_prompt, validate_prompt_references, current_params,
    validatePriorParameterReference, transitionGroupParameterSet, promptParameterNameSet.
  by rewrite Hresolver.
Qed.

Lemma validateGraph_covered s :
  covered_opt (validateGraph def draft opts1 Parse s) (validateGraph def context opts2 Parse s).
Proof.
  unfold validateGraph. pose proof (validateRuntimeSupport_covered s) as Hr.
  pose proof (validateKindConstraints_covered s) as Hk.
  destruct (validateRuntimeSupport _ draft _ _), (validateRuntimeSupport _ context _ _); cbn [mbind option_bind covered_opt] in *; try done.
  destruct (s_startNodes s) as [|start [|]]; cbn [covered_opt]; [by apply covered_app| |by apply covered_app].
  rewrite validatePromptPlaceholders_same.
  pose proof (validatePromptPlaceholders_blocks def opts2 Parse s) as Hp.
  destruct (validatePromptPlaceholders _ _ _ _) as [e5|]; cbn [mbind option_bind covered_opt]; [|done].
  destruct (start_and_reachability_covered s start). repeat apply covered_app; try done.
  apply covered_blocks. by apply Hp.
Qed.

Lemma validateFanouts_covered s : covered (validateFanouts def draft s) (validateFanouts def context s).
Proof. apply covered_bind. intros group. cbv zeta. covered_tac. Qed.
Lemma validateContinuationSources_covered static s :
  covered (validateContinuationSources def draft static s) (validateContinuationSources def context static s).
Proof. unfold validateContinuationSources. covered_tac. Qed.
End passes.
