(* ===== verification/ValidationClaims.v ===== *)
(** * Properties of workflow validation

    What an accepted definition satisfies, when diagnostics block, when the
    validator panics, and what acceptance does not give. *)
From Stdlib Require Import NArith String Ascii.
From stdpp Require Import gmap strings list.
From S2P Require Import Prelude GoStrings Types Samples Selection Reach Fanout FanoutFacts PromptRefs Wiring PromptSession Validation ValidationFacts ValidationSound ValidationDraft.

Local Open Scope string_scope.

(** Options of the witnesses, and a parser without templates. *)
Definition sample_options (context : string) : ValidationOptions :=
  {| vo_Context := context; vo_RoleResolver := Some sample_catalog; vo_ExecutionNodes := None |}.
Definition parse_plain (_ : string) : result string (gmap string (option TNode)) := Ok ∅.
Definition no_static (_ : WorkflowDefinition) (_ : NodeID) : list EdgeID := [].

Section parts.
Context `{RangeOrder} (Parse : string → result string (gmap string (option TNode))).
Context (static : WorkflowDefinition → NodeID → list EdgeID).

(** The parts of a run that reports nothing. *)
Lemma ValidateDefinition_silent def opts r :
  ValidateDefinition Parse static def opts = Some r → vr_Errors r = [] →
  let context := effective_context opts in
  let s := (validateShape def context).1 in
  IsZero (d_ID def) = false ∧ (validateShape def context).2 = [] ∧
  validateGraph def context opts Parse s = Some [] ∧ validateFanouts def context s = [] ∧
  validateContinuationSources def context static s = [] ∧ validateDerivedWiring def Parse = Some [].
Proof.
  cbv zeta. unfold ValidateDefinition. destruct (IsZero _); [by intros [= <-]|].
  destruct (validateShape def _) as [s shape]. cbn [fst snd].
  destruct (validateGraph _ _ _ _ _) as [graph|]; [|done]. simpl.
  destruct (validateDerivedWiring _ _) as [wiring|]; [|done]. simpl. intros [= <-]. simpl.
  intros [-> [-> [-> [-> ->]%app_eq_nil]%app_eq_nil]%app_eq_nil]%app_eq_nil. done.
Qed.

Lemma validateGraph_silent def context opts s start :
  s_startNodes s = [start] → validateGraph def context opts Parse s = Some [] →
  validateKindConstraints def context opts s = [] ∧ validateStartOutgoingShape def context s start = [] ∧
  validate_reachability def context s start = [].
Proof.
  intros Hs. unfold validateGraph. destruct (validateRuntimeSupport _ _ _ _) as [e2|]; [|done]. simpl. rewrite Hs.
  destruct (validatePromptPlaceholders _ _ _ _) as [e5|]; [|done]. simpl. intros [=He].
  by apply app_eq_nil in He as [-> [_ [-> [-> _]%app_eq_nil]%app_eq_nil]%app_eq_nil].
Qed.
End parts.

(** What acceptance gives: the graph, and no edge reported by the analysis of
    continuation sources. *)
Lemma ValidateDefinition_accepted (o : RangeOrder) Parse static def opts r :
  effective_context opts ≠ ValidationContextDraft → ValidateDefinition Parse static def opts = Some r →
  HasBlockingErrors r = false →
  ∃ start, well_formed def start ∧
    ∀ id, id ∈ static def (NodeIDOf start) → index_by e_ID (d_Edges def) !! id = None.
Proof.
  intros Hcontext Hrun Haccepted.
  assert (vr_Errors r = []) as Hnil.
  { pose proof (ValidateDefinition_blocks def _ opts Parse Hcontext static r eq_refl Hrun) as Hb.
    destruct (vr_Errors r) as [|e l] eqn:E; [done|]. inversion Hb as [|?? He]; subst.
    rewrite HasBlockingErrors_false in Haccepted. specialize (Haccepted e). rewrite E in Haccepted.
    unfold blocks in He. rewrite Haccepted in He; [done|by left]. }
  destruct (ValidateDefinition_silent Parse static def opts r Hrun Hnil) as (_ & Hshape & Hgraph & Hfan & Hcont & _).
  apply validateShape_silent in Hshape. set (s := (validateShape def (effective_context opts)).1) in *.
  pose proof (sh_start _ _ Hshape) as Hone. rewrite <- (ix_starts _ _ (sh_indexed _ _ Hshape)) in Hone.
  destruct (s_startNodes s) as [|start [|]] eqn:Es; try done. exists start.
  pose proof (ix_starts _ _ (sh_indexed _ _ Hshape)) as Hst. rewrite Es in Hst.
  destruct (validateGraph_silent Parse def _ opts s start Es Hgraph) as (Hkinds & Hso & Hreach).
  assert (∀ n, n ∈ d_Nodes def → validate_kind def (effective_context opts) opts s n = []) as Hk by by apply bind_nil.
  assert (start ∈ d_Nodes def ∧ Kind start = NodeKindStart) as [Hin Hkind].
  { assert (start ∈ filter (λ n, Kind n = NodeKindStart) (d_Nodes def)) as Hf by (rewrite <- Hst; by left).
    by apply list_elem_of_filter in Hf as [? ?]. }
  split; cycle 1.
  { intros id Hid. unfold validateContinuationSources in Hcont. rewrite Es, bind_nil in Hcont. specialize (Hcont id Hid). cbv beta in Hcont.
    rewrite (ix_edges _ _ (sh_indexed _ _ Hshape)) in Hcont. by destruct (index_by _ _ !! id). }
  split; try apply Hshape.
  - by symmetry.
  - split; [by apply (validate_kind_silent def _ opts s start Hshape (Hk _ Hin))|].
    by eapply start_shape_silent.
  - intros n Hn. by apply (reachability_silent def _ s start Hshape Hreach).
  - intros n Hn. by apply (reachability_silent def _ s start Hshape Hreach).
  - intros n Hn. by apply (validate_kind_silent def _ opts s n Hshape (Hk _ Hn)).
  - intros n Hn. by apply (validate_kind_silent def _ opts s n Hshape (Hk _ Hn)).
  - intros g Hg Hlen. eapply fanout_silent; [done..|]. unfold validateFanouts in Hfan. rewrite bind_nil in Hfan.
    specialize (Hfan g Hg). cbv zeta in Hfan. rewrite (ix_edgesByGroup _ _ (sh_indexed _ _ Hshape)) in Hfan.
    rewrite getl_index_edges_by_group in Hfan. fold (edges_of def g) in Hfan.
    destruct (Nat.leb_spec (length (edges_of def g)) 1); [lia|]. by destruct (fanoutHasValidJoin _ _ _).
Qed.

(** C4. A definition that validation accepts for task creation or execution
    (no blocking diagnostics) is a well-formed workflow graph: identifiers,
    keys and transition ids are unique and belong to the workflow; there is
    one start node, with no incoming edges and one transition group into
    executable nodes; every group has a source and an edge and every edge a
    group and a target; every node is reachable from the start and can reach
    a terminal; terminals have no transitions, joins at least two incoming
    edges and one group; and the branches of every fan-out run unobstructed
    to a unique nearest common join. *)
Theorem ValidateDefinition_sound (o : RangeOrder) Parse static def opts r
    (Hcontext : effective_context opts ≠ ValidationContextDraft)
    (Hrun : ValidateDefinition Parse static def opts = Some r)
    (Haccepted : HasBlockingErrors r = false) :
  ∃ start, well_formed def start.
Proof.
  destruct (ValidateDefinition_accepted o Parse static def opts r Hcontext Hrun Haccepted) as (start & Hwf & _). by exists start.
Qed.

Lemma ValidateDefinition_sound_witness : ∃ start, well_formed sample_fanout start.
Proof.
  apply (ValidateDefinition_sound default_order parse_plain no_static sample_fanout
    (sample_options ValidationContextExecution) {| vr_Context := "execution"; vr_Errors := [] |}).
  - by vm_compute.
  - vm_compute. reflexivity.
  - reflexivity.
Defined.

(** Outside the draft context every diagnostic blocks: a run has blocking
    diagnostics exactly when it has diagnostics, so task creation and
    execution accept a definition only when validation found nothing. *)
Theorem ValidateDefinition_blocking (o : RangeOrder) Parse static def opts r
    (Hcontext : effective_context opts ≠ ValidationContextDraft)
    (Hrun : ValidateDefinition Parse static def opts = Some r) :
  HasBlockingErrors r = HasErrors r ∧ BlockingErrors r = vr_Errors r.
Proof.
  pose proof (ValidateDefinition_blocks def _ opts Parse Hcontext static r eq_refl Hrun) as Hb.
  unfold HasBlockingErrors, HasErrors, BlockingErrors.
  induction Hb as [|e l He _ IH]; [done|]. unfold blocks in He. simpl. rewrite He. split; [done|].
  rewrite filter_cons_True by done. f_equal. apply IH.
Qed.

Lemma ValidateDefinition_blocking_witness :
  ∃ r, @ValidateDefinition default_order parse_plain no_static sample_fanout
         {| vo_Context := "execution"; vo_RoleResolver := None; vo_ExecutionNodes := None |} = Some r ∧
    HasErrors r = true ∧ HasBlockingErrors r = HasErrors r ∧ BlockingErrors r = vr_Errors r.
Proof.
  eexists. split; [vm_compute; reflexivity|]. split; [reflexivity|].
  apply (ValidateDefinition_blocking default_order parse_plain no_static sample_fanout
    {| vo_Context := "execution"; vo_RoleResolver := None; vo_ExecutionNodes := None |}).
  - by vm_compute.
  - vm_compute. reflexivity.
Defined.

(** The diagnostics of the reachability pass at one node. *)
Lemma elem_of_validate_reachability `{RangeOrder} def context s start nodeID e :
  e ∈ validate_reachability def context s start ∧ ve_NodeID e = Some nodeID ↔
    ∃ node, s_nodesByID s !! nodeID = Some node ∧
      ((nodeID ∉ reachableNodeIDs (NodeIDOf start) (s_outgoingByNode s)) ∧
         e = addSemantic context CodeNodeUnreachableFromStart ("Node " +:+ nodeDisplayName node +:+ " not reachable")
               (setRefs (Some (d_ID def)) (Some nodeID) None None zeroError) ∨
       Kind node ≠ NodeKindTerminal ∧ canReachTerminal (s_nodesByID s) (s_outgoingByNode s) nodeID = false ∧
         e = addSemantic context CodeNonTerminalCannotReachTerminal
               ("Node " +:+ nodeDisplayName node +:+ " cannot reach a terminal")
               (setRefs (Some (d_ID def)) (Some nodeID) None None zeroError)).
Proof.
  unfold validate_reachability. rewrite list_elem_of_bind. split.
  - intros (((id & node) & He & Hin%elem_of_range_map) & Hid).
    apply elem_of_app in He as [He|He].
    + case_bool_decide as Hr; [by apply elem_of_nil in He|]. apply list_elem_of_singleton in He as ->.
      injection Hid as ->. exists node. split; [done|]. by left.
    + destruct (_ && _) eqn:Hc; [|by apply elem_of_nil in He]. apply list_elem_of_singleton in He as ->.
      injection Hid as ->. bool_simp. exists node. split; [done|]. right. by destruct (canReachTerminal _ _ _).
  - intros (node & Hn & Hcase).
    assert (ve_NodeID e = Some nodeID) as Hid by by destruct Hcase as [[_ ->]|(_ & _ & ->)].
    split; [|done]. exists (nodeID, node). split; [|by apply elem_of_range_map]. apply elem_of_app.
    destruct Hcase as [[Hr ->]|(Hk & Hc & ->)].
    + left. rewrite bool_decide_eq_false_2 by done. by apply list_elem_of_singleton.
    + right. rewrite bool_decide_eq_false_2, Hc by done. by apply list_elem_of_singleton.
Qed.

(** The reachability diagnostics are exact. On the maps of any run, a node
    is reported unreachable exactly when no path leads from the start to it,
    and reported as unable to finish exactly when it is not a terminal and no
    walk through existing nodes leads from it to a terminal. *)
Theorem validate_reachability_exact (o : RangeOrder) def context s start code nodeID :
  let reported := λ code, ∃ e, e ∈ validate_reachability def context s start ∧ Code e = code ∧ ve_NodeID e = Some nodeID in
  (reported CodeNodeUnreachableFromStart ↔
     is_Some (s_nodesByID s !! nodeID) ∧ (¬ ∃ es, path (s_outgoingByNode s) (NodeIDOf start) es nodeID)) ∧
  (reported CodeNonTerminalCannotReachTerminal ↔
     ∃ node, s_nodesByID s !! nodeID = Some node ∧ Kind node ≠ NodeKindTerminal ∧
       (¬ ∃ n t, rtc (node_step (s_nodesByID s) (s_outgoingByNode s)) nodeID n ∧
           s_nodesByID s !! n = Some t ∧ Kind t = NodeKindTerminal)) ∧
  (reported code → code = CodeNodeUnreachableFromStart ∨ code = CodeNonTerminalCannotReachTerminal).
Proof.
  cbv zeta. rewrite <- reachableNodeIDs_path. setoid_rewrite <- canReachTerminal_true.
  assert (Hmem := elem_of_validate_reachability def context s start nodeID).
  split_and!.
  - split.
    + intros (e & He & Hc & Hid). destruct (proj1 (Hmem e) (conj He Hid)) as (node & Hn & [[? _]|(_ & _ & ->)]); [|done].
      split; [by eauto|done].
    + intros [[node Hn] Hr]. eexists. rewrite (comm (∧)), <- (assoc (∧)), (comm (∧) (ve_NodeID _ = _)), Hmem.
      split; [|exists node; split; [done|]; left; split; [done|reflexivity]]. done.
  - split.
    + intros (e & He & Hc & Hid).
      destruct (proj1 (Hmem e) (conj He Hid)) as (node & Hn & [[_ ->]|(Hk & Ht & _)]); [done|].
      exists node. split_and!; [done|done|]. by rewrite Ht.
    + intros (node & Hn & Hk & Ht). eexists. rewrite (comm (∧)), <- (assoc (∧)), (comm (∧) (ve_NodeID _ = _)), Hmem.
      split; [|exists node; split; [done|]; right; split; [done|]; split; [by apply not_true_iff_false|reflexivity]]. done.
  - intros (e & He & <- & Hid). destruct (proj1 (Hmem e) (conj He Hid)) as (node & Hn & [[_ ->]|(_ & _ & ->)]); [by left|by right].
Qed.

(** ** Panics *)
Section panics.
Context `{RangeOrder} (Parse : string → result string (gmap string (option TNode))).
Context (def : WorkflowDefinition).

(** The identifier the key index keeps: the first node with the key. *)
Definition first_with_key (key : ModelKey) : option NodeID :=
  NodeIDOf <$> head (filter (λ n, NodeKey n = key) (d_Nodes def)).

(** A node adds its key when the key is new. *)
Lemma validate_node_keys groups keys n key :
  blank key = false → workflowkey.Valid key = true →
  (validate_node def groups keys n).1 !! key =
    match keys !! key with
    | Some id => Some id
    | None => if decide (NodeKey n = key) then Some (NodeIDOf n) else None
    end.
Proof.
  intros Hb Hv. unfold validate_node. cbv zeta. destruct (decide (NodeKey n = key)) as [->|Hk].
  - rewrite Hb, Hv. cbn [negb]. destruct (keys !! key) as [id|] eqn:E; cbn [fst].
    + case_bool_decide as Hid; cbn [negb fst]; [by rewrite lookup_insert_eq, Hid|done].
    + by rewrite lookup_insert_eq.
  - assert (<[NodeKey n := NodeIDOf n]> keys !! key = keys !! key) as Hins by by apply lookup_insert_ne.
    destruct (blank (NodeKey n)); cbn [fst]; [by destruct (keys !! key)|].
    destruct (workflowkey.Valid (NodeKey n)); cbn [negb fst]; [|by destruct (keys !! key)].
    destruct (keys !! NodeKey n); [case_bool_decide|]; cbn [negb fst]; rewrite ?Hins; by destruct (keys !! key).
Qed.

Lemma nodeKeys_first groups starts key :
  blank key = false → workflowkey.Valid key = true →
  (validateNodes def groups starts).1 !! key = first_with_key key.
Proof.
  intros Hb Hv. unfold validateNodes, first_with_key.
  assert ((fold_emit (validate_node def groups) ∅ (d_Nodes def)).1 !! key =
    NodeIDOf <$> head (filter (λ n, NodeKey n = key) (d_Nodes def))) as Hf; [|by destruct (fold_emit _ _ _)].
  rewrite fold_emit_fst. induction (d_Nodes def) as [|n l IH] using rev_ind; [simpl; by rewrite lookup_empty|].
  rewrite foldl_app, filter_app, filter_cons, filter_nil. cbn [foldl]. rewrite validate_node_keys, IH by done.
  by destruct (filter _ l), (decide (NodeKey n = key)).
Qed.

Lemma nodesByID_present id :
  is_Some ((indexNodes def).1.1 !! id) ↔ blank id = false ∧ id ∈ NodeIDOf <$> d_Nodes def.
Proof.
  unfold indexNodes. rewrite fold_emit_fst. induction (d_Nodes def) as [|n l IH] using rev_ind.
  { simpl. rewrite lookup_empty. split; [by intros [? [=]]|by intros [_ ?%elem_of_nil]]. }
  rewrite foldl_app, fmap_app, elem_of_app. simpl. rewrite list_elem_of_singleton.
  destruct (foldl _ _ l) as [nodes starts]. simpl in IH |- *. unfold index_node.
  destruct (blank (NodeIDOf n)) eqn:Hb; simpl.
  { rewrite IH. split; [by intros [? ?]; split; [|left]|]. intros [Hid [?| ->]]; [done|by rewrite Hb in Hid]. }
  destruct (nodes !! NodeIDOf n) eqn:En; simpl.
  { rewrite IH. split; [by intros [? ?]; split; [|left]|]. intros [Hid [?| ->]]; [done|]. by apply IH. }
  rewrite lookup_insert_is_Some. destruct (decide (NodeIDOf n = id)) as [<-|Hne].
  - split; [by intros _; split; [|right]|by left].
  - split; [intros [?|[_ [? ?]%IH]]; [done|split; [done|by left]]|].
    intros [Hid [?| ->]]; [right; split; [done|by apply IH]|done].
Qed.

(** An edge whose selected context source is a node without identifier. *)
Definition dangling_source (s : validationState) (edge : Edge) : Prop :=
  let source := CanonicalContextSource (e_ContextSource edge) in
  cs_Kind source = ContextSourceSelectedNode ∧ e_ContextMode edge ≠ ContextModeNewSession ∧
  match edgeSource s edge with Some n => Kind n ≠ NodeKindStart | None => True end ∧
  workflowkey.Valid (cs_NodeKey source) = true ∧ blank (cs_NodeKey source) = false ∧
  ∃ id, first_with_key (cs_NodeKey source) = Some id ∧ blank id = true.

Lemma validateShape_maps context :
  s_nodesByID (validateShape def context).1 = (indexNodes def).1.1 ∧
  s_nodeKeys (validateShape def context).1 =
    (validateNodes def (indexNodeGroups def).1 (indexNodes def).1.2).1.
Proof.
  unfold validateShape. destruct (indexNodeGroups def) as [ng e2], (indexNodes def) as [[nodes starts] e3],
    (indexTransitionGroups def) as [gi e4]. destruct (indexEdges def _) as [ei e5]. simpl.
  by destruct (validateNodes def _ _) as [keys e6].
Qed.

Lemma first_with_key_Some key id : first_with_key key = Some id → id ∈ NodeIDOf <$> d_Nodes def.
Proof.
  unfold first_with_key. destruct (filter _ _) as [|n l] eqn:E; [done|]. intros [= <-].
  apply list_elem_of_fmap_2. assert (n ∈ n :: l) as Hn by by left. rewrite <- E in Hn.
  by apply list_elem_of_filter in Hn as [_ ?].
Qed.

Lemma canonical_key source : TrimSpace (cs_NodeKey (CanonicalContextSource source)) = cs_NodeKey (CanonicalContextSource source).
Proof. unfold CanonicalContextSource. cbv zeta. repeat case_match; simpl; [done..|apply TrimSpace_idemp]. Qed.

(** The lookup of a selected node fails on a node without identifier. *)
Lemma selected_lookup_None context key (f : Node → option (list ValidationError)) l :
  let s := (validateShape def context).1 in
  blank key = false → workflowkey.Valid key = true → (∀ n, f n ≠ None) →
  match s_nodeKeys s !! key with Some id => s_nodesByID s !! id ≫= f | None => Some l end = None ↔
  ∃ id, first_with_key key = Some id ∧ blank id = true.
Proof.
  cbv zeta. intros Hb Hv Hf. destruct (validateShape_maps context) as [-> ->].
  rewrite nodeKeys_first by done. destruct (first_with_key key) as [id|] eqn:E; [|by split; [|intros (?&?&_)]].
  apply first_with_key_Some in E. destruct ((indexNodes def).1.1 !! id) as [n|] eqn:En; simpl.
  - split; [by intros ?%Hf|]. intros (? & [= <-] & Hbl).
    destruct (proj1 (nodesByID_present id)) as [Hid _]; [by eauto|]. by rewrite Hid in Hbl.
  - split; [|done]. intros _. exists id. split; [done|]. destruct (blank id) eqn:Hbl; [done|].
    destruct (proj2 (nodesByID_present id)) as [? Hs]; [done|]. by rewrite En in Hs.
Qed.

Lemma validateContextSource_None context edge :
  let s := (validateShape def context).1 in
  validateContextSource context s edge (edgeSource s edge) (s_nodesByID s !! e_TargetNodeID edge) (edge_ref def edge) = None ↔
  dangling_source s edge.
Proof.
  cbv zeta. pose proof (selected_lookup_None context) as Hlook. cbv zeta in Hlook.
  set (s := (validateShape def context).1) in *. unfold validateContextSource, dangling_source. cbv zeta.
  pose proof (canonical_key (e_ContextSource edge)) as Hkey.
  set (c := CanonicalContextSource (e_ContextSource edge)) in *. rewrite Hkey.
  destruct (decide (cs_Kind c = ContextSourceSelectedNode)) as [Hsel|Hsel]; last first.
  { split; [|by intros [? _]]. rewrite (bool_decide_eq_false_2 (cs_Kind c = ContextSourceSelectedNode)) by done.
    by repeat case_match. }
  rewrite Hsel. decide_consts. cbn [negb andb].
  destruct (edgeSource s edge) as [n|] eqn:Es; [case_bool_decide as Hst; [by split; [|intros (_&_&?&_)]|]|].
  all: case_bool_decide as Hmode; [by split; [|intros (_&?&_)]|].
  all: destruct (blank (cs_NodeKey c)) eqn:Hb; unfold blank in Hb; rewrite Hkey in Hb; rewrite Hb;
    [by split; [|intros (_&_&_&_&?&_)]|].
  all: destruct (workflowkey.Valid (cs_NodeKey c)) eqn:Hv; [|by split; [|intros (_&_&_&?&_)]].
  all: cbn [negb orb]; rewrite Hlook; [|by unfold blank; rewrite Hkey|done|by intros ?; repeat case_match].
  all: split; [by intros ?; split_and!|by intros (_&_&_&_&_&?)].
Qed.

Lemma validateRuntimeSupport_None context opts :
  let s := (validateShape def context).1 in
  validateRuntimeSupport def context opts s = None ↔ ∃ e, e ∈ d_Edges def ∧ dangling_source s e.
Proof.
  cbv zeta. unfold validateRuntimeSupport. rewrite mapM_join_None.
  apply exist_proper. intros e. apply and_iff_compat_l. rewrite <- validateContextSource_None. unfold validate_runtime_edge. cbv zeta.
  by destruct (validateContextSource _ _ _ _ _ _).
Qed.

Lemma prior_references_None (extract : string → option (result string PromptTemplateReferences)) edges :
  prior_references extract edges = None ↔ ∃ e, e ∈ edges ∧ extract (e_PromptTemplate e) = None.
Proof.
  unfold prior_references. induction edges as [|e l IH] using rev_ind.
  { split; [done|by intros (?&?%elem_of_nil&_)]. }
  rewrite foldl_app. simpl. destruct (foldl _ _ l) as [m|]; simpl.
  - split.
    + intros Hx. exists e. split; [apply elem_of_app; right; by left|]. by destruct (extract _).
    + intros (e' & [Hin| ->%list_elem_of_singleton]%elem_of_app & Hx); [|by rewrite Hx].
      exfalso. assert (Some m = None) as [=]. apply IH. by exists e'.
  - split; [|done]. intros _. destruct (proj1 IH) as (e' & ? & ?); [done|]. exists e'. split; [|done].
    apply elem_of_app. by left.
Qed.

Lemma Extract_TrimSpace prompt :
  ExtractPromptTemplateReferences Parse (TrimSpace prompt) = ExtractPromptTemplateReferences Parse prompt.
Proof. unfold ExtractPromptTemplateReferences. by rewrite TrimSpace_idemp. Qed.

Lemma validatePromptPlaceholders_None opts s :
  validatePromptPlaceholders def opts Parse s = None ↔
  ∃ e, e ∈ d_Edges def ∧ ExtractPromptTemplateReferences Parse (e_PromptTemplate e) = None.
Proof.
  unfold validatePromptPlaceholders, DeriveWiringWithCatalog.
  destruct (prior_references _ _) as [refs|] eqn:E; simpl.
  - rewrite mapM_join_None. split.
    + intros (e & He & Hp). exists e. split; [done|]. unfold validate_prompt in Hp. cbv zeta in Hp.
      case_bool_decide; [done|]. rewrite Extract_TrimSpace in Hp. by destruct (ExtractPromptTemplateReferences _ _).
    + intros Hx. apply prior_references_None in Hx. congruence.
  - split; [|done]. intros _. by apply prior_references_None.
Qed.
End panics.

(** C28. Validation panics exactly on a definition with an identifier that has
    an edge whose prompt invokes a template without a pipeline, or an edge that
    continues from a selected node whose key the index resolves to a node
    without identifier. Every other definition gets a result. *)
Theorem ValidateDefinition_panics (o : RangeOrder) Parse static def opts :
  ValidateDefinition Parse static def opts = None ↔
    IsZero (d_ID def) = false ∧
    ((∃ e, e ∈ d_Edges def ∧ ExtractPromptTemplateReferences Parse (e_PromptTemplate e) = None) ∨
     (∃ e, e ∈ d_Edges def ∧ dangling_source def (validateShape def (effective_context opts)).1 e)).
Proof.
  unfold ValidateDefinition. destruct (IsZero (d_ID def)); [by split; [|intros [? _]]|].
  pose proof (validateRuntimeSupport_None def (effective_context opts) opts) as Hrun. cbv zeta in Hrun.
  pose proof (prior_references_None (ExtractPromptTemplateReferences Parse) (d_Edges def)) as Hprior.
  pose proof (validatePromptPlaceholders_None Parse def opts (validateShape def (effective_context opts)).1) as Hprompt.
  rewrite <- Hprior in Hprompt. rewrite <- Hrun, <- Hprior. clear Hrun Hprior.
  destruct (validateShape def (effective_context opts)) as [s shape]. cbn [fst] in *.
  unfold validateGraph, validateDerivedWiring, DeriveWiring.
  destruct (validateRuntimeSupport _ _ _ s) as [e2|]; [|by split; [by split; [|right]|]]. simpl.
  destruct (prior_references _ _) as [refs|] eqn:Er; simpl.
  - split; [|by intros [_ [?|?]]]. destruct (s_startNodes s) as [|start [|]]; simpl; [done| |done].
    destruct (validatePromptPlaceholders _ _ _ s) eqn:Ep; [done|]. by specialize (proj1 Hprompt eq_refl).
  - split; [by split; [|left]|]. intros _. destruct (s_startNodes s) as [|start [|]]; simpl; [done| |done].
    by destruct (validatePromptPlaceholders _ _ _ s).
Qed.

(** ** Parameters *)
Section parameters.
Definition param_key (p : EdgeParameter) : string := TrimSpace (p_Key p).
Definition param_purpose (p : EdgeParameter) : string := CanonicalParameterPurpose (p_Purpose p).
Definition protected_purposes (ps : list EdgeParameter) : list string :=
  filter (λ purpose, purpose ≠ ParameterPurposeOrdinary) (param_purpose <$> ps).

(** One parameter on its own. *)
Definition param_ok (p : EdgeParameter) : Prop :=
  param_purpose p ∈ [ParameterPurposeOrdinary; ParameterPurposeTargetAssignee; ParameterPurposeTargetThinking] ∧
  param_key p ≠ "" ∧ workflowkey.Valid (param_key p) = true ∧ (len (param_key p) ≤ MaxParameterKeyChars)%N ∧
  workflowkey.ReservedParameter (param_key p) = false ∧
  (param_purpose p = ParameterPurposeOrdinary → TrimSpace (p_Description p) ≠ "") ∧
  (len (TrimSpace (p_Description p)) ≤ MaxParameterDescriptionChars)%N.

Lemma if_nil_iff {A} (b : bool) (l : list A) : l ≠ [] → (if b then l else []) = [] ↔ b = false.
Proof. by destruct b. Qed.
Lemma if_nil_iff' {A} (b : bool) (l : list A) : l ≠ [] → (if b then [] else l) = [] ↔ b = true.
Proof. by destruct b. Qed.

Lemma validate_parameter_silent edge ref seen purposes i p :
  (validate_parameter edge ref (seen, purposes) (i, p)).2 = [] ↔
  param_ok p ∧ (param_key p ∉ seen) ∧
  (param_purpose p ≠ ParameterPurposeOrdinary → param_purpose p ∉ purposes).
Proof.
  unfold validate_parameter, param_ok, param_key, param_purpose. cbv zeta. cbn [snd].
  set (key := TrimSpace (p_Key p)). set (purpose := CanonicalParameterPurpose (p_Purpose p)).
  set (description := TrimSpace (p_Description p)).
  rewrite !app_nil, if_nil_iff', !if_nil_iff by done.
  rewrite bool_decide_eq_true, andb_false_iff, negb_false_iff, !orb_false_iff, negb_false_iff, bool_decide_eq_true.
  rewrite !bool_decide_eq_false, N.ltb_ge.
  destruct (decide (purpose = ParameterPurposeOrdinary)) as [Ho|Ho].
  - rewrite (bool_decide_eq_true_2 (purpose = _)) by done. cbn [andb].
    destruct (decide (description = "")) as [Hd|Hd].
    + rewrite (bool_decide_eq_true_2 (description = "")) by done. split; [naive_solver|].
      intros [(_&_&_&_&_&Hx&_) _]. by destruct (Hx Ho).
    + rewrite (bool_decide_eq_false_2 (description = "")), if_nil_iff, N.ltb_ge by done. naive_solver.
  - rewrite (bool_decide_eq_false_2 (purpose = _)) by done. cbn [andb]. rewrite if_nil_iff, N.ltb_ge by done. naive_solver.
Qed.

Lemma fold_parameters edge ref (ips : list (nat * EdgeParameter)) :
  (fold_emit (validate_parameter edge ref) (∅, ∅) ips).1 =
    (list_to_set (param_key <$> ips.*2), list_to_set (protected_purposes ips.*2)) ∧
  ((fold_emit (validate_parameter edge ref) (∅, ∅) ips).2 = [] ↔
     Forall param_ok ips.*2 ∧ NoDup (param_key <$> ips.*2) ∧ NoDup (protected_purposes ips.*2)).
Proof.
  induction ips as [|[i p] l IH] using rev_ind;
    [split; [done|]; split; [by intros _; split_and!; constructor|done]|]. rewrite fold_emit_app.
  destruct (fold_emit _ _ l) as [st es]. destruct IH as [Hst Hes]. cbn [fst snd] in Hst, Hes. subst st.
  cbn [fold_emit]. pose proof (validate_parameter_silent edge ref (list_to_set (param_key <$> l.*2))
    (list_to_set (protected_purposes l.*2)) i p) as Hsil.
  assert (protected_purposes (l ++ [(i, p)])%list.*2 =
    (protected_purposes l.*2 ++ (if decide (param_purpose p = ParameterPurposeOrdinary) then [] else [param_purpose p]))%list)
    as Hprot.
  { unfold protected_purposes. rewrite !fmap_app, filter_app. simpl. rewrite filter_cons, filter_nil. by repeat case_decide. }
  destruct (validate_parameter edge ref _ (i, p)) as [st' e'] eqn:Ev. cbn [fst snd] in Hsil |- *.
  rewrite Hprot, !fmap_app, list_to_set_app_L. simpl.
  unfold validate_parameter in Ev. cbv zeta in Ev. injection Ev as <- _. split.
  - unfold param_key at 2. rewrite list_to_set_app_L. f_equal; [set_solver|].
    fold (param_purpose p). case_decide as Ho.
    + rewrite bool_decide_eq_true_2 by done. set_solver.
    + rewrite bool_decide_eq_false_2 by done. set_solver.
  - rewrite app_nil_r, app_nil, Hes, Hsil, Forall_app, Forall_singleton, NoDup_snoc. rewrite !elem_of_list_to_set.
    case_decide as Ho; rewrite ?app_nil_r, ?NoDup_snoc; naive_solver.
Qed.
End parameters.

(** A branch's parameters pass without diagnostics exactly when every
    parameter has a known purpose, a valid, unreserved key of at most 64
    bytes and a description of at most 1000 bytes (required unless the
    parameter is protected), keys and protected purposes do not repeat, and
    each selector the edge delegates to its source has its parameter. *)
Theorem validateParameters_correct edge ref :
  validateParameters edge ref = [] ↔
    Forall param_ok (e_Parameters edge) ∧ NoDup (param_key <$> e_Parameters edge) ∧
    NoDup (protected_purposes (e_Parameters edge)) ∧
    (selects_assignee edge = true → ParameterPurposeTargetAssignee ∈ param_purpose <$> e_Parameters edge) ∧
    (selects_thinking edge = true → ParameterPurposeTargetThinking ∈ param_purpose <$> e_Parameters edge).
Proof.
  unfold validateParameters. destruct (fold_parameters edge ref (imap pair (e_Parameters edge))) as [Hst Hes].
  assert ((imap pair (e_Parameters edge)).*2 = e_Parameters edge) as Hl.
  { rewrite fmap_imap. simpl. rewrite <- (list_fmap_id (e_Parameters edge)) at 2. apply imap_const. }
  rewrite Hl in Hst, Hes. destruct (fold_emit _ _ _) as [st es]. cbn [fst snd] in Hst, Hes. subst st.
  rewrite !app_nil, Hes, !if_nil_iff, !andb_false_iff, !negb_false_iff, !bool_decide_eq_true by done.
  rewrite !elem_of_list_to_set. unfold protected_purposes. rewrite !list_elem_of_filter.
  destruct (selects_assignee edge), (selects_thinking edge); naive_solver.
Qed.

(** Acceptance does not make a fan-out resolvable. Two definitions are
    accepted for execution without any diagnostic, and yet [ResolveFanoutJoin]
    fails on the branch keys of their fan-out, so that its branches can never
    be joined: one reuses branch keys in a second fan-out (keys are only
    checked per transition group), the other has a branch with two transitions
    into the join. *)
Example accepted_fanout_unresolvable :
  Forall (λ def,
     @ValidateDefinition default_order parse_plain no_static def (sample_options ValidationContextExecution) =
       Some {| vr_Context := ValidationContextExecution; vr_Errors := [] |} ∧
     e_Key <$> edges_of def (sample_group "split" "plan") = ["left"; "right"] ∧
     @ResolveFanoutJoin default_order def ["left"; "right"] = None)
    [sample_repeated_keys; sample_two_entries].
Proof. repeat constructor; vm_compute; reflexivity. Qed.

(** Saving a draft is never stricter than using it. Compared with any
    other context and the same roles, a draft validation crashes on the same
    definitions and each of its diagnostics is one of the other run, where it
    blocks; so a definition accepted for execution has no draft diagnostics. *)
Theorem draft_covered (o : RangeOrder) Parse static def opts1 opts2
    (Hdraft : effective_context opts1 = ValidationContextDraft)
    (Hother : effective_context opts2 ≠ ValidationContextDraft)
    (Hresolver : vo_RoleResolver opts1 = vo_RoleResolver opts2)
    (Hnodes : vo_ExecutionNodes opts1 = vo_ExecutionNodes opts2) :
  match ValidateDefinition Parse static def opts1, ValidateDefinition Parse static def opts2 with
  | Some r1, Some r2 =>
    (∀ e, e ∈ vr_Errors r1 → raise e ∈ vr_Errors r2) ∧ (HasBlockingErrors r2 = false → vr_Errors r1 = [])
  | None, None => True
  | _, _ => False
  end.
Proof.
  pose proof (ValidateDefinition_blocks def _ opts2 Parse Hother static) as Hblocks.
  assert (∀ r1 r2, covered (vr_Errors r1) (vr_Errors r2) → Forall blocks (vr_Errors r2) →
    covered (vr_Errors r1) (vr_Errors r2) ∧ (HasBlockingErrors r2 = false → vr_Errors r1 = [])) as Hend.
  { intros r1 r2 Hc Hb. split; [done|]. rewrite HasBlockingErrors_false. intros Hn.
    destruct (vr_Errors r1) as [|e l]; [done|]. assert (raise e ∈ vr_Errors r2) as He by (apply Hc; by left).
    by specialize (Hn _ He). }
  unfold ValidateDefinition in *. rewrite Hdraft in *. set (context := effective_context opts2) in *.
  destruct (IsZero (d_ID def)).
  { apply Hend; [|by apply Hblocks]. apply covered_blocks. repeat constructor. }
  pose proof (validateShape_state def context) as Hs. pose proof (validateShape_covered def context Hother) as Hshape.
  destruct (validateShape def ValidationContextDraft) as [s1 sh1], (validateShape def context) as [s sh2].
  cbn [fst snd] in Hs, Hshape. subst s1.
  pose proof (validateGraph_covered def context opts1 opts2 Parse Hother Hresolver Hnodes s) as Hg.
  destruct (validateGraph def ValidationContextDraft _ _ _), (validateGraph def context _ _ _);
    cbn [mbind option_bind covered_opt] in *; try done.
  destruct (validateDerivedWiring def Parse) as [w|] eqn:Hw; cbn [mbind option_bind] in *; [|done].
  apply Hend; [|by apply Hblocks]. cbn [vr_Errors]. repeat apply covered_app; try done.
  - by apply validateFanouts_covered.
  - by apply validateContinuationSources_covered.
  - apply covered_blocks. by apply (validateDerivedWiring_blocks def Parse).
Qed.

Lemma draft_covered_witness :
  ∃ r1 r2,
    @ValidateDefinition default_order parse_plain no_static sample_fanout
      {| vo_Context := ""; vo_RoleResolver := None; vo_ExecutionNodes := None |} = Some r1 ∧
    @ValidateDefinition default_order parse_plain no_static sample_fanout
      {| vo_Context := "execution"; vo_RoleResolver := None; vo_ExecutionNodes := None |} = Some r2 ∧
    length (vr_Errors r1) = 4%nat ∧ HasBlockingErrors r1 = false ∧
    (∀ e, e ∈ vr_Errors r1 → raise e ∈ vr_Errors r2).
Proof.
  pose (opts1 := {| vo_Context := ""; vo_RoleResolver := None; vo_ExecutionNodes := None |}).
  pose (opts2 := {| vo_Context := "execution"; vo_RoleResolver := None; vo_ExecutionNodes := None |}).
  assert (effective_context opts1 = ValidationContextDraft) as H1 by (vm_compute; reflexivity).
  assert (effective_context opts2 ≠ ValidationContextDraft) as H2 by by vm_compute.
  pose proof (draft_covered default_order parse_plain no_static sample_fanout opts1 opts2 H1 H2 eq_refl eq_refl) as Hc.
  assert ((λ r, (length (vr_Errors r), HasBlockingErrors r)) <$>
    @ValidateDefinition default_order parse_plain no_static sample_fanout opts1 = Some (4%nat, false)) as Hrun
    by (vm_compute; reflexivity).
  fold opts1 opts2. destruct (ValidateDefinition parse_plain no_static sample_fanout opts1) as [r1|]; [|done].
  destruct (ValidateDefinition parse_plain no_static sample_fanout opts2) as [r2|]; [|done].
  injection Hrun as Hlen Hb. exists r1, r2. by destruct Hc.
Defined.
