(* ===== verification/MutationLane.v ===== *)
(** * Mutation lanes

    src/server/mutationlane/mutation_lane.go: the registry of per-key
    reader/writer lanes that serialises in-process mutations. Goroutines
    interleave at the granularity of the code's critical sections: [exec] runs
    one section of one caller, and a schedule is a list of them. The registry
    mutex is explicit, because [Release] holds it across two sections of the
    entry mutex. *)
From Stdlib Require Import NArith String.
From stdpp Require Import gmap strings list.
From S2P Require Import Prelude.

Section lane.
Context {K : Type} `{Countable K}.

(** [mutationLaneEntry]; the channel [changed] is named by a number. *)
Record mutationLaneEntry := { changed : nat; readers : nat; exclusive : bool; refs : nat }.

(** Where one call of [Acquire] or [AcquireShared], or the lease it returned,
    stands: before the entry's admission test, in its [select], after its
    context ended, or with a lease that is held, is being released, or has
    been released. *)
Inductive call :=
| Trying (key : K) (shared : bool) (entry : nat)
| Waiting (key : K) (shared : bool) (entry chan : nat)
| Aborted (key : K) (shared : bool) (entry : nat)
| Holding (key : K) (shared : bool) (entry : nat)
| Releasing (key : K) (shared : bool) (entry : nat)
| Released
| Failed.

(** [MutationLaneRegistry] with the heap of entries, the closed channels, the
    calls made so far, and the call that holds the registry mutex between
    sections. Entries, channels and calls are allocated in order. *)
Record registry := {
  entries : gmap K nat; heap : gmap nat mutationLaneEntry; closed : gset nat;
  calls : gmap nat call; locked : option nat;
  next_entry : nat; next_chan : nat; next_call : nat }.

Definition NewMutationLaneRegistry : registry := {|
  entries := ∅; heap := ∅; closed := ∅; calls := ∅; locked := None;
  next_entry := 0; next_chan := 0; next_call := 0 |}.

Inductive outcome := Next (s : registry) | Blocked | Panic.

Definition set_entry (e : nat) (en : mutationLaneEntry) (s : registry) : registry := {|
  entries := entries s; heap := <[e := en]> (heap s); closed := closed s; calls := calls s; locked := locked s;
  next_entry := next_entry s; next_chan := next_chan s; next_call := next_call s |}.
Definition set_call (c : nat) (k : call) (s : registry) : registry := {|
  entries := entries s; heap := heap s; closed := closed s; calls := <[c := k]> (calls s); locked := locked s;
  next_entry := next_entry s; next_chan := next_chan s; next_call := next_call s |}.
Definition set_locked (l : option nat) (s : registry) : registry := {|
  entries := entries s; heap := heap s; closed := closed s; calls := calls s; locked := l;
  next_entry := next_entry s; next_chan := next_chan s; next_call := next_call s |}.

(** [registry.acquire] up to the unlock: find or create the entry and count
    the reference. *)
Definition acquire_begin (key : K) (shared : bool) (s : registry) : registry :=
  let fresh := {| changed := next_chan s; readers := 0; exclusive := false; refs := 0 |} in
  let '(e, en, s) :=
    match entries s !! key with
    | Some e => (e, default fresh (heap s !! e), s)
    | None => (next_entry s, fresh,
        {| entries := <[key := next_entry s]> (entries s); heap := heap s; closed := closed s; calls := calls s;
           locked := locked s; next_entry := S (next_entry s); next_chan := S (next_chan s); next_call := next_call s |})
    end in
  let s := set_entry e {| changed := changed en; readers := readers en; exclusive := exclusive en; refs := S (refs en) |} s in
  {| entries := entries s; heap := heap s; closed := closed s; calls := <[next_call s := Trying key shared e]> (calls s);
     locked := locked s; next_entry := next_entry s; next_chan := next_chan s; next_call := S (next_call s) |}.

(** The condition of [entry.acquire]. *)
Definition admits (shared : bool) (en : mutationLaneEntry) : bool :=
  (shared && negb (exclusive en)) || (negb shared && negb (exclusive en) && (readers en =? 0)).

(** One iteration of the loop of [entry.acquire], up to its [select]. *)
Definition entry_acquire (c : nat) (key : K) (shared : bool) (e : nat) (en : mutationLaneEntry) (s : registry) : registry :=
  if admits shared en then
    set_call c (Holding key shared e)
      (set_entry e (if shared
        then {| changed := changed en; readers := S (readers en); exclusive := exclusive en; refs := refs en |}
        else {| changed := changed en; readers := readers en; exclusive := true; refs := refs en |}) s)
  else set_call c (Waiting key shared e (changed en)) s.

(** [entry.release]: the counters, then a new channel in place of the closed
    one. *)
Definition entry_release (shared : bool) (e : nat) (en : mutationLaneEntry) (s : registry) : outcome :=
  let done en' := Next {|
    entries := entries s; heap := <[e := en']> (heap s); closed := {[changed en]} ∪ closed s; calls := calls s;
    locked := locked s; next_entry := next_entry s; next_chan := S (next_chan s); next_call := next_call s |} in
  if shared then
    if readers en =? 0 then Panic
    else done {| changed := next_chan s; readers := pred (readers en); exclusive := exclusive en; refs := refs en |}
  else if negb (exclusive en) then Panic
  else done {| changed := next_chan s; readers := readers en; exclusive := false; refs := refs en |}.

(** [releaseReferenceLocked]. *)
Definition releaseReferenceLocked (key : K) (e : nat) (s : registry) : outcome :=
  match entries s !! key, heap s !! e with
  | Some registered, Some en =>
    if (registered <>? e) || (refs en =? 0) then Panic
    else
      let n := pred (refs en) in
      let s := set_entry e {| changed := changed en; readers := readers en; exclusive := exclusive en; refs := n |} s in
      Next (if n =? 0 then {| entries := delete key (entries s); heap := heap s; closed := closed s; calls := calls s;
                              locked := locked s; next_entry := next_entry s; next_chan := next_chan s;
                              next_call := next_call s |}
            else s)
  | _, _ => Panic
  end.

Definition then_do (o : outcome) (f : registry → registry) : outcome :=
  match o with Next s => Next (f s) | o => o end.

(** The sections a scheduler can run. *)
Inductive action :=
| Begin (key : K) (shared : bool)   (* call Acquire or AcquireShared *)
| Try (c : nat)                     (* the admission test *)
| Wake (c : nat)                    (* the select, on the channel *)
| Cancel (c : nat)                  (* the select, on the context *)
| Drop (c : nat)                    (* releaseReference after a cancellation *)
| Release (c : nat)                 (* Release, up to the end of entry.release *)
| Finish (c : nat).                 (* Release, releaseReferenceLocked and unlock *)

Definition exec (a : action) (s : registry) : outcome :=
  match a with
  | Begin key shared =>
    match locked s with Some _ => Blocked | None => Next (acquire_begin key shared s) end
  | Try c =>
    match calls s !! c with
    | Some (Trying key shared e) =>
      match heap s !! e with Some en => Next (entry_acquire c key shared e en s) | None => Panic end
    | _ => Blocked
    end
  | Wake c =>
    match calls s !! c with
    | Some (Waiting key shared e chan) =>
      if chan ∈? closed s then Next (set_call c (Trying key shared e) s) else Blocked
    | _ => Blocked
    end
  | Cancel c =>
    match calls s !! c with
    | Some (Waiting key shared e chan) => Next (set_call c (Aborted key shared e) s)
    | _ => Blocked
    end
  | Drop c =>
    match calls s !! c, locked s with
    | Some (Aborted key shared e), None => then_do (releaseReferenceLocked key e s) (set_call c Failed)
    | _, _ => Blocked
    end
  | Release c =>
    match calls s !! c, locked s with
    | Some (Holding key shared e), None =>
      match heap s !! e with
      | Some en => then_do (entry_release shared e en s) (λ s, set_locked (Some c) (set_call c (Releasing key shared e) s))
      | None => Panic
      end
    | Some Released, None => Panic
    | _, _ => Blocked
    end
  | Finish c =>
    match calls s !! c with
    | Some (Releasing key shared e) =>
      if locked s ==? Some c
      then then_do (releaseReferenceLocked key e s) (λ s, set_locked None (set_call c Released s))
      else Blocked
    | _ => Blocked
    end
  end.

Inductive step (s s' : registry) : Prop :=
| step_exec a : exec a s = Next s' → step s s'.
Definition reachable (s : registry) : Prop := rtc step NewMutationLaneRegistry s.

Fixpoint run (schedule : list action) (s : registry) : outcome :=
  match schedule with
  | [] => Next s
  | a :: rest => match exec a s with Next s => run rest s | o => o end
  end.
End lane.
Arguments registry : clear implicits.
Arguments registry _ {_ _}.
Arguments call : clear implicits.
Arguments action : clear implicits.
Arguments outcome : clear implicits.
Arguments outcome _ {_ _}.
