(* ===== verification/MutationLaneFacts.v ===== *)
(** * The mutation lane invariant

    The counters of an entry are the numbers of calls that refer to it and of
    leases that hold it, an exclusive lease excludes every other, and a caller
    that waits on an open channel cannot be admitted yet. Every section of
    every caller keeps this. *)
From Stdlib Require Import NArith String.
From stdpp Require Import gmap strings list.
From S2P Require Import Prelude MutationLane.

(** ** Counting map entries *)
Section count.
Context {A : Type}.
Implicit Types m : gmap nat A.

Definition b2n (b : bool) : nat := if b then 1 else 0.
Definition count (f : A → bool) m : nat := size (filter (λ kv, f kv.2 = true) m).

Lemma count_fresh f m c x : m !! c = None → count f (<[c := x]> m) = b2n (f x) + count f m.
Proof.
  intros Hc. unfold count. destruct (f x) eqn:Hf; simpl.
  - rewrite map_filter_insert_True by done. rewrite map_size_insert_None; [done|].
    apply map_lookup_filter_None. by left.
  - rewrite map_filter_insert_False by (simpl; congruence). by rewrite delete_id.
Qed.

Lemma count_update f m c x y : m !! c = Some y → b2n (f y) + count f (<[c := x]> m) = b2n (f x) + count f m.
Proof.
  intros Hc. rewrite <- (insert_delete_id m c y Hc) at 2. rewrite insert_delete_eq.
  rewrite <- (insert_delete_eq m c x), <- (insert_delete_eq m c y).
  rewrite !count_fresh by apply lookup_delete_eq. lia.
Qed.

Lemma count_zero f m : count f m = 0 ↔ ∀ c x, m !! c = Some x → f x = false.
Proof.
  unfold count. rewrite map_size_empty_iff, map_empty. setoid_rewrite map_lookup_filter_None. split.
  - intros Hm c x Hx. destruct (Hm c) as [|Hf]; [congruence|]. specialize (Hf x Hx). simpl in Hf. by destruct (f x).
  - intros Hm c. right. intros x Hx. simpl. by rewrite (Hm c x Hx).
Qed.

Lemma count_pos f m : 0 < count f m ↔ ∃ c x, m !! c = Some x ∧ f x = true.
Proof.
  split.
  - intros Hpos. destruct (map_choose (filter (λ kv : nat * A, f kv.2 = true) m)) as (c & x & Hx).
    { intros E. unfold count in Hpos. rewrite E, map_size_empty in Hpos. lia. }
    apply map_lookup_filter_Some in Hx as [? ?]. by exists c, x.
  - intros (c & x & Hx & Hf). destruct (decide (count f m = 0)) as [E|]; [|lia].
    rewrite count_zero in E. by rewrite (E c x Hx) in Hf.
Qed.

(** Two different entries count twice. *)
Lemma count_two f m c1 c2 x1 x2 :
  c1 ≠ c2 → m !! c1 = Some x1 → m !! c2 = Some x2 → f x1 = true → f x2 = true → 2 ≤ count f m.
Proof.
  intros Hne H1 H2 F1 F2. rewrite <- (insert_delete_id m c1 x1 H1).
  rewrite count_fresh, F1 by apply lookup_delete_eq. simpl.
  enough (0 < count f (delete c1 m)) by lia. apply count_pos. exists c2, x2. by rewrite lookup_delete_ne.
Qed.
End count.

(** ** The invariant *)
Section invariant.
Context {K : Type} `{Countable K}.
Implicit Types (s : registry K) (x : call K).

(** The key and entry a call refers to, while it counts as a reference. *)
Definition binding x : option (K * nat) :=
  match x with
  | Trying k _ e | Waiting k _ e _ | Aborted k _ e | Holding k _ e | Releasing k _ e => Some (k, e)
  | Released | Failed => None
  end.
Definition refers (e : nat) x : bool :=
  match binding x with Some (_, e') => bool_decide (e' = e) | None => false end.
Definition holds (shared : bool) (e : nat) x : bool :=
  match x with Holding _ sh e' => bool_decide (sh = shared ∧ e' = e) | _ => false end.

Record entry_ok s (e : nat) (en : mutationLaneEntry) : Prop := {
  ok_refs : refs en = count (refers e) (calls s);
  ok_readers : readers en = count (holds true e) (calls s);
  ok_writers : b2n (exclusive en) = count (holds false e) (calls s);
  ok_exclusion : exclusive en = true → readers en = 0 }.

Record inv s : Prop := {
  inv_ref : ∀ c x k e, calls s !! c = Some x → binding x = Some (k, e) → entries s !! k = Some e;
  inv_entry : ∀ k e, entries s !! k = Some e → ∃ en, heap s !! e = Some en ∧ entry_ok s e en ∧ 0 < refs en;
  inv_inj : ∀ k1 k2 e, entries s !! k1 = Some e → entries s !! k2 = Some e → k1 = k2;
  inv_wait : ∀ c k sh e ch en, calls s !! c = Some (Waiting k sh e ch) → ch ∉ closed s → heap s !! e = Some en →
    changed en = ch ∧ admits sh en = false;
  inv_lock : ∀ c, locked s = Some c ↔ ∃ k sh e, calls s !! c = Some (Releasing k sh e);
  inv_fresh_call : ∀ c, next_call s ≤ c → calls s !! c = None;
  inv_fresh_entry : ∀ e, next_entry s ≤ e → heap s !! e = None }.

Lemma refers_true e x : refers e x = true ↔ ∃ k, binding x = Some (k, e).
Proof.
  unfold refers. destruct (binding x) as [[k e']|]; [|naive_solver].
  rewrite bool_decide_eq_true. naive_solver.
Qed.
Lemma holds_refers sh e x : holds sh e x = true → refers e x = true.
Proof. destruct x; simpl; try done. unfold refers. simpl. rewrite !bool_decide_eq_true. naive_solver. Qed.

(** A call bound to another entry does not count. *)
Lemma other_entry x k e e' :
  binding x = Some (k, e) ∨ binding x = None → e' ≠ e →
  refers e' x = false ∧ holds true e' x = false ∧ holds false e' x = false.
Proof.
  intros Hx Hne. assert (refers e' x = false) as Hr.
  { destruct (refers e' x) eqn:E; [|done]. apply refers_true in E as [k' E]. destruct Hx; congruence. }
  split; [done|]. split.
  - destruct (holds true e' x) eqn:E; [|done]. apply holds_refers in E. congruence.
  - destruct (holds false e' x) eqn:E; [|done]. apply holds_refers in E. congruence.
Qed.

(** One call [c] on entry [e] moves from [old] to [new], and the entry from
    [en] to [en']. When the last reference goes, the key is forgotten. *)
Lemma inv_update s s' c old new k e en en' :
  inv s → calls s !! c = Some old → binding old = Some (k, e) → heap s !! e = Some en →
  calls s' = <[c := new]> (calls s) → heap s' = <[e := en']> (heap s) →
  entries s' = (if refs en' =? 0 then delete k (entries s) else entries s) →
  closed s ⊆ closed s' → next_call s' = next_call s → next_entry s' = next_entry s →
  binding new = Some (k, e) ∨ binding new = None →
  1 + refs en' = refs en + b2n (refers e new) →
  b2n (holds true e old) + readers en' = readers en + b2n (holds true e new) →
  b2n (holds false e old) + b2n (exclusive en') = b2n (exclusive en) + b2n (holds false e new) →
  (exclusive en' = true → readers en' = 0) →
  (changed en' = changed en ∧ (∀ sh, admits sh en = false → admits sh en' = false)) ∨ changed en ∈ closed s' →
  (∀ k' sh e' ch, new = Waiting k' sh e' ch → changed en' = ch ∧ admits sh en' = false) →
  (∀ c', locked s' = Some c' ↔ ∃ k sh e, calls s' !! c' = Some (Releasing k sh e)) →
  inv s'.
Proof.
  intros [I1 I2 I3 I4 I5 I6 I7] Hc Hold He Ecalls Eheap Eentries Hclosed Encall Enentry Hnew Hrefs Hreaders Hwriters Hexcl Hwake Hwait Hlock.
  pose proof (I1 c old k e Hc Hold) as Hk. destruct (I2 k e Hk) as (en0 & He0 & [R1 R2 R3 R4] & Hpos).
  rewrite He in He0. injection He0 as <-.
  assert (refers e old = true) as Hrold by (apply refers_true; by exists k).
  assert (entry_ok s' e en') as Hok.
  { split; rewrite ?Ecalls; try done.
    - pose proof (count_update (refers e) (calls s) c new old Hc) as Hu. rewrite Hrold in Hu. simpl in Hu. lia.
    - pose proof (count_update (holds true e) (calls s) c new old Hc). lia.
    - pose proof (count_update (holds false e) (calls s) c new old Hc). lia. }
  assert (∀ c' x k' e', calls s' !! c' = Some x → binding x = Some (k', e') → entries s !! k' = Some e') as Hbind.
  { intros c' x k' e'. rewrite Ecalls, lookup_insert_Some. intros [[<- <-]|[_ Hx]] Hb; [|by eapply I1].
    destruct Hnew as [Hn|Hn]; congruence. }
  assert (refs en' = 0 → ∀ c' x k' e', calls s' !! c' = Some x → binding x = Some (k', e') → e' ≠ e) as Hnone.
  { intros Hz c' x k' e' Hx Hb ->. pose proof (ok_refs _ _ _ Hok) as Hcnt. rewrite Hz in Hcnt. symmetry in Hcnt.
    rewrite count_zero in Hcnt. specialize (Hcnt c' x Hx). rewrite <- not_true_iff_false, refers_true in Hcnt. naive_solver. }
  assert (∀ k' e', entries s' !! k' = Some e' → entries s !! k' = Some e') as Hsub.
  { intros k' e'. rewrite Eentries. destruct (_ =? 0); [|done]. by intros [_ ?]%lookup_delete_Some. }
  split.
  - intros c' x k' e' Hx Hb. pose proof (Hbind _ _ _ _ Hx Hb) as Hk'. rewrite Eentries.
    destruct (Nat.eqb_spec (refs en') 0) as [Hz|]; [|done]. rewrite lookup_delete_ne; [done|]. intros <-.
    apply (Hnone Hz _ _ _ _ Hx Hb). congruence.
  - intros k' e' Hk'. pose proof (Hsub _ _ Hk') as Hk0. rewrite Eheap. destruct (decide (e' = e)) as [->|Hne].
    + rewrite (I3 k' k e Hk0 Hk) in Hk'. exists en'. rewrite lookup_insert_eq. split; [done|]. split; [done|].
      rewrite Eentries in Hk'. destruct (Nat.eqb_spec (refs en') 0); [by rewrite lookup_delete_eq in Hk'|lia].
    + destruct (I2 k' e' Hk0) as (en0 & He0 & [S1 S2 S3 S4] & Hp). exists en0. rewrite lookup_insert_ne by done.
      split; [done|]. split; [|done].
      destruct (other_entry old k e e') as (O1 & O2 & O3); [by left|done|].
      destruct (other_entry new k e e') as (N1 & N2 & N3); [done|done|].
      pose proof (count_update (refers e') (calls s) c new old Hc) as U1.
      pose proof (count_update (holds true e') (calls s) c new old Hc) as U2.
      pose proof (count_update (holds false e') (calls s) c new old Hc) as U3.
      rewrite O1, N1 in U1. rewrite O2, N2 in U2. rewrite O3, N3 in U3. simpl in *.
      split; rewrite ?Ecalls; [lia..|done].
  - intros k1 k2 e' H1%Hsub H2%Hsub. by eapply I3.
  - intros c' k' sh e' ch en0 Hw Hch Hen0. rewrite Ecalls, lookup_insert_Some in Hw. rewrite Eheap in Hen0.
    destruct Hw as [[<- ->]|[Hne Hw]].
    + destruct Hnew as [[= <- <-]|[=]]. rewrite lookup_insert_eq in Hen0. injection Hen0 as <-. by eapply Hwait.
    + assert (ch ∉ closed s) as Hch' by set_solver. apply lookup_insert_Some in Hen0 as [[<- <-]|[Hee Hen0]].
      * destruct (I4 c' k' sh e ch en Hw Hch' He) as [Hcc Ha]. destruct Hwake as [[-> Hadm]|Hcl]; [|congruence].
        split; [done|by apply Hadm].
      * by eapply I4.
  - done.
  - intros c'. rewrite Encall, Ecalls. intros Hle. rewrite lookup_insert_ne; [by apply I6|]. intros <-.
    rewrite (I6 c Hle) in Hc. done.
  - intros e'. rewrite Enentry, Eheap. intros Hle. rewrite lookup_insert_ne; [by apply I7|]. intros <-.
    rewrite (I7 e Hle) in He. done.
Qed.

Lemma lookup_bound s c x k e :
  inv s → calls s !! c = Some x → binding x = Some (k, e) →
  entries s !! k = Some e ∧ ∃ en, heap s !! e = Some en ∧ entry_ok s e en ∧ 0 < refs en.
Proof. intros Hinv Hc Hb. pose proof (inv_ref s Hinv c x k e Hc Hb) as Hk. split; [done|]. by apply (inv_entry s Hinv k). Qed.

Lemma refers_self x k e : binding x = Some (k, e) → refers e x = true.
Proof. intros Hb. apply refers_true. by exists k. Qed.

(** The registry lock is unaffected by a call that does not release. *)
Lemma lock_unchanged s c old new :
  inv s → calls s !! c = Some old →
  (∀ k sh e, old ≠ Releasing k sh e) → (∀ k sh e, new ≠ Releasing k sh e) →
  ∀ c', locked s = Some c' ↔ ∃ k sh e, <[c := new]> (calls s) !! c' = Some (Releasing k sh e).
Proof.
  intros Hinv Hc Hold Hnew c'. rewrite (inv_lock s Hinv). destruct (decide (c' = c)) as [->|Hne].
  - rewrite lookup_insert_eq. split; intros (k & sh & e & Hx); exfalso; [rewrite Hc in Hx|]; injection Hx as Hx; naive_solver.
  - by rewrite lookup_insert_ne.
Qed.

Lemma inv_init : inv NewMutationLaneRegistry.
Proof.
  split; simpl; intros *; rewrite ?lookup_empty; try done. split; [done|]. by intros (?&?&?&[=]).
Qed.

Lemma inv_entry_acquire s c k sh e en :
  inv s → calls s !! c = Some (Trying k sh e) → heap s !! e = Some en → inv (entry_acquire c k sh e en s).
Proof.
  intros Hinv Hc He. destruct (lookup_bound s c _ k e Hinv Hc eq_refl) as (Hk & en0 & He0 & [R1 R2 R3 R4] & Hpos).
  rewrite He in He0. injection He0 as <-. unfold entry_acquire.
  assert ((refs en =? 0) = false) as Hz by (apply Nat.eqb_neq; lia).
  destruct (admits sh en) eqn:Ha.
  - unfold admits in Ha. set (en' := if sh then _ else _).
    assert (refs en' = refs en ∧ changed en' = changed en) as [Er Ec] by by destruct sh.
    apply (inv_update s _ c (Trying k sh e) (Holding k sh e) k e en en'); try done; rewrite ?Er, ?Hz; try done; try lia.
    + by left.
    + rewrite refers_self with (k := k) by done. simpl. lia.
    + simpl. destruct sh; simpl; rewrite ?bool_decide_eq_true_2, ?bool_decide_eq_false_2 by naive_solver; simpl; lia.
    + simpl. destruct sh, (exclusive en); simpl in *; try done;
        rewrite ?bool_decide_eq_true_2, ?bool_decide_eq_false_2 by naive_solver; simpl; lia.
    + destruct sh, (exclusive en), (readers en) eqn:?; simpl in *; done || lia.
    + left. split; [done|]. intros sh'. subst en'. unfold admits. destruct sh, sh', (exclusive en), (readers en); simpl in *; done.
    + by apply (lock_unchanged s c (Trying k sh e)).
  - apply (inv_update s _ c (Trying k sh e) (Waiting k sh e (changed en)) k e en en); rewrite ?Hz; try done; try lia.
    + simpl. by rewrite insert_id.
    + by left.
    + rewrite refers_self with (k := k) by done. simpl. lia.
    + by left.
    + by intros k' sh' e' ch [= -> -> -> ->].
    + by apply (lock_unchanged s c (Trying k sh e)).
Qed.

(** A move of a waiting call that leaves the entry alone. *)
Lemma inv_waiting s c k sh e ch new :
  inv s → calls s !! c = Some (Waiting k sh e ch) →
  new = Trying k sh e ∨ new = Aborted k sh e → inv (set_call c new s).
Proof.
  intros Hinv Hc Hnew. destruct (lookup_bound s c _ k e Hinv Hc eq_refl) as (Hk & en & He & [R1 R2 R3 R4] & Hpos).
  assert ((refs en =? 0) = false) as Hz by (apply Nat.eqb_neq; lia).
  assert (binding new = Some (k, e) ∧ holds true e new = false ∧ holds false e new = false) as (Hb & Ht & Hf)
    by by destruct Hnew as [-> | ->].
  apply (inv_update s _ c (Waiting k sh e ch) new k e en en); rewrite ?Hz, ?Ht, ?Hf; try done; try lia.
  - simpl. by rewrite insert_id.
  - by left.
  - rewrite refers_self with (k := k) by done. simpl. lia.
  - by left.
  - intros k' sh' e' ch' ->. by destruct Hnew.
  - apply (lock_unchanged s c (Waiting k sh e ch)); [done..|]. intros k' sh' e' ->. by destruct Hnew.
Qed.

Lemma inv_entry_release s c k sh e en :
  inv s → locked s = None → calls s !! c = Some (Holding k sh e) → heap s !! e = Some en →
  ∃ s', then_do (entry_release sh e en s) (λ s, set_locked (Some c) (set_call c (Releasing k sh e) s)) = Next s' ∧ inv s'.
Proof.
  intros Hinv Hlock Hc He. destruct (lookup_bound s c _ k e Hinv Hc eq_refl) as (Hk & en0 & He0 & [R1 R2 R3 R4] & Hpos).
  rewrite He in He0. injection He0 as <-.
  assert (0 < count (holds sh e) (calls s)) as Hheld.
  { apply count_pos. exists c, (Holding k sh e). split; [done|]. simpl. by apply bool_decide_eq_true_2. }
  assert ((refs en =? 0) = false) as Hz by (apply Nat.eqb_neq; lia).
  assert (∀ c', Some c = Some c' ↔ ∃ k' sh' e', <[c := Releasing k sh e]> (calls s) !! c' = Some (Releasing k' sh' e')) as Hl.
  { intros c'. destruct (decide (c' = c)) as [->|Hne].
    - rewrite lookup_insert_eq. split; [|done]. intros _. by exists k, sh, e.
    - rewrite lookup_insert_ne by done. rewrite <- (inv_lock s Hinv), Hlock. split; [by intros [= <-]|done]. }
  unfold entry_release. destruct sh.
  - destruct (Nat.eqb_spec (readers en) 0) as [|Hr]; [lia|]. eexists. split; [reflexivity|].
    eapply (inv_update s _ c (Holding k true e) (Releasing k true e) k e en
      {| changed := next_chan s; readers := pred (readers en); exclusive := exclusive en; refs := refs en |});
      simpl; rewrite ?Hz; try done; try lia.
    + set_solver.
    + by left.
    + rewrite refers_self with (k := k) by done. simpl. lia.
    + rewrite bool_decide_eq_true_2 by done. simpl. lia.
    + intros Hx. specialize (R4 Hx). lia.
    + right. set_solver.
  - destruct (exclusive en) eqn:Hx; simpl in R3; [|lia]. eexists. split; [reflexivity|].
    eapply (inv_update s _ c (Holding k false e) (Releasing k false e) k e en
      {| changed := next_chan s; readers := readers en; exclusive := false; refs := refs en |});
      simpl; rewrite ?Hz, ?Hx; try done; try lia.
    + set_solver.
    + by left.
    + rewrite refers_self with (k := k) by done. simpl. lia.
    + rewrite bool_decide_eq_true_2 by done. done.
    + right. set_solver.
Qed.

(** Giving up a reference never trips its own check. *)
Lemma inv_release_reference s c x k e new l :
  inv s → calls s !! c = Some x → binding x = Some (k, e) →
  holds true e x = false → holds false e x = false → new = Released ∨ new = Failed →
  (∀ c', l = Some c' ↔ ∃ k sh e, <[c := new]> (calls s) !! c' = Some (Releasing k sh e)) →
  ∃ s', then_do (releaseReferenceLocked k e s) (λ s, set_locked l (set_call c new s)) = Next s' ∧ inv s'.
Proof.
  intros Hinv Hc Hb Ht Hf Hnew Hl. destruct (lookup_bound s c _ k e Hinv Hc Hb) as (Hk & en & He & [R1 R2 R3 R4] & Hpos).
  unfold releaseReferenceLocked. rewrite Hk, He, bool_decide_eq_true_2 by done. cbn [negb orb].
  destruct (Nat.eqb_spec (refs en) 0); [lia|]. eexists. split; [reflexivity|].
  assert (binding new = None ∧ refers e new = false ∧ holds true e new = false ∧ holds false e new = false)
    as (Nb & Nr & Nt & Nf) by by destruct Hnew as [-> | ->].
  eapply (inv_update s _ c x new k e en
    {| changed := changed en; readers := readers en; exclusive := exclusive en; refs := pred (refs en) |});
    cbn [changed readers exclusive refs]; rewrite ?Ht, ?Hf, ?Nr, ?Nt, ?Nf; try done;
    try (by destruct (pred (refs en) =? 0)); try (simpl; lia).
  - by right.
  - by left.
  - intros k' sh' e' ch' ->. by destruct Hnew.
Qed.

(** A new call on entry [e], which is registered under [key] already or is new. *)
Lemma inv_new_call s s' key sh e en :
  inv s → (entries s !! key = Some e ∨ entries s !! key = None ∧ e = next_entry s) →
  (entries s !! key = Some e → heap s !! e = Some en) →
  (entries s !! key = None → readers en = 0 ∧ exclusive en = false ∧ refs en = 0) →
  calls s' = <[next_call s := Trying key sh e]> (calls s) →
  heap s' = <[e := {| changed := changed en; readers := readers en; exclusive := exclusive en; refs := S (refs en) |}]> (heap s) →
  entries s' = <[key := e]> (entries s) → closed s' = closed s → locked s' = locked s →
  next_call s' = S (next_call s) → next_entry s ≤ next_entry s' → (e < next_entry s') →
  inv s'.
Proof.
  intros Hinv Hkey Hen Hzero Ecalls Eheap Eentries Eclosed Elocked Encall Hle Hlt.
  pose proof Hinv as [I1 I2 I3 I4 I5 I6 I7].
  assert (calls s !! next_call s = None) as Hfresh by by apply I6.
  assert (∀ k' e', entries s !! k' = Some e' → k' ≠ key → e' ≠ e) as Hother.
  { intros k' e' Hk' Hne ->. destruct Hkey as [Hk|[_ ->]]; [by eapply Hne, I3|].
    destruct (I2 _ _ Hk') as (? & He & _). by rewrite (I7 _ (le_n _)) in He. }
  assert (entry_ok s e en) as [R1 R2 R3 R4].
  { destruct Hkey as [Hk|[Hk ->]].
    - destruct (I2 _ _ Hk) as (en0 & He0 & ? & _). rewrite (Hen Hk) in He0. by injection He0 as <-.
    - destruct (Hzero Hk) as (Z1 & Z2 & Z3).
      assert (∀ c x, calls s !! c = Some x → refers (next_entry s) x = false) as Hno.
      { intros c x Hx. destruct (refers (next_entry s) x) eqn:E; [|done]. apply refers_true in E as [k Hb].
        destruct (lookup_bound s c x k _ Hinv Hx Hb) as (_ & ? & He & _). by rewrite (I7 _ (le_n _)) in He. }
      assert (∀ b c x, calls s !! c = Some x → holds b (next_entry s) x = false) as Hnh.
      { intros b c x Hx. destruct (holds b (next_entry s) x) eqn:E; [|done]. apply holds_refers in E.
        by rewrite (Hno c x Hx) in E. }
      split; rewrite ?Z1, ?Z2, ?Z3; [|..|done]; symmetry; apply count_zero; eauto. }
  split.
  - intros c x k' e'. rewrite Ecalls, Eentries, lookup_insert_Some. intros [[<- <-]|[Hc Hx]] Hb.
    + injection Hb as <- <-. apply lookup_insert_eq.
    + pose proof (I1 c x k' e' Hx Hb) as Hk'. destruct (decide (k' = key)) as [->|Hne].
      * rewrite lookup_insert_eq. destruct Hkey as [Hk|[Hk _]]; congruence.
      * by rewrite lookup_insert_ne.
  - intros k' e'. rewrite Eentries, Eheap. destruct (decide (k' = key)) as [->|Hne].
    + rewrite lookup_insert_eq. intros [= <-]. eexists. rewrite lookup_insert_eq. split; [done|].
      split; [|simpl; lia]. split; rewrite ?Ecalls; cbn [refs readers exclusive].
      * rewrite count_fresh, refers_self with (k := key) by done. simpl. lia.
      * by rewrite count_fresh.
      * by rewrite count_fresh.
      * done.
    + rewrite lookup_insert_ne by done. intros Hk'. specialize (Hother k' e' Hk' Hne).
      destruct (I2 k' e' Hk') as (en0 & He0 & [S1 S2 S3 S4] & Hp). exists en0. rewrite lookup_insert_ne by done.
      split; [done|]. split; [|done]. destruct (other_entry (Trying key sh e) key e e') as (N1 & N2 & N3); [by left|done|].
      split; rewrite ?Ecalls, ?count_fresh, ?N1, ?N2, ?N3 by done; done.
  - intros k1 k2 e'. rewrite Eentries, !lookup_insert_Some. intros [[<- <-]|[Hn1 H1]] [[<- H2]|[Hn2 H2]]; [done|..].
    + destruct (Hother k2 e); done.
    + destruct (Hother k1 e'); done.
    + by eapply I3.
  - intros c k' sh' e' ch en0. rewrite Ecalls, Eclosed, Eheap, lookup_insert_Some. intros [[_ [=]]|[Hc Hw]] Hch.
    destruct (lookup_bound s c _ k' e' Hinv Hw eq_refl) as (Hk' & en1 & He1 & _ & _).
    intros [[<- <-]|[Hne He]]%lookup_insert_Some; [|by eapply I4].
    assert (en1 = en) as ->.
    { destruct (decide (k' = key)) as [->|Hne]; [|by destruct (Hother k' e)]. rewrite (Hen Hk') in He1. by injection He1. }
    destruct (I4 c k' sh' e ch en Hw Hch He1) as [? Ha]. split; [done|]. unfold admits in *. by destruct sh', (exclusive en).
  - intros c. rewrite Elocked, Ecalls, I5. destruct (decide (c = next_call s)) as [->|Hne].
    + rewrite lookup_insert_eq. split; [|by intros (?&?&?&[=])]. intros (?&?&?&Hx). congruence.
    + by rewrite lookup_insert_ne.
  - intros c Hc. rewrite Ecalls, lookup_insert_ne by lia. apply I6. lia.
  - intros e' He'. rewrite Eheap, lookup_insert_ne by lia. apply I7. lia.
Qed.

Lemma inv_begin s key sh : inv s → inv (acquire_begin key sh s).
Proof.
  intros Hinv. unfold acquire_begin. destruct (entries s !! key) as [e|] eqn:Hk.
  - destruct (inv_entry s Hinv key e Hk) as (en & He & _ & _). rewrite He. simpl.
    eapply (inv_new_call s _ key sh e en Hinv); simpl; try done; [by left|congruence|by rewrite insert_id|].
    destruct (decide (next_entry s ≤ e)) as [Hle|]; [|lia]. by rewrite (inv_fresh_entry s Hinv e Hle) in He.
  - simpl. eapply (inv_new_call s _ key sh (next_entry s)
      {| changed := next_chan s; readers := 0; exclusive := false; refs := 0 |} Hinv); simpl; try done; [by right|congruence|lia..].
Qed.

Lemma release_reference_locked k e s s' : releaseReferenceLocked k e s = Next s' → locked s' = locked s.
Proof. unfold releaseReferenceLocked. repeat case_match; try done; by intros [= <-]. Qed.

Lemma release_reference_calls k e s s' : releaseReferenceLocked k e s = Next s' → calls s' = calls s.
Proof. unfold releaseReferenceLocked. repeat case_match; try done; by intros [= <-]. Qed.

(** Every section keeps the invariant, and panics only on a second release. *)
Lemma exec_inv s a :
  inv s →
  match exec a s with
  | Next s' => inv s'
  | Blocked => True
  | Panic => ∃ c, a = Release c ∧ calls s !! c = Some Released
  end.
Proof.
  intros Hinv. destruct a as [k sh|c|c|c|c|c|c]; simpl.
  - destruct (locked s); [done|]. by apply inv_begin.
  - destruct (calls s !! c) as [[k sh e| | | | | |]|] eqn:Hc; try done.
    destruct (lookup_bound s c _ k e Hinv Hc eq_refl) as (_ & en & He & _). rewrite He. by apply inv_entry_acquire.
  - destruct (calls s !! c) as [[|k sh e ch| | | | |]|] eqn:Hc; try done.
    case_bool_decide; [|done]. eapply inv_waiting; eauto.
  - destruct (calls s !! c) as [[|k sh e ch| | | | |]|] eqn:Hc; try done. eapply inv_waiting; eauto.
  - destruct (calls s !! c) as [[| |k sh e| | | |]|] eqn:Hc; try done. destruct (locked s) eqn:Hl; [done|].
    destruct (inv_release_reference s c _ k e Failed None Hinv Hc) as (s' & Hs' & Hi); try done; [by right| |].
    { rewrite <- Hl. by apply (lock_unchanged s c (Aborted k sh e)). }
    destruct (releaseReferenceLocked k e s) as [s1| |] eqn:E; try done. injection Hs' as <-.
    apply release_reference_locked in E. unfold set_locked, set_call in Hi |- *. simpl in *. by rewrite E, Hl.
  - destruct (calls s !! c) as [[| | |k sh e| | |]|] eqn:Hc; try done; (destruct (locked s) eqn:Hl; [done|]); [|by exists c].
    destruct (lookup_bound s c _ k e Hinv Hc eq_refl) as (_ & en & He & _). rewrite He.
    destruct (inv_entry_release s c k sh e en Hinv Hl Hc He) as (s' & -> & ?). done.
  - destruct (calls s !! c) as [[| | | |k sh e| |]|] eqn:Hc; try done. case_bool_decide as Hl; [|done].
    destruct (inv_release_reference s c _ k e Released None Hinv Hc) as (s' & -> & Hi); try done; [by left|].
    intros c'. split; [done|]. intros (k' & sh' & e' & Hx). apply lookup_insert_Some in Hx as [[_ [=]]|[Hne Hx]].
    assert (locked s = Some c') as Hl' by (apply (inv_lock s Hinv); by exists k', sh', e'). congruence.
Qed.

Lemma reachable_inv s : reachable s → inv s.
Proof.
  unfold reachable. revert s. apply (rtc_ind_r inv); [apply inv_init|]. intros s s' _ [a Ha] IH.
  pose proof (exec_inv s a IH) as Hi. by rewrite Ha in Hi.
Qed.
End invariant.
