(* ===== verification/MutationLaneClaims.v ===== *)
(** * Properties of mutation lanes

    Mutual exclusion, bookkeeping without leaks or spurious panics, no lost
    wake-up, and refinement of an abstract reader/writer lock per key. *)
From Stdlib Require Import NArith String.
From stdpp Require Import gmap strings list.
From S2P Require Import Prelude MutationLane MutationLaneFacts.

(** ** The abstract lock

    The leases held, each with its key and mode. A lease may be added when
    every lease of the same key is shared and so is the new one. *)
Section spec.
Context {K : Type} `{Countable K}.

Local Abbreviation leases := (gmap nat (K * bool)).
Definition compatible (h : leases) (k : K) (sh : bool) : Prop :=
  ∀ c sh', h !! c = Some (k, sh') → sh = true ∧ sh' = true.
Inductive lock_step (h : leases) : leases → Prop :=
| lock_acquire c k sh : h !! c = None → compatible h k sh → lock_step h (<[c := (k, sh)]> h)
| lock_release c : is_Some (h !! c) → lock_step h (delete c h).

(** The leases of a registry. *)
Definition lease_of (x : call K) : option (K * bool) :=
  match x with Holding k sh _ => Some (k, sh) | _ => None end.
Definition held (s : registry K) : leases := omap lease_of (calls s).

Lemma held_Some (s : registry K) c k sh : held s !! c = Some (k, sh) ↔ ∃ e, calls s !! c = Some (Holding k sh e).
Proof.
  unfold held. rewrite lookup_omap, bind_Some. split.
  - intros (x & Hc & Hx). destruct x; simplify_eq/=. eauto.
  - intros [e He]. by exists (Holding k sh e).
Qed.

(** The entry's flags are what the leases of its key say. *)
Lemma admits_compatible (s : registry K) k sh e en :
  inv s → entries s !! k = Some e → heap s !! e = Some en →
  admits sh en = true ↔ compatible (held s) k sh.
Proof.
  intros Hinv Hk He. destruct (inv_entry s Hinv k e Hk) as (en0 & He0 & [R1 R2 R3 R4] & _).
  rewrite He in He0. injection He0 as <-.
  assert (∀ sh' c, calls s !! c = Some (Holding k sh' e) → 0 < count (holds sh' e) (calls s)) as Hcount.
  { intros sh' c Hc. apply count_pos. exists c, (Holding k sh' e). split; [done|]. simpl. by apply bool_decide_eq_true_2. }
  assert (∀ sh' c e', calls s !! c = Some (Holding k sh' e') → e' = e) as Hsame.
  { intros sh' c e' Hc. pose proof (inv_ref s Hinv c _ k e' Hc eq_refl). congruence. }
  assert (∀ sh', 0 < count (holds sh' e) (calls s) → ∃ c, held s !! c = Some (k, sh')) as Hex.
  { intros sh' (c & x & Hc & Hx)%count_pos. destruct x as [| | |k' sh2 e2| | |]; try done. simpl in Hx.
    apply bool_decide_eq_true_1 in Hx as [-> ->]. exists c. apply held_Some. exists e.
    pose proof (inv_ref s Hinv c _ k' e Hc eq_refl) as Hk'. by rewrite (inv_inj s Hinv k k' e). }
  unfold admits. split.
  - intros Ha c sh' [e' Hc]%held_Some. pose proof (Hsame _ _ _ Hc) as ->. specialize (Hcount _ _ Hc).
    destruct sh, sh', (exclusive en); simpl in *; try done; try lia.
    apply Nat.eqb_eq in Ha. lia.
  - intros Hcomp. destruct (exclusive en) eqn:Hx; simpl in R3.
    + destruct (Hex false) as [c Hc]; [lia|]. destruct (Hcomp c false Hc) as [_ [=]].
    + destruct sh; [done|]. simpl. destruct (Nat.eqb_spec (readers en) 0); [done|].
      destruct (Hex true) as [c Hc]; [lia|]. by destruct (Hcomp c true Hc).
Qed.

(** What the sections do to the leases. *)
Lemma held_same (s : registry K) c x y :
  calls s !! c = Some x → lease_of x = lease_of y → omap lease_of (<[c := y]> (calls s)) = held s.
Proof.
  intros Hx Hl. unfold held. apply map_eq. intros i. rewrite !lookup_omap.
  destruct (decide (i = c)) as [->|]; [rewrite lookup_insert_eq, Hx; simpl; congruence|by rewrite lookup_insert_ne].
Qed.
Lemma held_begin (s : registry K) k sh : inv s → held (acquire_begin k sh s) = held s.
Proof.
  intros Hinv. assert (calls s !! next_call s = None) as Hf by by apply inv_fresh_call.
  assert (∀ e, omap lease_of (<[next_call s := Trying k sh e]> (calls s)) = held s) as Hn.
  { intros e. apply map_eq. intros i. unfold held. rewrite !lookup_omap.
    destruct (decide (i = next_call s)) as [->|]; [by rewrite lookup_insert_eq, Hf|by rewrite lookup_insert_ne]. }
  unfold acquire_begin. destruct (entries s !! k); apply Hn.
Qed.
Lemma held_try (s : registry K) c k sh e en :
  inv s → calls s !! c = Some (Trying k sh e) → heap s !! e = Some en →
  held (entry_acquire c k sh e en s) = held s ∨ lock_step (held s) (held (entry_acquire c k sh e en s)).
Proof.
  intros Hinv Hc He. pose proof (inv_ref s Hinv c _ k e Hc eq_refl) as Hk. unfold entry_acquire.
  destruct (admits sh en) eqn:Ha; [|left; by eapply held_same]. right.
  set (s1 := set_entry e _ s). assert (held (set_call c (Holding k sh e) s1) = <[c := (k, sh)]> (held s)) as ->.
  { unfold held. simpl. by rewrite (omap_insert_Some _ _ _ _ (k, sh)). }
  constructor; [unfold held; by rewrite lookup_omap, Hc|]. by apply (admits_compatible s k sh e en).
Qed.
Lemma held_release (s s1 : registry K) c k sh e en l :
  calls s !! c = Some (Holding k sh e) → entry_release sh e en s = Next s1 →
  lock_step (held s) (held (set_locked l (set_call c (Releasing k sh e) s1))).
Proof.
  intros Hc E. assert (calls s1 = calls s) as Hcs by (unfold entry_release in E; repeat case_match; by simplify_eq).
  replace (held (set_locked _ _)) with (delete c (held s)); [constructor; exists (k, sh); apply held_Some; eauto|].
  unfold held. simpl. rewrite Hcs. apply map_eq. intros i. rewrite lookup_omap.
  destruct (decide (i = c)) as [->|]; [by rewrite lookup_delete_eq, lookup_insert_eq|].
  by rewrite lookup_delete_ne, lookup_insert_ne, lookup_omap.
Qed.
End spec.

(** C23. Two leases of one key are held at the same time only if both were
    acquired shared, in every interleaving of callers. *)
Theorem lanes_exclude {K} `{Countable K} (s : registry K) c1 c2 k sh1 sh2 e1 e2
    (Hreach : reachable s) (Hne : c1 ≠ c2)
    (H1 : calls s !! c1 = Some (Holding k sh1 e1)) (H2 : calls s !! c2 = Some (Holding k sh2 e2)) :
  sh1 = true ∧ sh2 = true ∧ e1 = e2.
Proof.
  apply reachable_inv in Hreach as Hinv.
  destruct (lookup_bound s c1 _ k e1 Hinv H1 eq_refl) as (Hk & en & He & [R1 R2 R3 R4] & _).
  pose proof (inv_ref s Hinv c2 _ k e2 H2 eq_refl) as Hk2. rewrite Hk in Hk2. injection Hk2 as <-.
  assert (∀ sh c, calls s !! c = Some (Holding k sh e1) → holds sh e1 (Holding k sh e1) = true) as Hh.
  { intros. simpl. by apply bool_decide_eq_true_2. }
  assert (∀ sh c, calls s !! c = Some (Holding k sh e1) → 0 < count (holds sh e1) (calls s)) as Hpos.
  { intros sh c Hc. apply count_pos. exists c, (Holding k sh e1). eauto. }
  pose proof (Hpos _ _ H1). pose proof (Hpos _ _ H2).
  destruct sh1, sh2; simpl in *; [done|..].
  - destruct (exclusive en); simpl in *; [specialize (R4 eq_refl); lia|lia].
  - destruct (exclusive en); simpl in *; [specialize (R4 eq_refl); lia|lia].
  - pose proof (count_two (holds false e1) (calls s) c1 c2 _ _ Hne H1 H2 (Hh _ _ H1) (Hh _ _ H2)).
    destruct (exclusive en); simpl in *; lia.
Qed.

(** A schedule of sections from the empty registry is reachable. *)
Lemma run_reachable {K} `{Countable K} (schedule : list (action K)) s s' :
  reachable s → run schedule s = Next s' → reachable s'.
Proof.
  revert s. induction schedule as [|a schedule IH]; simpl; intros s Hs; [by intros [= <-]|].
  destruct (exec a s) as [s1| |] eqn:E; try done. apply IH. eapply rtc_r; [exact Hs|by econstructor].
Qed.

(** Two shared leases, and an exclusive caller that waits for them. *)
Definition sample_schedule : list (action nat) :=
  [Begin 7 true; Begin 7 true; Begin 7 false; Try 0; Try 2; Try 1].
Definition sample_lanes : registry nat :=
  match run sample_schedule NewMutationLaneRegistry with Next s => s | _ => NewMutationLaneRegistry end.
Lemma sample_lanes_reachable : reachable sample_lanes.
Proof. apply (run_reachable sample_schedule NewMutationLaneRegistry); [constructor|vm_compute; reflexivity]. Qed.

Lemma lanes_exclude_witness :
  calls sample_lanes !! 0 = Some (Holding 7 true 0) ∧ calls sample_lanes !! 1 = Some (Holding 7 true 0) ∧ true = true.
Proof.
  assert (calls sample_lanes !! 0 = Some (Holding 7 true 0)) as H1 by (vm_compute; reflexivity).
  assert (calls sample_lanes !! 1 = Some (Holding 7 true 0)) as H2 by (vm_compute; reflexivity).
  split; [exact H1|]. split; [exact H2|].
  exact (proj1 (lanes_exclude sample_lanes 0 1 7 true true 0 0 sample_lanes_reachable ltac:(done) H1 H2)).
Defined.

(** C33. The panics of the registry: on a reachable state a section panics
    exactly when it releases a lease that was already released, while no other
    section runs. The panics that guard its own bookkeeping (a key without an
    entry, a reference count that is used up, a lease that does not hold its
    lane) are therefore unreachable, whatever callers do. *)
Theorem lanes_panic_on_double_release {K} `{Countable K} (s : registry K) a (Hreach : reachable s) :
  exec a s = Panic ↔ ∃ c, a = Release c ∧ calls s !! c = Some Released ∧ locked s = None.
Proof.
  apply reachable_inv in Hreach as Hinv. pose proof (exec_inv s a Hinv) as Hx. split.
  - intros E. rewrite E in Hx. destruct Hx as (c & -> & Hc). exists c. split; [done|]. split; [done|].
    simpl in E. rewrite Hc in E. by destruct (locked s).
  - intros (c & -> & Hc & Hl). simpl. by rewrite Hc, Hl.
Qed.

Lemma lanes_panic_on_double_release_witness :
  match run (sample_schedule ++ [Release 0; Finish 0]) NewMutationLaneRegistry with
  | Next s => exec (Release 0) s = Panic
  | _ => False
  end.
Proof.
  destruct (run (sample_schedule ++ [Release 0; Finish 0]) NewMutationLaneRegistry) as [s| |] eqn:E;
    [|by vm_compute in E|by vm_compute in E].
  apply (lanes_panic_on_double_release s (Release 0) (run_reachable _ _ s ltac:(constructor) E)).
  exists 0. split; [reflexivity|]. vm_compute in E. injection E as <-. split; reflexivity.
Defined.

(** Nothing leaks: a key is registered exactly while some call or lease
    refers to it, its reference count is the number of these, and a registry
    whose calls have all failed or released their leases is empty. *)
Theorem lanes_no_leak {K} `{Countable K} (s : registry K) (Hreach : reachable s) :
  (∀ k, is_Some (entries s !! k) ↔ ∃ c x e, calls s !! c = Some x ∧ binding x = Some (k, e)) ∧
  (∀ k e, entries s !! k = Some e → ∃ en, heap s !! e = Some en ∧ refs en = count (refers e) (calls s)) ∧
  ((∀ c x, calls s !! c = Some x → x = Released ∨ x = Failed) → entries s = ∅).
Proof.
  apply reachable_inv in Hreach as Hinv.
  assert (∀ k, is_Some (entries s !! k) ↔ ∃ c x e, calls s !! c = Some x ∧ binding x = Some (k, e)) as Hiff.
  { intros k. split.
    - intros [e He]. destruct (inv_entry s Hinv k e He) as (en & Hen & Hok & Hpos). rewrite (ok_refs _ _ _ Hok) in Hpos.
      apply count_pos in Hpos as (c & x & Hc & [k' Hb]%refers_true). exists c, x, e. split; [done|].
      by rewrite (inv_inj s Hinv k k' e He (inv_ref s Hinv c x k' e Hc Hb)).
    - intros (c & x & e & Hc & Hb). exists e. by eapply inv_ref. }
  split; [done|]. split.
  - intros k e He. destruct (inv_entry s Hinv k e He) as (en & Hen & Hok & _). exists en. split; [done|apply Hok].
  - intros Hall. apply map_empty. intros k. apply eq_None_not_Some. rewrite Hiff. intros (c & x & e & Hc & Hb).
    by destruct (Hall c x Hc) as [-> | ->].
Qed.

Lemma lanes_no_leak_witness :
  is_Some (entries sample_lanes !! 7) ↔
    ∃ c x e, calls sample_lanes !! c = Some x ∧ binding x = Some (7, e).
Proof. apply (proj1 (lanes_no_leak sample_lanes sample_lanes_reachable)). Defined.

(** C34. No wake-up is lost. A caller in its [select] that no held lease of its
    key conflicts with finds its channel closed, and its next two sections
    (leaving the [select], the admission test) give it the lease. *)
Theorem lanes_no_lost_wakeup {K} `{Countable K} (s : registry K) c k sh e ch
    (Hreach : reachable s) (Hwait : calls s !! c = Some (Waiting k sh e ch))
    (Hfree : compatible (held s) k sh) :
  ∃ s1 s2, exec (Wake c) s = Next s1 ∧ exec (Try c) s1 = Next s2 ∧
    calls s2 !! c = Some (Holding k sh e) ∧ held s2 = <[c := (k, sh)]> (held s).
Proof.
  apply reachable_inv in Hreach as Hinv.
  destruct (lookup_bound s c _ k e Hinv Hwait eq_refl) as (Hk & en & He & _ & _).
  apply (admits_compatible s k sh e en Hinv Hk He) in Hfree as Hadm.
  simpl. rewrite Hwait. case_bool_decide as Hcl; last first.
  { destruct (inv_wait s Hinv c k sh e ch en Hwait Hcl He) as [_ Ha]. congruence. }
  eexists. eexists. split; [reflexivity|]. simpl. rewrite lookup_insert_eq, He. split; [reflexivity|].
  unfold entry_acquire. rewrite Hadm. simpl. rewrite lookup_insert_eq. split; [done|].
  unfold held. simpl. by rewrite insert_insert_eq, (omap_insert_Some _ _ _ _ (k, sh)).
Qed.

Lemma lanes_no_lost_wakeup_witness :
  match run (sample_schedule ++ [Release 0; Finish 0; Release 1]) NewMutationLaneRegistry with
  | Next s => ∃ s1 s2, exec (Wake 2) s = Next s1 ∧ exec (Try 2) s1 = Next s2 ∧
      calls s2 !! 2 = Some (Holding 7 false 0)
  | _ => False
  end.
Proof.
  destruct (run (sample_schedule ++ [Release 0; Finish 0; Release 1]) NewMutationLaneRegistry) as [s| |] eqn:E;
    [|by vm_compute in E|by vm_compute in E].
  destruct (lanes_no_lost_wakeup s 2 7 false 0 0 (run_reachable _ _ s ltac:(constructor) E)) as (s1 & s2 & H1 & H2 & H3 & _).
  - vm_compute in E. injection E as <-. reflexivity.
  - vm_compute in E. injection E as <-. intros c sh' Hc. vm_compute in Hc. by destruct c as [|[|[|c]]].
  - exists s1, s2. auto.
Defined.

(** C35. The registry refines one reader/writer lock per key: on the leases
    held, every section of every caller is an acquisition the lock allows, a
    release, or no step at all; and the admission test takes the lease exactly
    when the lock allows it. *)
Theorem lanes_refine_lock {K} `{Countable K} (s s' : registry K) a
    (Hreach : reachable s) (Hstep : exec a s = Next s') :
  (held s' = held s ∨ lock_step (held s) (held s')) ∧
  (∀ c k sh e, a = Try c → calls s !! c = Some (Trying k sh e) →
     (held s' !! c = Some (k, sh) ↔ compatible (held s) k sh)).
Proof.
  apply reachable_inv in Hreach as Hinv. split.
  - destruct a as [k sh|c|c|c|c|c|c]; simpl in Hstep.
    + left. destruct (locked s); [done|]. injection Hstep as <-. by apply held_begin.
    + destruct (calls s !! c) as [[k sh e| | | | | |]|] eqn:Hc; try done.
      destruct (heap s !! e) as [en|] eqn:He; [|done]. injection Hstep as <-. by apply held_try.
    + destruct (calls s !! c) as [[|k sh e ch| | | | |]|] eqn:Hc; try done. case_bool_decide; [|done].
      injection Hstep as <-. left. by eapply held_same.
    + destruct (calls s !! c) as [[|k sh e ch| | | | |]|] eqn:Hc; try done. injection Hstep as <-. left. by eapply held_same.
    + destruct (calls s !! c) as [[| |k sh e| | | |]|] eqn:Hc; try done. destruct (locked s); [done|].
      left. destruct (releaseReferenceLocked k e s) as [s1| |] eqn:E; try done. injection Hstep as <-.
      unfold held at 1. simpl. rewrite (release_reference_calls _ _ _ _ E). by eapply held_same.
    + destruct (calls s !! c) as [[| | |k sh e| | |]|] eqn:Hc; try done; (destruct (locked s); [done|]); [|done].
      destruct (heap s !! e) as [en|]; [|done]. right.
      destruct (entry_release sh e en s) as [s1| |] eqn:E; try done. injection Hstep as <-. by eapply held_release.
    + destruct (calls s !! c) as [[| | | |k sh e| |]|] eqn:Hc; try done. case_bool_decide; [|done].
      left. destruct (releaseReferenceLocked k e s) as [s1| |] eqn:E; try done. injection Hstep as <-.
      unfold held at 1. simpl. rewrite (release_reference_calls _ _ _ _ E). by eapply held_same.
  - intros c k sh e -> Hc. destruct (lookup_bound s c _ k e Hinv Hc eq_refl) as (Hk & en & He & _ & _).
    rewrite <- (admits_compatible s k sh e en Hinv Hk He). simpl in Hstep. rewrite Hc, He in Hstep. injection Hstep as <-.
    unfold entry_acquire. destruct (admits sh en); simpl; rewrite held_Some; simpl; rewrite lookup_insert_eq;
      [by split; [|eauto]|by split; [intros [? [=]]|]].
Qed.

Lemma lanes_refine_lock_witness :
  ∃ s', exec (Release 1) sample_lanes = Next s' ∧
    (held s' = held sample_lanes ∨ lock_step (held sample_lanes) (held s')).
Proof.
  destruct (exec (Release 1) sample_lanes) as [s'| |] eqn:E; [|by vm_compute in E|by vm_compute in E].
  exists s'. split; [reflexivity|]. exact (proj1 (lanes_refine_lock sample_lanes s' (Release 1) sample_lanes_reachable E)).
Defined.
