(* ===== verification/TaskMutations.v ===== *)
(** * The task mutation coordinator

    src/server/workflowexecution/task_mutation_coordinator.go over the mutation
    lanes: calls of [Run] and [RunMany], which take the lanes of their tasks in
    the order of their names, run an operation, and give the lanes back. An
    operation may call again: its context carries the tasks whose lanes it has,
    and these are not taken twice. Every call of the lane registry is its own
    steps, so calls interleave as the registry allows. *)
From Stdlib Require Import String.
From stdpp Require Import gmap strings list relations.
From S2P Require Import Prelude GoStrings Types MutationLane.

Local Open Scope string_scope.

(** ** The order of the lanes *)
Inductive mutation_error :=
| MissingTask                       (* workflow task id is required *)
| MissingTaskAt (index : nat)       (* workflow task id at index %d is required *)
| DuplicateTask (taskID : TaskID).  (* workflow task id %q is duplicated *)
Definition Run_tasks (taskID : TaskID) : result mutation_error (list TaskID) :=
  if blank taskID then Err MissingTask else Ok [taskID].
Fixpoint check_ordered (index : nat) (previous : option TaskID) (ordered : list TaskID) : option mutation_error :=
  match ordered with
  | [] => None
  | taskID :: rest =>
    if blank taskID then Some (MissingTaskAt index)
    else if previous ==? Some taskID then Some (DuplicateTask taskID)
    else check_ordered (S index) (Some taskID) rest
  end.
Definition RunMany_tasks (taskIDs : list TaskID) : result mutation_error (list TaskID) :=
  let ordered := sort_strings taskIDs in
  match check_ordered 0 None ordered with Some e => Err e | None => Ok ordered end.

(** ** Calls *)
(** One call: its tasks in order, those whose lanes it still takes, and the
    leases it has, the latest first. [fr_held] with those of the calls around it
    are the chain of [activeTaskMutation]s of its context. *)
Record frame := { fr_tasks : list TaskID; fr_todo : list TaskID; fr_held : list (TaskID * nat) }.
Inductive mode :=
| Entering                                       (* before the next [Run] *)
| Acquiring (taskID : TaskID) (lease : nat)      (* in [lanes.Acquire] *)
| Operating                                      (* in the operation *)
| Leaving                                        (* before the next deferred [Release] *)
| Letting (lease : nat).                         (* in [Release] *)
Record caller := { cl_mode : mode; cl_top : frame; cl_outer : list frame }.
Record coordinator := { co_lanes : registry TaskID; co_callers : gmap nat caller; co_next : nat }.
Definition NewTaskMutationCoordinator : coordinator := {| co_lanes := NewMutationLaneRegistry; co_callers := ∅; co_next := 0 |}.
Inductive result_of := Stepped (s : coordinator) | Refused | Stuck | Panicked.

(** The leases and the active tasks of a caller's context. *)
Definition leases_of (c : caller) : list (TaskID * nat) := fr_held (cl_top c) ++ (f ← cl_outer c; fr_held f).
Definition active (c : caller) : list TaskID := (leases_of c).*1.

Definition new_call (todo : list TaskID) (outer : list frame) : caller :=
  {| cl_mode := Entering; cl_top := {| fr_tasks := todo; fr_todo := todo; fr_held := [] |}; cl_outer := outer |}.
Definition put (i : nat) (c : caller) (s : coordinator) : coordinator :=
  {| co_lanes := co_lanes s; co_callers := <[i := c]> (co_callers s); co_next := co_next s |}.
Definition on_lanes (o : outcome TaskID) (f : registry TaskID → coordinator) : result_of :=
  match o with Next l => Stepped (f l) | Blocked => Stuck | Panic => Panicked end.
Definition put_lanes (i : nat) (c : caller) (s : coordinator) (l : registry TaskID) : coordinator :=
  {| co_lanes := l; co_callers := <[i := c]> (co_callers s); co_next := co_next s |}.
Definition with_mode (m : mode) (c : caller) : caller := {| cl_mode := m; cl_top := cl_top c; cl_outer := cl_outer c |}.
Definition with_top (m : mode) (f : frame) (c : caller) : caller := {| cl_mode := m; cl_top := f; cl_outer := cl_outer c |}.

(** The next step of a caller. *)
Definition go (i : nat) (c : caller) (s : coordinator) : result_of :=
  let top := cl_top c in
  match cl_mode c with
  | Entering =>
    match fr_todo top with
    | [] => Stepped (put i (with_mode Operating c) s)
    | taskID :: rest =>
      if taskID ∈? active c then Stepped (put i (with_top Entering {| fr_tasks := fr_tasks top; fr_todo := rest; fr_held := fr_held top |} c) s)
      else on_lanes (exec (Begin taskID false) (co_lanes s)) (put_lanes i (with_mode (Acquiring taskID (next_call (co_lanes s))) c) s)
    end
  | Acquiring taskID lease =>
    match calls (co_lanes s) !! lease with
    | Some (Trying _ _ _) => on_lanes (exec (Try lease) (co_lanes s)) (put_lanes i c s)
    | Some (Waiting _ _ _ _) => on_lanes (exec (Wake lease) (co_lanes s)) (put_lanes i c s)
    | Some (Aborted _ _ _) => on_lanes (exec (Drop lease) (co_lanes s)) (put_lanes i c s)
    | Some (Holding _ _ _) =>
      Stepped (put i (with_top Entering {| fr_tasks := fr_tasks top; fr_todo := tail (fr_todo top); fr_held := (taskID, lease) :: fr_held top |} c) s)
    | Some Failed => Stepped (put i (with_mode Leaving c) s)
    | _ => Stuck
    end
  | Operating => Stepped (put i (with_mode Leaving c) s)
  | Leaving =>
    match fr_held top, cl_outer c with
    | (_, lease) :: _, _ => on_lanes (exec (Release lease) (co_lanes s)) (put_lanes i (with_mode (Letting lease) c) s)
    | [], [] => Stepped {| co_lanes := co_lanes s; co_callers := delete i (co_callers s); co_next := co_next s |}
    | [], outer :: rest => Stepped (put i {| cl_mode := Operating; cl_top := outer; cl_outer := rest |} s)
    end
  | Letting lease =>
    on_lanes (exec (Finish lease) (co_lanes s))
      (put_lanes i (with_top Leaving {| fr_tasks := fr_tasks top; fr_todo := fr_todo top; fr_held := tail (fr_held top) |} c) s)
  end.

Inductive mutation :=
| Call (tasks : result mutation_error (list TaskID))             (* [Run] or [RunMany] without a lane *)
| Nest (i : nat) (tasks : result mutation_error (list TaskID))   (* from the operation of a caller *)
| Go (i : nat)
| GiveUp (i : nat).                                              (* the context of a waiting caller ends *)
Definition perform (a : mutation) (s : coordinator) : result_of :=
  match a with
  | Call (Err _) => Refused
  | Call (Ok todo) => Stepped {| co_lanes := co_lanes s; co_callers := <[co_next s := new_call todo []]> (co_callers s); co_next := S (co_next s) |}
  | Nest i tasks =>
    match co_callers s !! i with
    | Some c =>
      match cl_mode c, tasks with
      | Operating, Ok todo => Stepped (put i (new_call todo (cl_top c :: cl_outer c)) s)
      | Operating, Err _ => Refused
      | _, _ => Stuck
      end
    | None => Stuck
    end
  | Go i => match co_callers s !! i with Some c => go i c s | None => Stuck end
  | GiveUp i =>
    match co_callers s !! i with
    | Some c => match cl_mode c with Acquiring _ lease => on_lanes (exec (Cancel lease) (co_lanes s)) (put_lanes i c s) | _ => Stuck end
    | None => Stuck
    end
  end.
Fixpoint perform_all (l : list mutation) (s : coordinator) : result_of :=
  match l with
  | [] => Stepped s
  | a :: l => match perform a s with Stepped s => perform_all l s | r => r end
  end.

(** ** Schedules *)
Definition before (a b : TaskID) : Prop := string_le a b ∧ a ≠ b.
#[export] Instance before_dec : RelDecision before.
Proof. intros a b. unfold before. apply _. Defined.
(** The tasks come from one of the two entry points; a call from an operation
    takes lanes behind the ones its caller has. *)
Definition entry_point (tasks : result mutation_error (list TaskID)) : Prop :=
  (∃ taskID, tasks = Run_tasks taskID) ∨ (∃ taskIDs, tasks = RunMany_tasks taskIDs).
Definition behind (c : caller) (tasks : result mutation_error (list TaskID)) : Prop :=
  match tasks with
  | Err _ => True
  | Ok todo => ∀ a x, a ∈ active c → x ∈ todo → x ∈ active c ∨ before a x
  end.
Definition orderly (a : mutation) (s : coordinator) : Prop :=
  match a with
  | Call tasks => entry_point tasks
  | Nest i tasks => entry_point tasks ∧ ∀ c, co_callers s !! i = Some c → behind c tasks
  | _ => True
  end.
Inductive mutates (s s' : coordinator) : Prop :=
| mutates_by a : orderly a s → perform a s = Stepped s' → mutates s s'.
Definition coordinated (s : coordinator) : Prop := rtc mutates NewTaskMutationCoordinator s.
