(* ===== verification/TaskMutationFacts.v ===== *)
(** * The coordinator and its lanes

    Who has which lease of the lane registry at each step of a call, the order
    in which a caller takes lanes, and that every step keeps both. *)
From Stdlib Require Import String Lia Sorting.Sorted.
From stdpp Require Import gmap strings list relations sorting.
From S2P Require Import Prelude GoStrings Types MutationLane MutationLaneFacts TaskMutations.

(** ** What a section of the registry does to the calls *)
Section sections.
Implicit Types (l : registry TaskID).
Lemma begin_calls k l l' : exec (Begin k false) l = Next l' → ∃ e, calls l' = <[next_call l := Trying k false e]> (calls l).
Proof. simpl. destruct (locked l); [done|]. intros [= <-]. unfold acquire_begin. destruct (entries l !! k); simpl; eauto. Qed.
Lemma try_calls n k e l l' : calls l !! n = Some (Trying k false e) → exec (Try n) l = Next l' →
  ∃ x, calls l' = <[n := x]> (calls l) ∧ (x = Holding k false e ∨ ∃ ch, x = Waiting k false e ch).
Proof.
  intros E. simpl. rewrite E. destruct (heap l !! e) as [en|]; [|done]. intros [= <-]. unfold entry_acquire. destruct (admits false en); simpl; eexists; eauto.
Qed.
Lemma wake_calls n k e ch l l' : calls l !! n = Some (Waiting k false e ch) → exec (Wake n) l = Next l' → calls l' = <[n := Trying k false e]> (calls l).
Proof. intros E. simpl. rewrite E. case_bool_decide; [|done]. by intros [= <-]. Qed.
Lemma cancel_calls n l l' : exec (Cancel n) l = Next l' → ∃ k sh e ch, calls l !! n = Some (Waiting k sh e ch) ∧ calls l' = <[n := Aborted k sh e]> (calls l).
Proof. simpl. destruct (calls l !! n) as [[]|] eqn:E; try done. intros [= <-]. eauto 10. Qed.
Lemma drop_calls n k e l l' : calls l !! n = Some (Aborted k false e) → exec (Drop n) l = Next l' → calls l' = <[n := Failed]> (calls l).
Proof.
  intros E. simpl. rewrite E. destruct (locked l); [done|]. destruct (releaseReferenceLocked k e l) as [l1| |] eqn:E1; simpl; try done. intros [= <-]. simpl.
  by rewrite (release_reference_calls _ _ _ _ E1).
Qed.
Lemma release_calls n k e l l' : calls l !! n = Some (Holding k false e) → exec (Release n) l = Next l' → calls l' = <[n := Releasing k false e]> (calls l).
Proof.
  intros E. simpl. rewrite E. destruct (locked l); [done|]. destruct (heap l !! e) as [en|]; [|done]. unfold entry_release.
  destruct (negb (exclusive en)); simpl; [done|]. by intros [= <-].
Qed.
Lemma finish_calls n k e l l' : calls l !! n = Some (Releasing k false e) → exec (Finish n) l = Next l' → calls l' = <[n := Released]> (calls l).
Proof.
  intros E. simpl. rewrite E. destruct (locked l ==? Some n); [|done]. destruct (releaseReferenceLocked k e l) as [l1| |] eqn:E1; simpl; try done. intros [= <-]. simpl.
  by rewrite (release_reference_calls _ _ _ _ E1).
Qed.
Lemma next_inv a l l' : inv l → exec a l = Next l' → inv l'.
Proof. intros Hi E. pose proof (exec_inv l a Hi) as Hx. by rewrite E in Hx. Qed.
End sections.

(** ** The invariant *)
Implicit Types (s : coordinator) (c : caller) (l : registry TaskID) (i j n : nat) (t : TaskID).
Definition acquiring (m : mode) : list nat := match m with Acquiring _ n => [n] | _ => [] end.
Definition mentions c : list nat := acquiring (cl_mode c) ++ (leases_of c).*2.
Definition letting (m : mode) n : bool := match m with Letting n' => n' =? n | _ => false end.
(** A lease of a caller is held, but the one it is releasing. *)
Definition held_ok l (m : mode) (p : TaskID * nat) : Prop :=
  ∃ e, calls l !! p.2 = Some (if letting m p.2 then Releasing p.1 false e else Holding p.1 false e).
Definition acquiring_ok l t n : Prop := ∃ x, calls l !! n = Some x ∧
  (x = Failed ∨ ∃ e, x = Trying t false e ∨ x = Aborted t false e ∨ x = Holding t false e ∨ ∃ ch, x = Waiting t false e ch).
Record owns l c : Prop := {
  ow_held : ∀ p, p ∈ leases_of c → held_ok l (cl_mode c) p;
  ow_acquiring : ∀ t n, cl_mode c = Acquiring t n → acquiring_ok l t n;
  ow_letting : ∀ n, cl_mode c = Letting n → ∃ t rest, fr_held (cl_top c) = (t, n) :: rest }.
Definition inward (m : mode) : bool := match m with Leaving | Letting _ => false | _ => true end.
(** What is still to take comes behind what the caller has. *)
Record ordered c : Prop := {
  or_sorted : StronglySorted before (fr_todo (cl_top c));
  or_behind : inward (cl_mode c) = true → ∀ a x, a ∈ active c → x ∈ fr_todo (cl_top c) → x ∈ active c ∨ before a x;
  or_acquiring : ∀ t n, cl_mode c = Acquiring t n → (t ∉ active c) ∧ ∃ rest, fr_todo (cl_top c) = t :: rest;
  or_operating : cl_mode c = Operating → fr_todo (cl_top c) = [];
  or_outer : ∀ f, f ∈ cl_outer c → fr_todo f = [] }.
(** While a call is on its way in, it has taken the lanes it passed. *)
Fixpoint covered (frames : list frame) : Prop :=
  match frames with
  | [] => True
  | f :: outer => (∀ x, x ∈ fr_tasks f → x ∈ fr_todo f ∨ x ∈ ((f ← f :: outer; fr_held f).*1)) ∧ covered outer
  end.
Definition covers c : Prop := covered (cl_outer c) ∧ (inward (cl_mode c) = true → ∀ x, x ∈ fr_tasks (cl_top c) → x ∈ fr_todo (cl_top c) ∨ x ∈ active c).
Record caller_ok l c : Prop := { ck_owns : owns l c; ck_ordered : ordered c; ck_covers : covers c; ck_nodup : NoDup (mentions c) }.
Record co_inv s : Prop := {
  ci_lanes : inv (co_lanes s);
  ci_next : ∀ i c, co_callers s !! i = Some c → i < co_next s;
  ci_ok : ∀ i c, co_callers s !! i = Some c → caller_ok (co_lanes s) c;
  ci_apart : ∀ i j c c' n, co_callers s !! i = Some c → co_callers s !! j = Some c' → n ∈ mentions c → n ∈ mentions c' → i = j;
  ci_owned : ∀ n x, calls (co_lanes s) !! n = Some x → binding x ≠ None → ∃ i c, co_callers s !! i = Some c ∧ n ∈ mentions c }.

Lemma mentioned l c n : caller_ok l c → n ∈ mentions c → is_Some (calls l !! n).
Proof.
  intros [[O1 O2 _] _ _ _] [Hn|(p & -> & Hp)%list_elem_of_fmap]%elem_of_app.
  - unfold acquiring in Hn. destruct (cl_mode c) as [|t n'| | |] eqn:Em; try by apply elem_of_nil in Hn. apply list_elem_of_singleton in Hn as ->.
    destruct (O2 t n' eq_refl) as (x & Hx & _). eauto.
  - destruct (O1 p Hp) as [e He]. eauto.
Qed.
(** The leases a caller mentions are all its part of the invariant reads. *)
Lemma owns_agree l l' c : owns l c → (∀ n, n ∈ mentions c → calls l' !! n = calls l !! n) → owns l' c.
Proof.
  intros [O1 O2 O3] He. split; [| |done].
  - intros p Hp. destruct (O1 p Hp) as [e Hx]. exists e. rewrite He; [done|]. apply elem_of_app. right. apply list_elem_of_fmap. eauto.
  - intros t n Em. destruct (O2 t n Em) as (x & Hx & ?). exists x. rewrite He; [done|]. apply elem_of_app. left. rewrite Em. by left.
Qed.
(** A caller that has changed, with the registry. *)
Lemma inv_move s i c c' l' : co_inv s → co_callers s !! i = Some c → inv l' →
  (∀ n, n ∉ mentions c → n ≠ next_call (co_lanes s) → calls l' !! n = calls (co_lanes s) !! n) → caller_ok l' c' →
  (∀ n, n ∈ mentions c' → n ∈ mentions c ∨ n = next_call (co_lanes s)) →
  (∀ n x, n ∈ mentions c ∨ n = next_call (co_lanes s) → calls l' !! n = Some x → binding x ≠ None → n ∈ mentions c') → co_inv (put_lanes i c' s l').
Proof.
  intros [I1 I2 I3 I4 I5] Hi Hl Hcalls Hok Hm Hkeep.
  assert (∀ j c0 n, co_callers s !! j = Some c0 → n ∈ mentions c0 → n ≠ next_call (co_lanes s)) as Hfresh.
  { intros j c0 n Hj Hn ->. destruct (mentioned _ _ _ (I3 j c0 Hj) Hn) as [x Hx]. by rewrite (inv_fresh_call _ I1) in Hx. }
  split; simpl; [done|..].
  - intros j c0 [[<- _]|[_ Hj]]%lookup_insert_Some; [by eapply I2|by eapply I2].
  - intros j c0 [[_ <-]|[Hne Hj]]%lookup_insert_Some; [done|]. destruct (I3 j c0 Hj) as [O1 O2 O3 O4]. split; [|done..].
    eapply owns_agree; [done|]. intros n Hn. apply Hcalls; [|by eapply Hfresh]. intros Hn'. apply Hne. by eapply I4.
  - intros j1 j2 c1 c2 n [[<- <-]|[N1 H1]]%lookup_insert_Some [[<- <-]|[N2 H2]]%lookup_insert_Some M1 M2; [done|..|by eapply I4].
    + apply Hm in M1 as [M1|M1]; [by eapply I4|]. by destruct (Hfresh j2 c2 n H2 M2).
    + apply Hm in M2 as [M2|M2]; [by eapply I4|]. by destruct (Hfresh j1 c1 n H1 M1).
  - intros n x Hx Hb. destruct (decide (n ∈ mentions c)) as [Hn|Hn]; [exists i, c'; rewrite lookup_insert_eq; split; [done|exact (Hkeep n x (or_introl Hn) Hx Hb)]|].
    destruct (decide (n = next_call (co_lanes s))) as [E|Hne]; [exists i, c'; rewrite lookup_insert_eq; split; [done|exact (Hkeep n x (or_intror E) Hx Hb)]|].
    rewrite Hcalls in Hx by done. destruct (I5 n x Hx Hb) as (j & c0 & Hj & Hn'). exists j, c0. rewrite lookup_insert_ne; [done|]. intros <-. by simplify_eq.
Qed.
(** The registry is the same. *)
Lemma inv_put s i c c' : co_inv s → co_callers s !! i = Some c → caller_ok (co_lanes s) c' → (∀ n, n ∈ mentions c' → n ∈ mentions c) →
  (∀ n x, n ∈ mentions c → calls (co_lanes s) !! n = Some x → binding x ≠ None → n ∈ mentions c') → co_inv (put i c' s).
Proof.
  intros Hs Hi Hok Hm Hkeep. apply (inv_move s i c c' (co_lanes s)); [done|done|apply Hs|done|done|by left; apply Hm|].
  intros n x [Hn| ->] Hx; [by eapply Hkeep|]. by rewrite (inv_fresh_call _ (ci_lanes _ Hs)) in Hx.
Qed.
(** One call of the registry has changed. *)
Lemma inv_call s i c c' n x l' : co_inv s → co_callers s !! i = Some c → inv l' → n ∈ mentions c → calls l' = <[n := x]> (calls (co_lanes s)) → caller_ok l' c' →
  mentions c' = mentions c → co_inv (put_lanes i c' s l').
Proof.
  intros Hs Hi Hl Hn E Hok Em. apply (inv_move s i c c'); [done|done|done| |done|rewrite Em; by left|rewrite Em].
  - intros m Hm _. rewrite E, lookup_insert_ne; [done|]. by intros <-.
  - intros m y [Hm| ->]; [done|]. rewrite E, lookup_insert_Some. intros [[<- _]|[_ Hy]]; [done|]. by rewrite (inv_fresh_call _ (ci_lanes _ Hs)) in Hy.
Qed.

(** ** Orders of tasks *)
Lemma check_ordered_spec (l : list TaskID) : ∀ index previous, check_ordered index previous l = None → Sorted string_le (from_option (λ p, [p]) [] previous ++ l) →
  Sorted before (from_option (λ p, [p]) [] previous ++ l) ∧ Forall (λ x, blank x = false) l.
Proof.
  induction l as [|x l IH]; intros index previous Hc Hs; [by destruct previous; repeat constructor|]. simpl in Hc.
  destruct (blank x) eqn:Eb; [done|]. destruct (previous ==? Some x) eqn:Ep; [done|]. apply bool_decide_eq_false in Ep.
  destruct (IH (S index) (Some x) Hc) as [H1 H2]; [by destruct previous; [inversion Hs|]|]. split; [|by constructor]. destruct previous as [p|]; [|done]. simpl in *.
  inversion Hs as [|? ? _ Hd]; subst. inversion Hd; subst. constructor; [done|]. constructor. split; [done|congruence].
Qed.
#[export] Instance before_trans : Transitive before.
Proof.
  intros a b c [H1 N1] [H2 N2]. split; [by etransitivity|]. intros ->. apply N1. by apply (anti_symm string_le).
Qed.
Lemma before_irrefl t : ¬ before t t.
Proof. by intros []. Qed.
Lemma entry_sorted todo : entry_point (Ok todo) → StronglySorted before todo.
Proof.
  intros [[t E]|[ts E]].
  - unfold Run_tasks in E. destruct (blank t); [done|]. injection E as ->. repeat constructor.
  - unfold RunMany_tasks in E. destruct (check_ordered 0 None (sort_strings ts)) eqn:Ec; [done|]. injection E as ->. apply Sorted_StronglySorted; [apply _|].
    apply (check_ordered_spec _ 0 None Ec). apply Sorted_merge_sort, _.
Qed.

(** ** Steps of one caller *)
Lemma mode_mentions m c : acquiring m = acquiring (cl_mode c) → mentions (with_mode m c) = mentions c.
Proof. intros E. unfold mentions. simpl. by rewrite E. Qed.
Lemma lease_mentioned c p : p ∈ leases_of c → p.2 ∈ mentions c.
Proof. intros Hp. apply elem_of_app. right. apply list_elem_of_fmap. eauto. Qed.
Lemma owns_quiet l c c' : owns l c → (∀ p, p ∈ leases_of c' → p ∈ leases_of c) → (∀ n, letting (cl_mode c) n = false) → (∀ n, letting (cl_mode c') n = false) →
  acquiring (cl_mode c') = [] → owns l c'.
Proof.
  intros [O1 O2 O3] Hp L1 L2 Ha. split.
  - intros p Hp'. destruct (O1 p (Hp p Hp')) as [e He]. exists e. rewrite L1 in He. by rewrite L2.
  - intros t n Em. by rewrite Em in Ha.
  - intros n Em. specialize (L2 n). rewrite Em in L2. simpl in L2. by rewrite Nat.eqb_refl in L2.
Qed.
(** The call of a lane a caller waits for has moved. *)
Lemma owns_waiting l l' c t n x : caller_ok l c → cl_mode c = Acquiring t n → calls l' = <[n := x]> (calls l) →
  (x = Failed ∨ ∃ e, x = Trying t false e ∨ x = Aborted t false e ∨ x = Holding t false e ∨ ∃ ch, x = Waiting t false e ch) → caller_ok l' c.
Proof.
  intros [[O1 O2 O3] Ho Hc Hn] Em E Hx. split; [|done..]. split; [| |done].
  - intros p Hp. destruct (O1 p Hp) as [e He]. exists e. rewrite E, lookup_insert_ne; [done|]. intros Hpn. unfold mentions in Hn. rewrite Em in Hn. simpl in Hn.
    apply NoDup_cons in Hn as [Hn _]. apply Hn. rewrite Hpn. apply list_elem_of_fmap. eauto.
  - intros t' n' Em'. rewrite Em in Em'. injection Em' as <- <-. exists x. split; [rewrite E; apply lookup_insert_eq|done].
Qed.
Lemma owns_begin l l' c t e rest : inv l → caller_ok l c → cl_mode c = Entering → fr_todo (cl_top c) = t :: rest → t ∉ active c →
  calls l' = <[next_call l := Trying t false e]> (calls l) → caller_ok l' (with_mode (Acquiring t (next_call l)) c).
Proof.
  intros Hl Hok Em Et Hna E. assert (next_call l ∉ mentions c) as Hf.
  { intros Hn. destruct (mentioned _ _ _ Hok Hn) as [x Hx]. by rewrite (inv_fresh_call _ Hl) in Hx. }
  destruct Hok as [[O1 O2 O3] [R1 R2 R3 R4 R5] Hc Hn]. split.
  - split; simpl; [| |done].
    + intros p Hp. destruct (O1 p Hp) as [e' He]. rewrite Em in He. exists e'. rewrite E, lookup_insert_ne; [done|]. intros Hpn. apply Hf. rewrite Hpn. by apply lease_mentioned.
    + intros t' n' [= <- <-]. eexists. rewrite E, lookup_insert_eq. split; [done|]. right. eauto.
  - rewrite Em in R2. split; simpl; [done|done| |done|done]. intros t' n' [= <- <-]. eauto.
  - destruct Hc as [C1 C2]. split; [done|]. intros _. apply C2. by rewrite Em.
  - unfold mentions in *. simpl. rewrite Em in *. simpl in *. by apply NoDup_cons.
Qed.
Lemma owns_taken l c t n e : caller_ok l c → cl_mode c = Acquiring t n → calls l !! n = Some (Holding t false e) →
  caller_ok l (with_top Entering {| fr_tasks := fr_tasks (cl_top c); fr_todo := tail (fr_todo (cl_top c)); fr_held := (t, n) :: fr_held (cl_top c) |} c).
Proof.
  intros [[O1 O2 O3] [R1 R2 R3 R4 R5] [C1 C2] Hn] Em Ex. destruct (R3 t n Em) as (Hna & rest & Et). rewrite Et in *. split.
  - split; [|done|done]. intros p [->|Hp]%elem_of_cons; [by exists e|]. destruct (O1 p Hp) as [e' He]. rewrite Em in He. by exists e'.
  - apply StronglySorted_inv in R1 as [R1 Hall]. rewrite Forall_forall in Hall. split; simpl; [done| |done|done|done].
    intros _ a x [->|Ha]%elem_of_cons Hx; [right; by apply Hall|]. rewrite Em in R2. destruct (R2 eq_refl a x Ha) as [?|?]; [by right|left; by right|by right].
  - split; [done|]. simpl. rewrite Em in C2. intros _ x Hx. destruct (C2 eq_refl x Hx) as [[->|?]%elem_of_cons|?]; [right; by left|by left|right; by right].
  - unfold mentions in *. rewrite Em in Hn. done.
Qed.
Lemma owns_letting l l' c t n e rest : caller_ok l c → cl_mode c = Leaving → fr_held (cl_top c) = (t, n) :: rest →
  calls l' = <[n := Releasing t false e]> (calls l) → caller_ok l' (with_mode (Letting n) c).
Proof.
  intros [[O1 O2 O3] [R1 R2 R3 R4 R5] [C1 C2] Hn] Em Et E. unfold mentions, leases_of in Hn. rewrite Em, Et in Hn. simpl in Hn. apply NoDup_cons in Hn as [Hnin Hn]. split.
  - split; simpl; [|done|intros n' [= <-]; eauto]. intros p Hp. unfold held_ok. simpl. unfold leases_of in Hp. simpl in Hp. rewrite Et in Hp.
    apply elem_of_cons in Hp as [->|Hp]; simpl; [exists e; by rewrite Nat.eqb_refl, E, lookup_insert_eq|].
    assert (n ≠ p.2) as Hne by (intros ->; apply Hnin, list_elem_of_fmap; eauto). rewrite (proj2 (Nat.eqb_neq _ _) Hne), E, lookup_insert_ne by done.
    assert (p ∈ leases_of c) as Hp' by (unfold leases_of; rewrite Et; by right). destruct (O1 p Hp') as [e' He]. rewrite Em in He. by exists e'.
  - by split.
  - by split.
  - unfold mentions, leases_of. simpl. rewrite Et. by apply NoDup_cons.
Qed.
Lemma owns_left l l' c t n e rest : caller_ok l c → cl_mode c = Letting n → fr_held (cl_top c) = (t, n) :: rest → calls l' = <[n := Released]> (calls l) →
  calls l !! n = Some (Releasing t false e) →
  caller_ok l' (with_top Leaving {| fr_tasks := fr_tasks (cl_top c); fr_todo := fr_todo (cl_top c); fr_held := tail (fr_held (cl_top c)) |} c).
Proof.
  intros [[O1 O2 O3] [R1 R2 R3 R4 R5] [C1 C2] Hn] Em Et E Ex. unfold mentions, leases_of in Hn. rewrite Em, Et in Hn. simpl in Hn. apply NoDup_cons in Hn as [Hnin Hn].
  rewrite Et. simpl. split.
  - split; [|done|done]. intros p Hp. unfold leases_of in Hp. simpl in Hp. assert (n ≠ p.2) as Hne by (intros ->; apply Hnin, list_elem_of_fmap; eauto).
    assert (p ∈ leases_of c) as Hp' by (unfold leases_of; rewrite Et; by right). destruct (O1 p Hp') as [e' He]. rewrite Em in He. simpl in He.
    rewrite (proj2 (Nat.eqb_neq _ _) Hne) in He. exists e'. by rewrite E, lookup_insert_ne.
  - by split.
  - by split.
  - done.
Qed.
(** A step within one frame that touches no lane. *)
Lemma ok_mode l c m : caller_ok l c → acquiring m = [] → (∀ n, letting (cl_mode c) n = false) → (∀ n, letting m n = false) →
  (inward m = true → inward (cl_mode c) = true) → (m = Operating → fr_todo (cl_top c) = []) → caller_ok l (with_mode m c).
Proof.
  intros [O [R1 R2 R3 R4 R5] [C1 C2] Hn] Ha L1 L2 Hi Ho. split.
  - by eapply owns_quiet.
  - split; simpl; [done|auto| |done|done]. intros t n ->. done.
  - split; simpl; auto.
  - unfold mentions in *. simpl. rewrite Ha. by apply NoDup_app in Hn as (_ & _ & Hn).
Qed.
Lemma ok_skip l c t rest : caller_ok l c → cl_mode c = Entering → fr_todo (cl_top c) = t :: rest → t ∈ active c →
  caller_ok l (with_top Entering {| fr_tasks := fr_tasks (cl_top c); fr_todo := rest; fr_held := fr_held (cl_top c) |} c).
Proof.
  intros [O [R1 R2 R3 R4 R5] [C1 C2] Hn] Em Et Hin. rewrite Et, Em in *. split.
  - eapply owns_quiet; [done|done|by rewrite Em|done|done].
  - apply StronglySorted_inv in R1 as [R1 _]. split; simpl; [done| |done|done|done]. intros _ a x Ha Hx. apply (R2 eq_refl); [done|by right].
  - split; [done|]. intros _ x Hx. destruct (C2 eq_refl x Hx) as [[->|?]%elem_of_cons|?]; [by right|by left|by right].
  - unfold mentions in *. by rewrite Em in Hn.
Qed.
Lemma ok_return l c f rest : caller_ok l c → cl_mode c = Leaving → fr_held (cl_top c) = [] → cl_outer c = f :: rest →
  let c' := {| cl_mode := Operating; cl_top := f; cl_outer := rest |} in caller_ok l c' ∧ leases_of c' = leases_of c.
Proof.
  intros [O [R1 R2 R3 R4 R5] [C1 C2] Hn] Em Eh Eo c'. assert (leases_of c' = leases_of c) as El by (unfold leases_of, c'; simpl; by rewrite Eh, Eo).
  rewrite Eo in *. split; [|done]. split.
  - eapply owns_quiet; [done|by rewrite El|by rewrite Em|done|done].
  - split; simpl; [..|done| |].
    + rewrite (R5 f) by by left. constructor.
    + rewrite (R5 f) by by left. by intros _ a x _ ?%elem_of_nil.
    + intros _. apply R5. by left.
    + intros g Hg. apply R5. by right.
  - destruct C1 as [C1 C3]. split; [done|]. intros _ x Hx. destruct (C1 x Hx) as [?|?]; [by left|by right].
  - unfold mentions in *. rewrite El. simpl. by rewrite Em in Hn.
Qed.
Lemma inv_end s i c : co_inv s → co_callers s !! i = Some c → mentions c = [] →
  co_inv {| co_lanes := co_lanes s; co_callers := delete i (co_callers s); co_next := co_next s |}.
Proof.
  intros [I1 I2 I3 I4 I5] Hi Em. split; simpl; [done|..].
  - intros j c' [_ Hj]%lookup_delete_Some. by eapply I2.
  - intros j c' [_ Hj]%lookup_delete_Some. by eapply I3.
  - intros j1 j2 c1 c2 n [_ H1]%lookup_delete_Some [_ H2]%lookup_delete_Some. by eapply I4.
  - intros n x Hx Hb. destruct (I5 n x Hx Hb) as (j & c' & Hj & Hn). exists j, c'. rewrite lookup_delete_ne; [done|]. intros <-. simplify_eq.
    rewrite Em in Hn. by apply elem_of_nil in Hn.
Qed.
Lemma go_inv s i c s' : co_inv s → co_callers s !! i = Some c → go i c s = Stepped s' → co_inv s'.
Proof.
  intros Hs Hi. pose proof (ci_ok _ Hs i c Hi) as Hok. pose proof (ci_lanes _ Hs) as Hl. unfold go. destruct (cl_mode c) as [|t n| | |n] eqn:Em.
  - destruct (fr_todo (cl_top c)) as [|t rest] eqn:Et.
    { intros [= <-]. assert (mentions (with_mode Operating c) = mentions c) as E by (apply mode_mentions; by rewrite Em).
      eapply inv_put; [done|done|apply ok_mode; rewrite ?Em; done|by rewrite E|by rewrite E]. }
    destruct (t ∈? active c) eqn:Ea; [apply bool_decide_eq_true in Ea|apply bool_decide_eq_false in Ea].
    { intros [= <-]. eapply inv_put; [done|done|by eapply ok_skip|..]; unfold mentions; rewrite Em; done. }
    destruct (exec (Begin t false) (co_lanes s)) as [l'| |] eqn:E; simpl; [|done..]. intros [= <-]. destruct (begin_calls _ _ _ E) as [e Ec].
    assert (mentions (with_mode (Acquiring t (next_call (co_lanes s))) c) = next_call (co_lanes s) :: mentions c) as Em' by (unfold mentions; simpl; by rewrite Em).
    eapply inv_move; [done|done|by eapply next_inv| |by eapply owns_begin|rewrite Em'|rewrite Em'].
    + intros m _ Hne. by rewrite Ec, lookup_insert_ne.
    + intros m [->|?]%elem_of_cons; auto.
    + intros m x [?| ->] _ _; [by right|by left].
  - assert (n ∈ mentions c) as Hn by (unfold mentions; rewrite Em; by left). destruct (ow_acquiring _ _ (ck_owns _ _ Hok) t n Em) as (x & Ex & Hx). rewrite Ex.
    destruct Hx as [->|(e & [->|[->|[->|[ch ->]]]])].
    + intros [= <-]. eapply inv_put; [done|done|apply ok_mode; rewrite ?Em; done|..].
      * intros m Hm. unfold mentions in *. rewrite Em. by right.
      * intros m y Hm Hy Hb. unfold mentions in *. rewrite Em in Hm. apply elem_of_cons in Hm as [->|Hm]; [|done]. by simplify_eq.
    + destruct (exec (Try n) (co_lanes s)) as [l'| |] eqn:E; simpl; [|done..]. intros [= <-]. destruct (try_calls _ _ _ _ _ Ex E) as (y & Ec & Hy).
      eapply inv_call; [done|done|by eapply next_inv|done|done|eapply owns_waiting; [done..|]|done]. right. exists e. destruct Hy as [->|[ch ->]]; eauto 10.
    + destruct (exec (Drop n) (co_lanes s)) as [l'| |] eqn:E; simpl; [|done..]. intros [= <-]. pose proof (drop_calls _ _ _ _ _ Ex E) as Ec.
      eapply inv_call; [done|done|by eapply next_inv|done|done|eapply owns_waiting; [done..|by left]|done].
    + intros [= <-]. eapply inv_put; [done|done|by eapply owns_taken|..]; unfold mentions; rewrite Em; done.
    + destruct (exec (Wake n) (co_lanes s)) as [l'| |] eqn:E; simpl; [|done..]. intros [= <-]. pose proof (wake_calls _ _ _ _ _ _ Ex E) as Ec.
      eapply inv_call; [done|done|by eapply next_inv|done|done|eapply owns_waiting; [done..|]|done]. right. eauto 10.
  - intros [= <-]. assert (mentions (with_mode Leaving c) = mentions c) as E by (apply mode_mentions; by rewrite Em).
    eapply inv_put; [done|done|apply ok_mode; rewrite ?Em; done|by rewrite E|by rewrite E].
  - destruct (fr_held (cl_top c)) as [|[t n] rest] eqn:Eh.
    { destruct (cl_outer c) as [|f outer] eqn:Eo; intros [= <-].
      - eapply inv_end; [done|done|]. unfold mentions, leases_of. by rewrite Em, Eh, Eo.
      - destruct (ok_return _ _ _ _ Hok Em Eh Eo) as [Hok' El]. eapply inv_put; [done|done|done|..]; unfold mentions; rewrite El, Em; done. }
    assert ((t, n) ∈ leases_of c) as Hp by (unfold leases_of; rewrite Eh; by left). pose proof (lease_mentioned _ _ Hp) as Hn.
    destruct (ow_held _ _ (ck_owns _ _ Hok) _ Hp) as [e Ex]. rewrite Em in Ex. simpl in Ex.
    destruct (exec (Release n) (co_lanes s)) as [l'| |] eqn:E; simpl; [|done..]. intros [= <-]. pose proof (release_calls _ _ _ _ _ Ex E) as Ec.
    eapply inv_call; [done|done|by eapply next_inv|done|done|by eapply owns_letting|apply mode_mentions; by rewrite Em].
  - destruct (ow_letting _ _ (ck_owns _ _ Hok) n Em) as (t & rest & Eh). assert ((t, n) ∈ leases_of c) as Hp by (unfold leases_of; rewrite Eh; by left).
    destruct (ow_held _ _ (ck_owns _ _ Hok) _ Hp) as [e Ex]. rewrite Em in Ex. simpl in Ex. rewrite Nat.eqb_refl in Ex.
    destruct (exec (Finish n) (co_lanes s)) as [l'| |] eqn:E; simpl; [|done..]. intros [= <-]. pose proof (finish_calls _ _ _ _ _ Ex E) as Ec.
    set (c' := with_top _ _ _). assert (mentions c = n :: mentions c') as Em' by (unfold mentions, leases_of; simpl; by rewrite Em, Eh).
    eapply inv_move; [done|done|by eapply next_inv| |by eapply owns_left|by rewrite Em'; left; right|rewrite Em'].
    + intros m Hm _. rewrite Ec, lookup_insert_ne; [done|]. intros <-. apply Hm. rewrite Em'. by left.
    + intros m y Hm. rewrite Ec, lookup_insert_Some. intros [[<- <-]|[Hne Hy]] Hb; [done|]. destruct Hm as [[->|Hm]%elem_of_cons| ->]; [done|done|].
      by rewrite (inv_fresh_call _ Hl) in Hy.
Qed.
Lemma new_call_ok l todo outer : entry_point (Ok todo) → (∀ p, p ∈ (f ← outer; fr_held f) → ∃ e, calls l !! p.2 = Some (Holding p.1 false e)) →
  (∀ a x, a ∈ (f ← outer; fr_held f).*1 → x ∈ todo → x ∈ (f ← outer; fr_held f).*1 ∨ before a x) → (∀ f, f ∈ outer → fr_todo f = []) → covered outer →
  NoDup (f ← outer; fr_held f).*2 → caller_ok l (new_call todo outer).
Proof.
  intros He Hh Hb Ho Hc Hn. split; [split; simpl| split; simpl|split; simpl|]; try done.
  - by apply entry_sorted.
  - auto.
Qed.
Lemma mutation_keeps_inv a s s' : co_inv s → orderly a s → perform a s = Stepped s' → co_inv s'.
Proof.
  intros Hs Ho. destruct a as [[todo|e]|i tasks|i|i]; unfold perform.
  - intros [= <-]. destruct Hs as [I1 I2 I3 I4 I5]. split; simpl; [done|..].
    + intros j c [[<- _]|[_ Hj%I2]]%lookup_insert_Some; lia.
    + intros j c [[_ <-]|[_ Hj]]%lookup_insert_Some; [|by eapply I3]. apply new_call_ok; try done; simpl.
      * by intros p ?%elem_of_nil.
      * by intros a x ?%elem_of_nil.
      * by intros f ?%elem_of_nil.
      * constructor.
    + intros j1 j2 c1 c2 n [[<- <-]|[_ H1]]%lookup_insert_Some [[<- <-]|[_ H2]]%lookup_insert_Some M1 M2; [done|by apply elem_of_nil in M1|by apply elem_of_nil in M2|by eapply I4].
    + intros n x Hx Hb. destruct (I5 n x Hx Hb) as (j & c & Hj & Hn). exists j, c. rewrite lookup_insert_ne; [done|]. intros <-. apply I2 in Hj. lia.
  - done.
  - destruct (co_callers s !! i) as [c|] eqn:Hi; [|done]. destruct (cl_mode c) eqn:Em; try done. destruct tasks as [todo|e]; [|done]. intros [= <-].
    destruct Ho as [Hep Hbeh]. specialize (Hbeh c Hi). pose proof (ci_ok _ Hs i c Hi) as [[O1 _ _] [R1 R2 R3 R4 R5] [C1 C2] Hn]. rewrite Em in *.
    assert (mentions (new_call todo (cl_top c :: cl_outer c)) = mentions c) as E by (unfold mentions; by rewrite Em).
    eapply inv_put; [done|done| |by rewrite E|by rewrite E]. apply new_call_ok; [done| |done| | |].
    + intros p Hp. destruct (O1 p Hp) as [e He]. by exists e.
    + intros f [->|Hf]%elem_of_cons; [by apply R4|by apply R5].
    + split; [|done]. intros x Hx. by apply C2.
    + unfold mentions in Hn. by rewrite Em in Hn.
  - destruct (co_callers s !! i) as [c|] eqn:Hi; [|done]. by apply (go_inv s i c).
  - destruct (co_callers s !! i) as [c|] eqn:Hi; [|done]. destruct (cl_mode c) as [|t n| | |] eqn:Em; try done.
    destruct (exec (Cancel n) (co_lanes s)) as [l'| |] eqn:E; simpl; [|done..]. intros [= <-]. pose proof (ci_ok _ Hs i c Hi) as Hok.
    destruct (cancel_calls _ _ _ E) as (k & sh & e & ch & Ex & Ec). destruct (ow_acquiring _ _ (ck_owns _ _ Hok) t n Em) as (x & Ex' & Hx).
    assert (k = t ∧ sh = false) as [-> ->] by (rewrite Ex in Ex'; injection Ex' as <-; destruct Hx as [?|(e' & [?|[?|[?|[ch' ?]]]])]; by simplify_eq).
    eapply inv_call; [done|done|eapply next_inv; [apply Hs|done]|unfold mentions; rewrite Em; by left|done|eapply owns_waiting; [done..|]|done]. right. eauto 10.
Qed.
Lemma coordinated_inv s : coordinated s → co_inv s.
Proof.
  unfold coordinated. revert s. apply (rtc_ind_r co_inv); [|intros s s' _ [a Ho E] IH; by eapply mutation_keeps_inv].
  split; simpl; [apply inv_init|intros *; by rewrite ?lookup_empty..].
Qed.
