(* ===== verification/TaskMutationProgress.v ===== *)
(** * The calls of the coordinator finish

    Some caller can always go on, and no caller goes on for ever: the steps left
    of each call, and among lane attempts the ones that may still be repeated,
    get fewer. *)
From Stdlib Require Import String Lia Wellfounded.
From stdpp Require Import gmap strings list relations.
From S2P Require Import Prelude GoStrings Types MutationLane MutationLaneFacts TaskMutations TaskMutationFacts.

Implicit Types (s : coordinator) (c : caller) (l : registry TaskID) (i j n : nat) (t : TaskID).

(** ** Some caller can go on *)
Definition ready s i c : Prop := ∃ s', go i c s = Stepped s'.
#[export] Instance ready_dec s i c : Decision (ready s i c).
Proof. unfold ready. destruct (go i c s) eqn:E; [left; eauto|right; by intros [? ?]..]. Defined.
(** The caller waits on an open channel. *)
Definition waits s c t : Prop := ∃ n e ch, cl_mode c = Acquiring t n ∧ calls (co_lanes s) !! n = Some (Waiting t false e ch) ∧ ch ∉ closed (co_lanes s).

(** A section runs when the registry mutex and the channel allow it. *)
Lemma section_runs a l : inv l → exec a l ≠ Blocked → (∀ n, a = Release n → calls l !! n ≠ Some Released) → ∃ l', exec a l = Next l'.
Proof.
  intros Hl Hb Hr. pose proof (exec_inv l a Hl) as Hx. destruct (exec a l) as [l'| |]; [eauto|done|]. destruct Hx as (n & -> & Hn). by destruct (Hr n).
Qed.
Lemma reference_unblocked k e l f : then_do (releaseReferenceLocked k e l) f ≠ Blocked.
Proof. unfold releaseReferenceLocked. destruct (entries l !! k), (heap l !! e); try done. by destruct (_ || _). Qed.
Lemma release_unblocked n k e l : calls l !! n = Some (Holding k false e) → locked l = None → exec (Release n) l ≠ Blocked.
Proof.
  intros En El. simpl. rewrite En, El. destruct (heap l !! e) as [en|]; [|done]. unfold entry_release. by destruct (negb (exclusive en)).
Qed.
Lemma on_lanes_runs o (f : registry TaskID → coordinator) : (∃ l', o = Next l') → ∃ s', on_lanes o f = Stepped s'.
Proof. intros [l' ->]. simpl. eauto. Qed.
(** With the registry mutex free, a caller goes on or waits for a lane. *)
Lemma go_ready s i c : co_inv s → co_callers s !! i = Some c → locked (co_lanes s) = None → ready s i c ∨ ∃ t, waits s c t.
Proof.
  intros Hs Hi Hlk. pose proof (ci_ok _ Hs i c Hi) as Hok. pose proof (ci_lanes _ Hs) as Hl. unfold ready, go. destruct (cl_mode c) as [|t n| | |n] eqn:Em.
  - left. destruct (fr_todo (cl_top c)) as [|t rest]; [eauto|]. destruct (t ∈? active c); [eauto|]. apply on_lanes_runs. simpl. rewrite Hlk. eauto.
  - destruct (ow_acquiring _ _ (ck_owns _ _ Hok) t n Em) as (x & Ex & Hx). rewrite Ex. destruct Hx as [->|(e & [->|[->|[->|[ch ->]]]])].
    + eauto.
    + left. apply on_lanes_runs, section_runs; [done| |done]. simpl. rewrite Ex. by destruct (heap (co_lanes s) !! e).
    + left. apply on_lanes_runs, section_runs; [done| |done]. simpl. rewrite Ex, Hlk. apply reference_unblocked.
    + eauto.
    + destruct (decide (ch ∈ closed (co_lanes s))) as [Hc|Hc]; [|right; exists t, n, e, ch; done]. left. apply on_lanes_runs. simpl. rewrite Ex, bool_decide_eq_true_2 by done. eauto.
  - eauto.
  - left. destruct (fr_held (cl_top c)) as [|[t n] rest] eqn:Eh; [destruct (cl_outer c); eauto|].
    assert ((t, n) ∈ leases_of c) as Hp by (unfold leases_of; rewrite Eh; by left). destruct (ow_held _ _ (ck_owns _ _ Hok) _ Hp) as [e Ex]. rewrite Em in Ex. simpl in Ex.
    apply on_lanes_runs, section_runs; [done|by eapply release_unblocked|]. intros m [= <-]. by rewrite Ex.
  - destruct (ow_letting _ _ (ck_owns _ _ Hok) n Em) as (t & rest & Eh). assert ((t, n) ∈ leases_of c) as Hp by (unfold leases_of; rewrite Eh; by left).
    destruct (ow_held _ _ (ck_owns _ _ Hok) _ Hp) as [e Ex]. rewrite Em in Ex. simpl in Ex. rewrite Nat.eqb_refl in Ex.
    assert (locked (co_lanes s) = Some n) as E by (apply (inv_lock _ Hl); eauto). by rewrite Hlk in E.
Qed.
(** A lease that is held belongs to a caller that has it or is about to. *)
Lemma holder s n t sh e : co_inv s → calls (co_lanes s) !! n = Some (Holding t sh e) →
  ∃ j c, co_callers s !! j = Some c ∧ (t ∈ active c ∨ cl_mode c = Acquiring t n).
Proof.
  intros Hs En. destruct (ci_owned _ Hs n _ En) as (j & c & Hj & [Hn|(p & -> & Hp)%list_elem_of_fmap]%elem_of_app); [done|..]; exists j, c; (split; [done|]);
    pose proof (ci_ok _ Hs j c Hj) as Hok.
  - unfold acquiring in Hn. destruct (cl_mode c) as [|t' n'| | |] eqn:Em; try by apply elem_of_nil in Hn. apply list_elem_of_singleton in Hn as ->. right.
    destruct (ow_acquiring _ _ (ck_owns _ _ Hok) _ _ Em) as (x & Ex & Hx). rewrite En in Ex. injection Ex as <-. destruct Hx as [?|(e' & [?|[?|[?|[ch ?]]]])]; by simplify_eq.
  - left. destruct (ow_held _ _ (ck_owns _ _ Hok) _ Hp) as [e' Ex]. rewrite En in Ex. assert (t = p.1) as -> by (destruct (letting _ _); by simplify_eq).
    apply list_elem_of_fmap. eauto.
Qed.
(** The lane a caller waits for is held. *)
Lemma waits_holder s c t : co_inv s → waits s c t → ∃ n sh e, calls (co_lanes s) !! n = Some (Holding t sh e).
Proof.
  intros Hs (n & e & ch & _ & En & Hch). pose proof (ci_lanes _ Hs) as Hl. destruct (lookup_bound _ _ _ _ _ Hl En eq_refl) as (Ht & en & He & [_ R2 R3 _] & _).
  destruct (inv_wait _ Hl _ _ _ _ _ _ En Hch He) as [_ Ha].
  assert (∃ sh, 0 < count (holds sh e) (calls (co_lanes s))) as [sh (m & x & Em & Hx)%count_pos].
  { unfold admits in Ha. simpl in Ha. destruct (exclusive en); [exists false; simpl in *; lia|]. exists true. simpl in Ha. apply Nat.eqb_neq in Ha. lia. }
  destruct x as [| | |t' sh' e'| | |]; try done. simpl in Hx. apply bool_decide_eq_true in Hx as [-> ->]. exists m, sh, e.
  pose proof (inv_ref _ Hl m _ t' e Em eq_refl) as Ht'. by rewrite (inv_inj _ Hl t t' e).
Qed.
(** A caller that holds a lane waits for a later one. *)
Lemma waits_later s j c t t' : co_inv s → co_callers s !! j = Some c → t ∈ active c → waits s c t' → before t t'.
Proof.
  intros Hs Hj Ha (n & e & ch & Em & _). destruct (ck_ordered _ _ (ci_ok _ Hs j c Hj)) as [_ R2 R3 _ _]. destruct (R3 t' n Em) as (Hna & rest & Et).
  destruct (R2 ltac:(by rewrite Em) t t' Ha) as [?|?]; [rewrite Et; by left|done|done].
Qed.
(** The caller that has the registry mutex goes on. *)
Lemma lock_ready s n : co_inv s → locked (co_lanes s) = Some n → ∃ i c, co_callers s !! i = Some c ∧ ready s i c.
Proof.
  intros Hs Hlk. pose proof (ci_lanes _ Hs) as Hl. destruct (proj1 (inv_lock _ Hl n) Hlk) as (k & sh & e & En).
  destruct (ci_owned _ Hs n _ En) as (i & c & Hi & Hn); [done|]. pose proof (ci_ok _ Hs i c Hi) as Hok. exists i, c. split; [done|].
  assert (cl_mode c = Letting n) as Em.
  { apply elem_of_app in Hn as [Hn|(p & -> & Hp)%list_elem_of_fmap].
    - unfold acquiring in Hn. destruct (cl_mode c) as [|t' n'| | |] eqn:Em; try by apply elem_of_nil in Hn. apply list_elem_of_singleton in Hn as ->.
      destruct (ow_acquiring _ _ (ck_owns _ _ Hok) _ _ Em) as (x & Ex & Hx). rewrite En in Ex. injection Ex as <-. destruct Hx as [?|(e' & [?|[?|[?|[ch ?]]]])]; by simplify_eq.
    - destruct (ow_held _ _ (ck_owns _ _ Hok) _ Hp) as [e' Ex]. rewrite En in Ex. destruct (cl_mode c) as [| | | |n']; simpl in Ex; try by simplify_eq.
      destruct (n' =? p.2) eqn:E; [by apply Nat.eqb_eq in E as ->|by simplify_eq]. }
  unfold ready, go. rewrite Em. apply on_lanes_runs, section_runs; [done| |done]. simpl. rewrite En, bool_decide_eq_true_2 by done. apply reference_unblocked.
Qed.
Lemma some_ready s : co_inv s → co_callers s ≠ ∅ → ∃ i c, co_callers s !! i = Some c ∧ ready s i c.
Proof.
  intros Hs Hne. destruct (locked (co_lanes s)) as [n|] eqn:Hlk; [by eapply lock_ready|].
  destruct (decide (map_Forall (λ i c, ¬ ready s i c) (co_callers s))) as [Hall|Hex].
  2:{ apply map_not_Forall in Hex as (i & c & Hi & Hr); [|apply _]. exists i, c. split; [done|]. by apply dec_stable. }
  exfalso. assert (∀ i c, co_callers s !! i = Some c → ∃ t, waits s c t) as Hw.
  { intros i c Hi. destruct (go_ready s i c Hs Hi Hlk) as [?|?]; [by destruct (Hall i c Hi)|done]. }
  set (wanted := map_to_set (C := gset TaskID) (λ _ c, match cl_mode c with Acquiring t _ => t | _ => "" end) (co_callers s)).
  assert (∀ i c t, co_callers s !! i = Some c → waits s c t → t ∈ wanted) as Hin.
  { intros i c t Hi (n & e & ch & Em & _). apply elem_of_map_to_set. exists i, c. by rewrite Em. }
  destruct (minimal_exists_elem_of (flip before) wanted) as (t & Ht & Hmin).
  { apply map_choose in Hne as (i & c & Hi). destruct (Hw i c Hi) as [t Ht]. intros E. apply (not_elem_of_empty (C := gset TaskID) t), (E t). by eapply Hin. }
  apply elem_of_map_to_set in Ht as (i & c & Hi & Et). destruct (Hw i c Hi) as [t' Ht']. assert (t' = t) as -> by (destruct Ht' as (n & e & ch & Em & _); by rewrite Em in Et).
  destruct (waits_holder s c t Hs Ht') as (m & sh & e & Em). destruct (holder s m t sh e Hs Em) as (j & c' & Hj & Hact). destruct (Hw j c' Hj) as [t2 H2].
  assert (t ∈ active c') as Ha.
  { destruct Hact as [?|Hacq]; [done|]. destruct H2 as (n2 & e2 & ch2 & Em2 & En2 & _). rewrite Hacq in Em2. injection Em2 as <- <-. by simplify_eq. }
  pose proof (waits_later s j c' t t2 Hs Hj Ha H2) as Hb. pose proof (Hmin t2 (Hin _ _ _ Hj H2) Hb) as Hb'. simpl in Hb'.
  apply (before_irrefl t). by transitivity t2.
Qed.

(** ** No caller goes on for ever *)
(** The channel of an entry is open and its own. *)
Record chan_inv l : Prop := {
  cv_closed : ∀ ch, ch ∈ closed l → ch < next_chan l;
  cv_open : ∀ e en, heap l !! e = Some en → changed en < next_chan l ∧ changed en ∉ closed l;
  cv_own : ∀ e e' en en', heap l !! e = Some en → heap l !! e' = Some en' → changed en = changed en' → e = e' }.
(** An entry keeps its channel, or gets the next one. *)
Lemma chan_move l l' e en' : chan_inv l → heap l' = <[e := en']> (heap l) → closed l' = closed l →
  (next_chan l' = next_chan l ∧ (∃ en, heap l !! e = Some en ∧ changed en' = changed en)) ∨ (next_chan l' = S (next_chan l) ∧ changed en' = next_chan l) → chan_inv l'.
Proof.
  intros [C1 C2 C3] Eh Ec Hch. assert (next_chan l ≤ next_chan l') as Hle by (destruct Hch as [[-> _]|[-> _]]; lia).
  assert (changed en' < next_chan l' ∧ changed en' ∉ closed l) as Hnew.
  { destruct Hch as [[-> (en & He & ->)]|[-> ->]]; [by eapply C2|]. split; [lia|]. intros ?%C1. lia. }
  assert (∀ e0 en0, e ≠ e0 → heap l !! e0 = Some en0 → changed en' ≠ changed en0) as Hown.
  { intros e0 en0 Hne He0 E. destruct Hch as [[_ (en & He & Hc)]|[_ Hc]]; [apply Hne; eapply C3; [done|done|congruence]|]. apply C2 in He0. lia. }
  split; rewrite ?Eh, ?Ec.
  - intros ch ?%C1. lia.
  - intros e0 en0 [[<- <-]|[_ He0]]%lookup_insert_Some; [done|]. apply C2 in He0. split; [lia|apply He0].
  - intros e1 e2 en1 en2 [[<- <-]|[N1 H1]]%lookup_insert_Some [[<- <-]|[N2 H2]]%lookup_insert_Some E; [done|by destruct (Hown _ _ N2 H2)|by destruct (Hown _ _ N1 H1)|by eapply C3].
Qed.
Lemma chan_same l l' : chan_inv l → heap l' = heap l → closed l' = closed l → next_chan l' = next_chan l → chan_inv l'.
Proof. intros [C1 C2 C3] Eh Ec En. split; rewrite ?Eh, ?Ec, ?En; done. Qed.
Lemma chan_reference k e l l1 l' : chan_inv l → releaseReferenceLocked k e l = Next l1 → heap l' = heap l1 → closed l' = closed l1 → next_chan l' = next_chan l1 → chan_inv l'.
Proof.
  intros Hc. unfold releaseReferenceLocked. destruct (entries l !! k) as [r|]; [|done]. destruct (heap l !! e) as [en|] eqn:He; [|done]. destruct (_ || _); [done|].
  intros [= <-] Eh Ec En. eapply (chan_move l); [done|by rewrite Eh; destruct (_ =? 0)|by rewrite Ec; destruct (_ =? 0)|]. left. split; [by rewrite En; destruct (_ =? 0)|]. eauto.
Qed.
Lemma exec_chan a l l' : chan_inv l → (∀ k e, entries l !! k = Some e → is_Some (heap l !! e)) → exec a l = Next l' → chan_inv l'.
Proof.
  intros Hc Hent. destruct a as [k sh|n|n|n|n|n|n]; simpl.
  - destruct (locked l); [done|]. intros [= <-]. unfold acquire_begin. destruct (entries l !! k) as [e|] eqn:Ek.
    + destruct (Hent k e Ek) as [en He]. rewrite He. simpl. eapply (chan_move l); [done|done|done|]. left. eauto.
    + simpl. eapply (chan_move l); [done|done|done|]. by right.
  - destruct (calls l !! n) as [[k sh e| | | | | |]|]; try done. destruct (heap l !! e) as [en|] eqn:He; [|done]. intros [= <-]. unfold entry_acquire.
    destruct (admits sh en); [|by eapply chan_same]. eapply (chan_move l); [done|done|done|]. left. split; [done|]. exists en. by destruct sh.
  - destruct (calls l !! n) as [[| | | | | |]|]; try done. destruct (_ ∈? _); [|done]. intros [= <-]. by eapply chan_same.
  - destruct (calls l !! n) as [[| | | | | |]|]; try done. intros [= <-]. by eapply chan_same.
  - destruct (calls l !! n) as [[| |k sh e| | | |]|]; try done. destruct (locked l); [done|]. destruct (releaseReferenceLocked k e l) as [l1| |] eqn:E; try done.
    intros [= <-]. by eapply chan_reference.
  - destruct (calls l !! n) as [[| | |k sh e| | |]|]; try done; (destruct (locked l); [done|]); [|done]. destruct (heap l !! e) as [en|] eqn:He; [|done]. unfold entry_release.
    assert (∀ en', changed en' = next_chan l → ∀ l', heap l' = <[e := en']> (heap l) → closed l' = {[changed en]} ∪ closed l → next_chan l' = S (next_chan l) → chan_inv l') as Hd.
    { intros en' Hen l0 Eh Ec En. destruct Hc as [C1 C2 C3]. pose proof (C2 e en He) as [Hlt Hno]. split; rewrite ?Eh, ?Ec, ?En.
      - intros ch [->%elem_of_singleton|?%C1]%elem_of_union; lia.
      - intros e0 en0 [[<- <-]|[Hne He0]]%lookup_insert_Some.
        + split; [lia|]. rewrite Hen. intros [?%elem_of_singleton|?%C1]%elem_of_union; lia.
        + destruct (C2 e0 en0 He0) as [? Hn0]. split; [lia|]. intros [E%elem_of_singleton|?]%elem_of_union; [|done]. apply Hne. by eapply C3.
      - intros e1 e2 en1 en2 [[<- <-]|[N1 H1]]%lookup_insert_Some [[<- <-]|[N2 H2]]%lookup_insert_Some E; [done|apply C2 in H2; lia|apply C2 in H1; lia|by eapply C3]. }
    destruct sh; [destruct (readers en =? 0)|destruct (negb (exclusive en))]; simpl; try done; intros [= <-]; (eapply Hd; [|done..]; done).
  - destruct (calls l !! n) as [[| | | |k sh e| |]|]; try done. destruct (_ ==? _); [|done]. destruct (releaseReferenceLocked k e l) as [l1| |] eqn:E; try done.
    intros [= <-]. by eapply chan_reference.
Qed.
(** A step of the coordinator is at most one section of the registry. *)
Lemma perform_section a s s' : perform a s = Stepped s' → co_lanes s' = co_lanes s ∨ ∃ b, exec b (co_lanes s) = Next (co_lanes s').
Proof.
  assert (∀ b f, on_lanes (exec b (co_lanes s)) f = Stepped s' → (∀ l, co_lanes (f l) = l) → ∃ b, exec b (co_lanes s) = Next (co_lanes s')) as Hs.
  { intros b f. unfold on_lanes. destruct (exec b (co_lanes s)) as [l'| |] eqn:E; [|done..]. intros [= <-] Hf. exists b. by rewrite Hf. }
  destruct a as [[todo|e]|i tasks|i|i]; unfold perform; [intros [= <-]; by left|done|..];
    (destruct (co_callers s !! i) as [c|]; [|done]); [destruct (cl_mode c), tasks; try done; intros [= <-]; by left| |
      destruct (cl_mode c); try done; intros E; right; by eapply Hs].
  unfold go. destruct (cl_mode c) as [|t n| | |n].
  - destruct (fr_todo _) as [|t rest]; [intros [= <-]; by left|]. destruct (_ ∈? _); [intros [= <-]; by left|]. intros E. right. by eapply Hs.
  - destruct (calls _ !! n) as [[]|]; try done; try (intros [= <-]; by left); intros E; right; by eapply Hs.
  - intros [= <-]. by left.
  - destruct (fr_held _) as [|[t n] rest]; [destruct (cl_outer c); intros [= <-]; by left|]. intros E. right. by eapply Hs.
  - intros E. right. by eapply Hs.
Qed.
Lemma chan_init : chan_inv (NewMutationLaneRegistry : registry TaskID).
Proof. split; simpl; [by intros ch ?%elem_of_empty|intros *; by rewrite ?lookup_empty..]. Qed.
Lemma coordinated_chan s : coordinated s → co_inv s ∧ chan_inv (co_lanes s).
Proof.
  unfold coordinated. revert s. apply (rtc_ind_r (λ s, co_inv s ∧ chan_inv (co_lanes s))).
  - split; [by apply coordinated_inv, rtc_refl|apply chan_init].
  - intros s s' _ [a Ho E] [Hs Hc]. split; [by eapply mutation_keeps_inv|]. destruct (perform_section a s s' E) as [->|[b Eb]]; [done|].
    eapply exec_chan; [done| |done]. intros k e Hk. destruct (inv_entry _ (ci_lanes _ Hs) k e Hk) as (en & He & _). eauto.
Qed.

(** The sum of a weight over a map. *)
Section total.
Context {A : Type} (w : A → nat).
Implicit Types m : gmap nat A.
Definition total m : nat := map_fold (λ _ x n, w x + n) 0 m.
Lemma total_delete m i x : m !! i = Some x → total m = w x + total (delete i m).
Proof. intros Hi. unfold total. rewrite (map_fold_delete_L _ _ i x m); [done|lia|done]. Qed.
Lemma total_update m i x y : m !! i = Some x → w x + total (<[i := y]> m) = w y + total m.
Proof.
  intros Hi. rewrite (total_delete m i x Hi), (total_delete (<[i := y]> m) i y) by apply lookup_insert_eq. rewrite delete_insert_eq. lia.
Qed.
End total.

(** The steps a call has left, lane attempts apart, and how often an attempt may repeat. *)
Definition leave_cost (f : frame) : nat := 2 * length (fr_held f) + 1.
Definition outer_cost (fs : list frame) : nat := sum_list_with (λ f, S (leave_cost f)) fs.
Definition mode_cost (m : mode) (f : frame) : nat :=
  match m with
  | Entering => 4 * length (fr_todo f) + 2 + leave_cost f
  | Acquiring _ _ => 4 * length (fr_todo f) + 1 + leave_cost f
  | Operating => 1 + leave_cost f
  | Leaving => leave_cost f
  | Letting _ => 2 * length (fr_held f)
  end.
Definition call_cost c : nat := mode_cost (cl_mode c) (cl_top c) + outer_cost (cl_outer c).
Definition attempt_cost (closed : gset nat) (x : call TaskID) : nat :=
  match x with
  | Trying _ _ _ => 3
  | Waiting _ _ _ ch => if ch ∈? closed then 4 else 2
  | Aborted _ _ _ => 1
  | _ => 0
  end.
Definition cost s : nat * nat := (total call_cost (co_callers s), total (attempt_cost (closed (co_lanes s))) (calls (co_lanes s))).
Definition less (p q : nat * nat) : Prop := p.1 < q.1 ∨ p.1 = q.1 ∧ p.2 < q.2.
Lemma less_wf : well_founded less.
Proof.
  intros [a b]. revert b. induction (lt_wf a) as [a _ IHa]. intros b. induction (lt_wf b) as [b _ IHb]. constructor. intros [a' b'] [H|[H1 H2]]; simpl in *; [by apply IHa|].
  subst a'. by apply IHb.
Qed.
Lemma closed_try n l l' : exec (Try n) l = Next l' → closed l' = closed l.
Proof.
  simpl. destruct (calls l !! n) as [[k sh e| | | | | |]|]; try done. destruct (heap l !! e) as [en|]; [|done]. intros [= <-]. unfold entry_acquire. by destruct (admits sh en).
Qed.
Lemma closed_drop n l l' : exec (Drop n) l = Next l' → closed l' = closed l.
Proof.
  simpl. destruct (calls l !! n) as [[| |k sh e| | | |]|]; try done. destruct (locked l); [done|]. unfold releaseReferenceLocked.
  destruct (entries l !! k), (heap l !! e); simpl; try done. destruct (_ || _); simpl; [done|]. intros [= <-]. simpl. by destruct (_ =? 0).
Qed.
Lemma try_open n k e l l' : chan_inv l → calls l !! n = Some (Trying k false e) → exec (Try n) l = Next l' →
  ∃ x, calls l' = <[n := x]> (calls l) ∧ attempt_cost (closed l) x < 3.
Proof.
  intros Hc E. simpl. rewrite E. destruct (heap l !! e) as [en|] eqn:He; [|done]. intros [= <-]. unfold entry_acquire. destruct (admits false en); simpl; eexists; (split; [done|]); simpl; [lia|].
  rewrite bool_decide_eq_false_2; [lia|]. by apply (cv_open _ Hc e).
Qed.
(** One attempt on a lane has moved. *)
Lemma attempt_less s i c n x y l' : co_callers s !! i = Some c → calls (co_lanes s) !! n = Some x → calls l' = <[n := y]> (calls (co_lanes s)) →
  closed l' = closed (co_lanes s) → attempt_cost (closed (co_lanes s)) y < attempt_cost (closed (co_lanes s)) x → less (cost (put_lanes i c s l')) (cost s).
Proof.
  intros Hi Hx Ec El Hlt. right. simpl. rewrite (insert_id _ i c Hi), Ec, El. split; [done|].
  pose proof (total_update (attempt_cost (closed (co_lanes s))) (calls (co_lanes s)) n x y Hx). lia.
Qed.
Lemma go_less s i c s' : co_inv s → chan_inv (co_lanes s) → co_callers s !! i = Some c → go i c s = Stepped s' → less (cost s') (cost s).
Proof.
  intros Hs Hch Hi. pose proof (ci_ok _ Hs i c Hi) as Hok.
  assert (∀ c' l', call_cost c' < call_cost c → less (cost (put_lanes i c' s l')) (cost s)) as Hmain.
  { intros c' l' Hlt. left. simpl. pose proof (total_update call_cost (co_callers s) i c c' Hi). lia. }
  unfold go. destruct (cl_mode c) as [|t n| | |n] eqn:Em.
  - destruct (fr_todo (cl_top c)) as [|t rest] eqn:Et.
    { intros [= <-]. apply Hmain. unfold call_cost. rewrite Em. simpl. lia. }
    destruct (t ∈? active c).
    { intros [= <-]. apply Hmain. unfold call_cost. rewrite Em. simpl. unfold leave_cost. simpl. rewrite Et. simpl. lia. }
    destruct (exec _ _) as [l'| |]; simpl; [|done..]. intros [= <-]. apply Hmain. unfold call_cost. rewrite Em. simpl. lia.
  - destruct (ow_acquiring _ _ (ck_owns _ _ Hok) t n Em) as (x & Ex & Hx). rewrite Ex. destruct (or_acquiring _ (ck_ordered _ _ Hok) t n Em) as (_ & rest & Et).
    destruct Hx as [->|(e & [->|[->|[->|[ch ->]]]])].
    + intros [= <-]. apply Hmain. unfold call_cost. rewrite Em. simpl. lia.
    + destruct (exec (Try n) (co_lanes s)) as [l'| |] eqn:E; simpl; [|done..]. intros [= <-]. destruct (try_open _ _ _ _ _ Hch Ex E) as (y & Ec & Hy).
      eapply attempt_less; [done|done|done|by eapply closed_try|done].
    + destruct (exec (Drop n) (co_lanes s)) as [l'| |] eqn:E; simpl; [|done..]. intros [= <-]. pose proof (drop_calls _ _ _ _ _ Ex E) as Ec.
      eapply attempt_less; [done|done|done|by eapply closed_drop|]. simpl. lia.
    + intros [= <-]. apply Hmain. unfold call_cost. rewrite Em. simpl. unfold leave_cost. simpl. rewrite Et. simpl. lia.
    + destruct (exec (Wake n) (co_lanes s)) as [l'| |] eqn:E; simpl; [|done..]. intros [= <-]. pose proof (wake_calls _ _ _ _ _ _ Ex E) as Ec. simpl in E. rewrite Ex in E.
      case_bool_decide as Hin; [|done]. injection E as <-. eapply attempt_less; [done|done|done|done|]. simpl. rewrite bool_decide_eq_true_2 by done. lia.
  - intros [= <-]. apply Hmain. unfold call_cost. rewrite Em. simpl. lia.
  - destruct (fr_held (cl_top c)) as [|[t n] rest] eqn:Eh.
    { destruct (cl_outer c) as [|f outer] eqn:Eo; intros [= <-].
      - left. simpl. rewrite (total_delete call_cost (co_callers s) i c Hi). assert (0 < call_cost c) by (unfold call_cost; rewrite Em; simpl; unfold leave_cost; lia). lia.
      - apply Hmain. unfold call_cost. rewrite Em, Eo. simpl. unfold leave_cost. lia. }
    destruct (exec _ _) as [l'| |]; simpl; [|done..]. intros [= <-]. apply Hmain. unfold call_cost. rewrite Em. simpl. unfold leave_cost. lia.
  - destruct (ow_letting _ _ (ck_owns _ _ Hok) n Em) as (t & rest & Eh). destruct (exec _ _) as [l'| |]; simpl; [|done..]. intros [= <-]. apply Hmain.
    unfold call_cost. rewrite Em. simpl. unfold leave_cost. simpl. rewrite Eh. simpl. lia.
Qed.
Lemma give_up_less s i s' : perform (GiveUp i) s = Stepped s' → less (cost s') (cost s).
Proof.
  unfold perform. destruct (co_callers s !! i) as [c|] eqn:Hi; [|done]. destruct (cl_mode c) as [|t n| | |]; try done.
  destruct (exec (Cancel n) (co_lanes s)) as [l'| |] eqn:E; simpl; [|done..]. intros [= <-]. destruct (cancel_calls _ _ _ E) as (k & sh & e & ch & Ex & Ec).
  eapply attempt_less; [done|done|done| |]; [|simpl; destruct (_ ∈? _); lia]. simpl in E. rewrite Ex in E. by injection E as <-.
Qed.

(** ** Runs without new calls *)
Inductive going s s' : Prop :=
| going_by i : perform (Go i) s = Stepped s' → going s s'.
Inductive advances s s' : Prop :=
| advances_go : going s s' → advances s s'
| advances_give_up i : perform (GiveUp i) s = Stepped s' → advances s s'.
Lemma advances_mutates s s' : advances s s' → mutates s s'.
Proof. intros [[i E]|i E]; by eapply mutates_by; [|exact E]. Qed.
Lemma advances_coordinated s s' : coordinated s → rtc advances s s' → coordinated s'.
Proof. intros Hs Hr. unfold coordinated in *. transitivity s; [done|]. eapply rtc_subrel; [|exact Hr]. intros ? ?. apply advances_mutates. Qed.
Lemma advances_less s s' : coordinated s → advances s s' → less (cost s') (cost s).
Proof.
  intros [Hs Hc]%coordinated_chan [[i E]|i E]; [|by eapply give_up_less]. unfold perform in E. destruct (co_callers s !! i) as [c|] eqn:Hi; [|done]. by eapply go_less.
Qed.
Lemma advances_sn s : coordinated s → sn advances s.
Proof.
  induction (wf_inverse_image _ _ _ cost less_wf s) as [s _ IH]. intros Hs. constructor. intros s' Ha. apply IH; [by apply advances_less|].
  eapply advances_coordinated; [done|]. by apply rtc_once.
Qed.
Lemma no_callers s : coordinated s → nf going s → co_callers s = ∅.
Proof.
  intros Hs%coordinated_inv Hn. apply dec_stable. intros Hne. destruct (some_ready s Hs Hne) as (i & c & Hi & s' & E). apply Hn. exists s', i. unfold perform. by rewrite Hi.
Qed.
