(* ===== verification/TaskMutationClaims.v ===== *)
(** * Properties of the task mutation coordinator

    The calls of [Run] and [RunMany] finish, whatever the order in which they
    run, and an operation has the lanes of its tasks to itself. *)
From Stdlib Require Import String Lia.
From stdpp Require Import gmap strings list relations.
From S2P Require Import Prelude GoStrings Types MutationLane MutationLaneFacts TaskMutations TaskMutationFacts TaskMutationProgress.

Implicit Types (s : coordinator) (c : caller) (i j n : nat) (t : TaskID).

(** ** Lanes of operations *)
(** A task whose lease the caller has and is not releasing. *)
Definition keeps_lane c t : Prop := ∃ n, (t, n) ∈ leases_of c ∧ cl_mode c ≠ Letting n.
(** The calls whose operations have begun and not returned. *)
Definition operations c : list frame := (match cl_mode c with Operating => [cl_top c] | _ => [] end) ++ cl_outer c.

Lemma keeps_holding s i c t : co_inv s → co_callers s !! i = Some c → keeps_lane c t →
  ∃ n e, calls (co_lanes s) !! n = Some (Holding t false e) ∧ n ∈ mentions c.
Proof.
  intros Hs Hi (n & Hp & Hl). destruct (ow_held _ _ (ck_owns _ _ (ci_ok _ Hs i c Hi)) _ Hp) as [e He]. exists n, e. split; [|by apply (lease_mentioned c (t, n))].
  simpl in He. destruct (letting (cl_mode c) n) eqn:E; [|done]. destruct (cl_mode c) as [| | | |m]; try done. simpl in E. apply Nat.eqb_eq in E as ->. done.
Qed.
(** A lane has one exclusive lease at most. *)
Lemma one_holder s n m t e e' : co_inv s → calls (co_lanes s) !! n = Some (Holding t false e) → calls (co_lanes s) !! m = Some (Holding t false e') → n = m.
Proof.
  intros Hs En Em. pose proof (ci_lanes _ Hs) as Hl. destruct (lookup_bound _ _ _ _ _ Hl En eq_refl) as (Ht & en & He & [_ _ R3 _] & _).
  pose proof (inv_ref _ Hl m _ t e' Em eq_refl) as Ht'. rewrite Ht in Ht'. injection Ht' as <-. destruct (decide (n = m)) as [|Hne]; [done|].
  assert (2 ≤ count (holds false e) (calls (co_lanes s))) as H2 by (by eapply count_two; [done|exact En|exact Em|simpl; by apply bool_decide_eq_true..]).
  destruct (exclusive en); simpl in R3; lia.
Qed.
(** What a frame that is done entering has taken is in the leases below it. *)
Lemma covered_held fs f t : covered fs → (∀ g, g ∈ fs → fr_todo g = []) → f ∈ fs → t ∈ fr_tasks f → t ∈ (g ← fs; fr_held g).*1.
Proof.
  induction fs as [|g fs IH]; simpl; [by intros _ _ ?%elem_of_nil|]. intros [Hg Hc] Ht [->|Hf]%elem_of_cons Hx.
  - destruct (Hg t Hx) as [Hin|?]; [|done]. rewrite Ht in Hin by by left. by apply elem_of_nil in Hin.
  - rewrite fmap_app. apply elem_of_app. right. apply IH; [done| |done|done]. intros g' ?. apply Ht. by right.
Qed.
Lemma operations_keep s i c f t : co_inv s → co_callers s !! i = Some c → f ∈ operations c → t ∈ fr_tasks f → keeps_lane c t.
Proof.
  intros Hs Hi Hf Ht. destruct (ci_ok _ Hs i c Hi) as [[O1 O2 O3] [R1 R2 R3 R4 R5] [C1 C2] Hn]. apply elem_of_app in Hf as [Hf|Hf].
  - destruct (cl_mode c) eqn:Em; try by apply elem_of_nil in Hf. apply list_elem_of_singleton in Hf as ->.
    destruct (C2 eq_refl t Ht) as [Hx|Ha]; [rewrite (R4 eq_refl) in Hx; by apply elem_of_nil in Hx|].
    apply list_elem_of_fmap in Ha as ([t' n] & -> & Hp). exists n. by rewrite Em.
  - pose proof (covered_held _ _ _ C1 R5 Hf Ht) as ([t' n] & -> & Hp)%list_elem_of_fmap. exists n. split; [apply elem_of_app; by right|]. intros Em.
    destruct (O3 n Em) as (t2 & rest & Eh). unfold mentions, leases_of in Hn. rewrite Em, Eh in Hn. simpl in Hn. apply NoDup_cons in Hn as [Hn _]. apply Hn.
    rewrite fmap_app. apply elem_of_app. right. apply list_elem_of_fmap. by exists (t', n).
Qed.
Lemma section_quiet s a f : co_inv s → (∀ n, a = Release n → calls (co_lanes s) !! n ≠ Some Released) → on_lanes (exec a (co_lanes s)) f ≠ Panicked.
Proof.
  intros Hs Hr. pose proof (exec_inv _ a (ci_lanes _ Hs)) as Hx. destruct (exec a (co_lanes s)); [done|done|]. destruct Hx as (n & -> & Hn). by destruct (Hr n).
Qed.
Lemma perform_quiet s a : co_inv s → perform a s ≠ Panicked.
Proof.
  intros Hs. destruct a as [[todo|e]|i tasks|i|i]; unfold perform; [done|done|..]; (destruct (co_callers s !! i) as [c|] eqn:Hi; [|done]);
    [by destruct (cl_mode c), tasks| |destruct (cl_mode c); try done; by apply section_quiet].
  unfold go. destruct (cl_mode c) as [|t n| | |n] eqn:Em.
  - destruct (fr_todo _) as [|t rest]; [done|]. destruct (_ ∈? _); [done|by apply section_quiet].
  - destruct (calls _ !! n) as [[]|]; try done; by apply section_quiet.
  - done.
  - destruct (fr_held (cl_top c)) as [|[t n] rest] eqn:Eh; [by destruct (cl_outer c)|]. apply section_quiet; [done|]. intros m [= <-].
    assert ((t, n) ∈ leases_of c) as Hp by (unfold leases_of; rewrite Eh; by left).
    destruct (ow_held _ _ (ck_owns _ _ (ci_ok _ Hs i c Hi)) _ Hp) as [e Ex]. rewrite Em in Ex. simpl in Ex. by rewrite Ex.
  - by apply section_quiet.
Qed.

(** ** Claims *)
(** C9. Calls of [Run] and [RunMany] never deadlock and always finish: when
    calls made from an operation take lanes behind the ones their caller has,
    every run of the calls that are in flight ends, whichever caller goes next
    at each step and whichever waiting caller gives up, and when no caller can
    go on no call is left. *)
Theorem task_mutations_finish s (Hs : coordinated s) :
  sn advances s ∧ ∀ s', rtc advances s s' → nf going s' → co_callers s' = ∅.
Proof. split; [by apply advances_sn|]. intros s' Hr. apply no_callers. by eapply advances_coordinated. Qed.

(** C20. An operation has its tasks to itself: an operation that [Run] or
    [RunMany] has begun and that has not returned, an outer one included, has
    the lane of every task it was called with, no two callers have the lane of
    one task, and no step of the coordinator trips a panic of the lanes. *)
Theorem task_mutations_exclusive s (Hs : coordinated s) :
  (∀ i c f t, co_callers s !! i = Some c → f ∈ operations c → t ∈ fr_tasks f → keeps_lane c t) ∧
  (∀ i j c c' t, co_callers s !! i = Some c → co_callers s !! j = Some c' → keeps_lane c t → keeps_lane c' t → i = j) ∧
  ∀ a, perform a s ≠ Panicked.
Proof.
  apply coordinated_inv in Hs. split; [|split].
  - intros i c f t. by apply operations_keep.
  - intros i j c c' t Hi Hj (n & e & En & Hn)%(keeps_holding s i) (m & e' & Em & Hm)%(keeps_holding s j); [|done..].
    rewrite <- (one_holder s n m t e e' Hs En Em) in Hm. by eapply (ci_apart s Hs i j c c' n).
  - intros a. by apply perform_quiet.
Qed.

(** ** A run *)
(** The first caller takes two lanes and calls again from its operation, for
    one of them and a third; the second waits for a lane of the first. *)
Local Open Scope string_scope.
Definition mutation_schedule : list mutation :=
  [Call (RunMany_tasks ["task-2"; "task-1"]); Call (Run_tasks "task-2")] ++ replicate 7 (Go 0) ++ replicate 2 (Go 1).
Definition nested_tasks : result mutation_error (list TaskID) := RunMany_tasks ["task-3"; "task-2"].
Definition after (l : list mutation) s : coordinator := match perform_all l s with Stepped s => s | _ => s end.
Definition first_state : coordinator := after mutation_schedule NewTaskMutationCoordinator.
Definition nested_state : coordinator := after [Nest 0 nested_tasks] first_state.
Definition busy_state : coordinator := after (replicate 5 (Go 0)) nested_state.

Lemma perform_all_coordinated l : ∀ s, coordinated s →
  Forall (λ a, match a with Call tasks => entry_point tasks | Nest _ _ => False | _ => True end) l → coordinated (after l s).
Proof.
  unfold after. induction l as [|a l IH]; intros s Hs Hl; simpl; [done|]. apply Forall_cons in Hl as [Ha Hl].
  destruct (perform a s) as [s'| | |] eqn:E; [|done..]. specialize (IH s'). destruct (perform_all l s') eqn:E'; try done. apply IH; [|done].
  eapply rtc_r; [exact Hs|]. apply (mutates_by _ _ a); [|done]. by destruct a.
Qed.
Lemma first_coordinated : coordinated first_state.
Proof.
  apply perform_all_coordinated; [apply rtc_refl|]. apply Forall_cons. split; [right; by eexists|]. apply Forall_cons. split; [left; by eexists|]. repeat constructor.
Qed.
Lemma nested_coordinated : coordinated nested_state.
Proof.
  eapply rtc_r; [exact first_coordinated|]. apply (mutates_by _ _ (Nest 0 nested_tasks)); [|vm_compute; reflexivity]. split; [right; by eexists|].
  intros c Hc. vm_compute in Hc. injection Hc as <-. assert (nested_tasks = Ok ["task-2"; "task-3"]) as -> by reflexivity. intros a x Ha Hx. unfold active, leases_of in *. simpl in *.
  rewrite !elem_of_cons, elem_of_nil in Ha, Hx.
  destruct Ha as [->|[->|[]]], Hx as [->|[->|[]]]; first [right; by apply (bool_decide_eq_true_1 (before _ _)); vm_compute|left; set_solver].
Qed.
Lemma busy_coordinated : coordinated busy_state.
Proof. apply perform_all_coordinated; [exact nested_coordinated|]. repeat constructor. Qed.

Lemma task_mutations_finish_witness :
  size (co_callers busy_state) = 2 ∧ sn advances busy_state ∧ ∀ s', rtc advances busy_state s' → nf going s' → co_callers s' = ∅.
Proof. split; [reflexivity|]. exact (task_mutations_finish busy_state busy_coordinated). Defined.
Lemma task_mutations_exclusive_witness :
  match co_callers busy_state !! 0 with
  | Some c => map fr_tasks (operations c) = [["task-2"; "task-3"]; ["task-1"; "task-2"]] ∧ Forall (keeps_lane c) ["task-1"; "task-2"; "task-3"]
  | None => False
  end ∧ perform (Go 0) busy_state ≠ Panicked.
Proof.
  destruct (task_mutations_exclusive busy_state busy_coordinated) as (H1 & _ & H3). split; [|apply H3].
  destruct (co_callers busy_state !! 0) as [c|] eqn:E; [|by vm_compute in E]. pose proof E as E'. vm_compute in E'. injection E' as Ec.
  split; [by rewrite <- Ec|]. repeat constructor.
  - apply (H1 0 c {| fr_tasks := ["task-1"; "task-2"]; fr_todo := []; fr_held := [("task-2", 1); ("task-1", 0)] |}); [done|rewrite <- Ec; right; by left|by left].
  - apply (H1 0 c {| fr_tasks := ["task-1"; "task-2"]; fr_todo := []; fr_held := [("task-2", 1); ("task-1", 0)] |}); [done|rewrite <- Ec; right; by left|right; by left].
  - apply (H1 0 c {| fr_tasks := ["task-2"; "task-3"]; fr_todo := []; fr_held := [("task-3", 3)] |}); [done|rewrite <- Ec; by left|right; by left].
Defined.
