(* ===== verification/Transactions.v ===== *)
(** * Database transactions

    A store operation is a transaction: a program over the tables that can stop
    with an error at any statement, and whose effects are kept only when it
    commits. Which statements fail is an argument, so that theorems hold for
    every pattern of database failures. A small program logic follows. *)
From Stdlib Require Import String.
From stdpp Require Import base strings.
From S2P Require Import Prelude.

(** The errors of the database, and those of the operation. *)
Inductive store_error {P : Type} :=
| DatabaseError (operation : string)
| NoRows
| PolicyError (e : P).
Arguments store_error : clear implicits.

(** A program of a transaction: the number of database operations run so far
    and the tables, to an error or a value with both. *)
Definition txn (S P A : Type) : Type := nat → S → result (store_error P) (A * nat * S).

#[export] Instance txn_ret {S P} : MRet (txn S P) := λ A a n s, Ok (a, n, s).
#[export] Instance txn_bind {S P} : MBind (txn S P) := λ A B f m n s,
  match m n s with Ok (a, n, s) => f a n s | Err e => Err e end.

Definition fail {S P A} (e : store_error P) : txn S P A := λ _ _, Err e.
(** A step that does not use the database. *)
Definition lift {S P A} (r : result P A) : txn S P A :=
  match r with Ok a => mret a | Err e => fail (PolicyError e) end.

Section transactions.
(** Whether the [n]th operation of the transaction fails. *)
Context {S P : Type} (faulty : nat → bool).

Definition query {A} (operation : string) (f : S → A * S) : txn S P A := λ n s,
  if faulty n then Err (DatabaseError operation) else let '(a, s) := f s in Ok (a, Datatypes.S n, s).
Definition select {A} (operation : string) (f : S → A) : txn S P A := query operation (λ s, (f s, s)).

(** A statement that constraints of the tables can refuse. *)
Definition attempt {A} (operation : string) (f : S → option (A * S)) : txn S P A :=
  done ← query operation (λ s, match f s with Some (a, s) => (Some a, s) | None => (None, s) end);
  match done with Some a => mret a | None => fail (DatabaseError operation) end.

(** Statements that read or write only other tables: they can fail. *)
Fixpoint statements (operations : list string) : txn S P unit :=
  match operations with
  | [] => mret tt
  | operation :: rest => _ ← select operation (λ _, tt); statements rest
  end.

(** The tables after the transaction: those it leaves when it and its commit
    succeed, the old ones when it is rolled back. *)
Definition transact {A} (program : txn S P A) (s : S) : result (store_error P) A * S :=
  match (query "begin" (λ s, (tt, s)) ≫= λ _, program ≫= λ a, query "commit" (λ s, (a, s))) 0 s with
  | Ok (a, _, s') => (Ok a, s')
  | Err e => (Err e, s)
  end.
End transactions.

(** ** Reads outside a transaction

    Code that prepares a transaction reads the tables statement by statement,
    and other transactions run in between: each read sees its own state. *)
Definition reading (P A : Type) : Type := nat → result (store_error P) (A * nat).
#[export] Instance reading_ret {P} : MRet (reading P) := λ A a n, Ok (a, n).
#[export] Instance reading_bind {P} : MBind (reading P) := λ A B f m n,
  match m n with Ok (a, n) => f a n | Err e => Err e end.
Definition refuse {P A} (e : store_error P) : reading P A := λ _, Err e.
Definition checked {P A} (r : result P A) : reading P A :=
  match r with Ok a => mret a | Err e => refuse (PolicyError e) end.

Section reading.
(** The state the [n]th read sees, and whether it fails. *)
Context {S P : Type} (reads : nat → S) (faulty : nat → bool).
Definition observe {A} (operation : string) (f : S → A) : reading P A := λ n,
  if faulty n then Err (DatabaseError operation) else Ok (f (reads n), Datatypes.S n).
(** A single row, which must exist. *)
Definition observe_row {A} (operation : string) (f : S → option A) : reading P A :=
  row ← observe operation f; match row with Some a => mret a | None => refuse NoRows end.
(** Reads of tables that are not modelled: they can fail. *)
Fixpoint observations (operations : list string) : reading P unit :=
  match operations with
  | [] => mret tt
  | operation :: rest => _ ← observe operation (λ _, tt); observations rest
  end.
End reading.

(** What a successful preparation returns. *)
Definition yields {P A} (m : reading P A) (Q : A → Prop) : Prop := ∀ n a n', m n = Ok (a, n') → Q a.

Section yields.
Context {P : Type}.
Lemma yields_ret {A} (a : A) (Q : A → Prop) : Q a → yields (P := P) (mret a) Q.
Proof. by intros H n a' n' [= <- <-]. Qed.
Lemma yields_refuse {A} e (Q : A → Prop) : yields (P := P) (refuse e) Q.
Proof. by intros n a n' [=]. Qed.
Lemma yields_checked {A} (r : result P A) (Q : A → Prop) :
  (∀ a, r = Ok a → Q a) → yields (checked r) Q.
Proof. intros H n a n'. destruct r; [intros [= <- <-]; auto|by intros [=]]. Qed.
Lemma yields_bind {A B} (m : reading P A) (f : A → reading P B) Q :
  yields m (λ a, yields (f a) Q) → yields (m ≫= f) Q.
Proof.
  intros H n b n'. unfold mbind, reading_bind. destruct (m n) as [[a n1]|e] eqn:E; [|by intros [=]].
  intros Hb. by eapply (H n a n1).
Qed.
Lemma yields_mono {A} (m : reading P A) (Q R : A → Prop) : yields m Q → (∀ a, Q a → R a) → yields m R.
Proof. intros H HQ n a n' E. by eapply HQ, H. Qed.
Lemma yields_trivial {A} (m : reading P A) : yields m (λ _, True).
Proof. done. Qed.
Lemma yields_skip {A B} (m : reading P A) (f : A → reading P B) Q :
  (∀ a, yields (f a) Q) → yields (m ≫= f) Q.
Proof. intros H. apply yields_bind. intros n a n' _. apply H. Qed.
Lemma yields_observe {S A} (reads : nat → S) faulty operation (f : S → A) (Q : A → Prop) :
  (∀ n, Q (f (reads n))) → yields (P := P) (observe reads faulty operation f) Q.
Proof. intros H n a n'. unfold observe. destruct (faulty n); [by intros [=]|]. intros [= <- <-]. apply H. Qed.
End yields.

(** ** Reasoning about transactions *)

(** From any number of operations and the tables [s], the program either stops
    with an error of [E] or returns a value and tables of [Q]. *)
Definition runs {S P A} (m : txn S P A) (s : S) (E : store_error P → Prop) (Q : A → S → Prop) : Prop :=
  ∀ n, match m n s with Ok (a, _, s') => Q a s' | Err e => E e end.

Section logic.
Context {S P : Type} (faulty : nat → bool).
Implicit Types (E : store_error P → Prop) (s : S).

(** The errors of a failing database are admitted. *)
Class Faults E := faults : ∀ operation n, faulty n = true → E (DatabaseError operation).

Lemma runs_ret {A} (a : A) s E (Q : A → S → Prop) : Q a s → runs (mret a) s E Q.
Proof. by intros H n. Qed.
Lemma runs_fail {A} e s E (Q : A → S → Prop) : E e → runs (fail e) s E Q.
Proof. by intros H n. Qed.
Lemma runs_lift {A} (r : result P A) s E (Q : A → S → Prop) :
  match r with Ok a => Q a s | Err e => E (PolicyError e) end → runs (lift r) s E Q.
Proof. intros H n. by destruct r. Qed.
Lemma runs_bind {A B} (m : txn S P A) (f : A → txn S P B) s E Q :
  runs m s E (λ a s', runs (f a) s' E Q) → runs (m ≫= f) s E Q.
Proof.
  intros H n. specialize (H n). unfold mbind, txn_bind.
  destruct (m n s) as [[[a n'] s']|e]; [apply H|done].
Qed.
Lemma runs_mono {A} (m : txn S P A) s E (Q R : A → S → Prop) :
  runs m s E Q → (∀ a s', Q a s' → R a s') → runs m s E R.
Proof. intros H HQ n. specialize (H n). destruct (m n s) as [[[a n'] s']|e]; auto. Qed.
Lemma runs_error {A} (m : txn S P A) s E F (Q : A → S → Prop) :
  runs m s E Q → (∀ e, E e → F e) → runs m s F Q.
Proof. intros H HE n. specialize (H n). destruct (m n s) as [[[a n'] s']|e]; auto. Qed.

Lemma runs_query {A} operation (f : S → A * S) s E Q `{!Faults E} :
  Q (f s).1 (f s).2 → runs (query faulty operation f) s E Q.
Proof.
  intros H n. unfold query. destruct (faulty n) eqn:Hn; [by eapply faults|]. by destruct (f s).
Qed.
Lemma runs_select {A} operation (f : S → A) s E Q `{!Faults E} :
  Q (f s) s → runs (select faulty operation f) s E Q.
Proof. intros H. by apply runs_query. Qed.

Lemma runs_statements ops s E `{!Faults E} Q : Q tt s → runs (statements faulty ops) s E Q.
Proof.
  intros H. induction ops as [|op ops IH]; simpl; [by apply runs_ret|].
  by apply runs_bind, runs_select.
Qed.

(** A transaction keeps the tables of a program that succeeds, and the old
    ones otherwise. *)
Lemma transact_spec {A} (R : result (store_error P) A * S → Prop) E (m : txn S P A) s `{!Faults E} :
  (∀ e, E e → R (Err e, s)) → runs m s E (λ a s', R (Ok a, s')) → R (transact faulty m s).
Proof.
  intros HE H.
  assert (runs (query faulty "begin" (λ s, (tt, s)) ≫= λ _, m ≫= λ a, query faulty "commit" (λ s, (a, s)))
            s E (λ a s', R (Ok a, s'))) as H'.
  { apply runs_bind, runs_query; simpl; [done|]. apply runs_bind.
    eapply runs_mono; [done|]. intros a s' HQ. by apply runs_query. }
  specialize (H' 0%nat). unfold transact.
  match type of H' with match ?x with _ => _ end => destruct x as [[[a n] s']|e]; auto end.
Qed.
End logic.

(** ** Where successful programs lead *)
Section post.
Context {S Er : Type} (faulty : nat → bool).
Implicit Types (s : S).

Definition post {A} (m : txn S Er A) s (Q : A → S → Prop) : Prop := runs m s (λ _, True) Q.
#[export] Instance any_error : Faults faulty (λ _ : store_error Er, True).
Proof. done. Qed.

Lemma post_bind {A B} (m : txn S Er A) (f : A → txn S Er B) s (P : A → S → Prop) Q :
  post m s P → (∀ a s', P a s' → post (f a) s' Q) → post (m ≫= f) s Q.
Proof. intros Hm Hf. apply runs_bind. eapply runs_mono; [done|]. auto. Qed.
Lemma post_ret {A} (a : A) s (Q : A → S → Prop) : Q a s → post (mret a) s Q.
Proof. apply runs_ret. Qed.
Lemma post_fail {A} e s (Q : A → S → Prop) : post (fail e) s Q.
Proof. by apply runs_fail. Qed.
Lemma post_select {A} op (f : S → A) s : post (select faulty op f) s (λ a s', a = f s ∧ s' = s).
Proof. by apply runs_select. Qed.
Lemma post_lift {A} (r : result Er A) s : post (lift r) s (λ a s', r = Ok a ∧ s' = s).
Proof. apply runs_lift. by destruct r. Qed.
Lemma post_statements ops s : post (statements faulty ops) s (λ _ s', s' = s).
Proof. by apply runs_statements; [apply _|]. Qed.
Lemma post_mono {A} (m : txn S Er A) s (P Q : A → S → Prop) : post m s P → (∀ a s', P a s' → Q a s') → post m s Q.
Proof. apply runs_mono. Qed.
Lemma post_query {A} op (f : S → A * S) s : post (query faulty op f) s (λ a s', (a, s') = f s).
Proof. apply runs_query; [apply _|]. by destruct (f s). Qed.
Lemma post_attempt {A} op (f : S → option (A * S)) s :
  post (attempt faulty op f) s (λ a s', f s = Some (a, s')).
Proof.
  eapply post_bind; [apply runs_query with (Q := λ o s', match o with Some a => f s = Some (a, s') | None => True end); [apply _|]|].
  - by destruct (f s) as [[a s']|].
  - intros [a|] s' H; [by apply post_ret|apply post_fail].
Qed.
Lemma post_and {A} (m : txn S Er A) s (P Q : A → S → Prop) : post m s P → post m s Q → post m s (λ a s', P a s' ∧ Q a s').
Proof. intros HR HQ n. specialize (HR n). specialize (HQ n). destruct (m n s) as [[[a n'] s']|e]; auto. Qed.
Lemma transact_post {A} (m : txn S Er A) s Q a s' :
  post m s Q → transact faulty m s = (Ok a, s') → Q a s'.
Proof.
  intros H. assert (match transact faulty m s with (Ok a, s') => Q a s' | (Err _, s') => s' = s end) as Hm.
  { pattern (transact faulty m s). apply (transact_spec faulty _ (λ _, True)); [apply _|done|]. done. }
  intros E. by rewrite E in Hm.
Qed.
Lemma transact_error {A} (m : txn S Er A) s e s' : transact faulty m s = (Err e, s') → s' = s.
Proof.
  unfold transact. match goal with |- context [match ?x with _ => _ end] => destruct x as [[[a n] s'']|e'] end; by intros [=].
Qed.
End post.

(** Proves a statement about a transaction, given the errors it may end with. *)
Ltac transaction E :=
  match goal with |- context [transact ?f ?m ?s] => pattern (transact f m s) end;
  apply (transact_spec _ _ E); [apply _|by intros e He|].
