(* ===== verification/TaskDependencies.v ===== *)
(** * Task dependencies

    src/server/workflow/task_dependencies.go (the policy) and the store
    operations of src/server/workflowstore/task_dependencies.go, with the
    dependency steps of task creation and deletion (tasks.go). A store
    operation is a transaction: a program over the tables that can stop with an
    error at any query, and whose effects are kept only when it commits. The
    queries do what their SQL says (src/server/metadata/sqlitegen); which of
    them fail is an argument. *)
From Stdlib Require Import ZArith String.
From stdpp Require Import gmap strings list.
From S2P Require Import Prelude Transactions GoStrings Types.

Abbreviation TaskID := string (only parsing).

(** ** The policy *)
Definition MaxTaskDependencies : Z := 50.

Record TaskDependencyTaskFacts := { tf_ID : TaskID; tf_ProjectID : string }.

Inductive TaskDependencyRole := TaskDependencyRoleBlocker | TaskDependencyRoleBlocked.
Record TaskDependencyCreateIntent := { ci_RelatedTaskID : TaskID; ci_NewTaskRole : TaskDependencyRole }.

Record TaskDependencyPairFacts := {
  pf_BlockerTaskID : TaskID; pf_BlockedTaskID : TaskID;
  pf_Blocker : option TaskDependencyTaskFacts; pf_Blocked : option TaskDependencyTaskFacts }.
Record TaskDependencyAttachFacts := {
  af_Pair : TaskDependencyPairFacts; af_ExactPairPresent : bool; af_ReversePairPresent : bool;
  af_BlockerOutgoingCount : Z; af_BlockedIncomingCount : Z }.

Inductive TaskDependencyAttachDecision :=
| TaskDependencyAttachAdded | TaskDependencyAttachAlreadyPresent.

Inductive TaskDependencyPolicyErrorReason :=
| TaskDependencyMissingTask | TaskDependencySelf | TaskDependencyProjectMismatch
| TaskDependencyReciprocal | TaskDependencyBlockerLimit | TaskDependencyBlockedLimit.

Record TaskDependencyPolicyError := {
  pe_Reason : TaskDependencyPolicyErrorReason; pe_BlockerTaskID : TaskID; pe_BlockedTaskID : TaskID;
  pe_MissingTaskID : option TaskID; pe_BlockerProject : option string; pe_BlockedProject : option string;
  pe_CurrentCount : option Z; pe_Limit : option Z }.

Definition policy_error (reason : TaskDependencyPolicyErrorReason) (blocker blocked : TaskID) : TaskDependencyPolicyError := {|
  pe_Reason := reason; pe_BlockerTaskID := blocker; pe_BlockedTaskID := blocked; pe_MissingTaskID := None;
  pe_BlockerProject := None; pe_BlockedProject := None; pe_CurrentCount := None; pe_Limit := None |}.
Definition missing_task (blocker blocked missing : TaskID) : TaskDependencyPolicyError := {|
  pe_Reason := TaskDependencyMissingTask; pe_BlockerTaskID := blocker; pe_BlockedTaskID := blocked;
  pe_MissingTaskID := Some missing; pe_BlockerProject := None; pe_BlockedProject := None;
  pe_CurrentCount := None; pe_Limit := None |}.
Definition limit_error (reason : TaskDependencyPolicyErrorReason) (blocker blocked : TaskID) (count : Z) : TaskDependencyPolicyError := {|
  pe_Reason := reason; pe_BlockerTaskID := blocker; pe_BlockedTaskID := blocked; pe_MissingTaskID := None;
  pe_BlockerProject := None; pe_BlockedProject := None; pe_CurrentCount := Some count; pe_Limit := Some MaxTaskDependencies |}.

(** [None] is the nil error. *)
Definition ValidatePair (facts : TaskDependencyPairFacts) : option TaskDependencyPolicyError :=
  match pf_Blocker facts, pf_Blocked facts with
  | None, _ => Some (missing_task (pf_BlockerTaskID facts) (pf_BlockedTaskID facts) (pf_BlockerTaskID facts))
  | Some _, None => Some (missing_task (pf_BlockerTaskID facts) (pf_BlockedTaskID facts) (pf_BlockedTaskID facts))
  | Some blocker, Some blocked =>
    if tf_ID blocker ==? tf_ID blocked then Some (policy_error TaskDependencySelf (tf_ID blocker) (tf_ID blocked))
    else if tf_ProjectID blocker <>? tf_ProjectID blocked then
      Some {| pe_Reason := TaskDependencyProjectMismatch; pe_BlockerTaskID := tf_ID blocker; pe_BlockedTaskID := tf_ID blocked;
              pe_MissingTaskID := None; pe_BlockerProject := Some (tf_ProjectID blocker);
              pe_BlockedProject := Some (tf_ProjectID blocked); pe_CurrentCount := None; pe_Limit := None |}
    else None
  end.

Inductive TaskDependencyAddAvailability := TaskDependencyAddAvailable (remaining : Z) | TaskDependencyAddLimitReached.

(** The error carries the count. *)
Definition AddAvailability (currentCount : Z) : result Z TaskDependencyAddAvailability :=
  if ((currentCount <? 0) || (MaxTaskDependencies <? currentCount))%Z then Err currentCount
  else if (currentCount =? MaxTaskDependencies)%Z then Ok TaskDependencyAddLimitReached
  else Ok (TaskDependencyAddAvailable (MaxTaskDependencies - currentCount)%Z).

Definition EvaluateAttach (facts : TaskDependencyAttachFacts) : result TaskDependencyPolicyError TaskDependencyAttachDecision :=
  match ValidatePair (af_Pair facts) with
  | Some err => Err err
  | None =>
    let id f := match f with Some t => tf_ID t | None => "" end in
    let blocker := id (pf_Blocker (af_Pair facts)) in
    let blocked := id (pf_Blocked (af_Pair facts)) in
    if af_ExactPairPresent facts then Ok TaskDependencyAttachAlreadyPresent
    else if af_ReversePairPresent facts then Err (policy_error TaskDependencyReciprocal blocker blocked)
    else if (MaxTaskDependencies <=? af_BlockerOutgoingCount facts)%Z then
      Err (limit_error TaskDependencyBlockerLimit blocker blocked (af_BlockerOutgoingCount facts))
    else if (MaxTaskDependencies <=? af_BlockedIncomingCount facts)%Z then
      Err (limit_error TaskDependencyBlockedLimit blocker blocked (af_BlockedIncomingCount facts))
    else Ok TaskDependencyAttachAdded
  end.

(** ** The tables and transactions *)
Record TaskRow := { tr_ProjectID : string; tr_WorkflowID : WorkflowID; tr_ShortID : string; tr_UpdatedAt : Z }.
Record store := { tasks : gmap TaskID TaskRow; dependencies : gset (TaskID * TaskID) }.

(** A program of a transaction over them. *)
Abbreviation tx := (txn store TaskDependencyPolicyError) (only parsing).
Abbreviation dependency_error := (store_error TaskDependencyPolicyError) (only parsing).

Section transactions.
(** Whether the [n]th operation of the transaction fails. *)
Context (faulty : nat → bool).

(** *** Queries *)
Definition GetTask (id : TaskID) : tx (option TaskRow) := select faulty "get task" (λ s, tasks s !! id).
Definition AcquireTaskDependencyWriteLock (id : TaskID) : tx bool :=
  select faulty "lock project" (λ s, bool_decide (is_Some (tasks s !! id))).
Definition GetTaskDependency (blocker blocked : TaskID) : tx bool :=
  select faulty "get dependency" (λ s, (blocker, blocked) ∈? dependencies s).
Definition CountTaskDependenciesByBlocker (id : TaskID) : tx Z :=
  select faulty "count outgoing" (λ s, Z.of_nat (size (filter (λ p, p.1 = id) (dependencies s)))).
Definition CountTaskDependenciesByBlocked (id : TaskID) : tx Z :=
  select faulty "count incoming" (λ s, Z.of_nat (size (filter (λ p, p.2 = id) (dependencies s)))).
(** The primary key refuses a second row, the foreign keys missing tasks. *)
Definition InsertTaskDependency (blocker blocked : TaskID) : tx unit :=
  ok ← query faulty "insert dependency" (λ s,
    if ((blocker, blocked) ∈? dependencies s) || negb (bool_decide (is_Some (tasks s !! blocker)))
       || negb (bool_decide (is_Some (tasks s !! blocked))) then (false, s)
    else (true, {| tasks := tasks s; dependencies := {[(blocker, blocked)]} ∪ dependencies s |}));
  if ok : bool then mret tt else fail (DatabaseError "insert dependency").
(** The number of deleted rows. *)
Definition DeleteTaskDependency (blocker blocked : TaskID) : tx nat :=
  query faulty "delete dependency" (λ s,
    (if (blocker, blocked) ∈? dependencies s then 1 else 0,
     {| tasks := tasks s; dependencies := dependencies s ∖ {[(blocker, blocked)]} |})).
Definition set_updated (f : Z → Z) (row : TaskRow) : TaskRow := {|
  tr_ProjectID := tr_ProjectID row; tr_WorkflowID := tr_WorkflowID row; tr_ShortID := tr_ShortID row;
  tr_UpdatedAt := f (tr_UpdatedAt row) |}.
(** An update of the rows with the given ids; the number of updated rows. *)
Definition update_times (operation : string) (f : Z → Z) (ids : gset TaskID) : tx nat :=
  query faulty operation (λ s,
    (size (filter (λ kv, kv.1 ∈ ids) (tasks s)),
     {| tasks := map_imap (λ id row, Some (if id ∈? ids then set_updated f row else row)) (tasks s);
        dependencies := dependencies s |})).

Definition advanceTaskUpdatedAt (id : TaskID) (now : Z) : tx unit :=
  updated ← update_times "advance task timestamp" (λ old, Z.max (old + 1) now) {[id]};
  if updated <>? 1 then fail NoRows else mret tt.
Definition touchTaskUpdatedAt (id : TaskID) (now : Z) : tx unit :=
  updated ← update_times "update task timestamp" (λ _, now) {[id]};
  if updated <>? 1 then fail NoRows else mret tt.

(** *** Operations *)
Definition facts_of (id : TaskID) (row : option TaskRow) : option TaskDependencyTaskFacts :=
  (λ row, {| tf_ID := id; tf_ProjectID := tr_ProjectID row |}) <$> row.

Definition loadTaskDependencyAttachFacts (blocker blocked : TaskID) : tx TaskDependencyAttachFacts :=
  blockerRow ← GetTask blocker;
  blockedRow ← GetTask blocked;
  exact ← GetTaskDependency blocker blocked;
  reverse ← GetTaskDependency blocked blocker;
  outgoing ← CountTaskDependenciesByBlocker blocker;
  incoming ← CountTaskDependenciesByBlocked blocked;
  mret {| af_Pair := {| pf_BlockerTaskID := blocker; pf_BlockedTaskID := blocked;
                        pf_Blocker := facts_of blocker blockerRow; pf_Blocked := facts_of blocked blockedRow |};
          af_ExactPairPresent := exact; af_ReversePairPresent := reverse;
          af_BlockerOutgoingCount := outgoing; af_BlockedIncomingCount := incoming |}.

Definition attachTaskDependencyWithQueries (blocker blocked : TaskID) : tx TaskDependencyAttachDecision :=
  facts ← loadTaskDependencyAttachFacts blocker blocked;
  match EvaluateAttach facts with
  | Err e => fail (PolicyError e)
  | Ok TaskDependencyAttachAlreadyPresent => mret TaskDependencyAttachAlreadyPresent
  | Ok TaskDependencyAttachAdded =>
    _ ← InsertTaskDependency blocker blocked; mret TaskDependencyAttachAdded
  end.

Record dependency_identity := {
  di_BlockerShortID : string; di_BlockedShortID : string; di_ProjectID : string; di_WorkflowID : WorkflowID }.

Definition populateTaskDependencyIdentity (blocker blocked : TaskID) : tx dependency_identity :=
  blockerRow ← GetTask blocker;
  match blockerRow with
  | None => fail NoRows
  | Some a =>
    blockedRow ← GetTask blocked;
    match blockedRow with
    | None => fail NoRows
    | Some b => mret {| di_BlockerShortID := tr_ShortID a; di_BlockedShortID := tr_ShortID b;
                        di_ProjectID := tr_ProjectID a; di_WorkflowID := tr_WorkflowID a |}
    end
  end.

(** The facts of a pair whose blocker is missing. *)
Definition unknown_pair (blocker blocked : TaskID) : TaskDependencyPairFacts := {|
  pf_BlockerTaskID := blocker; pf_BlockedTaskID := blocked; pf_Blocker := None; pf_Blocked := None |}.

Definition AddTaskDependency (now : Z) (blocker blocked : TaskID) (s : store)
    : result dependency_error (TaskDependencyAttachDecision * dependency_identity) * store :=
  transact faulty (
    locked ← AcquireTaskDependencyWriteLock blocker;
    if negb locked then
      match EvaluateAttach {| af_Pair := unknown_pair blocker blocked; af_ExactPairPresent := false;
              af_ReversePairPresent := false; af_BlockerOutgoingCount := 0; af_BlockedIncomingCount := 0 |} with
      | Err e => fail (PolicyError e)
      | Ok _ => fail NoRows
      end
    else
      decision ← attachTaskDependencyWithQueries blocker blocked;
      identity ← populateTaskDependencyIdentity blocker blocked;
      match decision with
      | TaskDependencyAttachAlreadyPresent => mret (decision, identity)
      | TaskDependencyAttachAdded =>
        _ ← advanceTaskUpdatedAt blocker now;
        _ ← advanceTaskUpdatedAt blocked now;
        mret (decision, identity)
      end) s.

Inductive TaskDependencyRemoval := TaskDependencyRemoved | TaskDependencyAlreadyAbsent.

Definition RemoveTaskDependency (now : Z) (blocker blocked : TaskID) (s : store)
    : result dependency_error (TaskDependencyRemoval * dependency_identity) * store :=
  transact faulty (
    locked ← AcquireTaskDependencyWriteLock blocker;
    if negb locked then
      match ValidatePair (unknown_pair blocker blocked) with
      | Some e => fail (PolicyError e)
      | None => fail NoRows
      end
    else
      facts ← loadTaskDependencyAttachFacts blocker blocked;
      match ValidatePair (af_Pair facts) with
      | Some e => fail (PolicyError e)
      | None =>
        removed ← DeleteTaskDependency blocker blocked;
        identity ← populateTaskDependencyIdentity blocker blocked;
        if removed ==? 1 then
          _ ← advanceTaskUpdatedAt blocker now;
          _ ← advanceTaskUpdatedAt blocked now;
          mret (TaskDependencyRemoved, identity)
        else mret (TaskDependencyAlreadyAbsent, identity)
      end) s.

(** The dependency steps of [createTaskWithQueries], after the task's row. *)
Definition intent_pair (taskID : TaskID) (intent : TaskDependencyCreateIntent) : TaskID * TaskID :=
  match ci_NewTaskRole intent with
  | TaskDependencyRoleBlocked => (ci_RelatedTaskID intent, taskID)
  | TaskDependencyRoleBlocker => (taskID, ci_RelatedTaskID intent)
  end.
Definition attach_intent (taskID : TaskID) (now : Z) (intent : TaskDependencyCreateIntent) : tx unit :=
  let '(blocker, blocked) := intent_pair taskID intent in
  decision ← attachTaskDependencyWithQueries blocker blocked;
  match decision with
  | TaskDependencyAttachAlreadyPresent => mret tt
  | TaskDependencyAttachAdded =>
    _ ← touchTaskUpdatedAt blocker now; touchTaskUpdatedAt blocked now
  end.
Fixpoint attach_intents (taskID : TaskID) (now : Z) (intents : list TaskDependencyCreateIntent) : tx unit :=
  match intents with
  | [] => mret tt
  | intent :: rest => _ ← attach_intent taskID now intent; attach_intents taskID now rest
  end.

(** [CreateTask] from the insertion of the task's row on. *)
Definition InsertTask (taskID : TaskID) (row : TaskRow) : tx unit :=
  ok ← query faulty "insert task" (λ s,
    if bool_decide (is_Some (tasks s !! taskID)) then (false, s)
    else (true, {| tasks := <[taskID := row]> (tasks s); dependencies := dependencies s |}));
  if ok : bool then mret tt else fail (DatabaseError "insert task").
Definition createTask (taskID : TaskID) (row : TaskRow) (intents : list TaskDependencyCreateIntent) (s : store)
    : result dependency_error unit * store :=
  transact faulty (
    _ ← statements faulty ["workflow link"; "source workspace"; "definition"; "labels"; "task sequence"; "workspace snapshot"];
    _ ← InsertTask taskID row;
    _ ← statements faulty ["insert current node"; "insert labels"];
    attach_intents taskID (tr_UpdatedAt row) intents) s.

(** [DeleteTask]. The neighbors are the first hundred by name. *)
Definition neighbor_set (id : TaskID) (dependencies : gset (TaskID * TaskID)) : gset TaskID :=
  set_map snd (filter (λ p, p.1 = id) dependencies) ∪
  set_map fst (filter (λ p, p.1 ≠ id ∧ p.2 = id) dependencies).
Definition ListTaskDependencyNeighborIDs (id : TaskID) : tx (list TaskID) :=
  select faulty "list neighbors" (λ s, take 100 (sort_strings (elements (neighbor_set id (dependencies s))))).
Definition remove_task (id : TaskID) (dependencies : gset (TaskID * TaskID)) : gset (TaskID * TaskID) :=
  filter (λ p, p.1 ≠ id ∧ p.2 ≠ id) dependencies.
Definition DeleteTaskDependenciesByTask (id : TaskID) : tx unit :=
  query faulty "delete dependencies" (λ s, (tt, {| tasks := tasks s; dependencies := remove_task id (dependencies s) |})).
(** The number of deleted rows; the foreign keys cascade. *)
Definition DeleteTaskRow (id : TaskID) : tx nat :=
  query faulty "delete task" (λ s,
    (if bool_decide (is_Some (tasks s !! id)) then 1 else 0,
     {| tasks := delete id (tasks s); dependencies := remove_task id (dependencies s) |})).
Definition DeleteTask (now : Z) (id : TaskID) (s : store) : result dependency_error TaskRow * store :=
  transact faulty (
    row ← GetTask id;
    match row with
    | None => fail NoRows
    | Some row =>
      _ ← statements faulty ["task record"];
      locked ← AcquireTaskDependencyWriteLock id;
      if negb locked then fail NoRows else
      ids ← ListTaskDependencyNeighborIDs id;
      _ ← DeleteTaskDependenciesByTask id;
      _ ← (if bool_decide (0 < length ids) then
             touched ← update_times "touch neighbors" (λ old, Z.max (old + 1) now) (list_to_set ids);
             if touched <>? length ids then fail (DatabaseError "touch neighbors") else mret tt
           else mret tt);
      _ ← statements faulty ["attention"; "approvals"; "labels"; "current nodes"; "active fan-out"; "comments"];
      deleted ← DeleteTaskRow id;
      if deleted <>? 1 then fail NoRows else mret row
    end) s.
End transactions.
