(* ===== verification/TaskDependencyFacts.v ===== *)
(** * Facts about the task dependency store

    The effect of each query and operation, and the invariant of the two
    tables. *)
From Stdlib Require Import ZArith String Sorting.Permutation.
From stdpp Require Import gmap strings list sorting.
From S2P Require Import Prelude Transactions GoStrings Types TaskDependencies.

Local Open Scope Z_scope.

(** ** The tables *)
Definition outgoing (id : TaskID) (d : gset (TaskID * TaskID)) : gset (TaskID * TaskID) := filter (λ p, p.1 = id) d.
Definition incoming (id : TaskID) (d : gset (TaskID * TaskID)) : gset (TaskID * TaskID) := filter (λ p, p.2 = id) d.

(** Rows of [ids] with their times changed. *)
Definition retime (f : Z → Z) (ids : gset TaskID) (rows : gmap TaskID TaskRow) : gmap TaskID TaskRow :=
  map_imap (λ id row, Some (if id ∈? ids then set_updated f row else row)) rows.

Lemma lookup_retime f ids rows k :
  retime f ids rows !! k = (λ row, if k ∈? ids then set_updated f row else row) <$> rows !! k.
Proof. unfold retime. rewrite map_lookup_imap. by destruct (rows !! k). Qed.

Lemma retime_project f ids rows k :
  tr_ProjectID <$> retime f ids rows !! k = tr_ProjectID <$> rows !! k.
Proof. rewrite lookup_retime. destruct (rows !! k); simpl; [|done]. by case_match. Qed.

Lemma retime_is_Some f ids rows k : is_Some (retime f ids rows !! k) ↔ is_Some (rows !! k).
Proof. by rewrite lookup_retime, fmap_is_Some. Qed.

(** Every id of a set of tasks is counted once. *)
Lemma size_filter_ids (ids : gset TaskID) (rows : gmap TaskID TaskRow) :
  ids ⊆ dom rows → size (filter (λ kv, kv.1 ∈ ids) rows) = size ids.
Proof.
  intros H. rewrite <- size_dom. f_equal. apply set_eq. intros x. rewrite elem_of_dom. split.
  - intros [row [_ Hx]%map_lookup_filter_Some]. done.
  - intros Hx. destruct (proj1 (elem_of_dom rows x) (H _ Hx)) as [row Hr].
    exists row. by apply map_lookup_filter_Some.
Qed.
Lemma size_filter_id id (rows : gmap TaskID TaskRow) :
  is_Some (rows !! id) → size (filter (λ kv, kv.1 ∈ ({[id]} : gset TaskID)) rows) = 1%nat.
Proof. intros H. rewrite size_filter_ids; [apply size_singleton|]. apply singleton_subseteq_l. by apply elem_of_dom. Qed.

(** ** The rules *)

(** Both tasks exist, are different and belong to one project. *)
Definition pair_ok (s : store) (blocker blocked : TaskID) : Prop :=
  ∃ a b, tasks s !! blocker = Some a ∧ tasks s !! blocked = Some b ∧ blocker ≠ blocked ∧ tr_ProjectID a = tr_ProjectID b.

(** The dependency may be added. *)
Definition admissible (s : store) (blocker blocked : TaskID) : Prop :=
  pair_ok s blocker blocked ∧ ((blocker, blocked) ∉ dependencies s) ∧ ((blocked, blocker) ∉ dependencies s) ∧
  Z.of_nat (size (outgoing blocker (dependencies s))) < MaxTaskDependencies ∧
  Z.of_nat (size (incoming blocked (dependencies s))) < MaxTaskDependencies.

(** The error names the first rule the dependency breaks, and the tasks,
    projects and counts that break it. *)
Definition violated (s : store) (blocker blocked : TaskID) (e : TaskDependencyPolicyError) : Prop :=
  match pe_Reason e with
  | TaskDependencyMissingTask => ∃ missing, e = missing_task blocker blocked missing ∧ tasks s !! missing = None ∧
      (missing = blocker ∨ missing = blocked ∧ is_Some (tasks s !! blocker))
  | TaskDependencySelf => e = policy_error TaskDependencySelf blocker blocked ∧ blocker = blocked ∧ is_Some (tasks s !! blocker)
  | TaskDependencyProjectMismatch => ∃ a b, tasks s !! blocker = Some a ∧ tasks s !! blocked = Some b ∧
      blocker ≠ blocked ∧ tr_ProjectID a ≠ tr_ProjectID b ∧ pe_BlockerTaskID e = blocker ∧ pe_BlockedTaskID e = blocked ∧
      pe_BlockerProject e = Some (tr_ProjectID a) ∧ pe_BlockedProject e = Some (tr_ProjectID b)
  | TaskDependencyReciprocal => e = policy_error TaskDependencyReciprocal blocker blocked ∧ pair_ok s blocker blocked ∧
      ((blocker, blocked) ∉ dependencies s) ∧ (blocked, blocker) ∈ dependencies s
  | TaskDependencyBlockerLimit =>
      let count := Z.of_nat (size (outgoing blocker (dependencies s))) in
      e = limit_error TaskDependencyBlockerLimit blocker blocked count ∧ pair_ok s blocker blocked ∧
      ((blocker, blocked) ∉ dependencies s) ∧ ((blocked, blocker) ∉ dependencies s) ∧ MaxTaskDependencies <= count
  | TaskDependencyBlockedLimit =>
      let count := Z.of_nat (size (incoming blocked (dependencies s))) in
      e = limit_error TaskDependencyBlockedLimit blocker blocked count ∧ pair_ok s blocker blocked ∧
      ((blocker, blocked) ∉ dependencies s) ∧ ((blocked, blocker) ∉ dependencies s) ∧
      Z.of_nat (size (outgoing blocker (dependencies s))) < MaxTaskDependencies ∧ MaxTaskDependencies <= count
  end.

(** The rules about the pair alone. *)
Definition violated_pair (s : store) (blocker blocked : TaskID) (e : TaskDependencyPolicyError) : Prop :=
  violated s blocker blocked e ∧
  (pe_Reason e = TaskDependencyMissingTask ∨ pe_Reason e = TaskDependencySelf ∨ pe_Reason e = TaskDependencyProjectMismatch).

Lemma violated_inadmissible s blocker blocked e : violated s blocker blocked e → ¬ admissible s blocker blocked.
Proof.
  intros Hv ((a & b & Ha & Hb & Hne & Hp) & Hn & Hr & Ho & Hi). unfold violated in Hv.
  destruct (pe_Reason e); naive_solver lia.
Qed.
Lemma violated_pair_not_ok s blocker blocked e : violated_pair s blocker blocked e → ¬ pair_ok s blocker blocked.
Proof.
  intros [Hv Hr] (a & b & Ha & Hb & Hne & Hp). unfold violated in Hv.
  destruct Hr as [Hr|[Hr|Hr]]; rewrite Hr in Hv; naive_solver.
Qed.

(** What the queries of [loadTaskDependencyAttachFacts] find. *)
Definition facts_in (s : store) (blocker blocked : TaskID) : TaskDependencyAttachFacts := {|
  af_Pair := {| pf_BlockerTaskID := blocker; pf_BlockedTaskID := blocked;
                pf_Blocker := facts_of blocker (tasks s !! blocker); pf_Blocked := facts_of blocked (tasks s !! blocked) |};
  af_ExactPairPresent := (blocker, blocked) ∈? dependencies s;
  af_ReversePairPresent := (blocked, blocker) ∈? dependencies s;
  af_BlockerOutgoingCount := Z.of_nat (size (outgoing blocker (dependencies s)));
  af_BlockedIncomingCount := Z.of_nat (size (incoming blocked (dependencies s))) |}.

Lemma ValidatePair_in s blocker blocked :
  match ValidatePair (af_Pair (facts_in s blocker blocked)) with
  | Some e => violated_pair s blocker blocked e
  | None => pair_ok s blocker blocked
  end.
Proof.
  unfold ValidatePair, facts_in, violated_pair, violated, pair_ok; cbn.
  destruct (tasks s !! blocker) as [a|] eqn:Ha; cbn; [|naive_solver].
  destruct (tasks s !! blocked) as [b|] eqn:Hb; cbn; [|naive_solver].
  destruct (bool_decide_reflect (blocker = blocked)); cbn; [naive_solver|].
  destruct (bool_decide_reflect (tr_ProjectID a = tr_ProjectID b)); cbn; [naive_solver|].
  split; [|auto]. exists a, b. naive_solver.
Qed.

Lemma EvaluateAttach_in s blocker blocked :
  match EvaluateAttach (facts_in s blocker blocked) with
  | Err e => violated s blocker blocked e
  | Ok TaskDependencyAttachAlreadyPresent => pair_ok s blocker blocked ∧ (blocker, blocked) ∈ dependencies s
  | Ok TaskDependencyAttachAdded => admissible s blocker blocked
  end.
Proof.
  unfold EvaluateAttach. pose proof (ValidatePair_in s blocker blocked) as H.
  destruct (ValidatePair _) as [e|]; [apply H|]. pose proof H as (a & b & Ha & Hb & _).
  unfold facts_in, admissible; cbn. rewrite Ha, Hb; cbn.
  destruct (bool_decide_reflect ((blocker, blocked) ∈ dependencies s)); cbn; [done|].
  destruct (bool_decide_reflect ((blocked, blocker) ∈ dependencies s)); cbn; [done|].
  destruct (Z.leb_spec MaxTaskDependencies (Z.of_nat (size (outgoing blocker (dependencies s))))); [done|].
  destruct (Z.leb_spec MaxTaskDependencies (Z.of_nat (size (incoming blocked (dependencies s))))); done.
Qed.

(** ** The operations *)
Definition add_pair (blocker blocked : TaskID) (s : store) : store :=
  {| tasks := tasks s; dependencies := {[(blocker, blocked)]} ∪ dependencies s |}.
Definition with_times (f : Z → Z) (ids : gset TaskID) (s : store) : store :=
  {| tasks := retime f ids (tasks s); dependencies := dependencies s |}.
Definition advance (now old : Z) : Z := Z.max (old + 1) now.

Section operations.
Context (faulty : nat → bool) (E : dependency_error → Prop) `{!Faults faulty E}.
Implicit Types (s : store) (blocker blocked id : TaskID).

Ltac step := apply runs_bind; (apply runs_select || apply runs_query); [done|]; cbn beta.

Lemma runs_load s blocker blocked Q :
  Q (facts_in s blocker blocked) s → runs (loadTaskDependencyAttachFacts faulty blocker blocked) s E Q.
Proof. intros H. unfold loadTaskDependencyAttachFacts. do 6 step. by apply runs_ret. Qed.

Lemma runs_attach s blocker blocked Q :
  (∀ e, violated s blocker blocked e → E (PolicyError e)) →
  (pair_ok s blocker blocked → (blocker, blocked) ∈ dependencies s → Q TaskDependencyAttachAlreadyPresent s) →
  (admissible s blocker blocked → Q TaskDependencyAttachAdded (add_pair blocker blocked s)) →
  runs (attachTaskDependencyWithQueries faulty blocker blocked) s E Q.
Proof.
  intros HE Hp Ha. apply runs_bind, runs_load. pose proof (EvaluateAttach_in s blocker blocked) as H.
  destruct (EvaluateAttach _) as [[]|e]; [|by apply runs_ret, Hp; destruct H|by apply runs_fail, HE].
  specialize (Ha H). destruct H as ((a & b & HA & HB & _) & Hn & _).
  apply runs_bind, runs_bind, runs_query; [done|]. rewrite HA, HB.
  rewrite (bool_decide_eq_false_2 _ Hn), !bool_decide_eq_true_2 by done. by apply runs_ret, runs_ret.
Qed.

Lemma runs_identity s blocker blocked Q a b :
  tasks s !! blocker = Some a → tasks s !! blocked = Some b →
  Q {| di_BlockerShortID := tr_ShortID a; di_BlockedShortID := tr_ShortID b;
       di_ProjectID := tr_ProjectID a; di_WorkflowID := tr_WorkflowID a |} s →
  runs (populateTaskDependencyIdentity faulty blocker blocked) s E Q.
Proof.
  intros Ha Hb H. unfold populateTaskDependencyIdentity. step. rewrite Ha. step. rewrite Hb. by apply runs_ret.
Qed.

Lemma runs_update operation f s id Q :
  is_Some (tasks s !! id) → Q tt (with_times f {[id]} s) →
  runs (updated ← update_times faulty operation f {[id]}; if updated <>? 1%nat then fail NoRows else mret tt) s E Q.
Proof.
  intros Hs H. apply runs_bind, runs_query; [done|]. cbn [fst snd].
  rewrite size_filter_id by done. by apply runs_ret.
Qed.
End operations.

(** Advancing two different rows one after the other. *)
Lemma with_times_two f s a b :
  a ≠ b → with_times f {[b]} (with_times f {[a]} s) = with_times f {[a; b]} s.
Proof.
  intros Hab. unfold with_times; cbn. f_equal. apply map_eq. intros k. rewrite !lookup_retime.
  destruct (tasks s !! k); cbn; [|done]. f_equal.
  repeat case_bool_decide; set_solver.
Qed.

(** ** The store's operations *)

(** The errors of a mutation of the pair: a failing database, or a rule of
    [rule] it breaks. *)
Definition refused (faulty : nat → bool) (rule : TaskDependencyPolicyError → Prop) (e : dependency_error) : Prop :=
  match e with
  | DatabaseError _ => ∃ n, faulty n = true
  | PolicyError e => rule e
  | NoRows => False
  end.
#[export] Instance refused_faults faulty rule : Faults faulty (refused faulty rule).
Proof. intros operation n H. by exists n. Qed.

Definition identity_of (s : store) (blocker blocked : TaskID) (identity : dependency_identity) : Prop :=
  ∃ a b, tasks s !! blocker = Some a ∧ tasks s !! blocked = Some b ∧
    identity = {| di_BlockerShortID := tr_ShortID a; di_BlockedShortID := tr_ShortID b;
                  di_ProjectID := tr_ProjectID a; di_WorkflowID := tr_WorkflowID a |}.

Section store_operations.
Context (faulty : nat → bool).
Implicit Types (s : store) (blocker blocked id : TaskID).

(** Two existing different rows are advanced. *)
Lemma runs_advance_two {A} (a : A) now s blocker blocked E `{!Faults faulty E} Q :
  pair_ok s blocker blocked →
  Q a (with_times (advance now) {[blocker; blocked]} s) →
  runs (_ ← advanceTaskUpdatedAt faulty blocker now; _ ← advanceTaskUpdatedAt faulty blocked now; mret a) s E Q.
Proof.
  intros (ra & rb & Ha & Hb & Hne & _) H.
  apply runs_bind, runs_update; [done|by rewrite Ha|].
  apply runs_bind, runs_update; [done|apply retime_is_Some; by rewrite Hb|].
  apply runs_ret. by rewrite <- with_times_two in H.
Qed.

Lemma add_spec now blocker blocked s :
  match AddTaskDependency faulty now blocker blocked s with
  | (Ok (TaskDependencyAttachAdded, identity), s') =>
      admissible s blocker blocked ∧ identity_of s blocker blocked identity ∧
      s' = with_times (advance now) {[blocker; blocked]} (add_pair blocker blocked s)
  | (Ok (TaskDependencyAttachAlreadyPresent, identity), s') =>
      pair_ok s blocker blocked ∧ (blocker, blocked) ∈ dependencies s ∧ identity_of s blocker blocked identity ∧ s' = s
  | (Err e, s') => refused faulty (violated s blocker blocked) e ∧ s' = s
  end.
Proof.
  unfold AddTaskDependency.
  transaction (refused faulty (violated s blocker blocked)).
  apply runs_bind, runs_select; [apply _|].
    destruct (tasks s !! blocker) as [a|] eqn:Ha; cbn.
    2: { apply runs_fail. cbn. naive_solver. }
    apply runs_bind, runs_attach; [apply _|done| |].
    - intros Hok Hin. pose proof Hok as (a' & b & Ha' & Hb & _).
      apply runs_bind; eapply runs_identity; [apply _|done|done|]. apply runs_ret.
      split_and!; [done|done|by exists a', b|done].
    - intros Hok. pose proof Hok as [Hp _]. pose proof Hp as (a' & b & Ha' & Hb & _).
      apply runs_bind; eapply runs_identity; [apply _|done|done|].
      apply runs_advance_two; [apply _|done|]. split_and!; [done|by exists a', b|done].
Qed.

Lemma remove_spec now blocker blocked s :
  match RemoveTaskDependency faulty now blocker blocked s with
  | (Ok (TaskDependencyRemoved, identity), s') =>
      pair_ok s blocker blocked ∧ (blocker, blocked) ∈ dependencies s ∧ identity_of s blocker blocked identity ∧
      s' = with_times (advance now) {[blocker; blocked]}
             {| tasks := tasks s; dependencies := dependencies s ∖ {[(blocker, blocked)]} |}
  | (Ok (TaskDependencyAlreadyAbsent, identity), s') =>
      pair_ok s blocker blocked ∧ ((blocker, blocked) ∉ dependencies s) ∧ identity_of s blocker blocked identity ∧ s' = s
  | (Err e, s') => refused faulty (violated_pair s blocker blocked) e ∧ s' = s
  end.
Proof.
  unfold RemoveTaskDependency.
  transaction (refused faulty (violated_pair s blocker blocked)).
  apply runs_bind, runs_select; [apply _|].
    destruct (tasks s !! blocker) as [a|] eqn:Ha; cbn.
    2: { apply runs_fail. cbn. unfold violated_pair; cbn. naive_solver. }
    apply runs_bind, runs_load; [apply _|].
    pose proof (ValidatePair_in s blocker blocked) as Hok.
    destruct (ValidatePair _) as [e|]; [by apply runs_fail|].
    pose proof Hok as (a' & b & Ha' & Hb & _).
    apply runs_bind, runs_query; [apply _|]. cbn [fst snd].
    apply runs_bind; eapply runs_identity; [apply _|done|done|].
    destruct (bool_decide_reflect ((blocker, blocked) ∈ dependencies s)) as [Hin|Hin]; cbn.
    - apply runs_advance_two; [apply _|done|]. split_and!; [done|done|by exists a', b|done].
    - apply runs_ret. split_and!; [done|done|by exists a', b|].
      destruct s as [ts ds]; cbn in *. f_equal. set_solver.
Qed.
End store_operations.

(** ** The invariant *)

(** Every stored dependency is between two different tasks of one project and
    has no reverse copy; no task has more than the maximum of either side. *)
Definition deps_inv (s : store) : Prop :=
  (∀ blocker blocked, (blocker, blocked) ∈ dependencies s →
    pair_ok s blocker blocked ∧ ((blocked, blocker) ∉ dependencies s)) ∧
  (∀ id, Z.of_nat (size (outgoing id (dependencies s))) <= MaxTaskDependencies ∧
         Z.of_nat (size (incoming id (dependencies s))) <= MaxTaskDependencies).

(** [s'] has the tasks of [s], up to their times, and maybe others. *)
Definition keeps_tasks (s s' : store) : Prop :=
  ∀ k row, tasks s !! k = Some row → ∃ row', tasks s' !! k = Some row' ∧ tr_ProjectID row' = tr_ProjectID row.

Lemma keeps_tasks_times f ids s : keeps_tasks s (with_times f ids s).
Proof.
  intros k row Hk. unfold with_times; cbn. rewrite lookup_retime, Hk. cbn. eexists; split; [done|].
  by case_bool_decide.
Qed.
Lemma pair_ok_keeps s s' blocker blocked : keeps_tasks s s' → pair_ok s blocker blocked → pair_ok s' blocker blocked.
Proof.
  intros H (a & b & Ha & Hb & Hne & Hp). destruct (H _ _ Ha) as (a' & Ha' & ?), (H _ _ Hb) as (b' & Hb' & ?).
  exists a', b'. split_and!; congruence.
Qed.

Lemma size_filter_subseteq (P : TaskID * TaskID → Prop) `{!∀ p, Decision (P p)} (d d' : gset (TaskID * TaskID)) :
  d ⊆ d' → (size (filter P d) ≤ size (filter P d'))%nat.
Proof. intros Hd. apply subseteq_size. set_solver. Qed.

Lemma deps_inv_shrink s s' :
  keeps_tasks s s' → dependencies s' ⊆ dependencies s → deps_inv s → deps_inv s'.
Proof.
  intros Hk Hd [Hp Hc]. split.
  - intros a b Hin. destruct (Hp a b) as [Hok Hr]; [by apply Hd|].
    split; [by eapply pair_ok_keeps|]. intros Hin'. by apply Hr, Hd.
  - intros id. destruct (Hc id) as [Ho Hi]. unfold outgoing, incoming.
    pose proof (size_filter_subseteq (λ p, p.1 = id) _ _ Hd).
    pose proof (size_filter_subseteq (λ p, p.2 = id) _ _ Hd).
    unfold outgoing, incoming in Ho, Hi. split; lia.
Qed.

Lemma size_filter_add (P : TaskID * TaskID → Prop) `{!∀ p, Decision (P p)} (p : TaskID * TaskID) (d : gset (TaskID * TaskID)) :
  (size (filter P ({[p]} ∪ d)) ≤ if decide (P p) then S (size (filter P d)) else size (filter P d))%nat.
Proof.
  destruct (decide (P p)).
  - transitivity (size ({[p]} ∪ filter P d : gset (TaskID * TaskID))); [apply subseteq_size; set_solver|].
    rewrite size_union_alt, size_singleton.
    assert (size (filter P d ∖ {[p]}) ≤ size (filter P d))%nat by (apply subseteq_size; set_solver). lia.
  - apply subseteq_size. set_solver.
Qed.

Lemma deps_inv_add s blocker blocked : admissible s blocker blocked → deps_inv s → deps_inv (add_pair blocker blocked s).
Proof.
  intros (Hok & Hn & Hr & Ho & Hi) [Hp Hc]. split.
  - intros a b Hin. assert (keeps_tasks s (add_pair blocker blocked s)) as Hk by (intros k row Hk; by exists row).
    unfold add_pair in *; cbn in *.
    apply elem_of_union in Hin as [Heq%elem_of_singleton|Hin].
    + injection Heq as -> ->. split; [by eapply pair_ok_keeps|].
      intros [Heq%elem_of_singleton|?]%elem_of_union; [|done].
      destruct Hok as (? & ? & ? & ? & Hne & _). congruence.
    + destruct (Hp _ _ Hin) as [Hok' Hr']. split; [by eapply pair_ok_keeps|].
      intros [Heq%elem_of_singleton|?]%elem_of_union; [|done]. congruence.
  - intros id. destruct (Hc id) as [Ho' Hi']. unfold add_pair, outgoing, incoming in *; cbn in *.
    pose proof (size_filter_add (λ p, p.1 = id) (blocker, blocked) (dependencies s)) as H1.
    pose proof (size_filter_add (λ p, p.2 = id) (blocker, blocked) (dependencies s)) as H2. cbn in H1, H2.
    destruct (decide (blocker = id)), (decide (blocked = id)); subst; lia.
Qed.

Lemma deps_inv_times f ids s : deps_inv s → deps_inv (with_times f ids s).
Proof. intros H. eapply deps_inv_shrink; [apply keeps_tasks_times|done|done]. Qed.

Lemma deps_inv_delete id s :
  deps_inv s → deps_inv {| tasks := delete id (tasks s); dependencies := remove_task id (dependencies s) |}.
Proof.
  intros [Hp Hc]. split; cbn.
  - intros a b [[Ha Hb] Hin]%elem_of_filter. cbn in *. destruct (Hp _ _ Hin) as [(ra & rb & Hra & Hrb & Hrest) Hr].
    split; [exists ra, rb; cbn; by rewrite !lookup_delete_ne|]. by intros [_ ?]%elem_of_filter.
  - intros i. destruct (Hc i) as [Ho Hi].
    assert (remove_task id (dependencies s) ⊆ dependencies s) as Hs by (unfold remove_task; set_solver).
    pose proof (size_filter_subseteq (λ p, p.1 = i) _ _ Hs).
    pose proof (size_filter_subseteq (λ p, p.2 = i) _ _ Hs).
    unfold outgoing, incoming in *. lia.
Qed.

(** ** Task creation *)

(** The tasks of the pairs that are not stored yet. *)
Definition touched (d : gset (TaskID * TaskID)) (pairs : list (TaskID * TaskID)) : gset TaskID :=
  list_to_set (filter (λ p, p ∉ d) pairs ≫= λ p, [p.1; p.2]).

(** The tables after the dependencies of some intents are attached. *)
Definition attached (taskID : TaskID) (now : Z) (s : store) (intents : list TaskDependencyCreateIntent) : store :=
  let pairs := intent_pair taskID <$> intents in
  {| tasks := retime (λ _, now) (touched (dependencies s) pairs) (tasks s);
     dependencies := dependencies s ∪ list_to_set pairs |}.

Lemma elem_of_touched d pairs k : k ∈ touched d pairs ↔ ∃ p, p ∈ pairs ∧ (p ∉ d) ∧ (k = p.1 ∨ k = p.2).
Proof.
  unfold touched. rewrite elem_of_list_to_set, list_elem_of_bind.
  setoid_rewrite list_elem_of_filter. split.
  - intros (p & Hk & Hp & Hin). exists p. set_solver.
  - intros (p & Hin & Hp & Hk). exists p. set_solver.
Qed.

Lemma retime_const now ids ids' rows :
  retime (λ _, now) ids' (retime (λ _, now) ids rows) = retime (λ _, now) (ids ∪ ids') rows.
Proof.
  apply map_eq. intros k. rewrite !lookup_retime. destruct (rows !! k) as [row|]; cbn; [|done]. f_equal.
  repeat case_bool_decide; try set_solver; done.
Qed.
Lemma retime_empty f rows : retime f ∅ rows = rows.
Proof. apply map_eq. intros k. rewrite lookup_retime. by destruct (rows !! k). Qed.

Lemma attached_nil taskID now s : attached taskID now s [] = s.
Proof. destruct s as [ts ds]. unfold attached; cbn. rewrite retime_empty. f_equal. set_solver. Qed.

Lemma attached_present taskID now s intents intent :
  intent_pair taskID intent ∈ dependencies (attached taskID now s intents) →
  attached taskID now s (intents ++ [intent]) = attached taskID now s intents.
Proof.
  unfold attached; cbn. intros Hin. rewrite fmap_app; cbn. f_equal; [f_equal|set_solver].
  apply set_eq. intros k. rewrite !elem_of_touched. apply elem_of_union in Hin. rewrite elem_of_list_to_set in Hin.
  split; intros (p & Hp & Hn & Hk); exists p; (split; [|done]); [|set_solver].
  apply elem_of_app in Hp as [Hp| ->%list_elem_of_singleton]; [done|]. by destruct Hin.
Qed.

Lemma attached_added taskID now s intents intent :
  (intent_pair taskID intent ∉ dependencies (attached taskID now s intents)) →
  attached taskID now s (intents ++ [intent]) =
  let p := intent_pair taskID intent in
  with_times (λ _, now) {[p.1; p.2]} (add_pair p.1 p.2 (attached taskID now s intents)).
Proof.
  unfold attached, with_times, add_pair; cbn. intros Hin. rewrite fmap_app, retime_const; cbn.
  destruct (intent_pair taskID intent) as [a b]; cbn in *. f_equal; [f_equal|set_solver].
  apply set_eq. intros k. rewrite elem_of_union, !elem_of_touched. split.
  - intros (p & [Hp| ->%list_elem_of_singleton]%elem_of_app & Hn & Hk); [left; by exists p|set_solver].
  - intros [(p & Hp & Hn & Hk)|Hk]; [exists p; set_solver|]. exists (a, b). set_solver.
Qed.

(** The errors of attaching intents: a failing database, or an intent that
    breaks a rule after those before it. *)
Definition intents_refused (faulty : nat → bool) taskID now s intents : dependency_error → Prop :=
  refused faulty (λ e, ∃ before intent after, intents = before ++ intent :: after ∧
    let p := intent_pair taskID intent in violated (attached taskID now s before) p.1 p.2 e).

Section creation.
Context (faulty : nat → bool) (taskID : TaskID) (now : Z).

Lemma runs_attach_intent s E `{!Faults faulty E} intents intent Q :
  let s' := attached taskID now s intents in
  let p := intent_pair taskID intent in
  (∀ e, violated s' p.1 p.2 e → E (PolicyError e)) →
  ((deps_inv s' → deps_inv (attached taskID now s (intents ++ [intent]))) →
    Q tt (attached taskID now s (intents ++ [intent]))) →
  runs (attach_intent faulty taskID now intent) s' E Q.
Proof.
  intros s' p HE HQ. unfold attach_intent. pose proof (attached_added taskID now s intents intent) as Hadd.
  pose proof (attached_present taskID now s intents intent) as Hpres.
  fold p s' in Hadd, Hpres. fold p. destruct p as [a b]. cbn in *.
  apply runs_bind, runs_attach; [done|done| |].
  - intros _ Hin. rewrite Hpres in HQ by done. apply runs_ret. by apply HQ.
  - intros Hok. pose proof Hok as ((ra & rb & Ha & Hb & Hne & _) & Hn & _). rewrite Hadd in HQ by done.
    apply runs_bind, runs_update; [done|by exists ra|].
    apply runs_update; [done|apply retime_is_Some; by exists rb|].
    rewrite with_times_two by done. apply HQ. intros Hinv. by apply deps_inv_times, deps_inv_add.
Qed.

Lemma runs_attach_intents s done rest :
  (deps_inv s → deps_inv (attached taskID now s done)) →
  runs (attach_intents faulty taskID now rest) (attached taskID now s done)
    (intents_refused faulty taskID now s (done ++ rest))
    (λ _ s', s' = attached taskID now s (done ++ rest) ∧ (deps_inv s → deps_inv s')).
Proof.
  revert done. induction rest as [|intent rest IH]; intros done Hinv; cbn.
  - apply runs_ret. by rewrite (app_nil_r done).
  - apply runs_bind, runs_attach_intent; [apply _| |].
    + intros e He. by exists done, intent, rest.
    + intros Hi. specialize (IH (done ++ [intent])). rewrite <- (assoc_L _ done) in IH. apply IH. auto.
Qed.

(** The errors of creating a task: those of its intents, or a row of its name. *)
Definition create_refused s row intents (e : dependency_error) : Prop :=
  intents_refused faulty taskID now {| tasks := <[taskID := row]> (tasks s); dependencies := dependencies s |} intents e ∨
  (is_Some (tasks s !! taskID) ∧ e = DatabaseError "insert task").
#[export] Instance create_refused_faults s row intents : Faults faulty (create_refused s row intents).
Proof. intros op n Hn. left. by exists n. Qed.
End creation.

Lemma deps_inv_insert taskID row s :
  tasks s !! taskID = None → deps_inv s →
  deps_inv {| tasks := <[taskID := row]> (tasks s); dependencies := dependencies s |}.
Proof.
  intros Hn H. apply (deps_inv_shrink s); [|done|done].
  intros k r Hk. exists r. cbn. split; [|done]. rewrite lookup_insert_ne; [done|congruence].
Qed.

Lemma create_spec faulty taskID row intents s :
  let s0 := {| tasks := <[taskID := row]> (tasks s); dependencies := dependencies s |} in
  match createTask faulty taskID row intents s with
  | (Ok _, s') => tasks s !! taskID = None ∧ s' = attached taskID (tr_UpdatedAt row) s0 intents ∧ (deps_inv s → deps_inv s')
  | (Err e, s') => create_refused faulty taskID (tr_UpdatedAt row) s row intents e ∧ s' = s
  end.
Proof.
  cbv zeta. unfold createTask. transaction (create_refused faulty taskID (tr_UpdatedAt row) s row intents).
  apply runs_bind, runs_statements; [apply _|].
  apply runs_bind, runs_bind, runs_query; [apply _|].
  destruct (tasks s !! taskID) as [old|] eqn:Hold;
    [rewrite bool_decide_eq_true_2 by done|rewrite bool_decide_eq_false_2 by (by intros [])]; cbn [fst snd].
  - apply runs_fail. right. by rewrite Hold.
  - apply runs_ret, runs_bind, runs_statements; [apply _|].
    pose proof (runs_attach_intents faulty taskID (tr_UpdatedAt row)
      {| tasks := <[taskID := row]> (tasks s); dependencies := dependencies s |} [] intents) as H.
    rewrite attached_nil in H. eapply runs_error; [eapply runs_mono; [by apply H|]|].
    + intros _ s' [-> Hi]. split_and!; [done|done|]. intros Hs. by apply Hi, deps_inv_insert.
    + intros e He. by left.
Qed.

(** ** Task deletion *)
Lemma elem_of_neighbor_set id d k :
  k ∈ neighbor_set id d ↔ (id, k) ∈ d ∨ (k, id) ∈ d ∧ k ≠ id.
Proof.
  unfold neighbor_set. rewrite elem_of_union, !elem_of_map. split.
  - intros [([a b] & -> & [? ?]%elem_of_filter)|([a b] & -> & [[? ?] ?]%elem_of_filter)]; cbn in *; subst; auto.
  - intros [H|[H Hne]]; [left; exists (id, k)|right; exists (k, id)]; (split; [done|]); apply elem_of_filter; auto.
Qed.

Lemma size_set_map_le (f : TaskID * TaskID → TaskID) (X : gset (TaskID * TaskID)) :
  (size (set_map f X : gset TaskID) ≤ size X)%nat.
Proof.
  induction X as [|x X Hx IH] using set_ind_L; [by rewrite set_map_empty|].
  rewrite set_map_union_L, set_map_singleton_L, (size_union {[x]} X) by set_solver.
  rewrite size_union_alt, !size_singleton.
  assert (size (set_map f X ∖ {[f x]} : gset TaskID) ≤ size (set_map f X : gset TaskID))%nat
    by (apply subseteq_size; set_solver). lia.
Qed.

Lemma size_neighbor_set id d :
  (size (neighbor_set id d) ≤ size (outgoing id d) + size (incoming id d))%nat.
Proof.
  unfold neighbor_set. rewrite size_union_alt.
  pose proof (size_set_map_le snd (outgoing id d)). pose proof (size_set_map_le fst (incoming id d)).
  match goal with |- (_ + size ?X ≤ _)%nat => assert (size X ≤ size (set_map fst (incoming id d) : gset TaskID))%nat end.
  { apply subseteq_size. intros k [(p & -> & [[? ?] ?]%elem_of_filter)%elem_of_map _]%elem_of_difference.
    apply elem_of_map. exists p. split; [done|]. by apply elem_of_filter. }
  unfold outgoing in *. lia.
Qed.

(** At most fifty dependencies on each side: the hundred names the query
    returns are all of them, and their rows exist. *)
Lemma neighbors_complete id s :
  deps_inv s →
  let ids := take 100 (sort_strings (elements (neighbor_set id (dependencies s)))) in
  list_to_set ids = neighbor_set id (dependencies s) ∧
  length ids = size (neighbor_set id (dependencies s)) ∧
  neighbor_set id (dependencies s) ⊆ dom (tasks s).
Proof.
  intros [Hp Hc]. cbv zeta. set (N := neighbor_set id (dependencies s)).
  assert (sort_strings (elements N) ≡ₚ elements N) as Hs by apply merge_sort_Permutation.
  assert (length (sort_strings (elements N)) = size N) as Hl by (by rewrite Hs).
  assert (size N ≤ 100)%nat.
  { pose proof (size_neighbor_set id (dependencies s)). destruct (Hc id). unfold MaxTaskDependencies in *. subst N. lia. }
  rewrite take_ge by lia. split_and!; [|done|].
  - apply set_eq. intros k. by rewrite elem_of_list_to_set, Hs, elem_of_elements.
  - intros k Hk. apply elem_of_dom. apply elem_of_neighbor_set in Hk as [Hk|[Hk _]];
      destruct (Hp _ _ Hk) as [(a & b & Ha & Hb & _) _]; eauto.
Qed.

Definition delete_refused (faulty : nat → bool) (s : store) (id : TaskID) (e : dependency_error) : Prop :=
  match e with
  | DatabaseError _ => ∃ n, faulty n = true
  | NoRows => tasks s !! id = None
  | PolicyError _ => False
  end.
#[export] Instance delete_refused_faults faulty s id : Faults faulty (delete_refused faulty s id).
Proof. intros operation n H. by exists n. Qed.

Lemma remove_task_twice id d : remove_task id (remove_task id d) = remove_task id d.
Proof. unfold remove_task. set_solver. Qed.

(** The update of the neighbors. *)
Lemma runs_touch_neighbors faulty now ids (N : gset TaskID) s E `{!Faults faulty E} Q :
  list_to_set ids = N → length ids = size N → N ⊆ dom (tasks s) →
  Q tt (with_times (advance now) N s) →
  runs (if bool_decide (0 < length ids)%nat then
          touched ← update_times faulty "touch neighbors" (λ old, Z.max (old + 1) now) (list_to_set ids);
          if touched <>? length ids then fail (DatabaseError "touch neighbors") else mret tt
        else mret tt) s E Q.
Proof.
  intros Hset Hlen Hdom HQ. destruct (bool_decide_reflect (0 < length ids)%nat) as [Hp|Hp].
  - apply runs_bind, runs_query; [done|]. cbn [fst snd]. rewrite Hset, size_filter_ids, Hlen by done.
    rewrite bool_decide_eq_true_2 by done. by apply runs_ret.
  - apply runs_ret. assert (N = ∅) as ->.
    { apply leibniz_equiv, size_empty_inv. lia. }
    unfold with_times in HQ. rewrite retime_empty in HQ. by destruct s.
Qed.

Lemma delete_spec faulty now id s :
  deps_inv s →
  match DeleteTask faulty now id s with
  | (Ok row, s') => tasks s !! id = Some row ∧
      s' = {| tasks := delete id (retime (advance now) (neighbor_set id (dependencies s)) (tasks s));
              dependencies := remove_task id (dependencies s) |}
  | (Err e, s') => delete_refused faulty s id e ∧ s' = s
  end.
Proof.
  intros Hinv. unfold DeleteTask. transaction (delete_refused faulty s id).
  destruct (neighbors_complete id s Hinv) as (Hset & Hlen & Hdom).
  apply runs_bind, runs_select; [apply _|].
  destruct (tasks s !! id) as [row|] eqn:Hrow; [|by apply runs_fail].
  apply runs_bind, runs_statements; [apply _|].
  apply runs_bind, runs_select; [apply _|]. rewrite Hrow, bool_decide_eq_true_2 by done. cbn [negb].
  apply runs_bind, runs_select; [apply _|]. apply runs_bind, runs_query; [apply _|]. cbn [fst snd].
  apply runs_bind, (runs_touch_neighbors _ _ _ _ _ _ _ Hset Hlen); [done|].
  apply runs_bind, runs_statements; [apply _|]. apply runs_bind, runs_query; [apply _|]. cbn [fst snd tasks dependencies with_times].
  rewrite remove_task_twice, (bool_decide_eq_true_2 (is_Some _)) by (apply retime_is_Some; by rewrite Hrow). by apply runs_ret.
Qed.
