(* ===== verification/TaskDependencyClaims.v ===== *)
(** * Task dependencies: what the operations guarantee

    The rules of docs/dev/specs/workflow-orchestration.md on task dependencies,
    for every history of operations and every pattern of database failures. *)
From Stdlib Require Import ZArith String.
From stdpp Require Import gmap strings list.
From S2P Require Import Prelude Transactions GoStrings Types TaskDependencies TaskDependencyFacts.

Local Open Scope Z_scope.

(** ** Histories *)
Inductive operation :=
| OpCreate (taskID : TaskID) (row : TaskRow) (intents : list TaskDependencyCreateIntent)
| OpAdd (now : Z) (blocker blocked : TaskID)
| OpRemove (now : Z) (blocker blocked : TaskID)
| OpDelete (now : Z) (taskID : TaskID).

Definition perform (s : store) (op : (nat → bool) * operation) : store :=
  match op with
  | (faulty, OpCreate taskID row intents) => (createTask faulty taskID row intents s).2
  | (faulty, OpAdd now blocker blocked) => (AddTaskDependency faulty now blocker blocked s).2
  | (faulty, OpRemove now blocker blocked) => (RemoveTaskDependency faulty now blocker blocked s).2
  | (faulty, OpDelete now taskID) => (DeleteTask faulty now taskID s).2
  end.

Definition empty_store : store := {| tasks := ∅; dependencies := ∅ |}.

(** The operations never fail. *)
Definition reliable : nat → bool := λ _, false.

(** Between [s] and [s'] the times of [ids] move forward, to [now] at least,
    and no other row changes. *)
Definition times_advanced (now : Z) (ids : gset TaskID) (s s' : store) : Prop :=
  dom (tasks s') = dom (tasks s) ∧
  ∀ k row row', tasks s !! k = Some row → tasks s' !! k = Some row' →
    if k ∈? ids then
      row' = set_updated (λ _, tr_UpdatedAt row') row ∧ tr_UpdatedAt row < tr_UpdatedAt row' ∧ now <= tr_UpdatedAt row'
    else row' = row.

Lemma times_advanced_with now ids s d :
  times_advanced now ids s (with_times (advance now) ids {| tasks := tasks s; dependencies := d |}).
Proof.
  split.
  - apply set_eq. intros k. rewrite !elem_of_dom. apply retime_is_Some.
  - intros k row row' Hk. unfold with_times; cbn. rewrite lookup_retime, Hk. cbn. intros [= <-].
    destruct (bool_decide_reflect (k ∈ ids)); [|done]. unfold set_updated, advance; cbn. split_and!; [done|lia|lia].
Qed.

(** ** Reliable databases *)
Lemma identity_of_inj s blocker blocked i j : identity_of s blocker blocked i → identity_of s blocker blocked j → i = j.
Proof. intros (a & b & Ha & Hb & ->) (a' & b' & Ha' & Hb' & ->). congruence. Qed.
Lemma identity_of_times f ids s0 s blocker blocked i :
  tasks s0 = tasks s → identity_of (with_times f ids s0) blocker blocked i →
  identity_of s blocker blocked i.
Proof.
  intros Ht (a & b & Ha & Hb & ->). unfold with_times in *; cbn in *. rewrite lookup_retime, Ht in Ha, Hb.
  destruct (tasks s !! blocker) as [a'|] eqn:Ea, (tasks s !! blocked) as [b'|] eqn:Eb; try done. cbn in *.
  exists a', b'. split_and!; [done|done|]. simplify_eq. by repeat case_bool_decide.
Qed.

Lemma add_reliable now blocker blocked s :
  admissible s blocker blocked →
  ∃ identity s', AddTaskDependency reliable now blocker blocked s = (Ok (TaskDependencyAttachAdded, identity), s') ∧
    identity_of s blocker blocked identity ∧ dependencies s' = {[(blocker, blocked)]} ∪ dependencies s.
Proof.
  intros Ha. pose proof (add_spec reliable now blocker blocked s) as H.
  destruct (AddTaskDependency _ _ _ _ _) as [[[[] identity]|[op| |e]] s'].
  - destruct H as (_ & Hi & ->). eauto.
  - destruct Ha as (_ & Hn & _). by destruct H as (_ & ? & _).
  - destruct H as [[n Hn] _]. done.
  - by destruct H.
  - destruct H as [Hv _]. by destruct (violated_inadmissible s blocker blocked e).
Qed.

Lemma remove_reliable now blocker blocked s :
  pair_ok s blocker blocked → (blocker, blocked) ∈ dependencies s →
  ∃ identity s', RemoveTaskDependency reliable now blocker blocked s = (Ok (TaskDependencyRemoved, identity), s') ∧
    identity_of s blocker blocked identity ∧ dependencies s' = dependencies s ∖ {[(blocker, blocked)]}.
Proof.
  intros Hok Hin. pose proof (remove_spec reliable now blocker blocked s) as H.
  destruct (RemoveTaskDependency _ _ _ _ _) as [[[[] identity]|[op| |e]] s'].
  - destruct H as (_ & _ & Hi & ->). eauto.
  - by destruct H as (_ & ? & _).
  - destruct H as [[n Hn] _]. done.
  - by destruct H.
  - destruct H as [Hv _]. by destruct (violated_pair_not_ok s blocker blocked e).
Qed.

(** A removed dependency may be added again. *)
Lemma admissible_removed f ids blocker blocked s :
  deps_inv s → (blocker, blocked) ∈ dependencies s →
  admissible (with_times f ids {| tasks := tasks s; dependencies := dependencies s ∖ {[(blocker, blocked)]} |}) blocker blocked.
Proof.
  intros [Hp Hc] Hin. destruct (Hp _ _ Hin) as [Hok Hr].
  assert (∀ (P : TaskID * TaskID → Prop) `{!∀ p, Decision (P p)}, P (blocker, blocked) →
    (size (filter P (dependencies s ∖ {[(blocker, blocked)]})) < size (filter P (dependencies s)))%nat) as Hlt.
  { intros P ? HP. apply subset_size. split; [set_solver|]. intros Hs.
    assert ((blocker, blocked) ∈ filter P (dependencies s)) as Hin' by by apply elem_of_filter. apply Hs in Hin'. set_solver. }
  pose proof (Hlt (λ p, p.1 = blocker) _ eq_refl). pose proof (Hlt (λ p, p.2 = blocked) _ eq_refl).
  destruct (Hc blocker) as [Ho _], (Hc blocked) as [_ Hi]. unfold outgoing, incoming in *.
  split_and!; unfold outgoing, incoming; cbn; [|set_solver|set_solver|lia|lia].
  eapply (pair_ok_keeps s); [|done]. exact (keeps_tasks_times f ids s).
Qed.

Lemma perform_inv history s : deps_inv s → deps_inv (foldl perform s history).
Proof.
  revert s. induction history as [|[faulty op] history IH]; intros s Hs; [done|]. apply IH. destruct op; cbn.
  - pose proof (create_spec faulty taskID row intents s) as H. destruct (createTask _ _ _ _ _) as [[] s']; cbn in *.
    + by apply H.
    + by destruct H as [_ ->].
  - pose proof (add_spec faulty now blocker blocked s) as H.
    destruct (AddTaskDependency _ _ _ _ _) as [[[[] identity]|e] s']; cbn in *.
    + destruct H as (Ha & _ & ->). by apply deps_inv_times, deps_inv_add.
    + by destruct H as (_ & _ & _ & ->).
    + by destruct H as [_ ->].
  - pose proof (remove_spec faulty now blocker blocked s) as H.
    destruct (RemoveTaskDependency _ _ _ _ _) as [[[[] identity]|e] s']; cbn in *.
    + destruct H as (_ & _ & _ & ->). apply deps_inv_times.
      apply (deps_inv_shrink s); [intros k row Hk; by exists row|set_solver|done].
    + by destruct H as (_ & _ & _ & ->).
    + by destruct H as [_ ->].
  - pose proof (delete_spec faulty now taskID s Hs) as H. destruct (DeleteTask _ _ _ _) as [[row|e] s']; cbn in *.
    + destruct H as [_ ->]. by apply (deps_inv_delete _ (with_times _ _ s)), deps_inv_times.
    + by destruct H as [_ ->].
Qed.

Lemma empty_inv : deps_inv empty_store.
Proof. split; [set_solver|intros id; vm_compute; split; discriminate]. Qed.

(** ** Claims *)

(** C17. After every history of task creations, dependency additions and
    removals and task deletions, whatever database operations fail on the way:
    each stored dependency is between two existing different tasks of one
    project, no dependency is stored in both directions, and no task blocks or
    is blocked by more than fifty others. *)
Theorem dependencies_invariant (history : list ((nat → bool) * operation)) :
  deps_inv (foldl perform empty_store history).
Proof. apply perform_inv, empty_inv. Qed.

Lemma add_outcomes faulty now blocker blocked s :
  match AddTaskDependency faulty now blocker blocked s with
  | (Ok (TaskDependencyAttachAdded, identity), s') =>
      admissible s blocker blocked ∧ identity_of s blocker blocked identity ∧
      dependencies s' = {[(blocker, blocked)]} ∪ dependencies s ∧
      times_advanced now {[blocker; blocked]} s s'
  | (Ok (TaskDependencyAttachAlreadyPresent, identity), s') =>
      pair_ok s blocker blocked ∧ (blocker, blocked) ∈ dependencies s ∧ identity_of s blocker blocked identity ∧ s' = s
  | (Err (PolicyError e), s') => violated s blocker blocked e ∧ ¬ admissible s blocker blocked ∧ s' = s
  | (Err (DatabaseError _), s') => (∃ n, faulty n = true) ∧ s' = s
  | (Err NoRows, _) => False
  end.
Proof.
  pose proof (add_spec faulty now blocker blocked s) as H.
  destruct (AddTaskDependency _ _ _ _ _) as [[[[] identity]|[op| |e]] s'].
  - destruct H as (Ha & Hi & ->). split_and!; [done|done|done|apply times_advanced_with].
  - done.
  - done.
  - by destruct H.
  - destruct H as [Hv ->]. split_and!; [done| |done].
    intros Ha. by eapply violated_inadmissible.
Qed.
Lemma remove_outcomes faulty now blocker blocked s :
  match RemoveTaskDependency faulty now blocker blocked s with
  | (Ok (TaskDependencyRemoved, identity), s') =>
      pair_ok s blocker blocked ∧ (blocker, blocked) ∈ dependencies s ∧ identity_of s blocker blocked identity ∧
      dependencies s' = dependencies s ∖ {[(blocker, blocked)]} ∧
      times_advanced now {[blocker; blocked]} s s'
  | (Ok (TaskDependencyAlreadyAbsent, identity), s') =>
      pair_ok s blocker blocked ∧ ((blocker, blocked) ∉ dependencies s) ∧ identity_of s blocker blocked identity ∧ s' = s
  | (Err (PolicyError e), s') => violated_pair s blocker blocked e ∧ ¬ pair_ok s blocker blocked ∧ s' = s
  | (Err (DatabaseError _), s') => (∃ n, faulty n = true) ∧ s' = s
  | (Err NoRows, _) => False
  end.
Proof.
  pose proof (remove_spec faulty now blocker blocked s) as H.
  destruct (RemoveTaskDependency _ _ _ _ _) as [[[[] identity]|[op| |e]] s'].
  - destruct H as (Ha & Hin & Hi & ->). split_and!; [done|done|done|done|apply times_advanced_with].
  - done.
  - done.
  - by destruct H.
  - destruct H as [Hv ->]. split_and!; [done| |done]. intros Ha. by eapply violated_pair_not_ok.
Qed.

(** C36. Changing a dependency. Adding: it is stored exactly when all rules
    allow it and both tasks' times then move strictly forward, nothing else
    changing; an existing one changes nothing; every other outcome leaves the
    tables as they were and its error is a database failure or names the first
    rule broken, with the tasks, projects and counts that break it. Removing: a
    stored one is deleted and both tasks' times move strictly forward, nothing
    else changing; an absent one changes nothing; every other outcome leaves the
    tables as they were and its error is a database failure or names what is
    wrong with the pair. *)
Theorem dependency_mutations_correct faulty now blocker blocked s :
  (match AddTaskDependency faulty now blocker blocked s with
  | (Ok (TaskDependencyAttachAdded, identity), s') =>
      admissible s blocker blocked ∧ identity_of s blocker blocked identity ∧
      dependencies s' = {[(blocker, blocked)]} ∪ dependencies s ∧
      times_advanced now {[blocker; blocked]} s s'
  | (Ok (TaskDependencyAttachAlreadyPresent, identity), s') =>
      pair_ok s blocker blocked ∧ (blocker, blocked) ∈ dependencies s ∧ identity_of s blocker blocked identity ∧ s' = s
  | (Err (PolicyError e), s') => violated s blocker blocked e ∧ ¬ admissible s blocker blocked ∧ s' = s
  | (Err (DatabaseError _), s') => (∃ n, faulty n = true) ∧ s' = s
  | (Err NoRows, _) => False
  end) ∧
  (match RemoveTaskDependency faulty now blocker blocked s with
  | (Ok (TaskDependencyRemoved, identity), s') =>
      pair_ok s blocker blocked ∧ (blocker, blocked) ∈ dependencies s ∧ identity_of s blocker blocked identity ∧
      dependencies s' = dependencies s ∖ {[(blocker, blocked)]} ∧
      times_advanced now {[blocker; blocked]} s s'
  | (Ok (TaskDependencyAlreadyAbsent, identity), s') =>
      pair_ok s blocker blocked ∧ ((blocker, blocked) ∉ dependencies s) ∧ identity_of s blocker blocked identity ∧ s' = s
  | (Err (PolicyError e), s') => violated_pair s blocker blocked e ∧ ¬ pair_ok s blocker blocked ∧ s' = s
  | (Err (DatabaseError _), s') => (∃ n, faulty n = true) ∧ s' = s
  | (Err NoRows, _) => False
  end).
Proof. split; [apply add_outcomes|apply remove_outcomes]. Qed.

(** Adding and removing are inverse on the stored dependencies: a removal
    that follows an addition restores them, and so does an addition that follows
    a removal, even for a task at its limit. *)
Theorem add_remove_roundtrip now now' blocker blocked s :
  deps_inv s →
  (∀ identity s', AddTaskDependency reliable now blocker blocked s = (Ok (TaskDependencyAttachAdded, identity), s') →
    ∃ s'', RemoveTaskDependency reliable now' blocker blocked s' = (Ok (TaskDependencyRemoved, identity), s'') ∧
      dependencies s'' = dependencies s) ∧
  (∀ identity s', RemoveTaskDependency reliable now blocker blocked s = (Ok (TaskDependencyRemoved, identity), s') →
    ∃ s'', AddTaskDependency reliable now' blocker blocked s' = (Ok (TaskDependencyAttachAdded, identity), s'') ∧
      dependencies s'' = dependencies s).
Proof.
  intros Hinv. split; intros identity s' Heq.
  - pose proof (add_spec reliable now blocker blocked s) as H. rewrite Heq in H. destruct H as (Ha & Hi & ->).
    edestruct (remove_reliable now' blocker blocked) as (identity' & s'' & -> & Hi' & Hd); cycle 2.
    { exists s''. apply (identity_of_times _ _ _ s) in Hi'; [|done]. rewrite (identity_of_inj _ _ _ _ _ Hi' Hi).
      split; [done|]. rewrite Hd. destruct Ha as (_ & Hn & _). cbn. set_solver. }
    + eapply pair_ok_keeps; [apply keeps_tasks_times|]. apply Ha.
    + cbn. set_solver.
  - pose proof (remove_spec reliable now blocker blocked s) as H. rewrite Heq in H. destruct H as (Hok & Hin & Hi & ->).
    edestruct (add_reliable now' blocker blocked) as (identity' & s'' & -> & Hi' & Hd); cycle 1.
    { exists s''. apply (identity_of_times _ _ _ s) in Hi'; [|done]. rewrite (identity_of_inj _ _ _ _ _ Hi' Hi).
      split; [done|]. rewrite Hd. cbn. rewrite <- union_difference_L; [done|set_solver]. }
    by apply admissible_removed.
Qed.

Local Open Scope string_scope.

Definition sample_row (project : string) (time : Z) : TaskRow :=
  {| tr_ProjectID := project; tr_WorkflowID := 1%N; tr_ShortID := "K-1"; tr_UpdatedAt := time |}.
Definition sample_store : store :=
  foldl perform empty_store
    [(reliable, OpCreate "a" (sample_row "p" 5) []); (reliable, OpCreate "b" (sample_row "p" 7) []);
     (reliable, OpCreate "c" (sample_row "p" 9)
       [{| ci_RelatedTaskID := "a"; ci_NewTaskRole := TaskDependencyRoleBlocked |};
        {| ci_RelatedTaskID := "b"; ci_NewTaskRole := TaskDependencyRoleBlocker |}])].

Lemma add_remove_roundtrip_witness :
  ∃ s', RemoveTaskDependency reliable 20 "a" "c" sample_store =
          (Ok (TaskDependencyRemoved, {| di_BlockerShortID := "K-1"; di_BlockedShortID := "K-1"; di_ProjectID := "p"; di_WorkflowID := 1%N |}), s') ∧
    ∃ s'', AddTaskDependency reliable 30 "a" "c" s' =
          (Ok (TaskDependencyAttachAdded, {| di_BlockerShortID := "K-1"; di_BlockedShortID := "K-1"; di_ProjectID := "p"; di_WorkflowID := 1%N |}), s'') ∧
    dependencies s'' = dependencies sample_store.
Proof.
  exists (RemoveTaskDependency reliable 20 "a" "c" sample_store).2.
  assert (RemoveTaskDependency reliable 20 "a" "c" sample_store =
          (Ok (TaskDependencyRemoved, {| di_BlockerShortID := "K-1"; di_BlockedShortID := "K-1"; di_ProjectID := "p"; di_WorkflowID := 1%N |}),
           (RemoveTaskDependency reliable 20 "a" "c" sample_store).2)) as H by (vm_compute; reflexivity).
  split; [exact H|]. exact (proj2 (add_remove_roundtrip 20 30 "a" "c" sample_store (perform_inv _ _ empty_inv)) _ _ H).
Defined.

(** C29. Creating a task with dependencies is one step: either nothing is
    created, because a database operation failed, the name is taken or one of
    the requested dependencies breaks a rule after those before it, or the task
    exists with all requested dependencies and no others, the tasks of the new
    dependencies carry the creation time, and no other row changes. *)
Theorem createTask_correct faulty taskID row (intents : list TaskDependencyCreateIntent) s :
  let pairs := intent_pair taskID <$> intents in
  let s0 := {| tasks := <[taskID := row]> (tasks s); dependencies := dependencies s |} in
  match createTask faulty taskID row intents s with
  | (Ok _, s') => tasks s !! taskID = None ∧ tasks s' !! taskID = Some row ∧
      (∀ p, p ∈ dependencies s' ↔ p ∈ dependencies s ∨ p ∈ pairs) ∧
      (∀ k, k ≠ taskID → tasks s' !! k =
        (λ old, if k ∈? touched (dependencies s) pairs then set_updated (λ _, tr_UpdatedAt row) old else old) <$> tasks s !! k)
  | (Err (PolicyError e), s') => s' = s ∧
      ∃ before intent after, intents = (before ++ intent :: after)%list ∧
        let p := intent_pair taskID intent in violated (attached taskID (tr_UpdatedAt row) s0 before) p.1 p.2 e
  | (Err (DatabaseError _), s') => s' = s ∧ ((∃ n, faulty n = true) ∨ is_Some (tasks s !! taskID))
  | (Err NoRows, _) => False
  end.
Proof.
  cbv zeta. pose proof (create_spec faulty taskID row intents s) as H. cbv zeta in H.
  destruct (createTask _ _ _ _ _) as [[[]|e] s'].
  - destruct H as (Hn & -> & _). unfold attached; cbn. split_and!; [done| | |].
    + rewrite lookup_retime, lookup_insert_eq. cbn. f_equal. case_bool_decide; [by destruct row|done].
    + intros p. by rewrite elem_of_union, elem_of_list_to_set.
    + intros k Hk. by rewrite lookup_retime, lookup_insert_ne.
  - destruct H as [[He|[Hs ->]] ->]; [|by auto]. destruct e as [op| |e]; auto.
Qed.

(** Creation sets the related task's time to the creation time: a task updated
    in the same millisecond keeps its time although its relationships change. *)
Theorem creation_keeps_time :
  let s := foldl perform empty_store [(reliable, OpCreate "a" (sample_row "p" 5) [])] in
  let s' := perform s (reliable, OpCreate "b" (sample_row "p" 5)
    [{| ci_RelatedTaskID := "a"; ci_NewTaskRole := TaskDependencyRoleBlocked |}]) in
  (("a", "b") ∉ dependencies s) ∧ ("a", "b") ∈ dependencies s' ∧ tasks s' !! "a" = tasks s !! "a".
Proof.
  cbv zeta. split_and!; [apply (bool_decide_eq_false_1 _)|apply (bool_decide_eq_true_1 _)|]; vm_compute; reflexivity.
Qed.

(** Deleting a task removes it with all its dependencies and nothing else:
    the times of the tasks it was related to move strictly forward, once, all
    other rows keep theirs; the limit of the query that lists the related tasks
    never cuts one off. Without a database failure the deletion of an existing
    task succeeds; every error leaves the tables as they were. *)
Theorem DeleteTask_correct faulty now id s (Hinv : deps_inv s) :
  match DeleteTask faulty now id s with
  | (Ok row, s') => tasks s !! id = Some row ∧ tasks s' !! id = None ∧
      (∀ blocker blocked, (blocker, blocked) ∈ dependencies s' ↔
        (blocker, blocked) ∈ dependencies s ∧ blocker ≠ id ∧ blocked ≠ id) ∧
      (∀ k row, k ≠ id → tasks s !! k = Some row →
        ∃ row', tasks s' !! k = Some row' ∧
          if ((id, k) ∈? dependencies s) || ((k, id) ∈? dependencies s)
          then row' = set_updated (λ old, Z.max (old + 1) now) row ∧ tr_UpdatedAt row < tr_UpdatedAt row'
          else row' = row)
  | (Err NoRows, s') => tasks s !! id = None ∧ s' = s
  | (Err (DatabaseError _), s') => (∃ n, faulty n = true) ∧ s' = s
  | (Err (PolicyError _), _) => False
  end.
Proof.
  pose proof (delete_spec faulty now id s Hinv) as H. destruct (DeleteTask _ _ _ _) as [[row|[op| |e]] s'];
    [|done|done|by destruct H].
  destruct H as (Hrow & ->). cbn. split_and!; [done|apply lookup_delete_eq| |].
  - intros a b. unfold remove_task. rewrite elem_of_filter. cbn. tauto.
  - intros k r Hk Hr. rewrite lookup_delete_ne, lookup_retime, Hr by done. cbn. eexists; split; [done|].
    destruct (bool_decide_reflect (k ∈ neighbor_set id (dependencies s))) as [Hn|Hn];
      rewrite elem_of_neighbor_set in Hn.
    + replace (_ || _)%bool with true; [unfold set_updated, advance; cbn; split; [done|lia]|].
      symmetry. apply orb_true_iff. rewrite !bool_decide_eq_true. naive_solver.
    + replace (_ || _)%bool with false; [done|].
      symmetry. apply orb_false_iff. rewrite !bool_decide_eq_false. naive_solver.
Qed.

Lemma DeleteTask_correct_witness :
  ∃ row s', DeleteTask reliable 3 "c" sample_store = (Ok row, s') ∧ tasks s' !! "c" = None ∧
    tasks s' !! "a" = Some (sample_row "p" 10).
Proof.
  pose proof (DeleteTask_correct reliable 3 "c" sample_store (perform_inv _ _ empty_inv)) as H.
  assert (∃ row s', DeleteTask reliable 3 "c" sample_store = (Ok row, s')) as (row & s' & Heq)
    by (eexists _, _; vm_compute; reflexivity).
  rewrite Heq in H. destruct H as (_ & Hn & _ & Ht). exists row, s'. split_and!; [exact Heq|exact Hn|].
  destruct (Ht "a" (sample_row "p" 9)) as (row' & Hr & Hrow); [discriminate|vm_compute; reflexivity|].
  rewrite Hr. assert ((("c", "a") ∈? dependencies sample_store) || (("a", "c") ∈? dependencies sample_store) = true) as Hb
    by (vm_compute; reflexivity).
  rewrite Hb in Hrow. destruct Hrow as [-> _]. reflexivity.
Defined.

(** The availability shown for a task is exact: for a store of any history
    it is never an error, a positive number of free places is the number of
    dependencies that still fit, and the limit is reported exactly when the
    next admissible pair would be refused for it. *)
Theorem AddAvailability_bounds s id (Hinv : deps_inv s) :
  let count := Z.of_nat (size (outgoing id (dependencies s))) in
  match AddAvailability count with
  | Ok (TaskDependencyAddAvailable remaining) => 1 <= remaining <= MaxTaskDependencies ∧ count + remaining = MaxTaskDependencies
  | Ok TaskDependencyAddLimitReached => count = MaxTaskDependencies
  | Err _ => False
  end ∧
  (∀ other, pair_ok s id other → ((id, other) ∉ dependencies s) → ((other, id) ∉ dependencies s) →
    AddAvailability count = Ok TaskDependencyAddLimitReached ↔
    EvaluateAttach (facts_in s id other) = Err (limit_error TaskDependencyBlockerLimit id other count)).
Proof.
  cbv zeta. set (count := Z.of_nat (size (outgoing id (dependencies s)))).
  assert (0 <= count <= MaxTaskDependencies) as Hc by (destruct (proj2 Hinv id); subst count; lia).
  assert (AddAvailability count = if (count =? MaxTaskDependencies)%Z then Ok TaskDependencyAddLimitReached
          else Ok (TaskDependencyAddAvailable (MaxTaskDependencies - count))) as HA.
  { unfold AddAvailability. destruct (Z.ltb_spec count 0), (Z.ltb_spec MaxTaskDependencies count); try lia; done. }
  rewrite HA. split; [destruct (Z.eqb_spec count MaxTaskDependencies); [done|lia]|].
  intros other Hok Hn Hr. pose proof (EvaluateAttach_in s id other) as H.
  destruct (Z.eqb_spec count MaxTaskDependencies) as [Heq|Hne].
  - split; [intros _|done]. destruct (EvaluateAttach (facts_in s id other)) as [[]|e] eqn:He.
    + destruct H as (_ & _ & _ & Ho & _). fold count in Ho. lia.
    + by destruct H.
    + destruct Hok as (ra & rb & Ha & Hb & Hd & Hp). unfold violated in H.
      destruct (pe_Reason e); fold count in H; naive_solver lia.
  - split; [done|]. intros Heq. rewrite Heq in H. cbn in H. fold count in H. lia.
Qed.

Lemma AddAvailability_bounds_witness :
  ∃ remaining, AddAvailability (Z.of_nat (size (outgoing "a" (dependencies sample_store)))) = Ok (TaskDependencyAddAvailable remaining) ∧
    (Z.of_nat (size (outgoing "a" (dependencies sample_store))) + remaining = MaxTaskDependencies)%Z.
Proof.
  pose proof (AddAvailability_bounds sample_store "a" (perform_inv _ _ empty_inv)) as [H _].
  assert (AddAvailability (Z.of_nat (size (outgoing "a" (dependencies sample_store)))) = Ok (TaskDependencyAddAvailable 49)) as Heq
    by (vm_compute; reflexivity).
  rewrite Heq in H. exists 49%Z. split; [exact Heq|apply H].
Defined.
