(* ===== verification/CurrentState.v ===== *)
(** * Current nodes

    src/server/workflow/current_state.go, with the continuation sources and
    session intents of retained_target.go and the target checks of
    execution_target.go: references to the place a task is at, the values and
    scheduling state a current node carries, and its constructors. An error is its
    message, without the values it quotes. Maps are values: the copies the
    constructors take of their arguments are the arguments. *)
From Stdlib Require Import ZArith String.
From stdpp Require Import gmap strings list.
From S2P Require Import Prelude GoStrings Types Fanout Selection.

Local Open Scope string_scope.

(** A nil error is [None]; the first error of a sequence of checks. *)
Abbreviation error := string (only parsing).
Definition first_error (checks : list (option error)) : option error := head (omap id checks).
Definition check (failed : bool) (message : error) : option error := if failed then Some message else None.

(** ** References *)
Record CurrentNodeReference := {
  cnr_TaskID : TaskID; cnr_NodeID : NodeID; cnr_transitionBranchKey : option TransitionBranchKey }.
#[export] Instance CurrentNodeReference_eq_dec : EqDecision CurrentNodeReference.
Proof. solve_decision. Defined.

Definition CurrentNodeReference_Validate (r : CurrentNodeReference) : option error :=
  if cnr_TaskID r ==? "" then Some "current node task id is required"
  else if cnr_NodeID r ==? "" then Some "current node id is required"
  else if cnr_transitionBranchKey r ==? Some "" then
    Some "current node transition branch key must be non-empty when present"
  else None.

Definition NewCurrentNodeReference (taskID : TaskID) (nodeID : NodeID) (branch : option TransitionBranchKey)
    : result error CurrentNodeReference :=
  let ref := {| cnr_TaskID := TrimSpace taskID; cnr_NodeID := TrimSpace nodeID;
                cnr_transitionBranchKey := TrimSpace <$> branch |} in
  match CurrentNodeReference_Validate ref with Some e => Err e | None => Ok ref end.

Definition TransitionBranchKey_of (r : CurrentNodeReference) : TransitionBranchKey * bool :=
  match cnr_transitionBranchKey r with None => ("", false) | Some k => (k, true) end.

Definition CurrentNodeReference_Equal (r other : CurrentNodeReference) : bool :=
  if (cnr_TaskID r <>? cnr_TaskID other) || (cnr_NodeID r <>? cnr_NodeID other) then false
  else
    let '(l, leftOK) := TransitionBranchKey_of r in
    let '(r, rightOK) := TransitionBranchKey_of other in
    (leftOK ==? rightOK) && (negb leftOK || (l ==? r)).

Definition IsBranchScoped (r : CurrentNodeReference) : bool := (TransitionBranchKey_of r).2.

Inductive CurrentNodeReferenceKey :=
| serialCurrentNodeReferenceKey (taskID : TaskID) (nodeID : NodeID)
| branchCurrentNodeReferenceKey (taskID : TaskID) (nodeID : NodeID) (branchKey : TransitionBranchKey).
#[export] Instance CurrentNodeReferenceKey_eq_dec : EqDecision CurrentNodeReferenceKey.
Proof. solve_decision. Defined.

Definition CurrentNodeReference_Key (r : CurrentNodeReference) : result error CurrentNodeReferenceKey :=
  match CurrentNodeReference_Validate r with
  | Some e => Err e
  | None =>
    let '(branchKey, branchScoped) := TransitionBranchKey_of r in
    if branchScoped then Ok (branchCurrentNodeReferenceKey (cnr_TaskID r) (cnr_NodeID r) branchKey)
    else Ok (serialCurrentNodeReferenceKey (cnr_TaskID r) (cnr_NodeID r))
  end.

(** ** Execution targets that cannot be used *)
Record ExecutionTargetSelection := { ets_Mode : string; ets_CustomRef : option string }.
Definition ExecutionTargetSelection_Validate (s : ExecutionTargetSelection) : option error :=
  if negb (validConcreteExecutionTargetMode (ets_Mode s)) then Some "execution target selection mode must be concrete"
  else if ets_Mode s <>? ExecutionTargetModeCustomRef then
    if ets_CustomRef s ==? None then None else Some "execution target custom ref is only valid for custom_ref selection"
  else match ets_CustomRef s with
  | None => Some "execution target custom ref is required"
  | Some ref => if blank ref then Some "execution target custom ref is required" else None
  end.
Definition ExecutionTargetSelection_Equal (s other : ExecutionTargetSelection) : bool :=
  if ets_Mode s <>? ets_Mode other then false
  else match ets_CustomRef s, ets_CustomRef other with
  | Some a, Some b => a ==? b
  | None, None => true
  | _, _ => false
  end.

Definition ExecutionTargetUnavailableCauses : list string :=
  ["invalid_revision"; "non_commit"; "default_branch_missing"; "default_branch_ambiguous"; "git_failure"].
Record ConfiguredExecutionTargetUnavailable := { cu_Mode : string; cu_RequestedRef : option string; cu_Cause : string }.
Definition ConfiguredExecutionTargetUnavailable_Validate (u : ConfiguredExecutionTargetUnavailable) : option error :=
  match ExecutionTargetSelection_Validate {| ets_Mode := cu_Mode u; ets_CustomRef := cu_RequestedRef u |} with
  | Some e => Some e
  | None => check (negb (cu_Cause u ∈? ExecutionTargetUnavailableCauses)) "configured execution target unavailable cause is invalid"
  end.

(** ** Continuation sources and session intents *)
Definition MaterializedContinuationSourceExact := "exact".
Definition MaterializedContinuationSourceDeferredSelf := "deferred_self".
Definition MaterializedContinuationSourceLegacy := "legacy".
Definition MaterializedContinuationSourceAbsent := "absent".

(** Also the wire form of a source. *)
Record MaterializedContinuationSource := { mcs_kind : string; mcs_sessionID : option SessionID }.

Definition NewExactMaterializedContinuationSource (sessionID : SessionID) : result error MaterializedContinuationSource :=
  if IsZero sessionID then Err "materialized continuation source Session ID is required"
  else Ok {| mcs_kind := MaterializedContinuationSourceExact; mcs_sessionID := Some sessionID |}.
Definition DeferredSelfMaterializedContinuationSource : MaterializedContinuationSource :=
  {| mcs_kind := MaterializedContinuationSourceDeferredSelf; mcs_sessionID := None |}.
Definition LegacyMaterializedContinuationSource : MaterializedContinuationSource :=
  {| mcs_kind := MaterializedContinuationSourceLegacy; mcs_sessionID := None |}.
Definition AbsentMaterializedContinuationSource : MaterializedContinuationSource :=
  {| mcs_kind := MaterializedContinuationSourceAbsent; mcs_sessionID := None |}.

Definition ExactSessionID (s : MaterializedContinuationSource) : SessionID * bool :=
  if mcs_kind s <>? MaterializedContinuationSourceExact then (0%N, false)
  else match mcs_sessionID s with None => (0%N, false) | Some id => (id, true) end.

Definition MaterializedContinuationSource_Validate (s : MaterializedContinuationSource) : option error :=
  if mcs_kind s ==? MaterializedContinuationSourceExact then
    match mcs_sessionID s with
    | Some id => check (IsZero id) "exact materialized continuation source requires a Session ID"
    | None => Some "exact materialized continuation source requires a Session ID"
    end
  else if mcs_kind s ∈? [MaterializedContinuationSourceDeferredSelf; MaterializedContinuationSourceLegacy;
                         MaterializedContinuationSourceAbsent] then
    check (mcs_sessionID s <>? None) "materialized continuation source must not carry a Session ID"
  else Some "materialized continuation source kind is invalid".

(** Encoding refuses an invalid source, and so does decoding; the JSON text of
    the wire record is the standard library's. *)
Definition MaterializedContinuationSource_MarshalJSON (s : MaterializedContinuationSource) : result error MaterializedContinuationSource :=
  match MaterializedContinuationSource_Validate s with Some e => Err e | None => Ok s end.
Definition MaterializedContinuationSource_UnmarshalJSON (wire : MaterializedContinuationSource) : result error MaterializedContinuationSource :=
  match MaterializedContinuationSource_Validate wire with Some e => Err e | None => Ok wire end.

Definition TargetSessionIntentReuse := "reuse".
Definition TargetSessionIntentCreate := "create".
Definition TargetSessionIntentNoAgent := "no_agent".
Record TargetSessionIntent := { tsi_kind : string; tsi_sessionID : option SessionID }.
Definition NewReuseTargetSessionIntent (sessionID : SessionID) : result error TargetSessionIntent :=
  if IsZero sessionID then Err "reused target Session ID is required"
  else Ok {| tsi_kind := TargetSessionIntentReuse; tsi_sessionID := Some sessionID |}.
Definition CreateTargetSessionIntent : TargetSessionIntent := {| tsi_kind := TargetSessionIntentCreate; tsi_sessionID := None |}.
Definition NoAgentTargetSessionIntent : TargetSessionIntent := {| tsi_kind := TargetSessionIntentNoAgent; tsi_sessionID := None |}.
Definition TargetSessionIntent_SessionID (i : TargetSessionIntent) : SessionID * bool :=
  if tsi_kind i <>? TargetSessionIntentReuse then (0%N, false)
  else match tsi_sessionID i with None => (0%N, false) | Some id => (id, true) end.
Definition TargetSessionIntent_Validate (i : TargetSessionIntent) : option error :=
  if tsi_kind i ==? TargetSessionIntentReuse then
    match tsi_sessionID i with
    | Some id => check (IsZero id) "reuse target Session intent requires a Session ID"
    | None => Some "reuse target Session intent requires a Session ID"
    end
  else if tsi_kind i ∈? [TargetSessionIntentCreate; TargetSessionIntentNoAgent] then
    check (tsi_sessionID i <>? None) "target Session intent must not carry a Session ID"
  else Some "target Session intent kind is invalid".

(** ** Interruptions and scheduling *)
Definition CurrentNodeSchedulingReady := "ready".
Definition CurrentNodeSchedulingAdmitted := "admitted".
Definition CurrentNodeSchedulingInterrupted := "interrupted".
Definition CurrentNodeSchedulingFailed := "failed".

Definition CurrentNodeInterruptionReasonUserInterrupt := "user_interrupt".
Definition CurrentNodeInterruptionReasonRuntimeCanceled := "workflow_runtime_canceled".
Definition CurrentNodeInterruptionReasonContextSelectionRequired := "context_selection_required".

Definition IsActionableCurrentNodeInterruptionReason (reason : string) : bool :=
  negb (TrimSpace reason ∈? [""; CurrentNodeInterruptionReasonUserInterrupt; CurrentNodeInterruptionReasonRuntimeCanceled]).

Definition CurrentNodeInterruptionDiagnosticField := "error".

(** ** Values *)
Record MaterializedPriorValues := { TransitionParameters : gmap ModelKey (gmap string string) }.
Definition TransitionParameter (v : MaterializedPriorValues) (transitionKey : ModelKey) (parameterName : string) : option string :=
  TransitionParameters v !! transitionKey ≫= λ fields, fields !! parameterName.
Definition SetTransitionParameter (v : MaterializedPriorValues) (transitionKey : ModelKey) (parameterName value : string)
    : MaterializedPriorValues :=
  {| TransitionParameters :=
       <[transitionKey := <[parameterName := value]> (default ∅ (TransitionParameters v !! transitionKey))]>
         (TransitionParameters v) |}.

Section nodes.
(** Go's order of map iteration, and the generated message of a locked
    execution target with its validator. *)
Context {order : RangeOrder}.
Context {LockedExecutionTargetDetails : Type} (protovalidate : LockedExecutionTargetDetails → option error).

Record CurrentNodeInterruptionDetail := {
  id_Code : string; id_Fields : gmap string string;
  id_ConfiguredExecutionTargetUnavailable : option ConfiguredExecutionTargetUnavailable;
  id_OriginalExecutionTargetUnavailable : option LockedExecutionTargetDetails }.

Definition CurrentNodeInterruptionDetail_Validate (d : CurrentNodeInterruptionDetail) : option error :=
  first_error [
    first_error ((λ '(name, _), check (blank name) "current node interruption detail field name is required") <$> range_map (id_Fields d));
    id_ConfiguredExecutionTargetUnavailable d ≫= ConfiguredExecutionTargetUnavailable_Validate;
    match id_OriginalExecutionTargetUnavailable d with
    | None => None
    | Some original =>
      match id_ConfiguredExecutionTargetUnavailable d with
      | Some _ => Some "original target failure cannot be a configured-target failure"
      | None => protovalidate original
      end
    end].

Definition NewCurrentNodeInterruptionDetail (code : string) (diagnostic : option string) : CurrentNodeInterruptionDetail := {|
  id_Code := TrimSpace code;
  id_Fields := match diagnostic with None => ∅ | Some d => {[CurrentNodeInterruptionDiagnosticField := d]} end;
  id_ConfiguredExecutionTargetUnavailable := None; id_OriginalExecutionTargetUnavailable := None |}.

Definition Diagnostic (d : CurrentNodeInterruptionDetail) : option string :=
  match id_Fields d !! CurrentNodeInterruptionDiagnosticField with
  | None => None
  | Some value => if blank value then None else Some value
  end.

(** A time is its distance from the zero time. *)
Record CurrentNodeInterruption := { ci_Reason : string; ci_Detail : CurrentNodeInterruptionDetail; ci_OccurredAt : Z }.
Record CurrentNodeScheduling := { sch_State : string; sch_Interruption : option CurrentNodeInterruption }.

Definition validateCurrentNodeScheduling (scheduling : option CurrentNodeScheduling) : option error :=
  match scheduling with
  | None => None
  | Some scheduling =>
    if negb (sch_State scheduling ∈? [CurrentNodeSchedulingReady; CurrentNodeSchedulingAdmitted;
               CurrentNodeSchedulingInterrupted; CurrentNodeSchedulingFailed]) then
      Some "current node scheduling state is invalid"
    else if sch_State scheduling ==? CurrentNodeSchedulingInterrupted then
      match sch_Interruption scheduling with
      | None => Some "interrupted current node requires interruption details"
      | Some interruption =>
        if blank (ci_Reason interruption) then Some "current node interruption reason is required"
        else if (ci_OccurredAt interruption =? 0)%Z then Some "current node interruption occurrence time is required"
        else CurrentNodeInterruptionDetail_Validate (ci_Detail interruption)
      end
    else match sch_Interruption scheduling with
    | Some _ => Some "only interrupted current nodes may carry interruption details"
    | None => None
    end
  end.

Definition validateMaterializedPriorValueNamespace (values : gmap ModelKey (gmap string string)) : option error :=
  first_error ((λ '(namespace, fields),
    if blank namespace then Some "current node prior transition parameter key is required"
    else if size fields ==? 0%nat then Some "current node prior transition parameter values are required"
    else first_error ((λ '(fieldName, _),
      check (blank fieldName) "current node prior transition parameter field name is required") <$> range_map fields))
    <$> range_map values).

Definition validateCurrentNodeValueEnvironment (currentInputValues : gmap string string) (priorValues : MaterializedPriorValues)
    : option error :=
  first_error [
    first_error ((λ '(name, _), check (blank name) "current node input name is required") <$> range_map currentInputValues);
    validateMaterializedPriorValueNamespace (TransitionParameters priorValues)].

Record CurrentNode := {
  cn_Reference : CurrentNodeReference; cn_EnteredByEdgeID : option EdgeID;
  cn_CurrentInputValues : gmap string string; cn_PriorValues : MaterializedPriorValues;
  cn_SessionID : option SessionID; cn_ContinuationSource : MaterializedContinuationSource;
  cn_Scheduling : option CurrentNodeScheduling; cn_AgentExecutionSelection : option AgentExecutionSelection }.

Definition NewCurrentNodeWithMaterializedSource (reference : CurrentNodeReference) (currentInputValues : gmap string string)
    (priorValues : MaterializedPriorValues) (sessionID : option SessionID)
    (continuationSource : MaterializedContinuationSource) (scheduling : option CurrentNodeScheduling)
    (selection : option AgentExecutionSelection) : result error CurrentNode :=
  match first_error [
    CurrentNodeReference_Validate reference;
    validateCurrentNodeValueEnvironment currentInputValues priorValues;
    sessionID ≫= (λ id, check (IsZero id) "current node session id must be non-zero when present");
    MaterializedContinuationSource_Validate continuationSource;
    validateCurrentNodeScheduling scheduling;
    selection ≫= (λ selection,
      match AgentExecutionSelection_Validate selection with
      | Some _ => Some "current node Agent execution selection" | None => None end)] with
  | Some e => Err e
  | None => Ok {| cn_Reference := reference; cn_EnteredByEdgeID := None; cn_CurrentInputValues := currentInputValues;
                  cn_PriorValues := priorValues; cn_SessionID := sessionID; cn_ContinuationSource := continuationSource;
                  cn_Scheduling := scheduling; cn_AgentExecutionSelection := selection |}
  end.

Definition NewCurrentNodeWithExecutionSelection reference currentInputValues priorValues sessionID scheduling selection
    : result error CurrentNode :=
  NewCurrentNodeWithMaterializedSource reference currentInputValues priorValues sessionID
    AbsentMaterializedContinuationSource scheduling selection.
Definition NewCurrentNodeWithMaterializedValues reference currentInputValues priorValues sessionID scheduling : result error CurrentNode :=
  NewCurrentNodeWithExecutionSelection reference currentInputValues priorValues sessionID scheduling None.
Definition NewCurrentNode reference sessionID scheduling : result error CurrentNode :=
  NewCurrentNodeWithMaterializedValues reference ∅ {| TransitionParameters := ∅ |} sessionID scheduling.
Definition NewCurrentNodeWithEntry reference (enteredByEdgeID : option EdgeID) currentInputValues priorValues sessionID scheduling
    : result error CurrentNode :=
  node ← NewCurrentNodeWithMaterializedValues reference currentInputValues priorValues sessionID scheduling;
  match enteredByEdgeID with
  | None => Ok node
  | Some edgeID =>
    let edgeID := TrimSpace edgeID in
    if edgeID ==? "" then Err "current node entering edge id must be non-empty when present"
    else Ok {| cn_Reference := cn_Reference node; cn_EnteredByEdgeID := Some edgeID;
               cn_CurrentInputValues := cn_CurrentInputValues node; cn_PriorValues := cn_PriorValues node;
               cn_SessionID := cn_SessionID node; cn_ContinuationSource := cn_ContinuationSource node;
               cn_Scheduling := cn_Scheduling node; cn_AgentExecutionSelection := cn_AgentExecutionSelection node |}
  end.
End nodes.
Arguments CurrentNode : clear implicits.

Lemma CurrentNodeReference_Equal_eq (r r' : CurrentNodeReference) : CurrentNodeReference_Equal r r' = true ↔ r = r'.
Proof.
  destruct r as [t n b], r' as [t' n' b']. unfold CurrentNodeReference_Equal, TransitionBranchKey_of; cbn.
  destruct b, b'; repeat case_bool_decide; cbn; naive_solver.
Qed.
Lemma NewCurrentNodeReference_idemp task id key r : NewCurrentNodeReference task id key = Ok r →
  NewCurrentNodeReference (cnr_TaskID r) (cnr_NodeID r) (cnr_transitionBranchKey r) = Ok r.
Proof.
  unfold NewCurrentNodeReference. destruct (CurrentNodeReference_Validate _) eqn:Hv; [done|]. intros [= <-].
  cbn [cnr_TaskID cnr_NodeID cnr_transitionBranchKey].
  assert (TrimSpace <$> (TrimSpace <$> key) = TrimSpace <$> key) as -> by (destruct key; cbn; by rewrite ?TrimSpace_idemp).
  by rewrite !TrimSpace_idemp, Hv.
Qed.
