(* ===== verification/CurrentStateClaims.v ===== *)
(** * Current nodes: what the constructors guarantee *)
From Stdlib Require Import ZArith String.
From stdpp Require Import gmap strings list.
From S2P Require Import Prelude GoStrings Types Fanout Selection CurrentState.

Local Open Scope string_scope.

(** ** Checks *)
Lemma first_error_None checks : first_error checks = None ↔ ∀ c, c ∈ checks → c = None.
Proof.
  unfold first_error. induction checks as [|[e|] checks IH]; cbn.
  - split; [by intros _ ? ?%elem_of_nil|done].
  - split; [done|]. intros H. specialize (H (Some e) ltac:(left)). done.
  - rewrite IH. setoid_rewrite elem_of_cons. naive_solver.
Qed.
Lemma first_error_range `{RangeOrder} {V} (f : string * V → option error) (m : gmap string V) :
  first_error (f <$> range_map m) = None ↔ ∀ k v, m !! k = Some v → f (k, v) = None.
Proof.
  rewrite first_error_None. setoid_rewrite list_elem_of_fmap. split.
  - intros Hf k v Hk. apply Hf. exists (k, v). by rewrite elem_of_range_map.
  - intros Hf c ([k v] & -> & Hk%elem_of_range_map). auto.
Qed.
Lemma first_error_cons c checks : first_error (c :: checks) = None ↔ c = None ∧ first_error checks = None.
Proof. rewrite !first_error_None. setoid_rewrite elem_of_cons. naive_solver. Qed.
Lemma check_None b message : check b message = None ↔ b = false.
Proof. by destruct b. Qed.
Lemma bind_None_iff {A} (o : option A) (f : A → option error) : o ≫= f = None ↔ ∀ a, o = Some a → f a = None.
Proof. destruct o; cbn; naive_solver. Qed.

(** ** Well-formed current nodes *)
Section well_formed.
Context {order : RangeOrder} {L : Type} (protovalidate : L → option error).

Definition wf_reference (r : CurrentNodeReference) : Prop :=
  cnr_TaskID r ≠ "" ∧ cnr_NodeID r ≠ "" ∧ cnr_transitionBranchKey r ≠ Some "".
Definition wf_names (m : gmap string string) : Prop := ∀ name, is_Some (m !! name) → blank name = false.
Definition wf_prior (v : MaterializedPriorValues) : Prop :=
  ∀ key fields, TransitionParameters v !! key = Some fields → blank key = false ∧ fields ≠ ∅ ∧ wf_names fields.
Definition wf_source (s : MaterializedContinuationSource) : Prop :=
  (mcs_kind s = MaterializedContinuationSourceExact ∧ ∃ id, mcs_sessionID s = Some id ∧ id ≠ 0%N) ∨
  (mcs_kind s ∈ [MaterializedContinuationSourceDeferredSelf; MaterializedContinuationSourceLegacy; MaterializedContinuationSourceAbsent]
     ∧ mcs_sessionID s = None).
Definition wf_unavailable (u : ConfiguredExecutionTargetUnavailable) : Prop :=
  validConcreteExecutionTargetMode (cu_Mode u) = true ∧ cu_Cause u ∈ ExecutionTargetUnavailableCauses ∧
  if decide (cu_Mode u = ExecutionTargetModeCustomRef) then ∃ ref, cu_RequestedRef u = Some ref ∧ blank ref = false
  else cu_RequestedRef u = None.
Definition wf_detail (d : CurrentNodeInterruptionDetail (LockedExecutionTargetDetails:=L)) : Prop :=
  wf_names (id_Fields d) ∧
  (∀ u, id_ConfiguredExecutionTargetUnavailable d = Some u → wf_unavailable u ∧ id_OriginalExecutionTargetUnavailable d = None) ∧
  (∀ u, id_OriginalExecutionTargetUnavailable d = Some u → protovalidate u = None).
(** Exactly the interrupted nodes carry an interruption. *)
Definition wf_scheduling (s : CurrentNodeScheduling (LockedExecutionTargetDetails:=L)) : Prop :=
  match sch_Interruption s with
  | Some i => sch_State s = CurrentNodeSchedulingInterrupted ∧ blank (ci_Reason i) = false ∧ ci_OccurredAt i ≠ 0%Z ∧ wf_detail (ci_Detail i)
  | None => sch_State s ∈ [CurrentNodeSchedulingReady; CurrentNodeSchedulingAdmitted; CurrentNodeSchedulingFailed]
  end.
Definition wf_node (n : CurrentNode L) : Prop :=
  wf_reference (cn_Reference n) ∧ cn_EnteredByEdgeID n ≠ Some "" ∧ wf_names (cn_CurrentInputValues n) ∧
  wf_prior (cn_PriorValues n) ∧ cn_SessionID n ≠ Some 0%N ∧ wf_source (cn_ContinuationSource n) ∧
  (∀ s, cn_Scheduling n = Some s → wf_scheduling s) ∧
  (∀ s, cn_AgentExecutionSelection n = Some s → AgentExecutionSelection_Validate s = None).

Lemma reference_valid r : CurrentNodeReference_Validate r = None ↔ wf_reference r.
Proof.
  unfold CurrentNodeReference_Validate, wf_reference. repeat case_bool_decide; naive_solver.
Qed.
Lemma names_valid m message :
  first_error ((λ '(name, _), check (blank name) message) <$> range_map m) = None ↔ wf_names m.
Proof.
  rewrite (first_error_range (λ '(name, _), check (blank name) message)). setoid_rewrite check_None. unfold wf_names, is_Some. naive_solver.
Qed.
Lemma prior_valid v : validateMaterializedPriorValueNamespace (TransitionParameters v) = None ↔ wf_prior v.
Proof.
  unfold validateMaterializedPriorValueNamespace, wf_prior. rewrite first_error_range.
  assert (∀ key (fields : gmap string string),
    (if blank key then Some "current node prior transition parameter key is required"
     else if size fields ==? 0%nat then Some "current node prior transition parameter values are required"
     else first_error ((λ '(fieldName, _),
       check (blank fieldName) "current node prior transition parameter field name is required") <$> range_map fields)) = None
    ↔ blank key = false ∧ fields ≠ ∅ ∧ wf_names fields) as Hiff.
  { intros key fields. destruct (blank key); [naive_solver|].
    destruct (bool_decide_reflect (size fields = 0%nat)) as [Hs|Hs].
    - apply map_size_empty_inv in Hs as ->. naive_solver.
    - rewrite names_valid. assert (fields ≠ ∅) by (intros ->; by apply Hs). naive_solver. }
  setoid_rewrite Hiff. done.
Qed.
Lemma source_valid s : MaterializedContinuationSource_Validate s = None ↔ wf_source s.
Proof.
  unfold MaterializedContinuationSource_Validate, wf_source, check, IsZero. destruct s as [kind id]; cbn.
  destruct (bool_decide_reflect (kind = MaterializedContinuationSourceExact)) as [->|Hne].
  - destruct id as [id|]; [case_bool_decide|]; set_solver.
  - destruct (bool_decide_reflect (kind ∈ [MaterializedContinuationSourceDeferredSelf;
      MaterializedContinuationSourceLegacy; MaterializedContinuationSourceAbsent])); [|naive_solver].
    destruct id; naive_solver.
Qed.
Lemma unavailable_valid u : ConfiguredExecutionTargetUnavailable_Validate u = None ↔ wf_unavailable u.
Proof.
  unfold ConfiguredExecutionTargetUnavailable_Validate, ExecutionTargetSelection_Validate, wf_unavailable, check.
  destruct u as [mode ref cause]; cbn. destruct (validConcreteExecutionTargetMode mode); cbn; [|naive_solver].
  destruct (decide (mode = ExecutionTargetModeCustomRef)) as [->|Hne].
  - rewrite bool_decide_eq_true_2 by done. cbn [negb]. destruct ref as [ref|]; [destruct (blank ref) eqn:Hb|].
    + split; [done|]. intros (_ & _ & ? & [= <-] & ?). congruence.
    + destruct (bool_decide_reflect (cause ∈ ExecutionTargetUnavailableCauses)); naive_solver.
    + naive_solver.
  - rewrite bool_decide_eq_false_2 by done. cbn [negb]. destruct ref as [ref|]; cbn; [naive_solver|].
    destruct (bool_decide_reflect (cause ∈ ExecutionTargetUnavailableCauses)); naive_solver.
Qed.
Lemma detail_valid d : CurrentNodeInterruptionDetail_Validate protovalidate d = None ↔ wf_detail d.
Proof.
  unfold CurrentNodeInterruptionDetail_Validate, wf_detail. rewrite !first_error_cons, names_valid, bind_None_iff.
  setoid_rewrite unavailable_valid.
  destruct (id_ConfiguredExecutionTargetUnavailable d), (id_OriginalExecutionTargetUnavailable d); naive_solver.
Qed.
Lemma scheduling_valid s : validateCurrentNodeScheduling protovalidate (Some s) = None ↔ wf_scheduling s.
Proof.
  unfold validateCurrentNodeScheduling, wf_scheduling. destruct s as [state [i|]]; cbn [sch_State sch_Interruption].
  - destruct (bool_decide_reflect (state = CurrentNodeSchedulingInterrupted)) as [->|Hne].
    + rewrite bool_decide_eq_true_2 by set_solver. cbn [negb]. destruct (blank (ci_Reason i)); [naive_solver|].
      destruct (Z.eqb_spec (ci_OccurredAt i) 0); [naive_solver|]. rewrite detail_valid. naive_solver.
    + case_match; naive_solver.
  - destruct (bool_decide_reflect (state = CurrentNodeSchedulingInterrupted)) as [->|Hne].
    + rewrite bool_decide_eq_true_2 by set_solver. cbn [negb]. split; [done|]. set_solver.
    + destruct (bool_decide_reflect (state ∈ [CurrentNodeSchedulingReady; CurrentNodeSchedulingAdmitted;
        CurrentNodeSchedulingInterrupted; CurrentNodeSchedulingFailed])); cbn [negb]; set_solver.
Qed.

(** ** Construction *)
Lemma construct reference inputs prior session source scheduling selection :
  let node := {| cn_Reference := reference; cn_EnteredByEdgeID := None; cn_CurrentInputValues := inputs;
                 cn_PriorValues := prior; cn_SessionID := session; cn_ContinuationSource := source;
                 cn_Scheduling := scheduling; cn_AgentExecutionSelection := selection |} in
  match NewCurrentNodeWithMaterializedSource protovalidate reference inputs prior session source scheduling selection with
  | Ok n => n = node ∧ wf_node node
  | Err _ => ¬ wf_node node
  end.
Proof.
  cbv zeta. unfold NewCurrentNodeWithMaterializedSource.
  match goal with |- context [first_error ?l] => assert (first_error l = None ↔
    wf_node {| cn_Reference := reference; cn_EnteredByEdgeID := None; cn_CurrentInputValues := inputs;
                 cn_PriorValues := prior; cn_SessionID := session; cn_ContinuationSource := source;
                 cn_Scheduling := scheduling; cn_AgentExecutionSelection := selection |}) as H;
    [|destruct (first_error l); naive_solver] end.
  rewrite !first_error_cons, !bind_None_iff, reference_valid, source_valid.
  unfold validateCurrentNodeValueEnvironment. rewrite !first_error_cons, names_valid, prior_valid.
  unfold wf_node; cbn [cn_Reference cn_EnteredByEdgeID cn_CurrentInputValues cn_PriorValues cn_SessionID
    cn_ContinuationSource cn_Scheduling cn_AgentExecutionSelection].
  assert (validateCurrentNodeScheduling protovalidate scheduling = None ↔ ∀ s, scheduling = Some s → wf_scheduling s) as ->.
  { destruct scheduling as [s|]; [rewrite scheduling_valid|]; naive_solver. }
  assert ((∀ a, session = Some a → check (IsZero a) "current node session id must be non-zero when present" = None)
    ↔ session ≠ Some 0%N) as ->.
  { setoid_rewrite check_None. unfold IsZero. setoid_rewrite bool_decide_eq_false. naive_solver. }
  assert ((∀ a, selection = Some a → match AgentExecutionSelection_Validate a with
             | Some _ => Some "current node Agent execution selection" | None => None end = None)
    ↔ ∀ a, selection = Some a → AgentExecutionSelection_Validate a = None) as ->.
  { split; intros H a Ha; specialize (H a Ha); by destruct (AgentExecutionSelection_Validate a). }
  assert (first_error [] = None) by done. naive_solver.
Qed.
End well_formed.

Lemma Key_inj r r' k : CurrentNodeReference_Key r = Ok k → CurrentNodeReference_Key r' = Ok k → r = r'.
Proof.
  unfold CurrentNodeReference_Key, TransitionBranchKey_of. destruct r as [t n b], r' as [t' n' b']; cbn.
  destruct (CurrentNodeReference_Validate _); [done|]. destruct (CurrentNodeReference_Validate _); [done|].
  destruct b, b'; cbn; naive_solver.
Qed.
Lemma Key_valid r k : CurrentNodeReference_Key r = Ok k → wf_reference r.
Proof.
  rewrite <- reference_valid. unfold CurrentNodeReference_Key. by destruct (CurrentNodeReference_Validate r).
Qed.

(** ** Claims *)

(** C37. The constructors of current nodes build exactly the well-formed ones:
    the construction succeeds if and only if the node of the given parts is
    well-formed (named task, node and branch, named values, a continuation
    source with a session exactly when exact, an interruption exactly when
    interrupted, a valid agent selection, a named entering edge), whatever the
    order of map iteration, and the node has exactly the given parts. *)
Theorem NewCurrentNode_correct {order : RangeOrder} {L : Type} (protovalidate : L → option error)
    reference entered inputs prior session source scheduling selection :
  (let node := {| cn_Reference := reference; cn_EnteredByEdgeID := None; cn_CurrentInputValues := inputs;
                  cn_PriorValues := prior; cn_SessionID := session; cn_ContinuationSource := source;
                  cn_Scheduling := scheduling; cn_AgentExecutionSelection := selection |} in
   match NewCurrentNodeWithMaterializedSource protovalidate reference inputs prior session source scheduling selection with
   | Ok n => n = node ∧ wf_node protovalidate node
   | Err _ => ¬ wf_node protovalidate node
   end) ∧
  (let node := {| cn_Reference := reference; cn_EnteredByEdgeID := TrimSpace <$> entered; cn_CurrentInputValues := inputs;
                  cn_PriorValues := prior; cn_SessionID := session; cn_ContinuationSource := AbsentMaterializedContinuationSource;
                  cn_Scheduling := scheduling; cn_AgentExecutionSelection := None |} in
   match NewCurrentNodeWithEntry protovalidate reference entered inputs prior session scheduling with
   | Ok n => n = node ∧ wf_node protovalidate node
   | Err _ => ¬ wf_node protovalidate node
   end).
Proof.
  split; [apply construct|]. cbv zeta.
  unfold NewCurrentNodeWithEntry, NewCurrentNodeWithMaterializedValues, NewCurrentNodeWithExecutionSelection.
  pose proof (construct protovalidate reference inputs prior session AbsentMaterializedContinuationSource scheduling None) as H.
  destruct (NewCurrentNodeWithMaterializedSource _ _ _ _ _ _ _ _) as [n|e]; cbn.
  - destruct H as [-> (Hr & _ & Hi & Hp & Hs & Hc & Hsch & Hsel)]. destruct entered as [edge|]; cbn.
    + destruct (bool_decide_reflect (TrimSpace edge = "")) as [He|He].
      * intros (_ & H & _). cbn in H. congruence.
      * split; [done|]. unfold wf_node; cbn. split_and!; try done. by intros [= ?].
    + split; [done|]. unfold wf_node; cbn. split_and!; done.
  - intros (Hr & _ & Hi & Hp & Hs & Hc & Hsch & Hsel). apply H. unfold wf_node; cbn in *. split_and!; try done.
Qed.

(** References identify places: equality, the comparable key and the
    reference itself agree, the key exists exactly for well-formed references,
    and a constructed reference is well-formed and constructed again from its
    own parts. *)
Theorem reference_identity :
  (∀ r r', CurrentNodeReference_Equal r r' = true ↔ r = r') ∧
  (∀ r, (∃ k, CurrentNodeReference_Key r = Ok k) ↔ wf_reference r) ∧
  (∀ r r' k, CurrentNodeReference_Key r = Ok k → CurrentNodeReference_Key r' = Ok k ↔ r = r') ∧
  (∀ taskID nodeID branch r, NewCurrentNodeReference taskID nodeID branch = Ok r →
    wf_reference r ∧ NewCurrentNodeReference (cnr_TaskID r) (cnr_NodeID r) (cnr_transitionBranchKey r) = Ok r).
Proof.
  split_and!.
  - apply CurrentNodeReference_Equal_eq.
  - intros r. rewrite <- reference_valid. unfold CurrentNodeReference_Key, TransitionBranchKey_of.
    destruct (CurrentNodeReference_Validate r); [naive_solver|]. destruct (cnr_transitionBranchKey r); naive_solver.
  - intros r r' k Hk. split; [by apply Key_inj|by intros <-].
  - intros t n b r E. split; [|by eapply NewCurrentNodeReference_idemp]. apply reference_valid. revert E.
    unfold NewCurrentNodeReference. destruct (CurrentNodeReference_Validate _) eqn:Hv; [done|]. by intros [= <-].
Qed.
