(* ===== verification/SessionReuse.v ===== *)
(** * Session reuse analysis

    src/server/workflow/session_reuse_analysis.go: which sessions a path of a
    workflow can select again. The analyzer explores abstract path states over
    the graph, collecting the branches of a fan-out at their join; the static
    mode decides for [ValidateDefinition] whether every transition that needs
    one exact active session has it, the other mode classifies the reuse of a
    session that has just completed an agent node.

    The edges the static mode records in the shared map [staticInvalidEdges]
    are threaded through as a set. A nil map of overwritten associations is the
    empty one. *)
From Stdlib Require Import NArith String.
From stdpp Require Import gmap strings list.
From S2P Require Import Prelude GoStrings Types Reach Fanout Selection CurrentState.

Local Open Scope string_scope.

(** ** Path states *)
Inductive SessionReuseClassification :=
| SessionReuseNone | SessionReuseThresholdPossibleReuse | SessionReuseGuaranteedCACReuse.

Record SessionReuseAssociation := { sra_SessionID : SessionID; sra_CurrentNode : CurrentNodeReference }.

Record SessionReuseAnalysisInput (L : Type) := {
  in_Workflow : WorkflowDefinition; in_AcceptedBranches : list Edge;
  in_CompletedCurrentNode : CurrentNode L; in_RetainedAssociations : list SessionReuseAssociation }.
Arguments in_Workflow {_} _. Arguments in_AcceptedBranches {_} _.
Arguments in_CompletedCurrentNode {_} _. Arguments in_RetainedAssociations {_} _.

Inductive reuseLineage := reuseLineageAbsent | reuseLineageCompleted | reuseLineageOther | reuseLineageUnknown.
#[export] Instance reuseLineage_eq_dec : EqDecision reuseLineage.
Proof. solve_decision. Defined.
#[export] Instance reuseLineage_countable : Countable reuseLineage.
Proof.
  refine (inj_countable'
    (λ l, match l with reuseLineageAbsent => 0 | reuseLineageCompleted => 1 | reuseLineageOther => 2 | reuseLineageUnknown => 3 end)
    (λ n, match n with 0 => reuseLineageAbsent | 1 => reuseLineageCompleted | 2 => reuseLineageOther | _ => reuseLineageUnknown end) _).
  by intros [].
Defined.
Definition all_lineages : list reuseLineage :=
  [reuseLineageAbsent; reuseLineageCompleted; reuseLineageOther; reuseLineageUnknown].

Record reuseBranch := { rb_key : TransitionBranchKey; rb_scoped : bool }.
#[export] Instance reuseBranch_eq_dec : EqDecision reuseBranch.
Proof. solve_decision. Defined.
#[export] Instance reuseBranch_countable : Countable reuseBranch.
Proof.
  refine (inj_countable' (λ b, (rb_key b, rb_scoped b)) (λ p, {| rb_key := p.1; rb_scoped := p.2 |}) _).
  by intros [].
Defined.
(** Go's zero value. *)
Definition no_branch : reuseBranch := {| rb_key := ""; rb_scoped := false |}.

Inductive reuseJoinMode := reuseJoinPartial | reuseJoinComplete.
#[export] Instance reuseJoinMode_eq_dec : EqDecision reuseJoinMode.
Proof. solve_decision. Defined.

Inductive reuseOverwriteStatus := reuseOverwriteMaybe | reuseOverwriteDefinite.
#[export] Instance reuseOverwriteStatus_eq_dec : EqDecision reuseOverwriteStatus.
Proof. solve_decision. Defined.
(** A node and a branch. *)
Abbreviation reuseOverwriteKey := (prod NodeID reuseBranch) (only parsing).

Inductive staticContinuationSourceKind :=
| staticContinuationSourceAbsent | staticContinuationSourceExact | staticContinuationSourceDivergent.
#[export] Instance staticContinuationSourceKind_eq_dec : EqDecision staticContinuationSourceKind.
Proof. solve_decision. Defined.
#[export] Instance staticContinuationSourceKind_countable : Countable staticContinuationSourceKind.
Proof.
  refine (inj_countable'
    (λ k, match k with staticContinuationSourceAbsent => 0 | staticContinuationSourceExact => 1 | staticContinuationSourceDivergent => 2 end)
    (λ n, match n with 0 => staticContinuationSourceAbsent | 1 => staticContinuationSourceExact | _ => staticContinuationSourceDivergent end) _).
  by intros [].
Defined.
Record staticContinuationSource := { sc_kind : staticContinuationSourceKind; sc_nodeID : NodeID; sc_branch : reuseBranch }.
#[export] Instance staticContinuationSource_eq_dec : EqDecision staticContinuationSource.
Proof. solve_decision. Defined.
#[export] Instance staticContinuationSource_countable : Countable staticContinuationSource.
Proof.
  refine (inj_countable' (λ s, (sc_kind s, sc_nodeID s, sc_branch s))
    (λ p, {| sc_kind := p.1.1; sc_nodeID := p.1.2; sc_branch := p.2 |}) _).
  by intros [].
Defined.
Definition absent_source : staticContinuationSource :=
  {| sc_kind := staticContinuationSourceAbsent; sc_nodeID := ""; sc_branch := no_branch |}.
Definition divergent_source : staticContinuationSource :=
  {| sc_kind := staticContinuationSourceDivergent; sc_nodeID := ""; sc_branch := no_branch |}.
Definition exact_source (nodeID : NodeID) (branch : reuseBranch) : staticContinuationSource :=
  {| sc_kind := staticContinuationSourceExact; sc_nodeID := nodeID; sc_branch := branch |}.

Record reuseFanoutEntryState := {
  fe_currentLineage : reuseLineage; fe_activeSourceSessionID : SessionID; fe_activeSourceKnown : bool;
  fe_completedDormant : bool; fe_staticSource : staticContinuationSource }.
#[export] Instance reuseFanoutEntryState_eq_dec : EqDecision reuseFanoutEntryState.
Proof. solve_decision. Defined.
#[export] Instance reuseFanoutEntryState_countable : Countable reuseFanoutEntryState.
Proof.
  refine (inj_countable'
    (λ e, (fe_currentLineage e, fe_activeSourceSessionID e, fe_activeSourceKnown e, fe_completedDormant e, fe_staticSource e))
    (λ p, {| fe_currentLineage := p.1.1.1.1; fe_activeSourceSessionID := p.1.1.1.2; fe_activeSourceKnown := p.1.1.2;
             fe_completedDormant := p.1.2; fe_staticSource := p.2 |}) _).
  by intros [].
Defined.
Definition zero_entry : reuseFanoutEntryState := {|
  fe_currentLineage := reuseLineageAbsent; fe_activeSourceSessionID := 0%N; fe_activeSourceKnown := false;
  fe_completedDormant := false; fe_staticSource := absent_source |}.

Record staticFanout := { sf_joinID : NodeID; sf_siblings : list TransitionBranchKey }.
Record staticFanoutInvocation := {
  si_groupID : TransitionGroupID; si_incomingBranch : reuseBranch; si_entry : reuseFanoutEntryState;
  si_sibling : TransitionBranchKey; si_joinID : NodeID }.
#[export] Instance staticFanoutInvocation_eq_dec : EqDecision staticFanoutInvocation.
Proof. solve_decision. Defined.
Definition no_invocation : staticFanoutInvocation := {|
  si_groupID := ""; si_incomingBranch := no_branch; si_entry := zero_entry; si_sibling := ""; si_joinID := "" |}.
Abbreviation staticFanoutInvocationKey :=
  (TransitionGroupID * reuseBranch * reuseFanoutEntryState * NodeID)%type (only parsing).
Definition aggregationKey (i : staticFanoutInvocation) : staticFanoutInvocationKey :=
  (si_groupID i, si_incomingBranch i, si_entry i, si_joinID i).

Record reusePathState := {
  ps_nodeID : NodeID; ps_branch : reuseBranch; ps_currentLineage : reuseLineage;
  ps_activeSourceSessionID : SessionID; ps_activeSourceKnown : bool;
  ps_completedDormant : bool; ps_dormancyBlocked : bool;
  ps_overwritten : gmap reuseOverwriteKey reuseOverwriteStatus;
  ps_staticSource : staticContinuationSource; ps_staticInvocation : staticFanoutInvocation;
  ps_joinMode : reuseJoinMode }.

Definition set_invocation (invocation : staticFanoutInvocation) (mode : reuseJoinMode) (s : reusePathState) : reusePathState := {|
  ps_nodeID := ps_nodeID s; ps_branch := ps_branch s; ps_currentLineage := ps_currentLineage s;
  ps_activeSourceSessionID := ps_activeSourceSessionID s; ps_activeSourceKnown := ps_activeSourceKnown s;
  ps_completedDormant := ps_completedDormant s; ps_dormancyBlocked := ps_dormancyBlocked s;
  ps_overwritten := ps_overwritten s; ps_staticSource := ps_staticSource s;
  ps_staticInvocation := invocation; ps_joinMode := mode |}.
Definition set_source (source : staticContinuationSource) (s : reusePathState) : reusePathState := {|
  ps_nodeID := ps_nodeID s; ps_branch := ps_branch s; ps_currentLineage := ps_currentLineage s;
  ps_activeSourceSessionID := ps_activeSourceSessionID s; ps_activeSourceKnown := ps_activeSourceKnown s;
  ps_completedDormant := ps_completedDormant s; ps_dormancyBlocked := ps_dormancyBlocked s;
  ps_overwritten := ps_overwritten s; ps_staticSource := source;
  ps_staticInvocation := ps_staticInvocation s; ps_joinMode := ps_joinMode s |}.
Definition set_place (nodeID : NodeID) (branch : reuseBranch) (s : reusePathState) : reusePathState := {|
  ps_nodeID := nodeID; ps_branch := branch; ps_currentLineage := ps_currentLineage s;
  ps_activeSourceSessionID := ps_activeSourceSessionID s; ps_activeSourceKnown := ps_activeSourceKnown s;
  ps_completedDormant := ps_completedDormant s; ps_dormancyBlocked := ps_dormancyBlocked s;
  ps_overwritten := ps_overwritten s; ps_staticSource := ps_staticSource s;
  ps_staticInvocation := ps_staticInvocation s; ps_joinMode := ps_joinMode s |}.
Definition set_overwritten (o : gmap reuseOverwriteKey reuseOverwriteStatus) (s : reusePathState) : reusePathState := {|
  ps_nodeID := ps_nodeID s; ps_branch := ps_branch s; ps_currentLineage := ps_currentLineage s;
  ps_activeSourceSessionID := ps_activeSourceSessionID s; ps_activeSourceKnown := ps_activeSourceKnown s;
  ps_completedDormant := ps_completedDormant s; ps_dormancyBlocked := ps_dormancyBlocked s;
  ps_overwritten := o; ps_staticSource := ps_staticSource s;
  ps_staticInvocation := ps_staticInvocation s; ps_joinMode := ps_joinMode s |}.

(** Two path states with the same structure are one state of the graph. *)
Definition sameReusePathState (l r : reusePathState) : bool :=
  (ps_nodeID l ==? ps_nodeID r) && (ps_branch l ==? ps_branch r) &&
  (ps_currentLineage l ==? ps_currentLineage r) &&
  (ps_activeSourceSessionID l ==? ps_activeSourceSessionID r) &&
  (ps_activeSourceKnown l ==? ps_activeSourceKnown r) &&
  (ps_staticSource l ==? ps_staticSource r) && (ps_staticInvocation l ==? ps_staticInvocation r) &&
  (ps_joinMode l ==? ps_joinMode r) && (ps_completedDormant l ==? ps_completedDormant r) &&
  (ps_dormancyBlocked l ==? ps_dormancyBlocked r).

Fixpoint graphStateID (state : reusePathState) (states : list reusePathState) : option nat :=
  match states with
  | [] => None
  | candidate :: rest => if sameReusePathState candidate state then Some 0 else S <$> graphStateID state rest
  end.

Definition fanoutEntryState (state : reusePathState) : reuseFanoutEntryState := {|
  fe_currentLineage := ps_currentLineage state; fe_activeSourceSessionID := ps_activeSourceSessionID state;
  fe_activeSourceKnown := ps_activeSourceKnown state; fe_completedDormant := ps_completedDormant state;
  fe_staticSource := ps_staticSource state |}.

(** ** Overwritten associations *)
Abbreviation overwritten := (gmap reuseOverwriteKey reuseOverwriteStatus) (only parsing).

(** The merge at converging paths: definite only when both are. *)
Definition merged_status (l r : option reuseOverwriteStatus) : option reuseOverwriteStatus :=
  match l, r with
  | None, None => None
  | Some reuseOverwriteDefinite, Some reuseOverwriteDefinite => Some reuseOverwriteDefinite
  | _, _ => Some reuseOverwriteMaybe
  end.
Definition mergeOverwritten (l r : overwritten) : overwritten * bool :=
  if size r ==? 0 then (l, false)
  else
    let changed :=
      negb (bool_decide (map_Forall (λ key status, merged_status (Some status) (r !! key) = Some status) l)) ||
      negb (bool_decide (map_Forall (λ key _, is_Some (l !! key)) r)) in
    if changed then (merge merged_status l r, true) else (l, false).

(** The merge at a join: definite when one branch is. *)
Definition joined_status (l r : option reuseOverwriteStatus) : option reuseOverwriteStatus :=
  match l, r with
  | l, None => l
  | None, Some status => Some status
  | Some existing, Some status =>
    if (status ==? reuseOverwriteDefinite) || (existing ==? reuseOverwriteMaybe) then Some status else Some existing
  end.
Definition mergeCompleteJoinOverwritten (l r : overwritten) : overwritten := merge joined_status l r.

Definition reduceJoinState (l r : reusePathState) : reusePathState :=
  let known := ps_activeSourceKnown l && ps_activeSourceKnown r &&
    (ps_activeSourceSessionID l ==? ps_activeSourceSessionID r) in {|
  ps_nodeID := ps_nodeID l; ps_branch := ps_branch l;
  ps_currentLineage := if ps_currentLineage l <>? ps_currentLineage r then reuseLineageUnknown else ps_currentLineage l;
  ps_activeSourceSessionID := if known then ps_activeSourceSessionID l else 0%N;
  ps_activeSourceKnown := if known then ps_activeSourceKnown l else false;
  ps_completedDormant := ps_completedDormant l || ps_completedDormant r;
  ps_dormancyBlocked := ps_dormancyBlocked l || ps_dormancyBlocked r;
  ps_overwritten := mergeCompleteJoinOverwritten (ps_overwritten l) (ps_overwritten r);
  ps_staticSource := ps_staticSource l; ps_staticInvocation := ps_staticInvocation l; ps_joinMode := ps_joinMode l |}.

(** ** Branches *)
Definition sameReuseBranch (branch : reuseBranch) (reference : CurrentNodeReference) : bool :=
  let '(associationBranch, associationScoped) := TransitionBranchKey_of reference in
  if rb_scoped branch <>? associationScoped then false
  else negb (rb_scoped branch) || (rb_key branch ==? associationBranch).

Definition reuseBranchForReference (reference : CurrentNodeReference) : reuseBranch :=
  let '(key, scoped) := TransitionBranchKey_of reference in {| rb_key := key; rb_scoped := scoped |}.

Definition acceptedBranchesFanout (edges : list Edge) : bool :=
  match edges with
  | first :: ((_ :: _) as rest) => forallb (λ edge, e_TransitionGroupID edge ==? e_TransitionGroupID first) rest
  | _ => false
  end.

Definition nextReuseBranch (current : reuseBranch) (edge : Edge) (target : Node) (groupEdgeCount : nat) : reuseBranch :=
  if Kind target ==? NodeKindJoin then no_branch
  else if (1 <? groupEdgeCount)%nat then
    let key := TrimSpace (e_Key edge) in
    if key <>? "" then {| rb_key := key; rb_scoped := true |} else current
  else current.

Definition reuseContextLookupBranch (sourceBranch targetBranch : reuseBranch) (source : ContextSource) : reuseBranch * bool :=
  let kind := cs_Kind (CanonicalContextSource source) in
  if kind ==? ContextSourceSelectedNode then (sourceBranch, true)
  else if (kind ==? ContextSourcePreviousTarget) || (kind ==? ContextSourcePreviousTargetOrNew) then (targetBranch, true)
  else (no_branch, false).

Definition isRetainedTargetContextSource (source : ContextSource) : bool :=
  let kind := cs_Kind (CanonicalContextSource source) in
  (kind ==? ContextSourcePreviousTarget) || (kind ==? ContextSourcePreviousTargetOrNew).

(** ** The analyzer *)
Record reuseTransition := { rt_target : reusePathState; rt_possibleReuse : bool; rt_guaranteedCAC : bool }.
(** A group of transitions. *)
Abbreviation reuseGroup := (list reuseTransition) (only parsing).

Record sessionReuseAnalyzer := {
  an_taskID : TaskID;
  an_retainedAssociations : list SessionReuseAssociation;
  an_completedSessionID : SessionID;
  an_nodesByID : gmap NodeID Node;
  an_nodeIDsByKey : gmap ModelKey NodeID;
  an_groupsBySource : gmap NodeID (list TransitionGroup);
  an_edgesByGroup : gmap TransitionGroupID (list Edge);
  an_staticValidation : bool;
  an_staticFanouts : gmap TransitionGroupID staticFanout }.

Section analyzer.
Context (a : sessionReuseAnalyzer).

Definition transferStaticContinuationSource (source : staticContinuationSource) (sourceNodeID : NodeID)
    (sourceBranch targetBranch : reuseBranch) (edge : Edge) (target : Node) : staticContinuationSource :=
  if Kind target ==? NodeKindTerminal then absent_source
  else if e_ContextMode edge ==? ContextModeNewSession then
    if Kind target <>? NodeKindAgent then source else exact_source (e_TargetNodeID edge) targetBranch
  else if (e_ContextMode edge <>? ContextModeContinueSession) && (e_ContextMode edge <>? ContextModeCompactAndContinueSession) then
    absent_source
  else
    let contextSource := CanonicalContextSource (e_ContextSource edge) in
    let kind := cs_Kind contextSource in
    if kind ==? ContextSourceImmediateSource then
      match an_nodesByID a !! sourceNodeID with
      | Some sourceNode => if Kind sourceNode ==? NodeKindAgent then exact_source sourceNodeID sourceBranch else source
      | None => source
      end
    else if (kind ==? ContextSourcePreviousTarget) || (kind ==? ContextSourcePreviousTargetOrNew) then source
    else if kind ==? ContextSourceSelectedNode then
      match an_nodeIDsByKey a !! cs_NodeKey contextSource with
      | Some nodeID => exact_source nodeID sourceBranch
      | None => absent_source
      end
    else absent_source.

(** The newest association of the node on the branch. *)
Definition find_association (branch : reuseBranch) (nodeID : NodeID) : option SessionReuseAssociation :=
  head (filter (λ association,
    cnr_TaskID (sra_CurrentNode association) = an_taskID a ∧ cnr_NodeID (sra_CurrentNode association) = nodeID ∧
    sameReuseBranch branch (sra_CurrentNode association) = true) (reverse (an_retainedAssociations a))).

(** The lineage, the session of the association (zero without one), and whether
    one was found. *)
Definition associatedLineage (state : reusePathState) (branch : reuseBranch) (nodeID : NodeID) (optional : bool)
    : reuseLineage * SessionID * bool :=
  let status := ps_overwritten state !! (nodeID, branch) in
  if status ==? Some reuseOverwriteDefinite then (reuseLineageOther, 0%N, true)
  else match find_association branch nodeID with
  | Some association =>
    if sra_SessionID association ==? an_completedSessionID a then
      if status ==? Some reuseOverwriteMaybe then (reuseLineageUnknown, sra_SessionID association, true)
      else (reuseLineageCompleted, sra_SessionID association, true)
    else (reuseLineageOther, sra_SessionID association, true)
  | None =>
    if status <>? None then (reuseLineageOther, 0%N, true)
    else if optional then (reuseLineageOther, 0%N, false)
    else (reuseLineageAbsent, 0%N, false)
  end.

(** Lineage, session, whether it is known, whether the target is selected. *)
Definition resolveContextSource (state : reusePathState) (source : ContextSource) (target : Node) (targetBranch : reuseBranch)
    : reuseLineage * SessionID * bool * bool :=
  let canonical := CanonicalContextSource source in
  let kind := cs_Kind canonical in
  if kind ==? ContextSourceImmediateSource then
    match ps_currentLineage state with
    | reuseLineageCompleted => (ps_currentLineage state, an_completedSessionID a, true, true)
    | reuseLineageAbsent => (ps_currentLineage state, ps_activeSourceSessionID state, ps_activeSourceKnown state, true)
    | _ => (ps_currentLineage state, 0%N, false, true)
    end
  else if kind ==? ContextSourceSelectedNode then
    match an_nodeIDsByKey a !! cs_NodeKey canonical with
    | None => (reuseLineageUnknown, 0%N, false, true)
    | Some nodeID =>
      let lookupBranch := (reuseContextLookupBranch (ps_branch state) targetBranch canonical).1 in
      let '(lineage, session, found) := associatedLineage state lookupBranch nodeID true in
      if negb found then (lineage, 0%N, false, true) else (lineage, session, true, true)
    end
  else if kind ==? ContextSourcePreviousTarget then
    let lookupBranch := (reuseContextLookupBranch (ps_branch state) targetBranch canonical).1 in
    let '(lineage, _, found) := associatedLineage state lookupBranch (NodeIDOf target) false in
    (lineage, ps_activeSourceSessionID state, ps_activeSourceKnown state, found)
  else if kind ==? ContextSourcePreviousTargetOrNew then
    let lookupBranch := (reuseContextLookupBranch (ps_branch state) targetBranch canonical).1 in
    let '(lineage, _, found) := associatedLineage state lookupBranch (NodeIDOf target) true in
    if negb found then (reuseLineageOther, 0%N, false, true)
    else (lineage, ps_activeSourceSessionID state, ps_activeSourceKnown state, true)
  else (reuseLineageUnknown, 0%N, false, true).

Definition targetContext (state : reusePathState) (edge : Edge) (target : Node) (targetBranch : reuseBranch)
    : reuseLineage * SessionID * bool * bool :=
  let continues := (e_ContextMode edge ==? ContextModeContinueSession) || (e_ContextMode edge ==? ContextModeCompactAndContinueSession) in
  if Kind target <>? NodeKindAgent then
    if continues then
      let '(_, sourceSessionID, sourceKnown, selected) := resolveContextSource state (e_ContextSource edge) target targetBranch in
      (reuseLineageAbsent, sourceSessionID, sourceKnown, selected)
    else (reuseLineageAbsent, ps_activeSourceSessionID state, ps_activeSourceKnown state, true)
  else if e_ContextMode edge ==? ContextModeNewSession then (reuseLineageOther, 0%N, false, true)
  else if continues then resolveContextSource state (e_ContextSource edge) target targetBranch
  else (reuseLineageUnknown, 0%N, false, true).

(** Whether the static mode rejects the edge in this state. *)
Definition static_invalid (state : reusePathState) (edge : Edge) (target : Node) : bool :=
  (Kind target ==? NodeKindAgent) &&
  ((isRetainedTargetContextSource (e_ContextSource edge) && (sc_kind (ps_staticSource state) <>? staticContinuationSourceExact)) ||
   ((cs_Kind (CanonicalContextSource (e_ContextSource edge)) <>? ContextSourceSelectedNode) &&
    (e_ContextMode edge <>? ContextModeNewSession) &&
    (sc_kind (ps_staticSource state) ==? staticContinuationSourceDivergent))).

Definition apply_static (state : reusePathState) (edge : Edge) (target : Node) (targetBranch : reuseBranch) : reuseTransition := {|
  rt_target := {|
    ps_nodeID := e_TargetNodeID edge; ps_branch := targetBranch; ps_currentLineage := reuseLineageAbsent;
    ps_activeSourceSessionID := 0%N; ps_activeSourceKnown := false; ps_completedDormant := false;
    ps_dormancyBlocked := false; ps_overwritten := ∅;
    ps_staticSource := transferStaticContinuationSource (ps_staticSource state) (ps_nodeID state) (ps_branch state) targetBranch edge target;
    ps_staticInvocation := no_invocation; ps_joinMode := reuseJoinPartial |};
  rt_possibleReuse := false; rt_guaranteedCAC := false |}.

Definition apply_dynamic (state : reusePathState) (edge : Edge) (target : Node) (targetBranch : reuseBranch) : option reuseTransition :=
  let '(targetLineage, activeSourceSessionID, activeSourceKnown, selected) := targetContext state edge target targetBranch in
  if negb selected then None
  else
    let dormancyBlocked := ps_dormancyBlocked state ||
      (negb (ps_completedDormant state) && (ps_currentLineage state ==? reuseLineageCompleted) &&
       (targetLineage ==? reuseLineageCompleted) && negb (e_RequiresApproval edge)) in
    let completedDormant := ps_completedDormant state ||
      (negb dormancyBlocked && (e_RequiresApproval edge || (targetLineage <>? reuseLineageCompleted))) in
    let overwritten :=
      if (Kind target ==? NodeKindAgent) && (targetLineage <>? reuseLineageAbsent) && (targetLineage <>? reuseLineageCompleted)
      then <[(e_TargetNodeID edge, targetBranch) := reuseOverwriteDefinite]> (ps_overwritten state)
      else ps_overwritten state in
    let selectedCompleted := (targetLineage ==? reuseLineageCompleted) || (targetLineage ==? reuseLineageUnknown) in
    Some {|
      rt_target := {|
        ps_nodeID := e_TargetNodeID edge; ps_branch := targetBranch; ps_currentLineage := targetLineage;
        ps_activeSourceSessionID := activeSourceSessionID; ps_activeSourceKnown := activeSourceKnown;
        ps_completedDormant := completedDormant; ps_dormancyBlocked := dormancyBlocked; ps_overwritten := overwritten;
        ps_staticSource := absent_source; ps_staticInvocation := no_invocation; ps_joinMode := reuseJoinPartial |};
      rt_possibleReuse := selectedCompleted && completedDormant && negb dormancyBlocked;
      rt_guaranteedCAC := (e_ContextMode edge ==? ContextModeCompactAndContinueSession) &&
        (targetLineage ==? reuseLineageCompleted) && completedDormant && negb dormancyBlocked |}.

(** The transition of an edge, and the edges found invalid. *)
Definition applyEdge (state : reusePathState) (edge : Edge) : option reuseTransition * gset EdgeID :=
  match an_nodesByID a !! e_TargetNodeID edge with
  | None => (None, ∅)
  | Some target =>
    let targetBranch := nextReuseBranch (ps_branch state) edge target (length (getl (an_edgesByGroup a) (e_TransitionGroupID edge))) in
    if an_staticValidation a then
      (Some (apply_static state edge target targetBranch), if static_invalid state edge target then {[e_ID edge]} else ∅)
    else (apply_dynamic state edge target targetBranch, ∅)
  end.

Definition invocation_of (state : reusePathState) (groupID : TransitionGroupID) (edge : Edge) (fanout : staticFanout) : staticFanoutInvocation := {|
  si_groupID := groupID; si_incomingBranch := ps_branch state; si_entry := fanoutEntryState state;
  si_sibling := e_Key edge; si_joinID := sf_joinID fanout |}.

Definition with_target (f : reusePathState → reusePathState) (t : reuseTransition) : reuseTransition := {|
  rt_target := f (rt_target t); rt_possibleReuse := rt_possibleReuse t; rt_guaranteedCAC := rt_guaranteedCAC t |}.

Definition group_transition (state : reusePathState) (groupID : TransitionGroupID) (edge : Edge) : option reuseTransition :=
  with_target (match an_staticFanouts a !! groupID with
    | Some fanout => set_invocation (invocation_of state groupID edge fanout) reuseJoinComplete
    | None => set_invocation (ps_staticInvocation state) (ps_joinMode state)
    end) <$> (applyEdge state edge).1.

Definition stateGroups (state : reusePathState) : list reuseGroup :=
  (λ group, omap (group_transition state (tg_ID group)) (getl (an_edgesByGroup a) (tg_ID group)))
    <$> getl (an_groupsBySource a) (ps_nodeID state).
(** The edges the same call finds invalid. *)
Definition stateInvalid (state : reusePathState) : gset EdgeID :=
  ⋃ ((λ group, ⋃ ((λ edge, (applyEdge state edge).2) <$> getl (an_edgesByGroup a) (tg_ID group)))
    <$> getl (an_groupsBySource a) (ps_nodeID state)).

(** ** The graph of path states *)
Abbreviation arrivals := (gmap TransitionBranchKey reusePathState) (only parsing).
Record build := {
  b_states : list reusePathState; b_groups : list (list reuseGroup); b_possible : bool;
  b_processed : gset nat; b_arrivals : gmap staticFanoutInvocationKey arrivals;
  b_queue : list nat; b_queued : gset nat; b_invalid : gset EdgeID }.

Definition update_state (id : nat) (state : reusePathState) (b : build) : build := {|
  b_states := <[id := state]> (b_states b); b_groups := <[id := []]> (b_groups b); b_possible := b_possible b;
  b_processed := b_processed b ∖ {[id]}; b_arrivals := b_arrivals b; b_queue := b_queue b; b_queued := b_queued b;
  b_invalid := b_invalid b |}.
Definition append_state (state : reusePathState) (b : build) : build := {|
  b_states := b_states b ++ [state]; b_groups := b_groups b ++ [[]]; b_possible := b_possible b;
  b_processed := b_processed b ∖ {[length (b_states b)]}; b_arrivals := b_arrivals b; b_queue := b_queue b; b_queued := b_queued b;
  b_invalid := b_invalid b |}.

(** The state's number, and whether it is new or its overwritten associations
    changed. *)
Definition addState (state : reusePathState) (b : build) : nat * bool * build :=
  match graphStateID state (b_states b) with
  | Some id =>
    match b_states b !! id with
    | None => (id, false, b)
    | Some known =>
      let '(merged, changed) := mergeOverwritten (ps_overwritten known) (ps_overwritten state) in
      if changed then (id, true, update_state id (set_overwritten merged known) b) else (id, false, b)
    end
  | None => (length (b_states b), true, append_state state b)
  end.

Definition enqueue (id : nat) (b : build) : build :=
  if id ∈? b_queued b then b
  else {| b_states := b_states b; b_groups := b_groups b; b_possible := b_possible b; b_processed := b_processed b;
          b_arrivals := b_arrivals b; b_queue := b_queue b ++ [id]; b_queued := {[id]} ∪ b_queued b; b_invalid := b_invalid b |}.
Definition note_possible (possible : bool) (b : build) : build := {|
  b_states := b_states b; b_groups := b_groups b; b_possible := b_possible b || possible; b_processed := b_processed b;
  b_arrivals := b_arrivals b; b_queue := b_queue b; b_queued := b_queued b; b_invalid := b_invalid b |}.
Definition set_arrivals (key : staticFanoutInvocationKey) (recorded : arrivals) (b : build) : build := {|
  b_states := b_states b; b_groups := b_groups b; b_possible := b_possible b; b_processed := b_processed b;
  b_arrivals := <[key := recorded]> (b_arrivals b); b_queue := b_queue b; b_queued := b_queued b; b_invalid := b_invalid b |}.

Definition zero_state : reusePathState := {|
  ps_nodeID := ""; ps_branch := no_branch; ps_currentLineage := reuseLineageAbsent; ps_activeSourceSessionID := 0%N;
  ps_activeSourceKnown := false; ps_completedDormant := false; ps_dormancyBlocked := false; ps_overwritten := ∅;
  ps_staticSource := absent_source; ps_staticInvocation := no_invocation; ps_joinMode := reuseJoinPartial |}.

(** A second arrival of a branch: the two are reduced to one. *)
Definition record_arrival (target : reusePathState) (recorded : arrivals) : arrivals :=
  let sibling := si_sibling (ps_staticInvocation target) in
  match recorded !! sibling with
  | Some previous =>
    let merged := reduceJoinState previous target in
    <[sibling := if ps_staticSource previous <>? ps_staticSource target then set_source divergent_source merged else merged]> recorded
  | None => <[sibling := target]> recorded
  end.

Definition siblings_of (groupID : TransitionGroupID) : list TransitionBranchKey :=
  match an_staticFanouts a !! groupID with Some fanout => sf_siblings fanout | None => [] end.

(** The state at the join, from the arrivals of all siblings. *)
Definition common_source (sources : list staticContinuationSource) : staticContinuationSource :=
  match sources with
  | [] => absent_source
  | source :: rest => foldl (λ source arrival, if source <>? arrival then divergent_source else source) source rest
  end.
Definition join_state (joinID : NodeID) (states : list reusePathState) : reusePathState :=
  let reduced := match states with [] => zero_state | s :: rest => foldl reduceJoinState (reduceJoinState s s) rest end in
  set_invocation no_invocation reuseJoinPartial
    (set_source (common_source (ps_staticSource <$> states)) (set_place joinID no_branch reduced)).

(** The state a transition leads to: a branch that reaches its join waits there
    until all siblings have arrived. *)
Definition arrive (target : reusePathState) (b : build) : option reusePathState * build :=
  let invocation := ps_staticInvocation target in
  if si_joinID invocation ==? ps_nodeID target then
    let key := aggregationKey invocation in
    let recorded := record_arrival target (default ∅ (b_arrivals b !! key)) in
    let b := set_arrivals key recorded b in
    let siblings := siblings_of (si_groupID invocation) in
    if size recorded <>? length siblings then (None, b)
    else (Some (join_state (si_joinID invocation) ((λ sibling, default zero_state (recorded !! sibling)) <$> siblings)), b)
  else (Some target, b).

Definition process_transition (b : build) (t : reuseTransition) : build :=
  let b := note_possible (rt_possibleReuse t) b in
  match arrive (rt_target t) b with
  | (None, b) => b
  | (Some target, b) =>
    let '(id, changed, b) := addState target b in
    if changed then enqueue id b else b
  end.

Definition begin_state (id : nat) (rest : list nat) (b : build) (groups : list reuseGroup) (invalid : gset EdgeID) : build := {|
  b_states := b_states b; b_groups := <[id := groups]> (b_groups b); b_possible := b_possible b;
  b_processed := {[id]} ∪ b_processed b; b_arrivals := b_arrivals b; b_queue := rest; b_queued := b_queued b ∖ {[id]};
  b_invalid := b_invalid b ∪ invalid |}.
Definition skip_state (id : nat) (rest : list nat) (b : build) : build := {|
  b_states := b_states b; b_groups := b_groups b; b_possible := b_possible b; b_processed := b_processed b;
  b_arrivals := b_arrivals b; b_queue := rest; b_queued := b_queued b ∖ {[id]}; b_invalid := b_invalid b |}.

Definition build_step (b : build) : build + build :=
  match b_queue b with
  | [] => inr b
  | id :: rest =>
    if id ∈? b_processed b then inl (skip_state id rest b)
    else match b_states b !! id with
    | None => inl (skip_state id rest b)
    | Some state =>
      let groups := stateGroups state in
      inl (foldl process_transition (begin_state id rest b groups (stateInvalid state)) (mjoin groups))
    end
  end.

Definition start_transition (b : build) (t : reuseTransition) : build :=
  let '(id, _, b) := addState (rt_target t) (note_possible (rt_possibleReuse t) b) in enqueue id b.
Definition empty_build : build := {|
  b_states := []; b_groups := []; b_possible := false; b_processed := ∅; b_arrivals := ∅; b_queue := []; b_queued := ∅;
  b_invalid := ∅ |}.

(** Fuel: a path state is built from nodes, branches, sessions, sources and
    invocations of finitely many kinds, and the overwritten associations of a
    state only ever change in one direction, at most twice per key; so the queue
    can be fed only so often. The counts below bound the number of choices. *)
Definition all_edges : list Edge := mjoin (map_to_list (an_edgesByGroup a)).*2.
Definition all_joins : list NodeID := sf_joinID <$> (map_to_list (an_staticFanouts a)).*2.
Section fuel.
Context (initial : list reusePathState).
Definition node_choices : list NodeID := (e_TargetNodeID <$> all_edges) ++ all_joins ++ (ps_nodeID <$> initial).
Definition branch_choices : list reuseBranch :=
  no_branch :: ((λ e, {| rb_key := TrimSpace (e_Key e); rb_scoped := true |}) <$> all_edges) ++ (ps_branch <$> initial).
Definition session_choices : list SessionID :=
  0%N :: an_completedSessionID a :: (sra_SessionID <$> an_retainedAssociations a) ++ (ps_activeSourceSessionID <$> initial).
Definition source_nodes : list NodeID := node_choices ++ (map_to_list (an_nodeIDsByKey a)).*2.
Definition key_choices : list (NodeID * reuseBranch) :=
  (n ← node_choices; b ← branch_choices; [(n, b)]) ++ (initial ≫= λ s, (map_to_list (ps_overwritten s)).*1).

Definition count {A} (l : list A) : N := N.of_nat (length l).
Definition source_count : N := 2 + count source_nodes * count branch_choices + count initial.
Definition entry_count : N := 4 * count session_choices * 2 * 2 * source_count.
Definition invocation_count : N :=
  1 + count (map_to_list (an_staticFanouts a)) * count branch_choices * entry_count * count all_edges * count all_joins + count initial.
Definition state_count : N :=
  count node_choices * count branch_choices * 4 * count session_choices * 2 * source_count * invocation_count * 2 * 2 * 2.
Definition key_count : N := count node_choices * count branch_choices + count (initial ≫= λ s, (map_to_list (ps_overwritten s)).*1).
Definition build_fuel : N := 1 + count initial + state_count * (2 * key_count + 3).
End fuel.

Definition buildGraph (initial : list reuseTransition) : option build :=
  loop build_step (build_fuel (rt_target <$> initial)) (foldl start_transition empty_build initial).

(** ** Guaranteed reuse *)
Section guaranteed.
Context (graph : build).

Definition transition_target (t : reuseTransition) : option nat := graphStateID (rt_target t) (b_states graph).
Definition groups_at (id : nat) : list reuseGroup := default [] (b_groups graph !! id).

(** One step of the search: the visited states and the queue. *)
Definition reach_step (s : gset nat * list nat) : (gset nat * list nat) + bool :=
  let '(visited, queue) := s in
  match queue with
  | [] => inr false
  | id :: rest =>
    if id ∈? visited then inl (visited, rest)
    else
      let groups := groups_at id in
      if length groups ==? 0%nat then inr true
      else if existsb rt_guaranteedCAC (mjoin groups) then inr true
      else inl ({[id]} ∪ visited, (rest ++ omap transition_target (mjoin groups))%list)
  end.
Definition transition_count : N := count (mjoin (mjoin (b_groups graph))).
Definition canReachTerminalOrCAC (id : nat) : bool :=
  default false (loop reach_step (2 + transition_count) (∅, [id])).

Definition group_guaranteed (guaranteed : list bool) (group : reuseGroup) : bool :=
  existsb (λ t, rt_guaranteedCAC t ||
    match transition_target t with Some id => default false (guaranteed !! id) | None => false end) group.
Definition next_guaranteed (canReach : list bool) (guaranteed : list bool) (id : nat) : bool :=
  let groups := groups_at id in
  negb (length groups ==? 0%nat) && forallb (group_guaranteed guaranteed) groups && default false (canReach !! id).
(** A sweep updates the states in order, each from the values so far. *)
Definition sweep (canReach guaranteed : list bool) : list bool :=
  foldl (λ guaranteed id, <[id := next_guaranteed canReach guaranteed id]> guaranteed) guaranteed (seq 0 (length (b_groups graph))).
Definition sweep_step (canReach : list bool) (guaranteed : list bool) : list bool + list bool :=
  let next := sweep canReach guaranteed in
  if next ==? guaranteed then inr next else inl next.
Definition guaranteed_states : list bool :=
  let canReach := canReachTerminalOrCAC <$> seq 0 (length (b_states graph)) in
  default canReach (loop (sweep_step canReach) (2 + count (b_states graph)) canReach).
Definition guaranteedState (state : reusePathState) : bool :=
  match graphStateID state (b_states graph) with
  | None => false
  | Some id => default false (guaranteed_states !! id)
  end.
Definition guaranteedAccepted (initial : list reuseTransition) : bool :=
  existsb (λ t, rt_guaranteedCAC t || guaranteedState (rt_target t)) initial.
End guaranteed.
End analyzer.

(** ** Analyzers *)
Section definition.
Context `{RangeOrder}.

Definition sessionReuseFanouts (def : WorkflowDefinition) : gmap TransitionGroupID staticFanout :=
  let topology := newFanoutTopology def in
  foldl (λ fanouts group,
    let edges := getl (ft_edgesByGroup topology) (tg_ID group) in
    if (length edges <? 2)%nat then fanouts
    else
      let distances := default [] (mapM (λ edge,
        fanoutBranchJoinDistances (ft_nodesByID topology) (ft_groupsBySource topology) (ft_edgesByGroup topology)
          (ft_outgoingByNode topology) (e_TargetNodeID edge)) edges) in
      match fanoutNearestCommonJoin distances with
      | Some joinID => <[tg_ID group := {| sf_joinID := joinID; sf_siblings := e_Key <$> edges |}]> fanouts
      | None => fanouts
      end) ∅ (d_TransitionGroups def).

Definition index_node_keys (nodes : list Node) : gmap ModelKey NodeID :=
  foldl (λ m n, <[NodeKey n := NodeIDOf n]> m) ∅ nodes.

Definition newStaticSessionReuseAnalyzer (def : WorkflowDefinition) : sessionReuseAnalyzer :=
  let topology := newFanoutTopology def in {|
  an_taskID := ""; an_retainedAssociations := []; an_completedSessionID := 0%N;
  an_nodesByID := index_nodes (d_Nodes def); an_nodeIDsByKey := index_node_keys (d_Nodes def);
  an_groupsBySource := index_groups_by_source (d_TransitionGroups def);
  an_edgesByGroup := foldl (λ m group,
    <[tg_ID group := (getl m (tg_ID group) ++ getl (ft_edgesByGroup topology) (tg_ID group))%list]> m) ∅ (d_TransitionGroups def);
  an_staticValidation := true; an_staticFanouts := sessionReuseFanouts def |}.

Definition validateStaticContinuationSources (def : WorkflowDefinition) (start : NodeID) : list EdgeID :=
  let a := newStaticSessionReuseAnalyzer def in
  let initial := set_place start no_branch zero_state in
  let invalid := stateInvalid a initial ∪
    match buildGraph a (mjoin (stateGroups a initial)) with Some graph => b_invalid graph | None => ∅ end in
  e_ID <$> filter (λ edge, e_ID edge ∈ invalid) (d_Edges def).

Definition RequiresExactActiveContinuationSource (def : WorkflowDefinition) (start : NodeID) : bool :=
  (0 <? length (validateStaticContinuationSources def start))%nat.

(** ** Classification *)
Context {L : Type}.

Definition reuse_analyzer (input : SessionReuseAnalysisInput L) (completedSessionID : SessionID) : sessionReuseAnalyzer := {|
  an_taskID := cnr_TaskID (cn_Reference (in_CompletedCurrentNode input));
  an_retainedAssociations := in_RetainedAssociations input; an_completedSessionID := completedSessionID;
  an_nodesByID := index_nodes (d_Nodes (in_Workflow input)); an_nodeIDsByKey := index_node_keys (d_Nodes (in_Workflow input));
  an_groupsBySource := index_groups_by_source (d_TransitionGroups (in_Workflow input));
  an_edgesByGroup := index_edges_by_group (d_Edges (in_Workflow input));
  an_staticValidation := false; an_staticFanouts := sessionReuseFanouts (in_Workflow input) |}.

Definition initial_state (input : SessionReuseAnalysisInput L) (completedSessionID : SessionID) : reusePathState :=
  let node := in_CompletedCurrentNode input in
  let '(sourceSessionID, exact) := ExactSessionID (cn_ContinuationSource node) in {|
  ps_nodeID := cnr_NodeID (cn_Reference node); ps_branch := reuseBranchForReference (cn_Reference node);
  ps_currentLineage := reuseLineageCompleted;
  ps_activeSourceSessionID := if exact then sourceSessionID else completedSessionID;
  ps_activeSourceKnown := true; ps_completedDormant := acceptedBranchesFanout (in_AcceptedBranches input);
  ps_dormancyBlocked := false; ps_overwritten := ∅; ps_staticSource := absent_source;
  ps_staticInvocation := no_invocation; ps_joinMode := reuseJoinPartial |}.

Definition initial_transition (a : sessionReuseAnalyzer) (initial : reusePathState) (edge : Edge) : option reuseTransition :=
  with_target (λ target, match an_staticFanouts a !! e_TransitionGroupID edge with
    | Some fanout => set_invocation (invocation_of initial (e_TransitionGroupID edge) edge fanout) reuseJoinComplete target
    | None => target
    end) <$> (applyEdge a initial edge).1.

Definition ClassifyWorkflowSessionReuse (input : SessionReuseAnalysisInput L) : SessionReuseClassification :=
  match cn_SessionID (in_CompletedCurrentNode input) with
  | None => SessionReuseNone
  | Some completedSessionID =>
    if IsZero completedSessionID || (length (in_AcceptedBranches input) ==? 0%nat) then SessionReuseNone
    else
      let a := reuse_analyzer input completedSessionID in
      let initial := initial_state input completedSessionID in
      let initialTransitions := omap (initial_transition a initial) (in_AcceptedBranches input) in
      if length initialTransitions ==? 0%nat then SessionReuseNone
      else match buildGraph a initialTransitions with
      | None => SessionReuseNone
      | Some graph =>
        if guaranteedAccepted graph initialTransitions then SessionReuseGuaranteedCACReuse
        else if b_possible graph then SessionReuseThresholdPossibleReuse
        else SessionReuseNone
      end
  end.

(** ** References whose associations matter *)
Record reference_search := {
  rs_references : list CurrentNodeReference; rs_seen : list CurrentNodeReferenceKey;
  rs_visited : gset (NodeID * reuseBranch); rs_queue : list (NodeID * reuseBranch) }.

Section references.
Context (input : SessionReuseAnalysisInput L).
Let completed := cn_Reference (in_CompletedCurrentNode input).
Let topology := newFanoutTopology (in_Workflow input).

Definition appendReference (nodeID : NodeID) (branch : option TransitionBranchKey) (s : reference_search) : reference_search :=
  match NewCurrentNodeReference (cnr_TaskID completed) nodeID branch with
  | Err _ => s
  | Ok reference =>
    match CurrentNodeReference_Key reference with
    | Err _ => s
    | Ok key =>
      if key ∈? rs_seen s then s
      else {| rs_references := (rs_references s ++ [reference])%list; rs_seen := key :: rs_seen s;
              rs_visited := rs_visited s; rs_queue := rs_queue s |}
    end
  end.

Definition appendContextReference (sourceBranch targetBranch : reuseBranch) (edge : Edge) (target : Node) (s : reference_search)
    : reference_search :=
  if (e_ContextMode edge ==? ContextModeContinueSession) || (e_ContextMode edge ==? ContextModeCompactAndContinueSession) then
    let source := CanonicalContextSource (e_ContextSource edge) in
    let '(lookupBranch, usesAssociation) := reuseContextLookupBranch sourceBranch targetBranch source in
    if negb usesAssociation then s
    else
      let branch := if rb_scoped lookupBranch then Some (rb_key lookupBranch) else None in
      if cs_Kind source ==? ContextSourceSelectedNode then
        match index_node_keys (d_Nodes (in_Workflow input)) !! cs_NodeKey source with
        | Some nodeID => appendReference nodeID branch s
        | None => s
        end
      else if (cs_Kind source ==? ContextSourcePreviousTarget) || (cs_Kind source ==? ContextSourcePreviousTargetOrNew) then
        appendReference (NodeIDOf target) branch s
      else s
  else s.

Definition enqueue_reference (sourceBranch : reuseBranch) (s : reference_search) (edge : Edge) : reference_search :=
  match ft_nodesByID topology !! e_TargetNodeID edge with
  | None => s
  | Some target =>
    let targetBranch := nextReuseBranch sourceBranch edge target (length (getl (ft_edgesByGroup topology) (e_TransitionGroupID edge))) in
    let s := appendContextReference sourceBranch targetBranch edge target s in
    let next := (e_TargetNodeID edge, targetBranch) in
    if next ∈? rs_visited s then s
    else {| rs_references := rs_references s; rs_seen := rs_seen s; rs_visited := {[next]} ∪ rs_visited s;
            rs_queue := (rs_queue s ++ [next])%list |}
  end.

Definition outgoing_edges (nodeID : NodeID) : list Edge :=
  getl (ft_groupsBySource topology) nodeID ≫= λ group, getl (ft_edgesByGroup topology) (tg_ID group).
Definition reference_step (s : reference_search) : reference_search + list CurrentNodeReference :=
  match rs_queue s with
  | [] => inr (rs_references s)
  | (nodeID, branch) :: rest =>
    inl (foldl (enqueue_reference branch)
      {| rs_references := rs_references s; rs_seen := rs_seen s; rs_visited := rs_visited s; rs_queue := rest |}
      (outgoing_edges nodeID))
  end.

Definition reference_start : reference_search :=
  let s := {| rs_references := []; rs_seen := []; rs_visited := ∅; rs_queue := [] |} in
  let s := match cn_SessionID (in_CompletedCurrentNode input) with
    | Some _ => appendReference (cnr_NodeID completed) (cnr_transitionBranchKey completed) s
    | None => s
    end in
  foldl (enqueue_reference (reuseBranchForReference completed)) s (in_AcceptedBranches input).

(** Fuel: a node and a branch are queued once. *)
Definition reference_edges : list Edge := (in_AcceptedBranches input ++ d_Edges (in_Workflow input))%list.
Definition reference_branches : list reuseBranch :=
  no_branch :: reuseBranchForReference completed ::
  ((λ e, {| rb_key := TrimSpace (e_Key e); rb_scoped := true |}) <$> reference_edges).
Definition reference_fuel : N := 1 + count reference_edges * count reference_branches.

Definition SessionReuseAssociationReferences : option (list CurrentNodeReference) :=
  loop reference_step reference_fuel reference_start.
End references.
End definition.
