(* ===== verification/SessionReuseTermination.v ===== *)
(** * The session reuse analysis terminates

    The path states the analysis can build are finitely many up to their
    overwritten associations, and those only grow: a measure that every step of
    the worklist decreases. *)
From Stdlib Require Import NArith String.
From stdpp Require Import gmap strings list.
From S2P Require Import Prelude GoStrings Types Reach Fanout Selection CurrentState CurrentStateClaims SessionReuse.

(** ** Overwritten associations only grow *)
Definition rank (o : overwritten) : N :=
  N.of_nat (size o + size (filter (λ kv, kv.2 = reuseOverwriteMaybe) o)).

Lemma merge_lookup (l r : overwritten) k : merge merged_status l r !! k = merged_status (l !! k) (r !! k).
Proof. rewrite lookup_merge. by destruct (l !! k), (r !! k). Qed.

Lemma merge_dom (l r : overwritten) : dom (merge merged_status l r) = dom l ∪ dom r.
Proof.
  apply set_eq. intros k. rewrite elem_of_union, !elem_of_dom, merge_lookup.
  destruct (l !! k) as [[]|], (r !! k) as [[]|]; cbn; unfold is_Some; naive_solver.
Qed.

Lemma merge_maybe (l r : overwritten) k :
  l !! k = Some reuseOverwriteMaybe → merge merged_status l r !! k = Some reuseOverwriteMaybe.
Proof. rewrite merge_lookup. intros ->. by destruct (r !! k) as [[]|]. Qed.

Lemma mergeOverwritten_rank l r o :
  mergeOverwritten l r = (o, true) → dom o = dom l ∪ dom r ∧ (rank l < rank o)%N.
Proof.
  unfold mergeOverwritten. destruct (size r ==? 0); [done|].
  match goal with |- context [if ?c then _ else _] => destruct c eqn:Hc end; [|done]. intros [= <-].
  split; [apply merge_dom|].
  assert (size l ≤ size (merge merged_status l r)) as H1.
  { rewrite <- !size_dom, merge_dom. apply subseteq_size. set_solver. }
  assert (dom (filter (λ kv, kv.2 = reuseOverwriteMaybe) l) ⊆ dom (filter (λ kv, kv.2 = reuseOverwriteMaybe) (merge merged_status l r))) as H2.
  { intros k [st [Hk Hs]%map_lookup_filter_Some]%elem_of_dom. cbn in Hs. subst st. apply elem_of_dom. exists reuseOverwriteMaybe.
    apply map_lookup_filter_Some. split; [by apply merge_maybe|done]. }
  pose proof (subseteq_size _ _ H2) as H3. rewrite !size_dom in H3. unfold rank.
  apply orb_true_iff in Hc as [Hc|Hc]; apply negb_true_iff, bool_decide_eq_false in Hc.
  - apply map_not_Forall in Hc as (k & st & Hk & Hne); [|apply _].
    assert (size (filter (λ kv, kv.2 = reuseOverwriteMaybe) l) < size (filter (λ kv, kv.2 = reuseOverwriteMaybe) (merge merged_status l r))); [|lia].
    rewrite <- !size_dom. apply subset_size. split; [done|]. intros Hs.
    assert (st = reuseOverwriteDefinite ∧ merge merged_status l r !! k = Some reuseOverwriteMaybe) as [-> Hm].
    { rewrite merge_lookup, Hk. destruct st, (r !! k) as [[]|]; by cbn in *. }
    assert (k ∈ dom (filter (λ kv, kv.2 = reuseOverwriteMaybe) l)) as Hin.
    { apply Hs, elem_of_dom. exists reuseOverwriteMaybe. by apply map_lookup_filter_Some. }
    apply elem_of_dom in Hin as [st [Hk' Hs']%map_lookup_filter_Some]. cbn in Hs'. congruence.
  - apply map_not_Forall in Hc as (k & st & Hk & Hne); [|apply _].
    assert (size l < size (merge merged_status l r)); [|lia].
    rewrite <- !size_dom, merge_dom. apply subset_size. split; [set_solver|]. intros Hs.
    apply Hne, elem_of_dom, Hs, elem_of_union_r, elem_of_dom. by exists st.
Qed.

Lemma rank_bound (o : overwritten) (keys : list (NodeID * reuseBranch)) :
  (∀ k, is_Some (o !! k) → k ∈ keys) → (rank o ≤ 2 * N.of_nat (length keys))%N.
Proof.
  intros H. unfold rank.
  assert (size (filter (λ kv, kv.2 = reuseOverwriteMaybe) o) ≤ size o) by apply map_size_filter.
  assert (size o ≤ length keys); [|lia].
  rewrite <- size_dom. change (length (elements (dom o)) ≤ length keys).
  apply submseteq_length, NoDup_submseteq; [apply NoDup_elements|].
  intros k Hk%elem_of_elements%elem_of_dom. auto.
Qed.

(** ** The universe of path states *)

(** What distinguishes path states. *)
Definition structure (s : reusePathState) :=
  (ps_nodeID s, ps_branch s, ps_currentLineage s, ps_activeSourceSessionID s, ps_activeSourceKnown s, ps_staticSource s,
   ps_staticInvocation s, ps_joinMode s, ps_completedDormant s, ps_dormancyBlocked s).

Lemma same_structure l r : sameReusePathState l r = true ↔ structure l = structure r.
Proof.
  unfold sameReusePathState, structure. rewrite !andb_true_iff, !bool_decide_eq_true.
  split; [intros H; destruct_and! H; congruence|]. intros [= -> -> -> -> -> -> -> -> -> ->]. by split_and!.
Qed.

Lemma graphStateID_Some s states id :
  graphStateID s states = Some id → ∃ s', states !! id = Some s' ∧ structure s' = structure s.
Proof.
  revert id. induction states as [|c states IH]; intros id; cbn; [done|].
  destruct (sameReusePathState c s) eqn:Hc.
  - intros [= <-]. exists c. split; [done|]. by apply same_structure.
  - intros (id' & Hid & ->)%fmap_Some. by apply IH.
Qed.
Lemma graphStateID_None s states :
  graphStateID s states = None ↔ structure s ∉ structure <$> states.
Proof.
  induction states as [|c states IH]; cbn.
  - split; [by intros _ ?%elem_of_nil|done].
  - rewrite not_elem_of_cons. destruct (sameReusePathState c s) eqn:Hc.
    + apply same_structure in Hc. split; [done|]. intros [H _]. congruence.
    + rewrite fmap_None, IH. split; [|naive_solver]. intros H. split; [|done]. intros Heq.
      symmetry in Heq. apply same_structure in Heq. congruence.
Qed.

Lemma length_bind_const {A B} (f : A → list B) (l : list A) n :
  (∀ x, length (f x) = n) → length (l ≫= f) = (length l * n)%nat.
Proof. intros H. induction l as [|x l IH]; cbn; [done|]. by rewrite length_app, H, IH. Qed.

Lemma elem_of_bind_intro {A B} (f : A → list B) (l : list A) y x : y ∈ l → x ∈ f y → x ∈ l ≫= f.
Proof. intros Hy Hx. apply list_elem_of_bind. eauto. Qed.
Lemma elem_of_both (b : bool) : b ∈ [true; false].
Proof. destruct b; set_solver. Qed.
Lemma elem_of_lineage l : l ∈ all_lineages.
Proof. destruct l; unfold all_lineages; set_solver. Qed.
Lemma elem_of_mode m : m ∈ [reuseJoinPartial; reuseJoinComplete].
Proof. destruct m; set_solver. Qed.

Section universe.
Context (a : sessionReuseAnalyzer) (initial : list reusePathState).

Definition source_choices : list staticContinuationSource :=
  absent_source :: divergent_source ::
  (n ← source_nodes a initial; b ← branch_choices a initial; [exact_source n b]) ++ (ps_staticSource <$> initial).
Definition entry_choices : list reuseFanoutEntryState :=
  l ← all_lineages; sid ← session_choices a initial; k ← [true; false]; d ← [true; false]; src ← source_choices;
  [{| fe_currentLineage := l; fe_activeSourceSessionID := sid; fe_activeSourceKnown := k; fe_completedDormant := d; fe_staticSource := src |}].
Definition invocation_choices : list staticFanoutInvocation :=
  no_invocation ::
  (g ← (map_to_list (an_staticFanouts a)).*1; b ← branch_choices a initial; e ← entry_choices;
   k ← e_Key <$> all_edges a; j ← all_joins a;
   [{| si_groupID := g; si_incomingBranch := b; si_entry := e; si_sibling := k; si_joinID := j |}]) ++
  (ps_staticInvocation <$> initial).
Definition structures :=
  n ← node_choices a initial; b ← branch_choices a initial; l ← all_lineages; sid ← session_choices a initial; k ← [true; false];
  src ← source_choices; i ← invocation_choices; m ← [reuseJoinPartial; reuseJoinComplete]; d ← [true; false]; x ← [true; false];
  [(n, b, l, sid, k, src, i, m, d, x)].

Lemma source_choices_count : count source_choices = source_count a initial.
Proof.
  unfold count, source_choices, source_count. cbn [length]. rewrite length_app, length_fmap.
  rewrite (length_bind_const _ _ (length (branch_choices a initial))).
  - unfold count. lia.
  - intros n. rewrite (length_bind_const _ _ 1); [lia|done].
Qed.

Lemma entry_choices_count : count entry_choices = entry_count a initial.
Proof.
  unfold entry_count. rewrite <- source_choices_count. unfold count, entry_choices.
  erewrite length_bind_const; [|intros l; erewrite length_bind_const; [|intros sid; erewrite length_bind_const;
    [|intros k; erewrite length_bind_const; [|intros d; apply (length_bind_const _ _ 1); done]; reflexivity]; reflexivity]; reflexivity].
  cbn [length all_lineages]. lia.
Qed.
Lemma invocation_choices_count : count invocation_choices = invocation_count a initial.
Proof.
  unfold invocation_count. rewrite <- entry_choices_count. unfold count, invocation_choices. cbn [length].
  rewrite length_app, length_fmap.
  erewrite length_bind_const; [|intros g; erewrite length_bind_const; [|intros b; erewrite length_bind_const;
    [|intros e; erewrite length_bind_const; [|intros k; apply (length_bind_const _ _ 1); done]; reflexivity]; reflexivity]; reflexivity].
  rewrite !length_fmap. lia.
Qed.
Lemma structures_count : count structures = state_count a initial.
Proof.
  unfold state_count. rewrite <- source_choices_count, <- invocation_choices_count. unfold count, structures.
  erewrite length_bind_const; [|intros n; erewrite length_bind_const; [|intros b; erewrite length_bind_const;
    [|intros l; erewrite length_bind_const; [|intros sid; erewrite length_bind_const; [|intros k; erewrite length_bind_const;
    [|intros src; erewrite length_bind_const; [|intros i; erewrite length_bind_const; [|intros m; erewrite length_bind_const;
    [|intros d; apply (length_bind_const _ _ 1); done]; reflexivity]; reflexivity]; reflexivity]; reflexivity]; reflexivity];
    reflexivity]; reflexivity]; reflexivity].
  cbn [length all_lineages]. lia.
Qed.

Lemma key_choices_count : count (key_choices a initial) = key_count a initial.
Proof.
  unfold count, key_choices, key_count. rewrite length_app.
  erewrite length_bind_const; [|intros n; apply (length_bind_const _ _ 1); done]. unfold count. lia.
Qed.

(** ** States of the universe *)
Definition part_ok (s : reusePathState) : Prop :=
  ps_activeSourceSessionID s ∈ session_choices a initial ∧ ps_staticSource s ∈ source_choices ∧
  (∀ k, is_Some (ps_overwritten s !! k) → k ∈ key_choices a initial).
Definition state_ok (s : reusePathState) : Prop :=
  ps_nodeID s ∈ node_choices a initial ∧ ps_branch s ∈ branch_choices a initial ∧
  ps_staticInvocation s ∈ invocation_choices ∧ part_ok s.

Lemma elem_of_exact n b : n ∈ source_nodes a initial → b ∈ branch_choices a initial → exact_source n b ∈ source_choices.
Proof.
  intros Hn Hb. unfold source_choices. do 2 right. apply elem_of_app. left.
  apply list_elem_of_bind. exists n. split; [|done]. apply list_elem_of_bind. exists b. by split; [left|].
Qed.
Lemma structure_in s : state_ok s → structure s ∈ structures.
Proof.
  intros (Hn & Hb & Hi & Hsid & Hsrc & _). unfold structures, structure.
  eapply elem_of_bind_intro; [exact Hn|]. eapply elem_of_bind_intro; [exact Hb|].
  eapply elem_of_bind_intro; [apply elem_of_lineage|]. eapply elem_of_bind_intro; [exact Hsid|].
  eapply elem_of_bind_intro; [apply elem_of_both|]. eapply elem_of_bind_intro; [exact Hsrc|].
  eapply elem_of_bind_intro; [exact Hi|]. eapply elem_of_bind_intro; [apply elem_of_mode|].
  eapply elem_of_bind_intro; [apply elem_of_both|]. eapply elem_of_bind_intro; [apply elem_of_both|].
  by apply list_elem_of_singleton.
Qed.

Lemma entry_in s : part_ok s → fanoutEntryState s ∈ entry_choices.
Proof.
  intros (Hsid & Hsrc & _). unfold entry_choices, fanoutEntryState.
  eapply elem_of_bind_intro; [apply elem_of_lineage|]. eapply elem_of_bind_intro; [exact Hsid|].
  eapply elem_of_bind_intro; [apply elem_of_both|]. eapply elem_of_bind_intro; [apply elem_of_both|].
  eapply elem_of_bind_intro; [exact Hsrc|]. by apply list_elem_of_singleton.
Qed.

(** ** Closure under the edges *)
Lemma elem_of_all_edges g e : e ∈ getl (an_edgesByGroup a) g → e ∈ all_edges a.
Proof.
  unfold getl, all_edges. destruct (an_edgesByGroup a !! g) as [l|] eqn:Hg; cbn; [|by intros ?%elem_of_nil].
  intros He. apply list_elem_of_join. exists l. split; [done|]. apply list_elem_of_fmap. exists (g, l).
  split; [done|]. by apply elem_of_map_to_list.
Qed.
Lemma fanout_choice g f : an_staticFanouts a !! g = Some f →
  g ∈ (map_to_list (an_staticFanouts a)).*1 ∧ sf_joinID f ∈ all_joins a.
Proof.
  intros Hg. apply elem_of_map_to_list in Hg. split; [by apply (list_elem_of_fmap_2 fst) in Hg|].
  unfold all_joins. by apply (list_elem_of_fmap_2 snd), (list_elem_of_fmap_2 sf_joinID) in Hg.
Qed.
Lemma invocation_of_in s g e f :
  state_ok s → e ∈ all_edges a → an_staticFanouts a !! g = Some f → invocation_of s g e f ∈ invocation_choices.
Proof.
  intros (_ & Hb & _ & Hp) He [Hg Hj]%fanout_choice. unfold invocation_choices, invocation_of. right.
  apply elem_of_app. left.
  eapply elem_of_bind_intro; [exact Hg|]. eapply elem_of_bind_intro; [exact Hb|].
  eapply elem_of_bind_intro; [by apply entry_in|]. eapply elem_of_bind_intro; [by apply list_elem_of_fmap_2|].
  eapply elem_of_bind_intro; [exact Hj|]. by apply list_elem_of_singleton.
Qed.
Lemma target_node_in e : e ∈ all_edges a → e_TargetNodeID e ∈ node_choices a initial.
Proof. intros He. unfold node_choices. apply elem_of_app. left. by apply list_elem_of_fmap_2. Qed.
Lemma next_branch_in b e target n :
  b ∈ branch_choices a initial → e ∈ all_edges a → nextReuseBranch b e target n ∈ branch_choices a initial.
Proof.
  intros Hb He. unfold nextReuseBranch, branch_choices in *. case_match; [left|].
  case_match; [|done]. case_match; [|done]. right. apply elem_of_app. left.
  apply list_elem_of_fmap. eauto.
Qed.

Lemma transfer_in s e target b :
  state_ok s → e ∈ all_edges a → b ∈ branch_choices a initial →
  transferStaticContinuationSource a (ps_staticSource s) (ps_nodeID s) (ps_branch s) b e target ∈ source_choices.
Proof.
  intros (Hn & Hb & _ & _ & Hsrc & _) He Hb'.
  assert (absent_source ∈ source_choices) as Habs by left.
  assert (∀ n, n ∈ node_choices a initial → n ∈ source_nodes a initial) as Hsn by (intros n ?; apply elem_of_app; by left).
  unfold transferStaticContinuationSource.
  case_match; [done|]. case_match; [case_match; [done|apply elem_of_exact; auto using target_node_in]|].
  case_match; [done|]. case_match; [case_match; [case_match; [by apply elem_of_exact; auto|done]|done]|].
  case_match; [done|]. case_match; [|done]. case_match eqn:Hkey; [|done].
  apply elem_of_exact; [|done]. unfold source_nodes. apply elem_of_app. right.
  apply elem_of_map_to_list in Hkey. by apply (list_elem_of_fmap_2 snd) in Hkey.
Qed.

Lemma zero_session_in : 0%N ∈ session_choices a initial.
Proof. left. Qed.
Lemma association_in branch nodeID association :
  find_association a branch nodeID = Some association → sra_SessionID association ∈ session_choices a initial.
Proof.
  unfold find_association. intros H%head_Some_elem_of. apply list_elem_of_filter in H as [_ H]. rewrite elem_of_reverse in H.
  unfold session_choices. do 2 right. apply elem_of_app. left. by apply (list_elem_of_fmap_2 sra_SessionID).
Qed.
Lemma associatedLineage_in s branch nodeID optional lineage sid found :
  associatedLineage a s branch nodeID optional = (lineage, sid, found) → sid ∈ session_choices a initial.
Proof.
  intros H. pose proof zero_session_in as H0. pose proof (association_in branch nodeID) as Ha. unfold associatedLineage in H.
  destruct (find_association a branch nodeID) as [association|]; repeat case_match; simplify_eq; auto.
Qed.
Lemma resolve_in s source target b lineage sid known selected :
  part_ok s → resolveContextSource a s source target b = (lineage, sid, known, selected) → sid ∈ session_choices a initial.
Proof.
  intros (Hsid & _ & _) H. pose proof zero_session_in as H0.
  assert (an_completedSessionID a ∈ session_choices a initial) as Hc by (right; left).
  unfold resolveContextSource in H.
  case_match; [destruct (ps_currentLineage s); by simplify_eq|].
  case_match.
  { case_match; [|by simplify_eq]. destruct (associatedLineage _ _ _ _ _) as [[? ?] []] eqn:Ha; cbn in H; simplify_eq; [|done].
    by eapply associatedLineage_in. }
  case_match; [destruct (associatedLineage _ _ _ _ _) as [[? ?] ?]; by simplify_eq|].
  case_match; [destruct (associatedLineage _ _ _ _ _) as [[? ?] []]; cbn in H; by simplify_eq|]. by simplify_eq.
Qed.
Lemma targetContext_in s e target b lineage sid known selected :
  part_ok s → targetContext a s e target b = (lineage, sid, known, selected) → sid ∈ session_choices a initial.
Proof.
  intros Hp H. pose proof zero_session_in as H0. unfold targetContext in H.
  case_match.
  { case_match; [|destruct Hp; by simplify_eq].
    destruct (resolveContextSource _ _ _ _ _) as [[[? ?] ?] ?] eqn:Hr. apply resolve_in in Hr; [|done]. by simplify_eq. }
  case_match; [by simplify_eq|]. case_match; [by eapply resolve_in|by simplify_eq].
Qed.

Lemma overwrite_insert_ok (o : overwritten) n b status :
  (∀ k, is_Some (o !! k) → k ∈ key_choices a initial) → n ∈ node_choices a initial → b ∈ branch_choices a initial →
  ∀ k, is_Some (<[(n, b) := status]> o !! k) → k ∈ key_choices a initial.
Proof.
  intros Ho Hn Hb k. destruct (decide (k = (n, b))) as [->|Hne].
  - intros _. unfold key_choices. apply elem_of_app. left.
    eapply elem_of_bind_intro; [exact Hn|]. eapply elem_of_bind_intro; [exact Hb|]. by apply list_elem_of_singleton.
  - rewrite lookup_insert_ne by done. apply Ho.
Qed.

Lemma applyEdge_ok s e t :
  state_ok s → e ∈ all_edges a → (applyEdge a s e).1 = Some t →
  ps_nodeID (rt_target t) ∈ node_choices a initial ∧ ps_branch (rt_target t) ∈ branch_choices a initial ∧
  ps_staticInvocation (rt_target t) = no_invocation ∧ part_ok (rt_target t).
Proof.
  intros Hs He. pose proof Hs as (Hn & Hb & Hi & Hp). unfold applyEdge.
  destruct (an_nodesByID a !! e_TargetNodeID e) as [target|]; [|done].
  set (tb := nextReuseBranch _ _ _ _). assert (tb ∈ branch_choices a initial) as Htb by (by apply next_branch_in).
  destruct (an_staticValidation a); cbn [fst].
  - intros [= <-]. cbn. split_and!; [by apply target_node_in|done|done|]. unfold part_ok; cbn.
    split_and!; [apply zero_session_in|by apply transfer_in|]. intros k. rewrite lookup_empty. by intros [].
  - unfold apply_dynamic. destruct (targetContext a s e target tb) as [[[lineage sid] known] selected] eqn:Hc.
    apply targetContext_in in Hc; [|done]. destruct selected; cbn [negb]; [|done]. intros [= <-]. cbn.
    split_and!; [by apply target_node_in|done|done|]. unfold part_ok; cbn. split_and!; [done|left|].
    destruct Hp as (_ & _ & Ho). case_match; [|done]. apply overwrite_insert_ok; auto using target_node_in.
Qed.

Lemma set_invocation_ok s i m :
  ps_nodeID s ∈ node_choices a initial → ps_branch s ∈ branch_choices a initial → i ∈ invocation_choices → part_ok s →
  state_ok (set_invocation i m s).
Proof. by intros. Qed.

Lemma stateGroups_ok s t : state_ok s → t ∈ mjoin (stateGroups a s) → state_ok (rt_target t).
Proof.
  intros Hs Ht. apply list_elem_of_join in Ht as (g & Ht & Hg). unfold stateGroups in Hg.
  apply list_elem_of_fmap in Hg as (group & -> & _). apply list_elem_of_omap in Ht as (e & He & Ht).
  apply elem_of_all_edges in He. unfold group_transition in Ht. apply fmap_Some in Ht as (t0 & Ht0 & ->).
  apply applyEdge_ok in Ht0 as (Hn & Hb & _ & Hp); [|done|done]. cbn [rt_target with_target].
  destruct (an_staticFanouts a !! tg_ID group) as [f|] eqn:Hf; apply set_invocation_ok; try done.
  - by apply invocation_of_in.
  - by destruct Hs as (_ & _ & ? & _).
Qed.

(** ** Closure at joins *)
Lemma zero_part_ok : part_ok zero_state.
Proof. split_and!; [left|left|]. intros k. cbn. rewrite lookup_empty. by intros []. Qed.
Lemma joined_keys (l r : overwritten) k :
  is_Some (mergeCompleteJoinOverwritten l r !! k) → is_Some (l !! k) ∨ is_Some (r !! k).
Proof.
  unfold mergeCompleteJoinOverwritten. rewrite lookup_merge. destruct (l !! k), (r !! k); cbn; unfold is_Some; naive_solver.
Qed.
Lemma reduce_part_ok l r : part_ok l → part_ok r → part_ok (reduceJoinState l r).
Proof.
  intros (Hsid & Hsrc & Ho) (Hsid' & _ & Ho'). unfold reduceJoinState, part_ok; cbn. split_and!; [case_match; [done|left]|done|].
  intros k [Hk|Hk]%joined_keys; auto.
Qed.
Lemma reduce_ok l r : state_ok l → part_ok r → state_ok (reduceJoinState l r).
Proof. intros (Hn & Hb & Hi & Hp) Hr. split_and!; [done|done|done|by apply reduce_part_ok]. Qed.
Lemma set_source_ok src s : state_ok s → src ∈ source_choices → state_ok (set_source src s).
Proof. intros (Hn & Hb & Hi & Hsid & _ & Ho) Hsrc. by split_and!. Qed.
Lemma common_source_in sources : (∀ s, s ∈ sources → s ∈ source_choices) → common_source sources ∈ source_choices.
Proof.
  destruct sources as [|s rest]; cbn; [left|]. intros H.
  apply (foldl_inv (λ s, s ∈ source_choices)); [apply H; left|]. intros b x Hx Hb. case_match; [right; left|done].
Qed.
Lemma join_state_ok joinID states :
  joinID ∈ node_choices a initial → Forall part_ok states → state_ok (join_state joinID states).
Proof.
  intros Hj Hs. unfold join_state.
  match goal with |- state_ok (set_invocation _ _ (set_source _ (set_place _ _ ?r))) => assert (part_ok r) as (Hsid & _ & Ho) end.
  { destruct Hs as [|s rest Hs Hrest]; [apply zero_part_ok|]. rewrite Forall_forall in Hrest.
    apply (foldl_inv part_ok); [by apply reduce_part_ok|]. intros b x Hx Hb. by apply reduce_part_ok; auto. }
  split_and!; cbn; [done|left|left|]. split_and!; cbn; [done| |done].
  apply common_source_in. intros src (s & -> & Hin)%list_elem_of_fmap. rewrite Forall_forall in Hs. by apply Hs.
Qed.

(** ** The worklist *)
Record build_ok (b : build) : Prop := {
  bo_states : Forall state_ok (b_states b);
  bo_distinct : NoDup (structure <$> b_states b);
  bo_arrivals : ∀ key recorded sibling s, b_arrivals b !! key = Some recorded → recorded !! sibling = Some s → state_ok s }.

Let K : N := key_count a initial.
Let U : N := state_count a initial.
Definition slack (s : reusePathState) : N := (2 * K + 2 - rank (ps_overwritten s))%N.
Definition total_slack (states : list reusePathState) : N := foldr (λ s n, slack s + n)%N 0%N states.
Definition measure (b : build) : N :=
  ((U - count (b_states b)) * (2 * K + 3) + total_slack (b_states b) + count (b_queue b))%N.

Lemma rank_ok s : part_ok s → (rank (ps_overwritten s) ≤ 2 * K)%N.
Proof.
  intros (_ & _ & Ho). subst K. rewrite <- key_choices_count. by apply rank_bound.
Qed.
Lemma total_slack_app l l' : total_slack (l ++ l') = (total_slack l + total_slack l')%N.
Proof. unfold total_slack. induction l as [|s l IH]; cbn [app foldr]; [done|]. rewrite IH. lia. Qed.
Lemma total_slack_insert l id s s' :
  l !! id = Some s → (slack s' < slack s)%N → (total_slack (<[id := s']> l) < total_slack l)%N.
Proof.
  intros Hid Hlt. rewrite <- (take_drop_middle l id s Hid) at 2. rewrite insert_take_drop by (by eapply lookup_lt_Some).
  rewrite !total_slack_app. unfold total_slack. cbn [foldr]. lia.
Qed.
Lemma states_bound states : Forall state_ok states → NoDup (structure <$> states) → (count states ≤ U)%N.
Proof.
  intros Hok Hnd. subst U. rewrite <- structures_count. unfold count.
  assert (length (structure <$> states) ≤ length structures); [|rewrite length_fmap in *; lia].
  apply submseteq_length, NoDup_submseteq; [done|]. intros x (s & -> & Hs)%list_elem_of_fmap.
  rewrite Forall_forall in Hok. by apply structure_in, Hok.
Qed.

Lemma addState_ok s b id changed b' :
  build_ok b → state_ok s → addState s b = (id, changed, b') →
  build_ok b' ∧ b_queue b' = b_queue b ∧ (measure b' + (if changed then 1 else 0) ≤ measure b)%N.
Proof.
  intros [Hs Hd Ha] Hok. unfold addState. destruct (graphStateID s (b_states b)) as [i|] eqn:Hid.
  - apply graphStateID_Some in Hid as (known & Hk & Hst). rewrite Hk.
    destruct (mergeOverwritten _ _) as [merged []] eqn:Hm; intros [= <- <- <-].
    + apply mergeOverwritten_rank in Hm as [Hdom Hrank].
      assert (state_ok known) as Hkok by (by eapply Forall_lookup_1).
      assert (state_ok (set_overwritten merged known)) as Hmok.
      { destruct Hkok as (Hn & Hb & Hi & Hsid & Hsrc & Ho), Hok as (_ & _ & _ & _ & _ & Ho').
        split_and!; try done. split_and!; try done. cbn. intros k Hkk. apply elem_of_dom in Hkk.
        rewrite Hdom in Hkk. apply elem_of_union in Hkk as [Hkk|Hkk]; apply elem_of_dom in Hkk; auto. }
      split_and!; [|done|].
      * split; [by apply Forall_insert| |done].
        cbn [b_states update_state]. rewrite list_fmap_insert. rewrite list_insert_id; [done|].
        rewrite list_lookup_fmap, Hk. done.
      * assert (slack (set_overwritten merged known) < slack known)%N as Hsl.
        { unfold slack. cbn. pose proof (rank_ok _ (proj2 (proj2 (proj2 Hmok)))) as Hr. cbn in Hr. lia. }
        pose proof (total_slack_insert _ _ _ _ Hk Hsl). unfold measure; cbn [b_states b_queue update_state].
        unfold count. rewrite length_insert. lia.
    + split_and!; [done|done|lia].
  - apply graphStateID_None in Hid. intros [= <- <- <-].
    assert (NoDup (structure <$> (b_states b ++ [s]))) as Hnd.
    { rewrite fmap_app. apply NoDup_app. split_and!; [done| |apply NoDup_singleton]. intros x Hx ->%list_elem_of_singleton. done. }
    assert (Forall state_ok (b_states b ++ [s])) as Hall by (apply Forall_app; split; [done|by constructor]).
    split_and!; [by split|done|].
    pose proof (states_bound _ Hall Hnd) as Hb. unfold measure; cbn [b_states b_queue append_state]. rewrite total_slack_app.
    unfold total_slack at 2; cbn [foldr]. unfold count in *. rewrite length_app in *. cbn [length] in *. unfold slack.
    replace (U - N.of_nat (length (b_states b)))%N with (U - N.of_nat (length (b_states b) + 1) + 1)%N by lia.
    generalize (U - N.of_nat (length (b_states b) + 1))%N as D. intros D. nia.
Qed.

Lemma enqueue_ok id b : build_ok b → build_ok (enqueue id b) ∧ (measure (enqueue id b) ≤ measure b + 1)%N.
Proof.
  intros [? ? ?]. unfold enqueue. case_match; [split; [done|lia]|]. split; [done|].
  unfold measure, count; cbn [b_states b_queue]. rewrite length_app; cbn [length]. lia.
Qed.

Lemma record_arrival_ok target recorded :
  state_ok target → (∀ sibling s, recorded !! sibling = Some s → state_ok s) →
  ∀ sibling s, record_arrival target recorded !! sibling = Some s → state_ok s.
Proof.
  intros Ht Hr sibling s. unfold record_arrival.
  destruct (recorded !! si_sibling _) as [previous|] eqn:Hp; (destruct (decide (sibling = si_sibling (ps_staticInvocation target))) as [->|Hne];
    [rewrite lookup_insert_eq; intros [= <-]|rewrite lookup_insert_ne by done; apply Hr]); [|done].
  apply Hr in Hp. assert (state_ok (reduceJoinState previous target)) by (apply reduce_ok; [done|by apply Ht]).
  case_match; [|done]. apply set_source_ok; [done|right; left].
Qed.

Lemma arrive_ok target b next b' :
  build_ok b → state_ok target → arrive a target b = (next, b') →
  build_ok b' ∧ measure b' = measure b ∧ ∀ s, next = Some s → state_ok s.
Proof.
  intros [Hs Hd Ha] Ht. unfold arrive. case_bool_decide as Hj; [|intros [= <- <-]; split_and!; [done|done|by intros s [= <-]]].
  set (recorded := record_arrival target _).
  assert (∀ sibling s, recorded !! sibling = Some s → state_ok s) as Hrec.
  { apply record_arrival_ok; [done|]. intros sibling s. destruct (b_arrivals b !! _) eqn:Hb; cbn; [by eapply Ha|].
    by rewrite lookup_empty. }
  assert (build_ok (set_arrivals (aggregationKey (ps_staticInvocation target)) recorded b)) as Hb'.
  { split; [done|done|]. cbn. intros key m sibling s. destruct (decide (key = aggregationKey (ps_staticInvocation target))) as [->|Hne].
    - rewrite lookup_insert_eq. intros [= <-]. apply Hrec.
    - rewrite lookup_insert_ne by done. apply Ha. }
  case_match; intros [= <- <-]; (split_and!; [done|done|]); [done|]. intros s [= <-]. apply join_state_ok.
  - rewrite Hj. apply Ht.
  - apply Forall_fmap, Forall_forall. intros sibling _. cbn. destruct (recorded !! sibling) eqn:Hr; [|apply zero_part_ok].
    by apply Hrec in Hr as (_ & _ & _ & ?).
Qed.

Lemma process_ok b t :
  build_ok b → state_ok (rt_target t) → build_ok (process_transition a b t) ∧ (measure (process_transition a b t) ≤ measure b)%N.
Proof.
  intros Hb Ht. unfold process_transition.
  assert (build_ok (note_possible (rt_possibleReuse t) b)) as Hn by (by destruct Hb).
  destruct (arrive a (rt_target t) _) as [next b1] eqn:Ha. apply arrive_ok in Ha as (Hb1 & Hm & Hnext); [|done|done].
  assert (measure b1 = measure b) as Hm' by (rewrite Hm; done).
  destruct next as [target|]; [|split; [done|lia]].
  destruct (addState target b1) as [[id changed] b2] eqn:Hadd.
  apply addState_ok in Hadd as (Hb2 & _ & Hle); [|done|by apply Hnext].
  destruct changed; [|split; [done|lia]]. destruct (enqueue_ok id b2 Hb2) as [? ?]. split; [done|lia].
Qed.

Lemma build_step_ok b b' :
  build_ok b → build_step a b = inl b' → build_ok b' ∧ (measure b' < measure b)%N.
Proof.
  intros Hb. unfold build_step. destruct (b_queue b) as [|id rest] eqn:Hq; [done|].
  assert (∀ b0, build_ok b0 → b_states b0 = b_states b → b_queue b0 = rest → (measure b0 < measure b)%N) as Hpop.
  { intros b0 _ Hs Hr. unfold measure. rewrite Hs, Hr, Hq. unfold count. cbn [length]. lia. }
  assert (build_ok (skip_state id rest b)) as Hskip by (by destruct Hb).
  case_bool_decide; [intros [= <-]; split; [done|by apply Hpop]|].
  destruct (b_states b !! id) as [state|] eqn:Hid; [|intros [= <-]; split; [done|by apply Hpop]]. intros [= <-].
  set (b0 := begin_state _ _ _ _ _). assert (build_ok b0) as Hb0 by (by destruct Hb).
  assert (measure b0 < measure b)%N as Hlt by (by apply Hpop).
  assert (state_ok state) as Hst by (eapply Forall_lookup_1; [apply Hb|done]).
  pose proof (foldl_inv (λ c, build_ok c ∧ (measure c ≤ measure b0)%N) (process_transition a) b0 (mjoin (stateGroups a state))) as [Hok Hle].
  - split; [done|lia].
  - intros c t Ht [Hc Hcm]. destruct (process_ok c t Hc) as [? ?]; [by eapply stateGroups_ok|]. split; [done|lia].
  - split; [done|lia].
Qed.

Lemma start_ok b t :
  build_ok b → state_ok (rt_target t) → build_ok (start_transition b t) ∧ (measure (start_transition b t) ≤ measure b + 1)%N.
Proof.
  intros Hb Ht. unfold start_transition. assert (build_ok (note_possible (rt_possibleReuse t) b)) as Hn by (by destruct Hb).
  destruct (addState _ _) as [[id changed] b1] eqn:Hadd. apply addState_ok in Hadd as (Hb1 & _ & Hle); [|done|done].
  assert (measure (note_possible (rt_possibleReuse t) b) = measure b) as Hm by done. rewrite Hm in Hle.
  destruct (enqueue_ok id b1 Hb1) as [? ?]. split; [done|]. destruct changed; lia.
Qed.
End universe.

Section build_graph.
Context (a : sessionReuseAnalyzer) (initial : list reuseTransition).
Let targets := rt_target <$> initial.

Lemma initial_ok t : t ∈ initial → state_ok a targets (rt_target t).
Proof.
  intros Ht. assert (rt_target t ∈ targets) as Hin by (by apply (list_elem_of_fmap_2 rt_target)).
  split_and!; [| | |split_and!].
  - unfold node_choices. rewrite !elem_of_app. right. right. by apply list_elem_of_fmap_2.
  - unfold branch_choices. right. apply elem_of_app. right. by apply list_elem_of_fmap_2.
  - unfold invocation_choices. right. apply elem_of_app. right. by apply list_elem_of_fmap_2.
  - unfold session_choices. do 2 right. apply elem_of_app. right. by apply list_elem_of_fmap_2.
  - unfold source_choices. do 2 right. apply elem_of_app. right. by apply list_elem_of_fmap_2.
  - intros k [st Hk]. unfold key_choices. apply elem_of_app. right.
    eapply elem_of_bind_intro; [exact Hin|]. apply elem_of_map_to_list in Hk. by apply (list_elem_of_fmap_2 fst) in Hk.
Qed.

Lemma start_build :
  build_ok a targets (foldl start_transition empty_build initial) ∧
  (measure a targets (foldl start_transition empty_build initial) < build_fuel a targets)%N.
Proof.
  assert (∀ l b, (∀ t, t ∈ l → t ∈ initial) → build_ok a targets b →
    build_ok a targets (foldl start_transition b l) ∧
    (measure a targets (foldl start_transition b l) ≤ measure a targets b + count l)%N) as H.
  { induction l as [|t l IH]; intros b Hl Hb; cbn [foldl]; [split; [done|lia]|].
    destruct (start_ok a targets b t Hb) as [Hb' Hm]; [by apply initial_ok, Hl; left|].
    destruct (IH (start_transition b t)) as [? ?]; [intros; apply Hl; by right|done|].
    split; [done|]. unfold count in *. cbn [length]. lia. }
  destruct (H initial empty_build) as [Hb Hm]; [done|split; [done|constructor|done]|].
  split; [done|]. eapply N.le_lt_trans; [exact Hm|]. unfold build_fuel, measure, empty_build, total_slack; cbn [b_states b_queue foldr].
  unfold count at 1 2. cbn [length]. unfold targets. unfold count at 2. rewrite length_fmap. unfold count. lia.
Qed.

(** Every worklist run ends, and keeps what its steps keep. *)
Lemma buildGraph_rule (Inv : build → Prop) :
  Inv (foldl start_transition empty_build initial) →
  (∀ b b', Inv b → build_step a b = inl b' → Inv b') →
  ∃ graph, buildGraph a initial = Some graph ∧ Inv graph ∧ b_queue graph = [].
Proof.
  intros Hinit Hstep. destruct start_build as [Hok Hm].
  destruct (loop_total (build_step a) (λ b, build_ok a targets b ∧ Inv b) (measure a targets) (build_fuel a targets)
    (foldl start_transition empty_build initial)) as (r & s' & Hr & [_ Hi] & Hlast).
  - intros b b' [Hb Hi] Hs. destruct (build_step_ok a targets b b' Hb Hs). split; [|done]. split; [done|by eapply Hstep].
  - done.
  - done.
  - unfold build_step in Hlast. destruct (b_queue s') as [|id rest] eqn:Hq; [|by repeat case_match]. injection Hlast as ->.
    exists r. split_and!; [exact Hr|done|done].
Qed.
End build_graph.

(** ** The loops over the graph *)
Section weights.
Context (f : nat → nat).
(** The weight of the indices not yet visited. *)
Definition unvisited (l : list nat) (X : gset nat) : nat := sum_list ((λ i, if i ∈? X then 0 else f i) <$> l).

Lemma unvisited_visit l X id :
  NoDup l → (id ∉ X) → (id ∉ l → f id = 0) → unvisited l ({[id]} ∪ X) + f id = unvisited l X.
Proof.
  unfold unvisited. intros Hl HX Hf. induction Hl as [|i l Hi Hl IH]; cbn.
  - rewrite Hf; [lia|]. by intros ?%elem_of_nil.
  - destruct (decide (i = id)) as [->|Hne].
    + rewrite (bool_decide_eq_true_2 (id ∈ _)) by set_solver. rewrite (bool_decide_eq_false_2 (id ∈ X)) by done.
      assert (sum_list ((λ i, if i ∈? ({[id]} ∪ X) then 0 else f i) <$> l) = sum_list ((λ i, if i ∈? X then 0 else f i) <$> l)) as ->; [|lia].
      f_equal. apply list_fmap_ext. intros j y Hj. apply list_elem_of_lookup_2 in Hj.
      assert (bool_decide (y ∈ ({[id]} ∪ X : gset nat)) = bool_decide (y ∈ X)) as -> by (apply bool_decide_ext; set_solver). done.
    + assert ((id ∉ l) → f id = 0) as Hf' by (intros ?; apply Hf; set_solver). specialize (IH Hf').
      assert (bool_decide (i ∈ ({[id]} ∪ X : gset nat)) = bool_decide (i ∈ X)) as -> by (apply bool_decide_ext; set_solver). lia.
Qed.
End weights.

Lemma length_omap_le {A B} (g : A → option B) (l : list A) : length (omap g l) ≤ length l.
Proof. induction l as [|x l IH]; cbn; [lia|]. destruct (g x); cbn; lia. Qed.

Section graph_loops.
Context (graph : build).

Lemma canReach_terminates id :
  ∃ r, loop (reach_step graph) (2 + transition_count graph) (∅, [id]) = Some r.
Proof.
  set (f := λ i, length (mjoin (groups_at graph i))). set (ids := seq 0 (length (b_groups graph))).
  destruct (loop_total (reach_step graph) (λ _, True)
    (λ s, N.of_nat (unvisited f ids s.1 + length s.2)) (2 + transition_count graph) (∅, [id])) as (r & _ & Hr & _); [|done| |by exists r].
  - intros [X q] [X' q'] _ Hs. split; [done|]. unfold reach_step in Hs. destruct q as [|i q]; [done|].
    case_bool_decide as HX; [injection Hs as <- <-; cbn; lia|].
    destruct (length (groups_at graph i) ==? 0); [done|]. destruct (existsb _ _); [done|]. injection Hs as <- <-. cbn [fst snd].
    rewrite length_app. cbn [length].
    assert (length (omap (transition_target graph) (mjoin (groups_at graph i))) ≤ f i) by apply length_omap_le.
    assert (unvisited f ids ({[i]} ∪ X) + f i = unvisited f ids X); [|lia].
    apply unvisited_visit; [apply NoDup_seq|done|]. intros Hi. unfold f, groups_at.
    rewrite lookup_ge_None_2; [done|]. apply not_lt. intros Hlt. apply Hi, elem_of_seq. lia.
  - cbn [fst snd length]. assert (N.of_nat (unvisited f ids ∅) = transition_count graph) as Hw; [|lia].
    unfold unvisited, transition_count, count, f, groups_at, ids. f_equal.
    induction (b_groups graph) as [|g gs IH] using rev_ind; [done|].
    rewrite length_app; cbn [length]. rewrite seq_app, fmap_app, sum_list_with_app; cbn.
    rewrite !join_app, !length_app. rewrite lookup_app_r, Nat.sub_diag by lia. cbn. rewrite app_nil_r, <- IH.
    assert (∀ x y z : nat, x = y → x + (z + 0) = y + z) as Harith by lia. apply Harith.
    f_equal. apply list_fmap_ext. intros j y Hj. apply lookup_seq in Hj as [-> Hj]. by rewrite lookup_app_l by lia.
Qed.

(** A sweep only withdraws guarantees. *)
Definition at_most (g h : list bool) : Prop := length g = length h ∧ ∀ i, default false (g !! i) = true → default false (h !! i) = true.
Definition supported (canReach g : list bool) : Prop :=
  at_most g canReach ∧ ∀ i, next_guaranteed graph canReach g i = true → default false (g !! i) = true.

Lemma at_most_trans g h k : at_most g h → at_most h k → at_most g k.
Proof. intros [? ?] [? ?]. split; [congruence|auto]. Qed.
Lemma group_guaranteed_mono g h group : at_most g h → group_guaranteed graph g group = true → group_guaranteed graph h group = true.
Proof.
  intros [_ Hle]. unfold group_guaranteed. rewrite !existsb_exists. intros (t & Ht & H). exists t. split; [done|].
  apply orb_true_iff in H as [->|H]; [done|]. destruct (transition_target graph t); [|done]. by rewrite (Hle _ H), orb_true_r.
Qed.
Lemma next_mono canReach g h i :
  at_most g h → next_guaranteed graph canReach g i = true → next_guaranteed graph canReach h i = true.
Proof.
  intros Hle. unfold next_guaranteed. rewrite !andb_true_iff, !forallb_forall. intros [[? H] ?]. split_and!; [done| |done].
  intros group Hg. by eapply group_guaranteed_mono, H.
Qed.
Lemma update_supported canReach g i :
  supported canReach g →
  let g' := <[i := next_guaranteed graph canReach g i]> g in supported canReach g' ∧ at_most g' g.
Proof.
  intros [Hle Hs]. cbv zeta. set (g' := <[i := _]> g).
  assert (at_most g' g) as Hle'.
  { split; [by unfold g'; rewrite length_insert|]. intros j. unfold g'. destruct (decide (i = j)) as [<-|Hne].
    - destruct (decide (i < length g)) as [Hi|Hi].
      + rewrite list_lookup_insert_eq by done. cbn. apply Hs.
      + rewrite list_insert_ge by lia. done.
    - by rewrite list_lookup_insert_ne. }
  split; [|done]. split; [by eapply at_most_trans|]. intros j Hj. pose proof (next_mono _ _ _ _ Hle' Hj) as Hj'.
  unfold g'. destruct (decide (i = j)) as [<-|Hne].
  - destruct (decide (i < length g)) as [Hi|Hi].
    + by rewrite list_lookup_insert_eq.
    + rewrite list_insert_ge by lia. by apply Hs.
  - rewrite list_lookup_insert_ne by done. by apply Hs.
Qed.
Lemma sweep_supported canReach g :
  supported canReach g → supported canReach (sweep graph canReach g) ∧ at_most (sweep graph canReach g) g.
Proof.
  intros Hs. unfold sweep.
  apply (foldl_inv (λ h, supported canReach h ∧ at_most h g)); [split; [done|by split]|].
  intros h i _ [Hh Hle]. destruct (update_supported canReach h i Hh). split; [done|by eapply at_most_trans].
Qed.

Definition trues (g : list bool) : nat := length (filter (λ b, b = true) g).
Lemma trues_cons b g : trues (b :: g) = (if b then 1 else 0) + trues g.
Proof. unfold trues. rewrite filter_cons. by destruct b. Qed.
Lemma trues_less g h : at_most g h → g ≠ h → trues g < trues h.
Proof.
  intros Hle Hne. assert (trues g ≤ trues h ∧ (g ≠ h → trues g < trues h)) as [_ H]; [|by apply H]. clear Hne.
  revert h Hle. induction g as [|x g IH]; intros [|y h] [Hlen Hle]; try done. rewrite !trues_cons.
  destruct (IH h) as [H1 H2]; [split; [by injection Hlen|exact (λ i, Hle (S i))]|].
  assert (x = true → y = true) as Hxy by exact (Hle 0).
  destruct x, y; try (by specialize (Hxy eq_refl)); split; try lia; intros Hne; try lia;
    assert (g ≠ h) as Hne' by congruence; specialize (H2 Hne'); lia.
Qed.

Lemma sweeps_terminate canReach :
  length canReach = length (b_states graph) →
  ∃ g, loop (sweep_step graph canReach) (2 + count (b_states graph)) canReach = Some g ∧
    supported canReach g ∧ sweep graph canReach g = g.
Proof.
  intros Hlen.
  destruct (loop_total (sweep_step graph canReach) (supported canReach) (λ g, N.of_nat (trues g)) (2 + count (b_states graph)) canReach)
    as (r & g & Hr & Hg & Hlast).
  - intros g g' Hg Hs. unfold sweep_step in Hs. case_bool_decide as Hne; [done|]. injection Hs as <-.
    destruct (sweep_supported canReach g Hg) as [? Hle]. split; [done|]. pose proof (trues_less _ _ Hle Hne). lia.
  - split; [by split|]. intros i. unfold next_guaranteed. rewrite !andb_true_iff. by intros [_ ?].
  - assert (trues canReach ≤ length canReach) by apply length_filter_le. unfold count. lia.
  - unfold sweep_step in Hlast. case_bool_decide as Heq; [|done]. injection Hlast as Hlast. rewrite Heq in Hlast. subst r. eauto.
Qed.
End graph_loops.

(** ** The search for references *)
Section references.
Context {L : Type} (input : SessionReuseAnalysisInput L).
Let task := TrimSpace (cnr_TaskID (cn_Reference (in_CompletedCurrentNode input))).

(** The references are of the task, well-formed and recorded under their keys. *)
Definition references_ok (s : reference_search) : Prop :=
  NoDup (rs_references s) ∧
  ∀ r, r ∈ rs_references s → wf_reference r ∧ cnr_TaskID r = task ∧ ∃ k, CurrentNodeReference_Key r = Ok k ∧ k ∈ rs_seen s.

Lemma appendReference_ok nodeID branch s :
  references_ok s →
  references_ok (appendReference input nodeID branch s) ∧
  rs_visited (appendReference input nodeID branch s) = rs_visited s ∧ rs_queue (appendReference input nodeID branch s) = rs_queue s.
Proof.
  intros [Hnd Hr]. unfold appendReference, NewCurrentNodeReference.
  destruct (CurrentNodeReference_Validate _) as [e|]; [done|].
  match goal with |- context [CurrentNodeReference_Key ?x] => set (r := x) end.
  destruct (CurrentNodeReference_Key r) as [k|e] eqn:Hk; [|done]. case_bool_decide as Hseen; [done|].
  split_and!; [|done|done]. split; cbn.
  - apply NoDup_app. split_and!; [done| |apply NoDup_singleton]. intros r' Hin ->%list_elem_of_singleton.
    destruct (Hr r Hin) as (_ & _ & k' & Hk' & Hin'). congruence.
  - intros r' [Hin| ->%list_elem_of_singleton]%elem_of_app.
    + destruct (Hr r' Hin) as (? & ? & k' & ? & ?). split_and!; [done|done|]. exists k'. split; [done|by right].
    + split_and!; [by eapply Key_valid|done|]. exists k. split; [done|left].
Qed.

Lemma appendContextReference_ok sb tb e target s :
  references_ok s →
  references_ok (appendContextReference input sb tb e target s) ∧
  rs_visited (appendContextReference input sb tb e target s) = rs_visited s ∧
  rs_queue (appendContextReference input sb tb e target s) = rs_queue s.
Proof.
  intros Hs. unfold appendContextReference. case_match; [|done]. destruct (reuseContextLookupBranch _ _ _) as [lb []]; [|done].
  cbn [negb]. case_match; [case_match; [by apply appendReference_ok|done]|]. case_match; [by apply appendReference_ok|done].
Qed.

(** Every visited place is one of finitely many. *)
Definition search_ok (s : reference_search) : Prop :=
  references_ok s ∧
  (∀ p, p ∈ rs_visited s → p.1 ∈ e_TargetNodeID <$> reference_edges input ∧ p.2 ∈ reference_branches input) ∧
  (∀ p, p ∈ rs_queue s → p.2 ∈ reference_branches input).
Definition places : N := (count (reference_edges input) * count (reference_branches input))%N.
Definition search_measure (s : reference_search) : N := (places - N.of_nat (size (rs_visited s)) + count (rs_queue s))%N.

Lemma visited_bound (X : gset (NodeID * reuseBranch)) :
  (∀ p, p ∈ X → p.1 ∈ e_TargetNodeID <$> reference_edges input ∧ p.2 ∈ reference_branches input) →
  (N.of_nat (size X) ≤ places)%N.
Proof.
  intros HX. set (U := n ← e_TargetNodeID <$> reference_edges input; b ← reference_branches input; [(n, b)]).
  assert (size X ≤ length U).
  { change (length (elements X) ≤ length U). apply submseteq_length, NoDup_submseteq; [apply NoDup_elements|].
    intros [n b] Hp%elem_of_elements. destruct (HX _ Hp) as [Hn Hb]. unfold U.
    eapply elem_of_bind_intro; [exact Hn|]. eapply elem_of_bind_intro; [exact Hb|]. by apply list_elem_of_singleton. }
  assert (length U = length (reference_edges input) * length (reference_branches input)) as HU.
  { unfold U. erewrite length_bind_const; [|intros n; apply (length_bind_const _ _ 1); done]. rewrite length_fmap. lia. }
  unfold places, count. lia.
Qed.

Lemma enqueue_reference_ok b s e :
  search_ok s → b ∈ reference_branches input → e ∈ reference_edges input →
  search_ok (enqueue_reference input b s e) ∧ (search_measure (enqueue_reference input b s e) ≤ search_measure s)%N.
Proof.
  intros (Hr & Hv & Hq) Hb He. unfold enqueue_reference. destruct (ft_nodesByID _ !! _) as [target|]; [|split; [done|lia]].
  set (tb := nextReuseBranch _ _ _ _). assert (tb ∈ reference_branches input) as Htb.
  { unfold tb, nextReuseBranch. case_match; [left|]. case_match; [|done]. case_match; [|done]. do 2 right.
    apply list_elem_of_fmap. by exists e. }
  destruct (appendContextReference_ok b tb e target s Hr) as (Hr' & Hv' & Hq').
  set (s' := appendContextReference input b tb e target s) in *.
  assert (search_measure s' = search_measure s) as Hm by (unfold search_measure; by rewrite Hv', Hq').
  case_bool_decide as Hin; [split; [by rewrite <- Hv' in Hv; rewrite <- Hq' in Hq|lia]|].
  assert (∀ p, p ∈ ({[(e_TargetNodeID e, tb)]} ∪ rs_visited s' : gset (NodeID * reuseBranch)) →
    p.1 ∈ e_TargetNodeID <$> reference_edges input ∧ p.2 ∈ reference_branches input) as Hv2.
  { intros p [->%elem_of_singleton|Hp]%elem_of_union; [|rewrite Hv' in Hp; by apply Hv]. split; [|done].
    by apply (list_elem_of_fmap_2 e_TargetNodeID). }
  pose proof (visited_bound _ Hv2) as Hbound. rewrite size_union, size_singleton in Hbound by set_solver.
  split.
  - split_and!; [done|done|]. cbn. intros p [Hp| ->%list_elem_of_singleton]%elem_of_app; [rewrite Hq' in Hp; by apply Hq|done].
  - rewrite <- Hm. unfold search_measure, count. cbn [rs_visited rs_queue].
    rewrite size_union, size_singleton, length_app by set_solver. cbn [length]. lia.
Qed.

Lemma fold_references_ok b edges s :
  search_ok s → b ∈ reference_branches input → (∀ e, e ∈ edges → e ∈ reference_edges input) →
  search_ok (foldl (enqueue_reference input b) s edges) ∧
  (search_measure (foldl (enqueue_reference input b) s edges) ≤ search_measure s)%N.
Proof.
  intros Hs Hb He. apply (foldl_inv (λ s', search_ok s' ∧ (search_measure s' ≤ search_measure s)%N)); [split; [done|lia]|].
  intros s' e Hin [Hs' Hm]. destruct (enqueue_reference_ok b s' e Hs' Hb (He e Hin)). split; [done|lia].
Qed.

Lemma references_terminate :
  ∃ references, SessionReuseAssociationReferences input = Some references ∧ NoDup references ∧
    ∀ r, r ∈ references → wf_reference r ∧ cnr_TaskID r = task.
Proof.
  set (empty := {| rs_references := []; rs_seen := []; rs_visited := ∅; rs_queue := [] |}).
  assert (references_ok empty) as Hempty by (split; [constructor|by intros ? ?%elem_of_nil]).
  assert (search_ok (reference_start input) ∧ (search_measure (reference_start input) ≤ places)%N) as [Hstart Hm].
  { unfold reference_start. fold empty.
    set (s0 := match cn_SessionID _ with Some _ => _ | None => _ end).
    assert (references_ok s0 ∧ rs_visited s0 = ∅ ∧ rs_queue s0 = []) as (Hr & Hv & Hq)
      by (unfold s0; case_match; [by apply (appendReference_ok _ _ empty)|done]).
    assert (search_ok s0) as Hs0 by (split_and!; [done|rewrite Hv; set_solver|rewrite Hq; by intros ? ?%elem_of_nil]).
    destruct (fold_references_ok (reuseBranchForReference (cn_Reference (in_CompletedCurrentNode input))) (in_AcceptedBranches input) s0)
      as [? Hle]; [done|right; left|unfold reference_edges; set_solver|].
    split; [done|]. etransitivity; [exact Hle|]. unfold search_measure. rewrite Hv, Hq, size_empty. unfold count at 1. cbn [length]. lia. }
  destruct (loop_total (reference_step input) search_ok search_measure (reference_fuel input) (reference_start input))
    as (r & s' & Hr & (Hok & _) & Hlast); [|done| |].
  - intros s s' Hs Hstep. pose proof Hs as (Href & Hv & Hq). unfold reference_step in Hstep.
    destruct (rs_queue s) as [|[n b] rest] eqn:Eq; [done|]. injection Hstep as <-.
    set (s1 := {| rs_references := _; rs_seen := _; rs_visited := _; rs_queue := _ |}).
    assert (search_ok s1) as Hs1 by (split_and!; [done|done|intros p Hp; apply Hq; by right]).
    destruct (fold_references_ok b (outgoing_edges input n) s1) as [? Hle]; [done|apply (Hq (n, b)); left| |].
    + intros e Hin. unfold outgoing_edges in Hin. apply list_elem_of_bind in Hin as (g & Hin & _). cbn in Hin.
      rewrite getl_index_edges_by_group in Hin. apply list_elem_of_filter in Hin as [_ Hin]. unfold reference_edges. set_solver.
    + split; [done|]. assert (search_measure s1 < search_measure s)%N; [|lia].
      unfold search_measure, count. rewrite Eq. unfold s1. cbn [rs_visited rs_queue length]. lia.
  - unfold reference_fuel. fold places. lia.
  - exists r. unfold reference_step in Hlast. destruct (rs_queue s') as [|[n b] rest]; [|done]. injection Hlast as <-.
    split_and!; [exact Hr|apply Hok|]. intros x Hx. destruct Hok as [_ Hok]. destruct (Hok x Hx) as (? & ? & _). done.
Qed.
End references.
