(* ===== verification/SessionReuseStatic.v ===== *)
(** * What the static session analysis guarantees

    The runs of a workflow, with the session each step would continue from, and
    the proof that the path states the analysis collects cover them. *)
From Stdlib Require Import NArith String.
From stdpp Require Import gmap strings list.
From S2P Require Import Prelude GoStrings Types Reach Fanout Selection CurrentState SessionReuse SessionReuseTermination.

(** ** Sources *)

(** [s'] stands for [s]: the same source, or no common one. *)
Definition covers (s' s : staticContinuationSource) : Prop := s' = s ∨ s' = divergent_source.

Lemma covers_refl s : covers s s.
Proof. by left. Qed.
Lemma covers_trans s1 s2 s3 : covers s1 s2 → covers s2 s3 → covers s1 s3.
Proof. intros [->| ->] [->| ->]; unfold covers; auto. Qed.
#[export] Hint Resolve covers_refl : kent.

Lemma common_source_fold s l :
  foldl (λ source arrival, if source <>? arrival then divergent_source else source) s l =
  if decide (Forall (eq s) l) then s else divergent_source.
Proof.
  revert s. induction l as [|x l IH]; intros s; cbn; [done|]. rewrite IH.
  destruct (bool_decide_reflect (s = x)) as [->|Hne]; cbn.
  - repeat case_decide; try done; by rewrite Forall_cons in *; naive_solver.
  - rewrite (decide_False (P := Forall _ (x :: l))) by (by rewrite Forall_cons; intros [? _]). by case_decide.
Qed.
(** One source for all, if they agree. *)
Lemma common_source_eq s l :
  common_source (s :: l) = if decide (Forall (eq s) l) then s else divergent_source.
Proof. apply common_source_fold. Qed.

Lemma common_source_covers l' l : Forall2 covers l' l → covers (common_source l') (common_source l).
Proof.
  intros H. destruct H as [|s' s l' l Hs Hl]; [apply covers_refl|]. rewrite !common_source_eq.
  case_decide as H'; [|by right]. destruct Hs as [->| ->]; [|by right].
  case_decide as H; [by left|]. destruct (decide (s = divergent_source)) as [->|Hne]; [by left|].
  exfalso. apply H. clear H. induction Hl as [|x' x l' l Hx Hl IH]; [constructor|]. apply Forall_cons in H' as [<- H'].
  constructor; [|by apply IH]. destruct Hx as [<-| Hx]; [done|]. congruence.
Qed.

Section static.
Context (a : sessionReuseAnalyzer).

(** ** Runs *)

(** A run is at a node, on a branch, with a session to continue from and,
    inside a fan-out, the fan-out's group and the branch's key. *)
Record token := {
  tk_node : NodeID; tk_branch : reuseBranch; tk_source : staticContinuationSource;
  tk_context : option (TransitionGroupID * TransitionBranchKey) }.

Definition token_after (t : token) (g : TransitionGroupID) (e : Edge) (target : Node) : token :=
  let branch := nextReuseBranch (tk_branch t) e target (length (getl (an_edgesByGroup a) (e_TransitionGroupID e))) in {|
  tk_node := e_TargetNodeID e; tk_branch := branch;
  tk_source := transferStaticContinuationSource a (tk_source t) (tk_node t) (tk_branch t) branch e target;
  tk_context := match an_staticFanouts a !! g with Some _ => Some (g, e_Key e) | None => tk_context t end |}.

(** The edge leaves the run's node in one of its transition groups. *)
Definition leaves (t : token) (g : TransitionGroupID) (e : Edge) (target : Node) : Prop :=
  (∃ group, group ∈ getl (an_groupsBySource a) (tk_node t) ∧ tg_ID group = g) ∧
  e ∈ getl (an_edgesByGroup a) g ∧ an_nodesByID a !! e_TargetNodeID e = Some target.
Definition moves (t : token) (g : TransitionGroupID) (e : Edge) (t' : token) : Prop :=
  ∃ target, leaves t g e target ∧ t' = token_after t g e target.

(** The run has reached the join of its fan-out. *)
Definition waits (t : token) : Prop :=
  ∃ g k f, tk_context t = Some (g, k) ∧ an_staticFanouts a !! g = Some f ∧ sf_joinID f = tk_node t.

(** From [t] the branch runs to [u], at the join. *)
Inductive arrives (u : token) : token → Prop :=
| arrives_here : waits u → arrives u u
| arrives_move t g e t' : ¬ waits t → moves t g e t' → an_staticFanouts a !! g = None → arrives u t' → arrives u t.

Definition start_token (start : NodeID) : token :=
  {| tk_node := start; tk_branch := no_branch; tk_source := absent_source; tk_context := None |}.

(** The situations of all runs from [start]: a run moves along edges; at a join
    it goes on when every branch of the fan-out has arrived, with their common
    source. *)
Inductive reached (start : NodeID) : token → Prop :=
| reached_start : reached start (start_token start)
| reached_move t g e t' : reached start t → moves t g e t' → ¬ waits t' → reached start t'
| reached_join t g f (arrival : TransitionBranchKey → token) :
    reached start t → (∃ group, group ∈ getl (an_groupsBySource a) (tk_node t) ∧ tg_ID group = g) →
    an_staticFanouts a !! g = Some f →
    (∀ k, k ∈ sf_siblings f → ∃ e t1, moves t g e t1 ∧ e_Key e = k ∧ arrives (arrival k) t1) →
    reached start {| tk_node := sf_joinID f; tk_branch := no_branch;
                     tk_source := common_source ((λ k, tk_source (arrival k)) <$> sf_siblings f); tk_context := None |}.

(** The step has the session it needs: a retained session of the target is
    chosen by one exact active session, and no session is continued from
    branches that disagree. *)
Definition source_sufficient (t : token) (e : Edge) (target : Node) : Prop :=
  Kind target = NodeKindAgent →
  (isRetainedTargetContextSource (e_ContextSource e) = true → sc_kind (tk_source t) = staticContinuationSourceExact) ∧
  (context_kind (e_ContextSource e) ≠ ContextSourceSelectedNode → e_ContextMode e ≠ ContextModeNewSession →
    sc_kind (tk_source t) ≠ staticContinuationSourceDivergent).

(** ** Hypotheses on the analyzer *)
Context (Hstatic : an_staticValidation a = true).
Context (Hblank : an_nodesByID a !! "" = None).
Context (Hsiblings : ∀ g f, an_staticFanouts a !! g = Some f →
  NoDup (sf_siblings f) ∧ sf_siblings f ≠ [] ∧ ∀ k, k ∈ sf_siblings f ↔ ∃ e, e ∈ getl (an_edgesByGroup a) g ∧ e_Key e = k).

(** ** Transitions of path states *)
Definition invocation_wf (i : staticFanoutInvocation) : Prop :=
  i = no_invocation ∨
  ∃ f, an_staticFanouts a !! si_groupID i = Some f ∧ si_sibling i ∈ sf_siblings f ∧ si_joinID i = sf_joinID f.
Definition target_wf (s : reusePathState) : Prop :=
  ps_nodeID s ≠ "" ∧ ps_overwritten s = ∅ ∧ invocation_wf (ps_staticInvocation s).

Definition target_after (s : reusePathState) (g : TransitionGroupID) (e : Edge) (target : Node) : reusePathState :=
  match an_staticFanouts a !! g with
  | Some f => set_invocation (invocation_of s g e f) reuseJoinComplete
  | None => set_invocation (ps_staticInvocation s) (ps_joinMode s)
  end (rt_target (apply_static a s e target
    (nextReuseBranch (ps_branch s) e target (length (getl (an_edgesByGroup a) (e_TransitionGroupID e)))))).

Lemma elem_of_transitions s t :
  t ∈ mjoin (stateGroups a s) ↔
  ∃ group e target, group ∈ getl (an_groupsBySource a) (ps_nodeID s) ∧ e ∈ getl (an_edgesByGroup a) (tg_ID group) ∧
    an_nodesByID a !! e_TargetNodeID e = Some target ∧
    t = {| rt_target := target_after s (tg_ID group) e target; rt_possibleReuse := false; rt_guaranteedCAC := false |}.
Proof.
  rewrite list_elem_of_join. unfold stateGroups. setoid_rewrite list_elem_of_fmap. split.
  - intros (l & Ht & group & -> & Hg). apply list_elem_of_omap in Ht as (e & He & Ht).
    unfold group_transition, applyEdge in Ht. rewrite Hstatic in Ht.
    destruct (an_nodesByID a !! e_TargetNodeID e) as [target|] eqn:Hn; [|done]. exists group, e, target.
    split_and!; [done|done|done|]. cbn in Ht. injection Ht as <-. unfold target_after, with_target; cbn.
    by destruct (an_staticFanouts a !! tg_ID group).
  - intros (group & e & target & Hg & He & Hn & ->). eexists. split; [|eauto]. apply list_elem_of_omap. exists e. split; [done|].
    unfold group_transition, applyEdge. rewrite Hn, Hstatic. cbn. unfold target_after, with_target; cbn.
    by destruct (an_staticFanouts a !! tg_ID group).
Qed.

Lemma transition_wf s t : invocation_wf (ps_staticInvocation s) → t ∈ mjoin (stateGroups a s) → target_wf (rt_target t).
Proof.
  intros Hi (group & e & target & Hg & He & Hn & ->)%elem_of_transitions. cbn. unfold target_after.
  assert (e_TargetNodeID e ≠ "") by congruence.
  destruct (an_staticFanouts a !! tg_ID group) as [f|] eqn:Hf; (split_and!; [done|done|]); cbn; [|done].
  right. exists f. cbn. split_and!; [done| |done]. apply (Hsiblings _ _ Hf). eauto.
Qed.

(** ** What the worklist keeps *)
Definition has (b : build) (s : reusePathState) : Prop := ∃ s', s' ∈ b_states b ∧ structure s' = structure s.
(** A target is a state of the graph, or recorded as an arrival at its join. *)
Definition handled (b : build) (s : reusePathState) : Prop :=
  if decide (si_joinID (ps_staticInvocation s) = ps_nodeID s) then
    ∃ recorded r, b_arrivals b !! aggregationKey (ps_staticInvocation s) = Some recorded ∧
      recorded !! si_sibling (ps_staticInvocation s) = Some r ∧ covers (ps_staticSource r) (ps_staticSource s)
  else has b s.
Definition explored (b : build) (s : reusePathState) : Prop :=
  stateInvalid a s ⊆ b_invalid b ∧ ∀ t, t ∈ mjoin (stateGroups a s) → handled b (rt_target t).

Definition join_sources (recorded : gmap TransitionBranchKey reusePathState) (siblings : list TransitionBranchKey) : list staticContinuationSource :=
  (λ k, ps_staticSource (default zero_state (recorded !! k))) <$> siblings.
(** The arrivals of a fan-out are those of its branches, and once they are
    complete their join is a state of the graph, but for those that just came. *)
Definition arrivals_wf (incoming : option staticFanoutInvocationKey) (b : build) : Prop :=
  ∀ key recorded, b_arrivals b !! key = Some recorded →
  (∀ k s, recorded !! k = Some s → k ∈ siblings_of a key.1.1.1 ∧ ps_overwritten s = ∅) ∧
  (incoming ≠ Some key → size recorded = length (siblings_of a key.1.1.1) → ∃ s, s ∈ b_states b ∧ ps_nodeID s = key.2 ∧ ps_branch s = no_branch ∧
    ps_staticInvocation s = no_invocation ∧ ps_staticSource s = common_source (join_sources recorded (siblings_of a key.1.1.1))).

(** Up to the state being processed and the arrivals that just came, if any. *)
Record kept (pending : option nat) (incoming : option staticFanoutInvocationKey) (b : build) : Prop := {
  k_wf : ∀ s, s ∈ b_states b → invocation_wf (ps_staticInvocation s);
  k_queued : ∀ id, id ∈ b_queued b ↔ id ∈ b_queue b;
  k_nodup : NoDup (b_queue b);
  k_arrivals : arrivals_wf incoming b;
  k_processed : ∀ id s, b_states b !! id = Some s → id ∈ b_processed b → pending = Some id ∨ explored b s;
  k_explored : ∀ id s, b_states b !! id = Some s → pending = Some id ∨ explored b s ∨ id ∈ b_queue b }.

(** [b'] knows at least what [b] knows. *)
Record extends (b b' : build) : Prop := {
  x_states : ∃ l, b_states b' = b_states b ++ l;
  x_arrivals : ∀ key recorded k r, b_arrivals b !! key = Some recorded → recorded !! k = Some r →
    ∃ recorded' r', b_arrivals b' !! key = Some recorded' ∧ recorded' !! k = Some r' ∧
      covers (ps_staticSource r') (ps_staticSource r);
  x_invalid : b_invalid b ⊆ b_invalid b' }.

Lemma extends_refl b : extends b b.
Proof. split; [exists []; by rewrite app_nil_r| |done]. intros. do 2 eexists. by split_and!; [| |apply covers_refl]. Qed.
Lemma extends_trans b1 b2 b3 : extends b1 b2 → extends b2 b3 → extends b1 b3.
Proof.
  intros [[l1 H1] Ha1 Hi1] [[l2 H2] Ha2 Hi2]. split; [|  |set_solver].
  - exists (l1 ++ l2). by rewrite H2, H1, app_assoc.
  - intros key recorded k r Hr Hk. destruct (Ha1 _ _ _ _ Hr Hk) as (recorded1 & r1 & Hr1 & Hk1 & Hc1).
    destruct (Ha2 _ _ _ _ Hr1 Hk1) as (recorded2 & r2 & Hr2 & Hk2 & Hc2). exists recorded2, r2. split_and!; [done|done|].
    by eapply covers_trans.
Qed.
Lemma has_extends b b' s : extends b b' → has b s → has b' s.
Proof. intros [[l Hl] _ _] (s' & Hin & Hs). exists s'. split; [|done]. rewrite Hl. set_solver. Qed.
Lemma handled_extends b b' s : extends b b' → handled b s → handled b' s.
Proof.
  intros Hx. unfold handled. case_decide; [|by apply has_extends]. intros (recorded & r & Hr & Hk & Hc).
  destruct (x_arrivals _ _ Hx _ _ _ _ Hr Hk) as (recorded' & r' & Hr' & Hk' & Hc'). exists recorded', r'.
  split_and!; [done|done|by eapply covers_trans].
Qed.
Lemma explored_extends b b' s : extends b b' → explored b s → explored b' s.
Proof.
  intros Hx [Hi Ht]. split; [pose proof (x_invalid _ _ Hx); set_solver|]. intros t Hin. by eapply handled_extends, Ht.
Qed.

(** Adding a state of the static mode. *)
Lemma addState_static s b id changed b' :
  ps_overwritten s = ∅ → addState s b = (id, changed, b') →
  has b' s ∧ (if changed then id = length (b_states b) ∧ b' = append_state s b else b' = b).
Proof.
  intros Ho. unfold addState. destruct (graphStateID s (b_states b)) as [i|] eqn:Hid.
  - apply graphStateID_Some in Hid as (known & Hk & Hst). rewrite Hk, Ho. unfold mergeOverwritten.
    rewrite map_size_empty, bool_decide_eq_true_2 by done. intros [= <- <- <-]. split; [|done].
    exists known. split; [by eapply list_elem_of_lookup_2|done].
  - intros [= <- <- <-]. split; [|done]. exists s. split; [cbn; set_solver|done].
Qed.

Lemma enqueue_states id b : b_states (enqueue id b) = b_states b ∧ b_arrivals (enqueue id b) = b_arrivals b ∧ b_invalid (enqueue id b) = b_invalid b.
Proof. unfold enqueue. by case_match. Qed.

(** Adding a well-formed state and queueing it when it is new. *)
Lemma add_kept pending incoming s b :
  kept pending incoming b → target_wf s →
  let '(id, changed, b1) := addState s b in
  let b2 := if changed then enqueue id b1 else b1 in
  kept pending incoming b2 ∧ extends b b2 ∧ has b2 s.
Proof.
  intros Hk (Hn & Ho & Hi). destruct (addState s b) as [[id changed] b1] eqn:Hadd.
  apply addState_static in Hadd as [Hhas Hch]; [|done]. destruct changed; [|subst b1; by split_and!; [| apply extends_refl|]].
  destruct Hch as [-> ->]. cbv zeta. set (b2 := enqueue (length (b_states b)) (append_state s b)).
  assert (b_states b2 = b_states b ++ [s] ∧ b_arrivals b2 = b_arrivals b ∧ b_invalid b2 = b_invalid b) as (Hs2 & Ha2 & Hi2).
  { unfold b2. destruct (enqueue_states (length (b_states b)) (append_state s b)) as (-> & -> & ->). done. }
  assert (b_processed b2 = b_processed b ∖ {[length (b_states b)]}) as Hp2 by (unfold b2, enqueue; by case_match).
  assert (extends b b2) as Hx.
  { split; [exists [s]; done| |by rewrite Hi2]. rewrite Ha2. intros. do 2 eexists. by split_and!; [| |apply covers_refl]. }
  assert (∀ i, i ∈ b_queue b2 ↔ i ∈ b_queue b ∨ i = length (b_states b)) as Hq.
  { intros i. unfold b2, enqueue. case_bool_decide as Hin; cbn in *.
    - rewrite (k_queued _ _ _ Hk) in Hin. naive_solver.
    - rewrite elem_of_app, list_elem_of_singleton. done. }
  split_and!; [|done|].
  - split.
    + intros s'. rewrite Hs2, elem_of_app, list_elem_of_singleton. intros [?| ->]; [by apply (k_wf _ _ _ Hk)|done].
    + intros i. rewrite Hq, <- (k_queued _ _ _ Hk). unfold b2, enqueue. case_bool_decide; cbn in *; set_solver.
    + unfold b2, enqueue. case_bool_decide as Hin; cbn in *; [apply Hk|]. rewrite (k_queued _ _ _ Hk) in Hin.
      apply NoDup_app. split_and!; [apply Hk| |apply NoDup_singleton]. intros x Hx1 ->%list_elem_of_singleton. done.
    + intros key recorded. rewrite Ha2. intros Hr. destruct (k_arrivals _ _ _ Hk key recorded Hr) as [H1 H2].
      split; [done|]. intros Hne Hsz. destruct (H2 Hne Hsz) as (s' & Hin & ?). exists s'. rewrite Hs2. split; [set_solver|done].
    + intros i s'. rewrite Hs2, Hp2. intros [Hl|[Hge Hl]]%lookup_app_Some Hin.
      * apply elem_of_difference in Hin as [Hin _].
        destruct (k_processed _ _ _ Hk i s' Hl Hin) as [?|?]; [by left|right; by eapply explored_extends].
      * apply list_lookup_singleton_Some in Hl as [? _]. apply elem_of_difference in Hin as [_ []].
        apply elem_of_singleton. lia.
    + intros i s'. rewrite Hs2. intros [Hl|[Hge Hl]]%lookup_app_Some.
      * destruct (k_explored _ _ _ Hk i s' Hl) as [?|[?|?]]; [by left|right; left; by eapply explored_extends|right; right; apply Hq; by left].
      * right. right. apply Hq. right. apply list_lookup_singleton_Some in Hl as [? _]. lia.
  - exists s. rewrite Hs2. split; [set_solver|done].
Qed.

(** Recording an arrival. *)
Lemma reduce_overwritten l r : ps_overwritten l = ∅ → ps_overwritten r = ∅ → ps_overwritten (reduceJoinState l r) = ∅.
Proof. intros Hl Hr. cbn. unfold mergeCompleteJoinOverwritten. rewrite Hl, Hr, merge_empty_l. apply omap_empty. Qed.

Lemma record_arrival_spec target recorded :
  let sibling := si_sibling (ps_staticInvocation target) in
  let recorded' := record_arrival target recorded in
  (∃ r, recorded' !! sibling = Some r ∧ covers (ps_staticSource r) (ps_staticSource target)) ∧
  (∀ k r, recorded !! k = Some r → ∃ r', recorded' !! k = Some r' ∧ covers (ps_staticSource r') (ps_staticSource r)) ∧
  (∀ k r, recorded' !! k = Some r → k = sibling ∨ is_Some (recorded !! k)) ∧
  (ps_overwritten target = ∅ → (∀ k r, recorded !! k = Some r → ps_overwritten r = ∅) → ∀ k r, recorded' !! k = Some r → ps_overwritten r = ∅).
Proof.
  cbv zeta. unfold record_arrival. set (k0 := si_sibling (ps_staticInvocation target)).
  destruct (recorded !! k0) as [previous|] eqn:Hp.
  - match goal with |- context [<[k0 := ?x]> recorded] => set (r0 := x) end.
    assert (covers (ps_staticSource r0) (ps_staticSource previous) ∧ covers (ps_staticSource r0) (ps_staticSource target)) as [Hc1 Hc2].
    { unfold r0. destruct (bool_decide_reflect (ps_staticSource previous = ps_staticSource target)) as [Heq|Hne]; cbn.
      - split; left; congruence.
      - split; by right. }
    assert (∀ r, recorded !! k0 = Some r → r = previous) as Hprev by congruence.
    split_and!.
    + exists r0. by rewrite lookup_insert_eq.
    + intros k r Hr. destruct (decide (k = k0)) as [->|Hne]; [exists r0; rewrite lookup_insert_eq; by rewrite (Hprev r Hr)|].
      exists r. rewrite lookup_insert_ne by done. by split; [|apply covers_refl].
    + intros k r. destruct (decide (k = k0)) as [->|Hne]; [by left|]. rewrite lookup_insert_ne by done. right. by exists r.
    + intros Ht Ha k r. destruct (decide (k = k0)) as [->|Hne]; [|rewrite lookup_insert_ne by done; apply Ha].
      rewrite lookup_insert_eq. intros [= <-]. pose proof (reduce_overwritten previous target (Ha _ _ Hp) Ht) as Hr.
      unfold r0. by case_match.
  - split_and!.
    + exists target. rewrite lookup_insert_eq. split; [done|apply covers_refl].
    + intros k r Hr. exists r. rewrite lookup_insert_ne by congruence. split; [done|apply covers_refl].
    + intros k r. destruct (decide (k = k0)) as [->|Hne]; [by left|]. rewrite lookup_insert_ne by done. right. by exists r.
    + intros Ht Ha k r. destruct (decide (k = k0)) as [->|Hne]; [|rewrite lookup_insert_ne by done; apply Ha].
      rewrite lookup_insert_eq. by intros [= <-].
Qed.

Lemma join_state_overwritten j states : Forall (λ s, ps_overwritten s = ∅) states → ps_overwritten (join_state j states) = ∅.
Proof.
  intros H. unfold join_state. cbn. destruct H as [|s rest Hs Hrest]; [done|]. rewrite Forall_forall in Hrest.
  apply (foldl_inv (λ s, ps_overwritten s = ∅)); [by apply reduce_overwritten|]. intros. apply reduce_overwritten; auto.
Qed.

(** A target that reaches its join. *)
Lemma arrive_kept pending target b :
  kept pending None b → target_wf target → si_joinID (ps_staticInvocation target) = ps_nodeID target →
  let key := aggregationKey (ps_staticInvocation target) in
  let recorded := record_arrival target (default ∅ (b_arrivals b !! key)) in
  let b1 := set_arrivals key recorded b in
  kept pending (Some key) b1 ∧ extends b b1 ∧ handled b1 target ∧
  (∀ k s, recorded !! k = Some s → ps_overwritten s = ∅).
Proof.
  intros Hk (Hn & Ho & Hi) Hj. cbv zeta. set (key := aggregationKey _). set (recorded := record_arrival _ _).
  destruct (record_arrival_spec target (default ∅ (b_arrivals b !! key))) as (Hnew & Hold & Hkeys & How).
  fold recorded in Hnew, Hold, Hkeys, How.
  assert (si_sibling (ps_staticInvocation target) ∈ siblings_of a (si_groupID (ps_staticInvocation target))) as Hsib.
  { destruct Hi as [Hi|(f & Hf & Hs & _)]; [rewrite Hi in Hj; cbn in Hj; congruence|]. unfold siblings_of. by rewrite Hf. }
  assert (∀ k s, default ∅ (b_arrivals b !! key) !! k = Some s → k ∈ siblings_of a key.1.1.1 ∧ ps_overwritten s = ∅) as Hprev.
  { intros k s. destruct (b_arrivals b !! key) as [prev|] eqn:Hprev; cbn; [|by rewrite lookup_empty].
    by apply (k_arrivals _ _ _ Hk key prev Hprev). }
  assert (∀ k s, recorded !! k = Some s → ps_overwritten s = ∅) as Hrow by (apply How; [done|]; intros k s Hks; by apply (Hprev k s)).
  assert (extends b (set_arrivals key recorded b)) as Hx.
  { split; [exists []; by rewrite app_nil_r| |done]. intros key' m k r Hm Hr. cbn.
    destruct (decide (key' = key)) as [->|Hne]; [|rewrite lookup_insert_ne by done; do 2 eexists; by split_and!; [| |apply covers_refl]].
    rewrite Hm in Hold. destruct (Hold k r Hr) as (r' & Hr' & Hc). exists recorded, r'. by rewrite lookup_insert_eq. }
  split_and!; [|done| |done].
  - split; [apply Hk|apply Hk|apply Hk| | |].
    + intros key' m. cbn. destruct (decide (key' = key)) as [->|Hne].
      * rewrite lookup_insert_eq. intros [= <-]. split; [|done]. intros k s Hks. split; [|by apply (Hrow k s)].
        destruct (Hkeys _ _ Hks) as [->|[s' Hs']]; [done|by apply (Hprev k s')].
      * rewrite lookup_insert_ne by done. intros Hm. destruct (k_arrivals _ _ _ Hk key' m Hm) as [H1 H2]. split; [done|].
        intros _ Hsz. by apply H2.
    + intros i s Hs Hin. destruct (k_processed _ _ _ Hk i s Hs Hin) as [?|?]; [by left|right; by eapply explored_extends].
    + intros i s Hs. destruct (k_explored _ _ _ Hk i s Hs) as [?|[?|?]]; [by left|right; left; by eapply explored_extends|by right; right].
  - unfold handled. rewrite decide_True by done. destruct Hnew as (r & Hr & Hc). exists recorded, r. cbn. by rewrite lookup_insert_eq.
Qed.

(** The arrivals that just came, with their join in the graph or incomplete. *)
Lemma close_incoming pending key recorded b :
  kept pending (Some key) b → b_arrivals b !! key = Some recorded →
  (size recorded = length (siblings_of a key.1.1.1) → ∃ s, s ∈ b_states b ∧ ps_nodeID s = key.2 ∧ ps_branch s = no_branch ∧
    ps_staticInvocation s = no_invocation ∧ ps_staticSource s = common_source (join_sources recorded (siblings_of a key.1.1.1))) →
  kept pending None b.
Proof.
  intros Hk Hr Hj. split; [apply Hk|apply Hk|apply Hk| |apply Hk|apply Hk]. intros key' m Hm.
  destruct (k_arrivals _ _ _ Hk key' m Hm) as [H1 H2]. split; [done|]. intros _.
  destruct (decide (key' = key)) as [->|Hne]; [by simplify_eq|]. apply H2. congruence.
Qed.

Lemma process_kept pending b t :
  kept pending None b → target_wf (rt_target t) →
  kept pending None (process_transition a b t) ∧ extends b (process_transition a b t) ∧
  handled (process_transition a b t) (rt_target t).
Proof.
  intros Hk Ht. unfold process_transition. set (b0 := note_possible _ b).
  assert (kept pending None b0) as Hk0 by (by destruct Hk).
  assert (extends b b0) as Hx0 by (destruct (extends_refl b); by split).
  unfold arrive. case_bool_decide as Hj.
  - destruct (arrive_kept pending (rt_target t) b0 Hk0 Ht Hj) as (Hk1 & Hx1 & Hh1 & Hrow). cbv zeta in *.
    set (key := aggregationKey (ps_staticInvocation (rt_target t))) in *.
    set (recorded := record_arrival (rt_target t) (default ∅ (b_arrivals b0 !! key))) in *.
    set (b1 := set_arrivals key recorded b0) in *.
    assert (b_arrivals b1 !! key = Some recorded) as Hr1 by (unfold b1; cbn; by rewrite lookup_insert_eq).
    destruct (bool_decide_reflect (size recorded = length (siblings_of a (si_groupID (ps_staticInvocation (rt_target t)))))) as [Hsz|Hsz]; cbn [negb].
    + set (js := join_state _ _). assert (target_wf js) as Hjw.
      { split_and!; [unfold js; cbn; rewrite Hj; apply Ht| |by left]. apply join_state_overwritten, Forall_fmap, Forall_forall.
        intros k _. cbn. destruct (recorded !! k) eqn:Hrk; [by apply (Hrow k)|done]. }
      pose proof (add_kept pending (Some key) js b1 Hk1 Hjw) as Hadd. destruct (addState js b1) as [[id changed] b2] eqn:Heq.
      cbv zeta in Hadd. set (b3 := if changed then enqueue id b2 else b2) in *. destruct Hadd as (Hk3 & Hx3 & (s' & Hin & Hst)).
      assert (b_arrivals b3 = b_arrivals b1) as Ha3.
      { unfold b3. apply addState_static in Heq as [_ Hch]; [|by apply Hjw]. destruct changed; [|by subst].
        destruct Hch as [_ ->]. by destruct (enqueue_states id (append_state js b1)) as (_ & -> & _). }
      split_and!; [|eapply extends_trans; [done|]; by eapply extends_trans|by eapply handled_extends].
      apply (close_incoming pending key recorded); [done|by rewrite Ha3|]. intros _. exists s'. unfold structure in Hst.
      injection Hst as E1 E2 _ _ _ E3 E4 _ _ _. split_and!; [done|by rewrite E1|by rewrite E2|by rewrite E4|]. rewrite E3.
      unfold js, join_state, join_sources. cbn. by rewrite <- list_fmap_compose.
    + split_and!; [by apply (close_incoming pending key recorded)|by eapply extends_trans|done].
  - pose proof (add_kept pending None (rt_target t) b0 Hk0 Ht) as Hadd. destruct (addState (rt_target t) b0) as [[id changed] b1].
    cbv zeta in Hadd. destruct Hadd as (Hk1 & Hx1 & Hh). split_and!; [done|by eapply extends_trans|].
    unfold handled. by rewrite decide_False.
Qed.

Lemma step_kept b b' : kept None None b → build_step a b = inl b' → kept None None b' ∧ extends b b'.
Proof.
  intros Hk. unfold build_step. destruct (b_queue b) as [|id rest] eqn:Hq; [done|].
  assert (NoDup rest ∧ id ∉ rest) as [Hnd Hid] by (pose proof (k_nodup _ _ _ Hk) as H; rewrite Hq in H; apply NoDup_cons in H as [? ?]; by split).
  assert (∀ i, i ∈ b_queued b ∖ {[id]} ↔ i ∈ rest) as Hqd.
  { intros i. rewrite elem_of_difference, (k_queued _ _ _ Hk), Hq, elem_of_cons, elem_of_singleton. naive_solver. }
  assert ((∀ s, b_states b !! id = Some s → explored b s) → kept None None (skip_state id rest b) ∧ extends b (skip_state id rest b)) as Hskip.
  { intros He. split; [|destruct (extends_refl b); by split]. split; [apply Hk|done|done|apply Hk|apply Hk|].
    intros i s Hs. destruct (k_explored _ _ _ Hk i s Hs) as [?|[?|Hin]]; [by left|by right; left|].
    rewrite Hq in Hin. apply elem_of_cons in Hin as [->|?]; [right; left; by apply He|by right; right]. }
  case_bool_decide as Hp.
  { intros [= <-]. apply Hskip. intros s Hs. by destruct (k_processed _ _ _ Hk id s Hs Hp). }
  destruct (b_states b !! id) as [state|] eqn:Hst; [|intros [= <-]; by apply Hskip]. intros [= <-].
  set (b0 := begin_state _ _ _ _ _).
  assert (extends b b0) as Hx0 by (destruct (extends_refl b); split; [done|done|cbn; set_solver]).
  assert (kept (Some id) None b0) as Hk0.
  { split; [apply Hk|done|done|apply Hk| |].
    - intros i s Hs [->%elem_of_singleton|Hin]%elem_of_union; [by left|].
      destruct (k_processed _ _ _ Hk i s Hs Hin) as [?|?]; [done|right; by eapply explored_extends].
    - intros i s Hs. destruct (k_explored _ _ _ Hk i s Hs) as [?|[?|Hin]]; [done|right; left; by eapply explored_extends|].
      rewrite Hq in Hin. apply elem_of_cons in Hin as [->|?]; [by left|by right; right]. }
  assert (∀ l c, (∀ t, t ∈ l → target_wf (rt_target t)) → kept (Some id) None c →
    kept (Some id) None (foldl (process_transition a) c l) ∧ extends c (foldl (process_transition a) c l) ∧
    ∀ t, t ∈ l → handled (foldl (process_transition a) c l) (rt_target t)) as Hfold.
  { induction l as [|t l IH]; intros c Hl Hc; cbn; [split_and!; [done|apply extends_refl|by intros ? ?%elem_of_nil]|].
    destruct (process_kept (Some id) c t Hc) as (Hc1 & Hx1 & Hh1); [apply Hl; left|].
    destruct (IH (process_transition a c t)) as (Hc2 & Hx2 & Hh2); [intros; apply Hl; by right|done|].
    split_and!; [done|by eapply extends_trans|]. intros t' [->|Ht']%elem_of_cons; [by eapply handled_extends|by apply Hh2]. }
  destruct (Hfold (mjoin (stateGroups a state)) b0) as (Hk1 & Hx1 & Hh1); [|done|].
  { intros t Ht. eapply transition_wf; [|done]. apply (k_wf _ _ _ Hk). by eapply list_elem_of_lookup_2. }
  set (b1 := foldl _ b0 _) in *. split; [|by eapply extends_trans].
  assert (∀ s, b_states b1 !! id = Some s → explored b1 s) as Hdone.
  { intros s Hs. assert (s = state) as ->.
    { destruct (x_states _ _ Hx1) as [l Hl]. rewrite Hl, lookup_app_l in Hs by (by eapply lookup_lt_Some).
      change (b_states b0) with (b_states b) in Hs. congruence. }
    split; [|done]. pose proof (x_invalid _ _ Hx1) as Hi. unfold b0 in Hi. cbn in Hi. set_solver. }
  split; [apply Hk1|apply Hk1|apply Hk1|apply Hk1| |].
  - intros i s Hs Hin. destruct (k_processed _ _ _ Hk1 i s Hs Hin) as [[= <-]|?]; [right; by apply Hdone|by right].
  - intros i s Hs. destruct (k_explored _ _ _ Hk1 i s Hs) as [[= <-]|[?|?]]; [right; left; by apply Hdone|by right; left|by right; right].
Qed.

Lemma enqueue_kept pending incoming id b : kept pending incoming b → kept pending incoming (enqueue id b) ∧ extends b (enqueue id b).
Proof.
  intros Hk. unfold enqueue. case_bool_decide as Hin; [split; [done|apply extends_refl]|].
  split; [|destruct (extends_refl b); by split]. rewrite (k_queued _ _ _ Hk) in Hin.
  split; [apply Hk| | |apply Hk|apply Hk|]; cbn.
  - intros i. rewrite elem_of_union, elem_of_app, (k_queued _ _ _ Hk), elem_of_singleton, list_elem_of_singleton. naive_solver.
  - apply NoDup_app. split_and!; [apply Hk| |apply NoDup_singleton]. intros x Hx ->%list_elem_of_singleton. done.
  - intros i s Hs. destruct (k_explored _ _ _ Hk i s Hs) as [?|[?|?]]; [by left|by right; left|right; right; apply elem_of_app; by left].
Qed.

Lemma start_kept b t :
  kept None None b → target_wf (rt_target t) →
  kept None None (start_transition b t) ∧ extends b (start_transition b t) ∧ has (start_transition b t) (rt_target t).
Proof.
  intros Hk Ht. unfold start_transition. set (b0 := note_possible _ b). assert (kept None None b0) as Hk0 by (by destruct Hk).
  assert (extends b b0) as Hx0 by (destruct (extends_refl b); by split).
  pose proof (add_kept None None (rt_target t) b0 Hk0 Ht) as Hadd. destruct (addState (rt_target t) b0) as [[id changed] b1].
  destruct changed; cbv zeta in Hadd; destruct Hadd as (Hk1 & Hx1 & Hh1).
  - split_and!; [done|by eapply extends_trans|done].
  - destruct (enqueue_kept None None id b1 Hk1) as [Hk2 Hx2]. split_and!; [done| |by eapply has_extends].
    eapply extends_trans; [done|]. by eapply extends_trans.
Qed.

(** ** The finished graph *)
Lemma graph_explored initial :
  (∀ t, t ∈ initial → target_wf (rt_target t)) →
  ∃ graph, buildGraph a initial = Some graph ∧ (∀ t, t ∈ initial → has graph (rt_target t)) ∧
    (∀ s, s ∈ b_states graph → explored graph s) ∧ arrivals_wf None graph.
Proof.
  intros Hw.
  assert (∀ l b, (∀ t, t ∈ l → target_wf (rt_target t)) → kept None None b →
    kept None None (foldl start_transition b l) ∧ extends b (foldl start_transition b l) ∧
    ∀ t, t ∈ l → has (foldl start_transition b l) (rt_target t)) as Hfold.
  { induction l as [|t l IH]; intros c Hl Hc; cbn; [split_and!; [done|apply extends_refl|by intros ? ?%elem_of_nil]|].
    destruct (start_kept c t Hc) as (Hc1 & Hx1 & Hh1); [apply Hl; left|].
    destruct (IH (start_transition c t)) as (Hc2 & Hx2 & Hh2); [intros; apply Hl; by right|done|].
    split_and!; [done|by eapply extends_trans|]. intros t' [->|Ht']%elem_of_cons; [by eapply has_extends|by apply Hh2]. }
  destruct (Hfold initial empty_build Hw) as (Hk & _ & Hh).
  { split; cbn; try done; [by intros ? ?%elem_of_nil|set_solver|constructor]. }
  destruct (buildGraph_rule a initial (λ b, kept None None b ∧ ∀ t, t ∈ initial → has b (rt_target t))) as (graph & Hg & [Hkg Hhg] & Hq).
  - done.
  - intros b b' [Hb Hhb] Hs. destruct (step_kept b b' Hb Hs) as [? Hx]. split; [done|]. intros t Ht. by eapply has_extends, Hhb.
  - exists graph. split_and!; [done|done| |apply Hkg]. intros s (id & Hs)%list_elem_of_lookup.
    destruct (k_explored _ _ _ Hkg id s Hs) as [?|[?|Hin]]; [done|done|]. rewrite Hq in Hin. by apply elem_of_nil in Hin.
Qed.

(** ** The path states cover the runs *)
Definition context_ok (i : staticFanoutInvocation) (context : option (TransitionGroupID * TransitionBranchKey)) : Prop :=
  match context with
  | None => i = no_invocation
  | Some (g, k) => si_groupID i = g ∧ si_sibling i = k ∧ ∃ f, an_staticFanouts a !! g = Some f ∧ si_joinID i = sf_joinID f
  end.
Definition sim (s : reusePathState) (t : token) : Prop :=
  ps_nodeID s = tk_node t ∧ ps_branch s = tk_branch t ∧ covers (ps_staticSource s) (tk_source t) ∧
  context_ok (ps_staticInvocation s) (tk_context t).

Lemma sim_structure s s' t : structure s' = structure s → sim s t → sim s' t.
Proof. unfold structure, sim. intros [= -> -> _ _ _ -> -> _ _ _]. done. Qed.

Lemma transfer_covers src' src n b b' e target :
  covers src' src →
  covers (transferStaticContinuationSource a src' n b b' e target) (transferStaticContinuationSource a src n b b' e target).
Proof.
  intros Hc. unfold transferStaticContinuationSource. repeat case_match; auto using covers_refl.
Qed.

Lemma sim_move s t g e t' :
  sim s t → moves t g e t' →
  ∃ target, t' = token_after t g e target ∧ leaves t g e target ∧
    sim (target_after s g e target) t' ∧
    {| rt_target := target_after s g e target; rt_possibleReuse := false; rt_guaranteedCAC := false |} ∈ mjoin (stateGroups a s).
Proof.
  intros (Hn & Hb & Hc & Hctx) (target & Hl & ->). exists target. pose proof Hl as ((group & Hg & <-) & He & Ht).
  split_and!; [done|done| |].
  - assert (context_ok (ps_staticInvocation (target_after s (tg_ID group) e target)) (tk_context (token_after t (tg_ID group) e target))).
    { unfold target_after, token_after. destruct (an_staticFanouts a !! tg_ID group) as [f|] eqn:Hf; cbn; [|done].
      split_and!; [done|done|]. eauto. }
    unfold sim. split_and!; [| | |done]; unfold target_after, token_after; destruct (an_staticFanouts a !! tg_ID group); cbn;
      rewrite ?Hn, ?Hb; auto using transfer_covers.
  - apply elem_of_transitions. exists group, e, target. split_and!; [by rewrite Hn|done|done|done].
Qed.

Lemma waits_iff s t :
  sim s t → ps_nodeID s ≠ "" → si_joinID (ps_staticInvocation s) = ps_nodeID s ↔ waits t.
Proof.
  intros (Hn & _ & _ & Hctx) Hne. unfold waits, context_ok in *. destruct (tk_context t) as [[g k]|].
  - destruct Hctx as (_ & _ & f & Hf & Hj). rewrite Hj, Hn. split; [intros ?; by exists g, k, f|].
    intros (g' & k' & f' & [= <- <-] & Hf' & ?). congruence.
  - rewrite Hctx. cbn. split; [congruence|]. intros (? & ? & ? & ? & _). done.
Qed.

Section simulation.
Context (start : NodeID).
Let initial := set_place start no_branch zero_state.
Context (Hinitial : ∀ t, t ∈ mjoin (stateGroups a initial) → si_joinID (ps_staticInvocation (rt_target t)) ≠ ps_nodeID (rt_target t)).
Context (graph : build) (Hgraph : buildGraph a (mjoin (stateGroups a initial)) = Some graph).

Definition known (s : reusePathState) : Prop := s = initial ∨ s ∈ b_states graph.

Lemma initial_wf t : t ∈ mjoin (stateGroups a initial) → target_wf (rt_target t).
Proof. apply transition_wf. by left. Qed.
Lemma graph_facts :
  (∀ s, known s → stateInvalid a s ⊆ stateInvalid a initial ∪ b_invalid graph ∧
    ∀ t, t ∈ mjoin (stateGroups a s) → handled graph (rt_target t)) ∧ arrivals_wf None graph.
Proof.
  destruct (graph_explored (mjoin (stateGroups a initial)) initial_wf) as (graph' & Hg & Hhas & He & Ha).
  assert (graph' = graph) as -> by congruence. split; [|done]. intros s [->|Hs].
  - split; [set_solver|]. intros t Ht. unfold handled. rewrite decide_False by (by apply Hinitial). by apply Hhas.
  - destruct (He s Hs) as [? ?]. split; [set_solver|done].
Qed.

(** A branch that runs to its join is recorded there. *)
Lemma arrives_recorded u t : arrives u t → ∀ s, sim s t → ps_nodeID s ≠ "" → handled graph s →
  ∃ recorded r, b_arrivals graph !! aggregationKey (ps_staticInvocation s) = Some recorded ∧
    recorded !! si_sibling (ps_staticInvocation s) = Some r ∧ covers (ps_staticSource r) (tk_source u).
Proof.
  induction 1 as [Hw|t g e t' Hw Hm Hf Harr IH]; intros s Hs Hne Hh; unfold handled in Hh.
  - rewrite decide_True in Hh by (by apply (waits_iff s u)). destruct Hh as (recorded & r & Hr & Hk & Hc).
    exists recorded, r. split_and!; [done|done|]. eapply covers_trans; [done|]. apply Hs.
  - rewrite decide_False in Hh by (by rewrite (waits_iff s t)). destruct Hh as (s' & Hin & Hst).
    assert (ps_staticInvocation s' = ps_staticInvocation s) as Hinv by (unfold structure in Hst; congruence).
    pose proof (sim_structure s s' t Hst Hs) as Hs'. destruct (sim_move s' t g e t' Hs' Hm) as (target & -> & Hl & Hsim & Htr).
    assert (ps_staticInvocation (target_after s' g e target) = ps_staticInvocation s) as Hinv'
      by (unfold target_after; rewrite Hf; exact Hinv).
    rewrite <- Hinv'. apply IH; [done| |].
    + destruct Hl as (_ & _ & Ht). unfold target_after. rewrite Hf. cbn. intros Heq. rewrite Heq in Ht. congruence.
    + destruct graph_facts as [Hf1 _]. destruct (Hf1 s') as [_ Hh]; [by right|]. by apply Hh in Htr.
Qed.

Lemma join_covered t g f arrival s :
  known s → sim s t → (∃ group, group ∈ getl (an_groupsBySource a) (tk_node t) ∧ tg_ID group = g) →
  an_staticFanouts a !! g = Some f →
  (∀ k, k ∈ sf_siblings f → ∃ e t1, moves t g e t1 ∧ e_Key e = k ∧ arrives (arrival k) t1) →
  ∃ s', known s' ∧ sim s' {| tk_node := sf_joinID f; tk_branch := no_branch;
    tk_source := common_source ((λ k, tk_source (arrival k)) <$> sf_siblings f); tk_context := None |}.
Proof.
  intros Hks Hs Hg Hf Harr. destruct graph_facts as [Hex Hwf]. destruct (Hsiblings _ _ Hf) as (Hnd & Hnil & _).
  set (key := (g, ps_branch s, fanoutEntryState s, sf_joinID f)).
  assert (∀ k, k ∈ sf_siblings f → ∃ recorded r, b_arrivals graph !! key = Some recorded ∧ recorded !! k = Some r ∧
    covers (ps_staticSource r) (tk_source (arrival k))) as Hrec.
  { intros k Hk. destruct (Harr k Hk) as (e & t1 & Hm & <- & Ha).
    destruct (sim_move s t g e t1 Hs Hm) as (target & -> & Hl & Hsim & Htr). destruct (Hex s Hks) as [_ Hh]. apply Hh in Htr. cbn in Htr.
    destruct (arrives_recorded _ _ Ha _ Hsim) as (recorded & r & Hr & Hrk & Hc); [|done|].
    - destruct Hl as (_ & _ & Ht). unfold target_after. rewrite Hf. cbn. congruence.
    - unfold target_after in Hr, Hrk. rewrite Hf in Hr, Hrk. cbn in Hr, Hrk. by exists recorded, r. }
  destruct (sf_siblings f) as [|k0 ks] eqn:Hsib; [done|]. destruct (Hrec k0) as (recorded & _ & Hr & _); [left|].
  assert (siblings_of a key.1.1.1 = k0 :: ks) as Hsb by (unfold siblings_of; cbn; by rewrite Hf, Hsib).
  destruct (Hwf key recorded Hr) as [Hdom Hjoin]. rewrite Hsb in Hdom, Hjoin.
  assert (∀ k, k ∈ k0 :: ks → ∃ r, recorded !! k = Some r ∧ covers (ps_staticSource r) (tk_source (arrival k))) as Hrec'.
  { intros k Hk. destruct (Hrec k Hk) as (recorded' & r & Hr' & Hrk & Hc). assert (recorded' = recorded) as -> by congruence. eauto. }
  destruct Hjoin as (s' & Hin & Hn & Hb & Hi & Hsrc); [done| |].
  { rewrite <- size_dom. transitivity (size (list_to_set (k0 :: ks) : gset TransitionBranchKey)); [|by apply size_list_to_set].
    f_equal. apply set_eq. intros k.
    rewrite elem_of_dom, elem_of_list_to_set. split; [intros [r Hrk]; by apply (Hdom k r)|].
    intros Hk. destruct (Hrec' k Hk) as (r & Hrk & _). by exists r. }
  exists s'. split; [by right|]. split_and!; [done|done| |done]. cbn [tk_source]. rewrite Hsrc. apply common_source_covers.
  unfold join_sources. rewrite Forall2_fmap. apply Forall_Forall2_diag, Forall_forall. intros k Hk.
  destruct (Hrec' k Hk) as (r & -> & Hc). done.
Qed.

Lemma reached_covered t : reached start t → ∃ s, known s ∧ sim s t.
Proof.
  destruct graph_facts as [Hex _].
  induction 1 as [|t g e t' _ (s & Hks & Hs) Hm Hw|t g f arrival _ (s & Hks & Hs) Hg Hf Harr].
  - exists initial. split; [by left|]. split_and!; [done|done|apply covers_refl|done].
  - destruct (sim_move s t g e t' Hs Hm) as (target & Heq & Hl & Hsim & Htr). destruct (Hex s Hks) as [_ Hh].
    apply Hh in Htr. cbn in Htr. unfold handled in Htr.
    assert (ps_nodeID (target_after s g e target) ≠ "") as Hne.
    { destruct Hsim as [-> _]. rewrite Heq. cbn. destruct Hl as (_ & _ & Ht). congruence. }
    rewrite decide_False in Htr by (by rewrite (waits_iff _ t')). destruct Htr as (s' & Hin & Hst).
    exists s'. split; [by right|]. by eapply sim_structure.
  - by eapply join_covered.
Qed.

(** An edge that is not reported has its session in every run. *)
Lemma reached_sufficient t g e target :
  reached start t → leaves t g e target → (e_ID e ∉ stateInvalid a initial ∪ b_invalid graph) → source_sufficient t e target.
Proof.
  intros Hr ((group & Hg & <-) & He & Ht) Hid Hk. destruct (reached_covered t Hr) as (s & Hks & Hn & _ & Hc & _).
  assert (static_invalid s e target = false) as Hv.
  { destruct (static_invalid s e target) eqn:Hv; [|done]. exfalso. apply Hid. destruct graph_facts as [Hex _].
    apply (Hex s Hks). unfold stateInvalid. apply elem_of_union_list. eexists. split.
    - apply list_elem_of_fmap. exists group. split; [done|by rewrite Hn].
    - apply elem_of_union_list. eexists. split; [apply list_elem_of_fmap; by exists e|].
      unfold applyEdge. rewrite Ht, Hstatic. cbn. rewrite Hv. by apply elem_of_singleton. }
  unfold static_invalid in Hv. rewrite Hk, bool_decide_eq_true_2 in Hv by done. cbn [andb] in Hv.
  apply orb_false_iff in Hv as [Hv1 Hv2]. unfold context_kind. split.
  - intros Hret. rewrite Hret in Hv1. cbn [andb] in Hv1. apply negb_false_iff, bool_decide_eq_true in Hv1.
    destruct Hc as [<-|Hc]; [done|]. by rewrite Hc in Hv1.
  - intros Hsel Hnew. rewrite bool_decide_eq_false_2, (bool_decide_eq_false_2 _ Hnew) in Hv2 by done. cbn [negb andb] in Hv2.
    apply bool_decide_eq_false in Hv2. destruct Hc as [<-|Hc]; [done|]. by rewrite Hc in Hv2.
Qed.
End simulation.
End static.
