(* ===== verification/SessionReuseClaims.v ===== *)
(** * Session reuse analysis: claims *)
From Stdlib Require Import NArith String.
From stdpp Require Import gmap strings list.
From S2P Require Import Prelude GoStrings Types Samples Reach Fanout FanoutFacts Selection PromptRefs Wiring Validation.
From S2P Require Import ValidationSound ValidationClaims CurrentState CurrentStateClaims SessionReuse SessionReuseTermination SessionReuseStatic.

(** ** The static analyzer of a definition *)
Section analyzer.
Context `{RangeOrder} (def : WorkflowDefinition).
Let a := newStaticSessionReuseAnalyzer def.

Lemma elem_of_group_edges g e :
  e ∈ getl (an_edgesByGroup a) g ↔
  (∃ group, group ∈ d_TransitionGroups def ∧ tg_ID group = g) ∧ e ∈ d_Edges def ∧ e_TransitionGroupID e = g.
Proof.
  unfold a, newStaticSessionReuseAnalyzer. cbn.
  induction (d_TransitionGroups def) as [|group groups IH] using rev_ind.
  - cbn. rewrite getl_empty. split; [by intros ?%elem_of_nil|]. by intros [(? & ?%elem_of_nil & _) _].
  - rewrite foldl_app. cbn. set (m := foldl _ ∅ groups) in *. unfold getl at 1. destruct (decide (tg_ID group = g)) as [<-|Hne].
    + rewrite lookup_insert_eq. cbn. rewrite elem_of_app, IH, getl_index_edges_by_group, list_elem_of_filter. set_solver.
    + rewrite lookup_insert_ne by done. fold (getl m g). rewrite IH. set_solver.
Qed.

(** A fan-out the analyzer follows: its branches, and a join they all reach. *)
Lemma fanouts_spec g f :
  sessionReuseFanouts def !! g = Some f →
  ∃ group, group ∈ d_TransitionGroups def ∧ tg_ID group = g ∧ 2 ≤ length (edges_of def group) ∧
    sf_siblings f = e_Key <$> edges_of def group ∧ is_join (nodes_of def) (sf_joinID f).
Proof.
  unfold sessionReuseFanouts. induction (d_TransitionGroups def) as [|group groups IH] using rev_ind; [by cbn; rewrite lookup_empty|].
  rewrite foldl_app. cbn [foldl]. set (m := foldl _ ∅ groups) in *.
  assert (m !! g = Some f → ∃ group0, group0 ∈ groups ++ [group] ∧ tg_ID group0 = g ∧ 2 ≤ length (edges_of def group0) ∧
    sf_siblings f = e_Key <$> edges_of def group0 ∧ is_join (nodes_of def) (sf_joinID f)) as Hold.
  { intros Hm. destruct (IH Hm) as (group0 & ? & ?). exists group0. set_solver. }
  change (ft_edgesByGroup (newFanoutTopology def)) with (index_edges_by_group (d_Edges def)). rewrite getl_index_edges_by_group. fold (edges_of def group). destruct (Nat.ltb_spec (length (edges_of def group)) 2); [done|].
  destruct (fanoutNearestCommonJoin _) as [j|] eqn:Hj; [|done].
  destruct (decide (tg_ID group = g)) as [<-|Hne]; [rewrite lookup_insert_eq|by rewrite lookup_insert_ne].
  intros [= <-]. exists group. split_and!; [set_solver|done|done|done|]. cbn.
  destruct (mapM _ _) as [ds|] eqn:Hm; cbn in Hj; [|done]. apply mapM_Some_1 in Hm.
  apply fanoutNearestCommonJoin_spec in Hj as (_ & d & Hd & _).
  destruct Hm as [|e m0 edges ds0 He _]; [cbn in *; lia|].
  unfold common_distance in Hd. cbn in Hd. destruct (m0 !! j) as [dj|] eqn:Hdj; [|done].
  unfold fanoutBranchJoinDistances in He.
  match type of He with joinDistances <$> fanoutBranchTraversal ?n ?gs ?eg ?og ?st = _ =>
    pose proof (fanoutBranchTraversal_spec n gs eg og st) as Hspec;
    destruct (fanoutBranchTraversal n gs eg og st) as [r|]; [|done] end.
  cbn in He. injection He as <-. destruct Hspec as (_ & Hjoins & _). specialize (Hjoins j). rewrite Hdj in Hjoins.
  by destruct Hjoins as [[? _] _].
Qed.

Context (start : Node) (Hwf : well_formed def start).

Lemma analyzer_blank : an_nodesByID a !! "" = None.
Proof.
  cbn. destruct (index_nodes (d_Nodes def) !! "") as [n|] eqn:Hn; [|done].
  apply (index_by_Some NodeIDOf) in Hn as [Hin Hid]. destruct (proj1 (wf_owned _ _ Hwf) n Hin) as [Hb _].
  rewrite Hid in Hb. by rewrite blank_empty in Hb.
Qed.
Lemma analyzer_siblings g f : an_staticFanouts a !! g = Some f →
  NoDup (sf_siblings f) ∧ sf_siblings f ≠ [] ∧ ∀ k, k ∈ sf_siblings f ↔ ∃ e, e ∈ getl (an_edgesByGroup a) g ∧ e_Key e = k.
Proof.
  intros (group & Hin & <- & Hlen & Hs & _)%fanouts_spec. rewrite Hs. split_and!.
  - by apply (proj2 (proj2 (wf_keys _ _ Hwf))).
  - destruct (edges_of def group); [cbn in Hlen; lia|done].
  - intros k. rewrite list_elem_of_fmap. setoid_rewrite elem_of_group_edges. unfold edges_of. setoid_rewrite list_elem_of_filter.
    split; [intros (e & -> & ? & ?)|intros (e & (_ & ? & ?) & <-)]; exists e; split_and!; try done. by exists group.
Qed.
Lemma analyzer_initial t :
  t ∈ mjoin (stateGroups a (set_place (NodeIDOf start) no_branch zero_state)) →
  si_joinID (ps_staticInvocation (rt_target t)) ≠ ps_nodeID (rt_target t).
Proof.
  rewrite elem_of_transitions by done. intros (group & e & target & Hg & He & Ht & ->). cbn in Hg. cbn [rt_target].
  rewrite getl_groups_from in Hg. destruct (wf_start_edges _ _ Hwf) as (_ & g0 & Hg0 & Hexec). rewrite Hg0 in Hg.
  apply list_elem_of_singleton in Hg as ->. apply elem_of_group_edges in He as (_ & Hin & Hgid).
  unfold target_after. destruct (an_staticFanouts a !! tg_ID g0) as [f|] eqn:Hf; cbn.
  - intros Hj. apply fanouts_spec in Hf as (_ & _ & _ & _ & _ & node & Hnode & Hkind).
    destruct (Hexec e) as (n & Hn & Hid & Hx); [unfold edges_of; by apply list_elem_of_filter|].
    unfold nodes_of in Hnode. cbn in Hnode. rewrite Hj, <- Hid in Hnode.
    assert (index_nodes (d_Nodes def) !! NodeIDOf n = Some n) as Hn' by (apply (index_by_elem NodeIDOf); [apply (wf_ids _ _ Hwf)|done]).
    rewrite Hn' in Hnode. injection Hnode as <-. unfold IsExecutableNode in Hx. by rewrite Hkind in Hx.
  - intros Hj. rewrite <- Hj, analyzer_blank in Ht. done.
Qed.
End analyzer.

(** ** Claims *)

(** C38. The session analysis terminates: the worklist over path states empties
    within its fuel for every analyzer and every set of initial transitions,
    although states are merged and processed again; so do the search for a
    terminal and the sweeps that withdraw guarantees, on the graph it builds;
    and so does the search for the references whose associations matter, which
    returns well-formed references of the task, each once. *)
Theorem session_reuse_terminates {L} (a : sessionReuseAnalyzer) (initial : list reuseTransition)
    (input : SessionReuseAnalysisInput L) :
  (∃ graph, buildGraph a initial = Some graph ∧ b_queue graph = [] ∧
    (∀ id, ∃ r, loop (reach_step graph) (2 + transition_count graph) (∅, [id]) = Some r) ∧
    let canReach := canReachTerminalOrCAC graph <$> seq 0 (length (b_states graph)) in
    ∃ g, loop (sweep_step graph canReach) (2 + count (b_states graph)) canReach = Some g) ∧
  (∃ references, SessionReuseAssociationReferences input = Some references ∧ NoDup references ∧
    ∀ r, r ∈ references → wf_reference r ∧ cnr_TaskID r = TrimSpace (cnr_TaskID (cn_Reference (in_CompletedCurrentNode input)))).
Proof.
  split; [|apply references_terminate].
  destruct (buildGraph_rule a initial (λ _, True)) as (graph & Hg & _ & Hq); [done|done|].
  exists graph. split_and!; [done|done|apply canReach_terminates|]. cbv zeta.
  destruct (sweeps_terminate graph (canReachTerminalOrCAC graph <$> seq 0 (length (b_states graph)))) as (g & ? & _); [|by exists g].
  by rewrite length_fmap, length_seq.
Qed.

(** The worklist covers the runs: in a definition accepted outside drafts, in
    every run from its start, through every choice of transitions, every
    fan-out and every join of branches, a transition into an agent that picks
    the target's retained session has exactly one source, and no transition
    continues a session where the joined branches disagree on their source. A
    source is what the analyzer's [transferStaticContinuationSource] makes of
    it along the run; it is not always the session the store would make
    active, see [retained_branches_accepted]. *)
Theorem accepted_sources_sufficient (o : RangeOrder) Parse def opts r
    (Hcontext : effective_context opts ≠ ValidationContextDraft)
    (Hrun : ValidateDefinition Parse validateStaticContinuationSources def opts = Some r)
    (Haccepted : HasBlockingErrors r = false) :
  ∃ start, filter (λ n, Kind n = NodeKindStart) (d_Nodes def) = [start] ∧
    let a := newStaticSessionReuseAnalyzer def in
    ∀ t g e target, reached a (NodeIDOf start) t → leaves a t g e target → source_sufficient t e target.
Proof.
  destruct (ValidateDefinition_accepted o Parse validateStaticContinuationSources def opts r Hcontext Hrun Haccepted)
    as (start & Hwf & Hnone).
  exists start. split; [apply Hwf|]. cbv zeta. intros t g e target Hr Hl.
  destruct (buildGraph_rule (newStaticSessionReuseAnalyzer def)
    (mjoin (stateGroups (newStaticSessionReuseAnalyzer def) (set_place (NodeIDOf start) no_branch zero_state))) (λ _, True))
    as (graph & Hg & _ & _); [done|done|].
  apply (reached_sufficient (newStaticSessionReuseAnalyzer def) eq_refl (analyzer_blank def start Hwf)
    (analyzer_siblings def start Hwf) (NodeIDOf start) (analyzer_initial def start Hwf) graph Hg t g e target Hr Hl).
  intros Hid. destruct Hl as (_ & He & _). apply elem_of_group_edges in He as (_ & Hin & _).
  assert (e_ID e ∈ validateStaticContinuationSources def (NodeIDOf start)) as Hrep.
  { unfold validateStaticContinuationSources. rewrite Hg. apply list_elem_of_fmap. exists e. split; [done|].
    by apply list_elem_of_filter. }
  apply Hnone in Hrep. rewrite (index_by_elem e_ID) in Hrep; [done|apply (wf_ids _ _ Hwf)|done].
Qed.

Local Open Scope string_scope.

(** A fan-out whose branches each take the retained session of their agent, or
    a new one, and a join into an agent that does the same. *)
Definition sample_retained_branches : WorkflowDefinition := sample_definition
  [StartNode (sample_identity "start"); sample_agent "plan"; sample_agent "a"; sample_agent "b";
   JoinNode (sample_identity "j1") []; sample_agent "sum"; TerminalNode (sample_identity "done")]
  [sample_group "begin" "start"; sample_group "split" "plan"; sample_group "ta" "a"; sample_group "tb" "b";
   sample_group "tj" "j1"; sample_group "tend" "sum"]
  [sample_branch "e1" "e1" "begin" "plan" "work";
   sample_edge "e2" "split" "a" "continue_session" "previous_target_or_new" "work" [];
   sample_edge "e3" "split" "b" "continue_session" "previous_target_or_new" "work" [];
   sample_branch "e4" "e4" "ta" "j1" ""; sample_branch "e5" "e5" "tb" "j1" "";
   sample_edge "e6" "tj" "sum" "continue_session" "previous_target_or_new" "sum up" [];
   sample_branch "e7" "e7" "tend" "done" ""].

(** It is accepted: the analyzer carries the session of "plan" through both
    branches, where the store (Materialization,
    [resolveRetainedTargetTransitionContext]) makes the retained or new session
    of each branch's own agent its active one. *)
Example retained_branches_accepted :
  @ValidateDefinition default_order parse_plain (@validateStaticContinuationSources default_order) sample_retained_branches
    (sample_options ValidationContextExecution) = Some {| vr_Context := "execution"; vr_Errors := [] |}.
Proof. vm_compute. reflexivity. Qed.

(** The join of [sample_divergent] is reported. *)
Example divergent_reported :
  @validateStaticContinuationSources default_order sample_divergent "start" = ["e6"].
Proof. vm_compute. reflexivity. Qed.

Lemma accepted_sources_sufficient_witness :
  ∃ t, reached (@newStaticSessionReuseAnalyzer default_order sample_retained) "start" t ∧ tk_node t = "review" ∧
    sc_kind (tk_source t) = staticContinuationSourceExact.
Proof.
  destruct (accepted_sources_sufficient default_order parse_plain sample_retained (sample_options ValidationContextExecution)
    {| vr_Context := "execution"; vr_Errors := [] |}) as (start & Hstart & H); [by vm_compute|vm_compute; reflexivity|reflexivity|].
  assert (NodeIDOf start = "start") as Hid by (vm_compute in Hstart; injection Hstart as <-; reflexivity).
  cbv zeta in H. rewrite Hid in H.
  set (a := @newStaticSessionReuseAnalyzer default_order sample_retained) in *.
  assert (∀ t g e target, (∃ group, group ∈ getl (an_groupsBySource a) (tk_node t) ∧ tg_ID group = g) →
    e ∈ getl (an_edgesByGroup a) g → an_nodesByID a !! e_TargetNodeID e = Some target → leaves a t g e target) as Hl by done.
  set (e1 := sample_edge "e_begin" "begin" "plan" "new_session" "" "plan it" []).
  set (e2 := sample_edge "e_planned" "planned" "review" "new_session" "" "review it" []).
  set (e3 := sample_edge "e_rework" "rework" "plan" "continue_session" "previous_target" "again" []).
  set (t1 := token_after a (start_token "start") "begin" e1 (sample_agent "plan")).
  set (t2 := token_after a t1 "planned" e2 (sample_agent "review")).
  assert (reached a "start" t1) as H1.
  { apply (reached_move a "start" (start_token "start") "begin" e1); [constructor| |].
    - exists (sample_agent "plan"). split; [|reflexivity].
      apply Hl; [exists (sample_group "begin" "start"); split; [|reflexivity]| |]; vm_compute; repeat constructor.
    - intros (g & k & f & Hc & _). vm_compute in Hc. discriminate. }
  assert (reached a "start" t2) as H2.
  { apply (reached_move a "start" t1 "planned" e2); [exact H1| |].
    - exists (sample_agent "review"). split; [|reflexivity].
      apply Hl; [exists (sample_group "planned" "plan"); split; [|reflexivity]| |]; vm_compute; repeat constructor.
    - intros (g & k & f & Hc & _). vm_compute in Hc. discriminate. }
  exists t2. split; [exact H2|]. split; [reflexivity|].
  assert (leaves a t2 "rework" e3 (sample_agent "plan")) as H3.
  { apply Hl; [exists (sample_group "rework" "review"); split; [|reflexivity]| |]; vm_compute; repeat constructor. }
  apply (H t2 "rework" e3 (sample_agent "plan") H2 H3 eq_refl). vm_compute. reflexivity.
Defined.
