(* ===== verification/TaskTables.v ===== *)
(** * The tables of a task's position

    The tables that say where a task is (src/server/metadata/migrations, with
    the statements of metadata/sqlitegen), the encoding of a current node as a
    row, and the statements on single rows: src/server/workflowstore/
    current_nodes.go, the association statements of
    task_session_associations.go and the fan-out insertion of
    current_node_fanout.go.

    JSON columns hold the encoded value. Of the constraints, the keys, the
    foreign keys and the triggers that relate the tables are modelled; a
    violated check of a single column is one of the failing statements. An
    error is its message, without the values it quotes. *)
From Stdlib Require Import ZArith String.
From stdpp Require Import gmap strings list.
From S2P Require Import Prelude Transactions GoStrings Types Fanout Selection CurrentState.

Local Open Scope string_scope.

(** ** Times: [time.Time] as nanoseconds since its zero value *)
Definition unix_epoch : Z := (62135596800 * 1000000000)%Z.
Definition UnixMilli (t : Z) : Z := ((t - unix_epoch) / 1000000)%Z.
Definition FromUnixMilli (ms : Z) : Z := (ms * 1000000 + unix_epoch)%Z.

Definition executableNodeKind (kind : NodeKind) : bool :=
  match kind with NodeKindAgent | NodeKindScript => true | _ => false end.

(** Where a current node stands: the serial place of a task or one of its
    branches. *)
Abbreviation place := (prod TaskID (option TransitionBranchKey)) (only parsing).
Definition place_of (r : CurrentNodeReference) : place := (cnr_TaskID r, cnr_transitionBranchKey r).

(** ** Rows *)
Record task_row := { t_ProjectID : string; t_WorkflowID : WorkflowID; t_UpdatedAt : Z }.
Record workflow_row := { w_Version : Z; w_Definition : WorkflowDefinition }.
(** With the agent role of the session's persisted continuation. *)
Record session_row := { s_ProjectID : string; s_TaskID : option TaskID; s_AgentRole : option string }.

Section tables.
Context {order : RangeOrder}.
Context {L : Type} (protovalidate : L → option error).

Record CurrentNodeRow := {
  row_NodeID : NodeID; row_EnteredByEdgeID : option EdgeID;
  row_CurrentInputValues : gmap string string; row_PriorValues : MaterializedPriorValues;
  row_SessionID : option SessionID; row_SchedulingState : option string;
  row_InterruptionReason : option string; row_InterruptionDetail : option (@CurrentNodeInterruptionDetail L);
  row_InterruptedAtUnixMs : option Z;
  row_EffectiveAssignee : option string; row_EffectiveThinking : option string; row_AssigneeOrigin : option string }.

Record PendingApprovalContextSourceResolution := {
  csr_TargetSession : TargetSessionIntent; csr_ActiveSource : MaterializedContinuationSource }.
Record PendingApprovalTarget := {
  pat_CurrentNode : CurrentNode L; pat_DisplayName : string; pat_NodeKind : NodeKind }.
Record PendingApprovalBranch := {
  pab_TransitionBranchKey : TransitionBranchKey; pab_Target : PendingApprovalTarget; pab_EffectiveEdge : Edge;
  pab_ContextSourceResolution : PendingApprovalContextSourceResolution }.
Record PendingApproval := {
  pa_ID : UUID; pa_Source : CurrentNodeReference; pa_SourceSessionID : option SessionID; pa_WorkflowVersion : Z;
  pa_Group : TransitionGroup; pa_SourceDisplayName : string; pa_Commentary : string;
  pa_OutputValues : gmap string string; pa_Branches : list PendingApprovalBranch; pa_CreatedAt : Z }.

(** A row of [task_pending_approval_branches]: the snapshots of the target, of
    the effective edge and of the session decision. The target's session is
    only kept in the decision. *)
Record approval_branch_row := {
  abr_NodeID : NodeID; abr_NodeKind : NodeKind; abr_TransitionBranchKey : option TransitionBranchKey;
  abr_EnteredByEdgeID : option EdgeID; abr_DisplayName : string; abr_CurrentInputValues : gmap string string;
  abr_PriorValues : MaterializedPriorValues; abr_SchedulingState : option string;
  abr_AgentExecutionSelection : option AgentExecutionSelection; abr_EffectiveEdge : Edge;
  abr_Resolution : PendingApprovalContextSourceResolution }.
(** A row of [task_pending_approvals] with its branches. *)
Record approval_row := {
  apr_Source : CurrentNodeReference; apr_SourceSessionID : option SessionID; apr_WorkflowVersion : Z;
  apr_Group : TransitionGroup; apr_SourceDisplayName : string; apr_Commentary : string;
  apr_OutputValues : gmap string string; apr_Branches : gmap TransitionBranchKey approval_branch_row; apr_CreatedAtUnixMs : Z }.

(** The tables. A branch of an active fan-out is pending or has arrived with
    its values. *)
Record db := {
  db_tasks : gmap TaskID task_row;
  db_workflows : gmap WorkflowID workflow_row;
  db_current : gmap place CurrentNodeRow;
  db_fanouts : gmap TaskID (gmap TransitionBranchKey (option (gmap string string)));
  db_approvals : gmap UUID approval_row;
  db_sessions : gmap SessionID session_row;
  db_associations : gmap (SessionID * NodeID * option TransitionBranchKey) Z }.

Definition set_tasks x (s : db) : db := {|
  db_tasks := x; db_workflows := db_workflows s; db_current := db_current s; db_fanouts := db_fanouts s;
  db_approvals := db_approvals s; db_sessions := db_sessions s; db_associations := db_associations s |}.
Definition set_current x (s : db) : db := {|
  db_tasks := db_tasks s; db_workflows := db_workflows s; db_current := x; db_fanouts := db_fanouts s;
  db_approvals := db_approvals s; db_sessions := db_sessions s; db_associations := db_associations s |}.
Definition set_fanouts x (s : db) : db := {|
  db_tasks := db_tasks s; db_workflows := db_workflows s; db_current := db_current s; db_fanouts := x;
  db_approvals := db_approvals s; db_sessions := db_sessions s; db_associations := db_associations s |}.
Definition set_approvals x (s : db) : db := {|
  db_tasks := db_tasks s; db_workflows := db_workflows s; db_current := db_current s; db_fanouts := db_fanouts s;
  db_approvals := x; db_sessions := db_sessions s; db_associations := db_associations s |}.
Definition set_sessions x y (s : db) : db := {|
  db_tasks := db_tasks s; db_workflows := db_workflows s; db_current := db_current s; db_fanouts := db_fanouts s;
  db_approvals := db_approvals s; db_sessions := x; db_associations := y |}.

(** The row of [workflow_nodes]. *)
Definition node_row (s : db) (id : NodeID) : option Node :=
  head (filter (λ n, NodeIDOf n = id) (map_to_list (db_workflows s) ≫= λ w, d_Nodes (w_Definition w.2))).

Abbreviation tx := (txn db error) (only parsing).

(** ** A current node as a row *)
Definition taskCurrentNodeInsertParams (node : CurrentNode L) : CurrentNodeRow :=
  let interruption := cn_Scheduling node ≫= sch_Interruption in {|
  row_NodeID := cnr_NodeID (cn_Reference node); row_EnteredByEdgeID := cn_EnteredByEdgeID node;
  row_CurrentInputValues := cn_CurrentInputValues node; row_PriorValues := cn_PriorValues node;
  row_SessionID := cn_SessionID node; row_SchedulingState := sch_State <$> cn_Scheduling node;
  row_InterruptionReason := ci_Reason <$> interruption; row_InterruptionDetail := ci_Detail <$> interruption;
  row_InterruptedAtUnixMs := (λ i, UnixMilli (ci_OccurredAt i)) <$> interruption;
  row_EffectiveAssignee := aes_Assignee <$> cn_AgentExecutionSelection node;
  row_EffectiveThinking := cn_AgentExecutionSelection node ≫= aes_Thinking;
  row_AssigneeOrigin := aes_Origin <$> cn_AgentExecutionSelection node |}.

Definition currentNodeExecutionSelectionFromRow (kind : NodeKind) (row : CurrentNodeRow)
    : result error (option AgentExecutionSelection) :=
  match kind with
  | NodeKindAgent =>
    match row_EffectiveAssignee row, row_AssigneeOrigin row with
    | Some assignee, Some origin =>
      thinking ← match row_EffectiveThinking row with
        | None => Ok None
        | Some raw => match NewThinkingValue raw with
          | Ok value => Ok (Some value) | Err _ => Err "decode current node thinking" end
        end;
      match NewAgentExecutionSelection assignee thinking origin with
      | Ok selection => Ok (Some selection)
      | Err _ => Err "decode current node Agent execution selection"
      end
    | _, _ => Err "Agent current node requires effective assignee and origin"
    end
  | _ =>
    if (row_EffectiveAssignee row <>? None) || (row_EffectiveThinking row <>? None) || (row_AssigneeOrigin row <>? None)
    then Err "current node cannot carry Agent execution selection" else Ok None
  end.

Definition currentNodeSchedulingFromRow (row : CurrentNodeRow) : result error (option (@CurrentNodeScheduling L)) :=
  match row_SchedulingState row with
  | None => Ok None
  | Some state =>
    if state <>? CurrentNodeSchedulingInterrupted then Ok (Some {| sch_State := state; sch_Interruption := None |})
    else match row_InterruptionDetail row with
    | None => Err "decode current node interruption detail"
    | Some detail => Ok (Some {| sch_State := state; sch_Interruption := Some {|
        ci_Reason := default "" (row_InterruptionReason row); ci_Detail := detail;
        ci_OccurredAt := FromUnixMilli (default 0%Z (row_InterruptedAtUnixMs row)) |} |})
    end
  end.

Definition continuationSourceFromCurrentNodeFacts (kind : NodeKind) (sessionID : option SessionID)
    : result error MaterializedContinuationSource :=
  match sessionID with
  | Some id => NewExactMaterializedContinuationSource id
  | None => Ok (if kind ==? NodeKindAgent then DeferredSelfMaterializedContinuationSource
                else AbsentMaterializedContinuationSource)
  end.

Definition set_entered (edge : option EdgeID) (node : CurrentNode L) : CurrentNode L := {|
  cn_Reference := cn_Reference node; cn_EnteredByEdgeID := edge;
  cn_CurrentInputValues := cn_CurrentInputValues node; cn_PriorValues := cn_PriorValues node;
  cn_SessionID := cn_SessionID node; cn_ContinuationSource := cn_ContinuationSource node;
  cn_Scheduling := cn_Scheduling node; cn_AgentExecutionSelection := cn_AgentExecutionSelection node |}.

Definition currentNodeFromRow (kind : NodeKind) (at_ : place) (row : CurrentNodeRow) : result error (CurrentNode L) :=
  reference ← NewCurrentNodeReference at_.1 (row_NodeID row) at_.2;
  scheduling ← currentNodeSchedulingFromRow row;
  source ← continuationSourceFromCurrentNodeFacts kind (row_SessionID row);
  selection ← currentNodeExecutionSelectionFromRow kind row;
  node ← NewCurrentNodeWithMaterializedSource protovalidate reference (row_CurrentInputValues row) (row_PriorValues row)
    (row_SessionID row) source scheduling selection;
  Ok (set_entered (row_EnteredByEdgeID row) node).

(** ** Views *)

(** The rows of a task, the serial one first, then by branch. *)
Definition branch_keys {A} (m : gmap place A) (task : TaskID) : list TransitionBranchKey :=
  sort_strings (omap (λ kv, if kv.1.1 ==? task then kv.1.2 else None) (map_to_list m)).
Definition rows_of (s : db) (task : TaskID) : list (place * CurrentNodeRow) :=
  omap (λ at_, row ← db_current s !! at_; Some (at_, row))
    ((task, None) :: ((λ key, (task, Some key)) <$> branch_keys (db_current s) task)).
(** [ListTaskCurrentNodes]: rows whose node is missing are not joined. *)
Definition ListTaskCurrentNodes (s : db) (task : TaskID) : list (NodeKind * place * CurrentNodeRow) :=
  omap (λ '(at_, row), node ← node_row s (row_NodeID row); Some (Kind node, at_, row)) (rows_of s task).
Definition decode_current_nodes (rows : list (NodeKind * place * CurrentNodeRow)) : result error (list (CurrentNode L)) :=
  mapM (λ '(kind, at_, row), currentNodeFromRow kind at_ row) rows.
Definition find_reference (nodes : list (CurrentNode L)) (reference : CurrentNodeReference) : option (CurrentNode L) :=
  find (λ node, CurrentNodeReference_Equal (cn_Reference node) reference) nodes.

(** [ListTaskActiveFanoutBranches]: the branches of the active fan-out, by
    key. *)
Definition fanout_row : Type := TransitionBranchKey * option (gmap string string).
Definition ListTaskActiveFanoutBranches (s : db) (task : TaskID) : list fanout_row :=
  let branches := default ∅ (db_fanouts s !! task) in
  omap (λ key, arrival ← branches !! key; Some (key, arrival)) (sort_strings (elements (dom branches))).

Definition HasTaskPendingApprovalForCurrentNode (s : db) (r : CurrentNodeReference) : bool :=
  existsb (λ a, apr_Source a.2 ==? r) (map_to_list (db_approvals s)).

(** The newest association of a session of the task with the node on the
    branch, the greatest session among those of one time. *)
Definition newer (a b : Z * SessionID) : bool :=
  (a.1 <? b.1)%Z || ((a.1 =? b.1)%Z && (a.2 <? b.2)%N).
Definition latest_association (s : db) (r : CurrentNodeReference) : option SessionID :=
  snd <$> foldl (λ best '((session, node, branch), at_),
    if (node ==? cnr_NodeID r) && (branch ==? cnr_transitionBranchKey r)
       && ((db_sessions s !! session ≫= s_TaskID) ==? Some (cnr_TaskID r))
    then match best with
         | None => Some (at_, session)
         | Some b => if newer b (at_, session) then Some (at_, session) else Some b
         end
    else best) None (map_to_list (db_associations s)).

(** ** Statements *)
Section statements.
Context (faulty : nat → bool).

(** A statement whose constraints hold, or that aborts. *)
Definition execute {A} (operation : string) (f : db → option (A * db)) : tx A :=
  done ← query faulty operation (λ s, match f s with Some (a, s) => (Some a, s) | None => (None, s) end);
  match done with Some a => mret a | None => fail (DatabaseError operation) end.

Definition GetTask (id : TaskID) : tx task_row :=
  row ← select faulty "get task" (λ s, db_tasks s !! id);
  match row with Some row => mret row | None => fail NoRows end.
Definition GetWorkflow (id : WorkflowID) : tx workflow_row :=
  row ← select faulty "get workflow" (λ s, db_workflows s !! id);
  match row with Some row => mret row | None => fail NoRows end.
Definition GetWorkflowNode (id : NodeID) : tx Node :=
  row ← select faulty "get workflow node" (λ s, node_row s id);
  match row with Some row => mret row | None => fail NoRows end.

Definition listTaskCurrentNodes (task : TaskID) : tx (list (CurrentNode L)) :=
  rows ← select faulty "list current nodes" (λ s, ListTaskCurrentNodes s task);
  lift (decode_current_nodes rows).
Definition currentNodePendingApprovalID (r : CurrentNodeReference) : tx bool :=
  match CurrentNodeReference_Validate r with
  | Some e => fail (PolicyError e)
  | None => select faulty "pending approval" (λ s, HasTaskPendingApprovalForCurrentNode s r)
  end.

(** *** Sessions *)
Definition BindSessionToTask (task : TaskID) (session : SessionID) : tx nat :=
  query faulty "bind session" (λ s,
    match db_sessions s !! session, db_tasks s !! task with
    | Some row, Some owner =>
      if (s_ProjectID row ==? t_ProjectID owner) && ((s_TaskID row ==? None) || (s_TaskID row ==? Some task))
      then (1, set_sessions (<[session := {| s_ProjectID := s_ProjectID row; s_TaskID := Some task; s_AgentRole := s_AgentRole row |}]> (db_sessions s))
                 (db_associations s) s)
      else (0, s)
    | _, _ => (0, s)
    end).
(** The association's node belongs to the workflow of the session's task. *)
Definition upsertTaskSessionAssociation (session : SessionID) (r : CurrentNodeReference) (at_ : Z) : tx unit :=
  execute "associate session" (λ s,
    row ← db_sessions s !! session; owner ← s_TaskID row; task ← db_tasks s !! owner;
    node ← node_row s (cnr_NodeID r);
    if NodeWorkflowID node ==? t_WorkflowID task
    then Some (tt, set_sessions (db_sessions s)
      (<[(session, cnr_NodeID r, cnr_transitionBranchKey r) := UnixMilli at_]> (db_associations s)) s)
    else None).
Definition bindSessionToTask (session : SessionID) (r : CurrentNodeReference) : tx unit :=
  bound ← BindSessionToTask (cnr_TaskID r) session;
  if bound ==? 1%nat then mret tt else fail (PolicyError "session cannot be bound to task").
Definition normalizeTaskSessionAssociationRequest (session : SessionID) (r : CurrentNodeReference) (at_ : Z) : result error Z :=
  if IsZero session then Err "session id is required"
  else match CurrentNodeReference_Validate r with
  | Some e => Err e
  | None =>
    if (at_ ==? 0%Z) || (UnixMilli at_ <=? 0)%Z then Err "association time is required"
    else Ok (FromUnixMilli (UnixMilli at_))
  end.

(** *** Current nodes *)

(** The place is free, its branch is part of the active fan-out or there is
    none, the node belongs to the task's workflow, and the session exists. *)
Definition InsertTaskCurrentNode (at_ : place) (row : CurrentNodeRow) : tx unit :=
  execute "insert current node" (λ s,
    task ← db_tasks s !! at_.1;
    node ← node_row s (row_NodeID row);
    if (NodeWorkflowID node ==? t_WorkflowID task) && bool_decide (db_current s !! at_ = None)
       && match at_.2 with
          | None => bool_decide (db_fanouts s !! at_.1 = None)
          | Some key => bool_decide (is_Some (db_fanouts s !! at_.1 ≫= lookup key))
          end
       && match row_SessionID row with None => true | Some id => bool_decide (is_Some (db_sessions s !! id)) end
    then Some (tt, set_current (<[at_ := row]> (db_current s)) s) else None).

(** A terminal node does not keep the edge it was entered by. *)
Definition insert_params (kind : NodeKind) (node : CurrentNode L) : CurrentNodeRow :=
  let params := taskCurrentNodeInsertParams node in {|
  row_NodeID := row_NodeID params;
  row_EnteredByEdgeID := if kind ==? NodeKindTerminal then None else row_EnteredByEdgeID params;
  row_CurrentInputValues := row_CurrentInputValues params; row_PriorValues := row_PriorValues params;
  row_SessionID := row_SessionID params; row_SchedulingState := row_SchedulingState params;
  row_InterruptionReason := row_InterruptionReason params; row_InterruptionDetail := row_InterruptionDetail params;
  row_InterruptedAtUnixMs := row_InterruptedAtUnixMs params; row_EffectiveAssignee := row_EffectiveAssignee params;
  row_EffectiveThinking := row_EffectiveThinking params; row_AssigneeOrigin := row_AssigneeOrigin params |}.

Definition insertTaskCurrentNodeWithKind (node : CurrentNode L) (kind : NodeKind) (associatedAt : Z) : tx unit :=
  match kind, cn_AgentExecutionSelection node with
  | NodeKindAgent, None => fail (PolicyError "Agent current node requires effective assignee and origin")
  | (NodeKindStart | NodeKindScript | NodeKindJoin | NodeKindTerminal), Some _ =>
    fail (PolicyError "current node cannot carry Agent execution selection")
  | _, _ =>
    if (cn_SessionID node <>? None) && (kind <>? NodeKindAgent)
    then fail (PolicyError "current node cannot retain a Session")
    else
      _ ← InsertTaskCurrentNode (place_of (cn_Reference node)) (insert_params kind node);
      match cn_SessionID node with
      | None => mret tt
      | Some session =>
        at_ ← lift (normalizeTaskSessionAssociationRequest session (cn_Reference node) associatedAt);
        _ ← bindSessionToTask session (cn_Reference node);
        upsertTaskSessionAssociation session (cn_Reference node) at_
      end
  end.
Definition insertTaskCurrentNode (node : CurrentNode L) (associatedAt : Z) : tx unit :=
  row ← GetWorkflowNode (cnr_NodeID (cn_Reference node));
  insertTaskCurrentNodeWithKind node (Kind row) associatedAt.

(** A current node with a pending approval cannot be deleted. *)
Definition DeleteTaskCurrentNode (r : CurrentNodeReference) : tx nat :=
  execute "delete current node" (λ s,
    match db_current s !! place_of r with
    | Some row =>
      if row_NodeID row <>? cnr_NodeID r then Some (0, s)
      else if HasTaskPendingApprovalForCurrentNode s r then None
      else Some (1, set_current (delete (place_of r) (db_current s)) s)
    | None => Some (0, s)
    end).
Definition deleteTaskCurrentNode (r : CurrentNodeReference) : tx nat :=
  match CurrentNodeReference_Validate r with
  | Some e => fail (PolicyError e)
  | None => DeleteTaskCurrentNode r
  end.

(** *** Fan-outs *)
Definition InsertTaskActiveFanout (task : TaskID) : tx unit :=
  execute "insert fan-out" (λ s,
    _ ← db_tasks s !! task;
    if bool_decide (db_fanouts s !! task = None) && bool_decide (db_current s !! (task, None) = None)
    then Some (tt, set_fanouts (<[task := ∅]> (db_fanouts s)) s) else None).
Definition InsertTaskActiveFanoutBranch (task : TaskID) (key : TransitionBranchKey) : tx unit :=
  execute "insert fan-out branch" (λ s,
    branches ← db_fanouts s !! task;
    if bool_decide (branches !! key = None)
    then Some (tt, set_fanouts (<[task := <[key := None]> branches]> (db_fanouts s)) s) else None).
Definition UpdateTaskActiveFanoutBranchArrival (task : TaskID) (key : TransitionBranchKey) (values : gmap string string) : tx nat :=
  query faulty "update arrival" (λ s,
    match db_fanouts s !! task with
    | Some branches =>
      if branches !! key ==? Some None
      then (1, set_fanouts (<[task := <[key := Some values]> branches]> (db_fanouts s)) s) else (0, s)
    | None => (0, s)
    end).
(** The branches go with the fan-out, unless a current node stands on one. *)
Definition DeleteTaskActiveFanout (task : TaskID) : tx nat :=
  execute "delete fan-out" (λ s,
    match db_fanouts s !! task with
    | None => Some (0, s)
    | Some branches =>
      if existsb (λ key, bool_decide (is_Some (db_current s !! (task, Some key)))) (elements (dom branches)) then None
      else Some (1, set_fanouts (delete task (db_fanouts s)) s)
    end).

Fixpoint validate_targets (task : TaskID) (seen : gset TransitionBranchKey) (targets : list (CurrentNode L)) : option error :=
  match targets with
  | [] => None
  | target :: rest =>
    let '(key, scoped) := TransitionBranchKey_of (cn_Reference target) in
    if negb scoped || blank key then Some "fan-out target branch must be present"
    else if key ∈? seen then Some "fan-out transition branch key is duplicated"
    else if cnr_TaskID (cn_Reference target) <>? task then Some "fan-out target task must match its source"
    else validate_targets task ({[key]} ∪ seen) rest
  end.
Definition validateFanoutTargets (task : TaskID) (targets : list (CurrentNode L)) : option error :=
  if (length targets <? 2)%nat then Some "fan-out requires multiple target branches"
  else validate_targets task ∅ targets.

Fixpoint insert_fanout_targets (task : TaskID) (targets : list (CurrentNode L)) (associatedAt : Z) : tx unit :=
  match targets with
  | [] => mret tt
  | target :: rest =>
    _ ← InsertTaskActiveFanoutBranch task (TransitionBranchKey_of (cn_Reference target)).1;
    _ ← insertTaskCurrentNode target associatedAt;
    insert_fanout_targets task rest associatedAt
  end.
Definition insertTaskFanoutTargets (task : TaskID) (targets : list (CurrentNode L)) (associatedAt : Z) : tx unit :=
  match validateFanoutTargets task targets with
  | Some e => fail (PolicyError e)
  | None =>
    _ ← InsertTaskActiveFanout task;
    insert_fanout_targets task targets associatedAt
  end.

(** *** Pending approvals *)

(** The source is a current node without another approval. *)
Definition InsertTaskPendingApproval (id : UUID) (row : approval_row) : tx unit :=
  execute "insert approval" (λ s,
    source ← db_current s !! place_of (apr_Source row);
    if (row_NodeID source ==? cnr_NodeID (apr_Source row)) && bool_decide (db_approvals s !! id = None)
       && negb (HasTaskPendingApprovalForCurrentNode s (apr_Source row))
       && match apr_SourceSessionID row with None => true | Some id => bool_decide (is_Some (db_sessions s !! id)) end
    then Some (tt, set_approvals (<[id := row]> (db_approvals s)) s) else None).
Definition InsertTaskPendingApprovalBranch (id : UUID) (key : TransitionBranchKey) (branch : approval_branch_row) : tx unit :=
  execute "insert approval branch" (λ s,
    row ← db_approvals s !! id;
    if bool_decide (apr_Branches row !! key = None)
    then Some (tt, set_approvals (<[id := {|
      apr_Source := apr_Source row; apr_SourceSessionID := apr_SourceSessionID row; apr_WorkflowVersion := apr_WorkflowVersion row;
      apr_Group := apr_Group row; apr_SourceDisplayName := apr_SourceDisplayName row; apr_Commentary := apr_Commentary row;
      apr_OutputValues := apr_OutputValues row; apr_Branches := <[key := branch]> (apr_Branches row);
      apr_CreatedAtUnixMs := apr_CreatedAtUnixMs row |}]> (db_approvals s)) s) else None).
Definition DeleteTaskPendingApproval (id : UUID) : tx nat :=
  query faulty "delete approval" (λ s,
    (if bool_decide (is_Some (db_approvals s !! id)) then 1 else 0, set_approvals (delete id (db_approvals s)) s)).
Definition DeleteTaskPendingApprovalsByTask (task : TaskID) : tx nat :=
  query faulty "delete approvals" (λ s,
    (size (filter (λ kv, cnr_TaskID (apr_Source kv.2) = task) (db_approvals s)),
     set_approvals (filter (λ kv, cnr_TaskID (apr_Source kv.2) ≠ task) (db_approvals s)) s)).

(** *** Scheduling *)

(** An update of one row where [admits] holds; the number of updated rows. *)
Definition update_row (operation : string) (r : CurrentNodeReference) (admits : db → CurrentNodeRow → bool)
    (f : CurrentNodeRow → CurrentNodeRow) : tx nat :=
  query faulty operation (λ s,
    match db_current s !! place_of r with
    | Some row =>
      if (row_NodeID row ==? cnr_NodeID r) && admits s row
      then (1, set_current (<[place_of r := f row]> (db_current s)) s) else (0, s)
    | None => (0, s)
    end).
Definition set_scheduling (state : string) (reason : option string) (detail : option (@CurrentNodeInterruptionDetail L))
    (at_ : option Z) (row : CurrentNodeRow) : CurrentNodeRow := {|
  row_NodeID := row_NodeID row; row_EnteredByEdgeID := row_EnteredByEdgeID row;
  row_CurrentInputValues := row_CurrentInputValues row; row_PriorValues := row_PriorValues row;
  row_SessionID := row_SessionID row; row_SchedulingState := Some state;
  row_InterruptionReason := reason; row_InterruptionDetail := detail; row_InterruptedAtUnixMs := at_;
  row_EffectiveAssignee := row_EffectiveAssignee row; row_EffectiveThinking := row_EffectiveThinking row;
  row_AssigneeOrigin := row_AssigneeOrigin row |}.
Definition state_in (states : list string) (row : CurrentNodeRow) : bool :=
  match row_SchedulingState row with Some state => state ∈? states | None => false end.

Definition set_interrupted (reason : string) (detail : @CurrentNodeInterruptionDetail L) (now : Z) : CurrentNodeRow → CurrentNodeRow :=
  set_scheduling CurrentNodeSchedulingInterrupted (Some reason) (Some detail) (Some (UnixMilli now)).

Definition one_row (updated : nat) : tx unit := if updated ==? 1%nat then mret tt else fail NoRows.

(** The admission keeps the interruption columns, which are null for a ready
    node. *)
Definition AdmitCurrentNode (r : CurrentNodeReference) (s : db) : result (store_error error) unit * db :=
  match CurrentNodeReference_Validate r with
  | Some e => (Err (PolicyError e), s)
  | None => transact faulty (
      admitted ← update_row "admit" r (λ s row, state_in [CurrentNodeSchedulingReady] row && negb (HasTaskPendingApprovalForCurrentNode s r))
        (λ row, set_scheduling CurrentNodeSchedulingAdmitted (row_InterruptionReason row) (row_InterruptionDetail row)
                  (row_InterruptedAtUnixMs row) row);
      one_row admitted) s
  end.

(** A single statement, outside a transaction; the event that follows it is
    not modelled. *)
Definition autocommit {A} (program : tx A) (s : db) : result (store_error error) A * db :=
  match program 0 s with Ok (a, _, s') => (Ok a, s') | Err e => (Err e, s) end.

Definition interrupt (operation : string) (from : list string) (r : CurrentNodeReference) (reason : string)
    (detail : @CurrentNodeInterruptionDetail L) (now : Z) (s : db) : result (store_error error) unit * db :=
  match CurrentNodeReference_Validate r with
  | Some e => (Err (PolicyError e), s)
  | None =>
    if blank reason then (Err (PolicyError "current node interruption reason is required"), s)
    else autocommit (
      interrupted ← update_row operation r (λ _, state_in from) (set_interrupted reason detail now);
      one_row interrupted) s
  end.
Definition InterruptAdmittedCurrentNode := interrupt "interrupt admitted" [CurrentNodeSchedulingAdmitted].
Definition InterruptCurrentNode := interrupt "interrupt" [CurrentNodeSchedulingReady; CurrentNodeSchedulingAdmitted].

Definition ReplaceUserInterruptionWithAssignmentFailure (r : CurrentNodeReference)
    (detail : @CurrentNodeInterruptionDetail L) (now : Z) (s : db) : result (store_error error) unit * db :=
  match CurrentNodeReference_Validate r with
  | Some e => (Err (PolicyError e), s)
  | None => autocommit (
      replaced ← update_row "replace interruption" r
        (λ _ row, state_in [CurrentNodeSchedulingInterrupted] row &&
                  (row_InterruptionReason row ==? Some CurrentNodeInterruptionReasonUserInterrupt))
        (set_interrupted "workflow_runtime_start_failed" detail now);
      one_row replaced) s
  end.

(** Every ready or admitted node of the task without a pending approval. *)
Definition ReconcileTaskResume (task : TaskID) (now : Z) (s : db) : result (store_error error) nat * db :=
  if blank task then (Err (PolicyError "task id is required"), s)
  else
    let reason := "workflow_execution_interrupted" in
    autocommit (query faulty "reconcile" (λ s,
      let stopped (at_ : place) (row : CurrentNodeRow) :=
        (at_.1 ==? task) && state_in [CurrentNodeSchedulingReady; CurrentNodeSchedulingAdmitted] row &&
        negb (HasTaskPendingApprovalForCurrentNode s {| cnr_TaskID := at_.1; cnr_NodeID := row_NodeID row; cnr_transitionBranchKey := at_.2 |}) in
      (size (filter (λ kv, stopped kv.1 kv.2 = true) (db_current s)),
       set_current (map_imap (λ at_ row, Some (if stopped at_ row
         then set_interrupted reason (NewCurrentNodeInterruptionDetail reason None) now row else row)) (db_current s)) s))) s.
End statements.
End tables.
