(* ===== verification/Materialization.v ===== *)
(** * Materializing the target of a transition

    src/server/workflowstore/transition_target_session.go (which session the
    target continues), retained_target_invariant.go (legacy sources), and the
    part of current_node_completion.go that builds the current node a
    transition leads to: its inputs, the values of earlier transitions it
    carries, its session and its execution selection.

    A panic of the wiring is an error here; the reports of the invariant policy
    are not modelled. *)
From Stdlib Require Import ZArith String.
From stdpp Require Import gmap strings list.
From S2P Require Import Prelude Transactions GoStrings Types Fanout Selection PromptRefs Wiring CurrentState TaskTables.

Local Open Scope string_scope.

(** ** Lookups in a definition *)
Definition currentNodeDefinitionNode (def : WorkflowDefinition) (nodeID : NodeID) : result error Node :=
  match find (λ n, NodeIDOf n ==? nodeID) (d_Nodes def) with
  | Some n => Ok n
  | None => Err "current node is absent from workflow"
  end.
Definition currentNodeDefinitionNodeByKey (def : WorkflowDefinition) (key : ModelKey) : result error Node :=
  match find (λ n, NodeKey n ==? key) (d_Nodes def) with
  | Some n => Ok n
  | None => Err "context source node is absent from workflow"
  end.
Definition transitionGroupForEdge (def : WorkflowDefinition) (edge : Edge) : result error TransitionGroup :=
  match find (λ g, tg_ID g ==? e_TransitionGroupID edge) (d_TransitionGroups def) with
  | Some g => Ok g
  | None => Err "transition group is absent"
  end.
Definition transitionParameterByKey (edge : Edge) (key : string) : option EdgeParameter :=
  find (λ p, p_Key p ==? key) (e_Parameters edge).

(** A transition's edge with its target. *)
Abbreviation completion_target := (prod Edge Node) (only parsing).

Definition currentNodeCompletionTransition (def : WorkflowDefinition) (source : Node) (transitionID : string)
    : result error (TransitionGroup * list completion_target) :=
  let groups := filter (λ g, tg_SourceNodeID g = NodeIDOf source) (d_TransitionGroups def) in
  selected ←
    (if transitionID ==? "" then
       match groups with
       | [] => Err "current node has no outgoing transition"
       | [group] => Ok group
       | _ => Err "transition id is required when current node has multiple transitions"
       end
     else match find (λ g, tg_TransitionID g ==? transitionID) groups with
     | Some group => Ok group
     | None => Err "transition is not available for current node"
     end);
  targets ← mapM (λ edge, node ← currentNodeDefinitionNode def (e_TargetNodeID edge); Ok (edge, node))
    (filter (λ e, e_TransitionGroupID e = tg_ID selected) (d_Edges def));
  if length targets ==? 0%nat then Err "current node completion transition has no target edges"
  else Ok (selected, targets).

(** The provider of an input of the target: the source, or the branch of a
    join that must provide it. *)
Definition transitionTargetInputProviderNodeKey (def : WorkflowDefinition) (derived : DerivedWiring) (source : Node)
    (fieldName : string) : result error ModelKey :=
  if Kind source <>? NodeKindJoin then Ok (NodeKey source)
  else
    match find (λ edge, existsb (λ field, TrimSpace (of_Name field) ==? TrimSpace fieldName)
                  (getl (dw_requiredProviderFieldsByJoinEdge derived) (e_ID edge)))
            (filter (λ e, e_TargetNodeID e = NodeIDOf source) (d_Edges def)) with
    | None => Err "manual move Join output has no provider"
    | Some edge =>
      group ← transitionGroupForEdge def edge;
      provider ← currentNodeDefinitionNode def (tg_SourceNodeID group);
      Ok (NodeKey provider)
    end.

Section materialization.
Context {order : RangeOrder}.
Context {L : Type} (protovalidate : L → option error).
Context (Parse : string → result string (gmap string (option TNode))).
(** The store's role resolver. *)
Context (catalog : option TargetAgentCatalog).

(** *** Entering edges *)
Definition currentNodeDefinitionEnteringEdgeByID (def : WorkflowDefinition) (node : CurrentNode L) : result error Edge :=
  match cn_EnteredByEdgeID node with
  | None => Err "current workflow node has no entering edge"
  | Some id =>
    match find (λ e, e_ID e ==? id) (d_Edges def) with
    | Some edge => Ok edge
    | None => Err "current workflow node entering edge is absent from workflow"
    end
  end.
Definition currentNodeDefinitionEnteringEdge (def : WorkflowDefinition) (node : CurrentNode L) : result error Edge :=
  edge ← currentNodeDefinitionEnteringEdgeByID def node;
  if e_TargetNodeID edge <>? cnr_NodeID (cn_Reference node) then Err "current workflow node entering edge targets node"
  else Ok edge.

Definition currentNodeEnteringTransitionParameterValue (def : WorkflowDefinition) (wiring : DerivedWiring)
    (node : CurrentNode L) (requirement : PriorTransitionParameterRequirement) : result error (option string) :=
  match cn_EnteredByEdgeID node with
  | None => Ok None
  | Some _ =>
    edge ← currentNodeDefinitionEnteringEdge def node;
    group ← transitionGroupForEdge def edge;
    if tg_TransitionID group <>? TransitionKey requirement then Ok None
    else
      provider ← currentNodeDefinitionNode def (tg_SourceNodeID group);
      if NodeKey provider <>? ProviderNode requirement then Ok None
      else match find (λ b, ib_Field b ==? ParameterName requirement)
                   (getl (dw_currentNodeInputBindingsByEdge wiring) (e_ID edge)) with
      | None => Ok None
      | Some binding => Ok (cn_CurrentInputValues node !! ib_Name binding)
      end
  end.

Definition currentNodeReferenceBranchKey (r : CurrentNodeReference) : option TransitionBranchKey :=
  let '(key, present) := TransitionBranchKey_of r in if present then Some key else None.

(** ** Sessions *)
Record transitionContextResolution := {
  tcr_TargetSession : TargetSessionIntent; tcr_ActiveSource : MaterializedContinuationSource; tcr_legacyFallback : bool }.
Definition no_agent_context (source : MaterializedContinuationSource) : transitionContextResolution :=
  {| tcr_TargetSession := NoAgentTargetSessionIntent; tcr_ActiveSource := source; tcr_legacyFallback := false |}.
Definition new_session_context (legacy : bool) : transitionContextResolution :=
  {| tcr_TargetSession := CreateTargetSessionIntent; tcr_ActiveSource := DeferredSelfMaterializedContinuationSource;
     tcr_legacyFallback := legacy |}.
Definition targetSessionID (r : transitionContextResolution) : option SessionID :=
  let '(id, ok) := TargetSessionIntent_SessionID (tcr_TargetSession r) in if ok then Some id else None.

Definition resolveLegacyContinuationSource (contextSource : string) (targetKind : NodeKind) : result error transitionContextResolution :=
  if (contextSource ==? ContextSourcePreviousTargetOrNew) && (targetKind ==? NodeKindAgent)
  then Ok (new_session_context true)
  else Err "legacy Workflow continuation source is unresolved".

Definition incomingTransitionActiveSource (source : option (CurrentNode L)) : MaterializedContinuationSource :=
  match source with None => AbsentMaterializedContinuationSource | Some node => cn_ContinuationSource node end.

Definition directTransitionContextResolution (target : Node) (session : SessionID) : result error transitionContextResolution :=
  active ← NewExactMaterializedContinuationSource session;
  intent ← (if Kind target ==? NodeKindAgent then NewReuseTargetSessionIntent session else Ok NoAgentTargetSessionIntent);
  Ok {| tcr_TargetSession := intent; tcr_ActiveSource := active; tcr_legacyFallback := false |}.

Definition ErrManualMoveTransitionNotUsable : error := "manual move Transition is not usable".

Section reads.
Context (reads : nat → @db L) (faulty : nat → bool).
Abbreviation rd := (reading error) (only parsing).

(** A nil dereference in the analysis of the definition. *)
Definition no_panic {A} (o : option A) : rd A :=
  match o with Some a => mret a | None => refuse (PolicyError "panic") end.

(** The session of the newest association, if any. *)
Definition latest_session (r : CurrentNodeReference) : rd (option SessionID) :=
  match CurrentNodeReference_Validate r with
  | Some e => refuse (PolicyError e)
  | None => observe reads faulty "latest association" (λ s, latest_association s r)
  end.
Definition latestTaskSessionForNode (r : CurrentNodeReference) : rd SessionID :=
  found ← latest_session r; match found with Some id => mret id | None => refuse NoRows end.

Definition resolveImmediateSourceTransitionContext (taskID : TaskID) (source : option (CurrentNode L)) (sourceNode targetNode : Node)
    (manualMoveContext : bool) : rd transitionContextResolution :=
  let direct :=
    node ← source; session ← cn_SessionID node;
    if (cnr_NodeID (cn_Reference node) ==? NodeIDOf sourceNode) && (Kind sourceNode ==? NodeKindAgent)
       && (negb manualMoveContext || negb (IsBranchScoped (cn_Reference node)))
    then Some session else None in
  match direct with
  | Some session => checked (directTransitionContextResolution targetNode session)
  | None =>
    if negb manualMoveContext then
      refuse (PolicyError "current node completion cannot continue the immediate source session")
    else if Kind sourceNode <>? NodeKindAgent then refuse (PolicyError ErrManualMoveTransitionNotUsable)
    else
      reference ← checked (NewCurrentNodeReference taskID (NodeIDOf sourceNode) None);
      found ← latest_session reference;
      match found, source with
      | Some session, _ => checked (directTransitionContextResolution targetNode session)
      | None, Some node =>
        if CurrentNodeReference_Equal (cn_Reference node) reference && (cn_SessionID node ==? None)
           && (Kind targetNode ==? NodeKindAgent)
        then mret (new_session_context false) else refuse NoRows
      | None, None => refuse NoRows
      end
  end.

Definition resolveRetainedTargetTransitionContext (edge : Edge) (taskID : TaskID) (targetBranchKey : option TransitionBranchKey)
    (manualMoveContext : bool) : rd transitionContextResolution :=
  reference ← checked (NewCurrentNodeReference taskID (e_TargetNodeID edge) (if manualMoveContext then None else targetBranchKey));
  found ← latest_session reference;
  match found with
  | Some session =>
    checked (intent ← NewReuseTargetSessionIntent session; active ← NewExactMaterializedContinuationSource session;
             Ok {| tcr_TargetSession := intent; tcr_ActiveSource := active; tcr_legacyFallback := false |})
  | None =>
    if context_kind (e_ContextSource edge) ==? ContextSourcePreviousTarget
    then refuse (PolicyError "retained target is unavailable")
    else mret (new_session_context false)
  end.

Definition selectedContextBranchKey (manualMoveContext : bool) (source : option (CurrentNode L)) : option TransitionBranchKey :=
  if manualMoveContext then None else source ≫= λ node, currentNodeReferenceBranchKey (cn_Reference node).

Definition resolveTransitionContext (def : WorkflowDefinition) (edge : Edge) (taskID : TaskID) (source : option (CurrentNode L))
    (targetBranchKey : option TransitionBranchKey) (sourceNode targetNode : Node) (manualMoveContext : bool)
    : rd transitionContextResolution :=
  let contextSource := CanonicalContextSource (e_ContextSource edge) in
  let kind := cs_Kind contextSource in
  if (e_ContextMode edge <>? ContextModeNewSession)
     && match source with
        | Some node => mcs_kind (cn_ContinuationSource node) ==? MaterializedContinuationSourceLegacy
        | None => false
        end
     && ((kind ==? ContextSourcePreviousTarget) || (kind ==? ContextSourcePreviousTargetOrNew))
  then checked (resolveLegacyContinuationSource kind (Kind targetNode))
  else if Kind targetNode ==? NodeKindTerminal then mret (no_agent_context AbsentMaterializedContinuationSource)
  else if e_ContextMode edge ==? ContextModeNewSession then
    if Kind targetNode ==? NodeKindAgent then mret (new_session_context false)
    else mret (no_agent_context (incomingTransitionActiveSource source))
  else if kind ==? ContextSourceImmediateSource then
    resolveImmediateSourceTransitionContext taskID source sourceNode targetNode manualMoveContext
  else if kind ==? ContextSourceSelectedNode then
    selected ← checked (currentNodeDefinitionNodeByKey def (cs_NodeKey contextSource));
    reference ← checked (NewCurrentNodeReference taskID (NodeIDOf selected) (selectedContextBranchKey manualMoveContext source));
    session ← latestTaskSessionForNode reference;
    checked (directTransitionContextResolution targetNode session)
  else if (kind ==? ContextSourcePreviousTarget) || (kind ==? ContextSourcePreviousTargetOrNew) then
    resolveRetainedTargetTransitionContext edge taskID targetBranchKey manualMoveContext
  else refuse (PolicyError (if manualMoveContext then ErrManualMoveTransitionNotUsable
                            else "current node completion does not yet support context source")).

(** The selection a retained session keeps. *)
Definition resolveRetainedSessionSelection (session : SessionID) : rd AgentExecutionSelection :=
  row ← observe_row reads faulty "persisted session" (λ s, db_sessions s !! session);
  match NewAgentExecutionSelection (default DefaultAgentRole (s_AgentRole row)) None AssigneeOriginRetainedSession with
  | Ok selection => mret selection
  | Err _ => refuse (PolicyError "materialize retained Agent session selection")
  end.

(** ** The target *)
(** [rq_ResolveRetained]: whether the store resolves the selection of a
    retained session. *)
Record transitionTargetMaterializationRequest := {
  rq_Definition : WorkflowDefinition; rq_Edge : Edge; rq_Source : Node; rq_Target : Node; rq_ResolveRetained : bool;
  rq_ContextTaskID : TaskID; rq_ContextCurrentSource : option (CurrentNode L); rq_ManualMoveContext : bool;
  rq_PriorValues : MaterializedPriorValues; rq_Value : ModelKey → ModelKey → string → option string;
  rq_TransitionBranchKey : option TransitionBranchKey }.

Fixpoint materialize_inputs (request : transitionTargetMaterializationRequest) (wiring : DerivedWiring)
    (sourceTransitionKey : ModelKey) (bindings : list InputBinding) (values : gmap string string) : result error (gmap string string) :=
  match bindings with
  | [] => Ok values
  | binding :: rest =>
    provider ← transitionTargetInputProviderNodeKey (rq_Definition request) wiring (rq_Source request) (ib_Field binding);
    match rq_Value request provider sourceTransitionKey (ib_Field binding) with
    | Some value => materialize_inputs request wiring sourceTransitionKey rest (<[ib_Name binding := value]> values)
    | None =>
      if match transitionParameterByKey (rq_Edge request) (ib_Field binding) with
         | Some p => CanonicalParameterPurpose (p_Purpose p) <>? ParameterPurposeOrdinary
         | None => false
         end
      then materialize_inputs request wiring sourceTransitionKey rest values
      else Err "required output is missing"
    end
  end.
Fixpoint materialize_prior (request : transitionTargetMaterializationRequest) (requirements : list PriorTransitionParameterRequirement)
    (values : MaterializedPriorValues) : result error MaterializedPriorValues :=
  match requirements with
  | [] => Ok values
  | r :: rest =>
    match rq_Value request (ProviderNode r) (TransitionKey r) (ParameterName r) with
    | Some value => materialize_prior request rest (SetTransitionParameter values (TransitionKey r) (ParameterName r) value)
    | None => Err "required prior Transition parameter is missing"
    end
  end.

(** The submitted role and level, and the description of the level. *)
Definition submitted_selection (request : transitionTargetMaterializationRequest) (transitionKey : ModelKey) : string * string * string :=
  foldl (λ '(role, thinking, description) p,
    let purpose := CanonicalParameterPurpose (p_Purpose p) in
    if (purpose <>? ParameterPurposeTargetAssignee) && (purpose <>? ParameterPurposeTargetThinking)
    then (role, thinking, description)
    else
      let value := rq_Value request (NodeKey (rq_Source request)) transitionKey (p_Key p) in
      if purpose ==? ParameterPurposeTargetAssignee then (default role value, thinking, description)
      else (role, default thinking value, p_Description p))
    ("", "", "") (e_Parameters (rq_Edge request)).

Definition materializeTargetAgentSelection (request : transitionTargetMaterializationRequest) (transitionKey : ModelKey)
    (retained : option AgentExecutionSelection) : result error (option AgentExecutionSelection) :=
  let target := rq_Target request in
  if Kind target <>? NodeKindAgent then Ok None
  else
    let '(role, thinking, description) := submitted_selection request transitionKey in
    match PlanTransitionSelection {|
      cr_Edge := rq_Edge request; cr_SourceKind := Kind (rq_Source request); cr_TargetKind := Kind target;
      cr_TargetRole := NodeSubagentRole target; cr_RetainedTargetRole := None; cr_FanOut := false;
      cr_TargetSessionResolved := false; cr_TargetSessionPolicy := ""; cr_Catalog := catalog;
      cr_RequireExecutionDescriptions := false;
      cr_Materialization := Some {|
        mr_FallbackRole := NodeSubagentRole target; mr_SubmittedRole := role; mr_SubmittedThinking := thinking;
        mr_ThinkingDescription := description; mr_RetainedSession := retained |} |} with
    | (_, Some _) => Err "transition selection"
    | (plan, None) =>
      match tsp_ExecutionSelection plan with
      | Some selection => Ok (Some selection)
      | None => Err "transition selection planner omitted Agent execution selection"
      end
    end.

Definition completionTargetCurrentNode (taskID : TaskID) (target : Node) (branch : option TransitionBranchKey)
    (inputs : gmap string string) (prior : MaterializedPriorValues) (session : option SessionID)
    (source : MaterializedContinuationSource) (enteredBy : EdgeID) (selection : option AgentExecutionSelection)
    : result error (CurrentNode L) :=
  scheduling ← match Kind target with
    | NodeKindAgent | NodeKindScript => Ok (Some {| sch_State := CurrentNodeSchedulingReady; sch_Interruption := None |})
    | NodeKindTerminal => Ok None
    | _ => Err "current node completion cannot target node"
    end;
  reference ← NewCurrentNodeReference taskID (NodeIDOf target) branch;
  node ← NewCurrentNodeWithMaterializedSource protovalidate reference inputs prior session source scheduling selection;
  Ok (set_entered (Some enteredBy) node).

(** The values of the protected parameters are kept for later prompts. *)
Definition protected_values (request : transitionTargetMaterializationRequest) (transitionKey : ModelKey)
    (prior : MaterializedPriorValues) : MaterializedPriorValues :=
  foldl (λ prior p,
    if CanonicalParameterPurpose (p_Purpose p) ==? ParameterPurposeOrdinary then prior
    else match rq_Value request (NodeKey (rq_Source request)) transitionKey (p_Key p) with
    | Some value => SetTransitionParameter prior transitionKey (p_Key p) value
    | None => prior
    end) prior (e_Parameters (rq_Edge request)).

(** The current node and whether a legacy source was replaced. *)
Definition materializeTransitionTargetCurrentNode (request : transitionTargetMaterializationRequest) : rd (CurrentNode L * bool) :=
  let def := rq_Definition request in
  let edge := rq_Edge request in
  if blank (rq_ContextTaskID request) then
    refuse (PolicyError (if rq_ManualMoveContext request then ErrManualMoveTransitionNotUsable
                         else "current node completion requires task id"))
  else
    group ← checked (transitionGroupForEdge def edge);
    let key := tg_TransitionID group in
    wiring ← no_panic (DeriveWiringWithCatalog (ExtractPromptTemplateReferences Parse) def catalog);
    inputs ← checked (materialize_inputs request wiring key (getl (dw_currentNodeInputBindingsByEdge wiring) (e_ID edge)) ∅);
    prior ← checked (materialize_prior request
      (getl (dw_priorParameterRequirementsByNode wiring) (NodeIDOf (rq_Target request))) (rq_PriorValues request));
    resolution ← resolveTransitionContext def edge (rq_ContextTaskID request) (rq_ContextCurrentSource request)
      (rq_TransitionBranchKey request) (rq_Source request) (rq_Target request) (rq_ManualMoveContext request);
    let session := targetSessionID resolution in
    retained ← match session with
      | Some id =>
        if rq_ResolveRetained request then
          policy ← checked (ResolveAssigneeSessionPolicy {|
            spr_ContextMode := e_ContextMode edge; spr_ContextSource := e_ContextSource edge;
            spr_TargetSessionResolved := true; spr_FanoutBranch := rq_TransitionBranchKey request <>? None |});
          if policy ==? AssigneeSessionPolicyPreserve
          then selection ← resolveRetainedSessionSelection id; mret (Some selection) else mret None
        else mret None
      | None => mret None
      end;
    selection ← checked (materializeTargetAgentSelection request key retained);
    node ← checked (completionTargetCurrentNode (rq_ContextTaskID request) (rq_Target request) (rq_TransitionBranchKey request)
      inputs (protected_values request key prior) session (tcr_ActiveSource resolution) (e_ID edge) selection);
    mret (node, tcr_legacyFallback resolution).

(** ** The target of a completion *)
Definition set_input (name value : string) (node : CurrentNode L) : CurrentNode L := {|
  cn_Reference := cn_Reference node; cn_EnteredByEdgeID := cn_EnteredByEdgeID node;
  cn_CurrentInputValues := <[name := value]> (cn_CurrentInputValues node); cn_PriorValues := cn_PriorValues node;
  cn_SessionID := cn_SessionID node; cn_ContinuationSource := cn_ContinuationSource node;
  cn_Scheduling := cn_Scheduling node; cn_AgentExecutionSelection := cn_AgentExecutionSelection node |}.

(** A value of an earlier transition that only the entering edge's inputs
    still hold. *)
Fixpoint entering_value (def : WorkflowDefinition) (wiring : DerivedWiring) (current : CurrentNode L)
    (provider transitionKey : ModelKey) (name : string) (requirements : list PriorTransitionParameterRequirement) : option string :=
  match requirements with
  | [] => None
  | r :: rest =>
    if (ProviderNode r <>? provider) || (TransitionKey r <>? transitionKey) || (ParameterName r <>? name)
    then entering_value def wiring current provider transitionKey name rest
    else match currentNodeEnteringTransitionParameterValue def wiring current r with
    | Err _ => None
    | Ok (Some value) => Some value
    | Ok None => entering_value def wiring current provider transitionKey name rest
    end
  end.

Definition completion_value (def : WorkflowDefinition) (wiring : DerivedWiring) (source target : Node) (current : CurrentNode L)
    (sourceTransitionKey : ModelKey) (outputs : gmap string string) (commentary : string)
    (provider transitionKey : ModelKey) (name : string) : option string :=
  let own :=
    if (transitionKey ==? sourceTransitionKey) && (sourceTransitionKey <>? "")
       && ((provider ==? NodeKey source) || (Kind source ==? NodeKindJoin))
    then if name ==? RuntimePromptParameterCommentary then Some commentary else outputs !! name
    else None in
  match own with
  | Some value => Some value
  | None =>
    match TransitionParameter (cn_PriorValues current) transitionKey name with
    | Some value => Some value
    | None => entering_value def wiring current provider transitionKey name
                (getl (dw_priorParameterRequirementsByNode wiring) (NodeIDOf target))
    end
  end.

Definition materializeCompletionTargetCurrentNode (def : WorkflowDefinition) (edge : Edge) (source target : Node)
    (current : CurrentNode L) (outputs : gmap string string) (commentary : string) (branch : option TransitionBranchKey)
    : rd (CurrentNode L * bool) :=
  wiring ← no_panic (DeriveWiringWithCatalog (ExtractPromptTemplateReferences Parse) def catalog);
  let key := match find (λ g, tg_ID g ==? e_TransitionGroupID edge) (d_TransitionGroups def) with
             | Some group => tg_TransitionID group | None => "" end in
  if key ==? "" then refuse (PolicyError "transition group is absent")
  else
    materialized ← materializeTransitionTargetCurrentNode {|
      rq_Definition := def; rq_Edge := edge; rq_Source := source; rq_Target := target; rq_ResolveRetained := true;
      rq_ContextTaskID := cnr_TaskID (cn_Reference current); rq_ContextCurrentSource := Some current;
      rq_ManualMoveContext := false; rq_PriorValues := cn_PriorValues current;
      rq_Value := completion_value def wiring source target current key outputs commentary;
      rq_TransitionBranchKey := branch |};
    mret (set_input RuntimePromptParameterCommentary commentary materialized.1, materialized.2).
End reads.
End materialization.
