(* ===== verification/TaskPlanning.v ===== *)
(** * Preparing the moves of a task

    src/server/workflowstore: what completing a current node leads to
    (completion_plan.go, current_node_completion.go,
    current_node_completion_contract.go, current_node_fanout.go,
    current_node_join.go, transition_parameter_contract.go), and the pending
    approval a completion asks for (pending_approvals.go). The other actions
    are prepared in TaskActions.

    A preparation reads the tables outside a transaction: each read sees its
    own state ([reading]). The checks of execution targets and the start
    contexts of agents are reads of other tables; a definition is read in one
    step. *)
From Stdlib Require Import ZArith String.
From stdpp Require Import gmap strings list.
From S2P Require Import Prelude Transactions GoStrings Types Reach Fanout Selection PromptRefs Wiring Validation.
From S2P Require Import CurrentState SessionReuse TaskTables Materialization.

Local Open Scope string_scope.

Definition MaxOutputValueBytes : N := 65536.
Definition MaxCommentaryBytes : N := 65536.

(** The first issue of a list. *)
Definition no_issues (issues : list error) : result error unit :=
  match issues with [] => Ok tt | e :: _ => Err e end.

Record CurrentNodeCompletionRequest := {
  cq_Source : CurrentNodeReference; cq_TransitionID : string; cq_OutputValues : gmap string string; cq_Commentary : string }.

Definition sortedStringKeys (values : gmap string string) : list string := sort_strings (elements (dom values)).

Definition prepareCurrentNodeCompletionRequest (req : CurrentNodeCompletionRequest) : result error CurrentNodeCompletionRequest :=
  match CurrentNodeReference_Validate (cq_Source req) with
  | Some e => Err e
  | None =>
    if (MaxCommentaryBytes <? len (cq_Commentary req))%N then Err "commentary is too large"
    else
      _ ← no_issues (sortedStringKeys (cq_OutputValues req) ≫= λ name,
        ((if blank name then ["output field name is required"] else []) ++
         (if (MaxOutputValueBytes <? len (default "" (cq_OutputValues req !! name)))%N
          then ["output field is too large"] else []))%list);
      Ok {| cq_Source := cq_Source req; cq_TransitionID := TrimSpace (cq_TransitionID req);
            cq_OutputValues := cq_OutputValues req; cq_Commentary := TrimSpace (cq_Commentary req) |}
  end.

(** ** Output fields *)
Definition completionOutputFieldPresent (fields : list OutputField) (name : string) : bool :=
  existsb (λ f, TrimSpace (of_Name f) ==? TrimSpace name) fields.
Definition appendCompletionOutputField (fields : list OutputField) (field : OutputField) : list OutputField :=
  if completionOutputFieldPresent fields (of_Name field) then fields else (fields ++ [field])%list.
Definition parameter_field (p : EdgeParameter) : OutputField := {| of_Name := p_Key p; of_Description := p_Description p |}.
Definition transitionParameterForOutputField (targets : list completion_target) (field : string) : option EdgeParameter :=
  head (omap (λ t : completion_target, find (λ p, TrimSpace (p_Key p) ==? TrimSpace field) (e_Parameters t.1)) targets).

(** Whether the contract depends on the session the target would continue. *)
Definition session_policy_required (edge : Edge) : bool :=
  existsb (λ p,
    let purpose := CanonicalParameterPurpose (p_Purpose p) in
    (((purpose ==? ParameterPurposeTargetAssignee) &&
      (CanonicalAssigneeSelection (e_AssigneeSelection edge) ==? AssigneeSelectionPreviousNode)) ||
     ((purpose ==? ParameterPurposeTargetThinking) &&
      (CanonicalThinkingSelection (e_ThinkingSelection edge) ==? ThinkingSelectionPreviousNode))) &&
    (e_ContextMode edge ==? ContextModeContinueSession)) (e_Parameters edge).

(** ** Joins *)
Definition materialize_arrival (proposed : option (TransitionBranchKey * gmap string string)) (row : fanout_row)
    : result error fanout_row :=
  match proposed with
  | Some (key, values) =>
    if row.1 ==? key then
      match row.2 with
      | None => Ok (row.1, Some values)
      | Some _ => Err "join arrival branch is no longer pending"
      end
    else Ok row
  | None => Ok row
  end.
(** The arrivals with the proposed one, and whether all are there. *)
Definition materializeFanoutJoinArrivals (rows : list fanout_row)
    (proposed : option (TransitionBranchKey * gmap string string)) : result error (list fanout_row * bool) :=
  if length rows ==? 0%nat then Ok ([], false)
  else if (length rows <? 2)%nat then Err "active fan-out has fewer than two expected branches"
  else
    arrivals ← mapM (materialize_arrival proposed) rows;
    if match proposed with Some (key, _) => negb (existsb (λ row, row.1 ==? key) rows) | None => false end
    then Err "join arrival branch is not part of the active fan-out"
    else Ok (arrivals, forallb (λ arrival, arrival.2 <>? None) arrivals).

Definition currentFanoutJoinTopologyError : error := "workflow fan-out join topology is invalid".

Definition currentFanoutJoinOutgoingTarget (def : WorkflowDefinition) (join : Node) : result error completion_target :=
  match filter (λ g, tg_SourceNodeID g = NodeIDOf join) (d_TransitionGroups def) with
  | [group] =>
    match mapM (λ edge, node ← currentNodeDefinitionNode def (e_TargetNodeID edge); Ok (edge, node))
            (filter (λ e, e_TransitionGroupID e = tg_ID group) (d_Edges def)) with
    | Ok [target] => Ok target
    | _ => Err currentFanoutJoinTopologyError
    end
  | _ => Err currentFanoutJoinTopologyError
  end.

Definition startNode (def : WorkflowDefinition) : result error Node :=
  match find (λ n, Kind n ==? NodeKindStart) (d_Nodes def) with
  | Some n => Ok n | None => Err "workflow has no start node" end.
Definition startTransition (def : WorkflowDefinition) (start : Node) : result error (TransitionGroup * list completion_target) :=
  match filter (λ g, tg_SourceNodeID g = NodeIDOf start) (d_TransitionGroups def) with
  | [group] => currentNodeCompletionTransition def start (tg_TransitionID group)
  | _ => Err "start node must have exactly one transition group"
  end.

Section planning.
Context {order : RangeOrder}.
Context {L : Type} (protovalidate : L → option error).
Context (Parse : string → result string (gmap string (option TNode))).
Context (catalog : option TargetAgentCatalog).
Context (reads : nat → @db L) (faulty : nat → bool).
Abbreviation rd := (reading error) (only parsing).
Abbreviation extract := (ExtractPromptTemplateReferences Parse) (only parsing).

(** ** Results and plans *)
Record CurrentNodeCompletionResult := {
  res_Removed : list CurrentNodeReference; res_Created : list (CurrentNode L);
  res_AutomaticIntents : list (CurrentNodeReference * NodeKind); res_PendingApproval : option (@PendingApproval L);
  res_SourceDisplayName : string; res_DestinationDisplayName : string;
  res_SessionReuseClassification : SessionReuseClassification; res_SourceSessionID : option SessionID;
  res_PostCompletionEligible : bool }.
Definition no_result : CurrentNodeCompletionResult := {|
  res_Removed := []; res_Created := []; res_AutomaticIntents := []; res_PendingApproval := None;
  res_SourceDisplayName := ""; res_DestinationDisplayName := ""; res_SessionReuseClassification := SessionReuseNone;
  res_SourceSessionID := None; res_PostCompletionEligible := false |}.
Definition moved (removed : list CurrentNodeReference) (created : list (CurrentNode L))
    (intents : list (CurrentNodeReference * NodeKind)) : CurrentNodeCompletionResult := {|
  res_Removed := removed; res_Created := created; res_AutomaticIntents := intents; res_PendingApproval := None;
  res_SourceDisplayName := ""; res_DestinationDisplayName := ""; res_SessionReuseClassification := SessionReuseNone;
  res_SourceSessionID := None; res_PostCompletionEligible := false |}.
Definition awaiting (approval : @PendingApproval L) : CurrentNodeCompletionResult := {|
  res_Removed := []; res_Created := []; res_AutomaticIntents := []; res_PendingApproval := Some approval;
  res_SourceDisplayName := ""; res_DestinationDisplayName := ""; res_SessionReuseClassification := SessionReuseNone;
  res_SourceSessionID := None; res_PostCompletionEligible := false |}.

Record taskExecutionPlan := {
  pl_taskID : TaskID; pl_task : task_row; pl_workflowVersion : Z;
  pl_sources : list (CurrentNode L); pl_targets : list (CurrentNode L);
  pl_completion : option CurrentNodeCompletionResult; pl_approval : option (@PendingApproval L);
  pl_joinArrival : option (TransitionBranchKey * gmap string string); pl_joinBefore : list fanout_row;
  pl_destination : option (WorkflowID * Z) }.

Definition newCurrentNodeAutomaticIntent (reference : CurrentNodeReference) (node : Node) : result error (CurrentNodeReference * NodeKind) :=
  match CurrentNodeReference_Validate reference with
  | Some e => Err e
  | None => if executableNodeKind (Kind node) then Ok (reference, Kind node)
            else Err "automatic intent target node has non-executable kind"
  end.

(** ** Reads *)
Definition read_task (id : TaskID) : rd task_row := observe_row reads faulty "get task" (λ s, db_tasks s !! id).
Definition read_workflow (id : WorkflowID) : rd workflow_row := observe_row reads faulty "get workflow" (λ s, db_workflows s !! id).
Definition read_current_nodes (task : TaskID) : rd (list (CurrentNode L)) :=
  rows ← observe reads faulty "list current nodes" (λ s, ListTaskCurrentNodes s task);
  checked (decode_current_nodes protovalidate rows).
Definition read_current_node (reference : CurrentNodeReference) : rd (CurrentNode L) :=
  nodes ← read_current_nodes (cnr_TaskID reference);
  match find_reference nodes reference with Some node => mret node | None => refuse NoRows end.
Definition read_pending (reference : CurrentNodeReference) : rd bool :=
  match CurrentNodeReference_Validate reference with
  | Some e => refuse (PolicyError e)
  | None => observe reads faulty "pending approval" (λ s, HasTaskPendingApprovalForCurrentNode s reference)
  end.

Definition preflightInitialExecution (def : WorkflowDefinition) : rd unit :=
  validation ← no_panic (ValidateDefinition Parse validateStaticContinuationSources def
    {| vo_Context := ValidationContextExecution; vo_RoleResolver := catalog; vo_ExecutionNodes := None |});
  if HasBlockingErrors validation then refuse (PolicyError "workflow validation") else mret tt.

(** ** The contract of the outputs *)
Definition storeTransitionParameterContract (def : WorkflowDefinition) (edge : Edge) (source target : Node) (current : CurrentNode L)
    (branch : option TransitionBranchKey) : rd TransitionParameterContract :=
  let contract retained fanOut resolved policy : rd TransitionParameterContract :=
    match PlanTransitionParameterContract {|
      cr_Edge := edge; cr_SourceKind := Kind source; cr_TargetKind := Kind target; cr_TargetRole := NodeSubagentRole target;
      cr_RetainedTargetRole := retained; cr_FanOut := fanOut; cr_TargetSessionResolved := resolved;
      cr_TargetSessionPolicy := policy; cr_Catalog := catalog; cr_RequireExecutionDescriptions := true;
      cr_Materialization := None |} with
    | Ok contract => mret contract
    | Err _ => refuse (PolicyError "transition parameter contract")
    end in
  if negb (session_policy_required edge) then contract None false false ""
  else
    resolution ← resolveTransitionContext reads faulty def edge (cnr_TaskID (cn_Reference current)) (Some current) branch source target false;
    let fanOut := (1 <? length (filter (λ e, e_TransitionGroupID e = e_TransitionGroupID edge) (d_Edges def)))%nat in
    match targetSessionID resolution with
    | None => contract None fanOut false AssigneeSessionPolicyEstablishTarget
    | Some id =>
      policy ← checked (ResolveAssigneeSessionPolicy {|
        spr_ContextMode := e_ContextMode edge; spr_ContextSource := e_ContextSource edge;
        spr_TargetSessionResolved := true; spr_FanoutBranch := branch <>? None |});
      if policy ==? AssigneeSessionPolicyPreserve then
        selection ← resolveRetainedSessionSelection reads faulty id;
        let role := match catalog with
          | Some c => default (bare_role (aes_Assignee selection)) (ResolveConfiguredRole c (aes_Assignee selection))
          | None => bare_role (aes_Assignee selection)
          end in
        contract (Some role) fanOut true policy
      else contract None fanOut true policy
    end.

Fixpoint contract_fields (def : WorkflowDefinition) (source : Node) (current : CurrentNode L) (targets : list completion_target)
    (fields : list OutputField * list OutputField) : rd (list OutputField * list OutputField) :=
  match targets with
  | [] => mret fields
  | (edge, node) :: rest =>
    planned ← storeTransitionParameterContract def edge source node current (currentNodeReferenceBranchKey (cn_Reference current));
    contract_fields def source current rest
      (foldl appendCompletionOutputField fields.1 (parameter_field <$> tpc_Parameters planned),
       foldl appendCompletionOutputField fields.2 (parameter_field <$> tpc_KnownParameters planned))
  end.

Definition currentNodeCompletionOutputIssues (def : WorkflowDefinition) (group : TransitionGroup) (source : Node)
    (targets : list completion_target) (current : CurrentNode L) (values : gmap string string) : rd (list error) :=
  wiring ← no_panic (DeriveWiring extract def);
  fields ← contract_fields def source current targets ([], []);
  let '(required, known) :=
    if Kind source ==? NodeKindJoin
    then let fields := getl (dw_currentNodeOutputFieldsByGroup wiring) (tg_ID group) in (fields, fields) else fields in
  let join_fields := targets ≫= λ t : completion_target,
    if Kind t.2 ==? NodeKindJoin then getl (dw_requiredProviderFieldsByJoinEdge wiring) (e_ID t.1) else [] in
  let required := foldl appendCompletionOutputField required join_fields in
  let known := foldl appendCompletionOutputField known join_fields in
  mret ((sortedStringKeys values ≫= λ name,
           if negb (blank name) && negb (existsb (λ f, TrimSpace (of_Name f) ==? TrimSpace name) known)
           then ["output field is not declared by source node"] else []) ++
        (required ≫= λ field,
           let name := TrimSpace (of_Name field) in
           if (name <>? "") && blank (default "" (values !! name)) then
             [if match transitionParameterForOutputField targets name with
                 | Some p => CanonicalParameterPurpose (p_Purpose p) ==? ParameterPurposeTargetAssignee
                 | None => false
                 end
              then "a selectable target Agent role is required" else "required output is missing"]
           else []))%list.

(** ** Approvals *)
Definition sameMaterializedContinuationSource (l r : MaterializedContinuationSource) : bool :=
  if mcs_kind l <>? mcs_kind r then false
  else let '(li, le) := ExactSessionID l in let '(ri, re) := ExactSessionID r in
    (le ==? re) && (negb le || (li ==? ri)).

Definition validatePendingApprovalContextSourceResolution (kind : NodeKind) (node : CurrentNode L)
    (resolution : PendingApprovalContextSourceResolution) : option error :=
  let intent := csr_TargetSession resolution in
  let '(session, reused) := TargetSessionIntent_SessionID intent in
  first_error [
    TargetSessionIntent_Validate intent;
    MaterializedContinuationSource_Validate (csr_ActiveSource resolution);
    match kind with
    | NodeKindAgent => check (tsi_kind intent ==? TargetSessionIntentNoAgent)
        "pending approval Agent target cannot omit Agent Session intent"
    | NodeKindScript | NodeKindJoin | NodeKindTerminal => check (tsi_kind intent <>? TargetSessionIntentNoAgent)
        "pending approval target cannot carry Agent Session intent"
    | _ => Some "pending approval target node kind is invalid"
    end;
    (if reused then check (cn_SessionID node <>? Some session) "pending approval target and context source Session intent differ"
     else check (cn_SessionID node <>? None) "pending approval target duplicates a Session absent from context resolution");
    check (negb (sameMaterializedContinuationSource (cn_ContinuationSource node) (csr_ActiveSource resolution)))
      "pending approval target and context source active source differ"].

Definition pendingApprovalContextSourceResolution (kind : NodeKind) (node : CurrentNode L)
    : result error PendingApprovalContextSourceResolution :=
  intent ← (if kind ==? NodeKindAgent then
      match cn_SessionID node with
      | None => Ok CreateTargetSessionIntent
      | Some session => NewReuseTargetSessionIntent session
      end
    else Ok NoAgentTargetSessionIntent);
  let resolution := {| csr_TargetSession := intent; csr_ActiveSource := cn_ContinuationSource node |} in
  match validatePendingApprovalContextSourceResolution kind node resolution with
  | Some e => Err e | None => Ok resolution end.

Fixpoint approval_branches_ok (seen : gset TransitionBranchKey) (branches : list (@PendingApprovalBranch L)) : option error :=
  match branches with
  | [] => None
  | branch :: rest =>
    let key := TrimSpace (pab_TransitionBranchKey branch) in
    let target := pab_Target branch in
    if (key ==? "") || blank (pat_DisplayName target) || blank (e_Key (pab_EffectiveEdge branch))
       || (e_Key (pab_EffectiveEdge branch) <>? key)
    then Some "pending approval branch snapshot is invalid"
    else match CurrentNodeReference_Validate (cn_Reference (pat_CurrentNode target)) with
    | Some e => Some e
    | None =>
      match pat_NodeKind target, cn_AgentExecutionSelection (pat_CurrentNode target) with
      | NodeKindAgent, None => Some "pending approval Agent target requires execution selection"
      | (NodeKindStart | NodeKindScript | NodeKindJoin | NodeKindTerminal), Some _ =>
        Some "pending approval target cannot carry Agent execution selection"
      | _, _ =>
        if key ∈? seen then Some "pending approval branch key is duplicated"
        else approval_branches_ok ({[key]} ∪ seen) rest
      end
    end
  end.

Definition newPendingApprovalWithBranches (id : UUID) (source : CurrentNode L) (version : Z) (group : TransitionGroup)
    (sourceDisplayName commentary : string) (outputs : gmap string string) (branches : list (@PendingApprovalBranch L))
    (createdAt : Z) : result error (@PendingApproval L) :=
  match first_error [
    CurrentNodeReference_Validate (cn_Reference source);
    check (version <? 1)%Z "pending approval workflow version is required";
    check (blank (tg_ID group) || blank (tg_TransitionID group)) "pending approval transition snapshot is invalid";
    check ((createdAt ==? 0%Z) || (UnixMilli createdAt <=? 0)%Z) "pending approval creation time is required";
    check (blank sourceDisplayName || (length branches ==? 0%nat))
      "pending approval handoff labels and branch snapshots are required";
    approval_branches_ok ∅ branches] with
  | Some e => Err e
  | None => Ok {|
      pa_ID := id; pa_Source := cn_Reference source; pa_SourceSessionID := cn_SessionID source; pa_WorkflowVersion := version;
      pa_Group := group; pa_SourceDisplayName := sourceDisplayName; pa_Commentary := commentary; pa_OutputValues := outputs;
      pa_Branches := branches; pa_CreatedAt := FromUnixMilli (UnixMilli createdAt) |}
  end.

Definition approval_branch (key : TransitionBranchKey) (edge : Edge) (node : Node) (target : CurrentNode L)
    : result error (@PendingApprovalBranch L) :=
  resolution ← pendingApprovalContextSourceResolution (Kind node) target;
  Ok {| pab_TransitionBranchKey := key;
        pab_Target := {| pat_CurrentNode := target; pat_DisplayName := NodeDisplayLabel node; pat_NodeKind := Kind node |};
        pab_EffectiveEdge := edge; pab_ContextSourceResolution := resolution |}.

(** ** Completion *)
Abbreviation materialize := (materializeCompletionTargetCurrentNode protovalidate Parse catalog reads faulty) (only parsing).

Definition planSequentialCompletion (approvalID : UUID) (now : Z) (def : WorkflowDefinition) (version : Z) (group : TransitionGroup)
    (source : Node) (current : CurrentNode L) (target : completion_target) (req : CurrentNodeCompletionRequest)
    : rd CurrentNodeCompletionResult :=
  materialized ← materialize def target.1 source target.2 current (cq_OutputValues req) (cq_Commentary req)
    (currentNodeReferenceBranchKey (cn_Reference current));
  if e_RequiresApproval target.1 then
    checked (
      branch ← approval_branch (e_Key target.1) target.1 target.2 materialized.1;
      approval ← newPendingApprovalWithBranches approvalID current version group (NodeDisplayLabel source)
        (cq_Commentary req) (cq_OutputValues req) [branch] now;
      Ok (awaiting approval))
  else if executableNodeKind (Kind target.2) then
    intent ← checked (newCurrentNodeAutomaticIntent (cn_Reference materialized.1) target.2);
    mret (moved [cn_Reference current] [materialized.1] [intent])
  else mret (moved [cn_Reference current] [materialized.1] []).

(** The targets of a fan-out with their nodes and approval branches. *)
Fixpoint fanout_targets (def : WorkflowDefinition) (source : Node) (current : CurrentNode L) (targets : list completion_target)
    (outputs : gmap string string) (commentary : string) : rd (list (CurrentNode L * Node * @PendingApprovalBranch L)) :=
  match targets with
  | [] => mret []
  | (edge, node) :: rest =>
    let key := TrimSpace (e_Key edge) in
    if key ==? "" then refuse (PolicyError "fan-out transition branch key is required")
    else
      materialized ← materialize def edge source node current outputs commentary (Some key);
      branch ← checked (approval_branch key edge node materialized.1);
      prepared ← fanout_targets def source current rest outputs commentary;
      mret ((materialized.1, node, branch) :: prepared)
  end.

Definition planCurrentNodeFanout (approvalID : UUID) (now : Z) (def : WorkflowDefinition) (source : Node) (current : CurrentNode L)
    (targets : list completion_target) (commentary : string) (outputs : gmap string string) (version : Z)
    (group : TransitionGroup) : rd CurrentNodeCompletionResult :=
  if IsBranchScoped (cn_Reference current) then
    refuse (PolicyError "nested fan-out current node completion is not supported")
  else
    prepared ← fanout_targets def source current targets outputs commentary;
    if existsb (λ t : completion_target, e_RequiresApproval t.1) targets then
      checked (
        approval ← newPendingApprovalWithBranches approvalID current version group (NodeDisplayLabel source) commentary outputs
          (snd <$> prepared) now;
        Ok (awaiting approval))
    else
      intents ← checked (mapM (λ p : CurrentNode L * Node * _, newCurrentNodeAutomaticIntent (cn_Reference p.1.1) p.1.2)
        (filter (λ p, match cn_Scheduling p.1.1 with Some _ => executableNodeKind (Kind p.1.2) | None => false end = true) prepared));
      mret (moved [cn_Reference current] ((λ p, p.1.1) <$> prepared) intents).

Definition joinArrivalValues (wiring : DerivedWiring) (edge : Edge) (outputs : gmap string string) : result error (gmap string string) :=
  foldl (λ acc field,
    values ← acc;
    match outputs !! of_Name field with
    | Some value => Ok (<[of_Name field := value]> values)
    | None => Err "join arrival output is required"
    end) (Ok ∅) (getl (dw_requiredProviderFieldsByJoinEdge wiring) (e_ID edge)).

(** The branch edge that provides each input of the join. *)
Definition join_providers (wiring : DerivedWiring) (edges : list Edge) : result error (gmap string EdgeID) :=
  foldl (λ acc edge, foldl (λ acc field,
    providers ← acc;
    let name := TrimSpace (of_Name field) in
    if name ==? "" then Err currentFanoutJoinTopologyError
    else match providers !! name with
    | Some id => if id <>? e_ID edge then Err currentFanoutJoinTopologyError else Ok (<[name := e_ID edge]> providers)
    | None => Ok (<[name := e_ID edge]> providers)
    end) acc (getl (dw_requiredProviderFieldsByJoinEdge wiring) (e_ID edge))) (Ok ∅) edges.

Definition aggregateCurrentFanoutJoinValues (wiring : DerivedWiring) (resolution : FanoutJoinResolution) (arrivals : list fanout_row)
    : result error (gmap string string) :=
  let arrivalsByBranch := foldl (λ m a, <[a.1 := default ∅ a.2]> m) (∅ : gmap TransitionBranchKey (gmap string string)) arrivals in
  let branchByJoinEdge := foldl (λ m kv, <[e_ID kv.2 := kv.1]> m) (∅ : gmap EdgeID TransitionBranchKey)
    (range_map (fjr_BranchJoinEdges resolution)) in
  providers ← join_providers wiring (snd <$> range_map (fjr_BranchJoinEdges resolution));
  foldl (λ acc field,
    values ← acc;
    let name := TrimSpace (of_Name field) in
    match edge ← providers !! name; branchByJoinEdge !! edge with
    | None => Err currentFanoutJoinTopologyError
    | Some branch =>
      match arrivalsByBranch !! branch ≫= lookup name with
      | Some value => if blank value then Err "required output is missing" else Ok (<[name := value]> values)
      | None => Err "required output is missing"
      end
    end) (Ok ∅) (getl (dw_joinOutputFieldsByNode wiring) (NodeIDOf (fjr_Join resolution))).

Definition newNonExecutableCurrentNodeWithPriorValues (taskID : TaskID) (nodeID : NodeID) (prior : MaterializedPriorValues)
    : result error (CurrentNode L) :=
  reference ← NewCurrentNodeReference taskID nodeID None;
  NewCurrentNodeWithMaterializedValues protovalidate reference ∅ prior None None.

Definition set_continuation (source : MaterializedContinuationSource) (node : CurrentNode L) : CurrentNode L := {|
  cn_Reference := cn_Reference node; cn_EnteredByEdgeID := cn_EnteredByEdgeID node;
  cn_CurrentInputValues := cn_CurrentInputValues node; cn_PriorValues := cn_PriorValues node;
  cn_SessionID := cn_SessionID node; cn_ContinuationSource := source;
  cn_Scheduling := cn_Scheduling node; cn_AgentExecutionSelection := cn_AgentExecutionSelection node |}.

(** The result and the arrival to record. *)
Definition planCurrentNodeJoinArrival (def : WorkflowDefinition) (current : CurrentNode L) (edge : Edge) (outputs : gmap string string)
    (before : list fanout_row) : rd (CurrentNodeCompletionResult * (TransitionBranchKey * gmap string string)) :=
  let '(branchKey, branchScoped) := TransitionBranchKey_of (cn_Reference current) in
  if negb branchScoped then refuse (PolicyError "join arrival requires a branch-scoped current node")
  else
    joinNode ← checked (currentNodeDefinitionNode def (e_TargetNodeID edge));
    group ← checked (transitionGroupForEdge def edge);
    sourceNode ← checked (currentNodeDefinitionNode def (tg_SourceNodeID group));
    resolution ← resolveTransitionContext reads faulty def edge (cnr_TaskID (cn_Reference current)) (Some current) (Some branchKey)
      sourceNode joinNode false;
    wiring ← no_panic (DeriveWiring extract def);
    values ← checked (joinArrivalValues wiring edge outputs);
    let arrival := (branchKey, values) in
    arrived ← checked (materializeFanoutJoinArrivals before (Some arrival));
    if negb arrived.2 then mret (moved [cn_Reference current] [] [], arrival)
    else match ResolveFanoutJoin def (fst <$> arrived.1) with
    | None => refuse (PolicyError currentFanoutJoinTopologyError)
    | Some join =>
      joinValues ← checked (aggregateCurrentFanoutJoinValues wiring join arrived.1);
      target ← checked (currentFanoutJoinOutgoingTarget def (fjr_Join join));
      let requiresActiveSource :=
        ((Kind target.2 ==? NodeKindAgent) && (e_ContextMode target.1 <>? ContextModeNewSession)
         && (context_kind (e_ContextSource target.1) <>? ContextSourceSelectedNode))
        || ((Kind target.2 ==? NodeKindScript) && (e_ContextMode target.1 ==? ContextModeNewSession)
            && RequiresExactActiveContinuationSource def (NodeIDOf target.2)) in
      joinSource ← checked (newNonExecutableCurrentNodeWithPriorValues (cnr_TaskID (cn_Reference current))
        (NodeIDOf (fjr_Join join)) (cn_PriorValues current));
      let joinSource := set_continuation
        (if requiresActiveSource then tcr_ActiveSource resolution else AbsentMaterializedContinuationSource) joinSource in
      materialized ← materialize def target.1 (fjr_Join join) target.2 joinSource joinValues "" None;
      if executableNodeKind (Kind target.2) then
        intent ← checked (newCurrentNodeAutomaticIntent (cn_Reference materialized.1) target.2);
        mret (moved [cn_Reference current] [materialized.1] [intent], arrival)
      else mret (moved [cn_Reference current] [materialized.1] [], arrival)
    end.

(** *** The session reuse of what was completed *)
Fixpoint loadSessionReuseAssociations (seen : list CurrentNodeReferenceKey) (references : list CurrentNodeReference)
    : rd (list SessionReuseAssociation) :=
  match references with
  | [] => mret []
  | reference :: rest =>
    key ← checked (CurrentNodeReference_Key reference);
    if key ∈? seen then loadSessionReuseAssociations seen rest
    else
      found ← latest_session reads faulty reference;
      associations ← loadSessionReuseAssociations (key :: seen) rest;
      mret (match found with
            | Some session => {| sra_SessionID := session; sra_CurrentNode := reference |} :: associations
            | None => associations
            end)
  end.

Definition completeCurrentNodePostTurnFacts (def : WorkflowDefinition) (current : CurrentNode L) (accepted : list Edge)
    (eligible : bool) (handoff : string * string) (result : CurrentNodeCompletionResult) : rd CurrentNodeCompletionResult :=
  let analysis associations : SessionReuseAnalysisInput L := {|
    in_Workflow := def; in_AcceptedBranches := accepted; in_CompletedCurrentNode := current;
    in_RetainedAssociations := associations |} in
  references ← no_panic (SessionReuseAssociationReferences (analysis []));
  associations ← loadSessionReuseAssociations [] references;
  mret {| res_Removed := res_Removed result; res_Created := res_Created result;
          res_AutomaticIntents := res_AutomaticIntents result; res_PendingApproval := res_PendingApproval result;
          res_SourceDisplayName := handoff.1; res_DestinationDisplayName := handoff.2;
          res_SessionReuseClassification := ClassifyWorkflowSessionReuse (analysis associations);
          res_SourceSessionID := cn_SessionID current; res_PostCompletionEligible := eligible |}.

(** *** Plans *)
Definition copyPlannedCurrentNodes (nodes : list (CurrentNode L)) : result error (list (CurrentNode L)) :=
  mapM (λ node,
    copy ← NewCurrentNodeWithMaterializedSource protovalidate (cn_Reference node) (cn_CurrentInputValues node) (cn_PriorValues node)
      (cn_SessionID node) (cn_ContinuationSource node) (cn_Scheduling node) (cn_AgentExecutionSelection node);
    Ok (set_entered (cn_EnteredByEdgeID node) copy)) nodes.

(** The start contexts of executable targets are reads of other tables. *)
Fixpoint start_contexts (def : WorkflowDefinition) (targets : list (CurrentNode L)) : rd unit :=
  match targets with
  | [] => mret tt
  | target :: rest =>
    node ← checked (currentNodeDefinitionNode def (cnr_NodeID (cn_Reference target)));
    _ ← (if executableNodeKind (Kind node) then observations reads faulty ["execution target"; "start context"] else mret tt);
    start_contexts def rest
  end.

Definition materializeTaskExecutionPlan (taskID : TaskID) (task : task_row) (version : Z) (def : WorkflowDefinition)
    (sources targets : list (CurrentNode L)) : rd taskExecutionPlan :=
  _ ← observations reads faulty ["task record"];
  copied ← checked (copyPlannedCurrentNodes sources);
  created ← checked (copyPlannedCurrentNodes targets);
  _ ← start_contexts def targets;
  mret {| pl_taskID := taskID; pl_task := task; pl_workflowVersion := version; pl_sources := copied; pl_targets := created;
          pl_completion := None; pl_approval := None; pl_joinArrival := None; pl_joinBefore := []; pl_destination := None |}.

Definition planTaskExecution (taskID : TaskID) (task : task_row) (version : Z) (sources targets : list (CurrentNode L))
    : rd taskExecutionPlan :=
  workflow ← read_workflow (t_WorkflowID task);
  if w_Version workflow <>? version then refuse (PolicyError "workflow changed during execution preparation")
  else materializeTaskExecutionPlan taskID task (w_Version workflow) (w_Definition workflow) sources targets.

Definition with_completion (result : CurrentNodeCompletionResult) (arrival : option (TransitionBranchKey * gmap string string))
    (before : list fanout_row) (plan : taskExecutionPlan) : taskExecutionPlan := {|
  pl_taskID := pl_taskID plan; pl_task := pl_task plan; pl_workflowVersion := pl_workflowVersion plan;
  pl_sources := pl_sources plan; pl_targets := pl_targets plan; pl_completion := Some result; pl_approval := pl_approval plan;
  pl_joinArrival := arrival; pl_joinBefore := before; pl_destination := pl_destination plan |}.

Definition PlanCurrentNodeCompletion (approvalID : UUID) (now : Z) (request : CurrentNodeCompletionRequest) : rd taskExecutionPlan :=
  req ← checked (prepareCurrentNodeCompletionRequest request);
  let taskID := cnr_TaskID (cq_Source req) in
  task ← read_task taskID;
  workflow ← read_workflow (t_WorkflowID task);
  let def := w_Definition workflow in
  _ ← preflightInitialExecution def;
  source ← checked (currentNodeDefinitionNode def (cnr_NodeID (cq_Source req)));
  if negb (executableNodeKind (Kind source)) then refuse (PolicyError "current node is not executable")
  else
    current ← read_current_node (cq_Source req);
    pending ← read_pending (cn_Reference current);
    if pending : bool then refuse (PolicyError "current node has a pending approval")
    else
      transition ← checked (currentNodeCompletionTransition def source (cq_TransitionID req));
      let '(group, targets) := transition in
      issues ← currentNodeCompletionOutputIssues def group source targets current (cq_OutputValues req);
      _ ← checked (no_issues issues);
      planned ←
        match targets with
        | [target] =>
          if Kind target.2 ==? NodeKindJoin then
            before ← observe reads faulty "list fan-out branches" (λ s, ListTaskActiveFanoutBranches s taskID);
            joined ← planCurrentNodeJoinArrival def current target.1 (cq_OutputValues req) before;
            mret (joined.1, Some joined.2, before)
          else
            result ← planSequentialCompletion approvalID now def (w_Version workflow) group source current target req;
            mret (result, None, [])
        | _ =>
          result ← planCurrentNodeFanout approvalID now def source current targets (cq_Commentary req) (cq_OutputValues req)
            (w_Version workflow) group;
          mret (result, None, [])
        end;
      let '(result, arrival, before) := planned in
      handoff ←
        match targets with
        | [target] =>
          match (if Kind target.2 ==? NodeKindJoin then res_Created result else []) with
          | [created] =>
            node ← checked (currentNodeDefinitionNode def (cnr_NodeID (cn_Reference created)));
            mret (NodeDisplayLabel target.2, NodeDisplayLabel node)
          | _ => mret (NodeDisplayLabel source, NodeDisplayLabel target.2)
          end
        | _ => mret (NodeDisplayLabel source, DisplayLabel (tg_DisplayName group) (tg_TransitionID group))
        end;
      result ← completeCurrentNodePostTurnFacts def current (fst <$> targets) (Kind source ==? NodeKindAgent) handoff result;
      plan ← planTaskExecution taskID task (w_Version workflow) [current] (res_Created result);
      mret (with_completion result arrival before plan).
End planning.
