(* ===== verification/TaskExecution.v ===== *)
(** * Moving a task

    src/server/workflowstore/task_execution_plan.go: the transaction that
    carries out a prepared plan, whatever action it was prepared for, after
    checking that what the preparation relied on still holds; with the storage
    of pending approvals (pending_approvals.go), and the creation and deletion
    of a task as far as they touch its position (tasks.go).

    The execution target of a task, the execution roots of sessions and the
    links of projects are columns and tables the model does not have:
    statements on them can fail and have no other effect here. *)
From Stdlib Require Import ZArith String.
From stdpp Require Import gmap strings list.
From S2P Require Import Prelude Transactions GoStrings Types Reach Fanout Selection PromptRefs Wiring Validation.
From S2P Require Import CurrentState SessionReuse TaskTables Materialization TaskPlanning.

Local Open Scope string_scope.

Inductive taskExecutionAction :=
| taskExecutionStart | taskExecutionResume | taskExecutionMove | taskExecutionComplete | taskExecutionApprove.
#[export] Instance taskExecutionAction_eq_dec : EqDecision taskExecutionAction.
Proof. solve_decision. Defined.

(** A fresh session is prepared before it is stored. *)
Record PreparedSessionSnapshot := { ss_SessionID : SessionID; ss_ProjectID : string; ss_AgentRole : option string }.
Record PlannedCurrentNodeSession := {
  ps_CurrentNode : CurrentNodeReference; ps_SessionID : SessionID; ps_Snapshot : option PreparedSessionSnapshot }.

Definition sameOptional {A} `{EqDecision A} (l r : option A) : bool := l ==? r.

Definition sameAgentExecutionSelection (l r : option AgentExecutionSelection) : bool :=
  match l, r with
  | Some l, Some r => (aes_Assignee l ==? aes_Assignee r) && (aes_Origin l ==? aes_Origin r) && (aes_Thinking l ==? aes_Thinking r)
  | None, None => true
  | _, _ => false
  end.

Section execution.
Context {order : RangeOrder}.
Context {L : Type} (protovalidate : L → option error).
Implicit Types (s : @db L).

(** Everything but the scheduling. *)
Definition sameCurrentNodeMaterialization (l r : CurrentNode L) : bool :=
  CurrentNodeReference_Equal (cn_Reference l) (cn_Reference r) &&
  sameOptional (cn_EnteredByEdgeID l) (cn_EnteredByEdgeID r) &&
  (cn_CurrentInputValues l ==? cn_CurrentInputValues r) &&
  (TransitionParameters (cn_PriorValues l) ==? TransitionParameters (cn_PriorValues r)) &&
  sameOptional (cn_SessionID l) (cn_SessionID r) &&
  sameMaterializedContinuationSource (cn_ContinuationSource l) (cn_ContinuationSource r) &&
  sameAgentExecutionSelection (cn_AgentExecutionSelection l) (cn_AgentExecutionSelection r).

Definition interrupted_state (node : CurrentNode L) : bool :=
  match cn_Scheduling node with Some scheduling => sch_State scheduling ==? CurrentNodeSchedulingInterrupted | None => false end.

Definition validateTaskContextSelection (current : list (CurrentNode L)) : option error :=
  check (existsb (λ node,
    match cn_Scheduling node ≫= sch_Interruption with
    | Some i => ci_Reason i ==? CurrentNodeInterruptionReasonContextSelectionRequired
    | None => false
    end) current) "task requires explicit context selection through Move".

(** ** Storing pending approvals *)
Definition canonical_edge (e : Edge) : Edge := {|
  e_WorkflowID := e_WorkflowID e; e_ID := e_ID e; e_Key := e_Key e; e_TransitionGroupID := e_TransitionGroupID e;
  e_TargetNodeID := e_TargetNodeID e; e_AssigneeSelection := CanonicalAssigneeSelection (e_AssigneeSelection e);
  e_ThinkingSelection := CanonicalThinkingSelection (e_ThinkingSelection e); e_ContextMode := e_ContextMode e;
  e_ContextSource := CanonicalContextSource (e_ContextSource e); e_RequiresApproval := e_RequiresApproval e;
  e_PromptTemplate := e_PromptTemplate e; e_Parameters := e_Parameters e; e_InputBindings := e_InputBindings e;
  e_OutputRequirements := e_OutputRequirements e |}.

Definition approval_branch_snapshot (branch : @PendingApprovalBranch L) : result error approval_branch_row :=
  let target := pab_Target branch in
  let node := pat_CurrentNode target in
  match first_error [
    CurrentNodeReference_Validate (cn_Reference node);
    match cn_Scheduling node ≫= sch_Interruption with
    | Some _ => Some "pending approval target snapshot cannot retain an interruption" | None => None end;
    validatePendingApprovalContextSourceResolution (pat_NodeKind target) node (pab_ContextSourceResolution branch)] with
  | Some e => Err e
  | None => Ok {|
      abr_NodeID := cnr_NodeID (cn_Reference node); abr_NodeKind := pat_NodeKind target;
      abr_TransitionBranchKey := cnr_transitionBranchKey (cn_Reference node); abr_EnteredByEdgeID := cn_EnteredByEdgeID node;
      abr_DisplayName := pat_DisplayName target; abr_CurrentInputValues := cn_CurrentInputValues node;
      abr_PriorValues := cn_PriorValues node; abr_SchedulingState := sch_State <$> cn_Scheduling node;
      abr_AgentExecutionSelection := cn_AgentExecutionSelection node; abr_EffectiveEdge := canonical_edge (pab_EffectiveEdge branch);
      abr_Resolution := pab_ContextSourceResolution branch |}
  end.

Definition pendingApprovalTargetFromSnapshot (taskID : TaskID) (row : approval_branch_row) : result error (@PendingApprovalTarget L) :=
  if blank (abr_DisplayName row) then Err "pending approval target display name is required"
  else match abr_NodeKind row, abr_AgentExecutionSelection row with
  | NodeKindAgent, None => Err "pending approval Agent target requires execution selection"
  | (NodeKindStart | NodeKindScript | NodeKindJoin | NodeKindTerminal), Some _ =>
    Err "pending approval non-Agent target cannot carry execution selection"
  | _, _ =>
    reference ← NewCurrentNodeReference taskID (abr_NodeID row) (abr_TransitionBranchKey row);
    node ← NewCurrentNodeWithExecutionSelection protovalidate reference (abr_CurrentInputValues row) (abr_PriorValues row) None
      ((λ state, {| sch_State := state; sch_Interruption := None |}) <$> abr_SchedulingState row) (abr_AgentExecutionSelection row);
    Ok {| pat_CurrentNode := set_entered (abr_EnteredByEdgeID row) node; pat_DisplayName := abr_DisplayName row;
          pat_NodeKind := abr_NodeKind row |}
  end.

Definition set_session (session : option SessionID) (source : MaterializedContinuationSource) (node : CurrentNode L) : CurrentNode L := {|
  cn_Reference := cn_Reference node; cn_EnteredByEdgeID := cn_EnteredByEdgeID node;
  cn_CurrentInputValues := cn_CurrentInputValues node; cn_PriorValues := cn_PriorValues node;
  cn_SessionID := session; cn_ContinuationSource := source;
  cn_Scheduling := cn_Scheduling node; cn_AgentExecutionSelection := cn_AgentExecutionSelection node |}.
Definition targetSessionIntentSessionID (intent : TargetSessionIntent) : option SessionID :=
  let '(id, reused) := TargetSessionIntent_SessionID intent in if reused then Some id else None.

Definition pendingApprovalBranchFromRow (taskID : TaskID) (key : TransitionBranchKey) (row : approval_branch_row)
    : result error (@PendingApprovalBranch L) :=
  let key := TrimSpace key in
  if key ==? "" then Err "pending approval branch key is required"
  else
    target ← pendingApprovalTargetFromSnapshot taskID row;
    if blank (e_ID (abr_EffectiveEdge row)) || blank (e_TargetNodeID (abr_EffectiveEdge row))
    then Err "pending approval effective edge is invalid"
    else
      let resolution := abr_Resolution row in
      let node := set_session (targetSessionIntentSessionID (csr_TargetSession resolution)) (csr_ActiveSource resolution)
        (pat_CurrentNode target) in
      match validatePendingApprovalContextSourceResolution (pat_NodeKind target) node resolution with
      | Some e => Err e
      | None => Ok {|
          pab_TransitionBranchKey := key;
          pab_Target := {| pat_CurrentNode := node; pat_DisplayName := pat_DisplayName target; pat_NodeKind := pat_NodeKind target |};
          pab_EffectiveEdge := canonical_edge (abr_EffectiveEdge row); pab_ContextSourceResolution := resolution |}
      end.

Definition pendingApprovalFromRow (id : UUID) (row : approval_row) : result error (@PendingApproval L) :=
  source ← NewCurrentNodeReference (cnr_TaskID (apr_Source row)) (cnr_NodeID (apr_Source row)) (cnr_transitionBranchKey (apr_Source row));
  if blank (tg_ID (apr_Group row)) || blank (tg_TransitionID (apr_Group row)) || blank (apr_SourceDisplayName row)
  then Err "pending approval transition snapshot is invalid"
  else
    branches ← mapM (λ key,
        match apr_Branches row !! key with
        | Some branch => pendingApprovalBranchFromRow (cnr_TaskID source) key branch
        | None => Err "unreachable"
        end) (sort_strings (elements (dom (apr_Branches row))));
    if length branches ==? 0%nat then Err "pending approval has no branch snapshots"
    else Ok {|
      pa_ID := id; pa_Source := source; pa_SourceSessionID := apr_SourceSessionID row; pa_WorkflowVersion := apr_WorkflowVersion row;
      pa_Group := apr_Group row; pa_SourceDisplayName := apr_SourceDisplayName row; pa_Commentary := apr_Commentary row;
      pa_OutputValues := apr_OutputValues row; pa_Branches := branches; pa_CreatedAt := FromUnixMilli (apr_CreatedAtUnixMs row) |}.

Definition validatePendingApprovalSequentialTarget (source target : CurrentNodeReference) : option error :=
  let '(sourceKey, sourceScoped) := TransitionBranchKey_of source in
  let '(targetKey, targetScoped) := TransitionBranchKey_of target in
  if sourceScoped <>? targetScoped then Some "pending approval target scope must match its source"
  else check (sourceScoped && (sourceKey <>? targetKey)) "pending approval target branch must match its source branch".

Fixpoint approval_targets_ok (source : CurrentNodeReference) (seen : gset TransitionBranchKey) (branches : list (@PendingApprovalBranch L))
    : option error :=
  match branches with
  | [] => None
  | branch :: rest =>
    let key := TrimSpace (pab_TransitionBranchKey branch) in
    let target := cn_Reference (pat_CurrentNode (pab_Target branch)) in
    if key ==? "" then Some "fanout pending approval branch key is required"
    else if key ∈? seen then Some "fanout pending approval branch key is duplicated"
    else if cnr_TaskID target <>? cnr_TaskID source then Some "fanout pending approval target task must match its source"
    else if cnr_transitionBranchKey target <>? Some key
    then Some "fanout pending approval target branch must match its frozen branch key"
    else approval_targets_ok source ({[key]} ∪ seen) rest
  end.
Definition validatePendingApprovalFanoutTargets (source : CurrentNodeReference) (branches : list (@PendingApprovalBranch L)) : option error :=
  if IsBranchScoped source then Some "branch-scoped pending approval cannot create a nested fanout"
  else if (length branches <? 2)%nat then Some "fanout pending approval requires multiple target branches"
  else approval_targets_ok source ∅ branches.

(** ** The transaction *)
Section commit.
Context (faulty : nat → bool) (now : Z).

Fixpoint insert_approval_branches (id : UUID) (branches : list (@PendingApprovalBranch L)) : txn (@db L) error unit :=
  match branches with
  | [] => mret tt
  | branch :: rest =>
    row ← lift (approval_branch_snapshot branch);
    _ ← InsertTaskPendingApprovalBranch faulty id (pab_TransitionBranchKey branch) row;
    insert_approval_branches id rest
  end.
Definition insertPendingApproval (approval : @PendingApproval L) : txn (@db L) error unit :=
  _ ← InsertTaskPendingApproval faulty (pa_ID approval) {|
    apr_Source := pa_Source approval; apr_SourceSessionID := pa_SourceSessionID approval;
    apr_WorkflowVersion := pa_WorkflowVersion approval; apr_Group := pa_Group approval;
    apr_SourceDisplayName := pa_SourceDisplayName approval; apr_Commentary := pa_Commentary approval;
    apr_OutputValues := pa_OutputValues approval; apr_Branches := ∅; apr_CreatedAtUnixMs := UnixMilli (pa_CreatedAt approval) |};
  insert_approval_branches (pa_ID approval) (pa_Branches approval).

(** *** Revalidation *)
Definition refuse_pending (node : CurrentNode L) (message : error) : txn (@db L) error unit :=
  pending ← currentNodePendingApprovalID faulty (cn_Reference node);
  if pending : bool then fail (PolicyError message) else mret tt.

Fixpoint validate_sources (action : taskExecutionAction) (current sources : list (CurrentNode L)) : txn (@db L) error unit :=
  match sources with
  | [] => mret tt
  | expected :: rest =>
    match find_reference current (cn_Reference expected) with
    | None => fail NoRows
    | Some actual =>
      if negb (sameCurrentNodeMaterialization expected actual)
      then fail (PolicyError "current node changed after execution preparation")
      else if (action ==? taskExecutionStart) && match cn_Scheduling actual with Some _ => true | None => false end
      then fail (PolicyError "Task Start source is executable")
      else if (action ==? taskExecutionResume) && negb (interrupted_state actual)
      then fail (PolicyError "current node is no longer interrupted")
      else
        _ ← match action with
          | taskExecutionResume => refuse_pending actual "current node is waiting for approval"
          | taskExecutionComplete => refuse_pending actual "current node has a pending approval"
          | _ => mret tt
          end;
        validate_sources action current rest
    end
  end.

Definition validateTaskExecutionPlan (plan : @taskExecutionPlan L) (action : taskExecutionAction) : txn (@db L) error task_row :=
  task ← GetTask faulty (pl_taskID plan);
  if (t_WorkflowID task <>? t_WorkflowID (pl_task plan)) || (t_ProjectID task <>? t_ProjectID (pl_task plan))
  then fail (PolicyError "task execution target changed after preparation")
  else
    workflow ← GetWorkflow faulty (t_WorkflowID task);
    if w_Version workflow <>? pl_workflowVersion plan then fail (PolicyError "workflow changed after execution preparation")
    else
      current ← listTaskCurrentNodes protovalidate faulty (pl_taskID plan);
      _ ← (if (action ==? taskExecutionResume) || (action ==? taskExecutionApprove)
           then match validateTaskContextSelection current with Some e => fail (PolicyError e) | None => mret tt end
           else mret tt);
      if ((action ==? taskExecutionStart) || (action ==? taskExecutionMove)) && (length current <>? length (pl_sources plan))
      then fail (PolicyError "task position changed after execution preparation")
      else
        _ ← validate_sources action current (pl_sources plan);
        _ ← statements faulty ["execution target"];
        match pl_joinArrival plan with
        | None => mret task
        | Some _ =>
          arrivals ← select faulty "list fan-out branches" (λ s, ListTaskActiveFanoutBranches s (pl_taskID plan));
          if arrivals <>? pl_joinBefore plan then fail (PolicyError "fan-out arrivals changed after completion preparation")
          else mret task
        end.

(** *** Sessions *)
Abbreviation assignment := (prod CurrentNodeReferenceKey PlannedCurrentNodeSession) (only parsing).
Fixpoint planned_assignments (sessions : list PlannedCurrentNodeSession) (assignments : list assignment) : result error (list assignment) :=
  match sessions with
  | [] => Ok assignments
  | session :: rest =>
    key ← CurrentNodeReference_Key (ps_CurrentNode session);
    if IsZero (ps_SessionID session) then Err "planned Session identity is required"
    else if key ∈? (fst <$> assignments) then Err "duplicate planned Current Node"
    else if ps_SessionID session ∈? ((λ a : assignment, ps_SessionID a.2) <$> assignments)
    then Err "Session cannot be assigned to multiple Current Nodes"
    else planned_assignments rest (assignments ++ [(key, session)])%list
  end.

Definition InsertPreparedSession (snapshot : PreparedSessionSnapshot) : txn (@db L) error unit :=
  execute faulty "insert session" (λ s,
    if bool_decide (db_sessions s !! ss_SessionID snapshot = None)
    then Some (tt, set_sessions (<[ss_SessionID snapshot := {| s_ProjectID := ss_ProjectID snapshot; s_TaskID := None;
           s_AgentRole := ss_AgentRole snapshot |}]> (db_sessions s)) (db_associations s) s) else None).

Definition assign_session (action : taskExecutionAction) (target : CurrentNode L) (assignment : PlannedCurrentNodeSession)
    : txn (@db L) error (CurrentNode L) :=
  _ ← match ps_Snapshot assignment with
    | Some snapshot =>
      if match cn_SessionID target with Some _ => true | None => false end
         && ((action ==? taskExecutionResume) || negb (IsBranchScoped (cn_Reference target)))
      then fail (PolicyError "execution requires the selected retained Session")
      else if ss_SessionID snapshot <>? ps_SessionID assignment
      then fail (PolicyError "planned Session snapshot identity does not match assignment")
      else _ ← statements faulty ["session execution target"]; InsertPreparedSession snapshot
    | None =>
      if cn_SessionID target <>? Some (ps_SessionID assignment)
      then fail (PolicyError "retained Session does not match planned target")
      else statements faulty ["update session execution target"]
    end;
  source ← lift (NewExactMaterializedContinuationSource (ps_SessionID assignment));
  mret (set_session (Some (ps_SessionID assignment)) source target).

Fixpoint assign_sessions (action : taskExecutionAction) (targets : list (CurrentNode L)) (assignments : list assignment)
    : txn (@db L) error (list (CurrentNode L)) :=
  match targets with
  | [] => if length assignments ==? 0%nat then mret [] else fail (PolicyError "Session assignment has no Agent target")
  | target :: rest =>
    match cn_AgentExecutionSelection target with
    | None => targets ← assign_sessions action rest assignments; mret (target :: targets)
    | Some _ =>
      key ← lift (CurrentNodeReference_Key (cn_Reference target));
      match find (λ a : assignment, a.1 ==? key) assignments with
      | None => fail (PolicyError "Agent target has no planned Session")
      | Some (_, assignment) =>
        target ← assign_session action target assignment;
        targets ← assign_sessions action rest (filter (λ a, a.1 ≠ key) assignments);
        mret (target :: targets)
      end
    end
  end.
Definition preparePlannedCurrentNodeSessions (plan : @taskExecutionPlan L) (sessions : list PlannedCurrentNodeSession)
    (action : taskExecutionAction) : txn (@db L) error (list (CurrentNode L)) :=
  assignments ← lift (planned_assignments sessions []);
  assign_sessions action (pl_targets plan) assignments.

(** *** Moving to another workflow *)
Definition boundary_kind (kind : NodeKind) : bool := (kind ==? NodeKindStart) || (kind ==? NodeKindTerminal).
(** The workflow of the target with its row, when the task may go there. *)
Definition manualMoveDefinition (s : @db L) (taskID : TaskID) (task : task_row) (targetID : NodeID)
    : result (store_error error) (WorkflowID * workflow_row) :=
  match node_row s targetID with
  | None => Err NoRows
  | Some target =>
    let elsewhere := NodeWorkflowID target <>? t_WorkflowID task in
    if elsewhere && negb (boundary_kind (Kind target))
    then Err (PolicyError "cross-workflow moves require a Backlog or terminal destination")
    else if elsewhere && negb match ListTaskCurrentNodes s taskID with
         | [(kind, _, _)] => boundary_kind kind
         | _ => false
         end then Err (PolicyError "only Backlog or terminal tasks can move between workflows")
    else match db_workflows s !! NodeWorkflowID target with
    | None => Err NoRows
    | Some workflow => Ok (NodeWorkflowID target, workflow)
    end
  end.

Definition check_destination (plan : @taskExecutionPlan L) (task : task_row) : txn (@db L) error unit :=
  match pl_destination plan with
  | None => mret tt
  | Some (id, version) =>
    match pl_targets plan with
    | [] => fail (PolicyError "panic")
    | target :: _ =>
      _ ← statements faulty ["project link"];
      found ← select faulty "destination" (λ s, manualMoveDefinition s (pl_taskID plan) task (cnr_NodeID (cn_Reference target)));
      match found with
      | Err e => fail e
      | Ok (id', workflow) =>
        if (id' <>? id) || (w_Version workflow <>? version)
        then fail (PolicyError "destination workflow changed after move preparation") else mret tt
      end
    end
  end.
Definition set_workflow (id : WorkflowID) (row : task_row) : task_row :=
  {| t_ProjectID := t_ProjectID row; t_WorkflowID := id; t_UpdatedAt := t_UpdatedAt row |}.
Definition MoveTaskToWorkflow (task : TaskID) (id : WorkflowID) : txn (@db L) error unit :=
  query faulty "move task" (λ s, (tt, set_tasks (alter (set_workflow id) task (db_tasks s)) s)).

Definition touch (at_ : Z) (row : task_row) : task_row :=
  {| t_ProjectID := t_ProjectID row; t_WorkflowID := t_WorkflowID row; t_UpdatedAt := at_ |}.
Definition touchTask (task : TaskID) : txn (@db L) error unit :=
  updated ← query faulty "update task timestamp" (λ s,
    (if bool_decide (is_Some (db_tasks s !! task)) then 1 else 0,
     set_tasks (alter (touch (UnixMilli now)) task (db_tasks s)) s));
  one_row updated.

(** *** The cutover *)
Fixpoint delete_sources (sources : list (CurrentNode L)) : txn (@db L) error (list CurrentNodeReference) :=
  match sources with
  | [] => mret []
  | source :: rest =>
    count ← deleteTaskCurrentNode faulty (cn_Reference source);
    if count <>? 1%nat then fail NoRows
    else removed ← delete_sources rest; mret (cn_Reference source :: removed)
  end.
Fixpoint insert_targets (targets : list (CurrentNode L)) : txn (@db L) error unit :=
  match targets with
  | [] => mret tt
  | target :: rest => _ ← insertTaskCurrentNode faulty target now; insert_targets rest
  end.
Definition set_admitted (node : CurrentNode L) : CurrentNode L := {|
  cn_Reference := cn_Reference node; cn_EnteredByEdgeID := cn_EnteredByEdgeID node;
  cn_CurrentInputValues := cn_CurrentInputValues node; cn_PriorValues := cn_PriorValues node;
  cn_SessionID := cn_SessionID node; cn_ContinuationSource := cn_ContinuationSource node;
  cn_Scheduling := match cn_Scheduling node with
    | Some _ => Some {| sch_State := CurrentNodeSchedulingAdmitted; sch_Interruption := None |}
    | None => None
    end;
  cn_AgentExecutionSelection := cn_AgentExecutionSelection node |}.

Definition new_approval (plan : @taskExecutionPlan L) : option (@PendingApproval L) := pl_completion plan ≫= res_PendingApproval.

Definition cutover (plan : @taskExecutionPlan L) (sessions : list PlannedCurrentNodeSession) (action : taskExecutionAction)
    : txn (@db L) error (list CurrentNodeReference * list (CurrentNode L)) :=
  let taskID := pl_taskID plan in
  locked ← select faulty "lock task" (λ s, bool_decide (is_Some (db_tasks s !! taskID)));
  if negb locked then fail NoRows else
  task ← validateTaskExecutionPlan plan action;
  _ ← check_destination plan task;
  _ ← statements faulty ["apply execution target"];
  targets ← preparePlannedCurrentNodeSessions plan sessions action;
  _ ← match pl_approval plan with
    | None => mret tt
    | Some approval =>
      _ ← statements faulty ["approval attention"];
      removed ← DeleteTaskPendingApproval faulty (pa_ID approval);
      if removed <>? 1%nat then fail (PolicyError "pending approval changed before cutover") else mret tt
    end;
  _ ← match pl_joinArrival plan with
    | None => mret tt
    | Some (key, values) =>
      updated ← UpdateTaskActiveFanoutBranchArrival faulty taskID key values;
      if updated <>? 1%nat then fail (PolicyError "join arrival is no longer pending") else mret tt
    end;
  _ ← match new_approval plan with Some approval => insertPendingApproval approval | None => mret tt end;
  _ ← (if action ==? taskExecutionMove
       then _ ← statements faulty ["task attention"]; _ ← DeleteTaskPendingApprovalsByTask faulty taskID; mret tt else mret tt);
  _ ← (if action ==? taskExecutionResume then statements faulty ["interruption attention"] else mret tt);
  removed ← match new_approval plan with Some _ => mret [] | None => delete_sources (pl_sources plan) end;
  _ ← (if (action ==? taskExecutionMove) ||
          (match pl_joinArrival plan with Some _ => true | None => false end && (length targets <>? 0%nat))
       then _ ← DeleteTaskActiveFanout faulty taskID; mret tt else mret tt);
  _ ← match pl_destination plan with
    | None => mret tt
    | Some (id, _) => _ ← statements faulty ["project link"]; MoveTaskToWorkflow taskID id
    end;
  let targets := if action ==? taskExecutionComplete then targets else set_admitted <$> targets in
  _ ← (if (1 <? length targets)%nat && (action <>? taskExecutionResume)
       then insertTaskFanoutTargets faulty taskID targets now else insert_targets targets);
  _ ← touchTask taskID;
  mret (removed, targets).

(** The shared lease on the workflow's lane is held around the transaction. *)
Definition commitTaskExecution (plan : @taskExecutionPlan L) (sessions : list PlannedCurrentNodeSession)
    (action : taskExecutionAction) s : result (store_error error) (list CurrentNodeReference * list (CurrentNode L)) * @db L :=
  if (pl_taskID plan ==? "") || (length (pl_sources plan) ==? 0%nat) ||
     ((length (pl_targets plan) ==? 0%nat) && match pl_completion plan with None => true | Some _ => false end)
  then (Err (PolicyError "task execution plan is invalid"), s)
  else transact faulty (cutover plan sessions action) s.

(** ** Creating and deleting a task *)
Definition newNonExecutableCurrentNode (taskID : TaskID) (nodeID : NodeID) : result error (CurrentNode L) :=
  newNonExecutableCurrentNodeWithPriorValues protovalidate taskID nodeID {| TransitionParameters := ∅ |}.

(** The row of the task and its start node; dependencies are modelled apart. *)
Definition createTaskWithQueries (taskID : TaskID) (row : task_row) (start : NodeID) s : result (store_error error) unit * @db L :=
  transact faulty (
    _ ← statements faulty ["workflow link"; "source workspace"; "definition"; "labels"; "task sequence"; "workspace snapshot"];
    _ ← execute faulty "insert task" (λ s,
      if bool_decide (db_tasks s !! taskID = None) then Some (tt, set_tasks (<[taskID := row]> (db_tasks s)) s) else None);
    node ← lift (newNonExecutableCurrentNode taskID start);
    _ ← insertTaskCurrentNode faulty node now;
    statements faulty ["labels"; "dependencies"]) s.

(** The sessions of the task lose their owner with it. *)
Definition release_sessions (task : TaskID) (sessions : gmap SessionID session_row) : gmap SessionID session_row :=
  (λ row, if s_TaskID row ==? Some task
          then {| s_ProjectID := s_ProjectID row; s_TaskID := None; s_AgentRole := s_AgentRole row |} else row) <$> sessions.
Definition DeleteTaskRows (taskID : TaskID) s : result (store_error error) unit * @db L :=
  transact faulty (
    _ ← GetTask faulty taskID;
    _ ← statements faulty ["task record"; "dependencies"; "attention"];
    _ ← DeleteTaskPendingApprovalsByTask faulty taskID;
    _ ← statements faulty ["labels"];
    _ ← execute faulty "delete current nodes" (λ s,
      if existsb (λ a, cnr_TaskID (apr_Source a.2) ==? taskID) (map_to_list (db_approvals s)) then None
      else Some (tt, set_current (filter (λ kv, kv.1.1 ≠ taskID) (db_current s)) s));
    _ ← DeleteTaskActiveFanout faulty taskID;
    _ ← statements faulty ["comments"];
    deleted ← query faulty "delete task" (λ s,
      (if bool_decide (is_Some (db_tasks s !! taskID)) then 1 else 0,
       set_tasks (delete taskID (db_tasks s))
         (set_sessions (release_sessions taskID (db_sessions s))
            (filter (λ kv, db_sessions s !! kv.1.1.1 ≫= s_TaskID ≠ Some taskID) (db_associations s)) s)));
    one_row deleted) s.
End commit.
End execution.
