(* ===== verification/TaskActions.v ===== *)
(** * Preparing the other moves of a task

    src/server/workflowstore: the start of a task (tasks.go), the resumption of
    its interrupted nodes (current_node_resume.go), the application of a
    pending approval (completion_plan.go) and the move by hand (manual_moves.go,
    the first part of manual_move_preview.go), each to the plan that
    task_execution_plan.go carries out, and the entry points that commit it.

    The choice among the transitions that a move by hand may take, and the
    values it finds in the task's history, are the second part of
    manual_move_preview.go: arguments here. *)
From Stdlib Require Import ZArith String.
From stdpp Require Import gmap strings list.
From S2P Require Import Prelude Transactions GoStrings Types Reach Fanout Selection PromptRefs Wiring Validation.
From S2P Require Import CurrentState SessionReuse TaskTables Materialization TaskPlanning TaskExecution.

Local Open Scope string_scope.

(** ** Resumption *)
Definition resume_binding_kept (edge : Edge) (consumption : ProtectedParameterConsumption) (binding : InputBinding) : bool :=
  match transitionParameterByKey edge (ib_Field binding) with
  | None => true
  | Some p =>
    let purpose := CanonicalParameterPurpose (p_Purpose p) in
    if purpose ==? ParameterPurposeTargetAssignee then pc_Assignee consumption ==? RequiredValidate
    else if purpose ==? ParameterPurposeTargetThinking then pc_Thinking consumption ==? RequiredValidate
    else true
  end.
Definition resumeCurrentNodeInputBindings (edge : Edge) (bindings : list InputBinding)
    (consumption : ProtectedParameterConsumption) : list InputBinding :=
  filter (λ b, resume_binding_kept edge consumption b = true) bindings.

(** ** Moves by hand *)
Record ManualMoveRequest := {
  mm_TaskID : TaskID; mm_TargetNodeID : NodeID; mm_TransitionKey : option string;
  mm_Values : gmap ModelKey (gmap string string); mm_Commentary : string }.

(** The values of a task's history: present once, or in conflict. *)
Record manualMoveMaterializedValue := { mv_value : string; mv_present : bool; mv_conflict : bool }.
Abbreviation manualMoveValueEnvironment := (gmap (ModelKey * string) manualMoveMaterializedValue) (only parsing).
Definition resolved (environment : manualMoveValueEnvironment) (nodeKey : ModelKey) (outputName : string) : option string :=
  value ← environment !! (nodeKey, outputName);
  if negb (mv_present value) || mv_conflict value then None else Some (mv_value value).

Record ManualMoveRequiredValue := { rv_NodeKey : ModelKey; rv_OutputName : string; rv_Description : option string; rv_ResolvedValue : option string }.
Record ManualMoveTransitionChoice := {
  ch_TransitionKey : string; ch_Label : string; ch_SourceNode : Node; ch_Edges : list Edge;
  ch_RequiredValues : list ManualMoveRequiredValue; ch_authorizedValues : gset (ModelKey * string) }.

Definition manualMoveSubmittedOrResolved (nodeKey : ModelKey) (outputName : string) (environment : manualMoveValueEnvironment)
    (submitted : gmap ModelKey (gmap string string)) : option string :=
  match submitted !! nodeKey ≫= lookup outputName with
  | Some value => Some value
  | None => resolved environment nodeKey outputName
  end.

Definition ErrManualMoveValuesInvalid : error := "manual move values do not match the selected Transition requirements".
(** The submitted values are all asked for, and none that is asked for is
    missing. *)
Definition validateManualMoveValues (choice : ManualMoveTransitionChoice) (submitted : gmap ModelKey (gmap string string))
    (environment : manualMoveValueEnvironment) : option error :=
  let requirements := (list_to_set ((λ r, (rv_NodeKey r, rv_OutputName r)) <$> ch_RequiredValues choice)
                        ∪ ch_authorizedValues choice : gset (ModelKey * string)) in
  let requiredNodes := set_map (D := gset ModelKey) fst requirements in
  if existsb (λ kv, negb (kv.1 ∈? requiredNodes) ||
                    existsb (λ output, negb ((kv.1, output) ∈? requirements)) (elements (dom kv.2))) (map_to_list submitted)
  then Some ErrManualMoveValuesInvalid
  else check (existsb (λ r,
      match submitted !! rv_NodeKey r ≫= lookup (rv_OutputName r) with
      | Some _ => false
      | None => match environment !! (rv_NodeKey r, rv_OutputName r) with
                | None => true
                | Some value => negb (mv_present value) || mv_conflict value
                end
      end) (ch_RequiredValues choice)) ErrManualMoveValuesInvalid.

Section actions.
Context {order : RangeOrder}.
Context {L : Type} (protovalidate : L → option error).
Context (Parse : string → result string (gmap string (option TNode))).
Context (catalog : option TargetAgentCatalog).
Context (reads : nat → @db L) (faulty : nat → bool).
Abbreviation rd := (reading error) (only parsing).
Abbreviation materialize_target :=
  (materializeTransitionTargetCurrentNode protovalidate Parse catalog reads faulty) (only parsing).
Abbreviation preflight := (preflightInitialExecution Parse catalog) (only parsing).
Abbreviation plan_execution := (planTaskExecution protovalidate reads faulty) (only parsing).
Abbreviation current_node := (read_current_node protovalidate reads faulty) (only parsing).

(** ** Starting *)
Record preparedTaskStart := {
  st_task : task_row; st_workflowVersion : Z; st_definition : WorkflowDefinition; st_start : Node;
  st_targets : list completion_target; st_startCurrentNode : CurrentNode L }.

Definition prepareTaskStart (taskID : TaskID) : rd preparedTaskStart :=
  task ← read_task reads faulty taskID;
  workflow ← read_workflow reads faulty (t_WorkflowID task);
  let def := w_Definition workflow in
  start ← checked (startNode def);
  reference ← checked (NewCurrentNodeReference taskID (NodeIDOf start) None);
  nodes ← read_current_nodes protovalidate reads faulty (cnr_TaskID reference);
  match find_reference nodes reference with
  | None => refuse (PolicyError "task already started")
  | Some current =>
    if (match cn_SessionID current with Some _ => true | None => false end) ||
       match cn_Scheduling current with Some _ => true | None => false end
    then refuse NoRows
    else
      _ ← preflight def;
      transition ← checked (startTransition def start);
      mret {| st_task := task; st_workflowVersion := w_Version workflow; st_definition := def; st_start := start;
              st_targets := transition.2; st_startCurrentNode := current |}
  end.

Fixpoint start_targets (taskID : TaskID) (prepared : preparedTaskStart) (fanOut : bool) (targets : list completion_target)
    : rd (list (CurrentNode L)) :=
  match targets with
  | [] => mret []
  | target :: rest =>
    materialized ← materialize_target {|
      rq_Definition := st_definition prepared; rq_Edge := target.1; rq_Source := st_start prepared; rq_Target := target.2;
      rq_ResolveRetained := false; rq_ContextTaskID := taskID; rq_ContextCurrentSource := None; rq_ManualMoveContext := false;
      rq_PriorValues := {| TransitionParameters := ∅ |}; rq_Value := λ _ _ _, None;
      rq_TransitionBranchKey := if fanOut then Some (TrimSpace (e_Key target.1)) else None |};
    created ← start_targets taskID prepared fanOut rest;
    mret (materialized.1 :: created)
  end.
Definition materializeTaskStart (taskID : TaskID) (prepared : preparedTaskStart) : rd (list (CurrentNode L)) :=
  start_targets taskID prepared (1 <? length (st_targets prepared))%nat (st_targets prepared).

Definition PlanTaskStart (taskID : TaskID) : rd (@taskExecutionPlan L) :=
  prepared ← prepareTaskStart taskID;
  targets ← materializeTaskStart taskID prepared;
  plan_execution taskID (st_task prepared) (st_workflowVersion prepared) [st_startCurrentNode prepared] targets.

(** ** Resuming *)
Definition requireTaskContextSelectionResolved (taskID : TaskID) : rd unit :=
  current ← read_current_nodes protovalidate reads faulty taskID;
  match validateTaskContextSelection current with Some e => refuse (PolicyError e) | None => mret tt end.

Definition IsCurrentNodeExecutionEligible (reference : CurrentNodeReference) : rd bool :=
  _ ← current_node reference;
  pending ← read_pending reads faulty reference;
  mret (negb pending).

Fixpoint interrupted_nodes (def : WorkflowDefinition) (nodes : list (CurrentNode L)) : rd (list (CurrentNode L)) :=
  match nodes with
  | [] => mret []
  | current :: rest =>
    if negb (interrupted_state current) then interrupted_nodes def rest
    else
      node ← checked (currentNodeDefinitionNode def (cnr_NodeID (cn_Reference current)));
      if negb (executableNodeKind (Kind node)) then interrupted_nodes def rest
      else
        eligible ← IsCurrentNodeExecutionEligible (cn_Reference current);
        found ← interrupted_nodes def rest;
        mret (if eligible : bool then current :: found else found)
  end.
Definition interruptedExecutableCurrentNodesWithDefinition (taskID : TaskID) (def : WorkflowDefinition) : rd (list (CurrentNode L)) :=
  nodes ← read_current_nodes protovalidate reads faulty taskID;
  interrupted_nodes def nodes.

Definition resumeTransitionProtectedParameterConsumption (def : WorkflowDefinition) (edge : Edge) (target : Node)
    (current : CurrentNode L) : result error ProtectedParameterConsumption :=
  let fanOut := (1 <? length (filter (λ e, e_TransitionGroupID e = e_TransitionGroupID edge) (d_Edges def)))%nat in
  let retained :=
    selection ← cn_AgentExecutionSelection current;
    if aes_Origin selection ==? AssigneeOriginRetainedSession
    then Some match catalog with
              | Some c => default (bare_role (aes_Assignee selection)) (ResolveConfiguredRole c (aes_Assignee selection))
              | None => bare_role (aes_Assignee selection)
              end
    else None in
  group ← transitionGroupForEdge def edge;
  source ← currentNodeDefinitionNode def (tg_SourceNodeID group);
  Ok (PlanTransitionProtectedParameterConsumption {|
    cr_Edge := edge; cr_SourceKind := Kind source; cr_TargetKind := Kind target; cr_TargetRole := NodeSubagentRole target;
    cr_RetainedTargetRole := retained; cr_FanOut := fanOut;
    cr_TargetSessionResolved := match retained with Some _ => true | None => false end;
    cr_TargetSessionPolicy := match retained with
      | Some _ => AssigneeSessionPolicyPreserve | None => AssigneeSessionPolicyEstablishTarget end;
    cr_Catalog := catalog; cr_RequireExecutionDescriptions := false; cr_Materialization := None |}).

(** An interrupted node with the inputs it lacks. *)
Definition classify_resume (def : WorkflowDefinition) (derived : DerivedWiring) (current : CurrentNode L)
    : result error (CurrentNode L * list string) :=
  edge ← currentNodeDefinitionEnteringEdge def current;
  target ← currentNodeDefinitionNode def (cnr_NodeID (cn_Reference current));
  consumption ← resumeTransitionProtectedParameterConsumption def edge target current;
  Ok (current, filter (λ name, cn_CurrentInputValues current !! name = None)
    (ib_Name <$> resumeCurrentNodeInputBindings edge (getl (dw_currentNodeInputBindingsByEdge derived) (e_ID edge)) consumption)).

Definition PreflightTaskResume (taskID : TaskID) : rd (list (CurrentNode L * list string)) :=
  if blank taskID then refuse (PolicyError "task id is required")
  else
    task ← read_task reads faulty taskID;
    _ ← requireTaskContextSelectionResolved taskID;
    workflow ← read_workflow reads faulty (t_WorkflowID task);
    let def := w_Definition workflow in
    derived ← no_panic (DeriveWiring (ExtractPromptTemplateReferences Parse) def);
    nodes ← interruptedExecutableCurrentNodesWithDefinition taskID def;
    checked (mapM (classify_resume def derived) nodes).

Fixpoint select_resumed (taskID : TaskID) (classifications : list (CurrentNode L * list string))
    (seen : list CurrentNodeReferenceKey) (references : list CurrentNodeReference) : result error (list (CurrentNode L)) :=
  match references with
  | [] => Ok []
  | reference :: rest =>
    key ← CurrentNodeReference_Key reference;
    if cnr_TaskID reference <>? taskID then Err "Resume Current Node belongs to a different Task"
    else if key ∈? seen then Err "Resume Current Node is duplicated"
    else match find (λ c : CurrentNode L * list string, CurrentNodeReference_Equal (cn_Reference c.1) reference) classifications with
    | None => Err "selected Current Node cannot be resumed"
    | Some (node, diagnostics) =>
      if negb (length diagnostics ==? 0%nat) then Err "workflow.resume.parameter_not_materialized"
      else selected ← select_resumed taskID classifications (key :: seen) rest; Ok (node :: selected)
    end
  end.

Definition PlanTaskResume (taskID : TaskID) (references : list CurrentNodeReference) : rd (@taskExecutionPlan L) :=
  if length references ==? 0%nat then refuse (PolicyError "Task Resume requires selected Current Nodes")
  else
    task ← read_task reads faulty taskID;
    record ← read_workflow reads faulty (t_WorkflowID task);
    classifications ← PreflightTaskResume taskID;
    selected ← checked (select_resumed taskID classifications [] references);
    workflow ← read_workflow reads faulty (t_WorkflowID task);
    validation ← no_panic (ValidateDefinition Parse validateStaticContinuationSources (w_Definition workflow)
      {| vo_Context := ValidationContextExecution; vo_RoleResolver := catalog;
         vo_ExecutionNodes := Some (list_to_set ((λ n, cnr_NodeID (cn_Reference n)) <$> selected)) |});
    if HasBlockingErrors validation then refuse (PolicyError "workflow validation")
    else plan_execution taskID task (w_Version record) selected selected.

(** ** Applying an approval *)
Definition freeze_edges (branches : list (@PendingApprovalBranch L)) (def : WorkflowDefinition) : WorkflowDefinition := {|
  d_ID := d_ID def; d_DisplayName := d_DisplayName def; d_ExecutionTargetPolicy := d_ExecutionTargetPolicy def;
  d_NodeGroups := d_NodeGroups def; d_Nodes := d_Nodes def; d_TransitionGroups := d_TransitionGroups def;
  d_Edges := (λ edge, match find (λ b, e_ID edge ==? e_ID (pab_EffectiveEdge b)) branches with
                      | Some b => pab_EffectiveEdge b | None => edge end) <$> d_Edges def |}.

Definition with_approval (approval : @PendingApproval L) (plan : @taskExecutionPlan L) : taskExecutionPlan := {|
  pl_taskID := pl_taskID plan; pl_task := pl_task plan; pl_workflowVersion := pl_workflowVersion plan;
  pl_sources := pl_sources plan; pl_targets := pl_targets plan; pl_completion := pl_completion plan; pl_approval := Some approval;
  pl_joinArrival := pl_joinArrival plan; pl_joinBefore := pl_joinBefore plan; pl_destination := pl_destination plan |}.

Definition PlanPendingApproval (id : UUID) : rd (@taskExecutionPlan L) :=
  row ← observe_row reads faulty "get approval" (λ s, db_approvals s !! id);
  approval ← checked (pendingApprovalFromRow protovalidate id row);
  let taskID := cnr_TaskID (pa_Source approval) in
  _ ← requireTaskContextSelectionResolved taskID;
  task ← read_task reads faulty taskID;
  workflow ← read_workflow reads faulty (t_WorkflowID task);
  current ← current_node (pa_Source approval);
  let targets := (λ b, pat_CurrentNode (pab_Target b)) <$> pa_Branches approval in
  _ ← match targets with
    | [] => refuse (PolicyError "pending approval has no target branches")
    | [target] =>
      match validatePendingApprovalSequentialTarget (pa_Source approval) (cn_Reference target) with
      | Some e => refuse (PolicyError e) | None => mret tt end
    | _ =>
      match validatePendingApprovalFanoutTargets (pa_Source approval) (pa_Branches approval) with
      | Some e => refuse (PolicyError e) | None => mret tt end
    end;
  plan ← materializeTaskExecutionPlan protovalidate reads faulty taskID task (w_Version workflow)
    (freeze_edges (pa_Branches approval) (w_Definition workflow)) [current] targets;
  mret (with_approval approval plan).

(** ** Moving by hand *)
Inductive ManualMovePreview :=
| PreviewNoOp (currentNodes : list (CurrentNode L))
| PreviewDirect
| PreviewTransition (choices : list ManualMoveTransitionChoice)
| PreviewBlocked.

(** What the second part of manual_move_preview.go decides. *)
Context (resolveManualMoveExecutablePreview :
  WorkflowDefinition → Node → list (CurrentNode L) → ManualMoveRequest → rd ManualMovePreview).
Context (manualMoveValueEnvironment_ :
  WorkflowDefinition → TaskID → list (CurrentNode L) → NodeID → rd manualMoveValueEnvironment).

(** The destination, read in one step. *)
Definition read_destination (taskID : TaskID) (task : task_row) (target : NodeID) : rd (WorkflowID * workflow_row) :=
  _ ← observations reads faulty ["project link"];
  found ← observe reads faulty "destination" (λ s, manualMoveDefinition s taskID task target);
  match found with Ok d => mret d | Err e => refuse e end.

Definition resolveManualMove (req : ManualMoveRequest) : rd ManualMovePreview :=
  if blank (mm_TaskID req) then refuse (PolicyError "task id is required")
  else if blank (mm_TargetNodeID req) then refuse (PolicyError "target node id is required")
  else
    task ← read_task reads faulty (mm_TaskID req);
    currentNodes ← read_current_nodes protovalidate reads faulty (mm_TaskID req);
    if existsb (λ n : CurrentNode L, cnr_NodeID (cn_Reference n) ==? mm_TargetNodeID req) currentNodes
    then mret (PreviewNoOp currentNodes)
    else
      destination ← read_destination (mm_TaskID req) task (mm_TargetNodeID req);
      let def := w_Definition destination.2 in
      validation ← no_panic (ValidateDefinition Parse validateStaticContinuationSources def
        {| vo_Context := ValidationContextExecution; vo_RoleResolver := catalog; vo_ExecutionNodes := None |});
      if HasBlockingErrors validation then mret PreviewBlocked
      else
        target ← checked (currentNodeDefinitionNode def (mm_TargetNodeID req));
        if length currentNodes ==? 0%nat then mret PreviewBlocked
        else match Kind target with
        | NodeKindStart | NodeKindTerminal =>
          if (match mm_TransitionKey req with Some _ => true | None => false end) || negb (size (mm_Values req) ==? 0%nat)
          then refuse (PolicyError "direct manual move does not accept Transition or value fields")
          else mret PreviewDirect
        | NodeKindAgent | NodeKindScript => resolveManualMoveExecutablePreview def target currentNodes req
        | _ => mret PreviewBlocked
        end.

(** [mp_target] is absent for a move that is already done. *)
Record ManualMovePreparation := {
  mp_request : ManualMoveRequest; mp_target : option Node; mp_choice : option ManualMoveTransitionChoice;
  mp_currentNodes : list (CurrentNode L); mp_workflowVersion : Z }.

Definition trim_commentary (req : ManualMoveRequest) : ManualMoveRequest := {|
  mm_TaskID := mm_TaskID req; mm_TargetNodeID := mm_TargetNodeID req; mm_TransitionKey := mm_TransitionKey req;
  mm_Values := mm_Values req; mm_Commentary := TrimSpace (mm_Commentary req) |}.

Definition currentNodeDefinitionNodeFromTask (taskID : TaskID) (nodeID : NodeID) : rd Node :=
  task ← read_task reads faulty taskID;
  workflow ← read_workflow reads faulty (t_WorkflowID task);
  checked (currentNodeDefinitionNode (w_Definition workflow) nodeID).
Fixpoint taskCurrentNodesAreCompleted (taskID : TaskID) (nodes : list (CurrentNode L)) : rd bool :=
  match nodes with
  | [] => mret false
  | current :: rest =>
    node ← currentNodeDefinitionNodeFromTask taskID (cnr_NodeID (cn_Reference current));
    if Kind node ==? NodeKindTerminal then mret true else taskCurrentNodesAreCompleted taskID rest
  end.

Definition PrepareManualMove (req : ManualMoveRequest) : rd ManualMovePreparation :=
  let req := trim_commentary req in
  task ← read_task reads faulty (mm_TaskID req);
  record ← read_workflow reads faulty (t_WorkflowID task);
  preview ← resolveManualMove req;
  match preview with
  | PreviewNoOp currentNodes => mret {|
      mp_request := req; mp_target := None; mp_choice := None; mp_currentNodes := currentNodes;
      mp_workflowVersion := w_Version record |}
  | PreviewDirect =>
    destination ← read_destination (mm_TaskID req) task (mm_TargetNodeID req);
    target ← checked (currentNodeDefinitionNode (w_Definition destination.2) (mm_TargetNodeID req));
    mret {| mp_request := req; mp_target := Some target; mp_choice := None; mp_currentNodes := [];
            mp_workflowVersion := w_Version record |}
  | PreviewTransition [choice] =>
    target ← currentNodeDefinitionNodeFromTask (mm_TaskID req) (mm_TargetNodeID req);
    currentNodes ← read_current_nodes protovalidate reads faulty (mm_TaskID req);
    _ ← taskCurrentNodesAreCompleted (mm_TaskID req) currentNodes;
    mret {| mp_request := req; mp_target := Some target; mp_choice := Some choice; mp_currentNodes := currentNodes;
            mp_workflowVersion := w_Version record |}
  | PreviewTransition _ => refuse (PolicyError "manual move requires a Transition selection")
  | PreviewBlocked => refuse (PolicyError "manual move is blocked")
  end.

Definition manualMoveContextCurrentNode (nodes : list (CurrentNode L)) : option (CurrentNode L) :=
  match nodes with
  | [node] => if IsBranchScoped (cn_Reference node) then None else Some node
  | _ => None
  end.
(** The first value of each parameter, over the current nodes. *)
Definition manualMoveBasePriorValues (nodes : list (CurrentNode L)) : MaterializedPriorValues :=
  foldl (λ prior node, foldl (λ prior kv, foldl (λ prior kv',
      match TransitionParameter prior kv.1 kv'.1 with
      | Some _ => prior
      | None => SetTransitionParameter prior kv.1 kv'.1 kv'.2
      end) prior (range_map kv.2)) prior (range_map (TransitionParameters (cn_PriorValues node))))
    {| TransitionParameters := ∅ |} nodes.
Definition applyManualMoveCommentary (targets : list (CurrentNode L)) (commentary : string) : list (CurrentNode L) :=
  if commentary ==? "" then targets else set_input RuntimePromptParameterCommentary commentary <$> targets.

Fixpoint move_targets (def : WorkflowDefinition) (choice : ManualMoveTransitionChoice) (taskID : TaskID)
    (currentNodes : list (CurrentNode L)) (environment : manualMoveValueEnvironment)
    (submitted : gmap ModelKey (gmap string string)) (fanOut : bool) (edges : list Edge) : rd (list (CurrentNode L)) :=
  match edges with
  | [] => mret []
  | edge :: rest =>
    target ← checked (currentNodeDefinitionNode def (e_TargetNodeID edge));
    if fanOut && (TrimSpace (e_Key edge) ==? "") then refuse (PolicyError "manual move fan-out branch key is required")
    else
      materialized ← materialize_target {|
        rq_Definition := def; rq_Edge := edge; rq_Source := ch_SourceNode choice; rq_Target := target;
        rq_ResolveRetained := true; rq_ContextTaskID := taskID;
        rq_ContextCurrentSource := manualMoveContextCurrentNode currentNodes; rq_ManualMoveContext := true;
        rq_PriorValues := manualMoveBasePriorValues currentNodes;
        rq_Value := λ provider _ name, manualMoveSubmittedOrResolved provider name environment submitted;
        rq_TransitionBranchKey := if fanOut then Some (TrimSpace (e_Key edge)) else None |};
      targets ← move_targets def choice taskID currentNodes environment submitted fanOut rest;
      mret (materialized.1 :: targets)
  end.
Definition materializeManualMoveTargets (def : WorkflowDefinition) (choice : ManualMoveTransitionChoice)
    (currentNodes : list (CurrentNode L)) (environment : manualMoveValueEnvironment)
    (submitted : gmap ModelKey (gmap string string)) : rd (list (CurrentNode L)) :=
  if length (ch_Edges choice) ==? 0%nat then refuse (PolicyError ErrManualMoveTransitionNotUsable)
  else match currentNodes with
  | [] => refuse (PolicyError "panic")
  | first :: _ =>
    let taskID := cnr_TaskID (cn_Reference first) in
    targets ← move_targets def choice taskID currentNodes environment submitted (1 <? length (ch_Edges choice))%nat (ch_Edges choice);
    if (1 <? length targets)%nat then
      match validateFanoutTargets taskID targets with Some e => refuse (PolicyError e) | None => mret targets end
    else mret targets
  end.

(** A move that is already done has a plan without targets. *)
Definition PlanManualMove (prepared : ManualMovePreparation) (candidate : bool) : rd (@taskExecutionPlan L * option NodeID) :=
  if mm_TaskID (mp_request prepared) ==? "" then refuse (PolicyError "manual move preparation is invalid")
  else
    let taskID := mm_TaskID (mp_request prepared) in
    current ← PrepareManualMove (mp_request prepared);
    task ← read_task reads faulty taskID;
    workflow ← read_workflow reads faulty (t_WorkflowID task);
    if w_Version workflow <>? mp_workflowVersion current
    then refuse (PolicyError "workflow changed during Manual Move preparation")
    else
      let planned destination sources targets : taskExecutionPlan := {|
        pl_taskID := taskID; pl_task := task; pl_workflowVersion := w_Version workflow; pl_sources := sources; pl_targets := targets;
        pl_completion := None; pl_approval := None; pl_joinArrival := None; pl_joinBefore := []; pl_destination := destination |} in
      match mp_target current with
      | None =>
        sources ← read_current_nodes protovalidate reads faulty taskID;
        mret (planned None sources [], Some (mm_TargetNodeID (mp_request current)))
      | Some target =>
        found ← read_destination taskID task (mm_TargetNodeID (mp_request current));
        let destination := if found.1 <>? t_WorkflowID task then Some (found.1, w_Version found.2) else None in
        sources ← read_current_nodes protovalidate reads faulty taskID;
        if negb (executableNodeKind (Kind target)) then
          if candidate then refuse (PolicyError "non-executable Manual Move does not accept an execution target")
          else
            node ← checked (newNonExecutableCurrentNode protovalidate taskID (NodeIDOf target));
            mret (planned destination sources (applyManualMoveCommentary [node] (mm_Commentary (mp_request current))), None)
        else match mp_choice current with
        | None => refuse (PolicyError "manual move requires a Transition selection")
        | Some choice =>
          let def := w_Definition workflow in
          environment ← manualMoveValueEnvironment_ def taskID (mp_currentNodes current) (mm_TargetNodeID (mp_request current));
          _ ← match validateManualMoveValues choice (mm_Values (mp_request current)) environment with
            | Some e => refuse (PolicyError e) | None => mret tt end;
          targets ← materializeManualMoveTargets def choice (mp_currentNodes current) environment (mm_Values (mp_request current));
          plan ← plan_execution taskID task (w_Version workflow) (mp_currentNodes current)
            (applyManualMoveCommentary targets (mm_Commentary (mp_request current)));
          mret (plan, None)
        end
      end.
End actions.
