(* ===== verification/TaskCutoverFacts.v ===== *)
(** * What the statements of a move do

    Postconditions of the statements of TaskTables and of the transaction of
    TaskExecution, on the tables that hold a task's position. *)
From Stdlib Require Import ZArith String Lia.
From stdpp Require Import gmap strings list.
From S2P Require Import Prelude Transactions GoStrings Types Fanout Selection CurrentState TaskTables Materialization.
From S2P Require Import TaskPlanning TaskExecution.

Local Open Scope string_scope.

Lemma alter_lookup {K A} `{Countable K} (f : A → A) (m : gmap K A) k a : m !! k = Some a → alter f k m = <[k := f a]> m.
Proof.
  intros E. apply map_eq. intros k'. destruct (decide (k' = k)) as [-> |Hne].
  - by rewrite lookup_insert_eq, lookup_alter_eq, E.
  - by rewrite lookup_insert_ne, lookup_alter_ne.
Qed.

Section cutover.
Context {order : RangeOrder}.
Context {L : Type} (protovalidate : L → option error).
Context (faulty : nat → bool) (now : Z).
Implicit Types (s : @db L).
Abbreviation tx := (txn (@db L) error) (only parsing).

(** ** Tables that stay *)

(** The definitions and the set of tasks are the same. *)
Definition stays s s' : Prop := db_workflows s' = db_workflows s ∧ dom (db_tasks s') = dom (db_tasks s).
(** So are the positions. *)
Definition kept s s' : Prop := stays s s' ∧ db_current s' = db_current s ∧ db_fanouts s' = db_fanouts s.

#[export] Instance stays_preorder : PreOrder stays.
Proof. unfold stays. split; [done|]. intros a b c [-> ->]. done. Qed.
#[export] Instance kept_preorder : PreOrder kept.
Proof. unfold kept. split; [done|]. intros a b c (? & -> & ->) (? & -> & ->). split; [by etrans|done]. Qed.

Lemma post_execute {A} op (f : @db L → option (A * @db L)) s :
  post (execute faulty op f) s (λ a s', f s = Some (a, s')).
Proof. apply (post_attempt faulty op f). Qed.

End cutover.

(** ** Programs that respect a relation of the tables *)
Section respects.
Context {L : Type} (R : relation (@db L)) `{!PreOrder R}.
Abbreviation tx := (txn (@db L) error) (only parsing).

Definition respects {A} (m : tx A) : Prop := ∀ s, post m s (λ _ s', R s s').

Lemma respects_ret {A} (a : A) : respects (mret a).
Proof using Type*. intros s. by apply post_ret. Qed.
Lemma respects_fail {A} e : respects (fail e : tx A).
Proof using Type*. intros s. apply post_fail. Qed.
Lemma respects_lift {A} (r : result error A) : respects (lift r).
Proof using Type*. intros s. eapply post_mono; [apply post_lift|]. by intros a s' [_ ->]. Qed.
Lemma respects_select faulty {A} op (f : @db L → A) : respects (select faulty op f).
Proof using Type*. intros s. eapply post_mono; [apply post_select|]. by intros a s' [_ ->]. Qed.
Lemma respects_statements faulty ops : respects (statements faulty ops).
Proof using Type*. intros s. eapply post_mono; [apply post_statements|]. by intros a s' ->. Qed.
Lemma respects_bind {A B} (m : tx A) (f : A → tx B) : respects m → (∀ a, respects (f a)) → respects (m ≫= f).
Proof using Type*.
  intros Hm Hf s. eapply post_bind; [apply Hm|]. intros a s' H.
  eapply post_mono; [apply Hf|]. intros b s'' H'. by transitivity s'.
Qed.
Lemma respects_query faulty {A} op (f : @db L → A * @db L) : (∀ s, R s (f s).2) → respects (query faulty op f).
Proof using Type*. intros H s. eapply post_mono; [apply post_query|]. intros a s' E. specialize (H s). by rewrite <- E in H. Qed.
Lemma respects_execute faulty {A} op (f : @db L → option (A * @db L)) :
  (∀ s a s', f s = Some (a, s') → R s s') → respects (execute faulty op f).
Proof using Type*. intros H s. eapply post_mono; [apply (post_attempt faulty op f)|]. intros a s'. apply H. Qed.
(** Steps through a program that begins with such a part. *)
Lemma post_respects {A B} (m : tx A) (f : A → tx B) s Q : respects m → (∀ a s', R s s' → post (f a) s' Q) → post (m ≫= f) s Q.
Proof using Type*. intros Hm Hf. by eapply post_bind; [apply Hm|]. Qed.
End respects.

(** Programs that keep the positions. *)
Abbreviation keeping := (respects kept) (only parsing).
Create HintDb keeping.
#[export] Hint Resolve respects_ret respects_fail respects_lift respects_select respects_statements : keeping.
#[export] Hint Extern 1 (PreOrder _) => apply _ : keeping.


(** Proves that a program respects a relation, statement by statement. *)
Ltac keeping :=
  intros; repeat first
    [ progress eauto with keeping
    | apply respects_bind; [apply _| |intros]
    | progress cbv beta iota zeta
    | match goal with |- respects _ (match ?x with _ => _ end) => destruct x end ].

(** Steps over a guard that fails. *)
Ltac passes E :=
  match goal with |- post (if ?b then _ else _) _ _ => destruct b eqn:E end; [apply post_fail|]; bool_simp.

Section programs.
Context {order : RangeOrder}.
Context {L : Type} (protovalidate : L → option error).
Context (faulty : nat → bool) (now : Z).
Implicit Types (s : @db L).

Lemma kept_sessions s x y : kept s (set_sessions x y s).
Proof. done. Qed.
Lemma kept_approvals s x : kept s (set_approvals x s).
Proof. done. Qed.
Lemma kept_tasks s (x : gmap TaskID task_row) : dom x = dom (db_tasks s) → kept s (set_tasks x s).
Proof. done. Qed.
Hint Resolve kept_sessions kept_approvals : keeping.

Lemma keeping_bindSessionToTask session r : respects (kept (L := L)) (bindSessionToTask faulty session r).
Proof.
  unfold bindSessionToTask, BindSessionToTask. apply respects_bind; [apply _| |keeping].
  apply respects_query; [apply _|]. intros s. repeat case_match; eauto with keeping; done.
Qed.
Lemma keeping_upsert session r at_ : respects (kept (L := L)) (upsertTaskSessionAssociation faulty session r at_).
Proof.
  apply respects_execute; [apply _|]. intros s a s' H.
  destruct (db_sessions s !! session) as [row|]; simpl in H; [|done].
  destruct (s_TaskID row) as [owner|]; simpl in H; [|done].
  destruct (db_tasks s !! owner); simpl in H; [|done].
  destruct (node_row s (cnr_NodeID r)); simpl in H; [|done]. case_match; by simplify_eq.
Qed.
Lemma keeping_GetTask id : respects (kept (L := L)) (GetTask faulty id).
Proof. unfold GetTask. keeping. Qed.
Lemma keeping_GetWorkflow id : respects (kept (L := L)) (GetWorkflow faulty id).
Proof. unfold GetWorkflow. keeping. Qed.
Lemma keeping_insert_approval id row : respects (kept (L := L)) (InsertTaskPendingApproval faulty id row).
Proof.
  apply respects_execute; [apply _|]. intros s a s' H. destruct (db_current s !! _); simpl in H; [|done]. case_match; by simplify_eq.
Qed.
Lemma keeping_insert_branch id key row : respects (kept (L := L)) (InsertTaskPendingApprovalBranch faulty id key row).
Proof.
  apply respects_execute; [apply _|]. intros s a s' H. destruct (db_approvals s !! _); simpl in H; [|done]. case_match; by simplify_eq.
Qed.
Lemma keeping_delete_approval id : respects (kept (L := L)) (DeleteTaskPendingApproval faulty id).
Proof. apply respects_query; [apply _|done]. Qed.
Lemma keeping_delete_approvals task : respects (kept (L := L)) (DeleteTaskPendingApprovalsByTask faulty task).
Proof. apply respects_query; [apply _|done]. Qed.
Lemma keeping_insert_session snapshot : respects (kept (L := L)) (InsertPreparedSession faulty snapshot).
Proof. apply respects_execute; [apply _|]. intros s a s' H. case_match; by simplify_eq. Qed.
Lemma keeping_move task id : respects (kept (L := L)) (MoveTaskToWorkflow faulty task id).
Proof. apply respects_query; [apply _|]. intros s. apply kept_tasks. simpl. by rewrite dom_alter_L. Qed.
Lemma keeping_one_row n : respects (kept (L := L)) (one_row n).
Proof. unfold one_row. keeping. Qed.
Hint Resolve keeping_one_row : keeping.
Lemma keeping_touch task : respects (kept (L := L)) (touchTask faulty now task).
Proof.
  apply respects_bind; [apply _| |keeping]. apply respects_query; [apply _|]. intros s. apply kept_tasks. simpl. by rewrite dom_alter_L.
Qed.
End programs.
#[export] Hint Resolve keeping_bindSessionToTask keeping_upsert keeping_GetTask keeping_GetWorkflow keeping_insert_approval
  keeping_insert_branch keeping_delete_approval keeping_delete_approvals keeping_insert_session keeping_move
  keeping_one_row keeping_touch : keeping.

(** ** Statements that change a position *)
Section positions.
Context {order : RangeOrder}.
Context {L : Type} (protovalidate : L → option error).
Context (faulty : nat → bool) (now : Z).
Implicit Types (s : @db L) (node : CurrentNode L).

Abbreviation spot node := (place_of (cn_Reference node)).
Abbreviation node_id node := (cnr_NodeID (cn_Reference node)).

(** The row a current node is stored as. *)
Definition stored s node : CurrentNodeRow := insert_params (from_option Kind NodeKindStart (node_row s (node_id node))) node.
Definition insert_all s (nodes : list (CurrentNode L)) (m : gmap place CurrentNodeRow) : gmap place CurrentNodeRow :=
  foldl (λ m node, <[spot node := stored s node]> m) m nodes.
Definition delete_all (nodes : list (CurrentNode L)) (m : gmap place (@CurrentNodeRow L)) : gmap place CurrentNodeRow :=
  foldl (λ m node, delete (spot node) m) m nodes.

Lemma node_row_stays s s' id : db_workflows s' = db_workflows s → node_row s' id = node_row s id.
Proof. unfold node_row. by intros ->. Qed.
Lemma stored_stays s s' node : stays s s' → stored s' node = stored s node.
Proof. intros [H _]. unfold stored. by rewrite (node_row_stays s s'). Qed.
Lemma insert_all_stays s s' nodes m : stays s s' → insert_all s' nodes m = insert_all s nodes m.
Proof.
  intros H. unfold insert_all. revert m. induction nodes as [|node nodes IH]; intros m; simpl; [done|].
  by rewrite (stored_stays s s') by done.
Qed.

(** The node exists, and its place is on the task's fan-out among [fanouts],
    or there is none. *)
Definition fits s (fanouts : gmap TaskID (gmap TransitionBranchKey (option (gmap string string)))) node : Prop :=
  is_Some (node_row s (node_id node)) ∧
  match (spot node).2 with
  | None => fanouts !! (spot node).1 = None
  | Some key => is_Some (fanouts !! (spot node).1 ≫= lookup key)
  end.
Lemma fits_stays s s' fanouts node : stays s s' → fits s' fanouts node → fits s fanouts node.
Proof. intros [H _]. unfold fits. by rewrite (node_row_stays s s'). Qed.

Lemma post_insert_row at_ row s :
  post (InsertTaskCurrentNode faulty at_ row) s (λ _ s',
    stays s s' ∧ db_current s' = <[at_ := row]> (db_current s) ∧ db_fanouts s' = db_fanouts s ∧
    db_current s !! at_ = None ∧ is_Some (node_row s (row_NodeID row)) ∧
    match at_.2 with None => db_fanouts s !! at_.1 = None | Some key => is_Some (db_fanouts s !! at_.1 ≫= lookup key) end).
Proof.
  eapply post_mono; [apply post_execute|]. intros [] s' H.
  destruct (db_tasks s !! at_.1); simpl in H; [|done].
  destruct (node_row s (row_NodeID row)) eqn:En; simpl in H; [|done].
  case_match eqn:Ec; [|done]. simplify_eq. bool_simp. simpl.
  repeat split; try done. by destruct at_.2; bool_simp.
Qed.

Lemma post_insert_node node at_ s :
  post (insertTaskCurrentNode faulty node at_) s (λ _ s',
    stays s s' ∧ db_current s' = <[spot node := stored s node]> (db_current s) ∧ db_fanouts s' = db_fanouts s ∧
    db_current s !! spot node = None ∧ fits s (db_fanouts s) node).
Proof.
  eapply post_bind; [eapply post_bind; [apply post_select|]|].
  { intros [n|] s' [E ->]; [|apply post_fail]. apply post_ret with (Q := λ n s', node_row s (node_id node) = Some n ∧ s' = s). done. }
  intros n s' [En ->]. unfold insertTaskCurrentNodeWithKind.
  assert (stored s node = insert_params (Kind n) node) as <- by (unfold stored; by rewrite En).
  destruct (Kind n), (cn_AgentExecutionSelection node); try apply post_fail.
  all: case_match; try apply post_fail.
  all: eapply post_bind; [apply post_insert_row|]; intros [] s' HI;
    eapply post_mono with (P := λ _ s'', kept s' s'');
    [generalize s'; destruct (cn_SessionID node); change (∀ s, post ?m s (λ _ s', kept s s')) with (keeping m); keeping|].
  all: intros [] s'' (Hst & Hc & Hf); destruct HI as (? & H1 & H2 & ? & ? & ?); rewrite Hc, Hf, H1, H2;
    split_and!; try done; by transitivity s'.
Qed.

(** *** Several nodes *)
Definition branches_of (nodes : list (CurrentNode L)) (m : gmap TransitionBranchKey (option (gmap string string)))
    : gmap TransitionBranchKey (option (gmap string string)) :=
  foldl (λ m node, <[(TransitionBranchKey_of (cn_Reference node)).1 := None]> m) m nodes.

Lemma post_insert_targets targets s :
  post (insert_targets faulty now targets) s (λ _ s',
    stays s s' ∧ db_current s' = insert_all s targets (db_current s) ∧ db_fanouts s' = db_fanouts s ∧ Forall (fits s (db_fanouts s)) targets).
Proof.
  revert s. induction targets as [|target targets IH]; intros s; simpl; [by apply post_ret|].
  eapply post_bind; [apply post_insert_node|]. intros [] s1 (Hs & Hc & Hf & _ & Hfit).
  eapply post_mono; [apply IH|]. intros [] s2 (Hs' & Hc' & Hf' & Hfits).
  split_and!.
  - by transitivity s1.
  - by rewrite Hc', (insert_all_stays s s1), Hc by done.
  - by rewrite Hf', Hf.
  - constructor; [done|]. eapply Forall_impl; [done|]. intros node. rewrite Hf. by apply fits_stays.
Qed.

Lemma post_insert_branch task key s :
  post (S := @db L) (InsertTaskActiveFanoutBranch faulty task key) s (λ _ s',
    stays s s' ∧ db_current s' = db_current s ∧
    ∃ branches, db_fanouts s !! task = Some branches ∧ db_fanouts s' = <[task := <[key := None]> branches]> (db_fanouts s)).
Proof.
  eapply post_mono; [apply post_execute|]. intros [] s' H.
  destruct (db_fanouts s !! task) as [branches|] eqn:Eb; simpl in H; [|done]. case_match; [|done]. simplify_eq. simpl.
  split_and!; [done|done|]. by exists branches.
Qed.

Lemma post_insert_fanout_targets task targets branches s :
  db_fanouts s !! task = Some branches →
  post (insert_fanout_targets faulty task targets now) s (λ _ s',
    stays s s' ∧ db_current s' = insert_all s targets (db_current s) ∧
    db_fanouts s' = <[task := branches_of targets branches]> (db_fanouts s) ∧
    Forall (λ node, is_Some (node_row s (node_id node))) targets).
Proof.
  revert s branches. induction targets as [|target targets IH]; intros s branches Hb; simpl.
  { apply post_ret. split_and!; try done. by rewrite insert_id. }
  eapply post_bind; [apply post_insert_branch|]. intros [] s1 (Hs1 & Hc1 & b & Eb & Hf1). simplify_eq.
  eapply post_bind; [apply post_insert_node|]. intros [] s2 (Hs2 & Hc2 & Hf2 & _ & [Hn _]).
  assert (stays s s2) as Hs by (by transitivity s1).
  eapply post_mono; [apply IH; rewrite Hf2, Hf1; apply lookup_insert_eq|].
  intros [] s3 (Hs3 & Hc3 & Hf3 & Hnodes). split_and!.
  - by transitivity s2.
  - by rewrite Hc3, (insert_all_stays s s2), Hc2, Hc1, (stored_stays s s1) by done.
  - by rewrite Hf3, Hf2, Hf1, insert_insert_eq.
  - constructor; [by rewrite <- (node_row_stays s s1) by apply Hs1|].
    eapply Forall_impl; [done|]. intros node. simpl. by rewrite (node_row_stays s s2) by apply Hs.
Qed.

Lemma post_fanout_targets task targets s :
  post (insertTaskFanoutTargets faulty task targets now) s (λ _ s',
    stays s s' ∧ db_current s' = insert_all s targets (db_current s) ∧
    db_fanouts s' = <[task := branches_of targets ∅]> (db_fanouts s) ∧
    db_fanouts s !! task = None ∧ db_current s !! (task, None) = None ∧ validateFanoutTargets task targets = None ∧
    Forall (λ node, is_Some (node_row s (node_id node))) targets).
Proof.
  unfold insertTaskFanoutTargets. destruct (validateFanoutTargets task targets) eqn:Ev; [apply post_fail|].
  eapply post_bind; [apply post_execute|]. intros [] s1 H.
  destruct (db_tasks s !! task); simpl in H; [|done]. case_match; [|done]. bool_simp. simplify_eq.
  eapply post_mono; [apply (post_insert_fanout_targets task targets ∅); apply lookup_insert_eq|].
  simpl. intros [] s2 (Hs & Hc & Hf & Hn). split_and!; try done. by rewrite Hf, insert_insert_eq.
Qed.

Lemma post_delete_sources sources s :
  post (delete_sources faulty sources) s (λ removed s',
    stays s s' ∧ removed = cn_Reference <$> sources ∧ db_current s' = delete_all sources (db_current s) ∧
    db_fanouts s' = db_fanouts s ∧ NoDup ((λ node, spot node) <$> sources) ∧
    Forall (λ node, is_Some (db_current s !! spot node)) sources).
Proof.
  revert s. induction sources as [|source sources IH]; intros s; simpl; [by apply post_ret; repeat constructor|].
  eapply post_bind with (P := λ n s', stays s s' ∧ db_fanouts s' = db_fanouts s ∧
    (n = 1%nat → is_Some (db_current s !! spot source) ∧ db_current s' = delete (spot source) (db_current s))).
  { unfold deleteTaskCurrentNode. case_match; [apply post_fail|]. eapply post_mono; [apply post_execute|].
    intros n s' H'. cbn beta in H'. destruct (db_current s !! spot source) eqn:E; [|by simplify_eq].
    repeat case_match; simplify_eq; split_and!; try done. }
  intros n s1 (Hs & Hf & H1). case_match eqn:En; [apply post_fail|]. bool_simp. destruct (H1 En) as [Hin Hc].
  eapply post_bind; [apply IH|]. intros removed s2 (Hs2 & -> & Hc2 & Hf2 & Hnd & Hall).
  apply post_ret. rewrite Hc in Hall. split_and!.
  - by transitivity s1.
  - done.
  - by rewrite Hc2, Hc.
  - by rewrite Hf2.
  - constructor; [|done]. intros (node & E & Hn)%list_elem_of_fmap. rewrite Forall_forall in Hall.
    destruct (Hall node Hn) as [? H]. by rewrite E, lookup_delete_eq in H.
  - constructor; [done|]. eapply Forall_impl; [done|]. intros node [row [_ H]%lookup_delete_Some]. by exists row.
Qed.

Lemma post_delete_fanout task s :
  post (S := @db L) (DeleteTaskActiveFanout faulty task) s (λ _ s',
    stays s s' ∧ db_current s' = db_current s ∧ db_fanouts s' = delete task (db_fanouts s) ∧
    ∀ branches key, db_fanouts s !! task = Some branches → is_Some (branches !! key) → db_current s !! (task, Some key) = None).
Proof.
  eapply post_mono; [apply post_execute|]. intros n s' H. cbn beta in H.
  destruct (db_fanouts s !! task) as [branches|] eqn:Eb; [|simplify_eq; split_and!; try done; by rewrite delete_id].
  case_match eqn:Ex; [done|]. simplify_eq. split_and!; [done|done|done|]. intros b key [= <-] Hkey.
  apply eq_None_not_Some. intros Hin. apply not_true_iff_false in Ex. apply Ex, existsb_exists. exists key.
  split; [|by apply bool_decide_eq_true]. by apply list_elem_of_In, elem_of_elements, elem_of_dom.
Qed.

Lemma post_arrival task key values s :
  post (S := @db L) (UpdateTaskActiveFanoutBranchArrival faulty task key values) s (λ n s',
    stays s s' ∧ db_current s' = db_current s ∧
    (n = 1%nat → ∃ branches, db_fanouts s !! task = Some branches ∧ branches !! key = Some None ∧
      db_fanouts s' = <[task := <[key := Some values]> branches]> (db_fanouts s))).
Proof.
  eapply post_mono; [apply post_query|]. intros n s' H. cbn beta in H.
  destruct (db_fanouts s !! task) as [branches|] eqn:Eb; [|by simplify_eq].
  case_match; simplify_eq; bool_simp; split_and!; try done. intros _. by exists branches.
Qed.

(** ** The sessions of the targets *)
Definition assigned node node' : Prop :=
  match cn_AgentExecutionSelection node with
  | None => node' = node
  | Some _ => ∃ id source, NewExactMaterializedContinuationSource id = Ok source ∧ node' = set_session (Some id) source node
  end.
Lemma assigned_reference node node' : assigned node node' → cn_Reference node' = cn_Reference node.
Proof. unfold assigned. case_match; [by intros (? & ? & _ & ->)|by intros ->]. Qed.

Lemma post_assign_session action node assignment s :
  post (assign_session faulty action node assignment) s (λ node' s',
    kept s s' ∧ ∃ source, NewExactMaterializedContinuationSource (ps_SessionID assignment) = Ok source ∧
      node' = set_session (Some (ps_SessionID assignment)) source node).
Proof.
  unfold assign_session. eapply post_bind with (P := λ _ s', kept s s').
  { revert s. change (∀ s, post ?m s (λ _ s', kept s s')) with (keeping m). keeping. }
  intros [] s' Hk. eapply post_bind; [apply post_lift|]. intros source s'' [E ->]. apply post_ret. eauto.
Qed.
Lemma post_assign_sessions action nodes assignments s :
  post (assign_sessions faulty action nodes assignments) s (λ nodes' s', kept s s' ∧ Forall2 assigned nodes nodes').
Proof.
  revert assignments s. induction nodes as [|node nodes IH]; intros assignments s; simpl.
  { case_match; [by apply post_ret; repeat constructor|apply post_fail]. }
  destruct (cn_AgentExecutionSelection node) as [selection|] eqn:Es.
  - eapply post_bind; [apply post_lift|]. intros key s' [_ ->].
    destruct (find _ assignments) as [[key' assignment]|]; [|apply post_fail].
    eapply post_bind; [apply post_assign_session|]. intros node' s1 (Hk & source & Hs & ->).
    eapply post_bind; [apply IH|]. intros nodes' s2 [Hk2 Hall]. apply post_ret.
    split; [by transitivity s1|]. constructor; [|done]. unfold assigned. rewrite Es. eauto.
  - eapply post_bind; [apply IH|]. intros nodes' s2 [Hk2 Hall]. apply post_ret.
    split; [done|]. constructor; [|done]. unfold assigned. by rewrite Es.
Qed.
Lemma post_prepare_sessions plan sessions action s :
  post (preparePlannedCurrentNodeSessions faulty plan sessions action) s
    (λ nodes' s', kept s s' ∧ Forall2 assigned (pl_targets plan) nodes').
Proof. eapply post_bind; [apply post_lift|]. intros a s' [_ ->]. apply post_assign_sessions. Qed.
End positions.

(** ** The whole move *)
Section moves.
Context {order : RangeOrder}.
Context {L : Type} (protovalidate : L → option error).
Context (faulty : nat → bool) (now : Z).
Implicit Types (s : @db L) (node : CurrentNode L) (plan : @taskExecutionPlan L) (action : taskExecutionAction).
Abbreviation spot node := (place_of (cn_Reference node)).

(** The source is still there as the preparation saw it, and may still be
    acted on. *)
Definition source_stands action s (current : list (CurrentNode L)) node : Prop :=
  ∃ actual, find_reference current (cn_Reference node) = Some actual ∧
    sameCurrentNodeMaterialization node actual = true ∧
    match action with
    | taskExecutionStart => cn_Scheduling actual = None
    | taskExecutionResume => interrupted_state actual = true ∧ HasTaskPendingApprovalForCurrentNode s (cn_Reference actual) = false
    | taskExecutionComplete => HasTaskPendingApprovalForCurrentNode s (cn_Reference actual) = false
    | _ => True
    end.

(** What the preparation relied on still holds. *)
Record validated plan action s : Prop := {
  v_task : ∃ task workflow, db_tasks s !! pl_taskID plan = Some task ∧
    t_WorkflowID task = t_WorkflowID (pl_task plan) ∧ t_ProjectID task = t_ProjectID (pl_task plan) ∧
    db_workflows s !! t_WorkflowID task = Some workflow ∧ w_Version workflow = pl_workflowVersion plan;
  v_sources : ∃ current, decode_current_nodes protovalidate (ListTaskCurrentNodes s (pl_taskID plan)) = Ok current ∧
    Forall (source_stands action s current) (pl_sources plan) ∧
    (action = taskExecutionStart ∨ action = taskExecutionMove → length current = length (pl_sources plan));
  v_arrivals : pl_joinArrival plan ≠ None → ListTaskActiveFanoutBranches s (pl_taskID plan) = pl_joinBefore plan }.

Lemma post_GetTask id s : post (GetTask faulty id) s (λ row s', db_tasks s !! id = Some row ∧ s' = s).
Proof.
  eapply post_bind; [apply post_select|]. intros [row|] s' [E ->]; [by apply post_ret|apply post_fail].
Qed.
Lemma post_GetWorkflow id s : post (GetWorkflow faulty id) s (λ row s', db_workflows s !! id = Some row ∧ s' = s).
Proof.
  eapply post_bind; [apply post_select|]. intros [row|] s' [E ->]; [by apply post_ret|apply post_fail].
Qed.
Lemma post_refuse_pending node message s :
  post (refuse_pending faulty node message) s
    (λ _ s', HasTaskPendingApprovalForCurrentNode s (cn_Reference node) = false ∧ s' = s).
Proof.
  unfold refuse_pending, currentNodePendingApprovalID. case_match; [apply post_fail|].
  eapply post_bind; [apply post_select|]. intros b s' [E ->]. destruct b; [apply post_fail|by apply post_ret].
Qed.
Lemma post_listTaskCurrentNodes task s :
  post (listTaskCurrentNodes protovalidate faulty task) s
    (λ current s', decode_current_nodes protovalidate (ListTaskCurrentNodes s task) = Ok current ∧ s' = s).
Proof. eapply post_bind; [apply post_select|]. intros rows s' [-> ->]. apply post_lift. Qed.

Lemma post_validate_sources action current sources s :
  post (validate_sources faulty action current sources) s (λ _ s', Forall (source_stands action s current) sources ∧ s' = s).
Proof.
  induction sources as [|expected sources IH]; simpl; [by apply post_ret|].
  destruct (find_reference current (cn_Reference expected)) as [actual|] eqn:Ef; [|apply post_fail].
  passes Esame. passes Estart.
  passes Eres.
  eapply post_bind with (P := λ _ s', source_stands action s current expected ∧ s' = s).
  - unfold source_stands. destruct action.
    1, 3, 5: apply post_ret; split; [|done]; exists actual; split_and!; try done.
    + simpl in Estart. by destruct (cn_Scheduling actual).
    + eapply post_mono; [apply post_refuse_pending|]. intros [] s' [Hp ->]. split; [|done].
      exists actual. split_and!; try done. simpl in Eres. by apply negb_false_iff in Eres.
    + eapply post_mono; [apply post_refuse_pending|]. intros [] s' [Hp ->]. eauto 10.
  - intros [] s' [Hs ->]. eapply post_mono; [apply IH|]. intros [] s' [Hall ->]. by repeat constructor.
Qed.

Lemma post_validate plan action s :
  post (validateTaskExecutionPlan protovalidate faulty plan action) s (λ task s', validated plan action s ∧ s' = s).
Proof.
  unfold validateTaskExecutionPlan. eapply post_bind; [apply post_GetTask|]. intros task s' [Et ->].
  passes E1.
  eapply post_bind; [apply post_GetWorkflow|]. intros workflow s' [Ew ->].
  passes E2.
  eapply post_bind; [apply post_listTaskCurrentNodes|]. intros current s' [Ec ->].
  eapply post_bind with (P := λ _ s', s' = s).
  { repeat case_match; try apply post_fail; by apply post_ret. }
  intros _ s' ->. passes E3.
  eapply post_bind; [apply post_validate_sources|]. intros [] s' [Hall ->].
  eapply post_bind; [apply post_statements|]. intros [] s' ->.
  assert (action = taskExecutionStart ∨ action = taskExecutionMove → length current = length (pl_sources plan)) as Hlen.
  { intros Ha. destruct (decide (length current = length (pl_sources plan))) as [|Hn]; [done|exfalso].
    rewrite bool_decide_eq_false_2 with (P := length current = length (pl_sources plan)) in E3 by done.
    by destruct Ha as [-> | ->]. }
  assert (∃ task workflow, db_tasks s !! pl_taskID plan = Some task ∧
    t_WorkflowID task = t_WorkflowID (pl_task plan) ∧ t_ProjectID task = t_ProjectID (pl_task plan) ∧
    db_workflows s !! t_WorkflowID task = Some workflow ∧ w_Version workflow = pl_workflowVersion plan) as Htask.
  { exists task, workflow. by split_and!. }
  destruct (pl_joinArrival plan) eqn:Ej.
  - eapply post_bind; [apply post_select|]. intros rows s' [-> ->]. passes E4.
    apply post_ret. split; [|done]. split; eauto.
  - apply post_ret. split; [|done]. split; eauto; done.
Qed.

(** *** The position after a move *)
Abbreviation fanout_rows := (gmap TaskID (gmap TransitionBranchKey (option (gmap string string)))) (only parsing).
(** A new approval keeps the sources. *)
Definition removed_nodes plan : list (CurrentNode L) :=
  match new_approval plan with Some _ => [] | None => pl_sources plan end.
(** The active fan-outs once the branch has arrived, and once those that end
    are gone. *)
Definition arrived plan (fanouts : fanout_rows) : fanout_rows :=
  match pl_joinArrival plan with
  | Some (key, values) => alter <[key := Some values]> (pl_taskID plan) fanouts
  | None => fanouts
  end.
Definition closes plan action (targets : list (CurrentNode L)) : bool :=
  (action ==? taskExecutionMove) ||
  (match pl_joinArrival plan with Some _ => true | None => false end && (length targets <>? 0%nat)).
Definition at_entry plan action targets (fanouts : fanout_rows) : fanout_rows :=
  if closes plan action targets then delete (pl_taskID plan) (arrived plan fanouts) else arrived plan fanouts.
Definition fans_out action (targets : list (CurrentNode L)) : bool :=
  (1 <? length targets)%nat && (action <>? taskExecutionResume).

Record committed plan action s (removed : list CurrentNodeReference) (targets : list (CurrentNode L)) (s' : @db L) : Prop := {
  c_validated : validated plan action s;
  c_stays : stays s s';
  c_targets : ∃ nodes, Forall2 assigned (pl_targets plan) nodes ∧
    targets = if action ==? taskExecutionComplete then nodes else set_admitted <$> nodes;
  c_removed : removed = cn_Reference <$> removed_nodes plan;
  c_distinct : NoDup ((λ node, spot node) <$> removed_nodes plan);
  c_present : Forall (λ node, is_Some (db_current s !! spot node)) (removed_nodes plan);
  c_arrival : ∀ key values, pl_joinArrival plan = Some (key, values) →
    ∃ branches, db_fanouts s !! pl_taskID plan = Some branches ∧ branches !! key = Some None;
  c_current : db_current s' = insert_all s targets (delete_all (removed_nodes plan) (db_current s));
  c_fanouts : db_fanouts s' =
    (if fans_out action targets then <[pl_taskID plan := branches_of targets ∅]> (at_entry plan action targets (db_fanouts s))
     else at_entry plan action targets (db_fanouts s));
  c_left : closes plan action targets = true → ∀ branches key,
    arrived plan (db_fanouts s) !! pl_taskID plan = Some branches → is_Some (branches !! key) →
    delete_all (removed_nodes plan) (db_current s) !! (pl_taskID plan, Some key) = None;
  c_entry : if fans_out action targets
    then at_entry plan action targets (db_fanouts s) !! pl_taskID plan = None ∧
      delete_all (removed_nodes plan) (db_current s) !! (pl_taskID plan, None) = None ∧
      validateFanoutTargets (pl_taskID plan) targets = None
    else Forall (fits s (at_entry plan action targets (db_fanouts s))) targets }.

Lemma keeping_check_destination plan task : keeping (check_destination faulty plan task).
Proof. unfold check_destination. keeping. Qed.
Lemma keeping_insert_pending approval : keeping (insertPendingApproval (L := L) faulty approval).
Proof.
  unfold insertPendingApproval. keeping. generalize (pa_Branches approval) as branches.
  induction branches as [|branch branches IH]; simpl; keeping.
Qed.

Lemma post_arrive plan s :
  post (match pl_joinArrival plan with
    | None => mret tt
    | Some (key, values) =>
      updated ← UpdateTaskActiveFanoutBranchArrival faulty (pl_taskID plan) key values;
      if updated <>? 1%nat then fail (PolicyError "join arrival is no longer pending") else mret tt
    end) s (λ _ s', stays s s' ∧ db_current s' = db_current s ∧ db_fanouts s' = arrived plan (db_fanouts s) ∧
      ∀ key values, pl_joinArrival plan = Some (key, values) →
        ∃ branches, db_fanouts s !! pl_taskID plan = Some branches ∧ branches !! key = Some None).
Proof.
  unfold arrived. destruct (pl_joinArrival plan) as [[key values]|]; [|by apply post_ret].
  eapply post_bind; [apply post_arrival|]. intros n s' (Hs & Hc & Hn). passes E.
  destruct (Hn E) as (branches & Eb & Ek & Hf). apply post_ret. split_and!; [done|done| |].
  - rewrite Hf. symmetry. by apply alter_lookup.
  - intros key' values' [= <- <-]. eauto.
Qed.

Lemma post_leave plan s :
  post (match new_approval plan with Some _ => mret [] | None => delete_sources faulty (pl_sources plan) end) s
    (λ removed s', stays s s' ∧ removed = cn_Reference <$> removed_nodes plan ∧
      db_current s' = delete_all (removed_nodes plan) (db_current s) ∧ db_fanouts s' = db_fanouts s ∧
      NoDup ((λ node, spot node) <$> removed_nodes plan) ∧
      Forall (λ node, is_Some (db_current s !! spot node)) (removed_nodes plan)).
Proof.
  unfold removed_nodes. destruct (new_approval plan); [by apply post_ret; repeat constructor|apply post_delete_sources].
Qed.

Lemma post_close (b : bool) (task : TaskID) s :
  post (if b then _ ← DeleteTaskActiveFanout faulty task; mret tt else mret tt) s (λ _ s',
    stays s s' ∧ db_current s' = db_current s ∧
    db_fanouts s' = (if b then delete task (db_fanouts s) else db_fanouts s) ∧
    (b = true → ∀ branches key, db_fanouts s !! task = Some branches → is_Some (branches !! key) →
      db_current s !! (task, Some key) = None)).
Proof.
  destruct b; [|by apply post_ret]. eapply post_bind; [apply post_delete_fanout|].
  intros n s' (? & ? & ? & ?). apply post_ret. by split_and!.
Qed.

Lemma post_enter action task targets s :
  post (if fans_out action targets then insertTaskFanoutTargets faulty task targets now else insert_targets faulty now targets) s
    (λ _ s', stays s s' ∧ db_current s' = insert_all s targets (db_current s) ∧
      db_fanouts s' = (if fans_out action targets then <[task := branches_of targets ∅]> (db_fanouts s) else db_fanouts s) ∧
      if fans_out action targets
      then db_fanouts s !! task = None ∧ db_current s !! (task, None) = None ∧ validateFanoutTargets task targets = None
      else Forall (fits s (db_fanouts s)) targets).
Proof.
  destruct (fans_out action targets).
  - eapply post_mono; [apply post_fanout_targets|]. intros [] s' (? & ? & ? & ? & ? & ? & ?). by split_and!.
  - apply post_insert_targets.
Qed.

Lemma set_admitted_length (b : bool) (nodes : list (CurrentNode L)) :
  length (if b then nodes else set_admitted <$> nodes) = length nodes.
Proof. destruct b; [done|apply length_fmap]. Qed.

(** A move that commits has done exactly this. *)
Lemma cutover_spec plan sessions action s :
  post (cutover protovalidate faulty now plan sessions action) s
    (λ '(removed, targets) s', committed plan action s removed targets s').
Proof.
  unfold cutover. eapply post_bind; [apply post_select|]. intros locked s0 [_ ->]. passes El.
  eapply post_bind; [apply post_validate|]. intros task s0 [Hv ->].
  apply (post_respects kept); [apply keeping_check_destination|]. intros [] s1 H1.
  apply (post_respects kept); [keeping|]. intros [] s2 H2.
  eapply post_bind; [apply post_prepare_sessions|]. intros nodes s3 [H3 Hnodes].
  apply (post_respects kept); [keeping|]. intros [] s4 H4.
  assert (kept s s4) as (Hs4 & Hc4 & Hf4) by (transitivity s3; [transitivity s2; [by transitivity s1|done]|done]).
  clear H1 H2 H3 H4 s1 s2 s3.
  eapply post_bind; [apply post_arrive|]. rewrite Hf4, Hc4. intros [] s5 (Hs5 & Hc5 & Hf5 & Harr).
  apply (post_respects kept); [destruct (new_approval plan); [apply keeping_insert_pending|keeping]|]. intros [] s6 (Hs6 & Hc6 & Hf6).
  apply (post_respects kept); [keeping|]. intros [] s7 (Hs7 & Hc7 & Hf7).
  apply (post_respects kept); [keeping|]. intros [] s8 (Hs8 & Hc8 & Hf8).
  eapply post_bind; [apply post_leave|]. rewrite Hc8, Hc7, Hc6, Hc5, Hf8, Hf7, Hf6, Hf5.
  intros removed s9 (Hs9 & -> & Hc9 & Hf9 & Hnd & Hpresent).
  eapply post_bind; [apply post_close|]. rewrite Hc9, Hf9. intros [] s10 (Hs10 & Hc10 & Hf10 & Hleft).
  apply (post_respects kept); [keeping|]. intros [] s11 (Hs11 & Hc11 & Hf11).
  set (targets := if action ==? taskExecutionComplete then nodes else set_admitted <$> nodes).
  assert (length nodes = length targets) as Hlen by (unfold targets; by rewrite set_admitted_length).
  rewrite Hlen in Hf10, Hleft. change (_ || _) with (closes plan action targets) in Hf10, Hleft.
  eapply post_bind; [apply (post_enter action)|]. rewrite Hc11, Hc10, Hf11, Hf10. intros [] s12 (Hs12 & Hc12 & Hf12 & Hentry).
  apply (post_respects kept); [keeping|]. intros [] s13 (Hs13 & Hc13 & Hf13). apply post_ret.
  assert (stays s s11) as Hs11'.
  { by transitivity s4; [|transitivity s5; [|transitivity s6; [|transitivity s7; [|transitivity s8; [|transitivity s9; [|transitivity s10]]]]]]. }
  split; try done.
  - transitivity s11; [done|]. by transitivity s12.
  - eauto.
  - by rewrite Hc13, Hc12, (insert_all_stays s s11).
  - by rewrite Hf13, Hf12.
  - unfold at_entry. destruct (fans_out action targets); [done|].
    eapply Forall_impl; [done|]. intros node. by apply fits_stays.
Qed.

(** A move either commits or leaves the tables alone. *)
Lemma commit_spec plan sessions action s :
  match commitTaskExecution protovalidate faulty now plan sessions action s with
  | (Ok (removed, targets), s') =>
    committed plan action s removed targets s' ∧ (pl_targets plan = [] → pl_completion plan ≠ None)
  | (Err _, s') => s' = s
  end.
Proof.
  unfold commitTaskExecution. case_if_goal; [done|]. bool_simp. transaction (λ _ : store_error error, True).
  eapply runs_mono; [apply cutover_spec|]. intros [removed targets] s' Hc. split; [done|].
  intros Ht Hn. by rewrite Ht, Hn in *.
Qed.
End moves.
