(* ===== verification/TaskCutoverSpec.v ===== *)
(** * The effect of a move on the other tables

    TaskCutoverFacts says where a committed move leaves the current nodes and
    the fan-out of its task. This file says what it leaves in every other table:
    the sessions and their associations with nodes, the pending approvals, and
    the row of the task. *)
From Stdlib Require Import ZArith String Lia.
From stdpp Require Import gmap strings list.
From S2P Require Import Prelude Transactions GoStrings Types Fanout Selection CurrentState TaskTables Materialization.
From S2P Require Import TaskPlanning TaskExecution TaskCutoverFacts.

Local Open Scope string_scope.

Lemma UnixMilli_round at_ : UnixMilli (FromUnixMilli (UnixMilli at_)) = UnixMilli at_.
Proof.
  unfold FromUnixMilli. set (ms := UnixMilli at_). unfold UnixMilli.
  rewrite Z.add_simpl_r. apply Z.div_mul. done.
Qed.

Section spec.
Context {order : RangeOrder}.
Context {L : Type} (protovalidate : L → option error).
Context (faulty : nat → bool) (now : Z).
Implicit Types (s : @db L) (node target : CurrentNode L) (plan : @taskExecutionPlan L) (action : taskExecutionAction)
  (sessions : list PlannedCurrentNodeSession) (a : PlannedCurrentNodeSession).
Abbreviation tx := (txn (@db L) error) (only parsing).

(** ** What is stored *)
(** The rows of the prepared snapshots. *)
Definition session_of (snapshot : PreparedSessionSnapshot) : session_row :=
  {| s_ProjectID := ss_ProjectID snapshot; s_TaskID := None; s_AgentRole := ss_AgentRole snapshot |}.
Definition planned_rows sessions : gmap SessionID session_row :=
  omap (λ a, session_of <$> ps_Snapshot a) (list_to_map ((λ a, (ps_SessionID a, a)) <$> sessions)).

(** A target gets the planned session: a prepared one, unless it must retain the
    one it has, or the one it has. *)
Definition given_by action a node node' : Prop :=
  (match ps_Snapshot a with
   | Some snapshot => ss_SessionID snapshot = ps_SessionID a ∧
       (cn_SessionID node = None ∨ (action ≠ taskExecutionResume ∧ IsBranchScoped (cn_Reference node) = true))
   | None => cn_SessionID node = Some (ps_SessionID a)
   end) ∧
  ∃ source, NewExactMaterializedContinuationSource (ps_SessionID a) = Ok source ∧ node' = set_session (Some (ps_SessionID a)) source node.
Definition given sessions action node node' : Prop :=
  match cn_AgentExecutionSelection node with
  | None => node' = node
  | Some _ => ∃ a, a ∈ sessions ∧ CurrentNodeReference_Key (ps_CurrentNode a) = CurrentNodeReference_Key (cn_Reference node) ∧ given_by action a node node'
  end.

(** The session of a stored target belongs to its task and is associated with
    its node and branch. *)
Definition bound_to (task : TaskID) (row : session_row) : session_row :=
  {| s_ProjectID := s_ProjectID row; s_TaskID := Some task; s_AgentRole := s_AgentRole row |}.
Definition bind_session node (m : gmap SessionID session_row) : gmap SessionID session_row :=
  match cn_SessionID node with Some id => alter (bound_to (cnr_TaskID (cn_Reference node))) id m | None => m end.
Definition associate node (m : gmap (SessionID * NodeID * option TransitionBranchKey) Z) : gmap (SessionID * NodeID * option TransitionBranchKey) Z :=
  match cn_SessionID node with
  | Some id => <[(id, cnr_NodeID (cn_Reference node), cnr_transitionBranchKey (cn_Reference node)) := UnixMilli now]> m
  | None => m
  end.
Definition each {A} (f : CurrentNode L → A → A) (nodes : list (CurrentNode L)) (m : A) : A := foldl (λ m node, f node m) m nodes.

(** The stored form of an approval, with a row for each branch. *)
Fixpoint branch_rows (branches : list (@PendingApprovalBranch L)) (m m' : gmap TransitionBranchKey approval_branch_row) : Prop :=
  match branches with
  | [] => m' = m
  | branch :: rest => ∃ row, approval_branch_snapshot branch = Ok row ∧ m !! pab_TransitionBranchKey branch = None ∧
      branch_rows rest (<[pab_TransitionBranchKey branch := row]> m) m'
  end.
Definition approval_record (approval : @PendingApproval L) branches : approval_row := {|
  apr_Source := pa_Source approval; apr_SourceSessionID := pa_SourceSessionID approval;
  apr_WorkflowVersion := pa_WorkflowVersion approval; apr_Group := pa_Group approval;
  apr_SourceDisplayName := pa_SourceDisplayName approval; apr_Commentary := pa_Commentary approval;
  apr_OutputValues := pa_OutputValues approval; apr_Branches := branches; apr_CreatedAtUnixMs := UnixMilli (pa_CreatedAt approval) |}.
Definition approval_created (approval : option (@PendingApproval L)) (m m' : gmap UUID approval_row) : Prop :=
  match approval with
  | None => m' = m
  | Some approval => ∃ branches, branch_rows (pa_Branches approval) ∅ branches ∧ m !! pa_ID approval = None ∧
      m' = <[pa_ID approval := approval_record approval branches]> m
  end.
Definition without_approval (approval : option (@PendingApproval L)) (m : gmap UUID approval_row) : gmap UUID approval_row :=
  match approval with Some approval => delete (pa_ID approval) m | None => m end.
(** A move drops the approvals of its task. *)
Definition approvals_left plan action (m : gmap UUID approval_row) : gmap UUID approval_row :=
  if action ==? taskExecutionMove then filter (λ kv, cnr_TaskID (apr_Source kv.2) ≠ pl_taskID plan) m else m.

Definition moved_to (destination : option (WorkflowID * Z)) (task : TaskID) (m : gmap TaskID task_row) : gmap TaskID task_row :=
  match destination with Some (id, _) => alter (set_workflow id) task m | None => m end.

(** The workflow a task moves to is that of its target, at the planned version. *)
Definition destination_stands plan s : Prop :=
  ∀ id version, pl_destination plan = Some (id, version) → ∃ target task workflow, head (pl_targets plan) = Some target ∧
    db_tasks s !! pl_taskID plan = Some task ∧
    manualMoveDefinition s (pl_taskID plan) task (cnr_NodeID (cn_Reference target)) = Ok (id, workflow) ∧ w_Version workflow = version.

Record carried_out plan sessions action s (targets : list (CurrentNode L)) s' : Prop := {
  co_workflows : db_workflows s' = db_workflows s;
  co_destination : destination_stands plan s;
  co_tasks : db_tasks s' = alter (touch (UnixMilli now)) (pl_taskID plan) (moved_to (pl_destination plan) (pl_taskID plan) (db_tasks s));
  co_planned : NoDup ((λ a, CurrentNodeReference_Key (ps_CurrentNode a)) <$> sessions) ∧ NoDup (ps_SessionID <$> sessions);
  co_targets : ∃ nodes, Forall2 (given sessions action) (pl_targets plan) nodes ∧
    targets = if action ==? taskExecutionComplete then nodes else set_admitted <$> nodes;
  co_used : ∀ a, a ∈ sessions → ∃ node, node ∈ pl_targets plan ∧ cn_AgentExecutionSelection node ≠ None ∧
    CurrentNodeReference_Key (cn_Reference node) = CurrentNodeReference_Key (ps_CurrentNode a);
  co_fresh : planned_rows sessions ##ₘ db_sessions s;
  co_sessions : db_sessions s' = each bind_session targets (planned_rows sessions ∪ db_sessions s);
  co_associations : db_associations s' = each associate targets (db_associations s);
  co_approval : ∀ approval, pl_approval plan = Some approval → is_Some (db_approvals s !! pa_ID approval);
  co_approvals : ∃ created, approval_created (new_approval plan) (without_approval (pl_approval plan) (db_approvals s)) created ∧
    db_approvals s' = approvals_left plan action created }.

(** ** The sessions that are prepared *)
(** Everything but the positions, and everything but them and the sessions. *)
Record rest s s' : Prop := {
  re_tasks : db_tasks s' = db_tasks s; re_workflows : db_workflows s' = db_workflows s; re_approvals : db_approvals s' = db_approvals s;
  re_sessions : db_sessions s' = db_sessions s; re_associations : db_associations s' = db_associations s }.
Record but_sessions s s' : Prop := {
  bs_tasks : db_tasks s' = db_tasks s; bs_workflows : db_workflows s' = db_workflows s; bs_approvals : db_approvals s' = db_approvals s;
  bs_associations : db_associations s' = db_associations s }.
#[local] Instance rest_preorder : PreOrder rest.
Proof. split; [done|]. intros x y z [] []. split; congruence. Qed.
#[local] Instance but_sessions_preorder : PreOrder but_sessions.
Proof. split; [done|]. intros x y z [] []. split; congruence. Qed.

Lemma planned_cons a sessions : ps_SessionID a ∉ ps_SessionID <$> sessions →
  planned_rows (a :: sessions) = match ps_Snapshot a with
    | Some snapshot => <[ps_SessionID a := session_of snapshot]> (planned_rows sessions) | None => planned_rows sessions end ∧
  planned_rows sessions !! ps_SessionID a = None.
Proof.
  intros Hno. unfold planned_rows. simpl. set (m := list_to_map _). assert (m !! ps_SessionID a = None) as Hm.
  { apply not_elem_of_list_to_map_1. intros (x & E & (y & -> & Hy)%list_elem_of_fmap)%list_elem_of_fmap. simpl in E. apply Hno, list_elem_of_fmap. eauto. }
  split; [|by rewrite lookup_omap, Hm]. destruct (ps_Snapshot a) as [snapshot|] eqn:E.
  - rewrite (omap_insert_Some _ m (ps_SessionID a) a (session_of snapshot)); [done|]. by rewrite E.
  - rewrite omap_insert_None by (by rewrite E). apply delete_id. by rewrite lookup_omap, Hm.
Qed.
Lemma planned_perm l l' : NoDup (ps_SessionID <$> l) → l ≡ₚ l' → planned_rows l = planned_rows l'.
Proof.
  intros Hnd Hp. unfold planned_rows. f_equal. apply list_to_map_proper; [|by rewrite Hp]. rewrite <- list_fmap_compose. exact Hnd.
Qed.

Lemma post_assign_exact action node a s :
  post (assign_session faulty action node a) s (λ node' s', but_sessions s s' ∧ given_by action a node node' ∧
    match ps_Snapshot a with
    | Some snapshot => db_sessions s !! ps_SessionID a = None ∧ db_sessions s' = <[ps_SessionID a := session_of snapshot]> (db_sessions s)
    | None => db_sessions s' = db_sessions s
    end).
Proof.
  unfold assign_session, given_by. eapply post_bind with (P := λ _ s', but_sessions s s' ∧
    (match ps_Snapshot a with
     | Some snapshot => (ss_SessionID snapshot = ps_SessionID a ∧
         (cn_SessionID node = None ∨ (action ≠ taskExecutionResume ∧ IsBranchScoped (cn_Reference node) = true))) ∧
         db_sessions s !! ps_SessionID a = None ∧ db_sessions s' = <[ps_SessionID a := session_of snapshot]> (db_sessions s)
     | None => cn_SessionID node = Some (ps_SessionID a) ∧ db_sessions s' = db_sessions s
     end)).
  - destruct (ps_Snapshot a) as [snapshot|].
    + passes E1. passes E2. eapply post_bind; [apply post_statements|]. intros [] s1 ->.
      eapply post_mono; [apply post_execute|]. intros [] s' Hs. cbn beta in Hs. case_match eqn:Hno; [|done]. bool_simp. simplify_eq. rewrite E2 in *.
      split; [done|]. split_and!; [done| |done|done]. destruct (cn_SessionID node); [right|by left].
      simpl in E1. apply orb_false_iff in E1 as [E1 E3]. apply negb_false_iff in E3. bool_simp. done.
    + passes E1. eapply post_mono; [apply post_statements|]. by intros [] s' ->.
  - intros [] s1 [Hb Hcase]. eapply post_bind; [apply post_lift|]. intros source s2 [E ->]. apply post_ret. split; [done|].
    destruct (ps_Snapshot a); destruct Hcase; split; eauto.
Qed.

Abbreviation assignments := (list (CurrentNodeReferenceKey * PlannedCurrentNodeSession)) (only parsing).
Definition given_from (l : assignments) action node node' : Prop :=
  match cn_AgentExecutionSelection node with
  | None => node' = node
  | Some _ => ∃ key a, CurrentNodeReference_Key (cn_Reference node) = Ok key ∧ (key, a) ∈ l ∧ given_by action a node node'
  end.
Lemma given_from_sub (l l' : assignments) action node node' : (∀ x, x ∈ l → x ∈ l') → given_from l action node node' → given_from l' action node node'.
Proof. unfold given_from. intros Hl. destruct (cn_AgentExecutionSelection node) as [selection|]; [|done]. intros (key & a & Ek & Ha & Hg). eauto 10. Qed.
(** The assignment of a key, and the others. *)
Lemma find_key (l : assignments) key x : NoDup l.*1 → find (λ y : CurrentNodeReferenceKey * PlannedCurrentNodeSession, y.1 ==? key) l = Some x →
  x.1 = key ∧ l ≡ₚ x :: filter (λ y, y.1 ≠ key) l.
Proof.
  induction l as [|y l IH]; simpl; [done|]. intros [Hno Hnd]%NoDup_cons. destruct (bool_decide (y.1 = key)) eqn:E.
  - intros [= ->]. bool_simp. split; [done|]. rewrite filter_cons_False by (intros Hne; by apply Hne). f_equiv.
    assert (filter (λ y, y.1 ≠ key) l = l) as ->; [|done]. apply filter_all. intros z Hz Hk. apply Hno. rewrite E, <- Hk. by apply list_elem_of_fmap_2.
  - bool_simp. intros Hx. destruct (IH Hnd Hx) as [Ek Hp]. split; [done|]. rewrite filter_cons_True by done. rewrite Hp at 1. apply Permutation_swap.
Qed.
Lemma post_assign_all action nodes : ∀ (l : assignments) s, NoDup l.*1 → NoDup (ps_SessionID <$> l.*2) →
  post (assign_sessions faulty action nodes l) s (λ nodes' s', but_sessions s s' ∧ Forall2 (given_from l action) nodes nodes' ∧
    (∀ key a, (key, a) ∈ l → ∃ node, node ∈ nodes ∧ cn_AgentExecutionSelection node ≠ None ∧ CurrentNodeReference_Key (cn_Reference node) = Ok key) ∧
    planned_rows l.*2 ##ₘ db_sessions s ∧ db_sessions s' = planned_rows l.*2 ∪ db_sessions s).
Proof.
  induction nodes as [|node nodes IH]; intros l s Hk Hids; simpl.
  - case_match eqn:E; [|apply post_fail]. bool_simp. destruct l; [|done]. apply post_ret.
    simpl. change (planned_rows []) with (∅ : gmap SessionID session_row). split_and!; [done|by apply Forall2_nil_2|by intros key a ?%elem_of_nil|apply map_disjoint_empty_l|by rewrite (left_id_L ∅ (∪))].
  - destruct (cn_AgentExecutionSelection node) as [selection|] eqn:Es.
    + eapply post_bind; [apply post_lift|]. intros key s0 [Ekey ->]. destruct (find _ l) as [[key' a]|] eqn:Ef; [|apply post_fail].
      destruct (find_key l key _ Hk Ef) as [Ek Hp]. simpl in Ek. subst key'. set (l' := filter _ l) in *.
      assert (NoDup l'.*1 ∧ NoDup (ps_SessionID <$> l'.*2) ∧ ps_SessionID a ∉ ps_SessionID <$> l'.*2) as (Hk' & Hids' & Hno).
      { rewrite Hp in Hk, Hids. apply NoDup_cons in Hk as [_ Hk]. apply NoDup_cons in Hids as [Hno Hids]. done. }
      assert (planned_rows l.*2 = planned_rows (a :: l'.*2)) as -> by (apply planned_perm; [done|by rewrite Hp]).
      destruct (planned_cons a l'.*2 Hno) as [-> Hnone].
      eapply post_bind; [apply post_assign_exact|]. intros node' s1 (Hb & Hg & Hrow).
      eapply post_bind; [apply (IH l' s1 Hk' Hids')|]. intros nodes' s2 (Hb2 & Hall & Hused & Hd & E). apply post_ret.
      assert (∀ x, x ∈ l' → x ∈ l) as Hsub by (intros x Hx; rewrite Hp; by right). assert ((key, a) ∈ l) as Hin by (rewrite Hp; by left).
      split_and!; [by transitivity s1| | | |].
      * constructor; [unfold given_from; rewrite Es; by exists key, a|]. eapply Forall2_impl; [exact Hall|]. intros x y. by apply given_from_sub.
      * intros k x Hx. rewrite Hp in Hx. apply elem_of_cons in Hx as [[= -> ->]|Hx]; [exists node; split_and!; [by left|congruence|done]|].
        destruct (Hused k x Hx) as (n & Hn & ?). exists n. split; [by right|done].
      * destruct (ps_Snapshot a) as [snapshot|]; [|by rewrite Hrow in Hd]. destruct Hrow as [Hfree ->] in Hd. apply map_disjoint_insert_r in Hd as [_ Hd].
        by apply map_disjoint_insert_l.
      * rewrite E. destruct (ps_Snapshot a) as [snapshot|]; [|by rewrite Hrow]. destruct Hrow as [_ ->].
        by rewrite <- insert_union_l, insert_union_r.
    + eapply post_bind; [apply (IH l s Hk Hids)|]. intros nodes' s2 (Hb2 & Hall & Hused & Hd & E). apply post_ret. split_and!; [done| | |done|done].
      * constructor; [|done]. unfold given_from. by rewrite Es.
      * intros k x Hx. destruct (Hused k x Hx) as (n & Hn & ?). exists n. split; [by right|done].
Qed.

Lemma planned_assignments_ok sessions : ∀ (l0 l : assignments), planned_assignments sessions l0 = Ok l → NoDup l0.*1 → NoDup (ps_SessionID <$> l0.*2) →
  NoDup l.*1 ∧ NoDup (ps_SessionID <$> l.*2) ∧ l.*2 = (l0.*2 ++ sessions)%list ∧
  (Forall (λ x, CurrentNodeReference_Key (ps_CurrentNode x.2) = Ok x.1) l0 → Forall (λ x, CurrentNodeReference_Key (ps_CurrentNode x.2) = Ok x.1) l).
Proof.
  induction sessions as [|a sessions IH]; intros l0 l; simpl; [intros [= <-] ? ?; by rewrite app_nil_r|].
  destruct (CurrentNodeReference_Key (ps_CurrentNode a)) as [key|e] eqn:Ek; simpl; [|done]. destruct (IsZero _); [done|].
  case_bool_decide as H1; [done|]. case_bool_decide as H2; [done|]. intros E Hk Hids.
  assert (∀ (x : CurrentNodeReferenceKey * PlannedCurrentNodeSession), (app l0 [x]).*1 = app l0.*1 [x.1] ∧ (app l0 [x]).*2 = app l0.*2 [x.2]) as Happ by (intros x; by rewrite !fmap_app).
  destruct (IH _ _ E) as (N1 & N2 & E2 & Hkeys).
  - rewrite (proj1 (Happ _)). apply NoDup_app. split_and!; [done| |apply NoDup_singleton]. by intros x Hx ->%list_elem_of_singleton.
  - rewrite (proj2 (Happ _)), fmap_app. apply NoDup_app. split_and!; [done| |apply NoDup_singleton]. intros x Hx ->%list_elem_of_singleton. apply H2.
    by rewrite <- list_fmap_compose in Hx.
  - split_and!; [done|done|by rewrite E2, (proj2 (Happ _)), <- app_assoc|]. intros Hall. apply Hkeys. by apply Forall_app; split; [|repeat constructor].
Qed.
Lemma post_prepare_exact plan sessions action s :
  post (preparePlannedCurrentNodeSessions faulty plan sessions action) s (λ nodes s', but_sessions s s' ∧
    Forall2 (given sessions action) (pl_targets plan) nodes ∧
    (NoDup ((λ a, CurrentNodeReference_Key (ps_CurrentNode a)) <$> sessions) ∧ NoDup (ps_SessionID <$> sessions)) ∧
    (∀ a, a ∈ sessions → ∃ node, node ∈ pl_targets plan ∧ cn_AgentExecutionSelection node ≠ None ∧
      CurrentNodeReference_Key (cn_Reference node) = CurrentNodeReference_Key (ps_CurrentNode a)) ∧
    planned_rows sessions ##ₘ db_sessions s ∧ db_sessions s' = planned_rows sessions ∪ db_sessions s).
Proof.
  eapply post_bind; [apply post_lift|]. intros l s0 [El ->].
  destruct (planned_assignments_ok sessions [] l El ltac:(constructor) ltac:(constructor)) as (N1 & N2 & E2 & Hkeys). specialize (Hkeys ltac:(constructor)). simpl in E2.
  rewrite Forall_forall in Hkeys. eapply post_mono; [apply post_assign_all; done|]. intros nodes s' (Hb & Hall & Hused & Hd & E). rewrite E2 in *.
  split_and!; [done| | |done| |done|done].
  - eapply Forall2_impl; [exact Hall|]. intros x y. unfold given_from, given. destruct (cn_AgentExecutionSelection x) as [selection|]; [|done]. intros (key & a & Ek & Ha & Hg).
    exists a. split_and!; [rewrite <- E2; by apply (list_elem_of_fmap_2 snd _ (key, a))|by rewrite Ek; apply (Hkeys (key, a))|done].
  - assert ((λ a, CurrentNodeReference_Key (ps_CurrentNode a)) <$> sessions = Ok <$> l.*1) as ->.
    { rewrite <- E2, <- !list_fmap_compose. apply list_fmap_ext. intros i x Hx%list_elem_of_lookup_2. by apply Hkeys. }
    apply NoDup_fmap_2; [|done]. by intros x y [= ->].
  - intros a Ha. rewrite <- E2 in Ha. apply list_elem_of_fmap in Ha as ([key b] & -> & Hx). destruct (Hused key b Hx) as (node & Hn & Hs & Ek). exists node.
    split_and!; [done|done|]. rewrite Ek. symmetry. by apply (Hkeys (key, b)).
Qed.

(** ** The targets that are inserted *)
Lemma rest_insert_row at_ (row : @CurrentNodeRow L) : respects rest (InsertTaskCurrentNode faulty at_ row).
Proof.
  apply respects_execute; [apply _|]. intros s [] s' H. destruct (db_tasks s !! at_.1); simpl in H; [|done]. destruct (node_row s (row_NodeID row)); simpl in H; [|done].
  case_match; by simplify_eq.
Qed.
(** The sessions and associations of [s'] are those of the target added. *)
Record bound node s s' : Prop := {
  bd_tasks : db_tasks s' = db_tasks s; bd_workflows : db_workflows s' = db_workflows s; bd_approvals : db_approvals s' = db_approvals s;
  bd_sessions : db_sessions s' = bind_session node (db_sessions s); bd_associations : db_associations s' = associate node (db_associations s) }.
Lemma post_bind_session session (r : CurrentNodeReference) s :
  post (bindSessionToTask (L := L) faulty session r) s (λ _ s', but_sessions s s' ∧
    db_sessions s' = alter (bound_to (cnr_TaskID r)) session (db_sessions s)).
Proof.
  unfold bindSessionToTask, BindSessionToTask. eapply post_bind; [apply post_query|]. intros n s' E. cbn beta in E.
  destruct (db_sessions s !! session) as [row|] eqn:Er; [|injection E as -> ->; apply post_fail].
  destruct (db_tasks s !! cnr_TaskID r) as [owner|]; [|injection E as -> ->; apply post_fail].
  destruct (_ && _); injection E as -> ->; [|apply post_fail]. apply post_ret. split; [done|]. simpl. by rewrite (alter_lookup _ _ _ row).
Qed.
Lemma post_upsert session (r : CurrentNodeReference) at_ s :
  post (upsertTaskSessionAssociation (L := L) faulty session r at_) s (λ _ s', db_tasks s' = db_tasks s ∧ db_workflows s' = db_workflows s ∧
    db_approvals s' = db_approvals s ∧ db_sessions s' = db_sessions s ∧
    db_associations s' = <[(session, cnr_NodeID r, cnr_transitionBranchKey r) := UnixMilli at_]> (db_associations s)).
Proof.
  eapply post_mono; [apply post_execute|]. intros [] s' H.
  destruct (db_sessions s !! session) as [row|]; simpl in H; [|done]. destruct (s_TaskID row) as [owner|]; simpl in H; [|done].
  destruct (db_tasks s !! owner); simpl in H; [|done]. destruct (node_row s (cnr_NodeID r)); simpl in H; [|done]. case_match; [|done]. by simplify_eq.
Qed.
Lemma normalized_at session r at_ at' : normalizeTaskSessionAssociationRequest session r at_ = Ok at' → UnixMilli at' = UnixMilli at_.
Proof.
  unfold normalizeTaskSessionAssociationRequest. destruct (IsZero session); [done|]. destruct (CurrentNodeReference_Validate r); [done|].
  destruct (_ || _); [done|]. intros [= <-]. apply UnixMilli_round.
Qed.
Lemma post_insert_bound node s : post (insertTaskCurrentNode faulty node now) s (λ _ s', bound node s s').
Proof.
  eapply (post_respects rest); [unfold GetWorkflowNode; keeping|]. intros row s1 H1. unfold insertTaskCurrentNodeWithKind.
  assert (∀ s2, rest s s2 → post (match cn_SessionID node with
      | None => mret tt
      | Some session =>
        at_ ← lift (normalizeTaskSessionAssociationRequest session (cn_Reference node) now);
        _ ← bindSessionToTask faulty session (cn_Reference node);
        upsertTaskSessionAssociation faulty session (cn_Reference node) at_
      end) s2 (λ _ s', bound node s s')) as Hend.
  { intros s2 [R1 R2 R3 R4 R5]. destruct (cn_SessionID node) as [session|] eqn:Es.
    - eapply post_bind; [apply post_lift|]. intros at_ s3 [Eat ->]. eapply post_bind; [apply post_bind_session|]. intros [] s3 [[B1 B2 B3 B4] B5].
      eapply post_mono; [apply post_upsert|]. intros [] s4 (U1 & U2 & U3 & U4 & U5). split; try congruence.
      + unfold bind_session. rewrite Es. congruence.
      + unfold associate. rewrite Es, U5, B4, R5. by rewrite (normalized_at _ _ _ _ Eat).
    - apply post_ret. split; try done; unfold bind_session, associate; by rewrite Es. }
  destruct (Kind row), (cn_AgentExecutionSelection node); try apply post_fail.
  all: case_match; try apply post_fail; (eapply (post_respects rest); [apply rest_insert_row|]; intros [] s2 H2; apply Hend; by transitivity s1).
Qed.
(** *** Several targets *)
Record all_bound nodes s s' : Prop := {
  ab_tasks : db_tasks s' = db_tasks s; ab_workflows : db_workflows s' = db_workflows s; ab_approvals : db_approvals s' = db_approvals s;
  ab_sessions : db_sessions s' = each bind_session nodes (db_sessions s); ab_associations : db_associations s' = each associate nodes (db_associations s) }.
Lemma all_bound_cons node nodes s s1 s2 : bound node s s1 → all_bound nodes s1 s2 → all_bound (node :: nodes) s s2.
Proof. intros [] []. split; simpl; congruence. Qed.
Lemma all_bound_rest nodes s s1 s2 : rest s s1 → all_bound nodes s1 s2 → all_bound nodes s s2.
Proof. intros [] []. split; simpl; congruence. Qed.
Lemma bound_rest node s s1 s2 : rest s s1 → bound node s1 s2 → bound node s s2.
Proof. intros [] []. split; simpl; congruence. Qed.
Lemma post_insert_all nodes : ∀ s, post (insert_targets faulty now nodes) s (λ _ s', all_bound nodes s s').
Proof.
  induction nodes as [|node nodes IH]; intros s; simpl; [by apply post_ret|].
  eapply post_bind; [apply post_insert_bound|]. intros [] s1 H1. eapply post_mono; [apply IH|]. intros [] s2. by apply all_bound_cons.
Qed.
Lemma rest_insert_branch task key : respects rest (InsertTaskActiveFanoutBranch (L := L) faulty task key).
Proof.
  apply respects_execute; [apply _|]. intros s [] s' H. destruct (db_fanouts s !! task); simpl in H; [|done]. case_match; by simplify_eq.
Qed.
Lemma post_insert_branches task nodes : ∀ s, post (insert_fanout_targets faulty task nodes now) s (λ _ s', all_bound nodes s s').
Proof.
  induction nodes as [|node nodes IH]; intros s; simpl; [by apply post_ret|].
  eapply (post_respects rest); [apply rest_insert_branch|]. intros [] s0 H0.
  eapply post_bind; [apply post_insert_bound|]. intros [] s1 H1. eapply post_mono; [apply IH|]. intros [] s2. apply all_bound_cons. by eapply bound_rest.
Qed.
Lemma post_enter_bound action task nodes s :
  post (if fans_out action nodes then insertTaskFanoutTargets faulty task nodes now else insert_targets faulty now nodes) s (λ _ s', all_bound nodes s s').
Proof.
  destruct (fans_out action nodes); [|apply post_insert_all]. unfold insertTaskFanoutTargets. destruct (validateFanoutTargets task nodes); [apply post_fail|].
  eapply (post_respects rest).
  - apply respects_execute; [apply _|]. intros s0 [] s' H. destruct (db_tasks s0 !! task); simpl in H; [|done]. case_match; by simplify_eq.
  - intros [] s1 H1. eapply post_mono; [apply post_insert_branches|]. intros [] s2. by apply all_bound_rest.
Qed.

(** ** Approvals *)
Record but_approvals s s' : Prop := {
  ba_tasks : db_tasks s' = db_tasks s; ba_workflows : db_workflows s' = db_workflows s; ba_sessions : db_sessions s' = db_sessions s;
  ba_associations : db_associations s' = db_associations s }.
Lemma post_insert_branch_rows approval branches : ∀ m s, db_approvals s !! pa_ID approval = Some (approval_record approval m) →
  post (insert_approval_branches faulty (pa_ID approval) branches) s (λ _ s', but_approvals s s' ∧ ∃ m', branch_rows branches m m' ∧
    db_approvals s' = <[pa_ID approval := approval_record approval m']> (db_approvals s)).
Proof.
  induction branches as [|branch branches IH]; intros m s Hrow; simpl; [apply post_ret; split; [done|]; exists m; split; [done|]; by rewrite insert_id|].
  eapply post_bind; [apply post_lift|]. intros row s0 [Esnap ->]. eapply post_bind; [apply post_execute|]. intros [] s1 H. cbn beta in H.
  rewrite Hrow in H. simpl in H. case_match eqn:Hfree; [|done]. bool_simp. simplify_eq.
  eapply post_mono; [apply (IH (<[pab_TransitionBranchKey branch := row]> m)); simpl; by rewrite lookup_insert_eq|].
  intros [] s2 ([] & m' & Hm & E). split; [by split|]. exists m'. split; [eauto|]. rewrite E. simpl. by rewrite insert_insert_eq.
Qed.
Lemma post_insert_approval (approval : option (@PendingApproval L)) s :
  post (match approval with Some approval => insertPendingApproval faulty approval | None => mret tt end) s
    (λ _ s', but_approvals s s' ∧ approval_created approval (db_approvals s) (db_approvals s')).
Proof.
  destruct approval as [approval|]; [|by apply post_ret]. unfold insertPendingApproval. eapply post_bind; [apply post_execute|]. intros [] s1 H. cbn beta in H.
  simpl in H. destruct (db_current s !! _); simpl in H; [|done]. case_match eqn:Hfree; [|done]. simplify_eq.
  repeat (apply andb_true_iff in Hfree as [Hfree ?]). bool_simp.
  eapply post_mono; [apply (post_insert_branch_rows approval (pa_Branches approval) ∅); simpl; by rewrite lookup_insert_eq|].
  intros [] s2 ([] & m' & Hm & E). split; [by split|]. exists m'. split_and!; [done|done|]. rewrite E. simpl. by rewrite insert_insert_eq.
Qed.

(** ** The whole transaction *)
Lemma rest_check_destination plan task : respects rest (check_destination faulty plan task).
Proof. unfold check_destination. keeping. Qed.
Lemma post_check_destination plan task s : db_tasks s !! pl_taskID plan = Some task →
  post (check_destination faulty plan task) s (λ _ s', s' = s ∧ destination_stands plan s).
Proof.
  intros Et. unfold check_destination, destination_stands. destruct (pl_destination plan) as [[id version]|]; [|by apply post_ret].
  destruct (pl_targets plan) as [|target targets]; [apply post_fail|]. eapply post_bind; [apply post_statements|]. intros [] s0 ->.
  eapply post_bind; [apply post_select|]. intros found s0 [-> ->]. destruct (manualMoveDefinition _ _ _ _) as [[id' workflow]|e] eqn:E; [|apply post_fail].
  passes Hok. apply post_ret. split; [done|]. intros id0 version0 [= <- <-]. exists target, task, workflow. subst. by split_and!.
Qed.
Lemma rest_arrive plan : respects rest (match pl_joinArrival plan with
    | None => mret tt
    | Some (key, values) =>
      updated ← UpdateTaskActiveFanoutBranchArrival (L := L) faulty (pl_taskID plan) key values;
      if updated <>? 1%nat then fail (PolicyError "join arrival is no longer pending") else mret tt
    end).
Proof.
  destruct (pl_joinArrival plan) as [[key values]|]; [|keeping]. apply respects_bind; [apply _| |keeping]. apply respects_query; [apply _|]. intros s.
  destruct (db_fanouts s !! _); [|done]. by case_match.
Qed.
Lemma rest_delete_sources sources : respects rest (delete_sources (L := L) faulty sources).
Proof.
  induction sources as [|source sources IH]; simpl; [keeping|]. apply respects_bind; [apply _| |keeping]. unfold deleteTaskCurrentNode.
  destruct (CurrentNodeReference_Validate _); [keeping|]. apply respects_execute; [apply _|]. intros s n s' H. cbn beta in H.
  destruct (db_current s !! _); [|by simplify_eq]. repeat case_match; by simplify_eq.
Qed.
Lemma rest_delete_fanout task : respects rest (DeleteTaskActiveFanout (L := L) faulty task).
Proof.
  apply respects_execute; [apply _|]. intros s n s' H. cbn beta in H. destruct (db_fanouts s !! _); [|by simplify_eq]. case_match; by simplify_eq.
Qed.
Lemma post_delete_approval plan s :
  post (match pl_approval plan with
    | None => mret tt
    | Some approval =>
      _ ← statements faulty ["approval attention"];
      removed ← DeleteTaskPendingApproval (L := L) faulty (pa_ID approval);
      if removed <>? 1%nat then fail (PolicyError "pending approval changed before cutover") else mret tt
    end) s (λ _ s', but_approvals s s' ∧ db_approvals s' = without_approval (pl_approval plan) (db_approvals s) ∧
      ∀ approval, pl_approval plan = Some approval → is_Some (db_approvals s !! pa_ID approval)).
Proof.
  destruct (pl_approval plan) as [approval|]; [|by apply post_ret]. eapply post_bind; [apply post_statements|]. intros [] s0 ->.
  eapply post_bind; [apply post_query|]. intros n s1 E. cbn beta in E. injection E as -> ->. passes Hn. apply post_ret.
  split_and!; [by split|done|]. intros a [= <-]. by case_bool_decide.
Qed.
Lemma post_drop_approvals plan action s :
  post (if action ==? taskExecutionMove
        then _ ← statements faulty ["task attention"]; _ ← DeleteTaskPendingApprovalsByTask (L := L) faulty (pl_taskID plan); mret tt else mret tt) s
    (λ _ s', but_approvals s s' ∧ db_approvals s' = approvals_left plan action (db_approvals s)).
Proof.
  unfold approvals_left. destruct (action ==? taskExecutionMove); [|by apply post_ret]. eapply post_bind; [apply post_statements|]. intros [] s0 ->.
  eapply post_bind; [apply post_query|]. intros n s1 E. cbn beta in E. injection E as _ ->. by apply post_ret.
Qed.
(** Everything but the row of the task. *)
Record but_tasks s s' : Prop := {
  bt_workflows : db_workflows s' = db_workflows s; bt_approvals : db_approvals s' = db_approvals s; bt_sessions : db_sessions s' = db_sessions s;
  bt_associations : db_associations s' = db_associations s }.
Lemma post_change_workflow plan s :
  post (match pl_destination plan with
    | None => mret tt
    | Some (id, _) => _ ← statements faulty ["project link"]; MoveTaskToWorkflow (L := L) faulty (pl_taskID plan) id
    end) s (λ _ s', but_tasks s s' ∧ db_tasks s' = moved_to (pl_destination plan) (pl_taskID plan) (db_tasks s)).
Proof.
  destruct (pl_destination plan) as [[id version]|]; [|by apply post_ret]. eapply post_bind; [apply post_statements|]. intros [] s0 ->.
  eapply post_mono; [apply post_query|]. intros [] s1 E. cbn beta in E. by injection E as ->.
Qed.
Lemma post_touch task s : post (touchTask (L := L) faulty now task) s (λ _ s', but_tasks s s' ∧ db_tasks s' = alter (touch (UnixMilli now)) task (db_tasks s)).
Proof.
  eapply post_bind; [apply post_query|]. intros n s1 E. cbn beta in E. injection E as -> ->. unfold one_row. case_match; [by apply post_ret|apply post_fail].
Qed.
Lemma post_validated_task plan action s :
  post (validateTaskExecutionPlan protovalidate faulty plan action) s (λ task s', db_tasks s !! pl_taskID plan = Some task ∧ s' = s).
Proof.
  assert (∀ action current sources, respects (L := L) eq (validate_sources faulty action current sources)) as Hsources.
  { intros act current sources. induction sources as [|source sources IH]; simpl; [keeping|]. unfold refuse_pending, currentNodePendingApprovalID. keeping. }
  unfold validateTaskExecutionPlan. eapply post_bind; [apply post_GetTask|]. intros task s0 [Et ->]. case_match; [apply post_fail|].
  eapply (post_respects eq); [unfold GetWorkflow; keeping|]. intros workflow s0 <-. case_match; [apply post_fail|].
  eapply (post_respects eq); [unfold listTaskCurrentNodes; keeping|]. intros current s0 <-.
  eapply (post_respects eq); [keeping|]. intros [] s0 <-. case_match; [apply post_fail|].
  eapply (post_respects eq); [apply Hsources|]. intros [] s0 <-. eapply (post_respects eq); [keeping|]. intros [] s0 <-.
  destruct (pl_joinArrival plan); [|by apply post_ret]. eapply (post_respects eq); [keeping|]. intros rows s0 <-. case_match; [apply post_fail|by apply post_ret].
Qed.
(** A move that commits has had exactly this effect on the other tables. *)
Lemma cutover_carried plan sessions action s :
  post (cutover protovalidate faulty now plan sessions action) s (λ '(_, targets) s', carried_out plan sessions action s targets s').
Proof.
  unfold cutover. eapply post_bind; [apply post_select|]. intros locked s0 [_ ->]. passes El.
  eapply post_bind; [apply post_validated_task|]. intros task s0 [Et ->].
  eapply post_bind; [by apply post_check_destination|]. intros [] s0 [-> Hdest].
  eapply post_bind; [apply post_statements|]. intros [] s0 ->.
  eapply post_bind; [apply post_prepare_exact|]. intros nodes s1 ([B1 B2 B3 B4] & Hgiven & Hplanned & Hused & Hfresh & B5).
  eapply post_bind; [apply post_delete_approval|]. intros [] s2 ([C1 C2 C3 C4] & C5 & Happroval).
  eapply (post_respects rest); [apply rest_arrive|]. intros [] s3 [D1 D2 D3 D4 D5].
  eapply post_bind; [apply post_insert_approval|]. intros [] s4 ([F1 F2 F3 F4] & Hcreated).
  eapply post_bind; [apply post_drop_approvals|]. intros [] s5 ([G1 G2 G3 G4] & G5).
  eapply (post_respects eq); [keeping|]. intros [] s5' <-.
  eapply (post_respects rest); [destruct (new_approval plan); [keeping|apply rest_delete_sources]|]. intros removed s6 [H1 H2 H3 H4 H5].
  eapply (post_respects rest); [case_match; [apply respects_bind; [apply _|apply rest_delete_fanout|keeping]|keeping]|]. intros [] s7 [I1 I2 I3 I4 I5].
  eapply post_bind; [apply post_change_workflow|]. intros [] s8 ([J1 J2 J3 J4] & J5).
  set (targets := if action ==? taskExecutionComplete then nodes else set_admitted <$> nodes).
  eapply post_bind; [apply (post_enter_bound action)|]. intros [] s9 [K1 K2 K3 K4 K5].
  eapply post_bind; [apply post_touch|]. intros [] s10 ([M1 M2 M3 M4] & M5). apply post_ret.
  split; [congruence|done| |done|by exists nodes|done|done| | | |].
  - rewrite M5, K1, J5. f_equal. congruence.
  - rewrite M3, K4. f_equal. congruence.
  - rewrite M4, K5. f_equal. congruence.
  - intros approval E. rewrite <- B3. by apply Happroval.
  - exists (db_approvals s4). split; [by rewrite <- B3, <- C5, <- D3|]. congruence.
Qed.
Lemma commit_carried plan sessions action s :
  match commitTaskExecution protovalidate faulty now plan sessions action s with
  | (Ok (removed, targets), s') => carried_out plan sessions action s targets s'
  | (Err _, s') => s' = s
  end.
Proof.
  unfold commitTaskExecution. case_if_goal; [done|]. transaction (λ _ : store_error error, True).
  eapply runs_mono; [apply cutover_carried|]. by intros [removed targets] s'.
Qed.
End spec.
