(* ===== verification/TaskPlanFacts.v ===== *)
(** * What preparations of moves yield

    The shape of the plans of TaskPlanning and TaskActions: which places the
    targets take, against those of the sources. *)
From Stdlib Require Import ZArith String Lia.
From stdpp Require Import gmap strings list.
From S2P Require Import Prelude Transactions GoStrings Types Reach Fanout Selection PromptRefs Wiring Validation.
From S2P Require Import CurrentState SessionReuse TaskTables Materialization TaskPlanning TaskExecution TaskActions.

Local Open Scope string_scope.

Lemma yields_seq {P A B} (m : reading P A) (f : A → reading P B) (Q : A → Prop) (R : B → Prop) :
  yields m Q → (∀ a, Q a → yields (f a) R) → yields (m ≫= f) R.
Proof. intros Hm Hf. apply yields_bind. by eapply yields_mono. Qed.

(** Steps to the part of a preparation that matters. *)
Ltac skip :=
  first
    [ apply yields_refuse
    | match goal with |- yields (match ?x with _ => _ end) _ => destruct x eqn:? end
    | apply yields_skip; intros ? ].

Section targets.
Context {order : RangeOrder}.
Context {L : Type} (protovalidate : L → option error).
Context (Parse : string → result string (gmap string (option TNode))).
Context (catalog : option TargetAgentCatalog).
Context (reads : nat → @db L) (faulty : nat → bool).
Implicit Types (node : CurrentNode L).

Abbreviation branch node := (cnr_transitionBranchKey (cn_Reference node)).
Abbreviation task_of node := (cnr_TaskID (cn_Reference node)).

(** ** Constructors *)
Lemma NewCurrentNodeReference_eq task id key r : NewCurrentNodeReference task id key = Ok r →
  r = {| cnr_TaskID := TrimSpace task; cnr_NodeID := TrimSpace id; cnr_transitionBranchKey := TrimSpace <$> key |}.
Proof. unfold NewCurrentNodeReference. case_match; by intros [= <-]. Qed.
Lemma NewCurrentNode_eq reference inputs prior session source scheduling selection node :
  NewCurrentNodeWithMaterializedSource protovalidate reference inputs prior session source scheduling selection = Ok node →
  node = {| cn_Reference := reference; cn_EnteredByEdgeID := None; cn_CurrentInputValues := inputs; cn_PriorValues := prior;
            cn_SessionID := session; cn_ContinuationSource := source; cn_Scheduling := scheduling;
            cn_AgentExecutionSelection := selection |}.
Proof. unfold NewCurrentNodeWithMaterializedSource. case_match; by intros [= <-]. Qed.

Lemma copyPlannedCurrentNodes_eq nodes nodes' : copyPlannedCurrentNodes protovalidate nodes = Ok nodes' → nodes' = nodes.
Proof.
  unfold copyPlannedCurrentNodes. revert nodes'. induction nodes as [|node nodes IH]; intros nodes'; simpl; [by intros [= <-]|].
  intros (node' & E & (nodes'' & E' & [= <-])%bind_Ok)%bind_Ok. apply bind_Ok in E as (copy & E & [= <-]).
  apply NewCurrentNode_eq in E as ->. apply IH in E' as ->. by destruct node.
Qed.

Lemma completionTargetCurrentNode_place taskID target key inputs prior session source edge selection node :
  completionTargetCurrentNode protovalidate taskID target key inputs prior session source edge selection = Ok node →
  task_of node = TrimSpace taskID ∧ branch node = TrimSpace <$> key.
Proof.
  unfold completionTargetCurrentNode.
  intros (scheduling & _ & (r & Er & (node' & E & [= <-])%bind_Ok)%bind_Ok)%bind_Ok.
  apply NewCurrentNodeReference_eq in Er as ->. by apply NewCurrentNode_eq in E as ->.
Qed.

Lemma materialize_place rq :
  yields (materializeTransitionTargetCurrentNode protovalidate Parse catalog reads faulty rq) (λ r,
    task_of r.1 = TrimSpace (rq_ContextTaskID rq) ∧ branch r.1 = TrimSpace <$> rq_TransitionBranchKey rq).
Proof.
  unfold materializeTransitionTargetCurrentNode. cbv zeta. skip; [skip|]. do 6 skip.
  skip. eapply yields_seq; [apply yields_checked, completionTargetCurrentNode_place|].
  intros node Hn. by apply yields_ret.
Qed.
Lemma materialize_completion_place def edge source target node outputs commentary key :
  yields (materializeCompletionTargetCurrentNode protovalidate Parse catalog reads faulty def edge source target node outputs commentary key)
    (λ r, task_of r.1 = TrimSpace (task_of node) ∧ branch r.1 = TrimSpace <$> key).
Proof.
  unfold materializeCompletionTargetCurrentNode. skip. cbv zeta. skip; [skip|].
  eapply yields_seq; [apply materialize_place|]. intros r Hr. by apply yields_ret.
Qed.

(** ** Reads *)
Lemma decode_task task (rows : list (NodeKind * place * @CurrentNodeRow L)) nodes :
  decode_current_nodes protovalidate rows = Ok nodes → Forall (λ r, r.1.2.1 = task) rows →
  Forall (λ node, task_of node = TrimSpace task ∧ (TrimSpace <$> branch node) = branch node) nodes.
Proof.
  unfold decode_current_nodes. revert nodes. induction rows as [|[[kind at_] row] rows IH]; intros nodes; simpl; [by intros [= <-]|].
  intros (node & E & (nodes' & E' & [= <-])%bind_Ok)%bind_Ok [Ht Hrows]%Forall_cons.
  constructor; [|by apply IH]. simpl in Ht. subst task.
  unfold currentNodeFromRow in E. apply bind_Ok in E as (r & Er & E). apply bind_Ok in E as (sch & _ & E).
  apply bind_Ok in E as (src & _ & E). apply bind_Ok in E as (sel & _ & E). apply bind_Ok in E as (node' & E & [= <-]).
  apply NewCurrentNode_eq in E as ->. apply NewCurrentNodeReference_eq in Er as ->. simpl. split; [done|].
  destruct at_.2; simpl; [by rewrite TrimSpace_idemp|done].
Qed.
Lemma ListTaskCurrentNodes_task (s : @db L) task : Forall (λ r, r.1.2.1 = task) (ListTaskCurrentNodes s task).
Proof.
  apply Forall_forall. intros [[kind at_] row] ([at' row'] & Hr & E)%list_elem_of_omap. simpl in *.
  destruct (node_row s (row_NodeID row')); simplify_eq/=.
  apply list_elem_of_omap in Hr as (at'' & Hat & E). destruct (db_current s !! at''); simplify_eq/=.
  apply elem_of_cons in Hat as [-> |(key & -> & _)%list_elem_of_fmap]; done.
Qed.
Lemma read_current_nodes_task task :
  yields (read_current_nodes protovalidate reads faulty task)
    (Forall (λ node, task_of node = TrimSpace task ∧ (TrimSpace <$> branch node) = branch node)).
Proof.
  eapply yields_seq; [apply (yields_observe _ _ _ _ (λ rows, Forall (λ r, r.1.2.1 = task) rows)); intros n; apply ListTaskCurrentNodes_task|].
  intros rows Hrows. apply yields_checked. intros nodes E. by eapply decode_task.
Qed.

Lemma find_reference_Some (nodes : list (CurrentNode L)) r node : find_reference nodes r = Some node → node ∈ nodes ∧ cn_Reference node = r.
Proof.
  unfold find_reference. intros [Hin E]%find_some. split; [by apply list_elem_of_In|].
  by apply CurrentNodeReference_Equal_eq.
Qed.
(** A current node that was read has its reference, which is trimmed. *)
Definition read_as (r : CurrentNodeReference) node : Prop :=
  cn_Reference node = r ∧ TrimSpace (cnr_TaskID r) = cnr_TaskID r ∧ TrimSpace <$> cnr_transitionBranchKey r = cnr_transitionBranchKey r.
Lemma read_current_node_as r : yields (read_current_node protovalidate reads faulty r) (read_as r).
Proof.
  eapply yields_seq; [apply read_current_nodes_task|]. intros nodes Hn. skip; [|skip].
  apply find_reference_Some in Heqo as [Hin <-]. rewrite Forall_forall in Hn. destruct (Hn _ Hin) as [H1 H2].
  by apply yields_ret; split_and!.
Qed.

(** ** Plans *)
Lemma materialize_plan taskID task version def sources targets :
  yields (materializeTaskExecutionPlan protovalidate reads faulty taskID task version def sources targets) (λ plan,
    plan = {| pl_taskID := taskID; pl_task := task; pl_workflowVersion := version; pl_sources := sources; pl_targets := targets;
              pl_completion := None; pl_approval := None; pl_joinArrival := None; pl_joinBefore := []; pl_destination := None |}).
Proof.
  unfold materializeTaskExecutionPlan. skip.
  eapply yields_seq; [apply yields_checked, copyPlannedCurrentNodes_eq|]. intros ? ->.
  eapply yields_seq; [apply yields_checked, copyPlannedCurrentNodes_eq|]. intros ? ->.
  skip. by apply yields_ret.
Qed.
Lemma plan_execution taskID task version sources targets :
  yields (planTaskExecution protovalidate reads faulty taskID task version sources targets) (λ plan,
    plan = {| pl_taskID := taskID; pl_task := task; pl_workflowVersion := version; pl_sources := sources; pl_targets := targets;
              pl_completion := None; pl_approval := None; pl_joinArrival := None; pl_joinBefore := []; pl_destination := None |}).
Proof.
  unfold planTaskExecution. skip. skip; [skip|]. bool_simp. subst version. apply materialize_plan.
Qed.

(** ** Completions *)
Abbreviation completion := (@CurrentNodeCompletionResult L) (only parsing).
(** The result waits for an approval, or creates [created]. *)
Definition outcome (created : list (CurrentNode L) → Prop) (result : completion) : Prop :=
  match res_PendingApproval result with Some _ => res_Created result = [] | None => created (res_Created result) end.
(** Targets of the task that takes [node] on, at the same place. *)
Definition onward node node' : Prop := task_of node' = TrimSpace (task_of node) ∧ branch node' = TrimSpace <$> branch node.

Lemma currentNodeReferenceBranchKey_eq r : currentNodeReferenceBranchKey r = cnr_transitionBranchKey r.
Proof. unfold currentNodeReferenceBranchKey, TransitionBranchKey_of. by destruct (cnr_transitionBranchKey r). Qed.

Lemma plan_sequential id now def version group source node target req :
  yields (planSequentialCompletion protovalidate Parse catalog reads faulty id now def version group source node target req)
    (outcome (λ created, ∃ node', created = [node'] ∧ onward node node')).
Proof.
  unfold planSequentialCompletion, outcome, onward. rewrite currentNodeReferenceBranchKey_eq.
  eapply yields_seq; [apply materialize_completion_place|]. intros [node' legacy] Hp. simpl in *. skip.
  - apply yields_checked. intros result (b & _ & (approval & _ & [= <-])%bind_Ok)%bind_Ok. done.
  - skip; [skip|]; apply yields_ret; simpl; eauto.
Qed.

Lemma fanout_targets_task def source node targets outputs commentary :
  yields (fanout_targets protovalidate Parse catalog reads faulty def source node targets outputs commentary) (λ prepared,
    length prepared = length targets ∧ Forall (λ p, task_of p.1.1 = TrimSpace (task_of node)) prepared).
Proof.
  induction targets as [|[edge target] targets IH]; simpl; [by apply yields_ret|]. cbv zeta. skip; [skip|].
  eapply yields_seq; [apply materialize_completion_place|]. intros [node' legacy] [Ht _]. simpl in *. skip.
  eapply yields_seq; [apply IH|]. intros prepared [Hl Hall]. apply yields_ret. simpl. split; [by f_equal|by constructor].
Qed.
Lemma plan_fanout id now def source node targets commentary outputs version group :
  yields (planCurrentNodeFanout protovalidate Parse catalog reads faulty id now def source node targets commentary outputs version group)
    (λ result, branch node = None ∧ outcome (λ created,
      length created = length targets ∧ Forall (λ node', task_of node' = TrimSpace (task_of node)) created) result).
Proof.
  unfold planCurrentNodeFanout, IsBranchScoped, TransitionBranchKey_of, outcome.
  destruct (branch node) eqn:Eb; simpl; [skip|]. eapply yields_seq; [apply fanout_targets_task|].
  intros prepared [Hl Ht]. skip.
  - apply yields_checked. intros result (approval & _ & [= <-])%bind_Ok. done.
  - skip. apply yields_ret. simpl. rewrite length_fmap, Forall_fmap. done.
Qed.

Lemma newNonExecutable_place taskID id prior node :
  newNonExecutableCurrentNodeWithPriorValues protovalidate taskID id prior = Ok node →
  task_of node = TrimSpace taskID ∧ branch node = None.
Proof.
  unfold newNonExecutableCurrentNodeWithPriorValues. intros (r & Er & En)%bind_Ok.
  apply NewCurrentNode_eq in En as ->. by apply NewCurrentNodeReference_eq in Er as ->.
Qed.
(** The arrival at a join, and what it opens. *)
Definition joins node (before : list fanout_row) (result : completion) (arrival : TransitionBranchKey * gmap string string) : Prop :=
  branch node = Some arrival.1 ∧ res_PendingApproval result = None ∧
  ∃ rows complete, materializeFanoutJoinArrivals before (Some arrival) = Ok (rows, complete) ∧
    if complete : bool then ∃ node', res_Created result = [node'] ∧ task_of node' = TrimSpace (task_of node) ∧ branch node' = None
    else res_Created result = [].
Lemma plan_join def node edge outputs before :
  TrimSpace (task_of node) = task_of node →
  yields (planCurrentNodeJoinArrival protovalidate Parse catalog reads faulty def node edge outputs before)
    (λ r, joins node before r.1 r.2).
Proof.
  intros Htrim. unfold planCurrentNodeJoinArrival, TransitionBranchKey_of, joins. destruct (branch node) as [key|] eqn:Eb; simpl; [|skip].
  do 5 skip. eapply yields_skip. intros values. cbv zeta.
  eapply yields_seq; [apply (yields_checked _ (λ r, materializeFanoutJoinArrivals before (Some (key, values)) = Ok r)); naive_solver|].
  intros [rows complete] Ea. simpl. destruct complete; simpl; [|apply yields_ret; simpl; split_and!; [done|done|]; by exists rows, false].
  skip; [|skip]. do 2 skip.
  eapply yields_seq; [apply yields_checked, newNonExecutable_place|]. intros joinSource [Hj _]. eapply yields_seq; [apply materialize_completion_place|]. intros [node' legacy] [Ht Hb]. simpl in *.
  rewrite Hj, Htrim, Htrim in Ht. skip; [skip|]; apply yields_ret; simpl; split_and!; try done; exists rows, true; rewrite Htrim; eauto.
Qed.

(** A plan of a completion: the source goes on to one place of its own, opens
    a fan-out, arrives at a join that still waits or that opens, or stays for
    an approval. *)
Inductive completes (plan : @taskExecutionPlan L) : Prop :=
| completes_waits node : pl_sources plan = [node] → pl_targets plan = [] → new_approval plan ≠ None →
    pl_joinArrival plan = None → completes plan
| completes_onward node node' : pl_sources plan = [node] → pl_targets plan = [node'] → new_approval plan = None →
    pl_joinArrival plan = None → branch node' = branch node → completes plan
| completes_fanout node : pl_sources plan = [node] → branch node = None → (2 ≤ length (pl_targets plan))%nat →
    new_approval plan = None → pl_joinArrival plan = None → completes plan
| completes_arrival node key values rows : pl_sources plan = [node] → branch node = Some key → pl_targets plan = [] →
    new_approval plan = None → pl_joinArrival plan = Some (key, values) →
    materializeFanoutJoinArrivals (pl_joinBefore plan) (Some (key, values)) = Ok (rows, false) → completes plan
| completes_join node node' key values rows : pl_sources plan = [node] → branch node = Some key → pl_targets plan = [node'] →
    branch node' = None → new_approval plan = None → pl_joinArrival plan = Some (key, values) →
    materializeFanoutJoinArrivals (pl_joinBefore plan) (Some (key, values)) = Ok (rows, true) → completes plan.

Definition in_task (plan : @taskExecutionPlan L) : Prop :=
  Forall (λ node, task_of node = TrimSpace (pl_taskID plan)) (pl_targets plan).

(** What is planned, before the result is completed with later facts. *)
Definition planned_shape node (p : completion * option (TransitionBranchKey * gmap string string) * list fanout_row) : Prop :=
  let '(result, arrival, before) := p in
  match arrival with
  | Some a => joins node before result a
  | None =>
    outcome (λ created, Forall (λ node', task_of node' = TrimSpace (task_of node)) created ∧
      match created with
      | [] => False
      | [node'] => branch node' = TrimSpace <$> branch node
      | _ => branch node = None
      end) result
  end.

Lemma post_turn_facts def node accepted eligible handoff result :
  yields (completeCurrentNodePostTurnFacts reads faulty def node accepted eligible handoff result)
    (λ result', res_Created result' = res_Created result ∧ res_PendingApproval result' = res_PendingApproval result).
Proof. unfold completeCurrentNodePostTurnFacts. do 2 skip. by apply yields_ret. Qed.

Lemma completes_shape plan node result arrival before :
  planned_shape node (result, arrival, before) → read_as (cn_Reference node) node →
  pl_taskID plan = task_of node → pl_sources plan = [node] → pl_targets plan = res_Created result →
  new_approval plan = res_PendingApproval result → pl_joinArrival plan = arrival → pl_joinBefore plan = before →
  completes plan ∧ in_task plan.
Proof.
  intros Hp (_ & Ht & Hb) Hid Hsrc Htg Ha Hj Hbef. unfold in_task. rewrite Htg, Hid. destruct arrival as [[key values]|]; simpl in Hp.
  - destruct Hp as (Hk & Hnone & rows & complete & Em & Hc). rewrite Hnone in Ha. simpl in Hk. destruct complete.
    + destruct Hc as (node' & Ec & Ht' & Hb'). rewrite Ec in *. split; [|by repeat constructor].
      eapply completes_join; eauto. by rewrite Hbef.
    + rewrite Hc in *. split; [|done]. eapply completes_arrival; eauto. by rewrite Hbef.
  - unfold outcome in Hp. destruct (res_PendingApproval result).
    + rewrite Hp in *. split; [|done]. eapply completes_waits; eauto. by rewrite Ha.
    + destruct Hp as [Htask Hshape]. split; [|done]. destruct (res_Created result) as [|n1 [|n2 ns]] eqn:Ec; [done| |].
      * eapply completes_onward; eauto. by rewrite Hshape.
      * eapply completes_fanout; eauto. rewrite Htg. simpl. lia.
Qed.

Lemma transition_targets def source id group targets :
  currentNodeCompletionTransition def source id = Ok (group, targets) → targets ≠ [].
Proof.
  unfold currentNodeCompletionTransition. cbv zeta. intros (g & _ & (ts & _ & E)%bind_Ok)%bind_Ok.
  case_match; [done|]. bool_simp. simplify_eq. by intros ->.
Qed.

Lemma plan_targets id now def source node targets version group req before_rows :
  read_as (cn_Reference node) node → targets ≠ [] →
  yields (match targets with
    | [target] =>
      if Kind target.2 ==? NodeKindJoin then
        before ← observe reads faulty "list fan-out branches" before_rows;
        joined ← planCurrentNodeJoinArrival protovalidate Parse catalog reads faulty def node target.1 (cq_OutputValues req) before;
        mret (joined.1, Some joined.2, before)
      else
        result ← planSequentialCompletion protovalidate Parse catalog reads faulty id now def version group source node target req;
        mret (result, None, [])
    | _ =>
      result ← planCurrentNodeFanout protovalidate Parse catalog reads faulty id now def source node targets (cq_Commentary req)
        (cq_OutputValues req) version group;
      mret (result, None, [])
    end) (planned_shape node).
Proof.
  intros (_ & Ht & Hb) Hne.
  assert (2 ≤ length targets → yields (result ← planCurrentNodeFanout protovalidate Parse catalog reads faulty id now def source node targets
      (cq_Commentary req) (cq_OutputValues req) version group; mret (result, None, [])) (planned_shape node))%nat as Hfan.
  { intros Hl. eapply yields_seq; [apply plan_fanout|]. intros result [Hnone Ho]. apply yields_ret. simpl. unfold outcome in *.
    destruct (res_PendingApproval result); [done|]. destruct Ho as [Hlen Hall]. split; [done|].
    destruct (res_Created result) as [|n1 [|n2 ns]]; simpl in *; [lia|lia|done]. }
  destruct targets as [|target [|target' targets]]; [done| |apply Hfan; simpl; lia].
  skip.
  - skip. eapply yields_seq; [by apply plan_join|]. intros [result arrival] Hj. by apply yields_ret.
  - eapply yields_seq; [apply plan_sequential|]. intros result Ho. apply yields_ret. simpl. unfold outcome in *.
    destruct (res_PendingApproval result); [done|]. destruct Ho as (node' & -> & Ht' & Hb'). by repeat constructor.
Qed.

Lemma plan_completion id now request :
  yields (PlanCurrentNodeCompletion protovalidate Parse catalog reads faulty id now request)
    (λ plan, completes plan ∧ in_task plan).
Proof.
  unfold PlanCurrentNodeCompletion. apply yields_skip. intros req. cbv zeta. do 4 skip. skip; [skip|].
  eapply yields_seq; [apply read_current_node_as|]. intros node Hr. assert (cn_Reference node = cq_Source req) as Hsrc by apply Hr.
  rewrite <- Hsrc in *. skip. skip; [skip|].
  eapply yields_seq; [apply (yields_checked _ (λ t, t.2 ≠ []))|].
  { intros [group targets] E. by eapply transition_targets. }
  intros [group targets] Hne. skip. skip.
  eapply yields_seq; [by apply plan_targets|]. intros [[result arrival] before] Hp. skip.
  eapply yields_seq; [apply post_turn_facts|]. intros result' [Hc Ha].
  eapply yields_seq; [apply plan_execution|]. intros plan ->. apply yields_ret.
  eapply completes_shape; eauto; by rewrite ?Hc, <- ?Ha.
Qed.

(** ** The other moves *)
Definition plain (plan : @taskExecutionPlan L) : Prop := pl_completion plan = None ∧ pl_joinArrival plan = None.

(** The plans of each action. *)
Definition plan_shape (action : taskExecutionAction) (plan : @taskExecutionPlan L) : Prop :=
  match action with
  | taskExecutionStart => plain plan ∧ ∃ node, pl_sources plan = [node] ∧ branch node = None ∧
      (∀ node', pl_targets plan = [node'] → branch node' = None)
  | taskExecutionResume => plain plan ∧ (cn_Reference <$> pl_targets plan) = (cn_Reference <$> pl_sources plan)
  | taskExecutionMove => plain plan
  | taskExecutionComplete => completes plan
  | taskExecutionApprove => plain plan ∧ ∃ node, pl_sources plan = [node] ∧
      (∀ node', pl_targets plan = [node'] → branch node' = branch node)
  end.
Definition plan_ok action plan : Prop := in_task plan ∧ plan_shape action plan.

Lemma start_targets_places taskID prepared (fanOut : bool) targets :
  yields (start_targets protovalidate Parse catalog reads faulty taskID prepared fanOut targets) (λ nodes,
    length nodes = length targets ∧
    Forall (λ node, task_of node = TrimSpace taskID ∧ (fanOut = false → branch node = None)) nodes).
Proof.
  induction targets as [|target targets IH]; simpl; [by apply yields_ret|].
  eapply yields_seq; [apply materialize_place|]. intros [node legacy] [Ht Hb]. simpl in *.
  eapply yields_seq; [apply IH|]. intros nodes [Hl Hall]. apply yields_ret. simpl. split; [by f_equal|].
  constructor; [|done]. split; [done|]. by intros ->.
Qed.

Lemma plan_start taskID :
  yields (PlanTaskStart protovalidate Parse catalog reads faulty taskID) (plan_ok taskExecutionStart).
Proof.
  unfold PlanTaskStart. eapply yields_seq with (Q := λ p, branch (st_startCurrentNode p) = None).
  { unfold prepareTaskStart. do 2 skip. cbv zeta. skip.
    eapply yields_seq; [apply yields_checked, NewCurrentNodeReference_eq|]. intros r Hr. skip. skip; [|skip].
    apply find_reference_Some in Heqo as [_ E]. skip; [skip|]. do 2 skip. apply yields_ret. simpl. by rewrite E, Hr. }
  intros prepared Hb. unfold materializeTaskStart. eapply yields_seq; [apply start_targets_places|]. intros targets [Hl Hall].
  eapply yields_mono; [apply plan_execution|]. intros plan ->. split; [|split; [done|]].
  - eapply Forall_impl; [done|]. by intros node [Ht _].
  - eexists. split_and!; [done|done|]. simpl. intros node' ->. apply Forall_inv in Hall as [_ H]. apply H.
    destruct (st_targets prepared) as [|? []]; try done.
Qed.

Lemma select_resumed_task taskID classifications seen references nodes :
  select_resumed taskID classifications seen references = Ok nodes →
  Forall (λ node : CurrentNode L, task_of node = taskID ∧ node ∈ classifications.*1) nodes.
Proof.
  revert seen nodes. induction references as [|r rs IH]; intros seen nodes; simpl; [by intros [= <-]|].
  intros (key & _ & E)%bind_Ok. case_match eqn:Et; [done|]. bool_simp. case_match; [done|].
  destruct (find _ classifications) as [[node diags]|] eqn:Ef; [|done]. case_match; [done|].
  apply bind_Ok in E as (nodes' & E & [= <-]). apply find_some in Ef as [Hin Heq%CurrentNodeReference_Equal_eq]. simpl in Heq.
  constructor; [|by eapply IH]. rewrite Heq. split; [done|]. apply list_elem_of_fmap. exists (node, diags).
  split; [done|]. by apply list_elem_of_In.
Qed.

Lemma interrupted_nodes_incl (Q : CurrentNode L → Prop) def nodes :
  Forall Q nodes → yields (interrupted_nodes protovalidate reads faulty def nodes) (Forall Q).
Proof.
  induction 1 as [|node nodes Hq Hall IH]; simpl; [by apply yields_ret|]. skip; [done|]. skip. skip; [done|]. skip.
  eapply yields_seq; [apply IH|]. intros found Hf. apply yields_ret. case_match; [by constructor|done].
Qed.
Lemma preflight_resume_task taskID :
  yields (PreflightTaskResume protovalidate Parse catalog reads faulty taskID)
    (λ classifications, Forall (λ node : CurrentNode L, task_of node = TrimSpace taskID) classifications.*1).
Proof.
  unfold PreflightTaskResume. skip; [skip|]. do 3 skip. cbv zeta. skip.
  eapply yields_seq with (Q := Forall (λ node : CurrentNode L, task_of node = TrimSpace taskID)).
  { eapply yields_seq; [apply read_current_nodes_task|]. intros nodes Hn. apply interrupted_nodes_incl.
    eapply Forall_impl; [done|]. by intros node [? _]. }
  intros nodes Hn. apply yields_checked. intros cs E. clear -Hn E. revert cs E.
  induction Hn as [|node nodes Ht Hn IH]; intros cs; simpl; [by intros [= <-]|].
  intros (c & Ec & (cs' & E' & [= <-])%bind_Ok)%bind_Ok. simpl. constructor; [|by apply IH].
  unfold classify_resume in Ec. apply bind_Ok in Ec as (e & _ & Ec). apply bind_Ok in Ec as (t & _ & Ec).
  by apply bind_Ok in Ec as (p & _ & [= <-]).
Qed.
Lemma plan_resume taskID references :
  yields (PlanTaskResume protovalidate Parse catalog reads faulty taskID references) (plan_ok taskExecutionResume).
Proof.
  unfold PlanTaskResume. skip; [skip|]. do 2 skip. eapply yields_seq; [apply preflight_resume_task|]. intros cs Hcs.
  eapply yields_seq; [apply yields_checked, select_resumed_task|]. intros nodes Hn. do 2 skip. skip; [skip|].
  eapply yields_mono; [apply plan_execution|]. intros plan ->. split; [|done].
  rewrite Forall_forall in Hcs. eapply Forall_impl; [done|]. intros node [_ Hin]. by apply Hcs.
Qed.

Lemma commentary_task (nodes : list (CurrentNode L)) commentary taskID :
  Forall (λ node, task_of node = taskID) nodes →
  Forall (λ node, task_of node = taskID) (applyManualMoveCommentary nodes commentary).
Proof. unfold applyManualMoveCommentary. case_match; [done|]. by rewrite Forall_fmap. Qed.

Lemma move_targets_task def choice taskID nodes environment submitted fanOut edges :
  yields (move_targets protovalidate Parse catalog reads faulty def choice taskID nodes environment submitted fanOut edges)
    (Forall (λ node, task_of node = TrimSpace taskID)).
Proof.
  induction edges as [|edge edges IH]; simpl; [by apply yields_ret|]. skip. skip; [skip|].
  eapply yields_seq; [apply materialize_place|]. intros [node legacy] [Ht _]. simpl in *.
  eapply yields_seq; [apply IH|]. intros targets Hall. apply yields_ret. by constructor.
Qed.
Lemma materialize_move_task def choice nodes environment submitted taskID :
  Forall (λ node, task_of node = TrimSpace taskID) nodes →
  yields (materializeManualMoveTargets protovalidate Parse catalog reads faulty def choice nodes environment submitted)
    (Forall (λ node, task_of node = TrimSpace taskID)).
Proof.
  intros Hn. unfold materializeManualMoveTargets. skip; [skip|]. destruct nodes as [|first nodes]; [skip|].
  apply Forall_inv in Hn. cbv zeta. eapply yields_seq; [apply move_targets_task|]. intros targets Ht.
  rewrite Hn, TrimSpace_idemp in Ht. skip; [skip; [skip|]|]; by apply yields_ret.
Qed.

Lemma prepare_move_task preview req :
  yields (PrepareManualMove protovalidate Parse catalog reads faulty preview req) (λ p,
    mp_choice p ≠ None → Forall (λ node : CurrentNode L, task_of node = TrimSpace (mm_TaskID req)) (mp_currentNodes p)).
Proof.
  unfold PrepareManualMove. cbv zeta. do 3 skip. skip.
  - by apply yields_ret.
  - do 2 skip. by apply yields_ret.
  - destruct choices as [|choice []]; [skip| |skip]. skip.
    eapply yields_seq; [apply read_current_nodes_task|]. intros nodes Hn. skip. apply yields_ret. intros _.
    eapply Forall_impl; [done|]. by intros node [? _].
  - skip.
Qed.
Lemma plan_move preview environment prepared candidate :
  yields (PlanManualMove protovalidate Parse catalog reads faulty preview environment prepared candidate)
    (λ p, plan_ok taskExecutionMove p.1).
Proof.
  unfold PlanManualMove. skip; [skip|]. cbv zeta. eapply yields_seq; [apply prepare_move_task|]. intros current Hc. do 2 skip.
  skip; [skip|]. skip; [|skip; apply yields_ret; split; [by constructor|done]]. do 2 skip. skip.
  - skip; [skip|]. eapply yields_seq; [apply yields_checked, newNonExecutable_place|]. intros node [Ht _].
    apply yields_ret. split; [|done]. simpl. unfold in_task. simpl. apply commentary_task. by repeat constructor.
  - skip; [|skip]. do 2 skip. eapply yields_seq; [apply materialize_move_task; apply Hc; congruence|]. intros targets Ht.
    eapply yields_seq; [apply plan_execution|]. intros plan ->. apply yields_ret. split; [|done]. by apply commentary_task.
Qed.

(** The targets of an approval belong to the task of its source. *)
Lemma approval_targets_task id row approval :
  pendingApprovalFromRow protovalidate id row = Ok approval →
  Forall (λ b, task_of (pat_CurrentNode (pab_Target b)) = TrimSpace (cnr_TaskID (pa_Source approval))) (pa_Branches approval).
Proof.
  unfold pendingApprovalFromRow. intros (source & _ & E)%bind_Ok. case_match; [done|].
  apply bind_Ok in E as (branches & Eb & E). case_match; [done|]. injection E as <-. simpl. clear -Eb. revert branches Eb.
  generalize (sort_strings (elements (dom (apr_Branches row)))) as keys.
  induction keys as [|key keys IH]; intros branches; simpl; [by intros [= <-]|].
  intros (b & Eb & (bs & Ebs & [= <-])%bind_Ok)%bind_Ok. constructor; [|by apply IH].
  destruct (apr_Branches row !! key) as [brow|]; [|done]. unfold pendingApprovalBranchFromRow in Eb.
  case_match; [done|]. apply bind_Ok in Eb as (target & Et & Eb). case_match; [done|]. case_match; [done|].
  injection Eb as <-. simpl. unfold pendingApprovalTargetFromSnapshot in Et. case_match; [done|].
  assert (∃ node, cn_Reference (pat_CurrentNode target) = cn_Reference node ∧ task_of node = TrimSpace (cnr_TaskID source)) as (node & -> & ?);
    [|done].
  destruct (abr_NodeKind brow), (abr_AgentExecutionSelection brow); try done;
    apply bind_Ok in Et as (r & Er & (node & En & [= <-])%bind_Ok);
    apply NewCurrentNode_eq in En as ->; apply NewCurrentNodeReference_eq in Er as ->; eexists; by split.
Qed.
Lemma sequential_branch source target :
  validatePendingApprovalSequentialTarget source target = None → cnr_transitionBranchKey target = cnr_transitionBranchKey source.
Proof.
  unfold validatePendingApprovalSequentialTarget, TransitionBranchKey_of, check.
  destruct (cnr_transitionBranchKey source), (cnr_transitionBranchKey target); simpl; try done.
  case_match eqn:E; [done|]. intros _. by bool_simp; subst.
Qed.
Lemma plan_approval id :
  yields (PlanPendingApproval protovalidate reads faulty id) (plan_ok taskExecutionApprove).
Proof.
  unfold PlanPendingApproval. skip. eapply yields_seq; [apply yields_checked, approval_targets_task|]. intros approval Ht.
  cbv zeta. do 3 skip. eapply yields_seq; [apply read_current_node_as|]. intros node (Hr & _ & _).
  apply yields_bind. intros n [] n' Hv. eapply yields_seq; [apply materialize_plan|]. intros plan ->. apply yields_ret.
  split; [|split; [done|]].
  - unfold in_task. simpl. by rewrite Forall_fmap.
  - exists node. split; [done|]. simpl. intros node' E. rewrite E in Hv. apply sequential_branch. rewrite Hr.
    by destruct (validatePendingApprovalSequentialTarget _ _).
Qed.
End targets.
