(* ===== verification/TaskPositionFacts.v ===== *)
(** * Where a task can be

    Every task is at one serial node, or at the branches of an active fan-out
    that have not arrived. The invariant, the steps that the code takes on the
    tables, and that each of them keeps it. *)
From Stdlib Require Import ZArith String Lia.
From stdpp Require Import gmap strings list.
From S2P Require Import Prelude Transactions GoStrings Types Reach Fanout Selection PromptRefs Wiring Validation.
From S2P Require Import CurrentState SessionReuse TaskTables Materialization TaskPlanning TaskExecution TaskActions.
From S2P Require Import TaskCutoverFacts TaskPlanFacts.

Local Open Scope string_scope.

Section positions.
Context {order : RangeOrder}.
Context {L : Type} (protovalidate : L → option error).
Implicit Types (s : @db L) (node : CurrentNode L) (plan : @taskExecutionPlan L) (action : taskExecutionAction).
Abbreviation spot node := (place_of (cn_Reference node)).
Abbreviation branch node := (cnr_transitionBranchKey (cn_Reference node)).
Abbreviation task_of node := (cnr_TaskID (cn_Reference node)).

(** ** The invariant *)
Definition positioned s (task : TaskID) : Prop :=
  match db_fanouts s !! task with
  | None => is_Some (db_current s !! (task, None)) ∧ ∀ key, db_current s !! (task, Some key) = None
  | Some branches =>
    db_current s !! (task, None) = None ∧
    (∀ key, is_Some (db_current s !! (task, Some key)) ↔ branches !! key = Some None) ∧
    (2 ≤ size branches)%nat ∧ ∃ key, branches !! key = Some None
  end.
(** Every task is positioned and has a trimmed id, and nothing else is. *)
Record store_ok s : Prop := {
  ok_tasks : ∀ task, is_Some (db_tasks s !! task) → TrimSpace task = task ∧ positioned s task;
  ok_others : ∀ task, db_tasks s !! task = None → db_fanouts s !! task = None ∧ ∀ key, db_current s !! (task, key) = None }.

Lemma positioned_ext s s' task :
  db_fanouts s' !! task = db_fanouts s !! task →
  (∀ key, is_Some (db_current s' !! (task, key)) ↔ is_Some (db_current s !! (task, key))) →
  positioned s task → positioned s' task.
Proof.
  intros Hf Hdom. unfold positioned. rewrite Hf. destruct (db_fanouts s !! task) as [branches|].
  - intros (H1 & H2 & H3 & H4). split_and!; [|intros key; by rewrite Hdom|done..].
    apply eq_None_not_Some. rewrite Hdom, H1. apply is_Some_None.
  - intros [H1 H2]. split; [by apply Hdom|]. intros key. apply eq_None_not_Some. rewrite Hdom, H2. apply is_Some_None.
Qed.
(** The same tasks at the same places. *)
Definition same_places s s' : Prop :=
  dom (db_tasks s') = dom (db_tasks s) ∧ db_fanouts s' = db_fanouts s ∧ dom (db_current s') = dom (db_current s).
Lemma same_places_refl s : same_places s s.
Proof. done. Qed.
Lemma dom_tasks s s' task : dom (db_tasks s') = dom (db_tasks s) → is_Some (db_tasks s' !! task) ↔ is_Some (db_tasks s !! task).
Proof. intros E. by rewrite <- !elem_of_dom, E. Qed.
Lemma store_ok_same s s' : same_places s s' → store_ok s → store_ok s'.
Proof.
  intros (Ht & Hf & Hc) [H1 H2].
  assert (∀ p, is_Some (db_current s' !! p) ↔ is_Some (db_current s !! p)) as Hdom by (intros p; by rewrite <- !elem_of_dom, Hc).
  split; intros task.
  - rewrite (dom_tasks s s') by done. intros Hin. destruct (H1 task Hin). split; [done|].
    by eapply positioned_ext; [rewrite Hf|intros; apply Hdom|].
  - rewrite eq_None_not_Some, (dom_tasks s s'), <- eq_None_not_Some, Hf by done. intros [? Hk]%H2. split; [done|].
    intros key. apply eq_None_not_Some. rewrite Hdom, Hk. apply is_Some_None.
Qed.

(** ** Lists of nodes *)
Lemma lookup_delete_all (nodes : list (CurrentNode L)) (m : gmap place (@CurrentNodeRow L)) p :
  delete_all nodes m !! p = if bool_decide (p ∈ (λ node, spot node) <$> nodes) then None else m !! p.
Proof.
  unfold delete_all. revert m. induction nodes as [|node nodes IH]; intros m; simpl; [done|].
  rewrite IH. destruct (decide (p = spot node)) as [-> |Hne].
  - rewrite lookup_delete_eq, (bool_decide_eq_true_2 (_ ∈ _ :: _)) by (by left). by case_match.
  - rewrite lookup_delete_ne by done. erewrite bool_decide_ext; [done|]. rewrite elem_of_cons. naive_solver.
Qed.
Lemma is_Some_insert_all s (nodes : list (CurrentNode L)) m p :
  is_Some (insert_all s nodes m !! p) ↔ p ∈ (λ node, spot node) <$> nodes ∨ is_Some (m !! p).
Proof.
  unfold insert_all. revert m. induction nodes as [|node nodes IH]; intros m; simpl.
  { rewrite elem_of_nil. naive_solver. }
  rewrite IH, elem_of_cons. destruct (decide (p = spot node)) as [-> |Hne].
  - rewrite lookup_insert_eq. naive_solver.
  - rewrite lookup_insert_ne by done. naive_solver.
Qed.
Lemma lookup_insert_all_other s (nodes : list (CurrentNode L)) m p :
  p ∉ (λ node, spot node) <$> nodes → insert_all s nodes m !! p = m !! p.
Proof.
  unfold insert_all. revert m. induction nodes as [|node nodes IH]; intros m; simpl; [done|].
  intros [Hne Hn]%not_elem_of_cons. by rewrite IH, lookup_insert_ne.
Qed.
Lemma lookup_branches_of (nodes : list (CurrentNode L)) m key :
  branches_of nodes m !! key =
    if bool_decide (key ∈ (λ node, (TransitionBranchKey_of (cn_Reference node)).1) <$> nodes) then Some None else m !! key.
Proof.
  unfold branches_of. revert m. induction nodes as [|node nodes IH]; intros m; simpl; [done|].
  rewrite IH. destruct (decide (key = (TransitionBranchKey_of (cn_Reference node)).1)) as [-> |Hne].
  - rewrite lookup_insert_eq, (bool_decide_eq_true_2 (_ ∈ _ :: _)) by (by left). by case_match.
  - rewrite lookup_insert_ne by done. erewrite bool_decide_ext; [done|]. rewrite elem_of_cons. naive_solver.
Qed.

(** Distinct branches of the task, at least two. *)
Lemma validate_targets_spec task seen (targets : list (CurrentNode L)) :
  validate_targets task seen targets = None →
  Forall (λ node, ∃ key, spot node = (task, Some key) ∧ (TransitionBranchKey_of (cn_Reference node)).1 = key) targets ∧
  NoDup ((λ node, (TransitionBranchKey_of (cn_Reference node)).1) <$> targets) ∧
  Forall (λ node, ((TransitionBranchKey_of (cn_Reference node)).1 ∉ seen)) targets.
Proof.
  revert seen. induction targets as [|node targets IH]; intros seen; simpl; [by repeat constructor|].
  destruct (TransitionBranchKey_of (cn_Reference node)) as [key scoped] eqn:Ek.
  assert (scoped = true → spot node = (task_of node, Some key)) as Hspot.
  { unfold TransitionBranchKey_of in Ek. intros ->. unfold place_of. case_match; by simplify_eq. }
  repeat case_match; try done. bool_simp. intros (Hall & Hnd & Hseen)%IH. rewrite Forall_forall in Hseen. split_and!.
  - constructor; [|done]. simpl. rewrite ?Ek. exists key. split; [|done]. rewrite Hspot by done. congruence.
  - constructor; [|done]. simpl. rewrite ?Ek. intros (node' & E & Hin)%list_elem_of_fmap. apply Hseen in Hin. set_solver.
  - constructor; [simpl; by rewrite ?Ek|]. apply Forall_forall. intros node' Hin. apply Hseen in Hin. set_solver.
Qed.

(** ** Arrivals *)
Lemma elem_of_ListTaskActiveFanoutBranches s task branches key arrival :
  db_fanouts s !! task = Some branches →
  (key, arrival) ∈ ListTaskActiveFanoutBranches s task ↔ branches !! key = Some arrival.
Proof.
  intros Ef. unfold ListTaskActiveFanoutBranches. rewrite Ef. simpl. rewrite list_elem_of_omap. split.
  - intros (k & _ & E). by destruct (branches !! k) eqn:Ek; simplify_eq/=.
  - intros Hk. exists key. rewrite Hk. split; [|done].
    by rewrite sort_strings_perm, elem_of_elements, elem_of_dom, Hk.
Qed.
Lemma materialize_arrivals_spec (rows : list fanout_row) key values rows' complete :
  materializeFanoutJoinArrivals rows (Some (key, values)) = Ok (rows', complete) → rows ≠ [] →
  if complete : bool then ∀ key' , (key', None) ∈ rows → key' = key else ∃ key', key' ≠ key ∧ (key', None) ∈ rows.
Proof.
  unfold materializeFanoutJoinArrivals. destruct rows as [|row rows]; [done|]. cbn [length]. rewrite bool_decide_eq_false_2 by lia.
  case_match; [done|]. intros (arrivals & Ea & E)%bind_Ok _. case_match; [done|]. simplify_eq.
  clear -Ea. generalize dependent (row :: rows). intros l. revert rows'. clear row rows.
  induction l as [|row l IH]; intros rows'; simpl; [by intros [= <-] ? ?%elem_of_nil|].
  intros (row' & Er & (rows & El & [= <-])%bind_Ok)%bind_Ok. specialize (IH _ El). simpl.
  assert ((row'.2 = None ∧ row.1 ≠ key ∧ row = (row.1, None)) ∨ (row'.2 ≠ None ∧ (row.2 = None → row.1 = key))) as Hrow.
  { unfold materialize_arrival in Er. destruct row as [k a]. simpl in *. case_match; bool_simp.
    - destruct a; simplify_eq. by right.
    - simplify_eq. simpl. destruct a; [by right|by left]. }
  destruct Hrow as [(-> & Hne & Hrow)|[Hsome Himp]].
  - simpl. exists row.1. split; [done|]. rewrite <- Hrow. by left.
  - rewrite bool_decide_eq_false_2 by done. simpl. destruct (forallb _ rows).
    + intros key' [E|?]%elem_of_cons; [|auto]. rewrite <- E in Himp. by apply Himp.
    + destruct IH as (key' & ? & ?). exists key'. split; [done|]. by right.
Qed.

(** Joins wait while a branch other than the arriving one is pending. *)
Lemma arrival_pending s task key values rows branches :
  db_fanouts s !! task = Some branches →
  materializeFanoutJoinArrivals (ListTaskActiveFanoutBranches s task) (Some (key, values)) = Ok (rows, false) →
  (2 ≤ size branches)%nat →
  ∃ key', key' ≠ key ∧ branches !! key' = Some None.
Proof.
  intros Ef Hm Hsize. apply materialize_arrivals_spec in Hm as (key' & Hne & Hin).
  - exists key'. split; [done|]. by eapply elem_of_ListTaskActiveFanoutBranches.
  - intros E. destruct (map_choose branches) as (k & a & Hk).
    { intros ->. rewrite map_size_empty in Hsize. lia. }
    apply (elem_of_ListTaskActiveFanoutBranches _ _ _ _ _ Ef) in Hk. rewrite E in Hk. by apply elem_of_nil in Hk.
Qed.

(** ** What a committed move leaves *)
Section committed.
Context plan action s removed (targets : list (CurrentNode L)) s'
  (Hc : committed protovalidate plan action s removed targets s').
Abbreviation task := (pl_taskID plan).
Abbreviation left_rows := (delete_all (removed_nodes plan) (db_current s)).
Abbreviation entry := (at_entry plan action targets (db_fanouts s)).

Lemma committed_references : cn_Reference <$> targets = cn_Reference <$> pl_targets plan.
Proof.
  destruct (c_targets _ _ _ _ _ _ _ Hc) as (nodes & Hall & ->). transitivity (cn_Reference <$> nodes).
  - case_match; [done|]. rewrite <- list_fmap_compose. apply list_fmap_ext. by intros i node _.
  - clear -Hall. induction Hall as [|node node' nodes nodes' Ha _ IH]; [done|]. simpl. f_equal; [|done]. by apply assigned_reference.
Qed.
Lemma committed_spots : (λ node, spot node) <$> targets = (λ node, spot node) <$> pl_targets plan.
Proof.
  change (λ node, spot node) with (place_of ∘ @cn_Reference L). by rewrite !list_fmap_compose, committed_references.
Qed.
Lemma committed_length : length targets = length (pl_targets plan).
Proof. by rewrite <- (length_fmap cn_Reference), committed_references, length_fmap. Qed.
Lemma committed_one node : pl_targets plan = [node] → ∃ node', targets = [node'] ∧ spot node' = spot node.
Proof.
  intros E. pose proof committed_length as Hl. pose proof committed_spots as Hs. rewrite E in Hl, Hs.
  destruct targets as [|node' []]; try done. exists node'. split; [done|]. simpl in Hs. congruence.
Qed.

Lemma committed_sources_task node : node ∈ pl_sources plan → task_of node = TrimSpace task.
Proof.
  destruct (v_sources _ _ _ _ (c_validated _ _ _ _ _ _ _ Hc)) as (current & Ec & Hall & _).
  rewrite Forall_forall in Hall. intros (actual & [Hin <-]%find_reference_Some & _)%Hall.
  pose proof (decode_task protovalidate task _ _ Ec (ListTaskCurrentNodes_task s task)) as Ht.
  rewrite Forall_forall in Ht. by apply Ht.
Qed.
Lemma committed_removed_task node : node ∈ removed_nodes plan → task_of node = TrimSpace task.
Proof. unfold removed_nodes. case_match; [by intros ?%elem_of_nil|]. apply committed_sources_task. Qed.

Hypothesis (Ht : TrimSpace task = task) (Hin : in_task plan) (Hp : positioned s task).

(** Other tasks keep their rows. *)
Lemma committed_other task' key : task' ≠ task → db_current s' !! (task', key) = db_current s !! (task', key).
Proof.
  intros Hne. rewrite (c_current _ _ _ _ _ _ _ Hc), lookup_insert_all_other, lookup_delete_all.
  - rewrite bool_decide_eq_false_2; [done|]. intros (node & E & Hnode)%list_elem_of_fmap.
    apply committed_removed_task in Hnode. unfold place_of in E. congruence.
  - rewrite committed_spots. intros (node & E & Hnode)%list_elem_of_fmap.
    unfold in_task in Hin. rewrite Forall_forall in Hin. apply Hin in Hnode. unfold place_of in E. congruence.
Qed.
Lemma committed_other_fanout task' : task' ≠ task → db_fanouts s' !! task' = db_fanouts s !! task'.
Proof.
  intros Hne. rewrite (c_fanouts _ _ _ _ _ _ _ Hc). unfold at_entry, arrived.
  repeat case_match; by rewrite ?lookup_insert_ne, ?lookup_delete_ne, ?lookup_alter_ne.
Qed.

(** Where no fan-out is active at the entry, no branch has a node left. *)
Lemma arrived_None fanouts : arrived plan fanouts !! task = None ↔ fanouts !! task = None.
Proof. unfold arrived. destruct (pl_joinArrival plan) as [[key values]|]; [|done]. by rewrite lookup_alter_eq, fmap_None. Qed.
Lemma no_branch_left key : entry !! task = None → left_rows !! (task, Some key) = None.
Proof.
  intros He. rewrite lookup_delete_all. case_match eqn:Ek; [done|]. apply eq_None_not_Some. intros Hrow.
  unfold positioned in Hp. destruct (db_fanouts s !! task) as [branches|] eqn:Ef.
  2: { destruct Hp as [_ H]. rewrite H in Hrow. by destruct Hrow. }
  destruct Hp as (_ & Hb & _). apply Hb in Hrow as Hkey.
  unfold at_entry in He. destruct (closes plan action targets) eqn:Ecl; [|rewrite arrived_None in He; congruence].
  assert (∃ branches', arrived plan (db_fanouts s) !! task = Some branches' ∧ is_Some (branches' !! key)) as (branches' & E' & Hk').
  { unfold arrived. destruct (pl_joinArrival plan) as [[key' values]|]; [|eauto].
    rewrite lookup_alter_eq, Ef. eexists. split; [done|]. destruct (decide (key' = key)) as [-> |].
    - by rewrite lookup_insert_eq. - rewrite lookup_insert_ne by done. eauto. }
  pose proof (c_left _ _ _ _ _ _ _ Hc Ecl _ _ E' Hk') as Hl. rewrite lookup_delete_all, Ek in Hl. rewrite Hl in Hrow. by destruct Hrow.
Qed.

(** A fan-out is opened. *)
Lemma positioned_fanout : fans_out action targets = true → positioned s' task.
Proof.
  intros Hfan. pose proof (c_entry _ _ _ _ _ _ _ Hc) as He. pose proof (c_fanouts _ _ _ _ _ _ _ Hc) as Hf.
  rewrite Hfan in He, Hf. destruct He as (Hnone & Hserial & Hv). unfold validateFanoutTargets in Hv.
  case_match eqn:El; [done|]. apply Nat.ltb_ge in El. apply validate_targets_spec in Hv as (Hall & Hnd & _).
  rewrite Forall_forall in Hall. unfold positioned. rewrite Hf, lookup_insert_eq, (c_current _ _ _ _ _ _ _ Hc). split_and!.
  - rewrite lookup_insert_all_other; [done|]. intros (node & E & (key & Hs & _)%Hall)%list_elem_of_fmap. congruence.
  - intros key. rewrite is_Some_insert_all, (no_branch_left key Hnone), lookup_branches_of. case_bool_decide as Hk.
    + split; [done|]. intros _. left. apply list_elem_of_fmap in Hk as (node & -> & Hn). apply list_elem_of_fmap.
      exists node. split; [|done]. by destruct (Hall node Hn) as (key & -> & ->).
    + split; [|done]. intros [(node & E & Hn)%list_elem_of_fmap|[]%is_Some_None]. destruct Hk. apply list_elem_of_fmap.
      exists node. split; [|done]. destruct (Hall node Hn) as (key' & Hs & ->). congruence.
  - assert (branches_of targets ∅ = list_to_map ((λ node, ((TransitionBranchKey_of (cn_Reference node)).1, None)) <$> targets)) as ->.
    { apply map_eq. intros key. rewrite lookup_branches_of, lookup_empty. case_bool_decide as Hk.
      - symmetry. apply elem_of_list_to_map.
        + by rewrite <- list_fmap_compose.
        + apply list_elem_of_fmap in Hk as (node & -> & Hn). apply list_elem_of_fmap. eauto.
      - symmetry. apply not_elem_of_list_to_map. by rewrite <- list_fmap_compose. }
    rewrite map_size_list_to_map, length_fmap; [done|]. by rewrite <- list_fmap_compose.
  - destruct targets as [|node nodes]; [simpl in El; lia|]. exists (TransitionBranchKey_of (cn_Reference node)).1.
    rewrite lookup_branches_of, bool_decide_eq_true_2; [done|]. by left.
Qed.

(** One serial node is entered. *)
Lemma positioned_serial node : targets = [node] → branch node = None → positioned s' task.
Proof.
  intros Htg Hb. assert (spot node = (task, None)) as Hspot.
  { pose proof committed_references as Hr. unfold in_task in Hin. rewrite Htg in Hr.
    destruct (pl_targets plan) as [|t []]; try done. apply Forall_inv in Hin. injection Hr as Hr.
    unfold place_of. rewrite Hb, Hr. congruence. }
  assert (fans_out action targets = false) as Hfan by (by rewrite Htg).
  pose proof (c_entry _ _ _ _ _ _ _ Hc) as He. pose proof (c_fanouts _ _ _ _ _ _ _ Hc) as Hf. rewrite Hfan in He, Hf.
  rewrite Htg in He. apply Forall_inv in He as [_ He]. rewrite Hspot in He. simpl in He. rewrite <- Htg in He.
  unfold positioned. rewrite Hf, He, (c_current _ _ _ _ _ _ _ Hc). split.
  - apply is_Some_insert_all. left. rewrite Htg. simpl. rewrite Hspot. by left.
  - intros key. rewrite lookup_insert_all_other; [by apply no_branch_left|].
    rewrite Htg. simpl. rewrite Hspot. by intros [=]%list_elem_of_singleton.
Qed.

(** The places left are entered again. *)
Lemma positioned_same : (λ node, spot node) <$> targets = (λ node, spot node) <$> removed_nodes plan →
  pl_joinArrival plan = None → action ≠ taskExecutionMove → fans_out action targets = false → positioned s' task.
Proof.
  intros Hs Hj Hm Hfan. assert (db_fanouts s' = db_fanouts s) as Hf.
  { rewrite (c_fanouts _ _ _ _ _ _ _ Hc), Hfan. unfold at_entry, closes, arrived. rewrite Hj.
    by rewrite bool_decide_eq_false_2. }
  assert (∀ p, is_Some (db_current s' !! p) ↔ is_Some (db_current s !! p)) as Hdom.
  { intros p. rewrite (c_current _ _ _ _ _ _ _ Hc), is_Some_insert_all, lookup_delete_all, Hs.
    case_bool_decide as Hp'; [|naive_solver]. split; [|naive_solver]. intros _.
    apply list_elem_of_fmap in Hp' as (node & -> & Hn). pose proof (c_present _ _ _ _ _ _ _ Hc) as Hall.
    rewrite Forall_forall in Hall. by apply Hall. }
  eapply positioned_ext; [by rewrite Hf|by intros key|done].
Qed.

(** A branch arrives while another is pending. *)
Lemma positioned_arrival node key values rows :
  removed_nodes plan = [node] → branch node = Some key → targets = [] → pl_joinArrival plan = Some (key, values) →
  action ≠ taskExecutionMove → materializeFanoutJoinArrivals (pl_joinBefore plan) (Some (key, values)) = Ok (rows, false) →
  positioned s' task.
Proof.
  intros Hr Hb Htg Hj Hm Hrows.
  destruct (c_arrival _ _ _ _ _ _ _ Hc _ _ Hj) as (branches & Ef & Ek).
  assert (spot node = (task, Some key)) as Hspot.
  { unfold place_of. rewrite Hb. f_equal. rewrite <- Ht. apply committed_removed_task. rewrite Hr. by left. }
  assert (db_fanouts s' !! task = Some (<[key := Some values]> branches)) as Hf.
  { rewrite (c_fanouts _ _ _ _ _ _ _ Hc), Htg. unfold at_entry, closes, arrived, fans_out. rewrite Hj. simpl.
    rewrite (bool_decide_eq_false_2 (action = _)) by done. simpl. by rewrite lookup_alter_eq, Ef. }
  assert (db_current s' = delete (task, Some key) (db_current s)) as Hcur.
  { rewrite (c_current _ _ _ _ _ _ _ Hc), Htg, Hr. unfold delete_all. simpl. by rewrite Hspot. }
  unfold positioned in Hp. rewrite Ef in Hp. destruct Hp as (H1 & H2 & H3 & _).
  unfold positioned. rewrite Hf, Hcur. split_and!.
  - by rewrite lookup_delete_ne.
  - intros key'. destruct (decide (key' = key)) as [-> |Hne].
    + rewrite lookup_delete_eq, lookup_insert_eq. by split; [intros []%is_Some_None|].
    + rewrite lookup_delete_ne, lookup_insert_ne by congruence. apply H2.
  - rewrite map_size_insert_Some by (by exists None). done.
  - pose proof (v_arrivals _ _ _ _ (c_validated _ _ _ _ _ _ _ Hc)) as Hv. rewrite Hj in Hv.
    destruct (arrival_pending s task key values rows branches) as (key' & Hne & Hk'); [done|by rewrite Hv|done|].
    exists key'. by rewrite lookup_insert_ne.
Qed.

Lemma removed_nodes_one node : new_approval plan = None → pl_sources plan = [node] → removed_nodes plan = [node].
Proof. unfold removed_nodes. by intros -> ->. Qed.
Lemma plain_removed : plain plan → removed_nodes plan = pl_sources plan.
Proof. unfold removed_nodes, new_approval. by intros [-> _]. Qed.

(** The source goes on to a place of its own. *)
Lemma positioned_onward node node' : removed_nodes plan = [node] → pl_targets plan = [node'] → branch node' = branch node →
  pl_joinArrival plan = None → action ≠ taskExecutionMove → positioned s' task.
Proof.
  intros Hr Htg Hb Hj Hm. destruct (committed_one _ Htg) as (t & Et & Hs).
  apply positioned_same; try done; [|by rewrite Et]. rewrite committed_spots, Htg, Hr. simpl. f_equal.
  unfold place_of. rewrite Hb. f_equal. unfold in_task in Hin. rewrite Htg in Hin. apply Forall_inv in Hin as ->.
  symmetry. apply committed_removed_task. rewrite Hr. by left.
Qed.

Hypothesis (Hnonempty : pl_targets plan = [] → pl_completion plan ≠ None).
Lemma committed_positioned : plan_shape action plan → positioned s' task.
Proof.
  intros Hshape. destruct (fans_out action targets) eqn:Hfan; [by apply positioned_fanout|].
  assert (plain plan → action ≠ taskExecutionResume → ∃ node, pl_targets plan = [node]) as Hone.
  { intros [Hn _] Ha. unfold fans_out in Hfan. rewrite committed_length, (bool_decide_eq_false_2 (action = _)), andb_true_r in Hfan by done.
    destruct (pl_targets plan) as [|node []]; [by destruct Hnonempty|eauto|done]. }
  assert (∀ node, pl_targets plan = [node] → branch node = None → positioned s' task) as Hserial.
  { intros node E Hb. destruct (committed_one _ E) as (node' & E' & Hs). apply (positioned_serial node'); [done|].
    unfold place_of in Hs. congruence. }
  remember action as a eqn:Ea in Hshape. destruct a; simpl in Hshape.
  - destruct Hshape as (Hpl & node & _ & _ & Hb). destruct Hone as [node' E]; [done|congruence|]. eauto.
  - destruct Hshape as (Hpl & Hr). apply positioned_same; try congruence; [|apply Hpl].
    rewrite plain_removed, committed_spots by done. change (λ node, spot node) with (place_of ∘ @cn_Reference L).
    by rewrite !list_fmap_compose, Hr.
  - destruct Hone as [node E]; [done|congruence|]. apply (Hserial node E). destruct (committed_one _ E) as (node' & E' & Hs).
    pose proof (c_entry _ _ _ _ _ _ _ Hc) as He. rewrite Hfan in He. rewrite E' in He at 2. apply Forall_inv in He as [_ He].
    rewrite Hs in He. unfold place_of in He. simpl in He. destruct (branch node) as [key|]; [exfalso|done].
    unfold in_task in Hin. rewrite E in Hin. apply Forall_inv in Hin. rewrite Hin, Ht in He.
    unfold at_entry, closes in He. rewrite <- Ea in He. simpl in He. rewrite lookup_delete_eq in He. by destruct He.
  - destruct Hshape as [node Hsrc Htg Ha Hj|node node' Hsrc Htg Ha Hj Hb|node Hsrc Hb Hlen Ha Hj
      |node key values rows Hsrc Hb Htg Ha Hj Hrows|node node' key values rows Hsrc Hb Htg Hb' Ha Hj Hrows].
    + apply positioned_same; try congruence. rewrite committed_spots, Htg. unfold removed_nodes. by destruct (new_approval plan).
    + eapply positioned_onward; eauto; [by apply removed_nodes_one|congruence].
    + exfalso. unfold fans_out in Hfan. rewrite committed_length, <- Ea in Hfan. simpl in Hfan. rewrite andb_true_r in Hfan.
      apply Nat.ltb_ge in Hfan. lia.
    + eapply positioned_arrival; eauto; [by apply removed_nodes_one| |congruence].
      apply length_zero_iff_nil. by rewrite committed_length, Htg.
    + eauto.
  - destruct Hshape as (Hpl & node & Hsrc & Hb). destruct Hone as [node' E]; [done|congruence|].
    apply (positioned_onward node node'); [by rewrite plain_removed|done|by apply Hb|apply Hpl|congruence].
Qed.
End committed.

(** ** Steps *)
Section steps.
Context (Parse : string → result string (gmap string (option TNode))) (catalog : option TargetAgentCatalog).

(** A plan for the action, prepared from reads of any states. *)
Inductive prepared : taskExecutionAction → @taskExecutionPlan L → Prop :=
| prepared_start reads faulty task n plan n' :
    PlanTaskStart protovalidate Parse catalog reads faulty task n = Ok (plan, n') → prepared taskExecutionStart plan
| prepared_resume reads faulty task references n plan n' :
    PlanTaskResume protovalidate Parse catalog reads faulty task references n = Ok (plan, n') → prepared taskExecutionResume plan
| prepared_move reads faulty preview environment preparation candidate n plan noOp n' :
    PlanManualMove protovalidate Parse catalog reads faulty preview environment preparation candidate n = Ok ((plan, noOp), n') →
    prepared taskExecutionMove plan
| prepared_complete reads faulty id now request n plan n' :
    PlanCurrentNodeCompletion protovalidate Parse catalog reads faulty id now request n = Ok (plan, n') →
    prepared taskExecutionComplete plan
| prepared_approve reads faulty id n plan n' :
    PlanPendingApproval protovalidate reads faulty id n = Ok (plan, n') → prepared taskExecutionApprove plan.

Lemma prepared_ok action plan : prepared action plan → plan_ok action plan.
Proof.
  destruct 1.
  - by eapply plan_start.
  - by eapply plan_resume.
  - by eapply (plan_move protovalidate) in H.
  - eapply (plan_completion protovalidate) in H as [? ?]. by split.
  - by eapply plan_approval.
Qed.

Lemma commit_keeps faulty now plan sessions action s : plan_ok action plan → store_ok s →
  store_ok (commitTaskExecution protovalidate faulty now plan sessions action s).2.
Proof.
  intros [Hin Hshape] Hok. pose proof (commit_spec protovalidate faulty now plan sessions action s) as H.
  destruct (commitTaskExecution _ _ _ _ _ _ _) as [[[removed targets]|e] s']; [|by subst].
  destruct H as [Hc Hne]. simpl. destruct (v_task _ _ _ _ (c_validated _ _ _ _ _ _ _ Hc)) as (row & w & Erow & _).
  destruct (ok_tasks _ Hok (pl_taskID plan)) as [Htrim Hp]; [eauto|]. pose proof (c_stays _ _ _ _ _ _ _ Hc) as [_ Hdom].
  split; intros task.
  - rewrite (dom_tasks s s') by done. intros Htask. destruct (ok_tasks _ Hok task Htask) as [Htr Hpos]. split; [done|].
    destruct (decide (task = pl_taskID plan)) as [-> |Hn]; [by eapply committed_positioned|].
    eapply positioned_ext; [by eapply committed_other_fanout| |done]. intros key. by erewrite committed_other.
  - rewrite eq_None_not_Some, (dom_tasks s s'), <- eq_None_not_Some by done. intros Htask.
    assert (task ≠ pl_taskID plan) as Hn by congruence. destruct (ok_others _ Hok task Htask) as [Hf Hk].
    split; [by erewrite committed_other_fanout|]. intros key. by erewrite committed_other.
Qed.

(** *** Creation and deletion *)
Lemma create_keeps faulty now task row start s : TrimSpace task = task → store_ok s →
  store_ok (createTaskWithQueries protovalidate faulty now task row start s).2.
Proof.
  intros Ht Hok. unfold createTaskWithQueries. transaction (λ _ : store_error error, True).
  eapply post_bind; [apply post_statements|]. intros [] s0 ->.
  eapply post_bind; [apply post_execute|]. intros [] s1 H1. cbn beta in H1. case_match eqn:En; [|done]. simplify_eq. bool_simp.
  eapply post_bind; [apply post_lift|]. intros node s2 [[Hn Hb]%newNonExecutable_place ->].
  eapply post_bind; [apply post_insert_node|]. intros [] s3 ([_ Hdom] & Hc & Hf & _ & _ & Hfit).
  eapply post_mono; [apply post_statements|]. intros [] s4 ->.
  assert (spot node = (task, None)) as Hspot by (unfold place_of; rewrite Hn, Hb, Ht; done). rewrite Hspot in *. simpl in *.
  destruct (ok_others _ Hok task) as [_ Hrows]; [done|].
  assert (∀ task', task' ≠ task → ∀ key, db_current s3 !! (task', key) = db_current s !! (task', key)) as Hother.
  { intros task' Hne key. rewrite Hc, lookup_insert_ne; congruence. }
  split; intros task'.
  - rewrite <- elem_of_dom, Hdom, dom_insert_L, elem_of_union, elem_of_singleton. destruct (decide (task' = task)) as [-> |Hne].
    + intros _. split; [done|]. unfold positioned. rewrite Hf, Hfit, Hc. split; [by rewrite lookup_insert_eq|].
      intros key. rewrite lookup_insert_ne by done. apply Hrows.
    + intros [|Hin%elem_of_dom]; [done|]. destruct (ok_tasks _ Hok task' Hin). split; [done|].
      eapply positioned_ext; [by rewrite Hf| |done]. intros key. by rewrite Hother.
  - intros Hnot%not_elem_of_dom. rewrite Hdom, dom_insert_L, elem_of_union, elem_of_singleton in Hnot.
    assert (task' ≠ task) as Hne by naive_solver. destruct (ok_others _ Hok task') as [Hf' Hr'].
    { apply not_elem_of_dom. naive_solver. }
    split; [by rewrite Hf|]. intros key. by rewrite Hother.
Qed.

Lemma delete_keeps faulty task s : store_ok s → store_ok (DeleteTaskRows faulty task s).2.
Proof.
  intros Hok. unfold DeleteTaskRows. transaction (λ _ : store_error error, True).
  apply (post_respects kept); [keeping|]. intros _ s1 H1. apply (post_respects kept); [keeping|]. intros _ s2 H2.
  apply (post_respects kept); [keeping|]. intros _ s3 H3. apply (post_respects kept); [keeping|]. intros _ s4 H4.
  assert (kept s s4) as ([_ Ht4] & Hc4 & Hf4) by (transitivity s3; [transitivity s2; [by transitivity s1|done]|done]).
  eapply post_bind; [apply post_execute|]. intros [] s5 H5. cbn beta in H5. case_match; [done|]. simplify_eq.
  eapply post_bind; [apply post_delete_fanout|]. intros _ s6 ([_ Ht6] & Hc6 & Hf6 & _). simpl in *.
  apply (post_respects kept); [keeping|]. intros _ s7 ([_ Ht7] & Hc7 & Hf7).
  eapply post_bind; [apply post_query|]. intros n s8 [= _ ->].
  eapply post_mono; [apply keeping_one_row|]. intros [] s9 ([_ Ht9] & Hc9 & Hf9). simpl in *.
  rewrite Hc7, Hc6, Hc4 in Hc9. rewrite Hf7, Hf6, Hf4 in Hf9.
  assert (∀ task', task' ≠ task → ∀ key, db_current s9 !! (task', key) = db_current s !! (task', key)) as Hother.
  { intros task' Hne key. rewrite Hc9, map_lookup_filter. destruct (db_current s !! (task', key)); [|done]. simpl.
    by rewrite option_guard_True. }
  split; intros task'.
  - rewrite <- elem_of_dom, Ht9, dom_delete_L, elem_of_difference, elem_of_singleton, Ht7, Ht6, Ht4. intros [Hin%elem_of_dom Hne]. destruct (ok_tasks _ Hok task' Hin). split; [done|].
    eapply positioned_ext; [by rewrite Hf9, lookup_delete_ne| |done]. intros key. by rewrite Hother.
  - intros Hnot%not_elem_of_dom. rewrite Ht9, dom_delete_L, elem_of_difference, elem_of_singleton, Ht7, Ht6, Ht4 in Hnot.
    rewrite Hf9. destruct (decide (task' = task)) as [-> |Hne].
    + split; [apply lookup_delete_eq|]. intros key. rewrite Hc9, map_lookup_filter.
      destruct (db_current s !! (task, key)); [|done]. simpl. by rewrite option_guard_False by naive_solver.
    + destruct (ok_others _ Hok task') as [Hf' Hr'].
      { apply not_elem_of_dom. naive_solver. }
      rewrite lookup_delete_ne by done. split; [done|]. intros key. by rewrite Hother.
Qed.

(** *** Scheduling *)
Lemma update_row_places faulty operation r admits f s :
  post (S := @db L) (update_row faulty operation r admits f) s (λ _ s', same_places s s').
Proof.
  eapply post_mono; [apply post_query|]. intros n s' H. cbn beta in H.
  destruct (db_current s !! place_of r) as [row|] eqn:Er; [|by simplify_eq]. case_match; simplify_eq; [|done].
  split_and!; [done|done|]. simpl. rewrite dom_insert_L. apply elem_of_dom_2 in Er. set_solver.
Qed.
Lemma autocommit_places {A} (m : txn (@db L) error A) s :
  post m s (λ _ s', same_places s s') → same_places s (autocommit m s).2.
Proof. intros H. specialize (H 0%nat). unfold autocommit. destruct (m 0%nat s) as [[[a n] s']|e]; [done|apply same_places_refl]. Qed.
Lemma update_one_places faulty operation r admits f s :
  post (S := @db L) (updated ← update_row faulty operation r admits f; one_row updated) s (λ _ s', same_places s s').
Proof.
  eapply post_bind; [apply update_row_places|]. intros n s' H. unfold one_row. case_match; [by apply post_ret|apply post_fail].
Qed.

Lemma admit_places faulty r s : same_places s (AdmitCurrentNode (L := L) faulty r s).2.
Proof.
  unfold AdmitCurrentNode. case_match; [apply same_places_refl|]. transaction (λ _ : store_error error, True).
  apply update_one_places.
Qed.
Lemma interrupt_places faulty operation from r reason detail now s :
  same_places s (interrupt (L := L) faulty operation from r reason detail now s).2.
Proof.
  unfold interrupt. case_match; [apply same_places_refl|]. case_match; [apply same_places_refl|].
  apply autocommit_places, update_one_places.
Qed.
Lemma replace_places faulty r detail now s :
  same_places s (ReplaceUserInterruptionWithAssignmentFailure (L := L) faulty r detail now s).2.
Proof.
  unfold ReplaceUserInterruptionWithAssignmentFailure. case_match; [apply same_places_refl|].
  apply autocommit_places, update_one_places.
Qed.
Lemma reconcile_places faulty task now s : same_places s (ReconcileTaskResume (L := L) faulty task now s).2.
Proof.
  unfold ReconcileTaskResume. case_match; [apply same_places_refl|]. cbv zeta. apply autocommit_places.
  eapply post_mono; [apply post_query|]. intros n s' [= _ ->]. split_and!; [done|done|]. simpl.
  apply dom_imap_L. intros at_. rewrite elem_of_dom. split; [intros [row Hr]; eauto|intros (row & Hr & _); eauto].
Qed.

(** Whatever the code does to the tables, in any order: moves from plans that
    may be stale, other changes of a task, and changes of other tables. *)
Inductive step s : @db L → Prop :=
| step_move action plan sessions faulty now : prepared action plan →
    step s (commitTaskExecution protovalidate faulty now plan sessions action s).2
| step_create faulty now task row start : TrimSpace task = task → step s (createTaskWithQueries protovalidate faulty now task row start s).2
| step_delete faulty task : step s (DeleteTaskRows faulty task s).2
| step_admit faulty r : step s (AdmitCurrentNode faulty r s).2
| step_interrupt faulty r reason detail now : step s (InterruptCurrentNode faulty r reason detail now s).2
| step_interrupt_admitted faulty r reason detail now : step s (InterruptAdmittedCurrentNode faulty r reason detail now s).2
| step_replace faulty r detail now : step s (ReplaceUserInterruptionWithAssignmentFailure faulty r detail now s).2
| step_reconcile faulty task now : step s (ReconcileTaskResume faulty task now s).2
| step_elsewhere s' : dom (db_tasks s') = dom (db_tasks s) → db_current s' = db_current s → db_fanouts s' = db_fanouts s → step s s'.

Lemma step_keeps s s' : step s s' → store_ok s → store_ok s'.
Proof.
  destruct 1 as [action plan sessions faulty now Hp| | | | | | | |s' Ht Hc Hf].
  - apply commit_keeps. by apply prepared_ok.
  - by apply create_keeps.
  - apply delete_keeps.
  - apply store_ok_same, admit_places.
  - apply store_ok_same, interrupt_places.
  - apply store_ok_same, interrupt_places.
  - apply store_ok_same, replace_places.
  - apply store_ok_same, reconcile_places.
  - apply store_ok_same. split_and!; [done|done|]. by rewrite Hc.
Qed.

Definition empty_db : @db L := {|
  db_tasks := ∅; db_workflows := ∅; db_current := ∅; db_fanouts := ∅; db_approvals := ∅; db_sessions := ∅; db_associations := ∅ |}.
Lemma empty_ok : store_ok empty_db.
Proof. split; intros task; simpl; rewrite lookup_empty; [by intros []|]. intros _. split; [done|]. intros key. apply lookup_empty. Qed.
Lemma reachable_ok s : rtc step empty_db s → store_ok s.
Proof.
  intros H. pose proof empty_ok as Hok. induction H as [|s1 s2 s3 H _ IH]; [done|]. apply IH. by eapply step_keeps.
Qed.
End steps.

(** ** The effect of a completion *)
(** What a committed completion does to the positions: the source waits for an
    approval, goes on at its place, opens a fan-out, arrives at a join that
    waits for others, or opens the join as the last to arrive. *)
Inductive completion_effect plan s (removed : list CurrentNodeReference) (created : list (CurrentNode L)) (s' : @db L) : Prop :=
| effect_approval node : pl_sources plan = [node] → removed = [] → created = [] →
    db_current s' = db_current s → db_fanouts s' = db_fanouts s → completion_effect plan s removed created s'
| effect_onward node node' : pl_sources plan = [node] → removed = [cn_Reference node] → created = [node'] → spot node' = spot node →
    db_current s' = <[spot node := stored s node']> (db_current s) → db_fanouts s' = db_fanouts s →
    completion_effect plan s removed created s'
| effect_fanout node : pl_sources plan = [node] → removed = [cn_Reference node] → spot node = (pl_taskID plan, None) →
    (2 ≤ length created)%nat → validateFanoutTargets (pl_taskID plan) created = None →
    db_current s' = insert_all s created (delete (spot node) (db_current s)) →
    db_fanouts s' = <[pl_taskID plan := branches_of created ∅]> (db_fanouts s) → completion_effect plan s removed created s'
| effect_arrival node key values branches other : pl_sources plan = [node] → removed = [cn_Reference node] → created = [] →
    spot node = (pl_taskID plan, Some key) → db_fanouts s !! pl_taskID plan = Some branches →
    branches !! key = Some None → other ≠ key → branches !! other = Some None →
    db_current s' = delete (spot node) (db_current s) →
    db_fanouts s' = <[pl_taskID plan := <[key := Some values]> branches]> (db_fanouts s) →
    completion_effect plan s removed created s'
| effect_join node node' key branches : pl_sources plan = [node] → removed = [cn_Reference node] → created = [node'] →
    spot node = (pl_taskID plan, Some key) → spot node' = (pl_taskID plan, None) →
    db_fanouts s !! pl_taskID plan = Some branches → branches !! key = Some None →
    (∀ other, branches !! other = Some None → other = key) →
    db_current s' = <[spot node' := stored s node']> (delete (spot node) (db_current s)) →
    db_fanouts s' = delete (pl_taskID plan) (db_fanouts s) → completion_effect plan s removed created s'.

Section complete.
Context plan s removed (created : list (CurrentNode L)) s'
  (Hc : committed protovalidate plan taskExecutionComplete s removed created s').
Hypothesis (Ht : TrimSpace (pl_taskID plan) = pl_taskID plan) (Hin : in_task plan).

Lemma complete_source node : new_approval plan = None → pl_sources plan = [node] →
  removed = [cn_Reference node] ∧ cnr_TaskID (cn_Reference node) = pl_taskID plan.
Proof.
  intros Ha Hs. pose proof (removed_nodes_one plan node Ha Hs) as Hr. split.
  - by rewrite (c_removed _ _ _ _ _ _ _ Hc), Hr.
  - rewrite <- Ht. eapply committed_removed_task; [done|]. rewrite Hr. by left.
Qed.
Lemma complete_target node : pl_targets plan = [node] →
  ∃ node', created = [node'] ∧ spot node' = (pl_taskID plan, cnr_transitionBranchKey (cn_Reference node)).
Proof.
  intros E. destruct (committed_one _ _ _ _ _ _ Hc _ E) as (node' & -> & Hs). exists node'. split; [done|].
  rewrite Hs. unfold place_of. f_equal. unfold in_task in Hin. rewrite E in Hin. apply Forall_inv in Hin. congruence.
Qed.
Lemma complete_fanouts : fans_out taskExecutionComplete created = false →
  db_fanouts s' = at_entry plan taskExecutionComplete created (db_fanouts s).
Proof. intros Hf. by rewrite (c_fanouts _ _ _ _ _ _ _ Hc), Hf. Qed.
Lemma complete_join key values : pl_joinArrival plan = Some (key, values) → store_ok s →
  ∃ branches, db_fanouts s !! pl_taskID plan = Some branches ∧ branches !! key = Some None ∧ (2 ≤ size branches)%nat ∧
    arrived plan (db_fanouts s) = <[pl_taskID plan := <[key := Some values]> branches]> (db_fanouts s) ∧
    pl_joinBefore plan = ListTaskActiveFanoutBranches s (pl_taskID plan).
Proof.
  intros Hj Hok. destruct (c_arrival _ _ _ _ _ _ _ Hc _ _ Hj) as (branches & Ef & Ek). exists branches.
  destruct (v_task _ _ _ _ (c_validated _ _ _ _ _ _ _ Hc)) as (row & _ & Erow & _).
  destruct (ok_tasks _ Hok (pl_taskID plan)) as [_ Hp]; [eauto|]. unfold positioned in Hp. rewrite Ef in Hp.
  split_and!; [done|done|apply Hp| |].
  - unfold arrived. rewrite Hj. by apply alter_lookup.
  - rewrite (v_arrivals _ _ _ _ (c_validated _ _ _ _ _ _ _ Hc)); [done|]. by rewrite Hj.
Qed.

Lemma complete_effect : completes plan → store_ok s → completion_effect plan s removed created s'.
Proof.
  intros Hshape Hok. pose proof (c_current _ _ _ _ _ _ _ Hc) as Hcur.
  assert (length created = length (pl_targets plan)) as Hlen by (by eapply committed_length).
  destruct Hshape as [node Hsrc Htg Ha Hj|node node' Hsrc Htg Ha Hj Hb|node Hsrc Hb Hl Ha Hj
    |node key values rows Hsrc Hb Htg Ha Hj Hrows|node node' key values rows Hsrc Hb Htg Hb' Ha Hj Hrows].
  - rewrite Htg in Hlen. apply length_zero_iff_nil in Hlen.
    assert (removed_nodes plan = []) as Hr by (unfold removed_nodes; by destruct (new_approval plan)).
    eapply effect_approval; eauto.
    + by rewrite (c_removed _ _ _ _ _ _ _ Hc), Hr.
    + by rewrite Hcur, Hlen, Hr.
    + rewrite complete_fanouts, Hlen by (by rewrite Hlen). unfold at_entry, closes, arrived. by rewrite Hj.
  - destruct (complete_source node Ha Hsrc) as [Hrem Hnt]. destruct (complete_target _ Htg) as (t & Et & Hs).
    assert (spot t = spot node) as Hspot by (rewrite Hs; unfold place_of; by rewrite Hb, Hnt).
    eapply effect_onward; eauto.
    + rewrite Hcur, (removed_nodes_one plan node), Et by done. unfold insert_all, delete_all. simpl. rewrite Hspot.
      by rewrite insert_delete_eq.
    + rewrite complete_fanouts by (by rewrite Et). unfold at_entry, closes, arrived. by rewrite Hj.
  - destruct (complete_source node Ha Hsrc) as [Hrem Hnt].
    assert (fans_out taskExecutionComplete created = true) as Hfan.
    { unfold fans_out. rewrite Hlen, andb_true_r. apply Nat.ltb_lt. lia. }
    pose proof (c_entry _ _ _ _ _ _ _ Hc) as He. pose proof (c_fanouts _ _ _ _ _ _ _ Hc) as Hf. rewrite Hfan in He, Hf.
    eapply effect_fanout; eauto; [unfold place_of; by rewrite Hnt, Hb|lia|apply He| |].
    + by rewrite Hcur, (removed_nodes_one plan node).
    + rewrite Hf. unfold at_entry, closes, arrived. by rewrite Hj.
  - destruct (complete_source node Ha Hsrc) as [Hrem Hnt]. rewrite Htg in Hlen. apply length_zero_iff_nil in Hlen.
    destruct (complete_join _ _ Hj Hok) as (branches & Ef & Ek & Hsize & Harr & Hbef). rewrite Hbef in Hrows.
    destruct (arrival_pending _ _ _ _ _ _ Ef Hrows Hsize) as (other & Hne & Ho).
    apply (effect_arrival _ _ _ _ _ node key values branches other); try done; [unfold place_of; by rewrite Hnt, Hb| |].
    + by rewrite Hcur, (removed_nodes_one plan node), Hlen.
    + rewrite complete_fanouts, Hlen by (by rewrite Hlen). unfold at_entry, closes. rewrite Hj. simpl. apply Harr.
  - destruct (complete_source node Ha Hsrc) as [Hrem Hnt]. destruct (complete_target _ Htg) as (t & Et & Hs). rewrite Hb' in Hs.
    destruct (complete_join _ _ Hj Hok) as (branches & Ef & Ek & Hsize & Harr & Hbef). rewrite Hbef in Hrows.
    apply (effect_join _ _ _ _ _ node t key branches); try done; [unfold place_of; by rewrite Hnt, Hb| | |].
    + intros other Ho. apply materialize_arrivals_spec in Hrows.
      * apply Hrows. by eapply elem_of_ListTaskActiveFanoutBranches.
      * intros E. apply (elem_of_ListTaskActiveFanoutBranches _ _ _ _ _ Ef) in Ho. rewrite E in Ho. by apply elem_of_nil in Ho.
    + by rewrite Hcur, (removed_nodes_one plan node), Et.
    + rewrite complete_fanouts by (by rewrite Et). unfold at_entry, closes. rewrite Hj, Harr, Et. simpl. apply delete_insert_eq.
Qed.
End complete.
End positions.

(** ** Scheduling *)
Section scheduling.
Context {order : RangeOrder} {L : Type}.
Context (faulty : nat → bool).
Implicit Types (s : @db L) (row : @CurrentNodeRow L).

(** The row of a current node that admits a change. *)
Definition admissible s (r : CurrentNodeReference) (admits : @CurrentNodeRow L → Prop) row : Prop :=
  db_current s !! place_of r = Some row ∧ row_NodeID row = cnr_NodeID r ∧ admits row.
(** The operation changes the one row that admits it, and nothing else; it
    fails without effect when there is none, or when the database fails. *)
Definition changes_row {A} s (r : CurrentNodeReference) (admits : @CurrentNodeRow L → Prop) (f : @CurrentNodeRow L → @CurrentNodeRow L)
    (outcome : result (store_error error) A * @db L) : Prop :=
  match outcome with
  | (Ok _, s') => CurrentNodeReference_Validate r = None ∧
      ∃ row, admissible s r admits row ∧ s' = set_current (<[place_of r := f row]> (db_current s)) s
  | (Err e, s') => s' = s ∧
      ((∃ n, faulty n = true) ∨ CurrentNodeReference_Validate r ≠ None ∨ ∀ row, ¬ admissible s r admits row)
  end.

#[local] Instance refused_faults (P : Prop) : Faults faulty (λ _ : store_error error, (∃ n, faulty n = true) ∨ P).
Proof. intros operation n Hn. left. eauto. Qed.

Lemma state_in_spec states row : state_in states row = true ↔ ∃ state, row_SchedulingState row = Some state ∧ state ∈ states.
Proof. unfold state_in. destruct (row_SchedulingState row); rewrite ?bool_decide_eq_true; naive_solver. Qed.

Lemma update_one_spec operation r (admits : @db L → @CurrentNodeRow L → bool) (f : @CurrentNodeRow L → @CurrentNodeRow L) s :
  runs (updated ← update_row faulty operation r admits f; one_row updated) s
    (λ _, (∃ n, faulty n = true) ∨ ∀ row, ¬ admissible s r (λ row, admits s row = true) row)
    (λ _ s', ∃ row, admissible s r (λ row, admits s row = true) row ∧ s' = set_current (<[place_of r := f row]> (db_current s)) s).
Proof.
  apply runs_bind, runs_query; [apply _|]. cbn beta. unfold admissible, one_row.
  destruct (db_current s !! place_of r) as [row|] eqn:Er; [|apply runs_fail; right; naive_solver].
  destruct (_ && admits s row) eqn:Ea; simpl; bool_simp.
  - apply runs_ret. by exists row.
  - apply runs_fail. right. intros row' ([= <-] & Hn & Ha). by rewrite bool_decide_eq_true_2, Ha in Ea.
Qed.
Lemma autocommit_spec {A} (R : result (store_error error) A * @db L → Prop) E (m : txn (@db L) error A) s :
  (∀ e, E e → R (Err e, s)) → runs m s E (λ a s', R (Ok a, s')) → R (autocommit m s).
Proof. intros HE H. specialize (H 0%nat). unfold autocommit. destruct (m 0%nat s) as [[[a n] s']|e]; auto. Qed.

Lemma changes_row_ext {A} s r (P Q : @CurrentNodeRow L → Prop) f (outcome : result (store_error error) A * @db L) :
  (∀ row, P row ↔ Q row) → changes_row s r P f outcome → changes_row s r Q f outcome.
Proof.
  intros HPQ. unfold changes_row, admissible. destruct outcome as [[a|e] s']; [naive_solver|].
  intros (-> & [?|[?|Hn]]); split; auto. right. right. intros row (? & ? & Hq). apply (Hn row). by rewrite HPQ.
Qed.

Lemma change_spec operation r (admits : @db L → @CurrentNodeRow L → bool) (f : @CurrentNodeRow L → @CurrentNodeRow L) s :
  CurrentNodeReference_Validate r = None →
  let program := (updated ← update_row faulty operation r admits f; one_row updated) in
  changes_row s r (λ row, admits s row = true) f (transact faulty program s) ∧
  changes_row s r (λ row, admits s row = true) f (autocommit program s).
Proof.
  intros Ev program. pose proof (update_one_spec operation r admits f s) as Hrun.
  pose (E := λ _ : store_error error, (∃ n, faulty n = true) ∨ ∀ row, ¬ admissible s r (λ row, admits s row = true) row).
  assert (∀ e, E e → changes_row s r (λ row, admits s row = true) f (Err e : result _ unit, s)) as HE.
  { intros e [He|He]; (split; [done|]); auto. }
  split; [apply (transact_spec faulty _ E); [apply _|..]|apply (autocommit_spec _ E)]; try done.
  all: eapply runs_mono; [apply Hrun|]; intros [] s' H; by split.
Qed.
(** A malformed reference. *)
Lemma invalid_change {A} s r P f message e : CurrentNodeReference_Validate r = Some message →
  changes_row s r P f (Err e : result _ A, s).
Proof. intros Ev. split; [done|]. right. left. by rewrite Ev. Qed.

Lemma interrupt_spec operation from r reason detail now s : blank reason = false →
  changes_row s r (λ row, state_in from row = true) (set_interrupted reason detail now)
    (interrupt (L := L) faulty operation from r reason detail now s).
Proof.
  intros Hr. unfold interrupt. destruct (CurrentNodeReference_Validate r) eqn:Ev; [by eapply invalid_change|].
  rewrite Hr. by apply change_spec.
Qed.
Lemma admit_spec r s :
  changes_row s r (λ row, state_in [CurrentNodeSchedulingReady] row && negb (HasTaskPendingApprovalForCurrentNode s r) = true)
    (λ row, set_scheduling CurrentNodeSchedulingAdmitted (row_InterruptionReason row) (row_InterruptionDetail row)
              (row_InterruptedAtUnixMs row) row)
    (AdmitCurrentNode (L := L) faulty r s).
Proof.
  unfold AdmitCurrentNode. destruct (CurrentNodeReference_Validate r) eqn:Ev; [by eapply invalid_change|].
  by apply (change_spec _ _ (λ s row, state_in [CurrentNodeSchedulingReady] row && negb (HasTaskPendingApprovalForCurrentNode s r))).
Qed.
Lemma replace_spec r detail now s :
  changes_row s r
    (λ row, state_in [CurrentNodeSchedulingInterrupted] row &&
            (row_InterruptionReason row ==? Some CurrentNodeInterruptionReasonUserInterrupt) = true)
    (set_interrupted "workflow_runtime_start_failed" detail now)
    (ReplaceUserInterruptionWithAssignmentFailure (L := L) faulty r detail now s).
Proof.
  unfold ReplaceUserInterruptionWithAssignmentFailure.
  destruct (CurrentNodeReference_Validate r) eqn:Ev; [by eapply invalid_change|].
  by apply (change_spec _ _ (λ _ row, state_in [CurrentNodeSchedulingInterrupted] row &&
    (row_InterruptionReason row ==? Some CurrentNodeInterruptionReasonUserInterrupt))).
Qed.
End scheduling.
