(* ===== verification/TaskRowFacts.v ===== *)
(** * Current nodes as rows

    A current node that was read from its row can be stored again and is read
    back the same: the encoding and the decoding of TaskTables agree. *)
From Stdlib Require Import ZArith String Lia.
From stdpp Require Import gmap strings list.
From S2P Require Import Prelude Transactions GoStrings Types Fanout Selection CurrentState TaskTables TaskPlanFacts.

Local Open Scope string_scope.

Lemma UnixMilli_FromUnixMilli ms : UnixMilli (FromUnixMilli ms) = ms.
Proof. unfold UnixMilli, FromUnixMilli. rewrite Z.add_simpl_r. by apply Z.div_mul. Qed.

Lemma NewThinkingValue_idemp raw value : NewThinkingValue raw = Ok value → NewThinkingValue value = Ok value.
Proof.
  unfold NewThinkingValue. cbv zeta. case_match eqn:E; [done|]. intros [= <-]. by rewrite TrimSpace_idemp, E.
Qed.
Lemma NewAgentExecutionSelection_idemp assignee thinking origin selection :
  NewAgentExecutionSelection assignee thinking origin = Ok selection →
  NewAgentExecutionSelection (aes_Assignee selection) (aes_Thinking selection) (aes_Origin selection) = Ok selection ∧
  ∀ value, aes_Thinking selection = Some value → NewThinkingValue value = Ok value.
Proof.
  unfold NewAgentExecutionSelection. cbv zeta. case_match eqn:E1; [done|]. case_match eqn:E2; [done|]. intros H.
  destruct thinking as [raw|].
  - apply bind_Ok in H as (value & Ev & [= <-]). apply NewThinkingValue_idemp in Ev as Ev'. simpl.
    rewrite !TrimSpace_idemp, E1, E2, Ev'. split; [done|]. by intros value' [= <-].
  - injection H as <-. simpl. by rewrite !TrimSpace_idemp, E1, E2.
Qed.

Section rows.
Context {order : RangeOrder} {L : Type} (protovalidate : L → option error).
Implicit Types (row : @CurrentNodeRow L) (node : CurrentNode L).

(** The parts of a decoded row. *)
Lemma currentNodeFromRow_parts kind at_ row node : currentNodeFromRow protovalidate kind at_ row = Ok node →
  NewCurrentNodeReference at_.1 (row_NodeID row) at_.2 = Ok (cn_Reference node) ∧
  currentNodeSchedulingFromRow row = Ok (cn_Scheduling node) ∧
  continuationSourceFromCurrentNodeFacts kind (row_SessionID row) = Ok (cn_ContinuationSource node) ∧
  currentNodeExecutionSelectionFromRow kind row = Ok (cn_AgentExecutionSelection node) ∧
  NewCurrentNodeWithMaterializedSource protovalidate (cn_Reference node) (cn_CurrentInputValues node) (cn_PriorValues node)
    (cn_SessionID node) (cn_ContinuationSource node) (cn_Scheduling node) (cn_AgentExecutionSelection node) =
    Ok (set_entered None node) ∧
  cn_SessionID node = row_SessionID row ∧ cn_EnteredByEdgeID node = row_EnteredByEdgeID row.
Proof.
  unfold currentNodeFromRow. intros (r & Er & (sch & Es & (src & Ec & (sel & Ex & (n & En & [= <-])%bind_Ok)%bind_Ok)%bind_Ok)%bind_Ok)%bind_Ok.
  apply NewCurrentNode_eq in En as E. subst n. simpl in *. by split_and!.
Qed.

Lemma scheduling_roundtrip row scheduling node : currentNodeSchedulingFromRow row = Ok scheduling → cn_Scheduling node = scheduling →
  ∀ kind, currentNodeSchedulingFromRow (insert_params kind node) = Ok scheduling.
Proof.
  unfold currentNodeSchedulingFromRow. intros E En kind. simpl. rewrite En.
  destruct (row_SchedulingState row) as [state|]; [|by injection E as <-]. case_match eqn:Es.
  - injection E as <-. simpl. by rewrite Es.
  - destruct (row_InterruptionDetail row) as [detail|]; [|done]. injection E as <-. simpl.
    by rewrite Es, UnixMilli_FromUnixMilli.
Qed.
Lemma selection_roundtrip kind row selection node : currentNodeExecutionSelectionFromRow kind row = Ok selection →
  cn_AgentExecutionSelection node = selection →
  currentNodeExecutionSelectionFromRow kind (insert_params kind node) = Ok selection.
Proof.
  unfold currentNodeExecutionSelectionFromRow. intros E En. simpl. rewrite En.
  destruct kind; try (case_match; [done|]; by injection E as <-).
  destruct (row_EffectiveAssignee row); [|done]. destruct (row_AssigneeOrigin row); [|done].
  apply bind_Ok in E as (thinking & _ & E). destruct (NewAgentExecutionSelection _ _ _) as [sel|] eqn:Ex; [|done].
  injection E as <-. simpl. apply NewAgentExecutionSelection_idemp in Ex as [Ex Hth].
  destruct (aes_Thinking sel) as [value|] eqn:Et; simpl; [rewrite (Hth value eq_refl); simpl|]; by rewrite Ex.
Qed.

Lemma row_roundtrip kind at_ row node : currentNodeFromRow protovalidate kind at_ row = Ok node →
  (kind = NodeKindTerminal → row_EnteredByEdgeID row = None) →
  currentNodeFromRow protovalidate kind (place_of (cn_Reference node)) (insert_params kind node) = Ok node.
Proof.
  intros (Er & Es & Ec & Ex & En & Hs & He)%currentNodeFromRow_parts Hterm. unfold currentNodeFromRow.
  apply NewCurrentNodeReference_idemp in Er as Er'.
  assert (NewCurrentNodeReference (place_of (cn_Reference node)).1 (row_NodeID (insert_params kind node))
            (place_of (cn_Reference node)).2 = Ok (cn_Reference node)) as -> by done.
  rewrite (scheduling_roundtrip _ _ _ Es eq_refl). simpl. rewrite Hs, Ec. simpl.
  rewrite (selection_roundtrip _ _ _ _ Ex eq_refl). simpl. rewrite <- Hs, En. simpl.
  f_equal. destruct node as [ref ent inp pri ses src sch sel]. simpl in *. unfold set_entered. simpl. f_equal.
  destruct (decide (kind = NodeKindTerminal)) as [Ek|Ek].
  - rewrite bool_decide_eq_true_2 by done. by rewrite He, Hterm.
  - by rewrite bool_decide_eq_false_2.
Qed.
End rows.
