(* ===== verification/TaskSamples.v ===== *)
(** * A task on its way through the sample workflow

    The model run on [sample_fanout] of Samples: a task is created, started,
    splits into its two branches, the first of which arrives at the join, and
    goes on when the second does. *)
From Stdlib Require Import ZArith String.
From stdpp Require Import gmap strings list.
From S2P Require Import Prelude Transactions GoStrings Types Samples Reach Fanout Selection PromptRefs Wiring Validation.
From S2P Require Import CurrentState SessionReuse TaskTables Materialization TaskPlanning TaskExecution TaskActions TaskPositionFacts.

Local Open Scope string_scope.
#[local] Existing Instance default_order.

Definition sample_valid (_ : unit) : option error := None.
Definition sample_parse (_ : string) : result string (gmap string (option TNode)) := Ok ∅.
Definition no_fault (_ : nat) : bool := false.
Definition sample_now : Z := (unix_epoch + 1700000000 * 1000000000)%Z.
Definition sample_task : task_row := {| t_ProjectID := "p"; t_WorkflowID := 7%N; t_UpdatedAt := 0%Z |}.
Definition sample_at (node : NodeID) (branch : option string) : CurrentNodeReference :=
  {| cnr_TaskID := "t1"; cnr_NodeID := node; cnr_transitionBranchKey := branch |}.

Abbreviation sample_db := (@db unit) (only parsing).
Definition workflow_stored : sample_db := {|
  db_tasks := ∅; db_workflows := {[7%N := {| w_Version := 1%Z; w_Definition := sample_fanout |}]}; db_current := ∅;
  db_fanouts := ∅; db_approvals := ∅; db_sessions := ∅; db_associations := ∅ |}.
Definition task_created : sample_db :=
  (createTaskWithQueries sample_valid no_fault sample_now "t1" sample_task "start" workflow_stored).2.

(** What a preparation returns; the plan of no task when it fails. *)
Definition no_plan : @taskExecutionPlan unit := {|
  pl_taskID := ""; pl_task := sample_task; pl_workflowVersion := 0%Z; pl_sources := []; pl_targets := [];
  pl_completion := None; pl_approval := None; pl_joinArrival := None; pl_joinBefore := []; pl_destination := None |}.
Definition planned (r : result (store_error error) (@taskExecutionPlan unit * nat)) : @taskExecutionPlan unit :=
  match r with Ok (plan, _) => plan | Err _ => no_plan end.
Definition fresh_session (node : NodeID) (branch : option string) (id : N) : PlannedCurrentNodeSession := {|
  ps_CurrentNode := sample_at node branch; ps_SessionID := id;
  ps_Snapshot := Some {| ss_SessionID := id; ss_ProjectID := "p"; ss_AgentRole := Some "coder" |} |}.

Definition plan_to_start (s : sample_db) : result (store_error error) (@taskExecutionPlan unit * nat) :=
  PlanTaskStart sample_valid sample_parse (Some sample_catalog) (λ _, s) no_fault "t1" 0%nat.
Definition plan_to_complete (s : sample_db) (node : NodeID) (branch : option string) (outputs : gmap string string)
    : result (store_error error) (@taskExecutionPlan unit * nat) :=
  PlanCurrentNodeCompletion sample_valid sample_parse (Some sample_catalog) (λ _, s) no_fault 99%N sample_now
    {| cq_Source := sample_at node branch; cq_TransitionID := ""; cq_OutputValues := outputs; cq_Commentary := "go" |} 0%nat.
Definition commit (plan : @taskExecutionPlan unit) (sessions : list PlannedCurrentNodeSession) (action : taskExecutionAction)
    (s : sample_db) : result (store_error error) (list CurrentNodeReference * list (CurrentNode unit)) * sample_db :=
  commitTaskExecution sample_valid no_fault sample_now plan sessions action s.

Definition started : sample_db :=
  (commit (planned (plan_to_start task_created)) [fresh_session "plan" None 11] taskExecutionStart task_created).2.
Definition split_plan := planned (plan_to_complete started "plan" None {["spec" := "S"]}).
Definition split : sample_db :=
  (commit split_plan [fresh_session "build" (Some "e_build") 12; fresh_session "test" (Some "e_test") 13] taskExecutionComplete started).2.
Definition built_plan := planned (plan_to_complete split "build" (Some "e_build") {["diff" := "D"]}).
Definition built : sample_db := (commit built_plan [] taskExecutionComplete split).2.
Definition tested_plan := planned (plan_to_complete built "test" (Some "e_test") {["report" := "R"]}).
Definition joined : sample_db := (commit tested_plan [fresh_session "review" None 14] taskExecutionComplete built).2.

(** The places of the task along the way. *)
Definition places (s : sample_db) : list (option string * NodeID) :=
  (λ kv, (kv.1.2, row_NodeID kv.2)) <$> map_to_list (db_current s).
Example places_along :
  (places task_created, places started, places split, places built, places joined) =
  ([(None, "start")], [(None, "plan")], [(Some "e_build", "build"); (Some "e_test", "test")], [(Some "e_test", "test")], [(None, "review")]).
Proof. vm_compute. reflexivity. Qed.

(** The way is made of steps of the code. *)
Definition succeeded (r : result (store_error error) (@taskExecutionPlan unit * nat)) : bool :=
  match r with Ok _ => true | Err _ => false end.
Abbreviation sample_prepared := (prepared sample_valid sample_parse (Some sample_catalog)) (only parsing).
Abbreviation sample_step := (step sample_valid sample_parse (Some sample_catalog)) (only parsing).
Lemma start_prepared s : succeeded (plan_to_start s) = true → sample_prepared taskExecutionStart (planned (plan_to_start s)).
Proof. unfold planned. destruct (plan_to_start s) as [[plan n]|] eqn:E; [|done]. intros _. by eapply prepared_start. Qed.
Lemma complete_prepared s node branch outputs : succeeded (plan_to_complete s node branch outputs) = true →
  sample_prepared taskExecutionComplete (planned (plan_to_complete s node branch outputs)).
Proof.
  unfold planned. destruct (plan_to_complete s node branch outputs) as [[plan n]|] eqn:E; [|done]. intros _.
  by eapply prepared_complete.
Qed.

Lemma started_reachable : rtc sample_step empty_db started.
Proof.
  apply rtc_l with workflow_stored; [by apply step_elsewhere|]. apply rtc_l with task_created; [by apply step_create|].
  apply rtc_once, step_move, start_prepared. by vm_compute.
Qed.
Lemma split_reachable : rtc sample_step empty_db split.
Proof. apply rtc_r with started; [apply started_reachable|]. apply step_move, complete_prepared. by vm_compute. Qed.
Lemma built_reachable : rtc sample_step empty_db built.
Proof. apply rtc_r with split; [apply split_reachable|]. apply step_move, complete_prepared. by vm_compute. Qed.
