(* ===== verification/TaskPositionClaims.v ===== *)
(** * Properties of the movement of tasks *)
From Stdlib Require Import ZArith String Lia.
From stdpp Require Import gmap strings list.
From S2P Require Import Prelude Transactions GoStrings Types Samples Reach Fanout Selection PromptRefs Wiring Validation.
From S2P Require Import CurrentState SessionReuse TaskTables Materialization TaskPlanning TaskExecution TaskActions.
From S2P Require Import TaskCutoverFacts TaskCutoverSpec TaskPlanFacts TaskPositionFacts TaskRowFacts TaskSamples.

Local Open Scope string_scope.

Section claims.
Context {order : RangeOrder}.
Context {L : Type} (protovalidate : L → option error).
Context (Parse : string → result string (gmap string (option TNode))) (catalog : option TargetAgentCatalog).
Implicit Types (s : @db L) (plan : @taskExecutionPlan L) (action : taskExecutionAction).

(** C1. Every task is always at exactly one serial node, or at the branches of
    its active fan-out that have not arrived, at least one of them of at least
    two: in every state the code reaches by creating, starting, completing,
    approving, moving, resuming, interrupting and deleting tasks, in any order,
    with plans prepared from stale reads and with any database failures. *)
Theorem every_task_has_one_position s task :
  rtc (step protovalidate Parse catalog) empty_db s → is_Some (db_tasks s !! task) → positioned s task.
Proof. intros H%reachable_ok Ht. by apply (ok_tasks _ H). Qed.

(** C5. A committed completion moves the task in one of five ways, with exactly
    these effects: it waits for an approval where it is; it goes on at its own
    place; it leaves the serial place for the branches of a new fan-out; its
    branch arrives at the join while another is still pending, and nothing is
    entered; or its branch is the last to arrive, the fan-out ends and the one
    node after the join is entered. A refused completion changes nothing. *)
Theorem completion_moves_the_task faulty now plan sessions s :
  prepared protovalidate Parse catalog taskExecutionComplete plan → store_ok s →
  match commitTaskExecution protovalidate faulty now plan sessions taskExecutionComplete s with
  | (Ok (removed, created), s') => completion_effect plan s removed created s' ∧
      ∀ task, task ≠ pl_taskID plan →
        db_fanouts s' !! task = db_fanouts s !! task ∧ ∀ key, db_current s' !! (task, key) = db_current s !! (task, key)
  | (Err _, s') => s' = s
  end.
Proof.
  intros Hp Hok. destruct (prepared_ok _ _ _ _ _ Hp) as [Hin Hshape].
  pose proof (commit_spec protovalidate faulty now plan sessions taskExecutionComplete s) as H.
  destruct (commitTaskExecution _ _ _ _ _ _ _) as [[[removed created]|e] s']; [|done]. destruct H as [Hc _].
  destruct (v_task _ _ _ _ (c_validated _ _ _ _ _ _ _ Hc)) as (row & _ & Erow & _).
  destruct (ok_tasks _ Hok (pl_taskID plan)) as [Ht _]; [eauto|]. split; [by eapply complete_effect|].
  intros task Hne. split; [by eapply committed_other_fanout|]. intros key. by eapply committed_other.
Qed.

(** C39. What a commit does is determined by the plan. Whatever a plan was
    prepared for, it is carried out only while what the preparation relied on
    still holds: the task with its workflow at the planned version, each source
    still stored as it was read and neither started, resumed nor awaiting
    approval meanwhile, the arrivals of the fan-out as they were, the workflow
    the task moves to. Then every table has exactly the planned contents: the
    sources' rows are replaced by those of the targets and the fan-outs change as
    planned; each Agent target has the one session planned for its node, a
    prepared one that is stored or the one it retains, every planned session is
    used, and the sessions belong to the task and are associated with the nodes
    at the time of the commit; the approval that is carried out is gone, a new one
    is stored with a row for each branch, and a move drops those of its task; the
    task is in the planned workflow with its time of change; definitions and
    everything of other tasks stay. Otherwise nothing changes. *)
Theorem commit_refines_plan faulty now plan sessions action s :
  match commitTaskExecution protovalidate faulty now plan sessions action s with
  | (Ok (removed, created), s') =>
    committed protovalidate plan action s removed created s' ∧ carried_out now plan sessions action s created s'
  | (Err _, s') => s' = s
  end.
Proof.
  pose proof (commit_spec protovalidate faulty now plan sessions action s) as H.
  pose proof (commit_carried protovalidate faulty now plan sessions action s) as H'.
  destruct (commitTaskExecution _ _ _ _ _ _ _) as [[[removed created]|e] s']; [split; [apply H|done]|done].
Qed.

(** C18. A stale plan is refused: when the task, the version of its workflow,
    the sources or the arrivals have changed since the preparation, the
    transaction ends with an error and leaves every table as it was. *)
Theorem stale_plan_refused faulty now plan sessions action s :
  ¬ validated protovalidate plan action s →
  ∃ e, commitTaskExecution protovalidate faulty now plan sessions action s = (Err e, s).
Proof.
  intros Hv. pose proof (commit_spec protovalidate faulty now plan sessions action s) as H.
  destruct (commitTaskExecution _ _ _ _ _ _ _) as [[[removed created]|e] s']; [|subst; by exists e].
  destruct Hv. apply H.
Qed.

(** The state machine of a current node's scheduling: only a ready node
    without a pending approval is admitted, only ready or admitted nodes (or
    admitted ones) are interrupted, with the reason, detail and time, and only
    an interruption by the user is replaced by a failed assignment; each
    operation changes this one row, succeeds exactly when the row admits it
    and the database does not fail, and otherwise changes nothing. *)
Theorem scheduling_state_machine faulty r (s : @db L) :
  changes_row faulty s r
    (λ row, row_SchedulingState row = Some CurrentNodeSchedulingReady ∧ HasTaskPendingApprovalForCurrentNode s r = false)
    (λ row, set_scheduling CurrentNodeSchedulingAdmitted (row_InterruptionReason row) (row_InterruptionDetail row)
              (row_InterruptedAtUnixMs row) row)
    (AdmitCurrentNode faulty r s) ∧
  (∀ reason detail now, blank reason = false →
    changes_row faulty s r
      (λ row, row_SchedulingState row = Some CurrentNodeSchedulingReady ∨ row_SchedulingState row = Some CurrentNodeSchedulingAdmitted)
      (set_interrupted reason detail now) (InterruptCurrentNode faulty r reason detail now s) ∧
    changes_row faulty s r (λ row, row_SchedulingState row = Some CurrentNodeSchedulingAdmitted)
      (set_interrupted reason detail now) (InterruptAdmittedCurrentNode faulty r reason detail now s)) ∧
  (∀ detail now, changes_row faulty s r
    (λ row, row_SchedulingState row = Some CurrentNodeSchedulingInterrupted ∧
            row_InterruptionReason row = Some CurrentNodeInterruptionReasonUserInterrupt)
    (set_interrupted "workflow_runtime_start_failed" detail now)
    (ReplaceUserInterruptionWithAssignmentFailure faulty r detail now s)).
Proof.
  split_and!.
  - eapply changes_row_ext; [|apply admit_spec]. intros row. rewrite andb_true_iff, negb_true_iff, state_in_spec. set_solver.
  - intros reason detail now Hr. split; (eapply changes_row_ext; [|by apply interrupt_spec]); intros row; rewrite state_in_spec; set_solver.
  - intros detail now. eapply changes_row_ext; [|apply replace_spec]. intros row.
    rewrite andb_true_iff, state_in_spec, bool_decide_eq_true. set_solver.
Qed.

(** Current nodes are stored without loss: a current node that was read
    from its row is stored again as a row that is read back the same, at the
    same place. *)
Theorem current_node_row_roundtrip kind at_ row (node : CurrentNode L) :
  currentNodeFromRow protovalidate kind at_ row = Ok node → (kind = NodeKindTerminal → row_EnteredByEdgeID row = None) →
  currentNodeFromRow protovalidate kind (place_of (cn_Reference node)) (insert_params kind node) = Ok node.
Proof. apply row_roundtrip. Qed.
End claims.

(** ** The properties on the sample run *)
#[local] Existing Instance default_order.

Lemma every_task_has_one_position_witness : db_fanouts split !! "t1" ≠ None ∧ positioned split "t1".
Proof.
  split; [by vm_compute|].
  apply (every_task_has_one_position sample_valid sample_parse (Some sample_catalog) split "t1").
  - exact split_reachable.
  - vm_compute. eauto.
Defined.

Lemma completion_moves_the_task_witness :
  let '(r, s') := commitTaskExecution sample_valid no_fault sample_now tested_plan [fresh_session "review" None 14]
                    taskExecutionComplete built in
  succeeded (plan_to_complete built "test" (Some "e_test") {["report" := "R"]}) = true ∧
  match r with
  | Ok (removed, created) => completion_effect tested_plan built removed created s' ∧
      ∀ task, task ≠ pl_taskID tested_plan →
        db_fanouts s' !! task = db_fanouts built !! task ∧ ∀ key, db_current s' !! (task, key) = db_current built !! (task, key)
  | Err _ => False
  end.
Proof.
  pose proof (completion_moves_the_task sample_valid sample_parse (Some sample_catalog) no_fault sample_now tested_plan
    [fresh_session "review" None 14] built) as H.
  assert (match (commitTaskExecution sample_valid no_fault sample_now tested_plan [fresh_session "review" None 14]
                   taskExecutionComplete built).1 with Ok _ => true | Err _ => false end = true) as Hok by by vm_compute.
  destruct (commitTaskExecution _ _ _ _ _ _ _) as [[[removed created]|e] s']; [|done].
  split; [by vm_compute|]. apply H.
  - apply complete_prepared. by vm_compute.
  - exact (reachable_ok _ _ _ _ built_reachable).
Defined.

(** Both branches prepared their arrival at once; the second to commit must
    prepare again, or the join would be missed. *)
Definition early_plan := planned (plan_to_complete split "test" (Some "e_test") {["report" := "R"]}).
Lemma stale_plan_refused_witness :
  (∃ r, (commit early_plan [] taskExecutionComplete split).1 = Ok r) ∧
  ∃ e, commitTaskExecution sample_valid no_fault sample_now early_plan [] taskExecutionComplete built = (Err e, built).
Proof.
  split; [vm_compute; eauto|].
  apply (stale_plan_refused sample_valid no_fault sample_now early_plan [] taskExecutionComplete built).
  intros [_ _ Harrivals].
  assert (bool_decide (ListTaskActiveFanoutBranches built (pl_taskID early_plan) = pl_joinBefore early_plan) = false) as Hne
    by by vm_compute.
  apply bool_decide_eq_false_1 in Hne. apply Hne, Harrivals. by vm_compute.
Defined.

Lemma current_node_row_roundtrip_witness : ∃ row node, db_current started !! ("t1", None) = Some row ∧
  currentNodeFromRow sample_valid NodeKindAgent ("t1", None) row = Ok node ∧
  currentNodeFromRow sample_valid NodeKindAgent (place_of (cn_Reference node)) (insert_params NodeKindAgent node) = Ok node.
Proof.
  assert (match db_current started !! ("t1", None) with
          | Some row => match currentNodeFromRow sample_valid NodeKindAgent ("t1", None) row with Ok _ => true | Err _ => false end
          | None => false
          end = true) as H by by vm_compute.
  destruct (db_current started !! ("t1", None)) as [row|]; [|done].
  destruct (currentNodeFromRow sample_valid NodeKindAgent ("t1", None) row) as [node|] eqn:En; [|done].
  exists row, node. split; [done|]. split; [exact En|].
  apply (current_node_row_roundtrip sample_valid NodeKindAgent ("t1", None) row node En). done.
Defined.
