(* ===== verification/GraphTables.v ===== *)
(** * The stored graph

    The tables that keep workflow definitions and the statements
    src/server/workflowstore runs on them (src/server/metadata/sqlitegen, with
    the constraints of src/server/metadata/migrations): workflows, node groups,
    nodes, transition groups and edges. Of the tables of tasks there are the
    columns that refer to the graph.

    A table maps primary keys to rows with their row numbers, which order rows
    of equal sort order. A statement fails when a constraint of its table
    refuses it: a length or value check, a unique key, a trigger. Foreign keys
    are deferred to the commit; their actions are part of the deletions. JSON
    columns hold the values they encode. *)
From Stdlib Require Import ZArith String Ascii.
From stdpp Require Import gmap strings list sorting.
From S2P Require Import Prelude Transactions GoStrings Types CurrentState.

Local Open Scope string_scope.

(** ** Tables *)
Abbreviation table R := (gmap string (N * R)) (only parsing).

Section tables.
Context {R : Type}.
Implicit Types (t : table R) (id : string) (row : R).

(** A new row gets the number after the greatest. *)
Definition next_rowid t : N := (1 + map_fold (λ _ r m, N.max r.1 m) 0 t)%N.
Definition put id row t : table R :=
  <[id := (match t !! id with Some r => r.1 | None => next_rowid t end, row)]> t.

(** [ORDER BY sort_order ASC, rowid ASC]. *)
Definition row_before (sort : R → Z) (a b : string * (N * R)) : Prop :=
  (sort a.2.2 < sort b.2.2)%Z ∨ (sort a.2.2 = sort b.2.2 ∧ (a.2.1 ≤ b.2.1)%N).
#[export] Instance row_before_dec sort : RelDecision (row_before sort).
Proof. intros a b. unfold row_before. apply _. Defined.
Definition ordered (sort : R → Z) t : list (string * R) :=
  (λ r, (r.1, r.2.2)) <$> merge_sort (row_before sort) (map_to_list t).

(** Whether another row has the value in a unique column. *)
Definition conflicts {K} `{EqDecision K} (key : R → K) id (k : K) t : bool :=
  existsb (λ r, (r.1 <>? id) && (key r.2.2 ==? k)) (map_to_list t).
End tables.

(** ** Rows *)
Record workflow_info := {
  wi_Name : string; wi_Description : string; wi_Version : Z;
  wi_ExecutionTargetPolicy : string; wi_ExecutionTargetCustomRef : option string; wi_UpdatedAtUnixMs : Z }.

Record group_row := {
  g_WorkflowID : WorkflowID; g_Key : string; g_DisplayName : option string; g_SortOrder : Z }.
Record node_row := {
  n_WorkflowID : WorkflowID; n_Key : string; n_Kind : NodeKind; n_DisplayName : string; n_SubagentRole : string;
  n_CompletionMode : string; n_ScriptPath : option string; n_JoinInputProviders : list JoinInputProvider;
  n_GroupID : option string; n_SortOrder : Z }.
Record transition_row := {
  t_SourceNodeID : NodeID; t_TransitionID : string; t_DisplayName : string; t_Description : string; t_SortOrder : Z }.
Record edge_row := {
  ed_TransitionGroupID : TransitionGroupID; ed_Key : string; ed_TargetNodeID : NodeID; ed_AssigneeSelection : string;
  ed_ThinkingSelection : string; ed_RequiresApproval : bool; ed_ContextMode : string; ed_ContextSourceKind : string;
  ed_ContextSourceNodeKey : string; ed_PromptTemplate : string; ed_Parameters : list EdgeParameter;
  ed_InputBindings : list InputBinding; ed_OutputRequirements : list string; ed_SortOrder : Z }.

(** What tasks refer to: the node and the entering edge of each current node
    with the workflow of its task, the source of each pending approval with
    the workflow of its task, the target and its entering edge of each branch
    of an approval. *)
Record task_anchors := {
  ta_current : list (WorkflowID * NodeID * option EdgeID);
  ta_approvals : list (WorkflowID * NodeID);
  ta_branches : list (NodeID * option EdgeID) }.

Record graph_db := {
  gd_workflows : gmap WorkflowID workflow_info;
  gd_groups : table group_row;
  gd_nodes : table node_row;
  gd_transitions : table transition_row;
  gd_edges : table edge_row;
  gd_anchors : task_anchors }.

Definition set_workflows w s := {| gd_workflows := w; gd_groups := gd_groups s; gd_nodes := gd_nodes s;
  gd_transitions := gd_transitions s; gd_edges := gd_edges s; gd_anchors := gd_anchors s |}.
Definition set_groups g s := {| gd_workflows := gd_workflows s; gd_groups := g; gd_nodes := gd_nodes s;
  gd_transitions := gd_transitions s; gd_edges := gd_edges s; gd_anchors := gd_anchors s |}.
Definition set_nodes n s := {| gd_workflows := gd_workflows s; gd_groups := gd_groups s; gd_nodes := n;
  gd_transitions := gd_transitions s; gd_edges := gd_edges s; gd_anchors := gd_anchors s |}.
Definition set_transitions t s := {| gd_workflows := gd_workflows s; gd_groups := gd_groups s; gd_nodes := gd_nodes s;
  gd_transitions := t; gd_edges := gd_edges s; gd_anchors := gd_anchors s |}.
Definition set_edges e s := {| gd_workflows := gd_workflows s; gd_groups := gd_groups s; gd_nodes := gd_nodes s;
  gd_transitions := gd_transitions s; gd_edges := e; gd_anchors := gd_anchors s |}.

(** ** Checks of a row

    SQLite's [length] counts characters and its [trim] removes spaces. *)
Definition sql_trim (s : string) : string :=
  let strip := trim_front (λ a, bool_decide (a = " "%char)) (λ _ _, false) (λ _ _ _, false) in
  string_of_list_ascii (reverse (strip (reverse (strip (list_ascii_of_string s))))).
Definition sql_length (s : string) : N := RuneCountInString s.
Definition between (lo n hi : N) : bool := ((lo <=? n) && (n <=? hi))%N.

Definition group_check (r : group_row) : bool :=
  between 1 (sql_length (g_Key r)) 64 && (0 <=? g_SortOrder r)%Z
  && match g_DisplayName r with None => true | Some name => between 1 (sql_length (sql_trim name)) 120 end.
Definition node_check (r : node_row) : bool :=
  between 1 (sql_length (n_Key r)) 64 && (n_Kind r <>? NodeKindUnset) && between 0 (sql_length (sql_trim (n_DisplayName r))) 120
  && (0 <=? n_SortOrder r)%Z
  && (n_CompletionMode r ∈? [""; "auto"; "structured_output"; "tool"; "shell_command"; "unstructured_output"])
  && ((n_CompletionMode r ==? "") || (n_Kind r ==? NodeKindAgent))
  && match n_ScriptPath r with None => true | Some path => (n_Kind r ==? NodeKindScript) && (0 <? sql_length (sql_trim path))%N end.
Definition transition_check (r : transition_row) : bool :=
  between 1 (sql_length (t_TransitionID r)) 64 && (sql_length (t_DisplayName r) <=? 120)%N && (0 <=? t_SortOrder r)%Z
  && (sql_length (t_Description r) <=? 1000)%N.
Definition edge_check (r : edge_row) : bool :=
  between 1 (sql_length (ed_Key r)) 64
  && (ed_ContextMode r ∈? [ContextModeNewSession; ContextModeContinueSession; ContextModeCompactAndContinueSession])
  && (0 <=? ed_SortOrder r)%Z
  && (((ed_ContextSourceKind r ∈? [ContextSourceImmediateSource; ContextSourcePreviousTarget; ContextSourcePreviousTargetOrNew])
       && (ed_ContextSourceNodeKey r ==? ""))
      || ((ed_ContextSourceKind r ==? ContextSourceSelectedNode) && between 1 (sql_length (ed_ContextSourceNodeKey r)) 64))
  && (ed_AssigneeSelection r ∈? [AssigneeSelectionConfigured; AssigneeSelectionPreviousNode])
  && (ed_ThinkingSelection r ∈? [ThinkingSelectionConfigured; ThinkingSelectionPreviousNode]).
Definition workflow_check (r : workflow_info) : bool :=
  between 1 (sql_length (sql_trim (wi_Name r))) 120 && (sql_length (wi_Description r) <=? 1000)%N
  && (1 <=? wi_Version r)%Z && (0 <=? wi_UpdatedAtUnixMs r)%Z && validExecutionTargetPolicyMode (wi_ExecutionTargetPolicy r)
  && match wi_ExecutionTargetCustomRef r with
     | None => true
     | Some ref => (wi_ExecutionTargetPolicy r ==? ExecutionTargetModeCustomRef) && (0 <? sql_length (sql_trim ref))%N
     end.

(** ** Queries *)
Definition node_workflow (s : graph_db) (id : NodeID) : option WorkflowID :=
  r ← gd_nodes s !! id; Some (n_WorkflowID r.2).
(** The workflow of a transition group is that of its source. *)
Definition transition_workflow (s : graph_db) (id : TransitionGroupID) : option WorkflowID :=
  r ← gd_transitions s !! id; node_workflow s (t_SourceNodeID r.2).
Definition edge_workflow (s : graph_db) (id : EdgeID) : option WorkflowID :=
  r ← gd_edges s !! id; transition_workflow s (ed_TransitionGroupID r.2).

Definition ListWorkflowNodeGroups (s : graph_db) (id : WorkflowID) : list (string * group_row) :=
  ordered g_SortOrder (filter (λ r, g_WorkflowID r.2.2 = id) (gd_groups s)).
Definition ListWorkflowNodes (s : graph_db) (id : WorkflowID) : list (string * node_row) :=
  ordered n_SortOrder (filter (λ r, n_WorkflowID r.2.2 = id) (gd_nodes s)).
Definition ListWorkflowTransitionGroups (s : graph_db) (id : WorkflowID) : list (string * transition_row) :=
  ordered t_SortOrder (filter (λ r, transition_workflow s r.1 = Some id) (gd_transitions s)).
Definition ListWorkflowEdges (s : graph_db) (id : WorkflowID) : list (string * edge_row) :=
  ordered ed_SortOrder (filter (λ r, edge_workflow s r.1 = Some id) (gd_edges s)).

Definition count {A} (f : A → bool) (l : list A) : Z := Z.of_nat (length (filter (λ a, f a = true) l)).
Definition CountTaskNodeReferences (s : graph_db) (id : NodeID) : Z :=
  let a := gd_anchors s in
  (count (λ r, r.1.2 ==? id) (ta_current a) + count (λ r, r.2 ==? id) (ta_approvals a) + count (λ r, r.1 ==? id) (ta_branches a))%Z.
Definition CountCurrentTaskNodeAnchorReferences (s : graph_db) (id : NodeID) : Z :=
  let a := gd_anchors s in
  (count (λ r, r.1.2 ==? id) (ta_current a) + count (λ r, r.2 ==? id) (ta_approvals a) + count (λ r, r.1 ==? id) (ta_branches a))%Z.
Definition CountTaskEdgeReferences (s : graph_db) (id : EdgeID) : Z :=
  let a := gd_anchors s in
  (count (λ r, r.2 ==? Some id) (ta_current a) + count (λ r, r.2 ==? Some id) (ta_branches a))%Z.
Definition CountAllTaskEdgeReferences (s : graph_db) (id : EdgeID) : Z :=
  let a := gd_anchors s in
  (count (λ r, r.2 ==? Some id) (ta_current a) + count (λ r, r.2 ==? Some id) (ta_branches a))%Z.
Definition GetWorkflowGraphActiveWorkPolicyImpact (s : graph_db) (id : WorkflowID) : Z * Z :=
  let a := gd_anchors s in
  (count (λ r, (r.1.1 ==? id) && match gd_nodes s !! r.1.2 with
     | Some n => negb (n_Kind n.2 ∈? [NodeKindStart; NodeKindTerminal])
     | None => false
     end) (ta_current a),
   count (λ r, r.1 ==? id) (ta_approvals a)).

(** ** Foreign keys, checked at the commit *)
Definition foreign_keys (s : graph_db) : Prop :=
  map_Forall (λ _ r, is_Some (gd_workflows s !! g_WorkflowID r.2)) (gd_groups s) ∧
  map_Forall (λ _ r, is_Some (gd_workflows s !! n_WorkflowID r.2) ∧
    match n_GroupID r.2 with Some g => is_Some (gd_groups s !! g) | None => True end) (gd_nodes s) ∧
  map_Forall (λ _ r, is_Some (gd_nodes s !! t_SourceNodeID r.2)) (gd_transitions s) ∧
  map_Forall (λ _ r, is_Some (gd_transitions s !! ed_TransitionGroupID r.2) ∧ is_Some (gd_nodes s !! ed_TargetNodeID r.2)) (gd_edges s) ∧
  Forall (λ a : WorkflowID * NodeID * option EdgeID, is_Some (gd_nodes s !! a.1.2)) (ta_current (gd_anchors s)).
#[export] Instance foreign_keys_dec s : Decision (foreign_keys s).
Proof.
  assert (∀ (i : string) (r : N * node_row), Decision (is_Some (gd_workflows s !! n_WorkflowID r.2) ∧
    match n_GroupID r.2 with Some g => is_Some (gd_groups s !! g) | None => True end)).
  { intros i r. destruct (n_GroupID r.2); apply _. }
  unfold foreign_keys. apply _.
Defined.

(** ** Statements *)
Section statements.
Context {P : Type} (faulty : nat → bool).
Local Abbreviation tx := (txn graph_db P) (only parsing).

Definition GetWorkflow (id : WorkflowID) : tx workflow_info :=
  row ← select faulty "get workflow" (λ s, gd_workflows s !! id);
  match row with Some row => mret row | None => fail NoRows end.

(** The number of rows a statement changed. *)
Definition one (s : graph_db) : option (nat * graph_db) := Some (1%nat, s).
Definition none (s : graph_db) : option (nat * graph_db) := Some (0%nat, s).

Definition AcquireWorkflowGraphSaveWriteLock (id : WorkflowID) : tx nat :=
  attempt faulty "lock workflow" (λ s, if bool_decide (is_Some (gd_workflows s !! id)) then one s else none s).

(** [UPDATE workflows SET … WHERE id = …] *)
Definition update_workflow (operation : string) (id : WorkflowID) (f : workflow_info → workflow_info) : tx (option workflow_info) :=
  attempt faulty operation (λ s,
    match gd_workflows s !! id with
    | None => Some (None, s)
    | Some row => if workflow_check (f row) then Some (Some (f row), set_workflows (<[id := f row]> (gd_workflows s)) s) else None
    end).
Definition set_version (version now : Z) (row : workflow_info) : workflow_info := {|
  wi_Name := wi_Name row; wi_Description := wi_Description row; wi_Version := version;
  wi_ExecutionTargetPolicy := wi_ExecutionTargetPolicy row; wi_ExecutionTargetCustomRef := wi_ExecutionTargetCustomRef row;
  wi_UpdatedAtUnixMs := now |}.
Definition set_info (name description : string) (row : workflow_info) : workflow_info := {|
  wi_Name := name; wi_Description := description; wi_Version := wi_Version row;
  wi_ExecutionTargetPolicy := wi_ExecutionTargetPolicy row; wi_ExecutionTargetCustomRef := wi_ExecutionTargetCustomRef row;
  wi_UpdatedAtUnixMs := wi_UpdatedAtUnixMs row |}.
Definition set_policy (policy : string) (ref : option string) (row : workflow_info) : workflow_info := {|
  wi_Name := wi_Name row; wi_Description := wi_Description row; wi_Version := wi_Version row;
  wi_ExecutionTargetPolicy := policy; wi_ExecutionTargetCustomRef := ref; wi_UpdatedAtUnixMs := wi_UpdatedAtUnixMs row |}.

Definition IncrementWorkflowVersion (id : WorkflowID) (now : Z) : tx Z :=
  row ← update_workflow "increment workflow version" id (λ row, set_version (wi_Version row + 1) now row);
  match row with Some row => mret (wi_Version row) | None => fail NoRows end.
Definition UpdateWorkflowMetadataWithoutVersion (id : WorkflowID) (name description policy : string) (ref : option string) (now : Z) : tx nat :=
  row ← update_workflow "update workflow metadata" id (λ row, set_version (wi_Version row) now (set_info name description (set_policy policy ref row)));
  mret (if bool_decide (is_Some row) then 1%nat else 0%nat).
Definition UpdateWorkflowMetadata (id : WorkflowID) (name description policy : string) (ref : option string) (now : Z) : tx nat :=
  row ← update_workflow "update workflow metadata" id (λ row, set_version (wi_Version row + 1) now (set_info name description (set_policy policy ref row)));
  mret (if bool_decide (is_Some row) then 1%nat else 0%nat).
Definition UpdateWorkflowInfoRow (id : WorkflowID) (name description : string) (now : Z) : tx nat :=
  row ← update_workflow "update workflow info" id (λ row, set_version (wi_Version row + 1) now (set_info name description row));
  mret (if bool_decide (is_Some row) then 1%nat else 0%nat).
Definition InsertWorkflow (id : WorkflowID) (row : workflow_info) : tx unit :=
  attempt faulty "insert workflow" (λ s,
    if workflow_check row && bool_decide (gd_workflows s !! id = None)
    then Some (tt, set_workflows (<[id := row]> (gd_workflows s)) s) else None).

(** The group of a node must be one of its workflow. *)
Definition group_in_workflow (s : graph_db) (r : node_row) : bool :=
  match n_GroupID r with
  | None => true
  | Some g => match gd_groups s !! g with Some row => g_WorkflowID row.2 ==? n_WorkflowID r | None => false end
  end.
(** A workflow has one start. *)
Definition node_unique (id : NodeID) (r : node_row) (t : table node_row) : bool :=
  negb (conflicts (λ n, (n_WorkflowID n, n_Key n)) id (n_WorkflowID r, n_Key r) t)
  && negb ((n_Kind r ==? NodeKindStart) && conflicts (λ n, (n_WorkflowID n, n_Kind n)) id (n_WorkflowID r, NodeKindStart) t).
Definition InsertWorkflowNode (id : NodeID) (r : node_row) : tx unit :=
  attempt faulty "insert workflow node" (λ s,
    if node_check r && bool_decide (is_Some (gd_workflows s !! n_WorkflowID r)) && group_in_workflow s r
       && bool_decide (gd_nodes s !! id = None) && node_unique id r (gd_nodes s)
    then Some (tt, set_nodes (put id r (gd_nodes s)) s) else None).

(** An upsert leaves a row of another workflow alone. *)
Definition UpsertWorkflowNodeGroup (id : string) (r : group_row) : tx nat :=
  attempt faulty "upsert node group" (λ s,
    if negb (group_check r) then None
    else if match gd_groups s !! id with Some old => g_WorkflowID old.2 <>? g_WorkflowID r | None => false end then none s
    else if conflicts (λ g, (g_WorkflowID g, g_Key g)) id (g_WorkflowID r, g_Key r) (gd_groups s) then None
    else one (set_groups (put id r (gd_groups s)) s)).

(** The kind of a node that tasks refer to does not change. *)
Definition UpsertWorkflowNode (id : NodeID) (r : node_row) : tx nat :=
  attempt faulty "upsert node" (λ s,
    if negb (node_check r && group_in_workflow s r) then None
    else if match gd_nodes s !! id with Some old => n_WorkflowID old.2 <>? n_WorkflowID r | None => false end then none s
    else if match gd_nodes s !! id with
         | Some old => (n_Kind old.2 <>? n_Kind r) && (0 <? CountTaskNodeReferences s id)%Z
         | None => false
         end then None
    else if negb (node_unique id r (gd_nodes s)) then None
    else one (set_nodes (put id r (gd_nodes s)) s)).

Definition UpsertWorkflowTransitionGroup (id : TransitionGroupID) (r : transition_row) (workflowID : WorkflowID) : tx nat :=
  attempt faulty "upsert transition group" (λ s,
    if node_workflow s (t_SourceNodeID r) <>? Some workflowID then none s
    else if negb (transition_check r) then None
    else if match gd_transitions s !! id with
         | Some old => node_workflow s (t_SourceNodeID old.2) <>? Some workflowID
         | None => false
         end then none s
    else if conflicts (λ t, (t_SourceNodeID t, t_TransitionID t)) id (t_SourceNodeID r, t_TransitionID r) (gd_transitions s) then None
    else one (set_transitions (put id r (gd_transitions s)) s)).

Definition UpsertWorkflowEdge (id : EdgeID) (r : edge_row) (workflowID : WorkflowID) : tx nat :=
  attempt faulty "upsert edge" (λ s,
    if (transition_workflow s (ed_TransitionGroupID r) <>? Some workflowID)
       || (node_workflow s (ed_TargetNodeID r) <>? Some workflowID) then none s
    else if negb (edge_check r) then None
    else if match gd_edges s !! id with
         | Some old => transition_workflow s (ed_TransitionGroupID old.2) <>? Some workflowID
         | None => false
         end then none s
    else if conflicts (λ e, (ed_TransitionGroupID e, ed_Key e)) id (ed_TransitionGroupID r, ed_Key r) (gd_edges s) then None
    else one (set_edges (put id r (gd_edges s)) s)).

Definition DeleteWorkflowEdge (id : EdgeID) : tx nat :=
  attempt faulty "delete edge" (λ s,
    if bool_decide (is_Some (gd_edges s !! id)) then one (set_edges (delete id (gd_edges s)) s) else none s).

(** The edges of a deleted group go with it. *)
Definition drop_transition (id : TransitionGroupID) (s : graph_db) : graph_db :=
  set_transitions (delete id (gd_transitions s))
    (set_edges (filter (λ r, ed_TransitionGroupID r.2.2 ≠ id) (gd_edges s)) s).
Definition DeleteWorkflowTransitionGroupByID (id : TransitionGroupID) : tx nat :=
  attempt faulty "delete transition group" (λ s,
    if bool_decide (is_Some (gd_transitions s !! id)) then one (drop_transition id s) else none s).

(** The transition groups that leave a deleted node go with it and with their
    edges, and so do the edges into it. A node that an approval refers to is
    not deleted; the reference of a current node is checked at the commit. *)
Definition drop_node (id : NodeID) (s : graph_db) : graph_db :=
  let leaves e := match gd_transitions s !! ed_TransitionGroupID e with Some t => t_SourceNodeID t.2 ==? id | None => false end in
  set_nodes (delete id (gd_nodes s))
    (set_transitions (filter (λ r, t_SourceNodeID r.2.2 ≠ id) (gd_transitions s))
      (set_edges (filter (λ r, ed_TargetNodeID r.2.2 ≠ id ∧ leaves r.2.2 = false) (gd_edges s)) s)).
Definition DeleteWorkflowNode (id : NodeID) : tx nat :=
  attempt faulty "delete node" (λ s,
    if negb (bool_decide (is_Some (gd_nodes s !! id))) then none s
    else if existsb (λ a, a.2 ==? id) (ta_approvals (gd_anchors s)) || existsb (λ b, b.1 ==? id) (ta_branches (gd_anchors s)) then None
    else one (drop_node id s)).

(** Its nodes remain without a group. *)
Definition ungroup (id : string) (r : node_row) : node_row :=
  if n_GroupID r ==? Some id then {|
    n_WorkflowID := n_WorkflowID r; n_Key := n_Key r; n_Kind := n_Kind r; n_DisplayName := n_DisplayName r;
    n_SubagentRole := n_SubagentRole r; n_CompletionMode := n_CompletionMode r; n_ScriptPath := n_ScriptPath r;
    n_JoinInputProviders := n_JoinInputProviders r; n_GroupID := None; n_SortOrder := n_SortOrder r |}
  else r.
Definition DeleteWorkflowNodeGroup (id : string) (workflowID : WorkflowID) : tx nat :=
  attempt faulty "delete node group" (λ s,
    if match gd_groups s !! id with Some r => g_WorkflowID r.2 ==? workflowID | None => false end
    then one (set_groups (delete id (gd_groups s)) (set_nodes ((λ r, (r.1, ungroup id r.2)) <$> gd_nodes s) s))
    else none s).

(** The foreign keys at the commit. *)
Definition deferred_checks : tx unit :=
  attempt faulty "commit" (λ s, if bool_decide (foreign_keys s) then Some (tt, s) else None).
End statements.
