(* ===== verification/GraphSave.v ===== *)
(** * Saving a workflow graph

    src/server/workflowstore: graph_save.go (preparation, blockers, the write
    transaction), graph_edit_policy.go (what may change under tasks),
    graph_records.go (reading), graph_save_request.go, and of store.go the
    records, the creation of a workflow and the change of its name.

    A save prepares a plan in a read-only transaction and carries it out in a
    second one, which other transactions may precede. The second transaction
    ends early, with nothing written, when the version changed or the edit is
    blocked. The diagnostics of script paths, which depend on the file system
    and never block a save, and the serialisation of saves by a mutation lane
    are left out. *)
From Stdlib Require Import ZArith String Ascii.
From stdpp Require Import gmap strings list sorting.
From S2P Require Import Prelude Transactions GoStrings Types Selection Reach Fanout PromptRefs Wiring Validation.
From S2P Require Import CurrentState SessionReuse GraphTables.

Local Open Scope string_scope.

(** ** Records *)
Record NodeGroupRecord := {
  gr_ID : string; gr_WorkflowID : WorkflowID; gr_Key : ModelKey; gr_DisplayName : option string; gr_SortOrder : Z }.
#[export] Instance NodeGroupRecord_eq_dec : EqDecision NodeGroupRecord.
Proof. solve_decision. Defined.
Record NodeRecord := {
  nr_ID : NodeID; nr_WorkflowID : WorkflowID; nr_Key : ModelKey; nr_Kind : NodeKind; nr_DisplayName : string;
  nr_GroupID : option string; nr_GroupKey : string; nr_SubagentRole : string; nr_CompletionMode : string;
  nr_ScriptPath : string; nr_JoinInputProviders : list JoinInputProvider; nr_SortOrder : Z }.
#[export] Instance NodeRecord_eq_dec : EqDecision NodeRecord.
Proof. solve_decision. Defined.
Record TransitionGroupRecord := {
  tr_ID : TransitionGroupID; tr_WorkflowID : WorkflowID; tr_SourceNodeID : NodeID; tr_TransitionID : TransitionID;
  tr_DisplayName : string; tr_Description : string; tr_SortOrder : Z }.
#[export] Instance TransitionGroupRecord_eq_dec : EqDecision TransitionGroupRecord.
Proof. solve_decision. Defined.
Record EdgeRecord := {
  er_ID : EdgeID; er_WorkflowID : WorkflowID; er_TransitionGroupID : TransitionGroupID; er_Key : ModelKey;
  er_TargetNodeID : NodeID; er_AssigneeSelection : string; er_ThinkingSelection : string; er_RequiresApproval : bool;
  er_ContextMode : string; er_ContextSource : ContextSource; er_InputBindings : list InputBinding; er_PromptTemplate : string;
  er_Parameters : list EdgeParameter; er_OutputRequirements : list string; er_SortOrder : Z }.
#[export] Instance EdgeRecord_eq_dec : EqDecision EdgeRecord.
Proof. solve_decision. Defined.

Record WorkflowRecord := {
  wr_ID : WorkflowID; wr_Name : string; wr_Description : string; wr_Version : Z; wr_ExecutionTargetPolicy : ExecutionTargetPolicy }.

Record preparedWorkflowGraphSave := {
  nodeGroups : list NodeGroupRecord; nodes : list NodeRecord;
  transitionGroups : list TransitionGroupRecord; edges : list EdgeRecord }.
#[export] Instance preparedWorkflowGraphSave_eq_dec : EqDecision preparedWorkflowGraphSave.
Proof. solve_decision. Defined.

(** ** Records and definitions *)
Definition validateNodeCompletionMode (kind : NodeKind) (mode : string) : option error :=
  let trimmed := TrimSpace mode in
  if trimmed ==? "" then None
  else if kind <>? NodeKindAgent then Some "workflow completion mode override is only valid for agent nodes"
  else if trimmed ∈? ["auto"; "structured_output"; "tool"; "shell_command"; "unstructured_output"] then None
  else Some "invalid workflow node completion mode".

Definition nodeCompletionMode (node : NodeRecord) : string :=
  if nr_Kind node <>? NodeKindAgent then "" else TrimSpace (nr_CompletionMode node).

Definition workflowNodeFromRecord (node : NodeRecord) : result error Node :=
  match NewNode
    {| ni_WorkflowID := nr_WorkflowID node; ni_ID := nr_ID node; ni_Key := nr_Key node;
       ni_DisplayName := nr_DisplayName node; ni_GroupID := nr_GroupID node |} (nr_Kind node)
    {| nf_SubagentRole := nr_SubagentRole node; nf_CompletionMode := nr_CompletionMode node;
       nf_JoinInputProviders := nr_JoinInputProviders node; nf_ScriptPath := PresentScriptPath (nr_ScriptPath node) |} with
  | Some node => Ok node
  | None => Err "workflow node kind is invalid"
  end.

Definition workflowEdgeFromRecord (edge : EdgeRecord) : Edge := {|
  e_WorkflowID := er_WorkflowID edge; e_ID := er_ID edge; e_Key := er_Key edge;
  e_TransitionGroupID := er_TransitionGroupID edge; e_TargetNodeID := er_TargetNodeID edge;
  e_AssigneeSelection := er_AssigneeSelection edge; e_ThinkingSelection := er_ThinkingSelection edge;
  e_ContextMode := er_ContextMode edge; e_ContextSource := CanonicalContextSource (er_ContextSource edge);
  e_RequiresApproval := er_RequiresApproval edge; e_PromptTemplate := er_PromptTemplate edge;
  e_Parameters := er_Parameters edge; e_InputBindings := er_InputBindings edge;
  e_OutputRequirements := er_OutputRequirements edge |}.

(** The nodes that name a group, in order. *)
Definition group_members (prepared : preparedWorkflowGraphSave) (id : string) : list NodeID :=
  nr_ID <$> filter (λ n, nr_GroupID n = Some id) (nodes prepared).

Definition workflowDefinitionFromPreparedGraph (prepared : preparedWorkflowGraphSave) (workflowID : WorkflowID)
    (displayName : string) (policy : ExecutionTargetPolicy) : result error WorkflowDefinition :=
  workflowNodes ← mapM workflowNodeFromRecord (nodes prepared);
  Ok {| d_ID := workflowID; d_DisplayName := displayName; d_ExecutionTargetPolicy := policy;
        d_NodeGroups := (λ g, {| ng_WorkflowID := gr_WorkflowID g; ng_ID := gr_ID g; ng_Key := gr_Key g;
          ng_DisplayName := gr_DisplayName g; ng_SortOrder := gr_SortOrder g;
          ng_MemberNodeIDs := group_members prepared (gr_ID g) |}) <$> nodeGroups prepared;
        d_Nodes := workflowNodes;
        d_TransitionGroups := (λ g, {| tg_WorkflowID := tr_WorkflowID g; tg_ID := tr_ID g; tg_SourceNodeID := tr_SourceNodeID g;
          tg_TransitionID := tr_TransitionID g; tg_DisplayName := tr_DisplayName g; tg_Description := tr_Description g |})
          <$> transitionGroups prepared;
        d_Edges := workflowEdgeFromRecord <$> edges prepared |}.

(** ** Reading the stored graph *)
Definition group_record (r : string * group_row) : NodeGroupRecord := {|
  gr_ID := r.1; gr_WorkflowID := g_WorkflowID r.2; gr_Key := g_Key r.2; gr_DisplayName := g_DisplayName r.2;
  gr_SortOrder := g_SortOrder r.2 |}.
Definition node_record (groupKeyByID : gmap string string) (r : string * node_row) : NodeRecord := {|
  nr_ID := r.1; nr_WorkflowID := n_WorkflowID r.2; nr_Key := n_Key r.2; nr_Kind := n_Kind r.2; nr_DisplayName := n_DisplayName r.2;
  nr_GroupID := n_GroupID r.2; nr_GroupKey := default "" (g ← n_GroupID r.2; groupKeyByID !! g);
  nr_SubagentRole := n_SubagentRole r.2; nr_CompletionMode := n_CompletionMode r.2; nr_ScriptPath := default "" (n_ScriptPath r.2);
  nr_JoinInputProviders := n_JoinInputProviders r.2; nr_SortOrder := n_SortOrder r.2 |}.
Definition transition_record (workflowID : WorkflowID) (r : string * transition_row) : TransitionGroupRecord := {|
  tr_ID := r.1; tr_WorkflowID := workflowID; tr_SourceNodeID := t_SourceNodeID r.2; tr_TransitionID := t_TransitionID r.2;
  tr_DisplayName := t_DisplayName r.2; tr_Description := t_Description r.2; tr_SortOrder := t_SortOrder r.2 |}.
Definition edge_record (workflowID : WorkflowID) (r : string * edge_row) : EdgeRecord := {|
  er_ID := r.1; er_WorkflowID := workflowID; er_TransitionGroupID := ed_TransitionGroupID r.2; er_Key := ed_Key r.2;
  er_TargetNodeID := ed_TargetNodeID r.2; er_AssigneeSelection := ed_AssigneeSelection r.2;
  er_ThinkingSelection := ed_ThinkingSelection r.2; er_RequiresApproval := ed_RequiresApproval r.2;
  er_ContextMode := ed_ContextMode r.2;
  er_ContextSource := CanonicalContextSource {| cs_Kind := ed_ContextSourceKind r.2; cs_NodeKey := ed_ContextSourceNodeKey r.2 |};
  er_InputBindings := ed_InputBindings r.2; er_PromptTemplate := ed_PromptTemplate r.2; er_Parameters := ed_Parameters r.2;
  er_OutputRequirements := ed_OutputRequirements r.2; er_SortOrder := ed_SortOrder r.2 |}.

(** The graph made of the rows of the four tables. *)
Definition prepared_rows (workflowID : WorkflowID) (groups : list (string * group_row)) (nodeRows : list (string * node_row))
    (transitions : list (string * transition_row)) (edgeRows : list (string * edge_row)) : preparedWorkflowGraphSave :=
  let groupKeyByID := foldl (λ m r, <[r.1 := g_Key r.2]> m) ∅ groups in {|
  nodeGroups := group_record <$> groups; nodes := node_record groupKeyByID <$> nodeRows;
  transitionGroups := transition_record workflowID <$> transitions; edges := edge_record workflowID <$> edgeRows |}.

Section reading.
Context {P : Type} (faulty : nat → bool).
Definition currentWorkflowGraphSavePrepared (workflowID : WorkflowID) : txn graph_db P preparedWorkflowGraphSave :=
  groups ← select faulty "list node groups" (λ s, ListWorkflowNodeGroups s workflowID);
  nodeRows ← select faulty "list nodes" (λ s, ListWorkflowNodes s workflowID);
  transitions ← select faulty "list transition groups" (λ s, ListWorkflowTransitionGroups s workflowID);
  edgeRows ← select faulty "list edges" (λ s, ListWorkflowEdges s workflowID);
  mret (prepared_rows workflowID groups nodeRows transitions edgeRows).
End reading.

Definition workflowRecordFromRow (id : WorkflowID) (row : workflow_info) : WorkflowRecord := {|
  wr_ID := id; wr_Name := wi_Name row; wr_Description := wi_Description row; wr_Version := wi_Version row;
  wr_ExecutionTargetPolicy := ExecutionTargetPolicy_Canonical
    {| etp_Mode := wi_ExecutionTargetPolicy row; etp_CustomRef := wi_ExecutionTargetCustomRef row |} |}.

(** ** Requests *)
Record WorkflowGraphSaveMetadata := {
  gm_Name : string; gm_Description : string; gm_ExecutionTargetPolicy : option ExecutionTargetPolicy }.
Record WorkflowGraphSaveRequest := {
  sq_WorkflowID : WorkflowID; sq_ExpectedVersion : Z; sq_Metadata : option WorkflowGraphSaveMetadata; sq_Confirmed : bool;
  sq_ExpectedRemovedNodeGroupCount : Z; sq_ExpectedRemovedNodeCount : Z; sq_ExpectedRemovedTransitionGroupCount : Z;
  sq_ExpectedRemovedEdgeCount : Z; sq_ExpectedNodeTaskReferenceCount : Z; sq_ExpectedEdgeTaskReferenceCount : Z;
  sq_NodeGroups : list NodeGroupRecord; sq_Nodes : list NodeRecord; sq_TransitionGroups : list TransitionGroupRecord;
  sq_Edges : list EdgeRecord }.

Definition NodeCompletionMode (n : Node) : string := match n with AgentNode _ _ mode => mode | _ => "" end.
Definition NodeScriptPath (n : Node) : string := match n with ScriptNode _ path => default "" path | _ => "" end.
Definition NodeJoinInputProviders (n : Node) : list JoinInputProvider :=
  match n with JoinNode _ providers => providers | _ => [] end.

(** The sort order of a position. *)
Definition position (index : nat) : Z := Z.of_nat (index * 100).

Definition NewWorkflowGraphSaveRequest (def : WorkflowDefinition) (expectedVersion : Z) : WorkflowGraphSaveRequest :=
  let groupKeyByID := foldl (λ m g, <[ng_ID g := ng_Key g]> m) (∅ : gmap string string) (d_NodeGroups def) in {|
  sq_WorkflowID := d_ID def; sq_ExpectedVersion := expectedVersion; sq_Metadata := None; sq_Confirmed := false;
  sq_ExpectedRemovedNodeGroupCount := 0; sq_ExpectedRemovedNodeCount := 0; sq_ExpectedRemovedTransitionGroupCount := 0;
  sq_ExpectedRemovedEdgeCount := 0; sq_ExpectedNodeTaskReferenceCount := 0; sq_ExpectedEdgeTaskReferenceCount := 0;
  sq_NodeGroups := imap (λ index g, {| gr_ID := ng_ID g; gr_WorkflowID := d_ID def; gr_Key := ng_Key g;
    gr_DisplayName := ng_DisplayName g; gr_SortOrder := position index |}) (d_NodeGroups def);
  sq_Nodes := (λ n, {| nr_ID := NodeIDOf n; nr_WorkflowID := d_ID def; nr_Key := NodeKey n; nr_Kind := Kind n;
    nr_DisplayName := NodeDisplayName n; nr_GroupID := NodeGroupID n;
    nr_GroupKey := default "" (g ← NodeGroupID n; groupKeyByID !! g); nr_SubagentRole := NodeSubagentRole n;
    nr_CompletionMode := NodeCompletionMode n; nr_ScriptPath := NodeScriptPath n;
    nr_JoinInputProviders := NodeJoinInputProviders n; nr_SortOrder := 0 |}) <$> d_Nodes def;
  sq_TransitionGroups := (λ g, {| tr_ID := tg_ID g; tr_WorkflowID := d_ID def; tr_SourceNodeID := tg_SourceNodeID g;
    tr_TransitionID := tg_TransitionID g; tr_DisplayName := tg_DisplayName g; tr_Description := tg_Description g;
    tr_SortOrder := 0 |}) <$> d_TransitionGroups def;
  sq_Edges := (λ e, {| er_ID := e_ID e; er_WorkflowID := d_ID def; er_TransitionGroupID := e_TransitionGroupID e;
    er_Key := e_Key e; er_TargetNodeID := e_TargetNodeID e; er_AssigneeSelection := e_AssigneeSelection e;
    er_ThinkingSelection := e_ThinkingSelection e; er_RequiresApproval := e_RequiresApproval e; er_ContextMode := e_ContextMode e;
    er_ContextSource := e_ContextSource e; er_InputBindings := e_InputBindings e; er_PromptTemplate := e_PromptTemplate e;
    er_Parameters := e_Parameters e; er_OutputRequirements := e_OutputRequirements e; er_SortOrder := 0 |}) <$> d_Edges def |}.

(** ** Preparation of the request *)
Definition workflowCustomRefFromRow (value : option string) : option string := TrimSpace <$> value.
Definition workflowCustomRefForQuery (value : option string) : option string := TrimSpace <$> value.
Definition normalizeWorkflowExecutionTargetPolicy (policy : ExecutionTargetPolicy) : ExecutionTargetPolicy :=
  let policy := ExecutionTargetPolicy_Canonical policy in
  {| etp_Mode := etp_Mode policy; etp_CustomRef := TrimSpace <$> etp_CustomRef policy |}.
Definition workflowExecutionTargetPoliciesEqual (a b : ExecutionTargetPolicy) : bool :=
  if etp_Mode a <>? etp_Mode b then false
  else match etp_CustomRef a, etp_CustomRef b with
  | Some x, Some y => x ==? y
  | None, None => true
  | _, _ => false
  end.

Definition prepareWorkflowGraphSaveMetadata (currentName currentDescription : string) (currentPolicy : ExecutionTargetPolicy)
    (metadata : option WorkflowGraphSaveMetadata) : result error (option WorkflowGraphSaveMetadata * bool) :=
  match metadata with
  | None => Ok (None, false)
  | Some metadata =>
    let policy := match gm_ExecutionTargetPolicy metadata with
      | Some policy => normalizeWorkflowExecutionTargetPolicy policy | None => currentPolicy end in
    let prepared := {| gm_Name := TrimSpace (gm_Name metadata); gm_Description := TrimSpace (gm_Description metadata);
                       gm_ExecutionTargetPolicy := Some policy |} in
    let changed := (gm_Name prepared <>? currentName) || (gm_Description prepared <>? currentDescription)
                   || negb (workflowExecutionTargetPoliciesEqual policy currentPolicy) in
    if bool_decide (gm_ExecutionTargetPolicy metadata = None) then
      if (etp_Mode policy <>? ExecutionTargetModeCustomRef) && (etp_CustomRef policy <>? None)
      then Err "execution target custom ref is only valid for custom_ref policy"
      else if (etp_Mode policy ==? ExecutionTargetModeCustomRef)
              && match etp_CustomRef policy with Some ref => blank ref | None => false end
      then Err "execution target custom ref must be non-blank when present"
      else if negb (validExecutionTargetPolicyMode (etp_Mode policy)) then Err "execution target policy mode is invalid"
      else Ok (Some prepared, changed)
    else Ok (Some prepared, changed)
  end.

Definition normalizeNodeGroupName (name : option string) : option string := TrimSpace <$> name.

Definition prepare_group (index : nat) (g : NodeGroupRecord) : NodeGroupRecord := {|
  gr_ID := TrimSpace (gr_ID g); gr_WorkflowID := gr_WorkflowID g; gr_Key := TrimSpace (gr_Key g);
  gr_DisplayName := normalizeNodeGroupName (gr_DisplayName g); gr_SortOrder := position index |}.
Definition prepare_node (n : NodeRecord) : NodeRecord := {|
  nr_ID := nr_ID n; nr_WorkflowID := nr_WorkflowID n; nr_Key := nr_Key n; nr_Kind := nr_Kind n; nr_DisplayName := nr_DisplayName n;
  nr_GroupID := TrimSpace <$> nr_GroupID n; nr_GroupKey := TrimSpace (nr_GroupKey n); nr_SubagentRole := nr_SubagentRole n;
  nr_CompletionMode := nodeCompletionMode n; nr_ScriptPath := nr_ScriptPath n; nr_JoinInputProviders := nr_JoinInputProviders n;
  nr_SortOrder := nr_SortOrder n |}.
Definition prepare_edge (e : EdgeRecord) : EdgeRecord := {|
  er_ID := er_ID e; er_WorkflowID := er_WorkflowID e; er_TransitionGroupID := er_TransitionGroupID e; er_Key := er_Key e;
  er_TargetNodeID := er_TargetNodeID e; er_AssigneeSelection := er_AssigneeSelection e; er_ThinkingSelection := er_ThinkingSelection e;
  er_RequiresApproval := er_RequiresApproval e; er_ContextMode := er_ContextMode e;
  er_ContextSource := CanonicalContextSource (er_ContextSource e); er_InputBindings := er_InputBindings e;
  er_PromptTemplate := er_PromptTemplate e; er_Parameters := Parameter_Canonical <$> er_Parameters e;
  er_OutputRequirements := er_OutputRequirements e; er_SortOrder := er_SortOrder e |}.

Definition prepareWorkflowGraphSave (workflowID : WorkflowID) (displayName : string) (policy : ExecutionTargetPolicy)
    (req : WorkflowGraphSaveRequest) : result error (preparedWorkflowGraphSave * WorkflowDefinition) :=
  let prepared := {| nodeGroups := imap prepare_group (sq_NodeGroups req); nodes := prepare_node <$> sq_Nodes req;
                     transitionGroups := sq_TransitionGroups req; edges := prepare_edge <$> sq_Edges req |} in
  def ← workflowDefinitionFromPreparedGraph prepared workflowID displayName policy; Ok (prepared, def).

(** ** What changes *)
Record removedWorkflowGraphRows := {
  rm_nodeGroups : list string; rm_nodes : list NodeID; rm_transitionGroups : list TransitionGroupID; rm_edges : list EdgeID }.
Record workflowGraphEditPolicyStructuralDescriptor := {
  sd_StartNodeChanges : list NodeID; sd_LastTerminalChanges : list NodeID; sd_NodeKindChanges : list NodeID;
  sd_HistoryEdgeChanges : list EdgeID }.
Record workflowGraphSaveStructuralDescriptor := {
  sd_Removed : removedWorkflowGraphRows; sd_EditPolicy : workflowGraphEditPolicyStructuralDescriptor }.

Definition workflowGraphEdgesByID (l : list EdgeRecord) : gmap EdgeID EdgeRecord := foldl (λ m e, <[er_ID e := e]> m) ∅ l.
Definition workflowEdgeHistoryReinterpretingChange (current next : EdgeRecord) : bool :=
  (er_TransitionGroupID current <>? er_TransitionGroupID next) || (er_TargetNodeID current <>? er_TargetNodeID next).

Definition describeWorkflowGraphTransitionChanges (current next : preparedWorkflowGraphSave) : list EdgeID :=
  let nextEdges := workflowGraphEdgesByID (edges next) in
  er_ID <$> filter (λ e, match nextEdges !! er_ID e with
                         | Some nextEdge => workflowEdgeHistoryReinterpretingChange e nextEdge | None => false end = true) (edges current).

Definition describeWorkflowGraphEditPolicy (current next : preparedWorkflowGraphSave) : workflowGraphEditPolicyStructuralDescriptor :=
  let nextNodes := foldl (λ m n, <[nr_ID n := n]> m) (∅ : gmap NodeID NodeRecord) (nodes next) in
  let nextTerminals := filter (λ n, nr_Kind n = NodeKindTerminal) (nodes next) in
  let kind n := nr_Kind <$> nextNodes !! nr_ID n in
  let terminals := nr_ID <$> filter (λ n, nr_Kind n = NodeKindTerminal) (nodes current) in {|
  sd_StartNodeChanges := nr_ID <$> filter (λ n, nr_Kind n = NodeKindStart ∧ kind n ≠ Some NodeKindStart) (nodes current);
  sd_LastTerminalChanges := if length nextTerminals ==? 0%nat then terminals else [];
  sd_NodeKindChanges := nr_ID <$> filter (λ n, match kind n with Some k => nr_Kind n <>? k | None => false end = true) (nodes current);
  sd_HistoryEdgeChanges := describeWorkflowGraphTransitionChanges current next |}.

Definition describeWorkflowGraphSave (current next : preparedWorkflowGraphSave) : workflowGraphSaveStructuralDescriptor := {|
  sd_Removed := {|
    rm_nodeGroups := filter (λ id, id ∉ gr_ID <$> nodeGroups next) (gr_ID <$> nodeGroups current);
    rm_nodes := filter (λ id, id ∉ nr_ID <$> nodes next) (nr_ID <$> nodes current);
    rm_transitionGroups := filter (λ id, id ∉ tr_ID <$> transitionGroups next) (tr_ID <$> transitionGroups current);
    rm_edges := filter (λ id, id ∉ er_ID <$> edges next) (er_ID <$> edges current) |};
  sd_EditPolicy := describeWorkflowGraphEditPolicy current next |}.

(** An identifier of the stored graph keeps its type. *)
Definition typed_ids (p : preparedWorkflowGraphSave) : list (WorkflowGraphEntityType * list string) :=
  [(EntityNodeGroup, gr_ID <$> nodeGroups p); (EntityNode, nr_ID <$> nodes p);
   (EntityTransitionGroup, tr_ID <$> transitionGroups p); (EntityEdge, er_ID <$> edges p)].
Definition validateWorkflowGraphAdditionIdentityOwnership (current next : preparedWorkflowGraphSave) : option error :=
  let owned t id := existsb (λ c : WorkflowGraphEntityType * list string, match c.1, t with
    | EntityNodeGroup, EntityNodeGroup | EntityNode, EntityNode | EntityTransitionGroup, EntityTransitionGroup
    | EntityEdge, EntityEdge => id ∈? c.2 | _, _ => false end) (typed_ids current) in
  let used id := existsb (λ c : WorkflowGraphEntityType * list string, id ∈? c.2) (typed_ids current) in
  if existsb (λ c : WorkflowGraphEntityType * list string, existsb (λ id, negb (owned c.1 id || negb (used id))) c.2) (typed_ids next)
  then Some "workflow graph identity belongs to another entity" else None.

(** ** Whether the graph changes

    Both graphs in the form they are compared in: labels trimmed, selections
    canonical, positions as sort orders; the key of a node's group, input
    bindings and output requirements are not compared. *)
Definition comparable_group (index : nat) (g : NodeGroupRecord) : NodeGroupRecord := {|
  gr_ID := gr_ID g; gr_WorkflowID := gr_WorkflowID g; gr_Key := gr_Key g;
  gr_DisplayName := normalizeNodeGroupName (gr_DisplayName g); gr_SortOrder := position index |}.
Definition comparable_node (index : nat) (n : NodeRecord) : NodeRecord := {|
  nr_ID := nr_ID n; nr_WorkflowID := nr_WorkflowID n; nr_Key := nr_Key n; nr_Kind := nr_Kind n;
  nr_DisplayName := TrimSpace (nr_DisplayName n); nr_GroupID := TrimSpace <$> nr_GroupID n; nr_GroupKey := "";
  nr_SubagentRole := TrimSpace (nr_SubagentRole n); nr_CompletionMode := nodeCompletionMode n;
  nr_ScriptPath := TrimSpace (nr_ScriptPath n); nr_JoinInputProviders := nr_JoinInputProviders n; nr_SortOrder := position index |}.
Definition comparable_transition (index : nat) (g : TransitionGroupRecord) : TransitionGroupRecord := {|
  tr_ID := tr_ID g; tr_WorkflowID := tr_WorkflowID g; tr_SourceNodeID := tr_SourceNodeID g;
  tr_TransitionID := TrimSpace (tr_TransitionID g); tr_DisplayName := TrimSpace (tr_DisplayName g);
  tr_Description := TrimSpace (tr_Description g); tr_SortOrder := position index |}.
Definition comparable_edge (index : nat) (e : EdgeRecord) : EdgeRecord := {|
  er_ID := er_ID e; er_WorkflowID := er_WorkflowID e; er_TransitionGroupID := er_TransitionGroupID e; er_Key := er_Key e;
  er_TargetNodeID := er_TargetNodeID e; er_AssigneeSelection := CanonicalAssigneeSelection (er_AssigneeSelection e);
  er_ThinkingSelection := CanonicalThinkingSelection (er_ThinkingSelection e); er_RequiresApproval := er_RequiresApproval e;
  er_ContextMode := er_ContextMode e; er_ContextSource := CanonicalContextSource (er_ContextSource e); er_InputBindings := [];
  er_PromptTemplate := TrimSpace (er_PromptTemplate e); er_Parameters := er_Parameters e; er_OutputRequirements := [];
  er_SortOrder := position index |}.
Definition workflowGraphSaveComparable (p : preparedWorkflowGraphSave) : preparedWorkflowGraphSave := {|
  nodeGroups := imap comparable_group (nodeGroups p); nodes := imap comparable_node (nodes p);
  transitionGroups := imap comparable_transition (transitionGroups p); edges := imap comparable_edge (edges p) |}.
Definition workflowGraphSavePreparedEqual (left right : preparedWorkflowGraphSave) : bool :=
  workflowGraphSaveComparable left ==? workflowGraphSaveComparable right.

(** ** Impact and blockers *)
Abbreviation WorkflowGraphEntityReference := (prod WorkflowGraphEntityType string) (only parsing).
Definition entity_text (t : WorkflowGraphEntityType) : string :=
  match t with EntityEdge => "edge" | EntityNode => "node" | EntityNodeGroup => "node_group"
  | EntityTransitionGroup => "transition_group" end.
#[export] Instance WorkflowGraphEntityType_eq_dec : EqDecision WorkflowGraphEntityType.
Proof. solve_decision. Defined.
(** [CompareWorkflowGraphEntityReferences] is at most zero. *)
Definition reference_le (l r : WorkflowGraphEntityReference) : Prop :=
  if l.1 <>? r.1 then string_le (entity_text l.1) (entity_text r.1) else string_le l.2 r.2.
#[export] Instance reference_le_dec : RelDecision reference_le.
Proof. intros l r. unfold reference_le. destruct (_ <>? _); apply _. Defined.
(** [slices.Compact] *)
Fixpoint compact {A} `{EqDecision A} (l : list A) : list A :=
  match l with
  | a :: (b :: _) as rest => if a ==? b then compact rest else a :: compact rest
  | _ => l
  end.
Definition canonicalWorkflowGraphEntityReferences (references : list WorkflowGraphEntityReference) : list WorkflowGraphEntityReference :=
  compact (merge_sort reference_le references).

Record WorkflowGraphSaveImpact := {
  im_RemovedNodeGroupCount : Z; im_RemovedNodeCount : Z; im_RemovedTransitionGroupCount : Z; im_RemovedEdgeCount : Z;
  im_RemovedEntities : list WorkflowGraphEntityReference; im_NodeTaskReferenceCount : Z;
  im_CurrentNodeTaskReferenceCount : Z; im_EdgeTaskReferenceCount : Z }.
Record WorkflowGraphEditPolicyImpact := {
  ep_ActiveCurrentNodeCount : Z; ep_PendingApprovalCount : Z; ep_StartNodeChangeCount : Z; ep_LastTerminalChangeCount : Z;
  ep_TaskReferencedNodeKindChangeCount : Z; ep_TaskReferencedNodeKindChangeRefCount : Z;
  ep_HistoryReinterpretingEdgeChangeCount : Z; ep_HistoryReinterpretingEdgeRefCount : Z }.
(** A blocker of the edit policy has the same fields. *)
Record WorkflowGraphSaveBlocker := {
  bl_Code : string; bl_Message : string; bl_Count : Z; bl_AffectedEntities : list WorkflowGraphEntityReference }.
Record WorkflowGraphEditPolicyResult := {
  pr_Impact : WorkflowGraphEditPolicyImpact; pr_Blockers : list WorkflowGraphSaveBlocker }.
Record workflowGraphSaveDynamicImpact := {
  di_Impact : WorkflowGraphSaveImpact; di_EditPolicy : WorkflowGraphEditPolicyResult;
  di_RemovedNodeTaskReferenceEntities : list WorkflowGraphEntityReference;
  di_RemovedEdgeTaskReferenceEntities : list WorkflowGraphEntityReference }.

Definition len_Z {A} (l : list A) : Z := Z.of_nat (length l).
Definition workflowGraphNodeEntityReferences (ids : list NodeID) : list WorkflowGraphEntityReference :=
  canonicalWorkflowGraphEntityReferences ((EntityNode,.) <$> ids).

Definition workflowGraphSaveRemovedImpact (removed : removedWorkflowGraphRows) : WorkflowGraphSaveImpact := {|
  im_RemovedNodeGroupCount := len_Z (rm_nodeGroups removed); im_RemovedNodeCount := len_Z (rm_nodes removed);
  im_RemovedTransitionGroupCount := len_Z (rm_transitionGroups removed); im_RemovedEdgeCount := len_Z (rm_edges removed);
  im_RemovedEntities := canonicalWorkflowGraphEntityReferences
    (((EntityNodeGroup,.) <$> rm_nodeGroups removed) ++ ((EntityNode,.) <$> rm_nodes removed) ++
     ((EntityTransitionGroup,.) <$> rm_transitionGroups removed) ++ ((EntityEdge,.) <$> rm_edges removed))%list;
  im_NodeTaskReferenceCount := 0; im_CurrentNodeTaskReferenceCount := 0; im_EdgeTaskReferenceCount := 0 |}.

Definition workflowGraphEditPolicyBlockers (impact : WorkflowGraphEditPolicyImpact)
    (startNodeChanges lastTerminalChanges nodeKindChanges historyEdgeChanges : list WorkflowGraphEntityReference)
    : list WorkflowGraphSaveBlocker :=
  ((if (0 <? ep_StartNodeChangeCount impact)%Z then [{| bl_Code := "start_node_changed";
      bl_Message := "The workflow start node cannot be removed, replaced, or changed to another kind.";
      bl_Count := ep_StartNodeChangeCount impact;
      bl_AffectedEntities := canonicalWorkflowGraphEntityReferences startNodeChanges |}] else []) ++
   (if (0 <? ep_LastTerminalChangeCount impact)%Z then [{| bl_Code := "last_terminal_changed";
      bl_Message := "Workflow graph changes must leave at least one terminal node.";
      bl_Count := ep_LastTerminalChangeCount impact;
      bl_AffectedEntities := canonicalWorkflowGraphEntityReferences lastTerminalChanges |}] else []) ++
   (if (0 <? ep_TaskReferencedNodeKindChangeCount impact)%Z then [{| bl_Code := "task_referenced_node_kind_changed";
      bl_Message := "Workflow node kind changes are blocked for nodes referenced by existing tasks.";
      bl_Count := ep_TaskReferencedNodeKindChangeRefCount impact;
      bl_AffectedEntities := canonicalWorkflowGraphEntityReferences nodeKindChanges |}] else []) ++
   (if (0 <? ep_HistoryReinterpretingEdgeChangeCount impact)%Z then [{| bl_Code := "task_referenced_edge_group_changed";
      bl_Message := "Transition branch routing changes are blocked for branches referenced by existing tasks.";
      bl_Count := ep_HistoryReinterpretingEdgeRefCount impact;
      bl_AffectedEntities := canonicalWorkflowGraphEntityReferences historyEdgeChanges |}] else []))%list.

Definition sum_Z (l : list Z) : Z := foldr Z.add 0%Z l.
Definition referenced {A} (ref : A → Z) (l : list A) : list A := filter (λ a, (0 < ref a)%Z) l.

Section evaluation.
Context {P : Type} (faulty : nat → bool).
Local Abbreviation tx := (txn graph_db P) (only parsing).

(** A count for each identifier. *)
Definition counts (operation : string) (f : graph_db → string → Z) (ids : list string) : tx (list (string * Z)) :=
  mapM (λ id, n ← select faulty operation (λ s, f s id); mret (id, n)) ids.

Definition evaluateWorkflowGraphSaveDynamicDecision (structural : workflowGraphSaveStructuralDescriptor)
    : tx workflowGraphSaveDynamicImpact :=
  let removed := sd_Removed structural in
  let policy := sd_EditPolicy structural in
  nodeCounts ← mapM (λ id,
      n ← select faulty "count node references" (λ s, CountTaskNodeReferences s id);
      c ← select faulty "count current node references" (λ s, CountCurrentTaskNodeAnchorReferences s id);
      mret (id, n, c)) (rm_nodes removed);
  edgeCounts ← counts "count edge references" CountTaskEdgeReferences (rm_edges removed);
  kindCounts ← counts "count node references" CountTaskNodeReferences (sd_NodeKindChanges policy);
  historyCounts ← counts "count edge references" CountAllTaskEdgeReferences (sd_HistoryEdgeChanges policy);
  let base := workflowGraphSaveRemovedImpact removed in
  let kindRefs := referenced snd kindCounts in
  let historyRefs := referenced snd historyCounts in
  let policyImpact := {|
    ep_ActiveCurrentNodeCount := 0; ep_PendingApprovalCount := 0;
    ep_StartNodeChangeCount := len_Z (sd_StartNodeChanges policy); ep_LastTerminalChangeCount := len_Z (sd_LastTerminalChanges policy);
    ep_TaskReferencedNodeKindChangeCount := len_Z kindRefs; ep_TaskReferencedNodeKindChangeRefCount := sum_Z (snd <$> kindRefs);
    ep_HistoryReinterpretingEdgeChangeCount := len_Z historyRefs; ep_HistoryReinterpretingEdgeRefCount := sum_Z (snd <$> historyRefs) |} in
  mret {|
    di_Impact := {|
      im_RemovedNodeGroupCount := im_RemovedNodeGroupCount base; im_RemovedNodeCount := im_RemovedNodeCount base;
      im_RemovedTransitionGroupCount := im_RemovedTransitionGroupCount base; im_RemovedEdgeCount := im_RemovedEdgeCount base;
      im_RemovedEntities := im_RemovedEntities base;
      im_NodeTaskReferenceCount := sum_Z ((λ c, c.1.2) <$> nodeCounts);
      im_CurrentNodeTaskReferenceCount := sum_Z (snd <$> nodeCounts);
      im_EdgeTaskReferenceCount := sum_Z (snd <$> edgeCounts) |};
    di_EditPolicy := {| pr_Impact := policyImpact; pr_Blockers := workflowGraphEditPolicyBlockers policyImpact
      (workflowGraphNodeEntityReferences (sd_StartNodeChanges policy)) (workflowGraphNodeEntityReferences (sd_LastTerminalChanges policy))
      ((λ c, (EntityNode, c.1)) <$> kindRefs) ((λ c, (EntityEdge, c.1)) <$> historyRefs) |};
    di_RemovedNodeTaskReferenceEntities := canonicalWorkflowGraphEntityReferences
      ((λ c, (EntityNode, c.1.1)) <$> referenced snd nodeCounts);
    di_RemovedEdgeTaskReferenceEntities := canonicalWorkflowGraphEntityReferences
      ((λ c, (EntityEdge, c.1)) <$> referenced snd edgeCounts) |}.

Definition evaluateWorkflowGraphSaveDynamicImpact (workflowID : WorkflowID) (structural : workflowGraphSaveStructuralDescriptor)
    : tx workflowGraphSaveDynamicImpact :=
  evaluation ← evaluateWorkflowGraphSaveDynamicDecision structural;
  active ← select faulty "active work impact" (λ s, GetWorkflowGraphActiveWorkPolicyImpact s workflowID);
  let impact := pr_Impact (di_EditPolicy evaluation) in
  mret {|
    di_Impact := di_Impact evaluation;
    di_EditPolicy := {|
      pr_Impact := {|
        ep_ActiveCurrentNodeCount := active.1; ep_PendingApprovalCount := active.2;
        ep_StartNodeChangeCount := ep_StartNodeChangeCount impact; ep_LastTerminalChangeCount := ep_LastTerminalChangeCount impact;
        ep_TaskReferencedNodeKindChangeCount := ep_TaskReferencedNodeKindChangeCount impact;
        ep_TaskReferencedNodeKindChangeRefCount := ep_TaskReferencedNodeKindChangeRefCount impact;
        ep_HistoryReinterpretingEdgeChangeCount := ep_HistoryReinterpretingEdgeChangeCount impact;
        ep_HistoryReinterpretingEdgeRefCount := ep_HistoryReinterpretingEdgeRefCount impact |};
      pr_Blockers := pr_Blockers (di_EditPolicy evaluation) |};
    di_RemovedNodeTaskReferenceEntities := di_RemovedNodeTaskReferenceEntities evaluation;
    di_RemovedEdgeTaskReferenceEntities := di_RemovedEdgeTaskReferenceEntities evaluation |}.
End evaluation.

Definition workflowGraphSaveConfirmationMatches (req : WorkflowGraphSaveRequest) (impact : WorkflowGraphSaveImpact) : bool :=
  sq_Confirmed req
  && (sq_ExpectedRemovedNodeGroupCount req =? im_RemovedNodeGroupCount impact)%Z
  && (sq_ExpectedRemovedNodeCount req =? im_RemovedNodeCount impact)%Z
  && (sq_ExpectedRemovedTransitionGroupCount req =? im_RemovedTransitionGroupCount impact)%Z
  && (sq_ExpectedRemovedEdgeCount req =? im_RemovedEdgeCount impact)%Z
  && (sq_ExpectedNodeTaskReferenceCount req =? im_NodeTaskReferenceCount impact)%Z
  && (sq_ExpectedEdgeTaskReferenceCount req =? im_EdgeTaskReferenceCount impact)%Z.

Definition workflowGraphSaveConfirmationEntities (removed : list WorkflowGraphEntityReference) : list WorkflowGraphEntityReference :=
  canonicalWorkflowGraphEntityReferences (filter (λ e, e.1 ≠ EntityNodeGroup) removed).

Definition workflowGraphSaveBlockers (req : WorkflowGraphSaveRequest) (evaluation : workflowGraphSaveDynamicImpact)
    : list WorkflowGraphSaveBlocker :=
  let impact := di_Impact evaluation in
  let removedCount := (im_RemovedNodeCount impact + im_RemovedTransitionGroupCount impact + im_RemovedEdgeCount impact)%Z in
  ((if (0 <? im_CurrentNodeTaskReferenceCount impact)%Z then [{| bl_Code := "node_task_references";
      bl_Message := "Removed workflow nodes are referenced by current task state."; bl_Count := im_CurrentNodeTaskReferenceCount impact;
      bl_AffectedEntities := di_RemovedNodeTaskReferenceEntities evaluation |}] else []) ++
   (if (0 <? im_EdgeTaskReferenceCount impact)%Z then [{| bl_Code := "edge_task_references";
      bl_Message := "Removed workflow edges are referenced by existing tasks."; bl_Count := im_EdgeTaskReferenceCount impact;
      bl_AffectedEntities := di_RemovedEdgeTaskReferenceEntities evaluation |}] else []) ++
   (if (0 <? removedCount)%Z && negb (sq_Confirmed req) then [{| bl_Code := "confirmation_required";
      bl_Message := "Workflow graph save removes graph rows. Confirm with the current impact before saving."; bl_Count := removedCount;
      bl_AffectedEntities := workflowGraphSaveConfirmationEntities (im_RemovedEntities impact) |}] else []) ++
   (if (0 <? removedCount)%Z && sq_Confirmed req && negb (workflowGraphSaveConfirmationMatches req impact) then [{|
      bl_Code := "impact_changed";
      bl_Message := "Workflow graph changed while trying to save the new graph! Inspect the new topology and retry as needed.";
      bl_Count := 1; bl_AffectedEntities := canonicalWorkflowGraphEntityReferences (im_RemovedEntities impact) |}] else []))%list.

Definition workflowGraphSaveVersionChangedBlockers (version : Z) : list WorkflowGraphSaveBlocker :=
  [{| bl_Code := "version_changed";
      bl_Message := "Workflow graph changed while trying to save the new graph! Inspect the new topology and retry as needed.";
      bl_Count := version; bl_AffectedEntities := [] |}].

Definition workflowGraphSaveHasBlocker (blockers : list WorkflowGraphSaveBlocker) (code : string) : bool :=
  existsb (λ b, bl_Code b ==? code) blockers.

Definition workflowGraphSaveBlockersFromEditPolicy (blockers : list WorkflowGraphSaveBlocker) : list WorkflowGraphSaveBlocker :=
  (λ b, {| bl_Code := bl_Code b; bl_Message := bl_Message b; bl_Count := bl_Count b;
           bl_AffectedEntities := canonicalWorkflowGraphEntityReferences (bl_AffectedEntities b) |}) <$> blockers.

Definition workflowGraphEntityReferencesFromValidationErrors (errors : list ValidationError) : list WorkflowGraphEntityReference :=
  canonicalWorkflowGraphEntityReferences (errors ≫= λ e,
    (match ve_NodeID e with Some id => [(EntityNode, id)] | None => [] end ++
     match ve_TransitionGroupID e with Some id => [(EntityTransitionGroup, id)] | None => [] end ++
     match ve_EdgeID e with Some id => [(EntityEdge, id)] | None => [] end ++ ve_RelatedEntities e)%list).

(** ** The plan *)
Record WorkflowGraphSavePlan := {
  gp_WorkflowID : WorkflowID; gp_Version : Z; gp_Prepared : preparedWorkflowGraphSave; gp_current : preparedWorkflowGraphSave;
  gp_Metadata : option WorkflowGraphSaveMetadata; gp_GraphChanged : bool; gp_MetadataChanged : bool;
  gp_Structural : workflowGraphSaveStructuralDescriptor; gp_Removed : removedWorkflowGraphRows; gp_Impact : WorkflowGraphSaveImpact;
  gp_EditPolicy : WorkflowGraphEditPolicyResult; gp_Blockers : list WorkflowGraphSaveBlocker;
  gp_ValidationErrors : list ValidationError; gp_Definition : WorkflowDefinition; gp_Record : WorkflowRecord;
  gp_ValidationResults : list (string * ValidationResult) }.

Record WorkflowGraphSaveResult := {
  sr_Saved : bool; sr_Changed : bool; sr_CanSave : bool; sr_ConfirmationRequired : bool; sr_Version : Z;
  sr_Impact : WorkflowGraphSaveImpact; sr_EditPolicyImpact : WorkflowGraphEditPolicyImpact;
  sr_Blockers : list WorkflowGraphSaveBlocker; sr_ValidationErrors : list ValidationError;
  sr_Definition : WorkflowDefinition; sr_Record : WorkflowRecord; sr_ValidationResults : list (string * ValidationResult) }.

Definition workflowGraphSaveResult (p : WorkflowGraphSavePlan) (saved : bool) : WorkflowGraphSaveResult := {|
  sr_Saved := saved; sr_Changed := gp_GraphChanged p || gp_MetadataChanged p;
  sr_CanSave := length (gp_Blockers p) ==? 0%nat;
  sr_ConfirmationRequired := workflowGraphSaveHasBlocker (gp_Blockers p) "confirmation_required";
  sr_Version := gp_Version p; sr_Impact := gp_Impact p; sr_EditPolicyImpact := pr_Impact (gp_EditPolicy p);
  sr_Blockers := gp_Blockers p; sr_ValidationErrors := gp_ValidationErrors p; sr_Definition := gp_Definition p;
  sr_Record := gp_Record p; sr_ValidationResults := gp_ValidationResults p |}.

(** The zero values of Go's records. *)
Definition zeroPrepared : preparedWorkflowGraphSave := {| nodeGroups := []; nodes := []; transitionGroups := []; edges := [] |}.
Definition zeroRemoved : removedWorkflowGraphRows := {| rm_nodeGroups := []; rm_nodes := []; rm_transitionGroups := []; rm_edges := [] |}.
Definition zeroStructural : workflowGraphSaveStructuralDescriptor := {| sd_Removed := zeroRemoved;
  sd_EditPolicy := {| sd_StartNodeChanges := []; sd_LastTerminalChanges := []; sd_NodeKindChanges := []; sd_HistoryEdgeChanges := [] |} |}.
Definition zeroImpact : WorkflowGraphSaveImpact := {| im_RemovedNodeGroupCount := 0; im_RemovedNodeCount := 0;
  im_RemovedTransitionGroupCount := 0; im_RemovedEdgeCount := 0; im_RemovedEntities := []; im_NodeTaskReferenceCount := 0;
  im_CurrentNodeTaskReferenceCount := 0; im_EdgeTaskReferenceCount := 0 |}.
Definition zeroEditPolicy : WorkflowGraphEditPolicyResult := {| pr_Impact := {| ep_ActiveCurrentNodeCount := 0;
  ep_PendingApprovalCount := 0; ep_StartNodeChangeCount := 0; ep_LastTerminalChangeCount := 0; ep_TaskReferencedNodeKindChangeCount := 0;
  ep_TaskReferencedNodeKindChangeRefCount := 0; ep_HistoryReinterpretingEdgeChangeCount := 0;
  ep_HistoryReinterpretingEdgeRefCount := 0 |}; pr_Blockers := [] |}.
Definition zeroPlan (workflowID : WorkflowID) (version : Z) : WorkflowGraphSavePlan :=
  let policy := {| etp_Mode := ""; etp_CustomRef := None |} in {|
  gp_WorkflowID := workflowID; gp_Version := version; gp_Prepared := zeroPrepared; gp_current := zeroPrepared; gp_Metadata := None;
  gp_GraphChanged := false; gp_MetadataChanged := false; gp_Structural := zeroStructural; gp_Removed := zeroRemoved;
  gp_Impact := zeroImpact; gp_EditPolicy := zeroEditPolicy; gp_Blockers := []; gp_ValidationErrors := [];
  gp_Definition := {| d_ID := 0%N; d_DisplayName := ""; d_ExecutionTargetPolicy := policy; d_NodeGroups := []; d_Nodes := [];
    d_TransitionGroups := []; d_Edges := [] |};
  gp_Record := {| wr_ID := 0%N; wr_Name := ""; wr_Description := ""; wr_Version := 0; wr_ExecutionTargetPolicy := policy |};
  gp_ValidationResults := [] |}.

(** [plan] with other blockers and, where given, another version. *)
Definition plan_blocked (p : WorkflowGraphSavePlan) (version : Z) (removed : removedWorkflowGraphRows)
    (impact : WorkflowGraphSaveImpact) (policy : WorkflowGraphEditPolicyResult) (blockers : list WorkflowGraphSaveBlocker)
    : WorkflowGraphSavePlan := {|
  gp_WorkflowID := gp_WorkflowID p; gp_Version := version; gp_Prepared := gp_Prepared p; gp_current := gp_current p;
  gp_Metadata := gp_Metadata p; gp_GraphChanged := gp_GraphChanged p; gp_MetadataChanged := gp_MetadataChanged p;
  gp_Structural := gp_Structural p; gp_Removed := removed; gp_Impact := impact; gp_EditPolicy := policy; gp_Blockers := blockers;
  gp_ValidationErrors := gp_ValidationErrors p; gp_Definition := gp_Definition p; gp_Record := gp_Record p;
  gp_ValidationResults := gp_ValidationResults p |}.

(** A transaction stops with an error or with a result that refuses the save. *)
Inductive save_stop :=
| SaveError (e : error)
| SaveRefused (r : WorkflowGraphSaveResult).

Section saving.
Context {order : RangeOrder}.
Context (Parse : string → result string (gmap string (option TNode))) (roleResolver : option TargetAgentCatalog).
Context (faulty : nat → bool).
Local Abbreviation tx := (txn graph_db save_stop) (only parsing).

Definition sound {A} (r : result error A) : tx A :=
  match r with Ok a => mret a | Err e => fail (PolicyError (SaveError e)) end.

Definition workflowDefinitionFromQueries (workflowID : WorkflowID) : tx (WorkflowDefinition * WorkflowRecord) :=
  row ← GetWorkflow faulty workflowID;
  let record := workflowRecordFromRow workflowID row in
  prepared ← currentWorkflowGraphSavePrepared faulty workflowID;
  def ← sound (workflowDefinitionFromPreparedGraph prepared workflowID (wi_Name row) (wr_ExecutionTargetPolicy record));
  mret (def, record).

(** The diagnostics of the definition in both contexts; the validator's panic
    is an error. *)
Definition EvaluateDefinition (def : WorkflowDefinition) (contexts : list string) : tx (list (string * ValidationResult)) :=
  mapM (λ context,
    match ValidateDefinition Parse validateStaticContinuationSources def
            {| vo_Context := context; vo_RoleResolver := roleResolver; vo_ExecutionNodes := None |} with
    | Some r => mret (context, r)
    | None => fail (PolicyError (SaveError "panic"))
    end) contexts.

Definition validation_blocker (blocking : list ValidationError) : list WorkflowGraphSaveBlocker :=
  if length blocking ==? 0%nat then [] else [{| bl_Code := "validation_failed";
    bl_Message := "Workflow graph has blocking validation errors."; bl_Count := len_Z blocking;
    bl_AffectedEntities := workflowGraphEntityReferencesFromValidationErrors blocking |}].

Definition planWorkflowGraphSave (req : WorkflowGraphSaveRequest) : tx WorkflowGraphSavePlan :=
  let workflowID := sq_WorkflowID req in
  current ← GetWorkflow faulty workflowID;
  if wi_Version current <>? sq_ExpectedVersion req then
    let zero := zeroPlan workflowID (wi_Version current) in
    mret (plan_blocked zero (wi_Version current) (gp_Removed zero) (gp_Impact zero) (gp_EditPolicy zero)
      (workflowGraphSaveVersionChangedBlockers (wi_Version current)))
  else
    let currentPolicy := ExecutionTargetPolicy_Canonical {| etp_Mode := wi_ExecutionTargetPolicy current;
      etp_CustomRef := workflowCustomRefFromRow (wi_ExecutionTargetCustomRef current) |} in
    metadata ← sound (prepareWorkflowGraphSaveMetadata (wi_Name current) (wi_Description current) currentPolicy (sq_Metadata req));
    let displayName := match metadata.1 with Some m => gm_Name m | None => wi_Name current end in
    let policy := match metadata.1 with Some m => default currentPolicy (gm_ExecutionTargetPolicy m) | None => currentPolicy end in
    prepared ← sound (prepareWorkflowGraphSave workflowID displayName policy req);
    currentGraph ← currentWorkflowGraphSavePrepared faulty workflowID;
    _ ← match validateWorkflowGraphAdditionIdentityOwnership currentGraph prepared.1 with
        | Some e => fail (PolicyError (SaveError e)) | None => mret tt end;
    let graphChanged := negb (workflowGraphSavePreparedEqual currentGraph prepared.1) in
    let structural := describeWorkflowGraphSave currentGraph prepared.1 in
    stored ← workflowDefinitionFromQueries workflowID;
    evaluation ← (if graphChanged || metadata.2
                  then e ← evaluateWorkflowGraphSaveDynamicImpact faulty workflowID structural; mret (Some e)
                  else mret None);
    results ← EvaluateDefinition prepared.2 [ValidationContextDraft; ValidationContextExecution];
    let draft := default {| vr_Context := ""; vr_Errors := [] |} (snd <$> head results) in
    mret {|
      gp_WorkflowID := workflowID; gp_Version := wi_Version current; gp_Prepared := prepared.1; gp_current := currentGraph;
      gp_Metadata := metadata.1; gp_GraphChanged := graphChanged; gp_MetadataChanged := metadata.2; gp_Structural := structural;
      gp_Removed := match evaluation with Some _ => sd_Removed structural | None => zeroRemoved end;
      gp_Impact := match evaluation with Some e => di_Impact e | None => zeroImpact end;
      gp_EditPolicy := match evaluation with Some e => di_EditPolicy e | None => zeroEditPolicy end;
      gp_Blockers := match evaluation with
        | Some e => (workflowGraphSaveBlockers req e ++ workflowGraphSaveBlockersFromEditPolicy (pr_Blockers (di_EditPolicy e)) ++
                     validation_blocker (BlockingErrors draft))%list
        | None => []
        end;
      gp_ValidationErrors := vr_Errors draft; gp_Definition := prepared.2; gp_Record := stored.2; gp_ValidationResults := results |}.

(** ** Writing the graph *)
Definition expectAffectedRowCount (m : tx nat) : tx unit :=
  n ← m; if n ==? 1%nat then mret tt else fail NoRows.

Definition group_row_of (g : NodeGroupRecord) : group_row := {|
  g_WorkflowID := gr_WorkflowID g; g_Key := gr_Key g; g_DisplayName := gr_DisplayName g; g_SortOrder := gr_SortOrder g |}.
Definition upsertWorkflowNodeGroup (g : NodeGroupRecord) : tx unit :=
  expectAffectedRowCount (UpsertWorkflowNodeGroup faulty (gr_ID g) (group_row_of g)).

Definition nullableString (value : string) : option string :=
  let trimmed := TrimSpace value in if trimmed ==? "" then None else Some trimmed.
Definition node_row_of (n : NodeRecord) (sortOrder : Z) : node_row := {|
  n_WorkflowID := nr_WorkflowID n; n_Key := nr_Key n; n_Kind := nr_Kind n; n_DisplayName := TrimSpace (nr_DisplayName n);
  n_SubagentRole := TrimSpace (nr_SubagentRole n); n_CompletionMode := nodeCompletionMode n;
  n_ScriptPath := nullableString (nr_ScriptPath n); n_JoinInputProviders := nr_JoinInputProviders n;
  n_GroupID := nr_GroupID n; n_SortOrder := sortOrder |}.
Definition upsertWorkflowNode (n : NodeRecord) (sortOrder : Z) : tx unit :=
  match validateNodeCompletionMode (nr_Kind n) (nr_CompletionMode n) with
  | Some e => fail (PolicyError (SaveError e))
  | None => expectAffectedRowCount (UpsertWorkflowNode faulty (nr_ID n) (node_row_of n sortOrder))
  end.

Definition transition_row_of (g : TransitionGroupRecord) (sortOrder : Z) : transition_row := {|
  t_SourceNodeID := tr_SourceNodeID g; t_TransitionID := TrimSpace (tr_TransitionID g);
  t_DisplayName := TrimSpace (tr_DisplayName g); t_Description := TrimSpace (tr_Description g); t_SortOrder := sortOrder |}.
Definition upsertWorkflowTransitionGroup (g : TransitionGroupRecord) (sortOrder : Z) : tx unit :=
  expectAffectedRowCount (UpsertWorkflowTransitionGroup faulty (tr_ID g) (transition_row_of g sortOrder) (tr_WorkflowID g)).

Definition edge_row_of (e : EdgeRecord) (sortOrder : Z) : edge_row :=
  let contextSource := CanonicalContextSource (er_ContextSource e) in {|
  ed_TransitionGroupID := er_TransitionGroupID e; ed_Key := er_Key e; ed_TargetNodeID := er_TargetNodeID e;
  ed_AssigneeSelection := DefaultAssigneeSelection (er_AssigneeSelection e);
  ed_ThinkingSelection := DefaultThinkingSelection (er_ThinkingSelection e); ed_RequiresApproval := er_RequiresApproval e;
  ed_ContextMode := er_ContextMode e; ed_ContextSourceKind := cs_Kind contextSource; ed_ContextSourceNodeKey := cs_NodeKey contextSource;
  ed_PromptTemplate := TrimSpace (er_PromptTemplate e); ed_Parameters := Parameter_Canonical <$> er_Parameters e;
  ed_InputBindings := er_InputBindings e; ed_OutputRequirements := er_OutputRequirements e; ed_SortOrder := sortOrder |}.
Definition upsertWorkflowEdge (e : EdgeRecord) (sortOrder : Z) : tx unit :=
  expectAffectedRowCount (UpsertWorkflowEdge faulty (er_ID e) (edge_row_of e sortOrder) (er_WorkflowID e)).

(** A loop of statements. *)
Fixpoint each {A} (f : A → tx unit) (l : list A) : tx unit :=
  match l with [] => mret tt | a :: l => _ ← f a; each f l end.
Definition each_at {A} (f : A → Z → tx unit) (l : list A) : tx unit :=
  each (λ p : nat * A, f p.2 (position p.1)) (imap pair l).

(** Keys are moved out of the way first, so that keys can be exchanged. The
    new key is drawn for each entity. *)
Definition set_group_key (key : string) (g : NodeGroupRecord) : NodeGroupRecord := {|
  gr_ID := gr_ID g; gr_WorkflowID := gr_WorkflowID g; gr_Key := key; gr_DisplayName := gr_DisplayName g; gr_SortOrder := gr_SortOrder g |}.
Definition set_node_key (key : string) (n : NodeRecord) : NodeRecord := {|
  nr_ID := nr_ID n; nr_WorkflowID := nr_WorkflowID n; nr_Key := key; nr_Kind := nr_Kind n; nr_DisplayName := nr_DisplayName n;
  nr_GroupID := nr_GroupID n; nr_GroupKey := nr_GroupKey n; nr_SubagentRole := nr_SubagentRole n;
  nr_CompletionMode := nr_CompletionMode n; nr_ScriptPath := nr_ScriptPath n; nr_JoinInputProviders := nr_JoinInputProviders n;
  nr_SortOrder := nr_SortOrder n |}.
Definition set_transition_key (key : string) (g : TransitionGroupRecord) : TransitionGroupRecord := {|
  tr_ID := tr_ID g; tr_WorkflowID := tr_WorkflowID g; tr_SourceNodeID := tr_SourceNodeID g; tr_TransitionID := key;
  tr_DisplayName := tr_DisplayName g; tr_Description := tr_Description g; tr_SortOrder := tr_SortOrder g |}.
Definition set_edge_key (key : string) (e : EdgeRecord) : EdgeRecord := {|
  er_ID := er_ID e; er_WorkflowID := er_WorkflowID e; er_TransitionGroupID := er_TransitionGroupID e; er_Key := key;
  er_TargetNodeID := er_TargetNodeID e; er_AssigneeSelection := er_AssigneeSelection e; er_ThinkingSelection := er_ThinkingSelection e;
  er_RequiresApproval := er_RequiresApproval e; er_ContextMode := er_ContextMode e; er_ContextSource := er_ContextSource e;
  er_InputBindings := er_InputBindings e; er_PromptTemplate := er_PromptTemplate e; er_Parameters := er_Parameters e;
  er_OutputRequirements := er_OutputRequirements e; er_SortOrder := er_SortOrder e |}.

Context (newUUID : WorkflowGraphEntityType → string → string).
Definition stageWorkflowGraphSaveKeyChanges (current : preparedWorkflowGraphSave) : tx unit :=
  _ ← each (λ g, upsertWorkflowNodeGroup (set_group_key (newUUID EntityNodeGroup (gr_ID g)) g)) (nodeGroups current);
  _ ← each (λ n, upsertWorkflowNode (set_node_key (newUUID EntityNode (nr_ID n)) n) (nr_SortOrder n)) (nodes current);
  _ ← each (λ g, upsertWorkflowTransitionGroup (set_transition_key (newUUID EntityTransitionGroup (tr_ID g)) g) (tr_SortOrder g))
        (transitionGroups current);
  each (λ e, upsertWorkflowEdge (set_edge_key (newUUID EntityEdge (er_ID e)) e) (er_SortOrder e)) (edges current).

Definition applyWorkflowGraphSave (workflowID : WorkflowID) (current prepared : preparedWorkflowGraphSave)
    (removed : removedWorkflowGraphRows) : tx unit :=
  _ ← stageWorkflowGraphSaveKeyChanges current;
  _ ← each (λ id, expectAffectedRowCount (DeleteWorkflowEdge faulty id)) (rm_edges removed);
  _ ← each (λ id, expectAffectedRowCount (DeleteWorkflowTransitionGroupByID faulty id)) (rm_transitionGroups removed);
  _ ← each (λ id, expectAffectedRowCount (DeleteWorkflowNode faulty id)) (rm_nodes removed);
  _ ← each (λ id, expectAffectedRowCount (DeleteWorkflowNodeGroup faulty id workflowID)) (rm_nodeGroups removed);
  _ ← each upsertWorkflowNodeGroup (nodeGroups prepared);
  _ ← each_at upsertWorkflowNode (nodes prepared);
  _ ← each_at upsertWorkflowTransitionGroup (transitionGroups prepared);
  each_at upsertWorkflowEdge (edges prepared).

Definition save_metadata (plan : WorkflowGraphSavePlan) (now version : Z) : tx Z :=
  match gp_Metadata plan with
  | Some metadata =>
    if negb (gp_MetadataChanged plan) then mret version
    else match gm_ExecutionTargetPolicy metadata with
    | None => fail (PolicyError (SaveError "prepared workflow execution target policy is required"))
    | Some policy =>
      let ref := workflowCustomRefForQuery (etp_CustomRef policy) in
      if gp_GraphChanged plan then
        _ ← expectAffectedRowCount (UpdateWorkflowMetadataWithoutVersion faulty (gp_WorkflowID plan) (gm_Name metadata)
              (gm_Description metadata) (etp_Mode policy) ref now);
        mret version
      else
        _ ← expectAffectedRowCount (UpdateWorkflowMetadata faulty (gp_WorkflowID plan) (gm_Name metadata)
              (gm_Description metadata) (etp_Mode policy) ref now);
        mret (version + 1)%Z
    end
  | None => mret version
  end.

(** The second transaction: it returns the new version. *)
Definition write_graph (req : WorkflowGraphSaveRequest) (plan : WorkflowGraphSavePlan) (now : Z) : tx Z :=
  let workflowID := sq_WorkflowID req in
  _ ← select faulty "defer foreign keys" (λ _, tt);
  _ ← expectAffectedRowCount (AcquireWorkflowGraphSaveWriteLock faulty workflowID);
  current ← GetWorkflow faulty workflowID;
  if wi_Version current <>? gp_Version plan then
    fail (PolicyError (SaveRefused (workflowGraphSaveResult (plan_blocked plan (wi_Version current) (gp_Removed plan) (gp_Impact plan)
      (gp_EditPolicy plan) (workflowGraphSaveVersionChangedBlockers (wi_Version current))) false)))
  else
    evaluation ← evaluateWorkflowGraphSaveDynamicImpact faulty (gp_WorkflowID plan) (gp_Structural plan);
    let blockers := (workflowGraphSaveBlockers req evaluation ++
      workflowGraphSaveBlockersFromEditPolicy (pr_Blockers (di_EditPolicy evaluation)))%list in
    if negb (length blockers ==? 0%nat) then
      fail (PolicyError (SaveRefused (workflowGraphSaveResult (plan_blocked plan (gp_Version plan) (sd_Removed (gp_Structural plan))
        (di_Impact evaluation) (di_EditPolicy evaluation) blockers) false)))
    else
      version ← (if gp_GraphChanged plan then
        _ ← applyWorkflowGraphSave (gp_WorkflowID plan) (gp_current plan) (gp_Prepared plan) (gp_Removed plan);
        IncrementWorkflowVersion faulty (gp_WorkflowID plan) now
      else mret (gp_Version plan));
      version ← save_metadata plan now version;
      _ ← deferred_checks faulty;
      mret version.
End saving.

Definition saved_result (plan : WorkflowGraphSavePlan) (version : Z) : WorkflowGraphSaveResult :=
  let result := workflowGraphSaveResult plan true in
  let record := gp_Record plan in
  let record := match gp_Metadata plan with
    | Some m => if gp_MetadataChanged plan then {| wr_ID := wr_ID record; wr_Name := gm_Name m; wr_Description := gm_Description m;
        wr_Version := version; wr_ExecutionTargetPolicy := default (wr_ExecutionTargetPolicy record) (gm_ExecutionTargetPolicy m) |}
      else {| wr_ID := wr_ID record; wr_Name := wr_Name record; wr_Description := wr_Description record; wr_Version := version;
        wr_ExecutionTargetPolicy := wr_ExecutionTargetPolicy record |}
    | None => {| wr_ID := wr_ID record; wr_Name := wr_Name record; wr_Description := wr_Description record; wr_Version := version;
        wr_ExecutionTargetPolicy := wr_ExecutionTargetPolicy record |} end in {|
  sr_Saved := sr_Saved result; sr_Changed := sr_Changed result; sr_CanSave := sr_CanSave result;
  sr_ConfirmationRequired := sr_ConfirmationRequired result; sr_Version := version; sr_Impact := sr_Impact result;
  sr_EditPolicyImpact := sr_EditPolicyImpact result; sr_Blockers := sr_Blockers result; sr_ValidationErrors := sr_ValidationErrors result;
  sr_Definition := gp_Definition plan; sr_Record := record; sr_ValidationResults := sr_ValidationResults result |}.

Section operations.
Context {order : RangeOrder}.
Context (Parse : string → result string (gmap string (option TNode))) (roleResolver : option TargetAgentCatalog).

(** [Store.prepareWorkflowGraphSave] *)
Definition prepareGraphSave (faulty : nat → bool) (req : WorkflowGraphSaveRequest) (s : graph_db)
    : result (store_error save_stop) WorkflowGraphSavePlan :=
  (transact faulty (planWorkflowGraphSave Parse roleResolver faulty req) s).1.

Definition PreviewWorkflowGraphSave (faulty : nat → bool) (req : WorkflowGraphSaveRequest) (s : graph_db)
    : result (store_error save_stop) WorkflowGraphSaveResult :=
  plan ← prepareGraphSave faulty req s; Ok (workflowGraphSaveResult plan false).

(** Carries out a plan in the state [s]. *)
Definition commitGraphSave (faulty : nat → bool) (newUUID : WorkflowGraphEntityType → string → string) (now : Z)
    (req : WorkflowGraphSaveRequest) (plan : WorkflowGraphSavePlan) (s : graph_db)
    : result (store_error save_stop) WorkflowGraphSaveResult * graph_db :=
  if negb (length (gp_Blockers plan) ==? 0%nat) then (Ok (workflowGraphSaveResult plan false), s)
  else if negb (gp_GraphChanged plan) && negb (gp_MetadataChanged plan) then (Ok (workflowGraphSaveResult plan true), s)
  else match transact faulty (write_graph faulty newUUID req plan now) s with
  | (Ok version, s') => (Ok (saved_result plan version), s')
  | (Err (PolicyError (SaveRefused r)), s') => (Ok r, s')
  | (Err e, s') => (Err e, s')
  end.

(** [Store.saveWorkflowGraph]: prepared in [s0], carried out in [s]. *)
Definition saveWorkflowGraph (faulty0 faulty : nat → bool) (newUUID : WorkflowGraphEntityType → string → string) (now : Z)
    (req : WorkflowGraphSaveRequest) (s0 s : graph_db) : result (store_error save_stop) WorkflowGraphSaveResult * graph_db :=
  match prepareGraphSave faulty0 req s0 with
  | Err e => (Err e, s)
  | Ok plan => commitGraphSave faulty newUUID now req plan s
  end.

Definition GetDefinition (faulty : nat → bool) (workflowID : WorkflowID) (s : graph_db)
    : result (store_error save_stop) (WorkflowDefinition * WorkflowRecord) :=
  match workflowDefinitionFromQueries faulty workflowID 0%nat s with Ok (a, _, _) => Ok a | Err e => Err e end.

(** ** Other writers *)
Definition insertWorkflow (faulty : nat → bool) (workflowID : WorkflowID) (startID doneID : NodeID) (now : Z) (name description : string)
    : txn graph_db save_stop WorkflowRecord :=
  let policy := DefaultExecutionTargetPolicy in
  _ ← InsertWorkflow faulty workflowID {| wi_Name := TrimSpace name; wi_Description := TrimSpace description; wi_Version := 1;
        wi_ExecutionTargetPolicy := etp_Mode policy; wi_ExecutionTargetCustomRef := None; wi_UpdatedAtUnixMs := now |};
  let node key kind display sort := {| n_WorkflowID := workflowID; n_Key := key; n_Kind := kind; n_DisplayName := display;
        n_SubagentRole := ""; n_CompletionMode := ""; n_ScriptPath := None; n_JoinInputProviders := []; n_GroupID := None;
        n_SortOrder := sort |} in
  _ ← InsertWorkflowNode faulty startID (node "backlog" NodeKindStart "Backlog" 0%Z);
  _ ← InsertWorkflowNode faulty doneID (node "done" NodeKindTerminal "Done" 1000%Z);
  mret {| wr_ID := workflowID; wr_Name := TrimSpace name; wr_Description := TrimSpace description; wr_Version := 1;
          wr_ExecutionTargetPolicy := policy |}.

Definition CreateWorkflow (faulty : nat → bool) (workflowID : WorkflowID) (startID doneID : NodeID) (now : Z) (name description : string)
    (s : graph_db) : result (store_error save_stop) WorkflowRecord * graph_db :=
  transact faulty (insertWorkflow faulty workflowID startID doneID now name description) s.

(** One statement, which is its own transaction. *)
Definition UpdateWorkflowInfo (faulty : nat → bool) (workflowID : WorkflowID) (name description : string) (now : Z) (s : graph_db)
    : result (store_error save_stop) unit * graph_db :=
  match UpdateWorkflowInfoRow faulty workflowID (TrimSpace name) (TrimSpace description) now 0%nat s with
  | Ok (n, _, s') => (if n ==? 0%nat then Err NoRows else Ok tt, s')
  | Err e => (Err e, s)
  end.
End operations.
