(* ===== verification/GraphFacts.v ===== *)
(** * What the statements on the stored graph do

    Facts on tables, the consistency every statement keeps (unique keys, no
    dangling reference, no reference into another workflow), and the frame: a
    change of one workflow leaves the rows of all others alone. *)
From Stdlib Require Import ZArith String Lia.
From stdpp Require Import gmap strings list sorting.
From S2P Require Import Prelude Transactions GoStrings Types CurrentState GraphTables GraphSave.

Local Open Scope string_scope.

(** ** Tables *)
Section tables.
Context {R : Type}.
Implicit Types (t : table R) (id : string) (r : R).

Lemma lookup_put_eq id r t : ∃ n, put id r t !! id = Some (n, r).
Proof. unfold put. rewrite lookup_insert_eq. eauto. Qed.
Lemma lookup_put_ne id j r t : id ≠ j → put id r t !! j = t !! j.
Proof. apply lookup_insert_ne. Qed.
Lemma lookup_put id j r t row : put id r t !! j = Some row → (j = id ∧ row.2 = r) ∨ (j ≠ id ∧ t !! j = Some row).
Proof.
  destruct (decide (j = id)) as [-> |Hne].
  - destruct (lookup_put_eq id r t) as [n ->]. intros [= <-]. by left.
  - rewrite lookup_put_ne by done. by right.
Qed.

Lemma conflicts_false {K} `{EqDecision K} (key : R → K) id k t :
  conflicts key id k t = false ↔ ∀ j row, t !! j = Some row → key row.2 = k → j = id.
Proof.
  unfold conflicts. rewrite <- not_true_iff_false, existsb_exists. setoid_rewrite <- list_elem_of_In. split.
  - intros H j row Hj Hk. destruct (decide (j = id)) as [?|Hne]; [done|]. exfalso. apply H. exists (j, row).
    split; [by apply elem_of_map_to_list|]. simpl. rewrite (bool_decide_eq_false_2 (j = id)) by done. by rewrite bool_decide_eq_true_2.
  - intros H ([j row] & Hj%elem_of_map_to_list & Hb). simpl in Hb. bool_simp. eauto.
Qed.

#[local] Instance row_before_total sort : Total (row_before (R := R) sort).
Proof. intros a b. unfold row_before. lia. Qed.
#[local] Instance row_before_trans sort : Transitive (row_before (R := R) sort).
Proof. intros a b c. unfold row_before. lia. Qed.

Lemma elem_of_ordered sort t id r : (id, r) ∈ ordered sort t ↔ ∃ n, t !! id = Some (n, r).
Proof.
  unfold ordered. rewrite list_elem_of_fmap. setoid_rewrite merge_sort_Permutation. split.
  - intros ([j [n row]] & [= -> ->] & H%elem_of_map_to_list). eauto.
  - intros [n H%elem_of_map_to_list]. by exists (id, (n, r)).
Qed.
Lemma NoDup_ordered sort t : NoDup (ordered sort t).*1.
Proof.
  unfold ordered. rewrite <- list_fmap_compose.
  rewrite (list_fmap_ext _ fst) by (by intros ? [? ?]). rewrite merge_sort_Permutation. apply NoDup_fst_map_to_list.
Qed.
Lemma ordered_sorted sort t : StronglySorted (λ a b, (sort a.2 ≤ sort b.2)%Z) (ordered sort t).
Proof.
  pose proof (StronglySorted_merge_sort (row_before sort) (map_to_list t)) as H. unfold ordered.
  induction H as [|a l _ IH Hall]; simpl; constructor; [done|].
  rewrite Forall_fmap. eapply Forall_impl; [done|]. intros b Hb. simpl. unfold row_before in Hb. lia.
Qed.

Lemma increasing_inj {A} (key : A → Z) (l : list A) a b :
  StronglySorted (λ a b, (key a < key b)%Z) l → a ∈ l → b ∈ l → key a = key b → a = b.
Proof.
  induction 1 as [|c l _ IH Hall]; [by intros ?%elem_of_nil|]. rewrite Forall_forall in Hall.
  intros [-> |Ha]%elem_of_cons [-> |Hb]%elem_of_cons E; [done|specialize (Hall b Hb); lia|specialize (Hall a Ha); lia|auto].
Qed.

(** A list with the rows of the table, in strictly increasing order, is the
    ordered table. *)
Lemma ordered_unique sort t (l : list (string * R)) :
  NoDup l.*1 → (∀ id r, (∃ n, t !! id = Some (n, r)) ↔ (id, r) ∈ l) →
  StronglySorted (λ a b, (sort a.2 < sort b.2)%Z) l → ordered sort t = l.
Proof.
  intros Hnd Hl Hs.
  assert (ordered sort t ≡ₚ l) as Hp.
  { apply NoDup_Permutation; [eapply NoDup_fmap_1, (NoDup_ordered sort)|by eapply NoDup_fmap_1|].
    intros [id r]. by rewrite elem_of_ordered. }
  apply StronglySorted_unique_strong with (R := λ a b, (sort a.2 ≤ sort b.2)%Z).
  - intros a b Ha Hb Hab Hba. rewrite Hp in Ha. apply (increasing_inj (λ a, sort a.2) l); [done..|]. lia.
  - apply ordered_sorted.
  - clear -Hs. induction Hs as [|a l _ IH Hall]; constructor; [done|]. eapply Forall_impl; [done|]. intros b. simpl. lia.
  - done.
Qed.
End tables.

(** ** Workflows of rows *)
Definition group_workflow (s : graph_db) (id : string) : option WorkflowID :=
  r ← gd_groups s !! id; Some (g_WorkflowID r.2).

Lemma group_workflow_Some s id w : group_workflow s id = Some w ↔ ∃ r, gd_groups s !! id = Some r ∧ g_WorkflowID r.2 = w.
Proof. unfold group_workflow. destruct (gd_groups s !! id); naive_solver. Qed.
Lemma node_workflow_Some s id w : node_workflow s id = Some w ↔ ∃ r, gd_nodes s !! id = Some r ∧ n_WorkflowID r.2 = w.
Proof. unfold node_workflow. destruct (gd_nodes s !! id); naive_solver. Qed.
Lemma transition_workflow_Some s id w :
  transition_workflow s id = Some w ↔ ∃ r, gd_transitions s !! id = Some r ∧ node_workflow s (t_SourceNodeID r.2) = Some w.
Proof. unfold transition_workflow. destruct (gd_transitions s !! id); naive_solver. Qed.
Lemma edge_workflow_Some s id w :
  edge_workflow s id = Some w ↔ ∃ r, gd_edges s !! id = Some r ∧ transition_workflow s (ed_TransitionGroupID r.2) = Some w.
Proof. unfold edge_workflow. destruct (gd_edges s !! id); naive_solver. Qed.

(** ** Consistency *)
Record consistent (s : graph_db) : Prop := {
  c_groups : ∀ id r, gd_groups s !! id = Some r → is_Some (gd_workflows s !! g_WorkflowID r.2);
  c_nodes : ∀ id r, gd_nodes s !! id = Some r → is_Some (gd_workflows s !! n_WorkflowID r.2) ∧
    ∀ g, n_GroupID r.2 = Some g → group_workflow s g = Some (n_WorkflowID r.2);
  c_transitions : ∀ id r, gd_transitions s !! id = Some r → is_Some (node_workflow s (t_SourceNodeID r.2));
  c_edges : ∀ id r, gd_edges s !! id = Some r → ∃ w,
    transition_workflow s (ed_TransitionGroupID r.2) = Some w ∧ node_workflow s (ed_TargetNodeID r.2) = Some w;
  c_group_keys : ∀ i j r r', gd_groups s !! i = Some r → gd_groups s !! j = Some r' →
    g_WorkflowID r.2 = g_WorkflowID r'.2 → g_Key r.2 = g_Key r'.2 → i = j;
  c_node_keys : ∀ i j r r', gd_nodes s !! i = Some r → gd_nodes s !! j = Some r' →
    n_WorkflowID r.2 = n_WorkflowID r'.2 → n_Key r.2 = n_Key r'.2 → i = j;
  c_start : ∀ i j r r', gd_nodes s !! i = Some r → gd_nodes s !! j = Some r' →
    n_WorkflowID r.2 = n_WorkflowID r'.2 → n_Kind r.2 = NodeKindStart → n_Kind r'.2 = NodeKindStart → i = j;
  c_transition_keys : ∀ i j r r', gd_transitions s !! i = Some r → gd_transitions s !! j = Some r' →
    t_SourceNodeID r.2 = t_SourceNodeID r'.2 → t_TransitionID r.2 = t_TransitionID r'.2 → i = j;
  c_edge_keys : ∀ i j r r', gd_edges s !! i = Some r → gd_edges s !! j = Some r' →
    ed_TransitionGroupID r.2 = ed_TransitionGroupID r'.2 → ed_Key r.2 = ed_Key r'.2 → i = j }.

(** Outside the workflow [w] every row is the same. *)
Record frame (w : WorkflowID) (s s' : graph_db) : Prop := {
  f_workflows : ∀ v, v ≠ w → gd_workflows s' !! v = gd_workflows s !! v;
  f_groups : ∀ id v, v ≠ w → group_workflow s id = Some v ∨ group_workflow s' id = Some v →
    gd_groups s' !! id = gd_groups s !! id;
  f_nodes : ∀ id v, v ≠ w → node_workflow s id = Some v ∨ node_workflow s' id = Some v →
    gd_nodes s' !! id = gd_nodes s !! id;
  f_transitions : ∀ id v, v ≠ w → transition_workflow s id = Some v ∨ transition_workflow s' id = Some v →
    gd_transitions s' !! id = gd_transitions s !! id;
  f_edges : ∀ id v, v ≠ w → edge_workflow s id = Some v ∨ edge_workflow s' id = Some v →
    gd_edges s' !! id = gd_edges s !! id;
  f_anchors : gd_anchors s' = gd_anchors s }.

Section frame.
Context (w : WorkflowID).
Lemma frame_refl s : frame w s s.
Proof. by split. Qed.
Lemma frame_group s s' id v : frame w s s' → v ≠ w → group_workflow s' id = Some v ↔ group_workflow s id = Some v.
Proof.
  intros F Hv. split; intros H; pose proof (f_groups _ _ _ F id v Hv) as E; unfold group_workflow in *.
  - by rewrite <- E by by right.
  - by rewrite E by by left.
Qed.
Lemma frame_node s s' id v : frame w s s' → v ≠ w → node_workflow s' id = Some v ↔ node_workflow s id = Some v.
Proof.
  intros F Hv. split; intros H; pose proof (f_nodes _ _ _ F id v Hv) as E; unfold node_workflow in *.
  - by rewrite <- E by by right.
  - by rewrite E by by left.
Qed.
Lemma frame_transition s s' id v : frame w s s' → v ≠ w → transition_workflow s' id = Some v ↔ transition_workflow s id = Some v.
Proof.
  intros F Hv. split; intros H; pose proof (f_transitions _ _ _ F id v Hv) as E;
    apply transition_workflow_Some in H as (r & Hr & Hn).
  - rewrite E in Hr by (right; apply transition_workflow_Some; eauto). apply transition_workflow_Some. exists r. split; [done|].
    by apply (frame_node s s').
  - rewrite <- E in Hr by (left; apply transition_workflow_Some; eauto). apply transition_workflow_Some. exists r. split; [done|].
    by apply (frame_node s s').
Qed.
Lemma frame_edge s s' id v : frame w s s' → v ≠ w → edge_workflow s' id = Some v ↔ edge_workflow s id = Some v.
Proof.
  intros F Hv. split; intros H; pose proof (f_edges _ _ _ F id v Hv) as E;
    apply edge_workflow_Some in H as (r & Hr & Hn).
  - rewrite E in Hr by (right; apply edge_workflow_Some; eauto). apply edge_workflow_Some. exists r. split; [done|].
    by apply (frame_transition s s').
  - rewrite <- E in Hr by (left; apply edge_workflow_Some; eauto). apply edge_workflow_Some. exists r. split; [done|].
    by apply (frame_transition s s').
Qed.

#[export] Instance frame_preorder : PreOrder (frame w).
Proof.
  split; [exact frame_refl|]. intros s1 s2 s3 F G. split.
  - intros v Hv. by rewrite (f_workflows _ _ _ G), (f_workflows _ _ _ F).
  - intros id v Hv H. rewrite (f_groups _ _ _ G id v), (f_groups _ _ _ F id v); try done.
    + rewrite (frame_group s1 s2) by done. rewrite (frame_group s2 s3), (frame_group s1 s2) in H by done. tauto.
    + by rewrite (frame_group s1 s2), (frame_group s2 s3), (frame_group s1 s2) in * by done.
  - intros id v Hv H. rewrite (f_nodes _ _ _ G id v), (f_nodes _ _ _ F id v); try done.
    + rewrite (frame_node s1 s2) by done. rewrite (frame_node s2 s3), (frame_node s1 s2) in H by done. tauto.
    + by rewrite (frame_node s1 s2), (frame_node s2 s3), (frame_node s1 s2) in * by done.
  - intros id v Hv H. rewrite (f_transitions _ _ _ G id v), (f_transitions _ _ _ F id v); try done.
    + rewrite (frame_transition s1 s2) by done. rewrite (frame_transition s2 s3), (frame_transition s1 s2) in H by done. tauto.
    + by rewrite (frame_transition s1 s2), (frame_transition s2 s3), (frame_transition s1 s2) in * by done.
  - intros id v Hv H. rewrite (f_edges _ _ _ G id v), (f_edges _ _ _ F id v); try done.
    + rewrite (frame_edge s1 s2) by done. rewrite (frame_edge s2 s3), (frame_edge s1 s2) in H by done. tauto.
    + by rewrite (frame_edge s1 s2), (frame_edge s2 s3), (frame_edge s1 s2) in * by done.
  - by rewrite (f_anchors _ _ _ G), (f_anchors _ _ _ F).
Qed.

(** A row that is in the workflow before a framed change is not in another one
    after it. *)
Lemma frame_owned_node s s' id v : frame w s s' → node_workflow s id = Some w → node_workflow s' id = Some v → v = w.
Proof. intros F H H'. destruct (decide (v = w)) as [?|Hv]; [done|]. rewrite (frame_node s s') in H' by done. congruence. Qed.
Lemma frame_owned_group s s' id v : frame w s s' → group_workflow s id = Some w → group_workflow s' id = Some v → v = w.
Proof. intros F H H'. destruct (decide (v = w)) as [?|Hv]; [done|]. rewrite (frame_group s s') in H' by done. congruence. Qed.
Lemma frame_owned_transition s s' id v : frame w s s' → transition_workflow s id = Some w → transition_workflow s' id = Some v → v = w.
Proof. intros F H H'. destruct (decide (v = w)) as [?|Hv]; [done|]. rewrite (frame_transition s s') in H' by done. congruence. Qed.
Lemma frame_owned_edge s s' id v : frame w s s' → edge_workflow s id = Some w → edge_workflow s' id = Some v → v = w.
Proof. intros F H H'. destruct (decide (v = w)) as [?|Hv]; [done|]. rewrite (frame_edge s s') in H' by done. congruence. Qed.
End frame.

(** ** Rows that are written *)
Section writes.
Context (s : graph_db) (Hs : consistent s).

Lemma group_workflow_put id r j : group_workflow (set_groups (put id r (gd_groups s)) s) j =
  if decide (j = id) then Some (g_WorkflowID r) else group_workflow s j.
Proof.
  unfold group_workflow. simpl. case_decide as E; [subst|by rewrite lookup_put_ne by done].
  by destruct (lookup_put_eq id r (gd_groups s)) as [n ->].
Qed.
Lemma node_workflow_put id r j : node_workflow (set_nodes (put id r (gd_nodes s)) s) j =
  if decide (j = id) then Some (n_WorkflowID r) else node_workflow s j.
Proof.
  unfold node_workflow. simpl. case_decide as E; [subst|by rewrite lookup_put_ne by done].
  by destruct (lookup_put_eq id r (gd_nodes s)) as [n ->].
Qed.
Lemma transition_workflow_put id r j : transition_workflow (set_transitions (put id r (gd_transitions s)) s) j =
  if decide (j = id) then node_workflow s (t_SourceNodeID r) else transition_workflow s j.
Proof.
  unfold transition_workflow. simpl. case_decide as E; [subst|by rewrite lookup_put_ne by done].
  by destruct (lookup_put_eq id r (gd_transitions s)) as [n ->].
Qed.
Lemma edge_workflow_put id r j : edge_workflow (set_edges (put id r (gd_edges s)) s) j =
  if decide (j = id) then transition_workflow s (ed_TransitionGroupID r) else edge_workflow s j.
Proof.
  unfold edge_workflow. simpl. case_decide as E; [subst|by rewrite lookup_put_ne by done].
  by destruct (lookup_put_eq id r (gd_edges s)) as [n ->].
Qed.

Lemma transition_workflow_node id r j : (∀ v, node_workflow s id = Some v → v = n_WorkflowID r) →
  transition_workflow (set_nodes (put id r (gd_nodes s)) s) j = transition_workflow s j.
Proof.
  intros Hold. unfold transition_workflow. simpl. destruct (gd_transitions s !! j) as [t|] eqn:E; [|done]. simpl.
  rewrite node_workflow_put. case_decide as Ei; [|done]. destruct (c_transitions s Hs _ _ E) as [v Hv].
  rewrite Ei in Hv. rewrite Ei, Hv. by rewrite (Hold v Hv).
Qed.
Lemma edge_workflow_node id r j : (∀ v, node_workflow s id = Some v → v = n_WorkflowID r) →
  edge_workflow (set_nodes (put id r (gd_nodes s)) s) j = edge_workflow s j.
Proof.
  intros Hold. unfold edge_workflow. simpl. destruct (gd_edges s !! j) as [e|]; [|done]. simpl. by apply transition_workflow_node.
Qed.
Lemma edge_workflow_transition id r j : (∀ v, transition_workflow s id = Some v → node_workflow s (t_SourceNodeID r) = Some v) →
  edge_workflow (set_transitions (put id r (gd_transitions s)) s) j = edge_workflow s j.
Proof.
  intros Hold. unfold edge_workflow. simpl. destruct (gd_edges s !! j) as [e|] eqn:E; [|done]. simpl.
  rewrite transition_workflow_put. case_decide as Ei; [|done]. destruct (c_edges s Hs _ _ E) as (v & Hv & _).
  rewrite Ei in Hv. rewrite Ei, Hv. by apply Hold.
Qed.

Lemma put_group_ok id r : is_Some (gd_workflows s !! g_WorkflowID r) → (∀ v, group_workflow s id = Some v → v = g_WorkflowID r) →
  conflicts (λ g, (g_WorkflowID g, g_Key g)) id (g_WorkflowID r, g_Key r) (gd_groups s) = false →
  consistent (set_groups (put id r (gd_groups s)) s) ∧ frame (g_WorkflowID r) s (set_groups (put id r (gd_groups s)) s).
Proof.
  intros Hw Hold Hk. rewrite conflicts_false in Hk. split; split; simpl; try apply Hs; try done.
  - intros j row [[-> Hr]|[_ Hj]]%lookup_put; [by rewrite Hr|exact (c_groups s Hs _ _ Hj)].
  - intros j row Hj. destruct (c_nodes s Hs j row Hj) as [H1 H2]. split; [done|]. intros g Hg. specialize (H2 g Hg).
    rewrite group_workflow_put. case_decide; [subst|done]. by rewrite (Hold _ H2).
  - intros i j r1 r2 [[-> E1]|[Hi H1]]%lookup_put [[-> E2]|[Hj H2]]%lookup_put Hwf Hkey; try done.
    + symmetry. eapply (Hk j r2 H2). by rewrite <- E1, Hwf, Hkey.
    + eapply (Hk i r1 H1). by rewrite <- E2, Hwf, Hkey.
    + by eapply (c_group_keys s Hs).
  - intros j v Hv H. apply lookup_put_ne. intros <-. rewrite group_workflow_put, decide_True in H by done.
    destruct H as [H|[= H]]; [by apply Hold in H|done].
Qed.

Lemma put_node_ok id r : is_Some (gd_workflows s !! n_WorkflowID r) → group_in_workflow s r = true →
  (∀ v, node_workflow s id = Some v → v = n_WorkflowID r) → node_unique id r (gd_nodes s) = true →
  consistent (set_nodes (put id r (gd_nodes s)) s) ∧ frame (n_WorkflowID r) s (set_nodes (put id r (gd_nodes s)) s).
Proof.
  intros Hw Hg Hold Hk. unfold node_unique in Hk. apply andb_true_iff in Hk as [Hk Hst].
  apply negb_true_iff in Hk. rewrite conflicts_false in Hk. apply negb_true_iff, andb_false_iff in Hst.
  assert (n_Kind r = NodeKindStart → ∀ j row, gd_nodes s !! j = Some row → n_WorkflowID row.2 = n_WorkflowID r →
    n_Kind row.2 = NodeKindStart → j = id) as Hone.
  { intros Er j row Hj Hwf Hkind. destruct Hst as [Hst|Hst]; [by rewrite bool_decide_eq_false in Hst|].
    rewrite conflicts_false in Hst. apply (Hst j row Hj). by rewrite Hwf, Hkind. }
  clear Hst.
  assert (∀ j, is_Some (node_workflow s j) → is_Some (node_workflow (set_nodes (put id r (gd_nodes s)) s) j)) as Hdom.
  { intros j Hj. rewrite node_workflow_put. destruct (decide (j = id)); [by eexists|exact Hj]. }
  split; split; simpl; try apply Hs; try done.
  - intros j row [[-> Hr]|[_ Hj]]%lookup_put; [rewrite Hr|exact (c_nodes s Hs _ _ Hj)]. split; [done|]. intros g Hgid.
    unfold group_in_workflow in Hg. rewrite Hgid in Hg. unfold group_workflow. simpl.
    destruct (gd_groups s !! g) as [gr|]; [|done]. bool_simp. simpl. by f_equal.
  - intros j row Hj. apply Hdom. exact (c_transitions s Hs _ _ Hj).
  - intros j row Hj. destruct (c_edges s Hs j row Hj) as (v & H1 & H2). exists v. rewrite transition_workflow_node by done.
    split; [done|]. rewrite node_workflow_put. case_decide; [subst|done]. f_equal. symmetry. auto.
  - intros i j r1 r2 [[-> E1]|[Hi H1]]%lookup_put [[-> E2]|[Hj H2]]%lookup_put Hwf Hkey; try done.
    + symmetry. eapply (Hk j r2 H2). by rewrite <- E1, Hwf, Hkey.
    + eapply (Hk i r1 H1). by rewrite <- E2, Hwf, Hkey.
    + by eapply (c_node_keys s Hs).
  - intros i j r1 r2 [[-> E1]|[Hi H1]]%lookup_put [[-> E2]|[Hj H2]]%lookup_put Hwf K1 K2; try done.
    + symmetry. rewrite E1 in *. by eapply Hone.
    + rewrite E2 in *. by eapply Hone.
    + by eapply (c_start s Hs).
  - intros j v Hv H. apply lookup_put_ne. intros <-. rewrite node_workflow_put, decide_True in H by done.
    destruct H as [H|[= H]]; [by apply Hold in H|done].
Qed.

Lemma put_transition_ok id r w : node_workflow s (t_SourceNodeID r) = Some w →
  (∀ v, transition_workflow s id = Some v → v = w) →
  conflicts (λ t, (t_SourceNodeID t, t_TransitionID t)) id (t_SourceNodeID r, t_TransitionID r) (gd_transitions s) = false →
  consistent (set_transitions (put id r (gd_transitions s)) s) ∧ frame w s (set_transitions (put id r (gd_transitions s)) s).
Proof.
  intros Hw Hold Hk. rewrite conflicts_false in Hk.
  assert (∀ v, transition_workflow s id = Some v → node_workflow s (t_SourceNodeID r) = Some v) as Hold'.
  { intros v Hv. by rewrite (Hold v Hv). }
  split; split; simpl; try apply Hs; try done.
  - intros j row [[-> Hr]|[_ Hj]]%lookup_put; [rewrite Hr; by exists w|exact (c_transitions s Hs _ _ Hj)].
  - intros j row Hj. destruct (c_edges s Hs j row Hj) as (v & H1 & H2). exists v. split; [|done].
    rewrite transition_workflow_put. case_decide as E; [|done]. rewrite E in H1. by apply Hold'.
  - intros i j r1 r2 [[-> E1]|[Hi H1]]%lookup_put [[-> E2]|[Hj H2]]%lookup_put Hwf Hkey; try done.
    + symmetry. eapply (Hk j r2 H2). by rewrite <- E1, Hwf, Hkey.
    + eapply (Hk i r1 H1). by rewrite <- E2, Hwf, Hkey.
    + by eapply (c_transition_keys s Hs).
  - intros j v Hv H. apply lookup_put_ne. intros <-. rewrite transition_workflow_put, decide_True in H by done.
    destruct H as [H|H]; [by apply Hold in H|congruence].
Qed.

Lemma put_edge_ok id r w : transition_workflow s (ed_TransitionGroupID r) = Some w → node_workflow s (ed_TargetNodeID r) = Some w →
  (∀ v, edge_workflow s id = Some v → v = w) →
  conflicts (λ e, (ed_TransitionGroupID e, ed_Key e)) id (ed_TransitionGroupID r, ed_Key r) (gd_edges s) = false →
  consistent (set_edges (put id r (gd_edges s)) s) ∧ frame w s (set_edges (put id r (gd_edges s)) s).
Proof.
  intros Hw Ht Hold Hk. rewrite conflicts_false in Hk. split; split; simpl; try apply Hs; try done.
  - intros j row [[-> Hr]|[_ Hj]]%lookup_put; [rewrite Hr; by exists w|exact (c_edges s Hs _ _ Hj)].
  - intros i j r1 r2 [[-> E1]|[Hi H1]]%lookup_put [[-> E2]|[Hj H2]]%lookup_put Hwf Hkey; try done.
    + symmetry. eapply (Hk j r2 H2). by rewrite <- E1, Hwf, Hkey.
    + eapply (Hk i r1 H1). by rewrite <- E2, Hwf, Hkey.
    + by eapply (c_edge_keys s Hs).
  - intros j v Hv H. apply lookup_put_ne. intros <-. rewrite edge_workflow_put, decide_True in H by done.
    destruct H as [H|H]; [by apply Hold in H|congruence].
Qed.
End writes.

(** ** Rows that are removed *)
(** No row appears. *)
Record shrinks (s s' : graph_db) : Prop := {
  sk_groups : ∀ id v, group_workflow s' id = Some v → group_workflow s id = Some v;
  sk_nodes : ∀ id v, node_workflow s' id = Some v → node_workflow s id = Some v;
  sk_transitions : ∀ id v, transition_workflow s' id = Some v → transition_workflow s id = Some v;
  sk_edges : ∀ id v, edge_workflow s' id = Some v → edge_workflow s id = Some v }.
#[export] Instance shrinks_preorder : PreOrder shrinks.
Proof. split; [by split|]. intros a b c [] []. split; eauto. Qed.

Section removals.
Context (s : graph_db) (Hs : consistent s) (w : WorkflowID).

Lemma delete_edge_ok id : edge_workflow s id = Some w → let s' := set_edges (delete id (gd_edges s)) s in
  consistent s' ∧ frame w s s' ∧ shrinks s s' ∧ edge_workflow s' id = None.
Proof.
  intros Hid s'. subst s'.
  assert (∀ j r, gd_edges (set_edges (delete id (gd_edges s)) s) !! j = Some r ↔ id ≠ j ∧ gd_edges s !! j = Some r) as He
    by (intros; apply lookup_delete_Some).
  split_and!; [split|split|split|]; try apply Hs; try done.
  - intros j r [_ Hj]%He. exact (c_edges s Hs _ _ Hj).
  - intros i j r r' [_ Hi]%He [_ Hj]%He. by apply (c_edge_keys s Hs).
  - intros j v Hv H. apply lookup_delete_ne. intros <-. destruct H as [H|(r & [? _]%He & _)%edge_workflow_Some]; [congruence|done].
  - intros j v (r & [_ Hr]%He & Hw)%edge_workflow_Some. apply edge_workflow_Some. eauto.
  - unfold edge_workflow. simpl. by rewrite lookup_delete_eq.
Qed.

Lemma drop_transition_ok id : transition_workflow s id = Some w → let s' := drop_transition id s in
  consistent s' ∧ frame w s s' ∧ shrinks s s' ∧ transition_workflow s' id = None.
Proof.
  intros Hid s'. subst s'.
  assert (∀ j, j ≠ id → transition_workflow (drop_transition id s) j = transition_workflow s j) as Ht.
  { intros j Hj. unfold transition_workflow. simpl. by rewrite lookup_delete_ne. }
  assert (∀ j r, gd_edges (drop_transition id s) !! j = Some r ↔
    gd_edges s !! j = Some r ∧ ed_TransitionGroupID r.2 ≠ id) as He.
  { intros j r. simpl. by rewrite map_lookup_filter_Some. }
  assert (∀ j r, gd_transitions (drop_transition id s) !! j = Some r ↔ id ≠ j ∧ gd_transitions s !! j = Some r) as Htr
    by (intros; apply lookup_delete_Some).
  split_and!; [split|split|split|]; try apply Hs; try done.
  - intros j r [_ Hj]%Htr. exact (c_transitions s Hs _ _ Hj).
  - intros j r [Hj Hne]%He. destruct (c_edges s Hs _ _ Hj) as (v & H1 & H2). exists v. by rewrite Ht.
  - intros i j r r' [_ Hi]%Htr [_ Hj]%Htr. by apply (c_transition_keys s Hs).
  - intros i j r r' [Hi _]%He [Hj _]%He. by apply (c_edge_keys s Hs).
  - intros j v Hv H. apply lookup_delete_ne. intros <-. destruct H as [H|(r & [? _]%Htr & _)%transition_workflow_Some]; [congruence|done].
  - intros j v Hv H. destruct (gd_edges s !! j) as [r|] eqn:Ej; [apply He; split; [done|]|].
    + intros E. destruct H as [(r' & Hr & H)%edge_workflow_Some|(r' & [Hr Hne]%He & H)%edge_workflow_Some].
      * rewrite Ej in Hr. injection Hr as <-. rewrite E in H. congruence.
      * rewrite Ej in Hr. by injection Hr as <-.
    + simpl. apply map_lookup_filter_None. by left.
  - intros j v (r & [_ Hr]%Htr & Hw)%transition_workflow_Some. apply transition_workflow_Some. eauto.
  - intros j v (r & [Hr Hne]%He & Hw)%edge_workflow_Some. apply edge_workflow_Some. exists r. rewrite Ht in Hw by done. done.
  - unfold transition_workflow. simpl. by rewrite lookup_delete_eq.
Qed.

Lemma drop_node_ok id : node_workflow s id = Some w → let s' := drop_node id s in
  consistent s' ∧ frame w s s' ∧ shrinks s s' ∧ node_workflow s' id = None.
Proof.
  intros Hid s'. subst s'.
  assert (∀ j, j ≠ id → node_workflow (drop_node id s) j = node_workflow s j) as Hn.
  { intros j Hj. unfold node_workflow. simpl. by rewrite lookup_delete_ne. }
  assert (∀ j r, gd_transitions (drop_node id s) !! j = Some r ↔ gd_transitions s !! j = Some r ∧ t_SourceNodeID r.2 ≠ id) as Ht.
  { intros j r. simpl. by rewrite map_lookup_filter_Some. }
  assert (∀ j r, gd_edges (drop_node id s) !! j = Some r ↔ gd_edges s !! j = Some r ∧ ed_TargetNodeID r.2 ≠ id ∧
    ∀ t, gd_transitions s !! ed_TransitionGroupID r.2 = Some t → t_SourceNodeID t.2 ≠ id) as He.
  { intros j r. simpl. rewrite map_lookup_filter_Some. simpl.
    destruct (gd_transitions s !! ed_TransitionGroupID r.2) as [t|].
    - rewrite bool_decide_eq_false. naive_solver.
    - naive_solver. }
  assert (∀ j v, transition_workflow s j = Some v → (∀ t, gd_transitions s !! j = Some t → t_SourceNodeID t.2 ≠ id) →
    transition_workflow (drop_node id s) j = Some v) as Htw.
  { intros j v (t & Ej & Hv)%transition_workflow_Some Hj. apply transition_workflow_Some. exists t. specialize (Hj t Ej).
    split; [by apply Ht|]. by rewrite Hn. }
  assert (∀ j v, transition_workflow (drop_node id s) j = Some v → transition_workflow s j = Some v ∧
    ∀ t, gd_transitions s !! j = Some t → t_SourceNodeID t.2 ≠ id) as Htw'.
  { intros j v (t & [Ej Hne]%Ht & Hv)%transition_workflow_Some. rewrite Hn in Hv by done.
    split; [apply transition_workflow_Some; eauto|congruence]. }
  assert (∀ j v, node_workflow (drop_node id s) j = Some v → node_workflow s j = Some v ∧ j ≠ id) as Hn'.
  { intros j v Hv. destruct (decide (j = id)) as [-> |Hj]; [|by rewrite Hn in Hv].
    unfold node_workflow in Hv. simpl in Hv. by rewrite lookup_delete_eq in Hv. }
  split_and!; [split|split|split|]; try done.
  - exact (c_groups s Hs).
  - simpl. intros j r [_ Hj]%lookup_delete_Some. exact (c_nodes s Hs _ _ Hj).
  - intros j r [Hj Hne]%Ht. rewrite Hn by done. exact (c_transitions s Hs _ _ Hj).
  - intros j r (Hj & Hne & Hl)%He. destruct (c_edges s Hs _ _ Hj) as (v & H1 & H2). exists v. split; [by apply Htw|]. by rewrite Hn.
  - exact (c_group_keys s Hs).
  - simpl. intros i j r r' [_ Hi]%lookup_delete_Some [_ Hj]%lookup_delete_Some. by apply (c_node_keys s Hs).
  - simpl. intros i j r r' [_ Hi]%lookup_delete_Some [_ Hj]%lookup_delete_Some. by apply (c_start s Hs).
  - intros i j r r' [Hi _]%Ht [Hj _]%Ht. by apply (c_transition_keys s Hs).
  - intros i j r r' [Hi _]%He [Hj _]%He. by apply (c_edge_keys s Hs).
  - simpl. intros j v Hv H. apply lookup_delete_ne. intros <-. destruct H as [H|H%Hn']; [congruence|]. by destruct H.
  - intros j v Hv H. assert (transition_workflow s j = Some v) as H' by (destruct H as [?|H%Htw']; [done|by destruct H]).
    apply transition_workflow_Some in H' as (t & Ej & Ht'). rewrite Ej. apply Ht. split; [done|]. intros E. rewrite E in Ht'. congruence.
  - intros j v Hv H. assert (edge_workflow s j = Some v) as H'.
    { destruct H as [?|(r & [Ej _]%He & [Hr _]%Htw')%edge_workflow_Some]; [done|]. apply edge_workflow_Some. eauto. }
    apply edge_workflow_Some in H' as (r & Ej & Hr). rewrite Ej. destruct (c_edges s Hs _ _ Ej) as (v' & H1 & H2).
    assert (v' = v) as -> by congruence. apply He. split_and!; [done|congruence|]. intros t Et E.
    apply transition_workflow_Some in H1 as (t' & Et' & Hw'). congruence.
  - intros j v [Hv _]%Hn'. done.
  - intros j v [Hv _]%Htw'. done.
  - intros j v (r & [Hr _]%He & [Hw _]%Htw')%edge_workflow_Some. apply edge_workflow_Some. eauto.
  - unfold node_workflow. simpl. by rewrite lookup_delete_eq.
Qed.

Lemma ungroup_workflow id r : n_WorkflowID (ungroup id r) = n_WorkflowID r.
Proof. unfold ungroup. by case_bool_decide. Qed.
Lemma ungroup_key id r : n_Key (ungroup id r) = n_Key r ∧ n_Kind (ungroup id r) = n_Kind r.
Proof. unfold ungroup. by case_bool_decide. Qed.
Lemma ungroup_group id r g : n_GroupID (ungroup id r) = Some g → n_GroupID r = Some g ∧ g ≠ id.
Proof. unfold ungroup. case_bool_decide as E; simpl; [done|]. intros H. split; [done|]. by intros ->. Qed.
Lemma ungroup_other id r : n_GroupID r ≠ Some id → ungroup id r = r.
Proof. unfold ungroup. intros H. by rewrite bool_decide_eq_false_2. Qed.

Definition drop_group (id : string) (s : graph_db) : graph_db :=
  set_groups (delete id (gd_groups s)) (set_nodes ((λ r, (r.1, ungroup id r.2)) <$> gd_nodes s) s).

Lemma drop_group_ok id : group_workflow s id = Some w → let s' := drop_group id s in
  consistent s' ∧ frame w s s' ∧ shrinks s s' ∧ group_workflow s' id = None.
Proof.
  intros Hid s'. subst s'.
  assert (∀ j, node_workflow (drop_group id s) j = node_workflow s j) as Hn.
  { intros j. unfold node_workflow. simpl. rewrite lookup_fmap. destruct (gd_nodes s !! j); simpl; [|done]. by rewrite ungroup_workflow. }
  assert (∀ j, transition_workflow (drop_group id s) j = transition_workflow s j) as Ht.
  { intros j. unfold transition_workflow. simpl. destruct (gd_transitions s !! j); simpl; [|done]. apply Hn. }
  assert (∀ j, edge_workflow (drop_group id s) j = edge_workflow s j) as He.
  { intros j. unfold edge_workflow. simpl. destruct (gd_edges s !! j); simpl; [|done]. apply Ht. }
  assert (∀ j, j ≠ id → group_workflow (drop_group id s) j = group_workflow s j) as Hg.
  { intros j Hj. unfold group_workflow. simpl. by rewrite lookup_delete_ne. }
  assert (∀ j r, gd_nodes (drop_group id s) !! j = Some r → ∃ r0, gd_nodes s !! j = Some (r.1, r0) ∧ r.2 = ungroup id r0) as Hr.
  { intros j r. simpl. rewrite lookup_fmap. intros ([n r0] & -> & E)%fmap_Some. exists r0. by rewrite E. }
  split_and!; [split|split|split|]; try done.
  - simpl. intros j r [_ Hj]%lookup_delete_Some. exact (c_groups s Hs _ _ Hj).
  - intros j r (r0 & Hj & E)%Hr. rewrite E, ungroup_workflow. destruct (c_nodes s Hs _ _ Hj) as [H1 H2]. split; [done|].
    intros g [Hgid Hne]%ungroup_group. rewrite Hg by done. by apply H2.
  - intros j r Hj. rewrite Hn. exact (c_transitions s Hs _ _ Hj).
  - intros j r Hj. setoid_rewrite Hn. setoid_rewrite Ht. exact (c_edges s Hs _ _ Hj).
  - simpl. intros i j r r' [_ Hi]%lookup_delete_Some [_ Hj]%lookup_delete_Some. by apply (c_group_keys s Hs).
  - intros i j r r' (r0 & Hi & E)%Hr (r0' & Hj & E')%Hr. rewrite E, E', !ungroup_workflow.
    rewrite (proj1 (ungroup_key _ _)), (proj1 (ungroup_key _ _)). exact (c_node_keys s Hs _ _ _ _ Hi Hj).
  - intros i j r r' (r0 & Hi & E)%Hr (r0' & Hj & E')%Hr. rewrite E, E', !ungroup_workflow.
    rewrite (proj2 (ungroup_key _ _)), (proj2 (ungroup_key _ _)). exact (c_start s Hs _ _ _ _ Hi Hj).
  - exact (c_transition_keys s Hs).
  - exact (c_edge_keys s Hs).
  - simpl. intros j v Hv H. apply lookup_delete_ne. intros <-. destruct H as [H|H]; [congruence|].
    apply group_workflow_Some in H as (r & H & _). simpl in H. by rewrite lookup_delete_eq in H.
  - intros j v Hv H. rewrite Hn in H. assert (node_workflow s j = Some v) as H' by tauto.
    apply node_workflow_Some in H' as ([n r] & Ej & Hr'). simpl. rewrite lookup_fmap, Ej. simpl. do 2 f_equal.
    apply ungroup_other. intros E. destruct (c_nodes s Hs _ _ Ej) as [_ Hgr]. specialize (Hgr _ E). simpl in Hr', Hgr. congruence.
  - intros j v Hv. destruct (decide (j = id)) as [-> |Hj]; [|by rewrite Hg in Hv].
    apply group_workflow_Some in Hv as (r & H & _). simpl in H. by rewrite lookup_delete_eq in H.
  - intros j v. by rewrite Hn.
  - intros j v. by rewrite Ht.
  - intros j v. by rewrite He.
  - unfold group_workflow. simpl. by rewrite lookup_delete_eq.
Qed.
End removals.
