(* ===== verification/GraphSaveFacts.v ===== *)
(** * What the write transaction does

    A transaction that succeeds leaves exactly the rows of the prepared graph
    in its workflow and every other workflow as it was. *)
From Stdlib Require Import ZArith String Lia.
From stdpp Require Import gmap strings list sorting.
From S2P Require Import Prelude Transactions GoStrings Types CurrentState GraphTables GraphSave GraphFacts.

Local Open Scope string_scope.

(** ** The stored graph of a workflow *)
Definition stored_graph (s : graph_db) (w : WorkflowID) : preparedWorkflowGraphSave :=
  prepared_rows w (ListWorkflowNodeGroups s w) (ListWorkflowNodes s w) (ListWorkflowTransitionGroups s w) (ListWorkflowEdges s w).

Section listings.
Context (s : graph_db) (w : WorkflowID).
Lemma elem_of_groups id r : (id, r) ∈ ListWorkflowNodeGroups s w ↔ (∃ n, gd_groups s !! id = Some (n, r)) ∧ g_WorkflowID r = w.
Proof.
  unfold ListWorkflowNodeGroups. rewrite elem_of_ordered. setoid_rewrite map_lookup_filter_Some. simpl. naive_solver.
Qed.
Lemma elem_of_nodes id r : (id, r) ∈ ListWorkflowNodes s w ↔ (∃ n, gd_nodes s !! id = Some (n, r)) ∧ n_WorkflowID r = w.
Proof. unfold ListWorkflowNodes. rewrite elem_of_ordered. setoid_rewrite map_lookup_filter_Some. simpl. naive_solver. Qed.
Lemma elem_of_transition_rows id r :
  (id, r) ∈ ListWorkflowTransitionGroups s w ↔ (∃ n, gd_transitions s !! id = Some (n, r)) ∧ transition_workflow s id = Some w.
Proof. unfold ListWorkflowTransitionGroups. rewrite elem_of_ordered. setoid_rewrite map_lookup_filter_Some. simpl. naive_solver. Qed.
Lemma elem_of_edges id r : (id, r) ∈ ListWorkflowEdges s w ↔ (∃ n, gd_edges s !! id = Some (n, r)) ∧ edge_workflow s id = Some w.
Proof. unfold ListWorkflowEdges. rewrite elem_of_ordered. setoid_rewrite map_lookup_filter_Some. simpl. naive_solver. Qed.

Lemma stored_group_ids id : id ∈ gr_ID <$> nodeGroups (stored_graph s w) ↔ group_workflow s id = Some w.
Proof.
  simpl. rewrite <- list_fmap_compose, list_elem_of_fmap, group_workflow_Some. split.
  - intros ([j r] & -> & [[n Hn] Hw]%elem_of_groups). eauto.
  - intros ([n r] & Hn & Hw). exists (id, r). split; [done|]. apply elem_of_groups. eauto.
Qed.
Lemma stored_node_ids id : id ∈ nr_ID <$> nodes (stored_graph s w) ↔ node_workflow s id = Some w.
Proof.
  simpl. rewrite <- list_fmap_compose, list_elem_of_fmap, node_workflow_Some. split.
  - intros ([j r] & -> & [[n Hn] Hw]%elem_of_nodes). eauto.
  - intros ([n r] & Hn & Hw). exists (id, r). split; [done|]. apply elem_of_nodes. eauto.
Qed.
Lemma stored_transition_ids id : id ∈ tr_ID <$> transitionGroups (stored_graph s w) ↔ transition_workflow s id = Some w.
Proof.
  simpl. rewrite <- list_fmap_compose, list_elem_of_fmap. split.
  - by intros ([j r] & -> & [_ Hw]%elem_of_transition_rows).
  - intros Hw. pose proof Hw as Hw'. apply transition_workflow_Some in Hw' as ([n r] & Hn & _).
    exists (id, r). split; [done|]. apply elem_of_transition_rows. eauto.
Qed.
Lemma stored_edge_ids id : id ∈ er_ID <$> edges (stored_graph s w) ↔ edge_workflow s id = Some w.
Proof.
  simpl. rewrite <- list_fmap_compose, list_elem_of_fmap. split.
  - by intros ([j r] & -> & [_ Hw]%elem_of_edges).
  - intros Hw. pose proof Hw as Hw'. apply edge_workflow_Some in Hw' as ([n r] & Hn & _).
    exists (id, r). split; [done|]. apply elem_of_edges. eauto.
Qed.
End listings.

(** Steps over a guard that a successful statement passed. *)
Ltac passed H E :=
  match type of H with (if ?b then _ else _) = _ => destruct b eqn:E end; [discriminate H|].

(** ** Statements *)
Section statements.
Context (faulty : nat → bool).
Local Abbreviation tx := (txn graph_db save_stop) (only parsing).
Implicit Types (s : graph_db).

Lemma post_expect (m : tx nat) s (Q : graph_db → Prop) :
  post m s (λ n s', n = 1%nat → Q s') → post (expectAffectedRowCount m) s (λ _, Q).
Proof.
  intros H. eapply post_bind; [exact H|]. intros n s' Hn. case_bool_decide as E; [by apply post_ret, Hn|apply post_fail].
Qed.
(** The guards a successful statement passed. *)
Lemma post_counted op f s : post (expectAffectedRowCount (attempt faulty op f)) s (λ _ s', f s = Some (1%nat, s')).
Proof. apply post_expect. eapply post_mono; [apply post_attempt|]. intros n s' H E. by rewrite E in H. Qed.

Lemma post_upsert_group g s : post (upsertWorkflowNodeGroup faulty g) s (λ _ s',
  s' = set_groups (put (gr_ID g) (group_row_of g) (gd_groups s)) s ∧
  (∀ v, group_workflow s (gr_ID g) = Some v → v = gr_WorkflowID g) ∧
  conflicts (λ r, (g_WorkflowID r, g_Key r)) (gr_ID g) (gr_WorkflowID g, gr_Key g) (gd_groups s) = false).
Proof.
  eapply post_mono; [apply post_counted|]. intros u s' H. simpl in H.
  passed H E1. passed H Eo. passed H Ec. injection H as <-. split_and!; [done| |done].
  intros v (r & Hr & Hv)%group_workflow_Some. rewrite Hr in Eo. bool_simp. by rewrite <- Hv.
Qed.

Lemma post_upsert_node n so s : post (upsertWorkflowNode faulty n so) s (λ _ s',
  s' = set_nodes (put (nr_ID n) (node_row_of n so) (gd_nodes s)) s ∧
  group_in_workflow s (node_row_of n so) = true ∧
  (∀ v, node_workflow s (nr_ID n) = Some v → v = nr_WorkflowID n) ∧
  node_unique (nr_ID n) (node_row_of n so) (gd_nodes s) = true).
Proof.
  unfold upsertWorkflowNode. destruct (validateNodeCompletionMode _ _); [apply post_fail|].
  eapply post_mono; [apply post_counted|]. intros u s' H. cbv beta in H.
  passed H E1. passed H Eo. passed H Ek. passed H Eu. clear Ek.
  injection H as <-. bool_simp. split_and!; [done|done| |done].
  intros v (r & Hr & Hv)%node_workflow_Some. rewrite Hr in Eo. bool_simp. by rewrite <- Hv.
Qed.

Lemma post_upsert_transition g so s : post (upsertWorkflowTransitionGroup faulty g so) s (λ _ s',
  s' = set_transitions (put (tr_ID g) (transition_row_of g so) (gd_transitions s)) s ∧
  node_workflow s (tr_SourceNodeID g) = Some (tr_WorkflowID g) ∧
  (∀ v, transition_workflow s (tr_ID g) = Some v → v = tr_WorkflowID g) ∧
  conflicts (λ t, (t_SourceNodeID t, t_TransitionID t)) (tr_ID g) (tr_SourceNodeID g, TrimSpace (tr_TransitionID g)) (gd_transitions s) = false).
Proof.
  eapply post_mono; [apply post_counted|]. intros u s' H. simpl in H.
  passed H Ew. passed H E1. passed H Eo. passed H Ec. injection H as <-. clear E1. bool_simp. split_and!; [done|done| |done].
  intros v (r & Hr & Hv)%transition_workflow_Some. rewrite Hr in Eo. bool_simp. congruence.
Qed.

Lemma post_upsert_edge e so s : post (upsertWorkflowEdge faulty e so) s (λ _ s',
  s' = set_edges (put (er_ID e) (edge_row_of e so) (gd_edges s)) s ∧
  transition_workflow s (er_TransitionGroupID e) = Some (er_WorkflowID e) ∧
  node_workflow s (er_TargetNodeID e) = Some (er_WorkflowID e) ∧
  (∀ v, edge_workflow s (er_ID e) = Some v → v = er_WorkflowID e) ∧
  conflicts (λ r, (ed_TransitionGroupID r, ed_Key r)) (er_ID e) (er_TransitionGroupID e, er_Key e) (gd_edges s) = false).
Proof.
  eapply post_mono; [apply post_counted|]. intros u s' H. simpl in H.
  passed H Ew. passed H E1. passed H Eo. passed H Ec. injection H as <-. clear E1. bool_simp. split_and!; [done|done|done| |done].
  intros v (r & Hr & Hv)%edge_workflow_Some. rewrite Hr in Eo. bool_simp. congruence.
Qed.

Lemma post_delete_edge id s : post (expectAffectedRowCount (DeleteWorkflowEdge faulty id)) s (λ _ s',
  s' = set_edges (delete id (gd_edges s)) s ∧ is_Some (gd_edges s !! id)).
Proof.
  eapply post_mono; [apply post_counted|]. intros u s' H. simpl in H. case_bool_decide; [|done]. by injection H as <-.
Qed.
Lemma post_delete_transition id s : post (expectAffectedRowCount (DeleteWorkflowTransitionGroupByID faulty id)) s (λ _ s',
  s' = drop_transition id s ∧ is_Some (gd_transitions s !! id)).
Proof.
  eapply post_mono; [apply post_counted|]. intros u s' H. simpl in H. case_bool_decide; [|done]. by injection H as <-.
Qed.
Lemma post_delete_node id s : post (expectAffectedRowCount (DeleteWorkflowNode faulty id)) s (λ _ s',
  s' = drop_node id s ∧ is_Some (gd_nodes s !! id)).
Proof.
  eapply post_mono; [apply post_counted|]. intros u s' H. simpl in H. case_bool_decide; [|done].
  destruct (_ || _); [done|]. by injection H as <-.
Qed.
Lemma post_delete_group id w s : post (expectAffectedRowCount (DeleteWorkflowNodeGroup faulty id w)) s (λ _ s',
  s' = drop_group id s ∧ group_workflow s id = Some w).
Proof.
  eapply post_mono; [apply post_counted|]. intros u s' H. simpl in H.
  destruct (gd_groups s !! id) as [r|] eqn:Er; [|done]. case_bool_decide as E; [|done]. injection H as <-.
  split; [done|]. apply group_workflow_Some. eauto.
Qed.

(** ** Loops *)
Lemma post_each {A} (f : A → tx unit) l s (I : list A → graph_db → Prop) :
  I [] s → (∀ before a after st, l = (before ++ a :: after)%list → I before st → post (f a) st (λ _ st', I (before ++ [a])%list st')) →
  post (each f l) s (λ _ st, I l st).
Proof.
  intros H0 Hf.
  assert (∀ after before st, l = (before ++ after)%list → I before st → post (each f after) st (λ _ st, I l st)) as H.
  { induction after as [|a after IH]; intros before st E Hb.
    - simpl. apply post_ret. by rewrite E, app_nil_r.
    - simpl. eapply post_bind; [by eapply Hf|]. intros u st' H'. apply (IH (before ++ [a])%list); [|done].
      by rewrite <- app_assoc. }
  by apply (H l []).
Qed.
End statements.

(** ** Moving keys away and removing rows *)
Section clearing.
Context (faulty : nat → bool) (newUUID : WorkflowGraphEntityType → string → string).
Context (w : WorkflowID) (s0 : graph_db) (Hw : is_Some (gd_workflows s0 !! w)).
Local Abbreviation current := (stored_graph s0 w).

(** Consistent, the same outside the workflow, and with no new row in it. *)
Record within (st : graph_db) : Prop := {
  wn_consistent : consistent st;
  wn_frame : frame w s0 st;
  wn_workflows : gd_workflows st = gd_workflows s0;
  wn_groups : ∀ id, group_workflow st id = Some w → group_workflow s0 id = Some w;
  wn_nodes : ∀ id, node_workflow st id = Some w → node_workflow s0 id = Some w;
  wn_transitions : ∀ id, transition_workflow st id = Some w → transition_workflow s0 id = Some w;
  wn_edges : ∀ id, edge_workflow st id = Some w → edge_workflow s0 id = Some w }.

Lemma within_shrinks st st' : within st → consistent st' → frame w st st' → gd_workflows st' = gd_workflows st → shrinks st st' → within st'.
Proof.
  intros [H1 H2 H3 H4 H5 H6 H7] Hc Hf Hws [G1 G2 G3 G4]. split; eauto; [by transitivity st|congruence].
Qed.

Lemma stage_group g key st : g ∈ nodeGroups current → within st →
  post (upsertWorkflowNodeGroup faulty (set_group_key key g)) st (λ _, within).
Proof.
  intros Hg Hst. eapply post_mono; [apply post_upsert_group|]. intros u st' (-> & Hold & Hk). simpl in *.
  assert (gr_WorkflowID g = w) as Eg.
  { apply list_elem_of_fmap in Hg as ([id r] & -> & [_ ?]%elem_of_groups). done. }
  assert (group_workflow s0 (gr_ID g) = Some w) as Hid by by apply stored_group_ids, list_elem_of_fmap_2.
  destruct Hst as [H1 H2 H3 H4 H5 H6 H7].
  destruct (put_group_ok st H1 (gr_ID g) (group_row_of (set_group_key key g))) as [Hc Hf]; simpl; [by rewrite H3, Eg|done|done|].
  simpl in Hf. rewrite Eg in Hf. split; try done; [by transitivity st|].
  intros j. rewrite group_workflow_put. case_decide; [by subst|auto].
Qed.

Lemma stage_node n key so st : n ∈ nodes current → within st →
  post (upsertWorkflowNode faulty (set_node_key key n) so) st (λ _, within).
Proof.
  intros Hn Hst. eapply post_mono; [apply post_upsert_node|]. intros u st' (-> & Hgr & Hold & Hk). simpl in *.
  assert (nr_WorkflowID n = w) as En.
  { apply list_elem_of_fmap in Hn as ([id r] & -> & [_ ?]%elem_of_nodes). done. }
  assert (node_workflow s0 (nr_ID n) = Some w) as Hid by by apply stored_node_ids, list_elem_of_fmap_2.
  destruct Hst as [H1 H2 H3 H4 H5 H6 H7].
  destruct (put_node_ok st H1 (nr_ID n) (node_row_of (set_node_key key n) so)) as [Hc Hf]; simpl; [by rewrite H3, En|done..|].
  simpl in Hf. rewrite En in Hf. split; try done; [by transitivity st| | |].
  - intros j. rewrite node_workflow_put. case_decide; [by subst|auto].
  - intros j. rewrite transition_workflow_node by done. auto.
  - intros j. rewrite edge_workflow_node by done. auto.
Qed.

Lemma stage_transition g key so st : g ∈ transitionGroups current → within st →
  post (upsertWorkflowTransitionGroup faulty (set_transition_key key g) so) st (λ _, within).
Proof.
  intros Hg Hst. eapply post_mono; [apply post_upsert_transition|]. intros u st' (-> & Hsrc & Hold & Hk). simpl in *.
  assert (tr_WorkflowID g = w) as Eg by by apply list_elem_of_fmap in Hg as ([id r] & -> & _).
  assert (transition_workflow s0 (tr_ID g) = Some w) as Hid by by apply stored_transition_ids, list_elem_of_fmap_2.
  rewrite Eg in *. destruct Hst as [H1 H2 H3 H4 H5 H6 H7].
  destruct (put_transition_ok st H1 (tr_ID g) (transition_row_of (set_transition_key key g) so) w) as [Hc Hf]; simpl; [done..|].
  split; try done; [by transitivity st| |].
  - intros j. rewrite transition_workflow_put. case_decide; [by subst|auto].
  - intros j. rewrite edge_workflow_transition; [auto|done|]. intros v Hv. by rewrite (Hold v Hv).
Qed.

Lemma stage_edge e key so st : e ∈ edges current → within st →
  post (upsertWorkflowEdge faulty (set_edge_key key e) so) st (λ _, within).
Proof.
  intros He Hst. eapply post_mono; [apply post_upsert_edge|]. intros u st' (-> & Hgr & Htg & Hold & Hk). simpl in *.
  assert (er_WorkflowID e = w) as Ee by by apply list_elem_of_fmap in He as ([id r] & -> & _).
  assert (edge_workflow s0 (er_ID e) = Some w) as Hid by by apply stored_edge_ids, list_elem_of_fmap_2.
  rewrite Ee in *. destruct Hst as [H1 H2 H3 H4 H5 H6 H7].
  destruct (put_edge_ok st H1 (er_ID e) (edge_row_of (set_edge_key key e) so) w) as [Hc Hf]; simpl; [done..|].
  split; try done; [by transitivity st|]. intros j. rewrite edge_workflow_put. case_decide; [by subst|auto].
Qed.

Lemma post_stage : consistent s0 → post (stageWorkflowGraphSaveKeyChanges faulty newUUID current) s0 (λ _, within).
Proof.
  intros Hs0. assert (within s0) as H0 by by split.
  unfold stageWorkflowGraphSaveKeyChanges.
  eapply post_bind; [apply (post_each _ _ _ (λ _, within)); [exact H0|]|].
  { intros before a after st El Hst. apply stage_group; [rewrite El; set_solver|done]. }
  intros [] s1 H1. eapply post_bind; [apply (post_each _ _ _ (λ _, within)); [exact H1|]|].
  { intros before a after st El Hst. apply stage_node; [rewrite El; set_solver|done]. }
  intros [] s2 H2. eapply post_bind; [apply (post_each _ _ _ (λ _, within)); [exact H2|]|].
  { intros before a after st El Hst. apply stage_transition; [rewrite El; set_solver|done]. }
  intros [] s3 H3. eapply (post_each _ _ _ (λ _, within)); [exact H3|].
  intros before a after st El Hst. apply stage_edge; [rewrite El; set_solver|done].
Qed.

Lemma clear_edge id st : edge_workflow s0 id = Some w → within st →
  post (expectAffectedRowCount (DeleteWorkflowEdge faulty id)) st (λ _ st', within st' ∧ shrinks st st' ∧ edge_workflow st' id ≠ Some w).
Proof.
  intros Hid Hst. eapply post_mono; [apply post_delete_edge|]. intros u st' (-> & [r Hr]).
  destruct (c_edges st (wn_consistent _ Hst) id r Hr) as (v & Hv & _).
  assert (edge_workflow st id = Some v) as Hv' by (apply edge_workflow_Some; eauto).
  rewrite (frame_owned_edge w s0 st id v (wn_frame _ Hst) Hid Hv') in Hv'.
  destruct (delete_edge_ok st (wn_consistent _ Hst) w id Hv') as (Hc & Hf & Hsh & Hnone).
  split_and!; [by eapply within_shrinks|done|by rewrite Hnone].
Qed.
Lemma clear_transition id st : transition_workflow s0 id = Some w → within st →
  post (expectAffectedRowCount (DeleteWorkflowTransitionGroupByID faulty id)) st
    (λ _ st', within st' ∧ shrinks st st' ∧ transition_workflow st' id ≠ Some w).
Proof.
  intros Hid Hst. eapply post_mono; [apply post_delete_transition|]. intros u st' (-> & [r Hr]).
  destruct (c_transitions st (wn_consistent _ Hst) id r Hr) as [v Hv].
  assert (transition_workflow st id = Some v) as Hv' by (apply transition_workflow_Some; eauto).
  rewrite (frame_owned_transition w s0 st id v (wn_frame _ Hst) Hid Hv') in Hv'.
  destruct (drop_transition_ok st (wn_consistent _ Hst) w id Hv') as (Hc & Hf & Hsh & Hnone).
  split_and!; [by eapply within_shrinks|done|by rewrite Hnone].
Qed.
Lemma clear_node id st : node_workflow s0 id = Some w → within st →
  post (expectAffectedRowCount (DeleteWorkflowNode faulty id)) st (λ _ st', within st' ∧ shrinks st st' ∧ node_workflow st' id ≠ Some w).
Proof.
  intros Hid Hst. eapply post_mono; [apply post_delete_node|]. intros u st' (-> & [r Hr]).
  assert (node_workflow st id = Some (n_WorkflowID r.2)) as Hv' by (apply node_workflow_Some; eauto).
  rewrite (frame_owned_node w s0 st id _ (wn_frame _ Hst) Hid Hv') in Hv'.
  destruct (drop_node_ok st (wn_consistent _ Hst) w id Hv') as (Hc & Hf & Hsh & Hnone).
  split_and!; [by eapply within_shrinks|done|by rewrite Hnone].
Qed.
Lemma clear_group id st : within st →
  post (expectAffectedRowCount (DeleteWorkflowNodeGroup faulty id w)) st (λ _ st', within st' ∧ shrinks st st' ∧ group_workflow st' id ≠ Some w).
Proof.
  intros Hst. eapply post_mono; [apply post_delete_group|]. intros u st' (-> & Hid).
  destruct (drop_group_ok st (wn_consistent _ Hst) w id Hid) as (Hc & Hf & Hsh & Hnone).
  split_and!; [by eapply within_shrinks|done|by rewrite Hnone].
Qed.

(** A loop of deletions: no row appears and the rows of the loop are gone. *)
Lemma post_delete_each (f : string → txn graph_db save_stop unit) (gone : graph_db → string → Prop) l s :
  (∀ st st' id, shrinks st st' → gone st id → gone st' id) →
  (∀ id st, id ∈ l → within st → post (f id) st (λ _ st', within st' ∧ shrinks st st' ∧ gone st' id)) →
  within s → post (each f l) s (λ _ st, within st ∧ shrinks s st ∧ ∀ id, id ∈ l → gone st id).
Proof.
  intros Hmono Hf Hs.
  apply (post_each f l s (λ before st, within st ∧ shrinks s st ∧ ∀ id, id ∈ before → gone st id)).
  { split_and!; [done|done|]. by intros id ?%elem_of_nil. }
  intros before a after st El (Hst & Hsh & Hgone).
  eapply post_mono; [apply Hf; [rewrite El; set_solver|done]|]. intros u st' (Hst' & Hsh' & Ha).
  split_and!; [done|by transitivity st|]. intros id [Hid| ->%list_elem_of_singleton]%elem_of_app; [|done].
  by eapply Hmono, Hgone.
Qed.

(** After the removals the rows of the workflow are those that stay. *)
Record cleared (prepared : preparedWorkflowGraphSave) (st : graph_db) : Prop := {
  cl_within : within st;
  cl_groups : ∀ id, group_workflow st id = Some w → id ∈ gr_ID <$> nodeGroups prepared;
  cl_nodes : ∀ id, node_workflow st id = Some w → id ∈ nr_ID <$> nodes prepared;
  cl_transitions : ∀ id, transition_workflow st id = Some w → id ∈ tr_ID <$> transitionGroups prepared;
  cl_edges : ∀ id, edge_workflow st id = Some w → id ∈ er_ID <$> edges prepared }.
Lemma cleared_intro prepared s2 s3 s4 s5 : let removed := sd_Removed (describeWorkflowGraphSave current prepared) in
  (∀ id, id ∈ rm_edges removed → edge_workflow s2 id ≠ Some w) → shrinks s2 s3 →
  (∀ id, id ∈ rm_transitionGroups removed → transition_workflow s3 id ≠ Some w) → shrinks s3 s4 →
  (∀ id, id ∈ rm_nodes removed → node_workflow s4 id ≠ Some w) → shrinks s4 s5 →
  (∀ id, id ∈ rm_nodeGroups removed → group_workflow s5 id ≠ Some w) → within s5 → cleared prepared s5.
Proof.
  intros removed Hg2 Hsh3 Hg3 Hsh4 Hg4 Hsh5 Hg5 H5. split; [done|..]; intros id Hid; apply dec_stable; intros Hn.
  - eapply (Hg5 id); [|done]. apply list_elem_of_filter. split; [done|]. by apply stored_group_ids, (wn_groups _ H5).
  - eapply (Hg4 id); [|by apply (sk_nodes _ _ Hsh5)].
    apply list_elem_of_filter. split; [done|]. by apply stored_node_ids, (wn_nodes _ H5).
  - eapply (Hg3 id); [|by apply (sk_transitions _ _ Hsh4), (sk_transitions _ _ Hsh5)].
    apply list_elem_of_filter. split; [done|]. by apply stored_transition_ids, (wn_transitions _ H5).
  - eapply (Hg2 id); [|by apply (sk_edges _ _ Hsh3), (sk_edges _ _ Hsh4), (sk_edges _ _ Hsh5)].
    apply list_elem_of_filter. split; [done|]. by apply stored_edge_ids, (wn_edges _ H5).
Qed.
Lemma post_clear prepared (k : txn graph_db save_stop unit) Q : consistent s0 →
  let removed := sd_Removed (describeWorkflowGraphSave current prepared) in
  (∀ st, cleared prepared st → post k st Q) →
  post (_ ← stageWorkflowGraphSaveKeyChanges faulty newUUID current;
        _ ← each (λ id, expectAffectedRowCount (DeleteWorkflowEdge faulty id)) (rm_edges removed);
        _ ← each (λ id, expectAffectedRowCount (DeleteWorkflowTransitionGroupByID faulty id)) (rm_transitionGroups removed);
        _ ← each (λ id, expectAffectedRowCount (DeleteWorkflowNode faulty id)) (rm_nodes removed);
        _ ← each (λ id, expectAffectedRowCount (DeleteWorkflowNodeGroup faulty id w)) (rm_nodeGroups removed); k) s0 Q.
Proof.
  intros Hs0 removed Hk. eapply post_bind; [by apply post_stage|]. intros [] s1 H1.
  eapply post_bind; [apply (post_delete_each _ (λ st id, edge_workflow st id ≠ Some w)); [| |exact H1]|].
  { intros st st' id Hsh Hg Hid. by apply Hg, (sk_edges _ _ Hsh). }
  { intros id st [_ Hid%stored_edge_ids]%list_elem_of_filter. by apply clear_edge. }
  intros [] s2 (H2 & Hsh2 & Hg2).
  eapply post_bind; [apply (post_delete_each _ (λ st id, transition_workflow st id ≠ Some w)); [| |exact H2]|].
  { intros st st' id Hsh Hg Hid. by apply Hg, (sk_transitions _ _ Hsh). }
  { intros id st [_ Hid%stored_transition_ids]%list_elem_of_filter. by apply clear_transition. }
  intros [] s3 (H3 & Hsh3 & Hg3).
  eapply post_bind; [apply (post_delete_each _ (λ st id, node_workflow st id ≠ Some w)); [| |exact H3]|].
  { intros st st' id Hsh Hg Hid. by apply Hg, (sk_nodes _ _ Hsh). }
  { intros id st [_ Hid%stored_node_ids]%list_elem_of_filter. by apply clear_node. }
  intros [] s4 (H4 & Hsh4 & Hg4).
  eapply post_bind; [apply (post_delete_each _ (λ st id, group_workflow st id ≠ Some w)); [| |exact H4]|].
  { intros st st' id Hsh Hg Hid. by apply Hg, (sk_groups _ _ Hsh). }
  { intros id st _. by apply clear_group. }
  intros [] s5 (H5 & Hsh5 & Hg5). by eapply Hk, (cleared_intro prepared s2 s3 s4 s5).
Qed.
End clearing.

(** ** Writing the prepared graph *)
Definition holds {R} (t : table R) (l : list (string * R)) : Prop := ∀ id r, (id, r) ∈ l → ∃ n, t !! id = Some (n, r).
Lemma holds_put {R} (t : table R) l id r : holds t l → id ∉ l.*1 → holds (put id r t) (l ++ [(id, r)])%list.
Proof.
  intros H Hid j row [Hj|[= -> ->]%list_elem_of_singleton]%elem_of_app; [|apply lookup_put_eq].
  rewrite lookup_put_ne; [by apply H|]. intros ->. apply Hid. by apply (list_elem_of_fmap_2 fst) in Hj.
Qed.

Definition group_rows (p : preparedWorkflowGraphSave) := (λ g, (gr_ID g, group_row_of g)) <$> nodeGroups p.
Definition node_rows (p : preparedWorkflowGraphSave) := imap (λ i n, (nr_ID n, node_row_of n (position i))) (nodes p).
Definition transition_rows (p : preparedWorkflowGraphSave) := imap (λ i g, (tr_ID g, transition_row_of g (position i))) (transitionGroups p).
Definition edge_rows (p : preparedWorkflowGraphSave) := imap (λ i e, (er_ID e, edge_row_of e (position i))) (edges p).

(** A graph of the workflow with unique identifiers. *)
Record identified (w : WorkflowID) (p : preparedWorkflowGraphSave) : Prop := {
  id_ids : NoDup (gr_ID <$> nodeGroups p) ∧ NoDup (nr_ID <$> nodes p) ∧ NoDup (tr_ID <$> transitionGroups p) ∧ NoDup (er_ID <$> edges p);
  id_groups : ∀ g, g ∈ nodeGroups p → gr_WorkflowID g = w;
  id_nodes : ∀ n, n ∈ nodes p → nr_WorkflowID n = w;
  id_transitions : ∀ g, g ∈ transitionGroups p → tr_WorkflowID g = w;
  id_edges : ∀ e, e ∈ edges p → er_WorkflowID e = w;
  id_positions : ∀ i g, nodeGroups p !! i = Some g → gr_SortOrder g = position i }.

(** The position of a loop in a list without repeated identifiers. *)
Lemma not_before {A} (f : A → string) (l before after : list A) a :
  l = (before ++ a :: after)%list → NoDup (f <$> l) → f a ∉ f <$> before.
Proof. intros -> H Hin. rewrite fmap_app, fmap_cons, NoDup_app in H. destruct H as (_ & H & _). apply (H _ Hin). by left. Qed.

Section building.
Context (faulty : nat → bool) (w : WorkflowID) (s0 : graph_db) (Hw : is_Some (gd_workflows s0 !! w)).
Context (p : preparedWorkflowGraphSave) (Hp : identified w p).

Record building (st : graph_db) : Prop := {
  bu_consistent : consistent st;
  bu_frame : frame w s0 st;
  bu_workflows : gd_workflows st = gd_workflows s0;
  bu_groups : ∀ id, group_workflow st id = Some w → id ∈ gr_ID <$> nodeGroups p;
  bu_nodes : ∀ id, node_workflow st id = Some w → id ∈ nr_ID <$> nodes p;
  bu_transitions : ∀ id, transition_workflow st id = Some w → id ∈ tr_ID <$> transitionGroups p;
  bu_edges : ∀ id, edge_workflow st id = Some w → id ∈ er_ID <$> edges p }.

Lemma build_group g st : g ∈ nodeGroups p → building st → post (upsertWorkflowNodeGroup faulty g) st (λ _ st',
  building st' ∧ st' = set_groups (put (gr_ID g) (group_row_of g) (gd_groups st)) st).
Proof.
  intros Hg Hst. eapply post_mono; [apply post_upsert_group|]. intros u st' (-> & Hold & Hk). split; [|done].
  pose proof (id_groups w p Hp g Hg) as Eg. destruct Hst as [H1 H2 H3 H4 H5 H6 H7].
  destruct (put_group_ok st H1 (gr_ID g) (group_row_of g)) as [Hc Hf]; simpl; [by rewrite H3, Eg|done|done|].
  simpl in Hf. rewrite Eg in Hf. split; try done; [by transitivity st|].
  intros j. rewrite group_workflow_put. case_decide; [subst; intros _; by apply list_elem_of_fmap_2|auto].
Qed.
Lemma build_node n so st : n ∈ nodes p → building st → post (upsertWorkflowNode faulty n so) st (λ _ st',
  building st' ∧ st' = set_nodes (put (nr_ID n) (node_row_of n so) (gd_nodes st)) st).
Proof.
  intros Hn Hst. eapply post_mono; [apply post_upsert_node|]. intros u st' (-> & Hgr & Hold & Hk). split; [|done].
  pose proof (id_nodes w p Hp n Hn) as En. destruct Hst as [H1 H2 H3 H4 H5 H6 H7].
  destruct (put_node_ok st H1 (nr_ID n) (node_row_of n so)) as [Hc Hf]; simpl; [by rewrite H3, En|done..|].
  simpl in Hf. rewrite En in Hf. split; try done; [by transitivity st| | |].
  - intros j. rewrite node_workflow_put. case_decide; [subst; intros _; by apply list_elem_of_fmap_2|auto].
  - intros j. rewrite transition_workflow_node by done. auto.
  - intros j. rewrite edge_workflow_node by done. auto.
Qed.
Lemma build_transition g so st : g ∈ transitionGroups p → building st → post (upsertWorkflowTransitionGroup faulty g so) st (λ _ st',
  building st' ∧ st' = set_transitions (put (tr_ID g) (transition_row_of g so) (gd_transitions st)) st ∧
  node_workflow st (tr_SourceNodeID g) = Some w).
Proof.
  intros Hg Hst. eapply post_mono; [apply post_upsert_transition|]. intros u st' (-> & Hsrc & Hold & Hk).
  pose proof (id_transitions w p Hp g Hg) as Eg. rewrite Eg in *. split; [|done]. destruct Hst as [H1 H2 H3 H4 H5 H6 H7].
  destruct (put_transition_ok st H1 (tr_ID g) (transition_row_of g so) w) as [Hc Hf]; simpl; [done..|].
  split; try done; [by transitivity st| |].
  - intros j. rewrite transition_workflow_put. case_decide; [subst; intros _; by apply list_elem_of_fmap_2|auto].
  - intros j. rewrite edge_workflow_transition; [auto|done|]. intros v Hv. by rewrite (Hold v Hv).
Qed.
Lemma build_edge e so st : e ∈ edges p → building st → post (upsertWorkflowEdge faulty e so) st (λ _ st',
  building st' ∧ st' = set_edges (put (er_ID e) (edge_row_of e so) (gd_edges st)) st ∧
  transition_workflow st (er_TransitionGroupID e) = Some w ∧ node_workflow st (er_TargetNodeID e) = Some w).
Proof.
  intros He Hst. eapply post_mono; [apply post_upsert_edge|]. intros u st' (-> & Hgr & Htg & Hold & Hk).
  pose proof (id_edges w p Hp e He) as Ee. rewrite Ee in *. split; [|done]. destruct Hst as [H1 H2 H3 H4 H5 H6 H7].
  destruct (put_edge_ok st H1 (er_ID e) (edge_row_of e so) w) as [Hc Hf]; simpl; [done..|].
  split; try done; [by transitivity st|].
  intros j. rewrite edge_workflow_put. case_decide; [subst; intros _; by apply list_elem_of_fmap_2|auto].
Qed.

(** The four loops. *)
Lemma build_groups st : building st → post (each (upsertWorkflowNodeGroup faulty) (nodeGroups p)) st (λ _ st',
  building st' ∧ holds (gd_groups st') (group_rows p)).
Proof.
  intros Hst. unfold group_rows.
  apply (post_each _ _ _ (λ before st', building st' ∧ holds (gd_groups st') ((λ g, (gr_ID g, group_row_of g)) <$> before))).
  { split; [done|]. by intros id r ?%elem_of_nil. }
  intros before g after st1 El (Hb & Hh). eapply post_mono; [apply build_group; [rewrite El; set_solver|done]|].
  intros u st2 (Hb' & ->). split; [done|]. rewrite fmap_app. simpl. apply holds_put; [done|].
  rewrite <- list_fmap_compose. eapply not_before; [done|apply Hp].
Qed.

(** A loop over the positions of a list without repeated identifiers that
    writes the row of each entry and checks a condition of it. *)
Lemma post_each_at {A R} (f : A → Z → txn graph_db save_stop unit) (key : A → string) (row : A → Z → R) (tab : graph_db → table R)
    (K : A → Prop) l s (J : graph_db → Prop) :
  NoDup (key <$> l) → J s →
  (∀ a so st, a ∈ l → J st → post (f a so) st (λ _ st', J st' ∧ K a ∧ tab st' = put (key a) (row a so) (tab st))) →
  post (each_at f l) s (λ _ st, J st ∧ (∀ a, a ∈ l → K a) ∧ holds (tab st) (imap (λ i a, (key a, row a (position i))) l)).
Proof.
  intros Hnd H0 Hf. eapply post_mono; [apply (post_each _ _ _ (λ before st', J st' ∧ (∀ x, x ∈ before → K x.2) ∧
    holds (tab st') ((λ x : nat * A, (key x.2, row x.2 (position x.1))) <$> before)))|].
  { split_and!; [done|by intros x ?%elem_of_nil|]. by intros id r ?%elem_of_nil. }
  - intros before [i a] after st1 El (Hb & HK & Hh).
    assert (a ∈ l) as Ha.
    { assert ((i, a) ∈ imap pair l) as (j & n' & [= -> ->] & Hj)%elem_of_lookup_imap by (rewrite El; set_solver).
      by eapply list_elem_of_lookup_2. }
    eapply post_mono; [by apply Hf|]. intros u st2 (Hb' & Ka & ->). split_and!; [done|set_solver|].
    rewrite fmap_app. simpl. apply holds_put; [done|]. rewrite <- list_fmap_compose.
    apply (not_before (λ x : nat * A, key x.2) _ _ _ (i, a) El). rewrite fmap_imap. unfold compose. simpl.
    by rewrite (imap_const key).
  - intros u st' (Hb & HK & Hh). split_and!; [done| |by rewrite fmap_imap in Hh].
    intros a (i & Hi)%list_elem_of_lookup_1. apply (HK (i, a)). apply elem_of_lookup_imap. eauto.
Qed.

Lemma build_nodes st : building st → post (each_at (upsertWorkflowNode faulty) (nodes p)) st (λ _ st',
  building st' ∧ gd_groups st' = gd_groups st ∧ holds (gd_nodes st') (node_rows p)).
Proof.
  intros Hst. eapply post_mono; [apply (post_each_at _ nr_ID node_row_of gd_nodes (λ _, True) _ _ (λ st', building st' ∧ gd_groups st' = gd_groups st));
    [apply Hp|done|]|].
  { intros n so st1 Hn (Hb & Hg). eapply post_mono; [by apply build_node|]. by intros u st2 (Hb' & ->). }
  intros u st' ([H1 H2] & _ & H3). done.
Qed.

Lemma build_transitions st : building st → post (each_at (upsertWorkflowTransitionGroup faulty) (transitionGroups p)) st (λ _ st',
  building st' ∧ gd_groups st' = gd_groups st ∧ gd_nodes st' = gd_nodes st ∧ holds (gd_transitions st') (transition_rows p) ∧
  ∀ g, g ∈ transitionGroups p → node_workflow st' (tr_SourceNodeID g) = Some w).
Proof.
  intros Hst. eapply post_mono; [apply (post_each_at _ tr_ID transition_row_of gd_transitions (λ g, node_workflow st (tr_SourceNodeID g) = Some w) _ _
    (λ st', building st' ∧ gd_groups st' = gd_groups st ∧ gd_nodes st' = gd_nodes st)); [apply Hp|done|]|].
  { intros g so st1 Hg (Hb & Hgr & Hn). eapply post_mono; [by apply build_transition|]. intros u st2 (Hb' & -> & Hsrc).
    split_and!; try done. unfold node_workflow. by rewrite <- Hn. }
  intros u st' ((H1 & H2 & H3) & H4 & H5). split_and!; try done. intros g Hg. unfold node_workflow. rewrite H3. by apply H4.
Qed.
Lemma build_edges st : building st → post (each_at (upsertWorkflowEdge faulty) (edges p)) st (λ _ st',
  building st' ∧ gd_groups st' = gd_groups st ∧ gd_nodes st' = gd_nodes st ∧ gd_transitions st' = gd_transitions st ∧
  holds (gd_edges st') (edge_rows p) ∧ ∀ e, e ∈ edges p → transition_workflow st' (er_TransitionGroupID e) = Some w).
Proof.
  intros Hst. eapply post_mono; [apply (post_each_at _ er_ID edge_row_of gd_edges (λ e, transition_workflow st (er_TransitionGroupID e) = Some w) _ _
    (λ st', building st' ∧ gd_groups st' = gd_groups st ∧ gd_nodes st' = gd_nodes st ∧ gd_transitions st' = gd_transitions st));
    [apply Hp|done|]|].
  { intros e so st1 He (Hb & Hgr & Hn & Ht). eapply post_mono; [by apply build_edge|]. intros u st2 (Hb' & -> & Hg & _).
    split_and!; try done. unfold transition_workflow, node_workflow. by rewrite <- Hn, <- Ht. }
  intros u st' ((H1 & H2 & H3 & H4) & H5 & H6). split_and!; try done. intros e He.
  unfold transition_workflow, node_workflow. rewrite H3, H4. by apply H5.
Qed.

(** The rows of the workflow are those of the prepared graph. *)
Record written (st : graph_db) : Prop := {
  wt_building : building st;
  wt_groups : ListWorkflowNodeGroups st w = group_rows p;
  wt_nodes : ListWorkflowNodes st w = node_rows p;
  wt_transitions : ListWorkflowTransitionGroups st w = transition_rows p;
  wt_edges : ListWorkflowEdges st w = edge_rows p }.

Lemma positions_sorted {R} (sort : R → Z) (l : list (string * R)) :
  (∀ i a, l !! i = Some a → sort a.2 = position i) → StronglySorted (λ a b, (sort a.2 < sort b.2)%Z) l.
Proof.
  intros Hsort.
  assert (∀ k, (∀ i a, l !! i = Some a → sort a.2 = position (k + i)) → StronglySorted (λ a b : string * R, (sort a.2 < sort b.2)%Z) l) as H.
  { clear Hsort. induction l as [|a l IH]; intros k Hk; constructor.
    - apply (IH (S k)). intros i b Hi. rewrite (Hk (S i) b Hi). f_equal. lia.
    - apply Forall_forall. intros b (i & Hi)%list_elem_of_lookup_1. rewrite (Hk 0%nat a), (Hk (S i) b) by done. unfold position. lia. }
  exact (H 0%nat Hsort).
Qed.

(** A listing of the rows of the workflow that hold a prepared list, with no
    other identifier. *)
Lemma listing_rows {R} (sort : R → Z) (t all : table R) (l : list (string * R)) :
  NoDup l.*1 → StronglySorted (λ a b, (sort a.2 < sort b.2)%Z) l → (∀ id r, t !! id = Some r → all !! id = Some r) →
  holds all l → (∀ id, is_Some (t !! id) ↔ id ∈ l.*1) → ordered sort t = l.
Proof.
  intros Hnd Hsorted Hsub Hh Hids. apply ordered_unique; [done| |done]. intros id r. split.
  - intros [n Hn].
    assert (id ∈ l.*1) as ([id' r'] & -> & Hr)%list_elem_of_fmap by (apply Hids; by eexists).
    destruct (Hh _ _ Hr) as [n' Hn']. apply Hsub in Hn. simpl in *. congruence.
  - intros Hr. assert (is_Some (t !! id)) as [[n r'] Hn] by (apply Hids, list_elem_of_fmap; by exists (id, r)).
    destruct (Hh _ _ Hr) as [n' Hn']. pose proof (Hsub _ _ Hn). exists n. congruence.
Qed.

Lemma group_rows_ids : (group_rows p).*1 = gr_ID <$> nodeGroups p.
Proof. unfold group_rows. by rewrite <- list_fmap_compose. Qed.
Lemma imap_ids {A R} (key : A → string) (row : A → Z → R) l : (imap (λ i a, (key a, row a (position i))) l).*1 = key <$> l.
Proof. rewrite fmap_imap. unfold compose. simpl. apply (imap_const key). Qed.
Lemma imap_sorted {A R} (key : A → string) (row : A → Z → R) sort l : (∀ a so, sort (row a so) = so) →
  StronglySorted (λ a b, (sort a.2 < sort b.2)%Z) (imap (λ i a, (key a, row a (position i))) l).
Proof. intros H. apply positions_sorted. intros i a. rewrite list_lookup_imap. intros (x & _ & ->)%fmap_Some. apply H. Qed.

(** The tables after the four loops. *)
Lemma built st : building st →
  holds (gd_groups st) (group_rows p) → holds (gd_nodes st) (node_rows p) →
  holds (gd_transitions st) (transition_rows p) → holds (gd_edges st) (edge_rows p) →
  (∀ g, g ∈ transitionGroups p → node_workflow st (tr_SourceNodeID g) = Some w) →
  (∀ e, e ∈ edges p → transition_workflow st (er_TransitionGroupID e) = Some w) → written st.
Proof.
  intros Hb Hg Hn Ht He Htw Hew. destruct (id_ids w p Hp) as (D1 & D2 & D3 & D4). split; [done|..].
  - apply (listing_rows _ _ (gd_groups st)); [by rewrite group_rows_ids| | |done|].
    + apply positions_sorted. intros i a. unfold group_rows. rewrite list_lookup_fmap. intros (g & Hi & ->)%fmap_Some.
      by apply (id_positions w p Hp).
    + by intros id r [? _]%map_lookup_filter_Some.
    + intros id. rewrite group_rows_ids. split.
      * intros [r [Hr Hrw]%map_lookup_filter_Some]. apply (bu_groups _ Hb), group_workflow_Some. eauto.
      * intros (g & -> & Hgp)%list_elem_of_fmap. destruct (Hg (gr_ID g) (group_row_of g)) as [n Hrow].
        { apply list_elem_of_fmap. eauto. }
        eexists. apply map_lookup_filter_Some. split; [done|]. by apply (id_groups w p Hp).
  - apply (listing_rows _ _ (gd_nodes st)); [unfold node_rows; by rewrite imap_ids|by apply imap_sorted| |done|].
    + by intros id r [? _]%map_lookup_filter_Some.
    + intros id. unfold node_rows. rewrite imap_ids. split.
      * intros [r [Hr Hrw]%map_lookup_filter_Some]. apply (bu_nodes _ Hb), node_workflow_Some. eauto.
      * intros (n & -> & Hnp)%list_elem_of_fmap. pose proof Hnp as (i & Hi)%list_elem_of_lookup_1.
        destruct (Hn (nr_ID n) (node_row_of n (position i))) as [k Hrow]; [apply elem_of_lookup_imap; eauto|].
        eexists. apply map_lookup_filter_Some. split; [done|]. by apply (id_nodes w p Hp).
  - apply (listing_rows _ _ (gd_transitions st)); [unfold transition_rows; by rewrite imap_ids|by apply imap_sorted| |done|].
    + by intros id r [? _]%map_lookup_filter_Some.
    + intros id. unfold transition_rows. rewrite imap_ids. split.
      * intros [r [Hr Hrw]%map_lookup_filter_Some]. by apply (bu_transitions _ Hb).
      * intros (g & -> & Hgp)%list_elem_of_fmap. pose proof Hgp as (i & Hi)%list_elem_of_lookup_1.
        destruct (Ht (tr_ID g) (transition_row_of g (position i))) as [k Hrow]; [apply elem_of_lookup_imap; eauto|].
        eexists. apply map_lookup_filter_Some. split; [done|]. apply transition_workflow_Some. eexists. split; [done|]. by apply Htw.
  - apply (listing_rows _ _ (gd_edges st)); [unfold edge_rows; by rewrite imap_ids|by apply imap_sorted| |done|].
    + by intros id r [? _]%map_lookup_filter_Some.
    + intros id. unfold edge_rows. rewrite imap_ids. split.
      * intros [r [Hr Hrw]%map_lookup_filter_Some]. by apply (bu_edges _ Hb).
      * intros (e & -> & Hep)%list_elem_of_fmap. pose proof Hep as (i & Hi)%list_elem_of_lookup_1.
        destruct (He (er_ID e) (edge_row_of e (position i))) as [k Hrow]; [apply elem_of_lookup_imap; eauto|].
        eexists. apply map_lookup_filter_Some. split; [done|]. apply edge_workflow_Some. eexists. split; [done|]. by apply Hew.
Qed.

Lemma post_build st : building st →
  post (_ ← each (upsertWorkflowNodeGroup faulty) (nodeGroups p); _ ← each_at (upsertWorkflowNode faulty) (nodes p);
        _ ← each_at (upsertWorkflowTransitionGroup faulty) (transitionGroups p); each_at (upsertWorkflowEdge faulty) (edges p)) st
    (λ _, written).
Proof.
  intros Hb. eapply post_bind; [by apply build_groups|]. intros [] s1 (B1 & G1).
  eapply post_bind; [by apply build_nodes|]. intros [] s2 (B2 & E2 & N2).
  eapply post_bind; [by apply build_transitions|]. intros [] s3 (B3 & E3 & F3 & T3 & W3).
  eapply post_mono; [by apply build_edges|]. intros [] s4 (B4 & E4 & F4 & H4 & D4 & W4).
  apply built; try done; [by rewrite E4, E3, E2|by rewrite F4, F3|by rewrite H4|].
  intros g Hg. unfold node_workflow. rewrite F4. by apply W3.
Qed.
End building.

(** ** The write of the graph *)
Lemma post_apply faulty newUUID w s0 p : is_Some (gd_workflows s0 !! w) → consistent s0 → identified w p →
  post (applyWorkflowGraphSave faulty newUUID w (stored_graph s0 w) p (sd_Removed (describeWorkflowGraphSave (stored_graph s0 w) p))) s0
    (λ _, written w s0 p).
Proof.
  intros Hw Hs Hp. apply post_clear; [done..|]. intros s1 [[] Hg Hn Ht He]. by apply post_build.
Qed.
