(* ===== verification/GraphDraft.v ===== *)
(** * Graphs that pass as drafts

    A save is blocked by the errors that block a draft. A graph without them
    has unique identifiers, all of the saved workflow, and the definition the
    preparation returns is the one its records describe. *)
From Stdlib Require Import ZArith String Ascii.
From stdpp Require Import gmap strings list sorting.
From S2P Require Import Prelude Transactions GoStrings Types Selection Reach Fanout PromptRefs Wiring Validation ValidationFacts ValidationSound.
From S2P Require Import CurrentState SessionReuse GraphTables GraphSave GraphFacts GraphSaveFacts.

Local Open Scope string_scope.

Lemma mapM_Ok {E A B} (f : A → result E B) l k : mapM f l = Ok k ↔ Forall2 (λ a b, f a = Ok b) l k.
Proof.
  split.
  - revert k. induction l as [|a l IH]; simpl; intros k; [intros [= <-]; constructor|].
    intros (b & Hb & (k' & Hk & [= <-])%bind_Ok)%bind_Ok. constructor; auto.
  - induction 1 as [|a b l k Hab _ IH]; simpl; [done|]. by rewrite Hab, IH.
Qed.

(** ** Silent passes *)
Section draft.
Context `{RangeOrder} (def : WorkflowDefinition).

Local Abbreviation group_id := (λ g, TrimSpace (ng_ID g)).
Local Abbreviation group_key := (λ g, TrimSpace (ng_Key g)).
Lemma index_node_group_silent m seen g : (index_node_group def (m, seen) g).2 = [] →
  (index_node_group def (m, seen) g).1 = (<[group_id g := g]> m, <[group_key g := group_id g]> seen) ∧ m !! group_id g = None ∧
  (∀ id, seen !! group_key g = Some id → id = group_id g) ∧ ng_WorkflowID g = d_ID def.
Proof.
  unfold index_node_group. case_bool_decide as Eb; cbn [fst snd]; [by intros [_ [=]]%app_eq_nil|].
  destruct (m !! _) eqn:Em; cbn [fst snd]; [by intros [_ [=]]%app_eq_nil|].
  destruct (_ || _); cbn [fst snd]; [by intros [_ [=]]%app_eq_nil|].
  destruct (seen !! _) as [previous|] eqn:Es; [case_bool_decide as Ep|]; cbn [fst snd negb];
    intros [[_ Hw]%check_workflow_silent [E1 _]%app_eq_nil]%app_eq_nil; try discriminate E1; split_and!; try done; congruence.
Qed.

Lemma indexNodeGroups_silent : (indexNodeGroups def).2 = [] →
  NoDup (group_id <$> d_NodeGroups def) ∧ NoDup (group_key <$> d_NodeGroups def) ∧
  (∀ id, is_Some ((indexNodeGroups def).1 !! id) → id ∈ group_id <$> d_NodeGroups def) ∧
  ∀ g, g ∈ d_NodeGroups def → ng_WorkflowID g = d_ID def.
Proof.
  unfold indexNodeGroups. destruct (fold_emit _ _ _) as [[m seen] errors] eqn:E. cbn [fst snd]. intros ->.
  cut ((∀ id, is_Some (m !! id) ↔ id ∈ group_id <$> d_NodeGroups def) ∧
    (∀ k id, seen !! k = Some id → id ∈ group_id <$> d_NodeGroups def) ∧ (∀ k, is_Some (seen !! k) ↔ k ∈ group_key <$> d_NodeGroups def) ∧
    NoDup (group_id <$> d_NodeGroups def) ∧ NoDup (group_key <$> d_NodeGroups def) ∧ ∀ g, g ∈ d_NodeGroups def → ng_WorkflowID g = d_ID def).
  { intros (Hids & _ & _ & ? & ? & ?). split_and!; try done. intros id. apply Hids. }
  revert m seen E. induction (d_NodeGroups def) as [|g l IH] using rev_ind; intros m seen E.
  { injection E as <- <-. split_and!; [| | |constructor|constructor|by intros g ?%elem_of_nil];
      intros *; rewrite lookup_empty; try done; (split; [by intros [? [=]]|by intros ?%elem_of_nil]). }
  pose proof (f_equal snd E) as E2. apply fold_emit_snoc_silent in E2 as (Hl & Hg & E1). rewrite E in E1. cbn [fst] in E1.
  destruct (fold_emit _ _ l) as [[m0 seen0] e0] eqn:E0. cbn [fst snd] in *. subst e0.
  destruct (IH m0 seen0 eq_refl) as (Hids & Hvals & Hkeys & Hnd & Hndk & Hw).
  apply index_node_group_silent in Hg as (Hm & Hnone & Hprev & Hgw). rewrite <- E1 in Hm. injection Hm as -> ->. rewrite !fmap_app.
  assert (group_id g ∉ group_id <$> l) as Hfresh by (rewrite <- Hids, Hnone; by intros [? [=]]).
  assert (group_key g ∉ group_key <$> l) as Hfreshk.
  { rewrite <- Hkeys. intros [id Hid]. apply Hfresh. rewrite <- (Hprev id Hid). by eapply Hvals. }
  split_and!.
  - intros id. rewrite lookup_insert_is_Some', Hids, elem_of_app. simpl. rewrite list_elem_of_singleton. intuition congruence.
  - intros k id [[_ <-]|[_ Hk]]%lookup_insert_Some; apply elem_of_app; [right; by apply list_elem_of_singleton|left; by eapply Hvals].
  - intros k. rewrite lookup_insert_is_Some', Hkeys, elem_of_app. simpl. rewrite list_elem_of_singleton. intuition congruence.
  - by apply NoDup_snoc.
  - by apply NoDup_snoc.
  - intros h [?| ->%list_elem_of_singleton]%elem_of_app; auto.
Qed.

Lemma silent_blocks (l : list ValidationError) : Forall blocks l → (∀ e, e ∈ l → BlocksContext e = false) → l = [].
Proof.
  intros Hb Hn. destruct l as [|e l]; [done|]. inversion Hb as [|? ? He]; subst. specialize (Hn e). unfold blocks in He.
  rewrite He in Hn. discriminate Hn. by left.
Qed.

(** A definition without blocking errors, in any context. *)
Lemma unblocked_silent Parse static opts r : ValidateDefinition Parse static def opts = Some r → BlockingErrors r = [] →
  (indexNodeGroups def).2 = [] ∧ (validateNodes def (indexNodeGroups def).1 (indexNodes def).1.2).2 = [] ∧
  shaped def (validateShape def (effective_context opts)).1.
Proof.
  intros Hr Hb. assert (∀ e, e ∈ vr_Errors r → BlocksContext e = false) as Hn.
  { intros e He. apply not_true_iff_false. intros Ht. assert (e ∈ BlockingErrors r) as Hin by by apply list_elem_of_filter.
    rewrite Hb in Hin. by apply elem_of_nil in Hin. }
  clear Hb. revert Hr. unfold ValidateDefinition. destruct (IsZero (d_ID def)) eqn:Ez.
  { intros [= <-]. specialize (Hn (addHard CodeMissingWorkflowID "workflow id is required" zeroError)).
    discriminate Hn. by left. }
  destruct (index_blocks def (gi_groupsByID (indexTransitionGroups def).1) (indexNodeGroups def).1 (indexNodes def).1.2)
    as (H1 & H2 & H3 & H4 & H5).
  pose proof (validateShape_parts def (effective_context opts)) as Hparts. cbv zeta in Hparts. revert Hparts. unfold validateShape.
  destruct (indexNodeGroups def) as [ng e2], (indexNodes def) as [[nodes starts] e3],
    (indexTransitionGroups def) as [gi e4]. cbn [fst snd] in *.
  destruct (indexEdges def _) as [ei e5], (validateNodes def _ _) as [keys e6]. cbn [fst snd] in *.
  set (s := Build_validationState _ _ _ _ _ _ _ _ _ _). intros Hparts.
  destruct (validateGraph _ _ _ _ _) as [graph|]; [|done]. simpl.
  destruct (validateDerivedWiring _ _) as [wiring|]; [|done]. simpl. intros [= <-]. simpl in Hn.
  assert (∀ l, Forall blocks l → (∀ e, e ∈ l → e ∈ (e2 ++ e3 ++ e4 ++ e5 ++ e6 ++ validateTransitionGroups def s ++
    validateEdges def (effective_context opts) s)%list) → l = []) as Hnil.
  { intros l Hl Hin. apply silent_blocks; [done|]. intros e He%Hin. apply Hn. rewrite !elem_of_app in *. tauto. }
  split; [apply Hnil; [exact H1|intros e He; rewrite !elem_of_app; tauto]|].
  split; [apply Hnil; [exact H5|intros e He; rewrite !elem_of_app; tauto]|].
  apply Hparts; (apply Hnil; [|intros e He; rewrite !elem_of_app; tauto]);
    [exact H2|exact H3|exact H4|exact H5|apply validateTransitionGroups_blocks|apply validateEdges_blocks].
Qed.
End draft.

(** ** The definition of a prepared graph *)
Lemma workflowNodeFromRecord_Ok n node : workflowNodeFromRecord n = Ok node →
  NodeIDOf node = nr_ID n ∧ NodeWorkflowID node = nr_WorkflowID n ∧ NodeKey node = nr_Key n ∧ Kind node = nr_Kind n.
Proof. unfold workflowNodeFromRecord. destruct (nr_Kind n) eqn:E; simpl; intros [= <-]; done. Qed.

Lemma node_record_ids l k : Forall2 (λ n node, workflowNodeFromRecord n = Ok node) l k → NodeIDOf <$> k = nr_ID <$> l.
Proof.
  induction 1 as [|n node l k Hn _ IH]; [done|]. apply workflowNodeFromRecord_Ok in Hn as (Hid & _).
  rewrite !fmap_cons, Hid. by f_equal.
Qed.

Lemma prepared_definition p w name policy def : workflowDefinitionFromPreparedGraph p w name policy = Ok def →
  d_ID def = w ∧ Forall2 (λ n node, workflowNodeFromRecord n = Ok node) (nodes p) (d_Nodes def).
Proof. intros (ns & H%mapM_Ok & [= <-])%bind_Ok. done. Qed.

Lemma definition_identified `{RangeOrder} Parse static opts r p w name policy def :
  workflowDefinitionFromPreparedGraph p w name policy = Ok def →
  (∀ i g, nodeGroups p !! i = Some g → gr_SortOrder g = position i ∧ TrimSpace (gr_ID g) = gr_ID g) →
  ValidateDefinition Parse static def opts = Some r → BlockingErrors r = [] → identified w p.
Proof.
  intros Hdef Hgroups Hr Hb.
  destruct (unblocked_silent def Parse static opts r Hr Hb) as (S1 & _ & Hshape).
  destruct (indexNodeGroups_silent def S1) as (G1 & _ & _ & G2). destruct (sh_ids _ _ Hshape) as (N1 & T1 & E1).
  destruct (sh_owned _ _ Hshape) as (N2 & T2 & E2). clear S1 Hr Hb Hshape.
  destruct (prepared_definition p w name policy def Hdef) as [Hw Hns]. unfold owned in N2, T2, E2. rewrite Hw in *.
  rewrite (node_record_ids _ _ Hns) in N1. apply bind_Ok in Hdef as (ns & _ & Edef). injection Edef as <-.
  cbn [d_NodeGroups d_TransitionGroups d_Edges] in *. split.
  - split_and!; [|exact N1|by rewrite <- list_fmap_compose in T1|by rewrite <- list_fmap_compose in E1].
    rewrite <- list_fmap_compose in G1. erewrite list_fmap_ext; [exact G1|]. intros i g Hi. symmetry. by apply (Hgroups i).
  - intros g Hg. by apply (G2 _ (list_elem_of_fmap_2 _ _ _ Hg)).
  - intros n (i & Hi)%list_elem_of_lookup_1. destruct (Forall2_lookup_l _ _ _ _ _ Hns Hi) as (node & Hnode & Hn).
    apply workflowNodeFromRecord_Ok in Hn as (_ & <- & _). apply N2. by eapply list_elem_of_lookup_2.
  - intros g Hg. by apply (T2 _ (list_elem_of_fmap_2 _ _ _ Hg)).
  - intros e He. by apply (E2 _ (list_elem_of_fmap_2 _ _ _ He)).
  - intros i g Hi. by apply Hgroups.
Qed.

Lemma draft_identified `{RangeOrder} Parse static opts r w name policy req p def :
  prepareWorkflowGraphSave w name policy req = Ok (p, def) →
  ValidateDefinition Parse static def opts = Some r → BlockingErrors r = [] → identified w p.
Proof.
  intros (def' & Hdef & [= <- <-])%bind_Ok. eapply definition_identified; [exact Hdef|].
  intros i g. simpl. rewrite list_lookup_imap. intros (g0 & _ & ->)%fmap_Some. split; [done|apply TrimSpace_idemp].
Qed.

(** ** Graphs that can be written *)
(** References within the graph and unique keys. *)
Record buildable (w : WorkflowID) (p : preparedWorkflowGraphSave) : Prop := {
  bd_identified : identified w p;
  bd_group_keys : ∀ g g', g ∈ nodeGroups p → g' ∈ nodeGroups p → gr_Key g = gr_Key g' → gr_ID g = gr_ID g';
  bd_node_keys : ∀ n n', n ∈ nodes p → n' ∈ nodes p → nr_Key n = nr_Key n' → nr_ID n = nr_ID n';
  bd_start : ∀ n n', n ∈ nodes p → n' ∈ nodes p → nr_Kind n = NodeKindStart → nr_Kind n' = NodeKindStart → nr_ID n = nr_ID n';
  bd_node_groups : ∀ n g, n ∈ nodes p → nr_GroupID n = Some g → g ∈ gr_ID <$> nodeGroups p;
  bd_transition_keys : ∀ g g', g ∈ transitionGroups p → g' ∈ transitionGroups p →
    TrimSpace (tr_TransitionID g) = TrimSpace (tr_TransitionID g') → tr_ID g = tr_ID g';
  bd_sources : ∀ g, g ∈ transitionGroups p → tr_SourceNodeID g ∈ nr_ID <$> nodes p;
  bd_edge_keys : ∀ e e', e ∈ edges p → e' ∈ edges p → er_TransitionGroupID e = er_TransitionGroupID e' → er_Key e = er_Key e' → er_ID e = er_ID e';
  bd_edges : ∀ e, e ∈ edges p → er_TransitionGroupID e ∈ tr_ID <$> transitionGroups p ∧ er_TargetNodeID e ∈ nr_ID <$> nodes p }.

(** The definition of a prepared graph has its entities. *)
Section entities.
Context (p : preparedWorkflowGraphSave) (w : WorkflowID) (name : string) (policy : ExecutionTargetPolicy) (def : WorkflowDefinition).
Context (Hdef : workflowDefinitionFromPreparedGraph p w name policy = Ok def).
Lemma group_entity g : g ∈ nodeGroups p → ∃ ng, ng ∈ d_NodeGroups def ∧ ng_ID ng = gr_ID g ∧ ng_Key ng = gr_Key g.
Proof.
  apply bind_Ok in Hdef as (ns & _ & E). injection E as <-. intros Hg. eexists. split; [by apply list_elem_of_fmap_2|done].
Qed.
Lemma group_entities : ng_ID <$> d_NodeGroups def = gr_ID <$> nodeGroups p.
Proof. apply bind_Ok in Hdef as (ns & _ & E). injection E as <-. simpl. by rewrite <- list_fmap_compose. Qed.
Lemma node_entity n : n ∈ nodes p → ∃ node, node ∈ d_Nodes def ∧ NodeIDOf node = nr_ID n ∧ NodeKey node = nr_Key n ∧ Kind node = nr_Kind n ∧
  NodeGroupID node = nr_GroupID n.
Proof.
  destruct (prepared_definition p w name policy def Hdef) as [_ Hns]. intros (i & Hi)%list_elem_of_lookup_1.
  destruct (Forall2_lookup_l _ _ _ _ _ Hns Hi) as (node & Hnode & Hn). exists node. split; [by eapply list_elem_of_lookup_2|].
  revert Hn. unfold workflowNodeFromRecord. destruct (nr_Kind n) eqn:E; simpl; intros [= <-]; done.
Qed.
Lemma has_node_entity id : has_node def id → id ∈ nr_ID <$> nodes p.
Proof.
  destruct (prepared_definition p w name policy def Hdef) as [_ Hns]. intros (node & Hn & <-).
  rewrite <- (node_record_ids _ _ Hns). by apply list_elem_of_fmap_2.
Qed.
Lemma transition_entity g : g ∈ transitionGroups p → ∃ tg, tg ∈ d_TransitionGroups def ∧ tg_ID tg = tr_ID g ∧ tg_SourceNodeID tg = tr_SourceNodeID g ∧
  tg_TransitionID tg = tr_TransitionID g.
Proof.
  apply bind_Ok in Hdef as (ns & _ & E). injection E as <-. intros Hg. eexists. split; [by apply list_elem_of_fmap_2|done].
Qed.
Lemma has_transition_entity tg : tg ∈ d_TransitionGroups def → tg_ID tg ∈ tr_ID <$> transitionGroups p.
Proof.
  apply bind_Ok in Hdef as (ns & _ & E). injection E as <-. intros (g & -> & Hg)%list_elem_of_fmap.
  apply list_elem_of_fmap. by exists g.
Qed.
Lemma edge_entity e : e ∈ edges p → ∃ ed, ed ∈ d_Edges def ∧ e_ID ed = er_ID e ∧ e_Key ed = er_Key e ∧
  e_TransitionGroupID ed = er_TransitionGroupID e ∧ e_TargetNodeID ed = er_TargetNodeID e.
Proof.
  apply bind_Ok in Hdef as (ns & _ & E). injection E as <-. intros He. eexists. split; [by apply list_elem_of_fmap_2|done].
Qed.

(** Group identifiers and keys are trimmed by the preparation. *)
Definition trimmed : Prop :=
  (∀ g, g ∈ nodeGroups p → TrimSpace (gr_ID g) = gr_ID g ∧ TrimSpace (gr_Key g) = gr_Key g) ∧
  ∀ n g, n ∈ nodes p → nr_GroupID n = Some g → TrimSpace g = g.

Lemma definition_buildable `{RangeOrder} context : identified w p → trimmed → (indexNodeGroups def).2 = [] →
  (validateNodes def (indexNodeGroups def).1 (indexNodes def).1.2).2 = [] → shaped def (validateShape def context).1 → buildable w p.
Proof.
  intros Hid [Hg Hng] S1 S2 Hs. destruct (indexNodeGroups_silent def S1) as (_ & G2 & G3 & _).
  destruct (sh_ids _ _ Hs) as (N1 & T1 & E1). destruct (sh_keys _ _ Hs) as (K1 & K2 & K3).
  destruct (validateNodes_silent def _ _ N1 S2) as (_ & _ & _ & Hgroups).
  split; [done|..].
  - intros g g' Hin Hin' E. destruct (group_entity g Hin) as (x & Hx & <- & Kx), (group_entity g' Hin') as (y & Hy & <- & Ky).
    f_equal. eapply (NoDup_fmap_inj _ _ x y G2); [done..|]. simpl. by rewrite Kx, Ky, E.
  - intros n n' Hin Hin' E. destruct (node_entity n Hin) as (x & Hx & <- & Kx & _), (node_entity n' Hin') as (y & Hy & <- & Ky & _).
    f_equal. eapply (NoDup_fmap_inj _ _ x y K1); [done..|]. congruence.
  - intros n n' Hin Hin' E E'. destruct (node_entity n Hin) as (x & Hx & <- & _ & Kx & _), (node_entity n' Hin') as (y & Hy & <- & _ & Ky & _).
    f_equal. assert (x ∈ filter (λ n, Kind n = NodeKindStart) (d_Nodes def)) as Fx by (apply list_elem_of_filter; split; [congruence|done]).
    assert (y ∈ filter (λ n, Kind n = NodeKindStart) (d_Nodes def)) as Fy by (apply list_elem_of_filter; split; [congruence|done]).
    pose proof (sh_start _ _ Hs) as Hone. destruct (filter _ (d_Nodes def)) as [|z [|]]; try done.
    apply list_elem_of_singleton in Fx, Fy. congruence.
  - intros n g Hin Hgid. destruct (node_entity n Hin) as (x & Hx & _ & _ & _ & Gx). rewrite <- group_entities.
    destruct (Hgroups x Hx) as (_ & _ & _ & Hx'). rewrite Hgid in Gx. apply Hx', G3 in Gx.
    rewrite (Hng n g Hin Hgid) in Gx. apply list_elem_of_fmap in Gx as (ng & -> & Hngs).
    assert (ng_ID ng ∈ gr_ID <$> nodeGroups p) as (g0 & E & Hg0)%list_elem_of_fmap by (rewrite <- group_entities; by apply list_elem_of_fmap_2).
    rewrite E, (proj1 (Hg g0 Hg0)), <- E. by apply list_elem_of_fmap_2.
  - intros g g' Hin Hin' E. destruct (transition_entity g Hin) as (x & Hx & <- & _ & Kx), (transition_entity g' Hin') as (y & Hy & <- & _ & Ky).
    f_equal. eapply (NoDup_fmap_inj _ _ x y K2); [done..|]. simpl. by rewrite Kx, Ky.
  - intros g Hin. destruct (transition_entity g Hin) as (x & Hx & _ & <- & _). apply has_node_entity. by apply (sh_groups _ _ Hs).
  - intros e e' Hin Hin' Et Ek. destruct (edge_entity e Hin) as (x & Hx & <- & Kx & Tx & _), (edge_entity e' Hin') as (y & Hy & <- & Ky & Ty & _).
    f_equal. destruct (sh_edges _ _ Hs x Hx) as (_ & tg & Htg & Etg).
    eapply (NoDup_fmap_inj _ _ x y (K3 tg Htg)); [apply list_elem_of_filter; split; [congruence|done]..|congruence].
  - intros e Hin. destruct (edge_entity e Hin) as (x & Hx & _ & _ & <- & <-). destruct (sh_edges _ _ Hs x Hx) as (Hn & tg & Htg & <-).
    split; [by apply has_transition_entity|by apply has_node_entity].
Qed.
End entities.

Lemma draft_buildable `{RangeOrder} Parse static opts r w name policy req p def :
  prepareWorkflowGraphSave w name policy req = Ok (p, def) →
  ValidateDefinition Parse static def opts = Some r → BlockingErrors r = [] → buildable w p.
Proof.
  intros Hprep Hr Hb. pose proof (draft_identified _ _ _ _ _ _ _ _ _ _ Hprep Hr Hb) as Hid.
  destruct (unblocked_silent def Parse static opts r Hr Hb) as (S1 & S2 & Hshape).
  assert (trimmed p) as Ht.
  { apply bind_Ok in Hprep as (def' & _ & E). injection E as <- _. split; simpl.
    - intros g (i & g0 & -> & _)%elem_of_lookup_imap. split; apply TrimSpace_idemp.
    - intros n g (n0 & -> & _)%list_elem_of_fmap. simpl. intros (g0 & _ & ->)%fmap_Some. apply TrimSpace_idemp. }
  eapply definition_buildable; [|done..]. apply bind_Ok in Hprep as (def' & Hdef & E). injection E as <- <-. exact Hdef.
Qed.
