(* ===== verification/GraphCommit.v ===== *)
(** * Plans and their commit

    What a preparation reads and decides, and what the write transaction does
    with its plan. *)
From Stdlib Require Import ZArith String Ascii Lia.
From stdpp Require Import gmap strings list sorting.
From S2P Require Import Prelude Transactions GoStrings Types Selection Reach Fanout PromptRefs Wiring Validation.
From S2P Require Import CurrentState SessionReuse GraphTables GraphSave GraphFacts GraphSaveFacts GraphDraft.

Local Open Scope string_scope.

(** ** Reads *)
Section reads.
Context {P : Type} (faulty : nat → bool).
Local Abbreviation tx := (txn graph_db P) (only parsing).

Lemma post_mapM {A B} (f : A → tx B) (g : A → B) s l :
  (∀ a, post (f a) s (λ b s', b = g a ∧ s' = s)) → post (mapM f l) s (λ k s', k = g <$> l ∧ s' = s).
Proof.
  intros Hf. induction l as [|a l IH]; simpl; [by apply post_ret|].
  eapply post_bind; [apply Hf|]. intros b s' [-> ->]. eapply post_bind; [apply IH|]. intros k s' [-> ->]. by apply post_ret.
Qed.
Lemma post_get w s : post (GetWorkflow (P := P) faulty w) s (λ row s', gd_workflows s !! w = Some row ∧ s' = s).
Proof.
  eapply post_bind; [apply post_select|]. intros row s' [-> ->]. destruct (gd_workflows s !! w); [by apply post_ret|apply post_fail].
Qed.
Lemma post_current w s :
  post (currentWorkflowGraphSavePrepared (P := P) faulty w) s (λ p s', p = stored_graph s w ∧ s' = s).
Proof.
  unfold currentWorkflowGraphSavePrepared. do 4 (eapply post_bind; [apply post_select|]; intros ? ? [-> ->]). by apply post_ret.
Qed.
Lemma post_counts operation f ids s :
  post (counts (P := P) faulty operation f ids) s (λ l s', l = (λ id, (id, f s id)) <$> ids ∧ s' = s).
Proof.
  apply post_mapM. intros id. eapply post_bind; [apply post_select|]. intros n s' [-> ->]. by apply post_ret.
Qed.
End reads.

(** ** The impact of an edit *)
(** What the edit would do to tasks, when no part of it is blocked. *)
Record harmless (s : graph_db) (d : workflowGraphSaveStructuralDescriptor) : Prop := {
  ha_nodes : ∀ id, id ∈ rm_nodes (sd_Removed d) → CountCurrentTaskNodeAnchorReferences s id = 0%Z;
  ha_edges : ∀ id, id ∈ rm_edges (sd_Removed d) → CountTaskEdgeReferences s id = 0%Z;
  ha_start : sd_StartNodeChanges (sd_EditPolicy d) = [];
  ha_terminal : sd_LastTerminalChanges (sd_EditPolicy d) = [];
  ha_kinds : ∀ id, id ∈ sd_NodeKindChanges (sd_EditPolicy d) → CountTaskNodeReferences s id = 0%Z;
  ha_history : ∀ id, id ∈ sd_HistoryEdgeChanges (sd_EditPolicy d) → CountAllTaskEdgeReferences s id = 0%Z }.

Lemma count_nonneg {A} (f : A → bool) l : (0 ≤ count f l)%Z.
Proof. unfold count. lia. Qed.
Lemma counts_nonneg s id : (0 ≤ CountTaskNodeReferences s id)%Z ∧ (0 ≤ CountCurrentTaskNodeAnchorReferences s id)%Z ∧
  (0 ≤ CountTaskEdgeReferences s id)%Z ∧ (0 ≤ CountAllTaskEdgeReferences s id)%Z.
Proof.
  unfold CountTaskNodeReferences, CountCurrentTaskNodeAnchorReferences, CountTaskEdgeReferences, CountAllTaskEdgeReferences.
  split_and!; repeat apply Z.add_nonneg_nonneg; apply count_nonneg.
Qed.
Lemma sum_zero {A} (f : A → Z) l : (∀ a, 0 ≤ f a)%Z → (sum_Z (f <$> l) <= 0)%Z → ∀ a, a ∈ l → f a = 0%Z.
Proof.
  intros Hf. assert (∀ b k, sum_Z (f <$> b :: k) = f b + sum_Z (f <$> k))%Z as E by done.
  assert (∀ k, 0 ≤ sum_Z (f <$> k))%Z as Hnn.
  { induction k as [|b k IH]; [done|]. specialize (Hf b). rewrite E. lia. }
  induction l as [|b l IH]; intros Hs a; [by intros ?%elem_of_nil|].
  pose proof (Hf b). pose proof (Hnn l). rewrite E in Hs. intros [-> |Ha]%elem_of_cons; [lia|]. apply IH; [lia|done].
Qed.
Lemma referenced_nil (f : string → Z) ids : (∀ id, 0 ≤ f id)%Z → (0 <? len_Z (referenced snd ((λ id, (id, f id)) <$> ids)))%Z = false →
  ∀ id, id ∈ ids → f id = 0%Z.
Proof.
  intros Hf Hl id Hid. apply Z.ltb_ge in Hl. specialize (Hf id). destruct (Z.eq_dec (f id) 0%Z) as [?|Hne]; [done|]. exfalso.
  assert ((id, f id) ∈ referenced snd ((λ id, (id, f id)) <$> ids)) as Hin.
  { apply list_elem_of_filter. split; [simpl; lia|]. by apply (list_elem_of_fmap_2 (λ id, (id, f id))). }
  unfold len_Z in Hl. destruct (referenced _ _); [by apply elem_of_nil in Hin|simpl in Hl; lia].
Qed.

Lemma app_nil4 {A} (a b c d : list A) : (a ++ b ++ c ++ d)%list = [] → a = [] ∧ b = [] ∧ c = [] ∧ d = [].
Proof. rewrite !app_nil. tauto. Qed.
Lemma unless_nil {A} (b : bool) (x : A) : (if b then [x] else []) = [] → b = false.
Proof. by destruct b. Qed.

Section impact.
Context {P : Type} (faulty : nat → bool).
Lemma post_decision d s :
  post (evaluateWorkflowGraphSaveDynamicDecision (P := P) faulty d) s (λ e s', s' = s ∧ ∀ req,
    workflowGraphSaveBlockers req e = [] → pr_Blockers (di_EditPolicy e) = [] → harmless s d).
Proof.
  unfold evaluateWorkflowGraphSaveDynamicDecision.
  eapply post_bind; [apply (post_mapM _ (λ id, (id, CountTaskNodeReferences s id, CountCurrentTaskNodeAnchorReferences s id)))|].
  { intros id. do 2 (eapply post_bind; [apply post_select|]; intros ? ? [-> ->]). by apply post_ret. }
  intros ns s' [-> ->]. do 3 (eapply post_bind; [apply post_counts|]; intros ? ? [-> ->]). apply post_ret. split; [done|].
  intros req Hb Hp. unfold workflowGraphSaveBlockers in Hb. apply app_nil4 in Hb as (B1%unless_nil & B2%unless_nil & _).
  apply app_nil4 in Hp as (P1%unless_nil & P2%unless_nil & P3%unless_nil & P4%unless_nil).
  cbn [di_Impact im_CurrentNodeTaskReferenceCount im_EdgeTaskReferenceCount ep_StartNodeChangeCount ep_LastTerminalChangeCount
    ep_TaskReferencedNodeKindChangeCount ep_HistoryReinterpretingEdgeChangeCount] in *.
  pose proof (counts_nonneg s) as Hnn. rewrite <- list_fmap_compose in B1. rewrite <- list_fmap_compose in B2. split.
  - apply (sum_zero (λ id, CountCurrentTaskNodeAnchorReferences s id)); [apply Hnn|]. by apply Z.ltb_ge in B1.
  - apply (sum_zero (λ id, CountTaskEdgeReferences s id)); [apply Hnn|]. by apply Z.ltb_ge in B2.
  - apply Z.ltb_ge in P1. unfold len_Z in P1. destruct (sd_StartNodeChanges _); [done|simpl in P1; lia].
  - apply Z.ltb_ge in P2. unfold len_Z in P2. destruct (sd_LastTerminalChanges _); [done|simpl in P2; lia].
  - apply referenced_nil; [apply Hnn|done].
  - apply referenced_nil; [apply Hnn|done].
Qed.

Lemma post_impact w d s :
  post (evaluateWorkflowGraphSaveDynamicImpact (P := P) faulty w d) s (λ e s', s' = s ∧ ∀ req,
    (workflowGraphSaveBlockers req e ++ workflowGraphSaveBlockersFromEditPolicy (pr_Blockers (di_EditPolicy e)))%list = [] → harmless s d).
Proof.
  eapply post_bind; [apply post_decision|]. intros e s' [-> H]. eapply post_bind; [apply post_select|]. intros a s' [-> ->].
  apply post_ret. split; [done|]. intros req [Hb Hp]%app_nil. simpl in Hp. apply (H req); [exact Hb|]. by apply fmap_nil_inv in Hp.
Qed.
End impact.

(** The impact is a function of the tables. *)
Definition impact_is (s : graph_db) (w : WorkflowID) (d : workflowGraphSaveStructuralDescriptor) (e : workflowGraphSaveDynamicImpact) : Prop :=
  ∀ (P : Type) (faulty : nat → bool), post (evaluateWorkflowGraphSaveDynamicImpact (P := P) faulty w d) s (λ e' s', e' = e ∧ s' = s).
Lemma post_value {P A} (a : A) s : post (mret a : txn graph_db P A) s (λ b s', b = a ∧ s' = s).
Proof. by apply post_ret. Qed.
Lemma impact_determined s w d : ∃ e, impact_is s w d e.
Proof.
  eexists. intros P faulty. unfold evaluateWorkflowGraphSaveDynamicImpact, evaluateWorkflowGraphSaveDynamicDecision.
  eapply post_bind.
  - eapply post_bind; [apply (post_mapM _ (λ id, (id, CountTaskNodeReferences s id, CountCurrentTaskNodeAnchorReferences s id)))|].
    { intros id. do 2 (eapply post_bind; [apply post_select|]; intros ? ? [-> ->]). by apply post_ret. }
    intros ns s' [-> ->]. do 3 (eapply post_bind; [apply post_counts|]; intros ? ? [-> ->]).
    apply post_value.
  - intros e s' [-> ->]. eapply post_bind; [apply post_select|]. intros a s' [-> ->]. apply post_ret. split; reflexivity.
Qed.

(** ** The plan of a change *)
Section plans.
Context {order : RangeOrder}.
Context (Parse : string → result string (gmap string (option TNode))) (roleResolver : option TargetAgentCatalog).

(** The policy of the row, as a plan reads it. *)
Definition row_policy (row : workflow_info) : ExecutionTargetPolicy :=
  ExecutionTargetPolicy_Canonical {| etp_Mode := wi_ExecutionTargetPolicy row;
    etp_CustomRef := workflowCustomRefFromRow (wi_ExecutionTargetCustomRef row) |}.

(** A plan that writes, prepared in [s]. *)
Record planned (req : WorkflowGraphSaveRequest) (s : graph_db) (plan : WorkflowGraphSavePlan) (row : workflow_info) : Prop := {
  pl_row : gd_workflows s !! sq_WorkflowID req = Some row;
  pl_workflow : gp_WorkflowID plan = sq_WorkflowID req;
  pl_version : gp_Version plan = wi_Version row;
  pl_current : gp_current plan = stored_graph s (sq_WorkflowID req);
  pl_structural : gp_Structural plan = describeWorkflowGraphSave (stored_graph s (sq_WorkflowID req)) (gp_Prepared plan);
  pl_removed : gp_Removed plan = sd_Removed (gp_Structural plan);
  pl_graph : gp_GraphChanged plan = negb (workflowGraphSavePreparedEqual (stored_graph s (sq_WorkflowID req)) (gp_Prepared plan));
  pl_metadata : prepareWorkflowGraphSaveMetadata (wi_Name row) (wi_Description row) (row_policy row) (sq_Metadata req)
    = Ok (gp_Metadata plan, gp_MetadataChanged plan);
  pl_prepared : prepareWorkflowGraphSave (sq_WorkflowID req)
      (match gp_Metadata plan with Some m => gm_Name m | None => wi_Name row end)
      (match gp_Metadata plan with Some m => default (row_policy row) (gm_ExecutionTargetPolicy m) | None => row_policy row end) req
    = Ok (gp_Prepared plan, gp_Definition plan);
  pl_record : gp_Record plan = workflowRecordFromRow (sq_WorkflowID req) row;
  pl_buildable : buildable (sq_WorkflowID req) (gp_Prepared plan);
  pl_unblocked : ∃ e, impact_is s (sq_WorkflowID req) (gp_Structural plan) e ∧
    (workflowGraphSaveBlockers req e ++ workflowGraphSaveBlockersFromEditPolicy (pr_Blockers (di_EditPolicy e)))%list = [] }.

Lemma pl_identified req s plan row : planned req s plan row → identified (sq_WorkflowID req) (gp_Prepared plan).
Proof. intros H. apply H. Qed.

Lemma post_sound {A} (r : result error A) s : post (sound r) s (λ a s', r = Ok a ∧ s' = s).
Proof. destruct r; [by apply post_ret|apply post_fail]. Qed.

Lemma post_stored faulty w s : post (workflowDefinitionFromQueries faulty w) s (λ a s', s' = s ∧ ∃ row,
  gd_workflows s !! w = Some row ∧ a.2 = workflowRecordFromRow w row ∧
  workflowDefinitionFromPreparedGraph (stored_graph s w) w (wi_Name row) (wr_ExecutionTargetPolicy a.2) = Ok a.1).
Proof.
  eapply post_bind; [apply post_get|]. intros row s' [Hrow ->]. eapply post_bind; [apply post_current|]. intros p s' [-> ->].
  eapply post_bind; [apply post_sound|]. intros def s' [Hdef ->]. apply post_ret. split; [done|]. by exists row.
Qed.

Lemma post_evaluate def s :
  post (EvaluateDefinition Parse roleResolver def [ValidationContextDraft; ValidationContextExecution]) s (λ rs s', s' = s ∧
    ∃ r, snd <$> head rs = Some r ∧ ∃ opts, ValidateDefinition Parse validateStaticContinuationSources def opts = Some r).
Proof.
  assert (∀ context, post (match ValidateDefinition Parse validateStaticContinuationSources def
      {| vo_Context := context; vo_RoleResolver := roleResolver; vo_ExecutionNodes := None |} with
    | Some r => mret (context, r) | None => fail (PolicyError (SaveError "panic")) end : txn graph_db save_stop (string * ValidationResult)) s
    (λ x s', s' = s ∧ ∃ opts, ValidateDefinition Parse validateStaticContinuationSources def opts = Some x.2)) as H.
  { intros context. destruct (ValidateDefinition _ _ _ _) eqn:E; [apply post_ret; eauto|apply post_fail]. }
  unfold EvaluateDefinition. simpl. eapply post_bind; [apply H|]. intros x s' [-> Hx].
  eapply post_bind; [eapply post_bind; [apply H|]; intros y s' [-> _]; apply (post_ret _ _ (λ _ s', s' = s)); done|].
  intros l s' ->. apply post_ret. split; [done|]. by exists x.2.
Qed.

Lemma post_plan faulty req s : post (planWorkflowGraphSave Parse roleResolver faulty req) s (λ plan s', s' = s ∧
  (gp_Blockers plan = [] → gp_GraphChanged plan || gp_MetadataChanged plan = true → ∃ row, planned req s plan row)).
Proof.
  unfold planWorkflowGraphSave. eapply post_bind; [apply post_get|]. intros row s' [Hrow ->]. case_bool_decide as Ev; simpl.
  2: { by apply post_ret. }
  eapply post_bind; [apply post_sound|]. intros [m mc] s' [Hm ->]. eapply post_bind; [apply post_sound|]. intros [p def] s' [Hp ->].
  eapply post_bind; [apply post_current|]. intros c s' [-> ->].
  eapply (post_bind _ _ _ (λ _ s', s' = s)); [destruct (validateWorkflowGraphAdditionIdentityOwnership _ _); [apply post_fail|by apply post_ret]|].
  intros u s' ->. eapply post_bind; [apply post_stored|]. intros stored s' [-> (row' & Hrow' & Hrec & _)].
  destruct (impact_determined s (sq_WorkflowID req) (describeWorkflowGraphSave (stored_graph s (sq_WorkflowID req)) p)) as [e0 He0].
  eapply (post_bind _ _ _ (λ e s', s' = s ∧ (negb (workflowGraphSavePreparedEqual (stored_graph s (sq_WorkflowID req)) p) || mc = true → e = Some e0))).
  { cbn [fst snd]. destruct (_ || mc); [|by apply post_ret]. eapply post_bind; [apply He0|]. intros e s' [-> ->]. by apply post_ret. }
  intros e s' [-> He]. eapply post_bind; [apply post_evaluate|]. intros rs s' [-> (r & Hr & opts & Hv)]. apply post_ret. split; [done|].
  cbn [gp_Blockers gp_GraphChanged gp_MetadataChanged]. intros Hb Hc. rewrite (He Hc) in *.
  assert (row' = row) as -> by congruence. exists row. split; try done.
  - apply app_nil in Hb as [_ [_ Hb]%app_nil]. rewrite Hr in Hb. simpl in Hb. eapply draft_buildable; [exact Hp|exact Hv|].
    unfold validation_blocker in Hb. by destruct (BlockingErrors r).
  - exists e0. split; [exact He0|]. apply app_nil in Hb as [Hb1 [Hb2 _]%app_nil]. by rewrite Hb1, Hb2.
Qed.

Lemma prepare_planned faulty req s plan : prepareGraphSave Parse roleResolver faulty req s = Ok plan →
  gp_Blockers plan = [] → gp_GraphChanged plan || gp_MetadataChanged plan = true → ∃ row, planned req s plan row.
Proof.
  unfold prepareGraphSave. destruct (transact _ _ s) as [o s'] eqn:E. simpl. intros ->.
  by apply (transact_post _ _ _ _ _ _ (post_plan faulty req s)) in E as [_ ?].
Qed.
End plans.

(** ** The write transaction *)
Lemma set_workflow_ok s w row : consistent s →
  consistent (set_workflows (<[w := row]> (gd_workflows s)) s) ∧ frame w s (set_workflows (<[w := row]> (gd_workflows s)) s).
Proof.
  intros Hs. assert (∀ v, is_Some (gd_workflows s !! v) → is_Some (<[w := row]> (gd_workflows s) !! v)) as Hdom.
  { intros v Hv. rewrite lookup_insert_is_Some. destruct (decide (w = v)); [by left|by right]. }
  split; split; simpl; try apply Hs; try done.
  - intros id r Hr. apply Hdom. exact (c_groups s Hs _ _ Hr).
  - intros id r Hr. destruct (c_nodes s Hs _ _ Hr) as [H1 H2]. split; [by apply Hdom|exact H2].
  - intros v Hv. by apply lookup_insert_ne.
Qed.

(** The same rows in one workflow. *)
Record same_graph (w : WorkflowID) (s s' : graph_db) : Prop := {
  sg_groups : ListWorkflowNodeGroups s' w = ListWorkflowNodeGroups s w;
  sg_nodes : ListWorkflowNodes s' w = ListWorkflowNodes s w;
  sg_transitions : ListWorkflowTransitionGroups s' w = ListWorkflowTransitionGroups s w;
  sg_edges : ListWorkflowEdges s' w = ListWorkflowEdges s w }.
#[export] Instance same_graph_equiv w : Equivalence (same_graph w).
Proof.
  split; [by split|by intros s s' []; split|]. intros s1 s2 s3 [] []. split; congruence.
Qed.
Lemma same_stored w s s' : same_graph w s s' → stored_graph s' w = stored_graph s w.
Proof. intros []. unfold stored_graph. congruence. Qed.

Lemma frame_same w v s s' : frame w s s' → v ≠ w → same_graph v s s'.
Proof.
  intros F Hv. split.
  - unfold ListWorkflowNodeGroups. f_equal. apply map_filter_strong_ext_1. intros id r. simpl.
    split; intros [Hr Hid]; (split; [done|]); [rewrite <- (f_groups _ _ _ F id v Hv)|rewrite (f_groups _ _ _ F id v Hv)]; try done;
      [right|left]; apply group_workflow_Some; eauto.
  - unfold ListWorkflowNodes. f_equal. apply map_filter_strong_ext_1. intros id r. simpl.
    split; intros [Hr Hid]; (split; [done|]); [rewrite <- (f_nodes _ _ _ F id v Hv)|rewrite (f_nodes _ _ _ F id v Hv)]; try done;
      [right|left]; apply node_workflow_Some; eauto.
  - unfold ListWorkflowTransitionGroups. f_equal. apply map_filter_strong_ext_1. intros id r. simpl.
    pose proof (frame_transition w s s' id v F Hv) as E. pose proof (f_transitions _ _ _ F id v Hv) as Et.
    split; intros [Hr Hid]; (split; [by apply E|]); [rewrite <- Et|rewrite Et]; auto.
  - unfold ListWorkflowEdges. f_equal. apply map_filter_strong_ext_1. intros id r. simpl.
    pose proof (frame_edge w s s' id v F Hv) as E. pose proof (f_edges _ _ _ F id v Hv) as Et.
    split; intros [Hr Hid]; (split; [by apply E|]); [rewrite <- Et|rewrite Et]; auto.
Qed.

(** The row of the workflow after a save. *)
Definition saved_info (plan : WorkflowGraphSavePlan) (now : Z) (row : workflow_info) : workflow_info :=
  set_version (wi_Version row + 1) now
    (match gp_Metadata plan with
     | Some m => match gp_MetadataChanged plan, gm_ExecutionTargetPolicy m with
       | true, Some policy => set_info (gm_Name m) (gm_Description m)
           (set_policy (etp_Mode policy) (workflowCustomRefForQuery (etp_CustomRef policy)) row)
       | _, _ => row
       end
     | None => row
     end).

(** The rows of the graph after a save of [s]. *)
Record rewritten (plan : WorkflowGraphSavePlan) (w : WorkflowID) (s st : graph_db) : Prop := {
  rw_consistent : consistent st;
  rw_frame : frame w s st;
  rw_groups : ListWorkflowNodeGroups st w = if gp_GraphChanged plan then group_rows (gp_Prepared plan) else ListWorkflowNodeGroups s w;
  rw_nodes : ListWorkflowNodes st w = if gp_GraphChanged plan then node_rows (gp_Prepared plan) else ListWorkflowNodes s w;
  rw_transitions : ListWorkflowTransitionGroups st w =
    if gp_GraphChanged plan then transition_rows (gp_Prepared plan) else ListWorkflowTransitionGroups s w;
  rw_edges : ListWorkflowEdges st w = if gp_GraphChanged plan then edge_rows (gp_Prepared plan) else ListWorkflowEdges s w }.
(** What a write transaction that commits has done. *)
Record saved (plan : WorkflowGraphSavePlan) (w : WorkflowID) (now : Z) (s s' : graph_db) (row : workflow_info) : Prop := {
  sv_row : gd_workflows s !! w = Some row;
  sv_version : wi_Version row = gp_Version plan;
  sv_row' : gd_workflows s' !! w = Some (saved_info plan now row);
  sv_harmless : harmless s (describeWorkflowGraphSave (stored_graph s w) (gp_Prepared plan));
  sv_rewritten : rewritten plan w s s' }.

Lemma rewritten_row plan w s st row : rewritten plan w s st →
  rewritten plan w s (set_workflows (<[w := row]> (gd_workflows st)) st).
Proof.
  intros []. destruct (set_workflow_ok st w row) as [Hc Hf]; [done..|]. split; try done. by transitivity st.
Qed.

Section writing.
Context (faulty : nat → bool).
Local Abbreviation tx := (txn graph_db save_stop) (only parsing).

Lemma post_update operation w f s : post (update_workflow (P := save_stop) faulty operation w f) s (λ o s',
  match gd_workflows s !! w with
  | Some row => o = Some (f row) ∧ s' = set_workflows (<[w := f row]> (gd_workflows s)) s
  | None => o = None ∧ s' = s
  end).
Proof.
  eapply post_mono; [apply post_attempt|]. intros o s' H. cbv beta in H. destruct (gd_workflows s !! w) as [row|].
  - destruct (workflow_check (f row)); [|done]. by injection H as <- <-.
  - by injection H as <- <-.
Qed.
(** A change of the row that must find it. *)
Lemma post_update_one operation w f s : post (expectAffectedRowCount (row ← update_workflow (P := save_stop) faulty operation w f;
    mret (if bool_decide (is_Some row) then 1%nat else 0%nat))) s (λ _ s',
  ∃ row, gd_workflows s !! w = Some row ∧ s' = set_workflows (<[w := f row]> (gd_workflows s)) s).
Proof.
  apply post_expect. eapply post_bind; [apply post_update|]. intros o s' H. apply post_ret. intros E.
  destruct (gd_workflows s !! w) as [row|]; [|by destruct H as [-> _]]. destruct H as [_ ->]. eauto.
Qed.

(** The graph, and then the row. *)
Lemma post_graph newUUID plan w now s row :
  gp_WorkflowID plan = w → gd_workflows s !! w = Some row → wi_Version row = gp_Version plan → consistent s →
  identified w (gp_Prepared plan) → gp_current plan = stored_graph s w →
  gp_Removed plan = sd_Removed (describeWorkflowGraphSave (stored_graph s w) (gp_Prepared plan)) →
  post (if gp_GraphChanged plan then
          _ ← applyWorkflowGraphSave faulty newUUID (gp_WorkflowID plan) (gp_current plan) (gp_Prepared plan) (gp_Removed plan);
          IncrementWorkflowVersion faulty (gp_WorkflowID plan) now
        else mret (gp_Version plan)) s
    (λ version st, rewritten plan w s st ∧
      if gp_GraphChanged plan then version = (wi_Version row + 1)%Z ∧ gd_workflows st !! w = Some (set_version (wi_Version row + 1) now row)
      else version = wi_Version row ∧ st = s).
Proof.
  intros -> Hrow Hv Hs Hid Hcur Hrem. destruct (gp_GraphChanged plan) eqn:Eg.
  - rewrite Hcur, Hrem. eapply post_bind; [apply post_apply; [by eexists|done|done]|]. intros [] st [[] ????].
    eapply post_bind; [apply post_update|]. intros o st' H. rewrite bu_workflows, Hrow in H. destruct H as [-> ->].
    apply post_ret. split; [|split; [done|simpl; by rewrite lookup_insert_eq]].
    rewrite <- bu_workflows. apply rewritten_row. by split; rewrite ?Eg.
  - apply post_ret. split; [|done]. by split; rewrite ?Eg.
Qed.

Lemma post_metadata plan w now s st version row :
  gp_WorkflowID plan = w → gp_GraphChanged plan || gp_MetadataChanged plan = true → (gp_Metadata plan = None → gp_MetadataChanged plan = false) →
  gd_workflows s !! w = Some row → rewritten plan w s st →
  (if gp_GraphChanged plan then version = (wi_Version row + 1)%Z ∧ gd_workflows st !! w = Some (set_version (wi_Version row + 1) now row)
   else version = wi_Version row ∧ st = s) →
  post (save_metadata faulty plan now version) st (λ version' s',
    version' = (wi_Version row + 1)%Z ∧ gd_workflows s' !! w = Some (saved_info plan now row) ∧ rewritten plan w s s').
Proof.
  intros Hw Hch Hnone Hrow Hst Hv. unfold save_metadata, saved_info. rewrite Hw. destruct (gp_Metadata plan) as [m|].
  2: { specialize (Hnone eq_refl). rewrite Hnone in Hch. apply orb_prop in Hch as [Hg|[=]]. rewrite Hg in Hv. destruct Hv as [-> Hv].
       by apply post_ret. }
  destruct (gp_MetadataChanged plan) eqn:Em; simpl.
  2: { apply orb_prop in Hch as [Hg|[=]]. rewrite Hg in Hv. destruct Hv as [-> Hv]. by apply post_ret. }
  destruct (gm_ExecutionTargetPolicy m) as [policy|]; [|apply post_fail].
  destruct (gp_GraphChanged plan) eqn:Eg; destruct Hv as [-> Hst']; [|subst st];
    (eapply post_bind; [apply post_update_one|]); intros [] s' (row0 & Hrow0 & ->); apply post_ret.
  - assert (row0 = set_version (wi_Version row + 1) now row) as -> by congruence.
    split; [done|]. split; [simpl; by rewrite lookup_insert_eq|]. by apply rewritten_row.
  - assert (row0 = row) as -> by congruence.
    split; [done|]. split; [simpl; by rewrite lookup_insert_eq|]. by apply rewritten_row.
Qed.

Lemma metadata_changed name description policy metadata m changed :
  prepareWorkflowGraphSaveMetadata name description policy metadata = Ok (m, changed) → m = None → changed = false.
Proof.
  unfold prepareWorkflowGraphSaveMetadata. destruct metadata as [metadata|]; [|by intros [= <- <-]].
  cbv zeta. repeat case_match; intros [= <- <-]; done.
Qed.

(** The graph the plan was prepared for is still the stored one when the
    version is. *)
Definition fresh (req : WorkflowGraphSaveRequest) (s1 s : graph_db) (row1 : workflow_info) : Prop :=
  ∀ row, gd_workflows s !! sq_WorkflowID req = Some row → wi_Version row = wi_Version row1 →
    row = row1 ∧ same_graph (sq_WorkflowID req) s1 s.

Lemma post_write newUUID req plan now s1 s row1 : consistent s → planned req s1 plan row1 →
  gp_GraphChanged plan || gp_MetadataChanged plan = true → fresh req s1 s row1 →
  post (write_graph faulty newUUID req plan now) s (λ version s',
    version = (gp_Version plan + 1)%Z ∧ saved plan (sq_WorkflowID req) now s s' row1).
Proof.
  intros Hs Hpl Hch Hfresh. unfold write_graph. eapply post_bind; [apply post_select|]. intros [] s' [_ ->].
  eapply (post_bind _ _ _ (λ _ s', s' = s)); [eapply post_mono; [apply post_counted|]|].
  { intros u s' H. cbv beta in H. case_bool_decide; unfold one, none in H; congruence. }
  intros [] s' ->. eapply post_bind; [apply post_get|]. intros row s' [Hrow ->].
  case_bool_decide as Ev; simpl; [|apply post_fail]. rewrite (pl_version _ _ _ _ Hpl) in Ev.
  destruct (Hfresh row Hrow Ev) as [-> Hsame]. eapply post_bind; [apply post_impact|]. intros e s' [-> Hharm].
  destruct (length _ ==? 0%nat) eqn:El; simpl; [|apply post_fail]. bool_simp. apply length_zero_iff_nil in El. specialize (Hharm req El).
  pose proof (same_stored _ _ _ Hsame) as Hstored.
  eapply post_bind; [apply (post_graph _ _ (sq_WorkflowID req) now s row1)|].
  - apply Hpl.
  - done.
  - symmetry. apply Hpl.
  - done.
  - apply (pl_identified _ _ _ _ Hpl).
  - rewrite (pl_current _ _ _ _ Hpl). done.
  - rewrite (pl_removed _ _ _ _ Hpl), (pl_structural _ _ _ _ Hpl), Hstored. done.
  - intros version st [Hrw Hst]. eapply post_bind; [apply (post_metadata plan (sq_WorkflowID req) now s st version row1); try done|].
    + apply Hpl.
    + eapply metadata_changed, Hpl.
    + intros version' st' (-> & Hrow' & Hrw').
      eapply (post_bind _ _ _ (λ _ s', s' = st')).
      { eapply post_mono; [apply post_attempt|]. intros u s' H. cbv beta in H. case_bool_decide; [|done]. congruence. }
      intros [] s' ->. apply post_ret. rewrite (pl_version _ _ _ _ Hpl). split; [done|]. split; try done; [by rewrite (pl_version _ _ _ _ Hpl)|].
      by rewrite Hstored, <- (pl_structural _ _ _ _ Hpl).
Qed.
End writing.

(** ** Results that refuse *)
(** A transaction that stops with a result says that nothing was saved. *)
Definition refuses {A} (m : txn graph_db save_stop A) : Prop :=
  ∀ n s, match m n s with Err (PolicyError (SaveRefused r)) => sr_Saved r = false | _ => True end.

Section refusals.
Context (faulty : nat → bool).
Local Abbreviation tx := (txn graph_db save_stop) (only parsing).
Lemma refuses_ret {A} (a : A) : refuses (mret a).
Proof. done. Qed.
Lemma refuses_fail {A} e : match e with PolicyError (SaveRefused r) => sr_Saved r = false | _ => True end → refuses (A := A) (fail e).
Proof. by intros H n s. Qed.
Lemma refuses_bind {A B} (m : tx A) (f : A → tx B) : refuses m → (∀ a, refuses (f a)) → refuses (m ≫= f).
Proof.
  intros Hm Hf n s. specialize (Hm n s). unfold mbind, txn_bind. destruct (m n s) as [[[a n'] s']|e]; [apply Hf|done].
Qed.
Lemma refuses_query {A} op (f : graph_db → A * graph_db) : refuses (query faulty op f).
Proof. intros n s. unfold query. destruct (faulty n); [done|]. by destruct (f s). Qed.
Lemma refuses_attempt {A} op (f : graph_db → option (A * graph_db)) : refuses (attempt faulty op f).
Proof. apply refuses_bind; [apply refuses_query|]. intros [a|]; [apply refuses_ret|by apply refuses_fail]. Qed.
Lemma refuses_mapM {A B} (f : A → tx B) l : (∀ a, refuses (f a)) → refuses (mapM f l).
Proof.
  intros Hf. induction l as [|a l IH]; simpl; [apply refuses_ret|].
  apply refuses_bind; [apply Hf|]. intros b. apply refuses_bind; [apply IH|]. intros k. apply refuses_ret.
Qed.
Lemma refuses_each {A} (f : A → tx unit) l : (∀ a, refuses (f a)) → refuses (each f l).
Proof. intros Hf. induction l as [|a l IH]; simpl; [apply refuses_ret|]. by apply refuses_bind. Qed.
End refusals.

Create HintDb refusals.
#[local] Hint Resolve refuses_ret refuses_query refuses_attempt : refusals.
Ltac refusal :=
  repeat first
    [ solve [eauto with refusals]
    | apply refuses_bind; [|intros ?]
    | apply refuses_fail; done
    | apply refuses_mapM; intros ?
    | apply refuses_each; intros ?
    | progress cbv zeta
    | match goal with
      | |- refuses (match ?x with _ => _ end) => destruct x
      | |- refuses (select _ _ _) => unfold select
      end ].

Section commit.
Context {order : RangeOrder}.
Context (Parse : string → result string (gmap string (option TNode))) (roleResolver : option TargetAgentCatalog).
Context (faulty : nat → bool) (newUUID : WorkflowGraphEntityType → string → string).

Lemma refuses_apply w c p r : refuses (applyWorkflowGraphSave faulty newUUID w c p r).
Proof.
  unfold applyWorkflowGraphSave, stageWorkflowGraphSaveKeyChanges, each_at, upsertWorkflowNodeGroup, upsertWorkflowNode,
    upsertWorkflowTransitionGroup, upsertWorkflowEdge, expectAffectedRowCount, UpsertWorkflowNodeGroup, UpsertWorkflowNode,
    UpsertWorkflowTransitionGroup, UpsertWorkflowEdge, DeleteWorkflowEdge, DeleteWorkflowTransitionGroupByID, DeleteWorkflowNode,
    DeleteWorkflowNodeGroup. refusal.
Qed.
Lemma refuses_write req plan now : refuses (write_graph faulty newUUID req plan now).
Proof.
  pose proof refuses_apply. unfold write_graph, expectAffectedRowCount, AcquireWorkflowGraphSaveWriteLock, GetWorkflow,
    evaluateWorkflowGraphSaveDynamicImpact, evaluateWorkflowGraphSaveDynamicDecision, counts, save_metadata, IncrementWorkflowVersion,
    UpdateWorkflowMetadata, UpdateWorkflowMetadataWithoutVersion, update_workflow, deferred_checks, expectAffectedRowCount. refusal.
Qed.
Lemma transact_refused {A} (m : txn graph_db save_stop A) s r s' : refuses m →
  transact faulty m s = (Err (PolicyError (SaveRefused r)), s') → sr_Saved r = false.
Proof.
  intros Hm. assert (refuses (query faulty "begin" (λ s, (tt, s)) ≫= λ _, m ≫= λ a, query faulty "commit" (λ s, (a, s)))) as H.
  { apply refuses_bind; [apply refuses_query|]. intros _. apply refuses_bind; [done|]. intros a. apply refuses_query. }
  specialize (H 0%nat s). unfold transact.
  match type of H with match ?x with _ => _ end => destruct x as [[[a n] s'']|e] end; [done|]. by intros [= -> ->].
Qed.

(** A commit leaves the tables alone or carries out the plan. *)
Lemma commit_cases faulty0 now req plan s1 s o s' : consistent s → prepareGraphSave Parse roleResolver faulty0 req s1 = Ok plan →
  (∀ row, planned req s1 plan row → fresh req s1 s row) → commitGraphSave faulty newUUID now req plan s = (o, s') →
  (s' = s ∧ ∀ r, o = Ok r → sr_Saved r = true → gp_GraphChanged plan = false ∧ gp_MetadataChanged plan = false) ∨
  (∃ row, planned req s1 plan row ∧ saved plan (sq_WorkflowID req) now s s' row ∧ o = Ok (saved_result plan (gp_Version plan + 1))).
Proof.
  intros Hs Hprep Hfresh. unfold commitGraphSave. destruct (gp_Blockers plan) as [|b bs] eqn:Eb; simpl.
  2: { intros [= <- <-]. left. split; [done|]. by intros r [= <-]. }
  destruct (negb (gp_GraphChanged plan) && negb (gp_MetadataChanged plan)) eqn:Ec.
  { intros [= <- <-]. left. split; [done|]. intros r _ _. by destruct (gp_GraphChanged plan), (gp_MetadataChanged plan). }
  assert (gp_GraphChanged plan || gp_MetadataChanged plan = true) as Hch by by destruct (gp_GraphChanged plan), (gp_MetadataChanged plan).
  destruct (prepare_planned Parse roleResolver faulty0 req s1 plan Hprep Eb Hch) as (row & Hpl).
  destruct (transact _ _ s) as [[version|e] s0] eqn:Et.
  - intros [= <- <-]. right. exists row.
    apply (transact_post _ _ _ _ _ _ (post_write faulty newUUID req plan now s1 s row Hs Hpl Hch (Hfresh row Hpl))) in Et as [-> Hsv]. done.
  - pose proof (transact_error _ _ _ _ _ Et) as ->. destruct e as [op| |[e|r]]; intros [= <- <-]; left; (split; [done|]); try done.
    intros r' [= <-]. by rewrite (transact_refused _ _ _ _ (refuses_write req plan now) Et).
Qed.
End commit.
