(* ===== verification/GraphHistory.v ===== *)
(** * Histories of stored graphs

    Workflows are created, renamed and saved, and tasks move, one transaction
    after another. A save is prepared in one state of the history and carried
    out in the latest one. *)
From Stdlib Require Import ZArith String Ascii Lia.
From stdpp Require Import gmap strings list sorting.
From S2P Require Import Prelude Transactions GoStrings Types Selection Reach Fanout PromptRefs Wiring Validation ValidationSound.
From S2P Require Import CurrentState SessionReuse GraphTables GraphSave GraphFacts GraphSaveFacts GraphDraft GraphCommit.

Local Open Scope string_scope.

(** ** States *)
Definition empty_graph : graph_db := {| gd_workflows := ∅; gd_groups := ∅; gd_nodes := ∅; gd_transitions := ∅; gd_edges := ∅;
  gd_anchors := {| ta_current := []; ta_approvals := []; ta_branches := [] |} |}.

(** The nodes that tasks refer to are stored, in the workflow of their task. *)
Definition anchored (s : graph_db) (a : task_anchors) : Prop :=
  (∀ w id e, (w, id, e) ∈ ta_current a → node_workflow s id = Some w) ∧
  (∀ w id, (w, id) ∈ ta_approvals a → node_workflow s id = Some w) ∧
  (∀ id e, (id, e) ∈ ta_branches a → is_Some (node_workflow s id)).
Definition set_anchors (a : task_anchors) (s : graph_db) : graph_db := {| gd_workflows := gd_workflows s; gd_groups := gd_groups s;
  gd_nodes := gd_nodes s; gd_transitions := gd_transitions s; gd_edges := gd_edges s; gd_anchors := a |}.

Record graph_ok (s : graph_db) : Prop := {
  ok_consistent : consistent s;
  ok_anchored : anchored s (gd_anchors s);
  ok_refs : ∀ w row, gd_workflows s !! w = Some row → TrimSpace <$> wi_ExecutionTargetCustomRef row = wi_ExecutionTargetCustomRef row }.

(** A consistent state passes the checks at the commit. *)
Lemma consistent_foreign_keys s : consistent s → anchored s (gd_anchors s) → foreign_keys s.
Proof.
  intros Hs (Ha & _). assert (∀ id, is_Some (node_workflow s id) → is_Some (gd_nodes s !! id)) as Hn.
  { intros id [w (r & ? & _)%node_workflow_Some]. eauto. }
  split_and!.
  - intros id r Hr. exact (c_groups s Hs _ _ Hr).
  - intros id r Hr. destruct (c_nodes s Hs _ _ Hr) as [H1 H2]. split; [done|]. destruct (n_GroupID r.2) as [g|]; [|done].
    specialize (H2 g eq_refl). apply group_workflow_Some in H2 as (gr & ? & _). eauto.
  - intros id r Hr. apply Hn. exact (c_transitions s Hs _ _ Hr).
  - intros id r Hr. destruct (c_edges s Hs _ _ Hr) as (w & (t & ? & _)%transition_workflow_Some & H2). split; [eauto|]. apply Hn. by exists w.
  - apply Forall_forall. intros [[w id] e] Hin. apply Hn. exists w. by eapply Ha.
Qed.

(** The node is the place of a task, the source of an approval or the target
    of one. *)
Definition task_node (a : task_anchors) (id : NodeID) : Prop :=
  (∃ w e, (w, id, e) ∈ ta_current a) ∨ (∃ w, (w, id) ∈ ta_approvals a) ∨ ∃ e, (id, e) ∈ ta_branches a.
Definition task_edge (a : task_anchors) (id : EdgeID) : Prop :=
  (∃ w n, (w, n, Some id) ∈ ta_current a) ∨ ∃ n, (n, Some id) ∈ ta_branches a.

Lemma count_positive {A} (f : A → bool) l a : a ∈ l → f a = true → (0 < count f l)%Z.
Proof.
  intros Ha Hf. unfold count. assert (a ∈ filter (λ a, f a = true) l) as H by by apply list_elem_of_filter.
  destruct (filter _ l); [by apply elem_of_nil in H|simpl; lia].
Qed.
Lemma task_node_counted s id : task_node (gd_anchors s) id →
  (0 < CountTaskNodeReferences s id)%Z ∧ (0 < CountCurrentTaskNodeAnchorReferences s id)%Z.
Proof.
  change (CountCurrentTaskNodeAnchorReferences s id) with (CountTaskNodeReferences s id). unfold CountTaskNodeReferences.
  set (f1 := λ r : WorkflowID * NodeID * option EdgeID, r.1.2 ==? id). set (f2 := λ r : WorkflowID * NodeID, r.2 ==? id).
  set (f3 := λ r : NodeID * option EdgeID, r.1 ==? id).
  pose proof (count_nonneg f1 (ta_current (gd_anchors s))). pose proof (count_nonneg f2 (ta_approvals (gd_anchors s))).
  pose proof (count_nonneg f3 (ta_branches (gd_anchors s))).
  intros [(w & e & Hin)|[(w & Hin)|(e & Hin)]].
  - pose proof (count_positive f1 _ _ Hin (bool_decide_eq_true_2 _ eq_refl)). lia.
  - pose proof (count_positive f2 _ _ Hin (bool_decide_eq_true_2 _ eq_refl)). lia.
  - pose proof (count_positive f3 _ _ Hin (bool_decide_eq_true_2 _ eq_refl)). lia.
Qed.
Lemma task_edge_counted s id : task_edge (gd_anchors s) id →
  (0 < CountTaskEdgeReferences s id)%Z ∧ (0 < CountAllTaskEdgeReferences s id)%Z.
Proof.
  change (CountAllTaskEdgeReferences s id) with (CountTaskEdgeReferences s id). unfold CountTaskEdgeReferences.
  set (f1 := λ r : WorkflowID * NodeID * option EdgeID, r.2 ==? Some id). set (f3 := λ r : NodeID * option EdgeID, r.2 ==? Some id).
  pose proof (count_nonneg f1 (ta_current (gd_anchors s))). pose proof (count_nonneg f3 (ta_branches (gd_anchors s))).
  intros [(w & e & Hin)|(e & Hin)].
  - pose proof (count_positive f1 _ _ Hin (bool_decide_eq_true_2 _ eq_refl)). lia.
  - pose proof (count_positive f3 _ _ Hin (bool_decide_eq_true_2 _ eq_refl)). lia.
Qed.

Lemma task_node_listed s : graph_ok s → ∀ id, task_node (gd_anchors s) id → ∃ w r, (id, r) ∈ ListWorkflowNodes s w.
Proof.
  intros [_ (H1 & H2 & H3) _] id Ht. assert (is_Some (node_workflow s id)) as [w ([k r] & ? & ?)%node_workflow_Some].
  { destruct Ht as [(w & e & Hin)|[(w & Hin)|(e & Hin)]]; [exists w; by eapply H1|exists w; by eapply H2|by eapply H3]. }
  exists w, r. apply elem_of_nodes. eauto.
Qed.

(** ** What a save keeps *)
Section keeping.
Context (plan : WorkflowGraphSavePlan) (w : WorkflowID) (now : Z) (s s' : graph_db) (row : workflow_info).
Context (Hid : identified w (gp_Prepared plan)) (Hsv : saved plan w now s s' row).
Local Abbreviation p := (gp_Prepared plan).
Local Abbreviation d := (describeWorkflowGraphSave (stored_graph s w) (gp_Prepared plan)).

(** A node of the workflow that is not among the removed is still there, with
    its new record. *)
Lemma kept_node id r : (id, r) ∈ ListWorkflowNodes s w → id ∉ rm_nodes (sd_Removed d) →
  (id, r) ∈ ListWorkflowNodes s' w ∨
  ∃ n i, nodes p !! i = Some n ∧ nr_ID n = id ∧ (id, node_row_of n (position i)) ∈ ListWorkflowNodes s' w.
Proof.
  intros Hr Hkept. rewrite (rw_nodes _ _ _ _ (sv_rewritten _ _ _ _ _ _ Hsv)). destruct (gp_GraphChanged plan); [right|by left].
  assert (id ∈ nr_ID <$> nodes p) as (n & -> & (i & Hi)%list_elem_of_lookup_1)%list_elem_of_fmap.
  { apply dec_stable. intros Hn. apply Hkept, list_elem_of_filter. split; [done|].
    apply stored_node_ids, node_workflow_Some. apply elem_of_nodes in Hr as [[k ?] ?]. eauto. }
  exists n, i. split_and!; [done|done|]. apply elem_of_lookup_imap. eauto.
Qed.
Lemma kept_edge id r : (id, r) ∈ ListWorkflowEdges s w → id ∉ rm_edges (sd_Removed d) →
  (id, r) ∈ ListWorkflowEdges s' w ∨
  ∃ e i, edges p !! i = Some e ∧ er_ID e = id ∧ (id, edge_row_of e (position i)) ∈ ListWorkflowEdges s' w.
Proof.
  intros Hr Hkept. rewrite (rw_edges _ _ _ _ (sv_rewritten _ _ _ _ _ _ Hsv)). destruct (gp_GraphChanged plan); [right|by left].
  assert (id ∈ er_ID <$> edges p) as (e & -> & (i & Hi)%list_elem_of_lookup_1)%list_elem_of_fmap.
  { apply dec_stable. intros Hn. apply Hkept, list_elem_of_filter. split; [done|].
    apply stored_edge_ids. by apply elem_of_edges in Hr as [_ ?]. }
  exists e, i. split_and!; [done|done|]. apply elem_of_lookup_imap. eauto.
Qed.

Lemma stored_node id r : (id, r) ∈ ListWorkflowNodes s w →
  ∃ n, n ∈ nodes (stored_graph s w) ∧ nr_ID n = id ∧ nr_Kind n = n_Kind r.
Proof. intros Hr. eexists. split; [by apply list_elem_of_fmap_2|done]. Qed.
Lemma stored_edge id r : (id, r) ∈ ListWorkflowEdges s w →
  ∃ e, e ∈ edges (stored_graph s w) ∧ er_ID e = id ∧ er_TransitionGroupID e = ed_TransitionGroupID r ∧ er_TargetNodeID e = ed_TargetNodeID r.
Proof. intros Hr. eexists. split; [by apply list_elem_of_fmap_2|done]. Qed.

Lemma next_node n i : nodes p !! i = Some n → foldl (λ m n, <[nr_ID n := n]> m) (∅ : gmap NodeID NodeRecord) (nodes p) !! nr_ID n = Some n.
Proof. intros Hn. apply (index_by_elem nr_ID); [apply Hid|by eapply list_elem_of_lookup_2]. Qed.
Lemma next_edge e i : edges p !! i = Some e → workflowGraphEdgesByID (edges p) !! er_ID e = Some e.
Proof. intros He. apply (index_by_elem er_ID); [apply Hid|by eapply list_elem_of_lookup_2]. Qed.

(** A node that tasks refer to keeps its kind. *)
Lemma task_node_kept id r : task_node (gd_anchors s) id → (id, r) ∈ ListWorkflowNodes s w →
  ∃ r', (id, r') ∈ ListWorkflowNodes s' w ∧ n_Kind r' = n_Kind r.
Proof.
  intros [H1 H2]%task_node_counted Hr. pose proof (sv_harmless _ _ _ _ _ _ Hsv) as Hh.
  destruct (kept_node id r Hr) as [?|(n & i & Hi & <- & Hin)]; [|by eauto|].
  { intros Hrm. apply (ha_nodes _ _ Hh) in Hrm. lia. }
  exists (node_row_of n (position i)). split; [done|]. apply dec_stable. intros Hk.
  destruct (stored_node _ _ Hr) as (n0 & Hn0 & Hid0 & Hk0).
  assert (nr_ID n ∈ sd_NodeKindChanges (sd_EditPolicy d)) as Hc; [|apply (ha_kinds _ _ Hh) in Hc; lia].
  rewrite <- Hid0. apply list_elem_of_fmap_2, list_elem_of_filter. split; [|done].
  rewrite Hid0, (next_node n i Hi). simpl in *. by rewrite bool_decide_eq_false_2 by congruence.
Qed.

(** An edge that tasks have entered by keeps its group and its target. *)
Lemma task_edge_kept id r : task_edge (gd_anchors s) id → (id, r) ∈ ListWorkflowEdges s w →
  ∃ r', (id, r') ∈ ListWorkflowEdges s' w ∧ ed_TransitionGroupID r' = ed_TransitionGroupID r ∧ ed_TargetNodeID r' = ed_TargetNodeID r.
Proof.
  intros [H1 H2]%task_edge_counted Hr. pose proof (sv_harmless _ _ _ _ _ _ Hsv) as Hh.
  destruct (kept_edge id r Hr) as [?|(e & i & Hi & <- & Hin)]; [|by eauto|].
  { intros Hrm. apply (ha_edges _ _ Hh) in Hrm. lia. }
  exists (edge_row_of e (position i)). split; [done|]. apply dec_stable. intros Hk.
  destruct (stored_edge _ _ Hr) as (e0 & He0 & Hid0 & Ht0 & Hg0).
  assert (er_ID e ∈ sd_HistoryEdgeChanges (sd_EditPolicy d)) as Hc; [|apply (ha_history _ _ Hh) in Hc; lia].
  rewrite <- Hid0. apply list_elem_of_fmap_2, list_elem_of_filter. split; [|done].
  rewrite Hid0, (next_edge e i Hi). unfold workflowEdgeHistoryReinterpretingChange. simpl in Hk.
  apply not_false_iff_true. rewrite orb_false_iff, !negb_false_iff, !bool_decide_eq_true. intros [E1 E2]. apply Hk. split; congruence.
Qed.

(** The start stays the start, and a terminal stays. *)
Lemma start_node_kept id r : (id, r) ∈ ListWorkflowNodes s w → n_Kind r = NodeKindStart →
  ∃ r', (id, r') ∈ ListWorkflowNodes s' w ∧ n_Kind r' = NodeKindStart.
Proof.
  intros Hr Hk. rewrite (rw_nodes _ _ _ _ (sv_rewritten _ _ _ _ _ _ Hsv)). destruct (gp_GraphChanged plan); [|by eauto].
  destruct (stored_node _ _ Hr) as (n0 & Hn0 & <- & Hk0). pose proof (ha_start _ _ (sv_harmless _ _ _ _ _ _ Hsv)) as Hst.
  simpl in Hst. apply fmap_nil_inv in Hst.
  destruct (foldl (λ m n, <[nr_ID n := n]> m) (∅ : gmap NodeID NodeRecord) (nodes p) !! nr_ID n0) as [n|] eqn:E.
  - destruct (decide (nr_Kind n = NodeKindStart)) as [Hn|Hn].
    + apply (index_by_Some nr_ID) in E as [(i & Hi)%list_elem_of_lookup_1 Eid]. exists (node_row_of n (position i)). split; [|done].
      apply elem_of_lookup_imap. exists i, n. split; [|done]. by rewrite Eid.
    + assert (n0 ∈ []) as Hbad; [|by apply elem_of_nil in Hbad]. rewrite <- Hst. apply list_elem_of_filter. split; [|done].
      split; [congruence|]. rewrite E. simpl. congruence.
  - assert (n0 ∈ []) as Hbad; [|by apply elem_of_nil in Hbad]. rewrite <- Hst. apply list_elem_of_filter. split; [|done].
    split; [congruence|]. by rewrite E.
Qed.
Lemma terminal_kept id r : (id, r) ∈ ListWorkflowNodes s w → n_Kind r = NodeKindTerminal →
  ∃ id' r', (id', r') ∈ ListWorkflowNodes s' w ∧ n_Kind r' = NodeKindTerminal.
Proof.
  intros Hr Hk. rewrite (rw_nodes _ _ _ _ (sv_rewritten _ _ _ _ _ _ Hsv)). destruct (gp_GraphChanged plan); [|by eauto].
  destruct (stored_node _ _ Hr) as (n0 & Hn0 & <- & Hk0). pose proof (ha_terminal _ _ (sv_harmless _ _ _ _ _ _ Hsv)) as Ht.
  simpl in Ht. destruct (filter (λ n, nr_Kind n = NodeKindTerminal) (nodes p)) as [|n l] eqn:E.
  - simpl in Ht. apply fmap_nil_inv in Ht. assert (n0 ∈ []) as Hbad; [|by apply elem_of_nil in Hbad].
    rewrite <- Ht. apply list_elem_of_filter. split; [congruence|done].
  - assert (n ∈ filter (λ n, nr_Kind n = NodeKindTerminal) (nodes p)) as [Hn (i & Hi)%list_elem_of_lookup_1]%list_elem_of_filter
      by (rewrite E; by left).
    exists (nr_ID n), (node_row_of n (position i)). split; [|done]. apply elem_of_lookup_imap. eauto.
Qed.
End keeping.

(** ** Progress of versions *)
Definition progressed (s1 s : graph_db) : Prop := ∀ w row1, gd_workflows s1 !! w = Some row1 → ∃ row, gd_workflows s !! w = Some row ∧
  (wi_Version row1 ≤ wi_Version row)%Z ∧ (wi_Version row1 = wi_Version row → row = row1 ∧ same_graph w s1 s).
#[export] Instance progressed_preorder : PreOrder progressed.
Proof.
  split.
  - intros s w row H. exists row. done.
  - intros s1 s2 s3 H12 H23 w row1 H1. destruct (H12 w row1 H1) as (row2 & H2 & L12 & E12).
    destruct (H23 w row2 H2) as (row3 & H3 & L23 & E23). exists row3. split_and!; [done|lia|]. intros E.
    destruct E12 as [-> G12]; [lia|]. destruct E23 as [-> G23]; [lia|]. split; [done|]. by transitivity s2.
Qed.
(** A framed change of a workflow whose version grows. *)
Lemma frame_progressed w s s' : frame w s s' →
  (∀ row, gd_workflows s !! w = Some row → ∃ row', gd_workflows s' !! w = Some row' ∧ (wi_Version row < wi_Version row')%Z) → progressed s s'.
Proof.
  intros F Hw v row Hrow. destruct (decide (v = w)) as [-> |Hv].
  - destruct (Hw row Hrow) as (row' & Hrow' & Hlt). exists row'. split_and!; [done|lia|lia].
  - exists row. rewrite (f_workflows _ _ _ F v Hv). split_and!; [done..|]. intros _. split; [done|]. by eapply frame_same.
Qed.

(** A framed change that keeps the nodes of tasks. *)
Lemma frame_anchored w s s' : frame w s s' → anchored s (gd_anchors s) →
  (∀ id, task_node (gd_anchors s) id → node_workflow s id = Some w → node_workflow s' id = Some w) → anchored s' (gd_anchors s').
Proof.
  intros F (H1 & H2 & H3) Hw. rewrite (f_anchors _ _ _ F).
  assert (∀ id v, task_node (gd_anchors s) id → node_workflow s id = Some v → node_workflow s' id = Some v) as Hall.
  { intros id v Hid Hv. destruct (decide (v = w)) as [-> |Hne]; [by apply Hw|]. by apply (frame_node w s s'). }
  split_and!.
  - intros v id e Hin. apply Hall; [left; eauto|by eapply H1].
  - intros v id Hin. apply Hall; [right; left; eauto|by eapply H2].
  - intros id e Hin. destruct (H3 id e Hin) as [v Hv]. exists v. apply Hall; [right; right; eauto|done].
Qed.

Lemma saved_ok plan w now s s' row : graph_ok s → identified w (gp_Prepared plan) → saved plan w now s s' row →
  graph_ok s' ∧ progressed s s'.
Proof.
  intros [Hc Ha Hr] Hid Hsv. pose proof (sv_rewritten _ _ _ _ _ _ Hsv) as Hrw. split; [split|].
  - apply Hrw.
  - eapply frame_anchored; [apply Hrw|done|]. intros id Ht ([k r] & Hn & Hw)%node_workflow_Some.
    destruct (task_node_kept plan w now s s' row Hid Hsv id r Ht) as (r' & [[k' ?] ?]%elem_of_nodes & _).
    { apply elem_of_nodes. eauto. }
    apply node_workflow_Some. eauto.
  - intros v row' Hv. destruct (decide (v = w)) as [-> |Hne].
    + rewrite (sv_row' _ _ _ _ _ _ Hsv) in Hv. injection Hv as <-. pose proof (Hr w row (sv_row _ _ _ _ _ _ Hsv)) as Hrow.
      unfold saved_info. repeat case_match; simpl; try done. unfold workflowCustomRefForQuery.
      match goal with |- context [etp_CustomRef ?q] => destruct (etp_CustomRef q) end; simpl; [by rewrite TrimSpace_idemp|done].
    + eapply (Hr v). by rewrite <- (f_workflows _ _ _ (rw_frame _ _ _ _ Hrw)).
  - eapply frame_progressed; [apply Hrw|]. intros row0 H0. eexists. split; [apply Hsv|].
    assert (row0 = row) as -> by (pose proof (sv_row _ _ _ _ _ _ Hsv); congruence). unfold saved_info.
    repeat case_match; simpl; lia.
Qed.

(** ** Other writers *)
(** A new workflow [w] with some nodes. *)
Record created (w : WorkflowID) (info : workflow_info) (s st : graph_db) : Prop := {
  cr_new : gd_workflows s !! w = None;
  cr_consistent : consistent st;
  cr_frame : frame w s st;
  cr_workflows : gd_workflows st = <[w := info]> (gd_workflows s) }.
Lemma post_insert_graph_node faulty w info s st id r : created w info s st → n_WorkflowID r = w →
  post (InsertWorkflowNode (P := save_stop) faulty id r) st (λ _, created w info s).
Proof.
  intros [H1 H2 H3 H4] Hr. eapply post_mono; [apply post_attempt|]. intros u st' H. cbv beta in H.
  match type of H with (if ?b then _ else _) = _ => destruct b eqn:Eb end; [|done]. injection H as _ <-.
  repeat (apply andb_prop in Eb as [Eb ?]). bool_simp. destruct (put_node_ok st H2 id r) as [Hc Hf]; try done.
  - intros v (row & Hv & _)%node_workflow_Some. congruence.
  - rewrite Hr in Hf. split; try done. by transitivity st.
Qed.
Lemma post_create faulty w startID doneID now name description s : consistent s →
  post (insertWorkflow faulty w startID doneID now name description) s (λ _ s', ∃ info,
    wi_ExecutionTargetCustomRef info = None ∧ created w info s s').
Proof.
  intros Hs. unfold insertWorkflow. eapply post_bind; [apply post_attempt|]. intros u st H. cbv beta in H.
  match type of H with (if ?b then _ else _) = _ => destruct b eqn:Eb end; [|done]. injection H as _ <-.
  apply andb_prop in Eb as [_ Eb]. bool_simp.
  match goal with |- context [<[w := ?i]> _] => set (info := i); destruct (set_workflow_ok s w info Hs) as [Hc Hf] end.
  eapply post_bind; [apply (post_insert_graph_node _ w info s); [by split|done]|]. intros v st H1.
  eapply post_bind; [apply (post_insert_graph_node _ w info s); [exact H1|done]|]. intros x st' H2. apply post_ret. by exists info.
Qed.
Lemma create_ok faulty w startID doneID now name description s : graph_ok s →
  let s' := (CreateWorkflow faulty w startID doneID now name description s).2 in graph_ok s' ∧ progressed s s'.
Proof.
  intros [Hc Ha Hr]. cbv zeta. destruct (CreateWorkflow _ _ _ _ _ _ _ s) as [[rec|e] s'] eqn:E; simpl.
  2: { by rewrite (transact_error _ _ _ _ _ E). }
  apply (transact_post _ _ _ _ _ _ (post_create _ _ _ _ _ _ _ s Hc)) in E as (info & Hi & [H1 H2 H3 H4]). split; [split|].
  - done.
  - eapply frame_anchored; [done|done|]. intros id _ (r & Hid & Hw)%node_workflow_Some.
    destruct (c_nodes s Hc _ _ Hid) as [[row Hrow] _]. congruence.
  - intros v row. rewrite H4. intros [[<- <-]|[_ Hv]]%lookup_insert_Some; [by rewrite Hi|by eapply Hr].
  - eapply frame_progressed; [done|]. intros row. congruence.
Qed.

Lemma update_ok faulty w name description now s : graph_ok s →
  let s' := (UpdateWorkflowInfo faulty w name description now s).2 in graph_ok s' ∧ progressed s s'.
Proof.
  intros [Hc Ha Hr]. cbv zeta. unfold UpdateWorkflowInfo, UpdateWorkflowInfoRow.
  set (f := λ row, set_version (wi_Version row + 1) now (set_info (TrimSpace name) (TrimSpace description) row)).
  pose proof (post_update faulty "update workflow info" w f s 0%nat) as H.
  unfold mbind, txn_bind. destruct (update_workflow _ _ _ _ _ s) as [[[o n] s']|e]; simpl; [|done].
  destruct (gd_workflows s !! w) as [row|] eqn:E; [|by destruct H as [_ ->]].
  destruct H as [-> ->]. destruct (set_workflow_ok s w (f row) Hc) as [Hc' Hf]. split; [split|].
  - done.
  - by eapply frame_anchored.
  - intros v row'. simpl. intros [[<- <-]|[_ Hv]]%lookup_insert_Some; [exact (Hr w row E)|by eapply Hr].
  - eapply frame_progressed; [done|]. intros row0 H0. exists (f row). simpl. rewrite lookup_insert_eq. split; [done|].
    assert (row0 = row) as -> by congruence. simpl. lia.
Qed.

Lemma anchors_ok s a : graph_ok s → anchored s a → graph_ok (set_anchors a s) ∧ progressed s (set_anchors a s).
Proof. intros [[] _ Hr] Ha. split; [by split|]. intros w row Hrow. by exists row. Qed.

(** ** Histories *)
Section histories.
Context {order : RangeOrder}.
Context (Parse : string → result string (gmap string (option TNode))) (roleResolver : option TargetAgentCatalog).

(** The latest state first. *)
Inductive history : list graph_db → Prop :=
| history_empty : history [empty_graph]
| history_create s h faulty w startID doneID now name description : history (s :: h) →
    history ((CreateWorkflow faulty w startID doneID now name description s).2 :: s :: h)
| history_update s h faulty w name description now : history (s :: h) →
    history ((UpdateWorkflowInfo faulty w name description now s).2 :: s :: h)
| history_tasks s h a : history (s :: h) → anchored s a → history (set_anchors a s :: s :: h)
| history_save s1 s h faulty0 faulty newUUID now req plan : history (s :: h) → s1 ∈ s :: h →
    prepareGraphSave Parse roleResolver faulty0 req s1 = Ok plan →
    history ((commitGraphSave faulty newUUID now req plan s).2 :: s :: h).

Lemma empty_graph_ok : graph_ok empty_graph.
Proof.
  split; [split|split_and!|]; simpl; intros *; rewrite ?lookup_empty; try done; by intros ?%elem_of_nil.
Qed.

Lemma progressed_fresh req s1 s plan row : progressed s1 s → planned req s1 plan row → fresh req s1 s row.
Proof.
  intros Hp Hpl row' Hrow' Hv. destruct (Hp _ _ (pl_row _ _ _ _ Hpl)) as (row2 & H2 & _ & Heq).
  assert (row2 = row') as -> by congruence. by apply Heq.
Qed.
Lemma commit_ok s1 s faulty0 faulty newUUID now req plan : graph_ok s → progressed s1 s →
  prepareGraphSave Parse roleResolver faulty0 req s1 = Ok plan →
  let s' := (commitGraphSave faulty newUUID now req plan s).2 in graph_ok s' ∧ progressed s s'.
Proof.
  intros Hs Hp Hprep. cbv zeta. destruct (commitGraphSave _ _ _ _ _ s) as [o s'] eqn:E.
  destruct (commit_cases Parse roleResolver faulty newUUID faulty0 now req plan s1 s o s') as [[-> _]|(row & Hpl & Hsv & _)];
    [apply Hs|done|intros; by eapply progressed_fresh|done|done|]. eapply saved_ok; [done|by eapply pl_identified|done].
Qed.

Lemma history_ok h : history h → (∀ s, s ∈ h → graph_ok s) ∧ ∀ s s1 h', h = s :: h' → s1 ∈ h → progressed s1 s.
Proof.
  intros H.
  assert (∀ s s' h, (∀ t, t ∈ s :: h → graph_ok t) ∧ (∀ t s1 h', s :: h = t :: h' → s1 ∈ s :: h → progressed s1 t) →
    graph_ok s' ∧ progressed s s' → (∀ t, t ∈ s' :: s :: h → graph_ok t) ∧ (∀ t s1 h', s' :: s :: h = t :: h' → s1 ∈ s' :: s :: h → progressed s1 t))
    as Hstep.
  { intros s s' k [Hok Hpr] [Hs' Hp']. split; [intros t [-> |?]%elem_of_cons; auto|].
    intros t s1 h' [= <- <-] [-> |Hin]%elem_of_cons; [done|]. transitivity s; [by eapply Hpr|done]. }
  induction H as [|s h ??????? H IH|s h ????? H IH|s h a H IH Ha|s1 s h faulty0 faulty newUUID now req plan H IH Hin Hprep];
    [|apply Hstep; [exact IH|]..].
  - split; [by intros s ->%list_elem_of_singleton; apply empty_graph_ok|]. by intros s s1 h' [= <- <-] ->%list_elem_of_singleton.
  - apply create_ok, IH. by left.
  - apply update_ok, IH. by left.
  - apply anchors_ok; [apply IH; by left|done].
  - destruct IH as [Hok Hpr]. eapply commit_ok; [apply Hok; by left|by eapply Hpr|done].
Qed.
Lemma history_state s h s1 : history (s :: h) → s1 ∈ s :: h → graph_ok s ∧ graph_ok s1 ∧ progressed s1 s.
Proof. intros [Hok Hpr]%history_ok Hin. split_and!; [apply Hok; by left|by apply Hok|by eapply Hpr]. Qed.
End histories.
