(* ===== verification/GraphReadback.v ===== *)
(** * Reading a saved graph back

    The form in which a definition is stored, and that a read of the rows a
    save wrote returns it. *)
From Stdlib Require Import ZArith String Ascii Lia.
From stdpp Require Import gmap strings list sorting.
From S2P Require Import Prelude Transactions GoStrings Types Selection Reach Fanout PromptRefs Wiring Validation.
From S2P Require Import CurrentState SessionReuse GraphTables GraphSave GraphFacts GraphSaveFacts GraphDraft GraphCommit GraphHistory.

Local Open Scope string_scope.

(** ** The stored form

    Labels are trimmed, selections have their defaults and parameters their
    purposes. *)
Definition stored_identity (i : NodeIdentity) : NodeIdentity := {|
  ni_WorkflowID := ni_WorkflowID i; ni_ID := ni_ID i; ni_Key := ni_Key i; ni_DisplayName := TrimSpace (ni_DisplayName i);
  ni_GroupID := ni_GroupID i |}.
Definition stored_node_form (n : Node) : Node :=
  match n with
  | StartNode i => StartNode (stored_identity i)
  | AgentNode i role mode => AgentNode (stored_identity i) (TrimSpace role) (TrimSpace mode)
  | ScriptNode i path => ScriptNode (stored_identity i) path
  | JoinNode i providers => JoinNode (stored_identity i) providers
  | TerminalNode i => TerminalNode (stored_identity i)
  end.
Definition stored_transition_form (g : TransitionGroup) : TransitionGroup := {|
  tg_WorkflowID := tg_WorkflowID g; tg_ID := tg_ID g; tg_SourceNodeID := tg_SourceNodeID g;
  tg_TransitionID := TrimSpace (tg_TransitionID g); tg_DisplayName := TrimSpace (tg_DisplayName g);
  tg_Description := TrimSpace (tg_Description g) |}.
Definition stored_edge_form (e : Edge) : Edge := {|
  e_WorkflowID := e_WorkflowID e; e_ID := e_ID e; e_Key := e_Key e;
  e_TransitionGroupID := e_TransitionGroupID e; e_TargetNodeID := e_TargetNodeID e;
  e_AssigneeSelection := DefaultAssigneeSelection (e_AssigneeSelection e);
  e_ThinkingSelection := DefaultThinkingSelection (e_ThinkingSelection e);
  e_ContextMode := e_ContextMode e; e_ContextSource := e_ContextSource e;
  e_RequiresApproval := e_RequiresApproval e; e_PromptTemplate := TrimSpace (e_PromptTemplate e);
  e_Parameters := Parameter_Canonical <$> e_Parameters e; e_InputBindings := e_InputBindings e;
  e_OutputRequirements := e_OutputRequirements e |}.
Definition stored_definition (def : WorkflowDefinition) : WorkflowDefinition := {|
  d_ID := d_ID def; d_DisplayName := d_DisplayName def; d_ExecutionTargetPolicy := d_ExecutionTargetPolicy def;
  d_NodeGroups := d_NodeGroups def; d_Nodes := stored_node_form <$> d_Nodes def;
  d_TransitionGroups := stored_transition_form <$> d_TransitionGroups def; d_Edges := stored_edge_form <$> d_Edges def |}.

(** ** Reading the rows *)
Lemma CanonicalContextSource_idemp c : CanonicalContextSource (CanonicalContextSource c) = CanonicalContextSource c.
Proof.
  destruct c as [kind key]. unfold CanonicalContextSource. cbv zeta. cbn [cs_Kind cs_NodeKey].
  set (k := TrimSpace kind). assert (TrimSpace k = k) as Ek by apply TrimSpace_idemp.
  destruct ((k ==? "") || (k ==? ContextSourceImmediateSource)) eqn:E1; [done|].
  destruct ((k ==? ContextSourcePreviousTarget) || (k ==? ContextSourcePreviousTargetOrNew)) eqn:E2; cbn [cs_Kind cs_NodeKey];
    rewrite Ek, E1, E2; [done|]. by rewrite TrimSpace_idemp.
Qed.
Lemma nullable_script_path path : PresentScriptPath (default "" (nullableString path)) = PresentScriptPath path.
Proof.
  unfold PresentScriptPath, nullableString. cbv zeta. destruct (decide (TrimSpace path = "")) as [E|E].
  - by rewrite (bool_decide_eq_true_2 _ E).
  - rewrite (bool_decide_eq_false_2 _ E). simpl. rewrite TrimSpace_idemp. by rewrite (bool_decide_eq_false_2 _ E).
Qed.

Lemma node_reads keys n so node : workflowNodeFromRecord n = Ok node →
  workflowNodeFromRecord (node_record keys (nr_ID n, node_row_of n so)) = Ok (stored_node_form node).
Proof.
  unfold workflowNodeFromRecord. simpl. rewrite nullable_script_path. unfold nodeCompletionMode.
  destruct (nr_Kind n); simpl; intros [= <-]; done.
Qed.
Lemma edge_reads w e so : er_WorkflowID e = w →
  workflowEdgeFromRecord (edge_record w (er_ID e, edge_row_of e so)) = stored_edge_form (workflowEdgeFromRecord e).
Proof.
  intros <-. unfold workflowEdgeFromRecord, edge_record, edge_row_of, stored_edge_form. simpl. f_equal.
  destruct (CanonicalContextSource (er_ContextSource e)) eqn:E. simpl. rewrite <- E. by rewrite !CanonicalContextSource_idemp.
Qed.

Lemma imap_fmap_ext {A B C} (f : nat → A → B) (g : B → C) (h : A → C) l :
  (∀ i a, l !! i = Some a → g (f i a) = h a) → g <$> imap f l = h <$> l.
Proof.
  intros H. apply list_eq. intros i. rewrite !list_lookup_fmap, list_lookup_imap.
  destruct (l !! i) as [a|] eqn:E; simpl; [|done]. by rewrite (H i a E).
Qed.

Section reading.
Context (w : WorkflowID) (p : preparedWorkflowGraphSave) (Hp : identified w p).
Local Abbreviation stored := (prepared_rows w (group_rows p) (node_rows p) (transition_rows p) (edge_rows p)).

Lemma stored_groups : nodeGroups stored = nodeGroups p.
Proof.
  simpl. unfold group_rows. rewrite <- list_fmap_compose. rewrite <- (list_fmap_id (nodeGroups p)) at 2.
  apply list_fmap_ext. intros i g _. by destruct g.
Qed.
Lemma stored_members id : group_members stored id = group_members p id.
Proof.
  unfold group_members. simpl. unfold node_rows. match goal with |- context [node_record ?k] => generalize k end. intros keys.
  generalize position. induction (nodes p) as [|n l IH]; intros pos; [done|].
  rewrite imap_cons, fmap_cons, !filter_cons. simpl. specialize (IH (λ i, pos (S i))).
  case_decide; simpl; [f_equal|]; exact IH.
Qed.

Lemma definition_reads name policy def : workflowDefinitionFromPreparedGraph p w name policy = Ok def →
  workflowDefinitionFromPreparedGraph stored w name policy = Ok (stored_definition def).
Proof.
  intros (ns & Hns%mapM_Ok & Edef)%bind_Ok. injection Edef as <-. unfold workflowDefinitionFromPreparedGraph.
  assert (mapM workflowNodeFromRecord (nodes stored) = Ok (stored_node_form <$> ns)) as ->.
  { apply mapM_Ok. simpl. apply Forall2_fmap. unfold node_rows. apply Forall2_lookup. intros i. rewrite list_lookup_imap.
    apply Forall2_lookup with (i := i) in Hns. inversion Hns as [n node Hn|]; simpl; constructor. by apply node_reads. }
  simpl. f_equal. unfold stored_definition. f_equal; simpl.
  - change (group_record <$> group_rows p) with (nodeGroups stored). rewrite stored_groups. apply list_fmap_ext.
    intros i g _. by rewrite stored_members.
  - rewrite <- !list_fmap_compose. unfold transition_rows. apply imap_fmap_ext. intros i g Hi. simpl.
    unfold stored_transition_form. simpl. f_equal. symmetry. apply (id_transitions w p Hp). by eapply list_elem_of_lookup_2.
  - rewrite <- !list_fmap_compose. unfold edge_rows. apply imap_fmap_ext. intros i e Hi.
    apply edge_reads, (id_edges w p Hp). by eapply list_elem_of_lookup_2.
Qed.
End reading.

(** ** Reading the row *)
(** A policy as rows hold it. *)
Definition settled (q : ExecutionTargetPolicy) : Prop :=
  ExecutionTargetPolicy_Canonical {| etp_Mode := etp_Mode q; etp_CustomRef := workflowCustomRefForQuery (etp_CustomRef q) |} = q.
Lemma canonical_mode q : etp_Mode (ExecutionTargetPolicy_Canonical q) ≠ "".
Proof. unfold ExecutionTargetPolicy_Canonical. by case_bool_decide. Qed.
Lemma settled_intro q : etp_Mode q ≠ "" → TrimSpace <$> etp_CustomRef q = etp_CustomRef q → settled q.
Proof.
  intros Hm Hr. unfold settled, ExecutionTargetPolicy_Canonical, workflowCustomRefForQuery. simpl. rewrite bool_decide_eq_false_2 by done.
  rewrite Hr. by destruct q.
Qed.
Lemma trim_option_idemp (o : option string) : TrimSpace <$> (TrimSpace <$> o) = TrimSpace <$> o.
Proof. destruct o; simpl; [by rewrite TrimSpace_idemp|done]. Qed.
Lemma settled_normalized q : settled (normalizeWorkflowExecutionTargetPolicy q).
Proof. apply settled_intro; simpl; [apply canonical_mode|apply trim_option_idemp]. Qed.
Lemma settled_row row : settled (row_policy row).
Proof.
  apply settled_intro; [apply canonical_mode|]. unfold row_policy, ExecutionTargetPolicy_Canonical. case_bool_decide; simpl; [done|].
  apply trim_option_idemp.
Qed.
Lemma policies_equal q q' : workflowExecutionTargetPoliciesEqual q q' = true → q = q'.
Proof.
  unfold workflowExecutionTargetPoliciesEqual. destruct q as [m r], q' as [m' r']. simpl. case_bool_decide as E; [subst|done]. simpl.
  destruct r, r'; try done. case_bool_decide; [by subst|done].
Qed.

(** The metadata of a plan. *)
Lemma metadata_Ok name description current metadata m changed : settled current →
  prepareWorkflowGraphSaveMetadata name description current metadata = Ok (m, changed) →
  m = None ∨ ∃ x q, m = Some x ∧ gm_ExecutionTargetPolicy x = Some q ∧ settled q ∧
    (changed = false → gm_Name x = name ∧ gm_Description x = description ∧ q = current).
Proof.
  intros Hc. unfold prepareWorkflowGraphSaveMetadata. destruct metadata as [metadata|]; [|intros [= <- <-]; by left]. cbv zeta.
  set (q := match gm_ExecutionTargetPolicy metadata with Some policy => _ | None => current end).
  assert (settled q) as Hq by (subst q; destruct (gm_ExecutionTargetPolicy metadata); [apply settled_normalized|done]).
  set (x := Build_WorkflowGraphSaveMetadata _ _ (Some q)).
  assert (∀ b : bool, b = (gm_Name x <>? name) || (gm_Description x <>? description) || negb (workflowExecutionTargetPoliciesEqual q current) →
    b = false → gm_Name x = name ∧ gm_Description x = description ∧ q = current) as Hsame.
  { intros b -> [[H1 H2]%orb_false_iff H3]%orb_false_iff. apply negb_false_iff, policies_equal in H3. bool_simp. done. }
  intros E. right. exists x, q. repeat case_match; try discriminate E; injection E as <- <-; split_and!; try done; by apply Hsame.
Qed.

Lemma read_policy w row : TrimSpace <$> wi_ExecutionTargetCustomRef row = wi_ExecutionTargetCustomRef row →
  wr_ExecutionTargetPolicy (workflowRecordFromRow w row) = row_policy row.
Proof. intros H. unfold row_policy, workflowCustomRefFromRow. by rewrite H. Qed.

(** The record a save returns is the one a read returns, and the definition
    has its name and policy. *)
Lemma record_reads req s1 plan row now :
  planned req s1 plan row → TrimSpace <$> wi_ExecutionTargetCustomRef row = wi_ExecutionTargetCustomRef row →
  let record := workflowRecordFromRow (sq_WorkflowID req) (saved_info plan now row) in
  sr_Record (saved_result plan (gp_Version plan + 1)) = record ∧
  prepareWorkflowGraphSave (sq_WorkflowID req) (wr_Name record) (wr_ExecutionTargetPolicy record) req = Ok (gp_Prepared plan, gp_Definition plan).
Proof.
  intros Hpl Href. cbv zeta. pose proof (pl_prepared _ _ _ _ Hpl) as Hprep. pose proof (read_policy (sq_WorkflowID req) row Href) as Hread.
  pose proof (metadata_Ok _ _ _ _ _ _ (settled_row row) (pl_metadata _ _ _ _ Hpl)) as Hm. unfold saved_result, saved_info. simpl.
  rewrite (pl_record _ _ _ _ Hpl), (pl_version _ _ _ _ Hpl).
  destruct Hm as [Hm|(x & q & Hm & Hxq & Hq & Hsame)]; rewrite Hm in *; [by rewrite <- Hread in Hprep|].
  rewrite Hxq in *. simpl in Hprep. destruct (gp_MetadataChanged plan); unfold workflowRecordFromRow; simpl.
  - unfold settled in Hq. by rewrite Hq.
  - destruct (Hsame eq_refl) as (E1 & _ & E3). subst q. rewrite E1, <- Hread in Hprep. done.
Qed.

(** ** Reading the definition *)
Lemma GetDefinition_Ok faulty w s def record : GetDefinition faulty w s = Ok (def, record) →
  ∃ row, gd_workflows s !! w = Some row ∧ record = workflowRecordFromRow w row ∧
    workflowDefinitionFromPreparedGraph (stored_graph s w) w (wr_Name record) (wr_ExecutionTargetPolicy record) = Ok def.
Proof.
  unfold GetDefinition. pose proof (post_stored faulty w s 0%nat) as H. destruct (workflowDefinitionFromQueries _ _ _ s) as [[[a n] s']|e]; [|done].
  intros [= ->]. destruct H as [_ (row & Hrow & Hrec & Hdef)]. simpl in *. subst record. by exists row.
Qed.
Lemma GetDefinition_read w s row def : gd_workflows s !! w = Some row →
  let record := workflowRecordFromRow w row in
  workflowDefinitionFromPreparedGraph (stored_graph s w) w (wr_Name record) (wr_ExecutionTargetPolicy record) = Ok def →
  GetDefinition (λ _, false) w s = Ok (def, record).
Proof.
  intros Hrow record Hdef. unfold GetDefinition, workflowDefinitionFromQueries, GetWorkflow, currentWorkflowGraphSavePrepared, select, query.
  unfold mbind, txn_bind, mret, txn_ret. rewrite Hrow. simpl. unfold stored_graph in Hdef. simpl in Hdef. rewrite Hdef. done.
Qed.
Lemma GetDefinition_same faulty w s s' row : gd_workflows s !! w = Some row → gd_workflows s' !! w = Some row → same_graph w s s' →
  GetDefinition faulty w s' = GetDefinition faulty w s.
Proof.
  intros H H' Hsame. unfold GetDefinition, workflowDefinitionFromQueries, GetWorkflow, currentWorkflowGraphSavePrepared, select, query.
  unfold mbind, txn_bind, mret, txn_ret. destruct Hsame as [H1 H2 H3 H4]. rewrite H, H'.
  repeat (destruct (faulty _); [done|]; simpl). rewrite H1, H2, H3, H4. unfold sound. by destruct (workflowDefinitionFromPreparedGraph _ _ _ _).
Qed.
