(* ===== verification/GraphProgress.v ===== *)
(** * Saves that go through

    Without database failures a plan that nothing blocks is carried out, even
    when keys are exchanged: moving the stored keys out of the way first leaves
    no statement a unique key to run into. *)
From Stdlib Require Import ZArith String Ascii Lia.
From stdpp Require Import gmap strings list sorting.
From S2P Require Import Prelude Transactions GoStrings Types CurrentState.
From S2P Require Import GraphTables GraphSave GraphFacts GraphSaveFacts GraphDraft GraphCommit GraphHistory.

Local Open Scope string_scope.

(** ** Programs that succeed *)
Section sure.
Context (faulty : nat → bool) (Hhealthy : ∀ n, faulty n = false).
Local Abbreviation tx := (txn graph_db save_stop) (only parsing).

Definition sure {A} (m : tx A) (s : graph_db) (Q : A → graph_db → Prop) : Prop := runs m s (λ _, False) Q.
#[local] Instance no_fault : Faults faulty (λ _ : store_error save_stop, False).
Proof. intros op n H. by rewrite Hhealthy in H. Qed.

Lemma sure_post {A} (m : tx A) s Q : sure m s (λ _ _, True) → post m s Q → sure m s Q.
Proof. intros H1 H2 n. specialize (H1 n). specialize (H2 n). destruct (m n s) as [[[a n'] s']|e]; done. Qed.
Lemma sure_bind {A B} (m : tx A) (f : A → tx B) s P Q : sure m s P → (∀ a s', P a s' → sure (f a) s' Q) → sure (m ≫= f) s Q.
Proof. intros Hm Hf. apply runs_bind. eapply runs_mono; [exact Hm|]. intros a s' HP. by apply Hf. Qed.
Lemma sure_ret {A} (a : A) s (Q : A → graph_db → Prop) : Q a s → sure (mret a) s Q.
Proof. apply runs_ret. Qed.
Lemma sure_select {A} op (f : graph_db → A) s : sure (select faulty op f) s (λ a s', a = f s ∧ s' = s).
Proof. by apply runs_select; [apply _|]. Qed.
Lemma sure_attempt {A} op (f : graph_db → option (A * graph_db)) s a s' : f s = Some (a, s') → sure (attempt faulty op f) s (λ b t, b = a ∧ t = s').
Proof.
  intros E. apply runs_bind, runs_query; [apply _|]. rewrite E. simpl. by apply runs_ret.
Qed.
Lemma sure_counted op f s s' : f s = Some (1%nat, s') → sure (expectAffectedRowCount (attempt faulty op f)) s (λ _ _, True).
Proof. intros E. eapply sure_bind; [by apply sure_attempt|]. intros n t [-> ->]. by apply sure_ret. Qed.

Lemma sure_each {A} (f : A → tx unit) l s (I : list A → graph_db → Prop) :
  I [] s → (∀ before a after st, l = (before ++ a :: after)%list → I before st → sure (f a) st (λ _ st', I (before ++ [a])%list st')) →
  sure (each f l) s (λ _ st, I l st).
Proof.
  intros H0 Hf.
  assert (∀ after before st, l = (before ++ after)%list → I before st → sure (each f after) st (λ _ st, I l st)) as H.
  { induction after as [|a after IH]; intros before st E Hb.
    - simpl. apply sure_ret. by rewrite E, app_nil_r.
    - simpl. eapply sure_bind; [by eapply Hf|]. intros u st' H'. apply (IH (before ++ [a])%list); [|done]. by rewrite <- app_assoc. }
  by apply (H l []).
Qed.
(** With an invariant that does not depend on the progress of the loop. *)
Lemma sure_loop {A} (f : A → tx unit) l s (J : graph_db → Prop) :
  J s → (∀ a st, a ∈ l → J st → sure (f a) st (λ _ st', J st')) → sure (each f l) s (λ _, J).
Proof.
  intros H0 Hf. apply (sure_each f l s (λ _, J)); [done|]. intros before a after st -> HJ. apply Hf; [apply elem_of_app; right; by left|done].
Qed.
Lemma sure_loop_at {A} (f : A → Z → tx unit) l s (J : graph_db → Prop) :
  J s → (∀ a so st, a ∈ l → (0 ≤ so)%Z → J st → sure (f a so) st (λ _ st', J st')) → sure (each_at f l) s (λ _, J).
Proof.
  intros H0 Hf. apply sure_loop; [done|]. intros [i a] st (j & x & [= -> ->] & Hj)%elem_of_lookup_imap HJ.
  apply Hf; [by eapply list_elem_of_lookup_2|apply Nat2Z.is_nonneg|done].
Qed.

(** ** Statements that succeed *)
Lemma can_upsert_group g st : group_check (group_row_of g) = true → (∀ v, group_workflow st (gr_ID g) = Some v → v = gr_WorkflowID g) →
  conflicts (λ r, (g_WorkflowID r, g_Key r)) (gr_ID g) (gr_WorkflowID g, gr_Key g) (gd_groups st) = false →
  sure (upsertWorkflowNodeGroup faulty g) st (λ _ _, True).
Proof.
  intros Hc Ho Hk. eapply sure_counted. rewrite Hc. simpl. rewrite Hk.
  destruct (gd_groups st !! gr_ID g) as [r|] eqn:E; [|done].
  rewrite bool_decide_eq_true_2; [done|]. apply Ho, group_workflow_Some. eauto.
Qed.
Lemma can_upsert_node n so st : validateNodeCompletionMode (nr_Kind n) (nr_CompletionMode n) = None → node_check (node_row_of n so) = true →
  group_in_workflow st (node_row_of n so) = true → (∀ v, node_workflow st (nr_ID n) = Some v → v = nr_WorkflowID n) →
  (∀ old, gd_nodes st !! nr_ID n = Some old → n_Kind old.2 ≠ nr_Kind n → CountTaskNodeReferences st (nr_ID n) = 0%Z) →
  node_unique (nr_ID n) (node_row_of n so) (gd_nodes st) = true → sure (upsertWorkflowNode faulty n so) st (λ _ _, True).
Proof.
  intros Hv Hc Hg Ho Hk Hu. unfold upsertWorkflowNode. rewrite Hv. eapply sure_counted. rewrite Hc, Hg, Hu. simpl.
  destruct (gd_nodes st !! nr_ID n) as [old|] eqn:E; [|done].
  rewrite bool_decide_eq_true_2 by (apply Ho, node_workflow_Some; eauto). simpl.
  destruct (decide (n_Kind old.2 = nr_Kind n)) as [Ek|Ek]; [by rewrite (bool_decide_eq_true_2 _ Ek)|].
  rewrite (Hk old eq_refl Ek), andb_false_r. done.
Qed.
Lemma can_upsert_transition g so st : node_workflow st (tr_SourceNodeID g) = Some (tr_WorkflowID g) → transition_check (transition_row_of g so) = true →
  (∀ old, gd_transitions st !! tr_ID g = Some old → node_workflow st (t_SourceNodeID old.2) = Some (tr_WorkflowID g)) →
  conflicts (λ t, (t_SourceNodeID t, t_TransitionID t)) (tr_ID g) (tr_SourceNodeID g, TrimSpace (tr_TransitionID g)) (gd_transitions st) = false →
  sure (upsertWorkflowTransitionGroup faulty g so) st (λ _ _, True).
Proof.
  intros Hn Hc Ho Hk. eapply sure_counted. simpl in *. rewrite Hn, Hc, Hk. rewrite bool_decide_eq_true_2 by done. simpl.
  destruct (gd_transitions st !! tr_ID g) as [old|] eqn:E; [|done]. rewrite bool_decide_eq_true_2 by by apply Ho. done.
Qed.
Lemma can_upsert_edge e so st : transition_workflow st (er_TransitionGroupID e) = Some (er_WorkflowID e) →
  node_workflow st (er_TargetNodeID e) = Some (er_WorkflowID e) → edge_check (edge_row_of e so) = true →
  (∀ old, gd_edges st !! er_ID e = Some old → transition_workflow st (ed_TransitionGroupID old.2) = Some (er_WorkflowID e)) →
  conflicts (λ r, (ed_TransitionGroupID r, ed_Key r)) (er_ID e) (er_TransitionGroupID e, er_Key e) (gd_edges st) = false →
  sure (upsertWorkflowEdge faulty e so) st (λ _ _, True).
Proof.
  intros Ht Hn Hc Ho Hk. eapply sure_counted. simpl in *. rewrite Ht, Hn, Hc, Hk. rewrite !bool_decide_eq_true_2 by done. simpl.
  destruct (gd_edges st !! er_ID e) as [old|] eqn:E; [|done]. rewrite bool_decide_eq_true_2 by by apply Ho. done.
Qed.
Lemma can_delete_edge id st : is_Some (gd_edges st !! id) → sure (expectAffectedRowCount (DeleteWorkflowEdge faulty id)) st (λ _ _, True).
Proof. intros H. eapply sure_counted. by rewrite bool_decide_eq_true_2. Qed.
Lemma can_delete_transition id st : is_Some (gd_transitions st !! id) →
  sure (expectAffectedRowCount (DeleteWorkflowTransitionGroupByID faulty id)) st (λ _ _, True).
Proof. intros H. eapply sure_counted. by rewrite bool_decide_eq_true_2. Qed.
Lemma can_delete_node id st : is_Some (gd_nodes st !! id) → ¬ task_node (gd_anchors st) id →
  sure (expectAffectedRowCount (DeleteWorkflowNode faulty id)) st (λ _ _, True).
Proof.
  intros H Ht. eapply sure_counted. rewrite bool_decide_eq_true_2 by done. simpl.
  match goal with |- (if ?b then _ else _) = _ => destruct b eqn:E end; [|done]. exfalso. apply Ht.
  apply orb_true_iff in E as [E|E]; apply existsb_exists in E as ([a b] & Hin%list_elem_of_In & Hb); bool_simp; subst; [right; left|right; right]; eauto.
Qed.
Lemma can_delete_group id w st : group_workflow st id = Some w → sure (expectAffectedRowCount (DeleteWorkflowNodeGroup faulty id w)) st (λ _ _, True).
Proof.
  intros (r & Hr & Hw)%group_workflow_Some. eapply sure_counted. rewrite Hr. by rewrite bool_decide_eq_true_2.
Qed.
End sure.

(** ** Keys out of the way *)
Section mask.
Context {R : Type} (ids : list string) (u : string → string) (key : R → string).
Implicit Types t : table R.
(** Each key is the old one or a new one. *)
Definition moved t0 t : Prop := ∀ j r, t !! j = Some r → (j ∈ ids ∧ key r.2 = u j) ∨ ∃ r0, t0 !! j = Some r0 ∧ key r.2 = key r0.2.
Definition unused t0 : Prop := ∀ i j r, i ∈ ids → t0 !! j = Some r → key r.2 ≠ u i.
Lemma moved_refl t : moved t t.
Proof. intros j r Hj. right. eauto. Qed.
Lemma moved_put t0 t id r : moved t0 t → id ∈ ids → key r = u id → moved t0 (put id r t).
Proof. intros Hm Hid Hk j row [[-> Hr]|[_ Hj]]%lookup_put; [left; by rewrite Hr|by apply Hm]. Qed.
Lemma moved_conflict t0 t id j r : NoDup (u <$> ids) → unused t0 → moved t0 t → id ∈ ids → t !! j = Some r → key r.2 = u id → j = id.
Proof.
  intros Hnd Hu Hm Hid Hj Hk. destruct (Hm j r Hj) as [[Hin E]|(r0 & H0 & E)].
  - eapply (NoDup_fmap_inj u ids); [done..|congruence].
  - exfalso. apply (Hu id j r0 Hid H0). congruence.
Qed.
End mask.

(** Entities of the stored graph and their rows. *)
Section stored.
Context (s : graph_db) (w : WorkflowID).
Lemma stored_group_row g : g ∈ nodeGroups (stored_graph s w) → group_workflow s (gr_ID g) = Some w ∧ gr_WorkflowID g = w.
Proof.
  intros ([id r] & -> & [[k Hr] Hw]%elem_of_groups)%list_elem_of_fmap. split; [|done]. apply group_workflow_Some. eauto.
Qed.
Lemma stored_node_row n : n ∈ nodes (stored_graph s w) → ∃ r, gd_nodes s !! nr_ID n = Some r ∧ n_WorkflowID r.2 = w ∧ nr_WorkflowID n = w ∧
  nr_Kind n = n_Kind r.2 ∧ nr_GroupID n = n_GroupID r.2.
Proof. intros ([id r] & -> & [[k Hr] Hw]%elem_of_nodes)%list_elem_of_fmap. by exists (k, r). Qed.
Lemma stored_transition_row g : g ∈ transitionGroups (stored_graph s w) → transition_workflow s (tr_ID g) = Some w ∧ tr_WorkflowID g = w ∧
  node_workflow s (tr_SourceNodeID g) = Some w.
Proof.
  intros ([id r] & -> & [[k Hr] Hw]%elem_of_transition_rows)%list_elem_of_fmap. simpl. split_and!; [done..|].
  apply transition_workflow_Some in Hw as (r' & Hr' & Hw). rewrite Hr in Hr'. by injection Hr' as <-.
Qed.
Lemma stored_edge_row e : consistent s → e ∈ edges (stored_graph s w) → edge_workflow s (er_ID e) = Some w ∧ er_WorkflowID e = w ∧
  transition_workflow s (er_TransitionGroupID e) = Some w ∧ node_workflow s (er_TargetNodeID e) = Some w.
Proof.
  intros Hs ([id r] & -> & [[k Hr] Hw]%elem_of_edges)%list_elem_of_fmap. simpl. split_and!; try done;
    destruct (c_edges s Hs _ _ Hr) as (v & H1 & H2); apply edge_workflow_Some in Hw as (r' & Hr' & Hw);
    rewrite Hr in Hr'; injection Hr' as <-; simpl in *; congruence.
Qed.
End stored.

Section staging.
Context (faulty : nat → bool) (Hhealthy : ∀ n, faulty n = false) (newUUID : WorkflowGraphEntityType → string → string).
Context (w : WorkflowID) (s0 : graph_db) (Hw : is_Some (gd_workflows s0 !! w)) (Hs0 : consistent s0).
Local Abbreviation current := (stored_graph s0 w).
Local Abbreviation ug := (newUUID EntityNodeGroup).
Local Abbreviation un := (newUUID EntityNode).
Local Abbreviation ut := (newUUID EntityTransitionGroup).
Local Abbreviation ue := (newUUID EntityEdge).
Local Abbreviation ig := (gr_ID <$> nodeGroups current).
Local Abbreviation inn := (nr_ID <$> nodes current).
Local Abbreviation it := (tr_ID <$> transitionGroups current).
Local Abbreviation ie := (er_ID <$> edges current).

(** The new keys differ from each other and from the stored ones, and the
    stored rows still pass their checks with them. *)
Record restageable : Prop := {
  re_groups : ∀ g, g ∈ nodeGroups current → group_check (group_row_of (set_group_key (ug (gr_ID g)) g)) = true;
  re_nodes : ∀ n, n ∈ nodes current → validateNodeCompletionMode (nr_Kind n) (nr_CompletionMode n) = None ∧
    node_check (node_row_of (set_node_key (un (nr_ID n)) n) (nr_SortOrder n)) = true;
  re_transitions : ∀ g, g ∈ transitionGroups current → transition_check (transition_row_of (set_transition_key (ut (tr_ID g)) g) (tr_SortOrder g)) = true
    ∧ TrimSpace (ut (tr_ID g)) = ut (tr_ID g);
  re_edges : ∀ e, e ∈ edges current → edge_check (edge_row_of (set_edge_key (ue (er_ID e)) e) (er_SortOrder e)) = true;
  re_distinct : NoDup (ug <$> ig) ∧ NoDup (un <$> inn) ∧ NoDup (ut <$> it) ∧ NoDup (ue <$> ie);
  re_unused_groups : unused ig ug g_Key (gd_groups s0);
  re_unused_nodes : unused inn un n_Key (gd_nodes s0);
  re_unused_transitions : unused it ut t_TransitionID (gd_transitions s0);
  re_unused_edges : unused ie ue ed_Key (gd_edges s0) }.
Context (Hre : restageable).

Record staging (st : graph_db) : Prop := {
  st_within : within w s0 st;
  st_groups : ∀ j, group_workflow s0 j = Some w → group_workflow st j = Some w;
  st_nodes : ∀ j, node_workflow s0 j = Some w → node_workflow st j = Some w;
  st_transitions : ∀ j, transition_workflow s0 j = Some w → transition_workflow st j = Some w;
  st_edges : ∀ j, edge_workflow s0 j = Some w → edge_workflow st j = Some w;
  st_kinds : ∀ j r, gd_nodes st !! j = Some r → ∃ r0, gd_nodes s0 !! j = Some r0 ∧ n_Kind r.2 = n_Kind r0.2 ∧ n_WorkflowID r.2 = n_WorkflowID r0.2;
  st_moved_groups : moved ig ug g_Key (gd_groups s0) (gd_groups st);
  st_moved_nodes : moved inn un n_Key (gd_nodes s0) (gd_nodes st);
  st_moved_transitions : moved it ut t_TransitionID (gd_transitions s0) (gd_transitions st);
  st_moved_edges : moved ie ue ed_Key (gd_edges s0) (gd_edges st) }.
Lemma staging_start : staging s0.
Proof. split; try done; try apply moved_refl. intros j r Hr. by exists r. Qed.

Lemma sure_stage_group g st : g ∈ nodeGroups current → staging st →
  sure (upsertWorkflowNodeGroup faulty (set_group_key (ug (gr_ID g)) g)) st (λ _ st', staging st' ∧
    st' = set_groups (put (gr_ID g) (group_row_of (set_group_key (ug (gr_ID g)) g)) (gd_groups st)) st).
Proof.
  intros Hg Hst. destruct (stored_group_row s0 w g Hg) as [Hgw Hwf]. assert (gr_ID g ∈ ig) as Hin by by apply list_elem_of_fmap_2.
  apply sure_post.
  - apply can_upsert_group; [done|by apply (re_groups Hre)| |].
    + simpl. intros v Hv. rewrite (st_groups _ Hst _ Hgw) in Hv. congruence.
    + apply conflicts_false. intros j r Hj [= _ Hk].
      exact (moved_conflict ig ug g_Key _ _ _ _ _ (proj1 (re_distinct Hre)) (re_unused_groups Hre) (st_moved_groups _ Hst) Hin Hj Hk).
  - eapply post_mono; [apply post_and; [apply (stage_group faulty w s0 Hw); [done|apply Hst]|apply post_upsert_group]|].
    intros u st' [Hwn (-> & Hold & Hc)]. split; [|done]. destruct Hst. split; try done.
    + intros j Hj. rewrite group_workflow_put. case_decide; [simpl; congruence|auto].
    + by apply moved_put.
Qed.
Lemma sure_stage_node n st : n ∈ nodes current → staging st →
  sure (upsertWorkflowNode faulty (set_node_key (un (nr_ID n)) n) (nr_SortOrder n)) st (λ _ st', staging st' ∧
    st' = set_nodes (put (nr_ID n) (node_row_of (set_node_key (un (nr_ID n)) n) (nr_SortOrder n)) (gd_nodes st)) st).
Proof.
  intros Hn Hst. destruct (stored_node_row s0 w n Hn) as (r0 & Hr0 & Hw0 & Hwf & Hk0 & Hg0).
  assert (nr_ID n ∈ inn) as Hin by by apply list_elem_of_fmap_2. destruct (re_nodes Hre n Hn) as [Hmode Hcheck].
  assert (node_workflow s0 (nr_ID n) = Some w) as Hnw by (apply node_workflow_Some; eauto).
  apply sure_post.
  - apply can_upsert_node; [done|done|done| | | |].
    + unfold group_in_workflow. simpl. rewrite Hg0. destruct (n_GroupID r0.2) as [g|] eqn:Eg; [|done].
      destruct (c_nodes s0 Hs0 _ _ Hr0) as [_ Hgr]. rewrite Hw0 in Hgr. apply Hgr, (st_groups _ Hst), group_workflow_Some in Eg as (gr & -> & Egr).
      apply bool_decide_eq_true_2. congruence.
    + simpl. intros v Hv. rewrite (st_nodes _ Hst _ Hnw) in Hv. congruence.
    + simpl. intros old Hold Hne. destruct (st_kinds _ Hst _ _ Hold) as (r & Hr & Hk & _). congruence.
    + unfold node_unique. simpl. apply andb_true_iff. split; apply negb_true_iff.
      * apply conflicts_false. intros j r Hj [= _ Hk].
        exact (moved_conflict inn un n_Key _ _ _ _ _ (proj1 (proj2 (re_distinct Hre))) (re_unused_nodes Hre) (st_moved_nodes _ Hst) Hin Hj Hk).
      * apply andb_false_iff. destruct (decide (nr_Kind n = NodeKindStart)) as [Es|Es]; [right|left; by apply bool_decide_eq_false_2].
        apply conflicts_false. intros j r Hj [= Hwj Hkj]. destruct (st_kinds _ Hst _ _ Hj) as (rj & Hrj & Ekj & Ewj).
        eapply (c_start s0 Hs0 _ _ _ _ Hrj Hr0); congruence.
  - eapply post_mono; [apply post_and; [apply (stage_node faulty w s0 Hw); [done|apply Hst]|apply post_upsert_node]|].
    intros u st' [Hwn (-> & _ & Hold & _)]. split; [|done]. pose proof (wn_consistent _ _ _ (st_within _ Hst)) as Hc. simpl in Hold. destruct Hst. split; try done.
    + intros j Hj. rewrite node_workflow_put. case_decide; [simpl; congruence|auto].
    + intros j Hj. rewrite transition_workflow_node by done. auto.
    + intros j Hj. rewrite edge_workflow_node by done. auto.
    + intros j r [[-> Hr]|[_ Hj]]%lookup_put; [|eauto]. exists r0. rewrite Hr. simpl. split_and!; congruence.
    + by apply moved_put.
Qed.
Lemma sure_stage_transition g st : g ∈ transitionGroups current → staging st →
  sure (upsertWorkflowTransitionGroup faulty (set_transition_key (ut (tr_ID g)) g) (tr_SortOrder g)) st (λ _ st', staging st' ∧
    st' = set_transitions (put (tr_ID g) (transition_row_of (set_transition_key (ut (tr_ID g)) g) (tr_SortOrder g)) (gd_transitions st)) st).
Proof.
  intros Hg Hst. destruct (stored_transition_row s0 w g Hg) as (Htw & Hwf & Hsrc). destruct (re_transitions Hre g Hg) as [Hcheck Htrim].
  assert (tr_ID g ∈ it) as Hin by by apply list_elem_of_fmap_2. destruct (re_distinct Hre) as (_ & _ & Hnd & _).
  apply sure_post.
  - apply can_upsert_transition; simpl; [done|by rewrite Hwf; apply (st_nodes _ Hst)|done| |].
    + intros old Hold. rewrite Hwf. pose proof (st_transitions _ Hst _ Htw) as (r & Hr & Hrw)%transition_workflow_Some. congruence.
    + apply conflicts_false. intros j r Hj [= _ Hk]. rewrite Htrim in Hk.
      exact (moved_conflict it ut t_TransitionID _ _ _ _ _ Hnd (re_unused_transitions Hre) (st_moved_transitions _ Hst) Hin Hj Hk).
  - eapply post_mono; [apply post_and; [exact (stage_transition faulty w s0 Hw g _ _ st Hg (st_within _ Hst))|apply post_upsert_transition]|].
    intros u st' [Hwn (-> & Hs1 & Hold & _)]. split; [|done]. pose proof (wn_consistent _ _ _ (st_within _ Hst)) as Hc. simpl in Hold, Hs1.
    destruct Hst. split; try done.
    + intros j Hj. rewrite transition_workflow_put. case_decide; [simpl; congruence|auto].
    + intros j Hj. rewrite edge_workflow_transition; [auto|done|]. intros v Hv. simpl. rewrite Hs1. by rewrite (Hold v Hv).
    + by apply moved_put.
Qed.
Lemma sure_stage_edge e st : e ∈ edges current → staging st →
  sure (upsertWorkflowEdge faulty (set_edge_key (ue (er_ID e)) e) (er_SortOrder e)) st (λ _ st', staging st' ∧
    st' = set_edges (put (er_ID e) (edge_row_of (set_edge_key (ue (er_ID e)) e) (er_SortOrder e)) (gd_edges st)) st).
Proof.
  intros He Hst. destruct (stored_edge_row s0 w e Hs0 He) as (Hew & Hwf & Htw & Hnw). assert (er_ID e ∈ ie) as Hin by by apply list_elem_of_fmap_2.
  destruct (re_distinct Hre) as (_ & _ & _ & Hnd). apply sure_post.
  - apply can_upsert_edge; simpl; [done|by rewrite Hwf; apply (st_transitions _ Hst)|by rewrite Hwf; apply (st_nodes _ Hst)|by apply (re_edges Hre)| |].
    + intros old Hold. rewrite Hwf. pose proof (st_edges _ Hst _ Hew) as (r & Hr & Hrw)%edge_workflow_Some. congruence.
    + apply conflicts_false. intros j r Hj [= _ Hk].
      exact (moved_conflict ie ue ed_Key _ _ _ _ _ Hnd (re_unused_edges Hre) (st_moved_edges _ Hst) Hin Hj Hk).
  - eapply post_mono; [apply post_and; [exact (stage_edge faulty w s0 Hw e _ _ st He (st_within _ Hst))|apply post_upsert_edge]|].
    intros u st' [Hwn (-> & Hs1 & _ & Hold & _)]. split; [|done]. simpl in Hold, Hs1. destruct Hst. split; try done.
    + intros j Hj. rewrite edge_workflow_put. case_decide; [simpl; congruence|auto].
    + by apply moved_put.
Qed.

(** After the staging every key of the workflow is a new one. *)
Definition hidden {R} (u : string → string) (key : R → string) (ids : list string) (t : table R) : Prop :=
  ∀ j r, t !! j = Some r → j ∈ ids → key r.2 = u j.
Lemma hidden_put {R} (u : string → string) (key : R → string) ids (t : table R) id r :
  hidden u key ids t → key r = u id → hidden u key (ids ++ [id])%list (put id r t).
Proof.
  intros Hh Hk j row [[-> Hr]|[Hne Hj]]%lookup_put; [by rewrite Hr|]. intros [Hin| ->%list_elem_of_singleton]%elem_of_app; [by apply Hh|done].
Qed.
Lemma sure_stage : sure (stageWorkflowGraphSaveKeyChanges faulty newUUID current) s0 (λ _ st, staging st ∧
  hidden ug g_Key ig (gd_groups st) ∧ hidden un n_Key inn (gd_nodes st) ∧ hidden ut t_TransitionID it (gd_transitions st) ∧
  hidden ue ed_Key ie (gd_edges st)).
Proof.
  unfold stageWorkflowGraphSaveKeyChanges.
  eapply sure_bind; [apply (sure_each _ _ _ (λ l st, staging st ∧ hidden ug g_Key (gr_ID <$> l) (gd_groups st)))|].
  { split; [apply staging_start|]. by intros j r _ ?%elem_of_nil. }
  { intros before g after st El [Hst Hh]. eapply runs_mono; [apply sure_stage_group; [rewrite El; set_solver|done]|].
    intros u st' [Hst' ->]. split; [done|]. rewrite fmap_app. by apply hidden_put. }
  intros [] s1 [H1 G1]. eapply sure_bind; [apply (sure_each _ _ _ (λ l st, staging st ∧ gd_groups st = gd_groups s1 ∧ hidden un n_Key (nr_ID <$> l) (gd_nodes st)))|].
  { split_and!; [done..|]. by intros j r _ ?%elem_of_nil. }
  { intros before n after st El (Hst & Eg & Hh). eapply runs_mono; [apply sure_stage_node; [rewrite El; set_solver|done]|].
    intros u st' [Hst' ->]. split_and!; [done..|]. rewrite fmap_app. by apply hidden_put. }
  intros [] s2 (H2 & E2 & N2). eapply sure_bind; [apply (sure_each _ _ _ (λ l st, staging st ∧ gd_groups st = gd_groups s2 ∧ gd_nodes st = gd_nodes s2 ∧
    hidden ut t_TransitionID (tr_ID <$> l) (gd_transitions st)))|].
  { split_and!; [done..|]. by intros j r _ ?%elem_of_nil. }
  { intros before g after st El (Hst & Eg & En & Hh). assert (g ∈ transitionGroups current) as Hg by (rewrite El; set_solver).
    eapply runs_mono; [by apply sure_stage_transition|].
    intros u st' [Hst' ->]. split_and!; [done..|]. rewrite fmap_app. apply hidden_put; [done|]. by apply (re_transitions Hre). }
  intros [] s3 (H3 & E3 & F3 & N3). eapply runs_mono; [apply (sure_each _ _ _ (λ l st, staging st ∧ gd_groups st = gd_groups s3 ∧ gd_nodes st = gd_nodes s3 ∧
    gd_transitions st = gd_transitions s3 ∧ hidden ue ed_Key (er_ID <$> l) (gd_edges st)))|].
  { split_and!; [done..|]. by intros j r _ ?%elem_of_nil. }
  { intros before e after st El (Hst & Eg & En & Et & Hh). eapply runs_mono; [apply sure_stage_edge; [rewrite El; set_solver|done]|].
    intros u st' [Hst' ->]. split_and!; [done..|]. rewrite fmap_app. by apply hidden_put. }
  intros [] s4 (H4 & E4 & F4 & T4 & N4). rewrite E4, E3, E2, F4, F3, T4. done.
Qed.

(** ** Removing rows *)
(** What is left of the staged graph. *)
Record thin (st : graph_db) : Prop := {
  th_kinds : ∀ j r, gd_nodes st !! j = Some r → ∃ r0, gd_nodes s0 !! j = Some r0 ∧ n_Kind r.2 = n_Kind r0.2 ∧ n_WorkflowID r.2 = n_WorkflowID r0.2;
  th_groups : hidden ug g_Key ig (gd_groups st);
  th_nodes : hidden un n_Key inn (gd_nodes st);
  th_transitions : hidden ut t_TransitionID it (gd_transitions st);
  th_edges : hidden ue ed_Key ie (gd_edges st) }.
Lemma thin_sub st st' : thin st → (∀ j r, gd_groups st' !! j = Some r → gd_groups st !! j = Some r) →
  (∀ j r, gd_nodes st' !! j = Some r → ∃ r0, gd_nodes st !! j = Some r0 ∧ n_Key r.2 = n_Key r0.2 ∧ n_Kind r.2 = n_Kind r0.2 ∧ n_WorkflowID r.2 = n_WorkflowID r0.2) →
  (∀ j r, gd_transitions st' !! j = Some r → gd_transitions st !! j = Some r) → (∀ j r, gd_edges st' !! j = Some r → gd_edges st !! j = Some r) →
  thin st'.
Proof.
  intros [H1 H2 H3 H4 H5] Hg Hn Ht He. split.
  - intros j r (r0 & Hr0 & _ & -> & ->)%Hn. eauto.
  - intros j r Hr%Hg. by apply H2.
  - intros j r (r0 & Hr0 & -> & _)%Hn. by apply H3.
  - intros j r Hr%Ht. by apply H4.
  - intros j r Hr%He. by apply H5.
Qed.

(** A loop of deletions of rows that exist. *)
Lemma sure_delete_each (f : string → txn graph_db save_stop unit) (gone present : graph_db → string → Prop) l s (X : graph_db → Prop) :
  NoDup l → (∀ st st' id, shrinks st st' → gone st id → gone st' id) →
  (∀ id st, id ∈ l → within w s0 st → X st → present st id → sure (f id) st (λ _ st',
    within w s0 st' ∧ shrinks st st' ∧ gone st' id ∧ X st' ∧ ∀ j, j ≠ id → present st j → present st' j)) →
  within w s0 s → X s → (∀ id, id ∈ l → present s id) →
  sure (each f l) s (λ _ st, within w s0 st ∧ shrinks s st ∧ (∀ id, id ∈ l → gone st id) ∧ X st).
Proof.
  intros Hnd Hmono Hf Hs HX Hp. eapply runs_mono; [apply (sure_each f l s (λ before st, within w s0 st ∧ shrinks s st ∧
    (∀ id, id ∈ before → gone st id) ∧ X st ∧ ∀ id, id ∈ l → id ∉ before → present st id))|].
  - split_and!; try done; [by intros id ?%elem_of_nil|auto].
  - intros before a after st El (Hst & Hsh & Hgone & HXst & Hpres).
    assert (a ∉ before) as Ha.
    { rewrite El in Hnd. apply NoDup_app in Hnd as (_ & Hd & _). intros Hin. apply (Hd a Hin). by left. }
    eapply runs_mono; [apply Hf; [rewrite El; set_solver|done|done|apply Hpres; [rewrite El; set_solver|done]]|].
    intros u st' (Hst' & Hsh' & Hga & HX' & Hkeep). split_and!; [done|by transitivity st| |done|].
    + intros id [Hid| ->%list_elem_of_singleton]%elem_of_app; [|done]. by eapply Hmono, Hgone.
    + intros id Hid [Hnb Hna]%not_elem_of_app. apply Hkeep; [|by apply Hpres]. intros ->. apply Hna. by left.
  - intros u st (H1 & H2 & H3 & H4 & _). done.
Qed.

Lemma stored_ids_NoDup : NoDup ig ∧ NoDup inn ∧ NoDup it ∧ NoDup ie.
Proof. split_and!; simpl; rewrite <- list_fmap_compose; apply NoDup_ordered. Qed.

Context (prepared : preparedWorkflowGraphSave).
Local Abbreviation d := (describeWorkflowGraphSave current prepared).
Local Abbreviation removed := (sd_Removed d).
Context (Hharm : harmless s0 d).

Lemma sure_clear_edges st : within w s0 st → thin st → (∀ j, edge_workflow s0 j = Some w → is_Some (gd_edges st !! j)) →
  sure (each (λ id, expectAffectedRowCount (DeleteWorkflowEdge faulty id)) (rm_edges removed)) st (λ _ st', within w s0 st' ∧ shrinks st st' ∧
    (∀ id, id ∈ rm_edges removed → edge_workflow st' id ≠ Some w) ∧
    thin st' ∧ gd_groups st' = gd_groups st ∧ gd_nodes st' = gd_nodes st ∧ gd_transitions st' = gd_transitions st).
Proof.
  intros Hst Hth Hpres. apply (sure_delete_each _ (λ st id, edge_workflow st id ≠ Some w) (λ st id, is_Some (gd_edges st !! id))); try done.
  - apply NoDup_filter, stored_ids_NoDup.
  - intros t t' id Hsh Hg Hid. by apply Hg, (sk_edges _ _ Hsh).
  - intros id t [_ Hid%stored_edge_ids]%list_elem_of_filter Ht (Hth' & E1 & E2 & E3) Hp.
    apply sure_post; [by apply can_delete_edge|]. eapply post_mono; [apply post_and; [by apply (clear_edge faulty w s0)|apply post_delete_edge]|].
    intros u t' [(H1 & H2 & H3) (-> & _)]. split_and!; try done.
    + apply (thin_sub t); try done; simpl; [intros j r Hr; by exists r|]. by intros j r [_ ?]%lookup_delete_Some.
    + intros j Hj Hjp. simpl. by rewrite lookup_delete_ne.
  - intros id [_ Hid%stored_edge_ids]%list_elem_of_filter. auto.
Qed.
Lemma sure_clear_transitions st : within w s0 st → thin st → (∀ j, transition_workflow s0 j = Some w → is_Some (gd_transitions st !! j)) →
  sure (each (λ id, expectAffectedRowCount (DeleteWorkflowTransitionGroupByID faulty id)) (rm_transitionGroups removed)) st (λ _ st',
    within w s0 st' ∧ shrinks st st' ∧ (∀ id, id ∈ rm_transitionGroups removed → transition_workflow st' id ≠ Some w) ∧
    thin st' ∧ gd_groups st' = gd_groups st ∧ gd_nodes st' = gd_nodes st).
Proof.
  intros Hst Hth Hpres. apply (sure_delete_each _ (λ st id, transition_workflow st id ≠ Some w) (λ st id, is_Some (gd_transitions st !! id))); try done.
  - apply NoDup_filter, stored_ids_NoDup.
  - intros t t' id Hsh Hg Hid. by apply Hg, (sk_transitions _ _ Hsh).
  - intros id t [_ Hid%stored_transition_ids]%list_elem_of_filter Ht (Hth' & E1 & E2) Hp.
    apply sure_post; [by apply can_delete_transition|].
    eapply post_mono; [apply post_and; [by apply (clear_transition faulty w s0)|apply post_delete_transition]|].
    intros u t' [(H1 & H2 & H3) (-> & _)]. split_and!; try done.
    + apply (thin_sub t); try done; simpl; [intros j r Hr; by exists r|by intros j r [_ ?]%lookup_delete_Some|].
      by intros j r [? _]%map_lookup_filter_Some.
    + intros j Hj Hjp. simpl. by rewrite lookup_delete_ne.
  - intros id [_ Hid%stored_transition_ids]%list_elem_of_filter. auto.
Qed.
Lemma sure_clear_nodes st : within w s0 st → thin st → (∀ j, node_workflow s0 j = Some w → is_Some (gd_nodes st !! j)) →
  sure (each (λ id, expectAffectedRowCount (DeleteWorkflowNode faulty id)) (rm_nodes removed)) st (λ _ st',
    within w s0 st' ∧ shrinks st st' ∧ (∀ id, id ∈ rm_nodes removed → node_workflow st' id ≠ Some w) ∧
    thin st' ∧ gd_groups st' = gd_groups st).
Proof.
  intros Hst Hth Hpres. apply (sure_delete_each _ (λ st id, node_workflow st id ≠ Some w) (λ st id, is_Some (gd_nodes st !! id))); try done.
  - apply NoDup_filter, stored_ids_NoDup.
  - intros t t' id Hsh Hg Hid. by apply Hg, (sk_nodes _ _ Hsh).
  - intros id t Hrm Ht (Hth' & E1) Hp. pose proof Hrm as [_ Hid%stored_node_ids]%list_elem_of_filter.
    apply sure_post; [apply can_delete_node; [done..|]|].
    { rewrite (f_anchors _ _ _ (wn_frame _ _ _ Ht)). intros [_ Hc]%task_node_counted. apply (ha_nodes _ _ Hharm) in Hrm. lia. }
    eapply post_mono; [apply post_and; [by apply (clear_node faulty w s0)|apply post_delete_node]|].
    intros u t' [(H1 & H2 & H3) (-> & _)]. split_and!; try done.
    + apply (thin_sub t); try done; simpl.
      * intros j r [_ Hr]%lookup_delete_Some. by exists r.
      * by intros j r [? _]%map_lookup_filter_Some.
      * by intros j r [? _]%map_lookup_filter_Some.
    + intros j Hj Hjp. simpl. by rewrite lookup_delete_ne.
  - intros id [_ Hid%stored_node_ids]%list_elem_of_filter. auto.
Qed.
Lemma sure_clear_groups st : within w s0 st → thin st → (∀ j, group_workflow s0 j = Some w → group_workflow st j = Some w) →
  sure (each (λ id, expectAffectedRowCount (DeleteWorkflowNodeGroup faulty id w)) (rm_nodeGroups removed)) st (λ _ st',
    within w s0 st' ∧ shrinks st st' ∧ (∀ id, id ∈ rm_nodeGroups removed → group_workflow st' id ≠ Some w) ∧ thin st').
Proof.
  intros Hst Hth Hpres. apply (sure_delete_each _ (λ st id, group_workflow st id ≠ Some w) (λ st id, group_workflow st id = Some w)); try done.
  - apply NoDup_filter, stored_ids_NoDup.
  - intros t t' id Hsh Hg Hid. by apply Hg, (sk_groups _ _ Hsh).
  - intros id t Hrm Ht Hth' Hp. apply sure_post; [by apply can_delete_group|].
    eapply post_mono; [apply post_and; [by apply (clear_group faulty w s0)|apply post_delete_group]|].
    intros u t' [(H1 & H2 & H3) (-> & _)]. split_and!; try done.
    + apply (thin_sub t); try done; simpl; [by intros j r [_ ?]%lookup_delete_Some|]. intros j r. rewrite lookup_fmap.
      intros ([k r0] & Hr0 & ->)%fmap_Some. exists (k, r0). simpl. rewrite ungroup_workflow, (proj1 (ungroup_key _ _)), (proj2 (ungroup_key _ _)). done.
    + intros j Hj (r & Hr & Hrw)%group_workflow_Some. apply group_workflow_Some. exists r. simpl. by rewrite lookup_delete_ne.
  - intros id [_ Hid%stored_group_ids]%list_elem_of_filter. auto.
Qed.

Lemma sure_clear (k : txn graph_db save_stop unit) (Q : unit → graph_db → Prop) : (∀ st, cleared w s0 prepared st → thin st → sure k st Q) →
  sure (_ ← stageWorkflowGraphSaveKeyChanges faulty newUUID current;
        _ ← each (λ id, expectAffectedRowCount (DeleteWorkflowEdge faulty id)) (rm_edges removed);
        _ ← each (λ id, expectAffectedRowCount (DeleteWorkflowTransitionGroupByID faulty id)) (rm_transitionGroups removed);
        _ ← each (λ id, expectAffectedRowCount (DeleteWorkflowNode faulty id)) (rm_nodes removed);
        _ ← each (λ id, expectAffectedRowCount (DeleteWorkflowNodeGroup faulty id w)) (rm_nodeGroups removed); k) s0 Q.
Proof.
  intros Hk. eapply sure_bind; [apply sure_stage|]. intros [] s1 (Hst & Hh1 & Hh2 & Hh3 & Hh4).
  assert (thin s1) as Hth by (split; try done; apply Hst).
  eapply sure_bind; [apply sure_clear_edges; [apply Hst|done|]|].
  { intros j Hj. apply (st_edges _ Hst), edge_workflow_Some in Hj as (r & ? & _). eauto. }
  intros [] s2 (W2 & _ & G2 & Hth2 & E2 & F2 & T2). eapply sure_bind; [apply sure_clear_transitions; [done..|]|].
  { intros j Hj. rewrite T2. apply (st_transitions _ Hst), transition_workflow_Some in Hj as (r & ? & _). eauto. }
  intros [] s3 (W3 & Hsh3 & G3 & Hth3 & E3 & F3). eapply sure_bind; [apply sure_clear_nodes; [done..|]|].
  { intros j Hj. rewrite F3, F2. apply (st_nodes _ Hst), node_workflow_Some in Hj as (r & ? & _). eauto. }
  intros [] s4 (W4 & Hsh4 & G4 & Hth4 & E4). eapply sure_bind; [apply sure_clear_groups; [done..|]|].
  { intros j Hj. unfold group_workflow. rewrite E4, E3, E2. by apply (st_groups _ Hst). }
  intros [] s5 (W5 & Hsh5 & G5 & Hth5). apply Hk; [|done]. by apply (cleared_intro w s0 prepared s2 s3 s4 s5).
Qed.
End staging.
