(* ===== verification/GraphProceed.v ===== *)
(** * Saves that nothing blocks

    The writes of a prepared graph succeed after the keys of the stored one
    were moved away, and so does the whole transaction. *)
From Stdlib Require Import ZArith String Ascii Lia.
From stdpp Require Import gmap strings list sorting.
From S2P Require Import Prelude Transactions GoStrings Types Validation ValidationSound CurrentState.
From S2P Require Import GraphTables GraphSave GraphFacts GraphSaveFacts GraphDraft GraphCommit GraphHistory GraphProgress.

Local Open Scope string_scope.

Lemma sure_with {A} (m : txn graph_db save_stop A) s Q R : sure m s Q → post m s R → sure m s (λ a s', Q a s' ∧ R a s').
Proof. intros H1 H2 n. specialize (H1 n). specialize (H2 n). destruct (m n s) as [[[a n'] s']|e]; done. Qed.

(** The checks of a row do not depend on its position. *)
Lemma node_check_at n so : (0 ≤ so)%Z → node_check (node_row_of n 0) = true → node_check (node_row_of n so) = true.
Proof. intros Hso. unfold node_check. simpl. by rewrite (proj2 (Z.leb_le _ _) Hso). Qed.
Lemma transition_check_at g so : (0 ≤ so)%Z → transition_check (transition_row_of g 0) = true → transition_check (transition_row_of g so) = true.
Proof. intros Hso. unfold transition_check. simpl. by rewrite (proj2 (Z.leb_le _ _) Hso). Qed.
Lemma edge_check_at e so : (0 ≤ so)%Z → edge_check (edge_row_of e 0) = true → edge_check (edge_row_of e so) = true.
Proof. intros Hso. unfold edge_check. simpl. by rewrite (proj2 (Z.leb_le _ _) Hso). Qed.

(** The rows of the graph pass the checks of their tables. *)
Definition checked_graph (p : preparedWorkflowGraphSave) : bool :=
  forallb (λ g, group_check (group_row_of g)) (nodeGroups p)
  && forallb (λ n, bool_decide (validateNodeCompletionMode (nr_Kind n) (nr_CompletionMode n) = None) && node_check (node_row_of n 0)) (nodes p)
  && forallb (λ g, transition_check (transition_row_of g 0)) (transitionGroups p)
  && forallb (λ e, edge_check (edge_row_of e 0)) (edges p).

Section filling.
Context (faulty : nat → bool) (Hhealthy : ∀ n, faulty n = false) (newUUID : WorkflowGraphEntityType → string → string).
Context (w : WorkflowID) (s0 : graph_db) (Hw : is_Some (gd_workflows s0 !! w)).
Context (p : preparedWorkflowGraphSave) (Hp : buildable w p) (Hharm : harmless s0 (describeWorkflowGraphSave (stored_graph s0 w) p)).
Local Abbreviation current := (stored_graph s0 w).

(** The graph can be written: its rows pass the checks, its identifiers are
    not those of another workflow, its keys not those drawn. *)
Record writable : Prop := {
  wr_checked : checked_graph p = true;
  wr_groups : ∀ g v, g ∈ nodeGroups p → group_workflow s0 (gr_ID g) = Some v → v = w;
  wr_nodes : ∀ n v, n ∈ nodes p → node_workflow s0 (nr_ID n) = Some v → v = w;
  wr_transitions : ∀ g v, g ∈ transitionGroups p → transition_workflow s0 (tr_ID g) = Some v → v = w;
  wr_edges : ∀ e v, e ∈ edges p → edge_workflow s0 (er_ID e) = Some v → v = w;
  wr_group_keys : ∀ j g, j ∈ gr_ID <$> nodeGroups current → g ∈ nodeGroups p → gr_Key g ≠ newUUID EntityNodeGroup j;
  wr_node_keys : ∀ j n, j ∈ nr_ID <$> nodes current → n ∈ nodes p → nr_Key n ≠ newUUID EntityNode j;
  wr_transition_keys : ∀ j g, j ∈ tr_ID <$> transitionGroups current → g ∈ transitionGroups p →
    TrimSpace (tr_TransitionID g) ≠ newUUID EntityTransitionGroup j;
  wr_edge_keys : ∀ j e, j ∈ er_ID <$> edges current → e ∈ edges p → er_Key e ≠ newUUID EntityEdge j }.
Context (Hwr : writable).

(** Each row of the workflow has a drawn key still, or is written. *)
Record filling (st : graph_db) : Prop := {
  fi_building : building w s0 p st;
  fi_groups : ∀ j r, gd_groups st !! j = Some r → group_workflow st j = Some w →
    (j ∈ gr_ID <$> nodeGroups current ∧ g_Key r.2 = newUUID EntityNodeGroup j) ∨
    ∃ g, g ∈ nodeGroups p ∧ gr_ID g = j ∧ g_Key r.2 = gr_Key g;
  fi_nodes : ∀ j r, gd_nodes st !! j = Some r → node_workflow st j = Some w →
    (j ∈ nr_ID <$> nodes current ∧ n_Key r.2 = newUUID EntityNode j ∧ ∃ r0, gd_nodes s0 !! j = Some r0 ∧ n_Kind r.2 = n_Kind r0.2) ∨
    ∃ n, n ∈ nodes p ∧ nr_ID n = j ∧ n_Key r.2 = nr_Key n ∧ n_Kind r.2 = nr_Kind n;
  fi_transitions : ∀ j r, gd_transitions st !! j = Some r → transition_workflow st j = Some w →
    (j ∈ tr_ID <$> transitionGroups current ∧ t_TransitionID r.2 = newUUID EntityTransitionGroup j) ∨
    ∃ g, g ∈ transitionGroups p ∧ tr_ID g = j ∧ t_TransitionID r.2 = TrimSpace (tr_TransitionID g);
  fi_edges : ∀ j r, gd_edges st !! j = Some r → edge_workflow st j = Some w →
    (j ∈ er_ID <$> edges current ∧ ed_Key r.2 = newUUID EntityEdge j) ∨
    ∃ e, e ∈ edges p ∧ er_ID e = j ∧ ed_TransitionGroupID r.2 = er_TransitionGroupID e ∧ ed_Key r.2 = er_Key e }.

Lemma filling_start st : cleared w s0 p st → thin newUUID w s0 st → filling st.
Proof.
  intros [[] Hg Hn Ht He] [K G N T E]. split; [by split|..]; intros j r Hr Hown; left.
  - assert (j ∈ gr_ID <$> nodeGroups current) by by apply stored_group_ids, wn_groups. split; [done|]. by apply G.
  - assert (j ∈ nr_ID <$> nodes current) by by apply stored_node_ids, wn_nodes. destruct (K j r Hr) as (r0 & ? & ? & _).
    split_and!; [done|by apply N|eauto].
  - assert (j ∈ tr_ID <$> transitionGroups current) by by apply stored_transition_ids, wn_transitions. split; [done|]. by apply T.
  - assert (j ∈ er_ID <$> edges current) by by apply stored_edge_ids, wn_edges. split; [done|]. by apply E.
Qed.

(** ** The checks of the prepared rows *)
Lemma checked_parts : (∀ g, g ∈ nodeGroups p → group_check (group_row_of g) = true) ∧
  (∀ n so, (0 ≤ so)%Z → n ∈ nodes p → validateNodeCompletionMode (nr_Kind n) (nr_CompletionMode n) = None ∧ node_check (node_row_of n so) = true) ∧
  (∀ g so, (0 ≤ so)%Z → g ∈ transitionGroups p → transition_check (transition_row_of g so) = true) ∧
  (∀ e so, (0 ≤ so)%Z → e ∈ edges p → edge_check (edge_row_of e so) = true).
Proof.
  pose proof (wr_checked Hwr) as H. unfold checked_graph in H. rewrite !andb_true_iff, !forallb_forall in H.
  destruct H as (((H1 & H2) & H3) & H4). split_and!.
  - intros g Hg%list_elem_of_In. auto.
  - intros n so Hso Hn%list_elem_of_In. specialize (H2 n Hn). apply andb_true_iff in H2 as [E%bool_decide_eq_true H2].
    split; [done|]. by apply node_check_at.
  - intros g so Hso Hg%list_elem_of_In. apply transition_check_at; auto.
  - intros e so Hso He%list_elem_of_In. apply edge_check_at; auto.
Qed.

(** ** Ownership during the writes *)
Lemma owned_group st g v : filling st → g ∈ nodeGroups p → group_workflow st (gr_ID g) = Some v → v = w.
Proof.
  intros Hst Hg Hv. destruct (decide (v = w)) as [?|Hne]; [done|].
  rewrite (frame_group w s0 st) in Hv by (apply Hst || done). by eapply wr_groups.
Qed.
Lemma owned_node st n v : filling st → n ∈ nodes p → node_workflow st (nr_ID n) = Some v → v = w.
Proof.
  intros Hst Hn Hv. destruct (decide (v = w)) as [?|Hne]; [done|].
  rewrite (frame_node w s0 st) in Hv by (apply Hst || done). by eapply wr_nodes.
Qed.
Lemma owned_transition st g v : filling st → g ∈ transitionGroups p → transition_workflow st (tr_ID g) = Some v → v = w.
Proof.
  intros Hst Hg Hv. destruct (decide (v = w)) as [?|Hne]; [done|].
  rewrite (frame_transition w s0 st) in Hv by (apply Hst || done). by eapply wr_transitions.
Qed.
Lemma owned_edge st e v : filling st → e ∈ edges p → edge_workflow st (er_ID e) = Some v → v = w.
Proof.
  intros Hst He Hv. destruct (decide (v = w)) as [?|Hne]; [done|].
  rewrite (frame_edge w s0 st) in Hv by (apply Hst || done). by eapply wr_edges.
Qed.

(** ** Rows that do not conflict *)
Lemma free_group st g j r : filling st → g ∈ nodeGroups p → gd_groups st !! j = Some r → g_WorkflowID r.2 = w → g_Key r.2 = gr_Key g → j = gr_ID g.
Proof.
  intros Hst Hg Hj Hjw Hk. assert (group_workflow st j = Some w) as Hown by (apply group_workflow_Some; eauto).
  destruct (fi_groups _ Hst j r Hj Hown) as [[Hin E]|(g' & Hg' & <- & E)].
  - exfalso. apply (wr_group_keys Hwr j g Hin Hg). congruence.
  - apply (bd_group_keys w p Hp); [done..|congruence].
Qed.
Lemma free_node st n j r : filling st → n ∈ nodes p → gd_nodes st !! j = Some r → n_WorkflowID r.2 = w → n_Key r.2 = nr_Key n → j = nr_ID n.
Proof.
  intros Hst Hn Hj Hjw Hk. assert (node_workflow st j = Some w) as Hown by (apply node_workflow_Some; eauto).
  destruct (fi_nodes _ Hst j r Hj Hown) as [(Hin & E & _)|(n' & Hn' & <- & E & _)].
  - exfalso. apply (wr_node_keys Hwr j n Hin Hn). congruence.
  - apply (bd_node_keys w p Hp); [done..|congruence].
Qed.
Lemma free_transition st g j r : filling st → g ∈ transitionGroups p → gd_transitions st !! j = Some r → transition_workflow st j = Some w →
  t_TransitionID r.2 = TrimSpace (tr_TransitionID g) → j = tr_ID g.
Proof.
  intros Hst Hg Hj Hown Hk. destruct (fi_transitions _ Hst j r Hj Hown) as [[Hin E]|(g' & Hg' & <- & E)].
  - exfalso. apply (wr_transition_keys Hwr j g Hin Hg). congruence.
  - apply (bd_transition_keys w p Hp); [done..|congruence].
Qed.
Lemma free_edge st e j r : filling st → e ∈ edges p → gd_edges st !! j = Some r → edge_workflow st j = Some w →
  ed_TransitionGroupID r.2 = er_TransitionGroupID e → ed_Key r.2 = er_Key e → j = er_ID e.
Proof.
  intros Hst He Hj Hown Ht Hk. destruct (fi_edges _ Hst j r Hj Hown) as [[Hin E]|(e' & He' & <- & E1 & E2)].
  - exfalso. apply (wr_edge_keys Hwr j e Hin He). congruence.
  - apply (bd_edge_keys w p Hp); [done..|congruence|congruence].
Qed.

(** A stored node of the workflow, in the prepared graph. *)
Local Abbreviation next := (foldl (λ m n, <[nr_ID n := n]> m) (∅ : gmap NodeID NodeRecord) (nodes p)).
Lemma stored_record id r : gd_nodes s0 !! id = Some r → node_workflow s0 id = Some w →
  ∃ n, n ∈ nodes current ∧ nr_ID n = id ∧ nr_Kind n = n_Kind r.2.
Proof.
  intros Hr (r' & Hr' & Hw')%node_workflow_Some. rewrite Hr in Hr'. injection Hr' as <-. destruct r as [k r].
  apply (stored_node w s0 id r), elem_of_nodes. eauto.
Qed.
Lemma next_record n : n ∈ nodes p → next !! nr_ID n = Some n.
Proof. intros Hn. apply (index_by_elem nr_ID); [apply (id_ids w p (bd_identified w p Hp))|done]. Qed.

Lemma free_start st n j r : filling st → n ∈ nodes p → gd_nodes st !! j = Some r → n_WorkflowID r.2 = w →
  nr_Kind n = NodeKindStart → n_Kind r.2 = NodeKindStart → j = nr_ID n.
Proof.
  intros Hst Hn Hj Hjw Hk Hk'. assert (node_workflow st j = Some w) as Hown by (apply node_workflow_Some; eauto).
  destruct (fi_nodes _ Hst j r Hj Hown) as [(Hin%stored_node_ids & _ & r0 & Hr0 & E)|(n' & Hn' & <- & _ & E)].
  2: { apply (bd_start w p Hp); [done..|congruence|done]. }
  destruct (stored_record j r0 Hr0 Hin) as (n0 & Hn0 & <- & Ek). pose proof (ha_start _ _ Hharm) as Hs. simpl in Hs. apply fmap_nil_inv in Hs.
  assert (nr_Kind <$> next !! nr_ID n0 = Some NodeKindStart) as (n' & E' & Ek')%fmap_Some.
  { apply dec_stable. intros Hne. assert (n0 ∈ []) as Hbad; [|by apply elem_of_nil in Hbad].
    rewrite <- Hs. apply list_elem_of_filter. split; [split; [congruence|done]|done]. }
  apply (index_by_Some nr_ID) in E' as [Hn' <-]. by apply (bd_start w p Hp).
Qed.
(** A node whose kind changes is not one of tasks. *)
Lemma free_kind st n old : filling st → n ∈ nodes p → gd_nodes st !! nr_ID n = Some old → n_Kind old.2 ≠ nr_Kind n →
  CountTaskNodeReferences st (nr_ID n) = 0%Z.
Proof.
  intros Hst Hn Hold Hk. assert (node_workflow st (nr_ID n) = Some (n_WorkflowID old.2)) as Hown by (apply node_workflow_Some; eauto).
  rewrite (owned_node st n _ Hst Hn Hown) in Hown. unfold CountTaskNodeReferences.
  rewrite (f_anchors _ _ _ (bu_frame _ _ _ _ (fi_building _ Hst))).
  destruct (fi_nodes _ Hst _ old Hold Hown) as [(Hin%stored_node_ids & _ & r0 & Hr0 & E)|(n' & Hn' & E & _ & Ek)].
  - destruct (stored_record _ r0 Hr0 Hin) as (n0 & Hn0 & Hid & Ek). apply (ha_kinds _ _ Hharm).
    rewrite <- Hid. apply list_elem_of_fmap_2, list_elem_of_filter. split; [|done]. rewrite Hid, (next_record n Hn). simpl.
    by rewrite bool_decide_eq_false_2 by congruence.
  - exfalso. apply Hk. rewrite Ek. f_equal. destruct (id_ids w p (bd_identified w p Hp)) as (_ & Hnd & _).
    by apply (NoDup_fmap_inj nr_ID (nodes p)).
Qed.

(** ** The writes *)
Local Abbreviation Hid := (bd_identified w p Hp).
Lemma sure_fill_group g st : g ∈ nodeGroups p → filling st → sure (upsertWorkflowNodeGroup faulty g) st (λ _, filling).
Proof.
  intros Hg Hst. pose proof (id_groups w p Hid g Hg) as Eg. apply sure_post.
  - apply can_upsert_group; [done|by apply checked_parts|intros v Hv; rewrite Eg; by eapply owned_group|].
    apply conflicts_false. intros j r Hj [= Hjw Hk]. eapply free_group; [done..|congruence|done].
  - eapply post_mono; [by apply (build_group faulty w s0 Hw p Hid); [|apply Hst]|]. intros u st' [Hb ->]. destruct Hst. split; [done| |done..].
    intros j r [[-> Hr]|[Hne Hj]]%lookup_put Hown.
    + right. exists g. by rewrite Hr.
    + rewrite group_workflow_put, decide_False in Hown by done. auto.
Qed.
Lemma sure_fill_node n so st : n ∈ nodes p → (0 ≤ so)%Z → filling st → (∀ g, g ∈ nodeGroups p → group_workflow st (gr_ID g) = Some w) →
  sure (upsertWorkflowNode faulty n so) st (λ _ st', filling st' ∧ gd_groups st' = gd_groups st).
Proof.
  intros Hn Hso Hst Hgroups. pose proof (id_nodes w p Hid n Hn) as En. destruct checked_parts as (_ & Hc & _). destruct (Hc n so Hso Hn) as [C1 C2].
  assert (∀ v, node_workflow st (nr_ID n) = Some v → v = nr_WorkflowID n) as Hown by (intros v Hv; rewrite En; by eapply owned_node).
  apply sure_post.
  - apply can_upsert_node; [done..| |done|intros old; by apply free_kind|].
    + unfold group_in_workflow. simpl. destruct (nr_GroupID n) as [g|] eqn:E; [|done].
      pose proof (bd_node_groups w p Hp n g Hn E) as (gr & -> & Hgr)%list_elem_of_fmap.
      apply Hgroups, group_workflow_Some in Hgr as (r & -> & Hr). apply bool_decide_eq_true_2. congruence.
    + unfold node_unique. simpl. rewrite andb_true_iff, !negb_true_iff, andb_false_iff. split.
      * apply conflicts_false. intros j r Hj [= Hjw Hk]. eapply free_node; [done..|congruence|done].
      * destruct (decide (nr_Kind n = NodeKindStart)) as [Ek|Ek]; [right|by left; apply bool_decide_eq_false_2].
        apply conflicts_false. intros j r Hj [= Hjw Hk]. eapply free_start; [done..|congruence|done|done].
  - eapply post_mono; [by apply (build_node faulty w s0 Hw p Hid); [|apply Hst]|]. intros u st' [Hb ->]. split; [|done]. destruct Hst. split; [done|done|..].
    + intros j r [[-> Hr]|[Hne Hj]]%lookup_put Hj'.
      * right. exists n. by rewrite Hr.
      * rewrite node_workflow_put, decide_False in Hj' by done. auto.
    + intros j r Hj. rewrite transition_workflow_node by (exact Hown || apply fi_building0). auto.
    + intros j r Hj. rewrite edge_workflow_node by (exact Hown || apply fi_building0). auto.
Qed.
Lemma sure_fill_transition g so st : g ∈ transitionGroups p → (0 ≤ so)%Z → filling st → (∀ n, n ∈ nodes p → node_workflow st (nr_ID n) = Some w) →
  sure (upsertWorkflowTransitionGroup faulty g so) st (λ _ st', filling st' ∧ gd_nodes st' = gd_nodes st).
Proof.
  intros Hg Hso Hst Hnodes. pose proof (id_transitions w p Hid g Hg) as Eg. destruct checked_parts as (_ & _ & Hc & _).
  pose proof (bd_sources w p Hp g Hg) as (n & En & Hn)%list_elem_of_fmap. specialize (Hnodes n Hn). rewrite <- En in Hnodes.
  pose proof (bu_consistent _ _ _ _ (fi_building _ Hst)) as Hcons. apply sure_post.
  - apply can_upsert_transition; [done|by rewrite Eg|by apply Hc| |].
    + intros old Hold. destruct (c_transitions st Hcons _ _ Hold) as [v Hv]. rewrite Eg, Hv. f_equal.
      eapply owned_transition; [done..|]. apply transition_workflow_Some. eauto.
    + apply conflicts_false. intros j r Hj [= Hsrc Hk]. eapply free_transition; [done..| |done].
      apply transition_workflow_Some. exists r. by rewrite Hsrc.
  - eapply post_mono; [apply post_and; [by apply (build_transition faulty w s0 Hw p Hid); [|apply Hst]|apply post_upsert_transition]|].
    intros u st' [(Hb & -> & _) (_ & _ & Hold & _)]. split; [|done]. destruct Hst. split; [done..| |].
    + intros j r [[-> Hr]|[Hne Hj]]%lookup_put Hj'.
      * right. exists g. by rewrite Hr.
      * rewrite transition_workflow_put, decide_False in Hj' by done. auto.
    + intros j r Hj. rewrite edge_workflow_transition; [auto|done|]. intros v Hv. simpl. rewrite Hnodes, (Hold v Hv). congruence.
Qed.
Lemma sure_fill_edge e so st : e ∈ edges p → (0 ≤ so)%Z → filling st → (∀ n, n ∈ nodes p → node_workflow st (nr_ID n) = Some w) →
  (∀ g, g ∈ transitionGroups p → transition_workflow st (tr_ID g) = Some w) →
  sure (upsertWorkflowEdge faulty e so) st (λ _ st', filling st' ∧ gd_nodes st' = gd_nodes st ∧ gd_transitions st' = gd_transitions st).
Proof.
  intros He Hso Hst Hnodes Htrans. pose proof (id_edges w p Hid e He) as Ee. destruct checked_parts as (_ & _ & _ & Hc).
  destruct (bd_edges w p Hp e He) as [(g & Et & Hg)%list_elem_of_fmap (n & En & Hn)%list_elem_of_fmap].
  specialize (Hnodes n Hn). rewrite <- En in Hnodes. specialize (Htrans g Hg). rewrite <- Et in Htrans.
  pose proof (bu_consistent _ _ _ _ (fi_building _ Hst)) as Hcons. apply sure_post.
  - apply can_upsert_edge; [done|by rewrite Ee..|by apply Hc| |].
    + intros old Hold. destruct (c_edges st Hcons _ _ Hold) as (v & Hv & _). rewrite Ee, Hv. f_equal.
      eapply owned_edge; [done..|]. apply edge_workflow_Some. eauto.
    + apply conflicts_false. intros j r Hj [= Ht Hk]. eapply free_edge; [done..| |done|done].
      apply edge_workflow_Some. exists r. by rewrite Ht.
  - eapply post_mono; [by apply (build_edge faulty w s0 Hw p Hid); [|apply Hst]|]. intros u st' (Hb & -> & _). split; [|done]. destruct Hst. split; [done..|].
    intros j r [[-> Hr]|[Hne Hj]]%lookup_put Hj'.
    + right. exists e. by rewrite Hr.
    + rewrite edge_workflow_put, decide_False in Hj' by done. auto.
Qed.

(** The rows of a prepared list belong to the workflow. *)
Lemma written_groups st : holds (gd_groups st) (group_rows p) → ∀ g, g ∈ nodeGroups p → group_workflow st (gr_ID g) = Some w.
Proof.
  intros Hh g Hg. destruct (Hh (gr_ID g) (group_row_of g)) as [k Hk]; [by apply (list_elem_of_fmap_2 (λ g, (gr_ID g, group_row_of g)))|].
  apply group_workflow_Some. eexists. split; [done|]. by apply (id_groups w p Hid).
Qed.
Lemma written_nodes st : holds (gd_nodes st) (node_rows p) → ∀ n, n ∈ nodes p → node_workflow st (nr_ID n) = Some w.
Proof.
  intros Hh n Hn. pose proof Hn as (i & Hi)%list_elem_of_lookup_1.
  destruct (Hh (nr_ID n) (node_row_of n (position i))) as [k Hk]; [apply elem_of_lookup_imap; eauto|].
  apply node_workflow_Some. eexists. split; [done|]. by apply (id_nodes w p Hid).
Qed.
Lemma written_transitions st : holds (gd_transitions st) (transition_rows p) → (∀ n, n ∈ nodes p → node_workflow st (nr_ID n) = Some w) →
  ∀ g, g ∈ transitionGroups p → transition_workflow st (tr_ID g) = Some w.
Proof.
  intros Hh Hn g Hg. pose proof Hg as (i & Hi)%list_elem_of_lookup_1.
  destruct (Hh (tr_ID g) (transition_row_of g (position i))) as [k Hk]; [apply elem_of_lookup_imap; eauto|].
  apply transition_workflow_Some. eexists. split; [done|]. simpl. pose proof (bd_sources w p Hp g Hg) as (n & -> & ?)%list_elem_of_fmap. auto.
Qed.

Lemma sure_fill st : filling st →
  sure (_ ← each (upsertWorkflowNodeGroup faulty) (nodeGroups p); _ ← each_at (upsertWorkflowNode faulty) (nodes p);
        _ ← each_at (upsertWorkflowTransitionGroup faulty) (transitionGroups p); each_at (upsertWorkflowEdge faulty) (edges p)) st (λ _ _, True).
Proof.
  intros Hst. eapply sure_bind; [apply sure_with; [apply (sure_loop _ _ _ filling Hst)|apply (build_groups faulty w s0 Hw p Hid); apply Hst]|].
  { intros g t Hg Ht. by apply sure_fill_group. }
  intros [] s1 [F1 [_ H1]]. pose proof (written_groups s1 H1) as G1.
  eapply sure_bind; [apply sure_with; [apply (sure_loop_at _ _ _ (λ t, filling t ∧ gd_groups t = gd_groups s1)); [done|]|apply (build_nodes faulty w s0 Hw p Hid), F1]|].
  { intros n so t Hn Hso [Ht E]. eapply runs_mono; [apply sure_fill_node; [done..|]|].
    - intros g Hg. unfold group_workflow. rewrite E. by apply G1.
    - intros u t' [Ht' E']. by rewrite E'. }
  intros [] s2 [[F2 _] (_ & _ & H2)]. pose proof (written_nodes s2 H2) as N2.
  eapply sure_bind; [apply sure_with; [apply (sure_loop_at _ _ _ (λ t, filling t ∧ gd_nodes t = gd_nodes s2)); [done|]|apply (build_transitions faulty w s0 Hw p Hid), F2]|].
  { intros g so t Hg Hso [Ht E]. eapply runs_mono; [apply sure_fill_transition; [done..|]|].
    - intros n Hn. unfold node_workflow. rewrite E. by apply N2.
    - intros u t' [Ht' E']. by rewrite E'. }
  intros [] s3 [[F3 E3] (_ & _ & _ & T3 & _)].
  assert (∀ n, n ∈ nodes p → node_workflow s3 (nr_ID n) = Some w) as N3 by (intros n Hn; unfold node_workflow; rewrite E3; by apply N2).
  pose proof (written_transitions s3 T3 N3) as W3.
  eapply runs_mono; [apply (sure_loop_at _ _ _ (λ t, filling t ∧ gd_nodes t = gd_nodes s3 ∧ gd_transitions t = gd_transitions s3)); [done|]|done].
  intros e so t He Hso (Ht & E & E'). eapply runs_mono; [apply sure_fill_edge; [done..| |]|].
  - intros n Hn. unfold node_workflow. rewrite E. by apply N3.
  - intros g Hg. unfold transition_workflow, node_workflow. rewrite E, E'. by apply W3.
  - intros u t' (Ht' & E1 & E2). by rewrite E1, E2.
Qed.

Lemma sure_apply : consistent s0 → restageable newUUID w s0 →
  sure (applyWorkflowGraphSave faulty newUUID w current p (sd_Removed (describeWorkflowGraphSave current p))) s0 (λ _, written w s0 p).
Proof.
  intros Hs Hre. apply sure_post; [|apply (post_apply faulty newUUID w s0 p Hw Hs Hid)]. apply sure_clear; [done..|].
  intros st Hcl Hth. by apply sure_fill, filling_start.
Qed.
End filling.

(** ** The transaction *)
Section committing.
Context (faulty : nat → bool) (Hhealthy : ∀ n, faulty n = false) (newUUID : WorkflowGraphEntityType → string → string).
Local Abbreviation tx := (txn graph_db save_stop) (only parsing).

Lemma sure_mapM {A B} (f : A → tx B) l s : (∀ a t, sure (f a) t (λ _ _, True)) → sure (mapM f l) s (λ _ _, True).
Proof.
  intros Hf. revert s. induction l as [|a l IH]; intros s; simpl; [by apply sure_ret|].
  eapply sure_bind; [apply Hf|]. intros b t _. eapply sure_bind; [apply IH|]. intros k t' _. by apply sure_ret.
Qed.
Lemma sure_read {A B} op (f : graph_db → A) (g : A → B) s : sure (a ← select faulty op f; mret (g a)) s (λ _ _, True).
Proof. eapply sure_bind; [by apply sure_select|]. intros a t _. by apply sure_ret. Qed.
Lemma sure_impact w d s : sure (evaluateWorkflowGraphSaveDynamicImpact faulty w d) s (λ _ _, True).
Proof.
  unfold evaluateWorkflowGraphSaveDynamicImpact, evaluateWorkflowGraphSaveDynamicDecision, counts.
  eapply (sure_bind _ _ _ (λ _ _, True)); [|intros e t _; by apply sure_read].
  eapply sure_bind; [apply sure_mapM|].
  { intros id t. eapply sure_bind; [by apply sure_select|]. intros n t' _. by apply sure_read. }
  intros a t _. do 3 (eapply sure_bind; [apply sure_mapM; intros id t'; by apply sure_read|]; intros ? ? _). by apply sure_ret.
Qed.

Lemma sure_update op w f s row : gd_workflows s !! w = Some row → workflow_check (f row) = true →
  sure (update_workflow faulty op w f) s (λ o _, o = Some (f row)).
Proof.
  intros Hrow Hc. unfold update_workflow. eapply runs_mono; [eapply sure_attempt; [done|]|].
  - rewrite Hrow, Hc. reflexivity.
  - by intros o t [-> _].
Qed.
Lemma sure_update_one op w f s row : gd_workflows s !! w = Some row → workflow_check (f row) = true →
  sure (expectAffectedRowCount (row ← update_workflow faulty op w f; mret (if bool_decide (is_Some row) then 1%nat else 0%nat))) s (λ _ _, True).
Proof.
  intros Hrow Hc. unfold expectAffectedRowCount. eapply (sure_bind _ _ _ (λ n _, n = 1%nat)).
  - eapply sure_bind; [by eapply sure_update|]. intros o t ->. by apply sure_ret.
  - intros n t ->. by apply sure_ret.
Qed.

Lemma metadata_policy name description policy metadata m changed :
  prepareWorkflowGraphSaveMetadata name description policy metadata = Ok (Some m, changed) → is_Some (gm_ExecutionTargetPolicy m).
Proof.
  unfold prepareWorkflowGraphSaveMetadata. destruct metadata as [metadata|]; [|done].
  cbv zeta. repeat case_match; intros [= <- <-]; done.
Qed.

(** What the save needs of the tables and of the keys it draws. *)
Record ready (plan : WorkflowGraphSavePlan) (w : WorkflowID) (now : Z) (s : graph_db) (row : workflow_info) : Prop := {
  rd_restageable : restageable newUUID w s;
  rd_writable : writable newUUID w s (gp_Prepared plan);
  rd_row : workflow_check row = true;
  rd_saved : workflow_check (saved_info plan now row) = true }.

Lemma version_check now row row' : workflow_check row = true → wi_UpdatedAtUnixMs row' = now → workflow_check row' = true →
  workflow_check (set_version (wi_Version row + 1) now row) = true.
Proof.
  unfold workflow_check. rewrite !andb_true_iff, !Z.leb_le. intros (((((H1 & H2) & H3) & _) & H4) & H5) <- (((((_ & _) & _) & H6) & _) & _). split_and!; try done. simpl. lia.
Qed.

Context (req : WorkflowGraphSaveRequest) (plan : WorkflowGraphSavePlan) (now : Z) (s : graph_db) (row : workflow_info).
Context (Hok : graph_ok s) (Hpl : planned req s plan row) (Hch : gp_GraphChanged plan || gp_MetadataChanged plan = true).
Local Abbreviation w := (sq_WorkflowID req).
Context (Hrd : ready plan w now s row) (Hharm : harmless s (gp_Structural plan)).

Lemma sure_graph : sure (if gp_GraphChanged plan then
    _ ← applyWorkflowGraphSave faulty newUUID (gp_WorkflowID plan) (gp_current plan) (gp_Prepared plan) (gp_Removed plan);
    IncrementWorkflowVersion faulty (gp_WorkflowID plan) now
  else mret (gp_Version plan)) s (λ _ _, True).
Proof.
  pose proof (pl_row _ _ _ _ Hpl) as Hrow.
  rewrite (pl_workflow _ _ _ _ Hpl), (pl_current _ _ _ _ Hpl), (pl_removed _ _ _ _ Hpl), (pl_structural _ _ _ _ Hpl).
  rewrite (pl_structural _ _ _ _ Hpl) in Hharm. destruct (gp_GraphChanged plan); [|by apply sure_ret].
  eapply sure_bind; [apply sure_apply; [done|by eexists|apply Hpl|done|apply Hrd|apply Hok|apply Hrd]|].
  intros [] t Hwt. eapply sure_bind; [eapply sure_update|].
  - by rewrite (bu_workflows _ _ _ _ (wt_building _ _ _ _ Hwt)).
  - by eapply version_check; [apply Hrd| |apply (rd_saved _ _ _ _ _ Hrd)].
  - intros o t' ->. by apply sure_ret.
Qed.

Lemma sure_metadata st version : (if gp_GraphChanged plan then gd_workflows st !! w = Some (set_version (wi_Version row + 1) now row) else st = s) →
  sure (save_metadata faulty plan now version) st (λ _ _, True).
Proof.
  intros Hst. pose proof (rd_saved _ _ _ _ _ Hrd) as Hsv. pose proof (pl_metadata _ _ _ _ Hpl) as Hm.
  unfold save_metadata. unfold saved_info in Hsv. rewrite (pl_workflow _ _ _ _ Hpl). destruct (gp_Metadata plan) as [m|]; [|by apply sure_ret].
  destruct (gp_MetadataChanged plan); simpl; [|by apply sure_ret].
  destruct (metadata_policy _ _ _ _ _ _ Hm) as [policy Ep]. rewrite Ep in *.
  destruct (gp_GraphChanged plan); (eapply sure_bind; [eapply sure_update_one|intros [] t _; by apply sure_ret]).
  - exact Hst.
  - exact Hsv.
  - rewrite Hst. apply Hpl.
  - exact Hsv.
Qed.

End committing.

Lemma sure_some {A} (m : txn graph_db save_stop A) s Q : sure m s Q → ∃ a s', Q a s'.
Proof. intros H. specialize (H 0%nat). destruct (m 0%nat s) as [[[a n] s']|e]; [eauto|done]. Qed.
Lemma planned_harmless req s plan row : planned req s plan row → harmless s (gp_Structural plan).
Proof.
  intros Hpl. destruct (pl_unblocked _ _ _ _ Hpl) as (e & He & Hb).
  pose proof (sure_with _ _ _ _ (sure_impact (λ _, false) (λ _, eq_refl) (sq_WorkflowID req) (gp_Structural plan) s)
    (post_and _ _ _ _ (He save_stop (λ _, false)) (post_impact (λ _, false) (sq_WorkflowID req) (gp_Structural plan) s))) as H.
  apply sure_some in H as (e' & s' & _ & [-> _] & _ & Hh). by apply (Hh req).
Qed.

Section saving.
Context (faulty : nat → bool) (Hhealthy : ∀ n, faulty n = false) (newUUID : WorkflowGraphEntityType → string → string).

Lemma sure_write req plan now s row : graph_ok s → planned req s plan row → gp_GraphChanged plan || gp_MetadataChanged plan = true →
  ready newUUID plan (sq_WorkflowID req) now s row → sure (write_graph faulty newUUID req plan now) s (λ _ _, True).
Proof.
  intros Hok Hpl Hch Hrd. pose proof (planned_harmless _ _ _ _ Hpl) as Hharm. pose proof (pl_row _ _ _ _ Hpl) as Hrow.
  unfold write_graph. eapply sure_bind; [by apply sure_select|]. intros [] t [_ ->].
  eapply (sure_bind _ _ _ (λ _ t, t = s)).
  { eapply sure_bind; [eapply sure_attempt; [done|]; rewrite bool_decide_eq_true_2 by (by eexists); reflexivity|].
    intros n t [-> ->]. by apply sure_ret. }
  intros [] t ->. eapply (sure_bind _ _ _ (λ r t, r = row ∧ t = s)).
  { eapply sure_bind; [by apply sure_select|]. intros r t [-> ->]. rewrite Hrow. by apply sure_ret. }
  intros r t [-> ->]. rewrite bool_decide_eq_true_2 by (symmetry; apply Hpl). simpl.
  destruct (pl_unblocked _ _ _ _ Hpl) as (e & He & Hb).
  eapply sure_bind; [apply sure_with; [by apply sure_impact|]|].
  { rewrite (pl_workflow _ _ _ _ Hpl). apply He. }
  intros e' t [_ [-> ->]]. rewrite Hb. simpl.
  eapply sure_bind; [apply sure_with; [by apply (sure_graph faulty Hhealthy newUUID req plan now s row)|
    apply (post_graph faulty newUUID plan (sq_WorkflowID req) now s row)]|].
  1: apply Hpl. 1: done. 1: by symmetry; apply Hpl. 1: apply Hok. 1: by eapply pl_identified. 1: apply Hpl.
  1: by rewrite (pl_removed _ _ _ _ Hpl), (pl_structural _ _ _ _ Hpl).
  intros version st [_ [Hrw Hst]]. eapply sure_bind; [apply sure_with; [apply (sure_metadata faulty Hhealthy newUUID req plan now s row Hpl Hch Hrd)|
    apply (post_metadata faulty plan (sq_WorkflowID req) now s st version row)]|]; try done.
  - destruct (gp_GraphChanged plan); apply Hst.
  - apply Hpl.
  - eapply metadata_changed, Hpl.
  - intros version' st' [_ (_ & Hrow' & Hrw')]. assert (saved plan (sq_WorkflowID req) now s st' row) as Hsv.
    { split; try done; [by symmetry; apply Hpl|]. by rewrite <- (pl_structural _ _ _ _ Hpl). }
    destruct (saved_ok _ _ _ _ _ _ Hok (pl_identified _ _ _ _ Hpl) Hsv) as [[Hc Ha _] _].
    eapply sure_bind; [eapply sure_attempt; [done|]; rewrite bool_decide_eq_true_2 by (by apply consistent_foreign_keys); reflexivity|].
    intros [] t _. by apply sure_ret.
Qed.

Lemma sure_transact {A} (m : txn graph_db save_stop A) s : sure m s (λ _ _, True) → ∃ a s', transact faulty m s = (Ok a, s').
Proof.
  intros H. unfold transact, query, mbind, txn_bind. rewrite Hhealthy. specialize (H 1%nat).
  destruct (m 1%nat s) as [[[a n] s']|e]; [|done]. rewrite Hhealthy. eauto.
Qed.

Lemma unblocked_commit req plan now s row : graph_ok s → planned req s plan row → gp_Blockers plan = [] →
  gp_GraphChanged plan || gp_MetadataChanged plan = true → ready newUUID plan (sq_WorkflowID req) now s row →
  ∃ version s', commitGraphSave faulty newUUID now req plan s = (Ok (saved_result plan version), s').
Proof.
  intros Hok Hpl Hb Hch Hrd. destruct (sure_transact _ _ (sure_write req plan now s row Hok Hpl Hch Hrd)) as (version & s' & E).
  exists version, s'. unfold commitGraphSave. rewrite Hb, E. simpl.
  destruct (gp_GraphChanged plan), (gp_MetadataChanged plan); done.
Qed.
End saving.

(** ** A test of the conditions *)
Definition unused_check {R} (ids : list string) (u : string → string) (key : R → string) (t : table R) : bool :=
  forallb (λ r, negb (key r.2.2 ∈? (u <$> ids))) (map_to_list t).
Lemma unused_checked {R} ids u (key : R → string) (t : table R) : unused_check ids u key t = true → unused ids u key t.
Proof.
  intros H i j r Hi Hj E. unfold unused_check in H. rewrite forallb_forall in H. specialize (H (j, r)).
  rewrite negb_true_iff, bool_decide_eq_false in H. apply H; [by apply list_elem_of_In, elem_of_map_to_list|]. simpl. rewrite E.
  by apply list_elem_of_fmap_2.
Qed.
Definition keys_check {A} (key : A → string) (l : list A) (ids : list string) (u : string → string) : bool :=
  forallb (λ a, negb (key a ∈? (u <$> ids))) l.
Lemma keys_checked {A} (key : A → string) l ids u : keys_check key l ids u = true → ∀ j a, j ∈ ids → a ∈ l → key a ≠ u j.
Proof.
  intros H j a Hj Ha%list_elem_of_In E. unfold keys_check in H. rewrite forallb_forall in H. specialize (H a Ha).
  rewrite negb_true_iff, bool_decide_eq_false in H. apply H. rewrite E. by apply list_elem_of_fmap_2.
Qed.
Definition owner_check {A} (owner : A → option WorkflowID) (l : list A) (w : WorkflowID) : bool :=
  forallb (λ a, match owner a with Some v => v ==? w | None => true end) l.
Lemma owner_checked {A} (owner : A → option WorkflowID) l w : owner_check owner l w = true → ∀ a v, a ∈ l → owner a = Some v → v = w.
Proof.
  intros H a v Ha%list_elem_of_In E. unfold owner_check in H. rewrite forallb_forall in H. specialize (H a Ha).
  rewrite E in H. by apply bool_decide_eq_true in H.
Qed.
Lemma all_checked {A} (f : A → bool) l : forallb f l = true → ∀ a, a ∈ l → f a = true.
Proof. rewrite forallb_forall. intros H a Ha%list_elem_of_In. auto. Qed.

Section testing.
Context (newUUID : WorkflowGraphEntityType → string → string) (plan : WorkflowGraphSavePlan) (w : WorkflowID) (now : Z) (s : graph_db).
Context (row : workflow_info).
Local Abbreviation current := (stored_graph s w).
Local Abbreviation p := (gp_Prepared plan).
Local Abbreviation ug := (newUUID EntityNodeGroup).
Local Abbreviation un := (newUUID EntityNode).
Local Abbreviation ut := (newUUID EntityTransitionGroup).
Local Abbreviation ue := (newUUID EntityEdge).

Definition restage_test : bool :=
  forallb (λ g, group_check (group_row_of (set_group_key (ug (gr_ID g)) g))) (nodeGroups current)
  && forallb (λ n, bool_decide (validateNodeCompletionMode (nr_Kind n) (nr_CompletionMode n) = None)
       && node_check (node_row_of (set_node_key (un (nr_ID n)) n) (nr_SortOrder n))) (nodes current)
  && forallb (λ g, transition_check (transition_row_of (set_transition_key (ut (tr_ID g)) g) (tr_SortOrder g))
       && (TrimSpace (ut (tr_ID g)) ==? ut (tr_ID g))) (transitionGroups current)
  && forallb (λ e, edge_check (edge_row_of (set_edge_key (ue (er_ID e)) e) (er_SortOrder e))) (edges current).
Definition draw_test : bool :=
  bool_decide (NoDup (ug <$> (gr_ID <$> nodeGroups current))) && bool_decide (NoDup (un <$> (nr_ID <$> nodes current)))
  && bool_decide (NoDup (ut <$> (tr_ID <$> transitionGroups current))) && bool_decide (NoDup (ue <$> (er_ID <$> edges current)))
  && unused_check (gr_ID <$> nodeGroups current) ug g_Key (gd_groups s) && unused_check (nr_ID <$> nodes current) un n_Key (gd_nodes s)
  && unused_check (tr_ID <$> transitionGroups current) ut t_TransitionID (gd_transitions s)
  && unused_check (er_ID <$> edges current) ue ed_Key (gd_edges s).
Definition write_test : bool :=
  checked_graph p && owner_check (λ g, group_workflow s (gr_ID g)) (nodeGroups p) w && owner_check (λ n, node_workflow s (nr_ID n)) (nodes p) w
  && owner_check (λ g, transition_workflow s (tr_ID g)) (transitionGroups p) w && owner_check (λ e, edge_workflow s (er_ID e)) (edges p) w
  && keys_check gr_Key (nodeGroups p) (gr_ID <$> nodeGroups current) ug && keys_check nr_Key (nodes p) (nr_ID <$> nodes current) un
  && keys_check (λ g, TrimSpace (tr_TransitionID g)) (transitionGroups p) (tr_ID <$> transitionGroups current) ut
  && keys_check er_Key (edges p) (er_ID <$> edges current) ue.

Lemma restage_tested : restage_test = true → draw_test = true → restageable newUUID w s.
Proof.
  unfold restage_test, draw_test. rewrite !andb_true_iff, !bool_decide_eq_true. intros (((H1 & H2) & H3) & H4) (((((((D1 & D2) & D3) & D4) & U1) & U2) & U3) & U4).
  split; try done; try by apply unused_checked.
  - by apply all_checked.
  - intros n Hn. pose proof (all_checked _ _ H2 n Hn) as H. by rewrite andb_true_iff, bool_decide_eq_true in H.
  - intros g Hg. pose proof (all_checked _ _ H3 g Hg) as H. by rewrite andb_true_iff, bool_decide_eq_true in H.
  - by apply all_checked.
Qed.
Lemma write_tested : write_test = true → writable newUUID w s p.
Proof.
  unfold write_test. rewrite !andb_true_iff. intros ((((((((H & O1) & O2) & O3) & O4) & K1) & K2) & K3) & K4).
  split; [done|by apply owner_checked..|by apply keys_checked|by apply keys_checked| |by apply keys_checked].
  by apply (keys_checked (λ g, TrimSpace (tr_TransitionID g))).
Qed.
End testing.
