(* ===== verification/GraphSamples.v ===== *)
(** * A sample history of stored graphs

    A workflow is created, its graph is saved, a task starts in it, and a
    second save exchanges the keys of two nodes. *)
From Stdlib Require Import ZArith String Ascii.
From stdpp Require Import gmap strings list sorting.
From S2P Require Import Prelude Transactions GoStrings Types Samples ValidationClaims CurrentState GraphTables GraphSave GraphHistory.

Local Open Scope string_scope.

Definition healthy (_ : nat) : bool := false.
Definition sample_uuid (_ : WorkflowGraphEntityType) (id : string) : string := "tmp-" +:+ id.

(** The definition with the keys of build and test exchanged and its labels
    padded. *)
Definition sample_rekey (n : Node) : Node :=
  match n with
  | AgentNode i role mode => AgentNode {| ni_WorkflowID := ni_WorkflowID i; ni_ID := ni_ID i;
      ni_Key := if ni_ID i ==? "build" then "test" else if ni_ID i ==? "test" then "build" else ni_Key i;
      ni_DisplayName := " " +:+ ni_DisplayName i; ni_GroupID := ni_GroupID i |} role mode
  | _ => n
  end.
Definition sample_edited : WorkflowDefinition := {|
  d_ID := d_ID sample_fanout; d_DisplayName := d_DisplayName sample_fanout;
  d_ExecutionTargetPolicy := d_ExecutionTargetPolicy sample_fanout; d_NodeGroups := d_NodeGroups sample_fanout;
  d_Nodes := sample_rekey <$> d_Nodes sample_fanout; d_TransitionGroups := d_TransitionGroups sample_fanout;
  d_Edges := d_Edges sample_fanout |}.

Definition sample_prepare (def : WorkflowDefinition) (version : Z) (s : graph_db) : result (store_error save_stop) WorkflowGraphSavePlan :=
  @prepareGraphSave default_order parse_plain (Some sample_catalog) healthy (NewWorkflowGraphSaveRequest def version) s.
Definition sample_plan (def : WorkflowDefinition) (version : Z) (s : graph_db) : WorkflowGraphSavePlan :=
  match sample_prepare def version s with Ok plan => plan | Err _ => zeroPlan 0%N 0 end.
Definition sample_commit (def : WorkflowDefinition) (version : Z) (s : graph_db) : result (store_error save_stop) WorkflowGraphSaveResult * graph_db :=
  commitGraphSave healthy sample_uuid 9 (NewWorkflowGraphSaveRequest def version) (sample_plan def version s) s.

Definition sample_created : graph_db := (CreateWorkflow healthy 7%N "start" "done" 5 "Feature" "" empty_graph).2.
Definition sample_saved : graph_db := (sample_commit sample_fanout 1 sample_created).2.
Definition sample_running : graph_db :=
  set_anchors {| ta_current := [(7%N, "plan", Some "e_begin")]; ta_approvals := []; ta_branches := [] |} sample_saved.
Definition sample_resaved : graph_db := (sample_commit sample_edited 2 sample_running).2.

Lemma sample_saved_prepared : sample_prepare sample_fanout 1 sample_created = Ok (sample_plan sample_fanout 1 sample_created).
Proof. unfold sample_plan. destruct (sample_prepare _ _ _) eqn:E; [done|]. by vm_compute in E. Qed.
Lemma sample_resaved_prepared : sample_prepare sample_edited 2 sample_running = Ok (sample_plan sample_edited 2 sample_running).
Proof. unfold sample_plan. destruct (sample_prepare _ _ _) eqn:E; [done|]. by vm_compute in E. Qed.
Lemma sample_history : @history default_order parse_plain (Some sample_catalog) [sample_running; sample_saved; sample_created; empty_graph].
Proof.
  apply history_tasks.
  - unfold sample_saved, sample_commit. apply (history_save _ _ sample_created sample_created [empty_graph] healthy); [|by left|].
    + unfold sample_created. apply history_create, history_empty.
    + exact sample_saved_prepared.
  - assert (node_workflow sample_saved "plan" = Some 7%N) as H by by vm_compute.
    unfold anchored. cbn [ta_current ta_approvals ta_branches]. split; [|split].
    + intros w id e Hin. apply list_elem_of_singleton in Hin. injection Hin as -> -> ->. exact H.
    + intros w id Hin. apply elem_of_nil in Hin. contradiction Hin.
    + intros id e Hin. apply elem_of_nil in Hin. contradiction Hin.
Qed.
