(* ===== verification/GraphClaims.v ===== *)
(** * What saving a graph guarantees

    In every history of saves, whatever their interleaving and whatever
    statements fail: a saved graph is the one read back, a version identifies
    its graph, and running tasks keep the nodes and edges they refer to. *)
From Stdlib Require Import ZArith String Ascii Lia.
From stdpp Require Import gmap strings list sorting.
From S2P Require Import Prelude Transactions GoStrings Types Selection PromptRefs Samples ValidationClaims CurrentState GraphTables GraphSave.
From S2P Require Import GraphFacts GraphSaveFacts GraphCommit GraphHistory GraphReadback GraphProceed GraphSamples.

Local Open Scope string_scope.

(** ** Round trip *)
(** C13. A save that changes the graph and reports success is read back: the
    definition read afterwards is the returned one in its stored form (labels
    trimmed, selections with their defaults), the record read is the returned
    one and has the next version, and every other workflow reads as before.
    The save may be prepared in any earlier state of the history. *)
Theorem saved_graph_is_read_back (o : RangeOrder) Parse roleResolver s1 s h faulty0 faulty newUUID now req plan r s'
    (Hhistory : history Parse roleResolver (s :: h)) (Hin : s1 ∈ s :: h)
    (Hprepared : prepareGraphSave Parse roleResolver faulty0 req s1 = Ok plan)
    (Hcommit : commitGraphSave faulty newUUID now req plan s = (Ok r, s'))
    (Hchanged : gp_GraphChanged plan = true) (Hsaved : sr_Saved r = true) :
  GetDefinition healthy (sq_WorkflowID req) s' = Ok (stored_definition (sr_Definition r), sr_Record r) ∧
  wr_Version (sr_Record r) = (gp_Version plan + 1)%Z ∧ sr_Version r = (gp_Version plan + 1)%Z ∧
  ∀ v, v ≠ sq_WorkflowID req → GetDefinition healthy v s' = GetDefinition healthy v s.
Proof.
  destruct (history_state _ _ _ _ _ Hhistory Hin) as (Hok & Hok1 & Hpr).
  destruct (commit_cases Parse roleResolver faulty newUUID faulty0 now req plan s1 s (Ok r) s') as [[_ Hr]|(row & Hpl & Hsv & Er)];
    [apply Hok|done|intros; by eapply progressed_fresh|done| |].
  { destruct (Hr r eq_refl Hsaved). congruence. }
  injection Er as ->. pose proof (sv_rewritten _ _ _ _ _ _ Hsv) as Hrw.
  destruct (record_reads req s1 plan row now Hpl) as [Hrec Hprep]; [apply (ok_refs _ Hok1 _ _ (pl_row _ _ _ _ Hpl))|].
  assert (stored_graph s' (sq_WorkflowID req) = prepared_rows (sq_WorkflowID req) (group_rows (gp_Prepared plan))
    (node_rows (gp_Prepared plan)) (transition_rows (gp_Prepared plan)) (edge_rows (gp_Prepared plan))) as Estored.
  { unfold stored_graph. rewrite (rw_groups _ _ _ _ Hrw), (rw_nodes _ _ _ _ Hrw), (rw_transitions _ _ _ _ Hrw), (rw_edges _ _ _ _ Hrw).
    by rewrite Hchanged. }
  split_and!.
  - rewrite Hrec. apply GetDefinition_read; [apply Hsv|]. rewrite Estored. apply definition_reads; [by eapply pl_identified|].
    apply bind_Ok in Hprep as (def & Hdef & E). injection E as E1 E2. rewrite <- E1. by subst def.
  - rewrite Hrec, <- (sv_version _ _ _ _ _ _ Hsv). unfold saved_info. repeat case_match; done.
  - done.
  - intros v Hv. pose proof (f_workflows _ _ _ (rw_frame _ _ _ _ Hrw) v Hv) as Ew.
    pose proof (frame_same _ v _ _ (rw_frame _ _ _ _ Hrw) Hv) as Hsame. destruct (gd_workflows s !! v) as [row'|] eqn:E.
    + by eapply GetDefinition_same.
    + unfold GetDefinition, workflowDefinitionFromQueries, GetWorkflow, select, query, mbind, txn_bind. simpl. by rewrite E, Ew.
Qed.

Lemma saved_graph_is_read_back_witness : ∃ r,
  sample_commit sample_edited 2 sample_running = (Ok r, sample_resaved) ∧
  GetDefinition healthy 7%N sample_resaved = Ok (stored_definition (sr_Definition r), sr_Record r) ∧ sr_Version r = 3%Z ∧
  NodeDisplayName <$> d_Nodes (sr_Definition r) = ["start"; " plan"; " build"; " test"; "merge"; " review"; "done"] ∧
  match GetDefinition healthy 7%N sample_resaved with Ok x => NodeDisplayName <$> d_Nodes x.1 | Err _ => [] end =
    ["start"; "plan"; "build"; "test"; "merge"; "review"; "done"].
Proof.
  destruct (sample_commit sample_edited 2 sample_running) as [[r|e] s'] eqn:E.
  2: { assert ((sample_commit sample_edited 2 sample_running).1 = Err e) as H by by rewrite E. by vm_compute in H. }
  assert (s' = sample_resaved) as -> by (unfold sample_resaved; by rewrite E).
  assert (match (sample_commit sample_edited 2 sample_running).1 with Ok r => sr_Saved r | Err _ => false end = true) as H1 by by vm_compute.
  assert (match (sample_commit sample_edited 2 sample_running).1 with Ok r => NodeDisplayName <$> d_Nodes (sr_Definition r) | Err _ => [] end =
    ["start"; " plan"; " build"; " test"; "merge"; " review"; "done"]) as H3 by by vm_compute.
  assert (gp_Version (sample_plan sample_edited 2 sample_running) = 2%Z) as H2 by by vm_compute.
  assert (gp_GraphChanged (sample_plan sample_edited 2 sample_running) = true) as H4 by by vm_compute.
  assert (match GetDefinition healthy 7%N sample_resaved with Ok x => NodeDisplayName <$> d_Nodes x.1 | Err _ => [] end =
    ["start"; "plan"; "build"; "test"; "merge"; "review"; "done"]) as H5 by by vm_compute.
  rewrite E in H1, H3. exists r. split; [reflexivity|].
  destruct (saved_graph_is_read_back default_order parse_plain (Some sample_catalog) sample_running sample_running _ healthy healthy
    sample_uuid 9 (NewWorkflowGraphSaveRequest sample_edited 2) (sample_plan sample_edited 2 sample_running) r sample_resaved sample_history
    ltac:(by left) sample_resaved_prepared E H4 H1) as (R1 & _ & R3 & _).
  split; [exact R1|]. split; [rewrite R3, H2; reflexivity|]. split; [exact H3|exact H5].
Defined.

(** ** Versions *)
(** C14. A version identifies the definition: two successful reads of a workflow
    in one history, the second later or in the same state, return versions in
    this order, and the same definition and record when the versions are equal.
    So a save whose expected version is still current was prepared from the
    graph it replaces. *)
Theorem version_identifies_definition (o : RangeOrder) Parse roleResolver s1 s h faulty1 faulty w def1 record1 def record
    (Hhistory : history Parse roleResolver (s :: h)) (Hin : s1 ∈ s :: h)
    (Hread1 : GetDefinition faulty1 w s1 = Ok (def1, record1)) (Hread : GetDefinition faulty w s = Ok (def, record)) :
  (wr_Version record1 ≤ wr_Version record)%Z ∧ (wr_Version record1 = wr_Version record → def = def1 ∧ record = record1).
Proof.
  destruct (history_state _ _ _ _ _ Hhistory Hin) as (_ & _ & Hpr).
  apply GetDefinition_Ok in Hread1 as (row1 & Hrow1 & -> & Hdef1). apply GetDefinition_Ok in Hread as (row & Hrow & -> & Hdef).
  destruct (Hpr w row1 Hrow1) as (row' & Hrow' & Hle & Heq). assert (row' = row) as -> by congruence. split; [done|].
  intros E. destruct (Heq E) as [-> Hsame]. rewrite (same_stored _ _ _ Hsame) in Hdef. split; [congruence|done].
Qed.

Lemma version_identifies_definition_witness : ∃ def1 record1 def record,
  GetDefinition healthy 7%N sample_saved = Ok (def1, record1) ∧ GetDefinition healthy 7%N sample_running = Ok (def, record) ∧
  wr_Version record = 2%Z ∧ def = def1 ∧ record = record1.
Proof.
  destruct (GetDefinition healthy 7%N sample_saved) as [[def1 record1]|e] eqn:E1; [|by vm_compute in E1].
  destruct (GetDefinition healthy 7%N sample_running) as [[def record]|e] eqn:E; [|by vm_compute in E].
  assert (match GetDefinition healthy 7%N sample_saved with Ok x => wr_Version x.2 | Err _ => 0%Z end = 2%Z) as H1 by by vm_compute.
  assert (match GetDefinition healthy 7%N sample_running with Ok x => wr_Version x.2 | Err _ => 0%Z end = 2%Z) as H by by vm_compute.
  rewrite E1 in H1. rewrite E in H. simpl in H1, H. exists def1, record1, def, record. do 3 (split; [done|]).
  apply (version_identifies_definition default_order parse_plain (Some sample_catalog) sample_saved sample_running
    [sample_saved; sample_created; empty_graph] healthy healthy 7%N); [apply sample_history|right; by left|exact E1|exact E|congruence].
Defined.

(** ** Running tasks *)
(** C3. A save leaves running tasks where they are: every node that a task, an
    approval or a branch of an approval refers to is still stored, with its
    workflow and its kind; every stored edge that a task or a branch entered by
    is still stored, with its group and its target; the start of each workflow
    is still its start; and a workflow that has a terminal still has one. *)
Theorem save_keeps_running_tasks (o : RangeOrder) Parse roleResolver s1 s h faulty0 faulty newUUID now req plan
    (Hhistory : history Parse roleResolver (s :: h)) (Hin : s1 ∈ s :: h)
    (Hprepared : prepareGraphSave Parse roleResolver faulty0 req s1 = Ok plan) :
  let s' := (commitGraphSave faulty newUUID now req plan s).2 in
  gd_anchors s' = gd_anchors s ∧
  (∀ id, task_node (gd_anchors s) id → ∃ w r r', (id, r) ∈ ListWorkflowNodes s w ∧ (id, r') ∈ ListWorkflowNodes s' w ∧ n_Kind r' = n_Kind r) ∧
  (∀ w id r, task_edge (gd_anchors s) id → (id, r) ∈ ListWorkflowEdges s w → ∃ r', (id, r') ∈ ListWorkflowEdges s' w ∧
    ed_TransitionGroupID r' = ed_TransitionGroupID r ∧ ed_TargetNodeID r' = ed_TargetNodeID r) ∧
  (∀ w id r, (id, r) ∈ ListWorkflowNodes s w → n_Kind r = NodeKindStart → ∃ r', (id, r') ∈ ListWorkflowNodes s' w ∧ n_Kind r' = NodeKindStart) ∧
  (∀ w id r, (id, r) ∈ ListWorkflowNodes s w → n_Kind r = NodeKindTerminal →
    ∃ id' r', (id', r') ∈ ListWorkflowNodes s' w ∧ n_Kind r' = NodeKindTerminal).
Proof.
  destruct (history_state _ _ _ _ _ Hhistory Hin) as (Hok & _ & Hpr). cbv zeta.
  pose proof (task_node_listed s Hok) as Hlisted.
  destruct (commitGraphSave _ _ _ _ _ s) as [res s'] eqn:E. simpl.
  destruct (commit_cases Parse roleResolver faulty newUUID faulty0 now req plan s1 s res s') as [[-> _]|(row & Hpl & Hsv & _)];
    [apply Hok|done|intros; by eapply progressed_fresh|done| |].
  { split_and!; try done; eauto. intros id (w & r & Hr)%Hlisted. by exists w, r, r. }
  pose proof (sv_rewritten _ _ _ _ _ _ Hsv) as Hrw. pose proof (rw_frame _ _ _ _ Hrw) as F. pose proof (pl_identified _ _ _ _ Hpl) as Hid.
  split_and!; [apply F|..].
  - intros id Ht. destruct (Hlisted id Ht) as (w & r & Hr). destruct (decide (w = sq_WorkflowID req)) as [-> |Hw].
    + destruct (task_node_kept plan _ now s s' row Hid Hsv id r Ht Hr) as (r' & ? & ?). eauto 7.
    + exists w, r, r. by rewrite (sg_nodes _ _ _ (frame_same _ w _ _ F Hw)).
  - intros w id r Ht Hr. destruct (decide (w = sq_WorkflowID req)) as [-> |Hw]; [by eapply task_edge_kept|].
    exists r. by rewrite (sg_edges _ _ _ (frame_same _ w _ _ F Hw)).
  - intros w id r Hr Hk. destruct (decide (w = sq_WorkflowID req)) as [-> |Hw]; [by eapply start_node_kept|].
    exists r. by rewrite (sg_nodes _ _ _ (frame_same _ w _ _ F Hw)).
  - intros w id r Hr Hk. destruct (decide (w = sq_WorkflowID req)) as [-> |Hw]; [by eapply terminal_kept|].
    exists id, r. by rewrite (sg_nodes _ _ _ (frame_same _ w _ _ F Hw)).
Qed.

Lemma save_keeps_running_tasks_witness :
  (∃ w r r', ("plan", r) ∈ ListWorkflowNodes sample_running w ∧ ("plan", r') ∈ ListWorkflowNodes sample_resaved w ∧ n_Kind r' = n_Kind r) ∧
  (λ r, n_Key r.2) <$> ListWorkflowNodes sample_running 7%N = ["start"; "plan"; "build"; "test"; "merge"; "review"; "done"] ∧
  (λ r, n_Key r.2) <$> ListWorkflowNodes sample_resaved 7%N = ["start"; "plan"; "test"; "build"; "merge"; "review"; "done"].
Proof.
  destruct (save_keeps_running_tasks default_order parse_plain (Some sample_catalog) sample_running sample_running
    [sample_saved; sample_created; empty_graph] healthy healthy sample_uuid 9 (NewWorkflowGraphSaveRequest sample_edited 2)
    (sample_plan sample_edited 2 sample_running) sample_history ltac:(by left) sample_resaved_prepared) as (_ & Hnodes & _).
  split; [|split; by vm_compute].
  assert (task_node (gd_anchors sample_running) "plan") as Ht.
  { left. exists 7%N, (Some "e_begin"). cbn [sample_running set_anchors gd_anchors ta_current]. by left. }
  exact (Hnodes "plan" Ht).
Defined.

(** ** The tables *)
(** C15. In every state of a history the tables are consistent: node groups,
    nodes, transition groups and edges refer to rows that exist and are of the
    same workflow, keys are unique where the schema asks for it, a workflow has
    at most one start, and the nodes tasks refer to are stored in the workflow
    of their task. Failed statements and refused saves included. *)
Theorem stored_graphs_consistent (o : RangeOrder) Parse roleResolver h s
    (Hhistory : history Parse roleResolver h) (Hin : s ∈ h) : consistent s ∧ anchored s (gd_anchors s) ∧ foreign_keys s.
Proof.
  destruct (history_ok _ _ _ Hhistory) as [Hok _]. destruct (Hok s Hin) as [Hc Ha _]. split_and!; [done|done|].
  by apply consistent_foreign_keys.
Qed.

Lemma stored_graphs_consistent_witness : consistent sample_running ∧ anchored sample_running (gd_anchors sample_running) ∧
  foreign_keys sample_running ∧ size (gd_nodes sample_running) = 7%nat ∧ size (gd_edges sample_running) = 7%nat.
Proof.
  destruct (stored_graphs_consistent default_order parse_plain (Some sample_catalog) _ sample_running sample_history ltac:(by left))
    as (H1 & H2 & H3).
  split; [exact H1|]. split; [exact H2|]. split; [exact H3|]. split; by vm_compute.
Defined.

(** ** Progress *)
(** C6. When the database does not fail, a save whose plan nothing blocks is
    carried out: it reports success and, when the plan changes something, leaves
    the next version; keys may be exchanged between entities. What it needs is
    that the rows of the graph pass the checks of their columns, that no
    identifier is one of another workflow, and that the keys drawn to move the
    stored ones away are distinct and in no graph. *)
Theorem unblocked_save_commits (o : RangeOrder) Parse roleResolver s h faulty0 faulty newUUID now req plan row
    (Hhistory : history Parse roleResolver (s :: h)) (Hhealthy : ∀ n, faulty n = false)
    (Hprepared : prepareGraphSave Parse roleResolver faulty0 req s = Ok plan) (Hblockers : gp_Blockers plan = [])
    (Hrow : gd_workflows s !! sq_WorkflowID req = Some row) (Hready : ready newUUID plan (sq_WorkflowID req) now s row) :
  ∃ r s', saveWorkflowGraph Parse roleResolver faulty0 faulty newUUID now req s s = (Ok r, s') ∧ sr_Saved r = true ∧
    if gp_GraphChanged plan || gp_MetadataChanged plan
    then ∃ row', gd_workflows s' !! sq_WorkflowID req = Some row' ∧ wi_Version row' = (wi_Version row + 1)%Z
    else s' = s.
Proof.
  assert (s ∈ s :: h) as Hin by by left. destruct (history_state _ _ _ _ _ Hhistory Hin) as (Hok & _ & Hpr).
  unfold saveWorkflowGraph. rewrite Hprepared. destruct (gp_GraphChanged plan || gp_MetadataChanged plan) eqn:Hch.
  - destruct (prepare_planned Parse roleResolver faulty0 req s plan Hprepared Hblockers Hch) as (row' & Hpl).
    assert (row' = row) as -> by (pose proof (pl_row _ _ _ _ Hpl); congruence).
    destruct (unblocked_commit faulty Hhealthy newUUID req plan now s row Hok Hpl Hblockers Hch Hready) as (version & s' & E).
    exists (saved_result plan version), s'. split; [done|]. split; [done|].
    destruct (commit_cases Parse roleResolver faulty newUUID faulty0 now req plan s s _ s' (ok_consistent _ Hok) Hprepared
      (λ row' H, progressed_fresh req s s plan row' Hpr H) E) as [[_ Hr]|(row' & _ & Hsv & _)].
    + destruct (Hr _ eq_refl eq_refl) as [E1 E2]. by rewrite E1, E2 in Hch.
    + exists (saved_info plan now row). assert (row' = row) as -> by (pose proof (sv_row _ _ _ _ _ _ Hsv); congruence).
      split; [apply Hsv|]. unfold saved_info. repeat case_match; done.
  - apply orb_false_iff in Hch as [E1 E2]. unfold commitGraphSave. rewrite Hblockers, E1, E2. by exists (workflowGraphSaveResult plan true), s.
Qed.

(** The keys of two nodes are exchanged. *)
Lemma unblocked_save_commits_witness : ∃ r s',
  @saveWorkflowGraph default_order parse_plain (Some sample_catalog) healthy healthy sample_uuid 9 (NewWorkflowGraphSaveRequest sample_edited 2)
    sample_running sample_running = (Ok r, s') ∧ sr_Saved r = true ∧ gp_GraphChanged (sample_plan sample_edited 2 sample_running) = true.
Proof.
  pose (row := default {| wi_Name := ""; wi_Description := ""; wi_Version := 0; wi_ExecutionTargetPolicy := "";
    wi_ExecutionTargetCustomRef := None; wi_UpdatedAtUnixMs := 0 |} (gd_workflows sample_running !! 7%N)).
  assert (gd_workflows sample_running !! 7%N = Some row) as Hrow by by vm_compute.
  assert (restage_test sample_uuid 7%N sample_running = true) as T1 by by vm_compute.
  assert (draw_test sample_uuid 7%N sample_running = true) as T2 by by vm_compute.
  assert (write_test sample_uuid (sample_plan sample_edited 2 sample_running) 7%N sample_running = true) as T3 by by vm_compute.
  assert (workflow_check row = true) as T4 by by vm_compute.
  assert (workflow_check (saved_info (sample_plan sample_edited 2 sample_running) 9 row) = true) as T5 by by vm_compute.
  assert (gp_Blockers (sample_plan sample_edited 2 sample_running) = []) as Hb by by vm_compute.
  assert (gp_GraphChanged (sample_plan sample_edited 2 sample_running) = true) as Hg by by vm_compute.
  destruct (unblocked_save_commits default_order parse_plain (Some sample_catalog) sample_running [sample_saved; sample_created; empty_graph]
    healthy healthy sample_uuid 9 (NewWorkflowGraphSaveRequest sample_edited 2) (sample_plan sample_edited 2 sample_running) row
    sample_history (λ _, eq_refl) sample_resaved_prepared Hb Hrow) as (r & s' & E & Hsaved & _).
  - split; [exact (restage_tested _ _ _ T1 T2)|exact (write_tested _ _ _ _ T3)|exact T4|exact T5].
  - exists r, s'. split; [exact E|]. split; [exact Hsaved|exact Hg].
Defined.
