(* ===== verification/AdmissionQueue.v ===== *)
(** * The automatic queue

    src/server/workflowexecution/current_node_automatic_queue.go: the queue of
    current nodes that wait for automatic admission, with the data of a queued
    start (current_node_admission.go). Entries are linked in three chains at
    once: the whole queue, the entries of one policy, and the entries of one
    policy and one task. Entries live in a heap and pointers are its addresses;
    a Go panic is [None]. *)
From Stdlib Require Import ZArith String.
From stdpp Require Import gmap strings list.
From S2P Require Import Prelude Types CurrentState.

Local Open Scope string_scope.

(** ** Queued starts *)
Inductive currentNodeAdmissionPolicy :=
| currentNodeAdmissionExplicitOverride
| currentNodeAdmissionAutomaticAgent
| currentNodeAdmissionAutomaticScript.
#[export] Instance currentNodeAdmissionPolicy_eq_dec : EqDecision currentNodeAdmissionPolicy.
Proof. solve_decision. Defined.
Definition isAutomatic (p : currentNodeAdmissionPolicy) : bool :=
  match p with currentNodeAdmissionExplicitOverride => false | _ => true end.
Definition countsAgentCapacity (p : currentNodeAdmissionPolicy) : bool :=
  match p with currentNodeAdmissionAutomaticAgent => true | _ => false end.

Inductive TaskPromptDelivery := TaskPromptDeliveryAssignment | TaskPromptDeliveryResume.
#[export] Instance TaskPromptDelivery_eq_dec : EqDecision TaskPromptDelivery.
Proof. solve_decision. Defined.

(** Pointers to an assignment, a completion and a capacity lease are numbers. *)
Record currentNodeQueuedStart := {
  qs_reference : CurrentNodeReference; qs_nodeKind : NodeKind; qs_taskPromptDelivery : TaskPromptDelivery;
  qs_assignmentSteer : option N; qs_policy : currentNodeAdmissionPolicy; qs_completion : option N;
  qs_agentCapacityLease : option N; qs_scheduling : string }.
#[export] Instance currentNodeQueuedStart_eq_dec : EqDecision currentNodeQueuedStart.
Proof. solve_decision. Defined.
Definition qs_task (s : currentNodeQueuedStart) : TaskID := cnr_TaskID (qs_reference s).

(** ** Entries and their links *)
Record currentNodeAutomaticQueueEntry := {
  en_start : currentNodeQueuedStart; en_order : Z;
  en_globalPrev : option N; en_globalNext : option N; en_policyPrev : option N; en_policyNext : option N;
  en_taskPrev : option N; en_taskNext : option N }.

(** The three pairs of links. *)
Inductive link := GlobalLink | PolicyLink | TaskLink.
#[export] Instance link_eq_dec : EqDecision link.
Proof. solve_decision. Defined.
Section links.
Implicit Types (e : currentNodeAutomaticQueueEntry).
Definition link_prev (k : link) e : option N :=
  match k with GlobalLink => en_globalPrev e | PolicyLink => en_policyPrev e | TaskLink => en_taskPrev e end.
Definition link_next (k : link) e : option N :=
  match k with GlobalLink => en_globalNext e | PolicyLink => en_policyNext e | TaskLink => en_taskNext e end.
Definition set_link_prev (k : link) (p : option N) e : currentNodeAutomaticQueueEntry := {|
  en_start := en_start e; en_order := en_order e;
  en_globalPrev := if k ==? GlobalLink then p else en_globalPrev e; en_globalNext := en_globalNext e;
  en_policyPrev := if k ==? PolicyLink then p else en_policyPrev e; en_policyNext := en_policyNext e;
  en_taskPrev := if k ==? TaskLink then p else en_taskPrev e; en_taskNext := en_taskNext e |}.
Definition set_link_next (k : link) (p : option N) e : currentNodeAutomaticQueueEntry := {|
  en_start := en_start e; en_order := en_order e;
  en_globalPrev := en_globalPrev e; en_globalNext := if k ==? GlobalLink then p else en_globalNext e;
  en_policyPrev := en_policyPrev e; en_policyNext := if k ==? PolicyLink then p else en_policyNext e;
  en_taskPrev := en_taskPrev e; en_taskNext := if k ==? TaskLink then p else en_taskNext e |}.
End links.

(** ** The queue *)
Record currentNodeAutomaticQueueLaneState := { lane_first : option N; lane_last : option N }.
Definition empty_lane : currentNodeAutomaticQueueLaneState := {| lane_first := None; lane_last := None |}.
Record currentNodeAutomaticQueueLanes := {
  agentLane : currentNodeAutomaticQueueLaneState; scriptLane : currentNodeAutomaticQueueLaneState }.
Definition empty_lanes : currentNodeAutomaticQueueLanes := {| agentLane := empty_lane; scriptLane := empty_lane |}.
Abbreviation entries := (gmap N currentNodeAutomaticQueueEntry) (only parsing).

Record currentNodeAutomaticQueue := {
  aq_global : currentNodeAutomaticQueueLaneState;
  aq_lanes : currentNodeAutomaticQueueLanes;
  aq_tasks : gmap TaskID currentNodeAutomaticQueueLanes;
  aq_nextOrder : Z;
  aq_size : Z;
  aq_heap : entries;
  aq_fresh : N }.
Definition new_queue : currentNodeAutomaticQueue := {|
  aq_global := empty_lane; aq_lanes := empty_lanes; aq_tasks := ∅; aq_nextOrder := 0; aq_size := 0; aq_heap := ∅; aq_fresh := 0 |}.

(** The lane of an automatic policy; the other policy panics. *)
Definition get_lane (lanes : currentNodeAutomaticQueueLanes) (policy : currentNodeAdmissionPolicy)
    : option currentNodeAutomaticQueueLaneState :=
  match policy with
  | currentNodeAdmissionAutomaticAgent => Some (agentLane lanes)
  | currentNodeAdmissionAutomaticScript => Some (scriptLane lanes)
  | currentNodeAdmissionExplicitOverride => None
  end.
Definition set_lane (lanes : currentNodeAutomaticQueueLanes) (policy : currentNodeAdmissionPolicy)
    (lane : currentNodeAutomaticQueueLaneState) : currentNodeAutomaticQueueLanes :=
  match policy with
  | currentNodeAdmissionAutomaticAgent => {| agentLane := lane; scriptLane := scriptLane lanes |}
  | currentNodeAdmissionAutomaticScript => {| agentLane := agentLane lanes; scriptLane := lane |}
  | currentNodeAdmissionExplicitOverride => lanes
  end.

(** Links the entry [x] behind the last one of a chain. *)
Definition push_link (k : link) (x : N) (lane : currentNodeAutomaticQueueLaneState) (h : entries)
    : currentNodeAutomaticQueueLaneState * entries :=
  match lane_last lane with
  | None => ({| lane_first := Some x; lane_last := Some x |}, h)
  | Some y => ({| lane_first := lane_first lane; lane_last := Some x |}, alter (set_link_next k (Some x)) y h)
  end.
(** Takes the entry [e] out of a chain. *)
Definition unlink (k : link) (e : currentNodeAutomaticQueueEntry) (lane : currentNodeAutomaticQueueLaneState) (h : entries)
    : currentNodeAutomaticQueueLaneState * entries :=
  let '(first, h) := match link_prev k e with
    | None => (link_next k e, h)
    | Some y => (lane_first lane, alter (set_link_next k (link_next k e)) y h)
    end in
  let '(last, h) := match link_next k e with
    | None => (link_prev k e, h)
    | Some y => (lane_last lane, alter (set_link_prev k (link_prev k e)) y h)
    end in
  ({| lane_first := first; lane_last := last |}, h).

Definition max_uint64 : Z := 2 ^ 64 - 1.

Definition append (start : currentNodeQueuedStart) (q : currentNodeAutomaticQueue) : option currentNodeAutomaticQueue :=
  let order := ((aq_nextOrder q + 1) mod 2 ^ 64)%Z in
  if order ==? 0%Z then None
  else
    let x := aq_fresh q in
    let taskLanes := default empty_lanes (aq_tasks q !! qs_task start) in
    policyLane ← get_lane (aq_lanes q) (qs_policy start);
    taskLane ← get_lane taskLanes (qs_policy start);
    let entry := {| en_start := start; en_order := order; en_globalPrev := lane_last (aq_global q); en_globalNext := None;
      en_policyPrev := lane_last policyLane; en_policyNext := None; en_taskPrev := lane_last taskLane; en_taskNext := None |} in
    let h := <[x := entry]> (aq_heap q) in
    let '(global, h) := push_link GlobalLink x (aq_global q) h in
    let '(policyLane, h) := push_link PolicyLink x policyLane h in
    let '(taskLane, h) := push_link TaskLink x taskLane h in
    Some {| aq_global := global; aq_lanes := set_lane (aq_lanes q) (qs_policy start) policyLane;
            aq_tasks := <[qs_task start := set_lane taskLanes (qs_policy start) taskLane]> (aq_tasks q);
            aq_nextOrder := order; aq_size := aq_size q + 1; aq_heap := h; aq_fresh := x + 1 |}.

Definition remove (x : N) (q : currentNodeAutomaticQueue) : option (currentNodeQueuedStart * currentNodeAutomaticQueue) :=
  e ← aq_heap q !! x;
  let task := qs_task (en_start e) in
  let policy := qs_policy (en_start e) in
  let '(global, h) := unlink GlobalLink e (aq_global q) (aq_heap q) in
  taskLanes ← aq_tasks q !! task;
  policyLane ← get_lane (aq_lanes q) policy;
  taskLane ← get_lane taskLanes policy;
  let '(policyLane, h) := unlink PolicyLink e policyLane h in
  let '(taskLane, h) := unlink TaskLink e taskLane h in
  let taskLanes := set_lane taskLanes policy taskLane in
  let unused := (lane_first (agentLane taskLanes) ==? None) && (lane_first (scriptLane taskLanes) ==? None) in
  Some (en_start e,
    {| aq_global := global; aq_lanes := set_lane (aq_lanes q) policy policyLane;
       aq_tasks := if unused then delete task (aq_tasks q) else <[task := taskLanes]> (aq_tasks q);
       aq_nextOrder := aq_nextOrder q; aq_size := aq_size q - 1; aq_heap := h; aq_fresh := aq_fresh q |}).

(** The loops over the whole queue read the next link before they remove an
    entry; the fuel is the number of entries of the heap and one. *)
Fixpoint removeTask_loop (fuel : nat) (taskID : TaskID) (entry : option N) (q : currentNodeAutomaticQueue)
    : option (list currentNodeQueuedStart * currentNodeAutomaticQueue) :=
  match entry, fuel with
  | None, _ => Some ([], q)
  | Some _, O => None
  | Some x, S fuel =>
    e ← aq_heap q !! x;
    let next := en_globalNext e in
    if qs_task (en_start e) ==? taskID then
      removed ← remove x q;
      rest ← removeTask_loop fuel taskID next removed.2;
      Some (removed.1 :: rest.1, rest.2)
    else removeTask_loop fuel taskID next q
  end.
Definition loop_fuel (q : currentNodeAutomaticQueue) : nat := S (size (aq_heap q)).
Definition removeTask (taskID : TaskID) (q : currentNodeAutomaticQueue) : option (list currentNodeQueuedStart * currentNodeAutomaticQueue) :=
  match aq_tasks q !! taskID with
  | None => Some ([], q)
  | Some _ => removeTask_loop (loop_fuel q) taskID (lane_first (aq_global q)) q
  end.

Definition clear (q : currentNodeAutomaticQueue) : currentNodeAutomaticQueue := {|
  aq_global := empty_lane; aq_lanes := empty_lanes; aq_tasks := ∅; aq_nextOrder := 0; aq_size := 0;
  aq_heap := aq_heap q; aq_fresh := aq_fresh q |}.

Definition order_of (q : currentNodeAutomaticQueue) (x : N) : Z := from_option en_order 0%Z (aq_heap q !! x).
(** The earlier of two entries. *)
Definition earlier (q : currentNodeAutomaticQueue) (agent script : option N) : option N :=
  match agent, script with
  | Some a, Some s => if (order_of q a <? order_of q s)%Z then Some a else Some s
  | Some a, None => Some a
  | None, script => script
  end.
(** The first entry of the last task that can be admitted, then of any. *)
Definition selectEntry (lastTask : option TaskID) (agentAvailable : bool) (q : currentNodeAutomaticQueue) : option N :=
  let choose (lanes : currentNodeAutomaticQueueLanes) :=
    if agentAvailable then earlier q (lane_first (agentLane lanes)) (lane_first (scriptLane lanes)) else lane_first (scriptLane lanes) in
  match (taskID ← lastTask; taskLanes ← aq_tasks q !! taskID; choose taskLanes) with
  | Some x => Some x
  | None => choose (aq_lanes q)
  end.

(** The selection with the removal that follows it in [takeAutomaticIntent]. *)
Definition take_selected (lastTask : option TaskID) (agentAvailable : bool) (q : currentNodeAutomaticQueue)
    : option (option (currentNodeQueuedStart * currentNodeAutomaticQueue)) :=
  match selectEntry lastTask agentAvailable q with
  | None => Some None
  | Some x => r ← remove x q; Some (Some r)
  end.
(** The search for a key in [currentNodeAdmissionLocked], with the removal. *)
Fixpoint remove_key_loop (fuel : nat) (key : CurrentNodeReferenceKey) (entry : option N) (q : currentNodeAutomaticQueue)
    : option (option (currentNodeQueuedStart * currentNodeAutomaticQueue)) :=
  match entry, fuel with
  | None, _ => Some None
  | Some _, O => None
  | Some x, S fuel =>
    e ← aq_heap q !! x;
    match CurrentNodeReference_Key (qs_reference (en_start e)) with
    | Err _ => None
    | Ok startKey => if startKey ==? key then r ← remove x q; Some (Some r) else remove_key_loop fuel key (en_globalNext e) q
    end
  end.
Definition remove_key (key : CurrentNodeReferenceKey) (q : currentNodeAutomaticQueue) :=
  remove_key_loop (loop_fuel q) key (lane_first (aq_global q)) q.

(** ** The list it stands for *)
Fixpoint items_loop (fuel : nat) (entry : option N) (q : currentNodeAutomaticQueue) : list currentNodeQueuedStart :=
  match entry, fuel with
  | Some x, S fuel => match aq_heap q !! x with Some e => en_start e :: items_loop fuel (en_globalNext e) q | None => [] end
  | _, _ => []
  end.
Definition items (q : currentNodeAutomaticQueue) : list currentNodeQueuedStart := items_loop (loop_fuel q) (lane_first (aq_global q)) q.

(** The first element that satisfies a test, and the others. *)
Fixpoint take_first {A} (f : A → bool) (l : list A) : option (A * list A) :=
  match l with
  | [] => None
  | a :: l => if f a then Some (a, l) else r ← take_first f l; Some (r.1, a :: r.2)
  end.
Definition admissible (agentAvailable : bool) (s : currentNodeQueuedStart) : bool :=
  agentAvailable || (qs_policy s ==? currentNodeAdmissionAutomaticScript).
(** Admission order: the first start of the task served last, else the first. *)
Definition take_next (lastTask : option TaskID) (agentAvailable : bool) (l : list currentNodeQueuedStart)
    : option (currentNodeQueuedStart * list currentNodeQueuedStart) :=
  match (taskID ← lastTask; take_first (λ s, admissible agentAvailable s && (qs_task s ==? taskID)) l) with
  | Some r => Some r
  | None => take_first (admissible agentAvailable) l
  end.
