(* ===== verification/AdmissionQueueFacts.v ===== *)
(** * The automatic queue as a list

    The linked entries of a queue represent a list of starts, and every
    operation does to them what the list operation does to the list. *)
From Stdlib Require Import ZArith String Lia.
From stdpp Require Import gmap strings list sorting.
From S2P Require Import Prelude Types CurrentState AdmissionQueue.

(** ** Chains *)
Section chains.
Context (k : link).
Implicit Types (h : entries) (l : list N) (lane : currentNodeAutomaticQueueLaneState).

(** The lane holds the entries of [l], linked in its order. *)
Record chain h lane l : Prop := {
  ch_first : lane_first lane = head l;
  ch_last : lane_last lane = last l;
  ch_links : ∀ l1 x l2, l = l1 ++ x :: l2 → ∃ e, h !! x = Some e ∧ link_prev k e = last l1 ∧ link_next k e = head l2 }.

Lemma chain_empty h : chain h empty_lane [].
Proof. split; [done..|]. by intros [] x l2. Qed.

(** Only the links of the entries matter. *)
Definition view (e : currentNodeAutomaticQueueEntry) := (link_prev k e, link_next k e).
Lemma chain_view h h' lane l : (∀ x, x ∈ l → view <$> h' !! x = view <$> h !! x) → chain h lane l → chain h' lane l.
Proof.
  intros Hv [H1 H2 H3]. split; [done..|]. intros l1 x l2 E. destruct (H3 l1 x l2 E) as (e & He & Hp & Hn).
  assert (x ∈ l) as Hx by (subst; apply elem_of_app; right; by left). specialize (Hv x Hx). rewrite He in Hv.
  destruct (h' !! x) as [e'|]; [|done]. exists e'. injection Hv as E1 E2. by rewrite E1, E2.
Qed.
Lemma next_set_next p e : link_next k (set_link_next k p e) = p.
Proof. by destruct k. Qed.
Lemma prev_set_next p e : link_prev k (set_link_next k p e) = link_prev k e.
Proof. by destruct k. Qed.
Lemma next_set_prev p e : link_next k (set_link_prev k p e) = link_next k e.
Proof. by destruct k. Qed.
Lemma prev_set_prev p e : link_prev k (set_link_prev k p e) = p.
Proof. by destruct k. Qed.

Lemma split_app {A} (l1 l2 a b : list A) y : l1 ++ l2 = a ++ y :: b →
  (∃ b', l1 = a ++ y :: b' ∧ b = b' ++ l2) ∨ (∃ a', l2 = a' ++ y :: b ∧ a = l1 ++ a').
Proof.
  revert a. induction l1 as [|x l1 IH]; intros a E; simpl in *; [right; eauto|].
  destruct a as [|z a]; simpl in E; injection E as -> E; [left; eauto|].
  destruct (IH a E) as [(b' & -> & ->)|(a' & -> & ->)]; [left|right]; eauto.
Qed.
Lemma last_inner {A} (l1 l2 : list A) y : NoDup (l1 ++ y :: l2) → last (l1 ++ y :: l2) = Some y → l2 = [].
Proof.
  intros Hnd Hl. destruct l2 as [|z l2]; [done|]. exfalso. rewrite last_app_cons, last_cons_cons in Hl.
  apply NoDup_app in Hnd as (_ & _ & [Hy _]%NoDup_cons). apply Hy. by apply last_Some_elem_of in Hl.
Qed.
Lemma head_inner {A} (l1 l2 : list A) y : NoDup (l1 ++ y :: l2) → head (l1 ++ y :: l2) = Some y → l1 = [].
Proof.
  intros Hnd Hl. destruct l1 as [|z l1]; [done|]. exfalso. injection Hl as ->.
  apply NoDup_cons in Hnd as [Hy _]. apply Hy, elem_of_app. right. by left.
Qed.

Lemma push_chain h lane l x e : chain h lane l → NoDup l → x ∉ l → h !! x = Some e → view e = (last l, None) →
  chain (push_link k x lane h).2 (push_link k x lane h).1 (l ++ [x]).
Proof.
  intros [H1 H2 H3] Hnd Hx He Hv. unfold push_link. rewrite H2. destruct (last l) as [z|] eqn:Ez; simpl.
  2: { apply last_None in Ez as ->. split; [done..|]. intros [|? [|]] y b E; simplify_eq/=. exists e. unfold view in Hv. by injection Hv as -> ->. }
  assert (z ∈ l) as Hz by by apply last_Some_elem_of. split; simpl; [|by rewrite last_snoc|].
  { rewrite H1. by destruct l. }
  intros a y b [(b' & -> & ->)|(a' & E & ->)]%split_app.
  - destruct (H3 a y b' eq_refl) as (ey & Hy & Hp & Hn). destruct (decide (y = z)) as [-> |Hyz].
    + pose proof (last_inner _ _ _ Hnd Ez) as ->. eexists. rewrite lookup_alter_eq, Hy. split; [done|].
      by rewrite next_set_next, prev_set_next.
    + exists ey. rewrite lookup_alter_ne by done. split_and!; [done..|]. rewrite Hn. destruct b' as [|? ?]; [|done].
      exfalso. rewrite last_snoc in Ez. congruence.
  - destruct a' as [|? [|]]; simplify_eq/=. exists e. rewrite lookup_alter_ne by congruence. unfold view in Hv. injection Hv as -> ->. by rewrite app_nil_r.
Qed.

(** The heap of [unlink]. *)
Definition alter_at (f : currentNodeAutomaticQueueEntry → currentNodeAutomaticQueueEntry) (o : option N) h : entries :=
  match o with Some y => alter f y h | None => h end.
Lemma lookup_alter_at f o h y : alter_at f o h !! y = if bool_decide (o = Some y) then f <$> h !! y else h !! y.
Proof.
  destruct o as [z|]; simpl; [|done]. case_bool_decide as E; [injection E as ->; apply lookup_alter_eq|].
  by rewrite lookup_alter_ne by congruence.
Qed.
Lemma unlink_eq e lane h : unlink k e lane h =
  ({| lane_first := match link_prev k e with None => link_next k e | Some _ => lane_first lane end;
      lane_last := match link_next k e with None => link_prev k e | Some _ => lane_last lane end |},
   alter_at (set_link_prev k (link_prev k e)) (link_next k e) (alter_at (set_link_next k (link_next k e)) (link_prev k e) h)).
Proof. unfold unlink. by destruct (link_prev k e), (link_next k e). Qed.

Lemma unlink_chain h lane l1 x l2 e : chain h lane (l1 ++ x :: l2) → NoDup (l1 ++ x :: l2) → h !! x = Some e →
  chain (unlink k e lane h).2 (unlink k e lane h).1 (l1 ++ l2).
Proof.
  intros [H1 H2 H3] Hnd He. destruct (H3 l1 x l2 eq_refl) as (e' & He' & Hp & Hn). assert (e' = e) as -> by congruence.
  rewrite unlink_eq, Hp, Hn. simpl. pose proof Hnd as (N1 & Hdis & [_ N2]%NoDup_cons)%NoDup_app.
  assert (∀ y, y ∈ l1 → head l2 ≠ Some y) as D1 by (intros y Hy ?%head_Some_elem_of; apply (Hdis y Hy); by right).
  assert (∀ y, y ∈ l2 → last l1 ≠ Some y) as D2 by (intros y Hy Hl%last_Some_elem_of; apply (Hdis y Hl); by right).
  split; simpl.
  - rewrite H1. destruct l1 as [|a l1] using rev_ind; [done|]. rewrite last_snoc. by destruct l1.
  - rewrite H2, last_app_cons. destruct l2 as [|b l2]; [by rewrite app_nil_r|]. by rewrite last_app_cons, last_cons_cons.
  - intros a y b [(b' & -> & ->)|(a' & -> & ->)]%split_app.
    + assert (y ∈ a ++ y :: b') as Hy by (apply elem_of_app; right; by left).
      destruct (H3 a y (b' ++ x :: l2)) as (ey & Hey & Py & Ny); [by rewrite <- app_assoc|].
      rewrite !lookup_alter_at, Hey. rewrite (bool_decide_eq_false_2 _ (D1 y Hy)). case_bool_decide as E; simpl.
      * pose proof (last_inner _ _ _ N1 E) as ->. eexists. split; [done|]. by rewrite next_set_next, prev_set_next.
      * exists ey. split_and!; [done..|]. rewrite Ny. destruct b' as [|? ?]; [|done]. by rewrite last_snoc in E.
    + assert (y ∈ a' ++ y :: b) as Hy by (apply elem_of_app; right; by left).
      destruct (H3 (l1 ++ x :: a') y b) as (ey & Hey & Py & Ny); [by rewrite <- app_assoc|].
      rewrite !lookup_alter_at, Hey. rewrite (bool_decide_eq_false_2 _ (D2 y Hy)). case_bool_decide as E; simpl.
      * pose proof (head_inner _ _ _ N2 E) as ->. eexists. split; [done|]. by rewrite next_set_prev, prev_set_prev, app_nil_r.
      * exists ey. split_and!; [done| |done]. rewrite Py, last_app_cons. destruct a' as [|? ?]; [done|]. by rewrite last_app_cons, last_cons_cons.
Qed.
End chains.

(** Updates of one pair of links leave alone what they do not touch. *)
Lemma push_same {B} (f : currentNodeAutomaticQueueEntry → B) k x lane h y : (∀ p e, f (set_link_next k p e) = f e) →
  f <$> (push_link k x lane h).2 !! y = f <$> h !! y.
Proof.
  intros Hf. unfold push_link. destruct (lane_last lane) as [z|]; simpl; [|done].
  destruct (decide (y = z)) as [-> |Hne]; [|by rewrite lookup_alter_ne by done]. rewrite lookup_alter_eq. destruct (h !! z); simpl; [|done]. by rewrite Hf.
Qed.
Lemma unlink_same {B} (f : currentNodeAutomaticQueueEntry → B) k e lane h y :
  (∀ p e, f (set_link_next k p e) = f e) → (∀ p e, f (set_link_prev k p e) = f e) → f <$> (unlink k e lane h).2 !! y = f <$> h !! y.
Proof.
  intros Hn Hp. rewrite unlink_eq. simpl. rewrite !lookup_alter_at. repeat case_bool_decide; destruct (h !! y); simpl; by rewrite ?Hp, ?Hn.
Qed.
Lemma push_lookup k x lane h y : lane_last lane ≠ Some y → (push_link k x lane h).2 !! y = h !! y.
Proof. unfold push_link. destruct (lane_last lane) as [z|]; simpl; [|done]. intros Hne. by rewrite lookup_alter_ne by congruence. Qed.
Lemma unlink_lookup k e lane h y : link_prev k e ≠ Some y → link_next k e ≠ Some y → (unlink k e lane h).2 !! y = h !! y.
Proof. intros H1 H2. rewrite unlink_eq. simpl. by rewrite !lookup_alter_at, !bool_decide_eq_false_2. Qed.

(** ** Families of chains: the entries of a list, by a class of theirs *)
Section family.
Context (k : link) {I : Type} `{EqDecision I} (c : N → option I).
Implicit Types (L : I → option currentNodeAutomaticQueueLaneState) (h : entries) (l : list N) (lane : currentNodeAutomaticQueueLaneState).
Definition members (i : I) l : list N := filter (λ x, c x = Some i) l.
Definition family h L l : Prop := ∀ i lane, L i = Some lane → chain k h lane (members i l).
(** The lanes with one replaced. *)
Definition replace_lane (i : I) lane L : I → option currentNodeAutomaticQueueLaneState := λ j, if decide (j = i) then Some lane else L j.

Lemma elem_of_members i l x : x ∈ members i l ↔ c x = Some i ∧ x ∈ l.
Proof. unfold members. by rewrite list_elem_of_filter. Qed.
Lemma family_view h h' L l : (∀ x, x ∈ l → view k <$> h' !! x = view k <$> h !! x) → family h L l → family h' L l.
Proof. intros Hv Hf i lane HL. eapply chain_view; [|by apply Hf]. intros x [_ Hx]%elem_of_members. by apply Hv. Qed.
Lemma family_lanes h L L' l : (∀ i lane, L' i = Some lane → L i = Some lane) → family h L l → family h L' l.
Proof. intros HL Hf i lane Hi. by apply Hf, HL. Qed.

Lemma family_push h L l x i lane e : family h L l → NoDup l → x ∉ l → c x = Some i → L i = Some lane → h !! x = Some e →
  view k e = (lane_last lane, None) → family (push_link k x lane h).2 (replace_lane i (push_link k x lane h).1 L) (l ++ [x]).
Proof.
  intros Hf Hnd Hx Hc HL He Hv j lane' Hj. unfold replace_lane in Hj. unfold members. rewrite filter_app, filter_cons, filter_nil.
  pose proof (Hf i lane HL) as Hi. case_decide as Ej.
  - subst j. injection Hj as <-. rewrite decide_True by done. eapply push_chain; [done|by apply NoDup_filter| |done|].
    + by intros [_ ?]%elem_of_members.
    + rewrite Hv. by rewrite (ch_last _ _ _ _ Hi).
  - rewrite decide_False by congruence. rewrite app_nil_r. eapply chain_view; [|by apply Hf].
    intros y [Hy _]%elem_of_members. rewrite push_lookup; [done|]. rewrite (ch_last _ _ _ _ Hi).
    intros [Hy' _]%last_Some_elem_of%elem_of_members. congruence.
Qed.
Lemma family_unlink h L l1 x l2 i lane e : family h L (l1 ++ x :: l2) → NoDup (l1 ++ x :: l2) → c x = Some i → L i = Some lane → h !! x = Some e →
  family (unlink k e lane h).2 (replace_lane i (unlink k e lane h).1 L) (l1 ++ l2).
Proof.
  intros Hf Hnd Hc HL He j lane' Hj. unfold replace_lane in Hj. unfold members. rewrite filter_app.
  pose proof (Hf i lane HL) as Hi. unfold members in Hi. rewrite filter_app, filter_cons, decide_True in Hi by done.
  destruct (ch_links _ _ _ _ Hi _ _ _ eq_refl) as (e' & He' & Hp & Hn). assert (e' = e) as -> by congruence. case_decide as Ej.
  - subst j. injection Hj as <-. eapply unlink_chain; [done| |done].
    pose proof (NoDup_filter (λ x, c x = Some i) _ Hnd) as Hnd'. by rewrite filter_app, filter_cons, decide_True in Hnd' by done.
  - pose proof (Hf j lane' Hj) as Hj'. unfold members in Hj'. rewrite filter_app, filter_cons, decide_False in Hj' by congruence.
    eapply chain_view; [|exact Hj']. rewrite <- filter_app. intros y [Hy _]%list_elem_of_filter. rewrite unlink_lookup; [done|rewrite Hp|rewrite Hn].
    + intros [Hy' _]%last_Some_elem_of%list_elem_of_filter. congruence.
    + intros [Hy' _]%head_Some_elem_of%list_elem_of_filter. congruence.
Qed.
Lemma family_links h L l1 x l2 i lane e : family h L (l1 ++ x :: l2) → c x = Some i → L i = Some lane → h !! x = Some e →
  link_prev k e = last (members i l1) ∧ link_next k e = head (members i l2).
Proof.
  intros Hf Hc HL He. pose proof (Hf i lane HL) as Hi. unfold members in Hi. rewrite filter_app, filter_cons, decide_True in Hi by done.
  destruct (ch_links _ _ _ _ Hi _ _ _ eq_refl) as (e' & He' & ?). by assert (e' = e) as -> by congruence.
Qed.
End family.
Lemma filter_on {A} (P Q : A → Prop) `{∀ x, Decision (P x)} `{∀ x, Decision (Q x)} (l : list A) :
  (∀ x, x ∈ l → P x ↔ Q x) → filter P l = filter Q l.
Proof.
  induction l as [|a l IH]; intros HP; [done|]. rewrite !filter_cons, IH by (intros x Hx; apply HP; by right).
  pose proof (HP a (list_elem_of_here _ _)) as Ha. repeat case_decide; tauto.
Qed.
Lemma family_class {I} `{EqDecision I} k (c c' : N → option I) h L l :
  (∀ x, x ∈ l → c' x = c x) → family k c h L l → family k c' h L l.
Proof.
  intros Hc Hf i lane HL. assert (members c' i l = members c i l) as ->; [|by apply Hf].
  apply filter_on. intros x Hx. by rewrite Hc.
Qed.

(** ** The representation *)
Definition content (e : currentNodeAutomaticQueueEntry) := (en_start e, en_order e).
Definition start_at (h : entries) (x : N) : option currentNodeQueuedStart := en_start <$> h !! x.
Definition policy_class (h : entries) (x : N) : option currentNodeAdmissionPolicy := qs_policy <$> start_at h x.
Definition task_class (h : entries) (x : N) : option (TaskID * currentNodeAdmissionPolicy) :=
  (λ s, (qs_task s, qs_policy s)) <$> start_at h x.
Definition task_lanes (tasks : gmap TaskID currentNodeAutomaticQueueLanes) (i : TaskID * currentNodeAdmissionPolicy) :=
  get_lane (default empty_lanes (tasks !! i.1)) i.2.

Record repr (q : currentNodeAutomaticQueue) (l : list N) : Prop := {
  rp_nodup : NoDup l;
  rp_fresh : ∀ x, is_Some (aq_heap q !! x) → (x < aq_fresh q)%N;
  rp_alive : ∀ x, x ∈ l → ∃ s, start_at (aq_heap q) x = Some s ∧ isAutomatic (qs_policy s) = true;
  rp_global : chain GlobalLink (aq_heap q) (aq_global q) l;
  rp_lanes : family PolicyLink (policy_class (aq_heap q)) (aq_heap q) (get_lane (aq_lanes q)) l;
  rp_tasks : family TaskLink (task_class (aq_heap q)) (aq_heap q) (task_lanes (aq_tasks q)) l;
  rp_used : ∀ t, is_Some (aq_tasks q !! t) → ∃ x, x ∈ l ∧ qs_task <$> start_at (aq_heap q) x = Some t;
  rp_order : StronglySorted (λ x y, (order_of q x < order_of q y)%Z) l;
  rp_bound : ∀ x, x ∈ l → (order_of q x ≤ aq_nextOrder q)%Z;
  rp_next : (0 ≤ aq_nextOrder q ≤ max_uint64)%Z;
  rp_size : aq_size q = Z.of_nat (length l) }.

Lemma repr_clear q : (∀ x, is_Some (aq_heap q !! x) → (x < aq_fresh q)%N) → repr (clear q) [].
Proof.
  intros Hq. split.
  - constructor.
  - exact Hq.
  - by intros x ?%elem_of_nil.
  - apply chain_empty.
  - intros [] lane HL; simplify_eq/=; apply chain_empty.
  - intros [t p] lane HL. unfold task_lanes in HL. simpl in HL. rewrite lookup_empty in HL. destruct p; simplify_eq/=; apply chain_empty.
  - intros t [? Ht]. simpl in Ht. by rewrite lookup_empty in Ht.
  - constructor.
  - by intros x ?%elem_of_nil.
  - done.
  - done.
Qed.
Lemma repr_new : repr new_queue [].
Proof. apply (repr_clear new_queue). intros x [e He]. simpl in He. by rewrite lookup_empty in He. Qed.

(** Heaps with the same contents. *)
Section contents.
Context (h h' : entries) (l : list N) (Hc : ∀ x, x ∈ l → content <$> h' !! x = content <$> h !! x).
Lemma content_start x : x ∈ l → start_at h' x = start_at h x.
Proof.
  intros Hx. specialize (Hc x Hx). unfold start_at. destruct (h !! x), (h' !! x); simpl in *; [|done..]. by injection Hc as -> _.
Qed.
Lemma content_order x : x ∈ l → from_option en_order 0%Z (h' !! x) = from_option en_order 0%Z (h !! x).
Proof. intros Hx. specialize (Hc x Hx). destruct (h !! x), (h' !! x); simpl in *; [|done..]. by injection Hc as _ ->. Qed.
Lemma content_policy x : x ∈ l → policy_class h' x = policy_class h x.
Proof. intros Hx. unfold policy_class. by rewrite content_start. Qed.
Lemma content_task x : x ∈ l → task_class h' x = task_class h x.
Proof. intros Hx. unfold task_class. by rewrite content_start. Qed.
End contents.
Lemma get_set_lane lanes p p' lane : get_lane lanes p ≠ None → get_lane (set_lane lanes p lane) p' = if decide (p' = p) then Some lane else get_lane lanes p'.
Proof. by destruct p, p'. Qed.
Lemma sorted_ext {A} (R R' : relation A) l : (∀ x y, x ∈ l → y ∈ l → R x y → R' x y) → StronglySorted R l → StronglySorted R' l.
Proof.
  intros HR. induction 1 as [|a l Hs IH Ha]; constructor.
  - apply IH. intros x y Hx Hy. apply HR; by right.
  - rewrite Forall_forall in *. intros x Hx. apply HR; [by left|by right|by apply Ha].
Qed.

(** ** Appending *)
Section appending.
Context (q : currentNodeAutomaticQueue) (l : list N) (Hq : repr q l).
Context (start : currentNodeQueuedStart) (order : Z) (plane tlane : currentNodeAutomaticQueueLaneState).
Context (Hplane : get_lane (aq_lanes q) (qs_policy start) = Some plane).
Context (Htlane : task_lanes (aq_tasks q) (qs_task start, qs_policy start) = Some tlane).
Local Abbreviation x := (aq_fresh q).
Local Abbreviation entry := {| en_start := start; en_order := order; en_globalPrev := lane_last (aq_global q); en_globalNext := None;
  en_policyPrev := lane_last plane; en_policyNext := None; en_taskPrev := lane_last tlane; en_taskNext := None |}.
Local Abbreviation h1 := (<[x := entry]> (aq_heap q)).
Local Abbreviation hA := (push_link GlobalLink x (aq_global q) h1).2.
Local Abbreviation hB := (push_link PolicyLink x plane hA).2.
Local Abbreviation hC := (push_link TaskLink x tlane hB).2.

Lemma fresh_out : x ∉ l.
Proof.
  intros (s & Hs & _)%(rp_alive q l Hq). unfold start_at in Hs. apply fmap_Some in Hs as (e & He & _).
  pose proof (rp_fresh q l Hq x (ex_intro _ e He)). lia.
Qed.
Lemma last_out k lane m : chain k (aq_heap q) lane m → (∀ y, y ∈ m → y ∈ l) → lane_last lane ≠ Some x.
Proof. intros Hc Hm. rewrite (ch_last _ _ _ _ Hc). intros E%last_Some_elem_of. by apply fresh_out, Hm. Qed.
Lemma new_entry : hA !! x = Some entry ∧ hB !! x = Some entry ∧ hC !! x = Some entry.
Proof.
  assert (hA !! x = Some entry) as HA.
  { rewrite push_lookup, lookup_insert_eq; [done|]. eapply last_out; [apply Hq|done]. }
  assert (hB !! x = Some entry) as HB.
  { rewrite push_lookup; [done|]. eapply last_out; [by apply (rp_lanes q l Hq)|]. by intros y [_ ?]%elem_of_members. }
  split_and!; [done..|]. rewrite push_lookup; [done|]. eapply last_out; [by apply (rp_tasks q l Hq)|]. by intros y [_ ?]%elem_of_members.
Qed.
Lemma append_same {B} (f : currentNodeAutomaticQueueEntry → B) y : y ∈ l →
  (∀ p e, f (set_link_next GlobalLink p e) = f e) → (∀ p e, f (set_link_next PolicyLink p e) = f e) →
  (∀ p e, f (set_link_next TaskLink p e) = f e) → f <$> hC !! y = f <$> aq_heap q !! y.
Proof.
  intros Hy H1 H2 H3. rewrite !push_same by done. rewrite lookup_insert_ne; [done|]. intros <-. by apply fresh_out.
Qed.
Lemma append_content y : y ∈ l → content <$> hC !! y = content <$> aq_heap q !! y.
Proof. intros Hy. by apply append_same. Qed.
Lemma append_start : start_at hC x = Some start.
Proof. unfold start_at. by rewrite (proj2 (proj2 new_entry)). Qed.

Lemma append_global : chain GlobalLink hC (push_link GlobalLink x (aq_global q) h1).1 (l ++ [x]).
Proof.
  eapply chain_view; [|eapply push_chain; [|apply Hq|apply fresh_out|apply lookup_insert_eq|]].
  - intros y _. by do 2 rewrite push_same by done.
  - eapply chain_view; [|apply Hq]. intros y Hy. rewrite lookup_insert_ne; [done|]. intros <-. by apply fresh_out.
  - unfold view. simpl. by rewrite (ch_last _ _ _ _ (rp_global q l Hq)).
Qed.
Lemma append_lanes : family PolicyLink (policy_class hC) hC
  (replace_lane (qs_policy start) (push_link PolicyLink x plane hA).1 (get_lane (aq_lanes q))) (l ++ [x]).
Proof.
  eapply family_view; [|eapply family_push; [|apply Hq|apply fresh_out| |done|apply new_entry|done]].
  - intros y _. by rewrite push_same by done.
  - eapply (family_class _ (policy_class (aq_heap q))); [intros y Hy; apply (content_policy _ _ l); [apply append_content|done]|].
    eapply family_view; [|apply Hq]. intros y Hy. rewrite push_same by done. rewrite lookup_insert_ne; [done|]. intros <-. by apply fresh_out.
  - unfold policy_class. by rewrite append_start.
Qed.
Lemma append_tasks : family TaskLink (task_class hC) hC
  (replace_lane (qs_task start, qs_policy start) (push_link TaskLink x tlane hB).1 (task_lanes (aq_tasks q))) (l ++ [x]).
Proof.
  eapply family_push; [|apply Hq|apply fresh_out| |done|apply new_entry|done].
  - eapply (family_class _ (task_class (aq_heap q))); [intros y Hy; apply (content_task _ _ l); [apply append_content|done]|].
    eapply family_view; [|apply Hq]. intros y Hy. rewrite !push_same by done. rewrite lookup_insert_ne; [done|]. intros <-. by apply fresh_out.
  - unfold task_class. by rewrite append_start.
Qed.

Definition appended : currentNodeAutomaticQueue := {|
  aq_global := (push_link GlobalLink x (aq_global q) h1).1;
  aq_lanes := set_lane (aq_lanes q) (qs_policy start) (push_link PolicyLink x plane hA).1;
  aq_tasks := <[qs_task start := set_lane (default empty_lanes (aq_tasks q !! qs_task start)) (qs_policy start)
    (push_link TaskLink x tlane hB).1]> (aq_tasks q);
  aq_nextOrder := order; aq_size := aq_size q + 1; aq_heap := hC; aq_fresh := x + 1 |}.
Lemma append_eq : ((aq_nextOrder q + 1) mod 2 ^ 64)%Z = order → order ≠ 0%Z → append start q = Some appended.
Proof.
  intros Eo Hne. unfold append, appended. rewrite Eo, bool_decide_eq_false_2 by done. unfold task_lanes in Htlane. simpl in Htlane.
  cbv zeta. rewrite Hplane. cbn [mbind option_bind]. rewrite Htlane. cbn [mbind option_bind].
  destruct (push_link GlobalLink _ _ _) as [g hA]. cbn [fst snd]. destruct (push_link PolicyLink _ _ _) as [pl hB]. cbn [fst snd].
  by destruct (push_link TaskLink _ _ _) as [tl hC].
Qed.
Lemma task_lanes_insert t p lane lanes (tasks : gmap TaskID currentNodeAutomaticQueueLanes) i :
  lanes = default empty_lanes (tasks !! t) → get_lane lanes p ≠ None →
  task_lanes (<[t := set_lane lanes p lane]> tasks) i = replace_lane (t, p) lane (task_lanes tasks) i.
Proof.
  intros -> Hl. destruct i as [t' p']. unfold task_lanes, replace_lane. simpl. destruct (decide (t' = t)) as [-> |Hne].
  - rewrite lookup_insert_eq. simpl. rewrite get_set_lane by done. repeat case_decide; congruence.
  - rewrite lookup_insert_ne by done. rewrite decide_False by congruence. done.
Qed.
End appending.

Lemma sorted_snoc {A} (R : relation A) l a : StronglySorted R l → (∀ b, b ∈ l → R b a) → StronglySorted R (l ++ [a]).
Proof.
  induction 1 as [|b l Hs IH Hb]; intros Ha; simpl; constructor; [constructor|constructor| |].
  - apply IH. intros c Hc. apply Ha. by right.
  - apply Forall_app. split; [done|]. constructor; [|done]. apply Ha. by left.
Qed.

Lemma append_ok start q l : repr q l → isAutomatic (qs_policy start) = true →
  match append start q with
  | Some q' => repr q' (l ++ [aq_fresh q]) ∧ start_at (aq_heap q') (aq_fresh q) = Some start ∧
      (∀ x, x ∈ l → start_at (aq_heap q') x = start_at (aq_heap q) x) ∧ aq_nextOrder q' = (aq_nextOrder q + 1)%Z
  | None => aq_nextOrder q = max_uint64
  end.
Proof.
  intros Hq Ha. pose proof (rp_next q l Hq) as Hn. destruct (decide (aq_nextOrder q = max_uint64)) as [E|E].
  { unfold append. unfold max_uint64 in E. rewrite E. by rewrite bool_decide_eq_true_2 by done. }
  assert ((aq_nextOrder q + 1) mod 2 ^ 64 = aq_nextOrder q + 1)%Z as Em by (apply Z.mod_small; unfold max_uint64 in *; lia).
  assert (∃ p, get_lane (aq_lanes q) (qs_policy start) = Some p) as [plane Hp] by (destruct (qs_policy start); [done|eauto..]).
  assert (∃ t, task_lanes (aq_tasks q) (qs_task start, qs_policy start) = Some t) as [tlane Ht].
  { unfold task_lanes. simpl. destruct (qs_policy start); [done|eauto..]. }
  rewrite (append_eq q start (aq_nextOrder q + 1)%Z plane tlane Hp Ht Em) by lia.
  pose proof (append_content q l Hq start (aq_nextOrder q + 1)%Z plane tlane) as Hc.
  pose proof (append_start q l Hq start (aq_nextOrder q + 1)%Z plane tlane Hp Ht) as Hs.
  pose proof (proj2 (proj2 (new_entry q l Hq start (aq_nextOrder q + 1)%Z plane tlane Hp Ht))) as Hx. simpl in Hx.
  split_and!; [|exact Hs|intros y Hy; by apply (content_start _ _ l)|done].
  assert (∀ y, y ∈ l → order_of (appended q start (aq_nextOrder q + 1) plane tlane) y = order_of q y) as Ho.
  { intros y Hy. by apply (content_order _ _ l). }
  assert (order_of (appended q start (aq_nextOrder q + 1) plane tlane) (aq_fresh q) = (aq_nextOrder q + 1)%Z) as Hox.
  { unfold order_of. simpl. by rewrite Hx. }
  split.
  - apply NoDup_app. split_and!; [apply Hq| |apply NoDup_singleton]. intros y Hy ->%list_elem_of_singleton. by apply (fresh_out q l Hq).
  - simpl. intros y Hy. apply (fmap_is_Some (λ _, tt)) in Hy. do 3 rewrite push_same in Hy by done. apply fmap_is_Some in Hy.
    apply lookup_insert_is_Some in Hy as [<- |[_ Hy]]; [lia|]. pose proof (rp_fresh q l Hq y Hy). lia.
  - intros y [Hy| ->%list_elem_of_singleton]%elem_of_app; [|by exists start].
    destruct (rp_alive q l Hq y Hy) as (s & Hs' & Ha'). exists s. split; [|done]. by rewrite <- Hs'; apply (content_start _ _ l).
  - by apply append_global.
  - eapply family_lanes; [|by apply append_lanes]. simpl. intros i lane. rewrite get_set_lane by congruence. done.
  - eapply family_lanes; [|by apply append_tasks]. simpl. intros i lane. rewrite task_lanes_insert; [done..|].
    unfold task_lanes in Ht. simpl in Ht. congruence.
  - simpl. intros t. rewrite lookup_insert_is_Some. intros [<- |[_ Hu]].
    + exists (aq_fresh q). split; [set_solver|]. by rewrite Hs.
    + destruct (rp_used q l Hq t Hu) as (y & Hy & Et). exists y. split; [set_solver|]. rewrite <- Et. f_equal. by apply (content_start _ _ l).
  - apply sorted_snoc.
    + eapply sorted_ext; [|apply Hq]. intros a b Ha' Hb. simpl. by rewrite !Ho.
    + intros b Hb. rewrite Hox, Ho by done. pose proof (rp_bound q l Hq b Hb). lia.
  - intros y [Hy| ->%list_elem_of_singleton]%elem_of_app; [|by rewrite Hox]. rewrite Ho by done. pose proof (rp_bound q l Hq y Hy). simpl. lia.
  - simpl. unfold max_uint64 in *. lia.
  - simpl. rewrite (rp_size q l Hq), length_app. simpl. lia.
Qed.

(** ** Removing *)
Section removing.
Context (q : currentNodeAutomaticQueue) (l1 : list N) (x : N) (l2 : list N) (Hq : repr q (l1 ++ x :: l2)).
Context (e : currentNodeAutomaticQueueEntry) (He : aq_heap q !! x = Some e).
Context (plane tlane : currentNodeAutomaticQueueLaneState) (lanes : currentNodeAutomaticQueueLanes).
Local Abbreviation p := (qs_policy (en_start e)).
Local Abbreviation t := (qs_task (en_start e)).
Context (Hplane : get_lane (aq_lanes q) p = Some plane) (Hlanes : aq_tasks q !! t = Some lanes) (Htlane : get_lane lanes p = Some tlane).
Local Abbreviation hA := (unlink GlobalLink e (aq_global q) (aq_heap q)).2.
Local Abbreviation hB := (unlink PolicyLink e plane hA).2.
Local Abbreviation hC := (unlink TaskLink e tlane hB).2.
Local Abbreviation lanes' := (set_lane lanes p (unlink TaskLink e tlane hB).1).

Definition removed : currentNodeAutomaticQueue := {|
  aq_global := (unlink GlobalLink e (aq_global q) (aq_heap q)).1;
  aq_lanes := set_lane (aq_lanes q) p (unlink PolicyLink e plane hA).1;
  aq_tasks := if (lane_first (agentLane lanes') ==? None) && (lane_first (scriptLane lanes') ==? None)
    then delete t (aq_tasks q) else <[t := lanes']> (aq_tasks q);
  aq_nextOrder := aq_nextOrder q; aq_size := aq_size q - 1; aq_heap := hC; aq_fresh := aq_fresh q |}.
Lemma remove_eq : remove x q = Some (en_start e, removed).
Proof.
  unfold remove, removed. rewrite He. cbn [mbind option_bind]. cbv zeta.
  destruct (unlink GlobalLink _ _ _) as [g hA]. cbn [fst snd]. rewrite Hlanes. cbn [mbind option_bind]. rewrite Hplane.
  cbn [mbind option_bind]. rewrite Htlane. cbn [mbind option_bind].
  destruct (unlink PolicyLink _ _ _) as [pl hB]. cbn [fst snd]. by destruct (unlink TaskLink _ _ _) as [tl hC].
Qed.

Lemma remove_same {B} (f : currentNodeAutomaticQueueEntry → B) y :
  (∀ k r e, f (set_link_next k r e) = f e) → (∀ k r e, f (set_link_prev k r e) = f e) → f <$> hC !! y = f <$> aq_heap q !! y.
Proof. intros H1 H2. do 3 rewrite unlink_same by done. done. Qed.
Lemma remove_content y : content <$> hC !! y = content <$> aq_heap q !! y.
Proof. by apply remove_same. Qed.
Lemma self_class : policy_class (aq_heap q) x = Some p ∧ task_class (aq_heap q) x = Some (t, p).
Proof. unfold policy_class, task_class, start_at. by rewrite He. Qed.
Lemma task_lane : task_lanes (aq_tasks q) (t, p) = Some tlane.
Proof. unfold task_lanes. simpl. by rewrite Hlanes. Qed.
Lemma outside : (x ∉ l1) ∧ (x ∉ l2).
Proof. pose proof (rp_nodup _ _ Hq) as (_ & Hd & [? _]%NoDup_cons)%NoDup_app. split; [|done]. intros Hx. apply (Hd x Hx). by left. Qed.
Lemma remove_entry : hA !! x = Some e ∧ hB !! x = Some e.
Proof.
  destruct outside as [O1 O2].
  assert (hA !! x = Some e) as HA.
  { destruct (ch_links _ _ _ _ (rp_global _ _ Hq) l1 x l2 eq_refl) as (e' & He' & P & N). assert (e' = e) as -> by congruence.
    rewrite unlink_lookup; [done|rewrite P; by intros ?%last_Some_elem_of|rewrite N; by intros ?%head_Some_elem_of]. }
  split; [done|]. destruct (family_links _ _ _ _ _ _ _ _ _ _ (rp_lanes _ _ Hq) (proj1 self_class) Hplane He) as [P N].
  rewrite unlink_lookup; [done|rewrite P|rewrite N].
  - by intros [_ ?]%last_Some_elem_of%elem_of_members.
  - by intros [_ ?]%head_Some_elem_of%elem_of_members.
Qed.

Lemma remove_global : chain GlobalLink hC (unlink GlobalLink e (aq_global q) (aq_heap q)).1 (l1 ++ l2).
Proof.
  eapply chain_view; [|eapply unlink_chain; [apply Hq|apply Hq|done]]. intros y _. by do 2 rewrite unlink_same by done.
Qed.
Lemma remove_lanes : family PolicyLink (policy_class hC) hC (replace_lane p (unlink PolicyLink e plane hA).1 (get_lane (aq_lanes q))) (l1 ++ l2).
Proof.
  eapply (family_class _ (policy_class (aq_heap q))).
  { intros y Hy. apply (content_policy _ _ (l1 ++ l2)); [|done]. intros z _. apply remove_content. }
  eapply family_view; [|eapply family_unlink; [|apply Hq|apply self_class|done|apply remove_entry]].
  - intros y _. by rewrite unlink_same by done.
  - eapply family_view; [|apply Hq]. intros y _. by rewrite unlink_same by done.
Qed.
Lemma remove_tasks : family TaskLink (task_class hC) hC (replace_lane (t, p) (unlink TaskLink e tlane hB).1 (task_lanes (aq_tasks q))) (l1 ++ l2).
Proof.
  eapply (family_class _ (task_class (aq_heap q))).
  { intros y Hy. apply (content_task _ _ (l1 ++ l2)); [|done]. intros z _. apply remove_content. }
  eapply family_unlink; [|apply Hq|apply self_class|apply task_lane|apply remove_entry].
  eapply family_view; [|apply Hq]. intros y _. by do 2 rewrite unlink_same by done.
Qed.
Lemma no_first k h lane l : chain k h lane l → lane_first lane = None → l = [].
Proof. intros Hc E. rewrite (ch_first _ _ _ _ Hc) in E. by apply head_None in E. Qed.
(** The lanes of a task are dropped when both are empty. *)
Lemma removed_tasks : family TaskLink (task_class hC) hC (task_lanes (aq_tasks removed)) (l1 ++ l2).
Proof.
  pose proof remove_tasks as Hf. assert (∀ i lane, task_lanes (<[t := lanes']> (aq_tasks q)) i = Some lane → chain TaskLink hC lane (members (task_class hC) i (l1 ++ l2))) as H1.
  { intros i lane. rewrite task_lanes_insert; [apply Hf|by rewrite Hlanes|congruence]. }
  intros [t' p'] lane HL. unfold removed in HL. cbn [aq_tasks] in HL. destruct (_ && _) eqn:E; [|by apply H1].
  apply andb_true_iff in E as [E1%bool_decide_eq_true E2%bool_decide_eq_true]. destruct (decide (t' = t)) as [-> |Hne].
  - assert (∀ lane', get_lane lanes' p' = Some lane' → lane_first lane' = None) as Hnone by (intros lane'; destruct p'; intros [= <-]; done).
    assert (∃ lane', get_lane lanes' p' = Some lane') as [lane' Hl'].
    { unfold task_lanes in HL. simpl in HL. rewrite lookup_delete_eq in HL. destruct p'; [done|eauto..]. }
    rewrite (no_first _ _ _ _ (H1 (t, p') lane' ltac:(unfold task_lanes; simpl; by rewrite lookup_insert_eq)) (Hnone lane' Hl')).
    unfold task_lanes in HL. simpl in HL. rewrite lookup_delete_eq in HL. destruct p'; simplify_eq/=; apply chain_empty.
  - apply H1. unfold task_lanes in *. simpl in *. rewrite lookup_insert_ne by done. by rewrite lookup_delete_ne in HL by done.
Qed.
Lemma removed_used t' : is_Some (aq_tasks removed !! t') → ∃ y, y ∈ l1 ++ l2 ∧ qs_task <$> start_at hC y = Some t'.
Proof.
  intros Hu. destruct (decide (t' = t)) as [-> |Hne].
  - assert (∃ p' lane', get_lane lanes' p' = Some lane' ∧ lane_first lane' ≠ None ∧ aq_tasks removed !! t = Some lanes') as (p' & lane' & Hl & Hf & Ht).
    { unfold removed in *. cbn [aq_tasks] in *. destruct (_ && _) eqn:E; [by rewrite lookup_delete_eq in Hu; destruct Hu|].
      rewrite lookup_insert_eq. apply andb_false_iff in E as [E%bool_decide_eq_false|E%bool_decide_eq_false].
      - by exists currentNodeAdmissionAutomaticAgent, (agentLane lanes').
      - by exists currentNodeAdmissionAutomaticScript, (scriptLane lanes'). }
    assert (task_lanes (aq_tasks removed) (t, p') = Some lane') as HL by (unfold task_lanes; cbn [fst snd]; by rewrite Ht).
    pose proof (removed_tasks _ _ HL) as Hc. rewrite (ch_first _ _ _ _ Hc) in Hf.
    destruct (head _) as [y|] eqn:Ey; [|done]. apply head_Some_elem_of, elem_of_members in Ey as [Ey Hy]. exists y. split; [done|].
    unfold task_class in Ey. apply fmap_Some in Ey as (s & -> & [= -> _]). done.
  - assert (is_Some (aq_tasks q !! t')) as Hu'.
    { unfold removed in Hu. cbn [aq_tasks] in Hu. destruct (_ && _); [by rewrite lookup_delete_ne in Hu|by rewrite lookup_insert_ne in Hu]. }
    destruct (rp_used _ _ Hq t' Hu') as (y & Hy & Et). exists y. unfold start_at in *.
    assert (y ≠ x) as Hyx by (intros ->; rewrite He in Et; simpl in Et; congruence).
    split; [apply elem_of_app in Hy as [?|[?|?]%elem_of_cons]; apply elem_of_app; tauto|].
    rewrite <- Et. f_equal. apply (content_start _ _ [y]); [intros z _; apply remove_content|by left].
Qed.

Lemma sorted_middle {A} (R : relation A) (a : list A) b c : StronglySorted R (a ++ b :: c) → StronglySorted R (a ++ c).
Proof.
  induction a as [|d a IH]; simpl; inversion 1 as [|? ? Hs Hd]; subst; [done|]. constructor; [by apply IH|].
  apply Forall_app in Hd as [Hd1 Hd2]. apply Forall_app. split; [done|]. by inversion Hd2.
Qed.
Lemma removed_repr : repr removed (l1 ++ l2).
Proof.
  assert (∀ y, start_at hC y = start_at (aq_heap q) y) as Hs.
  { intros y. apply (content_start _ _ [y]); [intros z _; apply remove_content|by left]. }
  assert (∀ y, order_of removed y = order_of q y) as Ho.
  { intros y. apply (content_order _ _ [y]); [intros z _; apply remove_content|by left]. }
  assert (∀ y, y ∈ l1 ++ l2 → y ∈ l1 ++ x :: l2) as Hsub by (intros y; rewrite !elem_of_app, elem_of_cons; tauto).
  split.
  - pose proof (rp_nodup _ _ Hq) as (N1 & N2 & [_ N3]%NoDup_cons)%NoDup_app. apply NoDup_app. split_and!; [done| |done].
    intros y Hy Hy'. apply (N2 y Hy). by right.
  - intros y Hy. apply (rp_fresh _ _ Hq). apply (fmap_is_Some (λ _, tt)) in Hy. simpl in Hy.
    rewrite (remove_same (λ _, tt)) in Hy by done. by apply fmap_is_Some in Hy.
  - intros y Hy. simpl. rewrite Hs. by apply (rp_alive _ _ Hq), Hsub.
  - apply remove_global.
  - eapply family_lanes; [|apply remove_lanes]. simpl. intros i lane. by rewrite get_set_lane by congruence.
  - apply removed_tasks.
  - apply removed_used.
  - eapply sorted_ext; [|eapply sorted_middle, Hq]. intros a b _ _. simpl. by rewrite !Ho.
  - intros y Hy. rewrite Ho. by apply (rp_bound _ _ Hq), Hsub.
  - apply (rp_next _ _ Hq).
  - simpl. rewrite (rp_size _ _ Hq), !length_app. simpl. lia.
Qed.
End removing.


(** An entry of the queue can be removed. *)
Lemma entry_lanes q l1 x l2 e : repr q (l1 ++ x :: l2) → aq_heap q !! x = Some e → ∃ plane lanes tlane,
  get_lane (aq_lanes q) (qs_policy (en_start e)) = Some plane ∧ aq_tasks q !! qs_task (en_start e) = Some lanes ∧
  get_lane lanes (qs_policy (en_start e)) = Some tlane.
Proof.
  intros Hq He. assert (x ∈ l1 ++ x :: l2) as Hx by (apply elem_of_app; right; by left).
  destruct (rp_alive _ _ Hq x Hx) as (s & Hs & Ha). unfold start_at in Hs. rewrite He in Hs. injection Hs as <-.
  destruct (self_class q x e He) as [_ Hc].
  assert (∃ tl, task_lanes (aq_tasks q) (qs_task (en_start e), qs_policy (en_start e)) = Some tl) as [tl Htl].
  { unfold task_lanes. simpl. destruct (qs_policy (en_start e)); [done|eauto..]. }
  pose proof (rp_tasks _ _ Hq _ _ Htl) as Hch. assert (x ∈ members (task_class (aq_heap q)) (qs_task (en_start e), qs_policy (en_start e)) (l1 ++ x :: l2)) as Hm.
  { by apply elem_of_members. }
  unfold task_lanes in Htl. simpl in Htl. destruct (aq_tasks q !! qs_task (en_start e)) as [lanes|] eqn:El.
  - assert (∃ pl, get_lane (aq_lanes q) (qs_policy (en_start e)) = Some pl) as [pl Hpl] by (destruct (qs_policy (en_start e)); [done|eauto..]).
    by exists pl, lanes, tl.
  - exfalso. apply no_first in Hch; [by rewrite Hch in Hm; apply elem_of_nil in Hm|]. by destruct (qs_policy (en_start e)); simplify_eq/=.
Qed.
Lemma remove_ok q l1 x l2 : repr q (l1 ++ x :: l2) → ∃ s q', remove x q = Some (s, q') ∧ start_at (aq_heap q) x = Some s ∧
  repr q' (l1 ++ l2) ∧ (∀ y, start_at (aq_heap q') y = start_at (aq_heap q) y) ∧ aq_nextOrder q' = aq_nextOrder q.
Proof.
  intros Hq. destruct (rp_alive _ _ Hq x) as (s & Hs & _); [apply elem_of_app; right; by left|].
  unfold start_at in Hs. apply fmap_Some in Hs as (e & He & ->). destruct (entry_lanes q l1 x l2 e Hq He) as (plane & lanes & tlane & Hp & Hl & Ht).
  exists (en_start e), (removed q e plane tlane lanes). split_and!.
  - by apply remove_eq.
  - unfold start_at. by rewrite He.
  - by eapply removed_repr.
  - intros y. apply (content_start _ _ [y]); [intros z _; apply remove_content|by left].
  - done.
Qed.

(** ** The list of starts *)
Lemma repr_fuel q l : repr q l → (length l < loop_fuel q)%nat.
Proof.
  intros Hq. unfold loop_fuel. rewrite <- size_dom. assert (length l = size (list_to_set l : gset N)) as -> by (symmetry; apply size_list_to_set, Hq).
  apply Nat.lt_succ_r, subseteq_size. intros x Hx%elem_of_list_to_set. destruct (rp_alive q l Hq x Hx) as (s & Hs & _).
  apply elem_of_dom. unfold start_at in Hs. by apply fmap_Some in Hs as (e & -> & _).
Qed.
(** The entries of the rest of a list, one by one. *)
Lemma repr_step q l a x b : repr q l → l = a ++ x :: b → ∃ e, aq_heap q !! x = Some e ∧ en_globalNext e = head b.
Proof. intros Hq ->. destruct (ch_links _ _ _ _ (rp_global _ _ Hq) a x b eq_refl) as (e & He & _ & Hn). eauto. Qed.
Definition starts (q : currentNodeAutomaticQueue) (l : list N) : list currentNodeQueuedStart := omap (start_at (aq_heap q)) l.
Lemma starts_cons q x l : starts q (x :: l) = match start_at (aq_heap q) x with Some s => s :: starts q l | None => starts q l end.
Proof. done. Qed.
Lemma items_repr q l : repr q l → items q = starts q l.
Proof.
  intros Hq. assert (∀ b a fuel, l = a ++ b → (length b < fuel)%nat → items_loop fuel (head b) q = starts q b) as H.
  { induction b as [|x b IH]; intros a fuel E Hf; [by destruct fuel|]. destruct fuel as [|fuel]; [simpl in Hf; lia|]. simpl.
    destruct (repr_step q l a x b Hq E) as (e & He & Hn). unfold start_at. rewrite He, Hn. simpl. f_equal.
    apply (IH (a ++ [x])); [by rewrite <- app_assoc|simpl in Hf; lia]. }
  unfold items. rewrite (ch_first _ _ _ _ (rp_global _ _ Hq)). apply (H l []); [done|by apply repr_fuel].
Qed.

(** Entries whose start passes a test. *)
Definition sat (q : currentNodeAutomaticQueue) (f : currentNodeQueuedStart → bool) (x : N) : Prop := f <$> start_at (aq_heap q) x = Some true.
#[local] Instance sat_dec q f x : Decision (sat q f x).
Proof. unfold sat. apply _. Defined.
Lemma take_first_none q l f : repr q l → head (filter (sat q f) l) = None → take_first f (starts q l) = None.
Proof.
  intros Hq E%head_None. assert (∀ x, x ∈ l → ¬ sat q f x) as Hno.
  { intros x Hx Hs. assert (x ∈ filter (sat q f) l) as Hin by by apply list_elem_of_filter. rewrite E in Hin. by apply elem_of_nil in Hin. }
  assert (∀ m, (∀ x, x ∈ m → ¬ sat q f x) → take_first f (starts q m) = None) as H; [|by apply H].
  clear. induction m as [|x m IH]; intros Hno; [done|]. rewrite starts_cons. pose proof (Hno x (list_elem_of_here _ _)) as Hx. unfold sat in Hx.
  destruct (start_at (aq_heap q) x) as [s|]; simpl in *; [|apply IH; intros y Hy; apply Hno; by right].
  destruct (f s); [done|]. rewrite IH; [done|]. intros y Hy. apply Hno. by right.
Qed.
Lemma take_first_some q l f x : repr q l → head (filter (sat q f) l) = Some x → ∃ l1 l2 s, l = l1 ++ x :: l2 ∧ start_at (aq_heap q) x = Some s ∧
  take_first f (starts q l) = Some (s, starts q (l1 ++ l2)).
Proof.
  intros Hq Hh. pose proof Hh as [Hx _]%head_Some_elem_of%list_elem_of_filter. apply head_filter_Some in Hh as (l1 & l2 & -> & Hno).
  apply fmap_Some in Hx as (s & Hs & Hf). exists l1, l2, s. split_and!; [done..|].
  assert (Forall (λ y, ¬ sat q f y) l1 ∧ ∀ y, y ∈ l1 → is_Some (start_at (aq_heap q) y)) as [Hn Ha].
  { split; [done|]. intros y Hy. destruct (rp_alive _ _ Hq y) as (s' & -> & _); [apply elem_of_app; by left|eauto]. }
  clear Hq Hno. induction l1 as [|y l1 IH]; rewrite ?app_nil_l, <- ?app_comm_cons, !starts_cons; [rewrite Hs; simpl; by rewrite <- Hf|].
  destruct (Ha y (list_elem_of_here _ _)) as [s' Hs']. rewrite Hs'. simpl. apply Forall_cons in Hn as [Hn1 Hn2]. unfold sat in Hn1. rewrite Hs' in Hn1.
  simpl in Hn1. destruct (f s'); [done|]. rewrite IH; [done|done|]. intros z Hz. apply Ha. by right.
Qed.

(** ** Selection *)
Lemma earlier_ok q l (P Q : N → Prop) `{∀ x, Decision (P x)} `{∀ x, Decision (Q x)} :
  StronglySorted (λ x y, (order_of q x < order_of q y)%Z) l → (∀ x, P x → Q x → False) →
  earlier q (head (filter P l)) (head (filter Q l)) = head (filter (λ x, P x ∨ Q x) l).
Proof.
  intros Hs Hd. induction Hs as [|a l Hs IH Ha]; [done|]. rewrite !filter_cons. rewrite Forall_forall in Ha.
  destruct (decide (P a)) as [Pa|Pa], (decide (Q a)) as [Qa|Qa]; [by destruct (Hd a)|..].
  - rewrite decide_True by tauto. simpl. destruct (head (filter Q l)) as [b|] eqn:Eb; [|done].
    apply head_Some_elem_of, list_elem_of_filter in Eb as [_ Hb]. specialize (Ha b Hb). by rewrite (proj2 (Z.ltb_lt _ _) Ha).
  - rewrite decide_True by tauto. simpl. destruct (head (filter P l)) as [b|] eqn:Eb; [|done]. simpl.
    apply head_Some_elem_of, list_elem_of_filter in Eb as [_ Hb]. specialize (Ha b Hb). rewrite (proj2 (Z.ltb_ge _ _)) by lia. done.
  - rewrite decide_False by tauto. done.
Qed.

Lemma choose_ok q l avail f (A S : N → Prop) `{∀ x, Decision (A x)} `{∀ x, Decision (S x)} agent script : repr q l →
  lane_first agent = head (filter A l) → lane_first script = head (filter S l) → (∀ x, A x → S x → False) →
  (∀ x, x ∈ l → sat q f x ↔ S x ∨ (avail = true ∧ A x)) →
  (if avail then earlier q (lane_first agent) (lane_first script) else lane_first script) = head (filter (sat q f) l).
Proof.
  intros Hq Ha Hs Hd Hf. rewrite Ha, Hs. destruct avail.
  - rewrite (earlier_ok q l A S) by (apply Hq || done). f_equal. apply filter_on. intros x Hx. rewrite Hf by done. tauto.
  - f_equal. apply filter_on. intros x Hx. rewrite Hf by done. intuition congruence.
Qed.
Lemma select_ok lastTask avail q l : repr q l → selectEntry lastTask avail q =
  match (taskID ← lastTask; head (filter (sat q (λ s, admissible avail s && (qs_task s ==? taskID))) l)) with
  | Some x => Some x
  | None => head (filter (sat q (admissible avail)) l)
  end.
Proof.
  intros Hq.
  assert (∀ x, x ∈ l → ∃ s, start_at (aq_heap q) x = Some s ∧ (qs_policy s = currentNodeAdmissionAutomaticAgent ∨ qs_policy s = currentNodeAdmissionAutomaticScript)) as Hst.
  { intros x Hx. destruct (rp_alive q l Hq x Hx) as (s & ? & Ha). exists s. split; [done|]. destruct (qs_policy s); [done|tauto..]. }
  unfold selectEntry.
  rewrite (choose_ok q l avail (admissible avail) (λ x, policy_class (aq_heap q) x = Some currentNodeAdmissionAutomaticAgent)
    (λ x, policy_class (aq_heap q) x = Some currentNodeAdmissionAutomaticScript)); [|done|..].
  2: { apply (ch_first _ _ _ _ (rp_lanes q l Hq currentNodeAdmissionAutomaticAgent _ eq_refl)). }
  2: { apply (ch_first _ _ _ _ (rp_lanes q l Hq currentNodeAdmissionAutomaticScript _ eq_refl)). }
  2: { intros x. congruence. }
  2: { intros x Hx. destruct (Hst x Hx) as (s & Hs & Hp). unfold sat, policy_class, admissible. rewrite Hs. simpl.
       destruct Hp as [E|E]; rewrite E, bool_decide_decide; destruct avail; simpl; intuition congruence. }
  assert ((taskID ← lastTask; taskLanes ← aq_tasks q !! taskID;
      if avail then earlier q (lane_first (agentLane taskLanes)) (lane_first (scriptLane taskLanes)) else lane_first (scriptLane taskLanes)) =
    (taskID ← lastTask; head (filter (sat q (λ s, admissible avail s && (qs_task s ==? taskID))) l))) as E; [|by rewrite E].
  destruct lastTask as [t|]; [|done]. simpl.
  assert (∀ p lane, task_lanes (aq_tasks q) (t, p) = Some lane → lane_first lane = head (filter (λ x, task_class (aq_heap q) x = Some (t, p)) l)) as Hf.
  { intros p lane HL. apply (ch_first _ _ _ _ (rp_tasks q l Hq _ _ HL)). }
  assert (∀ x, x ∈ l → sat q (λ s, admissible avail s && (qs_task s ==? t)) x ↔ task_class (aq_heap q) x = Some (t, currentNodeAdmissionAutomaticScript) ∨
    (avail = true ∧ task_class (aq_heap q) x = Some (t, currentNodeAdmissionAutomaticAgent))) as Hsat.
  { intros x Hx. destruct (Hst x Hx) as (s & Hs & Hp). unfold sat, task_class, admissible. rewrite Hs. simpl.
    rewrite !bool_decide_decide. destruct Hp as [E|E]; rewrite E; destruct (decide (qs_task s = t)) as [Et|Et]; rewrite ?Et; destruct avail; simpl; intuition congruence. }
  destruct (aq_tasks q !! t) as [lanes|] eqn:El; simpl.
  - eapply (choose_ok q l avail _ _ _ (agentLane lanes) (scriptLane lanes)); [done|apply (Hf currentNodeAdmissionAutomaticAgent)|apply (Hf currentNodeAdmissionAutomaticScript)| |done];
      [unfold task_lanes; simpl; by rewrite El..|].
    intros x. congruence.
  - pose proof (Hf currentNodeAdmissionAutomaticAgent empty_lane) as Fa. pose proof (Hf currentNodeAdmissionAutomaticScript empty_lane) as Fs.
    unfold task_lanes in Fa, Fs. simpl in Fa, Fs. rewrite El in Fa, Fs. simpl in Fa, Fs.
    pose proof (choose_ok q l avail _ _ _ empty_lane empty_lane Hq (Fa eq_refl) (Fs eq_refl) (λ x H1 H2, ltac:(congruence)) Hsat) as Hc.
    by destruct avail.
Qed.

(** ** The operations on the list *)
Definition queue_ok (q : currentNodeAutomaticQueue) : Prop := ∃ l, repr q l.
Lemma queue_new : queue_ok new_queue ∧ items new_queue = [].
Proof. split; [exists []; apply repr_new|done]. Qed.
Lemma queue_clear q : queue_ok q → queue_ok (clear q) ∧ items (clear q) = [].
Proof. intros [l Hq]. split; [exists []; apply repr_clear, Hq|done]. Qed.
Lemma starts_app q a b : starts q (a ++ b) = starts q a ++ starts q b.
Proof. apply omap_app. Qed.
Lemma starts_same q q' l : (∀ x, x ∈ l → start_at (aq_heap q') x = start_at (aq_heap q) x) → starts q' l = starts q l.
Proof.
  induction l as [|x l IH]; intros H; [done|]. rewrite !starts_cons, H by by left. rewrite IH; [done|]. intros y Hy. apply H. by right.
Qed.
Lemma queue_append s q : queue_ok q → isAutomatic (qs_policy s) = true →
  match append s q with
  | Some q' => queue_ok q' ∧ items q' = items q ++ [s] ∧ aq_nextOrder q' = (aq_nextOrder q + 1)%Z
  | None => aq_nextOrder q = max_uint64
  end.
Proof.
  intros [l Hq] Ha. pose proof (append_ok s q l Hq Ha) as H. destruct (append s q) as [q'|]; [|done]. destruct H as (Hq' & Hs & Hsame & Hn).
  split_and!; [by eexists| |done]. rewrite (items_repr _ _ Hq'), (items_repr _ _ Hq), starts_app. f_equal; [by apply starts_same|].
  by rewrite starts_cons, Hs.
Qed.
Lemma queue_len q : queue_ok q → aq_size q = Z.of_nat (length (items q)).
Proof.
  intros [l Hq]. rewrite (rp_size q l Hq), (items_repr q l Hq). f_equal.
  assert (∀ m, (∀ x, x ∈ m → x ∈ l) → length m = length (starts q m)) as H; [|by apply H].
  induction m as [|x m IH]; intros Hm; [done|]. rewrite starts_cons. destruct (rp_alive q l Hq x) as (s & -> & _); [apply Hm; by left|].
  simpl. f_equal. apply IH. intros y Hy. apply Hm. by right.
Qed.
Lemma remove_at q l1 x l2 : repr q (l1 ++ x :: l2) → ∃ s q', remove x q = Some (s, q') ∧ start_at (aq_heap q) x = Some s ∧ queue_ok q' ∧
  items q' = starts q (l1 ++ l2) ∧ aq_nextOrder q' = aq_nextOrder q.
Proof.
  intros Hq. destruct (remove_ok q l1 x l2 Hq) as (s & q' & Hr & Hs & Hq' & Hsame & Hn). exists s, q'. split_and!; [done..|by eexists| |done].
  rewrite (items_repr _ _ Hq'). by apply starts_same.
Qed.
Lemma queue_take lastTask avail q : queue_ok q → ∃ r, take_selected lastTask avail q = Some r ∧
  match r with
  | None => take_next lastTask avail (items q) = None
  | Some (s, q') => take_next lastTask avail (items q) = Some (s, items q') ∧ queue_ok q' ∧ aq_nextOrder q' = aq_nextOrder q
  end.
Proof.
  intros [l Hq]. unfold take_selected, take_next. rewrite (select_ok _ _ q l Hq), (items_repr q l Hq).
  assert (∀ f x, head (filter (sat q f) l) = Some x → ∃ s q', remove x q = Some (s, q') ∧ take_first f (starts q l) = Some (s, items q') ∧ queue_ok q' ∧
    aq_nextOrder q' = aq_nextOrder q) as Htake.
  { intros f x Hx. destruct (take_first_some q l f x Hq Hx) as (l1 & l2 & s & -> & Hs & Ht).
    destruct (remove_at q l1 x l2 Hq) as (s' & q' & Hr & Hs' & Hok & Hi & Hn). assert (s' = s) as -> by congruence.
    exists s, q'. rewrite Hi. done. }
  destruct (taskID ← lastTask; head (filter (sat q (λ s, admissible avail s && (qs_task s ==? taskID))) l)) as [x|] eqn:E1.
  - destruct lastTask as [t|]; [|done]. simpl in E1. destruct (Htake _ x E1) as (s & q' & Hr & Ht & ? & ?). rewrite Hr. simpl. rewrite Ht.
    by exists (Some (s, q')).
  - assert ((taskID ← lastTask; take_first (λ s, admissible avail s && (qs_task s ==? taskID)) (starts q l)) = None) as ->.
    { destruct lastTask as [t|]; [|done]. simpl in *. by apply take_first_none. }
    destruct (head (filter (sat q (admissible avail)) l)) as [x|] eqn:E2.
    + destruct (Htake _ x E2) as (s & q' & Hr & Ht & ? & ?). rewrite Hr. simpl. rewrite Ht. by exists (Some (s, q')).
    + exists None. split; [done|]. by apply take_first_none.
Qed.

(** The starts of one task, and the others. *)
Definition of_task (t : TaskID) (l : list currentNodeQueuedStart) : list currentNodeQueuedStart := filter (λ s, qs_task s = t) l.
Definition others (t : TaskID) (l : list currentNodeQueuedStart) : list currentNodeQueuedStart := filter (λ s, qs_task s ≠ t) l.
Lemma removeTask_walk t b : ∀ a q fuel, repr q (a ++ b) → (length b < fuel)%nat → ∃ q', removeTask_loop fuel t (head b) q = Some (of_task t (starts q b), q') ∧
  queue_ok q' ∧ items q' = starts q a ++ others t (starts q b) ∧ aq_nextOrder q' = aq_nextOrder q.
Proof.
  induction b as [|x b IH]; intros a q fuel Hq Hf.
  { exists q. split_and!; [by destruct fuel|by eexists|by rewrite (items_repr _ _ Hq), !app_nil_r|done]. }
  destruct fuel as [|fuel]; [simpl in Hf; lia|]. simpl in Hf. destruct (repr_step q _ a x b Hq eq_refl) as (e & He & Hn).
  assert (start_at (aq_heap q) x = Some (en_start e)) as Hs by (unfold start_at; by rewrite He).
  rewrite starts_cons, Hs. simpl. rewrite He. simpl. rewrite Hn. unfold of_task, others. rewrite !filter_cons. case_bool_decide as Et.
  - rewrite (decide_True _ _ Et), (decide_False (P := qs_task (en_start e) ≠ t)) by tauto.
    destruct (remove_ok q a x b Hq) as (s & q1 & Hr & Hs1 & Hq1 & Hsame & Hn1). rewrite Hr. simpl. assert (s = en_start e) as -> by congruence.
    destruct (IH a q1 fuel Hq1 ltac:(lia)) as (q' & Hl & Hok & Hi & Hn'). rewrite Hl. simpl. exists q'. unfold others, of_task in *.
    rewrite Hi, !(starts_same q q1) by (intros; apply Hsame). by rewrite Hn', Hn1.
  - rewrite (decide_False _ _ Et), (decide_True _ _ Et). destruct (IH (a ++ [x]) q fuel) as (q' & Hl & Hok & Hi & Hn'); [by rewrite <- app_assoc|lia|].
    exists q'. rewrite Hl, Hi, starts_app, starts_cons, Hs, <- app_assoc. done.
Qed.
Lemma no_task q l t : repr q l → aq_tasks q !! t = None → ∀ s, s ∈ starts q l → qs_task s ≠ t.
Proof.
  intros Hq Ht s (x & Hx & Hs)%list_elem_of_omap E. destruct (rp_alive q l Hq x Hx) as (s' & Hs' & Ha). assert (s' = s) as -> by congruence.
  assert (task_lanes (aq_tasks q) (t, qs_policy s) = Some empty_lane) as HL.
  { unfold task_lanes. simpl. rewrite Ht. by destruct (qs_policy s). }
  pose proof (no_first _ _ _ _ (rp_tasks q l Hq _ _ HL) eq_refl) as Hm.
  assert (x ∈ members (task_class (aq_heap q)) (t, qs_policy s) l) as Hin; [|by rewrite Hm in Hin; apply elem_of_nil in Hin].
  apply elem_of_members. split; [|done]. unfold task_class. rewrite Hs. simpl. by rewrite E.
Qed.
Lemma queue_removeTask t q : queue_ok q → ∃ q', removeTask t q = Some (of_task t (items q), q') ∧ queue_ok q' ∧ items q' = others t (items q) ∧
  aq_nextOrder q' = aq_nextOrder q.
Proof.
  intros [l Hq]. unfold removeTask. rewrite (items_repr q l Hq). destruct (aq_tasks q !! t) as [lanes|] eqn:Et.
  - rewrite (ch_first _ _ _ _ (rp_global q l Hq)). apply (removeTask_walk t l [] q); [done|by apply repr_fuel].
  - pose proof (no_task q l t Hq Et) as Hno. exists q. unfold of_task, others. split_and!; [|by eexists| |done].
    + do 2 f_equal. symmetry. by apply filter_none.
    + rewrite (items_repr q l Hq). symmetry. by apply filter_all.
Qed.

(** A start's key. *)
Definition has_key (key : CurrentNodeReferenceKey) (s : currentNodeQueuedStart) : bool :=
  match CurrentNodeReference_Key (qs_reference s) with Ok k => k ==? key | Err _ => false end.
Definition keyed (s : currentNodeQueuedStart) : Prop := ∃ k, CurrentNodeReference_Key (qs_reference s) = Ok k.
Lemma remove_key_walk key b : ∀ a q fuel, repr q (a ++ b) → (∀ s, s ∈ starts q b → keyed s) → (length b < fuel)%nat →
  ∃ r, remove_key_loop fuel key (head b) q = Some r ∧
  match r with
  | None => take_first (has_key key) (starts q b) = None
  | Some (s, q') => ∃ rest, take_first (has_key key) (starts q b) = Some (s, rest) ∧ items q' = starts q a ++ rest ∧ queue_ok q' ∧
      aq_nextOrder q' = aq_nextOrder q
  end.
Proof.
  induction b as [|x b IH]; intros a q fuel Hq Hk Hf; [exists None; by destruct fuel|].
  destruct fuel as [|fuel]; [simpl in Hf; lia|]. simpl in Hf. destruct (repr_step q _ a x b Hq eq_refl) as (e & He & Hn).
  assert (start_at (aq_heap q) x = Some (en_start e)) as Hs by (unfold start_at; by rewrite He). rewrite starts_cons, Hs in *.
  destruct (Hk (en_start e) (list_elem_of_here _ _)) as [k Ek]. simpl. rewrite He. simpl. unfold has_key. rewrite Ek, Hn.
  destruct (k ==? key) eqn:E; simpl.
  - destruct (remove_at q a x b Hq) as (s & q' & Hr & Hs' & Hok & Hi & Hn'). rewrite Hr. simpl. assert (s = en_start e) as -> by congruence.
    exists (Some (en_start e, q')). split; [done|]. exists (starts q b). by rewrite Hi, starts_app.
  - destruct (IH (a ++ [x]) q fuel) as (r & Hl & Hr); [by rewrite <- app_assoc|intros s' Hs'; apply Hk; by right|lia|].
    rewrite Hl. exists r. split; [done|]. unfold has_key in Hr. destruct r as [[s q']|]; [|by rewrite Hr].
    destruct Hr as (rest & Ht & Hi & ?). rewrite Ht. exists (en_start e :: rest). split; [done|]. by rewrite Hi, starts_app, starts_cons, Hs, <- app_assoc.
Qed.
Lemma queue_remove_key key q : queue_ok q → (∀ s, s ∈ items q → keyed s) → ∃ r, remove_key key q = Some r ∧
  match r with
  | None => take_first (has_key key) (items q) = None
  | Some (s, q') => take_first (has_key key) (items q) = Some (s, items q') ∧ queue_ok q' ∧ aq_nextOrder q' = aq_nextOrder q
  end.
Proof.
  intros [l Hq] Hk. rewrite (items_repr q l Hq) in *. unfold remove_key. rewrite (ch_first _ _ _ _ (rp_global q l Hq)).
  destruct (remove_key_walk key l [] q (loop_fuel q) Hq Hk (repr_fuel q l Hq)) as (r & -> & Hr). exists r. split; [done|].
  destruct r as [[s q']|]; [|done]. by destruct Hr as (rest & -> & -> & ?).
Qed.
Lemma queue_empty q : queue_ok q → aq_size q = 0%Z ↔ items q = [].
Proof. intros Hq. rewrite (queue_len q Hq). destruct (items q); simpl; split; intros; done || lia. Qed.
(** A queue holds automatic starts only. *)
Lemma queue_automatic q s : queue_ok q → s ∈ items q → isAutomatic (qs_policy s) = true.
Proof.
  intros [l Hq]. rewrite (items_repr q l Hq). intros (x & Hx & Hs)%list_elem_of_omap. destruct (rp_alive q l Hq x Hx) as (s' & Hs' & Ha).
  by assert (s' = s) as -> by congruence.
Qed.
