(* ===== verification/AdmissionInterface.v ===== *)
(** * What the controller relies on of its automatic queue

    The operations of a queue of automatic starts and their laws, over the
    list of starts it holds, in the order they came. The linked queue of the
    code and the list itself are instances. *)
From Stdlib Require Import ZArith String Lia.
From stdpp Require Import gmap strings list.
From S2P Require Import Prelude Types CurrentState AdmissionQueue AdmissionQueueFacts.

Local Open Scope Z_scope.

(** [None] is a panic; [q_order] bounds the starts appended so far. *)
Class AutomaticQueueOps (Q : Type) := {
  q_new : Q;
  q_append : currentNodeQueuedStart → Q → option Q;
  q_take : option TaskID → bool → Q → option (option (currentNodeQueuedStart * Q));
  q_remove_task : TaskID → Q → option (list currentNodeQueuedStart * Q);
  q_remove_key : CurrentNodeReferenceKey → Q → option (option (currentNodeQueuedStart * Q));
  q_clear : Q → Q;
  q_len : Q → Z;
  q_items : Q → list currentNodeQueuedStart;
  q_order : Q → Z }.

(** A removal of one start, against the list. *)
Definition takes {Q} `{AutomaticQueueOps Q} (ok : Q → Prop) (q : Q) (r : option (option (currentNodeQueuedStart * Q)))
    (spec : option (currentNodeQueuedStart * list currentNodeQueuedStart)) : Prop :=
  match r with
  | None => False
  | Some None => spec = None
  | Some (Some (s, q')) => spec = Some (s, q_items q') ∧ ok q' ∧ q_order q' = q_order q
  end.

Class AutomaticQueue (Q : Type) `{AutomaticQueueOps Q} := {
  q_ok : Q → Prop;
  q_new_law : q_ok q_new ∧ q_items q_new = [] ∧ q_order q_new = 0;
  q_clear_law q : q_ok q → q_ok (q_clear q) ∧ q_items (q_clear q) = [] ∧ q_order (q_clear q) = 0;
  q_append_law s q : q_ok q → isAutomatic (qs_policy s) = true →
    match q_append s q with
    | Some q' => q_ok q' ∧ q_items q' = q_items q ++ [s] ∧ q_order q' ≤ q_order q + 1
    | None => q_order q = max_uint64
    end;
  q_take_law last avail q : q_ok q → takes q_ok q (q_take last avail q) (take_next last avail (q_items q));
  q_remove_key_law key q : q_ok q → (∀ s, s ∈ q_items q → keyed s) → takes q_ok q (q_remove_key key q) (take_first (has_key key) (q_items q));
  q_remove_task_law t q : q_ok q → ∃ q', q_remove_task t q = Some (of_task t (q_items q), q') ∧ q_ok q' ∧
    q_items q' = others t (q_items q) ∧ q_order q' = q_order q;
  q_len_law q : q_ok q → q_len q = Z.of_nat (length (q_items q));
  q_automatic_law q s : q_ok q → s ∈ q_items q → isAutomatic (qs_policy s) = true }.

(** ** The linked queue *)
#[export] Instance linked_ops : AutomaticQueueOps currentNodeAutomaticQueue := {|
  q_new := new_queue; q_append := append; q_take := take_selected; q_remove_task := removeTask; q_remove_key := remove_key;
  q_clear := clear; q_len := aq_size; q_items := items; q_order := aq_nextOrder |}.
#[export] Program Instance linked_queue : AutomaticQueue currentNodeAutomaticQueue := {| q_ok := queue_ok |}.
Next Obligation. split_and!; [apply queue_new..|done]. Qed.
Next Obligation. intros q Hq. destruct (queue_clear q Hq). done. Qed.
Next Obligation.
  intros s q Hq Ha. pose proof (queue_append s q Hq Ha) as H. simpl. destruct (append s q); [|done]. destruct H as (? & ? & ->). done.
Qed.
Next Obligation. intros last avail q Hq. destruct (queue_take last avail q Hq) as (r & E & H). simpl. rewrite E. by destruct r as [[s q']|]. Qed.
Next Obligation. intros key q Hq Hk. destruct (queue_remove_key key q Hq Hk) as (r & E & H). simpl. rewrite E. by destruct r as [[s q']|]. Qed.
Next Obligation. intros t q Hq. apply (queue_removeTask t q Hq). Qed.
Next Obligation. intros q Hq. by apply queue_len. Qed.
Next Obligation. intros q s Hq. by apply queue_automatic. Qed.

(** ** The list *)

#[export] Instance list_ops : AutomaticQueueOps (list currentNodeQueuedStart) := {|
  q_new := []; q_append s l := Some (l ++ [s]); q_take last avail l := Some (take_next last avail l);
  q_remove_task t l := Some (of_task t l, others t l); q_remove_key key l := Some (take_first (has_key key) l);
  q_clear _ := []; q_len l := Z.of_nat (length l); q_items l := l; q_order _ := 0 |}.

Lemma take_first_sub {A} (f : A → bool) l a rest : take_first f l = Some (a, rest) → ∃ l1 l2, l = l1 ++ a :: l2 ∧ rest = l1 ++ l2 ∧ f a = true.
Proof.
  revert rest. induction l as [|b l IH]; intros rest E; [done|]. simpl in E. destruct (f b) eqn:Eb.
  - injection E as -> ->. by exists [], rest.
  - destruct (take_first f l) as [[a' r]|]; [|done]. simplify_eq/=. destruct (IH _ eq_refl) as (l1 & l2 & -> & -> & ?). by exists (b :: l1), l2.
Qed.
Lemma take_next_sub last avail l s rest : take_next last avail l = Some (s, rest) → ∃ l1 l2, l = l1 ++ s :: l2 ∧ rest = l1 ++ l2 ∧ admissible avail s = true.
Proof.
  unfold take_next. intros E. destruct last as [t|]; simpl in E.
  - destruct (take_first _ l) as [[a r]|] eqn:Et in E; [|by apply take_first_sub].
    simplify_eq. apply take_first_sub in Et as (l1 & l2 & -> & -> & [? _]%andb_true_iff). by exists l1, l2.
  - by apply take_first_sub.
Qed.
Definition automatic_only (l : list currentNodeQueuedStart) : Prop := ∀ s, s ∈ l → isAutomatic (qs_policy s) = true.
Lemma automatic_remove l1 s l2 : automatic_only (l1 ++ s :: l2) → automatic_only (l1 ++ l2).
Proof. intros H x. rewrite elem_of_app. intros Hx. apply H. rewrite elem_of_app, elem_of_cons. tauto. Qed.
#[export] Program Instance list_queue : AutomaticQueue (list currentNodeQueuedStart) := {| q_ok := automatic_only |}.
Next Obligation. split_and!; [|done..]. intros s []%elem_of_nil. Qed.
Next Obligation. intros l _. split_and!; [|done..]. intros s []%elem_of_nil. Qed.
Next Obligation. intros s l Hl Ha. simpl. split_and!; [|done..]. intros x [Hx|Hx%list_elem_of_singleton]%elem_of_app; [by apply Hl|by subst]. Qed.
Next Obligation.
  intros last avail l Hl. simpl. destruct (take_next last avail l) as [[s r]|] eqn:E; simpl; [|done]. split_and!; [done| |done].
  apply take_next_sub in E as (l1 & l2 & -> & -> & _). by eapply automatic_remove.
Qed.
Next Obligation.
  intros key l Hl _. simpl. destruct (take_first (has_key key) l) as [[s r]|] eqn:E; simpl; [|done]. split_and!; [done| |done].
  apply take_first_sub in E as (l1 & l2 & -> & -> & _). by eapply automatic_remove.
Qed.
Next Obligation. intros t l Hl. exists (others t l). split_and!; [done| |done..]. intros s [_ Hs]%list_elem_of_filter. by apply Hl. Qed.
Next Obligation. done. Qed.
Next Obligation. intros l s Hl. apply Hl. Qed.

(** ** Histories of a queue *)
Inductive queue_op :=
| OpAppend (s : currentNodeQueuedStart)
| OpTake (lastTask : option TaskID) (agentAvailable : bool)
| OpRemoveTask (t : TaskID)
| OpRemoveKey (key : CurrentNodeReferenceKey)
| OpClear
| OpLen.
Inductive queue_answer := Unit | Taken (s : option currentNodeQueuedStart) | Removed (l : list currentNodeQueuedStart) | Length (n : Z).

Section histories.
Context {Q : Type} `{AutomaticQueueOps Q}.
Definition answer_take (r : option (option (currentNodeQueuedStart * Q))) (q : Q) : option (queue_answer * Q) :=
  match r with
  | None => None
  | Some None => Some (Taken None, q)
  | Some (Some (s, q')) => Some (Taken (Some s), q')
  end.
Definition run_op (op : queue_op) (q : Q) : option (queue_answer * Q) :=
  match op with
  | OpAppend s => q' ← q_append s q; Some (Unit, q')
  | OpTake last avail => answer_take (q_take last avail q) q
  | OpRemoveTask t => r ← q_remove_task t q; Some (Removed r.1, r.2)
  | OpRemoveKey key => answer_take (q_remove_key key q) q
  | OpClear => Some (Unit, q_clear q)
  | OpLen => Some (Length (q_len q), q)
  end.
Fixpoint run_ops (ops : list queue_op) (q : Q) : option (list queue_answer) :=
  match ops with
  | [] => Some []
  | op :: ops => r ← run_op op q; rest ← run_ops ops r.2; Some (r.1 :: rest)
  end.
End histories.

(** A start that may be appended. *)
Definition queueable (s : currentNodeQueuedStart) : Prop := isAutomatic (qs_policy s) = true ∧ keyed s.
Definition op_ok (op : queue_op) : Prop := match op with OpAppend s => queueable s | _ => True end.

(** Two queues that hold the same list answer alike. *)
Section agree.
Context {Q R : Type} `{AutomaticQueue Q} `{AutomaticQueue R}.
Record agree (n : Z) (q : Q) (r : R) : Prop := {
  ag_left : q_ok q; ag_right : q_ok r; ag_items : q_items q = q_items r;
  ag_keyed : ∀ s, s ∈ q_items q → keyed s; ag_order : q_order q ≤ n ∧ q_order r ≤ n }.
Lemma agree_mono n m q r : n ≤ m → agree n q r → agree m q r.
Proof. intros ? []. split; [done..|lia]. Qed.
Lemma agree_take n (q : Q) (r : R) x y spec : agree n q r → takes q_ok q x spec → takes q_ok r y spec →
  (∀ s l, spec = Some (s, l) → ∃ l1 l2, q_items q = l1 ++ s :: l2 ∧ l = l1 ++ l2) →
  ∃ a q' r', answer_take x q = Some (a, q') ∧ answer_take y r = Some (a, r') ∧ agree n q' r'.
Proof.
  intros [Ha1 Ha2 Ha3 Ha4 Ha5] Hx Hy Hsub. destruct x as [[[s q']|]|], y as [[[s' r']|]|]; simpl in *; try done.
  - destruct Hx as (-> & ? & Eo), Hy as (Hs & ? & Eo'). injection Hs as -> Hi. exists (Taken (Some s')), q', r'. split_and!; [done..|].
    split; [done..| |lia]. destruct (Hsub s' (q_items q') eq_refl) as (l1 & l2 & E1 & E2). intros z Hz. apply Ha4. rewrite E1. rewrite E2 in Hz.
    apply elem_of_app in Hz. rewrite elem_of_app, elem_of_cons. tauto.
  - destruct Hx as [-> _]. done.
  - destruct Hy as [Hy _]. congruence.
  - by exists (Taken None), q, r.
Qed.
Lemma agree_op op n q r : agree n q r → n < max_uint64 → op_ok op → 0 ≤ n →
  ∃ a q' r', run_op op q = Some (a, q') ∧ run_op op r = Some (a, r') ∧ agree (n + 1) q' r'.
Proof.
  intros Ha Hn Hop Hn0. pose proof Ha as [Ha1 Ha2 Ha3 Ha4 Ha5]. destruct op as [s|last avail|t|key| |]; simpl in *.
  - destruct Hop as [Hau Hk]. pose proof (q_append_law s q Ha1 Hau) as L1. pose proof (q_append_law s r Ha2 Hau) as L2.
    destruct (q_append s q) as [q'|]; [|lia]. destruct (q_append s r) as [r'|]; [|lia]. destruct L1 as (? & E1 & ?), L2 as (? & E2 & ?).
    exists Unit, q', r'. split_and!; [done..|]. split; [done..|by rewrite E1, E2, Ha3| |lia].
    rewrite E1. intros x [Hx|Hx%list_elem_of_singleton]%elem_of_app; [by apply Ha4|by subst].
  - eapply agree_take; [by eapply agree_mono, Ha; lia|by apply q_take_law|rewrite Ha3; by apply q_take_law|].
    intros s l (l1 & l2 & ? & ? & _)%take_next_sub. eauto.
  - destruct (q_remove_task_law t q Ha1) as (q' & E1 & ? & I1 & O1), (q_remove_task_law t r Ha2) as (r' & E2 & ? & I2 & O2).
    rewrite E1, E2, <- Ha3. simpl. exists (Removed (of_task t (q_items q))), q', r'. split_and!; [done..|].
    split; [done..|congruence| |lia]. rewrite I1. intros x [_ Hx]%list_elem_of_filter. by apply Ha4.
  - eapply agree_take; [by eapply agree_mono, Ha; lia|by apply q_remove_key_law|rewrite Ha3; apply q_remove_key_law; [done|by rewrite <- Ha3]|].
    intros s l (l1 & l2 & ? & ? & _)%take_first_sub. eauto.
  - destruct (q_clear_law q Ha1) as (? & E1 & O1), (q_clear_law r Ha2) as (? & E2 & O2). exists Unit, (q_clear q), (q_clear r).
    split_and!; [done..|]. split; [done..|congruence| |lia]. rewrite E1. intros x []%elem_of_nil.
  - exists (Length (q_len q)), q, r. rewrite !q_len_law, Ha3 by done. split_and!; [done..|]. eapply agree_mono, Ha. lia.
Qed.
Lemma agree_ops ops : ∀ n q r, agree n q r → 0 ≤ n → n + Z.of_nat (length ops) ≤ max_uint64 → Forall op_ok ops →
  ∃ answers, run_ops ops q = Some answers ∧ run_ops ops r = Some answers.
Proof.
  induction ops as [|op ops IH]; intros n q r Ha Hn0 Hn Hops; [by exists []|]. apply Forall_cons in Hops as [Hop Hops]. simpl in Hn.
  destruct (agree_op op n q r Ha ltac:(lia) Hop Hn0) as (a & q' & r' & E1 & E2 & Ha').
  destruct (IH (n + 1) q' r' Ha' ltac:(lia) ltac:(lia) Hops) as (l & E3 & E4). exists (a :: l). simpl. rewrite E1, E2. simpl. by rewrite E3, E4.
Qed.
Lemma agree_new : agree 0 (q_new : Q) (q_new : R).
Proof.
  destruct (q_new_law (Q := Q)) as (? & E1 & ?), (q_new_law (Q := R)) as (? & E2 & ?). split; [done..|congruence| |lia].
  rewrite E1. intros s []%elem_of_nil.
Qed.
End agree.
