(* ===== verification/Admission.v ===== *)
(** * Admission of current nodes

    src/server/workflowexecution: the state [CurrentNodeController] guards with
    its mutex and the sections that run under it: queueing and taking starts,
    reservations, agent capacity, the fences of interruptions, promotion,
    quiescence, closing (current_node_controller.go, current_node_admission.go,
    current_node_lifecycle.go, current_node_interruption.go,
    current_node_interrupt_state.go). Objects that are shared by pointer (capacity
    leases, completions, fences) are in maps of the controller under the numbers
    that stand for the pointers. A Go panic is [Err]. *)
From Stdlib Require Import ZArith String.
From stdpp Require Import gmap strings list.
From S2P Require Import Prelude Types Fanout CurrentState AdmissionQueue AdmissionInterface.

Local Open Scope string_scope.

(** ** Data *)
Definition key_parts (k : CurrentNodeReferenceKey) : TaskID * NodeID * option TransitionBranchKey :=
  match k with
  | serialCurrentNodeReferenceKey t n => (t, n, None)
  | branchCurrentNodeReferenceKey t n b => (t, n, Some b)
  end.
Definition key_of_parts (p : TaskID * NodeID * option TransitionBranchKey) : CurrentNodeReferenceKey :=
  match p with
  | (t, n, None) => serialCurrentNodeReferenceKey t n
  | (t, n, Some b) => branchCurrentNodeReferenceKey t n b
  end.
#[export] Instance CurrentNodeReferenceKey_countable : Countable CurrentNodeReferenceKey.
Proof. apply (inj_countable' key_parts key_of_parts). by intros []. Defined.
Definition key_task (k : CurrentNodeReferenceKey) : TaskID := (key_parts k).1.1.

Abbreviation ExecutionScopeID := string (only parsing).

(** The errors admission tells apart. *)
Inductive admit_error :=
| ErrCanceled | ErrTaskExecutionNotQuiescent | ErrExecutionNoLongerLive | ErrNoInterruptibleExecution | ErrMessage (message : error).
#[export] Instance admit_error_eq_dec : EqDecision admit_error.
Proof. solve_decision. Defined.

Inductive currentNodeAgentCapacityOwner :=
| currentNodeAgentCapacityReservation | currentNodeAgentCapacityLive | currentNodeAgentCapacityReleased.
#[export] Instance currentNodeAgentCapacityOwner_eq_dec : EqDecision currentNodeAgentCapacityOwner.
Proof. solve_decision. Defined.

(** What a completion was resolved with. *)
Record admission_outcome := { out_handle : option N; out_err : option admit_error }.

Record currentNodeInterruptFence := { fence_taskID : TaskID; fence_closed : bool }.
Record currentNodeInterruptState := { byScope : gmap ExecutionScopeID N; byCurrentNode : gmap CurrentNodeReferenceKey N }.
Definition newCurrentNodeInterruptState : currentNodeInterruptState := {| byScope := ∅; byCurrentNode := ∅ |}.

(** A live execution the authority selected: its node and scope. *)
Record WorkflowExecutionSelection := { wes_CurrentNode : CurrentNodeReference; wes_scope : ExecutionScopeID }.
#[export] Instance WorkflowExecutionSelection_eq_dec : EqDecision WorkflowExecutionSelection.
Proof. solve_decision. Defined.
(** [admissionWaits]: a key with the completion to wait for. *)
Record interrupt_cleanup := {
  ic_scopes : list ExecutionScopeID; ic_references : list CurrentNodeReference;
  ic_waits : list (CurrentNodeReferenceKey * option N); ic_fence : option N }.
(** [prepareStarts]: what the planner gives for a node, with the assignment
    that [PrepareCurrentNode] returned for it. *)
Record start_context := {
  sc_reference : CurrentNodeReference; sc_kind : NodeKind; sc_session : option SessionID; sc_assignment : option N }.

Inductive controller_panic :=
| QueueOverflow        (* automatic queue order overflow *)
| QueueIndex           (* automatic queue task index, or a policy that is not automatic *)
| KeyInvalid           (* a queued reference without a key *)
| CapacityTransition   (* a lease that changes hands from the wrong owner *)
| CapacityRelease      (* a release without active capacity *)
| FenceConflict        (* a scope or node under two fences *)
| WorkerReplaced       (* the ownership of an admission worker was replaced *)
| AdmissionUncertain   (* a durable admission that neither committed nor definitely failed *)
| InterruptionLost.    (* the interruption of an automatic start could not be stored *)

Section admission.
Context {Q : Type} `{AutomaticQueueOps Q}.

(** [agentConcurrency] is the configured limit; [workerWake] the channel of
    capacity one; [fresh] the next pointer. *)
Record CurrentNodeController := {
  c_agentConcurrency : Z;
  c_closed : bool;
  c_closing : bool;
  c_explicitQueue : list currentNodeQueuedStart;
  c_explicitQueued : gset CurrentNodeReferenceKey;
  c_explicitReservations : gmap CurrentNodeReferenceKey currentNodeQueuedStart;
  c_automaticQueue : Q;
  c_queued : gset CurrentNodeReferenceKey;
  c_automaticReservations : gmap CurrentNodeReferenceKey currentNodeQueuedStart;
  c_admissionWorkers : gmap CurrentNodeReferenceKey currentNodeQueuedStart;
  c_agentCapacityActive : Z;
  c_interrupts : currentNodeInterruptState;
  c_workerErr : list admit_error;
  c_lastAutomaticTask : option TaskID;
  c_workerWake : bool;
  c_leases : gmap N currentNodeAgentCapacityOwner;
  c_completions : gmap N (option admission_outcome);
  c_fences : gmap N currentNodeInterruptFence;
  c_fresh : N }.
Implicit Types (c : CurrentNodeController) (start : currentNodeQueuedStart) (key : CurrentNodeReferenceKey) (taskID : TaskID).
Definition set_closed v c : CurrentNodeController := {|
  c_agentConcurrency := c_agentConcurrency c; c_closed := v; c_closing := c_closing c; c_explicitQueue := c_explicitQueue c;
  c_explicitQueued := c_explicitQueued c; c_explicitReservations := c_explicitReservations c; c_automaticQueue := c_automaticQueue c;
  c_queued := c_queued c; c_automaticReservations := c_automaticReservations c; c_admissionWorkers := c_admissionWorkers c;
  c_agentCapacityActive := c_agentCapacityActive c; c_interrupts := c_interrupts c; c_workerErr := c_workerErr c;
  c_lastAutomaticTask := c_lastAutomaticTask c; c_workerWake := c_workerWake c; c_leases := c_leases c; c_completions := c_completions c;
  c_fences := c_fences c; c_fresh := c_fresh c |}.
Definition set_closing v c : CurrentNodeController := {|
  c_agentConcurrency := c_agentConcurrency c; c_closed := c_closed c; c_closing := v; c_explicitQueue := c_explicitQueue c;
  c_explicitQueued := c_explicitQueued c; c_explicitReservations := c_explicitReservations c; c_automaticQueue := c_automaticQueue c;
  c_queued := c_queued c; c_automaticReservations := c_automaticReservations c; c_admissionWorkers := c_admissionWorkers c;
  c_agentCapacityActive := c_agentCapacityActive c; c_interrupts := c_interrupts c; c_workerErr := c_workerErr c;
  c_lastAutomaticTask := c_lastAutomaticTask c; c_workerWake := c_workerWake c; c_leases := c_leases c; c_completions := c_completions c;
  c_fences := c_fences c; c_fresh := c_fresh c |}.
Definition set_explicitQueue v c : CurrentNodeController := {|
  c_agentConcurrency := c_agentConcurrency c; c_closed := c_closed c; c_closing := c_closing c; c_explicitQueue := v;
  c_explicitQueued := c_explicitQueued c; c_explicitReservations := c_explicitReservations c; c_automaticQueue := c_automaticQueue c;
  c_queued := c_queued c; c_automaticReservations := c_automaticReservations c; c_admissionWorkers := c_admissionWorkers c;
  c_agentCapacityActive := c_agentCapacityActive c; c_interrupts := c_interrupts c; c_workerErr := c_workerErr c;
  c_lastAutomaticTask := c_lastAutomaticTask c; c_workerWake := c_workerWake c; c_leases := c_leases c; c_completions := c_completions c;
  c_fences := c_fences c; c_fresh := c_fresh c |}.
Definition set_explicitQueued v c : CurrentNodeController := {|
  c_agentConcurrency := c_agentConcurrency c; c_closed := c_closed c; c_closing := c_closing c; c_explicitQueue := c_explicitQueue c;
  c_explicitQueued := v; c_explicitReservations := c_explicitReservations c; c_automaticQueue := c_automaticQueue c; c_queued := c_queued c;
  c_automaticReservations := c_automaticReservations c; c_admissionWorkers := c_admissionWorkers c; c_agentCapacityActive := c_agentCapacityActive c;
  c_interrupts := c_interrupts c; c_workerErr := c_workerErr c; c_lastAutomaticTask := c_lastAutomaticTask c; c_workerWake := c_workerWake c;
  c_leases := c_leases c; c_completions := c_completions c; c_fences := c_fences c; c_fresh := c_fresh c |}.
Definition set_explicitReservations v c : CurrentNodeController := {|
  c_agentConcurrency := c_agentConcurrency c; c_closed := c_closed c; c_closing := c_closing c; c_explicitQueue := c_explicitQueue c;
  c_explicitQueued := c_explicitQueued c; c_explicitReservations := v; c_automaticQueue := c_automaticQueue c; c_queued := c_queued c;
  c_automaticReservations := c_automaticReservations c; c_admissionWorkers := c_admissionWorkers c; c_agentCapacityActive := c_agentCapacityActive c;
  c_interrupts := c_interrupts c; c_workerErr := c_workerErr c; c_lastAutomaticTask := c_lastAutomaticTask c; c_workerWake := c_workerWake c;
  c_leases := c_leases c; c_completions := c_completions c; c_fences := c_fences c; c_fresh := c_fresh c |}.
Definition set_automaticQueue v c : CurrentNodeController := {|
  c_agentConcurrency := c_agentConcurrency c; c_closed := c_closed c; c_closing := c_closing c; c_explicitQueue := c_explicitQueue c;
  c_explicitQueued := c_explicitQueued c; c_explicitReservations := c_explicitReservations c; c_automaticQueue := v; c_queued := c_queued c;
  c_automaticReservations := c_automaticReservations c; c_admissionWorkers := c_admissionWorkers c; c_agentCapacityActive := c_agentCapacityActive c;
  c_interrupts := c_interrupts c; c_workerErr := c_workerErr c; c_lastAutomaticTask := c_lastAutomaticTask c; c_workerWake := c_workerWake c;
  c_leases := c_leases c; c_completions := c_completions c; c_fences := c_fences c; c_fresh := c_fresh c |}.
Definition set_queued v c : CurrentNodeController := {|
  c_agentConcurrency := c_agentConcurrency c; c_closed := c_closed c; c_closing := c_closing c; c_explicitQueue := c_explicitQueue c;
  c_explicitQueued := c_explicitQueued c; c_explicitReservations := c_explicitReservations c; c_automaticQueue := c_automaticQueue c; c_queued := v;
  c_automaticReservations := c_automaticReservations c; c_admissionWorkers := c_admissionWorkers c; c_agentCapacityActive := c_agentCapacityActive c;
  c_interrupts := c_interrupts c; c_workerErr := c_workerErr c; c_lastAutomaticTask := c_lastAutomaticTask c; c_workerWake := c_workerWake c;
  c_leases := c_leases c; c_completions := c_completions c; c_fences := c_fences c; c_fresh := c_fresh c |}.
Definition set_automaticReservations v c : CurrentNodeController := {|
  c_agentConcurrency := c_agentConcurrency c; c_closed := c_closed c; c_closing := c_closing c; c_explicitQueue := c_explicitQueue c;
  c_explicitQueued := c_explicitQueued c; c_explicitReservations := c_explicitReservations c; c_automaticQueue := c_automaticQueue c;
  c_queued := c_queued c; c_automaticReservations := v; c_admissionWorkers := c_admissionWorkers c; c_agentCapacityActive := c_agentCapacityActive c;
  c_interrupts := c_interrupts c; c_workerErr := c_workerErr c; c_lastAutomaticTask := c_lastAutomaticTask c; c_workerWake := c_workerWake c;
  c_leases := c_leases c; c_completions := c_completions c; c_fences := c_fences c; c_fresh := c_fresh c |}.
Definition set_admissionWorkers v c : CurrentNodeController := {|
  c_agentConcurrency := c_agentConcurrency c; c_closed := c_closed c; c_closing := c_closing c; c_explicitQueue := c_explicitQueue c;
  c_explicitQueued := c_explicitQueued c; c_explicitReservations := c_explicitReservations c; c_automaticQueue := c_automaticQueue c;
  c_queued := c_queued c; c_automaticReservations := c_automaticReservations c; c_admissionWorkers := v;
  c_agentCapacityActive := c_agentCapacityActive c; c_interrupts := c_interrupts c; c_workerErr := c_workerErr c;
  c_lastAutomaticTask := c_lastAutomaticTask c; c_workerWake := c_workerWake c; c_leases := c_leases c; c_completions := c_completions c;
  c_fences := c_fences c; c_fresh := c_fresh c |}.
Definition set_agentCapacityActive v c : CurrentNodeController := {|
  c_agentConcurrency := c_agentConcurrency c; c_closed := c_closed c; c_closing := c_closing c; c_explicitQueue := c_explicitQueue c;
  c_explicitQueued := c_explicitQueued c; c_explicitReservations := c_explicitReservations c; c_automaticQueue := c_automaticQueue c;
  c_queued := c_queued c; c_automaticReservations := c_automaticReservations c; c_admissionWorkers := c_admissionWorkers c;
  c_agentCapacityActive := v; c_interrupts := c_interrupts c; c_workerErr := c_workerErr c; c_lastAutomaticTask := c_lastAutomaticTask c;
  c_workerWake := c_workerWake c; c_leases := c_leases c; c_completions := c_completions c; c_fences := c_fences c; c_fresh := c_fresh c |}.
Definition set_interrupts v c : CurrentNodeController := {|
  c_agentConcurrency := c_agentConcurrency c; c_closed := c_closed c; c_closing := c_closing c; c_explicitQueue := c_explicitQueue c;
  c_explicitQueued := c_explicitQueued c; c_explicitReservations := c_explicitReservations c; c_automaticQueue := c_automaticQueue c;
  c_queued := c_queued c; c_automaticReservations := c_automaticReservations c; c_admissionWorkers := c_admissionWorkers c;
  c_agentCapacityActive := c_agentCapacityActive c; c_interrupts := v; c_workerErr := c_workerErr c; c_lastAutomaticTask := c_lastAutomaticTask c;
  c_workerWake := c_workerWake c; c_leases := c_leases c; c_completions := c_completions c; c_fences := c_fences c; c_fresh := c_fresh c |}.
Definition set_workerErr v c : CurrentNodeController := {|
  c_agentConcurrency := c_agentConcurrency c; c_closed := c_closed c; c_closing := c_closing c; c_explicitQueue := c_explicitQueue c;
  c_explicitQueued := c_explicitQueued c; c_explicitReservations := c_explicitReservations c; c_automaticQueue := c_automaticQueue c;
  c_queued := c_queued c; c_automaticReservations := c_automaticReservations c; c_admissionWorkers := c_admissionWorkers c;
  c_agentCapacityActive := c_agentCapacityActive c; c_interrupts := c_interrupts c; c_workerErr := v; c_lastAutomaticTask := c_lastAutomaticTask c;
  c_workerWake := c_workerWake c; c_leases := c_leases c; c_completions := c_completions c; c_fences := c_fences c; c_fresh := c_fresh c |}.
Definition set_lastAutomaticTask v c : CurrentNodeController := {|
  c_agentConcurrency := c_agentConcurrency c; c_closed := c_closed c; c_closing := c_closing c; c_explicitQueue := c_explicitQueue c;
  c_explicitQueued := c_explicitQueued c; c_explicitReservations := c_explicitReservations c; c_automaticQueue := c_automaticQueue c;
  c_queued := c_queued c; c_automaticReservations := c_automaticReservations c; c_admissionWorkers := c_admissionWorkers c;
  c_agentCapacityActive := c_agentCapacityActive c; c_interrupts := c_interrupts c; c_workerErr := c_workerErr c; c_lastAutomaticTask := v;
  c_workerWake := c_workerWake c; c_leases := c_leases c; c_completions := c_completions c; c_fences := c_fences c; c_fresh := c_fresh c |}.
Definition set_workerWake v c : CurrentNodeController := {|
  c_agentConcurrency := c_agentConcurrency c; c_closed := c_closed c; c_closing := c_closing c; c_explicitQueue := c_explicitQueue c;
  c_explicitQueued := c_explicitQueued c; c_explicitReservations := c_explicitReservations c; c_automaticQueue := c_automaticQueue c;
  c_queued := c_queued c; c_automaticReservations := c_automaticReservations c; c_admissionWorkers := c_admissionWorkers c;
  c_agentCapacityActive := c_agentCapacityActive c; c_interrupts := c_interrupts c; c_workerErr := c_workerErr c;
  c_lastAutomaticTask := c_lastAutomaticTask c; c_workerWake := v; c_leases := c_leases c; c_completions := c_completions c; c_fences := c_fences c;
  c_fresh := c_fresh c |}.
Definition set_leases v c : CurrentNodeController := {|
  c_agentConcurrency := c_agentConcurrency c; c_closed := c_closed c; c_closing := c_closing c; c_explicitQueue := c_explicitQueue c;
  c_explicitQueued := c_explicitQueued c; c_explicitReservations := c_explicitReservations c; c_automaticQueue := c_automaticQueue c;
  c_queued := c_queued c; c_automaticReservations := c_automaticReservations c; c_admissionWorkers := c_admissionWorkers c;
  c_agentCapacityActive := c_agentCapacityActive c; c_interrupts := c_interrupts c; c_workerErr := c_workerErr c;
  c_lastAutomaticTask := c_lastAutomaticTask c; c_workerWake := c_workerWake c; c_leases := v; c_completions := c_completions c;
  c_fences := c_fences c; c_fresh := c_fresh c |}.
Definition set_completions v c : CurrentNodeController := {|
  c_agentConcurrency := c_agentConcurrency c; c_closed := c_closed c; c_closing := c_closing c; c_explicitQueue := c_explicitQueue c;
  c_explicitQueued := c_explicitQueued c; c_explicitReservations := c_explicitReservations c; c_automaticQueue := c_automaticQueue c;
  c_queued := c_queued c; c_automaticReservations := c_automaticReservations c; c_admissionWorkers := c_admissionWorkers c;
  c_agentCapacityActive := c_agentCapacityActive c; c_interrupts := c_interrupts c; c_workerErr := c_workerErr c;
  c_lastAutomaticTask := c_lastAutomaticTask c; c_workerWake := c_workerWake c; c_leases := c_leases c; c_completions := v; c_fences := c_fences c;
  c_fresh := c_fresh c |}.
Definition set_fences v c : CurrentNodeController := {|
  c_agentConcurrency := c_agentConcurrency c; c_closed := c_closed c; c_closing := c_closing c; c_explicitQueue := c_explicitQueue c;
  c_explicitQueued := c_explicitQueued c; c_explicitReservations := c_explicitReservations c; c_automaticQueue := c_automaticQueue c;
  c_queued := c_queued c; c_automaticReservations := c_automaticReservations c; c_admissionWorkers := c_admissionWorkers c;
  c_agentCapacityActive := c_agentCapacityActive c; c_interrupts := c_interrupts c; c_workerErr := c_workerErr c;
  c_lastAutomaticTask := c_lastAutomaticTask c; c_workerWake := c_workerWake c; c_leases := c_leases c; c_completions := c_completions c;
  c_fences := v; c_fresh := c_fresh c |}.
Definition set_fresh v c : CurrentNodeController := {|
  c_agentConcurrency := c_agentConcurrency c; c_closed := c_closed c; c_closing := c_closing c; c_explicitQueue := c_explicitQueue c;
  c_explicitQueued := c_explicitQueued c; c_explicitReservations := c_explicitReservations c; c_automaticQueue := c_automaticQueue c;
  c_queued := c_queued c; c_automaticReservations := c_automaticReservations c; c_admissionWorkers := c_admissionWorkers c;
  c_agentCapacityActive := c_agentCapacityActive c; c_interrupts := c_interrupts c; c_workerErr := c_workerErr c;
  c_lastAutomaticTask := c_lastAutomaticTask c; c_workerWake := c_workerWake c; c_leases := c_leases c; c_completions := c_completions c;
  c_fences := c_fences c; c_fresh := v |}.

Definition NewCurrentNodeController (agentConcurrency : Z) : result error CurrentNodeController :=
  if (agentConcurrency <=? 0)%Z then Err "workflow agent concurrency must be positive"
  else Ok {| c_agentConcurrency := agentConcurrency; c_closed := false; c_closing := false; c_explicitQueue := []; c_explicitQueued := ∅;
             c_explicitReservations := ∅; c_automaticQueue := q_new; c_queued := ∅; c_automaticReservations := ∅; c_admissionWorkers := ∅;
             c_agentCapacityActive := 0; c_interrupts := newCurrentNodeInterruptState; c_workerErr := []; c_lastAutomaticTask := None;
             c_workerWake := false; c_leases := ∅; c_completions := ∅; c_fences := ∅; c_fresh := 0%N |}.

(** ** Starts *)
Definition with_completion (n : option N) start : currentNodeQueuedStart := {|
  qs_reference := qs_reference start; qs_nodeKind := qs_nodeKind start; qs_taskPromptDelivery := qs_taskPromptDelivery start;
  qs_assignmentSteer := qs_assignmentSteer start; qs_policy := qs_policy start; qs_completion := n;
  qs_agentCapacityLease := qs_agentCapacityLease start; qs_scheduling := qs_scheduling start |}.
Definition with_policy (p : currentNodeAdmissionPolicy) start : currentNodeQueuedStart := {|
  qs_reference := qs_reference start; qs_nodeKind := qs_nodeKind start; qs_taskPromptDelivery := qs_taskPromptDelivery start;
  qs_assignmentSteer := qs_assignmentSteer start; qs_policy := p; qs_completion := qs_completion start;
  qs_agentCapacityLease := qs_agentCapacityLease start; qs_scheduling := qs_scheduling start |}.
Definition with_scheduling (s : string) start : currentNodeQueuedStart := {|
  qs_reference := qs_reference start; qs_nodeKind := qs_nodeKind start; qs_taskPromptDelivery := qs_taskPromptDelivery start;
  qs_assignmentSteer := qs_assignmentSteer start; qs_policy := qs_policy start; qs_completion := qs_completion start;
  qs_agentCapacityLease := qs_agentCapacityLease start; qs_scheduling := s |}.
Definition with_lease (n : option N) start : currentNodeQueuedStart := {|
  qs_reference := qs_reference start; qs_nodeKind := qs_nodeKind start; qs_taskPromptDelivery := qs_taskPromptDelivery start;
  qs_assignmentSteer := qs_assignmentSteer start; qs_policy := qs_policy start; qs_completion := qs_completion start;
  qs_agentCapacityLease := n; qs_scheduling := qs_scheduling start |}.
Definition with_delivery (d : TaskPromptDelivery) start : currentNodeQueuedStart := {|
  qs_reference := qs_reference start; qs_nodeKind := qs_nodeKind start; qs_taskPromptDelivery := d;
  qs_assignmentSteer := qs_assignmentSteer start; qs_policy := qs_policy start; qs_completion := qs_completion start;
  qs_agentCapacityLease := qs_agentCapacityLease start; qs_scheduling := qs_scheduling start |}.
Definition with_kind (k : NodeKind) start : currentNodeQueuedStart := {|
  qs_reference := qs_reference start; qs_nodeKind := k; qs_taskPromptDelivery := qs_taskPromptDelivery start;
  qs_assignmentSteer := qs_assignmentSteer start; qs_policy := qs_policy start; qs_completion := qs_completion start;
  qs_agentCapacityLease := qs_agentCapacityLease start; qs_scheduling := qs_scheduling start |}.

Definition newCurrentNodeAdmissionCompletion c : N * CurrentNodeController :=
  (c_fresh c, set_fresh (c_fresh c + 1)%N (set_completions (<[c_fresh c := None]> (c_completions c)) c)).
(** [resolve] on a nil completion does nothing; the first call wins. *)
Definition resolve (completion : option N) (out : admission_outcome) c : CurrentNodeController :=
  match completion with
  | None => c
  | Some n =>
    match c_completions c !! n with
    | Some None => set_completions (<[n := Some out]> (c_completions c)) c
    | _ => c
    end
  end.
Definition ensure_completion start c : currentNodeQueuedStart * CurrentNodeController :=
  match qs_completion start with
  | Some _ => (start, c)
  | None => let '(n, c) := newCurrentNodeAdmissionCompletion c in (with_completion (Some n) start, c)
  end.

Definition prepareStart (delivery : TaskPromptDelivery) (i : start_context) c : currentNodeQueuedStart * CurrentNodeController :=
  let nodeDelivery := if sc_session i ==? None then TaskPromptDeliveryAssignment else delivery in
  let '(n, c) := newCurrentNodeAdmissionCompletion c in
  ({| qs_reference := sc_reference i; qs_nodeKind := sc_kind i; qs_taskPromptDelivery := nodeDelivery; qs_assignmentSteer := sc_assignment i;
      qs_policy := currentNodeAdmissionExplicitOverride; qs_completion := Some n; qs_agentCapacityLease := None;
      qs_scheduling := CurrentNodeSchedulingAdmitted |}, c).
Fixpoint prepareStarts (inputs : list start_context) (delivery : TaskPromptDelivery) c : list currentNodeQueuedStart * CurrentNodeController :=
  match inputs with
  | [] => ([], c)
  | i :: inputs =>
    let '(start, c) := prepareStart delivery i c in
    let '(starts, c) := prepareStarts inputs delivery c in
    (start :: starts, c)
  end.
(** The starts of a completion are automatic and not yet admitted. *)
Definition automatic_start start : currentNodeQueuedStart :=
  with_policy (if qs_nodeKind start ==? NodeKindScript then currentNodeAdmissionAutomaticScript else currentNodeAdmissionAutomaticAgent)
    (with_scheduling CurrentNodeSchedulingReady start).

(** ** Queueing *)
Definition wakeAdmissionWorker c : CurrentNodeController := set_workerWake true c.
Definition currentNodeOwnedLocked key c : bool :=
  (key ∈? c_explicitQueued c) || bool_decide (is_Some (c_explicitReservations c !! key)) ||
  (key ∈? c_queued c) || bool_decide (is_Some (c_automaticReservations c !! key)).

Definition queueExplicitStartLocked start c : option admit_error * CurrentNodeController :=
  if qs_policy start <>? currentNodeAdmissionExplicitOverride then (Some (ErrMessage "explicit current node start cannot be automatic"), c)
  else
    let '(start, c) := ensure_completion start c in
    match CurrentNodeReference_Key (qs_reference start) with
    | Err e => (Some (ErrMessage e), c)
    | Ok key =>
      if currentNodeOwnedLocked key c then (None, c)
      else (None, wakeAdmissionWorker (set_explicitQueued ({[key]} ∪ c_explicitQueued c)
                    (set_explicitQueue (c_explicitQueue c ++ [start]) c)))
    end.
Definition queueAutomaticStartLocked start c : result controller_panic (option admit_error * CurrentNodeController) :=
  if negb (isAutomatic (qs_policy start)) then
    Ok (Some (ErrMessage "automatic current node start requires an automatic admission policy"), c)
  else
    let '(start, c) := ensure_completion start c in
    match CurrentNodeReference_Key (qs_reference start) with
    | Err e => Ok (Some (ErrMessage e), c)
    | Ok key =>
      if currentNodeOwnedLocked key c then Ok (None, c)
      else match q_append start (c_automaticQueue c) with
           | None => Err QueueOverflow
           | Some q => Ok (None, wakeAdmissionWorker (set_queued ({[key]} ∪ c_queued c) (set_automaticQueue q c)))
           end
    end.
Fixpoint enqueueStarts_loop (starts : list currentNodeQueuedStart) c : result controller_panic CurrentNodeController :=
  match starts with
  | [] => Ok c
  | start :: starts =>
    r ← (if isAutomatic (qs_policy start) then queueAutomaticStartLocked start c else Ok (queueExplicitStartLocked start c));
    enqueueStarts_loop starts
      (match r.1 with Some e => set_workerErr (c_workerErr r.2 ++ [e]) r.2 | None => r.2 end)
  end.
Definition enqueueStarts (starts : list currentNodeQueuedStart) c : result controller_panic CurrentNodeController :=
  if starts ==? [] then Ok c
  else if c_closed c then Ok c
  else c ← enqueueStarts_loop starts c; Ok (wakeAdmissionWorker c).
(** The queueing of the starts of an approval, which stops at an error. *)
Fixpoint queueApprovedStarts (starts : list currentNodeQueuedStart) c : option admit_error * CurrentNodeController :=
  match starts with
  | [] => (None, c)
  | start :: starts =>
    match queueExplicitStartLocked start c with
    | (Some e, c) => (Some e, c)
    | (None, c) => queueApprovedStarts starts c
    end
  end.
Definition queuePreparedStarts (starts : list currentNodeQueuedStart) c : option admit_error * CurrentNodeController :=
  match queueApprovedStarts starts c with
  | (Some e, c) => (Some e, c)
  | (None, c) => (None, wakeAdmissionWorker c)
  end.

(** ** Capacity *)
Definition transitionAgentCapacityLocked (lease : option N) (from to : currentNodeAgentCapacityOwner) c
    : result controller_panic CurrentNodeController :=
  match lease with
  | None => Ok c
  | Some n => if c_leases c !! n <>? Some from then Err CapacityTransition else Ok (set_leases (<[n := to]> (c_leases c)) c)
  end.
Definition releaseAgentCapacityLocked (lease : option N) c : result controller_panic CurrentNodeController :=
  match lease with
  | None => Ok c
  | Some n =>
    match c_leases c !! n with
    | None => Err CapacityRelease
    | Some currentNodeAgentCapacityReleased => Ok c
    | Some _ =>
      if (c_agentCapacityActive c <=? 0)%Z then Err CapacityRelease
      else Ok (set_agentCapacityActive (c_agentCapacityActive c - 1)%Z
                 (set_leases (<[n := currentNodeAgentCapacityReleased]> (c_leases c)) c))
    end
  end.
(** The release a running scope calls back; the flag says that a wake-up
    follows the section. *)
Definition releaseAgentCapacity (lease : option N) c : result controller_panic (bool * CurrentNodeController) :=
  match lease with
  | None => Ok (false, c)
  | Some _ => c ← releaseAgentCapacityLocked lease c; Ok (negb (c_closed c || c_closing c), c)
  end.

(** ** Taking starts *)
Definition explicitAdmissionConcurrency : nat := 8.
Definition inFlightAdmissionCountLocked (policy : currentNodeAdmissionPolicy) c : nat :=
  length (filter (λ p : CurrentNodeReferenceKey * currentNodeQueuedStart, qs_policy p.2 = policy) (map_to_list (c_admissionWorkers c))).

Definition takeExplicitStart c : result controller_panic (option currentNodeQueuedStart * CurrentNodeController) :=
  if c_closed c || (explicitAdmissionConcurrency <=? inFlightAdmissionCountLocked currentNodeAdmissionExplicitOverride c)%nat then Ok (None, c)
  else match c_explicitQueue c with
  | [] => Ok (None, c)
  | start :: rest =>
    let c := set_explicitQueue rest c in
    match CurrentNodeReference_Key (qs_reference start) with
    | Err _ => Err KeyInvalid
    | Ok key =>
      let c := set_explicitQueued (c_explicitQueued c ∖ {[key]}) c in
      let '(start, c) := ensure_completion start c in
      Ok (Some start, set_admissionWorkers (<[key := start]> (c_admissionWorkers c))
           (set_explicitReservations (<[key := start]> (c_explicitReservations c)) c))
    end
  end.
Definition takeAutomaticIntent c : result controller_panic (option currentNodeQueuedStart * CurrentNodeController) :=
  if c_closed c || (q_len (c_automaticQueue c) ==? 0%Z) then Ok (None, c)
  else
    let agentAvailable := (c_agentCapacityActive c <? c_agentConcurrency c)%Z in
    match q_take (c_lastAutomaticTask c) agentAvailable (c_automaticQueue c) with
    | None => Err QueueIndex
    | Some None => Ok (None, c)
    | Some (Some (start, q)) =>
      let c := set_automaticQueue q c in
      match CurrentNodeReference_Key (qs_reference start) with
      | Err _ => Err KeyInvalid
      | Ok key =>
        let c := set_queued (c_queued c ∖ {[key]}) c in
        let start := with_delivery TaskPromptDeliveryResume start in
        let '(start, c) := ensure_completion start c in
        let '(start, c) :=
          if countsAgentCapacity (qs_policy start) then
            (with_lease (Some (c_fresh c)) start,
             set_agentCapacityActive (c_agentCapacityActive c + 1)%Z
               (set_fresh (c_fresh c + 1)%N (set_leases (<[c_fresh c := currentNodeAgentCapacityReservation]> (c_leases c)) c)))
          else (start, c) in
        let c := set_automaticReservations (<[key := start]> (c_automaticReservations c)) c in
        let c := set_admissionWorkers (<[key := start]> (c_admissionWorkers c)) c in
        Ok (Some start, set_lastAutomaticTask (Some (qs_task start)) c)
      end
    end.

(** ** Reservations *)
Definition admissionReservationLocked key (policy : currentNodeAdmissionPolicy) c : option currentNodeQueuedStart :=
  if isAutomatic policy then c_automaticReservations c !! key else c_explicitReservations c !! key.
Definition deleteAdmissionReservationLocked key (policy : currentNodeAdmissionPolicy) c : CurrentNodeController :=
  if isAutomatic policy then set_automaticReservations (delete key (c_automaticReservations c)) c
  else set_explicitReservations (delete key (c_explicitReservations c)) c.
Definition releaseReservation key (policy : currentNodeAdmissionPolicy) (capacityLease : option N) c
    : result controller_panic (bool * CurrentNodeController) :=
  let reserved := bool_decide (is_Some (admissionReservationLocked key policy c)) in
  let c := deleteAdmissionReservationLocked key policy c in
  c ← (match capacityLease with
       | Some n => if c_leases c !! n ==? Some currentNodeAgentCapacityReservation then releaseAgentCapacityLocked capacityLease c else Ok c
       | None => Ok c
       end);
  Ok ((reserved || isAutomatic policy) && negb (c_closed c), c).
Definition finishAdmissionWorker start c : result controller_panic (bool * CurrentNodeController) :=
  match CurrentNodeReference_Key (qs_reference start) with
  | Err _ => Err KeyInvalid
  | Ok key =>
    match c_admissionWorkers c !! key with
    | None => Err WorkerReplaced
    | Some current =>
      if (qs_completion current <>? qs_completion start) || (qs_policy current <>? qs_policy start) then Err WorkerReplaced
      else Ok (negb (c_closed c), set_admissionWorkers (delete key (c_admissionWorkers c)) c)
    end
  end.

(** ** Fences *)
Definition fence_pointers (s : currentNodeInterruptState) : list N := (map_to_list (byScope s)).*2 ++ (map_to_list (byCurrentNode s)).*2.
Definition fence_of_task taskID c (f : N) : bool := from_option (λ fence, fence_taskID fence ==? taskID) false (c_fences c !! f).
Definition taskActive taskID c : bool := existsb (fence_of_task taskID c) (fence_pointers (c_interrupts c)).
Definition beginTask taskID c : result admit_error (N * CurrentNodeController) :=
  if taskActive taskID c then Err ErrTaskExecutionNotQuiescent
  else Ok (c_fresh c, set_fresh (c_fresh c + 1)%N
             (set_fences (<[c_fresh c := {| fence_taskID := taskID; fence_closed := false |}]> (c_fences c)) c)).
Definition addScope (fence : N) (scopeID : ExecutionScopeID) c : result controller_panic CurrentNodeController :=
  let s := c_interrupts c in
  let added := set_interrupts {| byScope := <[scopeID := fence]> (byScope s); byCurrentNode := byCurrentNode s |} c in
  match byScope s !! scopeID with
  | Some existing => if existing <>? fence then Err FenceConflict else Ok added
  | None => Ok added
  end.
Definition addCurrentNode (fence : N) key c : result controller_panic CurrentNodeController :=
  let s := c_interrupts c in
  let added := set_interrupts {| byScope := byScope s; byCurrentNode := <[key := fence]> (byCurrentNode s) |} c in
  match byCurrentNode s !! key with
  | Some existing => if existing <>? fence then Err FenceConflict else Ok added
  | None => Ok added
  end.
Definition scopeFenced (scopeID : ExecutionScopeID) c : bool := bool_decide (is_Some (byScope (c_interrupts c) !! scopeID)).
Definition currentNodeFenced key c : bool := bool_decide (is_Some (byCurrentNode (c_interrupts c) !! key)).
Definition fenceActive (fence : N) c : bool := fence ∈? fence_pointers (c_interrupts c).
Definition finishFence (fence : option N) c : CurrentNodeController :=
  match fence with
  | None => c
  | Some f =>
    match c_fences c !! f with
    | None => c
    | Some fence =>
      if fence_closed fence || fenceActive f c then c
      else set_fences (<[f := {| fence_taskID := fence_taskID fence; fence_closed := true |}]> (c_fences c)) c
    end
  end.
Definition finishScope (scopeID : ExecutionScopeID) c : CurrentNodeController :=
  let s := c_interrupts c in
  finishFence (byScope s !! scopeID)
    (set_interrupts {| byScope := delete scopeID (byScope s); byCurrentNode := byCurrentNode s |} c).
Definition finishCurrentNode key c : CurrentNodeController :=
  let s := c_interrupts c in
  finishFence (byCurrentNode s !! key)
    (set_interrupts {| byScope := byScope s; byCurrentNode := delete key (byCurrentNode s) |} c).

(** ** Availability and quiescence *)
Definition ensureAvailableLocked c : option admit_error :=
  if c_closed c then Some (ErrMessage "current node workflow controller is closed")
  else if c_workerErr c <>? [] then Some (ErrMessage "workflow execution lifecycle failed")
  else None.
Definition ensureTaskAvailableLocked taskID c : option admit_error :=
  match ensureAvailableLocked c with
  | Some e => Some e
  | None => if taskActive taskID c then Some ErrTaskExecutionNotQuiescent else None
  end.
Definition has_task taskID (starts : list currentNodeQueuedStart) : bool := existsb (λ s, qs_task s ==? taskID) starts.
Definition reserved_starts (m : gmap CurrentNodeReferenceKey currentNodeQueuedStart) : list currentNodeQueuedStart := (map_to_list m).*2.
(** The starts of a task anywhere in the controller. *)
Definition taskHasControllerQueuedWorkLocked taskID c : bool :=
  has_task taskID (q_items (c_automaticQueue c)) || has_task taskID (c_explicitQueue c) ||
  has_task taskID (reserved_starts (c_automaticReservations c)) || has_task taskID (reserved_starts (c_explicitReservations c)) ||
  has_task taskID (reserved_starts (c_admissionWorkers c)).
Definition taskExecutionQuiescentLocked taskID c : bool :=
  if taskActive taskID c then false
  else if has_task taskID (q_items (c_automaticQueue c)) then false
  else if has_task taskID (reserved_starts (c_automaticReservations c)) then false
  else if has_task taskID (c_explicitQueue c) then false
  else if has_task taskID (reserved_starts (c_explicitReservations c)) then false
  else if has_task taskID (reserved_starts (c_admissionWorkers c)) then false
  else true.
Definition ensureTaskQuiescentLocked taskID c : option admit_error :=
  match ensureTaskAvailableLocked taskID c with
  | Some e => Some e
  | None => if taskExecutionQuiescentLocked taskID c then None else Some ErrTaskExecutionNotQuiescent
  end.
(** [live]: what the execution authority answers. *)
Definition EnsureTaskQuiescent taskID (live : result admit_error bool) c : option admit_error :=
  if taskID ==? "" then Some (ErrMessage "workflow task id is required")
  else match live with
  | Err e => Some e
  | Ok true => Some ErrTaskExecutionNotQuiescent
  | Ok false => ensureTaskQuiescentLocked taskID c
  end.

(** ** Promotion and observation of one node *)
(** Moves a start that left the automatic queue to the explicit one. *)
Definition promote_start key start c : CurrentNodeController :=
  let c := set_queued (c_queued c ∖ {[key]}) c in
  let c := set_explicitQueue (c_explicitQueue c ++ [with_policy currentNodeAdmissionExplicitOverride start]) c in
  set_explicitQueued ({[key]} ∪ c_explicitQueued c) c.
Fixpoint promote_loop (starts : list currentNodeQueuedStart) c : result error (list CurrentNodeReference) * CurrentNodeController :=
  match starts with
  | [] => (Ok [], c)
  | start :: starts =>
    match CurrentNodeReference_Key (qs_reference start) with
    | Err e => (Err e, c)
    | Ok key =>
      let '(r, c) := promote_loop starts (promote_start key start c) in
      (promoted ← r; Ok (qs_reference start :: promoted), c)
    end
  end.
(** The section of [PromoteConcurrencyQueuedTask]; a wake-up follows when
    something was promoted. *)
Definition promote_section taskID c : result controller_panic (result error (list CurrentNodeReference) * CurrentNodeController) :=
  if c_closed c then Ok (Err "current node workflow controller is closed", c)
  else match q_remove_task taskID (c_automaticQueue c) with
  | None => Err QueueIndex
  | Some (starts, q) => Ok (promote_loop starts (set_automaticQueue q c))
  end.

(** The first start with a key; a start without one panics. *)
Fixpoint find_key key (starts : list currentNodeQueuedStart) : result controller_panic (option currentNodeQueuedStart) :=
  match starts with
  | [] => Ok None
  | start :: starts =>
    match CurrentNodeReference_Key (qs_reference start) with
    | Err _ => Err KeyInvalid
    | Ok startKey => if startKey ==? key then Ok (Some start) else find_key key starts
    end
  end.
Definition currentNodeAdmissionLocked key c : result controller_panic (option N * CurrentNodeController) :=
  found ← find_key key (c_explicitQueue c);
  match found with
  | Some start => Ok (qs_completion start, c)
  | None =>
    match q_remove_key key (c_automaticQueue c) with
    | None => Err KeyInvalid
    | Some (Some (start, q)) => Ok (qs_completion start, wakeAdmissionWorker (promote_start key start (set_automaticQueue q c)))
    | Some None =>
      match c_explicitReservations c !! key with
      | Some start => Ok (qs_completion start, c)
      | None =>
        match c_automaticReservations c !! key with
        | Some start => Ok (qs_completion start, c)
        | None => Ok (c_admissionWorkers c !! key ≫= qs_completion, c)
        end
      end
    end
  end.

(** ** Interruption *)
Definition not_quiescent : admission_outcome := {| out_handle := None; out_err := Some ErrTaskExecutionNotQuiescent |}.
Record drained := { dr_references : list CurrentNodeReference; dr_waits : list (CurrentNodeReferenceKey * option N); dr_c : CurrentNodeController }.
Definition drain_one (fence : N) key start (wait : option N) (d : drained) : result controller_panic drained :=
  c ← addCurrentNode fence key (dr_c d);
  Ok {| dr_references := dr_references d ++ [qs_reference start]; dr_waits := dr_waits d ++ [(key, wait)]; dr_c := c |}.

(** The four loops of [drainTaskControllerWorkLocked]; the starts of the task
    leave the automatic queue together. A drained start without a
    key is a panic here; the caller has checked that there is none. *)
Fixpoint drain_explicit taskID (fence : N) (starts : list currentNodeQueuedStart) (d : drained)
    : result controller_panic (list currentNodeQueuedStart * drained) :=
  match starts with
  | [] => Ok ([], d)
  | start :: starts =>
    if qs_task start <>? taskID then
      r ← drain_explicit taskID fence starts d; Ok (start :: r.1, r.2)
    else match CurrentNodeReference_Key (qs_reference start) with
    | Err _ => Err KeyInvalid
    | Ok key =>
      d ← drain_one fence key start None
            {| dr_references := dr_references d; dr_waits := dr_waits d;
               dr_c := set_explicitQueued (c_explicitQueued (dr_c d) ∖ {[key]}) (dr_c d) |};
      drain_explicit taskID fence starts
        {| dr_references := dr_references d; dr_waits := dr_waits d; dr_c := resolve (qs_completion start) not_quiescent (dr_c d) |}
    end
  end.
Fixpoint drain_automatic (fence : N) (starts : list currentNodeQueuedStart) (d : drained) : result controller_panic drained :=
  match starts with
  | [] => Ok d
  | start :: starts =>
    match CurrentNodeReference_Key (qs_reference start) with
    | Err _ => Err KeyInvalid
    | Ok key =>
      d ← drain_one fence key start None
            {| dr_references := dr_references d; dr_waits := dr_waits d; dr_c := set_queued (c_queued (dr_c d) ∖ {[key]}) (dr_c d) |};
      drain_automatic fence starts d
    end
  end.
(** Reservations whose worker still prepares are left to it. *)
Fixpoint drain_reservations (automatic : bool) taskID (fence : N) (l : list (CurrentNodeReferenceKey * currentNodeQueuedStart)) (d : drained)
    : result controller_panic drained :=
  match l with
  | [] => Ok d
  | (key, start) :: l =>
    if (qs_task start <>? taskID) || bool_decide (is_Some (c_admissionWorkers (dr_c d) !! key)) then drain_reservations automatic taskID fence l d
    else
      let c := if automatic then set_automaticReservations (delete key (c_automaticReservations (dr_c d))) (dr_c d)
               else set_explicitReservations (delete key (c_explicitReservations (dr_c d))) (dr_c d) in
      c ← (if automatic then releaseAgentCapacityLocked (qs_agentCapacityLease start) c else Ok c);
      d ← drain_one fence key start (qs_completion start) {| dr_references := dr_references d; dr_waits := dr_waits d; dr_c := c |};
      drain_reservations automatic taskID fence l
        {| dr_references := dr_references d; dr_waits := dr_waits d; dr_c := resolve (qs_completion start) not_quiescent (dr_c d) |}
  end.
Section ranged.
Context `{RangeOrder}.
Definition drainTaskControllerWorkLocked taskID (fence : N) (d : drained) : result controller_panic drained :=
  r ← drain_explicit taskID fence (c_explicitQueue (dr_c d)) d;
  let '(kept, d) := r in
  let c := set_explicitQueue kept (dr_c d) in
  match q_remove_task taskID (c_automaticQueue c) with
  | None => Err QueueIndex
  | Some (starts, q) =>
    d ← drain_automatic fence starts {| dr_references := dr_references d; dr_waits := dr_waits d; dr_c := set_automaticQueue q c |};
    d ← drain_reservations false taskID fence (range_map (c_explicitReservations (dr_c d))) d;
    drain_reservations true taskID fence (range_map (c_automaticReservations (dr_c d))) d
  end.

Definition validate_starts (check_start : currentNodeQueuedStart → bool) taskID (starts : list currentNodeQueuedStart) : bool :=
  forallb (λ s, (qs_task s <>? taskID) || check_start s) starts.
Definition has_a_key start : bool := match CurrentNodeReference_Key (qs_reference start) with Ok _ => true | Err _ => false end.
Definition is_valid start : bool := CurrentNodeReference_Validate (qs_reference start) ==? None.
Definition validateTaskControllerWorkLocked taskID c : bool :=
  validate_starts has_a_key taskID (q_items (c_automaticQueue c)) && validate_starts has_a_key taskID (c_explicitQueue c) &&
  validate_starts is_valid taskID (reserved_starts (c_explicitReservations c)) &&
  validate_starts is_valid taskID (reserved_starts (c_automaticReservations c)) &&
  validate_starts is_valid taskID (reserved_starts (c_admissionWorkers c)).

Fixpoint fence_scopes (fence : N) (selected : list WorkflowExecutionSelection) c : result controller_panic CurrentNodeController :=
  match selected with
  | [] => Ok c
  | e :: selected => c ← addScope fence (wes_scope e) c; fence_scopes fence selected c
  end.
(** Fences the selected scopes and drains the task's work. *)
Definition fence_task taskID (selected : list WorkflowExecutionSelection) (fence : N) c : result controller_panic (interrupt_cleanup * CurrentNodeController) :=
  c ← fence_scopes fence selected c;
  d ← drainTaskControllerWorkLocked taskID fence {| dr_references := wes_CurrentNode <$> selected; dr_waits := []; dr_c := c |};
  Ok ({| ic_scopes := wes_scope <$> selected; ic_references := dr_references d; ic_waits := dr_waits d; ic_fence := Some fence |}, dr_c d).

(** What [Interrupt] does with the selection of the authority, for a whole task
    or one session. [WithWorkflowInterruptSelection] refuses when no running
    execution is selected, and waiting ones alone do not count
    (src/server/sessionruntime/workflow_interrupt.go). *)
Definition interrupt_selection taskID (sessionID : option SessionID) (interruptible waiting : list WorkflowExecutionSelection) c
    : result controller_panic (result admit_error interrupt_cleanup * CurrentNodeController) :=
  let selected := (interruptible ++ (if sessionID ==? None then waiting else []))%list in
  if interruptible ==? [] then Ok (Err ErrExecutionNoLongerLive, c)
  else if c_closed c then Ok (Err (ErrMessage "current node workflow controller is closed"), c)
  else if c_workerErr c <>? [] then Ok (Err (ErrMessage "workflow execution lifecycle failed"), c)
  else if taskActive taskID c then Ok (Err ErrTaskExecutionNotQuiescent, c)
  else if existsb (λ e, cnr_TaskID (wes_CurrentNode e) <>? taskID) selected then
    Ok (Err (ErrMessage "authority interrupt selection does not match the selected Task"), c)
  else match sessionID with
  | Some _ => Ok (Ok {| ic_scopes := wes_scope <$> selected; ic_references := wes_CurrentNode <$> selected; ic_waits := []; ic_fence := None |}, c)
  | None =>
    if negb (validateTaskControllerWorkLocked taskID c) then Ok (Err (ErrMessage "validate controller work"), c)
    else match beginTask taskID c with
    | Err e => Ok (Err e, c)
    | Ok (fence, c) => r ← fence_task taskID selected fence c; Ok (Ok r.1, r.2)
    end
  end.
(** Whether every current node the selector names is interrupted, and there is
    one; of a stored node its session and the state of its scheduling count. *)
Record stored_node := { sn_SessionID : option SessionID; sn_state : option string }.
Definition interruptSelectorAlreadyInterrupted (currentNodes : list stored_node) (sessionID : option SessionID) : bool :=
  let named := match sessionID with Some sid => filter (λ n, sn_SessionID n = Some sid) currentNodes | None => currentNodes end in
  negb (length named =? 0)%nat && forallb (λ n, sn_state n ==? Some CurrentNodeSchedulingInterrupted) named.
(** The section of [Interrupt]; [currentNodes]: what [ListCurrentNodes] answers. *)
Definition interrupt_section taskID (sessionID : option SessionID) (interruptible waiting : list WorkflowExecutionSelection)
    (currentNodes : result admit_error (list stored_node)) c : result controller_panic (result admit_error interrupt_cleanup * CurrentNodeController) :=
  r ← interrupt_selection taskID sessionID interruptible waiting c;
  match r.1 with
  | Err ErrExecutionNoLongerLive =>
    Ok (nodes ← currentNodes;
        if interruptSelectorAlreadyInterrupted nodes sessionID
        then Ok {| ic_scopes := []; ic_references := []; ic_waits := []; ic_fence := None |}
        else Err ErrNoInterruptibleExecution, r.2)
  | _ => Ok r
  end.
(** The section of [InterruptForManualMove]. *)
Definition manual_move_section taskID (interruptible waiting : list WorkflowExecutionSelection) c
    : result controller_panic (result admit_error interrupt_cleanup * CurrentNodeController) :=
  if waiting <>? [] then Ok (Err (ErrMessage "workflow task has a non-interruptible lifecycle conflict"), c)
  else if c_closed c then Ok (Err (ErrMessage "current node workflow controller is closed"), c)
  else if c_workerErr c <>? [] then Ok (Err (ErrMessage "workflow execution lifecycle failed"), c)
  else if taskActive taskID c then Ok (Err ErrTaskExecutionNotQuiescent, c)
  else if existsb (λ e, cnr_TaskID (wes_CurrentNode e) <>? taskID) interruptible then
    Ok (Err (ErrMessage "manual move interruption selection is not workflow scoped"), c)
  else if negb (validate_starts has_a_key taskID (q_items (c_automaticQueue c)) && validate_starts has_a_key taskID (c_explicitQueue c) &&
                validate_starts is_valid taskID (reserved_starts (c_explicitReservations c)) &&
                validate_starts is_valid taskID (reserved_starts (c_automaticReservations c))) then
    Ok (Err (ErrMessage "validate controller work"), c)
  else if (interruptible <>? []) || taskHasControllerQueuedWorkLocked taskID c then
    if negb (validateTaskControllerWorkLocked taskID c) then Ok (Err (ErrMessage "validate controller work"), c)
    else match beginTask taskID c with
    | Err e => Ok (Err e, c)
    | Ok (fence, c) => r ← fence_task taskID interruptible fence c; Ok (Ok r.1, r.2)
    end
  else Ok (Ok {| ic_scopes := wes_scope <$> interruptible; ic_references := wes_CurrentNode <$> interruptible; ic_waits := []; ic_fence := None |}, c).
End ranged.

(** ** Closing *)
Definition close_begin c : CurrentNodeController := if c_closed c then c else set_closing true c.
Definition shut_down : admission_outcome :=
  {| out_handle := None; out_err := Some (ErrMessage "current node workflow controller shut down before admission") |}.
Definition close_finish c : CurrentNodeController :=
  let queuedStarts := c_explicitQueue c in
  let c := set_closing false (set_closed true c) in
  let c := set_explicitQueued ∅ (set_explicitQueue [] c) in
  let c := set_queued ∅ (set_automaticQueue (q_clear (c_automaticQueue c)) c) in
  foldl (λ c start, resolve (qs_completion start) shut_down c) c queuedStarts.
End admission.
