(* ===== verification/AdmissionSteps.v ===== *)
(** * Schedules of the admission controller

    src/server/workflowexecution/current_node_admission.go: the dispatcher
    [runAdmissions], the goroutines [runAdmission] it starts, and the callers of
    the controller, interleaved at the granularity of the mutex sections. A
    goroutine is at a phase of its code; what the store, the runner and the
    authority answer is chosen by the schedule. Task lanes are held by
    goroutines; a caller whose section lies in a lane runs when it is free. *)
From Stdlib Require Import ZArith String.
From stdpp Require Import gmap strings list relations.
From S2P Require Import Prelude Types CurrentState AdmissionQueue AdmissionInterface Admission.

Local Open Scope string_scope.

(** ** Admission of one start *)
Inductive admission_kind := AdmitAgent | AdmitScript.
#[export] Instance admission_kind_eq_dec : EqDecision admission_kind.
Proof. solve_decision. Defined.

(** [admit] up to the task lane. [publication]: whether the runner prepared a
    script publication; [steer]: the error of preparing and awaiting the
    assignment. *)
Definition admit_prepare (start : currentNodeQueuedStart) (publication : result admit_error bool) (steer : option admit_error)
    : result admit_error (admission_kind * currentNodeQueuedStart) :=
  published ← publication;
  if published : bool then Ok (AdmitScript, with_kind NodeKindScript start)
  else if qs_nodeKind start ==? NodeKindScript then Err (ErrMessage "Script publication preparation returned no publication")
  else
    let start := if qs_nodeKind start ==? NodeKindUnset then with_kind NodeKindAgent start else start in
    if (qs_assignmentSteer start ==? None) &&
       ((qs_taskPromptDelivery start ==? TaskPromptDeliveryAssignment) || isAutomatic (qs_policy start)) then
      Err (ErrMessage "Agent admission requires its committed startup preparation")
    else match qs_assignmentSteer start, steer with
    | Some _, Some e => Err e
    | _, _ => Ok (AdmitAgent, start)
    end.

(** What [AdmitCurrentNode] answered: whether it committed, its error, and
    whether the error says that nothing was committed. *)
Record admit_receipt := { ar_committed : bool; ar_err : option (admit_error * bool) }.
Definition classifyCurrentNodeAdmission (r : admit_receipt) : result controller_panic (option admit_error) :=
  if ar_committed r then Ok None
  else match ar_err r with
  | Some (e, true) => Ok (Some e)
  | _ => Err AdmissionUncertain
  end.
(** What [Publish] did around the durable admission it was given. *)
Inductive publication :=
| PublishRefused (e : admit_error)                      (* before the admission *)
| PublishAdmitted (r : admit_receipt) (failed : option admit_error). (* after it *)
(** The durable part of an admission: its error, and whether it was admitted. *)
Definition durable_admission (start : currentNodeQueuedStart) (r : admit_receipt) : result controller_panic (option admit_error) :=
  if qs_scheduling start ==? CurrentNodeSchedulingAdmitted then Ok None else classifyCurrentNodeAdmission r.
Definition publish (start : currentNodeQueuedStart) (p : publication) : result controller_panic (option (admit_error * bool)) :=
  match p with
  | PublishRefused e => Ok (Some (e, false))
  | PublishAdmitted r failed =>
    e ← durable_admission start r;
    match e with
    | Some e => Ok (Some (e, false))
    | None => Ok ((λ e, (e, true)) <$> failed)
    end
  end.

(** The execution a start returned. *)
Inductive started := StartFailed (e : admit_error) | StartNothing | StartMismatched | StartRunning (handle : N).
(** How the interruption of a failed start went. *)
Inductive recovery := Recovered | RecoveryFailed (e : admit_error) | RecoveryNotStored (e : admit_error).

Section system.
Context {Q : Type} `{AutomaticQueueOps Q} `{RangeOrder}.
Implicit Types (c : CurrentNodeController (Q := Q)) (key : CurrentNodeReferenceKey) (start : currentNodeQueuedStart).

(** The section in the lane that precedes the durable admission. *)
Definition admit_section (kind : admission_kind) key start c : result controller_panic (option admit_error * CurrentNodeController) :=
  match ensureTaskAvailableLocked (qs_task start) c with
  | Some e => Ok (Some e, c)
  | None =>
    match admissionReservationLocked key (qs_policy start) c with
    | None => Ok (Some ErrExecutionNoLongerLive, c)
    | Some reservation =>
      if qs_completion reservation <>? qs_completion start then Ok (Some ErrExecutionNoLongerLive, c)
      else
        let c := deleteAdmissionReservationLocked key (qs_policy start) c in
        c ← (match kind with
             | AdmitAgent => transitionAgentCapacityLocked (qs_agentCapacityLease start) currentNodeAgentCapacityReservation currentNodeAgentCapacityLive c
             | AdmitScript => Ok c
             end);
        Ok (None, c)
    end
  end.

(** ** Goroutines *)
(** A failed admission: its error, and whether the node was admitted. *)
Abbreviation failure := (option (admit_error * bool)) (only parsing).
Inductive phase :=
| Preparing                                                   (* admit, before the lane *)
| Entering (kind : admission_kind)                            (* runTaskMutation: the barrier and the closed test *)
| Locking (kind : admission_kind)                             (* behind the barrier, waiting for the lane *)
| Inside (kind : admission_kind)                              (* in the lane, before its section *)
| Committing (kind : admission_kind)                          (* in the lane, the durable admission *)
| Leaving (kind : admission_kind) (f : failure)               (* in the lane, about to leave *)
| Starting (kind : admission_kind)                            (* starting the execution *)
| Failing (e : admit_error) (admitted : bool)                 (* admitAgent: about to release the capacity *)
| Releasing (f : failure) (handle : option N)                 (* the deferred releaseReservation *)
| Deciding (f : failure) (handle : option N)                  (* runAdmission, with the result of admit *)
| Failed (e : admit_error) (admitted : bool)                  (* handleCurrentNodeStartFailures: the closed test *)
| Reentering (e : admit_error) (admitted : bool)              (* runTaskMutations: the barrier and the closed test *)
| Relocking (e : admit_error) (admitted : bool)               (* behind the barrier, waiting for the lane *)
| Recovering (e : admit_error) (admitted : bool)              (* in the lane, interruptCurrentNodeStartFailures *)
| Relinquishing (e : admit_error) (reported : option admit_error) (* in the lane, about to leave *)
| Reporting (e reported : admit_error)                        (* its error, about to be recorded *)
| Resolving (err : option admit_error) (handle : option N)    (* the deferred resolve *)
| Unfencing                                                   (* the deferred finishTaskInterruptAdmission *)
| Finishing.                                                  (* the deferred finishAdmissionWorker *)
Record worker := { wk_start : currentNodeQueuedStart; wk_phase : phase }.

(** The dispatcher waits for a wake-up, tries the explicit queue, or tries the
    automatic one. *)
Inductive dispatcher := Idle | TryExplicit | TryAutomatic | Stopped.
#[export] Instance dispatcher_eq_dec : EqDecision dispatcher.
Proof. solve_decision. Defined.

(** [sy_lanes]: the goroutine in the lane of a task; [sy_wakes]: wake-ups that
    callers still owe after their section; [sy_handed]: leases whose release
    was handed to a running scope. *)
Record system := {
  sy_c : CurrentNodeController (Q := Q); sy_dispatcher : dispatcher; sy_workers : gmap N worker; sy_lanes : gmap TaskID N;
  sy_next : N; sy_wakes : nat; sy_handed : list N; sy_canceled : bool }.
Implicit Types (s : system) (w : worker) (i : N).
Definition new_system c : system := {|
  sy_c := c; sy_dispatcher := Idle; sy_workers := ∅; sy_lanes := ∅; sy_next := 0%N; sy_wakes := 0; sy_handed := []; sy_canceled := false |}.
Inductive outcome := Next (s : system) | Blocked | Panic (p : controller_panic).

Definition with_c c s : system := {|
  sy_c := c; sy_dispatcher := sy_dispatcher s; sy_workers := sy_workers s; sy_lanes := sy_lanes s; sy_next := sy_next s;
  sy_wakes := sy_wakes s; sy_handed := sy_handed s; sy_canceled := sy_canceled s |}.
Definition with_dispatcher (d : dispatcher) s : system := {|
  sy_c := sy_c s; sy_dispatcher := d; sy_workers := sy_workers s; sy_lanes := sy_lanes s; sy_next := sy_next s;
  sy_wakes := sy_wakes s; sy_handed := sy_handed s; sy_canceled := sy_canceled s |}.
Definition with_workers (m : gmap N worker) s : system := {|
  sy_c := sy_c s; sy_dispatcher := sy_dispatcher s; sy_workers := m; sy_lanes := sy_lanes s; sy_next := sy_next s;
  sy_wakes := sy_wakes s; sy_handed := sy_handed s; sy_canceled := sy_canceled s |}.
Definition with_lanes (m : gmap TaskID N) s : system := {|
  sy_c := sy_c s; sy_dispatcher := sy_dispatcher s; sy_workers := sy_workers s; sy_lanes := m; sy_next := sy_next s;
  sy_wakes := sy_wakes s; sy_handed := sy_handed s; sy_canceled := sy_canceled s |}.
Definition with_handed (l : list N) s : system := {|
  sy_c := sy_c s; sy_dispatcher := sy_dispatcher s; sy_workers := sy_workers s; sy_lanes := sy_lanes s; sy_next := sy_next s;
  sy_wakes := sy_wakes s; sy_handed := l; sy_canceled := sy_canceled s |}.
Definition with_canceled (b : bool) s : system := {|
  sy_c := sy_c s; sy_dispatcher := sy_dispatcher s; sy_workers := sy_workers s; sy_lanes := sy_lanes s; sy_next := sy_next s;
  sy_wakes := sy_wakes s; sy_handed := sy_handed s; sy_canceled := b |}.
(** A wake-up owed after a section. *)
Definition owe_wake (b : bool) s : system := {|
  sy_c := sy_c s; sy_dispatcher := sy_dispatcher s; sy_workers := sy_workers s; sy_lanes := sy_lanes s; sy_next := sy_next s;
  sy_wakes := if b then S (sy_wakes s) else sy_wakes s; sy_handed := sy_handed s; sy_canceled := sy_canceled s |}.
(** [go c.runAdmission(start)]. *)
Definition spawn start s : system := {|
  sy_c := sy_c s; sy_dispatcher := sy_dispatcher s; sy_workers := <[sy_next s := {| wk_start := start; wk_phase := Preparing |}]> (sy_workers s);
  sy_lanes := sy_lanes s; sy_next := (sy_next s + 1)%N; sy_wakes := sy_wakes s; sy_handed := sy_handed s; sy_canceled := sy_canceled s |}.
Definition go_on i start (p : phase) s : system := with_workers (<[i := {| wk_start := start; wk_phase := p |}]> (sy_workers s)) s.
Definition lift {A} (r : result controller_panic A) (f : A → outcome) : outcome := match r with Ok a => f a | Err p => Panic p end.

(** The phase after a mutation that failed. *)
Definition mutation_failed (kind : admission_kind) (e : admit_error) (admitted : bool) : phase :=
  match kind with AdmitAgent => Failing e admitted | AdmitScript => Releasing (Some (e, admitted)) None end.

(** What the outside answers to a goroutine. *)
Inductive answer :=
| Silent
| Prepared (publication : result admit_error bool) (steer : option admit_error)
| Canceled (e : admit_error)
| AdmitAnswer (r : admit_receipt)
| PublishAnswer (p : publication)
| StartAnswer (o : started)
| RecoveryAnswer (o : recovery).

(** One step of a goroutine. *)
Definition worker_step i w (a : answer) s : outcome :=
  let start := wk_start w in
  let c := sy_c s in
  match CurrentNodeReference_Key (qs_reference start) with
  | Err e =>
    (* admit returns before anything else, and the first deferred call panics *)
    match wk_phase w with Preparing => Panic KeyInvalid | _ => Blocked end
  | Ok key =>
    match wk_phase w, a with
    | Preparing, Prepared publication steer =>
      match admit_prepare start publication steer with
      | Err e => Next (go_on i start (Releasing (Some (e, false)) None) s)
      | Ok (kind, start) => Next (go_on i start (Entering kind) s)
      end
    | Entering kind, Silent =>
      if c_closed c || c_closing c
      then Next (go_on i start (mutation_failed kind (ErrMessage "current node workflow controller is closed") false) s)
      else Next (go_on i start (Locking kind) s)
    | Locking kind, Silent =>
      match sy_lanes s !! qs_task start with
      | Some _ => Blocked
      | None => Next (with_lanes (<[qs_task start := i]> (sy_lanes s)) (go_on i start (Inside kind) s))
      end
    | Locking kind, Canceled e => Next (go_on i start (mutation_failed kind e false) s)
    | Inside kind, Silent =>
      lift (admit_section kind key start c) (λ r,
        Next (go_on i start (match r.1 with Some e => Leaving kind (Some (e, false)) | None => Committing kind end) (with_c r.2 s)))
    | Committing AdmitAgent, AdmitAnswer r =>
      lift (durable_admission start r) (λ e, Next (go_on i start (Leaving AdmitAgent ((λ e, (e, false)) <$> e)) s))
    | Committing AdmitScript, PublishAnswer p =>
      lift (publish start p) (λ f, Next (go_on i start (Leaving AdmitScript f) s))
    | Leaving kind f, Silent =>
      Next (with_lanes (delete (qs_task start) (sy_lanes s))
        (go_on i start (match f with Some (e, admitted) => mutation_failed kind e admitted | None => Starting kind end) s))
    | Starting kind, StartAnswer o =>
      let s := match kind, qs_agentCapacityLease start with
               | AdmitAgent, Some n => with_handed (n :: sy_handed s) s
               | _, _ => s
               end in
      match kind, o with
      | AdmitAgent, StartFailed e => Next (go_on i start (Failing e true) s)
      | AdmitAgent, StartNothing => Next (go_on i start (Failing (ErrMessage "Agent start returned no execution") true) s)
      | _, StartMismatched => Next (go_on i start (Releasing (Some (ErrMessage "start returned a mismatched Workflow scope", true)) None) s)
      | _, StartRunning handle => Next (owe_wake (negb (isAutomatic (qs_policy start))) (go_on i start (Releasing None (Some handle)) s))
      | AdmitScript, _ => Blocked
      end
    | Failing e admitted, Silent =>
      lift (releaseAgentCapacityLocked (qs_agentCapacityLease start) c) (λ c, Next (go_on i start (Releasing (Some (e, admitted)) None) (with_c c s)))
    | Releasing f handle, Silent =>
      lift (releaseReservation key (qs_policy start) (qs_agentCapacityLease start) c) (λ r,
        Next (owe_wake r.1 (go_on i start (Deciding f handle) (with_c r.2 s))))
    | Deciding f handle, Silent =>
      match f with
      | None => Next (go_on i start (Resolving None handle) s)
      | Some (e, admitted) =>
        if (e ==? ErrCanceled) || (e ==? ErrTaskExecutionNotQuiescent) || currentNodeFenced key c
        then Next (go_on i start (Resolving (Some e) None) s)
        else Next (go_on i start (Failed e admitted) s)
      end
    | Failed e admitted, Silent =>
      Next (go_on i start (if c_closed c || c_closing c then Resolving (Some e) None else Reentering e admitted) s)
    | Reentering e admitted, Silent =>
      Next (go_on i start (if c_closed c || c_closing c then Reporting e (ErrMessage "current node workflow controller is closed")
                           else Relocking e admitted) s)
    | Relocking e admitted, Silent =>
      match sy_lanes s !! qs_task start with
      | Some _ => Blocked
      | None => Next (with_lanes (<[qs_task start := i]> (sy_lanes s)) (go_on i start (Recovering e admitted) s))
      end
    | Relocking e admitted, Canceled reported => Next (go_on i start (Reporting e reported) s)
    | Recovering e admitted, RecoveryAnswer o =>
      match o with
      | Recovered => Next (go_on i start (Relinquishing e None) s)
      | RecoveryFailed reported => Next (go_on i start (Relinquishing e (Some reported)) s)
      | RecoveryNotStored reported =>
        if isAutomatic (qs_policy start) then Panic InterruptionLost else Next (go_on i start (Relinquishing e (Some reported)) s)
      end
    | Relinquishing e reported, Silent =>
      Next (with_lanes (delete (qs_task start) (sy_lanes s))
        (go_on i start (match reported with Some reported => Reporting e reported | None => Resolving (Some e) None end) s))
    | Reporting e reported, Silent =>
      let c := if c_closed c || c_closing c then c else set_workerErr (c_workerErr c ++ [e; reported])%list c in
      Next (go_on i start (Resolving (Some e) None) (with_c c s))
    | Resolving err handle, Silent =>
      Next (go_on i start Unfencing (with_c (resolve (qs_completion start) {| out_handle := handle; out_err := err |} c) s))
    | Unfencing, Silent => Next (go_on i start Finishing (with_c (finishCurrentNode key c) s))
    | Finishing, Silent =>
      lift (finishAdmissionWorker start c) (λ r, Next (owe_wake r.1 (with_workers (delete i (sy_workers s)) (with_c r.2 s))))
    | _, _ => Blocked
    end
  end.

(** ** Schedules *)
Inductive action :=
| Wake                                                            (* the dispatcher receives a wake-up *)
| Dispatch                                                        (* the dispatcher tries a queue *)
| Stop                                                            (* the dispatcher sees the end of its context *)
| Run (i : N) (a : answer)                                        (* a goroutine *)
| SendWake                                                        (* wakeAdmissionWorker *)
| Complete (inputs : list start_context)                          (* the continuation of a completion queues its starts *)
| Approve (inputs : list start_context)                           (* an approval queues its starts *)
| Begin (delivery : TaskPromptDelivery) (inputs : list start_context) (* a start, resumption or move queues its starts *)
| Watch (key : CurrentNodeReferenceKey)                           (* a resumption looks for the admission of a node *)
| Promote (taskID : TaskID)
| Interrupt (taskID : TaskID) (sessionID : option SessionID) (interruptible waiting : list WorkflowExecutionSelection)
    (currentNodes : result admit_error (list stored_node))
| InterruptForManualMove (taskID : TaskID) (interruptible waiting : list WorkflowExecutionSelection)
| FinishScope (scopeID : ExecutionScopeID)                        (* an interruption saw the end of a scope *)
| FinishNode (key : CurrentNodeReferenceKey)                      (* an interruption saw the end of an admission *)
| CapacityCallback (lease : N)                                    (* a running scope releases its capacity *)
| CloseBegin
| CloseFinish.

(** Close waits for the mutations behind the barrier. *)
Definition behind_barrier (p : phase) : bool :=
  match p with
  | Locking _ | Inside _ | Committing _ | Leaving _ _ | Relocking _ _ | Recovering _ _ | Relinquishing _ _ => true
  | _ => false
  end.
Definition mutating s : bool := existsb (λ p : N * worker, behind_barrier (wk_phase p.2)) (map_to_list (sy_workers s)).
(** A mutation that was accepted before Close runs to its end, as Close waits
    for it before it closes the controller. *)
Definition behind_open_barrier s (o : outcome) : outcome := if c_closed (sy_c s) then Blocked else o.
Definition in_free_lane (taskID : TaskID) s (o : outcome) : outcome :=
  behind_open_barrier s (match sy_lanes s !! taskID with Some _ => Blocked | None => o end).

Definition exec (a : action) s : outcome :=
  let c := sy_c s in
  match a with
  | Wake =>
    if (sy_dispatcher s ==? Idle) && c_workerWake c then Next (with_dispatcher TryExplicit (with_c (set_workerWake false c) s)) else Blocked
  | Stop => if (sy_dispatcher s ==? Idle) && sy_canceled s then Next (with_dispatcher Stopped s) else Blocked
  | Dispatch =>
    match sy_dispatcher s with
    | TryExplicit =>
      lift (takeExplicitStart c) (λ r,
        match r.1 with
        | Some start => Next (spawn start (with_c r.2 s))
        | None => Next (with_dispatcher TryAutomatic (with_c r.2 s))
        end)
    | TryAutomatic =>
      lift (takeAutomaticIntent c) (λ r,
        match r.1 with
        | Some start => Next (with_dispatcher TryExplicit (spawn start (with_c r.2 s)))
        | None => Next (with_dispatcher Idle (with_c r.2 s))
        end)
    | _ => Blocked
    end
  | Run i a => match sy_workers s !! i with Some w => worker_step i w a s | None => Blocked end
  | SendWake =>
    match sy_wakes s with
    | O => Blocked
    | S n => Next {| sy_c := wakeAdmissionWorker c; sy_dispatcher := sy_dispatcher s; sy_workers := sy_workers s; sy_lanes := sy_lanes s;
                     sy_next := sy_next s; sy_wakes := n; sy_handed := sy_handed s; sy_canceled := sy_canceled s |}
    end
  | Complete inputs =>
    let '(starts, c) := prepareStarts inputs TaskPromptDeliveryAssignment c in
    if inputs ==? [] then Next (with_c (wakeAdmissionWorker c) s)
    else lift (enqueueStarts (automatic_start <$> starts) c) (λ c, Next (with_c c s))
  | Approve inputs =>
    behind_open_barrier s (let '(starts, c) := prepareStarts inputs TaskPromptDeliveryAssignment c in
      Next (with_c (queueApprovedStarts starts c).2 s))
  | Begin delivery inputs =>
    behind_open_barrier s (let '(starts, c) := prepareStarts inputs delivery c in
      Next (with_c (queuePreparedStarts starts c).2 s))
  | Watch key => behind_open_barrier s (lift (currentNodeAdmissionLocked key c) (λ r, Next (with_c r.2 s)))
  | Promote taskID =>
    in_free_lane taskID s (lift (promote_section taskID c) (λ r,
      Next (owe_wake (match r.1 with Ok promoted => promoted <>? [] | Err _ => false end) (with_c r.2 s))))
  | Interrupt taskID sessionID interruptible waiting currentNodes =>
    in_free_lane taskID s (lift (interrupt_section taskID sessionID interruptible waiting currentNodes c) (λ r,
      Next (owe_wake (match r.1 with Ok k => (ic_scopes k <>? []) || (ic_waits k <>? []) | Err _ => false end) (with_c r.2 s))))
  | InterruptForManualMove taskID interruptible waiting =>
    in_free_lane taskID s (lift (manual_move_section taskID interruptible waiting c) (λ r,
      Next (owe_wake (match r.1 with Ok k => (ic_scopes k <>? []) || (ic_waits k <>? []) | Err _ => false end) (with_c r.2 s))))
  | FinishScope scopeID => Next (with_c (finishScope scopeID c) s)
  | FinishNode key => Next (with_c (finishCurrentNode key c) s)
  | CapacityCallback lease =>
    if lease ∈? sy_handed s then lift (releaseAgentCapacity (Some lease) c) (λ r, Next (owe_wake r.1 (with_c r.2 s))) else Blocked
  | CloseBegin => if c_closed c then Blocked else Next (with_canceled true (with_c (close_begin c) s))
  | CloseFinish => if c_closing c && negb (mutating s) then Next (with_c (close_finish c) s) else Blocked
  end.

Fixpoint run (schedule : list action) s : outcome :=
  match schedule with
  | [] => Next s
  | a :: rest => match exec a s with Next s => run rest s | o => o end
  end.

(** ** Waiting for an admission *)
(** The completion a resumption of one node returns to its caller, with the state
    after it: that of the admission of a node that is resumed already, or that of
    the start it queues. [resumeTask] refuses nodes that are owned and nodes that
    occur twice; the prepared starts are queued by a later section. *)
Inductive waits_for s : N → system → Prop :=
| waits_admission key n c' : c_closed (sy_c s) = false → currentNodeAdmissionLocked key (sy_c s) = Ok (Some n, c') → waits_for s n (with_c c' s)
| waits_start delivery inputs starts c1 start key n c' : c_closed (sy_c s) = false → prepareStarts inputs delivery (sy_c s) = (starts, c1) →
    NoDup ((λ st, CurrentNodeReference_Key (qs_reference st)) <$> starts) → start ∈ starts → CurrentNodeReference_Key (qs_reference start) = Ok key →
    currentNodeOwnedLocked key (sy_c s) = false → queuePreparedStarts starts c1 = (None, c') → qs_completion start = Some n → waits_for s n (with_c c' s).
(** The start was queued after its node had got an owner in between. *)
Inductive waits_dropped s : N → system → Prop :=
| waits_owned delivery inputs starts c1 start key n c' : c_closed (sy_c s) = false → prepareStarts inputs delivery (sy_c s) = (starts, c1) →
    start ∈ starts → CurrentNodeReference_Key (qs_reference start) = Ok key →
    currentNodeOwnedLocked key (sy_c s) = true → queuePreparedStarts starts c1 = (None, c') → qs_completion start = Some n → waits_dropped s n (with_c c' s).
End system.
