(* ===== verification/AdmissionFacts.v ===== *)
(** * Consistency of the admission controller

    The invariant of the state under the mutex, for any automatic queue that
    satisfies its interface, and what every section does to it. *)
From Stdlib Require Import ZArith String Lia.
From stdpp Require Import gmap strings list.
From S2P Require Import Prelude Types CurrentState AdmissionQueue AdmissionQueueFacts AdmissionInterface Admission.

(** ** Keys of starts *)
Definition start_key (s : currentNodeQueuedStart) : option CurrentNodeReferenceKey :=
  match CurrentNodeReference_Key (qs_reference s) with Ok k => Some k | Err _ => None end.
Definition keys (l : list currentNodeQueuedStart) : list CurrentNodeReferenceKey := omap start_key l.
Arguments keys : simpl never.
Lemma start_key_Ok s k : start_key s = Some k ↔ CurrentNodeReference_Key (qs_reference s) = Ok k.
Proof. unfold start_key. destruct (CurrentNodeReference_Key _); split; congruence. Qed.
Lemma keyed_start s : keyed s ↔ ∃ k, start_key s = Some k.
Proof. unfold keyed. split; intros [k E]; exists k; by apply start_key_Ok. Qed.
Lemma has_key_start k s : has_key k s = true ↔ start_key s = Some k.
Proof.
  unfold has_key, start_key. destruct (CurrentNodeReference_Key _); [|done]. rewrite bool_decide_eq_true. split; congruence.
Qed.
Lemma start_key_task s k : start_key s = Some k → key_task k = qs_task s.
Proof.
  intros E%start_key_Ok. unfold CurrentNodeReference_Key in E. destruct (CurrentNodeReference_Validate _); [done|].
  destruct (TransitionBranchKey_of _) as [b sc]. by destruct sc; simplify_eq/=.
Qed.
Lemma elem_of_keys k l : k ∈ keys l ↔ ∃ s, s ∈ l ∧ start_key s = Some k.
Proof. apply list_elem_of_omap. Qed.
Lemma keys_app l1 l2 : keys (l1 ++ l2) = keys l1 ++ keys l2.
Proof. apply omap_app. Qed.
Lemma keys_match s l : keys (s :: l) = match start_key s with Some k => k :: keys l | None => keys l end.
Proof. done. Qed.
Lemma keys_cons s k l : start_key s = Some k → keys (s :: l) = k :: keys l.
Proof. intros E. unfold keys. simpl. by rewrite E. Qed.

(** A queue and the set of the keys in it. *)
Record mirror (l : list currentNodeQueuedStart) (K : gset CurrentNodeReferenceKey) : Prop := {
  mi_keyed : ∀ s, s ∈ l → keyed s;
  mi_nodup : NoDup (keys l);
  mi_set : ∀ k, k ∈ K ↔ k ∈ keys l }.
Lemma mirror_nil : mirror [] ∅.
Proof. split; [by intros s []%elem_of_nil|constructor|set_solver]. Qed.
Lemma mirror_snoc l K s k : mirror l K → start_key s = Some k → k ∉ K → mirror (l ++ [s]) ({[k]} ∪ K).
Proof.
  intros [H1 H2 H3] Hk Hn. split.
  - intros x [Hx|Hx%list_elem_of_singleton]%elem_of_app; [by apply H1|]. subst. apply keyed_start. eauto.
  - rewrite keys_app, (keys_cons s k) by done. apply NoDup_app. split_and!; [done| |apply NoDup_singleton].
    intros y Hy Hy'. apply list_elem_of_singleton in Hy' as ->. by apply Hn, H3.
  - intros y. rewrite keys_app, (keys_cons s k), elem_of_app, list_elem_of_singleton, elem_of_union, elem_of_singleton, H3 by done. tauto.
Qed.
Lemma mirror_remove l1 s l2 K k : mirror (l1 ++ s :: l2) K → start_key s = Some k → k ∈ K ∧ mirror (l1 ++ l2) (K ∖ {[k]}).
Proof.
  intros [H1 H2 H3] Hk. rewrite keys_app, (keys_cons s k) in H2 by done. pose proof H2 as (N1 & N2 & [N3 N4]%NoDup_cons)%NoDup_app.
  assert (∀ y, y ∈ K ↔ y = k ∨ y ∈ keys (l1 ++ l2)) as HK.
  { intros y. rewrite H3, !keys_app, (keys_cons s k), !elem_of_app, elem_of_cons by done. tauto. }
  split; [apply HK; by left|]. split.
  - intros x Hx. apply H1. rewrite elem_of_app in Hx |- *. rewrite elem_of_cons. tauto.
  - rewrite keys_app. apply NoDup_app. split_and!; [done| |done]. intros y Hy Hy'. apply (N2 y Hy). by right.
  - intros y. rewrite elem_of_difference, elem_of_singleton, HK. split; [tauto|]. intros Hy. split; [by right|]. intros ->.
    rewrite keys_app in Hy. apply elem_of_app in Hy as [Hy|Hy]; [|done]. apply (N2 k Hy). by left.
Qed.
Lemma elem_of_keys_others t l k : (∀ s, s ∈ l → keyed s) → k ∈ keys (others t l) ↔ k ∈ keys l ∧ key_task k ≠ t.
Proof.
  intros _. rewrite !elem_of_keys. unfold others. split.
  - intros (s & [Hs Hin]%list_elem_of_filter & Hk). split; [eauto|]. by rewrite (start_key_task s k Hk).
  - intros [(s & Hin & Hk) Ht]. exists s. split; [|done]. apply list_elem_of_filter. by rewrite <- (start_key_task s k Hk).
Qed.
Lemma keys_filter_nodup (P : currentNodeQueuedStart → Prop) `{∀ s, Decision (P s)} l : NoDup (keys l) → NoDup (keys (filter P l)).
Proof.
  assert (∀ k l, k ∈ keys (filter P l) → k ∈ keys l) as Hsub.
  { intros k m. rewrite !elem_of_keys. intros (s & [_ ?]%list_elem_of_filter & ?). eauto. }
  induction l as [|s l IH]; [done|]. intros Hnd. rewrite filter_cons. unfold keys in Hnd. simpl in Hnd.
  destruct (start_key s) as [k|] eqn:E.
  - apply NoDup_cons in Hnd as [Hk Hnd]. case_decide; [|by apply IH]. rewrite (keys_cons s k) by done.
    apply NoDup_cons. split; [|by apply IH]. intros ?%Hsub. done.
  - case_decide; [|by apply IH]. unfold keys. simpl. rewrite E. by apply IH.
Qed.
Lemma mirror_others t l K K' : mirror l K → (∀ k, k ∈ K' ↔ k ∈ K ∧ key_task k ≠ t) → mirror (others t l) K'.
Proof.
  intros [H1 H2 H3] HK. split.
  - intros s [_ Hs]%list_elem_of_filter. by apply H1.
  - by apply keys_filter_nodup.
  - intros k. by rewrite HK, elem_of_keys_others, H3.
Qed.

(** ** Capacity in use *)
Abbreviation owners := (gmap N currentNodeAgentCapacityOwner) (only parsing).
Definition unreleased (m : owners) : owners := filter (λ p, p.2 ≠ currentNodeAgentCapacityReleased) m.
Definition active (m : owners) : Z := Z.of_nat (size (unreleased m)).
Lemma unreleased_insert m n o : unreleased (<[n := o]> m) =
  if decide (o ≠ currentNodeAgentCapacityReleased) then <[n := o]> (unreleased m) else delete n (unreleased m).
Proof.
  unfold unreleased. rewrite map_filter_insert. case_decide; simpl in *; [by rewrite decide_True|].
  rewrite decide_False by tauto. apply map_filter_delete.
Qed.
Lemma unreleased_lookup m n o : m !! n = Some o → o ≠ currentNodeAgentCapacityReleased → unreleased m !! n = Some o.
Proof. intros. by apply map_lookup_filter_Some. Qed.
Lemma active_new m n : m !! n = None → active (<[n := currentNodeAgentCapacityReservation]> m) = (active m + 1)%Z.
Proof.
  intros E. unfold active. rewrite unreleased_insert, decide_True by done.
  rewrite map_size_insert_None; [lia|]. apply map_lookup_filter_None. by left.
Qed.
Lemma active_change m n o o' : m !! n = Some o → o ≠ currentNodeAgentCapacityReleased → o' ≠ currentNodeAgentCapacityReleased →
  active (<[n := o']> m) = active m.
Proof.
  intros E Ho Ho'. unfold active. rewrite unreleased_insert, decide_True by done. rewrite map_size_insert_Some; [done|].
  exists o. by apply unreleased_lookup.
Qed.
Lemma active_release m n o : m !! n = Some o → o ≠ currentNodeAgentCapacityReleased →
  active (<[n := currentNodeAgentCapacityReleased]> m) = (active m - 1)%Z ∧ (0 < active m)%Z.
Proof.
  intros E Ho. unfold active. rewrite unreleased_insert, decide_False by tauto.
  pose proof (unreleased_lookup m n o E Ho) as Hl. pose proof (map_size_delete_Some _ _ (mk_is_Some _ _ Hl)) as Hs.
  assert (size (unreleased m) ≠ 0%nat) by (intros Hz%map_size_empty_iff; by rewrite Hz in Hl). rewrite Hs. lia.
Qed.

(** ** The invariant *)
(** A part of the invariant whose fields are the same. *)
Ltac kept := match goal with H : ?P _ |- ?P _ => solve [destruct H; constructor; assumption] end.
Section controller.
Context {Q : Type} `{AutomaticQueue Q} (scope_task : ExecutionScopeID → TaskID) (limit : Z).
Abbreviation controller := (CurrentNodeController (Q := Q)) (only parsing).
Implicit Types (c : CurrentNodeController (Q := Q)) (st : currentNodeQueuedStart) (k : CurrentNodeReferenceKey) (t : TaskID) (n b : N).

Definition pending c : list currentNodeQueuedStart := c_explicitQueue c ++ q_items (c_automaticQueue c).
Definition pending_completion c n : Prop := ∃ st, st ∈ pending c ∧ qs_completion st = Some n.

Record queues_ok c : Prop := {
  qo_queue : q_ok (c_automaticQueue c);
  qo_explicit : mirror (c_explicitQueue c) (c_explicitQueued c);
  qo_automatic : mirror (q_items (c_automaticQueue c)) (c_queued c);
  qo_policy : ∀ st, st ∈ c_explicitQueue c → qs_policy st = currentNodeAdmissionExplicitOverride }.
(** No node is in two of the queues and reservations. *)
Record apart c : Prop := {
  ap_explicit : ∀ k, k ∈ c_explicitQueued c → (k ∉ c_queued c) ∧ c_explicitReservations c !! k = None ∧ c_automaticReservations c !! k = None;
  ap_automatic : ∀ k, k ∈ c_queued c → c_explicitReservations c !! k = None ∧ c_automaticReservations c !! k = None;
  ap_reserved : ∀ k, is_Some (c_explicitReservations c !! k) → c_automaticReservations c !! k = None }.
Record reserved_ok c : Prop := {
  rs_explicit : ∀ k st, c_explicitReservations c !! k = Some st →
    qs_policy st = currentNodeAdmissionExplicitOverride ∧ c_admissionWorkers c !! k = Some st;
  rs_automatic : ∀ k st, c_automaticReservations c !! k = Some st → isAutomatic (qs_policy st) = true ∧ c_admissionWorkers c !! k = Some st;
  rs_entries : ∀ k st, c_admissionWorkers c !! k = Some st → start_key st = Some k }.
Record comps_ok c : Prop := {
  co_pending : ∀ st, st ∈ pending c → qs_agentCapacityLease st = None ∧ ∃ n, qs_completion st = Some n ∧ (n < c_fresh c)%N;
  co_nodup : NoDup (qs_completion <$> pending c) }.
Record capacity_ok c : Prop := {
  cap_active : c_agentCapacityActive c = active (c_leases c);
  cap_limit : (c_agentCapacityActive c ≤ c_agentConcurrency c)%Z;
  cap_config : c_agentConcurrency c = limit;
  cap_fresh : ∀ n, is_Some (c_leases c !! n) → (n < c_fresh c)%N }.
Record fences_ok c : Prop := {
  fe_scope : ∀ sc f, byScope (c_interrupts c) !! sc = Some f → ∃ fence, c_fences c !! f = Some fence ∧ fence_taskID fence = scope_task sc;
  fe_node : ∀ k f, byCurrentNode (c_interrupts c) !! k = Some f → ∃ fence, c_fences c !! f = Some fence ∧ fence_taskID fence = key_task k;
  fe_fresh : ∀ f, is_Some (c_fences c !! f) → (f < c_fresh c)%N }.
Record cinv c : Prop := {
  ci_queues : queues_ok c; ci_apart : apart c; ci_reserved : reserved_ok c; ci_comps : comps_ok c;
  ci_capacity : capacity_ok c; ci_fences : fences_ok c }.

Lemma cinv_new c : NewCurrentNodeController limit = Ok c → cinv c.
Proof.
  unfold NewCurrentNodeController. destruct (limit <=? 0)%Z eqn:E; [done|]. intros [= <-]. apply Z.leb_gt in E.
  destruct (q_new_law (Q := Q)) as (Hq & Hi & _). split.
  - split; simpl; [done|apply mirror_nil|rewrite Hi; apply mirror_nil|by intros st []%elem_of_nil].
  - split; simpl; intros k; [set_solver|set_solver|by intros _].
  - split; simpl; intros k st Hk; by rewrite lookup_empty in Hk.
  - split; unfold pending; simpl; rewrite Hi; [by intros st []%elem_of_nil|constructor].
  - split; simpl; [done|lia|done|]. intros n [o Hn]. by rewrite lookup_empty in Hn.
  - split; simpl; intros x; [intros f Hf; by rewrite lookup_empty in Hf..|]. intros [o Hn]. by rewrite lookup_empty in Hn.
Qed.

(** ** What a section leaves to the goroutines *)
(** The reservation of a node. *)
Definition reserved c k st : Prop := c_explicitReservations c !! k = Some st ∨ c_automaticReservations c !! k = Some st.
Lemma reserved_same c c' : c_explicitReservations c' = c_explicitReservations c → c_automaticReservations c' = c_automaticReservations c →
  ∀ k st, reserved c' k st → reserved c k st.
Proof. unfold reserved. by intros -> ->. Qed.
(** The leases and workers are the same; nothing was reserved; completions that
    became pending are no older than [b]; only tasks in [T] may have become
    fenced. *)
Record frame b (T : TaskID → Prop) c c' : Prop := {
  fr_leases : c_leases c' = c_leases c;
  fr_workers : c_admissionWorkers c' = c_admissionWorkers c;
  fr_reserved : ∀ k st, reserved c' k st → reserved c k st;
  fr_fresh : (c_fresh c ≤ c_fresh c')%N;
  fr_pending : ∀ n, pending_completion c' n → pending_completion c n ∨ (b ≤ n)%N;
  fr_active : ∀ t, taskActive t c' = true → taskActive t c = true ∨ T t }.
Abbreviation no_task := (λ _ : TaskID, False) (only parsing).
Lemma cframe_refl b T c : frame b T c c.
Proof. split; [done..|lia| |]; auto. Qed.
Lemma cframe_trans b T c1 c2 c3 : frame b T c1 c2 → frame b T c2 c3 → frame b T c1 c3.
Proof.
  intros [A1 A2 Ar A3 A4 A5] [B1 B2 Br B3 B4 B5]. split; [congruence..|auto|lia| |].
  - intros n [Hn|Hn]%B4; [by apply A4|by right].
  - intros t [Ht|Ht]%B5; [by apply A5|by right].
Qed.
(** Sections that leave the queues and fences alone. *)
Lemma cframe_same b T c c' : c_leases c' = c_leases c → c_admissionWorkers c' = c_admissionWorkers c → (c_fresh c ≤ c_fresh c')%N →
  pending c' = pending c → c_interrupts c' = c_interrupts c → c_fences c' = c_fences c →
  c_explicitReservations c' = c_explicitReservations c → c_automaticReservations c' = c_automaticReservations c → frame b T c c'.
Proof.
  intros E1 E2 E3 E4 E5 E6 E7 E8. split; [done..|by apply reserved_same|done| |].
  - unfold pending_completion. rewrite E4. auto.
  - unfold taskActive, fence_of_task. rewrite E5, E6. auto.
Qed.

(** ** Queueing *)
(** A start that may be queued. *)
Definition ready b c st : Prop :=
  qs_agentCapacityLease st = None ∧ ∃ n, qs_completion st = Some n ∧ (b ≤ n)%N ∧ (n < c_fresh c)%N ∧ ¬ pending_completion c n.
Record ready_all b c (l : list currentNodeQueuedStart) : Prop := {
  ra_ready : ∀ st, st ∈ l → ready b c st; ra_nodup : NoDup (qs_completion <$> l) }.

Lemma cinv_fresh c x : cinv c → (c_fresh c ≤ x)%N → cinv (set_fresh x c).
Proof.
  intros [Hq Ha Hr [P1 P2] [K1 K2 Kc K3] [F1 F2 F3]] Hx. split; [kept..| | |]; split; simpl; try done.
  - intros st Hst. destruct (P1 st Hst) as (? & n & ? & ?). split; [done|]. exists n. split; [done|lia].
  - intros n Hn. specialize (K3 n Hn). lia.
  - intros f Hf. specialize (F3 f Hf). lia.
Qed.
Lemma cinv_completions c m : cinv c → cinv (set_completions m c).
Proof. intros []. split; kept. Qed.
Lemma newCompletion_ok c : cinv c → let r := newCurrentNodeAdmissionCompletion c in
  r.1 = c_fresh c ∧ cinv r.2 ∧ c_fresh r.2 = (c_fresh c + 1)%N ∧ pending r.2 = pending c ∧ ∀ b T, frame b T c r.2.
Proof.
  intros Hc. simpl. split_and!; [done| |done|done|].
  - apply (cinv_fresh (set_completions (<[c_fresh c := None]> (c_completions c)) c)); [by apply cinv_completions|simpl; lia].
  - intros b T. apply cframe_same; try done. simpl. lia.
Qed.
Lemma ready_mono b c c' st : ready b c st → (c_fresh c ≤ c_fresh c')%N → (∀ n, qs_completion st = Some n → pending_completion c' n → pending_completion c n) →
  ready b c' st.
Proof. intros (? & n & En & ? & ? & Hn) Hf Hp. split; [done|]. exists n. split_and!; [done..|lia|]. intros Hn'. by apply Hn, Hp. Qed.

Lemma prepareStarts_ok inputs delivery b : ∀ c, cinv c → (b ≤ c_fresh c)%N → let r := prepareStarts inputs delivery c in
  cinv r.2 ∧ frame b no_task c r.2 ∧ pending r.2 = pending c ∧ ready_all b r.2 r.1 ∧
  (∀ st n, st ∈ r.1 → qs_completion st = Some n → (c_fresh c ≤ n)%N).
Proof.
  induction inputs as [|i inputs IH]; intros c Hc Hb; simpl.
  { split_and!; [done|apply cframe_refl|done| |]; [split; simpl; [by intros st []%elem_of_nil|constructor]|by intros st n []%elem_of_nil]. }
  destruct (newCompletion_ok c Hc) as (_ & Hc1 & Hf1 & Hp1 & Hfr). unfold newCurrentNodeAdmissionCompletion in Hc1, Hf1, Hp1, Hfr. simpl in Hc1, Hf1, Hp1, Hfr.
  specialize (IH _ Hc1 ltac:(simpl; lia)). destruct (prepareStarts inputs delivery _) as [starts c2] eqn:E. simpl in *.
  destruct IH as (Hc2 & Hfr2 & Hp2 & [R1 R2] & Hlow). pose proof (fr_fresh _ _ _ _ Hfr2) as Hle. simpl in Hle. split_and!; [done| |congruence| |].
  - by eapply cframe_trans; [apply Hfr|].
  - split; simpl.
    + intros st [-> |Hst]%elem_of_cons; [|by apply R1]. split; [done|]. exists (c_fresh c). simpl. split_and!; [done|lia|lia|].
      unfold pending_completion. rewrite Hp2, Hp1. intros (st & Hst & En). destruct (ci_comps c Hc) as [P1 _].
      destruct (P1 st Hst) as (_ & n & En' & ?). simplify_eq. lia.
    + apply NoDup_cons. split; [|done]. intros (st & En & Hst)%list_elem_of_fmap. specialize (Hlow st (c_fresh c) Hst (eq_sym En)). lia.
  - intros st n [-> |Hst]%elem_of_cons En; [simpl in En; simplify_eq; lia|]. specialize (Hlow st n Hst En). lia.
Qed.

Lemma not_owned k c : currentNodeOwnedLocked k c = false →
  (k ∉ c_explicitQueued c) ∧ c_explicitReservations c !! k = None ∧ (k ∉ c_queued c) ∧ c_automaticReservations c !! k = None.
Proof.
  unfold currentNodeOwnedLocked. intros E. bool_simp. rewrite <- !eq_None_not_Some in *. tauto.
Qed.
Lemma pending_snoc_nodup (l1 l2 : list currentNodeQueuedStart) st n : NoDup (qs_completion <$> l1 ++ l2) → qs_completion st = Some n →
  (∀ st', st' ∈ l1 ++ l2 → qs_completion st' ≠ Some n) → NoDup (qs_completion <$> (l1 ++ [st]) ++ l2).
Proof.
  intros Hnd En Hno. rewrite <- app_assoc. simpl. eapply (NoDup_Permutation_proper _ (qs_completion <$> st :: l1 ++ l2)).
  { apply fmap_Permutation. symmetry. apply Permutation_middle. }
  simpl. apply NoDup_cons. split; [|done]. intros (st' & E' & Hst')%list_elem_of_fmap. apply (Hno st' Hst'). congruence.
Qed.
(** The start at the end of either queue. *)
Lemma comps_add b c c' l1 l2 st : comps_ok c → ready b c st → pending c = l1 ++ l2 → pending c' = (l1 ++ [st]) ++ l2 → c_fresh c' = c_fresh c → comps_ok c'.
Proof.
  intros [P1 P2] (Hl & n & En & _ & Hn & Hno) E E' Ef. unfold pending_completion in Hno. rewrite E in P1, P2, Hno. split; rewrite E'.
  - rewrite Ef. intros x Hx. assert (x = st ∨ x ∈ l1 ++ l2) as [-> |Hx'] by (rewrite !elem_of_app, list_elem_of_singleton in *; tauto); [|by apply P1].
    split; [done|eauto].
  - eapply pending_snoc_nodup; [done..|]. intros st' Hst' Est'. apply Hno. eauto.
Qed.
Lemma pending_added c c' l1 l2 st n : pending c = l1 ++ l2 → pending c' = (l1 ++ [st]) ++ l2 → pending_completion c' n →
  pending_completion c n ∨ qs_completion st = Some n.
Proof.
  intros E E' (x & Hx & En). unfold pending_completion. rewrite E. rewrite E', !elem_of_app, list_elem_of_singleton in Hx.
  destruct Hx as [[Hx| ->]|Hx]; [left; exists x|by right|left; exists x]; (split; [apply elem_of_app; tauto|done]).
Qed.

(** One start queued: the invariant, and what becomes pending. *)
Record queued_one b c st c' : Prop := {
  qd_inv : cinv c'; qd_frame : frame b no_task c c';
  qd_pending : ∀ n, pending_completion c' n → pending_completion c n ∨ qs_completion st = Some n }.
Lemma queued_refl b c st : cinv c → queued_one b c st c.
Proof. split; [done|apply cframe_refl|auto]. Qed.
Lemma frame_added b c c' l1 l2 st : ready b c st → pending c = l1 ++ l2 → pending c' = (l1 ++ [st]) ++ l2 → c_leases c' = c_leases c →
  c_admissionWorkers c' = c_admissionWorkers c → c_fresh c' = c_fresh c → c_interrupts c' = c_interrupts c → c_fences c' = c_fences c →
  c_explicitReservations c' = c_explicitReservations c → c_automaticReservations c' = c_automaticReservations c → frame b no_task c c'.
Proof.
  intros (_ & n & En & Hb & _) E E' H1 H2 H3 H4 H5 H6 H7. split; [done..|by apply reserved_same|by rewrite H3| |].
  - intros m [Hm|Hm]%(pending_added c c' l1 l2 st m E E'); [by left|right]. congruence.
  - unfold taskActive, fence_of_task. rewrite H4, H5. auto.
Qed.
Lemma ready_completed b c st : ready b c st → ensure_completion st c = (st, c).
Proof. intros (_ & n & En & _). unfold ensure_completion. by rewrite En. Qed.

Lemma push_explicit b c st k : cinv c → ready b c st → start_key st = Some k → qs_policy st = currentNodeAdmissionExplicitOverride →
  k ∉ c_explicitQueued c → c_explicitReservations c !! k = None → k ∉ c_queued c → c_automaticReservations c !! k = None →
  queued_one b c st (set_explicitQueued ({[k]} ∪ c_explicitQueued c) (set_explicitQueue (c_explicitQueue c ++ [st]) c)).
Proof.
  intros [[Q1 Q2 Q3 Q4] [A1 A2 A3] Hr Hp Hk Hf] Hrd Ek Hpol O1 O2 O3 O4.
  assert (∀ c', pending c' = (c_explicitQueue c ++ [st]) ++ q_items (c_automaticQueue c) → c_fresh c' = c_fresh c → comps_ok c') as Hcomp.
  { intros c'. by apply (comps_add b c c' (c_explicitQueue c) (q_items (c_automaticQueue c)) st). }
  split.
  - split; [| |kept|by apply Hcomp|kept|kept].
    + split; simpl; [done|by apply mirror_snoc|done|]. intros x [Hx|Hx%list_elem_of_singleton]%elem_of_app; [by apply Q4|by subst].
    + split; simpl; intros x; [|apply A2|apply A3]. intros [->%elem_of_singleton|Hx]%elem_of_union; [done|by apply A1].
  - by eapply (frame_added b c _ (c_explicitQueue c) (q_items (c_automaticQueue c)) st).
  - intros n. by eapply (pending_added c _ (c_explicitQueue c) (q_items (c_automaticQueue c)) st n).
Qed.
Lemma queueExplicit_ok b c st : cinv c → ready b c st → queued_one b c st (queueExplicitStartLocked st c).2.
Proof.
  intros Hc Hrd. unfold queueExplicitStartLocked. destruct (qs_policy st <>? _) eqn:Ep; [by apply queued_refl|]. bool_simp.
  rewrite (ready_completed b c st Hrd). destruct (CurrentNodeReference_Key _) as [k|e] eqn:Ek; [|by apply queued_refl]. apply start_key_Ok in Ek.
  destruct (currentNodeOwnedLocked k c) eqn:Eo; [by apply queued_refl|]. apply not_owned in Eo as (O1 & O2 & O3 & O4).
  destruct (push_explicit b c st k) as [Hi Hf Hp]; [done..|]. split; simpl; [|by destruct Hf; constructor|done]. destruct Hi. split; kept.
Qed.
Lemma queueAutomatic_ok b c st : cinv c → ready b c st →
  match queueAutomaticStartLocked st c with
  | Ok (_, c') => queued_one b c st c'
  | Err p => p = QueueOverflow ∧ q_order (c_automaticQueue c) = max_uint64
  end.
Proof.
  intros Hc Hrd. unfold queueAutomaticStartLocked. destruct (isAutomatic (qs_policy st)) eqn:Ep; [|by apply queued_refl]. simpl.
  rewrite (ready_completed b c st Hrd). destruct (CurrentNodeReference_Key _) as [k|e] eqn:Ek; [|by apply queued_refl]. apply start_key_Ok in Ek.
  destruct (currentNodeOwnedLocked k c) eqn:Eo; [by apply queued_refl|]. apply not_owned in Eo as (O1 & O2 & O3 & O4).
  destruct Hc as [[Q1 Q2 Q3 Q4] [A1 A2 A3] Hr Hp Hk Hf]. pose proof (q_append_law st (c_automaticQueue c) Q1 Ep) as Hq.
  destruct (q_append st (c_automaticQueue c)) as [q|]; [|done]. destruct Hq as (Hq & Hi & _).
  assert (pending c = pending c ++ []) as E0 by by rewrite app_nil_r.
  set (c' := wakeAdmissionWorker _). assert (pending c' = (pending c ++ [st]) ++ []) as E1.
  { unfold pending. simpl. by rewrite Hi, app_nil_r, app_assoc. }
  split.
  - split; [| |kept|by eapply (comps_add b c c')|kept|kept].
    + split; simpl; [done|done|rewrite Hi; by apply mirror_snoc|done].
    + split; simpl; intros x; [|intros [->%elem_of_singleton|Hx]%elem_of_union; [done|by apply A2]|apply A3].
      intros Hx. destruct (A1 x Hx) as (? & ? & ?). split_and!; [|done..]. intros [->%elem_of_singleton|?]%elem_of_union; done.
  - by eapply (frame_added b c c' (pending c) [] st).
  - intros n. by eapply (pending_added c c' (pending c) [] st n).
Qed.
Lemma ready_after b c st l c' : ready_all b c (st :: l) → queued_one b c st c' → ready_all b c' l.
Proof.
  intros [R1 [N1 N2]%NoDup_cons] [_ Hf Hp]. split; [|done]. intros x Hx. apply (ready_mono b c); [apply R1; by right|apply Hf|].
  intros n En [Hn|Hn]%Hp; [done|]. exfalso. apply N1, list_elem_of_fmap. exists x. split; [congruence|done].
Qed.
Lemma cinv_wake c v : cinv c → cinv (set_workerWake v c).
Proof. intros []. split; kept. Qed.
Lemma cinv_workerErr c v : cinv c → cinv (set_workerErr v c).
Proof. intros []. split; kept. Qed.
Lemma frame_wake b T c c' v : frame b T c c' → frame b T c (set_workerWake v c').
Proof. by intros []. Qed.
Lemma frame_workerErr b T c c' v : frame b T c c' → frame b T c (set_workerErr v c').
Proof. by intros []. Qed.

Lemma queueApprovedStarts_ok b l : ∀ c, cinv c → ready_all b c l → cinv (queueApprovedStarts l c).2 ∧ frame b no_task c (queueApprovedStarts l c).2.
Proof.
  induction l as [|st l IH]; intros c Hc Hl; [split; [done|apply cframe_refl]|]. simpl.
  pose proof (queueExplicit_ok b c st Hc (ra_ready _ _ _ Hl st (list_elem_of_here _ _))) as Hq.
  destruct (queueExplicitStartLocked st c) as [[e|] c'] eqn:E; simpl in *; [split; [apply Hq|apply Hq]|].
  destruct (IH c' (qd_inv _ _ _ _ Hq) (ready_after b c st l c' Hl Hq)) as [? ?]. split; [done|]. eapply cframe_trans; [apply Hq|done].
Qed.
Lemma queuePreparedStarts_ok b l c : cinv c → ready_all b c l → cinv (queuePreparedStarts l c).2 ∧ frame b no_task c (queuePreparedStarts l c).2.
Proof.
  intros Hc Hl. unfold queuePreparedStarts. destruct (queueApprovedStarts_ok b l c Hc Hl) as [Hi Hf].
  destruct (queueApprovedStarts l c) as [[e|] c']; simpl in *; [done|]. split; [by apply cinv_wake|by apply frame_wake].
Qed.
Lemma enqueueStarts_loop_ok b l : ∀ c, cinv c → ready_all b c l →
  match enqueueStarts_loop l c with Ok c' => cinv c' ∧ frame b no_task c c' | Err p => p = QueueOverflow end.
Proof.
  induction l as [|st l IH]; intros c Hc Hl; [split; [done|apply cframe_refl]|]. simpl.
  assert (match (if isAutomatic (qs_policy st) then queueAutomaticStartLocked st c else Ok (queueExplicitStartLocked st c)) with
          | Ok r => queued_one b c st r.2 | Err p => p = QueueOverflow end) as Hq.
  { pose proof (ra_ready _ _ _ Hl st (list_elem_of_here _ _)) as Hst. destruct (isAutomatic (qs_policy st)); [|by apply queueExplicit_ok].
    pose proof (queueAutomatic_ok b c st Hc Hst) as Hq. destruct (queueAutomaticStartLocked st c) as [[e c']|p]; [done|apply Hq]. }
  destruct (if isAutomatic (qs_policy st) then _ else _) as [[e c']|p]; simpl in *; [|done].
  assert (queued_one b c st (match e with Some e => set_workerErr (c_workerErr c' ++ [e]) c' | None => c' end)) as Hq'.
  { destruct e; [|done]. destruct Hq as [? Hf Hp]. split; [by apply cinv_workerErr|by apply frame_workerErr|done]. }
  specialize (IH _ (qd_inv _ _ _ _ Hq') (ready_after b c st l _ Hl Hq')). destruct (enqueueStarts_loop l _) as [c2|p]; [|done].
  destruct IH as [? ?]. split; [done|]. eapply cframe_trans; [apply Hq'|done].
Qed.
Lemma enqueueStarts_ok b l c : cinv c → ready_all b c l →
  match enqueueStarts l c with Ok c' => cinv c' ∧ frame b no_task c c' | Err p => p = QueueOverflow end.
Proof.
  intros Hc Hl. unfold enqueueStarts. repeat case_if_goal; [split; [done|apply cframe_refl]..|].
  pose proof (enqueueStarts_loop_ok b l c Hc Hl) as Hq. destruct (enqueueStarts_loop l c) as [c'|p]; simpl; [destruct Hq|done].
  split; [by apply cinv_wake|by apply frame_wake].
Qed.
(** The starts of a completion. *)
Lemma ready_automatic b c l : ready_all b c l → ready_all b c (automatic_start <$> l).
Proof.
  intros [R1 R2]. split; [|by rewrite <- list_fmap_compose]. intros st (x & -> & Hx)%list_elem_of_fmap. by destruct (R1 x Hx).
Qed.

(** ** Promotion *)
Lemma start_key_policy p st : start_key (with_policy p st) = start_key st.
Proof. done. Qed.
Lemma frame_permute b c c' : qs_completion <$> pending c' ≡ₚ qs_completion <$> pending c → c_leases c' = c_leases c →
  c_admissionWorkers c' = c_admissionWorkers c → c_fresh c' = c_fresh c → c_interrupts c' = c_interrupts c → c_fences c' = c_fences c →
  c_explicitReservations c' = c_explicitReservations c → c_automaticReservations c' = c_automaticReservations c → frame b no_task c c'.
Proof.
  intros Hp H1 H2 H3 H4 H5 H6 H7. split; [done..|by apply reserved_same|by rewrite H3| |].
  - intros n (st & Hst & En). left. assert (Some n ∈ qs_completion <$> pending c) as (st' & En' & Hst')%list_elem_of_fmap; [|by exists st'].
    rewrite <- Hp. apply list_elem_of_fmap. by exists st.
  - unfold taskActive, fence_of_task. rewrite H4, H5. auto.
Qed.
Lemma comps_permute c c' : comps_ok c → qs_completion <$> pending c' ≡ₚ qs_completion <$> pending c → (∀ st, st ∈ pending c' → qs_agentCapacityLease st = None) →
  c_fresh c' = c_fresh c → comps_ok c'.
Proof.
  intros [P1 P2] Hp Hl Hf. split; [|by rewrite Hp]. intros st Hst. split; [by apply Hl|]. rewrite Hf.
  assert (qs_completion st ∈ qs_completion <$> pending c) as (st' & En' & Hst')%list_elem_of_fmap by (rewrite <- Hp; apply list_elem_of_fmap; eauto).
  destruct (P1 st' Hst') as (_ & n & En & ?). exists n. split; [congruence|done].
Qed.
(** A queue from which one start was taken out, which goes to the explicit
    queue. *)
Lemma promote_one c q l1 st l2 k : cinv c → q_ok q → q_items (c_automaticQueue c) = l1 ++ st :: l2 → q_items q = l1 ++ l2 → start_key st = Some k →
  cinv (promote_start k st (set_automaticQueue q c)) ∧ ∀ b, frame b no_task c (promote_start k st (set_automaticQueue q c)).
Proof.
  intros [[Q1 Q2 Q3 Q4] [A1 A2 A3] Hr Hp Hk Hf] Hq E1 E2 Ek. rewrite E1 in Q3. destruct (mirror_remove _ _ _ _ _ Q3 Ek) as [Hin Hm].
  assert (qs_completion <$> pending (promote_start k st (set_automaticQueue q c)) ≡ₚ qs_completion <$> pending c) as Hperm.
  { unfold pending. simpl. rewrite E1, E2, <- app_assoc, !fmap_app. apply Permutation_app_head. simpl. apply Permutation_middle. }
  destruct (A2 k Hin) as [Hn1 Hn2]. assert (k ∉ c_explicitQueued c) as Hn3 by (intros ?%A1; tauto). split.
  - split; [| |kept| |kept|kept].
    + split; simpl; [done|apply mirror_snoc; [done|by rewrite start_key_policy|done]|by rewrite E2|].
      intros x [Hx|Hx%list_elem_of_singleton]%elem_of_app; [by apply Q4|by subst].
    + split; simpl; intros x; [|intros [? _]%elem_of_difference; by apply A2|apply A3].
      rewrite elem_of_difference, elem_of_singleton. intros [->%elem_of_singleton|Hx]%elem_of_union; [tauto|]. destruct (A1 x Hx) as (? & ? & ?). tauto.
    + eapply comps_permute; [done..| |done]. unfold pending. simpl. intros x Hx. rewrite E2, !elem_of_app, list_elem_of_singleton in Hx.
      assert (x = with_policy currentNodeAdmissionExplicitOverride st ∨ x ∈ pending c) as [-> |Hx'].
      { unfold pending. rewrite E1, !elem_of_app, elem_of_cons. tauto. }
      * apply (co_pending c Hp st). unfold pending. rewrite E1, !elem_of_app, elem_of_cons. tauto.
      * by apply (co_pending c Hp).
  - intros b. by apply frame_permute.
Qed.

Lemma mirror_app l1 l2 K1 K2 K : mirror l1 K1 → mirror l2 K2 → (∀ k, k ∈ K1 → k ∈ K2 → False) → (∀ k, k ∈ K ↔ k ∈ K1 ∨ k ∈ K2) → mirror (l1 ++ l2) K.
Proof.
  intros [A1 A2 A3] [B1 B2 B3] Hd HK. split.
  - intros s [?|?]%elem_of_app; auto.
  - rewrite keys_app. apply NoDup_app. split_and!; [done| |done]. intros k Hk1 Hk2. eapply Hd; [by apply A3|by apply B3].
  - intros k. by rewrite HK, keys_app, elem_of_app, A3, B3.
Qed.
Lemma mirror_of_task t l K K' : mirror l K → (∀ k, k ∈ K' ↔ k ∈ K ∧ key_task k = t) → mirror (of_task t l) K'.
Proof.
  intros [H1 H2 H3] HK. split.
  - intros s [_ Hs]%list_elem_of_filter. by apply H1.
  - by apply keys_filter_nodup.
  - intros k. rewrite HK, H3, !elem_of_keys. unfold of_task. split.
    + intros [(s & Hs & Hk) Ht]. exists s. split; [|done]. apply list_elem_of_filter. by rewrite <- (start_key_task s k Hk).
    + intros (s & [Ht Hs]%list_elem_of_filter & Hk). split; [eauto|]. by rewrite (start_key_task s k Hk).
Qed.
Lemma mirror_policy p l K : mirror l K → mirror (with_policy p <$> l) K.
Proof.
  intros [H1 H2 H3]. assert (keys (with_policy p <$> l) = keys l) as E.
  { clear. induction l as [|s l IH]; [done|]. rewrite fmap_cons, !keys_match, IH. done. }
  split; rewrite ?E; [|done|done]. intros s (x & -> & Hx)%list_elem_of_fmap. apply (H1 x Hx).
Qed.
(** The whole loop at once. *)
Lemma promote_loop_eq l : ∀ c, (∀ s, s ∈ l → keyed s) → ∃ K1 K2,
  promote_loop l c = (Ok (qs_reference <$> l),
    set_explicitQueued K1 (set_explicitQueue (c_explicitQueue c ++ (with_policy currentNodeAdmissionExplicitOverride <$> l)) (set_queued K2 c))) ∧
  (∀ k, k ∈ K1 ↔ k ∈ c_explicitQueued c ∨ k ∈ keys l) ∧ (∀ k, k ∈ K2 ↔ (k ∈ c_queued c ∧ k ∉ keys l)).
Proof.
  induction l as [|s l IH]; intros c Hk.
  { exists (c_explicitQueued c), (c_queued c). split_and!; [by destruct c; simpl; rewrite app_nil_r|intros k; rewrite elem_of_nil; tauto..]. }
  destruct (proj1 (keyed_start s) (Hk s (list_elem_of_here _ _))) as [k Ek]. rewrite (keys_cons s k l Ek). simpl. rewrite (proj1 (start_key_Ok s k) Ek).
  destruct (IH (promote_start k s c)) as (K1 & K2 & E & H1 & H2); [intros x Hx; apply Hk; by right|]. exists K1, K2. rewrite E. split_and!.
  - simpl. by rewrite <- app_assoc.
  - intros y. rewrite H1, elem_of_cons. simpl. rewrite elem_of_union, elem_of_singleton. tauto.
  - intros y. rewrite H2, elem_of_cons. simpl. rewrite elem_of_difference, elem_of_singleton. tauto.
Qed.
Lemma split_task_perm t l : of_task t l ++ others t l ≡ₚ l.
Proof.
  unfold of_task, others. induction l as [|s l IH]; [done|]. rewrite !filter_cons. destruct (decide (qs_task s = t)) as [Et|Et].
  - rewrite (decide_False (P := qs_task s ≠ t)) by tauto. simpl. by rewrite IH.
  - rewrite (decide_True (P := qs_task s ≠ t)) by done. by rewrite <- Permutation_middle, IH.
Qed.
Lemma promote_section_ok t c : cinv c → ∃ r c', promote_section t c = Ok (r, c') ∧ cinv c' ∧ ∀ b, frame b no_task c c'.
Proof.
  intros Hc. pose proof Hc as [[Q1 Q2 Q3 Q4] [A1 A2 A3] Hr Hp Hk Hf]. unfold promote_section.
  destruct (c_closed c); [eexists _, c; split_and!; [done|done|intros; apply cframe_refl]|].
  destruct (q_remove_task_law t (c_automaticQueue c) Q1) as (q & -> & Hq & Hi & _).
  destruct (promote_loop_eq (of_task t (q_items (c_automaticQueue c))) (set_automaticQueue q c)) as (K1 & K2 & -> & H1 & H2).
  { intros s [_ Hs]%list_elem_of_filter. by apply (mi_keyed _ _ Q3). }
  assert (∀ k, k ∈ keys (of_task t (q_items (c_automaticQueue c))) ↔ k ∈ c_queued c ∧ key_task k = t) as Hkt.
  { intros k. rewrite <- (mi_set _ _ (mirror_of_task t _ _ (filter (λ k, key_task k = t) (c_queued c)) Q3 ltac:(intros; rewrite elem_of_filter; tauto))).
    rewrite elem_of_filter. tauto. }
  simpl in H1, H2. setoid_rewrite Hkt in H1. setoid_rewrite Hkt in H2.
  eexists _, _. split; [done|]. set (c' := set_explicitQueued _ _).
  assert (qs_completion <$> pending c' ≡ₚ qs_completion <$> pending c) as Hperm.
  { unfold pending. simpl. rewrite Hi, <- app_assoc, !fmap_app. apply Permutation_app_head. rewrite <- list_fmap_compose.
    change (qs_completion ∘ with_policy currentNodeAdmissionExplicitOverride) with qs_completion. rewrite <- fmap_app. by rewrite split_task_perm. }
  split; [|intros b; by apply frame_permute]. split; [| |kept| |kept|kept].
  - split; simpl; [done| |rewrite Hi|].
    + apply (mirror_app _ _ (c_explicitQueued c) (filter (λ k, key_task k = t) (c_queued c))); [done| | |].
      * apply mirror_policy, (mirror_of_task t _ _ _ Q3). intros k. rewrite elem_of_filter. tauto.
      * intros k [? _]%A1 [_ ?]%elem_of_filter. done.
      * intros k. rewrite H1, elem_of_filter. tauto.
    + apply (mirror_others t _ _ _ Q3). intros k. rewrite H2. tauto.
    + intros x [Hx|(y & -> & _)%list_elem_of_fmap]%elem_of_app; [by apply Q4|done].
  - split; simpl; intros x; [rewrite H1, H2|rewrite H2; intros [? _]; by apply A2|apply A3].
    intros [Hx|[Hx Ht]]; [destruct (A1 x Hx) as (? & ? & ?); tauto|]. destruct (A2 x Hx). tauto.
  - eapply comps_permute; [done..| |done]. unfold pending. simpl. rewrite Hi. intros x.
    assert (∀ y, y ∈ q_items (c_automaticQueue c) → qs_agentCapacityLease y = None) as Hl.
    { intros y Hy. apply (co_pending c Hp). apply elem_of_app. by right. }
    intros [[Hx|(y & -> & [_ Hy]%list_elem_of_filter)%list_elem_of_fmap]%elem_of_app|[_ Hx]%list_elem_of_filter]%elem_of_app; [|by apply (Hl y)|by apply Hl].
    apply (co_pending c Hp). apply elem_of_app. by left.
Qed.

(** ** Observation of one node *)
Lemma find_key_ok k l : (∀ s, s ∈ l → keyed s) → ∃ r, find_key k l = Ok r ∧ match r with Some s => s ∈ l ∧ start_key s = Some k | None => k ∉ keys l end.
Proof.
  induction l as [|s l IH]; intros Hk; [exists None; split; [done|by intros ?%elem_of_nil]|].
  destruct (proj1 (keyed_start s) (Hk s (list_elem_of_here _ _))) as [k' Ek]. rewrite (keys_cons s k' l Ek). simpl.
  rewrite (proj1 (start_key_Ok s k') Ek). destruct (k' ==? k) eqn:E; bool_simp.
  - subst. exists (Some s). split; [done|]. split; [by left|done].
  - destruct IH as (r & -> & Hr); [intros x Hx; apply Hk; by right|]. exists r. split; [done|]. destruct r as [x|].
    + destruct Hr. split; [by right|done].
    + rewrite elem_of_cons. intros [?|?]; congruence.
Qed.
Lemma currentNodeAdmission_ok k c : cinv c → ∃ r c', currentNodeAdmissionLocked k c = Ok (r, c') ∧ cinv c' ∧ ∀ b, frame b no_task c c'.
Proof.
  intros Hc. pose proof (ci_queues c Hc) as [Q1 Q2 Q3 Q4]. unfold currentNodeAdmissionLocked.
  destruct (find_key_ok k (c_explicitQueue c) (mi_keyed _ _ Q2)) as (r & -> & Hr). simpl.
  assert (∀ x : option N, ∃ r' c', Ok (E := controller_panic) (x, c) = Ok (r', c') ∧ cinv c' ∧ ∀ b, frame b no_task c c') as Hsame.
  { intros x. exists x, c. split_and!; [done..|]. intros b. apply cframe_refl. }
  destruct r as [s|]; [apply Hsame|]. pose proof (q_remove_key_law k (c_automaticQueue c) Q1 (mi_keyed _ _ Q3)) as Hq.
  destruct (q_remove_key k (c_automaticQueue c)) as [[[s q]|]|]; simpl in Hq; [|by repeat case_match|done].
  destruct Hq as (Ht & Hq & _). apply take_first_sub in Ht as (l1 & l2 & E1 & E2 & Hk%has_key_start).
  destruct (promote_one c q l1 s l2 k Hc Hq E1 E2 Hk) as [Hi Hf]. eexists _, _. split_and!; [done|by apply cinv_wake|].
  intros b. by apply frame_wake.
Qed.

(** ** Taking starts *)
Record taken c st c' : Prop := {
  tk_key : ∃ k, start_key st = Some k ∧ c_admissionWorkers c' = <[k := st]> (c_admissionWorkers c);
  tk_completion : ∃ n, qs_completion st = Some n ∧ pending_completion c n ∧ ¬ pending_completion c' n;
  tk_pending : ∀ n, pending_completion c' n → pending_completion c n;
  tk_fresh : (c_fresh c ≤ c_fresh c')%N;
  tk_lease : (qs_agentCapacityLease st = None ∧ c_leases c' = c_leases c) ∨
    (qs_agentCapacityLease st = Some (c_fresh c) ∧ c_leases c' = <[c_fresh c := currentNodeAgentCapacityReservation]> (c_leases c) ∧
     isAutomatic (qs_policy st) = true ∧ (c_fresh c < c_fresh c')%N);
  tk_reserved : ∀ k x, reserved c' k x → reserved c k x ∨ x = st;
  tk_interrupts : c_interrupts c' = c_interrupts c;
  tk_fences : c_fences c' = c_fences c }.
Lemma pending_removed l1 st l2 n : NoDup (qs_completion <$> l1 ++ st :: l2) → qs_completion st = Some n → (∀ x, x ∈ l1 ++ l2 → qs_completion x ≠ Some n) ∧
  NoDup (qs_completion <$> l1 ++ l2).
Proof.
  intros Hnd En. assert (NoDup (qs_completion <$> st :: (l1 ++ l2))) as [Hno Hnd']%NoDup_cons.
  { eapply NoDup_Permutation_proper; [|exact Hnd]. apply fmap_Permutation, Permutation_middle. }
  split; [|done]. intros x Hx Ex. apply Hno, list_elem_of_fmap. exists x. split; [congruence|done].
Qed.
Lemma comps_remove c c' l1 st l2 : comps_ok c → pending c = l1 ++ st :: l2 → pending c' = l1 ++ l2 → (c_fresh c ≤ c_fresh c')%N → comps_ok c'.
Proof.
  intros [P1 P2] E E' Hf. rewrite E in P1, P2. destruct (P1 st) as (_ & n & En & _); [apply elem_of_app; right; by left|].
  destruct (pending_removed l1 st l2 n P2 En) as [Hno Hnd]. split; rewrite E'; [|done]. intros x Hx.
  destruct (P1 x) as (? & m & ? & ?); [rewrite elem_of_app in *; rewrite elem_of_cons; tauto|]. split; [done|]. exists m. split; [done|lia].
Qed.
Lemma pending_taken c c' l1 st l2 : comps_ok c → pending c = l1 ++ st :: l2 → pending c' = l1 ++ l2 →
  (∃ n, qs_completion st = Some n ∧ pending_completion c n ∧ ¬ pending_completion c' n) ∧ ∀ n, pending_completion c' n → pending_completion c n.
Proof.
  intros [P1 P2] E E'. unfold pending_completion. rewrite E, E' in *. assert (st ∈ l1 ++ st :: l2) as Hin by (apply elem_of_app; right; by left).
  destruct (P1 st Hin) as (_ & n & En & _). destruct (pending_removed l1 st l2 n P2 En) as [Hno _]. split.
  - exists n. split_and!; [done|eauto|]. intros (x & Hx & Ex). by apply (Hno x Hx).
  - intros m (x & Hx & Ex). exists x. split; [|done]. rewrite elem_of_app in *. rewrite elem_of_cons. tauto.
Qed.
Lemma completed c st : comps_ok c → st ∈ pending c → ∀ c', ensure_completion st c' = (st, c').
Proof. intros Hc Hst c'. destruct (co_pending c Hc st Hst) as (_ & n & En & _). unfold ensure_completion. by rewrite En. Qed.

Lemma takeExplicitStart_ok c : cinv c →
  match takeExplicitStart c with
  | Err _ => False
  | Ok (None, c') => c' = c
  | Ok (Some st, c') => cinv c' ∧ taken c st c'
  end.
Proof.
  intros [[Q1 Q2 Q3 Q4] [A1 A2 A3] [R1 R2 R3] Hp Hk Hf]. unfold takeExplicitStart. case_if_goal; [done|]. destruct (c_explicitQueue c) as [|st rest] eqn:Eq; [done|].
  destruct (proj1 (keyed_start st) (mi_keyed _ _ Q2 st (list_elem_of_here _ _))) as [k Ek]. rewrite (proj1 (start_key_Ok st k) Ek).
  destruct (mirror_remove [] st rest _ k Q2 Ek) as [Hin Hm]. destruct (A1 k Hin) as (N1 & N2 & N3).
  assert (pending c = [] ++ st :: (rest ++ q_items (c_automaticQueue c))) as Ep by (unfold pending; by rewrite Eq).
  rewrite (completed c st Hp) by (rewrite Ep; by left). set (c' := set_admissionWorkers _ _).
  assert (pending c' = [] ++ (rest ++ q_items (c_automaticQueue c))) as Ep' by done. split.
  - split; [split| split|split|by eapply comps_remove|kept|kept]; simpl.
    + done.
    + done.
    + done.
    + intros x Hx. apply Q4. by right.
    + intros x [Hx Hne]%elem_of_difference. rewrite elem_of_singleton in Hne. destruct (A1 x Hx) as (? & ? & ?).
      split_and!; [done|by rewrite lookup_insert_ne|done].
    + intros x Hx. rewrite lookup_insert_ne by congruence. by apply A2.
    + intros x [y Hy]. destruct (decide (x = k)) as [-> |Hne]; [done|]. rewrite lookup_insert_ne in Hy by done. apply A3. eauto.
    + intros x y Hy. destruct (decide (x = k)) as [-> |Hne].
      * rewrite lookup_insert_eq in *. simplify_eq. split; [apply Q4; by left|done].
      * rewrite lookup_insert_ne in * by done. by apply R1.
    + intros x y Hy. assert (x ≠ k) by congruence. rewrite lookup_insert_ne by done. by apply R2.
    + intros x y Hy. destruct (decide (x = k)) as [-> |Hne]; [rewrite lookup_insert_eq in Hy; by simplify_eq|]. rewrite lookup_insert_ne in Hy by done. by apply R3.
  - destruct (pending_taken c c' [] st (rest ++ q_items (c_automaticQueue c)) Hp Ep Ep') as [Ht1 Ht2].
    split; [by exists k|done|done|done| | |done|done].
    + left. split; [|done]. apply (co_pending c Hp). rewrite Ep. by left.
    + intros x y. unfold reserved. simpl. rewrite lookup_insert_Some. intuition auto.
Qed.

(** The agent capacity a taken start gets. *)
Definition give_lease st c : currentNodeQueuedStart * CurrentNodeController (Q := Q) :=
  if countsAgentCapacity (qs_policy st) then
    (with_lease (Some (c_fresh c)) st,
     set_agentCapacityActive (c_agentCapacityActive c + 1)%Z
       (set_fresh (c_fresh c + 1)%N (set_leases (<[c_fresh c := currentNodeAgentCapacityReservation]> (c_leases c)) c)))
  else (st, c).
Lemma give_lease_ok st c : capacity_ok c → (countsAgentCapacity (qs_policy st) = true → (c_agentCapacityActive c < c_agentConcurrency c)%Z) →
  qs_agentCapacityLease st = None → let r := give_lease st c in
  capacity_ok r.2 ∧ qs_policy r.1 = qs_policy st ∧ qs_completion r.1 = qs_completion st ∧ qs_reference r.1 = qs_reference st ∧
  (∃ a f l, r.2 = set_agentCapacityActive a (set_fresh f (set_leases l c)) ∧ (c_fresh c ≤ f)%N) ∧
  ((qs_agentCapacityLease r.1 = None ∧ c_leases r.2 = c_leases c) ∨
   (qs_agentCapacityLease r.1 = Some (c_fresh c) ∧ c_leases r.2 = <[c_fresh c := currentNodeAgentCapacityReservation]> (c_leases c) ∧
    (c_fresh c < c_fresh r.2)%N)).
Proof.
  intros [K1 K2 Kc K3] Hroom Hl. unfold give_lease. destruct (countsAgentCapacity (qs_policy st)); simpl.
  - specialize (Hroom eq_refl). split_and!; [|done..| |right; split_and!; [done..|lia]].
    + split; simpl; [|lia|done|].
      * rewrite active_new; [by rewrite K1|]. apply eq_None_not_Some. intros Hs%K3. lia.
      * intros n [->|[Hn Hs]]%lookup_insert_is_Some; [lia|]. specialize (K3 n Hs). lia.
    + eexists _, _, _. split; [done|lia].
  - split_and!; [done..| |by left]. exists (c_agentCapacityActive c), (c_fresh c), (c_leases c). split; [by destruct c|done].
Qed.
Lemma takeAutomaticIntent_eq c : takeAutomaticIntent c =
  if c_closed c || (q_len (c_automaticQueue c) ==? 0%Z) then Ok (None, c)
  else match q_take (c_lastAutomaticTask c) (c_agentCapacityActive c <? c_agentConcurrency c)%Z (c_automaticQueue c) with
  | None => Err QueueIndex
  | Some None => Ok (None, c)
  | Some (Some (st, q)) =>
    match CurrentNodeReference_Key (qs_reference st) with
    | Err _ => Err KeyInvalid
    | Ok k =>
      let r := ensure_completion (with_delivery TaskPromptDeliveryResume st) (set_queued (c_queued c ∖ {[k]}) (set_automaticQueue q c)) in
      let r := give_lease r.1 r.2 in
      Ok (Some r.1, set_lastAutomaticTask (Some (qs_task r.1))
        (set_admissionWorkers (<[k := r.1]> (c_admissionWorkers r.2)) (set_automaticReservations (<[k := r.1]> (c_automaticReservations r.2)) r.2)))
    end
  end.
Proof.
  unfold takeAutomaticIntent, give_lease. destruct (_ || _); [done|]. destruct (q_take _ _ _) as [[[st q]|]|]; [|done..].
  destruct (CurrentNodeReference_Key _) as [k|]; [|done]. simpl. destruct (ensure_completion _ _) as [st' c']. simpl. by destruct (countsAgentCapacity _).
Qed.
(** The reservation and the worker of a taken automatic start. *)
Lemma reserve_automatic c c' st k q : queues_ok c → apart c → reserved_ok c → k ∈ c_queued c → start_key st = Some k → isAutomatic (qs_policy st) = true →
  q_ok q → mirror (q_items q) (c_queued c ∖ {[k]}) →
  c_automaticQueue c' = q → c_queued c' = c_queued c ∖ {[k]} → c_explicitQueue c' = c_explicitQueue c → c_explicitQueued c' = c_explicitQueued c →
  c_explicitReservations c' = c_explicitReservations c → c_automaticReservations c' = <[k := st]> (c_automaticReservations c) →
  c_admissionWorkers c' = <[k := st]> (c_admissionWorkers c) → queues_ok c' ∧ apart c' ∧ reserved_ok c'.
Proof.
  intros [Q1 Q2 Q3 Q4] [A1 A2 A3] [R1 R2 R3] Hin Ek Ha Hq Hm E1 E2 E3 E4 E5 E6 E7. destruct (A2 k Hin) as [N1 N2].
  assert (k ∉ c_explicitQueued c) as N3 by (intros [? _]%A1; done).
  split_and!; split; rewrite ?E1, ?E2, ?E3, ?E4, ?E5, ?E6, ?E7; try done.
  - intros x Hx. destruct (A1 x Hx) as (? & ? & ?). split_and!; [intros [? _]%elem_of_difference; done|done|]. rewrite lookup_insert_ne by congruence. done.
  - intros x [Hx Hne]%elem_of_difference. rewrite elem_of_singleton in Hne. rewrite lookup_insert_ne by congruence. by apply A2.
  - intros x Hx. assert (x ≠ k) by (intros ->; rewrite N1 in Hx; by destruct Hx). rewrite lookup_insert_ne by congruence. by apply A3.
  - intros x y Hy. assert (x ≠ k) by congruence. rewrite lookup_insert_ne by congruence. by apply R1.
  - intros x y Hy. destruct (decide (x = k)) as [-> |Hne]; [rewrite lookup_insert_eq in *; by simplify_eq|]. rewrite lookup_insert_ne in * by done. by apply R2.
  - intros x y Hy. destruct (decide (x = k)) as [-> |Hne]; [rewrite lookup_insert_eq in Hy; by simplify_eq|]. rewrite lookup_insert_ne in Hy by done. by apply R3.
Qed.
Lemma takeAutomaticIntent_ok c : cinv c →
  match takeAutomaticIntent c with
  | Err _ => False
  | Ok (None, c') => c' = c
  | Ok (Some st, c') => cinv c' ∧ taken c st c'
  end.
Proof.
  intros [Hq Ha Hr Hp Hk Hf]. rewrite takeAutomaticIntent_eq. destruct (_ || _); [done|]. pose proof Hq as [Q1 Q2 Q3 Q4].
  set (avail := (_ <? _)%Z). pose proof (q_take_law (c_lastAutomaticTask c) avail (c_automaticQueue c) Q1) as Ht.
  destruct (q_take _ avail _) as [[[st q]|]|]; simpl in Ht; [|done..]. destruct Ht as (Ht & Hqq & _).
  apply take_next_sub in Ht as (l1 & l2 & E1 & E2 & Hadm). assert (st ∈ q_items (c_automaticQueue c)) as Hst by (rewrite E1; apply elem_of_app; right; by left).
  destruct (proj1 (keyed_start st) (mi_keyed _ _ Q3 st Hst)) as [k Ek]. rewrite (proj1 (start_key_Ok st k) Ek).
  assert (mirror (l1 ++ st :: l2) (c_queued c)) as Q3' by by rewrite <- E1. destruct (mirror_remove _ _ _ _ _ Q3' Ek) as [Hin Hm].
  pose proof (co_pending c Hp st ltac:(apply elem_of_app; by right)) as (Hl & n & En & Hn).
  assert (∀ c', ensure_completion (with_delivery TaskPromptDeliveryResume st) c' = (with_delivery TaskPromptDeliveryResume st, c')) as ->.
  { intros c'. unfold ensure_completion. simpl. by rewrite En. }
  simpl. set (c1 := set_queued _ _). destruct (give_lease_ok (with_delivery TaskPromptDeliveryResume st) c1) as (HC & Hpol & Hcomp & Href & (a & f & ls & Ec & Hfr) & Hlease).
  { destruct Hk; by constructor. }
  { simpl. intros Hcnt. unfold admissible in Hadm. destruct avail eqn:Eav; [by apply Z.ltb_lt|]. simpl in Hadm. apply bool_decide_eq_true in Hadm.
    by rewrite Hadm in Hcnt. }
  { done. }
  destruct (give_lease _ c1) as [st2 c2]. simpl in *. assert (start_key st2 = Some k) as Ek2 by (unfold start_key; by rewrite Href).
  set (c' := set_lastAutomaticTask _ _). assert (c_fresh c' = f) as Ef by by subst c2.
  assert (pending c = (c_explicitQueue c ++ l1) ++ st :: l2) as Ep by (unfold pending; by rewrite E1, <- app_assoc).
  assert (pending c' = (c_explicitQueue c ++ l1) ++ l2) as Ep' by (subst c2; unfold pending; simpl; by rewrite E2, <- app_assoc).
  assert (isAutomatic (qs_policy st2) = true) as Hau by (rewrite Hpol; by apply (q_automatic_law (c_automaticQueue c))).
  rewrite <- E2 in Hm. destruct (reserve_automatic c c' st2 k q) as (Hq' & Ha' & Hr'); try first [done|by subst c2].
  split.
  - split; [done..| | |].
    + eapply comps_remove; [exact Hp|done|done|]. by rewrite Ef.
    + destruct HC as [C1 C2 Cc C3]. split; [done..|]. intros m Hm'. rewrite Ef. specialize (C3 m). subst c2. by apply C3.
    + destruct Hf as [F1 F2 F3]. subst c2. split; simpl; [done..|]. intros x Hx. simpl in *. specialize (F3 x Hx). lia.
  - destruct (pending_taken c c' _ st l2 Hp Ep Ep') as [(m & Hm1 & Hm2 & Hm3) Ht2]. split.
    + exists k. split; [done|]. by subst c2.
    + exists m. by rewrite Hcomp.
    + done.
    + by rewrite Ef.
    + subst c2. simpl in *. by destruct Hlease as [[? ?]|(? & ? & ?)]; [left|right].
    + subst c2. intros x y. unfold reserved. simpl. rewrite lookup_insert_Some. intuition auto.
    + by subst c2.
    + by subst c2.
Qed.

(** ** Capacity and reservations *)
(** Only the given lease changed, of what goroutines rely on. *)
Record leased (lease : option N) c c' : Prop := {
  le_other : ∀ m, lease ≠ Some m → c_leases c' !! m = c_leases c !! m;
  le_some : ∀ m, is_Some (c_leases c !! m) → is_Some (c_leases c' !! m);
  le_workers : c_admissionWorkers c' = c_admissionWorkers c;
  le_reserved : ∀ k st, reserved c' k st → reserved c k st;
  le_fresh : c_fresh c' = c_fresh c;
  le_pending : pending c' = pending c;
  le_interrupts : c_interrupts c' = c_interrupts c;
  le_fences : c_fences c' = c_fences c }.
Lemma leased_refl lease c : leased lease c c.
Proof. by split. Qed.
Lemma leased_trans lease c1 c2 c3 : leased lease c1 c2 → leased lease c2 c3 → leased lease c1 c3.
Proof. intros [A1 A2 A3 Ar A4 A5 A6 A7] [B1 B2 B3 Br B4 B5 B6 B7]. split; [|auto|congruence|auto|congruence..]. intros m Hm. by rewrite B1, A1. Qed.
Lemma cinv_lease c n o a : cinv c → (n < c_fresh c)%N → a = active (<[n := o]> (c_leases c)) → (a ≤ c_agentConcurrency c)%Z →
  cinv (set_agentCapacityActive a (set_leases (<[n := o]> (c_leases c)) c)) ∧
  leased (Some n) c (set_agentCapacityActive a (set_leases (<[n := o]> (c_leases c)) c)).
Proof.
  intros [Hq Ha Hr Hp [K1 K2 Kc K3] Hf] Hn Ea Hle. split.
  - split; [kept..| |kept]. split; simpl; [done..|]. intros m [->|[? ?]]%lookup_insert_is_Some; auto.
  - split; simpl; try done.
    + intros m Hm. by rewrite lookup_insert_ne by congruence.
    + intros m Hm. apply lookup_insert_is_Some'. by right.
Qed.
Lemma releaseAgentCapacity_ok lease c : cinv c → (∀ n, lease = Some n → is_Some (c_leases c !! n)) →
  ∃ c', releaseAgentCapacityLocked lease c = Ok c' ∧ cinv c' ∧ leased lease c c' ∧
    (∀ n, lease = Some n → c_leases c' !! n = Some currentNodeAgentCapacityReleased).
Proof.
  intros Hc Hl. unfold releaseAgentCapacityLocked. destruct lease as [n|]; [|exists c; split_and!; [done|done|apply leased_refl|done]].
  destruct (Hl n eq_refl) as [o Eo]. rewrite Eo. pose proof (ci_capacity c Hc) as [K1 K2 Kc K3].
  destruct (decide (o = currentNodeAgentCapacityReleased)) as [-> |Hne].
  { exists c. split_and!; [done|done|apply leased_refl|by intros ? [= <-]]. }
  destruct (active_release (c_leases c) n o Eo Hne) as [Ea Hpos]. rewrite (proj2 (Z.leb_gt _ _)) by lia.
  destruct (cinv_lease c n currentNodeAgentCapacityReleased (c_agentCapacityActive c - 1)%Z Hc) as [Hi Hle]; [apply K3; eauto|lia|lia|].
  eexists. split; [by destruct o|]. split_and!; [done..|]. intros m [= <-]. apply lookup_insert_eq.
Qed.
Lemma transition_ok lease c : cinv c → (∀ n, lease = Some n → c_leases c !! n = Some currentNodeAgentCapacityReservation) →
  ∃ c', transitionAgentCapacityLocked lease currentNodeAgentCapacityReservation currentNodeAgentCapacityLive c = Ok c' ∧ cinv c' ∧ leased lease c c'.
Proof.
  intros Hc Hl. unfold transitionAgentCapacityLocked. destruct lease as [n|]; [|exists c; split_and!; [done|done|apply leased_refl]].
  specialize (Hl n eq_refl). rewrite Hl, bool_decide_eq_true_2 by done. simpl. pose proof (ci_capacity c Hc) as [K1 K2 Kc K3].
  destruct (cinv_lease c n currentNodeAgentCapacityLive (c_agentCapacityActive c) Hc) as [Hi Hle]; [apply K3; eauto| |lia|].
  { by rewrite (active_change _ _ currentNodeAgentCapacityReservation). }
  eexists. split; [done|]. destruct Hi, Hle. split; [split; kept|by constructor].
Qed.
Lemma delete_reservation_ok k p c : cinv c → cinv (deleteAdmissionReservationLocked k p c) ∧ ∀ lease, leased lease c (deleteAdmissionReservationLocked k p c).
Proof.
  intros [[Q1 Q2 Q3 Q4] [A1 A2 A3] [R1 R2 R3] Hp Hk Hf]. unfold deleteAdmissionReservationLocked, reserved.
  destruct (isAutomatic p); (split; [|intros; split; try done; intros x y; unfold reserved; simpl; rewrite lookup_delete_Some; tauto]).
  - split; [by split| | |kept..]; split; simpl; [..|done| |done].
    + intros x Hx. destruct (A1 x Hx) as (? & ? & ?). split_and!; [done..|]. apply lookup_delete_None. by right.
    + intros x Hx. destruct (A2 x Hx) as (? & ?). split; [done|]. apply lookup_delete_None. by right.
    + intros x Hx. apply lookup_delete_None. right. by apply A3.
    + intros x y [_ Hy]%lookup_delete_Some. by apply R2.
  - split; [by split| | |kept..]; split; simpl; [.. |done|done].
    + intros x Hx. destruct (A1 x Hx) as (? & ? & ?). split_and!; [done| |done]. apply lookup_delete_None. by right.
    + intros x Hx. destruct (A2 x Hx) as (? & ?). split; [|done]. apply lookup_delete_None. by right.
    + intros x [y [_ Hy]%lookup_delete_Some]. apply A3. eauto.
    + intros x y [_ Hy]%lookup_delete_Some. by apply R1.
Qed.
(** The lease of a start that was not admitted is released with its reservation. *)
Lemma releaseReservation_ok k p lease c : cinv c → (∀ n, lease = Some n → is_Some (c_leases c !! n)) →
  ∃ wake c', releaseReservation k p lease c = Ok (wake, c') ∧ cinv c' ∧ leased lease c c' ∧
    (∀ n, lease = Some n → c_leases c' !! n ≠ Some currentNodeAgentCapacityReservation) ∧
    (isAutomatic p = true → wake = negb (c_closed c)) ∧
    c_automaticReservations c' = c_automaticReservations (deleteAdmissionReservationLocked k p c) ∧
    c_explicitReservations c' = c_explicitReservations (deleteAdmissionReservationLocked k p c).
Proof.
  intros Hc Hl. unfold releaseReservation. destruct (delete_reservation_ok k p c Hc) as [Hi Hd]. set (c1 := deleteAdmissionReservationLocked k p c) in *.
  assert (∃ c', (match lease with
    | Some n => if c_leases c1 !! n ==? Some currentNodeAgentCapacityReservation then releaseAgentCapacityLocked lease c1 else Ok c1
    | None => Ok c1 end) = Ok c' ∧ cinv c' ∧ leased lease c1 c' ∧ (∀ n, lease = Some n → c_leases c' !! n ≠ Some currentNodeAgentCapacityReservation) ∧
    c_closed c' = c_closed c1 ∧ c_automaticReservations c' = c_automaticReservations c1 ∧ c_explicitReservations c' = c_explicitReservations c1)
    as (c' & -> & Hi' & Hle & Hn & Hcl & E1 & E2).
  { destruct lease as [n|]; [|exists c1; split_and!; [done|done|apply leased_refl|done..]].
    destruct (_ ==? _) eqn:E; bool_simp; [|exists c1; split_and!; [done|done|apply leased_refl|by intros ? [= <-]|done..]].
    destruct (releaseAgentCapacity_ok (Some n) c1 Hi) as (c' & E' & Hi' & Hle & Hrel).
    { intros m Hm. apply (le_some _ _ _ (Hd None)). by apply Hl. }
    exists c'. split_and!; [done|done|done|intros m [= <-]; by rewrite (Hrel n eq_refl)|..].
    all: unfold releaseAgentCapacityLocked in E'; rewrite E in E'; case_if_goal || idtac; destruct (_ <=? _)%Z; by simplify_eq. }
  simpl. eexists _, c'. split; [done|]. split_and!; [done|by eapply leased_trans|done| |done|done].
  intros ->. rewrite orb_true_r. simpl. rewrite Hcl. subst c1. unfold deleteAdmissionReservationLocked. by destruct (isAutomatic p).
Qed.
(** The entry of a worker whose reservation is gone. *)
Lemma finishAdmissionWorker_ok st k c : cinv c → start_key st = Some k →
  (∀ cur, c_admissionWorkers c !! k = Some cur → qs_completion cur = qs_completion st →
     c_explicitReservations c !! k = None ∧ c_automaticReservations c !! k = None) →
  match finishAdmissionWorker st c with
  | Ok (wake, c') => cinv c' ∧ wake = negb (c_closed c) ∧ c' = set_admissionWorkers (delete k (c_admissionWorkers c)) c ∧
      ∃ cur, c_admissionWorkers c !! k = Some cur ∧ qs_completion cur = qs_completion st
  | Err p => p = WorkerReplaced ∧ ∀ cur, c_admissionWorkers c !! k = Some cur → qs_completion cur ≠ qs_completion st ∨ qs_policy cur ≠ qs_policy st
  end.
Proof.
  intros [Hq Ha [R1 R2 R3] Hp Hk Hf] Ek Hno. unfold finishAdmissionWorker. rewrite (proj1 (start_key_Ok st k) Ek).
  destruct (c_admissionWorkers c !! k) as [cur|] eqn:Ew; [|done]. destruct (_ || _) eqn:E.
  { split; [done|]. intros ? [= <-]. rewrite orb_true_iff, !negb_true_iff, !bool_decide_eq_false in E. done. }
  bool_simp. destruct (Hno cur eq_refl) as [N1 N2]; [done|]. split_and!; [|done|done|eauto]. split; [kept|kept| |kept..].
  split; simpl; intros x y Hy.
  - rewrite lookup_delete_ne by congruence. by apply R1.
  - rewrite lookup_delete_ne by congruence. by apply R2.
  - apply lookup_delete_Some in Hy as [_ Hy]. by apply R3.
Qed.

(** ** Fences *)
Definition fenced c (f : N) : Prop := (∃ sc, byScope (c_interrupts c) !! sc = Some f) ∨ (∃ k, byCurrentNode (c_interrupts c) !! k = Some f).
Lemma elem_of_fence_pointers c f : f ∈ fence_pointers (c_interrupts c) ↔ fenced c f.
Proof.
  assert (∀ {K} `{Countable K} (m : gmap K N), f ∈ (map_to_list m).*2 ↔ ∃ x, m !! x = Some f) as Hm.
  { intros K ? ? m. rewrite list_elem_of_fmap. split.
    - intros ([x y] & -> & Hx%elem_of_map_to_list). by exists x.
    - intros [x Hx]. exists (x, f). split; [done|]. by apply elem_of_map_to_list. }
  unfold fence_pointers, fenced. by rewrite elem_of_app, !Hm.
Qed.
Lemma taskActive_iff t c : taskActive t c = true ↔ ∃ f fence, fenced c f ∧ c_fences c !! f = Some fence ∧ fence_taskID fence = t.
Proof.
  unfold taskActive. rewrite existsb_exists. split.
  - intros (f & Hf & Ht). rewrite <- list_elem_of_In, elem_of_fence_pointers in Hf. unfold fence_of_task in Ht.
    destruct (c_fences c !! f) as [fence|] eqn:E; simpl in Ht; [|done]. apply bool_decide_eq_true in Ht. eauto.
  - intros (f & fence & Hf & E & Ht). exists f. rewrite <- list_elem_of_In, elem_of_fence_pointers. split; [done|].
    unfold fence_of_task. rewrite E. simpl. by apply bool_decide_eq_true.
Qed.
Lemma finishFence_ok f c : cinv c → cinv (finishFence f c) ∧ ∀ b, frame b no_task c (finishFence f c).
Proof.
  intros [Hq Ha Hr Hp Hk [F1 F2 F3]].
  assert (∀ c', c' = c → cinv c' ∧ ∀ b, frame b no_task c c') as Hsame.
  { intros ? ->. split; [split; [done..|by split]|intros b; apply cframe_refl]. }
  unfold finishFence. destruct f as [f|]; [|by apply Hsame]. destruct (c_fences c !! f) as [fence|] eqn:E; [|by apply Hsame].
  destruct (_ || _) eqn:Ea; [by apply Hsame|]. bool_simp. set (c' := set_fences _ c).
  assert (∀ g fe, c_fences c !! g = Some fe → ∃ fe', c_fences c' !! g = Some fe' ∧ fence_taskID fe' = fence_taskID fe) as Hkeep.
  { intros g fe Hg. simpl. destruct (decide (g = f)) as [-> |Hne]; [rewrite lookup_insert_eq; eexists; split; [done|]; simpl; congruence|].
    rewrite lookup_insert_ne by done. eauto. }
  split.
  - split; [kept..|]. split; simpl.
    + intros sc g Hg. destruct (F1 sc g Hg) as (fe & Hfe & Ht). destruct (Hkeep g fe Hfe) as (fe' & ? & ?). exists fe'. split; [done|congruence].
    + intros k g Hg. destruct (F2 k g Hg) as (fe & Hfe & Ht). destruct (Hkeep g fe Hfe) as (fe' & ? & ?). exists fe'. split; [done|congruence].
    + intros g [->|[? ?]]%lookup_insert_is_Some; apply F3; [eauto|done].
  - intros b. split; [done..| |]; [by left|]. intros t. rewrite !taskActive_iff. intros (g & fe & Hg & Hfe & Ht). left.
    simpl in Hfe. destruct (decide (g = f)) as [-> |Hne]; [rewrite lookup_insert_eq in Hfe; simplify_eq/=; by exists f, fence|].
    rewrite lookup_insert_ne in Hfe by done. by exists g, fe.
Qed.
(** Fewer fenced scopes and nodes. *)
Lemma unfence_ok c s : cinv c → byScope s ⊆ byScope (c_interrupts c) → byCurrentNode s ⊆ byCurrentNode (c_interrupts c) →
  cinv (set_interrupts s c) ∧ ∀ b, frame b no_task c (set_interrupts s c).
Proof.
  intros [Hq Ha Hr Hp Hk [F1 F2 F3]] H1 H2. split.
  - split; [kept..|]. split; simpl; [intros sc f Hf; by apply F1, (lookup_weaken _ _ _ _ Hf H1)|intros k f Hf; by apply F2, (lookup_weaken _ _ _ _ Hf H2)|done].
  - intros b. split; [done..| |]; [by left|]. intros t. rewrite !taskActive_iff. intros (f & fe & Hf & Hfe & Ht). left. exists f, fe. split; [|done].
    destruct Hf as [[sc Hsc]|[k Hk']]; [left; exists sc|right; exists k]; by eapply lookup_weaken.
Qed.
Lemma finishScope_ok sc c : cinv c → cinv (finishScope sc c) ∧ ∀ b, frame b no_task c (finishScope sc c).
Proof.
  intros Hc. unfold finishScope. destruct (unfence_ok c {| byScope := delete sc (byScope (c_interrupts c)); byCurrentNode := byCurrentNode (c_interrupts c) |} Hc) as [H1 H2];
    [apply delete_subseteq|done|]. destruct (finishFence_ok (byScope (c_interrupts c) !! sc) _ H1) as [H3 H4]. split; [done|].
  intros b. eapply cframe_trans; [apply H2|apply H4].
Qed.
Lemma finishCurrentNode_ok k c : cinv c → cinv (finishCurrentNode k c) ∧ ∀ b, frame b no_task c (finishCurrentNode k c).
Proof.
  intros Hc. unfold finishCurrentNode. destruct (unfence_ok c {| byScope := byScope (c_interrupts c); byCurrentNode := delete k (byCurrentNode (c_interrupts c)) |} Hc) as [H1 H2];
    [done|apply delete_subseteq|]. destruct (finishFence_ok (byCurrentNode (c_interrupts c) !! k) _ H1) as [H3 H4]. split; [done|].
  intros b. eapply cframe_trans; [apply H2|apply H4].
Qed.

(** ** Interruption *)
(** The fence [f] of task [t] is the only one on its nodes; scopes and nodes
    came under it. *)
Definition sole t (f : N) (s : currentNodeInterruptState) : Prop :=
  (∀ sc g, byScope s !! sc = Some g → scope_task sc = t → g = f) ∧ (∀ k g, byCurrentNode s !! k = Some g → key_task k = t → g = f).
Record grows t (f : N) (s s' : currentNodeInterruptState) : Prop := {
  gr_scope : ∀ sc g, byScope s' !! sc = Some g → byScope s !! sc = Some g ∨ (g = f ∧ scope_task sc = t);
  gr_node : ∀ k g, byCurrentNode s' !! k = Some g → byCurrentNode s !! k = Some g ∨ (g = f ∧ key_task k = t);
  gr_kept : byCurrentNode s ⊆ byCurrentNode s' }.
Lemma grows_refl t f s : grows t f s s.
Proof. split; auto. Qed.
Lemma grows_trans t f s1 s2 s3 : grows t f s1 s2 → grows t f s2 s3 → grows t f s1 s3.
Proof.
  intros [A1 A2 A3] [B1 B2 B3]. split; [| |by transitivity (byCurrentNode s2)].
  - intros sc g [Hg|?]%B1; [by apply A1|by right].
  - intros k g [Hg|?]%B2; [by apply A2|by right].
Qed.
Lemma sole_grows t f s s' : sole t f s → grows t f s s' → sole t f s'.
Proof.
  intros [S1 S2] [G1 G2 _]. split.
  - intros sc g [Hg|[? _]]%G1 Ht; [by eapply S1|done].
  - intros k g [Hg|[? _]]%G2 Ht; [by eapply S2|done].
Qed.
Lemma addScope_ok t f sc c : sole t f (c_interrupts c) → scope_task sc = t → ∃ s, addScope f sc c = Ok (set_interrupts s c) ∧ grows t f (c_interrupts c) s ∧ sole t f s.
Proof.
  intros Hs Ht. set (s := {| byScope := <[sc := f]> (byScope (c_interrupts c)); byCurrentNode := byCurrentNode (c_interrupts c) |}).
  assert (grows t f (c_interrupts c) s) as Hg.
  { split; simpl; [|by left|done]. intros sc' g Hg. destruct (decide (sc' = sc)) as [-> |Hne]; [rewrite lookup_insert_eq in Hg; simplify_eq; by right|].
    rewrite lookup_insert_ne in Hg by done. by left. }
  exists s. split_and!; [|done|by eapply sole_grows]. unfold addScope. destruct (byScope (c_interrupts c) !! sc) as [g|] eqn:E; [|done].
  by rewrite (proj1 Hs sc g E Ht), bool_decide_eq_true_2.
Qed.
Lemma addCurrentNode_ok t f k c : sole t f (c_interrupts c) → key_task k = t →
  ∃ s, addCurrentNode f k c = Ok (set_interrupts s c) ∧ grows t f (c_interrupts c) s ∧ sole t f s ∧ byCurrentNode s !! k = Some f.
Proof.
  intros Hs Ht. set (s := {| byScope := byScope (c_interrupts c); byCurrentNode := <[k := f]> (byCurrentNode (c_interrupts c)) |}).
  assert (∀ g, byCurrentNode (c_interrupts c) !! k = Some g → g = f) as Hsame by (intros g Hg; by apply (proj2 Hs k g Hg)).
  assert (grows t f (c_interrupts c) s) as Hg.
  { split; simpl; [by left| |].
    - intros k' g Hg. destruct (decide (k' = k)) as [-> |Hne]; [rewrite lookup_insert_eq in Hg; simplify_eq; by right|].
      rewrite lookup_insert_ne in Hg by done. by left.
    - apply map_subseteq_spec. intros k' g Hg. destruct (decide (k' = k)) as [-> |Hne]; [by rewrite lookup_insert_eq, (Hsame g Hg)|by rewrite lookup_insert_ne]. }
  exists s. split_and!; [|done|by eapply sole_grows|apply lookup_insert_eq]. unfold addCurrentNode.
  destruct (byCurrentNode (c_interrupts c) !! k) as [g|] eqn:E; [|done]. by rewrite (Hsame g eq_refl), bool_decide_eq_true_2.
Qed.
Lemma fence_scopes_ok t f l : ∀ c, sole t f (c_interrupts c) → (∀ e, e ∈ l → scope_task (wes_scope e) = t) →
  ∃ s, fence_scopes f l c = Ok (set_interrupts s c) ∧ grows t f (c_interrupts c) s ∧ sole t f s.
Proof.
  induction l as [|e l IH]; intros c Hs Hl.
  { exists (c_interrupts c). split_and!; [by destruct c|apply grows_refl|done]. }
  simpl. destruct (addScope_ok t f (wes_scope e) c Hs (Hl e (list_elem_of_here _ _))) as (s1 & -> & Hg1 & Hs1). simpl.
  destruct (IH (set_interrupts s1 c) Hs1) as (s2 & -> & Hg2 & Hs2); [intros x Hx; apply Hl; by right|]. exists s2. split_and!; [done|by eapply grows_trans|done].
Qed.
(** The loops over the queues, at once. *)
Lemma of_task_cons t st l : of_task t (st :: l) = if decide (qs_task st = t) then st :: of_task t l else of_task t l.
Proof. unfold of_task. by rewrite filter_cons. Qed.
Lemma others_cons t st l : others t (st :: l) = if decide (qs_task st = t) then others t l else st :: others t l.
Proof. unfold others. rewrite filter_cons. by repeat case_decide. Qed.
Lemma set_completions_id c : set_completions (c_completions c) c = c.
Proof. by destruct c. Qed.
Lemma resolve_eq o out c : ∃ m, resolve o out c = set_completions m c ∧ ∀ n, o ≠ Some n → m !! n = c_completions c !! n.
Proof.
  unfold resolve. destruct o as [x|]; [destruct (c_completions c !! x) as [[?|]|]|]; [by exists (c_completions c); rewrite set_completions_id| | |];
    [|by exists (c_completions c); rewrite set_completions_id..].
  eexists. split; [done|]. intros n Hn. by rewrite lookup_insert_ne by congruence.
Qed.
Lemma drain_explicit_ok t f l : ∀ d : drained (Q := Q), (∀ st, st ∈ l → keyed st) → sole t f (c_interrupts (dr_c d)) → ∃ K s m d',
  drain_explicit t f l d = Ok (others t l, d') ∧ dr_c d' = set_completions m (set_interrupts s (set_explicitQueued K (dr_c d))) ∧
  grows t f (c_interrupts (dr_c d)) s ∧ sole t f s ∧ (∀ k, k ∈ K ↔ (k ∈ c_explicitQueued (dr_c d) ∧ k ∉ keys (of_task t l))) ∧
  (∀ k, k ∈ keys (of_task t l) → byCurrentNode s !! k = Some f) ∧ dr_references d' = dr_references d ++ (qs_reference <$> of_task t l) ∧
  (∀ n, (∀ st, st ∈ l → qs_completion st ≠ Some n) → m !! n = c_completions (dr_c d) !! n).
Proof.
  induction l as [|st l IH]; intros d Hk Hs.
  { exists (c_explicitQueued (dr_c d)), (c_interrupts (dr_c d)), (c_completions (dr_c d)), d. split_and!; [done|by destruct d as [? ? []]|apply grows_refl|done| | | |done].
    - intros k. rewrite elem_of_nil. tauto.
    - intros k []%elem_of_nil.
    - by rewrite app_nil_r. }
  rewrite of_task_cons, others_cons. destruct (proj1 (keyed_start st) (Hk st (list_elem_of_here _ _))) as [k Ek].
  assert (∀ x, x ∈ l → keyed x) as Hk' by (intros x Hx; apply Hk; by right). simpl. destruct (decide (qs_task st = t)) as [Et|Et].
  2: { rewrite bool_decide_eq_false_2 by done. simpl. destruct (IH d Hk' Hs) as (K & s & m & d' & -> & E & R1 & R2 & R3 & R4 & R5 & R6). exists K, s, m, d'. split_and!; try done.
     intros n Hn. apply R6. intros x Hx. apply Hn. by right. }
  rewrite bool_decide_eq_true_2 by done. simpl. rewrite (proj1 (start_key_Ok st k) Ek). unfold drain_one. simpl.
  destruct (addCurrentNode_ok t f k (set_explicitQueued (c_explicitQueued (dr_c d) ∖ {[k]}) (dr_c d))) as (s1 & -> & Hg1 & Hs1 & Hf1); [done|by rewrite (start_key_task st k Ek)|].
  simpl. destruct (resolve_eq (qs_completion st) not_quiescent (set_interrupts s1 (set_explicitQueued (c_explicitQueued (dr_c d) ∖ {[k]}) (dr_c d)))) as (m1 & -> & Hm1).
  match goal with |- context [drain_explicit t f l ?d1] => destruct (IH d1 Hk' Hs1) as (K & s & m & d' & -> & Ed & Hg & Hs' & HK & Hn & Hr & Hm) end.
  exists K, s, m, d'. simpl in *. rewrite (keys_cons st k _ Ek). split_and!; [done|by rewrite Ed|by eapply grows_trans|done| | | |].
  - intros x. rewrite HK, elem_of_difference, elem_of_singleton, elem_of_cons. tauto.
  - intros x [->|Hx]%elem_of_cons; [|by apply Hn]. by apply (lookup_weaken _ _ _ _ Hf1), gr_kept with t f.
  - by rewrite Hr, <- app_assoc.
  - intros n Hno. rewrite Hm, Hm1; [done|apply Hno; by left|]. intros x Hx. apply Hno. by right.
Qed.
Lemma drain_automatic_ok t f l : ∀ d : drained (Q := Q), (∀ st, st ∈ l → keyed st ∧ qs_task st = t) → sole t f (c_interrupts (dr_c d)) → ∃ K s d',
  drain_automatic f l d = Ok d' ∧ dr_c d' = set_interrupts s (set_queued K (dr_c d)) ∧
  grows t f (c_interrupts (dr_c d)) s ∧ sole t f s ∧ (∀ k, k ∈ K ↔ (k ∈ c_queued (dr_c d) ∧ k ∉ keys l)) ∧
  (∀ k, k ∈ keys l → byCurrentNode s !! k = Some f) ∧ dr_references d' = dr_references d ++ (qs_reference <$> l).
Proof.
  induction l as [|st l IH]; intros d Hk Hs.
  { exists (c_queued (dr_c d)), (c_interrupts (dr_c d)), d. split_and!; [done|by destruct d as [? ? []]|apply grows_refl|done| | |].
    - intros k. rewrite elem_of_nil. tauto.
    - intros k []%elem_of_nil.
    - by rewrite app_nil_r. }
  destruct (Hk st (list_elem_of_here _ _)) as [[k Ek]%keyed_start Et]. rewrite (keys_cons st k _ Ek). simpl. rewrite (proj1 (start_key_Ok st k) Ek). unfold drain_one. simpl.
  destruct (addCurrentNode_ok t f k (set_queued (c_queued (dr_c d) ∖ {[k]}) (dr_c d))) as (s1 & -> & Hg1 & Hs1 & Hf1); [done|by rewrite (start_key_task st k Ek)|].
  simpl. match goal with |- context [drain_automatic f l ?d1] => destruct (IH d1) as (K & s & d' & -> & Ed & Hg & Hs' & HK & Hn & Hr) end;
    [intros x Hx; apply Hk; by right|done|].
  exists K, s, d'. simpl in *. split_and!; [done|by rewrite Ed|by eapply grows_trans|done| | |].
  - intros x. rewrite HK, elem_of_difference, elem_of_singleton, elem_of_cons. tauto.
  - intros x [->|Hx]%elem_of_cons; [|by apply Hn]. by apply (lookup_weaken _ _ _ _ Hf1), gr_kept with t f.
  - by rewrite Hr, <- app_assoc.
Qed.
(** Every reservation has its worker, which keeps it. *)
Lemma drain_reservations_ok a t f l : ∀ d : drained (Q := Q), (∀ k st, (k, st) ∈ l → is_Some (c_admissionWorkers (dr_c d) !! k)) → drain_reservations a t f l d = Ok d.
Proof.
  induction l as [|[k st] l IH]; intros d Hl; [done|]. simpl. rewrite (bool_decide_eq_true_2 (is_Some _)) by (eapply Hl; by left).
  rewrite orb_true_r. apply IH. intros k' st' Hx. apply (Hl k' st'). by right.
Qed.
Definition fence_for t (f : N) c : Prop := ∃ fence, c_fences c !! f = Some fence ∧ fence_taskID fence = t.
Lemma fences_grow t f c c' : fences_ok c → fence_for t f c → grows t f (c_interrupts c) (c_interrupts c') → c_fences c' = c_fences c → (c_fresh c ≤ c_fresh c')%N →
  fences_ok c' ∧ ∀ t', taskActive t' c' = true → taskActive t' c = true ∨ t = t'.
Proof.
  intros [F1 F2 F3] (fe & Hfe & Ht) [G1 G2 G3] Ef Hfr. split.
  - split; rewrite Ef.
    + intros sc g [Hg|[-> ->]]%G1; [by apply F1|eauto].
    + intros k g [Hg|[-> ->]]%G2; [by apply F2|eauto].
    + intros g Hg. specialize (F3 g Hg). lia.
  - intros t'. rewrite !taskActive_iff, Ef. intros (g & fe' & Hg & Hfe' & Ht').
    assert (fenced c g ∨ g = f) as [Hold| ->]; [|left; by exists g, fe'|right; congruence].
    destruct Hg as [[sc [Hg|[-> _]]%G1]|[k [Hg|[-> _]]%G2]]; [left; left; eauto|by right|left; right; eauto|by right].
Qed.
(** What an interruption does to the work of a task. *)
Record interrupted t (f : N) c c' : Prop := {
  it_explicit : c_explicitQueue c' = others t (c_explicitQueue c);
  it_automatic : q_items (c_automaticQueue c') = others t (q_items (c_automaticQueue c));
  it_fenced : ∀ st, st ∈ pending c → qs_task st = t → ∃ k, start_key st = Some k ∧ byCurrentNode (c_interrupts c') !! k = Some f;
  it_reservations : c_explicitReservations c' = c_explicitReservations c ∧ c_automaticReservations c' = c_automaticReservations c;
  it_workers : c_admissionWorkers c' = c_admissionWorkers c;
  it_capacity : c_agentCapacityActive c' = c_agentCapacityActive c ∧ c_agentConcurrency c' = c_agentConcurrency c ∧ c_leases c' = c_leases c;
  it_completions : ∀ n, (∀ st, st ∈ pending c → qs_completion st ≠ Some n) → c_completions c' !! n = c_completions c !! n;
  it_rest : c_closed c' = c_closed c ∧ c_closing c' = c_closing c ∧ c_lastAutomaticTask c' = c_lastAutomaticTask c ∧ c_workerWake c' = c_workerWake c }.
Lemma elem_of_others t l st : st ∈ others t l ↔ st ∈ l ∧ qs_task st ≠ t.
Proof. unfold others. rewrite list_elem_of_filter. tauto. Qed.
Lemma nodup_sub (l l' : list currentNodeQueuedStart) : l ⊆+ l' → NoDup (qs_completion <$> l') → NoDup (qs_completion <$> l).
Proof.
  intros Hs Hnd. assert (qs_completion <$> l ⊆+ qs_completion <$> l') as Hs' by by apply fmap_submseteq.
  apply submseteq_Permutation in Hs' as [k E]. rewrite E in Hnd. by apply NoDup_app in Hnd as (? & _).
Qed.
Lemma others_sub t l : others t l ⊆+ l.
Proof. rewrite <- (split_task_perm t l) at 2. by apply submseteq_inserts_l. Qed.
Lemma keys_of_task t l k : mirror l (list_to_set (keys l)) → k ∈ keys (of_task t l) ↔ k ∈ keys l ∧ key_task k = t.
Proof.
  intros Hm. rewrite <- (mi_set _ _ (mirror_of_task t l _ (filter (λ k, key_task k = t) (list_to_set (keys l))) Hm ltac:(intros; rewrite elem_of_filter; tauto))).
  rewrite elem_of_filter, elem_of_list_to_set. tauto.
Qed.
Lemma drained_set t l (K K' : gset CurrentNodeReferenceKey) : mirror l K → (∀ k, k ∈ K' ↔ (k ∈ K ∧ k ∉ keys (of_task t l))) → ∀ k, k ∈ K' ↔ k ∈ K ∧ key_task k ≠ t.
Proof.
  intros [M1 M2 M3] HK k. rewrite HK, keys_of_task.
  - rewrite M3. tauto.
  - split; [done..|]. intros x. by rewrite elem_of_list_to_set.
Qed.
(** The invariant of a state in which a task's work was drained. *)
Lemma cinv_interrupted t f c c' : cinv c → interrupted t f c c' → fence_for t f c → grows t f (c_interrupts c) (c_interrupts c') → q_ok (c_automaticQueue c') →
  (∀ k, k ∈ c_explicitQueued c' ↔ k ∈ c_explicitQueued c ∧ key_task k ≠ t) → (∀ k, k ∈ c_queued c' ↔ k ∈ c_queued c ∧ key_task k ≠ t) →
  c_fences c' = c_fences c → c_fresh c' = c_fresh c → cinv c' ∧ ∀ b, frame b (eq t) c c'.
Proof.
  intros [[Q1 Q2 Q3 Q4] [A1 A2 A3] [R1 R2 R3] [P1 P2] [K1 K2 Kc K3] Hf] [I1 I2 I3 [I4 I5] I6 (I7 & I8 & I9) _] Hfe Hg Hq HE HA Ef Efr.
  destruct (fences_grow t f c c' Hf Hfe Hg Ef) as [Hf' Hact]; [lia|].
  assert (pending c' ⊆+ pending c) as Hsub by (unfold pending; rewrite I1, I2; apply submseteq_app; apply others_sub).
  assert (∀ st, st ∈ pending c' → st ∈ pending c) as Hin by (intros st Hst; by eapply elem_of_submseteq). split.
  - split; [split|split|split|split|split|done].
    + done.
    + rewrite I1. by apply (mirror_others t _ _ _ Q2).
    + rewrite I2. by apply (mirror_others t _ _ _ Q3).
    + rewrite I1. intros st [? _]%elem_of_others. by apply Q4.
    + intros k [Hk Ht]%HE. rewrite I4, I5, HA. destruct (A1 k Hk) as (? & ? & ?). tauto.
    + intros k [Hk Ht]%HA. rewrite I4, I5. by apply A2.
    + rewrite I4, I5. done.
    + rewrite I4, I6. done.
    + rewrite I5, I6. done.
    + rewrite I6. done.
    + rewrite Efr. auto.
    + by eapply nodup_sub.
    + by rewrite I7, I9.
    + by rewrite I7, I8.
    + by rewrite I8.
    + by rewrite I9, Efr.
  - intros b. split; [done..|by apply reserved_same|by rewrite Efr| |done]. intros n (st & Hst & En). left. exists st. auto.
Qed.
Section ranged.
Context `{RangeOrder}.
Lemma drainTask_ok t f d : cinv (dr_c d) → sole t f (c_interrupts (dr_c d)) → fence_for t f (dr_c d) → ∃ d',
  drainTaskControllerWorkLocked t f d = Ok d' ∧ interrupted t f (dr_c d) (dr_c d') ∧ cinv (dr_c d') ∧ (∀ b, frame b (eq t) (dr_c d) (dr_c d')) ∧
  dr_references d' = dr_references d ++ (qs_reference <$> of_task t (c_explicitQueue (dr_c d))) ++ (qs_reference <$> of_task t (q_items (c_automaticQueue (dr_c d)))).
Proof.
  destruct d as [refs waits c]. simpl. intros Hc Hs Hfe. pose proof Hc as [[Q1 Q2 Q3 Q4] _ [R1 R2 R3] _ _ _]. unfold drainTaskControllerWorkLocked. simpl.
  destruct (drain_explicit_ok t f (c_explicitQueue c) {| dr_references := refs; dr_waits := waits; dr_c := c |} (mi_keyed _ _ Q2) Hs) as (K1 & s1 & m & d1 & -> & E1 & G1 & S1 & HK1 & N1 & L1 & M1).
  simpl in *. rewrite E1. simpl. destruct (q_remove_task_law t (c_automaticQueue c) Q1) as (q & -> & Hq & Hi & _).
  match goal with |- context [drain_automatic f ?l ?d2] => destruct (drain_automatic_ok t f l d2) as (K2 & s2 & d3 & -> & E3 & G2 & S2 & HK2 & N2 & L2) end.
  { intros st [Ht Hst]%list_elem_of_filter. split; [by apply (mi_keyed _ _ Q3)|done]. }
  { done. }
  simpl in *. rewrite (drain_reservations_ok false); [|rewrite E3; simpl; intros k st Hk; rewrite (proj2 (R1 k st (proj1 (elem_of_range_map _ _ _) Hk))); eauto].
  simpl. rewrite (drain_reservations_ok true); [|rewrite E3; simpl; intros k st Hk; rewrite (proj2 (R2 k st (proj1 (elem_of_range_map _ _ _) Hk))); eauto].
  exists d3. split; [done|].
  assert (interrupted t f c (dr_c d3)) as Hint.
  { rewrite E3. split; simpl; try done; [|intros n Hn; apply M1; intros st Hst; apply Hn, elem_of_app; by left].
    intros st Hst Ht. assert (keyed st) as [k Ek]%keyed_start by (apply elem_of_app in Hst as [?|?]; [by apply (mi_keyed _ _ Q2)|by apply (mi_keyed _ _ Q3)]).
    exists k. split; [done|]. apply elem_of_app in Hst as [Hst|Hst].
    - eapply lookup_weaken; [apply N1, elem_of_keys; exists st; split; [by apply list_elem_of_filter|done]|apply G2].
    - apply N2, elem_of_keys. exists st. split; [by apply list_elem_of_filter|done]. }
  split; [done|]. destruct (cinv_interrupted t f c (dr_c d3) Hc Hint) as [Hi' Hf']; try first [done|rewrite E3; simpl; done].
  - rewrite E3. simpl. by eapply grows_trans.
  - rewrite E3. simpl. by eapply drained_set.
  - rewrite E3. simpl. by eapply drained_set.
  - split_and!; [done..|]. by rewrite L2, L1, <- app_assoc.
Qed.
Lemma beginTask_ok t c : cinv c → taskActive t c = false → ∃ f c', beginTask t c = Ok (f, c') ∧ f = c_fresh c ∧ cinv c' ∧ sole t f (c_interrupts c') ∧ fence_for t f c' ∧
  (∀ b, frame b (eq t) c c') ∧ (∃ fe, c' = set_fresh (f + 1)%N (set_fences fe c)).
Proof.
  intros [Hq Ha Hr Hp [K1 K2 Kc K3] [F1 F2 F3]] Hact. unfold beginTask. rewrite Hact. eexists _, _. split; [done|]. set (c' := set_fresh _ _).
  assert (∀ g fe, c_fences c !! g = Some fe → c_fences c' !! g = Some fe) as Hkeep.
  { intros g fe Hg. simpl. rewrite lookup_insert_ne; [done|]. intros <-. specialize (F3 _ (mk_is_Some _ _ Hg)). lia. }
  assert (∀ g, fenced c g → ¬ fence_for t g c) as Hno.
  { intros g Hg (fe & Hfe & Ht). assert (taskActive t c = true) as E; [|by rewrite E in Hact]. apply taskActive_iff. eauto. }
  split_and!; [done| | |eexists; split; [apply lookup_insert_eq|done]| |eexists; done].
  - split; [kept..| | |].
    + destruct Hp as [P1 P2]. split; [|done]. intros st Hst. destruct (P1 st Hst) as (? & n & ? & ?). split; [done|]. exists n. simpl. split; [done|lia].
    + split; simpl; [done..|]. intros n Hn. specialize (K3 n Hn). lia.
    + split.
      * intros sc g Hg. destruct (F1 sc g Hg) as (fe & Hfe & ?). eauto.
      * intros k g Hg. destruct (F2 k g Hg) as (fe & Hfe & ?). eauto.
      * intros g. simpl. intros [->|[_ Hg]]%lookup_insert_is_Some; [lia|]. specialize (F3 g Hg). lia.
  - split; simpl.
    + intros sc g Hg Ht. destruct (F1 sc g Hg) as (fe & Hfe & E). exfalso. eapply Hno; [left; eauto|]. exists fe. split; [done|congruence].
    + intros k g Hg Ht. destruct (F2 k g Hg) as (fe & Hfe & E). exfalso. eapply Hno; [right; eauto|]. exists fe. split; [done|congruence].
  - intros b. split; [done..|simpl; lia|by left|]. intros t'. rewrite !taskActive_iff. intros (g & fe & Hg & Hfe & Ht). left. exists g, fe. split_and!; [done| |done].
    simpl in Hfe. destruct (decide (c_fresh c = g)) as [<-|Hne]; [|by rewrite lookup_insert_ne in Hfe by done]. exfalso.
    destruct Hg as [[sc Hg]|[k Hg]]; [destruct (F1 sc _ Hg) as (x & Hx & _)|destruct (F2 k _ Hg) as (x & Hx & _)]; specialize (F3 _ (mk_is_Some _ _ Hx)); lia.
Qed.
Definition of_task_scopes t (l : list WorkflowExecutionSelection) : Prop := ∀ e, e ∈ l → scope_task (wes_scope e) = t.
Lemma fence_task_ok t f l c : cinv c → sole t f (c_interrupts c) → fence_for t f c → of_task_scopes t l → ∃ r c',
  fence_task t l f c = Ok (r, c') ∧ interrupted t f c c' ∧ cinv c' ∧ (∀ b, frame b (eq t) c c') ∧ ic_fence r = Some f ∧ ic_scopes r = wes_scope <$> l ∧
  ic_references r = (wes_CurrentNode <$> l) ++ (qs_reference <$> of_task t (c_explicitQueue c)) ++ (qs_reference <$> of_task t (q_items (c_automaticQueue c))).
Proof.
  intros Hc Hs Hfe Hl. unfold fence_task. destruct (fence_scopes_ok t f l c Hs Hl) as (s & -> & Hg & Hs'). simpl.
  destruct (fences_grow t f c (set_interrupts s c) (ci_fences c Hc) Hfe Hg eq_refl (N.le_refl _)) as [Hf' Hact].
  assert (cinv (set_interrupts s c)) as Hc' by (destruct Hc; split; try kept; done).
  assert (∀ b, frame b (eq t) c (set_interrupts s c)) as Hfr by (intros b; split; [done..| |done]; by left).
  destruct (drainTask_ok t f {| dr_references := wes_CurrentNode <$> l; dr_waits := []; dr_c := set_interrupts s c |}) as (d' & -> & Hi & Hc2 & Hfr2 & Hr); [done..|].
  simpl in *. eexists _, _. split; [done|]. split_and!; [by destruct Hi|done|intros b; by eapply cframe_trans|done..].
Qed.
Lemma interrupted_fresh t f c x fe c' : interrupted t f (set_fresh x (set_fences fe c)) c' → interrupted t f c c'.
Proof. intros []. by constructor. Qed.
(** The sections of the two interruptions: an error changes nothing. *)
Lemma begin_fence_ok t l c : cinv c → taskActive t c = false → of_task_scopes t l → ∃ r c',
  (match beginTask t c with
   | Err e => Ok (Err e, c)
   | Ok (fence, c) => r ← fence_task t l fence c; Ok (Ok r.1, r.2)
   end) = Ok (Ok r, c') ∧ interrupted t (c_fresh c) c c' ∧ cinv c' ∧ (∀ b, frame b (eq t) c c') ∧ ic_fence r = Some (c_fresh c) ∧ ic_scopes r = wes_scope <$> l ∧
  ic_references r = (wes_CurrentNode <$> l) ++ (qs_reference <$> of_task t (c_explicitQueue c)) ++ (qs_reference <$> of_task t (q_items (c_automaticQueue c))).
Proof.
  intros Hc Ha Hl. destruct (beginTask_ok t c Hc Ha) as (f & c1 & -> & -> & Hc1 & Hs & Hfe & Hfr & (fe & ->)).
  destruct (fence_task_ok t (c_fresh c) l _ Hc1 Hs Hfe Hl) as (r & c' & -> & Hi & Hc' & Hfr' & E1 & E2 & E3). exists r, c'. simpl in *. split; [done|].
  split_and!; [by eapply interrupted_fresh|done|intros b; by eapply cframe_trans|done..].
Qed.
Definition section_ok t c (r : result controller_panic (result admit_error interrupt_cleanup * CurrentNodeController (Q := Q))) : Prop :=
  ∃ x c', r = Ok (x, c') ∧ cinv c' ∧ (∀ b, frame b (eq t) c c') ∧ (c' = c ∨ ∃ f, interrupted t f c c').
Lemma section_same t c x : cinv c → section_ok t c (Ok (x, c)).
Proof. intros Hc. exists x, c. split_and!; [done..| |by left]. intros b. apply cframe_refl. Qed.
(** A scope is of the task of its node. *)
Definition scopes_ok (l : list WorkflowExecutionSelection) : Prop := ∀ e, e ∈ l → scope_task (wes_scope e) = cnr_TaskID (wes_CurrentNode e).
Lemma selected_task t l : scopes_ok l → existsb (λ e, cnr_TaskID (wes_CurrentNode e) <>? t) l = false → of_task_scopes t l.
Proof.
  intros Hl E e He. rewrite (Hl e He). destruct (decide (cnr_TaskID (wes_CurrentNode e) = t)) as [|Hne]; [done|]. exfalso.
  assert (existsb (λ e, cnr_TaskID (wes_CurrentNode e) <>? t) l = true) as E'; [|by rewrite E' in E]. apply existsb_exists. exists e.
  split; [by apply list_elem_of_In|]. by rewrite bool_decide_eq_false_2.
Qed.
Lemma interrupt_selection_ok t sid l1 l2 c : cinv c → scopes_ok (l1 ++ l2) → section_ok t c (interrupt_selection t sid l1 l2 c).
Proof.
  intros Hc Hl. unfold interrupt_selection. destruct sid as [sid|]; simpl; repeat case_if_goal; try by apply section_same.
  destruct (begin_fence_ok t (l1 ++ l2) c) as (r & c' & Hr & Hi & Hc' & Hf & _); [done..|by apply selected_task|]. eexists _, _. split_and!; [exact Hr|done..|eauto].
Qed.
(** Nothing about the controller depends on how a refusal is reported. *)
Lemma interrupt_section_eq t sid l1 l2 nodes c x c' : interrupt_selection t sid l1 l2 c = Ok (x, c') →
  ∃ x', interrupt_section t sid l1 l2 nodes c = Ok (x', c') ∧ (∀ y, x = Ok y → x' = Ok y).
Proof.
  intros E. unfold interrupt_section. rewrite E. simpl. destruct x as [k|e]; [eauto|]. destruct e; eauto.
  eexists. split; [reflexivity|done].
Qed.
Lemma interrupt_section_ok t sid l1 l2 nodes c : cinv c → scopes_ok (l1 ++ l2) → section_ok t c (interrupt_section t sid l1 l2 nodes c).
Proof.
  intros Hc Hl. destruct (interrupt_selection_ok t sid l1 l2 c Hc Hl) as (x & c' & E & Hok).
  destruct (interrupt_section_eq _ _ _ _ nodes _ _ _ E) as (x' & E' & _). exists x', c'. by split.
Qed.
(** Without a running execution nothing changes. *)
Lemma interrupt_refused t l2 nodes c : ∃ r, interrupt_section t None [] l2 nodes c = Ok (r, c) ∧
  match nodes with
  | Err e => r = Err e
  | Ok stored =>
    let interrupted := stored ≠ [] ∧ ∀ x : stored_node, x ∈ stored → sn_state x = Some CurrentNodeSchedulingInterrupted in
    (interrupted → r = Ok {| ic_scopes := []; ic_references := []; ic_waits := []; ic_fence := None |}) ∧
    (¬ interrupted → r = Err ErrNoInterruptibleExecution)
  end.
Proof.
  unfold interrupt_section, interrupt_selection. simpl. eexists. split; [done|]. destruct nodes as [stored|e]; [|done]. simpl.
  unfold interruptSelectorAlreadyInterrupted. simpl. split.
  - intros [Hne Hall]. destruct stored as [|n stored]; [done|]. replace (forallb _ _) with true; [done|]. symmetry. apply forallb_forall.
    intros x Hx%list_elem_of_In. by apply bool_decide_eq_true, Hall.
  - intros Hno. destruct (negb _ && _) eqn:E; [|done]. exfalso. apply Hno. apply andb_true_iff in E as [Hne Hall]. split; [by intros ->|].
    rewrite forallb_forall in Hall. intros x Hx%list_elem_of_In%Hall. by apply bool_decide_eq_true in Hx.
Qed.
Lemma manual_move_section_ok t l1 l2 c : cinv c → scopes_ok l1 → section_ok t c (manual_move_section t l1 l2 c).
Proof.
  intros Hc Hl. unfold manual_move_section. repeat case_if_goal; try by apply section_same.
  destruct (begin_fence_ok t l1 c) as (r & c' & Hr & Hi & Hc' & Hf & _); [done..|by apply selected_task|]. eexists _, _. split_and!; [exact Hr|done..|eauto].
Qed.
End ranged.

Lemma start_key_valid st k : start_key st = Some k → is_valid st = true ∧ has_a_key st = true.
Proof.
  intros E%start_key_Ok. unfold is_valid, has_a_key. rewrite E. split; [|done]. unfold CurrentNodeReference_Key in E.
  by destruct (CurrentNodeReference_Validate _).
Qed.
(** No work of a consistent controller fails the validation. *)
Lemma validate_ok t c : cinv c → validateTaskControllerWorkLocked t c = true.
Proof.
  intros [[Q1 Q2 Q3 Q4] _ [R1 R2 R3] _ _ _]. unfold validateTaskControllerWorkLocked.
  assert (∀ f l, (∀ st, st ∈ l → f st = true) → validate_starts f t l = true) as Hv.
  { intros f l Hl. unfold validate_starts. apply forallb_forall. intros st Hst. rewrite Hl; [apply orb_true_r|by apply list_elem_of_In]. }
  assert (∀ m : gmap CurrentNodeReferenceKey currentNodeQueuedStart, (∀ k st, m !! k = Some st → start_key st = Some k) → validate_starts is_valid t (reserved_starts m) = true) as Hm.
  { intros m Hm. apply Hv. intros st ([k st'] & -> & Hst%elem_of_map_to_list)%list_elem_of_fmap. by apply (start_key_valid st' k), Hm. }
  rewrite !Hm, !Hv; [done|..].
  - intros st Hst. destruct (proj1 (keyed_start st) (mi_keyed _ _ Q2 st Hst)) as [k Hk]. by apply (start_key_valid st k).
  - intros st Hst. destruct (proj1 (keyed_start st) (mi_keyed _ _ Q3 st Hst)) as [k Hk]. by apply (start_key_valid st k).
  - done.
  - intros k st Hst. by apply R3, R2.
  - intros k st Hst. by apply R3, R1.
Qed.

(** ** Closing *)
Lemma close_begin_ok c : cinv c → cinv (close_begin c) ∧ ∀ b, frame b no_task c (close_begin c).
Proof.
  intros Hc. unfold close_begin. destruct (c_closed c); [split; [done|intros; apply cframe_refl]|]. split; [destruct Hc; split; kept|]. intros b. by apply cframe_same.
Qed.
Lemma resolve_all_eq out l : ∀ c, ∃ m, foldl (λ c st, resolve (qs_completion st) out c) c l = set_completions m c ∧
  ∀ n, (∀ st, st ∈ l → qs_completion st ≠ Some n) → m !! n = c_completions c !! n.
Proof.
  induction l as [|st l IH]; intros c; simpl; [exists (c_completions c); by destruct c|]. destruct (resolve_eq (qs_completion st) out c) as (m & -> & Hm).
  destruct (IH (set_completions m c)) as (m' & -> & Hm'). exists m'. split; [done|]. intros n Hn. simpl in Hm'. rewrite Hm', Hm; [done|apply Hn; by left|].
  intros x Hx. apply Hn. by right.
Qed.
Lemma close_finish_eq c : ∃ m, close_finish c =
  set_completions m (set_queued ∅ (set_automaticQueue (q_clear (c_automaticQueue c)) (set_explicitQueued ∅ (set_explicitQueue [] (set_closing false (set_closed true c)))))) ∧
  ∀ n, (∀ st, st ∈ c_explicitQueue c → qs_completion st ≠ Some n) → m !! n = c_completions c !! n.
Proof.
  unfold close_finish. match goal with |- context [foldl _ ?c1 _] => destruct (resolve_all_eq shut_down (c_explicitQueue c) c1) as (m & E & Hm) end.
  exists m. split; [exact E|exact Hm].
Qed.
Lemma close_finish_ok c : cinv c → cinv (close_finish c) ∧ ∀ b, frame b no_task c (close_finish c).
Proof.
  intros [[Q1 Q2 Q3 Q4] [A1 A2 A3] Hr [P1 P2] Hk Hf]. destruct (close_finish_eq c) as (m & -> & _). destruct (q_clear_law _ Q1) as (Hq & Hi & _). set (c' := set_completions _ _).
  assert (pending c' = []) as Ep by (unfold pending; simpl; by rewrite Hi). split.
  - split; [| |kept| |kept|kept].
    + split; simpl; [done|apply mirror_nil|rewrite Hi; apply mirror_nil|by intros st []%elem_of_nil].
    + split; simpl; intros k; [set_solver|set_solver|apply A3].
    + split; rewrite Ep; [by intros st []%elem_of_nil|constructor].
  - intros b. split; [done..| |by left]. intros n (st & Hst & _). rewrite Ep in Hst. by apply elem_of_nil in Hst.
Qed.
Lemma cinv_resolve o out c : cinv c → cinv (resolve o out c) ∧ ∀ b, frame b no_task c (resolve o out c).
Proof. intros Hc. destruct (resolve_eq o out c) as (m & -> & _). split; [by apply cinv_completions|]. intros b. by apply cframe_same. Qed.
End controller.
