(* ===== verification/AdmissionStepFacts.v ===== *)
(** * The controller and its goroutines

    The invariant of a schedule: the controller is consistent, and every
    goroutine owns its completion, its capacity lease until it hands it over,
    its reservation and the lane of its task. *)
From Stdlib Require Import ZArith String Lia.
From stdpp Require Import gmap strings list relations.
From S2P Require Import Prelude Types CurrentState AdmissionQueue AdmissionQueueFacts AdmissionInterface Admission AdmissionSteps AdmissionFacts.

(** ** Phases *)
Definition early (p : phase) : bool := match p with Preparing | Entering _ | Locking _ | Inside _ => true | _ => false end.
Definition in_lane (p : phase) : bool :=
  match p with Inside _ | Committing _ | Leaving _ _ | Recovering _ _ | Relinquishing _ _ => true | _ => false end.
(** Before the deferred release of the reservation. *)
Definition holding (p : phase) : bool :=
  match p with Deciding _ _ | Failed _ _ | Reentering _ _ | Relocking _ _ | Recovering _ _ | Relinquishing _ _ | Reporting _ _ | Resolving _ _ | Unfencing | Finishing => false | _ => true end.

(** The kind of a start may be corrected during its admission. *)
Record same_start (a b : currentNodeQueuedStart) : Prop := {
  sm_reference : qs_reference a = qs_reference b; sm_policy : qs_policy a = qs_policy b;
  sm_completion : qs_completion a = qs_completion b; sm_lease : qs_agentCapacityLease a = qs_agentCapacityLease b }.
#[export] Instance same_start_equiv : Equivalence same_start.
Proof.
  split.
  - intros a. by split.
  - intros a b []. by split.
  - intros a b c [] []. split; congruence.
Qed.
Lemma same_key a b : same_start a b → start_key a = start_key b.
Proof. intros Hs. unfold start_key. by rewrite (sm_reference _ _ Hs). Qed.
Lemma same_task a b : same_start a b → qs_task a = qs_task b.
Proof. intros Hs. unfold qs_task. by rewrite (sm_reference _ _ Hs). Qed.

Section workers.
(** [unique]: no start was taken for a key whose goroutine was still running. *)
Context {Q : Type} `{AutomaticQueue Q} `{RangeOrder} (scope_task : ExecutionScopeID → TaskID) (limit : Z) (unique : bool).
Implicit Types (c : CurrentNodeController (Q := Q)) (s : system (Q := Q)) (st : currentNodeQueuedStart) (k : CurrentNodeReferenceKey) (t : TaskID) (n i j : N)
  (w : worker) (ws : gmap N worker).

(** ** What goroutines own *)
Record w_ids c ws (next : N) : Prop := {
  id_next : ∀ i w, ws !! i = Some w → (i < next)%N;
  id_key : ∀ i w, ws !! i = Some w → ∃ k, start_key (wk_start w) = Some k;
  id_completion : ∀ i w, ws !! i = Some w → ∃ n, qs_completion (wk_start w) = Some n ∧ (n < c_fresh c)%N ∧ ¬ pending_completion c n;
  id_distinct : ∀ i j w w', ws !! i = Some w → ws !! j = Some w' → qs_completion (wk_start w) = qs_completion (wk_start w') → i = j;
  id_entry : ∀ k st, c_admissionWorkers c !! k = Some st → ∃ i w, ws !! i = Some w ∧ same_start (wk_start w) st;
  id_own : unique = true → ∀ i w k, ws !! i = Some w → start_key (wk_start w) = Some k → ∃ st, c_admissionWorkers c !! k = Some st ∧ same_start (wk_start w) st }.
Definition w_reserved c ws : Prop := ∀ k st, reserved c k st → ∃ i w, ws !! i = Some w ∧ same_start (wk_start w) st ∧ holding (wk_phase w) = true.
Record w_leases c ws (handed : list N) : Prop := {
  ls_some : ∀ i w n, ws !! i = Some w → qs_agentCapacityLease (wk_start w) = Some n → is_Some (c_leases c !! n);
  ls_early : ∀ i w n, ws !! i = Some w → qs_agentCapacityLease (wk_start w) = Some n → early (wk_phase w) = true →
    c_leases c !! n = Some currentNodeAgentCapacityReservation ∧ n ∉ handed;
  ls_distinct : ∀ i j w w' n, ws !! i = Some w → ws !! j = Some w' → qs_agentCapacityLease (wk_start w) = Some n →
    qs_agentCapacityLease (wk_start w') = Some n → i = j;
  ls_handed : ∀ n, n ∈ handed → is_Some (c_leases c !! n);
  ls_automatic : ∀ i w n, ws !! i = Some w → qs_agentCapacityLease (wk_start w) = Some n → isAutomatic (qs_policy (wk_start w)) = true }.
Record w_lanes ws (lanes : gmap TaskID N) : Prop := {
  ln_held : ∀ t i, lanes !! t = Some i → ∃ w, ws !! i = Some w ∧ in_lane (wk_phase w) = true ∧ qs_task (wk_start w) = t;
  ln_inside : ∀ i w, ws !! i = Some w → in_lane (wk_phase w) = true → lanes !! qs_task (wk_start w) = Some i }.
Definition w_commit c ws : Prop := ∀ i w kind, ws !! i = Some w → wk_phase w = Committing kind → taskActive (qs_task (wk_start w)) c = false.
Record winv s : Prop := {
  wi_ids : w_ids (sy_c s) (sy_workers s) (sy_next s); wi_reserved : w_reserved (sy_c s) (sy_workers s);
  wi_leases : w_leases (sy_c s) (sy_workers s) (sy_handed s); wi_lanes : w_lanes (sy_workers s) (sy_lanes s);
  wi_commit : w_commit (sy_c s) (sy_workers s) }.
Record inv s : Prop := { in_c : cinv scope_task limit (sy_c s); in_w : winv s }.

(** ** A goroutine moves on *)
Section moving.
Context (ws : gmap N worker) (i : N) (w : worker) (st : currentNodeQueuedStart) (p : phase) (Hw : ws !! i = Some w) (Hst : same_start st (wk_start w)).
Abbreviation ws' := (<[i := {| wk_start := st; wk_phase := p |}]> ws) (only parsing).
(** Each goroutine stands for one of before. *)
Lemma moved_back j w' : ws' !! j = Some w' → ∃ w0, ws !! j = Some w0 ∧ same_start (wk_start w') (wk_start w0) ∧ (j ≠ i → w' = w0) ∧ (j = i → wk_phase w' = p ∧ w0 = w).
Proof using Hw Hst.
  destruct (decide (j = i)) as [-> |Hne]; [rewrite lookup_insert_eq; intros [= <-]; by exists w|]. rewrite lookup_insert_ne by done. intros Hj.
  exists w'. split_and!; [done|done|done|]. by intros ->.
Qed.
Lemma moved_forth j w0 : ws !! j = Some w0 → ∃ w', ws' !! j = Some w' ∧ same_start (wk_start w') (wk_start w0) ∧ (j ≠ i → w' = w0) ∧ (j = i → wk_phase w' = p).
Proof using Hw Hst.
  intros Hj. destruct (decide (j = i)) as [-> |Hne]; [rewrite lookup_insert_eq; eexists; split; [done|]; simplify_eq; by split_and!|].
  rewrite lookup_insert_ne by done. exists w0. split_and!; [done|done|done|]. by intros ->.
Qed.
Lemma ids_go c next : w_ids c ws next → w_ids c ws' next.
Proof using Hw Hst.
  intros [I1 I2 I3 I4 I5 I6]. split.
  - intros j w' (w0 & Hj & _)%moved_back. by eapply I1.
  - intros j w' (w0 & Hj & Hs & _)%moved_back. rewrite (same_key _ _ Hs). by eapply I2.
  - intros j w' (w0 & Hj & Hs & _)%moved_back. rewrite (sm_completion _ _ Hs). by eapply I3.
  - intros j1 j2 w1 w2 (x1 & H1' & Hs1 & _)%moved_back (x2 & H2' & Hs2 & _)%moved_back. rewrite (sm_completion _ _ Hs1), (sm_completion _ _ Hs2). by eapply I4.
  - intros k x (j & w0 & Hj & Hs)%I5. destruct (moved_forth j w0 Hj) as (w' & Hj' & Hs' & _). exists j, w'. split; [done|by etransitivity].
  - intros Hu j w' k (w0 & Hj & Hs & _)%moved_back Hk. rewrite (same_key _ _ Hs) in Hk. destruct (I6 Hu j w0 k Hj Hk) as (x & Hx & Hs'). exists x.
    split; [done|by etransitivity].
Qed.
Lemma reserved_go c : w_reserved c ws →
  (holding (wk_phase w) = true → holding p = true ∨ ∀ k x, reserved c k x → ¬ same_start (wk_start w) x) → w_reserved c ws'.
Proof using Hw Hst.
  intros Hr Hp k x Hx. destruct (Hr k x Hx) as (j & w0 & Hj & Hs & Hh). destruct (moved_forth j w0 Hj) as (w' & Hj' & Hs' & Hne & Heq).
  exists j, w'. split_and!; [done|by etransitivity|]. destruct (decide (j = i)) as [E|E]; [|by rewrite (Hne E)].
  rewrite (Heq E). subst. simplify_eq. destruct (Hp Hh) as [Hp'|Hp']; [done|]. by destruct (Hp' k x Hx).
Qed.
Lemma leases_go c handed : w_leases c ws handed → (early p = true → early (wk_phase w) = true) → w_leases c ws' handed.
Proof using Hw Hst.
  intros [L1 L2 L3 L4 L5] Hp. split; [| | |done|].
  - intros j w' n (w0 & Hj & Hs & _)%moved_back En. rewrite (sm_lease _ _ Hs) in En. by eapply L1.
  - intros j w' n (w0 & Hj & Hs & Hne & Heq)%moved_back En He. rewrite (sm_lease _ _ Hs) in En. eapply L2; [done..|].
    destruct (decide (j = i)) as [E|E]; [|by rewrite <- (Hne E)]. destruct (Heq E) as [Ep ->]. apply Hp. by rewrite <- Ep.
  - intros j1 j2 w1 w2 n (x1 & H1' & Hs1 & _)%moved_back (x2 & H2' & Hs2 & _)%moved_back. rewrite (sm_lease _ _ Hs1), (sm_lease _ _ Hs2). by eapply L3.
  - intros j w' n (w0 & Hj & Hs & _)%moved_back En. rewrite (sm_lease _ _ Hs) in En. rewrite (sm_policy _ _ Hs). by eapply L5.
Qed.
(** The goroutine's own lease may change once it is past its early phases. *)
Lemma leases_go_leased c c' handed : w_leases c ws handed → leased (qs_agentCapacityLease (wk_start w)) c c' → early p = false → w_leases c' ws' handed.
Proof using Hw Hst.
  intros HL Hle Hp. destruct (leases_go c handed HL ltac:(congruence)) as [L1 L2 L3 L4 L5]. split.
  - intros j w' n Hj En. by eapply (le_some _ _ _ Hle), L1.
  - intros j w' n Hj En He. rewrite (le_other _ _ _ Hle); [by eapply L2|]. intros En'.
    destruct (moved_back j w' Hj) as (w0 & Hj0 & Hs & Hne & Heq). rewrite (sm_lease _ _ Hs) in En.
    pose proof (ls_distinct _ _ _ HL j i w0 w n Hj0 Hw En En') as ->. destruct (Heq eq_refl) as [Ep _]. congruence.
  - done.
  - intros n Hn. by apply (le_some _ _ _ Hle), L4.
  - done.
Qed.
Lemma lanes_go lanes : w_lanes ws lanes → in_lane p = in_lane (wk_phase w) → w_lanes ws' lanes.
Proof using Hw Hst.
  intros [A1 A2] Hp. split.
  - intros t j (w0 & Hj & Hin & Ht)%A1. destruct (moved_forth j w0 Hj) as (w' & Hj' & Hs & Hne & Heq). exists w'. split_and!; [done| |by rewrite (same_task _ _ Hs)].
    destruct (decide (j = i)) as [E|E]; [|by rewrite (Hne E)]. rewrite (Heq E), Hp. subst. by simplify_eq.
  - intros j w' (w0 & Hj & Hs & Hne & Heq)%moved_back Hin. rewrite (same_task _ _ Hs). apply A2; [done|].
    destruct (decide (j = i)) as [E|E]; [|by rewrite <- (Hne E)]. destruct (Heq E) as [Ep ->]. by rewrite <- Hp, <- Ep.
Qed.
Lemma lanes_enter lanes : w_lanes ws lanes → lanes !! qs_task (wk_start w) = None → in_lane (wk_phase w) = false → in_lane p = true →
  w_lanes ws' (<[qs_task (wk_start w) := i]> lanes).
Proof using Hw Hst.
  intros [A1 A2] Hfree Hout Hp. split.
  - intros t j [[<- <-]|[Hne Hj]]%lookup_insert_Some.
    + rewrite lookup_insert_eq. eexists. split; [done|]. simpl. split; [done|by apply same_task].
    + destruct (A1 t j Hj) as (w0 & Hj0 & Hin & Ht). assert (j ≠ i) by (intros ->; simplify_eq; congruence). exists w0. by rewrite lookup_insert_ne.
  - intros j w' (w0 & Hj & Hs & Hne & Heq)%moved_back Hin. rewrite (same_task _ _ Hs). destruct (decide (j = i)) as [->|E]; [simplify_eq; apply lookup_insert_eq|].
    rewrite (Hne E) in Hin. pose proof (A2 j w0 Hj Hin) as Hl. rewrite lookup_insert_ne; [done|]. intros Et. rewrite Et in Hfree. congruence.
Qed.
Lemma lanes_leave lanes : w_lanes ws lanes → in_lane (wk_phase w) = true → in_lane p = false → w_lanes ws' (delete (qs_task (wk_start w)) lanes).
Proof using Hw Hst.
  intros [A1 A2] Hin Hp. pose proof (A2 i w Hw Hin) as Hl. split.
  - intros t j [Hne Hj]%lookup_delete_Some. destruct (A1 t j Hj) as (w0 & Hj0 & Hin0 & Ht). assert (j ≠ i) by (intros ->; simplify_eq).
    exists w0. by rewrite lookup_insert_ne.
  - intros j w' (w0 & Hj & Hs & Hne & Heq)%moved_back Hin'. rewrite (same_task _ _ Hs). destruct (decide (j = i)) as [->|E]; [destruct (Heq eq_refl); congruence|].
    rewrite (Hne E) in Hin'. pose proof (A2 j w0 Hj Hin') as Hl'. apply lookup_delete_Some. split; [|done]. congruence.
Qed.
Lemma commit_go c : w_commit c ws → (∀ kind, p = Committing kind → taskActive (qs_task (wk_start w)) c = false) → w_commit c ws'.
Proof using Hw Hst.
  intros Hc Hp j w' kind (w0 & Hj & Hs & Hne & Heq)%moved_back Ep. rewrite (same_task _ _ Hs). destruct (decide (j = i)) as [E|E].
  - destruct (Heq E) as [Ep' ->]. apply (Hp kind). congruence.
  - rewrite (Hne E) in Ep. by eapply Hc.
Qed.
End moving.

(** ** The controller changes *)
Lemma winv_ext s s' : winv s → sy_c s' = sy_c s → sy_workers s' = sy_workers s → sy_next s' = sy_next s → sy_lanes s' = sy_lanes s → sy_handed s' = sy_handed s → winv s'.
Proof. intros [W1 W2 W3 W4 W5] E1 E2 E3 E4 E5. split; by rewrite ?E1, ?E2, ?E3, ?E4, ?E5. Qed.
Lemma inv_ext s s' : inv s → sy_c s' = sy_c s → sy_workers s' = sy_workers s → sy_next s' = sy_next s → sy_lanes s' = sy_lanes s → sy_handed s' = sy_handed s → inv s'.
Proof. intros [Hc Hw] E1 E2 E3 E4 E5. split; [by rewrite E1|by eapply winv_ext]. Qed.
Lemma ids_frame c c' ws next : w_ids c ws next → c_admissionWorkers c' = c_admissionWorkers c → (c_fresh c ≤ c_fresh c')%N →
  (∀ n, pending_completion c' n → pending_completion c n ∨ (c_fresh c ≤ n)%N) → w_ids c' ws next.
Proof.
  intros [I1 I2 I3 I4 I5 I6] E1 E2 E3. split; [done|done| |done|by rewrite E1..]. intros i w Hi. destruct (I3 i w Hi) as (n & En & Hn & Hp). exists n.
  split_and!; [done|lia|]. intros [?|?]%E3; [done|lia].
Qed.
Lemma inv_frame s c' T : inv s → cinv scope_task limit c' → frame (c_fresh (sy_c s)) T (sy_c s) c' → (∀ t, T t → sy_lanes s !! t = None) → inv (with_c c' s).
Proof.
  intros [Hc [W1 W2 [L1 L2 L3 L4 L5] W4 W5]] Hc' [F1 F2 Fr F3 F4 F5] HT. split; [done|]. split; simpl.
  - by eapply ids_frame.
  - intros k st Hk. exact (W2 k st (Fr k st Hk)).
  - split; rewrite ?F1; done.
  - done.
  - intros i w kind Hi Ep. destruct (taskActive _ c') eqn:E; [|done]. destruct (F5 _ E) as [E'|E']; [by rewrite (W5 i w kind Hi Ep) in E'|].
    specialize (HT _ E'). rewrite (ln_inside _ _ W4 i w Hi) in HT; [done|by rewrite Ep].
Qed.
Lemma ids_leased lease c c' ws next : w_ids c ws next → leased lease c c' → w_ids c' ws next.
Proof.
  intros Hi Hle. eapply ids_frame; [done|apply Hle|by rewrite (le_fresh _ _ _ Hle)|]. unfold pending_completion. rewrite (le_pending _ _ _ Hle). by left.
Qed.
Lemma active_leased lease c c' t : leased lease c c' → taskActive t c' = taskActive t c.
Proof. intros Hle. unfold taskActive, fence_of_task. by rewrite (le_interrupts _ _ _ Hle), (le_fences _ _ _ Hle). Qed.
Lemma reserved_leased lease c c' ws : w_reserved c ws → leased lease c c' → w_reserved c' ws.
Proof. intros Hr Hle k st Hk. exact (Hr k st (le_reserved _ _ _ Hle k st Hk)). Qed.
Lemma commit_leased lease c c' ws : w_commit c ws → leased lease c c' → w_commit c' ws.
Proof. intros Hw Hle i w kind Hi Ep. rewrite (active_leased _ _ _ _ Hle). by eapply Hw. Qed.

(** ** Steps of goroutines *)
Section goroutine.
Context (s : system (Q := Q)) (i : N) (w : worker) (Hs : inv s) (Hw : sy_workers s !! i = Some w).
Lemma inv_go st p : same_start st (wk_start w) → (early p = true → early (wk_phase w) = true) →
  (holding p = true ∨ holding (wk_phase w) = false) → in_lane p = in_lane (wk_phase w) → (∀ kind, p = Committing kind → taskActive (qs_task (wk_start w)) (sy_c s) = false) →
  inv (go_on i st p s).
Proof using Hs Hw.
  intros Hst P1 P2 P3 P4. destruct Hs as [Hc [W1 W2 W3 W4 W5]]. split; [done|]. split; simpl.
  - by eapply ids_go.
  - eapply reserved_go; [done..|]. intros E. destruct P2 as [P2|P2]; [by left|congruence].
  - by eapply leases_go.
  - by eapply lanes_go.
  - by eapply commit_go.
Qed.
(** A section that changed the goroutine's own lease. *)
Lemma inv_go_leased c' p : cinv scope_task limit c' → leased (qs_agentCapacityLease (wk_start w)) (sy_c s) c' → early p = false →
  (holding (wk_phase w) = true → holding p = true ∨ ∀ k x, reserved c' k x → ¬ same_start (wk_start w) x) → in_lane p = in_lane (wk_phase w) →
  (∀ kind, p = Committing kind → taskActive (qs_task (wk_start w)) (sy_c s) = false) → inv (go_on i (wk_start w) p (with_c c' s)).
Proof using Hs Hw.
  intros Hc' Hle P1 P2 P3 P4. destruct Hs as [Hc [W1 W2 W3 W4 W5]]. split; [done|]. split; simpl.
  - eapply ids_go; [done..|]. by eapply ids_leased.
  - eapply reserved_go; [done..| |done]. by eapply reserved_leased.
  - by eapply leases_go_leased.
  - by eapply lanes_go.
  - eapply commit_leased; [|done]. by eapply commit_go.
Qed.
(** A section that left the leases alone. *)
Lemma inv_go_frame c' p : cinv scope_task limit c' → (∀ b, frame b (λ _, False) (sy_c s) c') → early p = false → (holding p = true ∨ holding (wk_phase w) = false) →
  in_lane p = false → in_lane (wk_phase w) = false → inv (go_on i (wk_start w) p (with_c c' s)).
Proof using Hs Hw.
  intros Hc' Hf P1 P2 P3 P4. assert (inv (go_on i (wk_start w) p s)) as Hg.
  { apply inv_go; [done|congruence|done|congruence|]. by intros kind ->. }
  apply (inv_frame (go_on i (wk_start w) p s) c' (λ _, False)); [done|done|apply Hf|done].
Qed.
Lemma own_lease n : qs_agentCapacityLease (wk_start w) = Some n → is_Some (c_leases (sy_c s) !! n).
Proof using Hs Hw. intros En. by eapply (ls_some _ _ _ (wi_leases _ (in_w _ Hs))). Qed.
Lemma own_reservation n : qs_agentCapacityLease (wk_start w) = Some n → early (wk_phase w) = true →
  c_leases (sy_c s) !! n = Some currentNodeAgentCapacityReservation.
Proof using Hs Hw. intros En He. by destruct (ls_early _ _ _ (wi_leases _ (in_w _ Hs)) i w n Hw En He). Qed.
Lemma inv_enter p : in_lane (wk_phase w) = false → sy_lanes s !! qs_task (wk_start w) = None → in_lane p = true → (early p = true → early (wk_phase w) = true) →
  (holding p = true ∨ holding (wk_phase w) = false) → (∀ kind, p ≠ Committing kind) →
  inv (with_lanes (<[qs_task (wk_start w) := i]> (sy_lanes s)) (go_on i (wk_start w) p s)).
Proof using Hs Hw.
  intros P1 P2 P3 P4 P5 P6. destruct Hs as [Hc [W1 W2 W3 W4 W5]]. split; [done|]. split; simpl.
  - by eapply ids_go.
  - eapply reserved_go; [done..|]. intros E. destruct P5 as [P5|P5]; [by left|congruence].
  - by eapply leases_go.
  - by eapply lanes_enter.
  - eapply commit_go; [done..|]. by intros kind ?%P6.
Qed.
Lemma inv_leave p : in_lane (wk_phase w) = true → in_lane p = false → early p = false → (holding p = true ∨ holding (wk_phase w) = false) →
  inv (with_lanes (delete (qs_task (wk_start w)) (sy_lanes s)) (go_on i (wk_start w) p s)).
Proof using Hs Hw.
  intros P1 P2 P3 P4. destruct Hs as [Hc [W1 W2 W3 W4 W5]]. split; [done|]. split; simpl.
  - by eapply ids_go.
  - eapply reserved_go; [done..|]. intros E. destruct P4 as [P4|P4]; [by left|congruence].
  - eapply leases_go; [done..|]. congruence.
  - by eapply lanes_leave.
  - eapply commit_go; [done..|]. by intros kind ->.
Qed.
End goroutine.

Lemma admit_section_ok kind k st c : cinv scope_task limit c → (∀ n, qs_agentCapacityLease st = Some n → c_leases c !! n = Some currentNodeAgentCapacityReservation) →
  ∃ e c', admit_section kind k st c = Ok (e, c') ∧ cinv scope_task limit c' ∧ leased (qs_agentCapacityLease st) c c' ∧
    (e = None → taskActive (qs_task st) c = false).
Proof.
  intros Hc Hl. unfold admit_section. assert (∀ e : admit_error, ∃ e' c', Ok (E := controller_panic) (Some e, c) = Ok (e', c') ∧ cinv scope_task limit c' ∧
    leased (qs_agentCapacityLease st) c c' ∧ (e' = None → taskActive (qs_task st) c = false)) as Hsame.
  { intros e. exists (Some e), c. split_and!; [done|done|apply leased_refl|done]. }
  unfold ensureTaskAvailableLocked. destruct (ensureAvailableLocked c) as [e|]; [apply Hsame|]. destruct (taskActive (qs_task st) c) eqn:Ea; [apply Hsame|].
  destruct (admissionReservationLocked k (qs_policy st) c) as [r|]; [|apply Hsame]. destruct (_ <>? _); [apply Hsame|].
  destruct (delete_reservation_ok scope_task limit k (qs_policy st) c Hc) as [Hc1 Hd]. set (c1 := deleteAdmissionReservationLocked k (qs_policy st) c) in *.
  assert (∃ c', (match kind with
    | AdmitAgent => transitionAgentCapacityLocked (qs_agentCapacityLease st) currentNodeAgentCapacityReservation currentNodeAgentCapacityLive c1
    | AdmitScript => Ok c1 end) = Ok c' ∧ cinv scope_task limit c' ∧ leased (qs_agentCapacityLease st) c1 c') as (c' & -> & Hc' & Hle).
  { destruct kind; [|exists c1; split_and!; [done|done|apply leased_refl]]. apply transition_ok; [done|]. intros n En. rewrite <- (Hl n En).
    subst c1. unfold deleteAdmissionReservationLocked. by destruct (isAutomatic _). }
  simpl. exists None, c'. split_and!; [done|done|by eapply leased_trans|done].
Qed.

(** The panics a goroutine can end in. *)
Definition worker_panic i w s (p : controller_panic) : Prop :=
  match p with
  | WorkerReplaced => unique = false ∧ wk_phase w = Finishing ∧ ∀ k cur, start_key (wk_start w) = Some k → c_admissionWorkers (sy_c s) !! k = Some cur →
      qs_completion cur ≠ qs_completion (wk_start w) ∨ qs_policy cur ≠ qs_policy (wk_start w)
  | AdmissionUncertain => ∃ kind, wk_phase w = Committing kind
  | InterruptionLost => ∃ e admitted, wk_phase w = Recovering e admitted
  | _ => False
  end.
Definition step_result i w s (o : outcome (Q := Q)) : Prop := match o with Next s' => inv s' | Blocked => True | Panic p => worker_panic i w s p end.

Section phases.
Context (s : system (Q := Q)) (i : N) (w : worker) (k : CurrentNodeReferenceKey) (Hs : inv s) (Hw : sy_workers s !! i = Some w)
  (Hk : start_key (wk_start w) = Some k).
Lemma inside_ok kind : wk_phase w = Inside kind →
  step_result i w s (lift (admit_section kind k (wk_start w) (sy_c s)) (λ r,
    Next (go_on i (wk_start w) (match r.1 with Some e => Leaving kind (Some (e, false)) | None => Committing kind end) (with_c r.2 s)))).
Proof using Hs Hw.
  intros Ep. destruct (admit_section_ok kind k (wk_start w) (sy_c s) (in_c _ Hs)) as (e & c' & -> & Hc' & Hle & Ha).
  { intros n En. eapply own_reservation; [done..|]. by rewrite Ep. }
  simpl. eapply inv_go_leased; [done..| |by intros _; left; destruct e|by rewrite Ep; destruct e|]; [by destruct e|]. destruct e; [done|]. intros _ _. by apply Ha.
Qed.
Lemma failing_ok e admitted : wk_phase w = Failing e admitted →
  step_result i w s (lift (releaseAgentCapacityLocked (qs_agentCapacityLease (wk_start w)) (sy_c s)) (λ c,
    Next (go_on i (wk_start w) (Releasing (Some (e, admitted)) None) (with_c c s)))).
Proof using Hs Hw.
  intros Ep. destruct (releaseAgentCapacity_ok scope_task limit (qs_agentCapacityLease (wk_start w)) (sy_c s) (in_c _ Hs)) as (c' & -> & Hc' & Hle & _).
  { intros n. by eapply own_lease. }
  simpl. eapply inv_go_leased; [done..|by left|by rewrite Ep|done].
Qed.
(** The reservation of a goroutine's own key and policy is gone. *)
Lemma own_deleted x k' c' : cinv scope_task limit c' → c_automaticReservations c' = c_automaticReservations (deleteAdmissionReservationLocked k (qs_policy (wk_start w)) (sy_c s)) →
  c_explicitReservations c' = c_explicitReservations (deleteAdmissionReservationLocked k (qs_policy (wk_start w)) (sy_c s)) →
  reserved c' k' x → ¬ same_start (wk_start w) x.
Proof using Hk.
  intros Hc' E1 E2 Hx Hsame. pose proof (ci_reserved _ _ _ Hc') as [R1 R2 R3]. unfold deleteAdmissionReservationLocked in E1, E2. rewrite (sm_policy _ _ Hsame) in E1, E2.
  destruct Hx as [Hx|Hx]; [destruct (R1 _ _ Hx) as [Hp He]|destruct (R2 _ _ Hx) as [Hp He]];
    assert (k' = k) as -> by (apply R3 in He; rewrite <- (same_key _ _ Hsame) in He; congruence); rewrite Hp in E1, E2; simpl in E1, E2.
  - rewrite E2, lookup_delete_eq in Hx. done.
  - rewrite E1, lookup_delete_eq in Hx. done.
Qed.
Lemma releasing_ok f handle : wk_phase w = Releasing f handle →
  step_result i w s (lift (releaseReservation k (qs_policy (wk_start w)) (qs_agentCapacityLease (wk_start w)) (sy_c s)) (λ r,
    Next (owe_wake r.1 (go_on i (wk_start w) (Deciding f handle) (with_c r.2 s))))).
Proof using Hs Hw Hk.
  intros Ep. destruct (releaseReservation_ok scope_task limit k (qs_policy (wk_start w)) (qs_agentCapacityLease (wk_start w)) (sy_c s) (in_c _ Hs))
    as (wake & c' & -> & Hc' & Hle & _ & _ & E1 & E2).
  { intros n. by eapply own_lease. }
  simpl. assert (inv (go_on i (wk_start w) (Deciding f handle) (with_c c' s))) as Hi; [|by eapply inv_ext].
  eapply inv_go_leased; [done..| |by rewrite Ep|done]. intros _. right. intros k' x Hx. by eapply own_deleted.
Qed.
Lemma finishing_ok : wk_phase w = Finishing →
  step_result i w s (lift (finishAdmissionWorker (wk_start w) (sy_c s)) (λ r, Next (owe_wake r.1 (with_workers (delete i (sy_workers s)) (with_c r.2 s))))).
Proof using Hs Hw Hk.
  intros Ep. destruct Hs as [Hc [W1 W2 W3 W4 W5]]. pose proof (ci_reserved _ _ _ Hc) as [R1 R2 R3].
  assert (∀ k' x, reserved (sy_c s) k' x → qs_completion x ≠ qs_completion (wk_start w)) as Hno.
  { intros k' x Hx E. destruct (W2 k' x Hx) as (j & w' & Hj & Hsame & Hh). rewrite <- (sm_completion _ _ Hsame) in E.
    pose proof (id_distinct _ _ _ W1 j i w' w Hj Hw E) as ->. simplify_eq. by rewrite Ep in Hh. }
  assert (∀ cur, c_admissionWorkers (sy_c s) !! k = Some cur → qs_completion cur = qs_completion (wk_start w) →
    c_explicitReservations (sy_c s) !! k = None ∧ c_automaticReservations (sy_c s) !! k = None) as Hnone.
  { intros cur Hcur Ecur. split; apply eq_None_not_Some; intros [x Hx]; [destruct (R1 _ _ Hx) as [_ Hx']|destruct (R2 _ _ Hx) as [_ Hx']];
      rewrite Hcur in Hx'; simplify_eq; by eapply Hno; [by (left + right)|]. }
  pose proof (finishAdmissionWorker_ok scope_task limit (wk_start w) k (sy_c s) Hc Hk Hnone) as Hf.
  destruct (finishAdmissionWorker (wk_start w) (sy_c s)) as [[wake c']|p]; simpl.
  2: { destruct Hf as [-> Hf]. simpl. split_and!; [|done|].
       - destruct unique eqn:Eu; [|done]. destruct (id_own _ _ _ W1 Eu i w k Hw Hk) as (cur & Hcur & Hsame). exfalso.
         destruct (Hf cur Hcur) as [[]|[]]; symmetry; apply Hsame.
       - intros k' cur Hk' Hcur. simplify_eq. by apply Hf. }
  destruct Hf as (Hc' & _ & -> & cur & Hcur & Ecur).
  split; [done|]. split; simpl.
  - destruct W1 as [I1 I2 I3 I4 I5 I6]. split.
    + intros j w' [_ Hj]%lookup_delete_Some. by eapply I1.
    + intros j w' [_ Hj]%lookup_delete_Some. by eapply I2.
    + intros j w' [_ Hj]%lookup_delete_Some. by eapply I3.
    + intros j1 j2 w1 w2 [_ Hj1]%lookup_delete_Some [_ Hj2]%lookup_delete_Some. by eapply I4.
    + simpl. intros k' x [Hne Hx]%lookup_delete_Some. destruct (I5 k' x Hx) as (j & w' & Hj & Hsame). exists j, w'. split; [|done]. apply lookup_delete_Some.
      split; [|done]. intros <-. simplify_eq. apply R3 in Hx. rewrite <- (same_key _ _ Hsame) in Hx. congruence.
    + simpl. intros Hu j w' k' [Hne Hj]%lookup_delete_Some Hk'. destruct (I6 Hu j w' k' Hj Hk') as (x & Hx & Hsame). exists x. split; [|done].
      apply lookup_delete_Some. split; [|done]. intros <-. apply Hne. eapply I4; [done..|]. rewrite (sm_completion _ _ Hsame). congruence.
  - intros k' x Hx. destruct (W2 k' x Hx) as (j & w' & Hj & Hsame & Hh). exists j, w'. split; [|done]. apply lookup_delete_Some. split; [|done].
    intros <-. simplify_eq. by rewrite Ep in Hh.
  - destruct W3 as [L1 L2 L3 L4 L5]. split; [..|done|].
    + intros j w' n [_ Hj]%lookup_delete_Some. by eapply L1.
    + intros j w' n [_ Hj]%lookup_delete_Some. by eapply L2.
    + intros j1 j2 w1 w2 n [_ Hj1]%lookup_delete_Some [_ Hj2]%lookup_delete_Some. by eapply L3.
    + intros j w' n [_ Hj]%lookup_delete_Some. by eapply L5.
  - destruct W4 as [A1 A2]. split.
    + intros t j (w' & Hj & Hin & Ht)%A1. exists w'. split; [|done]. apply lookup_delete_Some. split; [|done]. intros <-. simplify_eq. by rewrite Ep in Hin.
    + intros j w' [_ Hj]%lookup_delete_Some. by apply A2.
  - intros j w' kind [_ Hj]%lookup_delete_Some. by eapply W5.
Qed.
End phases.

Lemma inv_handed s st : inv s → (∀ n, qs_agentCapacityLease st = Some n → is_Some (c_leases (sy_c s) !! n) ∧
    ∀ i w, sy_workers s !! i = Some w → qs_agentCapacityLease (wk_start w) = Some n → early (wk_phase w) = false) →
  ∀ n, qs_agentCapacityLease st = Some n → inv (with_handed (n :: sy_handed s) s).
Proof.
  intros [Hc [W1 W2 [L1 L2 L3 L4 L5] W4 W5]] Hst n En. destruct (Hst n En) as [Hn Hlate]. split; [done|]. split; simpl; [done..| |done|done].
  split; [done| |done| |done].
  - intros j w m Hj Em He. destruct (L2 j w m Hj Em He) as [? Hm]. split; [done|]. intros [->|?]%elem_of_cons; [|done]. by rewrite (Hlate j w Hj Em) in He.
  - intros m [->|Hm]%elem_of_cons; [done|by apply L4].
Qed.
Lemma mutation_failed_phase kind e admitted : let p := mutation_failed kind e admitted in
  early p = false ∧ in_lane p = false ∧ holding p = true ∧ ∀ kd, p ≠ Committing kd.
Proof. by destruct kind. Qed.
Lemma admit_prepare_same st pub steer kind st' : admit_prepare st pub steer = Ok (kind, st') → same_start st' st.
Proof.
  unfold admit_prepare. destruct pub as [b|e]; simpl; [|done]. intros E. cases_in E; repeat case_if_goal; by split.
Qed.
(** Starting an execution hands its capacity over. *)
Lemma starting_ok s i w kind o : inv s → sy_workers s !! i = Some w → wk_phase w = Starting kind →
  let s1 := match kind, qs_agentCapacityLease (wk_start w) with AdmitAgent, Some n => with_handed (n :: sy_handed s) s | _, _ => s end in
  ∀ p, early p = false → holding p = true → in_lane p = false → inv (go_on i (wk_start w) p s1) ∧ step_result i w s (Next (owe_wake o (go_on i (wk_start w) p s1))).
Proof.
  intros Hs Hw Ep s1 p P1 P2 P3. assert (inv (go_on i (wk_start w) p s1)) as Hg; [|split; [done|]; simpl; by eapply inv_ext].
  assert (inv s1) as Hs1.
  { subst s1. destruct kind; [|done]. destruct (qs_agentCapacityLease (wk_start w)) as [n|] eqn:En; [|done]. apply (inv_handed s (wk_start w) Hs); [|done].
    intros m Em. split; [by eapply own_lease|]. intros j w' Hj Ej. pose proof (ls_distinct _ _ _ (wi_leases _ (in_w _ Hs)) j i w' w m Hj Hw Ej Em) as ->. simplify_eq. by rewrite Ep. }
  assert (sy_workers s1 = sy_workers s) as E by (subst s1; destruct kind; [by destruct (qs_agentCapacityLease _)|done]).
  apply (inv_go s1 i w Hs1); [by rewrite E|done|congruence|by left|by rewrite Ep|]. by intros k' ->.
Qed.
(** A goroutine that only changes its phase. *)
Ltac move_on Ep := eapply inv_go; [done|done|done|by rewrite ?Ep|first [by left|by right; rewrite Ep]|by rewrite ?Ep|done].
Lemma worker_step_ok i w a s : inv s → sy_workers s !! i = Some w → step_result i w s (worker_step i w a s).
Proof.
  intros Hs Hw. destruct (id_key _ _ _ (wi_ids _ (in_w _ Hs)) i w Hw) as [k Ek]. unfold worker_step. rewrite (proj1 (start_key_Ok _ _) Ek).
  pose proof (in_c _ Hs) as Hc.
  destruct (wk_phase w) as [|kind|kind|kind|kind|kind f|kind|e admitted|f handle|f handle|e admitted|e admitted|e admitted|e admitted|e reported|e reported|err handle| |] eqn:Ep.
  - destruct a; try done. destruct (admit_prepare _ _ _) as [[kind st]|e] eqn:E; simpl.
    + eapply inv_go; [done..|by eapply admit_prepare_same|by rewrite Ep|by left|by rewrite Ep|done].
    + move_on Ep.
  - destruct a; try done. destruct (_ || _); simpl.
    + destruct (mutation_failed_phase kind (ErrMessage "current node workflow controller is closed") false) as (M1 & M2 & M3 & M4).
      eapply inv_go; [done..|congruence|by left|by rewrite M2, Ep|]. by intros k' ?%M4.
    + move_on Ep.
  - destruct a; try done.
    + destruct (sy_lanes s !! _) eqn:El; [done|]. simpl. eapply inv_enter; [done|done|by rewrite Ep|done|done|by rewrite Ep|by left|done].
    + simpl. destruct (mutation_failed_phase kind e false) as (M1 & M2 & M3 & M4). eapply inv_go; [done..|congruence|by left|by rewrite M2, Ep|]. by intros k' ?%M4.
  - destruct a; try done. by apply inside_ok.
  - destruct kind, a; try done.
    + destruct (durable_admission _ _) as [e|p] eqn:E; simpl; [move_on Ep|].
      unfold durable_admission, classifyCurrentNodeAdmission in E. cases_in E; simpl; eauto.
    + destruct (publish _ _) as [f|p'] eqn:E; simpl; [move_on Ep|].
      unfold publish in E. destruct p as [e|r failed]; [done|]. destruct (durable_admission _ r) as [e|p] eqn:E'; simpl in E; [by destruct e|]. simplify_eq.
      unfold durable_admission, classifyCurrentNodeAdmission in E'. cases_in E'; simpl; eauto.
  - destruct a; try done. simpl. destruct f as [[e admitted]|].
    + destruct (mutation_failed_phase kind e admitted) as (M1 & M2 & M3 & M4). eapply inv_leave; [done|done|by rewrite Ep|done|done|by left].
    + eapply inv_leave; [done|done|by rewrite Ep|done|done|by left].
  - destruct a; try done. pose proof (λ o, starting_ok s i w kind o Hs Hw Ep) as Hst. destruct kind, o; try done; by (apply (Hst false) || apply Hst).
  - destruct a; try done. by apply failing_ok.
  - destruct a; try done. by apply releasing_ok.
  - destruct a; try done. destruct f as [[e admitted]|]; [destruct (_ || _)|]; simpl; (move_on Ep).
  - destruct a; try done. destruct (_ || _); simpl; (move_on Ep).
  - destruct a; try done. destruct (_ || _); simpl; (move_on Ep).
  - destruct a; try done; [|simpl; move_on Ep]. destruct (sy_lanes s !! _) eqn:El; [done|]. simpl.
    eapply inv_enter; [done|done|by rewrite Ep|done|done|done|by right; rewrite Ep|done].
  - destruct a; try done. destruct o; [| |destruct (isAutomatic _)]; simpl; try (move_on Ep). eauto.
  - destruct a; try done. simpl. eapply inv_leave; [done|done|by rewrite Ep|by destruct reported|by destruct reported|by right; rewrite Ep].
  - destruct a; try done. simpl. eapply inv_go_frame; [done..| | |done|by right; rewrite Ep|done|by rewrite Ep].
    + destruct (_ || _); [done|by apply cinv_workerErr].
    + intros b. destruct (_ || _); [apply cframe_refl|by apply frame_workerErr, cframe_refl].
  - destruct a; try done. simpl. destruct (cinv_resolve scope_task limit (qs_completion (wk_start w)) {| out_handle := handle; out_err := err |} (sy_c s) Hc) as [? ?].
    eapply inv_go_frame; [done..|by right; rewrite Ep|done|by rewrite Ep].
  - destruct a; try done. simpl. destruct (finishCurrentNode_ok scope_task limit k (sy_c s) Hc) as [? ?]. eapply inv_go_frame; [done..|by right; rewrite Ep|done|by rewrite Ep].
  - destruct a; try done. by apply finishing_ok with k.
Qed.

(** ** The other steps *)
Lemma inv_spawn s c' st : inv s → cinv scope_task limit c' → taken (sy_c s) st c' →
  (unique = true → ∀ k, start_key st = Some k → c_admissionWorkers (sy_c s) !! k = None) → inv (spawn st (with_c c' s)).
Proof.
  intros [Hc [[I1 I2 I3 I4 I5 I6] W2 [L1 L2 L3 L4 L5] W4 W5]] Hc' [(k & Hk & T1) (n & T2 & T3 & T4) T5 T6 T7 T8 T9 T10] Huniq.
  assert (∀ i w, sy_workers s !! i = Some w → i ≠ sy_next s) as Hnew by (intros i w Hi%I1; lia).
  assert (∀ i w, <[sy_next s := {| wk_start := st; wk_phase := Preparing |}]> (sy_workers s) !! i = Some w →
    (i = sy_next s ∧ w = {| wk_start := st; wk_phase := Preparing |}) ∨ (i ≠ sy_next s ∧ sy_workers s !! i = Some w)) as Hback.
  { intros i w [[<- <-]|[? ?]]%lookup_insert_Some; [by left|by right]. }
  assert (∀ i w, sy_workers s !! i = Some w → <[sy_next s := {| wk_start := st; wk_phase := Preparing |}]> (sy_workers s) !! i = Some w) as Hforth.
  { intros i w Hi. rewrite lookup_insert_ne; [done|]. intros <-. by eapply Hnew. }
  assert (∀ i w, sy_workers s !! i = Some w → qs_completion (wk_start w) ≠ qs_completion st) as Hdiff.
  { intros i w Hi E. destruct (I3 i w Hi) as (m & Em & _ & Hm). apply Hm. congruence. }
  assert (∀ m, is_Some (c_leases (sy_c s) !! m) → is_Some (c_leases c' !! m) ∧ c_leases c' !! m = c_leases (sy_c s) !! m ∧ qs_agentCapacityLease st ≠ Some m) as Hold.
  { intros m Hm. pose proof (cap_fresh _ _ (ci_capacity _ _ _ Hc) m Hm) as Hlt. destruct T7 as [[E1 ->]|(E1 & -> & _)]; [split_and!; [done|done|congruence]|].
    rewrite lookup_insert_ne by lia. split_and!; [done|done|]. rewrite E1. intros [= ?]. lia. }
  split; [done|]. split; simpl.
  - split.
    + intros i w [[-> _]|[_ Hi%I1]]%Hback; lia.
    + intros i w [[_ ->]|[_ Hi]]%Hback; [eauto|by eapply I2].
    + intros i w [[_ ->]|[_ Hi]]%Hback; simpl.
      * exists n. split_and!; [done| |done]. destruct T3 as (x & Hx & Ex). destruct (co_pending _ (ci_comps _ _ _ Hc) x Hx) as (_ & m & Em & Hm). simplify_eq. lia.
      * destruct (I3 i w Hi) as (m & Em & Hm & Hp). exists m. split_and!; [done|lia|]. intros ?%T5. done.
    + intros i j w w' [[-> ->]|[Hi1 Hi]]%Hback [[-> ->]|[Hj1 Hj]]%Hback E; simpl in *; [done|by destruct (Hdiff j w' Hj)|by destruct (Hdiff i w Hi)|by eapply I4].
    + intros k' x Hx. rewrite T1 in Hx. apply lookup_insert_Some in Hx as [[_ <-]|[_ Hx]]; [exists (sy_next s); eexists; by rewrite lookup_insert_eq|].
      destruct (I5 k' x Hx) as (i & w & Hi & ?). exists i, w. auto.
    + intros Hu i w k' [[_ ->]|[_ Hi]]%Hback Hk'; rewrite T1; simpl in *; [exists st; simplify_eq; by rewrite lookup_insert_eq|].
      destruct (I6 Hu i w k' Hi Hk') as (x & Hx & Hsame). exists x. split; [|done]. rewrite lookup_insert_ne; [done|]. intros <-.
      by rewrite (Huniq Hu k Hk) in Hx.
  - intros k' x [Hx| ->]%T8; [|exists (sy_next s); eexists; by rewrite lookup_insert_eq]. destruct (W2 k' x Hx) as (i & w & Hi & ?). exists i, w. auto.
  - split.
    + intros i w m [[_ ->]|[_ Hi]]%Hback Em; simpl in *; [|by apply Hold; eapply L1]. destruct T7 as [[E1 _]|(E1 & -> & _)]; [congruence|].
      rewrite E1 in Em. injection Em as <-. rewrite lookup_insert_eq. eauto.
    + intros i w m [[_ ->]|[_ Hi]]%Hback Em He; simpl in *.
      * destruct T7 as [[E1 _]|(E1 & -> & _)]; [congruence|]. rewrite E1 in Em. injection Em as <-. rewrite lookup_insert_eq. split; [done|].
        intros Hh%L4. apply (cap_fresh _ _ (ci_capacity _ _ _ Hc)) in Hh. lia.
      * destruct (Hold m (L1 i w m Hi Em)) as (_ & -> & _). by eapply L2.
    + intros i j w w' m [[-> ->]|[Hi1 Hi]]%Hback [[-> ->]|[Hj1 Hj]]%Hback Em Em'; simpl in *; [done|..|by eapply L3].
      * by destruct (Hold m (L1 j w' m Hj Em')) as (_ & _ & []).
      * by destruct (Hold m (L1 i w m Hi Em)) as (_ & _ & []).
    + intros m Hm%L4. by apply Hold.
    + intros i w m [[_ ->]|[_ Hi]]%Hback Em; simpl in *; [|by eapply L5]. destruct T7 as [[E1 _]|(E1 & _ & Ha & _)]; [congruence|done].
  - destruct W4 as [A1 A2]. split.
    + intros t i (w & Hi & ?)%A1. exists w. auto.
    + intros i w [[_ ->]|[_ Hi]]%Hback; [done|]. by apply A2.
  - intros i w kind [[_ ->]|[_ Hi]]%Hback Ep; [done|]. unfold taskActive, fence_of_task. rewrite T9, T10. by eapply W5.
Qed.
(** Selections name scopes of the task of their node. *)
Definition legal (a : action) : Prop :=
  match a with
  | Interrupt _ _ l1 l2 _ => scopes_ok scope_task (l1 ++ l2)
  | InterruptForManualMove _ l1 _ => scopes_ok scope_task l1
  | _ => True
  end.
Definition exec_panic (a : action) s (p : controller_panic) : Prop :=
  match a with
  | Run i _ => ∃ w, sy_workers s !! i = Some w ∧ worker_panic i w s p
  | Complete _ => p = QueueOverflow
  | _ => False
  end.
Definition exec_result (a : action) s (o : outcome (Q := Q)) : Prop := match o with Next s' => inv s' | Blocked => True | Panic p => exec_panic a s p end.

Lemma queued_result s c1 c2 : inv s → cinv scope_task limit c2 → frame (c_fresh (sy_c s)) (λ _, False) (sy_c s) c1 → frame (c_fresh (sy_c s)) (λ _, False) c1 c2 → inv (with_c c2 s).
Proof. intros Hs Hc F1 F2. apply (inv_frame s c2 (λ _, False)); [done|done|by eapply cframe_trans|done]. Qed.
Lemma section_result s t (r : result controller_panic (result admit_error interrupt_cleanup * CurrentNodeController (Q := Q))) (f : result admit_error interrupt_cleanup → bool) a :
  inv s → section_ok scope_task limit t (sy_c s) r → exec_result a s (in_free_lane t s (lift r (λ r, Next (owe_wake (f r.1) (with_c r.2 s))))).
Proof.
  intros Hs (x & c' & -> & Hc' & Hf & _). unfold in_free_lane, behind_open_barrier. destruct (c_closed _); [done|]. destruct (sy_lanes s !! t) eqn:El; [done|]. simpl.
  assert (inv (with_c c' s)) as Hi; [|by eapply inv_ext]. eapply inv_frame; [done..|]. by intros t' <-.
Qed.
Lemma plain_result s c' : inv s → cinv scope_task limit c' → (∀ b, frame b (λ _, False) (sy_c s) c') → inv (with_c c' s).
Proof. intros Hs Hc Hf. by apply (inv_frame s c' (λ _, False)). Qed.
Lemma inv_wakes s (n' : nat) : inv s → inv {| sy_c := wakeAdmissionWorker (sy_c s); sy_dispatcher := sy_dispatcher s; sy_workers := sy_workers s; sy_lanes := sy_lanes s;
  sy_next := sy_next s; sy_wakes := n'; sy_handed := sy_handed s; sy_canceled := sy_canceled s |}.
Proof.
  intros Hs. assert (inv (with_c (wakeAdmissionWorker (sy_c s)) s)) as Hi; [|by eapply inv_ext].
  apply plain_result; [done|by apply cinv_wake, Hs|]. intros b. by apply frame_wake, cframe_refl.
Qed.
Lemma callback_ok n s : inv s → n ∈ sy_handed s → exec_result (CapacityCallback n) s (lift (releaseAgentCapacity (Some n) (sy_c s)) (λ r, Next (owe_wake r.1 (with_c r.2 s)))).
Proof.
  intros Hs Hn. destruct Hs as [Hc [W1 W2 W3 W4 W5]]. pose proof W3 as [L1 L2 L3 L4 L5].
  destruct (releaseAgentCapacity_ok scope_task limit (Some n) (sy_c s) Hc) as (c' & E & Hc' & Hle & _); [intros m [= <-]; by apply L4|].
  unfold releaseAgentCapacity. rewrite E. simpl. split; [done|]. split; simpl; [by eapply ids_leased|by eapply reserved_leased| |done|by eapply commit_leased].
  split.
  - intros i w m Hi Em. by eapply (le_some _ _ _ Hle), L1.
  - intros i w m Hi Em He. destruct (L2 i w m Hi Em He) as [E1 E2]. split; [|done]. rewrite (le_other _ _ _ Hle); [done|]. intros [= ->]. done.
  - done.
  - intros m Hm. by apply (le_some _ _ _ Hle), L4.
  - done.
Qed.
(** No goroutine was started for a key that has one. *)
Definition exclusive s s' : Prop := ∀ i w k, sy_workers s' !! i = Some w → sy_workers s !! i = None → start_key (wk_start w) = Some k →
  c_admissionWorkers (sy_c s) !! k = None.
Lemma spawned s c' st : inv s → (unique = true → exclusive s (spawn st (with_c c' s))) → unique = true → ∀ k, start_key st = Some k → c_admissionWorkers (sy_c s) !! k = None.
Proof.
  intros Hs Hx Hu k Hk. eapply (Hx Hu (sy_next s)); [simpl; apply lookup_insert_eq| |done]. apply eq_None_not_Some. intros [w Hw].
  apply (id_next _ _ _ (wi_ids _ (in_w _ Hs))) in Hw. lia.
Qed.
Lemma dispatch_ok s : inv s → match exec Dispatch s with Next s' => (unique = true → exclusive s s') → inv s' | Blocked => True | Panic _ => False end.
Proof.
  intros Hs. simpl. destruct (sy_dispatcher s); [done|..|done].
  - pose proof (takeExplicitStart_ok scope_task limit (sy_c s) (in_c _ Hs)) as Ht. destruct (takeExplicitStart (sy_c s)) as [[[st|] c']|p]; simpl; [| |done].
    + intros Hx. destruct Ht. apply inv_spawn; [done..|]. exact (spawned s c' st Hs Hx).
    + intros _. subst. by eapply inv_ext.
  - pose proof (takeAutomaticIntent_ok scope_task limit (sy_c s) (in_c _ Hs)) as Ht. destruct (takeAutomaticIntent (sy_c s)) as [[[st|] c']|p]; simpl; [| |done].
    + intros Hx. destruct Ht as [Hc' Ht]. assert (inv (spawn st (with_c c' s))) as Hi; [apply inv_spawn; [done..|]; exact (spawned s c' st Hs Hx)|by eapply inv_ext].
    + intros _. subst. by eapply inv_ext.
Qed.
Lemma exec_other a s : inv s → legal a → a ≠ Dispatch → exec_result a s (exec a s).
Proof.
  intros Hs Ha Hd. pose proof (in_c _ Hs) as Hc. pose proof (λ l d, prepareStarts_ok scope_task limit l d (c_fresh (sy_c s)) (sy_c s) Hc (N.le_refl _)) as Hprep.
  destruct a as [| | |i a| |l|l|d l|k|t|t sid l1 l2 nodes|t l1 l2|sc|k|n| |]; simpl.
  - destruct (_ && _); [|done]. simpl. assert (inv (with_c (set_workerWake false (sy_c s)) s)) as Hi; [|by eapply inv_ext].
    apply plain_result; [done|by apply cinv_wake|]. intros b. by apply frame_wake, cframe_refl.
  - done.
  - destruct (_ && _); [|done]. simpl. by eapply inv_ext.
  - destruct (sy_workers s !! i) as [w|] eqn:Ew; [|done]. pose proof (worker_step_ok i w a s Hs Ew) as Hw.
    destruct (worker_step i w a s); simpl in *; [done|done|eauto].
  - destruct (sy_wakes s); [done|]. simpl. by apply inv_wakes.
  - specialize (Hprep l TaskPromptDeliveryAssignment). destruct (prepareStarts l _ _) as [starts c1]. simpl in Hprep. destruct Hprep as (Hc1 & Hf1 & _ & Hr & _).
    destruct (l ==? []); simpl; [eapply queued_result; [done|by apply cinv_wake|done|by apply frame_wake, cframe_refl]|].
    pose proof (enqueueStarts_ok scope_task limit _ _ _ Hc1 (ready_automatic _ _ _ Hr)) as Hq. destruct (enqueueStarts _ c1) as [c2|p]; simpl; [|done].
    destruct Hq. by eapply queued_result.
  - unfold behind_open_barrier. destruct (c_closed _); [done|].
    specialize (Hprep l TaskPromptDeliveryAssignment). destruct (prepareStarts l _ _) as [starts c1]. simpl in *. destruct Hprep as (Hc1 & Hf1 & _ & Hr & _).
    destruct (queueApprovedStarts_ok scope_task limit _ _ _ Hc1 Hr). by eapply queued_result.
  - unfold behind_open_barrier. destruct (c_closed _); [done|]. specialize (Hprep l d). destruct (prepareStarts l _ _) as [starts c1]. simpl in *. destruct Hprep as (Hc1 & Hf1 & _ & Hr & _).
    destruct (queuePreparedStarts_ok scope_task limit _ _ _ Hc1 Hr). by eapply queued_result.
  - unfold behind_open_barrier. destruct (c_closed _); [done|]. destruct (currentNodeAdmission_ok scope_task limit k (sy_c s) Hc) as (r & c' & -> & Hc' & Hf). simpl. by apply plain_result.
  - destruct (promote_section_ok scope_task limit t (sy_c s) Hc) as (r & c' & -> & Hc' & Hf). unfold in_free_lane, behind_open_barrier. destruct (c_closed _); [done|]. destruct (sy_lanes s !! t); [done|].
    simpl. assert (inv (with_c c' s)) as Hi by by apply plain_result. by eapply inv_ext.
  - apply (section_result s t _ (λ r, match r with Ok k => (ic_scopes k <>? []) || (ic_waits k <>? []) | Err _ => false end)); [done|]. by apply interrupt_section_ok.
  - apply (section_result s t _ (λ r, match r with Ok k => (ic_scopes k <>? []) || (ic_waits k <>? []) | Err _ => false end)); [done|]. by apply manual_move_section_ok.
  - destruct (finishScope_ok scope_task limit sc (sy_c s) Hc). by apply plain_result.
  - destruct (finishCurrentNode_ok scope_task limit k (sy_c s) Hc). by apply plain_result.
  - case_bool_decide as Hn; [by apply callback_ok|done].
  - destruct (c_closed _); [done|]. simpl. destruct (close_begin_ok scope_task limit (sy_c s) Hc). assert (inv (with_c (close_begin (sy_c s)) s)) as Hi by by apply plain_result. by eapply inv_ext.
  - destruct (_ && _); [|done]. simpl. destruct (close_finish_ok scope_task limit (sy_c s) Hc). by apply plain_result.
Qed.

Lemma exec_ok a s : inv s → legal a →
  match exec a s with Next s' => (unique = true → exclusive s s') → inv s' | Blocked => True | Panic p => exec_panic a s p end.
Proof.
  intros Hs Ha. assert (a = Dispatch ∨ a ≠ Dispatch) as [->|Hd] by (destruct a; auto).
  - pose proof (dispatch_ok s Hs) as Hd. by destruct (exec Dispatch s).
  - pose proof (exec_other a s Hs Ha Hd) as He. by destruct (exec a s).
Qed.

(** ** Schedules *)
Lemma inv_new c0 : NewCurrentNodeController limit = Ok c0 → inv (new_system c0).
Proof.
  intros Hn. pose proof (cinv_new scope_task limit c0 Hn) as Hc. split; [done|]. unfold NewCurrentNodeController in Hn. destruct (limit <=? 0)%Z; simplify_eq.
  split; simpl.
  - split; simpl; intros *; by rewrite ?lookup_empty.
  - intros k st. unfold reserved. simpl. rewrite !lookup_empty. by intros [?|?].
  - split; simpl; intros *; rewrite ?lookup_empty, ?elem_of_nil; done.
  - split; simpl; intros *; by rewrite ?lookup_empty.
  - intros i w kind. by rewrite lookup_empty.
Qed.
End workers.

(** The invariant holds in every reachable state. *)
Section reachable.
Context {Q : Type} `{AutomaticQueue Q} `{RangeOrder} (scope_task : ExecutionScopeID → TaskID) (limit : Z).
Inductive step (s s' : system (Q := Q)) : Prop :=
| step_exec a : legal scope_task a → exec a s = Next s' → step s s'.
Definition reachable (s : system (Q := Q)) : Prop := ∃ c0, NewCurrentNodeController limit = Ok c0 ∧ rtc step (new_system c0) s.
(** Without starts that are taken while the goroutine of their key runs. *)
Definition exclusively (s : system (Q := Q)) : Prop :=
  ∃ c0, NewCurrentNodeController limit = Ok c0 ∧ rtc (λ s s', step s s' ∧ exclusive s s') (new_system c0) s.
Lemma inv_reachable s : reachable s → inv scope_task limit false s.
Proof.
  intros (c0 & Hn & Hr). apply (inv_new scope_task limit false) in Hn. revert Hn. induction Hr as [s|s s1 s2 [a Ha E] _ IH]; intros Hi; [done|]. apply IH.
  pose proof (exec_ok scope_task limit false a s Hi Ha) as He. rewrite E in He. by apply He.
Qed.
Lemma reachable_later s s' : reachable s → rtc step s s' → reachable s'.
Proof. intros (c0 & Hn & Hr) Hs. exists c0. split; [done|]. by etransitivity. Qed.
Lemma inv_exclusively s : exclusively s → inv scope_task limit true s.
Proof.
  intros (c0 & Hn & Hr). apply (inv_new scope_task limit true) in Hn. revert Hn. induction Hr as [s|s s1 s2 [[a Ha E] Hx] _ IH]; intros Hi; [done|]. apply IH.
  pose proof (exec_ok scope_task limit true a s Hi Ha) as He. rewrite E in He. by apply He.
Qed.

(** Runs that evaluate. *)
Lemma run_steps schedule : ∀ (s s' : system (Q := Q)), run schedule s = Next s' → Forall (legal scope_task) schedule → rtc step s s'.
Proof.
  induction schedule as [|a schedule IH]; intros s s' E Hl; [injection E as <-; apply rtc_refl|]. apply Forall_cons in Hl as [Ha Hl]. simpl in E.
  destruct (exec a s) as [s1| |p] eqn:E1; [|done..]. eapply rtc_l; [by eapply step_exec|by apply IH].
Qed.
Definition exclusive_check (s s' : system (Q := Q)) : bool :=
  forallb (λ p : N * worker, bool_decide (is_Some (sy_workers s !! p.1)) ||
    match start_key (wk_start p.2) with Some k => c_admissionWorkers (sy_c s) !! k ==? None | None => true end) (map_to_list (sy_workers s')).
Lemma exclusive_checked (s s' : system (Q := Q)) : exclusive_check s s' = true → exclusive s s'.
Proof.
  unfold exclusive_check. rewrite forallb_forall. intros Hall i w k Hi Hn Hk. specialize (Hall (i, w)). rewrite <- list_elem_of_In, elem_of_map_to_list in Hall.
  specialize (Hall Hi). simpl in Hall. rewrite Hn, Hk in Hall. apply orb_true_iff in Hall as [Hb%bool_decide_eq_true|Hb%bool_decide_eq_true]; [by destruct Hb|done].
Qed.
Fixpoint run_exclusive (schedule : list action) (s : system (Q := Q)) : option (system (Q := Q)) :=
  match schedule with
  | [] => Some s
  | a :: schedule => match exec a s with Next s' => if exclusive_check s s' then run_exclusive schedule s' else None | _ => None end
  end.
Lemma run_exclusive_steps schedule : ∀ s s', run_exclusive schedule s = Some s' → Forall (legal scope_task) schedule → rtc (λ s s', step s s' ∧ exclusive s s') s s'.
Proof.
  induction schedule as [|a schedule IH]; intros s s' E Hl; [injection E as <-; apply rtc_refl|]. apply Forall_cons in Hl as [Ha Hl]. simpl in E.
  destruct (exec a s) as [s1| |p] eqn:E1; [|done..]. destruct (exclusive_check s s1) eqn:Ex; [|done].
  eapply rtc_l; [split; [by eapply step_exec|by apply exclusive_checked]|by apply IH].
Qed.
End reachable.
