(* ===== verification/AdmissionWake.v ===== *)
(** * No lost wake-up

    Whenever the dispatcher sleeps and nobody is about to wake it, nothing that
    could be admitted is waiting. *)
From Stdlib Require Import ZArith String Lia.
From stdpp Require Import gmap strings list relations.
From S2P Require Import Prelude Types CurrentState AdmissionQueue AdmissionQueueFacts AdmissionInterface Admission AdmissionSteps AdmissionFacts AdmissionStepFacts.

Lemma take_first_none_iff {A} (f : A → bool) l : take_first f l = None ↔ ∀ a, a ∈ l → f a = false.
Proof.
  induction l as [|a l IH]; simpl; [split; [by intros _ a []%elem_of_nil|done]|]. destruct (f a) eqn:E.
  - split; [done|]. intros Hl. rewrite (Hl a) in E by by left. done.
  - destruct (take_first f l) as [r|]; simpl.
    + split; [done|]. intros Hl. discriminate (proj2 IH). intros x Hx. apply Hl. by right.
    + split; [|done]. intros _ x [->|Hx]%elem_of_cons; [done|]. by apply IH.
Qed.
Lemma take_next_none_iff last avail l : take_next last avail l = None ↔ ∀ st, st ∈ l → admissible avail st = false.
Proof.
  unfold take_next. destruct last as [t|]; simpl; [|apply take_first_none_iff]. destruct (take_first _ l) as [r|] eqn:E; [|apply take_first_none_iff].
  split; [done|]. intros Hl. assert (take_first (λ s, admissible avail s && (qs_task s ==? t)) l = None) as E'; [|by rewrite E' in E].
  apply take_first_none_iff. intros st Hst. by rewrite (Hl st Hst).
Qed.

Section wake.
Context {Q : Type} `{AutomaticQueue Q} `{RangeOrder} (scope_task : ExecutionScopeID → TaskID) (limit : Z).
Implicit Types (c : CurrentNodeController (Q := Q)) (s : system (Q := Q)) (st : currentNodeQueuedStart).

(** ** What could be admitted *)
Definition explicit_waiting c : Prop :=
  (inFlightAdmissionCountLocked currentNodeAdmissionExplicitOverride c < explicitAdmissionConcurrency)%nat ∧ c_explicitQueue c ≠ [].
Definition automatic_waiting c : Prop :=
  ∃ st, st ∈ q_items (c_automaticQueue c) ∧ admissible (c_agentCapacityActive c <? c_agentConcurrency c)%Z st = true.
(** A section after which nothing new waits unless the wake-up was sent. *)
Record calm c c' : Prop := {
  cm_closed : c_closed c' = c_closed c; cm_closing : c_closing c' = c_closing c;
  cm_wake : c_workerWake c = true → c_workerWake c' = true;
  cm_explicit : explicit_waiting c' → explicit_waiting c ∨ c_workerWake c' = true;
  cm_automatic : automatic_waiting c' → automatic_waiting c ∨ c_workerWake c' = true }.
Lemma calm_refl c : calm c c.
Proof. split; auto. Qed.
Lemma calm_trans c1 c2 c3 : calm c1 c2 → calm c2 c3 → calm c1 c3.
Proof.
  intros [A1 A2 A3 A4 A5] [B1 B2 B3 B4 B5]. split; [congruence..|auto| |].
  - intros [[?|?]%A4|?]%B4; auto.
  - intros [[?|?]%A5|?]%B5; auto.
Qed.
Lemma calm_woken c c' : c_closed c' = c_closed c → c_closing c' = c_closing c → c_workerWake c' = true → calm c c'.
Proof. split; auto. Qed.
(** The same or fewer starts and the same capacity. *)
Lemma calm_fewer c c' : c_closed c' = c_closed c → c_closing c' = c_closing c → c_workerWake c' = c_workerWake c → c_admissionWorkers c' = c_admissionWorkers c →
  c_agentCapacityActive c' = c_agentCapacityActive c → c_agentConcurrency c' = c_agentConcurrency c →
  (∀ st, st ∈ c_explicitQueue c' → st ∈ c_explicitQueue c) → (∀ st, st ∈ q_items (c_automaticQueue c') → st ∈ q_items (c_automaticQueue c)) → calm c c'.
Proof.
  intros E1 E2 E3 E4 E5 E6 Hx Ha. split; [done|done|by rewrite E3| |].
  - unfold explicit_waiting, inFlightAdmissionCountLocked. rewrite E4. intros [? Hne]. left. split; [done|]. destruct (c_explicitQueue c') as [|st l]; [done|].
    intros E. rewrite E in Hx. by destruct (proj1 (elem_of_nil st) (Hx st (list_elem_of_here _ _))).
  - unfold automatic_waiting. rewrite E5, E6. intros (st & Hst & ?). left. eauto.
Qed.

Lemma calm_prepare l d : ∀ c, calm c (prepareStarts l d c).2.
Proof.
  induction l as [|i l IH]; intros c; [apply calm_refl|]. simpl. specialize (IH (set_fresh (c_fresh c + 1)%N (set_completions (<[c_fresh c := None]> (c_completions c)) c))).
  destruct (prepareStarts l d _) as [starts c']. simpl in *. eapply calm_trans; [|exact IH]. by apply calm_fewer.
Qed.
Lemma calm_completion st c : calm c (ensure_completion st c).2.
Proof. unfold ensure_completion. destruct (qs_completion st); [apply calm_refl|]. by apply calm_fewer. Qed.
Lemma calm_explicit st c : calm c (queueExplicitStartLocked st c).2.
Proof.
  unfold queueExplicitStartLocked. destruct (_ <>? _); [apply calm_refl|]. pose proof (calm_completion st c) as Hc. destruct (ensure_completion st c) as [st' c']. simpl in Hc.
  destruct (CurrentNodeReference_Key _); [|done]. destruct (currentNodeOwnedLocked _ c'); [done|]. eapply calm_trans; [exact Hc|]. by apply calm_woken.
Qed.
Lemma calm_automatic st c r : queueAutomaticStartLocked st c = Ok r → calm c r.2.
Proof.
  unfold queueAutomaticStartLocked. destruct (negb _); [intros [= <-]; apply calm_refl|]. pose proof (calm_completion st c) as Hc.
  destruct (ensure_completion st c) as [st' c']. simpl in Hc. destruct (CurrentNodeReference_Key _); [|by intros [= <-]].
  destruct (currentNodeOwnedLocked _ c'); [by intros [= <-]|]. destruct (q_append _ _); [|done]. intros [= <-]. eapply calm_trans; [exact Hc|]. by apply calm_woken.
Qed.
Lemma calm_workerErr c e : calm c (set_workerErr e c).
Proof. by apply calm_fewer. Qed.
Lemma calm_enqueue_loop l : ∀ c c', enqueueStarts_loop l c = Ok c' → calm c c'.
Proof.
  induction l as [|st l IH]; intros c c'; [intros [= <-]; apply calm_refl|]. simpl.
  destruct (if isAutomatic (qs_policy st) then _ else _) as [[e c1]|p] eqn:E; simpl; [|done].
  assert (calm c c1) as H1'.
  { destruct (isAutomatic _); [by apply calm_automatic in E|]. injection E as E. pose proof (calm_explicit st c) as Hc. by rewrite E in Hc. }
  intros Hl%IH. eapply calm_trans; [exact H1'|]. eapply calm_trans; [|exact Hl]. destruct e; [apply calm_workerErr|apply calm_refl].
Qed.
Lemma calm_enqueue l c c' : enqueueStarts l c = Ok c' → calm c c'.
Proof.
  unfold enqueueStarts. repeat case_if_goal; [intros [= <-]; apply calm_refl..|]. destruct (enqueueStarts_loop l c) as [c1|p] eqn:E; simpl; [|done].
  intros [= <-]. eapply calm_trans; [by eapply calm_enqueue_loop|]. by apply calm_woken.
Qed.
Lemma calm_approved l : ∀ c, calm c (queueApprovedStarts l c).2.
Proof.
  induction l as [|st l IH]; intros c; [apply calm_refl|]. simpl. pose proof (calm_explicit st c) as Hc. destruct (queueExplicitStartLocked st c) as [[e|] c1]; [done|].
  eapply calm_trans; [exact Hc|apply IH].
Qed.
Lemma calm_prepared l c : calm c (queuePreparedStarts l c).2.
Proof.
  unfold queuePreparedStarts. pose proof (calm_approved l c) as Hc. destruct (queueApprovedStarts l c) as [[e|] c1]; [done|]. eapply calm_trans; [exact Hc|]. by apply calm_woken.
Qed.
Lemma calm_watch k c r : currentNodeAdmissionLocked k c = Ok r → calm c r.2.
Proof.
  unfold currentNodeAdmissionLocked. destruct (find_key _ _) as [[st|]|]; simpl; [intros [= <-]; apply calm_refl| |done].
  destruct (q_remove_key _ _) as [[[st q]|]|]; [intros [= <-]; by apply calm_woken| |done]. repeat case_match; intros [= <-]; apply calm_refl.
Qed.
Lemma calm_fence f c : calm c (finishFence f c).
Proof. unfold finishFence. repeat case_match; try apply calm_refl. by apply calm_fewer. Qed.
Lemma calm_scope sc c : calm c (finishScope sc c).
Proof. unfold finishScope. eapply calm_trans; [|apply calm_fence]. by apply calm_fewer. Qed.
Lemma calm_node k c : calm c (finishCurrentNode k c).
Proof. unfold finishCurrentNode. eapply calm_trans; [|apply calm_fence]. by apply calm_fewer. Qed.
Lemma calm_resolve o out c : calm c (resolve o out c).
Proof. destruct (resolve_eq o out c) as (m & -> & _). by apply calm_fewer. Qed.
Lemma calm_interrupted t f c c' : interrupted t f c c' → calm c c'.
Proof.
  intros [I1 I2 _ _ I4 (I5 & I6 & _) _ (I7 & I8 & _ & I9)]. apply calm_fewer; [done..| |].
  - rewrite I1. by intros st [? _]%elem_of_others.
  - rewrite I2. by intros st [? _]%elem_of_others.
Qed.

(** ** Owed wake-ups *)
(** A goroutine that released its capacity and is about to wake the dispatcher. *)
Definition debtor s : Prop := ∃ i w f h, sy_workers s !! i = Some w ∧ wk_phase w = Releasing f h ∧ isAutomatic (qs_policy (wk_start w)) = true.
Definition owed s : Prop := c_workerWake (sy_c s) = true ∨ (0 < sy_wakes s)%nat ∨ debtor s.
Definition settled s : Prop :=
  match sy_dispatcher s with
  | Idle => ¬ explicit_waiting (sy_c s) ∧ ¬ automatic_waiting (sy_c s)
  | TryAutomatic => ¬ explicit_waiting (sy_c s)
  | _ => True
  end.
Definition wake_ok s : Prop := c_closed (sy_c s) = false → c_closing (sy_c s) = false → owed s ∨ settled s.

Lemma wake_calm s s' : wake_ok s → calm (sy_c s) (sy_c s') → sy_dispatcher s' = sy_dispatcher s → (sy_wakes s ≤ sy_wakes s')%nat → (debtor s → owed s') → wake_ok s'.
Proof.
  intros Hw [C1 C2 C3 C4 C5] Ed Hle Hd Hcl Hcg. rewrite C1 in Hcl. rewrite C2 in Hcg. destruct (Hw Hcl Hcg) as [[Ho|[Ho|Ho]]|Hs].
  - left. left. auto.
  - left. right. left. lia.
  - left. auto.
  - destruct (c_workerWake (sy_c s')) eqn:Ew; [left; by left|]. right. unfold settled in *. rewrite Ed. destruct (sy_dispatcher s); [..|done].
    + destruct Hs as [S1 S2]. split; [intros [?|?]%C4; [done|congruence]|intros [?|?]%C5; [done|congruence]].
    + done.
    + intros [?|?]%C4; [done|congruence].
Qed.
Lemma wake_owed s' : (c_closed (sy_c s') = false → c_closing (sy_c s') = false → owed s') → wake_ok s'.
Proof. intros Ho Hcl Hcg. left. auto. Qed.
Lemma wake_with_c s c' : wake_ok s → calm (sy_c s) c' → wake_ok (with_c c' s).
Proof. intros Hw Hc. eapply wake_calm; [done|done|done|done|]. intros Hd. right. by right. Qed.
Lemma wake_with_owe s c' b : wake_ok s → calm (sy_c s) c' → wake_ok (owe_wake b (with_c c' s)).
Proof. intros Hw Hc. eapply wake_calm; [done|done|done|simpl; destruct b; lia|]. intros Hd. right. by right. Qed.
Section goroutine.
Context (s : system (Q := Q)) (i : N) (w : worker) (Hs : wake_ok s) (Hw : sy_workers s !! i = Some w).
Lemma debtor_go st p c' : (∀ f h, wk_phase w ≠ Releasing f h) → debtor s → debtor (go_on i st p (with_c c' s)).
Proof using Hw.
  intros Hne (j & w' & f & h & Hj & Ep & Ha). exists j, w', f, h. split_and!; [|done..]. simpl. rewrite lookup_insert_ne; [done|]. intros <-. simplify_eq. by destruct (Hne f h).
Qed.
Lemma wake_go st p : (∀ f h, wk_phase w ≠ Releasing f h) → wake_ok (go_on i st p s).
Proof using Hs Hw. intros Hne. eapply wake_calm; [done|apply calm_refl|done|done|]. intros Hd. right. right. by apply (debtor_go st p (sy_c s)). Qed.
Lemma wake_go_calm st p c' : (∀ f h, wk_phase w ≠ Releasing f h) → calm (sy_c s) c' → wake_ok (go_on i st p (with_c c' s)).
Proof using Hs Hw. intros Hne Hc. eapply wake_calm; [done|done|done|done|]. intros Hd. right. right. by apply debtor_go. Qed.
End goroutine.
Lemma wake_ext s s' : wake_ok s → sy_c s' = sy_c s → sy_dispatcher s' = sy_dispatcher s → sy_workers s' = sy_workers s → (sy_wakes s ≤ sy_wakes s')%nat → wake_ok s'.
Proof.
  intros Hw E1 E2 E3 E4. eapply wake_calm; [done|rewrite E1; apply calm_refl|done|done|]. intros (i & w & f & h & Hi & ?). right. right. exists i, w, f, h. by rewrite E3.
Qed.

Lemma calm_delete k p c : calm c (deleteAdmissionReservationLocked k p c).
Proof. unfold deleteAdmissionReservationLocked. destruct (isAutomatic p); by apply calm_fewer. Qed.
Lemma calm_admit kind k st c r : admit_section kind k st c = Ok r → calm c r.2.
Proof.
  unfold admit_section. destruct (ensureTaskAvailableLocked _ _); [intros [= <-]; apply calm_refl|].
  destruct (admissionReservationLocked _ _ _); [|intros [= <-]; apply calm_refl]. destruct (_ <>? _); [intros [= <-]; apply calm_refl|].
  pose proof (calm_delete k (qs_policy st) c) as Hd. destruct kind; simpl; [|by intros [= <-]].
  unfold transitionAgentCapacityLocked. destruct (qs_agentCapacityLease st) as [n|]; simpl; [|by intros [= <-]]. destruct (_ <>? _); simpl; [done|].
  intros [= <-]. eapply calm_trans; [exact Hd|]. by apply calm_fewer.
Qed.
Lemma wake_worker i w a s s' : inv scope_task limit false s → wake_ok s → sy_workers s !! i = Some w → worker_step i w a s = Next s' → wake_ok s'.
Proof.
  intros Hi Hk Hw. unfold worker_step. destruct (id_key _ _ _ _ (wi_ids _ _ (in_w _ _ _ _ Hi)) i w Hw) as [k Ek]. rewrite (proj1 (start_key_Ok _ _) Ek).
  assert (∀ n, qs_agentCapacityLease (wk_start w) = Some n → isAutomatic (qs_policy (wk_start w)) = true) as Hauto.
  { intros n. by eapply (ls_automatic _ _ _ (wi_leases _ _ (in_w _ _ _ _ Hi))). }
  destruct (wk_phase w) as [|kind|kind|kind|kind|kind f|kind|e admitted|f handle|f handle|e admitted|e admitted|e admitted|e admitted|e reported|e reported|err handle| |] eqn:Ep;
    try (assert (∀ f h, wk_phase w ≠ Releasing f h) as Hne by (intros; congruence)).
  - destruct a; try done. destruct (admit_prepare _ _ _) as [[kind st]|e]; intros [= <-]; by apply (wake_go s i w).
  - destruct a; try done. destruct (_ || _); intros [= <-]; by apply (wake_go s i w).
  - destruct a; try done; [destruct (sy_lanes s !! _); [done|]|]; intros [= <-]; [|by apply (wake_go s i w)].
    apply (wake_ext (go_on i (wk_start w) (Inside kind) s)); try done. by apply (wake_go s i w).
  - destruct a; try done. destruct (admit_section _ _ _ _) as [r|p] eqn:E; simpl; [|done]. intros [= <-]. eapply wake_go_calm; [done..|]. by eapply calm_admit.
  - destruct kind, a; try done.
    + destruct (durable_admission _ _) as [e|p]; simpl; [|done]. intros [= <-]. by apply (wake_go s i w).
    + destruct (publish _ _) as [e|p']; simpl; [|done]. intros [= <-]. by apply (wake_go s i w).
  - destruct a; try done. intros [= <-]. apply (wake_ext (go_on i (wk_start w) (match f with Some (e, admitted) => mutation_failed kind e admitted | None => Starting kind end) s)); try done.
    by apply (wake_go s i w).
  - destruct a; try done. intros E. set (s1 := match kind with AdmitAgent => _ | AdmitScript => s end) in E.
    assert (∃ b p, s' = owe_wake b (go_on i (wk_start w) p s1)) as (b & p & ->).
    { destruct kind, o; simplify_eq; eauto; eexists false, _; done. }
    assert (sy_c s1 = sy_c s ∧ sy_dispatcher s1 = sy_dispatcher s ∧ sy_workers s1 = sy_workers s ∧ sy_wakes s1 = sy_wakes s) as (X1 & X2 & X3 & X4).
    { subst s1. destruct kind; [by destruct (qs_agentCapacityLease _)|done]. }
    apply (wake_ext (go_on i (wk_start w) p s)); simpl; [by apply (wake_go s i w)|done|done|by rewrite X3|destruct b; lia].
  - destruct a; try done. destruct (qs_agentCapacityLease (wk_start w)) as [n|] eqn:El.
    + destruct (releaseAgentCapacityLocked _ _) as [c'|p]; simpl; [|done]. intros [= <-]. apply wake_owed. intros _ _. right. right.
      exists i. eexists _, _, _. simpl. rewrite lookup_insert_eq. split_and!; [done..|]. by eapply Hauto.
    + simpl. intros [= <-]. by apply (wake_go_calm s i w); [..|apply calm_refl].
  - destruct a; try done. destruct (releaseReservation_ok scope_task limit k (qs_policy (wk_start w)) (qs_agentCapacityLease (wk_start w)) (sy_c s) (in_c _ _ _ _ Hi)) as (wake & c' & E & _ & _ & _ & Hwake & _).
    { intros n. by eapply own_lease. }
    rewrite E. simpl. intros [= <-]. destruct (isAutomatic (qs_policy (wk_start w))) eqn:Ea.
    + rewrite (Hwake eq_refl). apply wake_owed. simpl. intros Hcl _. right. left. assert (c_closed (sy_c s) = false) as ->; [|simpl; lia].
      unfold releaseReservation in E. destruct (qs_agentCapacityLease (wk_start w)) as [n|]; simpl in E; [|simplify_eq; unfold deleteAdmissionReservationLocked in Hcl; by destruct (isAutomatic _)].
      destruct (_ ==? _); simpl in E; [|simplify_eq; unfold deleteAdmissionReservationLocked in Hcl; by destruct (isAutomatic _)].
      unfold releaseAgentCapacityLocked in E. repeat case_match; simplify_eq/=; unfold deleteAdmissionReservationLocked in Hcl; by destruct (isAutomatic _).
    + destruct (qs_agentCapacityLease (wk_start w)) as [n|]; [discriminate (Hauto n eq_refl)|]. unfold releaseReservation in E. simpl in E. simplify_eq.
      eapply wake_calm; [done|apply calm_delete|done|simpl; destruct (_ && _); lia|]. intros (j & w' & f' & h' & Hj & Ep' & Ha'). right. right.
      exists j, w', f', h'. split_and!; [|done..]. simpl. rewrite lookup_insert_ne; [done|]. intros <-. simplify_eq. congruence.
  - destruct a; try done. destruct f as [[e admitted]|]; [destruct (_ || _)|]; intros [= <-]; by apply (wake_go s i w).
  - destruct a; try done. destruct (_ || _); intros [= <-]; by apply (wake_go s i w).
  - destruct a; try done. destruct (_ || _); intros [= <-]; by apply (wake_go s i w).
  - destruct a; try done; [destruct (sy_lanes s !! _); [done|]|]; intros [= <-]; [|by apply (wake_go s i w)].
    apply (wake_ext (go_on i (wk_start w) (Recovering e admitted) s)); try done. by apply (wake_go s i w).
  - destruct a; try done. destruct o; [| |destruct (isAutomatic _); [done|]]; intros [= <-]; by apply (wake_go s i w).
  - destruct a; try done. intros [= <-].
    apply (wake_ext (go_on i (wk_start w) (match reported with Some reported => Reporting e reported | None => Resolving (Some e) None end) s)); try done.
    apply (wake_go s i w); [done|done|]. by destruct reported.
  - destruct a; try done. intros [= <-]. apply (wake_go_calm s i w); [done..|]. destruct (_ || _); [apply calm_refl|apply calm_workerErr].
  - destruct a; try done. intros [= <-]. apply (wake_go_calm s i w); [done..|]. apply calm_resolve.
  - destruct a; try done. intros [= <-]. apply (wake_go_calm s i w); [done..|]. apply calm_node.
  - destruct a; try done. unfold finishAdmissionWorker. rewrite (proj1 (start_key_Ok _ _) Ek). destruct (c_admissionWorkers (sy_c s) !! k); [|done]. destruct (_ || _); [done|]. simpl. intros [= <-].
    apply wake_owed. simpl. intros -> _. right. left. simpl. lia.
Qed.

(** ** Every step *)
Lemma explicit_taken c c' : takeExplicitStart c = Ok (None, c') → c' = c ∧ (c_closed c = true ∨ ¬ explicit_waiting c).
Proof.
  unfold takeExplicitStart. destruct (c_closed c || _) eqn:E.
  - intros [= ->]. split; [done|]. apply orb_true_iff in E as [E|E%Nat.leb_le]; [by left|]. right. intros [? _]. lia.
  - destruct (c_explicitQueue c) as [|st l] eqn:Eq; [intros [= ->]; split; [done|right; by intros [_ ?]]|].
    destruct (CurrentNodeReference_Key _); [|done]. by destruct (ensure_completion _ _).
Qed.
Lemma automatic_taken c c' : cinv scope_task limit c → takeAutomaticIntent c = Ok (None, c') → c' = c ∧ (c_closed c = true ∨ ¬ automatic_waiting c).
Proof.
  intros Hc. rewrite takeAutomaticIntent_eq. pose proof (ci_queues _ _ _ Hc) as [Q1 _ _ _]. destruct (c_closed c || _) eqn:E.
  - intros [= ->]. split; [done|]. apply orb_true_iff in E as [E|E%bool_decide_eq_true]; [by left|]. right. intros (st & Hst & _). rewrite q_len_law in E by done.
    destruct (q_items _); [by apply elem_of_nil in Hst|]. simpl in E. lia.
  - set (avail := (_ <? _)%Z). pose proof (q_take_law (c_lastAutomaticTask c) avail (c_automaticQueue c) Q1) as Ht.
    destruct (q_take _ avail _) as [[[st q]|]|]; simpl in Ht; [by destruct (CurrentNodeReference_Key _)| |done].
    intros [= ->]. split; [done|]. right. intros (st & Hst & Hadm). rewrite take_next_none_iff in Ht. subst avail. by rewrite (Ht st Hst) in Hadm.
Qed.
Lemma wake_dispatch s s' : inv scope_task limit false s → wake_ok s → exec Dispatch s = Next s' → wake_ok s'.
Proof.
  intros Hi Hk. simpl. destruct (sy_dispatcher s) eqn:Ed; [done|..|done].
  - destruct (takeExplicitStart (sy_c s)) as [[[st|] c']|p] eqn:E; simpl; [| |done]; intros [= <-].
    + intros _ _. right. unfold settled. simpl. by rewrite Ed.
    + apply explicit_taken in E as [-> [E|E]]; intros Hcl Hcg; simpl in *; [congruence|]. by right.
  - destruct (takeAutomaticIntent (sy_c s)) as [[[st|] c']|p] eqn:E; simpl; [| |done]; intros [= <-].
    + intros _ _. by right.
    + apply automatic_taken in E as [-> E]; [|apply Hi]. intros Hcl Hcg. simpl in *. destruct E as [E|E]; [congruence|].
      destruct (Hk Hcl Hcg) as [Ho|Hset]; [by left|]. right. unfold settled in *. rewrite Ed in Hset. by split.
Qed.
Lemma wake_promote t s r c' : inv scope_task limit false s → wake_ok s → promote_section t (sy_c s) = Ok (r, c') →
  wake_ok (owe_wake (match r with Ok promoted => promoted <>? [] | Err _ => false end) (with_c c' s)).
Proof.
  intros Hi Hk. unfold promote_section. pose proof (ci_queues _ _ _ (in_c _ _ _ _ Hi)) as [Q1 _ Q3 _].
  destruct (c_closed (sy_c s)); [intros [= <- <-]; apply wake_with_owe; [done|apply calm_refl]|].
  destruct (q_remove_task_law t (c_automaticQueue (sy_c s)) Q1) as (q & -> & Hq & Hitems & _).
  destruct (promote_loop_eq (of_task t (q_items (c_automaticQueue (sy_c s)))) (set_automaticQueue q (sy_c s))) as (K1 & K2 & E & _).
  { intros st [_ Hst]%list_elem_of_filter. by apply (mi_keyed _ _ Q3). }
  rewrite E. intros [= <- <-]. destruct (of_task t (q_items (c_automaticQueue (sy_c s)))) as [|st l] eqn:El.
  - apply wake_with_owe; [done|]. apply calm_fewer; simpl; try done.
    + intros st. by rewrite app_nil_r.
    + rewrite Hitems. by intros st [? _]%elem_of_others.
  - apply wake_owed. intros _ _. right. left. simpl. lia.
Qed.
Lemma wake_section t s r (f : result admit_error interrupt_cleanup → bool) s' : wake_ok s → section_ok scope_task limit t (sy_c s) r →
  in_free_lane t s (lift r (λ r, Next (owe_wake (f r.1) (with_c r.2 s)))) = Next s' → wake_ok s'.
Proof.
  intros Hk (x & c' & -> & _ & _ & Hc). unfold in_free_lane, behind_open_barrier. destruct (c_closed _); [done|]. destruct (sy_lanes s !! t); [done|]. simpl. intros [= <-].
  apply wake_with_owe; [done|]. destruct Hc as [->|[g Hg]]; [apply calm_refl|by eapply calm_interrupted].
Qed.
Lemma wake_callback n s s' : lift (releaseAgentCapacity (Some n) (sy_c s)) (λ r, Next (owe_wake r.1 (with_c r.2 s))) = Next s' → wake_ok s'.
Proof.
  unfold releaseAgentCapacity. destruct (releaseAgentCapacityLocked (Some n) (sy_c s)) as [c'|p]; simpl; [|done]. intros [= <-].
  apply wake_owed. simpl. intros -> ->. right. left. simpl. lia.
Qed.
Lemma wake_exec a s s' : inv scope_task limit false s → legal scope_task a → wake_ok s → exec a s = Next s' → wake_ok s'.
Proof.
  intros Hi Ha Hk. destruct a as [| | |i a| |l|l|d l|k|t|t sid l1 l2 nodes|t l1 l2|sc|k|n| |]; [simpl|by apply wake_dispatch|simpl..].
  - destruct (_ && _); [|done]. intros [= <-] _ _. by right.
  - destruct (_ && _); [|done]. intros [= <-] _ _. by right.
  - destruct (sy_workers s !! i) as [w|] eqn:Ew; [|done]. by apply wake_worker.
  - destruct (sy_wakes s); [done|]. intros [= <-]. apply wake_owed. intros _ _. by left.
  - pose proof (calm_prepare l TaskPromptDeliveryAssignment (sy_c s)) as Hp. destruct (prepareStarts l _ _) as [starts c1]. simpl in Hp.
    destruct (l ==? []); [intros [= <-]; apply wake_with_c; [done|]; eapply calm_trans; [exact Hp|by apply calm_woken]|].
    destruct (enqueueStarts _ c1) as [c2|p] eqn:E; simpl; [|done]. intros [= <-]. apply wake_with_c; [done|]. eapply calm_trans; [exact Hp|by eapply calm_enqueue].
  - unfold behind_open_barrier. destruct (c_closed _); [done|].
    pose proof (calm_prepare l TaskPromptDeliveryAssignment (sy_c s)) as Hp. destruct (prepareStarts l _ _) as [starts c1]. intros [= <-].
    apply wake_with_c; [done|]. eapply calm_trans; [exact Hp|apply calm_approved].
  - unfold behind_open_barrier. destruct (c_closed _); [done|]. pose proof (calm_prepare l d (sy_c s)) as Hp. destruct (prepareStarts l _ _) as [starts c1]. intros [= <-].
    apply wake_with_c; [done|]. eapply calm_trans; [exact Hp|apply calm_prepared].
  - unfold behind_open_barrier. destruct (c_closed _); [done|]. destruct (currentNodeAdmissionLocked k (sy_c s)) as [r|p] eqn:E; simpl; [|done]. intros [= <-]. apply wake_with_c; [done|]. by eapply calm_watch.
  - unfold in_free_lane, behind_open_barrier. destruct (c_closed _); [done|]. destruct (sy_lanes s !! t); [done|]. destruct (promote_section t (sy_c s)) as [[r c']|p] eqn:E; simpl; [|done].
    intros [= <-]. by eapply wake_promote.
  - apply (wake_section t s _ (λ r, match r with Ok k => (ic_scopes k <>? []) || (ic_waits k <>? []) | Err _ => false end)); [done|]. by apply interrupt_section_ok, Ha; apply Hi.
  - apply (wake_section t s _ (λ r, match r with Ok k => (ic_scopes k <>? []) || (ic_waits k <>? []) | Err _ => false end)); [done|]. by apply manual_move_section_ok, Ha; apply Hi.
  - intros [= <-]. apply wake_with_c; [done|apply calm_scope].
  - intros [= <-]. apply wake_with_c; [done|apply calm_node].
  - case_bool_decide; [|done]. exact (wake_callback n s s').
  - destruct (c_closed _) eqn:Ec; [done|]. intros [= <-] _ Hcg. unfold close_begin in Hcg. simpl in Hcg. by rewrite Ec in Hcg.
  - destruct (_ && _); [|done]. intros [= <-] Hcl. simpl in Hcl. destruct (close_finish_eq (sy_c s)) as (m & E & _). by rewrite E in Hcl.
Qed.
Lemma wake_new c0 : NewCurrentNodeController (Q := Q) (c_agentConcurrency c0) = Ok c0 → wake_ok (new_system c0).
Proof.
  unfold NewCurrentNodeController. destruct (_ <=? _)%Z; [done|]. intros [= <-] _ _. right. simpl. split; [by intros [_ ?]|]. intros (st & Hst & _). simpl in Hst.
  destruct (q_new_law (Q := Q)) as (_ & E & _). rewrite E in Hst. by apply elem_of_nil in Hst.
Qed.
Lemma wake_reachable s : reachable scope_task limit s → wake_ok s.
Proof.
  intros Hr. destruct Hr as (c0 & Hn & Hr). assert (wake_ok (new_system c0)) as Hk.
  { unfold NewCurrentNodeController in Hn. destruct (limit <=? 0)%Z eqn:E; [done|]. apply wake_new. injection Hn as <-. unfold NewCurrentNodeController. simpl. by rewrite E. }
  apply (inv_new scope_task limit false) in Hn. revert Hn Hk. induction Hr as [s|s s1 s2 [a Ha E] _ IH]; intros Hi Hk; [done|]. apply IH.
  - pose proof (exec_ok scope_task limit false a s Hi Ha) as He. rewrite E in He. by apply He.
  - by eapply wake_exec.
Qed.

(** The dispatcher sleeps and no wake-up is on its way. *)
Definition about_to_wake (w : worker) : bool := match wk_phase w with Releasing _ _ => isAutomatic (qs_policy (wk_start w)) | _ => false end.
Definition at_rest s : bool :=
  (sy_dispatcher s ==? Idle) && negb (c_workerWake (sy_c s)) && (sy_wakes s =? 0)%nat && forallb (λ p : N * worker, negb (about_to_wake p.2)) (map_to_list (sy_workers s)).
Lemma rest_not_owed s : at_rest s = true → ¬ owed s ∧ sy_dispatcher s = Idle.
Proof.
  unfold at_rest. intros Hr. repeat (apply andb_true_iff in Hr as [Hr ?]). bool_simp. rewrite forallb_forall in *. split; [|done].
  intros [E|[E|(i & w & f & h & Hi & Ep & Ha)]]; [congruence|by destruct (sy_wakes s); [lia|]|].
  match goal with Hall : ∀ x, List.In x (map_to_list _) → _ |- _ => specialize (Hall (i, w)) end.
  match goal with Hall : List.In _ _ → _ |- _ => rewrite <- list_elem_of_In, elem_of_map_to_list in Hall; specialize (Hall Hi) end.
  unfold about_to_wake in *. simpl in *. by rewrite Ep, Ha in *.
Qed.
End wake.
