(* ===== verification/AdmissionAnswer.v ===== *)
(** * Waiting for an admission is answered

    A caller that was given the completion of an admission to wait for is
    answered: the completion stays on its way, in the explicit queue or with the
    goroutine of its start, until it is resolved. *)
From Stdlib Require Import ZArith String Lia.
From stdpp Require Import gmap strings list relations.
From S2P Require Import Prelude Types CurrentState AdmissionQueue AdmissionQueueFacts AdmissionInterface Admission AdmissionSteps AdmissionFacts AdmissionStepFacts.

Section answer.
Context {Q : Type} `{AutomaticQueue Q} `{RangeOrder} (scope_task : ExecutionScopeID → TaskID) (limit : Z).
Implicit Types (c : CurrentNodeController (Q := Q)) (s : system (Q := Q)) (st : currentNodeQueuedStart) (n : N) (d : drained (Q := Q)).

(** ** Completions *)
Definition known c n : Prop := is_Some (c_completions c !! n).
Definition answered c n : Prop := ∃ out, c_completions c !! n = Some (Some out).
Definition in_explicit c n : Prop := ∃ st, st ∈ c_explicitQueue c ∧ qs_completion st = Some n.
Definition bounded c : Prop := ∀ n, known c n → (n < c_fresh c)%N.
(** A closed controller has no queued start. *)
Definition shut c : Prop := c_closed c = true → c_explicitQueue c = [].
(** A section that loses no completion. *)
Record keeps c c' : Prop := {
  kp_bounded : bounded c → bounded c';
  kp_known : bounded c → ∀ n, known c n → known c' n;
  kp_answered : bounded c → ∀ n, answered c n → answered c' n;
  kp_explicit : bounded c → ∀ n, known c n → in_explicit c n → in_explicit c' n ∨ answered c' n;
  kp_shut : shut c → shut c' }.
Lemma keeps_refl c : keeps c c.
Proof. split; auto. Qed.
Lemma keeps_trans c1 c2 c3 : keeps c1 c2 → keeps c2 c3 → keeps c1 c3.
Proof.
  intros [A1 A2 A3 A4 A5] [B1 B2 B3 B4 B5]. split; [auto..| |auto]. intros Hb n Hk He. destruct (A4 Hb n Hk He) as [He'|Ha]; [|right; auto]. auto.
Qed.
(** Nothing about completions changed; starts may have been added. *)
Lemma keeps_quiet c c' : c_completions c' = c_completions c → (c_fresh c ≤ c_fresh c')%N → c_closed c' = c_closed c →
  (∀ st, st ∈ c_explicitQueue c → ∃ st', st' ∈ c_explicitQueue c' ∧ qs_completion st' = qs_completion st) → (shut c → shut c') → keeps c c'.
Proof.
  intros E1 E2 E3 E4 E5. unfold bounded, known, answered, in_explicit. split; rewrite ?E1; auto.
  - intros Hb n Hn. specialize (Hb n). unfold known in *. rewrite E1 in *. specialize (Hb Hn). lia.
  - intros _ n. unfold known. by rewrite E1.
  - intros _ n. unfold answered. by rewrite E1.
  - intros _ n _ (st & Hst & En). left. destruct (E4 st Hst) as (st' & ? & ?). exists st'. split; [done|congruence].
Qed.
Lemma keeps_same c c' : c_completions c' = c_completions c → (c_fresh c ≤ c_fresh c')%N → c_closed c' = c_closed c → c_explicitQueue c' = c_explicitQueue c → keeps c c'.
Proof. intros E1 E2 E3 E4. apply keeps_quiet; [done..| |]; unfold shut; rewrite E4; [eauto|by rewrite E3]. Qed.
Lemma keeps_added c c' : c_completions c' = c_completions c → (c_fresh c ≤ c_fresh c')%N → c_closed c' = c_closed c → c_closed c = false →
  (∀ st, st ∈ c_explicitQueue c → st ∈ c_explicitQueue c') → keeps c c'.
Proof. intros E1 E2 E3 E4 E5. apply keeps_quiet; [done..|eauto|]. intros _ Hc. congruence. Qed.
Lemma known_insert c m n o : c_completions c !! n = None → m = <[n := o]> (c_completions c) → ∀ c', c_completions c' = m →
  (∀ x, known c x → known c' x) ∧ (∀ x, answered c x → answered c' x) ∧ known c' n.
Proof.
  intros En -> c' E. unfold known, answered. rewrite E. split_and!; [intros x Hx..|].
  - destruct (decide (x = n)) as [->|]; [rewrite lookup_insert_eq; eauto|by rewrite lookup_insert_ne].
  - destruct (decide (x = n)) as [->|]; [by destruct Hx as [? ?]; simplify_eq|by rewrite lookup_insert_ne].
  - rewrite lookup_insert_eq. eauto.
Qed.
Lemma keeps_completion c : keeps c (newCurrentNodeAdmissionCompletion c).2 ∧ (bounded c → known (newCurrentNodeAdmissionCompletion c).2 (c_fresh c)).
Proof.
  assert (bounded c → c_completions c !! c_fresh c = None) as Hfresh.
  { intros Hb. apply eq_None_not_Some. intros Hk. specialize (Hb _ Hk). lia. }
  pose proof (λ Hb, known_insert c _ (c_fresh c) None (Hfresh Hb) eq_refl (newCurrentNodeAdmissionCompletion c).2 eq_refl) as Hi.
  split; [|intros Hb; apply (Hi Hb)]. split.
  - intros Hb n Hn. unfold known in Hn. simpl in *. apply lookup_insert_is_Some in Hn as [<-|[_ Hn]]; [lia|]. specialize (Hb n Hn). lia.
  - intros Hb. apply (Hi Hb).
  - intros Hb. apply (Hi Hb).
  - intros _ n _ He. by left.
  - done.
Qed.
(** ** Resolution *)
Lemma resolve_spec o out c : (∀ n, known (resolve o out c) n ↔ known c n) ∧ (∀ n, answered c n → answered (resolve o out c) n) ∧
  (∀ n, o = Some n → known c n → answered (resolve o out c) n) ∧ c_explicitQueue (resolve o out c) = c_explicitQueue c ∧
  c_fresh (resolve o out c) = c_fresh c ∧ c_closed (resolve o out c) = c_closed c.
Proof.
  unfold resolve, known, answered. destruct o as [m|]; [|done]. destruct (c_completions c !! m) as [[x|]|] eqn:E; simpl.
  - split_and!; try done. intros n [= <-] _. eauto.
  - split_and!; try done; intros n; (destruct (decide (m = n)) as [<-|]; [rewrite lookup_insert_eq|rewrite lookup_insert_ne by done]).
    + rewrite E. split; eauto.
    + done.
    + intros _. eauto.
    + done.
    + intros _ _. eauto.
    + intros [= ?]. done.
  - split_and!; try done. intros n [= <-] [? ?]. congruence.
Qed.
Lemma keeps_resolve o out c : keeps c (resolve o out c).
Proof.
  destruct (resolve_spec o out c) as (R1 & R2 & _ & R4 & R5 & R6). split.
  - intros Hb n Hn%R1. rewrite R5. auto.
  - intros _ n. apply R1.
  - intros _. apply R2.
  - intros _ n _. unfold in_explicit. rewrite R4. by left.
  - unfold shut. by rewrite R4, R6.
Qed.
Lemma keeps_resolve_all out l : ∀ c, keeps c (foldl (λ c st, resolve (qs_completion st) out c) c l) ∧
  c_explicitQueue (foldl (λ c st, resolve (qs_completion st) out c) c l) = c_explicitQueue c ∧
  (bounded c → ∀ st n, st ∈ l → qs_completion st = Some n → known c n → answered (foldl (λ c st, resolve (qs_completion st) out c) c l) n).
Proof.
  induction l as [|st l IH]; intros c; simpl; [split_and!; [apply keeps_refl|done|by intros ? st n []%elem_of_nil]|].
  destruct (IH (resolve (qs_completion st) out c)) as (K & E & A). pose proof (keeps_resolve (qs_completion st) out c) as Kr.
  destruct (resolve_spec (qs_completion st) out c) as (R1 & R2 & R3 & R4 & _). split_and!; [by eapply keeps_trans|congruence|].
  intros Hb st' n [->|Hst']%elem_of_cons En Hk.
  - apply (kp_answered _ _ K); [by apply (kp_bounded _ _ Kr)|]. by apply R3.
  - eapply A; [by apply (kp_bounded _ _ Kr)|done..|]. by apply R1.
Qed.

(** ** Sections of the controller *)
Definition has_completion st : Prop := is_Some (qs_completion st).
Lemma prepareStarts_known l dl : ∀ c, keeps c (prepareStarts l dl c).2 ∧ Forall has_completion (prepareStarts l dl c).1 ∧
  c_closed (prepareStarts l dl c).2 = c_closed c ∧ (bounded c → ∀ n, (c_fresh c ≤ n < c_fresh (prepareStarts l dl c).2)%N → known (prepareStarts l dl c).2 n).
Proof.
  induction l as [|i l IH]; intros c; simpl; [split_and!; [apply keeps_refl|constructor|done|lia]|].
  destruct (keeps_completion c) as [K Kn]. set (c1 := (newCurrentNodeAdmissionCompletion c).2) in *.
  change (set_fresh (c_fresh c + 1)%N _) with c1. destruct (IH c1) as (K1 & F1 & E1 & R1). destruct (prepareStarts l dl c1) as [starts c2]. simpl in *.
  split_and!; [by eapply keeps_trans|constructor; [eexists; reflexivity|done]|done|]. intros Hb n Hn. pose proof (kp_bounded _ _ K Hb) as Hb1.
  destruct (decide (n = c_fresh c)) as [->|Hne]; [apply (kp_known _ _ K1 Hb1), Kn, Hb|]. apply R1; [done|]. simpl. lia.
Qed.
Lemma ensure_has st c : has_completion st → ensure_completion st c = (st, c).
Proof. intros [n En]. unfold ensure_completion. by rewrite En. Qed.
(** Queueing adds starts and nothing else. *)
Record adds c c' : Prop := {
  ad_completions : c_completions c' = c_completions c; ad_fresh : c_fresh c' = c_fresh c; ad_closed : c_closed c' = c_closed c;
  ad_explicit : ∀ st, st ∈ c_explicitQueue c → st ∈ c_explicitQueue c' }.
Lemma adds_refl c : adds c c.
Proof. by split. Qed.
Lemma adds_trans c1 c2 c3 : adds c1 c2 → adds c2 c3 → adds c1 c3.
Proof. intros [] []. split; [congruence..|auto]. Qed.
Lemma keeps_adds c c' : adds c c' → c_closed c = false → keeps c c'.
Proof. intros [E1 E2 E3 E4] Ec. apply keeps_added; [done|by rewrite E2|done..]. Qed.
Lemma adds_explicit st c : has_completion st → adds c (queueExplicitStartLocked st c).2.
Proof.
  intros Hst. unfold queueExplicitStartLocked. destruct (_ <>? _); [apply adds_refl|]. rewrite (ensure_has st c Hst).
  destruct (CurrentNodeReference_Key _); [|apply adds_refl]. destruct (currentNodeOwnedLocked _ c); [apply adds_refl|]. split; [done..|].
  intros x Hx. apply elem_of_app. by left.
Qed.
Lemma adds_automatic st c r : has_completion st → queueAutomaticStartLocked st c = Ok r → adds c r.2.
Proof.
  intros Hst. unfold queueAutomaticStartLocked. destruct (negb _); [intros [= <-]; apply adds_refl|]. rewrite (ensure_has st c Hst).
  destruct (CurrentNodeReference_Key _); [|intros [= <-]; apply adds_refl]. destruct (currentNodeOwnedLocked _ c); [intros [= <-]; apply adds_refl|].
  destruct (q_append _ _); [|done]. intros [= <-]. by split.
Qed.
Lemma adds_enqueue_loop l : Forall has_completion l → ∀ c c', enqueueStarts_loop l c = Ok c' → adds c c'.
Proof.
  induction 1 as [|st l Hst _ IH]; intros c c'; [intros [= <-]; apply adds_refl|]. simpl.
  destruct (if isAutomatic (qs_policy st) then _ else _) as [[e c1]|p] eqn:E; simpl; [|done].
  assert (adds c c1) as H1'.
  { destruct (isAutomatic _); [by apply adds_automatic in E|]. injection E as E. pose proof (adds_explicit st c Hst) as Hc. by rewrite E in Hc. }
  intros Hl%IH. eapply adds_trans; [exact H1'|]. eapply adds_trans; [|exact Hl]. by destruct e; split.
Qed.
Lemma keeps_enqueue l c c' : Forall has_completion l → enqueueStarts l c = Ok c' → keeps c c' ∧ c_completions c' = c_completions c ∧ c_fresh c' = c_fresh c.
Proof.
  intros Hl. unfold enqueueStarts. destruct (l ==? []); [intros [= <-]; split; [apply keeps_refl|done]|].
  destruct (c_closed c) eqn:Ec; [intros [= <-]; split; [apply keeps_refl|done]|].
  destruct (enqueueStarts_loop l c) as [c1|p] eqn:E; simpl; [|done]. intros [= <-]. apply adds_enqueue_loop in E as [E1 E2 E3 E4]; [|done].
  split; [|done]. apply keeps_adds; [by split|done].
Qed.
Lemma adds_approved l : Forall has_completion l → ∀ c, adds c (queueApprovedStarts l c).2.
Proof.
  induction 1 as [|st l Hst _ IH]; intros c; [apply adds_refl|]. simpl. pose proof (adds_explicit st c Hst) as Hc.
  destruct (queueExplicitStartLocked st c) as [[e|] c1]; [done|]. eapply adds_trans; [exact Hc|apply IH].
Qed.
Lemma adds_prepared l c : Forall has_completion l → adds c (queuePreparedStarts l c).2.
Proof.
  intros Hl. unfold queuePreparedStarts. pose proof (adds_approved l Hl c) as Hc. destruct (queueApprovedStarts l c) as [[e|] c1]; [done|].
  eapply adds_trans; [exact Hc|]. by split.
Qed.
Lemma keeps_watch k c r : c_closed c = false → currentNodeAdmissionLocked k c = Ok r → keeps c r.2.
Proof.
  intros Ec. unfold currentNodeAdmissionLocked. destruct (find_key _ _) as [[st|]|]; simpl; [intros [= <-]; apply keeps_refl| |done].
  destruct (q_remove_key _ _) as [[[st q]|]|]; [intros [= <-]| |done].
  - apply keeps_added; try done. intros x Hx. simpl. apply elem_of_app. by left.
  - repeat case_match; intros [= <-]; apply keeps_refl.
Qed.
Lemma adds_promote l : ∀ c, adds c (promote_loop l c).2.
Proof.
  induction l as [|st l IH]; intros c; simpl; [apply adds_refl|]. destruct (CurrentNodeReference_Key _) as [k|e]; [|apply adds_refl].
  specialize (IH (promote_start k st c)). destruct (promote_loop l _) as [[refs|e] c']; simpl in *; (eapply adds_trans; [|exact IH]; split; [done..|]);
    intros x Hx; simpl; apply elem_of_app; by left.
Qed.
Lemma keeps_promote t c r : promote_section t c = Ok r → keeps c r.2.
Proof.
  unfold promote_section. destruct (c_closed c) eqn:Ec; [intros [= <-]; apply keeps_refl|]. destruct (q_remove_task _ _) as [[l q]|]; [|done]. intros [= <-].
  apply keeps_adds; [|done]. eapply adds_trans; [|apply adds_promote]. by split.
Qed.
(** Sections that leave the queues alone. *)
Record steady c c' : Prop := { sd_keeps : keeps c c'; sd_pending : pending c' = pending c }.
Lemma steady_refl c : steady c c.
Proof. split; [apply keeps_refl|done]. Qed.
Lemma steady_trans c1 c2 c3 : steady c1 c2 → steady c2 c3 → steady c1 c3.
Proof. intros [A1 A2] [B1 B2]. split; [by eapply keeps_trans|congruence]. Qed.
Lemma steady_same c c' : c_completions c' = c_completions c → c_fresh c' = c_fresh c → c_closed c' = c_closed c → c_explicitQueue c' = c_explicitQueue c →
  c_automaticQueue c' = c_automaticQueue c → steady c c'.
Proof. intros E1 E2 E3 E4 E5. split; [apply keeps_same; [done|by rewrite E2|done..]|unfold pending; by rewrite E4, E5]. Qed.
Lemma steady_resolve o out c : steady c (resolve o out c).
Proof. split; [apply keeps_resolve|]. by destruct (resolve_eq o out c) as (m & -> & _). Qed.
Lemma steady_fence f c : steady c (finishFence f c).
Proof. unfold finishFence. repeat case_match; try apply steady_refl. by apply steady_same. Qed.
Lemma steady_scope sc c : steady c (finishScope sc c).
Proof. unfold finishScope. eapply steady_trans; [|apply steady_fence]. by apply steady_same. Qed.
Lemma steady_node k c : steady c (finishCurrentNode k c).
Proof. unfold finishCurrentNode. eapply steady_trans; [|apply steady_fence]. by apply steady_same. Qed.
Lemma steady_release lease c c' : releaseAgentCapacityLocked lease c = Ok c' → steady c c'.
Proof. unfold releaseAgentCapacityLocked. repeat case_match; intros E; simplify_eq; try apply steady_refl; by apply steady_same. Qed.
Lemma steady_delete k p c : steady c (deleteAdmissionReservationLocked k p c).
Proof. unfold deleteAdmissionReservationLocked. destruct (isAutomatic p); by apply steady_same. Qed.
Lemma steady_reservation k p lease c r : releaseReservation k p lease c = Ok r → steady c r.2.
Proof.
  unfold releaseReservation. pose proof (steady_delete k p c) as Hd. destruct (match lease with Some _ => _ | None => _ end) as [c'|] eqn:E; simpl; [|done].
  intros [= <-]. eapply steady_trans; [exact Hd|]. destruct lease as [n|]; [|injection E as <-; apply steady_refl].
  destruct (_ ==? _); [by eapply steady_release|injection E as <-; apply steady_refl].
Qed.
Lemma steady_admit kind k st c r : admit_section kind k st c = Ok r → steady c r.2.
Proof.
  unfold admit_section. destruct (ensureTaskAvailableLocked _ _); [intros [= <-]; apply steady_refl|].
  destruct (admissionReservationLocked _ _ _); [|intros [= <-]; apply steady_refl]. destruct (_ <>? _); [intros [= <-]; apply steady_refl|].
  pose proof (steady_delete k (qs_policy st) c) as Hd. destruct kind; simpl; [|by intros [= <-]].
  unfold transitionAgentCapacityLocked. destruct (qs_agentCapacityLease st) as [n|]; simpl; [|by intros [= <-]]. destruct (_ <>? _); simpl; [done|].
  intros [= <-]. eapply steady_trans; [exact Hd|]. by apply steady_same.
Qed.

(** ** Interruption and closing *)
(** Only fences changed. *)
Lemma addCurrentNode_quiet f k c c' : addCurrentNode f k c = Ok c' → ∃ i, c' = set_interrupts i c.
Proof. unfold addCurrentNode. repeat case_match; intros E; simplify_eq; eauto. Qed.
Lemma keeps_scopes f l : ∀ c c', fence_scopes f l c = Ok c' → keeps c c'.
Proof.
  induction l as [|e l IH]; intros c c'; simpl; [intros [= <-]; apply keeps_refl|]. unfold addScope.
  destruct (byScope _ !! _); [destruct (_ <>? _); [done|]|]; simpl; intros Hl%IH; (eapply keeps_trans; [|exact Hl]); by apply keeps_same.
Qed.
Lemma drain_one_quiet f k st w d d' : drain_one f k st w d = Ok d' → ∃ i, dr_c d' = set_interrupts i (dr_c d).
Proof.
  unfold drain_one. destruct (addCurrentNode f k (dr_c d)) as [c'|] eqn:E; simpl; [|done]. intros [= <-]. by apply addCurrentNode_quiet in E.
Qed.
(** A drained explicit start is answered. *)
Lemma drain_explicit_keeps t f l : ∀ d r, drain_explicit t f l d = Ok r → keeps (dr_c d) (dr_c r.2) ∧ c_explicitQueue (dr_c r.2) = c_explicitQueue (dr_c d) ∧
  c_closed (dr_c r.2) = c_closed (dr_c d) ∧
  (bounded (dr_c d) → ∀ st n, st ∈ l → qs_completion st = Some n → known (dr_c d) n → st ∈ r.1 ∨ answered (dr_c r.2) n).
Proof.
  induction l as [|st l IH]; intros d r; simpl; [intros [= <-]; split_and!; [apply keeps_refl|done|done|by intros _ st n []%elem_of_nil]|].
  destruct (qs_task st <>? t).
  - destruct (drain_explicit t f l d) as [[kept d']|] eqn:E; simpl; [|done]. intros [= <-]. apply IH in E as (K & E1 & E2 & A). simpl in *. split_and!; [done..|].
    intros Hb x n [->|Hx]%elem_of_cons En Hk; [left; by left|]. destruct (A Hb x n Hx En Hk); [left; by right|by right].
  - destruct (CurrentNodeReference_Key _) as [k|]; [|done]. destruct (drain_one f k st None _) as [d1|] eqn:E1; simpl; [|done]. apply drain_one_quiet in E1 as [i E1]. simpl in E1.
    intros (K & E2 & E3 & A)%IH. simpl in *. destruct (resolve_spec (qs_completion st) not_quiescent (dr_c d1)) as (R1 & R2 & R3 & R4 & R5 & R6).
    assert (keeps (dr_c d) (resolve (qs_completion st) not_quiescent (dr_c d1))) as Kd.
    { eapply keeps_trans; [|apply keeps_resolve]. rewrite E1. by apply keeps_same. }
    split_and!; [by eapply keeps_trans|rewrite E2, R4, E1; done|rewrite E3, R6, E1; done|]. intros Hb x n [->|Hx]%elem_of_cons En Hk.
    + right. apply (kp_answered _ _ K); [by apply (kp_bounded _ _ Kd)|]. apply R3; [done|]. by rewrite E1.
    + eapply A; [by apply (kp_bounded _ _ Kd)|done..|]. apply (kp_known _ _ Kd); done.
Qed.
Lemma drain_automatic_keeps f l : ∀ d d', drain_automatic f l d = Ok d' → keeps (dr_c d) (dr_c d').
Proof.
  induction l as [|st l IH]; intros d d'; simpl; [intros [= <-]; apply keeps_refl|]. destruct (CurrentNodeReference_Key _) as [k|]; [|done].
  destruct (drain_one f k st None _) as [d1|] eqn:E1; simpl; [|done]. apply drain_one_quiet in E1 as [i E1]. simpl in E1. intros Hl%IH. eapply keeps_trans; [|exact Hl].
  rewrite E1. by apply keeps_same.
Qed.
Lemma drain_reservations_keeps a t f l : ∀ d d', drain_reservations a t f l d = Ok d' → keeps (dr_c d) (dr_c d').
Proof.
  induction l as [|[k st] l IH]; intros d d'; simpl; [intros [= <-]; apply keeps_refl|]. destruct (_ || _); [apply IH|].
  set (c1 := if a then set_automaticReservations _ _ else _). assert (keeps (dr_c d) c1) as K1 by (subst c1; destruct a; by apply keeps_same).
  destruct (if a then releaseAgentCapacityLocked _ _ else Ok c1) as [c2|] eqn:E2; simpl; [|done].
  assert (keeps c1 c2) as K2 by (destruct a; [by eapply sd_keeps, steady_release|injection E2 as <-; apply keeps_refl]).
  destruct (drain_one f k st _ _) as [d1|] eqn:E1; simpl; [|done]. apply drain_one_quiet in E1 as [i E1]. simpl in E1. intros Hl%IH. simpl in Hl.
  eapply keeps_trans; [exact K1|]. eapply keeps_trans; [exact K2|]. eapply keeps_trans; [|exact Hl]. eapply keeps_trans; [|apply keeps_resolve].
  rewrite E1. by apply keeps_same.
Qed.
Lemma drainTask_keeps t f d d' : c_closed (dr_c d) = false → drainTaskControllerWorkLocked t f d = Ok d' → keeps (dr_c d) (dr_c d').
Proof.
  intros Ec. unfold drainTaskControllerWorkLocked. destruct (drain_explicit t f _ d) as [[kept d1]|] eqn:E1; simpl; [|done].
  apply drain_explicit_keeps in E1 as ([K1 K2 K3 K4 K5] & E2 & E3 & A). simpl in *. destruct (q_remove_task _ _) as [[l q]|]; [|done].
  destruct (drain_automatic f l _) as [d2|] eqn:E4; simpl; [|done]. apply drain_automatic_keeps in E4. simpl in E4.
  destruct (drain_reservations false t f _ d2) as [d3|] eqn:E5; simpl; [|done]. apply drain_reservations_keeps in E5. intros E6%drain_reservations_keeps.
  eapply keeps_trans; [|eapply keeps_trans; [exact E4|by eapply keeps_trans]]. split.
  - intros Hb. exact (K1 Hb).
  - intros Hb. exact (K2 Hb).
  - intros Hb. exact (K3 Hb).
  - intros Hb n Hk (st & Hst & En). destruct (A Hb st n Hst En Hk) as [Hx|Hx]; [|by right]. left. by exists st.
  - intros _. unfold shut. simpl. rewrite E3, Ec. done.
Qed.
Lemma fence_task_keeps t l f c r : c_closed c = false → fence_task t l f c = Ok r → keeps c r.2.
Proof.
  intros Ec. unfold fence_task. destruct (fence_scopes f l c) as [c1|] eqn:E1; simpl; [|done]. assert (c_closed c1 = false) as Ec1.
  { clear r. revert c Ec E1. induction l as [|e l IH]; intros c Ec; simpl; [by intros [= <-]|]. unfold addScope.
    destruct (byScope _ !! _); [destruct (_ <>? _); [done|]|]; simpl; intros E; by eapply IH in E. }
  destruct (drainTaskControllerWorkLocked t f _) as [d|] eqn:E2; simpl; [|done]. intros [= <-]. simpl. apply drainTask_keeps in E2; [|done].
  eapply keeps_trans; [by eapply keeps_scopes|done].
Qed.
Lemma keeps_begin t l c r : c_closed c = false →
  (match beginTask t c with
   | Err e => Ok (Err e, c)
   | Ok (fence, c) => r ← fence_task t l fence c; Ok (Ok r.1, r.2)
   end) = Ok (E := controller_panic) (A := result admit_error interrupt_cleanup * CurrentNodeController (Q := Q)) r → keeps c r.2.
Proof.
  intros Ec. unfold beginTask. destruct (taskActive t c); [intros [= <-]; apply keeps_refl|]. simpl.
  destruct (fence_task t l _ _) as [r'|] eqn:E; simpl; [|done]. intros [= <-]. apply fence_task_keeps in E; [|done]. eapply keeps_trans; [|exact E].
  apply keeps_same; try done. simpl. lia.
Qed.
Lemma keeps_selection t sid l1 l2 c r : c_closed c = false → interrupt_selection t sid l1 l2 c = Ok r → keeps c r.2.
Proof.
  intros Ec. unfold interrupt_selection. rewrite Ec. destruct sid; simpl; repeat case_if_goal; try (intros [= <-]; apply keeps_refl). by apply keeps_begin.
Qed.
Lemma keeps_interrupt t sid l1 l2 nodes c r : c_closed c = false → interrupt_section t sid l1 l2 nodes c = Ok r → keeps c r.2.
Proof.
  intros Ec E. destruct (interrupt_selection t sid l1 l2 c) as [[x c']|p] eqn:E0; [|unfold interrupt_section in E; by rewrite E0 in E].
  destruct (interrupt_section_eq _ _ _ _ nodes _ _ _ E0) as (x' & E' & _). rewrite E' in E. injection E as <-. exact (keeps_selection _ _ _ _ _ _ Ec E0).
Qed.
Lemma keeps_manual_move t l1 l2 c r : c_closed c = false → manual_move_section t l1 l2 c = Ok r → keeps c r.2.
Proof.
  intros Ec. unfold manual_move_section. rewrite Ec. repeat case_if_goal; try (intros [= <-]; apply keeps_refl). by apply keeps_begin.
Qed.
Lemma keeps_close_begin c : keeps c (close_begin c).
Proof. unfold close_begin. destruct (c_closed c) eqn:E; [apply keeps_refl|]. by apply keeps_same. Qed.
Lemma keeps_close_finish c : keeps c (close_finish c).
Proof.
  unfold close_finish. set (c1 := set_queued _ _). destruct (keeps_resolve_all shut_down (c_explicitQueue c) c1) as ([K1 K2 K3 K4 K5] & E & A).
  split.
  - intros Hb. exact (K1 Hb).
  - intros Hb. exact (K2 Hb).
  - intros Hb. exact (K3 Hb).
  - intros Hb n Hk (st & Hst & En). right. exact (A Hb st n Hst En Hk).
  - intros _ _. by rewrite E.
Qed.

(** ** The whole system *)
Definition past (p : phase) : bool := match p with Unfencing | Finishing => true | _ => false end.
Record told s : Prop := {
  to_bounded : bounded (sy_c s);
  to_pending : ∀ n, pending_completion (sy_c s) n → known (sy_c s) n;
  to_shut : shut (sy_c s);
  to_worker : ∀ i w n, sy_workers s !! i = Some w → qs_completion (wk_start w) = Some n →
    known (sy_c s) n ∧ (past (wk_phase w) = true → answered (sy_c s) n) }.
Definition on_its_way s n : Prop := answered (sy_c s) n ∨ in_explicit (sy_c s) n ∨
  ∃ i w, sy_workers s !! i = Some w ∧ qs_completion (wk_start w) = Some n ∧ past (wk_phase w) = false.
Definition goes_on s s' : Prop := told s' ∧ ∀ n, known (sy_c s) n → known (sy_c s') n ∧ (on_its_way s n → on_its_way s' n).

Lemma pending_same c c' : pending c' = pending c → keeps c c' → bounded c → (∀ n, pending_completion c n → known c n) → ∀ n, pending_completion c' n → known c' n.
Proof. intros E K Hb Hp n. unfold pending_completion. rewrite E. intros Hn. by apply (kp_known _ _ K), Hp. Qed.
Lemma pending_framed b T c c' : frame b T c c' → cinv scope_task limit c' → keeps c c' → bounded c → (∀ n, pending_completion c n → known c n) →
  (∀ n, (b ≤ n < c_fresh c')%N → known c' n) → ∀ n, pending_completion c' n → known c' n.
Proof.
  intros Hf Hc K Hb Hp Hr n Hn. destruct (fr_pending _ _ _ _ Hf n Hn) as [Ho|Hle]; [by apply (kp_known _ _ K), Hp|]. apply Hr. split; [done|].
  destruct Hn as (st & Hst & En). destruct (co_pending _ (ci_comps _ _ _ Hc) st Hst) as (_ & m & Em & Hm). simplify_eq. done.
Qed.
(** A caller's section. *)
Lemma goes_caller s s' : told s → sy_workers s' = sy_workers s → keeps (sy_c s) (sy_c s') → (∀ n, pending_completion (sy_c s') n → known (sy_c s') n) → goes_on s s'.
Proof.
  intros [T1 T2 T3 T4] Ew K Hp. pose proof K as [K1 K2 K3 K4 K5]. split.
  - split; [auto..|]. rewrite Ew. intros i w n Hi En. destruct (T4 i w n Hi En) as [Hk Ha]. split; auto.
  - intros n Hk. split; [auto|]. intros [Ha|[He|(i & w & Hw)]]; [left; auto| |right; right; exists i, w; by rewrite Ew].
    destruct (K4 T1 n Hk He); [right; by left|by left].
Qed.
Lemma goes_frame s s' c' T : told s → sy_workers s' = sy_workers s → sy_c s' = c' → keeps (sy_c s) c' → cinv scope_task limit c' → (∀ b, frame b T (sy_c s) c') → goes_on s s'.
Proof.
  intros Ht Ew Ec K Hc Hf. apply goes_caller; [done|done|by rewrite Ec|]. rewrite Ec. eapply pending_framed; [apply (Hf (c_fresh c'))|done|done|apply Ht|apply Ht|]. lia.
Qed.
Lemma goes_steady s s' : told s → sy_workers s' = sy_workers s → steady (sy_c s) (sy_c s') → goes_on s s'.
Proof. intros Ht Ew [K E]. apply goes_caller; [done..|]. eapply pending_same; [done..|apply Ht|apply Ht]. Qed.
(** A step of a goroutine. *)
Lemma goes_worker s s' i w st p : told s → sy_workers s !! i = Some w → sy_workers s' = <[i := {| wk_start := st; wk_phase := p |}]> (sy_workers s) →
  same_start st (wk_start w) → steady (sy_c s) (sy_c s') → (past p = true → ∀ n, qs_completion (wk_start w) = Some n → answered (sy_c s') n) → goes_on s s'.
Proof.
  intros [T1 T2 T3 T4] Hw Ew Hst [K E] Hp. pose proof K as [K1 K2 K3 K4 K5]. split.
  - split; [auto|by eapply pending_same|auto|]. rewrite Ew. intros j w' n. destruct (decide (j = i)) as [->|Hne].
    + rewrite lookup_insert_eq. intros [= <-]. simpl. rewrite (sm_completion _ _ Hst). intros En. destruct (T4 i w n Hw En). split; auto.
    + rewrite lookup_insert_ne by done. intros Hj En. destruct (T4 j w' n Hj En). split; auto.
  - intros n Hk. split; [auto|]. intros [Ha|[He|(j & w' & Hj & En & Hpast)]]; [left; auto|destruct (K4 T1 n Hk He); [right; by left|by left]|].
    destruct (decide (j = i)) as [->|Hne]; [|right; right; exists j, w'; by rewrite Ew, lookup_insert_ne].
    simplify_eq. destruct (past p) eqn:Ep; [left; by apply Hp|]. right. right. exists i. eexists. rewrite Ew, lookup_insert_eq. split; [done|]. simpl.
    by rewrite (sm_completion _ _ Hst).
Qed.
Lemma goes_finished s s' i w : told s → sy_workers s !! i = Some w → past (wk_phase w) = true → sy_workers s' = delete i (sy_workers s) → steady (sy_c s) (sy_c s') → goes_on s s'.
Proof.
  intros [T1 T2 T3 T4] Hw Hpast Ew [K E]. pose proof K as [K1 K2 K3 K4 K5]. split.
  - split; [auto|by eapply pending_same|auto|]. rewrite Ew. intros j w' n [_ Hj]%lookup_delete_Some En. destruct (T4 j w' n Hj En). split; auto.
  - intros n Hk. split; [auto|]. intros [Ha|[He|(j & w' & Hj & En & Hp)]]; [left; auto|destruct (K4 T1 n Hk He); [right; by left|by left]|].
    right. right. exists j, w'. rewrite Ew, lookup_delete_ne; [done|]. intros <-. simplify_eq. congruence.
Qed.

Section goroutine.
Context (s : system (Q := Q)) (i : N) (w : worker) (Ht : told s) (Hw : sy_workers s !! i = Some w).
Lemma goes_same s' p : sy_workers s' = <[i := {| wk_start := wk_start w; wk_phase := p |}]> (sy_workers s) → steady (sy_c s) (sy_c s') → past p = false → goes_on s s'.
Proof using Ht Hw. intros Ew K Hp. eapply goes_worker; [done..|]. rewrite Hp. done. Qed.
Lemma mutation_failed_past kind e admitted : past (mutation_failed kind e admitted) = false.
Proof. by destruct kind. Qed.
Lemma worker_goes a s' : inv scope_task limit false s → worker_step i w a s = Next s' → goes_on s s'.
Proof using Ht Hw.
  intros Hi. unfold worker_step. destruct (id_key _ _ _ _ (wi_ids _ _ (in_w _ _ _ _ Hi)) i w Hw) as [k Ek]. rewrite (proj1 (start_key_Ok _ _) Ek).
  pose proof (steady_refl (sy_c s)) as Hsame.
  destruct (wk_phase w) as [|kind|kind|kind|kind|kind f|kind|e admitted|f handle|f handle|e admitted|e admitted|e admitted|e admitted|e reported|e reported|err handle| |] eqn:Ep.
  - destruct a as [|publication steer| | | | |]; try done. destruct (admit_prepare _ _ _) as [[kind st]|e] eqn:E; intros [= <-]; [|by eapply goes_same].
    apply admit_prepare_same in E. by eapply goes_worker.
  - destruct a; try done. destruct (_ || _); intros [= <-]; eapply goes_same; try done. apply mutation_failed_past.
  - destruct a; try done; [destruct (sy_lanes s !! _); [done|]|]; intros [= <-]; eapply goes_same; try done. apply mutation_failed_past.
  - destruct a; try done. destruct (admit_section _ _ _ _) as [r|p] eqn:E; simpl; [|done]. intros [= <-]. eapply goes_same; [done|by eapply steady_admit|by destruct r.1].
  - destruct kind, a; try done; [destruct (durable_admission _ _) as [e|]|destruct (publish _ _) as [e|]]; simpl; try done; intros [= <-]; by eapply goes_same.
  - destruct a; try done. intros [= <-]. eapply goes_same; [done..|]. destruct f as [[e admitted]|]; [apply mutation_failed_past|done].
  - destruct a; try done. intros E. set (s1 := match kind with AdmitAgent => _ | AdmitScript => s end) in E.
    assert (∃ b p, s' = owe_wake b (go_on i (wk_start w) p s1) ∧ past p = false) as (b & p & -> & Hp).
    { destruct kind, o; simplify_eq; eauto; eexists false, _; done. }
    assert (sy_c s1 = sy_c s ∧ sy_workers s1 = sy_workers s) as [X1 X2] by (subst s1; destruct kind; [by destruct (qs_agentCapacityLease _)|done]).
    eapply goes_same; [simpl; by rewrite X2|simpl; by rewrite X1|done].
  - destruct a; try done. destruct (releaseAgentCapacityLocked _ _) as [c'|p] eqn:E; simpl; [|done]. intros [= <-]. eapply goes_same; [done|by eapply steady_release|done].
  - destruct a; try done. destruct (releaseReservation _ _ _ _) as [r|p] eqn:E; simpl; [|done]. intros [= <-]. eapply goes_same; [done|by eapply steady_reservation|done].
  - destruct a; try done. destruct f as [[e admitted]|]; [destruct (_ || _)|]; intros [= <-]; by eapply goes_same.
  - destruct a; try done. destruct (_ || _); intros [= <-]; by eapply goes_same.
  - destruct a; try done. destruct (_ || _); intros [= <-]; by eapply goes_same.
  - destruct a; try done; [destruct (sy_lanes s !! _); [done|]|]; intros [= <-]; by eapply goes_same.
  - destruct a; try done. destruct o; [| |destruct (isAutomatic _); [done|]]; intros [= <-]; by eapply goes_same.
  - destruct a; try done. intros [= <-]. eapply goes_same; [done..|]. by destruct reported.
  - destruct a; try done. intros [= <-]. eapply goes_same; [done| |done]. simpl. destruct (_ || _); [done|by apply steady_same].
  - destruct a; try done. intros [= <-]. eapply goes_worker; [done|done|done|done|apply steady_resolve|]. intros _ n En. simpl.
    apply resolve_spec; [done|]. by eapply (to_worker _ Ht).
  - destruct a; try done. intros [= <-]. eapply goes_worker; [done|done|done|done|apply steady_node|]. intros _ n En. simpl.
    destruct (to_worker _ Ht i w n Hw En) as [_ Ha]. apply (kp_answered _ _ (sd_keeps _ _ (steady_node k (sy_c s)))); [apply Ht|]. apply Ha. by rewrite Ep.
  - destruct a; try done. unfold finishAdmissionWorker. rewrite (proj1 (start_key_Ok _ _) Ek). destruct (c_admissionWorkers (sy_c s) !! k); [|done]. destruct (_ || _); [done|]. simpl.
    intros [= <-]. eapply goes_finished; [done|done|by rewrite Ep|done|by apply steady_same].
Qed.
End goroutine.

(** ** Taking a start *)
Lemma takeExplicit_keeps c st c' : comps_ok c → takeExplicitStart c = Ok (Some st, c') →
  c_completions c' = c_completions c ∧ c_fresh c' = c_fresh c ∧ c_closed c' = c_closed c ∧ c_explicitQueue c = st :: c_explicitQueue c' ∧ c_closed c = false.
Proof.
  intros Hp. unfold takeExplicitStart. destruct (c_closed c || _) eqn:Ec; [done|]. apply orb_false_iff in Ec as [Ec _]. destruct (c_explicitQueue c) as [|x rest] eqn:Eq; [done|].
  destruct (CurrentNodeReference_Key _); [|done]. rewrite (completed c x Hp) by (unfold pending; rewrite Eq; by left). intros [= <- <-]. done.
Qed.
Lemma takeAutomatic_keeps c st c' : cinv scope_task limit c → takeAutomaticIntent c = Ok (Some st, c') →
  c_completions c' = c_completions c ∧ (c_fresh c ≤ c_fresh c')%N ∧ c_closed c' = c_closed c ∧ c_explicitQueue c' = c_explicitQueue c.
Proof.
  intros Hc. rewrite takeAutomaticIntent_eq. destruct (_ || _); [done|]. pose proof (ci_queues _ _ _ Hc) as [Q1 _ _ _].
  set (avail := (_ <? _)%Z). pose proof (q_take_law (c_lastAutomaticTask c) avail (c_automaticQueue c) Q1) as Ht.
  destruct (q_take _ avail _) as [[[x q]|]|]; simpl in Ht; [|done..]. destruct Ht as (Ht & _). apply take_next_sub in Ht as (l1 & l2 & E1 & _).
  destruct (CurrentNodeReference_Key _) as [k|]; [|done].
  destruct (co_pending c (ci_comps _ _ _ Hc) x) as (_ & n & En & _); [apply elem_of_app; right; rewrite E1; apply elem_of_app; right; by left|].
  rewrite (ensure_has (with_delivery TaskPromptDeliveryResume x)) by (by exists n). simpl. unfold give_lease. destruct (countsAgentCapacity _); intros [= <- <-]; simpl; split_and!; try done. lia.
Qed.
Lemma goes_spawn s s' st c' : told s → inv scope_task limit false s → taken (sy_c s) st c' → sy_c s' = c' →
  sy_workers s' = <[sy_next s := {| wk_start := st; wk_phase := Preparing |}]> (sy_workers s) → c_completions c' = c_completions (sy_c s) →
  (c_fresh (sy_c s) ≤ c_fresh c')%N → (∀ n, in_explicit (sy_c s) n → in_explicit c' n ∨ qs_completion st = Some n) → shut c' → goes_on s s'.
Proof.
  intros [T1 T2 T3 T4] Hi Htk Ec Ew Em Ef He Hs. destruct (tk_completion _ _ _ Htk) as (m & Hm & Hpm & _).
  assert (∀ n, known (sy_c s') n ↔ known (sy_c s) n) as Hk by (intros n; unfold known; by rewrite Ec, Em).
  assert (∀ n, answered (sy_c s') n ↔ answered (sy_c s) n) as Ha by (intros n; unfold answered; by rewrite Ec, Em).
  assert (∀ j w, sy_workers s !! j = Some w → sy_workers s' !! j = Some w) as Hold.
  { intros j w Hj. rewrite Ew, lookup_insert_ne; [done|]. intros <-. apply (id_next _ _ _ _ (wi_ids _ _ (in_w _ _ _ _ Hi))) in Hj. lia. }
  split.
  - split.
    + intros n Hn%Hk%T1. rewrite Ec. lia.
    + rewrite Ec. intros n Hn%(tk_pending _ _ _ Htk). rewrite <- Ec. by apply Hk, T2.
    + by rewrite Ec.
    + rewrite Ew. intros j w n [[<- <-]|[_ Hj]]%lookup_insert_Some En; rewrite Hk, Ha; [|by eapply T4]. simpl in *. simplify_eq. split; [by apply T2|done].
  - intros n Hn. rewrite Hk. split; [done|]. unfold on_its_way. rewrite Ha. intros [Hx|[Hx|(j & w & Hj & Hx)]]; [by left| |right; right; exists j, w; auto].
    destruct (He n Hx) as [He'|Hst]; [right; left; by rewrite Ec|]. right. right. exists (sy_next s). eexists. rewrite Ew, lookup_insert_eq. done.
Qed.
Lemma dispatch_goes s s' : told s → inv scope_task limit false s → exec Dispatch s = Next s' → goes_on s s'.
Proof.
  intros Ht Hi. simpl. pose proof (in_c _ _ _ _ Hi) as Hc. destruct (sy_dispatcher s); [done|..|done].
  - pose proof (takeExplicitStart_ok scope_task limit (sy_c s) Hc) as Hok. destruct (takeExplicitStart (sy_c s)) as [[[st|] c']|p] eqn:E; simpl; [| |done]; intros [= <-].
    + destruct Hok as [_ Htk]. apply takeExplicit_keeps in E as (E1 & E2 & E3 & E4 & E5); [|apply Hc].
      eapply (goes_spawn s _ st c'); [done|done|done|done|done|done|by rewrite E2| |].
      * intros n (x & Hx & En). rewrite E4 in Hx. apply elem_of_cons in Hx as [->|Hx]; [by right|left; by exists x].
      * intros Hcl. congruence.
    + subst. by apply goes_steady; [|done|apply steady_refl].
  - pose proof (takeAutomaticIntent_ok scope_task limit (sy_c s) Hc) as Hok. destruct (takeAutomaticIntent (sy_c s)) as [[[st|] c']|p] eqn:E; simpl; [| |done]; intros [= <-].
    + destruct Hok as [_ Htk]. apply takeAutomatic_keeps in E as (E1 & E2 & E3 & E4); [|done].
      eapply (goes_spawn s _ st c'); [done|done|done|done|done|done|done| |].
      * intros n. unfold in_explicit. rewrite E4. by left.
      * intros Hcl. rewrite E4. apply (to_shut _ Ht). congruence.
    + subst. by apply goes_steady; [|done|apply steady_refl].
Qed.

(** ** Every step *)
Lemma goes_queued l dl s s' c2 : told s → sy_workers s' = sy_workers s → sy_c s' = c2 → keeps (prepareStarts l dl (sy_c s)).2 c2 →
  c_completions c2 = c_completions (prepareStarts l dl (sy_c s)).2 → c_fresh c2 = c_fresh (prepareStarts l dl (sy_c s)).2 → cinv scope_task limit c2 →
  frame (c_fresh (sy_c s)) (λ _, False) (sy_c s) c2 → goes_on s s'.
Proof.
  intros Ht Ew Ec K Em Ef Hc Hf. destruct (prepareStarts_known l dl (sy_c s)) as (K1 & _ & _ & Hr). assert (keeps (sy_c s) c2) as K2 by by eapply keeps_trans.
  apply goes_caller; [done|done|by rewrite Ec|]. rewrite Ec. eapply pending_framed; [done|done|done|apply Ht|apply Ht|].
  intros n. unfold known. rewrite Ef, Em. apply Hr, Ht.
Qed.
Lemma section_goes t s r (f : result admit_error interrupt_cleanup → bool) s' : told s → section_ok scope_task limit t (sy_c s) r →
  (∀ x, c_closed (sy_c s) = false → r = Ok x → keeps (sy_c s) x.2) →
  in_free_lane t s (lift r (λ r, Next (owe_wake (f r.1) (with_c r.2 s)))) = Next s' → goes_on s s'.
Proof.
  intros Ht (x & c' & -> & Hc & Hf & _) K. unfold in_free_lane, behind_open_barrier. destruct (c_closed (sy_c s)) eqn:Ec; [done|]. destruct (sy_lanes s !! t); [done|]. simpl.
  intros [= <-]. eapply (goes_frame s _ c'); [done|done|done|exact (K _ eq_refl eq_refl)|done|exact Hf].
Qed.
Lemma callback_goes n s s' : told s → lift (releaseAgentCapacity (Some n) (sy_c s)) (λ r, Next (owe_wake r.1 (with_c r.2 s))) = Next s' → goes_on s s'.
Proof.
  intros Ht. unfold releaseAgentCapacity. destruct (releaseAgentCapacityLocked (Some n) (sy_c s)) as [c'|p] eqn:E; simpl; [|done]. intros [= <-].
  apply goes_steady; [done|done|by eapply steady_release].
Qed.
Lemma exec_goes a s s' : told s → inv scope_task limit false s → legal scope_task a → exec a s = Next s' → goes_on s s'.
Proof.
  intros Ht Hi Ha. pose proof (in_c _ _ _ _ Hi) as Hc. pose proof (steady_refl (sy_c s)) as Hsame.
  pose proof (λ l dl, prepareStarts_ok scope_task limit l dl (c_fresh (sy_c s)) (sy_c s) Hc (N.le_refl _)) as Hprep. pose proof (λ l dl, prepareStarts_known l dl (sy_c s)) as Hkn.
  pose proof (λ l dl s' c2, goes_queued l dl s s' c2 Ht) as Hgo.
  destruct a as [| | |i a| |l|l|dl l|k|t|t sid l1 l2 nodes|t l1 l2|sc|k|n| |]; [simpl|by apply dispatch_goes|simpl..].
  - destruct (_ && _); [|done]. intros [= <-]. apply goes_steady; [done|done|by apply steady_same].
  - destruct (_ && _); [|done]. intros [= <-]. by apply goes_steady.
  - destruct (sy_workers s !! i) as [w|] eqn:Ew; [|done]. by eapply worker_goes.
  - destruct (sy_wakes s); [done|]. intros [= <-]. apply goes_steady; [done|done|by apply steady_same].
  - specialize (Hprep l TaskPromptDeliveryAssignment). specialize (Hkn l TaskPromptDeliveryAssignment). specialize (Hgo l TaskPromptDeliveryAssignment).
    destruct (prepareStarts l _ _) as [starts c1]. simpl in *. destruct Hprep as (Hc1 & Hf1 & _ & Hr & _). destruct Hkn as (K1 & F1 & _).
    destruct (l ==? []); [intros [= <-]; eapply Hgo; [done|done|by apply keeps_same|done|done|by apply cinv_wake|by apply frame_wake]|].
    pose proof (enqueueStarts_ok scope_task limit _ _ _ Hc1 (ready_automatic _ _ _ Hr)) as Hq. destruct (enqueueStarts _ c1) as [c2|p] eqn:E; simpl; [|done]. intros [= <-].
    destruct Hq as [Hc2 Hf2]. apply keeps_enqueue in E as (K2 & E2 & E3); [|by apply Forall_fmap]. eapply Hgo; [done|done|done|done|done|done|by eapply cframe_trans].
  - unfold behind_open_barrier. destruct (c_closed (sy_c s)) eqn:Ec; [done|]. specialize (Hprep l TaskPromptDeliveryAssignment). specialize (Hkn l TaskPromptDeliveryAssignment).
    specialize (Hgo l TaskPromptDeliveryAssignment). destruct (prepareStarts l _ _) as [starts c1]. simpl in *. destruct Hprep as (Hc1 & Hf1 & _ & Hr & _). destruct Hkn as (K1 & F1 & Ec1 & _).
    intros [= <-]. destruct (queueApprovedStarts_ok scope_task limit _ _ _ Hc1 Hr) as [Hc2 Hf2]. pose proof (adds_approved starts F1 c1) as Had.
    eapply Hgo; [done|done|apply keeps_adds; [done|congruence]|apply Had|apply Had|done|by eapply cframe_trans].
  - unfold behind_open_barrier. destruct (c_closed (sy_c s)) eqn:Ec; [done|]. specialize (Hprep l dl). specialize (Hkn l dl).
    specialize (Hgo l dl). destruct (prepareStarts l _ _) as [starts c1]. simpl in *. destruct Hprep as (Hc1 & Hf1 & _ & Hr & _). destruct Hkn as (K1 & F1 & Ec1 & _).
    intros [= <-]. destruct (queuePreparedStarts_ok scope_task limit _ _ _ Hc1 Hr) as [Hc2 Hf2]. pose proof (adds_prepared starts c1 F1) as Had.
    eapply Hgo; [done|done|apply keeps_adds; [done|congruence]|apply Had|apply Had|done|by eapply cframe_trans].
  - unfold behind_open_barrier. destruct (c_closed (sy_c s)) eqn:Ec; [done|]. destruct (currentNodeAdmission_ok scope_task limit k (sy_c s) Hc) as (r & c' & E & Hc' & Hf). rewrite E. simpl.
    intros [= <-]. eapply goes_frame; [done|done|done|exact (keeps_watch k _ _ Ec E)|done|exact Hf].
  - unfold in_free_lane, behind_open_barrier. destruct (c_closed _); [done|]. destruct (sy_lanes s !! t); [done|]. destruct (promote_section_ok scope_task limit t (sy_c s) Hc) as (r & c' & E & Hc' & Hf). rewrite E. simpl.
    intros [= <-]. eapply goes_frame; [done|done|done|exact (keeps_promote t _ _ E)|done|exact Hf].
  - apply (section_goes t s _ (λ r, match r with Ok k => (ic_scopes k <>? []) || (ic_waits k <>? []) | Err _ => false end)); [done|by apply interrupt_section_ok|].
    intros x Ec Ex. by eapply keeps_interrupt.
  - apply (section_goes t s _ (λ r, match r with Ok k => (ic_scopes k <>? []) || (ic_waits k <>? []) | Err _ => false end)); [done|by apply manual_move_section_ok|].
    intros x Ec Ex. by eapply keeps_manual_move.
  - intros [= <-]. apply goes_steady; [done|done|apply steady_scope].
  - intros [= <-]. apply goes_steady; [done|done|apply steady_node].
  - case_bool_decide; [|done]. exact (callback_goes n s s' Ht).
  - destruct (c_closed _); [done|]. intros [= <-]. destruct (close_begin_ok scope_task limit (sy_c s) Hc). eapply goes_frame; [done|done|done|apply keeps_close_begin|done..].
  - destruct (_ && _); [|done]. intros [= <-]. destruct (close_finish_ok scope_task limit (sy_c s) Hc). eapply goes_frame; [done|done|done|apply keeps_close_finish|done..].
Qed.
Lemma told_new c0 : NewCurrentNodeController limit = Ok c0 → told (new_system c0).
Proof.
  unfold NewCurrentNodeController. destruct (_ <=? _)%Z; [done|]. intros [= <-]. split; simpl.
  - intros n. unfold known. simpl. rewrite lookup_empty. by intros [].
  - intros n (st & Hst & _). unfold pending in Hst. simpl in Hst. destruct (q_new_law (Q := Q)) as (_ & E & _). rewrite E in Hst. by apply elem_of_nil in Hst.
  - done.
  - intros i w n. by rewrite lookup_empty.
Qed.
Lemma goes_steps s s' : rtc (step scope_task) s s' → told s → inv scope_task limit false s → goes_on s s' ∧ inv scope_task limit false s'.
Proof.
  induction 1 as [s|s s1 s2 [a Ha E] _ IH]; intros Ht Hi; [split; [split; [done|auto]|done]|].
  pose proof (exec_ok scope_task limit false a s Hi Ha) as He. rewrite E in He. destruct (exec_goes a s s1 Ht Hi Ha E) as [Ht1 Hg].
  destruct (IH Ht1 (He ltac:(done))) as [[Ht2 Hg2] Hi2]. split; [split; [done|]|done]. intros n Hk. destruct (Hg n Hk) as [Hk1 Hw]. destruct (Hg2 n Hk1). auto.
Qed.
Lemma told_reachable s : reachable scope_task limit s → told s.
Proof. intros (c0 & Hn & Hr). eapply goes_steps; [done|by apply told_new|by apply inv_new]. Qed.
(** The completion a caller is given to wait for is on its way. *)
Lemma watched_on_its_way k s n c' : told s → inv scope_task limit false s → currentNodeAdmissionLocked k (sy_c s) = Ok (Some n, c') →
  known c' n ∧ on_its_way (with_c c' s) n.
Proof.
  intros Ht Hi. pose proof (in_c _ _ _ _ Hi) as Hc. pose proof (ci_queues _ _ _ Hc) as [Q1 Q2 Q3 _]. unfold currentNodeAdmissionLocked.
  assert (∀ st, c_admissionWorkers (sy_c s) !! k = Some st → qs_completion st = Some n → known (sy_c s) n ∧ on_its_way s n) as Hworker.
  { intros st (i & w & Hw & Hs)%(id_entry _ _ _ _ (wi_ids _ _ (in_w _ _ _ _ Hi))) En. rewrite <- (sm_completion _ _ Hs) in En.
    destruct (to_worker _ Ht i w n Hw En) as [Hk Hp]. split; [done|]. destruct (past (wk_phase w)) eqn:E; [left; auto|]. right. right. eauto. }
  assert (∀ st, st ∈ pending (sy_c s) → qs_completion st = Some n → known (sy_c s) n) as Hpend by (intros st Hst En; apply (to_pending _ Ht); by exists st).
  destruct (find_key_ok k (c_explicitQueue (sy_c s)) (mi_keyed _ _ Q2)) as (r & -> & Hr). simpl. destruct r as [st|].
  { intros [= En <-]. destruct Hr as [Hst _]. split; [eapply Hpend; [apply elem_of_app; by left|done]|]. right. left. by exists st. }
  pose proof (q_remove_key_law k (c_automaticQueue (sy_c s)) Q1 (mi_keyed _ _ Q3)) as Hq.
  destruct (q_remove_key k (c_automaticQueue (sy_c s))) as [[[st q]|]|]; simpl in Hq; [| |done].
  { destruct Hq as (Htk & _). apply take_first_sub in Htk as (l1 & l2 & E1 & _). intros [= En <-]. split.
    - apply (Hpend st); [|done]. apply elem_of_app. right. rewrite E1. apply elem_of_app. right. by left.
    - right. left. eexists. split; [simpl; apply elem_of_app; right; by left|done]. }
  pose proof (ci_reserved _ _ _ Hc) as [R1 R2 _].
  destruct (c_explicitReservations (sy_c s) !! k) as [st|] eqn:E1; [intros [= En <-]; apply (Hworker st); [by apply R1|done]|].
  destruct (c_automaticReservations (sy_c s) !! k) as [st|] eqn:E2; [intros [= En <-]; apply (Hworker st); [by apply R2|done]|].
  destruct (c_admissionWorkers (sy_c s) !! k) as [st|] eqn:E3; simpl; [|done]. intros [= En <-]. by apply (Hworker st).
Qed.

(** ** Waiting for a start that a resumption queued *)
Lemma prepareStarts_owned l dl : ∀ c key, currentNodeOwnedLocked key (prepareStarts l dl c).2 = currentNodeOwnedLocked key c.
Proof.
  induction l as [|i l IH]; intros c key; [done|]. simpl. specialize (IH (set_fresh (c_fresh c + 1)%N (set_completions (<[c_fresh c := None]> (c_completions c)) c)) key).
  by destruct (prepareStarts l dl _).
Qed.
Lemma prepareStarts_explicit l dl : ∀ c, Forall (λ st, qs_policy st = currentNodeAdmissionExplicitOverride) (prepareStarts l dl c).1.
Proof.
  induction l as [|i l IH]; intros c; [constructor|]. simpl. specialize (IH (set_fresh (c_fresh c + 1)%N (set_completions (<[c_fresh c := None]> (c_completions c)) c))).
  destruct (prepareStarts l dl _). by constructor.
Qed.
(** A start whose node has no owner is queued with the others. *)
Lemma approved_queued st key l : has_completion st → st ∈ l → CurrentNodeReference_Key (qs_reference st) = Ok key → Forall has_completion l →
  NoDup ((λ st, CurrentNodeReference_Key (qs_reference st)) <$> l) → ∀ c c', currentNodeOwnedLocked key c = false → queueApprovedStarts l c = (None, c') → st ∈ c_explicitQueue c'.
Proof.
  intros Hn Hst Ek Hl. revert Hst. induction Hl as [|x l Hx Hl IH]; [by intros []%elem_of_nil|]. intros Hst [Hno Hnd]%NoDup_cons c c' Ho. simpl.
  pose proof (λ c, adds_approved l Hl c) as Hadds. destruct (queueExplicitStartLocked x c) as [[e|] c1] eqn:E; [done|]. intros Eq. specialize (Hadds c1). rewrite Eq in Hadds.
  unfold queueExplicitStartLocked in E. destruct (_ <>? _); [done|]. rewrite (ensure_has x c Hx) in E. apply elem_of_cons in Hst as [<-|Hst].
  - rewrite Ek, Ho in E. injection E as <-. apply (ad_explicit _ _ Hadds). simpl. apply elem_of_app. right. by left.
  - apply (IH Hst Hnd c1); [|done]. destruct (CurrentNodeReference_Key (qs_reference x)) as [kx|] eqn:Ekx; [|done].
    destruct (currentNodeOwnedLocked kx c); injection E as <-; [done|]. assert (kx ≠ key) as Hne.
    { intros ->. apply Hno, list_elem_of_fmap. exists st. by rewrite Ek. }
    unfold currentNodeOwnedLocked in *. simpl. apply orb_false_iff in Ho as [[[Ho1 Ho2]%orb_false_iff Ho3]%orb_false_iff Ho4]. rewrite Ho2, Ho3, Ho4, !orb_false_r.
    apply bool_decide_eq_false in Ho1. apply bool_decide_eq_false. set_solver.
Qed.
Lemma prepared_eq l c c' : queuePreparedStarts l c = (None, c') → ∃ c2, queueApprovedStarts l c = (None, c2) ∧ c' = wakeAdmissionWorker c2.
Proof. unfold queuePreparedStarts. destruct (queueApprovedStarts l c) as [[e|] c2]; [done|]. intros [= <-]. eauto. Qed.
Lemma begin_step delivery inputs starts c1 c' s : c_closed (sy_c s) = false → prepareStarts inputs delivery (sy_c s) = (starts, c1) →
  queuePreparedStarts starts c1 = (None, c') → exec (Begin delivery inputs) s = Next (with_c c' s).
Proof. intros Ec Ep Eq. simpl. unfold behind_open_barrier. by rewrite Ec, Ep, Eq. Qed.
(** What is waited for is on its way. *)
Lemma waiting_on_its_way s n s1 : told s → inv scope_task limit false s → waits_for s n s1 →
  step scope_task s s1 ∧ known (sy_c s1) n ∧ on_its_way s1 n.
Proof.
  intros Ht Hi [key m c' Ec Ew|delivery inputs starts c1 start key m c' Ec Ep Hnd Hst Ek Ho Eq En].
  - split; [|by eapply watched_on_its_way]. apply (step_exec _ _ _ (Watch key)); [done|]. simpl. unfold behind_open_barrier. by rewrite Ec, Ew.
  - pose proof (begin_step _ _ _ _ _ _ Ec Ep Eq) as Es. split; [by apply (step_exec _ _ _ (Begin delivery inputs))|].
    destruct (exec_goes (Begin delivery inputs) s _ Ht Hi I Es) as [Ht1 _]. pose proof (prepareStarts_owned inputs delivery (sy_c s) key) as Ho1.
    destruct (prepareStarts_known inputs delivery (sy_c s)) as (_ & F1 & _). rewrite Ep in Ho1, F1. simpl in Ho1, F1.
    destruct (prepared_eq _ _ _ Eq) as (c2 & Ea & ->). assert (start ∈ c_explicitQueue c2) as Hin by (eapply approved_queued; [by exists m|done..|by rewrite Ho1|done]).
    split; [|right; left; by exists start]. apply (to_pending _ Ht1). exists start. split; [|done]. apply elem_of_app. by left.
Qed.
End answer.
