(* ===== verification/AdmissionDropped.v ===== *)
(** * A start that is dropped

    The completion of a start that is not in a queue and has no goroutine is
    never resolved: no section of the controller touches it. *)
From Stdlib Require Import ZArith String Lia.
From stdpp Require Import gmap strings list relations.
From S2P Require Import Prelude Types CurrentState AdmissionQueue AdmissionQueueFacts AdmissionInterface Admission AdmissionSteps AdmissionFacts AdmissionStepFacts AdmissionAnswer.

Section dropped.
Context {Q : Type} `{AutomaticQueue Q} `{RangeOrder} (scope_task : ExecutionScopeID → TaskID) (limit : Z).
Implicit Types (c : CurrentNodeController (Q := Q)) (s : system (Q := Q)) (st : currentNodeQueuedStart) (n : N).

(** ** Sections that leave a completion alone *)
Record untouched n c c' : Prop := {
  ut_completion : c_completions c' !! n = c_completions c !! n; ut_fresh : (c_fresh c ≤ c_fresh c')%N }.
Lemma untouched_refl n c : untouched n c c.
Proof. by split. Qed.
Lemma untouched_trans n c1 c2 c3 : untouched n c1 c2 → untouched n c2 c3 → untouched n c1 c3.
Proof. intros [] []. split; [congruence|lia]. Qed.
Lemma untouched_same n c c' : c_completions c' = c_completions c → (c_fresh c ≤ c_fresh c')%N → untouched n c c'.
Proof. intros E Hle. split; [by rewrite E|done]. Qed.
Lemma untouched_adds n c c' : adds c c' → untouched n c c'.
Proof. intros [E1 E2 _ _]. apply untouched_same; [done|by rewrite E2]. Qed.
Lemma untouched_prepare n l dl : ∀ c, (n < c_fresh c)%N → untouched n c (prepareStarts l dl c).2.
Proof.
  induction l as [|i l IH]; intros c Hn; [apply untouched_refl|]. simpl.
  specialize (IH (set_fresh (c_fresh c + 1)%N (set_completions (<[c_fresh c := None]> (c_completions c)) c)) ltac:(simpl; lia)).
  destruct (prepareStarts l dl _) as [starts c2]. eapply untouched_trans; [|exact IH]. split; simpl; [|lia]. rewrite lookup_insert_ne; [done|lia].
Qed.
Lemma untouched_watch n k c r : currentNodeAdmissionLocked k c = Ok r → untouched n c r.2.
Proof.
  unfold currentNodeAdmissionLocked. destruct (find_key _ _) as [[st|]|]; simpl; [intros [= <-]; apply untouched_refl| |done].
  destruct (q_remove_key _ _) as [[[st q]|]|]; [intros [= <-]; by apply untouched_same| |done]. repeat case_match; intros [= <-]; apply untouched_refl.
Qed.
Lemma untouched_promote n t c r : promote_section t c = Ok r → untouched n c r.2.
Proof.
  unfold promote_section. destruct (c_closed c); [intros [= <-]; apply untouched_refl|]. destruct (q_remove_task _ _) as [[l q]|]; [|done]. intros [= <-].
  eapply untouched_trans; [|apply untouched_adds, adds_promote]. by apply untouched_same.
Qed.
Lemma untouched_fence n f c : untouched n c (finishFence f c).
Proof. unfold finishFence. repeat case_match; try apply untouched_refl. by apply untouched_same. Qed.
Lemma untouched_scope n sc c : untouched n c (finishScope sc c).
Proof. unfold finishScope. eapply untouched_trans; [|apply untouched_fence]. by apply untouched_same. Qed.
Lemma untouched_node n k c : untouched n c (finishCurrentNode k c).
Proof. unfold finishCurrentNode. eapply untouched_trans; [|apply untouched_fence]. by apply untouched_same. Qed.
Lemma untouched_release n lease c c' : releaseAgentCapacityLocked lease c = Ok c' → untouched n c c'.
Proof. unfold releaseAgentCapacityLocked. repeat case_match; intros E; simplify_eq; try apply untouched_refl; by apply untouched_same. Qed.
Lemma untouched_delete n k p c : untouched n c (deleteAdmissionReservationLocked k p c).
Proof. unfold deleteAdmissionReservationLocked. destruct (isAutomatic p); by apply untouched_same. Qed.
Lemma untouched_reservation n k p lease c r : releaseReservation k p lease c = Ok r → untouched n c r.2.
Proof.
  unfold releaseReservation. pose proof (untouched_delete n k p c) as Hd. destruct (match lease with Some _ => _ | None => _ end) as [c'|] eqn:E; simpl; [|done].
  intros [= <-]. eapply untouched_trans; [exact Hd|]. destruct lease as [x|]; [|injection E as <-; apply untouched_refl].
  destruct (_ ==? _); [by eapply untouched_release|injection E as <-; apply untouched_refl].
Qed.
Lemma untouched_admit n kind k st c r : admit_section kind k st c = Ok r → untouched n c r.2.
Proof.
  unfold admit_section. destruct (ensureTaskAvailableLocked _ _); [intros [= <-]; apply untouched_refl|].
  destruct (admissionReservationLocked _ _ _); [|intros [= <-]; apply untouched_refl]. destruct (_ <>? _); [intros [= <-]; apply untouched_refl|].
  pose proof (untouched_delete n k (qs_policy st) c) as Hd. destruct kind; simpl; [|by intros [= <-]].
  unfold transitionAgentCapacityLocked. destruct (qs_agentCapacityLease st) as [x|]; simpl; [|by intros [= <-]]. destruct (_ <>? _); simpl; [done|].
  intros [= <-]. eapply untouched_trans; [exact Hd|]. by apply untouched_same.
Qed.
Lemma untouched_resolve n o out c : o ≠ Some n → untouched n c (resolve o out c).
Proof. intros Hn. destruct (resolve_eq o out c) as (m & -> & Hm). split; [by apply Hm|done]. Qed.
Lemma untouched_interrupted n t f c c' T : interrupted t f c c' → frame (c_fresh c) T c c' → ¬ pending_completion c n → untouched n c c'.
Proof. intros Hi Hf Hn. split; [|apply Hf]. apply (it_completions _ _ _ _ Hi). intros st Hst En. apply Hn. by exists st. Qed.
Lemma untouched_close_finish n c : ¬ pending_completion c n → untouched n c (close_finish c).
Proof.
  intros Hn. destruct (close_finish_eq c) as (m & -> & Hm). split; [|done]. apply Hm. intros st Hst En. apply Hn. exists st. split; [|done]. apply elem_of_app. by left.
Qed.

(** ** A completion nobody will resolve *)
Record dead n s : Prop := {
  de_open : c_completions (sy_c s) !! n = Some None; de_fresh : (n < c_fresh (sy_c s))%N; de_pending : ¬ pending_completion (sy_c s) n;
  de_workers : ∀ i w, sy_workers s !! i = Some w → qs_completion (wk_start w) ≠ Some n }.
Lemma dead_caller n s s' T : dead n s → sy_workers s' = sy_workers s → untouched n (sy_c s) (sy_c s') → frame (c_fresh (sy_c s)) T (sy_c s) (sy_c s') → dead n s'.
Proof.
  intros [D1 D2 D3 D4] Ew [U1 U2] Hf. split; [by rewrite U1|lia| |by rewrite Ew]. intros [Hp|Hp]%(fr_pending _ _ _ _ Hf); [done|lia].
Qed.
Lemma dead_quiet n s s' : dead n s → sy_workers s' = sy_workers s → untouched n (sy_c s) (sy_c s') → pending (sy_c s') = pending (sy_c s) → dead n s'.
Proof. intros [D1 D2 D3 D4] Ew [U1 U2] Ep. split; [by rewrite U1|lia| |by rewrite Ew]. unfold pending_completion. by rewrite Ep. Qed.
Lemma dead_spawn n s s' st c' : dead n s → taken (sy_c s) st c' → sy_c s' = c' → c_completions c' = c_completions (sy_c s) →
  sy_workers s' = <[sy_next s := {| wk_start := st; wk_phase := Preparing |}]> (sy_workers s) → dead n s'.
Proof.
  intros [D1 D2 D3 D4] Htk Ec Em Ew. destruct (tk_completion _ _ _ Htk) as (m & Hm & Hp & _). pose proof (tk_fresh _ _ _ Htk) as Hf. split; rewrite ?Ec.
  - by rewrite Em.
  - lia.
  - by intros ?%(tk_pending _ _ _ Htk).
  - rewrite Ew. intros i w [[_ <-]|[_ Hi]]%lookup_insert_Some; simpl; [|by eapply D4]. rewrite Hm. intros [= ->]. done.
Qed.
Lemma dead_go n s s' i w st p : dead n s → sy_workers s !! i = Some w → sy_workers s' = <[i := {| wk_start := st; wk_phase := p |}]> (sy_workers s) →
  same_start st (wk_start w) → untouched n (sy_c s) (sy_c s') → pending (sy_c s') = pending (sy_c s) → dead n s'.
Proof.
  intros [D1 D2 D3 D4] Hw Ew Hs [U1 U2] Ep. split; [by rewrite U1|lia|unfold pending_completion; by rewrite Ep|].
  rewrite Ew. intros j w' [[_ <-]|[_ Hj]]%lookup_insert_Some; simpl; [|by eapply D4]. rewrite (sm_completion _ _ Hs). by eapply D4.
Qed.

Section goroutine.
Context (n : N) (s : system (Q := Q)) (i : N) (w : worker) (Hd : dead n s) (Hw : sy_workers s !! i = Some w).
(** A goroutine that only changes its phase, and one that runs a section. *)
Lemma dead_move s' p : sy_workers s' = <[i := {| wk_start := wk_start w; wk_phase := p |}]> (sy_workers s) → sy_c s' = sy_c s → dead n s'.
Proof using Hd Hw. intros Ew Ec. eapply dead_go; [done|done|done|done|rewrite Ec; apply untouched_refl|by rewrite Ec]. Qed.
Lemma dead_section s' p : sy_workers s' = <[i := {| wk_start := wk_start w; wk_phase := p |}]> (sy_workers s) → untouched n (sy_c s) (sy_c s') →
  steady (sy_c s) (sy_c s') → dead n s'.
Proof using Hd Hw. intros Ew Hu [_ Ep]. by eapply dead_go. Qed.
Lemma worker_dead a s' : inv scope_task limit false s → worker_step i w a s = Next s' → dead n s'.
Proof using Hd Hw.
  intros Hi. unfold worker_step. destruct (id_key _ _ _ _ (wi_ids _ _ (in_w _ _ _ _ Hi)) i w Hw) as [k Ek]. rewrite (proj1 (start_key_Ok _ _) Ek).
  destruct (wk_phase w) as [|kind|kind|kind|kind|kind f|kind|e admitted|f handle|f handle|e admitted|e admitted|e admitted|e admitted|e reported|e reported|err handle| |] eqn:Ep.
  - destruct a as [|publication steer| | | | |]; try done. destruct (admit_prepare _ _ _) as [[kind st]|e] eqn:E; intros [= <-]; [|by eapply dead_move].
    apply admit_prepare_same in E. eapply dead_go; [done|done|done|done|apply untouched_refl|done].
  - destruct a; try done. destruct (_ || _); intros [= <-]; by eapply dead_move.
  - destruct a; try done; [destruct (sy_lanes s !! _); [done|]|]; intros [= <-]; by eapply dead_move.
  - destruct a; try done. destruct (admit_section _ _ _ _) as [r|p] eqn:E; simpl; [|done]. intros [= <-]. eapply dead_section; [done|by eapply untouched_admit|by eapply steady_admit].
  - destruct kind, a; try done; [destruct (durable_admission _ _) as [e|]|destruct (publish _ _) as [e|]]; simpl; try done; intros [= <-]; by eapply dead_move.
  - destruct a; try done. intros [= <-]. by eapply dead_move.
  - destruct a; try done. intros E. set (s1 := match kind with AdmitAgent => _ | AdmitScript => s end) in E.
    assert (∃ b p, s' = owe_wake b (go_on i (wk_start w) p s1)) as (b & p & ->).
    { destruct kind, o; simplify_eq; eauto; eexists false, _; done. }
    assert (sy_c s1 = sy_c s ∧ sy_workers s1 = sy_workers s) as [X1 X2] by (subst s1; destruct kind; [by destruct (qs_agentCapacityLease _)|done]).
    eapply dead_move; [simpl; by rewrite X2|done].
  - destruct a; try done. destruct (releaseAgentCapacityLocked _ _) as [c'|p] eqn:E; simpl; [|done]. intros [= <-].
    eapply dead_section; [done|by eapply untouched_release|by eapply steady_release].
  - destruct a; try done. destruct (releaseReservation _ _ _ _) as [r|p] eqn:E; simpl; [|done]. intros [= <-].
    eapply dead_section; [done|by eapply untouched_reservation|by eapply steady_reservation].
  - destruct a; try done. destruct f as [[e admitted]|]; [destruct (_ || _)|]; intros [= <-]; by eapply dead_move.
  - destruct a; try done. destruct (_ || _); intros [= <-]; by eapply dead_move.
  - destruct a; try done. destruct (_ || _); intros [= <-]; by eapply dead_move.
  - destruct a; try done; [destruct (sy_lanes s !! _); [done|]|]; intros [= <-]; by eapply dead_move.
  - destruct a; try done. destruct o; [| |destruct (isAutomatic _); [done|]]; intros [= <-]; by eapply dead_move.
  - destruct a; try done. intros [= <-]. by eapply dead_move.
  - destruct a; try done. intros [= <-]. destruct (_ || _); [by eapply dead_move|]. eapply dead_section; [done|by apply untouched_same|by apply steady_same].
  - destruct a; try done. intros [= <-]. eapply dead_section; [done|apply untouched_resolve; by eapply (de_workers _ _ Hd)|apply steady_resolve].
  - destruct a; try done. intros [= <-]. eapply dead_section; [done|apply untouched_node|apply steady_node].
  - destruct a; try done. unfold finishAdmissionWorker. rewrite (proj1 (start_key_Ok _ _) Ek). destruct (c_admissionWorkers (sy_c s) !! k); [|done]. destruct (_ || _); [done|].
    intros [= <-]. destruct Hd as [D1 D2 D3 D4]. split; [done..|]. simpl. intros j w' [_ Hj]%lookup_delete_Some. by eapply D4.
Qed.
End goroutine.

(** ** Every step *)
Lemma dispatch_dead n s s' : dead n s → inv scope_task limit false s → exec Dispatch s = Next s' → dead n s'.
Proof.
  intros Hd Hi. simpl. pose proof (in_c _ _ _ _ Hi) as Hc. destruct (sy_dispatcher s); [done|..|done].
  - pose proof (takeExplicitStart_ok scope_task limit (sy_c s) Hc) as Hok. destruct (takeExplicitStart (sy_c s)) as [[[st|] c']|p] eqn:E; simpl; [| |done]; intros [= <-].
    + destruct Hok as [_ Htk]. apply takeExplicit_keeps in E as (E1 & _); [|apply Hc]. by eapply dead_spawn.
    + subst. eapply dead_quiet; [done|done|apply untouched_refl|done].
  - pose proof (takeAutomaticIntent_ok scope_task limit (sy_c s) Hc) as Hok. destruct (takeAutomaticIntent (sy_c s)) as [[[st|] c']|p] eqn:E; simpl; [| |done]; intros [= <-].
    + destruct Hok as [_ Htk]. eapply takeAutomatic_keeps in E as (E1 & _); [|done]. by eapply dead_spawn.
    + subst. eapply dead_quiet; [done|done|apply untouched_refl|done].
Qed.
Lemma section_dead n t s r (f : result admit_error interrupt_cleanup → bool) s' : dead n s → section_ok scope_task limit t (sy_c s) r →
  in_free_lane t s (lift r (λ r, Next (owe_wake (f r.1) (with_c r.2 s)))) = Next s' → dead n s'.
Proof.
  intros Hd (x & c' & -> & _ & Hf & Hor). unfold in_free_lane, behind_open_barrier. destruct (c_closed _); [done|]. destruct (sy_lanes s !! t); [done|]. simpl.
  intros [= <-]. eapply dead_caller; [done|done| |apply Hf]. simpl. destruct Hor as [->|[g Hg]]; [apply untouched_refl|].
  eapply untouched_interrupted; [done|apply Hf|apply Hd].
Qed.
Lemma queued_dead n l dl s s' c2 : dead n s → sy_workers s' = sy_workers s → sy_c s' = c2 → untouched n (prepareStarts l dl (sy_c s)).2 c2 →
  frame (c_fresh (sy_c s)) (λ _, False) (sy_c s) c2 → dead n s'.
Proof.
  intros Hd Ew Ec Hu Hf. eapply dead_caller; [done|done| |by rewrite Ec]. rewrite Ec. eapply untouched_trans; [|exact Hu]. by apply untouched_prepare, Hd.
Qed.
Lemma callback_dead n x s s' : dead n s → lift (releaseAgentCapacity (Some x) (sy_c s)) (λ r, Next (owe_wake r.1 (with_c r.2 s))) = Next s' → dead n s'.
Proof.
  intros Hd. unfold releaseAgentCapacity. destruct (releaseAgentCapacityLocked (Some x) (sy_c s)) as [c'|p] eqn:E; simpl; [|done]. intros [= <-].
  eapply dead_quiet; [done|done|by eapply untouched_release|by eapply steady_release].
Qed.
Lemma exec_dead n a s s' : dead n s → inv scope_task limit false s → legal scope_task a → exec a s = Next s' → dead n s'.
Proof.
  intros Hd Hi Ha. pose proof (in_c _ _ _ _ Hi) as Hc. pose proof (λ c E1 E2, untouched_same n (sy_c s) c E1 E2) as Hsame.
  pose proof (λ l dl, prepareStarts_ok scope_task limit l dl (c_fresh (sy_c s)) (sy_c s) Hc (N.le_refl _)) as Hprep. pose proof (λ l dl, prepareStarts_known l dl (sy_c s)) as Hkn.
  pose proof (λ l dl s' c2, queued_dead n l dl s s' c2 Hd) as Hgo.
  destruct a as [| | |i a| |l|l|dl l|k|t|t sid l1 l2 nodes|t l1 l2|sc|k|x| |]; [simpl|by apply dispatch_dead|simpl..].
  - destruct (_ && _); [|done]. intros [= <-]. by eapply dead_quiet; [..|apply Hsame|].
  - destruct (_ && _); [|done]. intros [= <-]. by eapply dead_quiet; [..|apply Hsame|].
  - destruct (sy_workers s !! i) as [w|] eqn:Ew; [|done]. by eapply worker_dead.
  - destruct (sy_wakes s); [done|]. intros [= <-]. by eapply dead_quiet; [..|apply Hsame|].
  - specialize (Hprep l TaskPromptDeliveryAssignment). specialize (Hkn l TaskPromptDeliveryAssignment). specialize (Hgo l TaskPromptDeliveryAssignment).
    destruct (prepareStarts l _ _) as [starts c1]. simpl in *. destruct Hprep as (Hc1 & Hf1 & _ & Hr & _). destruct Hkn as (_ & F1 & _).
    destruct (l ==? []); [intros [= <-]; eapply Hgo; [done|done|by apply untouched_same|by apply frame_wake]|].
    pose proof (enqueueStarts_ok scope_task limit _ _ _ Hc1 (ready_automatic _ _ _ Hr)) as Hq. destruct (enqueueStarts _ c1) as [c2|p] eqn:E; simpl; [|done]. intros [= <-].
    destruct Hq as [_ Hf2]. apply keeps_enqueue in E as (_ & E2 & E3); [|by apply Forall_fmap]. apply (Hgo _ c2); [done|done|apply untouched_same; [done|rewrite E3; lia]|by eapply cframe_trans].
  - unfold behind_open_barrier. destruct (c_closed (sy_c s)) eqn:Ec; [done|]. specialize (Hprep l TaskPromptDeliveryAssignment). specialize (Hkn l TaskPromptDeliveryAssignment).
    specialize (Hgo l TaskPromptDeliveryAssignment). destruct (prepareStarts l _ _) as [starts c1]. simpl in *. destruct Hprep as (Hc1 & Hf1 & _ & Hr & _). destruct Hkn as (_ & F1 & _).
    intros [= <-]. destruct (queueApprovedStarts_ok scope_task limit _ _ _ Hc1 Hr) as [_ Hf2]. eapply Hgo; [done|done|by apply untouched_adds, adds_approved|by eapply cframe_trans].
  - unfold behind_open_barrier. destruct (c_closed (sy_c s)) eqn:Ec; [done|]. specialize (Hprep l dl). specialize (Hkn l dl).
    specialize (Hgo l dl). destruct (prepareStarts l _ _) as [starts c1]. simpl in *. destruct Hprep as (Hc1 & Hf1 & _ & Hr & _). destruct Hkn as (_ & F1 & _).
    intros [= <-]. destruct (queuePreparedStarts_ok scope_task limit _ _ _ Hc1 Hr) as [_ Hf2]. eapply Hgo; [done|done|by apply untouched_adds, adds_prepared|by eapply cframe_trans].
  - unfold behind_open_barrier. destruct (c_closed (sy_c s)); [done|]. destruct (currentNodeAdmission_ok scope_task limit k (sy_c s) Hc) as (r & c' & E & _ & Hf). rewrite E. simpl.
    intros [= <-]. eapply dead_caller; [done|done|exact (untouched_watch n k _ _ E)|apply Hf].
  - unfold in_free_lane, behind_open_barrier. destruct (c_closed _); [done|]. destruct (sy_lanes s !! t); [done|].
    destruct (promote_section_ok scope_task limit t (sy_c s) Hc) as (r & c' & E & _ & Hf). rewrite E. simpl.
    intros [= <-]. eapply dead_caller; [done|done|exact (untouched_promote n t _ _ E)|apply Hf].
  - apply (section_dead n t s _ (λ r, match r with Ok k => (ic_scopes k <>? []) || (ic_waits k <>? []) | Err _ => false end)); [done|by apply interrupt_section_ok].
  - apply (section_dead n t s _ (λ r, match r with Ok k => (ic_scopes k <>? []) || (ic_waits k <>? []) | Err _ => false end)); [done|by apply manual_move_section_ok].
  - intros [= <-]. eapply dead_quiet; [done|done|apply untouched_scope|apply steady_scope].
  - intros [= <-]. eapply dead_quiet; [done|done|apply untouched_node|apply steady_node].
  - case_bool_decide; [|done]. exact (callback_dead n x s s' Hd).
  - destruct (c_closed _) eqn:Ecl; [done|]. intros [= <-]. unfold close_begin. rewrite Ecl. by eapply dead_quiet; [..|apply Hsame|].
  - destruct (_ && _); [|done]. intros [= <-]. destruct (close_finish_ok scope_task limit (sy_c s) Hc) as [_ Hf]. eapply dead_caller; [done|done|apply untouched_close_finish, Hd|apply Hf].
Qed.
Lemma dead_steps n s s' : rtc (step scope_task) s s' → dead n s → inv scope_task limit false s → dead n s'.
Proof.
  induction 1 as [s|s s1 s2 [a Ha E] _ IH]; intros Hd Hi; [done|].
  pose proof (exec_ok scope_task limit false a s Hi Ha) as He. rewrite E in He. apply IH; [by eapply exec_dead|by apply He].
Qed.

(** ** The start of a node with an owner *)
Lemma prepareStarts_unresolved l dl : ∀ c st n, cinv scope_task limit c → st ∈ (prepareStarts l dl c).1 → qs_completion st = Some n →
  c_completions (prepareStarts l dl c).2 !! n = Some None.
Proof.
  induction l as [|i l IH]; intros c st n Hc; [by intros []%elem_of_nil|]. simpl.
  destruct (newCompletion_ok scope_task limit c Hc) as (_ & Hc1 & _). unfold newCurrentNodeAdmissionCompletion in Hc1. simpl in Hc1.
  specialize (IH (set_fresh (c_fresh c + 1)%N (set_completions (<[c_fresh c := None]> (c_completions c)) c)) st n Hc1).
  pose proof (untouched_prepare (c_fresh c) l dl (set_fresh (c_fresh c + 1)%N (set_completions (<[c_fresh c := None]> (c_completions c)) c)) ltac:(simpl; lia)) as [Hu _].
  destruct (prepareStarts l dl _) as [starts c2]. simpl in *. intros [->|Hst]%elem_of_cons; [|by apply IH]. simpl. intros [= <-]. by rewrite Hu, lookup_insert_eq.
Qed.
Lemma explicit_owned key st c : has_completion st → currentNodeOwnedLocked key c = true → currentNodeOwnedLocked key (queueExplicitStartLocked st c).2 = true.
Proof.
  intros Hst Ho. unfold queueExplicitStartLocked. destruct (_ <>? _); [done|]. rewrite (ensure_has st c Hst). destruct (CurrentNodeReference_Key _) as [k|]; [|done].
  destruct (currentNodeOwnedLocked k c); [done|]. unfold currentNodeOwnedLocked in *. simpl. destruct (key ∈? c_explicitQueued c) eqn:E; simpl in Ho.
  - apply bool_decide_eq_true in E. rewrite (bool_decide_eq_true_2 (key ∈ _)); [done|]. set_solver.
  - by rewrite <- !orb_assoc, (orb_assoc _ _ (bool_decide (is_Some (c_automaticReservations c !! key)))), Ho, orb_true_r.
Qed.
Lemma approved_dropped st key n l : Forall has_completion l → CurrentNodeReference_Key (qs_reference st) = Ok key → qs_completion st = Some n →
  (∀ x, x ∈ l → qs_completion x = Some n → x = st) → ∀ c, currentNodeOwnedLocked key c = true → ¬ pending_completion c n → ¬ pending_completion (queueApprovedStarts l c).2 n.
Proof.
  intros Hl Ek En. induction Hl as [|x l Hx Hl IH]; intros Huniq c Ho Hp; [done|]. simpl.
  pose proof (explicit_owned key x c Hx Ho) as Ho1. assert (¬ pending_completion (queueExplicitStartLocked x c).2 n) as Hp1.
  { unfold queueExplicitStartLocked. destruct (_ <>? _); [done|]. rewrite (ensure_has x c Hx). destruct (CurrentNodeReference_Key (qs_reference x)) as [kx|] eqn:Ekx; [|done].
    destruct (currentNodeOwnedLocked kx c) eqn:Ekc; [done|]. simpl. intros (y & Hy & Ey). apply Hp. exists y. split; [|done]. unfold pending in *. simpl in Hy.
    rewrite <- app_assoc in Hy. apply elem_of_app in Hy as [Hy|[Hy|Hy]%elem_of_app]; [apply elem_of_app; by left| |apply elem_of_app; by right].
    apply list_elem_of_singleton in Hy as ->. rewrite (Huniq x (list_elem_of_here _ _) Ey) in Ekx. congruence. }
  destruct (queueExplicitStartLocked x c) as [[e|] c1]; simpl in *; [done|]. apply IH; [|done|done]. intros y Hy. apply Huniq. by right.
Qed.
Lemma dropped_dead s n s1 : told s → inv scope_task limit false s → waits_dropped s n s1 → step scope_task s s1 ∧ dead n s1.
Proof.
  intros Ht Hi [delivery inputs starts c1 start key m c' Ec Ep Hst Ek Ho Eq En]. pose proof (in_c _ _ _ _ Hi) as Hc.
  split; [apply (step_exec _ _ _ (Begin delivery inputs)); [done|by eapply begin_step]|].
  pose proof (prepareStarts_ok scope_task limit inputs delivery (c_fresh (sy_c s)) (sy_c s) Hc (N.le_refl _)) as Hok. pose proof (prepareStarts_owned inputs delivery (sy_c s) key) as Ho1.
  pose proof (prepareStarts_unresolved inputs delivery (sy_c s) start m Hc) as Hun. destruct (prepareStarts_known inputs delivery (sy_c s)) as (_ & F1 & _).
  rewrite Ep in *. simpl in *. destruct Hok as (Hc1 & Hf1 & _ & [R1 R2] & Hlow). specialize (Hun Hst En). specialize (Hlow start m Hst En).
  destruct (R1 start Hst) as (_ & m' & Em' & _ & Hm & Hno). rewrite En in Em'. injection Em' as <-.
  destruct (prepared_eq _ _ _ Eq) as (c2 & Ea & ->). pose proof (adds_approved starts F1 c1) as Had. pose proof (approved_dropped start key m starts F1 Ek En) as Hdrop.
  rewrite Ea in Had. simpl in Had. split; simpl.
  - by rewrite (ad_completions _ _ Had).
  - by rewrite (ad_fresh _ _ Had).
  - specialize (Hdrop ltac:(intros x Hx Ex; eapply (NoDup_fmap_inj qs_completion); [exact R2|done|done|congruence]) c1 ltac:(congruence) Hno). by rewrite Ea in Hdrop.
  - intros i w Hw E. destruct (id_completion _ _ _ _ (wi_ids _ _ (in_w _ _ _ _ Hi)) i w Hw) as (x & Ex & Hx & _). rewrite E in Ex. injection Ex as <-. lia.
Qed.
End dropped.
