(* ===== verification/AdmissionSamples.v ===== *)
(** * Runs of the admission controller

    Schedules that evaluate: an admission up to its durable part, a controller
    at rest with its capacity in use, and a node that is queued again before the
    goroutine that admitted it has finished. *)
From Stdlib Require Import ZArith String.
From stdpp Require Import gmap strings list.
From S2P Require Import Prelude Types CurrentState AdmissionQueue AdmissionInterface Admission AdmissionSteps AdmissionFacts AdmissionStepFacts.

Local Open Scope string_scope.

Definition sample_reference (task node : string) : CurrentNodeReference := {| cnr_TaskID := task; cnr_NodeID := node; cnr_transitionBranchKey := None |}.
Definition sample_context (task node : string) : start_context :=
  {| sc_reference := sample_reference task node; sc_kind := NodeKindAgent; sc_session := None; sc_assignment := Some 0%N |}.
Definition sample_start (policy : currentNodeAdmissionPolicy) (task node : string) : currentNodeQueuedStart :=
  {| qs_reference := sample_reference task node; qs_nodeKind := NodeKindAgent; qs_taskPromptDelivery := TaskPromptDeliveryAssignment; qs_assignmentSteer := Some 0%N;
     qs_policy := policy; qs_completion := None; qs_agentCapacityLease := None; qs_scheduling := CurrentNodeSchedulingReady |}.
Definition sample_task (scope : ExecutionScopeID) : TaskID := "t".

Abbreviation linked_system := (system (Q := currentNodeAutomaticQueue)) (only parsing).
Definition sample_controller : CurrentNodeController (Q := currentNodeAutomaticQueue) :=
  {| c_agentConcurrency := 1; c_closed := false; c_closing := false; c_explicitQueue := []; c_explicitQueued := ∅; c_explicitReservations := ∅;
     c_automaticQueue := new_queue; c_queued := ∅; c_automaticReservations := ∅; c_admissionWorkers := ∅; c_agentCapacityActive := 0;
     c_interrupts := newCurrentNodeInterruptState; c_workerErr := []; c_lastAutomaticTask := None; c_workerWake := false; c_leases := ∅; c_completions := ∅;
     c_fences := ∅; c_fresh := 0%N |}.
Definition sample_new : linked_system := new_system sample_controller.
Definition state_of (o : outcome (Q := currentNodeAutomaticQueue)) : linked_system := match o with Next s => s | _ => sample_new end.

(** Two nodes are queued; the capacity is one. *)
Definition full_schedule : list action := [Complete [sample_context "t" "a"; sample_context "u" "b"]; Wake; Dispatch; Dispatch; Dispatch; Dispatch].
Definition full_state : linked_system := state_of (run (H0 := default_order) full_schedule sample_new).
(** The first one is about to be admitted durably. *)
Definition commit_schedule : list action := (full_schedule ++ [Run 0 (Prepared (Ok false) None); Run 0 Silent; Run 0 Silent; Run 0 Silent])%list.
Definition commit_state : linked_system := state_of (run (H0 := default_order) commit_schedule sample_new).
(** It runs, and completes with a transition to its own node before the
    goroutine that admitted it has finished. *)
Definition self_loop_schedule : list action := (commit_schedule ++
  [Run 0 (AdmitAnswer {| ar_committed := true; ar_err := None |}); Run 0 Silent; Run 0 (StartAnswer (StartRunning 7)); Run 0 Silent;
   CapacityCallback 2; Complete [sample_context "t" "a"]; Wake; Dispatch; Dispatch; Run 0 Silent; Run 0 Silent; Run 0 Silent; Run 0 Silent])%list.

Lemma sample_controller_new : NewCurrentNodeController 1 = Ok sample_controller.
Proof. done. Qed.
Lemma full_run : run (H0 := default_order) full_schedule sample_new = Next full_state.
Proof. vm_compute. reflexivity. Qed.
Lemma commit_run : run (H0 := default_order) commit_schedule sample_new = Next commit_state.
Proof. vm_compute. reflexivity. Qed.
Lemma commit_exclusive_run : run_exclusive (H1 := default_order) commit_schedule sample_new = Some commit_state.
Proof. vm_compute. reflexivity. Qed.
Lemma full_legal scope_task : Forall (legal scope_task) full_schedule.
Proof. repeat constructor. Qed.
Lemma commit_legal : Forall (legal sample_task) commit_schedule.
Proof. repeat constructor. Qed.
Lemma full_reachable scope_task : reachable (H1 := default_order) scope_task 1 full_state.
Proof. exists sample_controller. split; [done|]. eapply run_steps; [apply full_run|apply full_legal]. Qed.
Lemma commit_reachable : reachable (H1 := default_order) sample_task 1 commit_state.
Proof. exists sample_controller. split; [done|]. eapply run_steps; [apply commit_run|apply commit_legal]. Qed.
Lemma commit_exclusively : exclusively (H1 := default_order) sample_task 1 commit_state.
Proof. exists sample_controller. split; [done|]. eapply run_exclusive_steps; [apply commit_exclusive_run|apply commit_legal]. Qed.

(** A caller waits for the second node, which moves to the explicit queue; both
    admissions then run to their end. *)
Definition watched_key : CurrentNodeReferenceKey := serialCurrentNodeReferenceKey "u" "b".
Definition watched_controller : CurrentNodeController (Q := currentNodeAutomaticQueue) :=
  match currentNodeAdmissionLocked watched_key (sy_c full_state) with Ok r => r.2 | Err _ => sample_controller end.
Definition admission_run (i handle : N) : list action := [
  Run i (Prepared (Ok false) None); Run i Silent; Run i Silent; Run i Silent; Run i (AdmitAnswer {| ar_committed := true; ar_err := None |});
  Run i Silent; Run i (StartAnswer (StartRunning handle)); Run i Silent; Run i Silent; Run i Silent; Run i Silent; Run i Silent].
Definition served_schedule : list action :=
  ([Wake; Dispatch; Dispatch; Dispatch] ++ admission_run 0 7 ++ admission_run 1 8 ++ [SendWake; SendWake; SendWake; SendWake; Wake; Dispatch; Dispatch])%list.
Definition served_state : linked_system := state_of (run (H0 := default_order) served_schedule (with_c watched_controller full_state)).
Lemma watched_completion : currentNodeAdmissionLocked watched_key (sy_c full_state) = Ok (Some 1%N, watched_controller).
Proof. vm_compute. reflexivity. Qed.
Lemma served_run : run (H0 := default_order) served_schedule (with_c watched_controller full_state) = Next served_state.
Proof. vm_compute. reflexivity. Qed.
Lemma served_steps : rtc (step (H1 := default_order) sample_task) (with_c watched_controller full_state) served_state.
Proof. eapply run_steps; [apply served_run|repeat constructor]. Qed.

(** A resumption queues a start of its own, which is then served. *)
Definition resumed_start : list currentNodeQueuedStart * CurrentNodeController (Q := currentNodeAutomaticQueue) :=
  prepareStarts [sample_context "w" "d"] TaskPromptDeliveryResume sample_controller.
Definition resumed_controller : CurrentNodeController (Q := currentNodeAutomaticQueue) := (queuePreparedStarts resumed_start.1 resumed_start.2).2.
Definition resumed_schedule : list action := ([Wake; Dispatch; Dispatch; Dispatch] ++ admission_run 0 7 ++ [SendWake; SendWake; Wake; Dispatch; Dispatch])%list.
Definition resumed_state : linked_system := state_of (run (H0 := default_order) resumed_schedule (with_c resumed_controller sample_new)).
Lemma resumed_waits : waits_for sample_new 0%N (with_c resumed_controller sample_new).
Proof.
  apply (waits_start sample_new TaskPromptDeliveryResume [sample_context "w" "d"] resumed_start.1 resumed_start.2
    (default (sample_start currentNodeAdmissionExplicitOverride "w" "d") (head resumed_start.1)) (serialCurrentNodeReferenceKey "w" "d")); try reflexivity.
  - repeat constructor. by intros []%elem_of_nil.
  - apply list_elem_of_here.
Qed.
Lemma new_reachable scope_task : reachable (H1 := default_order) scope_task 1 sample_new.
Proof. exists sample_controller. split; [done|apply rtc_refl]. Qed.
Lemma resumed_run : run (H0 := default_order) resumed_schedule (with_c resumed_controller sample_new) = Next resumed_state.
Proof. vm_compute. reflexivity. Qed.
Lemma resumed_steps : rtc (step (H1 := default_order) sample_task) (with_c resumed_controller sample_new) resumed_state.
Proof. eapply run_steps; [apply resumed_run|repeat constructor]. Qed.
Lemma watched_waits : waits_for full_state 1%N (with_c watched_controller full_state).
Proof. apply (waits_admission full_state watched_key); [vm_compute; reflexivity|exact watched_completion]. Qed.

(** A start of a node that waits in the automatic queue already. *)
Definition dropped_start : list currentNodeQueuedStart * CurrentNodeController (Q := currentNodeAutomaticQueue) :=
  prepareStarts [sample_context "u" "b"] TaskPromptDeliveryResume (sy_c full_state).
Definition dropped_controller : CurrentNodeController (Q := currentNodeAutomaticQueue) := (queuePreparedStarts dropped_start.1 dropped_start.2).2.
Lemma dropped_waits : waits_dropped full_state (c_fresh (sy_c full_state)) (with_c dropped_controller full_state).
Proof.
  apply (waits_owned full_state TaskPromptDeliveryResume [sample_context "u" "b"] dropped_start.1 dropped_start.2
    (default (sample_start currentNodeAdmissionExplicitOverride "u" "b") (head dropped_start.1)) (serialCurrentNodeReferenceKey "u" "b"));
    try (vm_compute; reflexivity).
  apply list_elem_of_here.
Qed.
