(* ===== verification/AdmissionClaims.v ===== *)
(** * Claims about current node execution

    The automatic queue against a list, and the controller under every schedule
    of its dispatcher, its goroutines and its callers. *)
From Stdlib Require Import ZArith String Lia.
From stdpp Require Import gmap strings list relations.
From S2P Require Import Prelude Types CurrentState AdmissionQueue AdmissionQueueFacts AdmissionInterface Admission AdmissionSteps AdmissionFacts AdmissionStepFacts AdmissionWake AdmissionAnswer AdmissionDropped AdmissionSamples.

(** C22. The linked automatic queue does what a list of starts does. Over any
    history of fewer than 2^64 operations, with appended starts that are
    automatic and have a key, no operation panics, and every answer (the start
    selected for admission with or without agent capacity, the starts of a
    removed task, the start removed by its key, the length) is the answer of the
    list: admission prefers the first admissible start of the task served last
    and else takes the first admissible one. *)
Theorem automatic_queue_refines_list (ops : list queue_op) (Hops : Forall op_ok ops) (Hlen : (Z.of_nat (length ops) < 2 ^ 64)%Z) :
  ∃ answers, run_ops ops new_queue = Some answers ∧ run_ops ops ([] : list currentNodeQueuedStart) = Some answers.
Proof.
  refine (agree_ops ops 0 _ _ (agree_new (Q := currentNodeAutomaticQueue) (R := list currentNodeQueuedStart)) _ _ Hops); [done|unfold max_uint64; lia].
Qed.
Definition queue_sample : list queue_op :=
  [OpAppend (sample_start currentNodeAdmissionAutomaticAgent "t" "a"); OpAppend (sample_start currentNodeAdmissionAutomaticScript "u" "b");
   OpAppend (sample_start currentNodeAdmissionAutomaticAgent "u" "c"); OpTake (Some "u"%string) true; OpTake (Some "u"%string) false; OpRemoveTask "t"; OpLen].
Lemma automatic_queue_refines_list_witness :
  run_ops queue_sample new_queue = run_ops queue_sample ([] : list currentNodeQueuedStart).
Proof.
  destruct (automatic_queue_refines_list queue_sample) as (answers & E1 & E2).
  - repeat constructor; by eexists.
  - reflexivity.
  - rewrite E1, E2. reflexivity.
Defined.

Section claims.
Context `{RangeOrder} (scope_task : ExecutionScopeID → TaskID) (limit : Z).
Implicit Types (s : system (Q := currentNodeAutomaticQueue)).

(** C7. Agent capacity is never exceeded and never lost. In every reachable state
    the counter of active agent starts is the number of leases that are not
    released, between zero and the configured limit, and no two goroutines have
    the same lease, whatever fails and however releases, interruptions and
    callbacks interleave. *)
Theorem agent_capacity_bounded s (Hs : reachable scope_task limit s) :
  c_agentCapacityActive (sy_c s) = Z.of_nat (size (unreleased (c_leases (sy_c s)))) ∧ (0 ≤ c_agentCapacityActive (sy_c s) ≤ limit)%Z ∧
  ∀ i j w w' n, sy_workers s !! i = Some w → sy_workers s !! j = Some w' → qs_agentCapacityLease (wk_start w) = Some n →
    qs_agentCapacityLease (wk_start w') = Some n → i = j.
Proof.
  apply inv_reachable in Hs as [[_ _ _ _ [K1 K2 K3 _] _] [_ _ L _ _]]. split_and!; [done|rewrite K1; apply Nat2Z.is_nonneg|lia|apply L].
Qed.

(** C12. A node has one owner. In every reachable state the two queues hold
    different nodes, the sets of queued keys are exactly their keys, no node is
    queued and reserved or reserved twice, and every reservation is the entry of
    a goroutine that is still running and has not released it. *)
Theorem admission_single_owner s (Hs : reachable scope_task limit s) :
  let c := sy_c s in
  NoDup (keys (c_explicitQueue c ++ items (c_automaticQueue c))) ∧
  (∀ k, k ∈ c_explicitQueued c ↔ k ∈ keys (c_explicitQueue c)) ∧ (∀ k, k ∈ c_queued c ↔ k ∈ keys (items (c_automaticQueue c))) ∧
  (∀ k st, reserved c k st → (k ∉ c_explicitQueued c) ∧ (k ∉ c_queued c) ∧ c_admissionWorkers c !! k = Some st ∧
     (∀ st', reserved c k st' → st' = st) ∧ ∃ i w, sy_workers s !! i = Some w ∧ same_start (wk_start w) st ∧ holding (wk_phase w) = true).
Proof.
  apply inv_reachable in Hs as [[[_ M1 M2 _] [A1 A2 A3] [R1 R2 _] _ _ _] [_ W2 _ _ _]]. simpl in *.
  assert (∀ k st, reserved (sy_c s) k st → c_admissionWorkers (sy_c s) !! k = Some st) as Hentry by (intros k st [?%R1|?%R2]; tauto).
  split_and!; [|apply M1|apply M2|].
  - rewrite keys_app. apply NoDup_app. split_and!; [apply M1| |apply M2]. intros k Hk1 Hk2. apply (mi_set _ _ M1) in Hk1. apply (mi_set _ _ M2) in Hk2.
    destruct (A1 k Hk1). tauto.
  - intros k st Hr. assert (is_Some (c_explicitReservations (sy_c s) !! k) ∨ is_Some (c_automaticReservations (sy_c s) !! k)) as Hx by (destruct Hr; eauto).
    split_and!; [| |by apply Hentry| |by eapply W2].
    + intros Hk. destruct (A1 k Hk) as (_ & E1 & E2). rewrite E1, E2 in Hx. by destruct Hx as [[]|[]].
    + intros Hk. destruct (A2 k Hk) as (E1 & E2). rewrite E1, E2 in Hx. by destruct Hx as [[]|[]].
    + intros st' Hr'%Hentry. apply Hentry in Hr. congruence.
Qed.

(** C2. No wake-up is lost. In a reachable state of an open controller in which
    the dispatcher sleeps, its wake-up channel is empty and no goroutine is about
    to wake it, nothing that could be admitted is waiting: the explicit queue is
    empty or all explicit admissions are in flight, and the automatic queue holds
    agent starts only, with the whole agent capacity in use. *)
Theorem no_lost_wakeup s (Hs : reachable scope_task limit s) (Hopen : c_closed (sy_c s) = false ∧ c_closing (sy_c s) = false) (Hrest : at_rest s = true) :
  (c_explicitQueue (sy_c s) = [] ∨ (explicitAdmissionConcurrency ≤ inFlightAdmissionCountLocked currentNodeAdmissionExplicitOverride (sy_c s))%nat) ∧
  ∀ st, st ∈ items (c_automaticQueue (sy_c s)) → qs_policy st = currentNodeAdmissionAutomaticAgent ∧ c_agentCapacityActive (sy_c s) = limit.
Proof.
  apply rest_not_owed in Hrest as [Hno Hidle]. destruct Hopen as [Hcl Hcg]. destruct (wake_reachable _ _ s Hs Hcl Hcg) as [|Hset]; [done|].
  unfold settled in Hset. rewrite Hidle in Hset. destruct Hset as [S1 S2]. apply inv_reachable in Hs as [[[Hq _ _ _] _ _ _ [K1 K2 K3 _] _] _]. split.
  - destruct (c_explicitQueue (sy_c s)) eqn:Eq; [by left|right]. apply Nat.nlt_ge. intros Hlt. apply S1. split; [done|]. by rewrite Eq.
  - intros st Hst. assert (¬ admissible (c_agentCapacityActive (sy_c s) <? c_agentConcurrency (sy_c s))%Z st = true) as Hadm by (intros Ha; apply S2; by exists st).
    unfold admissible in Hadm. apply not_true_is_false, orb_false_iff in Hadm as [Hav Hp]. apply Z.ltb_ge in Hav. apply bool_decide_eq_false in Hp.
    pose proof (q_automatic_law (c_automaticQueue (sy_c s)) st Hq Hst) as Ha. split; [by destruct (qs_policy st)|lia].
Qed.

(** C19. A durable admission never overlaps an interruption of its task. While
    a goroutine admits a node in the store, no fence of the node's task is
    active, and no other goroutine is in the lane of the task. *)
Theorem admission_excludes_interruption s (Hs : reachable scope_task limit s) i w kind (Hw : sy_workers s !! i = Some w) (Hp : wk_phase w = Committing kind) :
  taskActive (qs_task (wk_start w)) (sy_c s) = false ∧
  ∀ j w', sy_workers s !! j = Some w' → in_lane (wk_phase w') = true → qs_task (wk_start w') = qs_task (wk_start w) → j = i.
Proof.
  apply inv_reachable in Hs as [_ [_ _ _ [_ L] C]]. split; [by eapply C|]. intros j w' Hj Hin Ht. apply L in Hj; [|done]. apply L in Hw; [|by rewrite Hp]. congruence.
Qed.


(** C21. Quiescence is real. As long as no start is taken while the goroutine of
    its node still runs, a task that the controller reports quiescent has no
    fence, no start in a queue or reservation, no goroutine at any stage of an
    admission, and its lane is not held by one. *)
Theorem quiescent_task_has_no_work s t (Hs : exclusively scope_task limit s) (Hq : taskExecutionQuiescentLocked t (sy_c s) = true) :
  taskActive t (sy_c s) = false ∧ (∀ st, st ∈ pending (sy_c s) → qs_task st ≠ t) ∧ (∀ k st, reserved (sy_c s) k st → qs_task st ≠ t) ∧
  (∀ i w, sy_workers s !! i = Some w → qs_task (wk_start w) ≠ t) ∧ sy_lanes s !! t = None.
Proof.
  apply inv_exclusively in Hs as [Hc [[_ I2 _ _ _ I6] _ _ [A1 _] _]]. unfold taskExecutionQuiescentLocked in Hq.
  assert (∀ l, has_task t l = false → ∀ st, st ∈ l → qs_task st ≠ t) as Hno.
  { intros l Hl st Hst Ht. assert (has_task t l = true) as E; [|by rewrite E in Hl]. apply existsb_exists. exists st. split; [by apply list_elem_of_In|by apply bool_decide_eq_true]. }
  assert (∀ m k st, has_task t (reserved_starts m) = false → m !! k = Some st → qs_task st ≠ t) as Hnom.
  { intros m k st Hm Hk. eapply Hno; [exact Hm|]. apply list_elem_of_fmap. exists (k, st). split; [done|]. by apply elem_of_map_to_list. }
  destruct (taskActive t _); [done|]. destruct (has_task t (q_items _)) eqn:E1; [done|]. destruct (has_task t (reserved_starts (c_automaticReservations _))) eqn:E2; [done|].
  destruct (has_task t (c_explicitQueue _)) eqn:E3; [done|]. destruct (has_task t (reserved_starts (c_explicitReservations _))) eqn:E4; [done|].
  destruct (has_task t (reserved_starts (c_admissionWorkers _))) eqn:E5; [done|].
  assert (∀ i w, sy_workers s !! i = Some w → qs_task (wk_start w) ≠ t) as Hw.
  { intros i w Hi. destruct (I2 i w Hi) as [k Hk]. destruct (I6 eq_refl i w k Hi Hk) as (st & Hst & Hsame). rewrite (same_task _ _ Hsame). exact (Hnom _ k st E5 Hst). }
  split_and!; [done| | |done|].
  - intros st [Hst|Hst]%elem_of_app; [exact (Hno _ E3 st Hst)|exact (Hno _ E1 st Hst)].
  - intros k st [Hst|Hst]; [exact (Hnom _ k st E4 Hst)|exact (Hnom _ k st E2 Hst)].
  - apply eq_None_not_Some. intros [i (w & Hi & _ & Ht)%A1]. by apply (Hw i w Hi).
Qed.

(** C8. The controller's own panics do not happen. As long as no start is taken
    while the goroutine of its node still runs, the only panics a schedule can
    run into are those that report a failure of the outside: a durable admission
    that neither committed nor definitely failed, an interruption of an
    automatic start that could not be stored, and the overflow of the order of
    the automatic queue. Capacity, fences, the index of the queue, keys and the
    ownership of admission workers never panic. *)
Theorem admission_panics_are_external s a p (Hs : exclusively scope_task limit s) (Ha : legal scope_task a) (Hp : exec a s = Panic p) :
  match p with
  | QueueOverflow => ∃ inputs, a = Complete inputs
  | AdmissionUncertain => ∃ i answer w kind, a = Run i answer ∧ sy_workers s !! i = Some w ∧ wk_phase w = Committing kind
  | InterruptionLost => ∃ i answer w e admitted, a = Run i answer ∧ sy_workers s !! i = Some w ∧ wk_phase w = Recovering e admitted
  | _ => False
  end.
Proof.
  apply inv_exclusively in Hs. pose proof (exec_ok scope_task limit true a s Hs Ha) as He. rewrite Hp in He. destruct a as [| | |i ans| |l|l|d l|k|t|t sid l1 l2 nodes|t l1 l2|sc|k|n| |]; try done.
  - destruct He as (w & Hw & He). destruct p; try done; [by destruct He|destruct He as [kind He]; eauto 10|destruct He as (e & adm & He); eauto 10].
  - simpl in He. subst. eauto.
Qed.

(** C10. Waiting for an admission is answered. A completion that a resumption was
    given to wait for, that of the admission of a node that is under way or that
    of the start it has itself put in the queue, stays on its way in every later state: it
    is resolved, or its start is in the explicit queue, or the goroutine of its
    start has not resolved it yet. When no goroutine is left and the controller is
    closed, or open with its dispatcher at rest, the completion is resolved,
    whatever was interrupted, promoted or failed in between. *)
Theorem admission_waiters_answered s n s1 s' (Hs : reachable scope_task limit s) (Hk : waits_for s n s1) (Hr : rtc (step scope_task) s1 s') :
  on_its_way s' n ∧
  (sy_workers s' = ∅ → c_closed (sy_c s') = true ∨ (c_closed (sy_c s') = false ∧ c_closing (sy_c s') = false ∧ at_rest s' = true) →
     ∃ out, c_completions (sy_c s') !! n = Some (Some out)).
Proof.
  destruct (waiting_on_its_way scope_task limit s n s1 (told_reachable _ _ _ Hs) (inv_reachable _ _ _ Hs) Hk) as (Hst & Hkn & Hway).
  pose proof (reachable_later _ _ _ _ Hs (rtc_once _ _ Hst)) as Hs1.
  destruct (goes_steps _ limit _ s' Hr (told_reachable _ _ _ Hs1) (inv_reachable _ _ _ Hs1)) as [[Ht' Hg] Hi']. destruct (Hg n Hkn) as [_ Hgo]. specialize (Hgo Hway).
  split; [done|]. intros Ew Hend. destruct Hgo as [Ha|[(st & Hst' & _)|(i & w & Hw & _)]]; [done| |by rewrite Ew, lookup_empty in Hw]. exfalso.
  destruct Hend as [Hcl|(Hcl & Hcg & Hrest)]; [rewrite (to_shut _ Ht' Hcl) in Hst'; by apply elem_of_nil in Hst'|].
  pose proof (reachable_later _ _ _ _ Hs1 Hr) as Hs'.
  apply rest_not_owed in Hrest as [Hno Hidle]. destruct (wake_reachable _ _ s' Hs' Hcl Hcg) as [|Hset]; [done|]. unfold settled in Hset. rewrite Hidle in Hset.
  apply (proj1 Hset). split; [|by intros E; rewrite E in Hst'; apply elem_of_nil in Hst']. unfold inFlightAdmissionCountLocked.
  assert (c_admissionWorkers (sy_c s') = ∅) as ->; [|rewrite map_to_list_empty; unfold explicitAdmissionConcurrency; simpl; lia].
  apply map_empty. intros k'. apply eq_None_not_Some. intros [x (i & w & Hw & _)%(id_entry _ _ _ _ (wi_ids _ _ (in_w _ _ _ _ Hi')))]. by rewrite Ew, lookup_empty in Hw.
Qed.

End claims.

(** ** Concrete runs *)
Lemma agent_capacity_bounded_witness :
  c_agentCapacityActive (sy_c full_state) = 1%Z ∧ (0 ≤ c_agentCapacityActive (sy_c full_state) ≤ 1)%Z.
Proof.
  destruct (@agent_capacity_bounded default_order sample_task 1 full_state (full_reachable _)) as (_ & Hb & _). split; [vm_compute; reflexivity|exact Hb].
Defined.
Lemma admission_single_owner_witness :
  NoDup (keys (c_explicitQueue (sy_c full_state) ++ items (c_automaticQueue (sy_c full_state)))) ∧ length (items (c_automaticQueue (sy_c full_state))) = 1%nat.
Proof.
  destruct (@admission_single_owner default_order sample_task 1 full_state (full_reachable _)) as (Hnd & _). split; [exact Hnd|vm_compute; reflexivity].
Defined.
Lemma full_at_rest : at_rest full_state = true.
Proof. vm_compute. reflexivity. Qed.
Lemma full_open : c_closed (sy_c full_state) = false ∧ c_closing (sy_c full_state) = false.
Proof. vm_compute. split; reflexivity. Qed.
Lemma no_lost_wakeup_witness : length (items (c_automaticQueue (sy_c full_state))) = 1%nat ∧
  ∀ st, st ∈ items (c_automaticQueue (sy_c full_state)) → qs_policy st = currentNodeAdmissionAutomaticAgent ∧ c_agentCapacityActive (sy_c full_state) = 1%Z.
Proof.
  destruct (@no_lost_wakeup default_order sample_task 1 full_state (full_reachable _) full_open full_at_rest) as [_ Hw]. split; [vm_compute; reflexivity|exact Hw].
Defined.
Definition commit_worker : worker := default {| wk_start := sample_start currentNodeAdmissionAutomaticAgent "t" "a"; wk_phase := Finishing |} (sy_workers commit_state !! 0%N).
Lemma commit_worker_runs : sy_workers commit_state !! 0%N = Some commit_worker.
Proof. vm_compute. reflexivity. Qed.
Lemma commit_worker_commits : wk_phase commit_worker = Committing AdmitAgent.
Proof. vm_compute. reflexivity. Qed.
Lemma admission_excludes_interruption_witness : taskActive (qs_task (wk_start commit_worker)) (sy_c commit_state) = false.
Proof.
  exact (proj1 (@admission_excludes_interruption default_order sample_task 1 commit_state commit_reachable 0%N commit_worker AdmitAgent commit_worker_runs commit_worker_commits)).
Defined.
Lemma commit_quiescent : taskExecutionQuiescentLocked "v" (sy_c commit_state) = true.
Proof. vm_compute. reflexivity. Qed.
Lemma quiescent_task_has_no_work_witness :
  taskActive "v" (sy_c commit_state) = false ∧ ∀ i w, sy_workers commit_state !! i = Some w → qs_task (wk_start w) ≠ "v"%string.
Proof.
  destruct (@quiescent_task_has_no_work default_order sample_task 1 commit_state "v"%string commit_exclusively commit_quiescent) as (Ha & _ & _ & Hw & _).
  split; [exact Ha|exact Hw].
Defined.
Definition uncertain_answer : action := Run 0 (AdmitAnswer {| ar_committed := false; ar_err := None |}).
Lemma uncertain_panics : @exec _ _ default_order uncertain_answer commit_state = Panic AdmissionUncertain.
Proof. vm_compute. reflexivity. Qed.
Lemma admission_panics_are_external_witness : ∃ i answer w kind, uncertain_answer = Run i answer ∧ sy_workers commit_state !! i = Some w ∧ wk_phase w = Committing kind.
Proof.
  exact (@admission_panics_are_external default_order sample_task 1 commit_state uncertain_answer AdmissionUncertain commit_exclusively I uncertain_panics).
Defined.

Lemma served_idle : sy_workers served_state = ∅ ∧ c_closed (sy_c served_state) = false ∧ c_closing (sy_c served_state) = false ∧ at_rest served_state = true.
Proof. vm_compute. split_and!; reflexivity. Qed.
Lemma resumed_idle : sy_workers resumed_state = ∅ ∧ c_closed (sy_c resumed_state) = false ∧ c_closing (sy_c resumed_state) = false ∧ at_rest resumed_state = true.
Proof. vm_compute. split_and!; reflexivity. Qed.
Lemma admission_waiters_answered_witness :
  (∃ out, c_completions (sy_c served_state) !! 1%N = Some (Some out)) ∧ ∃ out, c_completions (sy_c resumed_state) !! 0%N = Some (Some out).
Proof.
  split.
  - destruct (@admission_waiters_answered default_order sample_task 1 full_state 1%N _ served_state (full_reachable _) watched_waits served_steps) as [_ Hend].
    destruct served_idle as [Hw Hidle]. exact (Hend Hw (or_intror Hidle)).
  - destruct (@admission_waiters_answered default_order sample_task 1 sample_new 0%N _ resumed_state (new_reachable _) resumed_waits resumed_steps) as [_ Hend].
    destruct resumed_idle as [Hw Hidle]. exact (Hend Hw (or_intror Hidle)).
Defined.

(** A node can be queued and taken again before the goroutine that admitted
    it has finished, when it is the target of a transition of its own that
    completes at once: its entry among the admission workers is replaced, and the
    first goroutine panics when it finishes, although nothing outside failed. *)
Example requeued_node_panics : Forall (legal sample_task) self_loop_schedule ∧ @run _ _ default_order self_loop_schedule sample_new = Panic WorkerReplaced.
Proof. split; [repeat constructor|vm_compute; reflexivity]. Qed.
